(* ===== verification/_CoqProject ===== *)
-Q . S2P
Prelude.v
TimeUtils.v
Ring.v
WireHeader.v
Gf256.v
ByteVec.v
RsMatrix.v
RsGenerator.v
RsSimd.v
RsEncode.v
Codec.v
CodecSpec.v
RsCodec.v
RsCodecSpec.v
RsRecover.v
RsTheorems.v
CodecInterface.v
WireDecoder.v
WireDecoderSpec.v
WireDecoderRun.v
WireDecoderTheorems.v
FecTransport.v
FecEncoder.v
FecDecoder.v
FecGroups.v
FecEncoderSpec.v
FecDecoderEmit.v
FecDecoderInv.v
FecDecoderSpec.v
FecDelivery.v
FecCreate.v
FecEndToEnd.v
FecTheorems.v
FecLimits.v
WirehairSegment.v
WirehairReceiver.v
WirehairSender.v
WirehairSegmentSpec.v
WirehairSendSpec.v
WirehairReceiverSpec.v
WirehairSenderSpec.v
WirehairChannel.v
WirehairTheorems.v
FlowPeerMap.v
Packet.v
PktQueue.v
FlowBuffer.v
MixedQueue.v
Ownership.v
TxQueue.v
DatagramPool.v
EgressQueue.v
RelayDeferred.v
RelayDeferredSpec.v
GenerationCache.v
GenerationCacheList.v
GenerationCacheSpec.v
RsBats.v
Recode.v
RecodeSpec.v
RecodeTheorems.v
Relay.v
RelayInv.v
RelayIngress.v
RelayHandlers.v
RelayLife.v
RelaySystem.v
RelayTheorems.v
LocalSource.v
LocalDecode.v
LocalDecodeSpec.v
LocalTheorems.v
FlowContext.v
Dispatcher.v
DispatcherSpec.v
FlowManager.v
FlowManagerSpec.v
FlowWorker.v
System.v
DispatcherLoop.v
