(* ===== verification/Prelude.v ===== *)
(** * Verification of multi-flow-rate-control

    A C library that moves packets of many flows from one ingress to per-flow outputs, and two
    applications on top of it: a datagram relay and a pipeline with erasure codes.  This library
    models the C code as executable functions and proves what makes it correct.

    ** The program and how its parts interact

    A producer calls [ingress_push] (src/src/ingress_push.c), which takes a packet from the pool
    (src/src/packet_pool.c) or the heap (src/src/packet.c) and pushes it into the mixed queue
    (src/src/mixed_queue.c).  The dispatcher thread (src/src/dispatcher.c) pops batches from the
    mixed queue and routes every packet by its flow id into the ring of that flow
    (src/src/flow_buffer.c); a full ring sends the packet to the flow's deferred ring, which the
    dispatcher drains with a quota per flow.  A worker per flow (src/src/flow_worker.c) takes
    batches from the flow ring, paces them (src/src/time_utils.c) and writes them to a descriptor
    (src/src/fd_sink.c) or hands them to a relay queue.  [FlowManager] (src/src/flow_manager.c)
    owns all of it and starts and stops the threads.  src/src/flow_peer_map.c gives 5-tuples
    their flow ids, src/src/wire_header.c is the datagram header, src/src/tx_queue.c a
    byte-weighted send queue with a release gate.  src/src/fec_transport.c sends messages over a
    lossy channel: its encoder puts them into groups of Reed-Solomon shards and paces the
    datagrams, its decoder hands out the messages of a window of groups.  The relay application keeps datagrams in a
    reference-counted slab (src/apps/wire_relay/datagram_pool.c), remembers generations of
    shards (src/apps/wire_relay/generation_cache.c) and sends through an acknowledgement and a
    data queue served by a fair dequeuer (src/apps/wire_relay/egress_queue.c); a datagram whose
    egress queue is full waits in a list per flow that worker threads serve in turn
    (src/apps/wire_relay/relay_deferred.c).  src/apps/wire_relay/relay.c joins them: a receiving
    thread fills buffers and queues them, a processing worker decides what happens to a datagram
    (local delivery, TTL, cache, recoding) and forwards it, a sending worker serves the two
    queues, a local source injects; recode.c and rs_bats_recoder.c recode a cached generation over
    GF(256).  The end points of a transfer are local_source.c, which reads a file, encodes it and
    injects its datagrams, and local_decode.c, a hub that gives the datagrams of up to eight flows
    to their decoders and writes their files.  The pipeline application cuts a stream into blocks
    and encodes every block with a codec chosen by name (src/apps/wg_multi_pipeline/codec.c):
    a copy, an XOR parity or a Reed-Solomon code over GF(256) (rs_codec.c and its SIMD kernels,
    third_party/rscode/galois.c).  At the other end wire_flow_decoder.c collects the shards of a
    flow's blocks in a window, recovers the blocks and hands them out in order.  Large transfers
    are cut into segments that a fountain code protects: wirehair_segment_sender.c keeps a window
    of segments in flight and repairs the oldest until it is acknowledged, wirehair_segment.c has
    the encoder of a segment, a blocking sender and the receiver, all around the Wirehair library.

    ** Files

    - Prelude: machine integers, byte strings, the state monad of C code, shared lemmas.
    - Ring: the circular array every queue uses, and the abstract bounded FIFO with the class
      [Fifo] that a queue implements.
    - TimeUtils, WireHeader, FlowPeerMap: the files of the same names.
    - Gf256: galois.c and the field laws, by computation over the 256 elements.
    - ByteVec, RsMatrix, RsGenerator: byte vectors and shard arrays, the Gauss-Jordan inversion of
      rs_codec.c, and the generator matrix with the proof that any k of its rows are independent.
    - RsSimd, RsEncode, RsCodec: the table, SSSE3 and AVX2 kernels, the encoders, and the
      decoder, parameters and entry points of rs_codec.c; RsCodecSpec, RsRecover and RsTheorems
      prove them.
    - Codec, CodecSpec, CodecInterface: the codec table, copy, block and XOR codecs, their
      properties, and the class of what a client may assume of a codec.
    - WireDecoder: wire_flow_decoder.c.  WireDecoderSpec relates its window to the stream it
      decodes and to the shards that came in time, WireDecoderRun follows one call,
      WireDecoderTheorems follows sequences of calls and has the results, all against the class of CodecInterface.
    - FecTransport, FecEncoder, FecDecoder: the configuration and shared codec, the encoder and the
      decoder of fec_transport.c.  FecTransport ends with the class of block codes they rely on
      and the Reed-Solomon codec as its instance.  FecGroups is the abstract stream of groups and
      datagrams, to which FecEncoderSpec relates the encoder and its setup.  FecDecoderEmit,
      FecDecoderInv and FecDecoderSpec have the invariants of a slot and of the window, once for
      arbitrary and once for genuine datagrams, and sequences of calls.  FecDelivery and
      FecEndToEnd follow a channel with losses, FecCreate the token bucket and the objects of a
      process.  FecTheorems has the results, FecLimits the faults.
    - WirehairSegment, WirehairReceiver, WirehairSender: the encoder and blocking sender, the
      receiver and the sliding-window sender of segments; the library is the class [Wirehair] of
      WirehairSegment.  WirehairSegmentSpec follows the packets of one segment, states what the
      library's users rely on ([FountainCode]) and has a repetition code as an instance;
      WirehairSendSpec is about the blocking sender, by the trace of what its callbacks saw.  WirehairReceiverSpec and WirehairSenderSpec
      have the invariants of the two windows.  WirehairChannel joins sender and receiver by an
      arbitrary network and has its invariant, WirehairTheorems the results.
    - Packet: packet.c and packet_pool.c over an explicit heap of packets, payloads and pools.
    - PktQueue, FlowBuffer, MixedQueue: the packet ring, and its two instances.
    - Ownership: who owns which packet; the frame lemmas of [packet_free].
    - FlowContext, Dispatcher, FlowManager, FlowWorker: the state and every function of
      flow_context.c, dispatcher.c, flow_manager.c with ingress_push.c, and flow_worker.c with
      fd_sink.c.
    - DispatcherSpec, FlowManagerSpec: invariants and lemmas about those functions.
    - System: producers, dispatcher, workers and stop interleaved, one step per critical section;
      a worker's step on a packet is [handle_one] of FlowWorker.
    - DispatcherLoop: the dispatcher thread as a program-counter machine.
    - TxQueue: tx_queue.c, and the machine that tx_queue.h documents, on a plain list.
    - DatagramPool, EgressQueue, GenerationCache: the relay's slab, send queues and cache.
    - RelayDeferred: relay_deferred.c; RelayDeferredSpec refines its linked lists to a queue per
      flow and follows the workers that serve them.
    - RsBats, Recode: rs_bats_recoder.c, with its matrix product, and recode.c.  RecodeSpec follows
      the generation hook, RecodeTheorems has the results.
    - Relay: the state and the handlers of relay.c, one function per critical section;
      RelayLife: its initialisation and cleanup, and which of its parts are up; RelaySystem: its threads as a step relation.
      RelayInv follows the owners of buffers and has the invariant of the context; RelayIngress,
      RelayHandlers and RelayLife carry it through the handlers, RelaySystem through the steps.
      RelayTheorems has what a hop does to the bytes, and the results.
    - LocalSource: local_source.c and the datagrams it emits; LocalDecode: local_decode.c.
      LocalDecodeSpec has the invariant of a hub for any kind of flow, and for block decoders and
      segment receivers; LocalTheorems joins sources, relays and hub.

    ** Conventions

    - A [uintN_t] or [size_t] that is computed with is a [Z] with its wrap-around written out;
      array indices and counts that stay below an allocated length are [nat].
    - Calls that read or write the heap live in [comp]: [None] is undefined behaviour (access to
      freed memory, NULL, an index out of bounds).  Absence of undefined behaviour is part of
      what is proved.
    - A structure passed by pointer is a record passed by value and returned; the pointer itself
      is not NULL.  NULL arguments that the code checks for are [option].
    - The code inside one critical section of a mutex is one function, so it is atomic.  A
      blocking call is one pass of its wait loop: it [Returns] or [Blocks].  The interleavings
      are the step relations of System, DispatcherLoop, MixedQueue, EgressQueue and RelaySystem.
    - What the C library, the kernel or the application decides is an argument: failing
      allocations and primitives, clock readings, results of [write], the encoder and the
      release gate.
    - Loops recurse on data or on a fuel that bounds them: the packet count of a ring, the
      number of flows, the quota.  The decoder's emission loop runs on [emit_fuel], the bytes and
      blocks it can still hand out, and making room in the window on [ROOM_FUEL], a bound no
      call reaches.  The FEC encoder's sending loop runs on the number of queued datagrams, the
      release of older groups on the size of the window.  The receiver of segments hands out on
      the number of its slots, the blocking sender repairs on the packets left.  Draining the
      acknowledgements of the relay runs on the results of its sends.  Theorems speak of the results, so the
      fuel is enough.

    - The relay's theorems assume that [malloc] returns blocks that are not in use, that fewer
      than [2^32] references to buffers exist (a counter of the pool has 32 bits), and that a
      recode function reports no length beyond what it wrote or found ([hooks_ok]).
    - Between the local end points the network is any number of hops as RelayTheorems describes
      them, in any order, with losses and repetitions; the loops of a source run on the length of
      the file.

    ** What the theorems show

    - System: whatever the interleaving, every flow is delivered in order without duplicates, and
      the only packets missing are those the dispatcher freed, which the overflow counter counts
      while the flow's queue is open; every packet has one owner and a worker disposes of it by
      one free or by handing it to the relay queue; one pass of the deferred queues serves every
      flow up to its quota.
    - DispatcherLoop, EgressQueue: no wake-up of the dispatcher, or of the relay's dequeuer, is
      lost; acknowledgements cannot starve data.
    - FlowBuffer, MixedQueue, TxQueue, EgressQueue: the queues refine lists, and every packet
      accepted is handed out or freed exactly once.
    - Packet, DatagramPool: the pools never hand out a buffer in use.
    - GenerationCache: the cache's lists, limits and counters agree after every operation.
    - FlowManagerSpec, FlowWorker: start-up, ingress and destruction do what they promise;
      writing is complete and pacing keeps its distances.
    - RsTheorems, CodecSpec: the scalar, table and SIMD encoders compute the same parity; a block
      is restored from any k of its shards; one lost shard is restored by the XOR code; every
      failing call says why.
    - WireDecoderTheorems: the decoder writes a prefix of the stream, whatever the order, loss or
      repetition of shards, and all of it once the shards and the end have arrived; in best-effort
      mode a block that cannot be recovered is written as exactly those of its data shards that
      came in time, and an end completes the stream.
    - FecTheorems, for geometries whose length table fits a shard: the messages pushed into an
      encoder come out of the decoder, each once, when at most r datagrams of a group are lost and
      the groups fit the decoder's window; the encoder refines its stream and keeps its rate; the
      decoder never leaves its buffers (its stores and reads are undefined there), hands out nothing
      that was not sent unless an update follows a blocked callback, and does not hold back
      messages that are complete; the users of the shared codec are counted exactly.
    - WirehairTheorems, WirehairSendSpec: over a network that loses, repeats and reorders, the
      receiver hands out a prefix of the admitted segments, and all of them once the sender is
      idle; the sender never overruns the receiver's window; every packet of a segment is sent at
      most once and in order, and timeouts are reported only after the last.
    - RelayDeferredSpec: the lists refine one queue per flow, every flow is
      served, no wake-up of a worker is lost.
    - RecodeTheorems: the blocked product of the recoder is the matrix product; a generation is
      sent once, whole and in order.
    - RelayTheorems: under every interleaving of the relay's threads and its cleanup, reference
      counts are exactly the owners, every step is defined, and no step changes a datagram that
      is queued or held by another thread; shutdown frees every datagram buffer; initialisation
      brings every part up or takes down again what it had brought up; a hop changes the TTL byte and nothing else.
    - LocalTheorems: the files that a hub writes and its strict check accepts are, byte for byte,
      the files of the sources, in blocks of any codec or in segments; while writing succeeds a
      hub never gets stuck.
    - WireHeader, TimeUtils, FlowPeerMap: encoding round trips, time arithmetic, stable ids.
    - Theorems about faults state what the code does: a pooled packet in the mixed queue at
      destruction, a failing relay queue, two producers on a full mixed queue, a stalled worker,
      a big-endian host, back-pressure on the segment sender, a relay's egress function applied
      again when a send is retried, the length of blocks above 65535 bytes, a hub destroyed twice,
      a [txq_try_push] that evicts; FecLimits has those of the FEC transport.

    ** Not modelled

    Sockets, files, command lines and the loops around them (pipe_io.c, the poll loop of relay.c,
    pipeline.c, wire_udp.c, bats_line.c, the main files); the waiting of [pace_block] in
    local_source.c; the third-party codes rscode, apart from its field arithmetic, and wirehair, which is a parameter; the branches of fec_transport.c
    for [FEC_CODEC_WIREHAIR]; the array of an emit batch of the relay as a block of the heap, and the
    relay's own mutex, condition variable and sockets as resources; nanosecond statistics and functions that only free memory; tests and
    scripts. *)

From Stdlib Require Export ZArith Lia Bool.
From stdpp Require Export base list gmap option numbers.

(** ** Machine integers

    A [uintN_t] is a [Z] kept in [0, 2^N) by the wrap below; [size_t] is 64 bits wide. *)

Declare Scope cint_scope.
Delimit Scope cint_scope with cint.

Definition uwrap (w z : Z) : Z := (z mod 2 ^ w)%Z.

Definition u8 : Z -> Z := uwrap 8.
Definition u16 : Z -> Z := uwrap 16.
Definition u32 : Z -> Z := uwrap 32.
Definition u64 : Z -> Z := uwrap 64.

(** [a +u64 b] and [a -u64 b]: the arithmetic of [uint64_t] and [size_t]. *)
Notation "a '+u64' b" := (u64 (a + b)%Z) (at level 50, left associativity) : cint_scope.
Notation "a '-u64' b" := (u64 (a - b)%Z) (at level 50, left associativity) : cint_scope.

Definition in_range (w z : Z) : Prop := (0 <= z < 2 ^ w)%Z.

Create HintDb cint.

Lemma uwrap_range w z : (0 <= w)%Z -> in_range w (uwrap w z).
Proof. intros Hw. unfold in_range, uwrap. apply Z.mod_pos_bound. lia. Qed.

Lemma uwrap_small w z : in_range w z -> uwrap w z = z.
Proof. intros H. unfold uwrap. by apply Z.mod_small. Qed.

Lemma u64_small z : in_range 64 z -> u64 z = z.
Proof. apply uwrap_small. Qed.

#[export] Hint Resolve uwrap_range uwrap_small u64_small : cint.

(** ** Byte strings: [uint8_t] buffers are [list Z] *)

Definition is_byte (b : Z) : Prop := in_range 8 b.

(** Little-endian byte image of the low [n] bytes of [v], and its inverse. *)
Fixpoint le_bytes (n : nat) (v : Z) : list Z :=
  match n with
  | O => []
  | S n' => (v mod 256)%Z :: le_bytes n' (v / 256)
  end.

Fixpoint of_le (bs : list Z) : Z :=
  match bs with
  | [] => 0
  | b :: bs' => (b + 256 * of_le bs')%Z
  end.

Definition be_bytes (n : nat) (v : Z) : list Z := rev (le_bytes n v).
Definition of_be (bs : list Z) : Z := of_le (rev bs).

Lemma length_le_bytes n v : length (le_bytes n v) = n.
Proof. revert v; induction n as [|n IH]; intros v; simpl; [done|]. by rewrite IH. Qed.

Lemma length_be_bytes n v : length (be_bytes n v) = n.
Proof. unfold be_bytes. by rewrite length_rev, length_le_bytes. Qed.

Lemma le_bytes_is_byte n v : Forall is_byte (le_bytes n v).
Proof.
  revert v; induction n as [|n IH]; intros v; simpl; constructor; [|apply IH].
  apply Z.mod_pos_bound. lia.
Qed.

Lemma pow256_S n : (256 ^ Z.of_nat (S n) = 256 * 256 ^ Z.of_nat n)%Z.
Proof. rewrite Nat2Z.inj_succ, Z.pow_succ_r; lia. Qed.

Lemma of_le_le_bytes n v : of_le (le_bytes n v) = (v mod 256 ^ Z.of_nat n)%Z.
Proof.
  revert v; induction n as [|n IH]; intros v; simpl le_bytes; simpl of_le.
  - by rewrite Z.mod_1_r.
  - rewrite IH, pow256_S, Z.rem_mul_r; [done|lia|].
    assert (0 < 256 ^ Z.of_nat n)%Z by (apply Z.pow_pos_nonneg; lia). lia.
Qed.

Lemma le_bytes_of_le bs n :
  Forall is_byte bs -> length bs = n -> le_bytes n (of_le bs) = bs.
Proof.
  intros H <-. induction H as [|b bs Hb _ IH]; simpl; [done|].
  unfold is_byte, in_range in Hb. change (2 ^ 8)%Z with 256%Z in Hb.
  rewrite Z.add_comm, Z.mul_comm, Z.div_add_l, Z.div_small, Z.add_0_r by lia.
  rewrite Z.add_comm, Z.mod_add, Z.mod_small, IH by lia. done.
Qed.

Lemma of_le_range bs :
  Forall is_byte bs -> (0 <= of_le bs < 256 ^ Z.of_nat (length bs))%Z.
Proof.
  induction 1 as [|b bs Hb _ IH]; simpl of_le; simpl length; [simpl; lia|].
  rewrite pow256_S. unfold is_byte, in_range in Hb.
  change (2 ^ 8)%Z with 256%Z in Hb. lia.
Qed.

Lemma of_be_be_bytes n v : of_be (be_bytes n v) = (v mod 256 ^ Z.of_nat n)%Z.
Proof. unfold of_be, be_bytes. by rewrite rev_involutive, of_le_le_bytes. Qed.

Lemma of_be_be_bytes_small n v :
  (0 <= v < 256 ^ Z.of_nat n)%Z -> of_be (be_bytes n v) = v.
Proof. intros H. rewrite of_be_be_bytes. by apply Z.mod_small. Qed.

(** [le_bytes] of a concatenation: the low bytes, then the high bytes. *)
Lemma le_bytes_app n m v :
  le_bytes (n + m) v = le_bytes n v ++ le_bytes m (v / 256 ^ Z.of_nat n).
Proof.
  revert v; induction n as [|n IH]; intros v.
  - simpl. by rewrite Z.div_1_r.
  - change (S n + m)%nat with (S (n + m)). simpl le_bytes. rewrite IH. simpl. f_equal.
    f_equal. f_equal. rewrite pow256_S, Z.div_div; [done|lia|].
    apply Z.pow_pos_nonneg; lia.
Qed.

Lemma le_bytes_mod n v k :
  (n <= k)%nat -> le_bytes n (v mod 256 ^ Z.of_nat k) = le_bytes n v.
Proof.
  intros Hk. rewrite <- (le_bytes_of_le (le_bytes n v) n), of_le_le_bytes
    by (apply le_bytes_is_byte || apply length_le_bytes).
  rewrite <- (le_bytes_of_le (le_bytes n (v mod 256 ^ Z.of_nat k)) n), of_le_le_bytes
    by (apply le_bytes_is_byte || apply length_le_bytes).
  f_equal. replace (Z.of_nat k) with (Z.of_nat n + Z.of_nat (k - n))%Z by lia.
  rewrite Z.pow_add_r by lia.
  assert (0 < 256 ^ Z.of_nat n)%Z by (apply Z.pow_pos_nonneg; lia).
  assert (0 < 256 ^ Z.of_nat (k - n))%Z by (apply Z.pow_pos_nonneg; lia).
  rewrite Z.rem_mul_r, Z.mul_comm, Z.mod_add, Z.mod_mod by lia. done.
Qed.

(** [memcpy(buf + off, bs, length bs)] inside a buffer that has room for it. *)
Definition write_at (buf : list Z) (off : nat) (bs : list Z) : list Z :=
  take off buf ++ bs ++ drop (off + length bs) buf.

(** [memcpy(dst, buf + off, n)]. *)
Definition read_at (buf : list Z) (off n : nat) : list Z := take n (drop off buf).

Lemma length_write_at buf off bs :
  (off + length bs <= length buf)%nat -> length (write_at buf off bs) = length buf.
Proof.
  intros H. unfold write_at. rewrite !length_app, length_take, length_drop. lia.
Qed.

(** Writing just after an already written prefix extends the prefix. *)
Lemma write_at_prefix pre bs rest :
  (length bs <= length rest)%nat ->
  write_at (pre ++ rest) (length pre) bs = (pre ++ bs) ++ drop (length bs) rest.
Proof.
  intros H. unfold write_at.
  rewrite take_app_length. rewrite drop_app_add. by rewrite <- app_assoc.
Qed.

Lemma read_at_app pre bs rest :
  read_at (pre ++ bs ++ rest) (length pre) (length bs) = bs.
Proof. unfold read_at. by rewrite drop_app_length, take_app_length. Qed.

(** ** Stateful C code: state passing that can go wrong

    [comp St A] runs in a state [St] and returns an [A]; [None] is undefined behaviour (an
    access to freed memory, a NULL dereference, an index out of bounds).  The notation is
    stdpp's [x ← c; k]. *)
Definition comp (St A : Type) : Type := St -> option (A * St).

#[export] Instance comp_ret {St} : MRet (comp St) := fun A a s => Some (a, s).
#[export] Instance comp_bind {St} : MBind (comp St) :=
  fun A B k c s => match c s with None => None | Some (a, s') => k a s' end.

Definition ub {St A} : comp St A := fun _ => None.
Definition gets {St A} (f : St -> A) : comp St A := fun s => Some (f s, s).
Definition modify {St} (f : St -> St) : comp St unit := fun s => Some (tt, f s).

Lemma bind_run {St A B} (m : comp St A) (k : A -> comp St B) s a s' : m s = Some (a, s') -> (m ≫= k) s = k a s'.
Proof. intros H. unfold mbind, comp_bind. by rewrite H. Qed.
Definition the {St A} (o : option A) : comp St A :=
  fun s => match o with None => None | Some a => Some (a, s) end.

(** ** Shared tactics and list facts *)

Ltac bool_cases :=
  repeat match goal with
  | |- context [(?a <? ?b)%nat] => destruct (Nat.ltb_spec a b)
  | |- context [(?a <=? ?b)%nat] => destruct (Nat.leb_spec a b)
  | |- context [(?a =? ?b)%nat] => destruct (Nat.eqb_spec a b)
  | |- context [(?a <? ?b)%Z] => destruct (Z.ltb_spec a b)
  | |- context [(?a <=? ?b)%Z] => destruct (Z.leb_spec a b)
  | |- context [(?a =? ?b)%Z] => destruct (Z.eqb_spec a b)
  | |- context [(?a >=? ?b)%Z] => rewrite (Z.geb_leb a b)
  | |- context [(?a >? ?b)%Z] => rewrite (Z.gtb_ltb a b)
  end.

(** Split [if]s and [match]es of the hypotheses [H] and close the impossible cases. *)
Ltac inv_cases H :=
  repeat (first [ case_match; simplify_eq H | progress simplify_eq H ]).

Lemma take_S_snoc {A} (l : list A) n x :
  l !! n = Some x -> take (S n) l = take n l ++ [x].
Proof. intros H. by rewrite (take_S_r _ _ x). Qed.

(** A list without duplicates below [n] that misses one number is shorter than [n]. *)
Lemma NoDup_miss_lt (l : list nat) n x :
  NoDup l -> Forall (fun i => i < n) l -> x < n -> x ∉ l -> length l < n.
Proof.
  intros Hnd Hall Hx Hni.
  assert (Hnd' : NoDup (x :: l)) by (by constructor).
  assert (Hle : length (x :: l) <= length (seq 0 n)).
  { apply submseteq_length, NoDup_submseteq; [done|].
    intros y Hy. apply elem_of_seq. rewrite Forall_forall in Hall.
    apply elem_of_cons in Hy as [->|Hy]; [lia|].
    specialize (Hall y). rewrite <- list_elem_of_In in Hall. specialize (Hall Hy). lia. }
  rewrite length_seq in Hle. simpl in Hle. lia.
Qed.

Lemma list_insert_middle {A} (l1 l2 : list A) x y n :
  n = length l1 -> <[n := y]> (l1 ++ x :: l2) = l1 ++ y :: l2.
Proof. intros ->. by rewrite insert_app_r_alt, Nat.sub_diag by lia. Qed.

Lemma NoDup_perm {A} (l k : list A) : l ≡ₚ k -> NoDup l -> NoDup k.
Proof. intros H. by rewrite H. Qed.

(** Replacing one summand. *)
Lemma sum_list_insert (l : list nat) i x y :
  l !! i = Some x -> sum_list (<[i := y]> l) + x = sum_list l + y.
Proof.
  revert i. induction l as [|z l IH]; intros [|i] H; simpl in *; simplify_eq; [lia|].
  specialize (IH i H). lia.
Qed.

(** ** Bit masks *)

Lemma testbit_bit i j : Z.testbit (Z.shiftl 1 (Z.of_nat i)) (Z.of_nat j) = bool_decide (j = i).
Proof.
  rewrite Z.shiftl_1_l, Z.pow2_bits_eqb by lia. case_bool_decide; [subst; apply Z.eqb_refl|].
  apply Z.eqb_neq. lia.
Qed.

Lemma mark_bits bits i j :
  Z.testbit (Z.lor bits (Z.shiftl 1 (Z.of_nat i))) (Z.of_nat j) =
  if decide (j = i) then true else Z.testbit bits (Z.of_nat j).
Proof.
  rewrite Z.lor_spec, testbit_bit. case_decide; case_bool_decide; try done.
  - by rewrite orb_true_r.
  - by rewrite orb_false_r.
Qed.

Lemma clear_bits bits i j :
  Z.testbit (Z.ldiff bits (Z.shiftl 1 (Z.of_nat i))) (Z.of_nat j) =
  if decide (j = i) then false else Z.testbit bits (Z.of_nat j).
Proof.
  rewrite Z.ldiff_spec, testbit_bit. case_decide; case_bool_decide; try done.
  - by rewrite andb_false_r.
  - by rewrite andb_true_r.
Qed.
