(* ===== verification/TimeUtils.v ===== *)
(** * Monotonic clock arithmetic: src/src/time_utils.c

    [struct timespec] values, their subtraction, addition and comparison, and the two sleep
    routines.  The kernel is an argument: a clock reading is [option timespec] ([None] is a
    failing [clock_gettime]) and a run of [clock_nanosleep] calls is the finite list of their
    outcomes.  [time_t] and [long] are signed 64-bit; the readings of a monotonic clock are far
    from their limits, so they are plain [Z]. *)

From S2P Require Import Prelude.

Local Open Scope Z_scope.

Record timespec := Timespec { tv_sec : Z; tv_nsec : Z }.

#[export] Instance timespec_eq_dec : EqDecision timespec.
Proof. solve_decision. Defined.

Inductive TimeUtilsStatus := TU_OK | TU_ERR_INVALID | TU_ERR_SYSTEM.

#[export] Instance TimeUtilsStatus_eq_dec : EqDecision TimeUtilsStatus.
Proof. solve_decision. Defined.

Definition NS_PER_SEC : Z := 1000000000.

Definition ts_zero : timespec := Timespec 0 0.

Definition normalize_ts (ts : timespec) : TimeUtilsStatus * timespec :=
  if tv_nsec ts >=? NS_PER_SEC then
    (TU_OK, Timespec (tv_sec ts + Z.quot (tv_nsec ts) NS_PER_SEC)
                     (Z.rem (tv_nsec ts) NS_PER_SEC))
  else if tv_nsec ts <? 0 then (TU_ERR_INVALID, ts)
  else (TU_OK, ts).

(** [clock] is what [clock_gettime(CLOCK_MONOTONIC)] delivers; the second component is the
    content of the caller's [struct timespec] afterwards. *)
Definition time_utils_now_mono (clock : option timespec) (ts : timespec)
  : TimeUtilsStatus * timespec :=
  match clock with
  | None => (TU_ERR_SYSTEM, ts)
  | Some now => (TU_OK, now)
  end.

(** The caller's [*out] is written only on [TU_OK]. *)
Definition time_utils_ts_sub (a b : timespec) (out : timespec) : TimeUtilsStatus * timespec :=
  let sec := tv_sec a - tv_sec b in
  let nsec := tv_nsec a - tv_nsec b in
  let '(sec, nsec) := if nsec <? 0 then (sec - 1, nsec + NS_PER_SEC) else (sec, nsec) in
  if sec <? 0 then (TU_ERR_INVALID, out) else (TU_OK, Timespec sec nsec).

Definition time_utils_ts_add (a b : timespec) (out : timespec) : TimeUtilsStatus * timespec :=
  let result := Timespec (tv_sec a + tv_sec b) (tv_nsec a + tv_nsec b) in
  let '(st, result) := normalize_ts result in
  match st with
  | TU_OK =>
      let result :=
        if tv_nsec result >=? NS_PER_SEC then
          Timespec (tv_sec result + Z.quot (tv_nsec result) NS_PER_SEC)
                   (Z.rem (tv_nsec result) NS_PER_SEC)
        else result in
      (TU_OK, result)
  | _ => (TU_ERR_INVALID, out)
  end.

Definition time_utils_ts_before (a b : timespec) : bool :=
  if negb (tv_sec a =? tv_sec b) then tv_sec a <? tv_sec b
  else tv_nsec a <? tv_nsec b.

(** One [clock_nanosleep] call: it sleeps the whole request, is interrupted leaving a
    remainder, or fails with another error. *)
Inductive nanosleep_outcome :=
  | NsDone
  | NsEintr (remaining : timespec)
  | NsError.

(** The [do ... while (1)] loop over a finite run of kernel outcomes: the status ([None] when
    the run ends while the loop still sleeps) and the requests made, oldest first. *)
Fixpoint sleep_loop (request : timespec) (env : list nanosleep_outcome)
  : option TimeUtilsStatus * list timespec :=
  match env with
  | [] => (None, [])
  | NsDone :: _ => (Some TU_OK, [request])
  | NsError :: _ => (Some TU_ERR_SYSTEM, [request])
  | NsEintr remaining :: env' =>
      let '(st, reqs) := sleep_loop remaining env' in (st, request :: reqs)
  end.

Definition time_utils_sleep_for (duration : timespec) (env : list nanosleep_outcome)
  : option TimeUtilsStatus * list timespec :=
  if (tv_sec duration <? 0) || (tv_nsec duration <? 0) || (tv_nsec duration >=? NS_PER_SEC)
  then (Some TU_ERR_INVALID, [])
  else if (tv_sec duration =? 0) && (tv_nsec duration =? 0) then (Some TU_OK, [])
  else sleep_loop duration env.

Definition time_utils_sleep_until (deadline : timespec) (clock : option timespec)
  (env : list nanosleep_outcome) : option TimeUtilsStatus * list timespec :=
  let '(st, now) := time_utils_now_mono clock ts_zero in
  match st with
  | TU_OK =>
      if negb (time_utils_ts_before now deadline) then (Some TU_OK, [])
      else
        let '(st, remaining) := time_utils_ts_sub deadline now ts_zero in
        match st with
        | TU_OK => time_utils_sleep_for remaining env
        | _ => (Some TU_OK, [])
        end
  | _ => (Some TU_ERR_SYSTEM, [])
  end.

(** ** The specification: a normalised [timespec] denotes a number of nanoseconds *)

Definition ts_ns (t : timespec) : Z := tv_sec t * NS_PER_SEC + tv_nsec t.
Definition ts_normal (t : timespec) : Prop := 0 <= tv_nsec t < NS_PER_SEC.

(** A run the kernel can deliver for a request: every interruption leaves a normalised
    remainder that is smaller than the request; [slept] is the total time slept. *)
Fixpoint env_slept (request : timespec) (env : list nanosleep_outcome) : Z :=
  match env with
  | NsEintr remaining :: env' => (ts_ns request - ts_ns remaining) + env_slept remaining env'
  | NsDone :: _ => ts_ns request
  | _ => 0
  end.

Ltac ts_simpl :=
  unfold ts_normal, ts_ns, NS_PER_SEC in *; simpl in *.

Ltac ts_bool :=
  repeat match goal with
  | |- context [?a <? ?b] => destruct (Z.ltb_spec a b)
  | |- context [?a >=? ?b] => rewrite (Z.geb_leb a b)
  | |- context [?a <=? ?b] => destruct (Z.leb_spec a b)
  | |- context [?a =? ?b] => destruct (Z.eqb_spec a b)
  end.

Lemma ts_before_spec a b :
  ts_normal a -> ts_normal b -> time_utils_ts_before a b = (ts_ns a <? ts_ns b).
Proof.
  destruct a as [sa na], b as [sb nb]. intros Ha Hb.
  unfold time_utils_ts_before. ts_simpl. ts_bool; simpl; ts_bool; lia || done.
Qed.

Lemma ts_sub_ok a b out :
  ts_normal a -> ts_normal b -> ts_ns b <= ts_ns a ->
  exists d, time_utils_ts_sub a b out = (TU_OK, d) /\ ts_normal d /\ ts_ns d = ts_ns a - ts_ns b.
Proof.
  destruct a as [sa na], b as [sb nb]. intros Ha Hb Hle.
  unfold time_utils_ts_sub. ts_simpl.
  ts_bool; try lia; eexists; (split; [reflexivity|]); simpl; lia.
Qed.

Lemma ts_sub_negative a b out :
  ts_normal a -> ts_normal b -> ts_ns a < ts_ns b ->
  time_utils_ts_sub a b out = (TU_ERR_INVALID, out).
Proof.
  destruct a as [sa na], b as [sb nb]. intros Ha Hb Hlt.
  unfold time_utils_ts_sub. ts_simpl.
  ts_bool; done || lia.
Qed.

Lemma ts_add_ok a b out :
  ts_normal a -> ts_normal b ->
  exists s, time_utils_ts_add a b out = (TU_OK, s) /\ ts_normal s /\ ts_ns s = ts_ns a + ts_ns b.
Proof.
  destruct a as [sa na], b as [sb nb]. intros Ha Hb.
  unfold time_utils_ts_add, normalize_ts. ts_simpl.
  rewrite Z.geb_leb. destruct (Z.leb_spec 1000000000 (na + nb)).
  - pose proof (Z.quot_rem (na + nb) 1000000000 ltac:(lia)).
    pose proof (Z.rem_bound_pos (na + nb) 1000000000 ltac:(lia) ltac:(lia)).
    simpl. rewrite Z.geb_leb. destruct (Z.leb_spec 1000000000 (Z.rem (na + nb) 1000000000)); [lia|].
    eexists; split; [reflexivity|]. simpl. lia.
  - destruct (Z.ltb_spec (na + nb) 0); [lia|]. simpl. rewrite Z.geb_leb.
    destruct (Z.leb_spec 1000000000 (na + nb)); [lia|].
    eexists; split; [reflexivity|]. simpl. lia.
Qed.

Lemma sleep_loop_ok request env reqs :
  sleep_loop request env = (Some TU_OK, reqs) -> env_slept request env = ts_ns request.
Proof.
  revert request reqs; induction env as [|o env IH]; intros request reqs; [done|].
  destruct o as [|rem|]; simpl; intros H; [done| |done].
  destruct (sleep_loop rem env) as [st rs] eqn:E. simplify_eq. rewrite (IH _ _ E). lia.
Qed.

Lemma ts_sub_total a b out :
  ts_normal a -> ts_normal b ->
  time_utils_ts_sub a b out = (TU_ERR_INVALID, out) /\ ts_ns a < ts_ns b \/
  exists d, time_utils_ts_sub a b out = (TU_OK, d) /\ ts_normal d /\ ts_ns d = ts_ns a - ts_ns b.
Proof.
  intros Ha Hb. destruct (Z.lt_ge_cases (ts_ns a) (ts_ns b)).
  - left. split; [by apply ts_sub_negative|done].
  - right. by apply ts_sub_ok.
Qed.

(** ** Properties *)

(** subtraction then addition of normalised time stamps is exact, and the negative case
    is refused with the caller's output untouched: whatever the two stamps are, either
    [time_utils_ts_sub] reports [TU_ERR_INVALID] because [a] is before [b], or adding the
    difference back to [b] gives [a] itself. *)
Theorem ts_sub_add_roundtrip (a b out : timespec) :
  ts_normal a -> ts_normal b ->
  (time_utils_ts_before a b = true /\ time_utils_ts_sub a b out = (TU_ERR_INVALID, out)) \/
  (time_utils_ts_before a b = false /\
   exists d, time_utils_ts_sub a b out = (TU_OK, d) /\ time_utils_ts_add b d out = (TU_OK, a)).
Proof.
  intros Ha Hb. rewrite (ts_before_spec a b) by done.
  destruct (ts_sub_total a b out Ha Hb) as [[Hs Hlt]|(d & Hs & Hd & Hns)].
  - left. split; [by apply Z.ltb_lt|done].
  - right. destruct (ts_add_ok b d out Hb Hd) as (s & Hadd & Hn & Hsum).
    assert (s = a) as ->.
    { destruct s, a, b, d. ts_simpl. f_equal; lia. }
    split; [|by exists d].
    apply Z.ltb_ge. destruct d as [ds dn]. revert Hs.
    unfold time_utils_ts_sub. ts_simpl.
    ts_bool; intros; simplify_eq; lia.
Qed.

Lemma ts_sub_add_roundtrip_witness :
  exists d, time_utils_ts_sub (Timespec 7 100) (Timespec 5 900) ts_zero = (TU_OK, d) /\
            time_utils_ts_add (Timespec 5 900) d ts_zero = (TU_OK, Timespec 7 100).
Proof.
  destruct (ts_sub_add_roundtrip (Timespec 7 100) (Timespec 5 900) ts_zero) as [[H _]|[_ H]].
  - unfold ts_normal, NS_PER_SEC; simpl; lia.
  - unfold ts_normal, NS_PER_SEC; simpl; lia.
  - discriminate H.
  - exact H.
Defined.

(** [time_utils_sleep_until] makes no request when the deadline has passed and otherwise
    sleeps exactly until it: when it reports [TU_OK], however often the kernel interrupted
    it, the time slept is the distance from the clock reading to the deadline. *)
Theorem sleep_until_reaches_deadline (deadline now : timespec) env reqs :
  ts_normal deadline -> ts_normal now ->
  time_utils_sleep_until deadline (Some now) env = (Some TU_OK, reqs) ->
  (ts_ns deadline <= ts_ns now /\ reqs = []) \/
  (ts_ns now < ts_ns deadline /\ exists first, head reqs = Some first /\
   ts_ns first = ts_ns deadline - ts_ns now /\
   env_slept first env = ts_ns deadline - ts_ns now).
Proof.
  intros Hd Hn. unfold time_utils_sleep_until. simpl.
  rewrite (ts_before_spec now deadline) by done.
  destruct (Z.ltb_spec (ts_ns now) (ts_ns deadline)) as [Hlt|Hge]; simpl.
  2: { intros; simplify_eq. left. split; [lia|done]. }
  intros H. right. destruct (ts_sub_ok deadline now ts_zero Hd Hn) as (d & Hs & Hdn & Hns); [lia|].
  rewrite Hs in H. unfold time_utils_sleep_for in H.
  destruct (_ || _ || _) in H; [done|].
  destruct ((tv_sec d =? 0) && (tv_nsec d =? 0)) eqn:Ez.
  { apply andb_true_iff in Ez as [E1%Z.eqb_eq E2%Z.eqb_eq]. unfold ts_ns at 1 in Hns.
    rewrite E1, E2 in Hns. lia. }
  split; [done|]. exists d. rewrite (sleep_loop_ok _ _ _ H).
  destruct env as [|[| |] ?]; simpl in H; try done.
  - by simplify_eq.
  - destruct (sleep_loop _ _); by simplify_eq.
Qed.

Lemma sleep_until_reaches_deadline_witness :
  env_slept (Timespec 2 0) [NsEintr (Timespec 1 5); NsDone] = 2000000000.
Proof.
  destruct (sleep_until_reaches_deadline (Timespec 12 0) (Timespec 10 0)
              [NsEintr (Timespec 1 5); NsDone] [Timespec 2 0; Timespec 1 5])
    as [[H _]|(_ & first & Hf & _ & H)].
  - unfold ts_normal, NS_PER_SEC; simpl; lia.
  - unfold ts_normal, NS_PER_SEC; simpl; lia.
  - vm_compute. reflexivity.
  - vm_compute in H. contradiction (H eq_refl).
  - simpl in Hf. injection Hf as <-. exact H.
Defined.
