(* ===== verification/Ring.v ===== *)
(** * The circular array shared by every bounded queue of the program

    [FlowCircularBuffer], [MixedQueue], [DeferredQueue], [TxQueue] and [EgressQueue] all keep a
    slot array with [head], [tail] and [count] and move the indices modulo the capacity.  This
    file has that array, its three moves (append at the tail, insert before the head, take the
    head) and the proof that it represents a FIFO sequence; the queue files wrap it with their
    own locking, error and accounting code.  Indices are [nat]: they stay below the capacity,
    which is the length of an allocated array, so no [size_t] operation on them wraps. *)

From S2P Require Import Prelude.

Section Ring.
Context {S : Type}.

Record ring := Ring {
  r_slots : list S;
  r_capacity : nat;
  r_head : nat;
  r_tail : nat;
  r_count : nat
}.

(** [slots[tail] = x; tail = (tail + 1) % capacity; count++]. *)
Definition put_tail (r : ring) (x : S) : ring :=
  {| r_slots := <[r_tail r := x]> (r_slots r); r_capacity := r_capacity r; r_head := r_head r;
     r_tail := (r_tail r + 1) mod r_capacity r; r_count := r_count r + 1 |}.

(** [head = (head + capacity - 1) % capacity; slots[head] = x; count++]. *)
Definition put_head (r : ring) (x : S) : ring :=
  let h := (r_head r + r_capacity r - 1) mod r_capacity r in
  {| r_slots := <[h := x]> (r_slots r); r_capacity := r_capacity r; r_head := h;
     r_tail := r_tail r; r_count := r_count r + 1 |}.

(** [x = slots[head]; slots[head] = cleared; head = (head + 1) % capacity; count--], where
    [cleared = None] leaves the slot as it is.  [None] is an out-of-bounds read. *)
Definition take_head (cleared : option S) (r : ring) : option (S * ring) :=
  match r_slots r !! r_head r with
  | None => None
  | Some x =>
      Some (x, {| r_slots := match cleared with
                           | Some c => <[r_head r := c]> (r_slots r)
                           | None => r_slots r
                           end;
                  r_capacity := r_capacity r; r_head := (r_head r + 1) mod r_capacity r;
                  r_tail := r_tail r; r_count := r_count r - 1 |})
  end.

(** The queued values, oldest first: [count] slots read from [head], wrapping around. *)
Definition contents (r : ring) : list S :=
  take (r_count r) (drop (r_head r) (r_slots r) ++ take (r_head r) (r_slots r)).

(** The index invariant. *)
Definition ring_ok (r : ring) : Prop :=
  0 < r_capacity r /\ length (r_slots r) = r_capacity r /\ r_head r < r_capacity r /\
  r_count r <= r_capacity r /\ r_tail r = (r_head r + r_count r) mod r_capacity r.

(** ** Index arithmetic *)

Lemma mod_wrap c n : 0 < c -> n < 2 * c -> n mod c = if decide (n < c) then n else n - c.
Proof.
  intros Hc Hn. case_decide.
  - by apply Nat.mod_small.
  - symmetry. apply (Nat.mod_unique n c 1); lia.
Qed.

Lemma rotation_lookup (l : list S) h i :
  h < length l -> i < length l ->
  (drop h l ++ take h l) !! i = l !! ((h + i) mod length l).
Proof.
  intros Hh Hi. rewrite mod_wrap by lia. case_decide.
  - rewrite lookup_app_l by (rewrite length_drop; lia). by rewrite lookup_drop.
  - rewrite lookup_app_r by (rewrite length_drop; lia).
    rewrite length_drop, lookup_take_lt by lia. f_equal. lia.
Qed.

Lemma contents_length r : ring_ok r -> length (contents r) = r_count r.
Proof.
  intros (Hc & Hl & Hh & Hn & _). unfold contents.
  rewrite length_take, length_app, length_drop, length_take. lia.
Qed.

Lemma contents_lookup r i :
  ring_ok r -> i < r_count r -> contents r !! i = r_slots r !! ((r_head r + i) mod r_capacity r).
Proof.
  intros (Hc & Hl & Hh & Hn & _) Hi. unfold contents.
  rewrite lookup_take_lt by lia. rewrite rotation_lookup by lia. by rewrite Hl.
Qed.

(** Two lists with the same entries below their common length are equal. *)
Lemma list_eq_below (l1 l2 : list S) n :
  length l1 = n -> length l2 = n -> (forall i, i < n -> l1 !! i = l2 !! i) -> l1 = l2.
Proof.
  intros H1 H2 H. apply list_eq. intros i. destruct (decide (i < n)); [by apply H|].
  rewrite !lookup_ge_None_2 by lia. done.
Qed.

(** ** The three moves *)

Lemma put_tail_ok r x : ring_ok r -> r_count r < r_capacity r -> ring_ok (put_tail r x).
Proof.
  intros (Hc & Hl & Hh & Hn & Ht) Hlt. unfold ring_ok, put_tail; simpl.
  rewrite length_insert. repeat split; try lia.
  rewrite Ht, Nat.Div0.add_mod_idemp_l. f_equal. lia.
Qed.

Lemma put_tail_contents r x :
  ring_ok r -> r_count r < r_capacity r -> contents (put_tail r x) = contents r ++ [x].
Proof.
  intros Hok Hlt. pose proof (put_tail_ok r x Hok Hlt) as Hok'.
  pose proof Hok as (Hc & Hl & Hh & Hn & Ht).
  apply (list_eq_below _ _ (r_count r + 1)).
  - by rewrite contents_length.
  - rewrite length_app, contents_length by done. simpl. lia.
  - intros i Hi. rewrite contents_lookup by (simpl; done). simpl.
    destruct (decide (i = r_count r)) as [->|Hne].
    + rewrite Ht, list_lookup_insert_eq by (rewrite Hl; apply Nat.mod_upper_bound; lia).
      by rewrite lookup_app_r, contents_length, Nat.sub_diag by (rewrite ?contents_length; done).
    + rewrite lookup_app_l by (rewrite contents_length; [lia|done]).
      rewrite contents_lookup by (done || lia).
      rewrite list_lookup_insert_ne; [done|]. rewrite Ht, !mod_wrap by lia.
      repeat case_decide; lia.
Qed.

Lemma put_head_ok r x : ring_ok r -> r_count r < r_capacity r -> ring_ok (put_head r x).
Proof.
  intros (Hc & Hl & Hh & Hn & Ht) Hlt. unfold ring_ok, put_head; simpl.
  rewrite length_insert. split; [lia|]. split; [done|].
  split; [apply Nat.mod_upper_bound; lia|]. split; [lia|].
  rewrite Ht, Nat.Div0.add_mod_idemp_l.
  replace (r_head r + r_capacity r - 1 + (r_count r + 1)) with (r_head r + r_count r + 1 * r_capacity r) by lia.
  by rewrite Nat.Div0.mod_add.
Qed.

Lemma put_head_contents r x :
  ring_ok r -> r_count r < r_capacity r -> contents (put_head r x) = x :: contents r.
Proof.
  intros Hok Hlt. pose proof (put_head_ok r x Hok Hlt) as Hok'.
  pose proof Hok as (Hc & Hl & Hh & Hn & Ht).
  apply (list_eq_below _ _ (r_count r + 1)).
  - by rewrite contents_length.
  - simpl. rewrite contents_length by done. lia.
  - intros i Hi. rewrite contents_lookup by (simpl; done). simpl.
    destruct i as [|i]; simpl.
    + rewrite Nat.add_0_r, Nat.Div0.mod_mod.
      apply list_lookup_insert_eq. rewrite Hl. apply Nat.mod_upper_bound. lia.
    + rewrite contents_lookup by (done || lia).
      rewrite (mod_wrap (r_capacity r) (r_head r + r_capacity r - 1)) by lia.
      case_decide; rewrite list_lookup_insert_ne; rewrite !mod_wrap by lia;
        repeat case_decide; first [lia | f_equal; lia].
Qed.

Lemma take_head_spec cleared r x xs :
  ring_ok r -> contents r = x :: xs ->
  exists r', take_head cleared r = Some (x, r') /\ ring_ok r' /\ contents r' = xs /\
             r_capacity r' = r_capacity r /\ r_count r' = r_count r - 1 /\ 0 < r_count r.
Proof.
  intros Hok Hx. pose proof Hok as (Hc & Hl & Hh & Hn & Ht).
  assert (Hcnt : r_count r = Datatypes.S (length xs)) by (by rewrite <- contents_length, Hx).
  assert (Hx0 : r_slots r !! r_head r = Some x).
  { pose proof (contents_lookup r 0 Hok ltac:(lia)) as H. rewrite Hx in H. simpl in H.
    rewrite Nat.add_0_r, Nat.mod_small in H by done. by rewrite <- H. }
  unfold take_head. rewrite Hx0. eexists. split; [reflexivity|].
  match goal with |- ring_ok ?r1 /\ _ => set (r' := r1) end.
  assert (Hlen' : length (r_slots r') = r_capacity r).
  { subst r'; destruct cleared; simpl; [rewrite length_insert|]; done. }
  assert (Hok' : ring_ok r').
  { unfold ring_ok. rewrite Hlen'. subst r'; simpl. split; [done|]. split; [done|].
    split; [apply Nat.mod_upper_bound; lia|]. split; [lia|].
    rewrite Ht, Nat.Div0.add_mod_idemp_l. f_equal. lia. }
  split; [done|]. split; [|subst r'; simpl; lia].
  apply (list_eq_below _ _ (length xs)); [rewrite contents_length by done; subst r'; simpl; lia|done|].
  intros i Hi. rewrite contents_lookup by (done || (subst r'; simpl; lia)).
  transitivity (contents r !! Datatypes.S i); [|by rewrite Hx].
  rewrite contents_lookup by (done || lia). subst r'; simpl.
  rewrite Nat.Div0.add_mod_idemp_l. replace (r_head r + 1 + i) with (r_head r + Datatypes.S i) by lia.
  destruct cleared; [|done]. rewrite list_lookup_insert_ne; [done|].
  rewrite mod_wrap by lia. case_decide; lia.
Qed.

Lemma contents_nil r : ring_ok r -> contents r = [] <-> r_count r = 0.
Proof.
  intros Hok. rewrite <- contents_length by done. by rewrite length_zero_iff_nil.
Qed.

Lemma contents_cons r : ring_ok r -> 0 < r_count r -> exists x xs, contents r = x :: xs.
Proof.
  intros Hok Hn. rewrite <- contents_length in Hn by done.
  destruct (contents r) as [|x xs]; [simpl in Hn; lia|by eauto].
Qed.

(** A freshly allocated ring. *)
Definition ring_init (cap : nat) (cleared : S) : ring :=
  {| r_slots := replicate cap cleared; r_capacity := cap; r_head := 0; r_tail := 0; r_count := 0 |}.

Lemma ring_init_ok cap c : 0 < cap -> ring_ok (ring_init cap c).
Proof.
  intros H. unfold ring_ok, ring_init; simpl. rewrite length_replicate.
  rewrite Nat.Div0.mod_0_l. lia.
Qed.

Lemma ring_init_contents cap c : contents (ring_init cap c) = [].
Proof. done. Qed.

End Ring.

Arguments ring : clear implicits.

(** ** Rings whose unused slots are blank

    A destructor that goes by the slots and not by the indices finds the queued values. *)

Section Clean.
Context {S : Type} (blank : S -> Prop) `{Hdec : !forall s, Decision (blank s)}.

(** Every slot after the queued ones, up to a full turn, is blank. *)
Definition ring_clean (r : ring S) : Prop :=
  forall k, r_count r <= k < r_capacity r ->
    exists s, r_slots r !! ((r_head r + k) mod r_capacity r) = Some s /\ blank s.

Lemma clean_put_tail r x :
  ring_ok r -> r_count r < r_capacity r -> ring_clean r -> ring_clean (put_tail r x).
Proof using Type.
  intros (Hc & Hl & Hh & Hn & Ht) Hlt H k Hk. simpl in *. destruct (H k) as (s & Es & Hs); [lia|].
  exists s. split; [|done]. rewrite list_lookup_insert_ne; [done|]. rewrite Ht, !mod_wrap by lia.
  repeat case_decide; lia.
Qed.

Lemma clean_put_head r x :
  ring_ok r -> r_count r < r_capacity r -> ring_clean r -> ring_clean (put_head r x).
Proof using Type.
  intros (Hc & Hl & Hh & Hn & Ht) Hlt H k Hk. simpl in *.
  destruct (H (k - 1)) as (s & Es & Hs); [lia|]. exists s. split; [|done].
  assert (E : ((r_head r + r_capacity r - 1) mod r_capacity r + k) mod r_capacity r
              = (r_head r + (k - 1)) mod r_capacity r).
  { rewrite Nat.Div0.add_mod_idemp_l.
    replace (r_head r + r_capacity r - 1 + k) with (r_head r + (k - 1) + 1 * r_capacity r) by lia.
    apply Nat.Div0.mod_add. }
  rewrite E. rewrite list_lookup_insert_ne; [done|]. rewrite !mod_wrap by lia.
  repeat case_decide; lia.
Qed.

Lemma clean_take_head c r x r' :
  blank c -> ring_ok r -> 0 < r_count r -> ring_clean r -> take_head (Some c) r = Some (x, r') ->
  ring_clean r'.
Proof using Type.
  intros Hblank (Hc & Hl & Hh & Hn & Ht) Hpos H E k Hk. unfold take_head in E.
  destruct (r_slots r !! r_head r) as [y|]; [|done]. injection E as _ <-. simpl in *.
  assert (Ek : ((r_head r + 1) mod r_capacity r + k) mod r_capacity r
               = (r_head r + (k + 1)) mod r_capacity r).
  { rewrite Nat.Div0.add_mod_idemp_l. f_equal. lia. }
  rewrite Ek. destruct (decide (k + 1 = r_capacity r)) as [E|Hne].
  - exists c. split; [|done].
    replace (r_head r + (k + 1)) with (r_head r + 1 * r_capacity r) by lia.
    rewrite Nat.Div0.mod_add, Nat.mod_small by done. apply list_lookup_insert_eq. lia.
  - destruct (H (k + 1)) as (s & Es & Hs); [lia|]. exists s. split; [|done].
    rewrite list_lookup_insert_ne; [done|]. rewrite mod_wrap by lia. case_decide; lia.
Qed.

Lemma clean_init cap c : 0 < cap -> blank c -> ring_clean (ring_init cap c).
Proof using Type.
  intros Hc Hb k Hk. simpl in *. exists c. split; [|done]. apply lookup_replicate_2.
  apply Nat.mod_upper_bound. lia.
Qed.

(** An empty clean ring is blank throughout, so its indices may be reset. *)
Lemma clean_empty r i :
  ring_ok r -> ring_clean r -> r_count r = 0 -> i < r_capacity r ->
  exists s, r_slots r !! i = Some s /\ blank s.
Proof using Type.
  intros (Hc & Hl & Hh & Hn & Ht) H H0 Hi.
  destruct (decide (r_head r <= i)).
  - destruct (H (i - r_head r)) as (s & Es & Hs); [lia|]. exists s. split; [|done].
    by replace ((r_head r + (i - r_head r)) mod r_capacity r) with i in Es
      by (rewrite mod_wrap by lia; case_decide; lia).
  - destruct (H (i + r_capacity r - r_head r)) as (s & Es & Hs); [lia|]. exists s. split; [|done].
    by replace ((r_head r + (i + r_capacity r - r_head r)) mod r_capacity r) with i in Es
      by (rewrite mod_wrap by lia; case_decide; lia).
Qed.

Lemma filter_keeps (l : list S) :
  Forall (fun s => ~ blank s) l -> filter (fun s => ~ blank s) l = l.
Proof using Type.
  induction 1 as [|p l Hp _ IH]; [done|]. rewrite list.filter_cons_True by done. by rewrite IH.
Qed.

Lemma filter_drops (l : list S) : Forall blank l -> filter (fun s => ~ blank s) l = [].
Proof using Type.
  induction 1 as [|p l Hp _ IH]; [done|]. by rewrite list.filter_cons_False by (by intros []).
Qed.

(** Reading every slot of a clean ring finds the queued values and nothing else. *)
Lemma clean_filter r :
  ring_ok r -> ring_clean r -> Forall (fun s => ~ blank s) (contents r) ->
  filter (fun s => ~ blank s) (r_slots r) ≡ₚ contents r.
Proof using Type.
  intros Hok H Hall. pose proof Hok as (Hc & Hl & Hh & Hn & Ht).
  set (rot := drop (r_head r) (r_slots r) ++ take (r_head r) (r_slots r)).
  assert (Hperm : r_slots r ≡ₚ rot).
  { unfold rot. rewrite <- (take_drop (r_head r) (r_slots r)) at 1. apply Permutation_app_comm. }
  rewrite Hperm. rewrite <- (take_drop (r_count r) rot).
  change (take (r_count r) rot) with (contents r).
  rewrite list.filter_app, filter_keeps by done. rewrite filter_drops; [by rewrite app_nil_r|].
  apply list.Forall_forall. intros s (k & Hk)%list_elem_of_lookup. rewrite lookup_drop in Hk.
  assert (Hlen : length rot = r_capacity r)
    by (unfold rot; rewrite length_app, length_drop, length_take; lia).
  pose proof (lookup_lt_Some _ _ _ Hk). unfold rot in Hk. rewrite rotation_lookup in Hk by lia.
  rewrite Hl in Hk.
  destruct (H (r_count r + k)) as (s' & Es & Hs); [lia|]. rewrite Es in Hk. by injection Hk as <-.
Qed.

End Clean.

Create HintDb ring.
#[export] Hint Resolve put_tail_ok put_head_ok ring_init_ok contents_length : ring.

(** * What a bounded queue promises

    The abstract bounded FIFO with a shutdown flag, the interface a queue implementation
    discharges, and the refinement theorem that holds for every implementation: any sequence
    of operations gives the results of the abstract queue.  Clients (the dispatcher, the
    workers, the relay) are proved against the view [fifo_view]. *)

Section Spec.
Context {A : Type}.

Inductive fifo_status := FifoOk | FifoFull | FifoEmpty | FifoShutdown.

Record fifo_spec := FifoSpec { fs_items : list A; fs_cap : nat; fs_closed : bool }.

Definition spec_push (s : fifo_spec) (x : A) : fifo_status * fifo_spec :=
  if fs_closed s then (FifoShutdown, s)
  else if decide (length (fs_items s) = fs_cap s) then (FifoFull, s)
  else (FifoOk, FifoSpec (fs_items s ++ [x]) (fs_cap s) false).

Definition spec_pop (s : fifo_spec) : fifo_status * option A * fifo_spec :=
  match fs_items s with
  | [] => (if fs_closed s then FifoShutdown else FifoEmpty, None, s)
  | x :: xs => (FifoOk, Some x, FifoSpec xs (fs_cap s) (fs_closed s))
  end.

Definition spec_shutdown (s : fifo_spec) : fifo_spec :=
  FifoSpec (fs_items s) (fs_cap s) true.

(** Taking up to [n] items under one lock. *)
Definition spec_pop_batch (s : fifo_spec) (n : nat) : list A * fifo_spec :=
  (take n (fs_items s), FifoSpec (drop n (fs_items s)) (fs_cap s) (fs_closed s)).

Inductive fifo_op := OpPush (x : A) | OpPop | OpPopBatch (n : nat) | OpShutdown.
Inductive fifo_res := ResPush (st : fifo_status) | ResPop (st : fifo_status) (x : option A)
  | ResBatch (xs : list A) | ResShutdown.

Definition spec_step (s : fifo_spec) (o : fifo_op) : fifo_res * fifo_spec :=
  match o with
  | OpPush x => let '(st, s') := spec_push s x in (ResPush st, s')
  | OpPop => let '(st, x, s') := spec_pop s in (ResPop st x, s')
  | OpPopBatch n => let '(xs, s') := spec_pop_batch s n in (ResBatch xs, s')
  | OpShutdown => (ResShutdown, spec_shutdown s)
  end.
End Spec.

Arguments fifo_spec : clear implicits.
Arguments fifo_op : clear implicits.
Arguments fifo_res : clear implicits.

Fixpoint run {S O R : Type} (step : S -> O -> R * S) (s : S) (ops : list O) : list R * S :=
  match ops with
  | [] => ([], s)
  | o :: ops' => let '(r, s1) := step s o in let '(rs, s2) := run step s1 ops' in (r :: rs, s2)
  end.

(** The interface: an invariant, the abstraction and the operations with their laws. *)
Class Fifo (Q A : Type) := {
  fifo_inv : Q -> Prop;
  fifo_view : Q -> fifo_spec A;
  fifo_step : Q -> fifo_op A -> fifo_res A * Q;
  fifo_step_ok : forall q o r q', fifo_inv q -> fifo_step q o = (r, q') ->
    fifo_inv q' /\ spec_step (fifo_view q) o = (r, fifo_view q');
  fifo_bounded : forall q, fifo_inv q -> length (fs_items (fifo_view q)) <= fs_cap (fifo_view q)
}.

(** Every run of an implementation is a run of the abstract queue. *)
Lemma fifo_run_refines {Q A} `{Fifo Q A} (ops : list (fifo_op A)) (q q' : Q) rs :
  fifo_inv q -> run fifo_step q ops = (rs, q') ->
  fifo_inv q' /\ run spec_step (fifo_view q) ops = (rs, fifo_view q').
Proof.
  revert q rs. induction ops as [|o ops IH]; intros q rs Hinv; simpl.
  - intros E. by simplify_eq.
  - destruct (fifo_step q o) as [r q1] eqn:E1. destruct (run fifo_step q1 ops) as [rs' q2] eqn:E2.
    intros E. simplify_eq. destruct (fifo_step_ok q o r q1 Hinv E1) as [H1 ->].
    by destruct (IH q1 rs' H1 E2) as [H2 ->].
Qed.
