(* ===== verification/WireHeader.v ===== *)
(** * The WGP1 wire header: src/src/wire_header.c, src/include/wire_header.h

    The encoder writes each field with [htons]/[htonl]/[host_to_be64] followed by a [memcpy] of
    the native integer, so what reaches the buffer depends on the byte order of the host.  The
    model keeps that: [HostOrder] is the byte order, [store] and [load] are the [memcpy] of a
    native integer, and the network-order conversions swap on a little-endian host only. *)

From S2P Require Import Prelude.

Local Open Scope Z_scope.

(** [true] on a little-endian machine. *)
Class HostOrder := host_little : bool.

Section Host.
Context `{host : HostOrder}.

(** [memcpy] of a native [n]-byte unsigned integer into, and out of, a buffer. *)
Definition store (n : nat) (v : Z) : list Z :=
  if host_little then le_bytes n v else be_bytes n v.
Definition load (bs : list Z) : Z := if host_little then of_le bs else of_be bs.

Definition bswap (n : nat) (v : Z) : Z := of_be (le_bytes n v).
Definition htonl (v : Z) : Z := if host_little then bswap 4 v else v.
Definition ntohl (v : Z) : Z := if host_little then bswap 4 v else v.
Definition htons (v : Z) : Z := if host_little then bswap 2 v else v.
Definition ntohs (v : Z) : Z := if host_little then bswap 2 v else v.

Definition host_to_be64 (value : Z) : Z :=
  let high := htonl (u32 (Z.shiftr value 32)) in
  let low := htonl (u32 value) in
  Z.lor (u64 (Z.shiftl low 32)) high.

Definition be64_to_host (value : Z) : Z :=
  let high := ntohl (u32 value) in
  let low := ntohl (u32 (Z.shiftr value 32)) in
  Z.lor (u64 (Z.shiftl high 32)) low.

Definition WIRE_MAGIC : Z := 0x57475031.
Definition WIRE_VERSION_V3 : Z := 3.
Definition WIRE_VERSION_V4 : Z := 4.
Definition WIRE_TYPE_DATA : Z := 1.
Definition WIRE_TYPE_END : Z := 2.
Definition WIRE_TYPE_ACK : Z := 3.
Definition WIRE_HEADER_SIZE : nat := 44.
Definition WIRE_V4_HEADER_SIZE : nat := 52.

Record WireHeader := mkWireHeader {
  wh_version : Z;
  wh_type : Z;
  wh_final_dst : Z;
  wh_ttl : Z;
  wh_flow_id : Z;
  wh_block_id : Z;
  wh_shard_index : Z;
  wh_shard_count : Z;
  wh_valid_len : Z;
  wh_payload_len : Z;
  wh_encode_begin_ns : Z;
  wh_encode_end_ns : Z;
  wh_origin_node : Z;
  wh_flags : Z;
  wh_segment_bytes : Z
}.

Definition wire_header_encode_base (out : list Z) (h : WireHeader) (ver : Z) : list Z :=
  let out := write_at out 0 (store 4 (htonl WIRE_MAGIC)) in
  let out := write_at out 4 [ver] in
  let out := write_at out 5 [wh_type h] in
  let out := write_at out 6 [wh_final_dst h] in
  let out := write_at out 7 [wh_ttl h] in
  let out := write_at out 8 (store 4 (htonl (wh_flow_id h))) in
  let out := write_at out 12 (store 8 (host_to_be64 (wh_block_id h))) in
  let out := write_at out 20 (store 2 (htons (wh_shard_index h))) in
  let out := write_at out 22 (store 2 (htons (wh_shard_count h))) in
  let out := write_at out 24 (store 2 (htons (wh_valid_len h))) in
  let out := write_at out 26 (store 2 (htons (wh_payload_len h))) in
  let out := write_at out 28 (store 8 (host_to_be64 (wh_encode_begin_ns h))) in
  write_at out 36 (store 8 (host_to_be64 (wh_encode_end_ns h))).

Definition wire_header_encode (out : list Z) (h : WireHeader) : list Z :=
  wire_header_encode_base out h WIRE_VERSION_V3.

Definition wire_header_encode_v4 (out : list Z) (h : WireHeader) : list Z :=
  let out := wire_header_encode_base out h WIRE_VERSION_V4 in
  let out := write_at out 44 [wh_origin_node h] in
  let out := write_at out 45 [wh_flags h] in
  let out := write_at out 46 (store 2 0) in
  write_at out 48 (store 4 (htonl (wh_segment_bytes h))).

Definition wire_header_size (h : WireHeader) : nat :=
  if wh_version h =? WIRE_VERSION_V4 then WIRE_V4_HEADER_SIZE else WIRE_HEADER_SIZE.

(** [None] is the return value -1; [data] is the [len] bytes the caller passed. *)
Definition wire_header_decode (data : list Z) : option WireHeader :=
  let len := length data in
  if (len <? WIRE_HEADER_SIZE)%nat then None
  else
    let value32 := load (read_at data 0 4) in
    let ver := nth 4 data 0 in
    if negb (ntohl value32 =? WIRE_MAGIC)
       || (negb (ver =? WIRE_VERSION_V3) && negb (ver =? WIRE_VERSION_V4))
       || ((ver =? WIRE_VERSION_V4) && (len <? WIRE_V4_HEADER_SIZE)%nat)
    then None
    else
      let v4 := ver =? WIRE_VERSION_V4 in
      Some {| wh_version := ver;
              wh_type := nth 5 data 0;
              wh_final_dst := nth 6 data 0;
              wh_ttl := nth 7 data 0;
              wh_flow_id := ntohl (load (read_at data 8 4));
              wh_block_id := be64_to_host (load (read_at data 12 8));
              wh_shard_index := ntohs (load (read_at data 20 2));
              wh_shard_count := ntohs (load (read_at data 22 2));
              wh_valid_len := ntohs (load (read_at data 24 2));
              wh_payload_len := ntohs (load (read_at data 26 2));
              wh_encode_begin_ns := be64_to_host (load (read_at data 28 8));
              wh_encode_end_ns := be64_to_host (load (read_at data 36 8));
              wh_origin_node := if v4 then nth 44 data 0 else 0;
              wh_flags := if v4 then nth 45 data 0 else 0;
              wh_segment_bytes := if v4 then ntohl (load (read_at data 48 4)) else 0 |}.

Definition wire_header_is_local (h : WireHeader) (local_node_id : Z) : bool :=
  if local_node_id =? 0 then false else wh_final_dst h =? local_node_id.

End Host.

(** ** Well-formed headers: every field fits its C wh_type *)

Definition header_ok (h : WireHeader) : Prop :=
  in_range 8 (wh_type h) /\ in_range 8 (wh_final_dst h) /\ in_range 8 (wh_ttl h) /\
  in_range 32 (wh_flow_id h) /\ in_range 64 (wh_block_id h) /\
  in_range 16 (wh_shard_index h) /\ in_range 16 (wh_shard_count h) /\
  in_range 16 (wh_valid_len h) /\ in_range 16 (wh_payload_len h) /\
  in_range 64 (wh_encode_begin_ns h) /\ in_range 64 (wh_encode_end_ns h) /\
  in_range 8 (wh_origin_node h) /\ in_range 8 (wh_flags h) /\ in_range 32 (wh_segment_bytes h).

(** What a decoder hands back for an encoded header: the wh_version that was written, and the v4
    extension only in a v4 datagram. *)
Definition as_v3 (h : WireHeader) : WireHeader :=
  mkWireHeader WIRE_VERSION_V3 (wh_type h) (wh_final_dst h) (wh_ttl h) (wh_flow_id h) (wh_block_id h)
    (wh_shard_index h) (wh_shard_count h) (wh_valid_len h) (wh_payload_len h) (wh_encode_begin_ns h)
    (wh_encode_end_ns h) 0 0 0.
Definition as_v4 (h : WireHeader) : WireHeader :=
  mkWireHeader WIRE_VERSION_V4 (wh_type h) (wh_final_dst h) (wh_ttl h) (wh_flow_id h) (wh_block_id h)
    (wh_shard_index h) (wh_shard_count h) (wh_valid_len h) (wh_payload_len h) (wh_encode_begin_ns h)
    (wh_encode_end_ns h) (wh_origin_node h) (wh_flags h) (wh_segment_bytes h).

(** The documented layout: 44 bytes in network byte order, and the 8-byte v4 extension. *)
Definition base_layout (h : WireHeader) (ver : Z) : list Z :=
  be_bytes 4 WIRE_MAGIC ++ [ver; wh_type h; wh_final_dst h; wh_ttl h] ++ be_bytes 4 (wh_flow_id h) ++
  be_bytes 8 (wh_block_id h) ++ be_bytes 2 (wh_shard_index h) ++ be_bytes 2 (wh_shard_count h) ++
  be_bytes 2 (wh_valid_len h) ++ be_bytes 2 (wh_payload_len h) ++
  be_bytes 8 (wh_encode_begin_ns h) ++ be_bytes 8 (wh_encode_end_ns h).
Definition v4_layout (h : WireHeader) : list Z :=
  base_layout h WIRE_VERSION_V4 ++
  [wh_origin_node h; wh_flags h] ++ be_bytes 2 0 ++ be_bytes 4 (wh_segment_bytes h).

(** ** Network byte order of the integer conversions *)

Section Conversions.
Context `{host : HostOrder}.

Lemma is_byte_rev bs : Forall is_byte bs -> Forall is_byte (rev bs).
Proof. rewrite !Forall_forall. intros H b Hb. apply H. by apply in_rev. Qed.

Lemma be_bytes_is_byte n v : Forall is_byte (be_bytes n v).
Proof. apply is_byte_rev, le_bytes_is_byte. Qed.

Lemma le_bytes_bswap n v : le_bytes n (bswap n v) = be_bytes n v.
Proof.
  unfold bswap, of_be, be_bytes. apply le_bytes_of_le.
  - apply is_byte_rev, le_bytes_is_byte.
  - by rewrite length_rev, length_le_bytes.
Qed.

Lemma store_hton n v : store n (if host_little then bswap n v else v) = be_bytes n v.
Proof. unfold store. destruct host_little; [apply le_bytes_bswap|done]. Qed.

Lemma length_store n v : length (store n v) = n.
Proof. unfold store. destruct host_little; [apply length_le_bytes|apply length_be_bytes]. Qed.

Lemma ntoh_load n bs :
  Forall is_byte bs -> length bs = n ->
  (if host_little then bswap n (load bs) else load bs) = of_be bs.
Proof.
  intros Hb Hn. unfold load, bswap. destruct host_little; [|done].
  by rewrite (le_bytes_of_le bs n).
Qed.

Lemma bswap_range n v : 0 <= bswap n v < 256 ^ Z.of_nat n.
Proof.
  pose proof (of_le_range (be_bytes n v) (be_bytes_is_byte n v)) as H.
  by rewrite length_be_bytes in H.
Qed.

Lemma bswap_bswap n v : 0 <= v < 256 ^ Z.of_nat n -> bswap n (bswap n v) = v.
Proof.
  intros Hv. unfold bswap at 1. rewrite le_bytes_bswap. by apply of_be_be_bytes_small.
Qed.

Lemma htonl_range v : in_range 32 v -> in_range 32 (htonl v).
Proof. unfold htonl. destruct host_little; [intros _; apply (bswap_range 4)|done]. Qed.

Lemma ntohl_htonl v : in_range 32 v -> ntohl (htonl v) = v.
Proof. unfold ntohl, htonl. destruct host_little; [apply (bswap_bswap 4)|done]. Qed.

(** [(hi << 32) | lo] of two 32-bit halves. *)
Lemma lor_halves hi lo :
  in_range 32 hi -> in_range 32 lo -> Z.lor (u64 (Z.shiftl hi 32)) lo = hi * 2 ^ 32 + lo.
Proof.
  unfold in_range. intros Hh Hl. rewrite Z.shiftl_mul_pow2 by lia.
  unfold u64. rewrite uwrap_small by (unfold in_range; lia).
  assert (Hand : Z.land (hi * 2 ^ 32) lo = 0).
  { apply Z.bits_inj_0. intros i. rewrite Z.land_spec.
    destruct (Z.lt_ge_cases i 32).
    - rewrite Z.mul_pow2_bits_low by lia. done.
    - rewrite (Z.bits_above_log2 lo i); [|lia|].
      2: { destruct (Z.eq_dec lo 0) as [->|]; [simpl; lia|].
           assert (Z.log2 lo < 32) by (apply Z.log2_lt_pow2; lia). lia. }
      apply andb_false_r. }
  by rewrite (Z.add_nocarry_lxor _ _ Hand), (Z.lxor_lor _ _ Hand).
Qed.

Lemma high_half v : in_range 64 v -> u32 (Z.shiftr v 32) = v / 2 ^ 32.
Proof.
  unfold in_range, u32. intros H. rewrite Z.shiftr_div_pow2 by lia. apply uwrap_small.
  unfold in_range. split; [apply Z.div_pos; lia|apply Z.div_lt_upper_bound; lia].
Qed.

Lemma host_to_be64_halves v :
  in_range 64 v ->
  host_to_be64 v = htonl (u32 v) * 2 ^ 32 + htonl (v / 2 ^ 32).
Proof.
  intros H. unfold host_to_be64. rewrite high_half by done. apply lor_halves.
  - apply htonl_range. apply uwrap_range. lia.
  - apply htonl_range. rewrite <- high_half by done. apply uwrap_range. lia.
Qed.

Lemma le_bytes_halves hi lo :
  in_range 32 hi -> in_range 32 lo ->
  le_bytes 8 (hi * 2 ^ 32 + lo) = le_bytes 4 lo ++ le_bytes 4 hi.
Proof.
  unfold in_range. intros Hh Hl. rewrite (le_bytes_app 4 4).
  change (256 ^ Z.of_nat 4) with (2 ^ 32).
  rewrite Z.div_add_l, Z.div_small, Z.add_0_r by lia. f_equal.
  rewrite <- (le_bytes_mod 4 (hi * 2 ^ 32 + lo) 4) by lia.
  change (256 ^ Z.of_nat 4) with (2 ^ 32).
  by rewrite Z.add_comm, Z.mod_add, Z.mod_small by lia.
Qed.

Lemma u32_range v : in_range 32 (u32 v).
Proof. apply uwrap_range. lia. Qed.

Lemma hi32_range v : in_range 64 v -> in_range 32 (v / 2 ^ 32).
Proof. intros H. rewrite <- high_half by done. apply u32_range. Qed.

Lemma be64_roundtrip v : in_range 64 v -> be64_to_host (host_to_be64 v) = v.
Proof.
  intros H. rewrite (host_to_be64_halves v H). unfold be64_to_host.
  pose proof (htonl_range _ (u32_range v)) as Hlo.
  pose proof (htonl_range _ (hi32_range v H)) as Hhi.
  assert (E1 : u32 (htonl (u32 v) * 2 ^ 32 + htonl (v / 2 ^ 32)) = htonl (v / 2 ^ 32)).
  { unfold u32 at 1, uwrap. unfold in_range in *.
    by rewrite Z.add_comm, Z.mod_add, Z.mod_small by lia. }
  assert (E2 : u32 (Z.shiftr (htonl (u32 v) * 2 ^ 32 + htonl (v / 2 ^ 32)) 32) = htonl (u32 v)).
  { unfold in_range in Hlo, Hhi. rewrite high_half by (unfold in_range; lia).
    rewrite Z.div_add_l by lia. rewrite (Z.div_small (htonl (v / 2 ^ 32))) by lia. lia. }
  rewrite E1, E2.
  rewrite !ntohl_htonl by (apply hi32_range || apply u32_range; done).
  rewrite lor_halves by (apply hi32_range || apply u32_range; done).
  unfold u32, uwrap. pose proof (Z.div_mod v (2 ^ 32)). lia.
Qed.

Lemma load_store64 v : in_range 64 v -> load (store 8 v) = v.
Proof.
  intros H. unfold load, store. destruct host_little.
  - rewrite of_le_le_bytes. by apply Z.mod_small.
  - by apply of_be_be_bytes_small.
Qed.

Lemma host_to_be64_range v : in_range 64 v -> in_range 64 (host_to_be64 v).
Proof.
  intros H. rewrite (host_to_be64_halves v H).
  pose proof (htonl_range _ (u32_range v)). pose proof (htonl_range _ (hi32_range v H)).
  unfold in_range in *. lia.
Qed.

(** The 64-bit fields reach the wire in network order on a little-endian host, and with
    their two 32-bit words exchanged on a big-endian one. *)
Lemma store_be64 v :
  in_range 64 v ->
  store 8 (host_to_be64 v) =
  if host_little then be_bytes 8 v
  else be_bytes 4 (u32 v) ++ be_bytes 4 (v / 2 ^ 32).
Proof.
  intros H. rewrite (host_to_be64_halves v H).
  pose proof (htonl_range _ (u32_range v)) as Hlo.
  pose proof (htonl_range _ (hi32_range v H)) as Hhi.
  unfold store. destruct host_little eqn:E.
  - rewrite le_bytes_halves by done. unfold htonl. rewrite E.
    rewrite !le_bytes_bswap. unfold be_bytes. rewrite <- rev_app_distr. f_equal.
    pose proof (le_bytes_halves (v / 2 ^ 32) (u32 v) (hi32_range v H) (u32_range v)) as Hb.
    rewrite <- Hb. f_equal. unfold u32, uwrap. pose proof (Z.div_mod v (2 ^ 32)). lia.
  - unfold be_bytes. rewrite le_bytes_halves by done. unfold htonl. rewrite E.
    apply rev_app_distr.
Qed.

End Conversions.

#[export] Hint Resolve be_bytes_is_byte length_be_bytes length_store u32_range : cint.

(** ** The encoders as one block of bytes *)

Section Layout.
Context `{host : HostOrder}.

Definition wire64 (v : Z) : list Z := store 8 (host_to_be64 v).

Definition base_bytes (h : WireHeader) (ver : Z) : list Z :=
  be_bytes 4 WIRE_MAGIC ++ [ver] ++ [wh_type h] ++ [wh_final_dst h] ++ [wh_ttl h] ++
  be_bytes 4 (wh_flow_id h) ++ wire64 (wh_block_id h) ++ be_bytes 2 (wh_shard_index h) ++
  be_bytes 2 (wh_shard_count h) ++ be_bytes 2 (wh_valid_len h) ++
  be_bytes 2 (wh_payload_len h) ++ wire64 (wh_encode_begin_ns h) ++ wire64 (wh_encode_end_ns h).

Definition v4_bytes (h : WireHeader) : list Z :=
  base_bytes h WIRE_VERSION_V4 ++ [wh_origin_node h] ++ [wh_flags h] ++ be_bytes 2 0 ++
  be_bytes 4 (wh_segment_bytes h).

Lemma length_base_bytes h ver : length (base_bytes h ver) = WIRE_HEADER_SIZE.
Proof.
  unfold base_bytes, wire64. rewrite !length_app, !length_be_bytes, !length_store. done.
Qed.

(** One more field written behind the bytes already there. *)
Lemma write_field pre rest off bs :
  off = length pre -> (length bs <= length rest)%nat ->
  write_at (pre ++ rest) off bs = (pre ++ bs) ++ drop (length bs) rest.
Proof. intros ->. apply write_at_prefix. Qed.

Ltac field_lengths :=
  rewrite ?length_app, ?length_drop, ?length_be_bytes, ?length_store; simpl; lia.

Lemma store_htonl v : store 4 (htonl v) = be_bytes 4 v.
Proof. apply store_hton. Qed.
Lemma store_htons v : store 2 (htons v) = be_bytes 2 v.
Proof. apply store_hton. Qed.

Lemma encode_base_bytes out h ver :
  (WIRE_HEADER_SIZE <= length out)%nat ->
  wire_header_encode_base out h ver = base_bytes h ver ++ drop WIRE_HEADER_SIZE out.
Proof.
  unfold WIRE_HEADER_SIZE. intros Hlen. unfold wire_header_encode_base.
  rewrite !store_htonl, !store_htons. fold (wire64 (wh_block_id h)).
  fold (wire64 (wh_encode_begin_ns h)) (wire64 (wh_encode_end_ns h)).
  change out with ([] ++ out) at 1. unfold base_bytes, wire64.
  do 13 (rewrite write_field by field_lengths).
  rewrite !drop_drop, !length_be_bytes, !length_store. simpl length. cbn [Nat.add].
  rewrite <- !app_assoc. done.
Qed.

Lemma encode_v4_bytes out h :
  (WIRE_V4_HEADER_SIZE <= length out)%nat ->
  wire_header_encode_v4 out h = v4_bytes h ++ drop WIRE_V4_HEADER_SIZE out.
Proof.
  unfold WIRE_V4_HEADER_SIZE. intros Hlen. unfold wire_header_encode_v4.
  rewrite encode_base_bytes by (unfold WIRE_HEADER_SIZE; lia).
  rewrite store_htonl. replace (store 2 0) with (be_bytes 2 0)
    by (unfold store; destruct host_little; reflexivity).
  pose proof (length_base_bytes h WIRE_VERSION_V4) as Hb. unfold WIRE_HEADER_SIZE in *.
  do 4 (rewrite write_field; [|rewrite ?length_app, Hb, ?length_be_bytes; simpl; lia
                              |rewrite ?length_drop, ?length_be_bytes; simpl; lia]).
  rewrite !drop_drop, !length_be_bytes. simpl length. cbn [Nat.add].
  unfold v4_bytes. rewrite <- !app_assoc. done.
Qed.

(** ** Reading the fields back *)

Lemma wire64_length v : length (wire64 v) = 8%nat.
Proof. apply length_store. Qed.

Lemma wire64_decode v : in_range 64 v -> be64_to_host (load (wire64 v)) = v.
Proof.
  intros H. unfold wire64. rewrite load_store64 by (by apply host_to_be64_range).
  by apply be64_roundtrip.
Qed.

Lemma ntohl_load_be v : in_range 32 v -> ntohl (load (be_bytes 4 v)) = v.
Proof.
  intros H. unfold ntohl. rewrite ntoh_load by auto with cint.
  by apply of_be_be_bytes_small.
Qed.

Lemma ntohs_load_be v : in_range 16 v -> ntohs (load (be_bytes 2 v)) = v.
Proof.
  intros H. unfold ntohs. rewrite ntoh_load by auto with cint.
  by apply of_be_be_bytes_small.
Qed.

Lemma read_at_skip pre rest off n :
  (length pre <= off)%nat -> read_at (pre ++ rest) off n = read_at rest (off - length pre) n.
Proof.
  intros H. unfold read_at. f_equal.
  by rewrite skipn_app, (drop_ge pre off), app_nil_l by lia.
Qed.

Lemma read_at_here bs rest n : length bs = n -> read_at (bs ++ rest) 0 n = bs.
Proof. intros <-. apply (read_at_app []). Qed.

Lemma read_at_here_end bs n : length bs = n -> read_at bs 0 n = bs.
Proof. intros <-. unfold read_at. simpl. apply firstn_all. Qed.

Lemma nth_skip (pre rest : list Z) off :
  (length pre <= off)%nat -> nth off (pre ++ rest) 0 = nth (off - length pre) rest 0.
Proof. intros H. by apply app_nth2. Qed.

End Layout.

(** Walk to a field of a concatenation of fields, one field at a time. *)
Ltac field_at :=
  repeat first
    [ rewrite read_at_here by (auto with cint)
    | rewrite read_at_skip by (rewrite ?length_be_bytes, ?wire64_length; simpl; lia)
    | rewrite nth_skip by (rewrite ?length_be_bytes, ?wire64_length; simpl; lia)
    | progress rewrite ?length_be_bytes, ?wire64_length
    | progress cbn [length Nat.sub nth] ].

Lemma nth_here (b : Z) rest : nth 0 ([b] ++ rest) 0 = b.
Proof. done. Qed.

Section Roundtrip.
Context `{host : HostOrder}.

Lemma base_fields h ver rest :
  let d := base_bytes h ver ++ rest in
  read_at d 0 4 = be_bytes 4 WIRE_MAGIC /\ nth 4 d 0 = ver /\ nth 5 d 0 = wh_type h /\
  nth 6 d 0 = wh_final_dst h /\ nth 7 d 0 = wh_ttl h /\
  read_at d 8 4 = be_bytes 4 (wh_flow_id h) /\ read_at d 12 8 = wire64 (wh_block_id h) /\
  read_at d 20 2 = be_bytes 2 (wh_shard_index h) /\
  read_at d 22 2 = be_bytes 2 (wh_shard_count h) /\
  read_at d 24 2 = be_bytes 2 (wh_valid_len h) /\
  read_at d 26 2 = be_bytes 2 (wh_payload_len h) /\
  read_at d 28 8 = wire64 (wh_encode_begin_ns h) /\
  read_at d 36 8 = wire64 (wh_encode_end_ns h).
Proof.
  intros d. subst d. unfold base_bytes. rewrite <- !app_assoc.
  repeat split; field_at; first [apply nth_here | reflexivity
    | apply read_at_here; auto using wire64_length with cint].
Qed.

Lemma v4_fields h rest :
  let d := v4_bytes h ++ rest in
  nth 44 d 0 = wh_origin_node h /\ nth 45 d 0 = wh_flags h /\
  read_at d 48 4 = be_bytes 4 (wh_segment_bytes h).
Proof.
  intros d. subst d. unfold v4_bytes. rewrite <- !app_assoc.
  pose proof (length_base_bytes h WIRE_VERSION_V4) as Hb. unfold WIRE_HEADER_SIZE in Hb.
  repeat split; rewrite ?nth_skip, ?read_at_skip by lia; rewrite Hb; field_at;
    first [apply nth_here | reflexivity | apply read_at_here; auto with cint].
Qed.

Lemma decode_magic : (ntohl (load (be_bytes 4 WIRE_MAGIC)) =? WIRE_MAGIC) = true.
Proof. apply Z.eqb_eq. apply ntohl_load_be. unfold in_range, WIRE_MAGIC. lia. Qed.

Lemma length_ltb_false {A} (l1 l2 : list A) n :
  (n <= length l1)%nat -> (length (l1 ++ l2) <? n)%nat = false.
Proof. intros H. apply Nat.ltb_ge. rewrite length_app. lia. Qed.

Lemma decode_v3_bytes h rest :
  header_ok h -> wire_header_decode (base_bytes h WIRE_VERSION_V3 ++ rest) = Some (as_v3 h).
Proof.
  intros (Ht & Hd & Hl & Hf & Hb & Hi & Hc & Hv & Hp & Heb & Hee & Ho & Hfl & Hs).
  unfold wire_header_decode.
  destruct (base_fields h WIRE_VERSION_V3 rest)
    as (-> & -> & -> & -> & -> & -> & -> & -> & -> & -> & -> & -> & ->).
  rewrite length_ltb_false by (rewrite length_base_bytes; lia).
  rewrite decode_magic. simpl.
  by rewrite ntohl_load_be, !ntohs_load_be, !wire64_decode by done.
Qed.

Lemma decode_v4_bytes h rest :
  header_ok h -> wire_header_decode (v4_bytes h ++ rest) = Some (as_v4 h).
Proof.
  intros (Ht & Hd & Hl & Hf & Hb & Hi & Hc & Hv & Hp & Heb & Hee & Ho & Hfl & Hs).
  unfold wire_header_decode.
  destruct (v4_fields h rest) as (-> & -> & ->).
  assert (Hlen : length (v4_bytes h) = WIRE_V4_HEADER_SIZE).
  { unfold v4_bytes. rewrite !length_app, length_base_bytes, !length_be_bytes. done. }
  rewrite !length_ltb_false by (rewrite Hlen; unfold WIRE_HEADER_SIZE, WIRE_V4_HEADER_SIZE; lia).
  unfold v4_bytes. rewrite <- app_assoc.
  match goal with |- context [base_bytes h WIRE_VERSION_V4 ++ ?r] =>
    destruct (base_fields h WIRE_VERSION_V4 r)
    as (-> & -> & -> & -> & -> & -> & -> & -> & -> & -> & -> & -> & ->) end.
  rewrite decode_magic. simpl.
  by rewrite !ntohl_load_be, !ntohs_load_be, !wire64_decode by done.
Qed.

Lemma decode_short_base data : (length data < WIRE_HEADER_SIZE)%nat -> wire_header_decode data = None.
Proof. intros H. unfold wire_header_decode. by rewrite (proj2 (Nat.ltb_lt _ _) H). Qed.

Lemma decode_short_v4 h rest : wire_header_decode (take (WIRE_V4_HEADER_SIZE - 1) (v4_bytes h ++ rest)) = None.
Proof.
  unfold wire_header_decode. case_match; [done|].
  assert (Hver : nth 4 (take (WIRE_V4_HEADER_SIZE - 1) (v4_bytes h ++ rest)) 0 = WIRE_VERSION_V4).
  { rewrite nth_firstn. unfold v4_bytes. rewrite <- app_assoc.
    match goal with |- context [base_bytes h WIRE_VERSION_V4 ++ ?r] =>
      destruct (base_fields h WIRE_VERSION_V4 r) as (_ & -> & _) end. done. }
  rewrite Hver, length_take. destruct (Nat.ltb_spec (min (WIRE_V4_HEADER_SIZE - 1) (length (v4_bytes h ++ rest))) WIRE_V4_HEADER_SIZE)
    as [_|Hl]; [by rewrite !orb_true_r|unfold WIRE_V4_HEADER_SIZE in Hl; lia].
Qed.

(** ** Properties *)

(** C37: header round trips, on a host of either byte order.  A header written by the v3 encoder
    into a buffer of 44 bytes or more decodes, whatever bytes follow it, to the header with version
    3 and the v4 fields (origin, flags, segment size) zero; one written by the v4 encoder into 52
    bytes or more decodes to the header with version 4 and all fields.  Neither encoder changes the
    length of the buffer, and a buffer one byte short of the header is refused by the decoder. *)
Theorem wire_header_roundtrip (out : list Z) (h : WireHeader) :
  header_ok h ->
  ((WIRE_HEADER_SIZE <= length out)%nat ->
     wire_header_decode (wire_header_encode out h) = Some (as_v3 h) /\
     length (wire_header_encode out h) = length out /\
     wire_header_decode (take (WIRE_HEADER_SIZE - 1) (wire_header_encode out h)) = None) /\
  ((WIRE_V4_HEADER_SIZE <= length out)%nat ->
     wire_header_decode (wire_header_encode_v4 out h) = Some (as_v4 h) /\
     length (wire_header_encode_v4 out h) = length out /\
     wire_header_decode (take (WIRE_V4_HEADER_SIZE - 1) (wire_header_encode_v4 out h)) = None).
Proof.
  intros Hok. split; intros Hlen.
  - unfold wire_header_encode. rewrite encode_base_bytes by done. split; [by apply decode_v3_bytes|]. split.
    + rewrite length_app, length_base_bytes, length_drop. unfold WIRE_HEADER_SIZE in *. simpl. lia.
    + apply decode_short_base. rewrite length_take, length_app, length_base_bytes. unfold WIRE_HEADER_SIZE. lia.
  - rewrite encode_v4_bytes by done. split; [by apply decode_v4_bytes|]. split.
    + unfold v4_bytes. rewrite !length_app, !length_base_bytes, !length_be_bytes, !length_drop.
      unfold WIRE_HEADER_SIZE, WIRE_V4_HEADER_SIZE in *. simpl. lia.
    + by apply decode_short_v4.
Qed.

End Roundtrip.

(** A concrete header used by the witnesses. *)
Definition sample_header : WireHeader :=
  mkWireHeader 4 1 4 8 7 0x0102030405060708 3 6 5600 1400 11 12 1 2 4096.

Lemma sample_header_ok : header_ok sample_header.
Proof. unfold header_ok, in_range; simpl; lia. Qed.

Lemma wire_header_roundtrip_witness :
  @wire_header_decode false
    (@wire_header_encode_v4 false (replicate 60 0) sample_header) = Some sample_header /\
  @wire_header_decode true (@wire_header_encode true (replicate 44 0) sample_header) =
    Some (mkWireHeader 3 1 4 8 7 0x0102030405060708 3 6 5600 1400 11 12 0 0 0).
Proof.
  split.
  - destruct (@wire_header_roundtrip false (replicate 60 0) sample_header sample_header_ok) as (_ & H).
    apply H. unfold WIRE_V4_HEADER_SIZE. simpl. lia.
  - destruct (@wire_header_roundtrip true (replicate 44 0) sample_header sample_header_ok) as (H & _).
    apply H. unfold WIRE_HEADER_SIZE. simpl. lia.
Defined.

(** on a little-endian host the two encoders produce exactly the documented layout, every
    integer field in network byte order at its documented offset, and leave the bytes behind
    the header alone. *)
Theorem wire_header_network_layout (out : list Z) (h : WireHeader) :
  header_ok h -> (WIRE_V4_HEADER_SIZE <= length out)%nat ->
  @wire_header_encode true out h = base_layout h WIRE_VERSION_V3 ++ drop WIRE_HEADER_SIZE out /\
  @wire_header_encode_v4 true out h = v4_layout h ++ drop WIRE_V4_HEADER_SIZE out.
Proof.
  intros (_ & _ & _ & _ & Hb & _ & _ & _ & _ & Heb & Hee & _) Hlen.
  unfold WIRE_V4_HEADER_SIZE in Hlen. unfold wire_header_encode.
  rewrite encode_base_bytes, encode_v4_bytes
    by (unfold WIRE_HEADER_SIZE, WIRE_V4_HEADER_SIZE; lia).
  unfold v4_bytes, v4_layout, base_bytes, base_layout, wire64.
  by rewrite !store_be64, <- !app_assoc by done.
Qed.

Lemma wire_header_network_layout_witness :
  take 20 (@wire_header_encode true (replicate 52 0) sample_header) =
  [0x57; 0x47; 0x50; 0x31; 3; 1; 4; 8; 0; 0; 0; 7; 1; 2; 3; 4; 5; 6; 7; 8].
Proof.
  destruct (wire_header_network_layout (replicate 52 0) sample_header) as [H _].
  - exact sample_header_ok.
  - unfold WIRE_V4_HEADER_SIZE. simpl. lia.
  - rewrite H. vm_compute. reflexivity.
Defined.

(** On a big-endian host the 64-bit fields leave network order: [host_to_be64] exchanges
    the two 32-bit words although [htonl] is the identity there, so [block_id] reaches the
    wire low word first. *)
Theorem wire_header_big_endian_swaps_words (out : list Z) (h : WireHeader) :
  header_ok h -> (WIRE_HEADER_SIZE <= length out)%nat ->
  read_at (@wire_header_encode false out h) 12 8 =
  be_bytes 4 (u32 (wh_block_id h)) ++ be_bytes 4 (wh_block_id h / 2 ^ 32).
Proof.
  intros (_ & _ & _ & _ & Hb & _) Hlen. unfold wire_header_encode.
  rewrite encode_base_bytes by done.
  destruct (@base_fields false h WIRE_VERSION_V3 (drop WIRE_HEADER_SIZE out))
    as (_ & _ & _ & _ & _ & _ & -> & _).
  unfold wire64. by rewrite store_be64.
Qed.

Lemma wire_header_big_endian_swaps_words_witness :
  read_at (@wire_header_encode false (replicate 44 0) sample_header) 12 8 =
  [5; 6; 7; 8; 1; 2; 3; 4].
Proof.
  rewrite (wire_header_big_endian_swaps_words (replicate 44 0) sample_header).
  - vm_compute. reflexivity.
  - exact sample_header_ok.
  - unfold WIRE_HEADER_SIZE. simpl. lia.
Defined.

(** * From bytes to a header and back

    What [wire_header_decode] reads fits the fields, and writing it again restores the bytes. *)

Section Back.
Context `{host : HostOrder}.

Lemma be64_swap v : host_to_be64 v = be64_to_host v.
Proof. reflexivity. Qed.

Lemma be_bytes_of_be bs n : Forall is_byte bs -> length bs = n -> be_bytes n (of_be bs) = bs.
Proof.
  intros Hb Hn. unfold be_bytes, of_be. rewrite le_bytes_of_le; [apply rev_involutive|by apply is_byte_rev|by rewrite length_rev].
Qed.

Lemma of_be_range bs n : Forall is_byte bs -> length bs = n -> 0 <= of_be bs < 256 ^ Z.of_nat n.
Proof. intros Hb <-. unfold of_be. rewrite <- length_rev. by apply of_le_range, is_byte_rev. Qed.

Lemma load_range bs n : Forall is_byte bs -> length bs = n -> 0 <= load bs < 256 ^ Z.of_nat n.
Proof. intros Hb Hn. unfold load. destruct host_little; [subst n; by apply of_le_range|by apply of_be_range]. Qed.

Lemma store_load bs n : Forall is_byte bs -> length bs = n -> store n (load bs) = bs.
Proof. intros Hb Hn. unfold store, load. destruct host_little; [by apply le_bytes_of_le|by apply be_bytes_of_be]. Qed.

Lemma back_long bs : Forall is_byte bs -> length bs = 4%nat ->
  in_range 32 (ntohl (load bs)) /\ be_bytes 4 (ntohl (load bs)) = bs.
Proof.
  intros Hb Hn. unfold ntohl. rewrite (ntoh_load 4 bs Hb Hn). split; [by apply (of_be_range bs 4)|by apply be_bytes_of_be].
Qed.

Lemma back_short bs : Forall is_byte bs -> length bs = 2%nat ->
  in_range 16 (ntohs (load bs)) /\ be_bytes 2 (ntohs (load bs)) = bs.
Proof.
  intros Hb Hn. unfold ntohs. rewrite (ntoh_load 2 bs Hb Hn). split; [by apply (of_be_range bs 2)|by apply be_bytes_of_be].
Qed.

Lemma back_quad bs : Forall is_byte bs -> length bs = 8%nat ->
  in_range 64 (be64_to_host (load bs)) /\ wire64 (be64_to_host (load bs)) = bs.
Proof.
  intros Hb Hn. assert (Hr : in_range 64 (load bs)) by (apply (load_range bs 8 Hb Hn)).
  split; [rewrite <- be64_swap; by apply host_to_be64_range|].
  unfold wire64. rewrite be64_swap, <- (be64_swap (load bs)), be64_roundtrip by done. by apply store_load.
Qed.

(** ** Cutting the header into its fields *)

Lemma read_at_bytes d off n : Forall is_byte d -> (off + n <= length d)%nat ->
  Forall is_byte (read_at d off n) /\ length (read_at d off n) = n.
Proof.
  intros Hb Hl. unfold read_at. split; [by apply Forall_take, Forall_drop|]. rewrite length_take, length_drop. lia.
Qed.

Lemma read_at_next d off n rest :
  drop (off + n) d = rest -> drop off d = read_at d off n ++ rest.
Proof. intros <-. unfold read_at. by rewrite <- drop_drop, take_drop. Qed.

Lemma drop_next (d : list Z) off : (off < length d)%nat -> drop off d = [nth off d 0] ++ drop (S off) d.
Proof.
  intros Hl. destruct (lookup_lt_is_Some_2 d off Hl) as [x Hx]. rewrite (drop_S _ _ _ Hx). by rewrite (nth_lookup_Some _ _ _ _ Hx).
Qed.

Lemma header_cut d : (WIRE_HEADER_SIZE <= length d)%nat ->
  d = (read_at d 0 4 ++ [nth 4 d 0] ++ [nth 5 d 0] ++ [nth 6 d 0] ++ [nth 7 d 0] ++ read_at d 8 4 ++ read_at d 12 8 ++
    read_at d 20 2 ++ read_at d 22 2 ++ read_at d 24 2 ++ read_at d 26 2 ++ read_at d 28 8 ++ read_at d 36 8) ++ drop 44 d.
Proof.
  unfold WIRE_HEADER_SIZE. intros Hl. rewrite <- !app_assoc.
  transitivity (drop 0 d); [done|]. apply (read_at_next d 0 4). cbn [Nat.add].
  do 4 (rewrite (drop_next d) by lia; do 2 f_equal).
  apply (read_at_next d 8 4), (read_at_next d 12 8), (read_at_next d 20 2), (read_at_next d 22 2), (read_at_next d 24 2),
    (read_at_next d 26 2), (read_at_next d 28 8), (read_at_next d 36 8). done.
Qed.

Lemma header_cut_v4 d : (WIRE_V4_HEADER_SIZE <= length d)%nat ->
  drop 44 d = [nth 44 d 0] ++ [nth 45 d 0] ++ read_at d 46 2 ++ read_at d 48 4 ++ drop 52 d.
Proof.
  unfold WIRE_V4_HEADER_SIZE. intros Hl. do 2 (rewrite (drop_next d) by lia; do 2 f_equal).
  by apply (read_at_next d 46 2), (read_at_next d 48 4).
Qed.

(** ** The decoder *)

Lemma nth_byte d i : Forall is_byte d -> in_range 8 (nth i d 0).
Proof.
  intros Hb. rewrite nth_lookup. destruct (d !! i) as [x|] eqn:E; [|cbn; unfold in_range; lia]. by eapply list.Forall_lookup_1 in Hb.
Qed.

Record decoded (d : list Z) (h : WireHeader) : Prop := {
  dc_length : (wire_header_size h <= length d)%nat;
  dc_version : wh_version h = WIRE_VERSION_V3 \/ wh_version h = WIRE_VERSION_V4;
  dc_ok : header_ok h;
  dc_bytes : d = base_bytes h (wh_version h) ++ drop 44 d;
  dc_v3 : wh_version h = WIRE_VERSION_V3 -> as_v3 h = h;
  dc_v4 : wh_version h = WIRE_VERSION_V4 ->
    drop 44 d = [wh_origin_node h] ++ [wh_flags h] ++ read_at d 46 2 ++ be_bytes 4 (wh_segment_bytes h) ++ drop 52 d }.

Lemma decode_decoded d h : Forall is_byte d -> wire_header_decode d = Some h -> decoded d h.
Proof.
  intros Hb E. unfold wire_header_decode in E. destruct (Nat.ltb_spec (length d) WIRE_HEADER_SIZE) as [|Hl]; [done|].
  destruct (negb _ || _ || _) eqn:Ec; [done|]. apply orb_false_iff in Ec as [[Em Ev]%orb_false_iff Ex].
  apply negb_false_iff, Z.eqb_eq in Em. pose proof Hl as Hl'. unfold WIRE_HEADER_SIZE in Hl'.
  assert (Hv : nth 4 d 0 = WIRE_VERSION_V3 \/ nth 4 d 0 = WIRE_VERSION_V4).
  { destruct (Z.eqb_spec (nth 4 d 0) WIRE_VERSION_V3), (Z.eqb_spec (nth 4 d 0) WIRE_VERSION_V4); auto. done. }
  assert (Hr : forall off n, (off + n <= length d)%nat -> Forall is_byte (read_at d off n) /\ length (read_at d off n) = n)
    by (intros; by apply read_at_bytes).
  destruct (back_long _ (proj1 (Hr 0%nat 4%nat ltac:(lia))) (proj2 (Hr 0%nat 4%nat ltac:(lia)))) as [_ B0].
  destruct (back_long _ (proj1 (Hr 8%nat 4%nat ltac:(lia))) (proj2 (Hr 8%nat 4%nat ltac:(lia)))) as [R8 B8].
  destruct (back_quad _ (proj1 (Hr 12%nat 8%nat ltac:(lia))) (proj2 (Hr 12%nat 8%nat ltac:(lia)))) as [R12 B12].
  destruct (back_short _ (proj1 (Hr 20%nat 2%nat ltac:(lia))) (proj2 (Hr 20%nat 2%nat ltac:(lia)))) as [R20 B20].
  destruct (back_short _ (proj1 (Hr 22%nat 2%nat ltac:(lia))) (proj2 (Hr 22%nat 2%nat ltac:(lia)))) as [R22 B22].
  destruct (back_short _ (proj1 (Hr 24%nat 2%nat ltac:(lia))) (proj2 (Hr 24%nat 2%nat ltac:(lia)))) as [R24 B24].
  destruct (back_short _ (proj1 (Hr 26%nat 2%nat ltac:(lia))) (proj2 (Hr 26%nat 2%nat ltac:(lia)))) as [R26 B26].
  destruct (back_quad _ (proj1 (Hr 28%nat 8%nat ltac:(lia))) (proj2 (Hr 28%nat 8%nat ltac:(lia)))) as [R28 B28].
  destruct (back_quad _ (proj1 (Hr 36%nat 8%nat ltac:(lia))) (proj2 (Hr 36%nat 8%nat ltac:(lia)))) as [R36 B36].
  assert (H4 : nth 4 d 0 = WIRE_VERSION_V4 -> (WIRE_V4_HEADER_SIZE <= length d)%nat).
  { intros E4. rewrite E4 in Ex. cbn [Z.eqb andb] in Ex. by apply Nat.ltb_ge in Ex. }
  assert (Hbase : d = base_bytes h (nth 4 d 0) ++ drop 44 d).
  { injection E as <-. unfold base_bytes. cbn [wh_type wh_final_dst wh_ttl wh_flow_id wh_block_id wh_shard_index wh_shard_count
      wh_valid_len wh_payload_len wh_encode_begin_ns wh_encode_end_ns]. rewrite Em in B0.
    rewrite B0, B8, B12, B20, B22, B24, B26, B28, B36. by apply header_cut. }
  injection E as <-. split; cbn [wh_version wire_header_size wh_origin_node wh_flags wh_segment_bytes].
  - unfold wire_header_size. cbn. destruct (Z.eqb_spec (nth 4 d 0) WIRE_VERSION_V4) as [E4|]; [by apply H4|done].
  - done.
  - unfold header_ok. cbn [wh_type wh_final_dst wh_ttl wh_flow_id wh_block_id wh_shard_index wh_shard_count wh_valid_len
      wh_payload_len wh_encode_begin_ns wh_encode_end_ns wh_origin_node wh_flags wh_segment_bytes].
    split_and!; try done; try (by apply nth_byte);
      (destruct (Z.eqb_spec (nth 4 d 0) WIRE_VERSION_V4) as [E4|]; [|by split]); try (by apply nth_byte).
    specialize (H4 E4). unfold WIRE_V4_HEADER_SIZE in H4. apply (back_long (read_at d 48 4)); apply Hr; lia.
  - done.
  - intros E3. unfold as_v3. cbn. by rewrite E3.
  - intros E4. rewrite E4, Z.eqb_refl. specialize (H4 E4). rewrite (header_cut_v4 d H4) at 1.
    unfold WIRE_V4_HEADER_SIZE in H4. destruct (back_long (read_at d 48 4)) as [_ ->]; [apply Hr; lia|apply Hr; lia|]. done.
Qed.

End Back.
