(* ===== verification/Gf256.v ===== *)
(** * GF(256): src/third_party/rscode/galois.c and the [gf_mul]/[gf_inv] of rs_codec.c

    The vendored rscode library computes products through the logarithm tables [gexp] and [glog]
    that [init_exp_table] fills by running an eight-bit shift register.  The file models the table
    construction, [gmult] and [ginv] on [int]s and the [unsigned char] wrappers of
    src/apps/wg_multi_pipeline/rs_codec.c, and proves that bytes with exclusive or and [gf_mul]
    are a field, registered with [ring] and [field]. *)

From Stdlib Require Import Strings.Byte.
From Stdlib Require Export Ring Field.
From S2P Require Import Prelude.

Local Open Scope Z_scope.

(** ** [unsigned char] *)

(** The value of an [unsigned char] promoted to [int], and the conversion back. *)
Definition byte_to_Z (b : byte) : Z := Z.of_N (Byte.to_N b).
Definition Z_to_byte (z : Z) : byte := default x00 (Byte.of_N (Z.to_N (u8 z))).

(** [a ^ b] on [unsigned char]. *)
Definition bxor (a b : byte) : byte := Z_to_byte (Z.lxor (byte_to_Z a) (byte_to_Z b)).

#[export] Instance byte_eq_dec : EqDecision byte := Byte.byte_eq_dec.

Lemma byte_to_Z_range b : is_byte (byte_to_Z b).
Proof. unfold is_byte, in_range, byte_to_Z. pose proof (Byte.to_N_bounded b). lia. Qed.

Lemma byte_to_Z_inj a b : byte_to_Z a = byte_to_Z b -> a = b.
Proof.
  unfold byte_to_Z. intros H%N2Z.inj.
  pose proof (Byte.of_to_N a) as Ha. rewrite H, Byte.of_to_N in Ha. by simplify_eq.
Qed.

Lemma byte_to_Z_to_byte z : is_byte z -> byte_to_Z (Z_to_byte z) = z.
Proof.
  intros Hz. unfold Z_to_byte, u8. rewrite uwrap_small by done.
  destruct Hz as [Hz0 Hz1]. change (2 ^ 8) with 256 in Hz1.
  destruct (Byte.of_N (Z.to_N z)) as [b|] eqn:E; simpl.
  - apply Byte.to_of_N in E. unfold byte_to_Z. rewrite E. lia.
  - apply Byte.of_N_None_iff in E. lia.
Qed.

Lemma Z_to_byte_to_Z b : Z_to_byte (byte_to_Z b) = b.
Proof. apply byte_to_Z_inj, byte_to_Z_to_byte, byte_to_Z_range. Qed.

#[export] Hint Resolve byte_to_Z_range : cint.

(** ** src/third_party/rscode/galois.c *)

(** The bits [p1] to [p8] of the shift register of [init_exp_table]. *)
Record Lfsr := mkLfsr {
  p1 : Z; p2 : Z; p3 : Z; p4 : Z; p5 : Z; p6 : Z; p7 : Z; p8 : Z }.

Definition lfsr_start : Lfsr := mkLfsr 1 0 0 0 0 0 0 0.

Definition lfsr_step (p : Lfsr) : Lfsr :=
  let pinit := p8 p in
  mkLfsr pinit (p1 p) (Z.lxor (p2 p) pinit) (Z.lxor (p3 p) pinit) (Z.lxor (p4 p) pinit)
    (p5 p) (p6 p) (p7 p).

Definition lfsr_value (p : Lfsr) : Z :=
  p1 p + p2 p * 2 + p3 p * 4 + p4 p * 8 + p5 p * 16 + p6 p * 32 + p7 p * 64 + p8 p * 128.

(** First loop of [init_exp_table]: [gexp[i]] and its copy [gexp[i + 255]]. *)
Definition init_gexp : list Z :=
  fst (foldl (fun '(gexp, p) i =>
                let p' := lfsr_step p in
                (<[(i + 255)%nat := lfsr_value p']> (<[i := lfsr_value p']> gexp), p'))
             (<[255%nat := 1]> (<[0%nat := 1]> (replicate 512 0)), lfsr_start)
             (seq 1 255)).

(** Second loop: [glog[i]] is the first [z] with [gexp[z] == i]. *)
Fixpoint first_power (gexp : list Z) (i : Z) (z fuel : nat) : option nat :=
  match fuel with
  | O => None
  | S fuel' =>
      if nth z gexp 0 =? i then Some z else first_power gexp i (S z) fuel'
  end.

Definition init_glog (gexp : list Z) : list Z :=
  foldl (fun glog i =>
           match first_power gexp (Z.of_nat i) 0 256 with
           | Some z => <[i := Z.of_nat z]> glog
           | None => glog
           end)
        (replicate 256 0) (seq 1 255).

(** [init_exp_table]: the contents of the global tables once [initialize_ecc] has run. *)
Definition init_exp_table : list Z * list Z := (init_gexp, init_glog init_gexp).

Definition gexp : list Z := Eval vm_compute in fst init_exp_table.
Definition glog : list Z := Eval vm_compute in snd init_exp_table.

Definition gexp_at (i : Z) : Z := nth (Z.to_nat i) gexp 0.
Definition glog_at (i : Z) : Z := nth (Z.to_nat i) glog 0.

Definition gmult (a b : Z) : Z :=
  if (a =? 0) || (b =? 0) then 0
  else
    let i := glog_at a in
    let j := glog_at b in
    gexp_at (i + j).

Definition ginv (elt : Z) : Z := gexp_at (255 - glog_at elt).

(** ** [gf_mul] and [gf_inv] of rs_codec.c *)

Definition gf_mul (left right : byte) : byte :=
  Z_to_byte (gmult (byte_to_Z left) (byte_to_Z right)).
Definition gf_inv (value : byte) : byte := Z_to_byte (ginv (byte_to_Z value)).

(** ** Multiplication by the generator of the field *)

(** Multiplication by x modulo x^8 + x^4 + x^3 + x^2 + 1. *)
Definition xtime (z : Z) : Z := Z.lxor (2 * z) (if Z.testbit z 7 then 0x11D else 0).

Definition xpow (n : nat) (z : Z) : Z := Nat.iter n xtime z.

Lemma xtime_lxor a b : xtime (Z.lxor a b) = Z.lxor (xtime a) (xtime b).
Proof.
  unfold xtime. rewrite Z.lxor_spec.
  assert (Hd : 2 * Z.lxor a b = Z.lxor (2 * a) (2 * b)).
  { pose proof (Z.shiftl_lxor a b 1) as H. rewrite !Z.shiftl_mul_pow2 in H by lia.
    change (2 ^ 1) with 2 in H. by rewrite !(Z.mul_comm _ 2) in H. }
  rewrite Hd. destruct (Z.testbit a 7), (Z.testbit b 7); simpl xorb; cbn match;
    rewrite ?Z.lxor_0_r.
  - rewrite (Z.lxor_comm (2 * b) 285), Z.lxor_assoc, <- (Z.lxor_assoc 285 285), Z.lxor_nilpotent.
    by rewrite Z.lxor_0_l.
  - rewrite !Z.lxor_assoc. f_equal. apply Z.lxor_comm.
  - by rewrite Z.lxor_assoc.
  - done.
Qed.

Lemma xpow_lxor n a b : xpow n (Z.lxor a b) = Z.lxor (xpow n a) (xpow n b).
Proof. unfold xpow. induction n as [|n IH]; simpl; [done|]. by rewrite IH, xtime_lxor. Qed.

Lemma xpow_0 n : xpow n 0 = 0.
Proof. unfold xpow. induction n as [|n IH]; simpl; [done|]. by rewrite IH. Qed.

Lemma xpow_add n m z : xpow (n + m) z = xpow n (xpow m z).
Proof. unfold xpow. apply Nat.iter_add. Qed.

(** ** What the tables hold *)

Lemma gexp_steps n : (n < 510)%nat -> nth (S n) gexp 0 = xtime (nth n gexp 0).
Proof.
  assert (H : forallb (fun n => nth (S n) gexp 0 =? xtime (nth n gexp 0)) (seq 0 510) = true)
    by (vm_compute; reflexivity).
  intros Hn. rewrite forallb_forall in H. apply Z.eqb_eq, H, in_seq. lia.
Qed.

Lemma gexp_xpow n : (n <= 510)%nat -> nth n gexp 0 = xpow n 1.
Proof.
  induction n as [|n IH]; intros Hn; [done|].
  rewrite gexp_steps, IH by lia. done.
Qed.

Lemma gexp_values n : (n <= 510)%nat -> 1 <= nth n gexp 0 < 256.
Proof.
  assert (H : forallb (fun n => (1 <=? nth n gexp 0) && (nth n gexp 0 <? 256)) (seq 0 511) = true)
    by (vm_compute; reflexivity).
  intros Hn. rewrite forallb_forall in H. specialize (H n).
  rewrite in_seq, andb_true_iff in H. lia.
Qed.

Lemma glog_values a :
  1 <= a < 256 -> 0 <= glog_at a <= 254 /\ xpow (Z.to_nat (glog_at a)) 1 = a.
Proof.
  assert (H : forallb (fun a => (0 <=? nth a glog 0) && (nth a glog 0 <=? 254) &&
                         (nth (Z.to_nat (nth a glog 0)) gexp 0 =? Z.of_nat a)) (seq 1 255) = true)
    by (vm_compute; reflexivity).
  intros Ha. rewrite forallb_forall in H. specialize (H (Z.to_nat a)).
  rewrite in_seq, !andb_true_iff in H. fold (glog_at a) in H.
  destruct H as [[? ?] He]; [lia|]. split; [lia|].
  rewrite <- gexp_xpow by lia. apply Z.eqb_eq in He. rewrite He. lia.
Qed.

(** [gmult] multiplies by a power of x. *)
Lemma gmult_xpow a b :
  1 <= a < 256 -> is_byte b -> gmult a b = xpow (Z.to_nat (glog_at a)) b.
Proof.
  intros Ha [Hb0 Hb]. change (2 ^ 8) with 256 in Hb. unfold gmult.
  destruct (Z.eqb_spec a 0); [lia|]. destruct (Z.eqb_spec b 0) as [->|]; simpl.
  { by rewrite xpow_0. }
  destruct (glog_values a Ha) as [? _]. destruct (glog_values b) as [? Eb]; [lia|].
  unfold gexp_at. rewrite gexp_xpow, Z2Nat.inj_add, xpow_add, Eb by lia. done.
Qed.

Lemma gmult_comm a b : gmult a b = gmult b a.
Proof.
  unfold gmult. rewrite orb_comm. destruct (_ || _); [done|]. by rewrite Z.add_comm.
Qed.

Lemma gmult_range a b : is_byte a -> is_byte b -> is_byte (gmult a b).
Proof.
  intros [Ha0 Ha] [Hb0 Hb]. change (2 ^ 8) with 256 in *. unfold is_byte, in_range, gmult.
  destruct (Z.eqb_spec a 0), (Z.eqb_spec b 0); simpl; try lia.
  destruct (glog_values a), (glog_values b); try lia.
  unfold gexp_at. pose proof (gexp_values (Z.to_nat (glog_at a + glog_at b))). lia.
Qed.

Lemma gmult_nonzero a b : 1 <= a < 256 -> 1 <= b < 256 -> 1 <= gmult a b < 256.
Proof.
  intros Ha Hb. unfold gmult.
  destruct (Z.eqb_spec a 0), (Z.eqb_spec b 0); simpl; try lia.
  destruct (glog_values a), (glog_values b); try lia.
  unfold gexp_at. pose proof (gexp_values (Z.to_nat (glog_at a + glog_at b))). lia.
Qed.

Lemma gmult_0_r a : gmult a 0 = 0.
Proof. unfold gmult. by rewrite orb_true_r. Qed.

Lemma gmult_assoc a b c :
  is_byte a -> is_byte b -> is_byte c -> gmult a (gmult b c) = gmult (gmult a b) c.
Proof.
  intros Ha Hb Hc.
  destruct (decide (a = 0)) as [->|]; [done|].
  destruct (decide (b = 0)) as [->|]; [by rewrite !gmult_0_r|].
  destruct (decide (c = 0)) as [->|]; [by rewrite !gmult_0_r|].
  destruct Ha as [? Ha], Hb as [? Hb], Hc as [? Hc]. change (2 ^ 8) with 256 in *.
  rewrite (gmult_comm (gmult a b) c).
  assert (Hmul : forall x y, 1 <= x < 256 -> 1 <= y < 256 ->
            gmult x y = xpow (Z.to_nat (glog_at x) + Z.to_nat (glog_at y)) 1).
  { intros x y Hx Hy. rewrite gmult_xpow by (unfold is_byte, in_range; lia).
    rewrite xpow_add. f_equal. symmetry. by apply glog_values. }
  rewrite (gmult_xpow a), (gmult_xpow c), !Hmul, <- !xpow_add
    by (try (apply gmult_range); unfold is_byte, in_range; lia).
  f_equal. lia.
Qed.

Lemma gmult_1_l b : is_byte b -> gmult 1 b = b.
Proof. intros Hb. rewrite gmult_xpow by (done || lia). done. Qed.

Lemma gmult_lxor_r a b c :
  is_byte a -> is_byte b -> is_byte c -> is_byte (Z.lxor b c) ->
  gmult a (Z.lxor b c) = Z.lxor (gmult a b) (gmult a c).
Proof.
  intros Ha Hb Hc Hbc. destruct (decide (a = 0)) as [->|]; [done|].
  destruct Ha as [? Ha]. change (2 ^ 8) with 256 in *.
  rewrite !gmult_xpow by (done || lia). apply xpow_lxor.
Qed.

Lemma gmult_inv_l a : 1 <= a < 256 -> gmult (ginv a) a = 1.
Proof.
  intros Ha. destruct (glog_values a Ha) as [Hl _]. unfold ginv, gexp_at.
  pose proof (gexp_values (Z.to_nat (255 - glog_at a))) as He.
  rewrite gmult_comm, gmult_xpow by (unfold is_byte, in_range; lia).
  rewrite gexp_xpow, <- xpow_add by lia.
  replace (Z.to_nat (glog_at a) + Z.to_nat (255 - glog_at a))%nat with 255%nat by lia.
  rewrite <- gexp_xpow by lia. done.
Qed.

(** ** Bytes are a field *)

Lemma lxor_is_byte a b : is_byte a -> is_byte b -> is_byte (Z.lxor a b).
Proof.
  unfold is_byte, in_range. intros [Ha0 Ha] [Hb0 Hb]. split.
  - by apply Z.lxor_nonneg.
  - destruct (decide (Z.lxor a b = 0)) as [->|Hn]; [lia|].
    apply Z.log2_lt_pow2; [pose proof (proj2 (Z.lxor_nonneg a b)); lia|].
    eapply Z.le_lt_trans; [by apply Z.log2_lxor|].
    assert (Hlog : forall x, 0 <= x < 2 ^ 8 -> Z.log2 x < 8).
    { intros x Hx. destruct (decide (0 < x)); [apply Z.log2_lt_pow2; lia|].
      rewrite Z.log2_nonpos by lia. lia. }
    apply Z.max_lub_lt; by apply Hlog.
Qed.

Lemma byte_to_Z_bxor a b : byte_to_Z (bxor a b) = Z.lxor (byte_to_Z a) (byte_to_Z b).
Proof. apply byte_to_Z_to_byte, lxor_is_byte; auto with cint. Qed.

Lemma byte_to_Z_gf_mul a b : byte_to_Z (gf_mul a b) = gmult (byte_to_Z a) (byte_to_Z b).
Proof. apply byte_to_Z_to_byte, gmult_range; auto with cint. Qed.

Lemma byte_nonzero b : b <> x00 -> 1 <= byte_to_Z b < 256.
Proof.
  intros Hb. pose proof (byte_to_Z_range b) as [H0 H1]. change (2 ^ 8) with 256 in H1.
  assert (byte_to_Z b <> 0); [|lia]. intros E. apply Hb, byte_to_Z_inj. by rewrite E.
Qed.

Lemma byte_to_Z_gf_inv a : a <> x00 -> byte_to_Z (gf_inv a) = ginv (byte_to_Z a).
Proof.
  intros Ha%byte_nonzero. apply byte_to_Z_to_byte. unfold ginv, gexp_at.
  destruct (glog_values _ Ha) as [? _].
  pose proof (gexp_values (Z.to_nat (255 - glog_at (byte_to_Z a)))).
  unfold is_byte, in_range. lia.
Qed.

Create Rewrite HintDb byte_field.
#[export] Hint Rewrite byte_to_Z_bxor byte_to_Z_gf_mul : byte_field.

(** Move an equation on bytes to the [int]s that represent them. *)
Ltac byte_eq := apply byte_to_Z_inj; autorewrite with byte_field.

Lemma bxor_self a : bxor a a = x00.
Proof. byte_eq. by rewrite Z.lxor_nilpotent. Qed.

Lemma gf_ring_theory : ring_theory x00 x01 bxor gf_mul bxor id (@eq byte).
Proof.
  constructor; intros; cbn [id]; byte_eq.
  - done.
  - apply Z.lxor_comm.
  - symmetry. apply Z.lxor_assoc.
  - apply gmult_1_l. auto with cint.
  - apply gmult_comm.
  - apply gmult_assoc; auto with cint.
  - rewrite (gmult_comm (Z.lxor _ _)), gmult_lxor_r, !(gmult_comm (byte_to_Z z));
      auto using lxor_is_byte with cint.
  - done.
  - by rewrite Z.lxor_nilpotent.
Qed.

Lemma gf_field_theory :
  field_theory x00 x01 bxor gf_mul bxor id (fun a b => gf_mul a (gf_inv b)) gf_inv (@eq byte).
Proof.
  constructor; [apply gf_ring_theory|done|done|].
  intros p Hp. byte_eq. rewrite byte_to_Z_gf_inv by done. by apply gmult_inv_l, byte_nonzero.
Qed.

(** Coefficients of normal forms are taken modulo two, so [ring] knows that [a ^ a = 0]. *)
Definition bit_byte (b : bool) : byte := if b then x01 else x00.

Lemma gf_morph :
  ring_morph x00 x01 bxor gf_mul bxor id (@eq byte)
             false true xorb andb xorb id Bool.eqb bit_byte.
Proof.
  constructor; try done.
  - by intros [] [].
  - by intros [] [].
  - by intros [] [].
  - intros [] []; simpl; done.
Qed.

Ltac bit_constant t :=
  match t with
  | x00 => constr:(false)
  | x01 => constr:(true)
  | _ => constr:(InitialRing.NotConstant)
  end.

Add Field gf_field : gf_field_theory (morphism gf_morph, constants [bit_constant]).
