(* ===== verification/ByteVec.v ===== *)
(** * Byte arrays, sums over GF(256) and counted loops

    What the codec components share: reading an [unsigned char] array, the accumulation loop
    [value = 0; for (i = 0; i < n; i++) value ^= f(i);] as [gsum] with its laws, and the
    invariant rule of a [for] loop. *)

From Stdlib Require Import Strings.Byte.
From S2P Require Import Prelude Gf256.

(** ** Arrays *)

(** [a[i]] and [m[i][j]] of arrays that are long enough. *)
Definition get (a : list byte) (i : nat) : byte := nth i a x00.
Definition row_of (m : list (list byte)) (i : nat) : list byte := nth i m [].
Definition mget (m : list (list byte)) (i j : nat) : byte := get (row_of m i) j.

Lemma get_insert a i j v :
  i < length a -> get (<[i := v]> a) j = if decide (i = j) then v else get a j.
Proof.
  intros Hi. unfold get. rewrite !nth_lookup. destruct (decide (i = j)) as [->|Hn].
  - by rewrite list_lookup_insert_eq.
  - by rewrite list_lookup_insert_ne.
Qed.

Lemma row_of_insert m i j r :
  i < length m -> row_of (<[i := r]> m) j = if decide (i = j) then r else row_of m j.
Proof.
  intros Hi. unfold row_of. rewrite !nth_lookup. destruct (decide (i = j)) as [->|Hn].
  - by rewrite list_lookup_insert_eq.
  - by rewrite list_lookup_insert_ne.
Qed.

Lemma nth_map_seq {A} (f : nat -> A) d s n i : i < n -> nth i (map f (seq s n)) d = f (s + i).
Proof. intros Hi. by rewrite nth_lookup, list_lookup_fmap, lookup_seq_lt by done. Qed.

Lemma get_map_seq (f : nat -> byte) s n i : i < n -> get (map f (seq s n)) i = f (s + i).
Proof. apply nth_map_seq. Qed.

Lemma get_app_l a b i : i < length a -> get (a ++ b) i = get a i.
Proof. apply app_nth1. Qed.

Lemma get_app_r a b i : length a <= i -> get (a ++ b) i = get b (i - length a).
Proof. apply app_nth2. Qed.

Lemma get_map (f : byte -> byte) a i : i < length a -> get (map f a) i = f (get a i).
Proof.
  intros [x Hx]%lookup_lt_is_Some_2. unfold get. by rewrite !nth_lookup, list_lookup_fmap, Hx.
Qed.

Lemma get_zip_with f a b i :
  i < length a -> i < length b -> get (zip_with f a b) i = f (get a i) (get b i).
Proof.
  intros [x Hx]%lookup_lt_is_Some_2 [y Hy]%lookup_lt_is_Some_2.
  unfold get. rewrite !nth_lookup, lookup_zip_with, Hx, Hy. done.
Qed.

Lemma get_replicate n v i : i < n -> get (replicate n v) i = v.
Proof. intros Hi. unfold get. rewrite nth_lookup, lookup_replicate_2 by done. done. Qed.

(** Arrays of one length that agree everywhere are equal. *)
Lemma get_ext a b :
  length a = length b -> (forall i, i < length a -> get a i = get b i) -> a = b.
Proof. intros Hl Hg. apply (nth_ext _ _ x00 x00); done. Qed.

(** ** Counted loops *)

(** [for (i = 0; i < n; i++) s = body(i, s);] *)
Definition for_ {St : Type} (n : nat) (body : nat -> St -> St) (s : St) : St :=
  foldl (fun s i => body i s) s (seq 0 n).

Lemma for_S {St} n (body : nat -> St -> St) s : for_ (S n) body s = body n (for_ n body s).
Proof. unfold for_. rewrite seq_S, foldl_app. done. Qed.

(** The invariant rule. *)
Lemma for_ind {St} (P : nat -> St -> Prop) n body s :
  P 0 s -> (forall i s', i < n -> P i s' -> P (S i) (body i s')) -> P n (for_ n body s).
Proof.
  intros H0 HS. assert (Hle : forall m, m <= n -> P m (for_ m body s)); [|by apply Hle].
  induction m as [|m IH]; intros Hm; [done|]. rewrite for_S. apply HS; [lia|]. apply IH. lia.
Qed.

Lemma for_ext {St} n (b1 b2 : nat -> St -> St) s :
  (forall i s', i < n -> b1 i s' = b2 i s') -> for_ n b1 s = for_ n b2 s.
Proof.
  intros He. induction n as [|n IH]; [done|]. rewrite !for_S, IH by auto. auto.
Qed.

(** ** Sums *)

(** [value = 0; for (i = 0; i < n; i++) value ^= f(i);] *)
Definition gsum (n : nat) (f : nat -> byte) : byte :=
  for_ n (fun i value => bxor value (f i)) x00.

Lemma gsum_S n f : gsum (S n) f = bxor (gsum n f) (f n).
Proof. apply (for_S n (fun i value => bxor value (f i))). Qed.

Lemma gsum_ext n f g : (forall i, i < n -> f i = g i) -> gsum n f = gsum n g.
Proof. intros H. apply for_ext. intros i s Hi. by rewrite H. Qed.

Lemma gsum_zero n : gsum n (fun _ => x00) = x00.
Proof. induction n as [|n IH]; [done|]. by rewrite gsum_S, IH. Qed.

Lemma gsum_all_zero n f : (forall i, i < n -> f i = x00) -> gsum n f = x00.
Proof. intros H. rewrite (gsum_ext n f (fun _ => x00)) by done. apply gsum_zero. Qed.

Lemma gsum_bxor n f g : gsum n (fun i => bxor (f i) (g i)) = bxor (gsum n f) (gsum n g).
Proof. induction n as [|n IH]; [done|]. rewrite !gsum_S, IH. ring. Qed.

Lemma gsum_mul_l n c f : gsum n (fun i => gf_mul c (f i)) = gf_mul c (gsum n f).
Proof. induction n as [|n IH]; [unfold gsum, for_; simpl; ring|]. rewrite !gsum_S, IH. ring. Qed.

Lemma gsum_mul_r n c f : gsum n (fun i => gf_mul (f i) c) = gf_mul (gsum n f) c.
Proof.
  rewrite (gsum_ext n _ (fun i => gf_mul c (f i))) by (intros; ring).
  rewrite gsum_mul_l. ring.
Qed.

Lemma gsum_swap n m f :
  gsum n (fun i => gsum m (f i)) = gsum m (fun j => gsum n (fun i => f i j)).
Proof.
  induction n as [|n IH].
  - symmetry. by apply gsum_all_zero.
  - rewrite gsum_S, IH, <- gsum_bxor. apply gsum_ext. intros j Hj. by rewrite gsum_S.
Qed.

(** A sum with one nonzero term. *)
Lemma gsum_single n k f :
  k < n -> (forall i, i < n -> i <> k -> f i = x00) -> gsum n f = f k.
Proof.
  induction n as [|n IH]; intros Hk Hz; [lia|]. rewrite gsum_S.
  destruct (decide (k = n)) as [->|Hn].
  - rewrite gsum_all_zero by (intros; apply Hz; lia). ring.
  - rewrite IH by (try (intros; apply Hz); lia). rewrite (Hz n) by lia. ring.
Qed.

(** Splitting a sum after its first [n] terms. *)
Lemma gsum_add n m f : gsum (n + m) f = bxor (gsum n f) (gsum m (fun i => f (n + i))).
Proof.
  induction m as [|m IH].
  - rewrite Nat.add_0_r. change (gsum 0 _) with x00. ring.
  - rewrite Nat.add_succ_r, !gsum_S, IH. ring.
Qed.

(** Kronecker's delta as a byte: the entries of the identity matrix. *)
Definition delta (i j : nat) : byte := if i =? j then x01 else x00.

Lemma delta_eq i : delta i i = x01.
Proof. unfold delta. by rewrite Nat.eqb_refl. Qed.

Lemma delta_ne i j : i <> j -> delta i j = x00.
Proof. intros H. unfold delta. by rewrite (proj2 (Nat.eqb_neq i j)). Qed.

Lemma gsum_delta_l n k f : k < n -> gsum n (fun i => gf_mul (delta k i) (f i)) = f k.
Proof.
  intros Hk. rewrite (gsum_single n k) by
    (try intros i Hi Hne; rewrite ?(delta_ne k i) by done; (done || ring)).
  rewrite delta_eq. ring.
Qed.

(** * Shard buffers

    A codec block is one flat [unsigned char] buffer of [n] shards of [sb] bytes; shard [s] starts
    at [s * sb].  The file gives the two-dimensional view of such a buffer that the encoder and
    decoder proofs use, and the parity equations of a systematic linear code as an executable
    reference ([encode_ref]). *)

Section Shards.
Context (sb : nat).

(** [data[s * sb + b]] *)
Definition cell (data : list byte) (s b : nat) : byte := get data (s * sb + b).

Lemma cell_div s b : b < sb -> (s * sb + b) / sb = s.
Proof. intros Hb. symmetry. apply (Nat.div_unique _ _ _ b); lia. Qed.

Lemma cell_mod s b : b < sb -> (s * sb + b) mod sb = b.
Proof. intros Hb. symmetry. apply (Nat.mod_unique _ _ s); lia. Qed.

Lemma cell_index_inj s b s' b' :
  b < sb -> b' < sb -> s * sb + b = s' * sb + b' -> s = s' /\ b = b'.
Proof.
  intros Hb Hb' H. pose proof (cell_div s b Hb) as Hd. pose proof (cell_mod s b Hb) as Hm.
  rewrite H in Hd, Hm. rewrite cell_div in Hd by done. by rewrite cell_mod in Hm.
Qed.

Lemma cell_index_lt n s b : s < n -> b < sb -> s * sb + b < n * sb.
Proof. intros Hs Hb. nia. Qed.

Lemma cell_index n i : i < n * sb -> exists s b, s < n /\ b < sb /\ i = s * sb + b.
Proof.
  intros Hi. assert (sb <> 0) by (intros ->; lia).
  exists (i / sb), (i mod sb). split; [apply Nat.Div0.div_lt_upper_bound; lia|].
  split; [by apply Nat.mod_upper_bound|]. pose proof (Nat.div_mod_eq i sb). lia.
Qed.

Lemma cell_insert n data s b v s' b' :
  length data = n * sb -> s < n -> b < sb -> b' < sb ->
  cell (<[s * sb + b := v]> data) s' b' =
  if decide (s = s' /\ b = b') then v else cell data s' b'.
Proof.
  intros Hl Hs Hb Hb'. unfold cell. rewrite get_insert by (rewrite Hl; by apply cell_index_lt).
  repeat case_decide; try done; exfalso.
  - match goal with H : ~ _ |- _ => apply H; by apply cell_index_inj end.
  - naive_solver.
Qed.

(** Buffers are equal when their cells are. *)
Lemma cell_ext n d1 d2 :
  length d1 = n * sb -> length d2 = n * sb ->
  (forall s b, s < n -> b < sb -> cell d1 s b = cell d2 s b) -> d1 = d2.
Proof.
  intros H1 H2 Hc. apply get_ext; [congruence|]. intros i Hi. rewrite H1 in Hi.
  apply cell_index in Hi as (s & b & Hs & Hb & ->). by apply Hc.
Qed.

(** A buffer given cell by cell. *)
Definition of_cells (n : nat) (f : nat -> nat -> byte) : list byte :=
  map (fun i => f (i / sb) (i mod sb)) (seq 0 (n * sb)).

Lemma length_of_cells n f : length (of_cells n f) = n * sb.
Proof. unfold of_cells. by rewrite length_map, length_seq. Qed.

Lemma cell_of_cells n f s b : s < n -> b < sb -> cell (of_cells n f) s b = f s b.
Proof.
  intros Hs Hb. unfold cell, of_cells. rewrite get_map_seq by (by apply cell_index_lt). simpl.
  by rewrite cell_div, cell_mod.
Qed.

(** [memset(data + p, 0, len)] *)
Definition zero_range (data : list byte) (p len : nat) : list byte :=
  for_ len (fun i d => <[p + i := x00]> d) data.

(** Storing [bs] at [data + p]. *)
Definition store_bytes (data : list byte) (p : nat) (bs : list byte) : list byte :=
  for_ (length bs) (fun i d => <[p + i := get bs i]> d) data.

Lemma for_insert_spec data p len f :
  p + len <= length data ->
  let d := for_ len (fun i d => <[p + i := f i]> d) data in
  length d = length data /\
  forall i, get d i = if decide (p <= i < p + len) then f (i - p) else get data i.
Proof.
  intros Hl d.
  set (P := fun len' (d : list byte) => length d = length data /\
    forall i, get d i = if decide (p <= i < p + len') then f (i - p) else get data i).
  change (P len d). apply for_ind; unfold P.
  - split; [done|]. intros i. by rewrite decide_False by lia.
  - intros j d' Hj [Hd Hg]. split; [by rewrite length_insert|]. intros i.
    rewrite get_insert, Hg by lia.
    repeat case_decide; subst; try lia; try done. f_equal. lia.
Qed.

Lemma store_bytes_spec data p bs :
  p + length bs <= length data ->
  length (store_bytes data p bs) = length data /\
  forall i, get (store_bytes data p bs) i =
    if decide (p <= i < p + length bs) then get bs (i - p) else get data i.
Proof. apply (for_insert_spec data p (length bs) (get bs)). Qed.

Lemma zero_shards n k data :
  length data = n * sb -> k <= n ->
  let d := zero_range data (k * sb) ((n - k) * sb) in
  length d = n * sb /\
  forall s b, s < n -> b < sb -> cell d s b = if s <? k then cell data s b else x00.
Proof.
  intros Hl Hk. destruct (for_insert_spec data (k * sb) ((n - k) * sb) (fun _ => x00)) as [Hd Hg];
    [nia|]. split; [by rewrite <- Hl|].
  intros s b Hs Hb. unfold cell at 1. rewrite Hg. destruct (Nat.ltb_spec s k).
  - rewrite decide_False by nia. done.
  - rewrite decide_True by nia. done.
Qed.

(** ** The code a generator defines *)

Section Code.
Context (k r : nat) (coeff : list (list byte)).

(** Byte [b] of shard [s] of the block whose data shards are those of [data]. *)
Definition code_byte (data : list byte) (s b : nat) : byte :=
  if s <? k then cell data s b
  else gsum k (fun i => gf_mul (mget coeff s i) (cell data i b)).

Definition encode_ref (data : list byte) : list byte := of_cells (k + r) (code_byte data).

Lemma encode_ref_unique data out :
  length out = (k + r) * sb ->
  (forall s b, s < k + r -> b < sb -> cell out s b = code_byte data s b) -> out = encode_ref data.
Proof.
  intros Hl Hc. apply (cell_ext (k + r)); [done|apply length_of_cells|].
  intros s b Hs Hb. rewrite Hc by done. unfold encode_ref. by rewrite cell_of_cells.
Qed.

End Code.
End Shards.
