(* ===== verification/RsMatrix.v ===== *)
(** * [matrix_inverse_dyn] of src/apps/wg_multi_pipeline/rs_codec.c

    Gauss-Jordan elimination over GF(256) on an augmented matrix.  An array
    [unsigned char m[RS_ABS_MAX_SHARDS][...]] is the list of its used rows, a row the list of its
    used bytes.  The file proves that a returned matrix is a left inverse of the input and that
    the elimination finds every pivot when the input has a trivial kernel. *)

From Stdlib Require Import Strings.Byte.
From S2P Require Import Prelude Gf256 ByteVec.

Definition RS_ABS_MAX_SHARDS : nat := 255.

(** ** The code *)

Definition aug_init (input : list (list byte)) (k : nat) : list (list byte) :=
  map (fun row =>
         map (fun column => mget input row column) (seq 0 k) ++
         map (fun column => if row =? column then x01 else x00) (seq 0 k))
      (seq 0 k).

(** [while (pivot < k && augmented[pivot][column] == 0) pivot++;] *)
Fixpoint find_pivot (aug : list (list byte)) (k column pivot fuel : nat) : nat :=
  match fuel with
  | O => pivot
  | S fuel' =>
      if (pivot <? k) && bool_decide (mget aug pivot column = x00)
      then find_pivot aug k column (S pivot) fuel'
      else pivot
  end.

Definition swap_rows (aug : list (list byte)) (pivot column : nat) : list (list byte) :=
  if decide (pivot = column) then aug
  else
    let tmp := row_of aug pivot in
    <[column := tmp]> (<[pivot := row_of aug column]> aug).

Definition scale_row (aug : list (list byte)) (column : nat) : list (list byte) :=
  let inverse := gf_inv (mget aug column column) in
  <[column := map (fun x => gf_mul x inverse) (row_of aug column)]> aug.

Definition eliminate_row (column row : nat) (aug : list (list byte)) : list (list byte) :=
  if decide (row = column) then aug
  else
    let factor := mget aug row column in
    if decide (factor = x00) then aug
    else <[row := zip_with (fun x p => bxor x (gf_mul factor p))
                           (row_of aug row) (row_of aug column)]> aug.

(** One turn of the loop over [column]; [None] is the early [return -1]. *)
Definition gj_column (k column : nat) (aug : list (list byte)) : option (list (list byte)) :=
  let pivot := find_pivot aug k column column k in
  if pivot =? k then None
  else Some (for_ k (eliminate_row column) (scale_row (swap_rows aug pivot column) column)).

Fixpoint gj_columns (k column fuel : nat) (aug : list (list byte)) : option (list (list byte)) :=
  match fuel with
  | O => Some aug
  | S fuel' =>
      match gj_column k column aug with
      | None => None
      | Some aug' => gj_columns k (S column) fuel' aug'
      end
  end.

Definition aug_output (aug : list (list byte)) (k : nat) : list (list byte) :=
  map (fun row => map (fun column => mget aug row (k + column)) (seq 0 k)) (seq 0 k).

Definition matrix_inverse_dyn (input : list (list byte)) (k : nat) : option (list (list byte)) :=
  if (k =? 0) || (RS_ABS_MAX_SHARDS <=? k) then None
  else
    match gj_columns k 0 k (aug_init input k) with
    | None => None
    | Some aug => Some (aug_output aug k)
    end.

(** ** Row operations keep the vectors orthogonal to every row *)

Section Elimination.
Context (k : nat).

Definition shape (aug : list (list byte)) : Prop :=
  length aug = k /\ forall i, i < k -> length (row_of aug i) = k * 2.

Definition rdot (row : list byte) (z : nat -> byte) : byte :=
  gsum (k * 2) (fun i => gf_mul (get row i) (z i)).

(** [z] is orthogonal to every row of the augmented matrix. *)
Definition orth (z : nat -> byte) (aug : list (list byte)) : Prop :=
  forall i, i < k -> rdot (row_of aug i) z = x00.

(** [same_orth a b]: the row spaces of [a] and [b] have the same orthogonal vectors. *)
Definition same_orth (a b : list (list byte)) : Prop := forall z, orth z a <-> orth z b.

#[local] Instance same_orth_equiv : Equivalence same_orth.
Proof.
  split.
  - by intros a z.
  - intros a b H z. symmetry. apply H.
  - intros a b c H1 H2 z. etrans; [apply H1|apply H2].
Qed.

#[local] Instance orth_proper z : Proper (same_orth ==> iff) (orth z).
Proof. intros a b H. apply H. Qed.

Lemma shape_insert aug i r :
  shape aug -> i < k -> length r = k * 2 -> shape (<[i := r]> aug).
Proof.
  intros [Hl Hr] Hi Hlen. split; [by rewrite length_insert|].
  intros j Hj. rewrite row_of_insert by lia. case_decide; auto.
Qed.

Lemma rdot_scale row c z :
  length row = k * 2 -> rdot (map (fun x => gf_mul x c) row) z = gf_mul c (rdot row z).
Proof.
  intros Hl. unfold rdot. rewrite <- gsum_mul_l. apply gsum_ext. intros i Hi.
  rewrite get_map by lia. ring.
Qed.

Lemma rdot_add_multiple r p f z :
  length r = k * 2 -> length p = k * 2 ->
  rdot (zip_with (fun x y => bxor x (gf_mul f y)) r p) z = bxor (rdot r z) (gf_mul f (rdot p z)).
Proof.
  intros Hr Hp. unfold rdot. rewrite <- gsum_mul_l, <- gsum_bxor. apply gsum_ext.
  intros i Hi. rewrite get_zip_with by lia. ring.
Qed.

Lemma swap_rows_shape aug p c : shape aug -> p < k -> c < k -> shape (swap_rows aug p c).
Proof.
  intros Hs Hp Hc. unfold swap_rows. case_decide; [done|].
  pose proof Hs as [_ Hr]. auto using shape_insert.
Qed.

Lemma row_of_swap aug p c i :
  shape aug -> p < k -> c < k ->
  row_of (swap_rows aug p c) i =
  if decide (i = c) then row_of aug p else if decide (i = p) then row_of aug c else row_of aug i.
Proof.
  intros [Hl _] Hp Hc. unfold swap_rows. case_decide as Hpc.
  - subst. by repeat case_decide; subst.
  - rewrite !row_of_insert by (rewrite ?length_insert; lia).
    repeat case_decide; subst; done.
Qed.

Lemma swap_rows_orth aug p c :
  shape aug -> p < k -> c < k -> same_orth (swap_rows aug p c) aug.
Proof.
  intros Hs Hp Hc z. unfold orth. split; intros H i Hi.
  - destruct (decide (i = c)) as [->|Hic]; [|destruct (decide (i = p)) as [->|Hip]].
    + specialize (H p Hp). rewrite row_of_swap in H by done.
      repeat case_decide; subst; done.
    + specialize (H c Hc). rewrite row_of_swap in H by done. by case_decide.
    + specialize (H i Hi). rewrite row_of_swap in H by done. by repeat case_decide.
  - rewrite row_of_swap by done. repeat case_decide; auto.
Qed.

Lemma scale_row_shape aug c : shape aug -> c < k -> shape (scale_row aug c).
Proof.
  intros Hs Hc. apply shape_insert; [done|done|]. rewrite length_map. by apply Hs.
Qed.

Lemma gf_inv_nonzero a : a <> x00 -> gf_inv a <> x00.
Proof.
  intros Ha Hi. assert (gf_mul (gf_inv a) a = x01) as E by (field; done).
  rewrite Hi in E. discriminate E.
Qed.

Lemma gf_mul_zero a b : gf_mul a b = x00 -> a = x00 \/ b = x00.
Proof.
  intros H. destruct (decide (a = x00)) as [|Ha]; [by left|right].
  assert (b = gf_mul (gf_inv a) (gf_mul a b)) as -> by (field; done).
  rewrite H. ring.
Qed.

Lemma row_of_scale aug c i :
  shape aug -> c < k ->
  row_of (scale_row aug c) i =
  if decide (c = i) then map (fun x => gf_mul x (gf_inv (mget aug c c))) (row_of aug c)
  else row_of aug i.
Proof. intros [Hl _] Hc. unfold scale_row. by rewrite row_of_insert by lia. Qed.

Lemma scale_row_orth aug c :
  shape aug -> c < k -> mget aug c c <> x00 -> same_orth (scale_row aug c) aug.
Proof.
  intros Hs Hc Hp z. pose proof Hs as [_ Hr]. unfold orth. split; intros H i Hi;
    [specialize (H i Hi); revert H|]; rewrite row_of_scale by done;
    case_decide as E; auto; subst; rewrite rdot_scale by auto.
  - intros [Hz|?]%gf_mul_zero; [|done]. by apply gf_inv_nonzero in Hp.
  - rewrite H by done. ring.
Qed.

Lemma row_of_eliminate aug c r i :
  shape aug -> r < k ->
  row_of (eliminate_row c r aug) i =
  if decide (i = r /\ r <> c /\ mget aug r c <> x00)
  then zip_with (fun x p => bxor x (gf_mul (mget aug r c) p)) (row_of aug r) (row_of aug c)
  else row_of aug i.
Proof.
  intros [Hl _] Hr. unfold eliminate_row.
  repeat case_decide; try (rewrite row_of_insert by lia; case_decide); naive_solver.
Qed.

Lemma eliminate_row_shape aug c r :
  shape aug -> c < k -> r < k -> shape (eliminate_row c r aug).
Proof.
  intros Hs Hc Hr. unfold eliminate_row. repeat case_decide; auto.
  pose proof Hs as [_ Hl]. apply shape_insert; [done|done|]. rewrite length_zip_with, !Hl; lia.
Qed.

Lemma eliminate_row_orth aug c r :
  shape aug -> c < k -> r < k -> same_orth (eliminate_row c r aug) aug.
Proof.
  intros Hs Hc Hr z. pose proof Hs as [_ Hl]. unfold orth. split; intros H i Hi.
  - pose proof (H i Hi) as Hi'. pose proof (H c Hc) as Hc'. revert Hi' Hc'.
    rewrite !row_of_eliminate by done.
    rewrite (decide_False (P := c = r /\ _)) by naive_solver.
    case_decide as E; [|done]. destruct E as [-> _].
    rewrite rdot_add_multiple by auto. intros Hi' Hc'. rewrite Hc' in Hi'.
    rewrite <- Hi'. ring.
  - rewrite row_of_eliminate by done. case_decide as E; [|auto]. destruct E as [-> _].
    rewrite rdot_add_multiple, !H by auto. ring.
Qed.

(** ** The loop invariant *)

(** The first [c] columns are those of the identity. *)
Definition unit_columns (c : nat) (aug : list (list byte)) : Prop :=
  forall i j, i < k -> j < c -> mget aug i j = delta i j.

Lemma find_pivot_spec aug c fuel p :
  k <= p + fuel ->
  p <= k ->
  let q := find_pivot aug k c p fuel in
  p <= q <= k /\ (forall i, p <= i < q -> mget aug i c = x00) /\
  (q < k -> mget aug q c <> x00).
Proof.
  revert p. induction fuel as [|fuel IH]; intros p Hf Hp; simpl.
  { repeat split; try lia. }
  destruct (Nat.ltb_spec p k) as [Hlt|Hge]; simpl; [|repeat split; lia].
  case_bool_decide as Hz; [|repeat split; (lia || done)].
  destruct (IH (S p)) as (Hq & Hall & Hn); [lia..|]. split; [lia|]. split; [|done].
  intros i Hi. destruct (decide (i = p)) as [->|]; [done|]. apply Hall. lia.
Qed.

(** Clearing the column: after [r] turns the first [r] rows but the pivot's are zero there. *)
Definition cleared (c : nat) (start : list (list byte)) (r : nat) (aug : list (list byte)) : Prop :=
  shape aug /\ same_orth aug start /\ row_of aug c = row_of start c /\
  unit_columns c aug /\ (forall i, i < r -> i <> c -> mget aug i c = x00).

Lemma mget_row aug i j : get (row_of aug i) j = mget aug i j.
Proof. done. Qed.

Lemma eliminate_row_cleared c start r aug :
  c < k -> r < k -> mget start c c = x01 -> (forall j, j < c -> mget start c j = x00) ->
  cleared c start r aug -> cleared c start (S r) (eliminate_row c r aug).
Proof.
  intros Hc Hr Hone Hlow (Hs & Ho & Hrow & Hu & Hz). pose proof Hs as [_ Hl].
  assert (Hpiv : forall j, mget aug c j = mget start c j) by (intros j; unfold mget; by rewrite Hrow).
  split; [by apply eliminate_row_shape|].
  split; [by etrans; [apply eliminate_row_orth|]|].
  split.
  { rewrite row_of_eliminate by done. rewrite decide_False by naive_solver. done. }
  split.
  - intros i j Hi Hj. unfold mget. rewrite row_of_eliminate by done. case_decide as E.
    + destruct E as [-> _]. rewrite get_zip_with by (rewrite Hl; lia).
      rewrite !mget_row, Hpiv, Hlow, Hu by done. ring.
    + by apply Hu.
  - intros i Hi Hne. unfold mget. rewrite row_of_eliminate by done. case_decide as E.
    + destruct E as [-> _]. rewrite get_zip_with by (rewrite Hl; lia).
      rewrite !mget_row, Hpiv, Hone. ring.
    + destruct (decide (i = r)) as [->|]; [|apply Hz; lia].
      destruct (decide (mget aug r c = x00)) as [?|]; [done|]. naive_solver.
Qed.

(** What holds before the turn of the loop for [column = c]. *)
Definition gj_inv (input : list (list byte)) (c : nat) (aug : list (list byte)) : Prop :=
  shape aug /\ same_orth aug (aug_init input k) /\ unit_columns c aug.

(** The row scaled by its inverse pivot, after the swap. *)
Lemma pivot_row_prepared aug c p :
  shape aug -> unit_columns c aug -> c < k -> c <= p < k -> mget aug p c <> x00 ->
  let aug' := scale_row (swap_rows aug p c) c in
  shape aug' /\ same_orth aug' aug /\ unit_columns c aug' /\
  mget aug' c c = x01 /\ (forall j, j < c -> mget aug' c j = x00).
Proof.
  intros Hs Hu Hc Hp Hnz aug'. set (sw := swap_rows aug p c).
  assert (Hsw : shape sw) by (apply swap_rows_shape; [done|lia|done]).
  assert (Hpiv : row_of sw c = row_of aug p)
    by (unfold sw; rewrite row_of_swap by (done || lia); by rewrite decide_True).
  assert (Hcc : mget sw c c = mget aug p c) by (unfold mget; by rewrite Hpiv).
  assert (Hlow : forall j, j < c -> mget sw c j = x00).
  { intros j Hj. unfold mget. rewrite Hpiv. rewrite mget_row, Hu by lia. apply delta_ne. lia. }
  assert (Hrowc : forall j, j < k * 2 ->
            mget aug' c j = gf_mul (mget sw c j) (gf_inv (mget sw c c))).
  { intros j Hj. unfold aug', mget. rewrite row_of_scale, decide_True by done.
    rewrite get_map by (rewrite (proj2 Hsw) by done; done). done. }
  split; [by apply scale_row_shape|]. split.
  { etrans; [apply scale_row_orth|apply swap_rows_orth]; try done; try lia. fold sw.
    by rewrite Hcc. }
  split; [|split].
  - intros i j Hi Hj. unfold aug', mget at 1. rewrite row_of_scale by done. fold sw.
    case_decide as E.
    + subst i. rewrite get_map by (rewrite (proj2 Hsw) by done; lia).
      rewrite mget_row, Hlow, delta_ne by lia. ring.
    + unfold sw. rewrite row_of_swap by (done || lia). rewrite decide_False by done.
      case_decide as E2.
      * subst i. rewrite mget_row, Hu by lia. rewrite !delta_ne by lia. done.
      * by apply Hu.
  - rewrite Hrowc, Hcc by lia. field. done.
  - intros j Hj. rewrite Hrowc, Hlow by lia. ring.
Qed.

Lemma gj_column_inv input c aug aug' :
  c < k -> gj_inv input c aug -> gj_column k c aug = Some aug' -> gj_inv input (S c) aug'.
Proof.
  intros Hc (Hs & Ho & Hu) Hg. unfold gj_column in Hg.
  destruct (find_pivot_spec aug c k c) as (Hq & _ & Hnz); [lia..|].
  set (p := find_pivot aug k c c k) in *.
  destruct (Nat.eqb_spec p k) as [|Hpk]; simplify_eq.
  destruct (pivot_row_prepared aug c p Hs Hu Hc) as (Hs' & Ho' & Hu' & Hone & Hlow);
    [lia|by apply Hnz; lia|].
  set (start := scale_row (swap_rows aug p c) c) in *.
  assert (Hcl : cleared c start k (for_ k (eliminate_row c) start)).
  { apply for_ind; [split_and!; try done; intros; lia|].
    intros r s Hr. by apply eliminate_row_cleared. }
  destruct Hcl as (Hs2 & Ho2 & Hrow2 & Hu2 & Hz2).
  split; [done|]. split; [by rewrite Ho2, Ho', Ho|].
  intros i j Hi Hj. destruct (decide (j = c)) as [->|]; [|apply Hu2; lia].
  destruct (decide (i = c)) as [->|Hic].
  - rewrite delta_eq. unfold mget. by rewrite Hrow2.
  - rewrite delta_ne by done. by apply Hz2.
Qed.

Lemma gj_columns_inv input c fuel aug aug' :
  c + fuel = k -> gj_inv input c aug -> gj_columns k c fuel aug = Some aug' ->
  gj_inv input k aug'.
Proof.
  revert c aug. induction fuel as [|fuel IH]; intros c aug Hc Hi Hg; simpl in Hg.
  { simplify_eq. by replace k with c by lia. }
  destruct (gj_column k c aug) as [aug1|] eqn:E; [|done].
  apply (IH (S c) aug1); [lia| |done]. eapply gj_column_inv; [lia|done..].
Qed.

(** ** The augmented matrix at the start *)

Lemma row_of_aug_init input i :
  i < k -> row_of (aug_init input k) i =
    map (fun j => mget input i j) (seq 0 k) ++ map (fun j => delta i j) (seq 0 k).
Proof. intros Hi. unfold row_of, aug_init. by rewrite nth_map_seq. Qed.

Lemma aug_init_inv input : gj_inv input 0 (aug_init input k).
Proof.
  split; [|split; [done|intros i j _ Hj; lia]].
  split; [unfold aug_init; by rewrite length_map, length_seq|].
  intros i Hi. rewrite row_of_aug_init by done. rewrite length_app, !length_map, !length_seq. lia.
Qed.

(** [row . (v, w)] for the two halves of an augmented row. *)
Lemma rdot_halves row z :
  rdot row z = bxor (gsum k (fun j => gf_mul (get row j) (z j)))
                    (gsum k (fun j => gf_mul (get row (k + j)) (z (k + j)))).
Proof. unfold rdot. replace (k * 2) with (k + k) by lia. apply gsum_add. Qed.

Lemma rdot_aug_init input i z :
  i < k -> rdot (row_of (aug_init input k) i) z =
    bxor (gsum k (fun j => gf_mul (mget input i j) (z j))) (z (k + i)).
Proof.
  intros Hi. rewrite rdot_halves, row_of_aug_init by done. f_equal.
  - apply gsum_ext. intros j Hj.
    rewrite get_app_l, get_map_seq by (rewrite ?length_map, ?length_seq; done). done.
  - rewrite <- (gsum_delta_l k i (fun j => z (k + j)) Hi). apply gsum_ext. intros j Hj.
    rewrite get_app_r by (rewrite length_map, length_seq; lia).
    rewrite length_map, length_seq. replace (k + j - k) with j by lia. by rewrite get_map_seq.
Qed.

(** ** The result is a left inverse *)

Lemma bxor_eq_zero a b : bxor a b = x00 -> a = b.
Proof. intros H. replace a with (bxor (bxor a b) b) by ring. rewrite H. ring. Qed.

Lemma gj_left_inverse input aug v :
  gj_inv input k aug ->
  forall i, i < k ->
    gsum k (fun j => gf_mul (mget (aug_output aug k) i j)
                            (gsum k (fun t => gf_mul (mget input j t) (v t)))) = v i.
Proof.
  intros (Hs & Ho & Hu) i Hi.
  set (w j := gsum k (fun t => gf_mul (mget input j t) (v t))).
  set (z n := if n <? k then v n else w (n - k)).
  assert (Hz1 : forall j, j < k -> z j = v j)
    by (intros j Hj; unfold z; by rewrite (proj2 (Nat.ltb_lt j k))).
  assert (Hz2 : forall j, z (k + j) = w j).
  { intros j. unfold z. rewrite (proj2 (Nat.ltb_ge (k + j) k)) by lia. f_equal. lia. }
  assert (Hz : orth z aug).
  { apply Ho. intros r Hr. rewrite rdot_aug_init, Hz2 by done.
    rewrite (gsum_ext k _ (fun t => gf_mul (mget input r t) (v t)))
      by (intros; by rewrite Hz1).
    apply bxor_self. }
  specialize (Hz i Hi). rewrite rdot_halves in Hz. apply bxor_eq_zero in Hz.
  rewrite (gsum_ext k _ (fun j => gf_mul (delta i j) (v j))) in Hz
    by (intros j Hj; rewrite mget_row, Hu, Hz1 by done; done).
  rewrite gsum_delta_l in Hz by done. rewrite Hz. apply gsum_ext. intros j Hj.
  rewrite Hz2. f_equal. unfold mget at 1, aug_output, row_of. by rewrite nth_map_seq, get_map_seq.
Qed.

(** ** Every pivot exists when the kernel is trivial *)

Definition kernel_trivial (input : list (list byte)) : Prop :=
  forall v, (forall i, i < k -> gsum k (fun j => gf_mul (mget input i j) (v j)) = x00) ->
            forall j, j < k -> v j = x00.

(** The vector the columns of a matrix without pivot in column [c] annihilate. *)
Definition kernel_vector (aug : list (list byte)) (c j : nat) : byte :=
  if j <? c then mget aug j c else if j =? c then x01 else x00.

Lemma kernel_vector_orth aug c :
  c < k -> unit_columns c aug -> (forall i, c <= i < k -> mget aug i c = x00) ->
  orth (fun n => if n <? k then kernel_vector aug c n else x00) aug.
Proof.
  intros Hc Hu Hz i Hi. rewrite rdot_halves.
  rewrite (gsum_all_zero k (fun j => gf_mul _ (if k + j <? k then _ else _))).
  2:{ intros j Hj. rewrite (proj2 (Nat.ltb_ge (k + j) k)) by lia. ring. }
  replace k with (c + (1 + (k - c - 1))) at 1 by lia. rewrite !gsum_add.
  rewrite (gsum_ext c _ (fun j => gf_mul (delta i j) (mget aug j c))).
  2:{ intros j Hj. rewrite mget_row, Hu by lia. unfold kernel_vector.
      rewrite !(proj2 (Nat.ltb_lt j _)) by lia. done. }
  rewrite (gsum_all_zero (k - c - 1)).
  2:{ intros j Hj. rewrite (proj2 (Nat.ltb_lt _ k)) by lia. unfold kernel_vector.
      rewrite (proj2 (Nat.ltb_ge _ c)), (proj2 (Nat.eqb_neq _ c)) by lia. ring. }
  rewrite gsum_S. change (gsum 0 _) with x00.
  rewrite Nat.add_0_r, (proj2 (Nat.ltb_lt c k)) by done. unfold kernel_vector.
  rewrite Nat.ltb_irrefl, Nat.eqb_refl, mget_row.
  destruct (decide (i < c)) as [Hlt|Hge].
  - rewrite gsum_delta_l by done. ring.
  - rewrite gsum_all_zero by (intros; rewrite delta_ne by lia; ring).
    rewrite Hz by lia. ring.
Qed.

Lemma gj_column_total input c aug :
  kernel_trivial input -> c < k -> gj_inv input c aug -> is_Some (gj_column k c aug).
Proof.
  intros Hk Hc (Hs & Ho & Hu). unfold gj_column.
  destruct (find_pivot_spec aug c k c) as (Hq & Hz & _); [lia..|].
  destruct (Nat.eqb_spec (find_pivot aug k c c k) k) as [E|]; [exfalso|eauto].
  rewrite E in Hz. pose proof (kernel_vector_orth aug c Hc Hu Hz) as Hv.
  apply Ho in Hv.
  assert (Hone : kernel_vector aug c c = x00).
  { apply (Hk (kernel_vector aug c)); [|done]. intros i Hi. specialize (Hv i Hi).
    rewrite rdot_aug_init in Hv by done. rewrite (proj2 (Nat.ltb_ge (k + i) k)) in Hv by lia.
    apply bxor_eq_zero in Hv. rewrite <- Hv. apply gsum_ext. intros j Hj.
    by rewrite (proj2 (Nat.ltb_lt j k)). }
  unfold kernel_vector in Hone. rewrite Nat.ltb_irrefl, Nat.eqb_refl in Hone. discriminate Hone.
Qed.

Lemma gj_columns_total input c fuel aug :
  kernel_trivial input -> c + fuel = k -> gj_inv input c aug ->
  is_Some (gj_columns k c fuel aug).
Proof.
  intros Hk. revert c aug. induction fuel as [|fuel IH]; intros c aug Hc Hi; simpl; [eauto|].
  destruct (gj_column_total input c aug Hk) as [aug1 E]; [lia|done|]. rewrite E.
  apply IH; [lia|]. eapply gj_column_inv; [lia|done..].
Qed.

End Elimination.

(** ** [matrix_inverse_dyn] *)

Lemma matrix_inverse_left input inverse k v :
  matrix_inverse_dyn input k = Some inverse ->
  forall i, i < k ->
    gsum k (fun j => gf_mul (mget inverse i j)
                            (gsum k (fun t => gf_mul (mget input j t) (v t)))) = v i.
Proof.
  unfold matrix_inverse_dyn. intros H. destruct (_ || _); [done|].
  destruct (gj_columns _ _ _ _) as [aug|] eqn:E; simplify_eq.
  apply gj_left_inverse. by apply (gj_columns_inv k input 0 k (aug_init input k)); [|apply aug_init_inv|].
Qed.

Lemma matrix_inverse_total input k :
  0 < k < RS_ABS_MAX_SHARDS -> kernel_trivial k input -> is_Some (matrix_inverse_dyn input k).
Proof.
  intros Hk Ht. unfold matrix_inverse_dyn.
  rewrite (proj2 (Nat.eqb_neq k 0)), (proj2 (Nat.leb_gt _ k)) by lia. simpl.
  destruct (gj_columns_total k input 0 k (aug_init input k)) as [aug ->];
    [done|lia|apply aug_init_inv|eauto].
Qed.
