(* ===== verification/RsGenerator.v ===== *)
(** * Generator matrices: src/third_party/rscode/rs.c, berlekamp.c and the [build_generator_*]
      functions of src/apps/wg_multi_pipeline/rs_codec.c

    The default RS(6,4) code takes its parity rows from rscode's shift-register encoder, every
    other geometry from a Cauchy matrix.  The file proves that any [k] rows of a generator have
    a trivial kernel, the property that makes every erasure pattern with [k] survivors
    recoverable, and that the shift-register encoder is the matrix product. *)

From Stdlib Require Import Strings.Byte.
From S2P Require Import Prelude Gf256 ByteVec RsMatrix.

(** ** rscode: the generator polynomial and the shift-register encoder *)

Definition NPAR : nat := 2.
Definition MAXDEG : nat := NPAR * 2.

(** [mult_polys(dst, p1, p2)]: [dst] of length [2 * MAXDEG]. *)
Definition mult_polys (p1 p2 : list Z) : list Z :=
  foldl (fun dst i =>
           let tmp1 := map (fun j => gmult (nth j p2 0%Z) (nth i p1 0%Z)) (seq 0 MAXDEG) ++
                       replicate MAXDEG 0%Z in
           let tmp1 := take (MAXDEG * 2) (replicate i 0%Z ++ tmp1) in
           zip_with Z.lxor dst tmp1)
        (replicate (MAXDEG * 2) 0%Z) (seq 0 MAXDEG).

Definition zero_poly : list Z := replicate MAXDEG 0%Z.
Definition copy_poly (src : list Z) : list Z := take MAXDEG src.

Definition compute_genpoly (nbytes : nat) : list Z :=
  fst (foldl (fun '(genpoly, tp1) i =>
                let tp := <[1 := 1%Z]> (<[0 := gexp_at (Z.of_nat i)]> zero_poly) in
                let genpoly := mult_polys tp tp1 in
                (genpoly, copy_poly genpoly))
             (replicate (MAXDEG * 2) 0%Z, <[0 := 1%Z]> zero_poly)
             (seq 1 nbytes)).

(** The global [genPoly] after [initialize_ecc]. *)
Definition genPoly : list Z := compute_genpoly NPAR.

(** One message byte through the shift register [LFSR[NPAR + 1]]; the inner loop runs downwards,
    so each entry reads its neighbour's old value. *)
Definition lfsr_shift (lfsr : list Z) (m : byte) : list Z :=
  let dbyte := Z.lxor (byte_to_Z m) (nth (NPAR - 1) lfsr 0%Z) in
  map (fun j =>
         if j =? 0 then gmult (nth 0 genPoly 0%Z) dbyte
         else if j <? NPAR then Z.lxor (nth (j - 1) lfsr 0%Z) (gmult (nth j genPoly 0%Z) dbyte)
         else nth j lfsr 0%Z)
      (seq 0 (NPAR + 1)).

(** [build_codeword]: the parity bytes follow the message, highest register entry first. *)
Definition build_codeword (msg : list byte) (pBytes : list Z) : list byte :=
  msg ++ map (fun i => Z_to_byte (nth (NPAR - 1 - i) pBytes 0%Z)) (seq 0 NPAR).

Definition encode_data (msg : list byte) : list byte :=
  let lfsr := foldl lfsr_shift (replicate (NPAR + 1) 0%Z) msg in
  build_codeword msg (take NPAR lfsr).

(** ** Generators of rs_codec.c *)

(** The generator is the list of its [n] rows of [k] coefficients; the rest of the static array
    is zero and never read. *)
Definition fill_identity_data_rows (k : nat) : list (list byte) :=
  map (fun row => map (fun column => if row =? column then x01 else x00) (seq 0 k)) (seq 0 k).

Definition build_generator_rscode_4_2 : list (list byte) :=
  fill_identity_data_rows 4 ++
  map (fun row =>
         map (fun column =>
                let message := <[column := x01]> (replicate 4 x00) in
                get (encode_data message) row)
             (seq 0 4))
      (seq 4 2).

Definition cauchy_entry (r row column : nat) : option byte :=
  let x := Z_to_byte (Z.of_nat (row + 1)) in
  let y := Z_to_byte (Z.of_nat (r + 1 + column)) in
  let den := bxor x y in
  if decide (den = x00) then None else Some (gf_inv den).

Definition build_generator_cauchy (k r : nat) : option (list (list byte)) :=
  parity ← mapM (fun row => mapM (cauchy_entry r row) (seq 0 k)) (seq 0 r);
  Some (fill_identity_data_rows k ++ parity).

Definition rebuild_generator (k r : nat) : option (list (list byte)) :=
  if (k =? 4) && (r =? 2) then Some build_generator_rscode_4_2
  else build_generator_cauchy k r.

(** ** The rows *)

Definition matrix_shape (G : list (list byte)) (rows columns : nat) : Prop :=
  length G = rows /\ forall i, i < rows -> length (row_of G i) = columns.

Lemma length_fill_identity k : length (fill_identity_data_rows k) = k.
Proof. unfold fill_identity_data_rows. by rewrite length_map, length_seq. Qed.

Lemma row_of_app_l m1 m2 i : i < length m1 -> row_of (m1 ++ m2) i = row_of m1 i.
Proof. apply app_nth1. Qed.

Lemma row_of_app_r m1 m2 i : row_of (m1 ++ m2) (length m1 + i) = row_of m2 i.
Proof.
  unfold row_of. rewrite app_nth2 by lia. f_equal. lia.
Qed.

Lemma row_of_identity k i :
  i < k -> row_of (fill_identity_data_rows k) i = map (fun j => delta i j) (seq 0 k).
Proof. intros Hi. unfold row_of, fill_identity_data_rows. by rewrite nth_map_seq. Qed.

Lemma mget_identity k i j :
  i < k -> j < k -> mget (fill_identity_data_rows k) i j = delta i j.
Proof. intros Hi Hj. unfold mget. by rewrite row_of_identity, get_map_seq. Qed.

Lemma mapM_seq_nth {A} (f : nat -> option A) n l d :
  mapM f (seq 0 n) = Some l -> length l = n /\ forall i, i < n -> f i = Some (nth i l d).
Proof.
  intros H. apply mapM_Some_1 in H. pose proof (Forall2_length H) as Hl.
  rewrite length_seq in Hl. split; [done|]. intros i Hi.
  destruct (lookup_lt_is_Some_2 l i) as [x Hx]; [lia|].
  rewrite nth_lookup, Hx. simpl.
  apply (Forall2_lookup_lr _ _ _ i i x H); [by apply lookup_seq_lt|done].
Qed.

Lemma cauchy_rows k r G :
  build_generator_cauchy k r = Some G ->
  matrix_shape G (k + r) k /\
  (forall i, i < k -> row_of G i = map (fun j => delta i j) (seq 0 k)) /\
  (forall p j, p < r -> j < k -> cauchy_entry r p j = Some (mget G (k + p) j)).
Proof.
  unfold build_generator_cauchy. intros H.
  destruct (mapM _ (seq 0 r)) as [parity|] eqn:E; simplify_eq/=.
  apply (mapM_seq_nth _ _ _ []) in E as [Hl Hrow].
  assert (Hlow : forall i, i < k ->
            row_of (fill_identity_data_rows k ++ parity) i = map (fun j => delta i j) (seq 0 k)).
  { intros i Hi. rewrite row_of_app_l by (by rewrite length_fill_identity).
    by apply row_of_identity. }
  assert (Hhigh : forall p, row_of (fill_identity_data_rows k ++ parity) (k + p) = nth p parity []).
  { intros p. pose proof (row_of_app_r (fill_identity_data_rows k) parity p) as Hr.
    by rewrite length_fill_identity in Hr. }
  split; [|split; [done|]].
  - split; [by rewrite length_app, length_fill_identity, Hl|]. intros i Hi.
    destruct (decide (i < k)) as [?|?].
    + rewrite Hlow by done. by rewrite length_map, length_seq.
    + replace i with (k + (i - k)) by lia. rewrite Hhigh.
      apply (mapM_seq_nth _ _ _ x00 (Hrow (i - k) ltac:(lia))).
  - intros p j Hp Hj. unfold mget. rewrite Hhigh.
    by apply (mapM_seq_nth _ _ _ x00 (Hrow p Hp)).
Qed.

(** ** Cauchy matrices have no kernel *)

(** Sum over a list of indices. *)
Definition lsum (f : nat -> byte) (js : list nat) : byte :=
  foldr (fun j acc => bxor (f j) acc) x00 js.

Lemma lsum_ext f g js : (forall j, j ∈ js -> f j = g j) -> lsum f js = lsum g js.
Proof.
  intros H. induction js as [|j js IH]; [done|]. simpl.
  rewrite (H j) by set_solver. rewrite IH; [done|]. set_solver.
Qed.

Lemma lsum_mul f c js : lsum (fun j => gf_mul c (f j)) js = gf_mul c (lsum f js).
Proof. induction js as [|j js IH]; simpl; [ring|]. rewrite IH. ring. Qed.

Lemma lsum_bxor f g js : lsum (fun j => bxor (f j) (g j)) js = bxor (lsum f js) (lsum g js).
Proof. induction js as [|j js IH]; simpl; [ring|]. rewrite IH. ring. Qed.

Lemma lsum_snoc f js j : lsum f (js ++ [j]) = bxor (lsum f js) (f j).
Proof. induction js as [|i js IH]; simpl; [ring|]. rewrite IH. ring. Qed.

Lemma gsum_lsum n f : gsum n f = lsum f (seq 0 n).
Proof.
  induction n as [|n IH]; [done|]. by rewrite gsum_S, seq_S, lsum_snoc, IH.
Qed.

Lemma lsum_filter f (P : nat -> Prop) `{!forall j, Decision (P j)} js :
  (forall j, j ∈ js -> ~ P j -> f j = x00) -> lsum f js = lsum f (filter P js).
Proof.
  intros Hz. induction js as [|j js IH]; [done|]. rewrite filter_cons.
  assert (lsum f js = lsum f (filter P js)) as E by (apply IH; set_solver).
  case_decide; simpl; rewrite E; [done|]. rewrite (Hz j) by set_solver. ring.
Qed.

Lemma bxor_ne a b : a <> b -> bxor a b <> x00.
Proof. intros H E. by apply H, bxor_eq_zero. Qed.

(** A combination of [m] functions [1 / (x + y_j)] with distinct poles that vanishes at [m]
    distinct points has only zero coefficients. *)
Lemma cauchy_zero (y : nat -> byte) xs js v :
  length xs = length js -> NoDup xs -> NoDup js ->
  (forall i j, i ∈ js -> j ∈ js -> y i = y j -> i = j) ->
  (forall x j, x ∈ xs -> j ∈ js -> x <> y j) ->
  (forall x, x ∈ xs -> lsum (fun j => gf_mul (v j) (gf_inv (bxor x (y j)))) js = x00) ->
  forall j, j ∈ js -> v j = x00.
Proof.
  revert js v. induction xs as [|x xs IH]; intros [|j0 js] v Hlen Hxs Hjs Hy Hxy Hsum j Hj;
    try done; [by apply elem_of_nil in Hj|].
  simpl in Hlen. apply list.NoDup_cons in Hxs as [Hx Hxs], Hjs as [Hj0 Hjs].
  set (S x' := lsum (fun j => gf_mul (v j) (gf_inv (bxor x' (y j)))) js).
  assert (Hv0 : forall x', x' ∈ x :: xs -> v j0 = gf_mul (bxor x' (y j0)) (S x')).
  { intros x' Hx'. pose proof (Hsum x' Hx') as E. simpl in E. fold (S x') in E.
    apply bxor_eq_zero in E. rewrite <- E.
    field. apply bxor_ne, Hxy; [done|set_solver]. }
  assert (Hrest : forall i, i ∈ js -> v i = x00).
  { intros i Hi.
    assert (Hi' : gf_mul (v i) (gf_mul (bxor (y i) (y j0)) (gf_inv (bxor x (y i)))) = x00).
    { refine (IH js (fun i => gf_mul (v i) (gf_mul (bxor (y i) (y j0)) (gf_inv (bxor x (y i)))))
                _ Hxs Hjs _ _ _ i Hi).
      - lia.
      - intros a b Ha Hb. apply Hy; set_solver.
      - intros x' a Hx' Ha. apply Hxy; set_solver.
      - intros x' Hx'.
        assert (Hp : gf_mul (bxor x x')
          (lsum (fun i => gf_mul (gf_mul (v i) (gf_mul (bxor (y i) (y j0)) (gf_inv (bxor x (y i)))))
                                 (gf_inv (bxor x' (y i)))) js) = x00).
        { rewrite <- lsum_mul.
          rewrite (lsum_ext _ (fun i => bxor
            (gf_mul (bxor x (y j0)) (gf_mul (v i) (gf_inv (bxor x (y i)))))
            (gf_mul (bxor x' (y j0)) (gf_mul (v i) (gf_inv (bxor x' (y i))))))).
          - rewrite lsum_bxor, !lsum_mul. fold (S x) (S x').
            rewrite <- (Hv0 x), <- (Hv0 x') by set_solver. apply bxor_self.
          - intros a Ha. field. split; apply bxor_ne, Hxy; set_solver. }
        apply gf_mul_zero in Hp as [Hp|Hp]; [|done].
        apply bxor_eq_zero in Hp. subst. done. }
    apply gf_mul_zero in Hi' as [|[E|E]%gf_mul_zero]; [done|exfalso..].
    - apply bxor_eq_zero, Hy in E; [|set_solver..]. by subst.
    - revert E. apply gf_inv_nonzero, bxor_ne, Hxy; set_solver. }
  apply elem_of_cons in Hj as [->|Hj]; [|by apply Hrest].
  rewrite (Hv0 x) by set_solver. unfold S.
  rewrite (lsum_ext _ (fun _ => gf_mul x00 x00)) by (intros i Hi; rewrite Hrest by done; ring).
  rewrite lsum_mul. ring.
Qed.

(** ** Any [k] rows of a generator *)

Lemma nat_byte_inj a b :
  a < 256 -> b < 256 -> Z_to_byte (Z.of_nat a) = Z_to_byte (Z.of_nat b) -> a = b.
Proof.
  intros Ha Hb H. apply (f_equal byte_to_Z) in H.
  rewrite !byte_to_Z_to_byte in H by (unfold is_byte, in_range; lia). lia.
Qed.

(** As many parity survivors as lost data shards. *)
Lemma survivors_count k (survivors : list nat) :
  NoDup survivors -> length survivors = k ->
  length (filter (fun s => ~ s < k) survivors) =
  length (filter (fun j => j ∉ survivors) (seq 0 k)).
Proof.
  intros Hnd Hlen.
  pose proof (list.filter_app_complement (fun s => s < k) survivors) as H1.
  pose proof (list.filter_app_complement (fun j => j ∈ survivors) (seq 0 k)) as H2.
  apply Permutation_length in H1, H2. rewrite length_app in H1, H2. rewrite length_seq in H2.
  assert (E : filter (fun s => s < k) survivors ≡ₚ filter (fun j => j ∈ survivors) (seq 0 k)).
  { apply NoDup_Permutation; [by apply list.NoDup_filter|apply list.NoDup_filter, NoDup_seq|].
    intros s. rewrite !list_elem_of_filter, elem_of_seq. naive_solver lia. }
  apply Permutation_length in E. lia.
Qed.

Definition select_rows (G : list (list byte)) (survivors : list nat) : list (list byte) :=
  map (row_of G) survivors.

Lemma row_of_select G survivors i s :
  survivors !! i = Some s -> row_of (select_rows G survivors) i = row_of G s.
Proof.
  intros H. unfold row_of at 1, select_rows. by rewrite nth_lookup, list_lookup_fmap, H.
Qed.

Lemma cauchy_kernel k r G survivors :
  1 <= k -> k + r <= 255 -> build_generator_cauchy k r = Some G ->
  NoDup survivors -> Forall (fun s => s < k + r) survivors -> length survivors = k ->
  kernel_trivial k (select_rows G survivors).
Proof.
  intros Hk Hn HG Hnd Hlt Hlen v Hv.
  apply cauchy_rows in HG as (_ & Hid & Hpar). rewrite list.Forall_forall in Hlt.
  assert (Hrow : forall s, s ∈ survivors -> gsum k (fun j => gf_mul (mget G s j) (v j)) = x00).
  { intros s [i Hi]%list_elem_of_lookup. rewrite <- (Hv i).
    - unfold mget. by rewrite (row_of_select _ _ _ s).
    - apply lookup_lt_Some in Hi. lia. }
  assert (Hdata : forall s, s ∈ survivors -> s < k -> v s = x00).
  { intros s Hs Hsk. rewrite <- (Hrow s Hs), <- (gsum_delta_l k s v Hsk). apply gsum_ext.
    intros j Hj. unfold mget. by rewrite Hid, get_map_seq. }
  set (x p := Z_to_byte (Z.of_nat (p + 1))). set (y j := Z_to_byte (Z.of_nat (r + 1 + j))).
  set (js := filter (fun j => j ∉ survivors) (seq 0 k)).
  set (ps := filter (fun s => ~ s < k) survivors).
  assert (Hjs : forall j, j ∈ js <-> (j ∉ survivors) /\ j < k)
    by (intros j; unfold js; rewrite list_elem_of_filter, elem_of_seq; naive_solver lia).
  assert (Hps : forall s, s ∈ ps -> s ∈ survivors /\ k <= s < k + r).
  { intros s. unfold ps. rewrite list_elem_of_filter. intros [? Hs]. specialize (Hlt s Hs).
    split; [done|lia]. }
  intros j Hj. destruct (decide (j ∈ survivors)) as [|Hns]; [by apply Hdata|].
  refine (cauchy_zero y (map (fun s => x (s - k)) ps) js v _ _ _ _ _ _ j _).
  - rewrite length_map. by apply survivors_count.
  - apply NoDup_fmap_2_strong; [|by apply list.NoDup_filter].
    intros s1 s2 Hs1%Hps Hs2%Hps E. apply nat_byte_inj in E; lia.
  - apply list.NoDup_filter, NoDup_seq.
  - intros a b Ha%Hjs Hb%Hjs E. apply nat_byte_inj in E; lia.
  - intros b a (s & -> & Hs%Hps)%list_elem_of_fmap Ha%Hjs E. apply nat_byte_inj in E; lia.
  - intros b (s & -> & Hs%Hps)%list_elem_of_fmap. destruct Hs as [Hs Hsk].
    rewrite <- (Hrow s Hs), gsum_lsum, (lsum_filter _ (fun j => j ∉ survivors) (seq 0 k)).
    + apply lsum_ext. intros a Ha%Hjs.
      pose proof (Hpar (s - k) a ltac:(lia) ltac:(lia)) as E.
      replace (k + (s - k)) with s in E by lia. unfold cauchy_entry in E.
      fold (x (s - k)) (y a) in E. case_decide; simplify_eq. rewrite <- E. ring.
    + intros a [_ Ha]%elem_of_seq Hin. rewrite Hdata by (try lia; by apply dec_stable). ring.
  - by apply Hjs.
Qed.

(** The denominators are never zero inside the bound on [n]. *)
Lemma cauchy_entry_total r row column :
  row < r -> r + 1 + column < 256 -> is_Some (cauchy_entry r row column).
Proof.
  intros Hr Hc. unfold cauchy_entry. case_decide as E; [|eauto].
  apply bxor_eq_zero, nat_byte_inj in E; lia.
Qed.

Lemma build_generator_cauchy_total k r :
  k + r <= 255 -> is_Some (build_generator_cauchy k r).
Proof.
  intros Hn. unfold build_generator_cauchy.
  destruct (mapM _ (seq 0 r)) as [parity|] eqn:E; [simpl; eauto|exfalso].
  apply mapM_None_1 in E. apply list.Exists_exists in E as (row & Hrow & E).
  apply mapM_None_1 in E. apply list.Exists_exists in E as (column & Hcol & E).
  rewrite elem_of_seq in Hrow, Hcol.
  destruct (cauchy_entry_total r row column) as [e He]; [lia..|congruence].
Qed.

(** *** The RS(6,4) generator: all fifteen choices of four rows *)

Lemma kernel_of_inverse m k : is_Some (matrix_inverse_dyn m k) -> kernel_trivial k m.
Proof.
  intros [inverse Hinv] v Hv j Hj. rewrite <- (matrix_inverse_left m inverse k v Hinv j Hj).
  apply gsum_all_zero. intros i Hi. rewrite Hv by done. ring.
Qed.

Lemma rscode_kernel survivors :
  survivors `sublist_of` seq 0 6 -> length survivors = 4 ->
  kernel_trivial 4 (select_rows build_generator_rscode_4_2 survivors).
Proof.
  intros Hsub Hlen. apply kernel_of_inverse.
  assert (H : is_Some (matrix_inverse_dyn (select_rows build_generator_rscode_4_2 survivors) 4) <->
          match matrix_inverse_dyn (select_rows build_generator_rscode_4_2 survivors) 4 with
          | Some _ => True | None => False end)
    by (destruct (matrix_inverse_dyn _ _); [by split; eauto|split; [by intros [? ?]|done]]).
  apply H. clear H. cbn [seq] in Hsub.
  repeat match goal with
  | H : _ `sublist_of` _ |- _ => inversion H; clear H; subst
  end; simpl in Hlen; try discriminate Hlen; vm_compute; exact I.
Qed.

(** ** The shift register computes the matrix product *)

Definition lfsr_of (l0 l1 : byte) : list Z := [byte_to_Z l0; byte_to_Z l1; 0%Z].

Lemma lfsr_shift_of l0 l1 m :
  lfsr_shift (lfsr_of l0 l1) m =
  lfsr_of (gf_mul x08 (bxor m l1)) (bxor l0 (gf_mul x06 (bxor m l1))).
Proof.
  unfold lfsr_of. autorewrite with byte_field. done.
Qed.

Lemma encode_data_4 a b c d :
  exists l0 l1, encode_data [a; b; c; d] = [a; b; c; d; l1; l0] /\
    lfsr_of l0 l1 = foldl lfsr_shift (lfsr_of x00 x00) [a; b; c; d].
Proof.
  cbn [foldl]. rewrite !lfsr_shift_of. eexists _, _. split; [|reflexivity].
  unfold encode_data. change (replicate (NPAR + 1) 0%Z) with (lfsr_of x00 x00).
  cbn [foldl]. rewrite !lfsr_shift_of. unfold build_codeword, lfsr_of.
  cbn -[bxor gf_mul byte_to_Z Z_to_byte]. by rewrite !Z_to_byte_to_Z.
Qed.

Lemma lfsr_of_inj a b c d : lfsr_of a b = lfsr_of c d -> a = c /\ b = d.
Proof. unfold lfsr_of. intros H. simplify_eq. auto using byte_to_Z_inj. Qed.

Lemma encode_data_linear row a b c d :
  4 <= row < 6 ->
  get (encode_data [a; b; c; d]) row =
  gsum 4 (fun j => gf_mul (mget build_generator_rscode_4_2 row j) (get [a; b; c; d] j)).
Proof.
  intros Hrow.
  assert (Hc : forall j, j < 4 -> mget build_generator_rscode_4_2 row j =
                 get (encode_data (<[j := x01]> (replicate 4 x00))) row).
  { intros j Hj. unfold mget. replace row with (4 + (row - 4)) at 1 by lia.
    unfold build_generator_rscode_4_2 at 1. pose proof (length_fill_identity 4) as Hl.
    rewrite <- Hl at 1. rewrite row_of_app_r. unfold row_of.
    rewrite nth_map_seq, get_map_seq by lia. f_equal. lia. }
  rewrite !gsum_S, !Hc by lia. change (gsum 0 _) with x00. cbn [get nth replicate insert list_insert].
  destruct (encode_data_4 a b c d) as (l0 & l1 & -> & E).
  destruct (encode_data_4 x01 x00 x00 x00) as (a0 & a1 & -> & Ea).
  destruct (encode_data_4 x00 x01 x00 x00) as (b0 & b1 & -> & Eb).
  destruct (encode_data_4 x00 x00 x01 x00) as (c0 & c1 & -> & Ec).
  destruct (encode_data_4 x00 x00 x00 x01) as (d0 & d1 & -> & Ed).
  revert E Ea Eb Ec Ed. cbn [foldl]. rewrite !lfsr_shift_of.
  intros [-> ->]%lfsr_of_inj [-> ->]%lfsr_of_inj [-> ->]%lfsr_of_inj [-> ->]%lfsr_of_inj
    [-> ->]%lfsr_of_inj.
  assert (row = 4 \/ row = 5) as [-> | ->] by lia; cbn [get nth]; ring.
Qed.

(** ** What [rebuild_generator] promises *)

(** A systematic generator whose erasures are recoverable (maximum distance separable). *)
Record mds_generator (k r : nat) (G : list (list byte)) : Prop := {
  mds_shape : matrix_shape G (k + r) k;
  mds_identity : forall i j, i < k -> j < k -> mget G i j = delta i j;
  mds_kernel : forall survivors,
    survivors `sublist_of` seq 0 (k + r) -> length survivors = k ->
    kernel_trivial k (select_rows G survivors)
}.

Lemma rscode_4_2_mds : mds_generator 4 2 build_generator_rscode_4_2.
Proof.
  split.
  - split; [done|]. intros i Hi. do 6 (destruct i as [|i]; [vm_compute; done|]). lia.
  - intros i j Hi Hj. unfold build_generator_rscode_4_2, mget.
    rewrite row_of_app_l by (by rewrite length_fill_identity). by apply mget_identity.
  - intros survivors Hs Hl. by apply rscode_kernel.
Qed.

Lemma rebuild_generator_mds k r G :
  1 <= k -> k + r <= 255 -> rebuild_generator k r = Some G -> mds_generator k r G.
Proof.
  intros Hk Hn. unfold rebuild_generator.
  destruct (Nat.eqb_spec k 4), (Nat.eqb_spec r 2); simpl; intros HG;
    [simplify_eq; apply rscode_4_2_mds|..].
  all: pose proof (cauchy_rows k r G HG) as (Hs & Hid & _); split; [done| |].
  all: try (intros i j Hi Hj; unfold mget; by rewrite Hid, get_map_seq).
  all: intros survivors Hsub Hl; apply (cauchy_kernel k r); try done.
  all: try (eapply sublist_NoDup; [apply NoDup_seq|done]).
  all: apply list.Forall_forall; intros s Hin; apply (elem_of_sublist _ _ _ Hin) in Hsub;
    apply elem_of_seq in Hsub; lia.
Qed.

Lemma rebuild_generator_total k r : k + r <= 255 -> is_Some (rebuild_generator k r).
Proof.
  intros Hn. unfold rebuild_generator. case_match; [eauto|]. by apply build_generator_cauchy_total.
Qed.
