(* ===== verification/RsSimd.v ===== *)
(** * Column kernels: src/apps/wg_multi_pipeline/rs_gf256_simd.c, rs_gf256_ssse3.c,
      rs_gf256_avx2.c

    The kernels multiply a source shard by one coefficient per parity row through 16-entry
    nibble tables and add the products into the parity shards.  [parity_base], [source] and
    [nibble_tables] point into two buffers: the block ([data], at offsets [pbase] and [src]) and
    the table ([tables], at offset [toff]).  A 128-bit register is the list of its 16 bytes, a
    256-bit register the list of its 32. *)

From Stdlib Require Import Strings.Byte.
From S2P Require Import Prelude Gf256 ByteVec.

(** A byte as an array index. *)
Definition bidx (b : byte) : nat := Z.to_nat (byte_to_Z b).

Lemma bidx_lt b : bidx b < 256.
Proof. unfold bidx. pose proof (byte_to_Z_range b) as [? ?]. lia. Qed.

(** [value & 0x0f] and [value >> 4] *)
Definition low_nibble (value : byte) : nat := Z.to_nat (Z.land (byte_to_Z value) 0x0f).
Definition high_nibble (value : byte) : nat := Z.to_nat (Z.shiftr (byte_to_Z value) 4).

(** ** Scalar kernel *)

(** [table[value & 0x0f] ^ table[16 + (value >> 4)]] *)
Definition nibble_product (tables : list byte) (table : nat) (value : byte) : byte :=
  bxor (get tables (table + low_nibble value)) (get tables (table + (16 + high_nibble value))).

(** One offset of the scalar loop. *)
Definition column_scalar_at (parity_base parity_stride source : nat) (tables : list byte)
    (nibble_tables nibble_table_stride parity_rows offset : nat) (data : list byte) : list byte :=
  let value := get data (source + offset) in
  for_ parity_rows
    (fun row data =>
       let table := nibble_tables + row * nibble_table_stride in
       let p := parity_base + (row * parity_stride + offset) in
       <[p := bxor (get data p) (nibble_product tables table value)]> data)
    data.

Definition rs_gf256_encode_column_scalar (parity_base parity_stride source : nat)
    (tables : list byte) (nibble_tables nibble_table_stride parity_rows len : nat)
    (data : list byte) : list byte :=
  for_ len
    (column_scalar_at parity_base parity_stride source tables nibble_tables
       nibble_table_stride parity_rows)
    data.

(** ** Vector instructions *)

Definition mm_loadu (width : nat) (a : list byte) (off : nat) : list byte :=
  map (fun i => get a (off + i)) (seq 0 width).

Definition mm_set1_epi8 (width : nat) (c : byte) : list byte := replicate width c.

Definition byte_and (a b : byte) : byte := Z_to_byte (Z.land (byte_to_Z a) (byte_to_Z b)).

Definition mm_and : list byte -> list byte -> list byte := zip_with byte_and.
Definition mm_xor : list byte -> list byte -> list byte := zip_with bxor.

(** [_mm_srli_epi16]: logical right shift of each little-endian 16-bit lane. *)
Fixpoint mm_srli_epi16 (v : list byte) (n : Z) : list byte :=
  match v with
  | lo :: hi :: rest =>
      let x := Z.shiftr (byte_to_Z lo + 256 * byte_to_Z hi) n in
      Z_to_byte x :: Z_to_byte (Z.shiftr x 8) :: mm_srli_epi16 rest n
  | _ => []
  end.

(** [_mm_shuffle_epi8]: a lane is zero when bit 7 of its index is set, else the table entry of
    the low four bits of the index. *)
Definition mm_shuffle_epi8 (table index : list byte) : list byte :=
  map (fun i => if Z.testbit (byte_to_Z i) 7 then x00
                else get table (Z.to_nat (Z.land (byte_to_Z i) 0x0f))) index.

(** The 256-bit forms work on the two 128-bit halves. *)
Definition mm256_broadcastsi128 (v : list byte) : list byte := v ++ v.
Definition mm256_shuffle_epi8 (table index : list byte) : list byte :=
  mm_shuffle_epi8 (take 16 table) (take 16 index) ++
  mm_shuffle_epi8 (drop 16 table) (drop 16 index).

(** ** SSSE3 kernel *)

Definition column_ssse3_block (parity_base parity_stride source : nat) (tables : list byte)
    (nibble_tables nibble_table_stride parity_rows offset : nat) (data : list byte) : list byte :=
  let nibble_mask := mm_set1_epi8 16 x0f in
  let input := mm_loadu 16 data (source + offset) in
  let low_index := mm_and input nibble_mask in
  let high_index := mm_and (mm_srli_epi16 input 4) nibble_mask in
  for_ parity_rows
    (fun row data =>
       let table := nibble_tables + row * nibble_table_stride in
       let low_table := mm_loadu 16 tables table in
       let high_table := mm_loadu 16 tables (table + 16) in
       let product := mm_xor (mm_shuffle_epi8 low_table low_index)
                             (mm_shuffle_epi8 high_table high_index) in
       let parity := parity_base + (row * parity_stride + offset) in
       let current := mm_loadu 16 data parity in
       store_bytes data parity (mm_xor current product))
    data.

(** The vector loop [for (; offset + 16 <= length; offset += 16)] makes [length / 16] turns, the
    scalar loop handles the rest. *)
Definition rs_gf256_encode_column_ssse3 (parity_base parity_stride source : nat)
    (tables : list byte) (nibble_tables nibble_table_stride parity_rows len : nat)
    (data : list byte) : list byte :=
  let data := for_ (len / 16)
    (fun i => column_ssse3_block parity_base parity_stride source tables nibble_tables
                nibble_table_stride parity_rows (i * 16)) data in
  for_ (len mod 16)
    (fun i => column_scalar_at parity_base parity_stride source tables nibble_tables
                nibble_table_stride parity_rows (len / 16 * 16 + i)) data.

(** ** AVX2 kernel *)

Definition column_avx2_block (parity_base parity_stride source : nat) (tables : list byte)
    (nibble_tables nibble_table_stride parity_rows offset : nat) (data : list byte) : list byte :=
  let nibble_mask := mm_set1_epi8 32 x0f in
  let input := mm_loadu 32 data (source + offset) in
  let low_index := mm_and input nibble_mask in
  let high_index := mm_and (mm_srli_epi16 input 4) nibble_mask in
  for_ parity_rows
    (fun row data =>
       let table := nibble_tables + row * nibble_table_stride in
       let low128 := mm_loadu 16 tables table in
       let high128 := mm_loadu 16 tables (table + 16) in
       let low_table := mm256_broadcastsi128 low128 in
       let high_table := mm256_broadcastsi128 high128 in
       let product := mm_xor (mm256_shuffle_epi8 low_table low_index)
                             (mm256_shuffle_epi8 high_table high_index) in
       let parity := parity_base + (row * parity_stride + offset) in
       let current := mm_loadu 32 data parity in
       store_bytes data parity (mm_xor current product))
    data.

Definition rs_gf256_encode_column_avx2 (parity_base parity_stride source : nat)
    (tables : list byte) (nibble_tables nibble_table_stride parity_rows len : nat)
    (data : list byte) : list byte :=
  let data := for_ (len / 32)
    (fun i => column_avx2_block parity_base parity_stride source tables nibble_tables
                nibble_table_stride parity_rows (i * 32)) data in
  for_ (len mod 32)
    (fun i => column_scalar_at parity_base parity_stride source tables nibble_tables
                nibble_table_stride parity_rows (len / 32 * 32 + i)) data.

(** ** Dispatch *)

(** What [rs_detect_cpu] found, and whether its [pthread_once] succeeded. *)
Record Cpu := mkCpu { cpu_once : bool; cpu_avx2 : bool; cpu_ssse3 : bool }.

Definition rs_gf256_avx2_available (c : Cpu) : bool := cpu_once c && cpu_avx2 c.
Definition rs_gf256_ssse3_available (c : Cpu) : bool := cpu_once c && cpu_ssse3 c.
Definition rs_gf256_simd_available (c : Cpu) : bool :=
  rs_gf256_avx2_available c || rs_gf256_ssse3_available c.

Definition rs_gf256_encode_column (c : Cpu) (parity_base parity_stride source : nat)
    (tables : list byte) (nibble_tables nibble_table_stride parity_rows len : nat)
    (data : list byte) : list byte :=
  if rs_gf256_avx2_available c then
    rs_gf256_encode_column_avx2 parity_base parity_stride source tables nibble_tables
      nibble_table_stride parity_rows len data
  else if rs_gf256_ssse3_available c then
    rs_gf256_encode_column_ssse3 parity_base parity_stride source tables nibble_tables
      nibble_table_stride parity_rows len data
  else
    rs_gf256_encode_column_scalar parity_base parity_stride source tables nibble_tables
      nibble_table_stride parity_rows len data.

(** ** Lanes *)

Lemma length_mm_loadu w a off : length (mm_loadu w a off) = w.
Proof. unfold mm_loadu. by rewrite length_map, length_seq. Qed.

Lemma get_mm_loadu w a off i : i < w -> get (mm_loadu w a off) i = get a (off + i).
Proof. intros Hi. unfold mm_loadu. by rewrite get_map_seq. Qed.

Lemma byte_to_Z_land_0f b :
  byte_to_Z (byte_and b x0f) = (byte_to_Z b mod 16)%Z.
Proof.
  unfold byte_and. rewrite byte_to_Z_to_byte; change (byte_to_Z x0f) with (Z.ones 4);
    rewrite Z.land_ones by lia; [done|].
  unfold is_byte, in_range. change (2 ^ 4)%Z with 16%Z.
  pose proof (Z.mod_pos_bound (byte_to_Z b) 16). lia.
Qed.

(** An index masked to a nibble has bit 7 clear and selects entry [b mod 16]. *)
Lemma get_shuffle_masked table idx i :
  i < length idx ->
  get (mm_shuffle_epi8 table (mm_and idx (replicate (length idx) x0f))) i =
  get table (low_nibble (get idx i)).
Proof.
  intros Hi. unfold mm_shuffle_epi8, mm_and.
  rewrite get_map by (rewrite length_zip_with, length_replicate; lia).
  rewrite get_zip_with, get_replicate by (rewrite ?length_replicate; done).
  rewrite byte_to_Z_land_0f. set (z := byte_to_Z (get idx i)).
  assert (Hz : (0 <= z mod 16 < 16)%Z) by (apply Z.mod_pos_bound; lia).
  replace (Z.testbit (z mod 16) 7) with false.
  - unfold low_nibble. fold z. do 2 f_equal. change 0x0f%Z with (Z.ones 4).
    rewrite !Z.land_ones by lia. change (2 ^ 4)%Z with 16%Z. by rewrite Z.mod_mod by lia.
  - symmetry. destruct (decide (z mod 16 = 0)%Z) as [->|]; [apply Z.bits_0|].
    apply Z.bits_above_log2; [lia|]. apply Z.log2_lt_pow2; lia.
Qed.

Lemma byte_to_Z_of_Z z : byte_to_Z (Z_to_byte z) = (z mod 256)%Z.
Proof.
  assert (H : Z_to_byte z = Z_to_byte (z mod 256)).
  { unfold Z_to_byte, u8, uwrap. change (2 ^ 8)%Z with 256%Z. by rewrite Z.mod_mod by lia. }
  rewrite H. apply byte_to_Z_to_byte. apply Z.mod_pos_bound. lia.
Qed.

Lemma low_nibble_mod b : low_nibble b = Z.to_nat (byte_to_Z b mod 16).
Proof. unfold low_nibble. change 0x0f%Z with (Z.ones 4). by rewrite Z.land_ones by lia. Qed.

Lemma high_nibble_div b : high_nibble b = Z.to_nat (byte_to_Z b / 16).
Proof. unfold high_nibble. by rewrite Z.shiftr_div_pow2 by lia. Qed.

(** The bits a 16-bit shift brings in from the neighbouring byte are masked away. *)
Lemma srli_lanes m v :
  length v = 2 * m ->
  length (mm_srli_epi16 v 4) = length v /\
  forall i, i < length v -> low_nibble (get (mm_srli_epi16 v 4) i) = high_nibble (get v i).
Proof.
  revert v. induction m as [|m IH]; intros [|lo [|hi v]] Hl; simpl in Hl; try lia.
  { split; [done|]. simpl. lia. }
  destruct (IH v) as [Hlen Hget]; [lia|]. split; [simpl; by rewrite Hlen|].
  pose proof (byte_to_Z_range lo) as [? Hlo]. pose proof (byte_to_Z_range hi) as [? Hhi].
  change (2 ^ 8)%Z with 256%Z in Hlo, Hhi.
  intros [|[|i]] Hi; simpl in Hi; cbn [mm_srli_epi16 get nth];
    rewrite ?low_nibble_mod, ?high_nibble_div, ?byte_to_Z_of_Z, ?Z.shiftr_div_pow2 by lia;
    change (2 ^ 4)%Z with 16%Z; change (2 ^ 8)%Z with 256%Z.
  - f_equal. Z.div_mod_to_equations. lia.
  - f_equal. Z.div_mod_to_equations. lia.
  - rewrite <- low_nibble_mod, <- high_nibble_div. apply Hget. lia.
Qed.

Lemma get_shuffle_high m table v i :
  length v = 2 * m -> i < length v ->
  get (mm_shuffle_epi8 table (mm_and (mm_srli_epi16 v 4) (replicate (length v) x0f))) i =
  get table (high_nibble (get v i)).
Proof.
  intros Hl Hi. destruct (srli_lanes m v Hl) as [Hlen Hn].
  rewrite <- Hlen, get_shuffle_masked by lia. by rewrite Hn.
Qed.

Lemma low_nibble_lt b : low_nibble b < 16.
Proof.
  rewrite low_nibble_mod. pose proof (Z.mod_pos_bound (byte_to_Z b) 16). lia.
Qed.

Lemma high_nibble_lt b : high_nibble b < 16.
Proof.
  rewrite high_nibble_div. pose proof (byte_to_Z_range b) as [? ?].
  change (2 ^ 8)%Z with 256%Z in *. Z.div_mod_to_equations. lia.
Qed.

Lemma length_shuffle t i : length (mm_shuffle_epi8 t i) = length i.
Proof. unfold mm_shuffle_epi8. by rewrite length_map. Qed.

(** The products of one register: lane [i] holds the nibble product of input byte [i]. *)
Lemma ssse3_product data src tables t i :
  i < 16 ->
  let input := mm_loadu 16 data src in
  let mask := mm_set1_epi8 16 x0f in
  get (mm_xor (mm_shuffle_epi8 (mm_loadu 16 tables t) (mm_and input mask))
              (mm_shuffle_epi8 (mm_loadu 16 tables (t + 16)) (mm_and (mm_srli_epi16 input 4) mask)))
      i = nibble_product tables t (get data (src + i)).
Proof.
  intros Hi input mask.
  assert (Hlen : length input = 16) by apply length_mm_loadu.
  assert (Hmask : mask = replicate (length input) x0f) by (by rewrite Hlen).
  destruct (srli_lanes 8 input Hlen) as [Hs _].
  unfold mm_xor. rewrite get_zip_with; cycle 1.
  1,2: rewrite length_shuffle; unfold mm_and; rewrite length_zip_with;
       unfold mask, mm_set1_epi8; rewrite ?Hs, Hlen, length_replicate; lia.
  rewrite Hmask, get_shuffle_masked, (get_shuffle_high 8) by lia.
  pose proof (low_nibble_lt (get input i)). pose proof (high_nibble_lt (get input i)).
  rewrite !get_mm_loadu by done. unfold input. rewrite !get_mm_loadu by done.
  unfold nibble_product. f_equal. f_equal. lia.
Qed.

Lemma mm_loadu_split data src :
  mm_loadu 32 data src = mm_loadu 16 data src ++ mm_loadu 16 data (src + 16).
Proof.
  apply get_ext; [by rewrite length_app, !length_mm_loadu|].
  rewrite length_mm_loadu. intros i Hi. rewrite get_mm_loadu by done. destruct (decide (i < 16)).
  - rewrite get_app_l by (by rewrite length_mm_loadu). by rewrite get_mm_loadu.
  - rewrite get_app_r by (rewrite length_mm_loadu; lia). rewrite length_mm_loadu.
    rewrite get_mm_loadu by lia. f_equal. lia.
Qed.

Lemma srli_app m v w :
  length v = 2 * m -> mm_srli_epi16 (v ++ w) 4 = mm_srli_epi16 v 4 ++ mm_srli_epi16 w 4.
Proof.
  revert v. induction m as [|m IH]; intros [|lo [|hi v]] Hl; simpl in Hl; try lia; [done|].
  cbn [mm_srli_epi16 app]. rewrite IH by lia. done.
Qed.

Lemma avx2_product data src tables t i :
  i < 32 ->
  let input := mm_loadu 32 data src in
  let mask := mm_set1_epi8 32 x0f in
  get (mm_xor (mm256_shuffle_epi8 (mm256_broadcastsi128 (mm_loadu 16 tables t)) (mm_and input mask))
              (mm256_shuffle_epi8 (mm256_broadcastsi128 (mm_loadu 16 tables (t + 16)))
                 (mm_and (mm_srli_epi16 input 4) mask)))
      i = nibble_product tables t (get data (src + i)).
Proof.
  intros Hi input mask.
  set (m16 := mm_set1_epi8 16 x0f).
  assert (Hmask : mask = m16 ++ m16) by done.
  set (a := mm_loadu 16 data src). set (b := mm_loadu 16 data (src + 16)).
  assert (Ha : length a = 16) by apply length_mm_loadu.
  assert (Hb : length b = 16) by apply length_mm_loadu.
  assert (Hin : input = a ++ b) by apply mm_loadu_split.
  assert (Hand : forall u v, length u = 16 -> mm_and (u ++ v) (m16 ++ m16) =
                   mm_and u m16 ++ mm_and v m16)
    by (intros u v Hu; unfold mm_and; by rewrite zip_with_app).
  assert (Hlm : forall u, length u = 16 -> length (mm_and u m16) = 16)
    by (intros u Hu; unfold mm_and; rewrite length_zip_with, Hu; done).
  destruct (srli_lanes 8 a Ha) as [Hsa _]. destruct (srli_lanes 8 b Hb) as [Hsb _].
  assert (Hsh : forall T u v, length T = 16 -> length u = 16 ->
            mm256_shuffle_epi8 (mm256_broadcastsi128 T) (u ++ v) =
            mm_shuffle_epi8 T u ++ mm_shuffle_epi8 T v).
  { intros T u v HT Hu. unfold mm256_shuffle_epi8, mm256_broadcastsi128.
    rewrite <- HT at 1 3. rewrite take_app_length, drop_app_length.
    rewrite <- Hu at 1 2. by rewrite take_app_length, drop_app_length. }
  rewrite Hmask, Hin, (srli_app 8) by done. rewrite !Hand by congruence.
  rewrite !Hsh by (rewrite ?length_mm_loadu, ?Hlm; congruence).
  unfold mm_xor. rewrite zip_with_app by (rewrite !length_shuffle, !Hlm; congruence).
  set (X := zip_with bxor _ _). set (Y := zip_with bxor _ _).
  assert (HX : length X = 16) by (unfold X; rewrite length_zip_with, !length_shuffle, !Hlm; (lia || congruence)).
  destruct (decide (i < 16)).
  - rewrite get_app_l by lia. by apply ssse3_product.
  - rewrite get_app_r, HX by lia. unfold Y. fold (mm_xor).
    etrans; [apply (ssse3_product data (src + 16) tables t (i - 16)); lia|].
    do 2 f_equal. lia.
Qed.

(** ** What a kernel does to the block *)

Section Column.
Context (k r sb c : nat) (tables : list byte) (toff tstride : nat).
Context (Hc : c < k).

Let n := k + r.

(** The product the kernel adds to byte [b] of parity row [row]. *)
Let T (row : nat) (value : byte) : byte := nibble_product tables (toff + row * tstride) value.

(** From [d] to [d'] the products of the parity bytes selected by [P] have been added. *)
Definition added (P : nat -> nat -> bool) (d d' : list byte) : Prop :=
  length d' = n * sb /\
  forall s b, s < n -> b < sb ->
    cell sb d' s b = if (k <=? s) && P (s - k) b
                     then bxor (cell sb d s b) (T (s - k) (cell sb d c b))
                     else cell sb d s b.

Lemma added_ext P Q d d' :
  (forall row b, row < r -> b < sb -> P row b = Q row b) -> added P d d' -> added Q d d'.
Proof.
  intros H [Hl Hd]. split; [done|]. intros s b Hs Hb. rewrite Hd by done.
  destruct (Nat.leb_spec k s); simpl; [|done]. rewrite H by (unfold n in *; lia). done.
Qed.

Lemma added_nothing d : length d = n * sb -> added (fun _ _ => false) d d.
Proof. intros Hl. split; [done|]. intros s b Hs Hb. by rewrite andb_false_r. Qed.

(** One turn of a row loop adds the products of the bytes [o .. o + w - 1]. *)
Definition row_step (o w : nat) (d0 : list byte) (step : nat -> list byte -> list byte) : Prop :=
  forall row d, row < r -> length d = n * sb ->
    length (step row d) = n * sb /\
    forall s b, s < n -> b < sb ->
      cell sb (step row d) s b =
      if (s =? k + row) && ((o <=? b) && (b <? o + w))
      then bxor (cell sb d s b) (T row (cell sb d0 c b)) else cell sb d s b.

Lemma rows_advance o w step d d0 :
  added (fun _ b => b <? o) d d0 -> row_step o w d0 step ->
  added (fun _ b => b <? o + w) d (for_ r step d0).
Proof.
  intros H0 Hstep. pose proof H0 as [Hl0 Hd0].
  eapply added_ext with (P := fun row b => (b <? o) || ((b <? o + w) && (row <? r))).
  { intros row b Hrow Hb. bool_cases; done || lia. }
  apply (for_ind (fun j => added (fun row b => (b <? o) || ((b <? o + w) && (row <? j))) d)).
  { eapply added_ext, H0. intros row b Hrow Hb. bool_cases; done || lia. }
  intros j d' Hj [Hl' Hd']. destruct (Hstep j d' Hj Hl') as [Hl2 Hd2].
  split; [done|]. intros s b Hs Hb. rewrite Hd2, Hd' by done.
  assert (Hsrc : cell sb d0 c b = cell sb d c b).
  { rewrite Hd0 by (unfold n; lia). by rewrite (proj2 (Nat.leb_gt k c)) by lia. }
  rewrite Hsrc. bool_cases; simpl; try done; try lia; subst.
  all: replace (k + j - k) with j in * by lia; done || lia.
Qed.

(** Storing a register at an offset of a parity row. *)
Lemma store_row_step o w d0 step :
  o + w <= sb ->
  (forall row d, exists bs, step row d = store_bytes d (k * sb + (row * sb + o)) bs /\
     length bs = w /\
     forall i, i < w -> get bs i =
       bxor (get d (k * sb + (row * sb + o) + i)) (T row (get d0 (c * sb + o + i)))) ->
  row_step o w d0 step.
Proof.
  intros Ho Hstep row d Hrow Hl. destruct (Hstep row d) as (bs & -> & Hbs & Hg).
  assert (Hidx : k * sb + (row * sb + o) = (k + row) * sb + o) by lia.
  assert (Hroom : (k + row) * sb + o + w <= n * sb) by (unfold n; nia).
  rewrite Hidx in *. destruct (store_bytes_spec d ((k + row) * sb + o) bs) as [Hl' Hc'];
    [lia|]. split; [congruence|]. intros s b Hs Hb. unfold cell at 1. rewrite Hc', Hbs.
  destruct (decide (s = k + row)) as [->|Hne].
  - rewrite Nat.eqb_refl. cbn [andb]. bool_cases; simpl; case_decide; try lia; try done.
    rewrite Hg by lia. unfold cell. f_equal; [f_equal; lia|]. do 2 f_equal. lia.
  - rewrite (proj2 (Nat.eqb_neq s _)) by done. simpl. rewrite decide_False by nia. done.
Qed.

Lemma scalar_at_step o d d0 :
  o < sb -> added (fun _ b => b <? o) d d0 ->
  added (fun _ b => b <? o + 1) d
    (column_scalar_at (k * sb) sb (c * sb) tables toff tstride r o d0).
Proof.
  intros Ho H0. apply rows_advance; [done|]. intros row d' Hrow Hl.
  assert (Hidx : k * sb + (row * sb + o) = (k + row) * sb + o) by lia.
  rewrite Hidx. split; [by rewrite length_insert|]. intros s b Hs Hb.
  rewrite (cell_insert sb n) by (unfold n; done || lia).
  bool_cases; simpl; case_decide; try (exfalso; lia); try done.
  destruct_and!. by subst.
Qed.

Lemma scalar_column d :
  length d = n * sb ->
  added (fun _ _ => true) d
    (rs_gf256_encode_column_scalar (k * sb) sb (c * sb) tables toff tstride r sb d).
Proof.
  intros Hl. eapply added_ext with (P := fun _ b => b <? sb).
  { intros row b _ Hb. by apply Nat.ltb_lt. }
  apply (for_ind (fun o => added (fun _ b => b <? o) d)); [by apply added_nothing|].
  intros o d' Ho Hd. apply scalar_at_step in Hd; [|done]. by rewrite Nat.add_1_r in Hd.
Qed.

Lemma ssse3_block_step o d d0 :
  o + 16 <= sb -> added (fun _ b => b <? o) d d0 ->
  added (fun _ b => b <? o + 16) d
    (column_ssse3_block (k * sb) sb (c * sb) tables toff tstride r o d0).
Proof.
  intros Ho H0. apply rows_advance; [done|]. apply store_row_step; [done|].
  intros row d'. eexists. split; [reflexivity|].
  split; [unfold mm_xor; rewrite !length_zip_with, !length_mm_loadu, !length_shuffle|].
  { unfold mm_and. rewrite !length_zip_with, length_mm_loadu.
    rewrite (proj1 (srli_lanes 8 _ (length_mm_loadu 16 d0 (c * sb + o)))), length_mm_loadu. done. }
  intros i Hi. unfold mm_xor at 1. rewrite get_zip_with, get_mm_loadu.
  - by rewrite ssse3_product.
  - done.
  - by rewrite length_mm_loadu.
  - unfold mm_xor. rewrite length_zip_with, !length_shuffle. unfold mm_and.
    rewrite !length_zip_with, length_mm_loadu.
    rewrite (proj1 (srli_lanes 8 _ (length_mm_loadu 16 d0 (c * sb + o)))), length_mm_loadu. done.
Qed.

Lemma length_avx2_product data src t :
  length (mm_xor
    (mm256_shuffle_epi8 (mm256_broadcastsi128 (mm_loadu 16 tables t))
       (mm_and (mm_loadu 32 data src) (mm_set1_epi8 32 x0f)))
    (mm256_shuffle_epi8 (mm256_broadcastsi128 (mm_loadu 16 tables (t + 16)))
       (mm_and (mm_srli_epi16 (mm_loadu 32 data src) 4) (mm_set1_epi8 32 x0f)))) = 32.
Proof.
  pose proof (proj1 (srli_lanes 16 _ (length_mm_loadu 32 data src))) as Hs.
  unfold mm_xor, mm256_shuffle_epi8.
  rewrite length_zip_with, !length_app, !length_shuffle, !length_take, !length_drop.
  unfold mm_and. rewrite !length_zip_with, Hs, length_mm_loadu. done.
Qed.

Lemma avx2_block_step o d d0 :
  o + 32 <= sb -> added (fun _ b => b <? o) d d0 ->
  added (fun _ b => b <? o + 32) d
    (column_avx2_block (k * sb) sb (c * sb) tables toff tstride r o d0).
Proof.
  intros Ho H0. apply rows_advance; [done|]. apply store_row_step; [done|].
  intros row d'. eexists. split; [reflexivity|].
  split.
  { unfold mm_xor at 1. rewrite length_zip_with, length_avx2_product, length_mm_loadu. done. }
  intros i Hi. unfold mm_xor at 1. rewrite get_zip_with, get_mm_loadu.
  - by rewrite avx2_product.
  - done.
  - by rewrite length_mm_loadu.
  - by rewrite length_avx2_product.
Qed.

(** A vector loop in steps of [w] followed by a scalar tail covers the whole shard. *)
Lemma blocks_then_tail w d block :
  0 < w -> length d = n * sb ->
  (forall o d0, o + w <= sb -> added (fun _ b => b <? o) d d0 ->
     added (fun _ b => b <? o + w) d (block o d0)) ->
  added (fun _ _ => true) d
    (for_ (sb mod w)
       (fun i => column_scalar_at (k * sb) sb (c * sb) tables toff tstride r (sb / w * w + i))
       (for_ (sb / w) (fun i => block (i * w)) d)).
Proof.
  intros Hw Hl Hb. pose proof (Nat.div_mod_eq sb w) as Hdm.
  eapply added_ext with (P := fun _ b => b <? sb / w * w + sb mod w).
  { intros row b _ Hlt. apply Nat.ltb_lt. lia. }
  apply (for_ind (fun i => added (fun _ b => b <? sb / w * w + i) d)).
  - rewrite Nat.add_0_r. apply (for_ind (fun i => added (fun _ b => b <? i * w) d));
      [by apply added_nothing|].
    intros i d' Hi Hd. apply Hb in Hd; [|nia]. by replace (S i * w) with (i * w + w) by lia.
  - intros i d' Hi Hd. apply scalar_at_step in Hd; [|lia].
    by replace (sb / w * w + S i) with (sb / w * w + i + 1) by lia.
Qed.

(** Every kernel adds every product. *)
Lemma encode_column_added cpu d :
  length d = n * sb ->
  added (fun _ _ => true) d
    (rs_gf256_encode_column cpu (k * sb) sb (c * sb) tables toff tstride r sb d).
Proof.
  intros Hl. unfold rs_gf256_encode_column.
  destruct (rs_gf256_avx2_available cpu); [|destruct (rs_gf256_ssse3_available cpu)].
  - apply (blocks_then_tail 32); [lia|done|]. intros o d0. apply avx2_block_step.
  - apply (blocks_then_tail 16); [lia|done|]. intros o d0. apply ssse3_block_step.
  - by apply scalar_column.
Qed.

End Column.
