(* ===== verification/RsEncode.v ===== *)
(** * Encode plan and encoders of src/apps/wg_multi_pipeline/rs_codec.c

    The plan holds the generator and the product tables expanded from it; five encoders read it.
    All of them are shown to compute the parity equations of the generator ([encode_ref]). *)

From Stdlib Require Import Strings.Byte.
From S2P Require Import Prelude Gf256 ByteVec RsMatrix RsGenerator RsSimd.

Definition PKG_SIZE : nat := 1400.
Definition CODEC_MAX_ENCODE_BLOCK : Z := 1400 * 255.
Definition RS_ENCODE_MUL_TABLE_MAX_BYTES : Z := 8 * 1024 * 1024.
Definition RS_FAST_K : nat := 16.
Definition RS_FAST_R : nat := 2.
Definition RS_FAST_N : nat := RS_FAST_K + RS_FAST_R.

(** ** Product tables *)

Definition build_gf_mul_table : list (list byte) :=
  map (fun left =>
         map (fun right => Z_to_byte (gmult (Z.of_nat left) (Z.of_nat right))) (seq 0 256))
      (seq 0 256).

Record RsEncodePlan := mkRsEncodePlan {
  plan_k : nat;
  plan_r : nat;
  plan_n : nat;
  plan_shard_bytes : nat;
  plan_coeff : list (list byte);
  mul_table : option (list byte);
  nibble_table : option (list byte);
  has_mul_table : bool;
  has_nibble_table : bool;
  initialized : bool }.

(** [rs_encode_plan_clear]: [free] of both tables, then [memset] to zero. *)
Definition rs_encode_plan_clear : RsEncodePlan :=
  mkRsEncodePlan 0 0 0 0 [] None None false false false.

(** [n = k + r] wraps: the arguments are [size_t]. *)
Definition params_valid (k r shard_bytes : Z) : bool :=
  if (k <? 1)%Z || (r <? 1)%Z || (shard_bytes <? 1)%Z || (shard_bytes >? 65535)%Z then false
  else
    let n := (k +u64 r)%cint in
    if (n >? Z.of_nat RS_ABS_MAX_SHARDS)%Z then false
    else if (u64 (n * shard_bytes) >? CODEC_MAX_ENCODE_BLOCK)%Z then false
    else true.

(** [rs_encode_mul_table_bytes]: [None] is [-1]. *)
Definition SIZE_MAX : Z := 2 ^ 64 - 1.
Definition rs_encode_mul_table_bytes (k r : Z) : option Z :=
  if (k =? 0)%Z || (r =? 0)%Z then None
  else if (k >? SIZE_MAX / r)%Z then None
  else if (u64 (k * r) >? SIZE_MAX / 256)%Z then None
  else Some (u64 (u64 (k * r) * 256)).

(** [table[((row * k) + column) * 256 + x] = rs_gf_mul_table[coeff][x]] *)
Definition fill_mul_table (gf_table coeff : list (list byte)) (k r : nat) : list byte :=
  concat (map (fun row =>
    concat (map (fun column =>
      map (fun x => mget gf_table (bidx (mget coeff (k + row) column)) x) (seq 0 256))
    (seq 0 k))) (seq 0 r)).

(** [slot[x]] and [slot[16 + x]] of the 32-byte slot of a coefficient. *)
Definition fill_nibble_table (gf_table coeff : list (list byte)) (k r : nat) : list byte :=
  concat (map (fun row =>
    concat (map (fun column =>
      let c := bidx (mget coeff (k + row) column) in
      map (fun x => mget gf_table c x) (seq 0 16) ++
      map (fun x => mget gf_table c (Nat.shiftl x 4)) (seq 0 16))
    (seq 0 k))) (seq 0 r)).

(** [rs_encode_plan_build(plan, k, r)].  [gf_table] and [ready] are [rs_gf_mul_table] and
    [rs_mul_table_ready], [generator] and [shard_bytes] the globals it copies; [malloc_nibble]
    and [malloc_table] say whether the two allocations succeed.  [None] leaves a cleared plan. *)
Definition rs_encode_plan_build (gf_table generator : list (list byte)) (ready : bool)
    (shard_bytes k r : nat) (malloc_nibble malloc_table : bool) : option RsEncodePlan :=
  if negb (params_valid (Z.of_nat k) (Z.of_nat r) (Z.of_nat shard_bytes)) || negb ready then None
  else
    table_bytes ← rs_encode_mul_table_bytes (Z.of_nat k) (Z.of_nat r);
    if negb malloc_nibble then None
    else
      let nibble := fill_nibble_table gf_table generator k r in
      if (table_bytes <=? RS_ENCODE_MUL_TABLE_MAX_BYTES)%Z then
        if negb malloc_table then None
        else Some (mkRsEncodePlan k r (k + r) shard_bytes generator
                     (Some (fill_mul_table gf_table generator k r)) (Some nibble) true true true)
      else Some (mkRsEncodePlan k r (k + r) shard_bytes generator None (Some nibble)
                   false true true).

(** ** Encoders *)

Section Encoders.
Context (gf_table : list (list byte)) (cpu : Cpu).

(** The byte loop over the six shards of the hqm/rscode reference path. *)
Definition rs_encode_rscode_4_2 (data : list byte) : list byte :=
  for_ PKG_SIZE
    (fun byte data =>
       let msg := map (fun shard => get data (shard * PKG_SIZE + byte)) (seq 0 4) in
       let codeword := encode_data msg in
       for_ 2
         (fun j data => let shard := 4 + j in
            <[shard * PKG_SIZE + byte := get codeword shard]> data)
         data)
    data.

Definition rs_encode_legacy_gmul (data : list byte) (plan : RsEncodePlan) : list byte :=
  let k := plan_k plan in
  let r := plan_r plan in
  let shard_bytes := plan_shard_bytes plan in
  for_ shard_bytes
    (fun byte data =>
       let msg := map (fun column => get data (column * shard_bytes + byte)) (seq 0 k) in
       for_ r
         (fun shard data =>
            let value := gsum k (fun column =>
              gf_mul (mget (plan_coeff plan) (k + shard) column) (get msg column)) in
            <[(k + shard) * shard_bytes + byte := value]> data)
         data)
    data.

(** The 256-entry row of the product table for one coefficient. *)
Definition plan_table_at (plan : RsEncodePlan) (k row column : nat) (x : byte) : byte :=
  if has_mul_table plan
  then get (default [] (mul_table plan)) ((row * k + column) * 256 + bidx x)
  else mget gf_table (bidx (mget (plan_coeff plan) (k + row) column)) (bidx x).

Definition rs_encode_general_table (data : list byte) (plan : RsEncodePlan) : list byte :=
  let k := plan_k plan in
  let r := plan_r plan in
  let shard_bytes := plan_shard_bytes plan in
  for_ k
    (fun column data =>
       for_ r
         (fun row data =>
            for_ shard_bytes
              (fun byte data =>
                 let p := (k + row) * shard_bytes + byte in
                 <[p := bxor (get data p)
                          (plan_table_at plan k row column
                             (get data (column * shard_bytes + byte)))]> data)
              data)
         data)
    (zero_range data (k * shard_bytes) (r * shard_bytes)).

Definition rs_encode_general_simd (data : list byte) (plan : RsEncodePlan) : list byte :=
  let k := plan_k plan in
  let r := plan_r plan in
  let shard_bytes := plan_shard_bytes plan in
  for_ k
    (fun column =>
       rs_gf256_encode_column cpu (k * shard_bytes) shard_bytes (column * shard_bytes)
         (default [] (nibble_table plan)) (column * 32) (k * 32) r shard_bytes)
    (zero_range data (k * shard_bytes) (r * shard_bytes)).

Definition rs_encode_16_2_fast (data : list byte) (plan : RsEncodePlan) : list byte :=
  let parity0 := RS_FAST_K * PKG_SIZE in
  let parity1 := (RS_FAST_K + 1) * PKG_SIZE in
  let data := zero_range data parity0 PKG_SIZE in
  let data := zero_range data parity1 PKG_SIZE in
  for_ RS_FAST_K
    (fun column =>
       for_ PKG_SIZE
         (fun byte data =>
            let symbol := get data (column * PKG_SIZE + byte) in
            let data := <[parity0 + byte := bxor (get data (parity0 + byte))
                           (plan_table_at plan RS_FAST_K 0 column symbol)]> data in
            <[parity1 + byte := bxor (get data (parity1 + byte))
                           (plan_table_at plan RS_FAST_K 1 column symbol)]> data))
    data.

End Encoders.

(** ** The tables hold products *)

Lemma gf_table_products a x : x < 256 ->
  mget build_gf_mul_table (bidx a) x = gf_mul a (Z_to_byte (Z.of_nat x)).
Proof.
  intros Hx. pose proof (bidx_lt a). unfold mget, build_gf_mul_table, row_of.
  rewrite nth_map_seq, get_map_seq by done. unfold gf_mul. simpl.
  rewrite (byte_to_Z_to_byte (Z.of_nat x)) by (unfold is_byte, in_range; lia).
  unfold bidx. rewrite Z2Nat.id by apply byte_to_Z_range. done.
Qed.

Lemma of_bidx b : Z_to_byte (Z.of_nat (bidx b)) = b.
Proof. unfold bidx. rewrite Z2Nat.id by apply byte_to_Z_range. apply Z_to_byte_to_Z. Qed.

Lemma get_concat_blocks (f : nat -> list byte) m n i j :
  (forall i, i < n -> length (f i) = m) -> i < n -> j < m ->
  get (concat (map f (seq 0 n))) (i * m + j) = get (f i) j.
Proof.
  revert i. induction n as [|n IH]; intros i Hf Hi Hj; [lia|].
  rewrite seq_S, map_app, concat_app. cbn [map concat]. rewrite app_nil_r, Nat.add_0_l.
  assert (Hlen : forall n', n' <= n -> length (concat (map f (seq 0 n'))) = n' * m).
  { induction n' as [|n' IH']; intros Hn'; [done|].
    rewrite seq_S, map_app, concat_app, length_app. cbn [map concat].
    rewrite app_nil_r, IH', Hf by lia. lia. }
  destruct (decide (i = n)) as [->|].
  - rewrite get_app_r; rewrite Hlen by done; [|lia]. f_equal. lia.
  - rewrite get_app_l by (rewrite Hlen by done; nia). apply IH; auto; lia.
Qed.

Lemma length_concat_blocks (f : nat -> list byte) m n :
  (forall i, i < n -> length (f i) = m) -> length (concat (map f (seq 0 n))) = n * m.
Proof.
  intros Hf. induction n as [|n IH]; [done|].
  rewrite seq_S, map_app, concat_app, length_app. cbn [map concat].
  rewrite app_nil_r, IH, Hf by auto. lia.
Qed.

(** Two levels of slots: row-major over the parity coefficients. *)
Lemma get_slots (f : nat -> nat -> list byte) m k r row column j :
  (forall row column, length (f row column) = m) -> row < r -> column < k -> j < m ->
  get (concat (map (fun row => concat (map (f row) (seq 0 k))) (seq 0 r)))
      ((row * k + column) * m + j) = get (f row column) j.
Proof.
  intros Hf Hr Hc Hj.
  replace ((row * k + column) * m + j) with (row * (k * m) + (column * m + j)) by lia.
  rewrite (get_concat_blocks (fun row => concat (map (f row) (seq 0 k))) (k * m)).
  - by apply get_concat_blocks.
  - intros i Hi. by apply length_concat_blocks.
  - done.
  - nia.
Qed.

Section Tables.
Context (coeff : list (list byte)) (k r : nat).

Lemma mul_table_products row column x :
  row < r -> column < k ->
  get (fill_mul_table build_gf_mul_table coeff k r) ((row * k + column) * 256 + bidx x) =
  gf_mul (mget coeff (k + row) column) x.
Proof.
  intros Hr Hc. unfold fill_mul_table. rewrite (get_slots _ 256); try done.
  - pose proof (bidx_lt x). rewrite get_map_seq by done. simpl.
    rewrite gf_table_products by done. by rewrite of_bidx.
  - apply bidx_lt.
Qed.

(** Low and high nibble products add up to the product. *)
Lemma nibble_table_products row column x :
  row < r -> column < k ->
  nibble_product (fill_nibble_table build_gf_mul_table coeff k r)
    (column * 32 + row * (k * 32)) x = gf_mul (mget coeff (k + row) column) x.
Proof.
  intros Hr Hc. unfold nibble_product, fill_nibble_table.
  replace (column * 32 + row * (k * 32)) with ((row * k + column) * 32) by lia.
  pose proof (low_nibble_lt x) as Hlo. pose proof (high_nibble_lt x) as Hhi.
  rewrite !(get_slots _ 32) by
    (intros; rewrite ?length_app, ?length_map, ?length_seq; done || lia).
  rewrite get_app_l, get_app_r, !length_map, !length_seq, !get_map_seq
    by (rewrite ?length_map, ?length_seq; lia).
  replace (0 + (16 + high_nibble x - 16)) with (high_nibble x) by lia. simpl (0 + _).
  assert (Hs : Nat.shiftl (high_nibble x) 4 = high_nibble x * 16)
    by (rewrite Nat.shiftl_mul_pow2; done).
  rewrite !gf_table_products by lia.
  assert (Hsplit : bxor (Z_to_byte (Z.of_nat (low_nibble x)))
                     (Z_to_byte (Z.of_nat (Nat.shiftl (high_nibble x) 4))) = x).
  { apply byte_to_Z_inj. rewrite byte_to_Z_bxor, Hs.
    rewrite !byte_to_Z_to_byte by (unfold is_byte, in_range; lia).
    rewrite low_nibble_mod, high_nibble_div. pose proof (byte_to_Z_range x) as [H0 H1].
    pose proof (Z.mod_pos_bound (byte_to_Z x) 16 ltac:(lia)).
    assert (0 <= byte_to_Z x / 16)%Z by (apply Z.div_pos; lia).
    rewrite Nat2Z.inj_mul, !Z2Nat.id by lia.
    rewrite (Z.div_mod (byte_to_Z x) 16) at 3 by lia.
    rewrite <- Z.add_nocarry_lxor; [lia|].
    apply Z.bits_inj'. intros m Hm. rewrite Z.land_spec, Z.bits_0.
    change (Z.of_nat 16) with (2 ^ 4)%Z. change 16%Z with (2 ^ 4)%Z.
    destruct (Z.ltb_spec m 4).
    - rewrite Z.mul_pow2_bits_low by lia. apply andb_false_r.
    - rewrite Z.mod_pow2_bits_high by lia. done. }
  rewrite <- Hsplit at 3. ring.
Qed.

End Tables.

(** ** Every encoder computes the reference code *)

(** What [rs_encode_plan_build] establishes. *)
Record plan_ok (plan : RsEncodePlan) : Prop := {
  ok_n : plan_n plan = plan_k plan + plan_r plan;
  ok_mul : has_mul_table plan = true ->
    mul_table plan = Some (fill_mul_table build_gf_mul_table (plan_coeff plan)
                             (plan_k plan) (plan_r plan));
  ok_nibble : nibble_table plan = Some (fill_nibble_table build_gf_mul_table (plan_coeff plan)
                                          (plan_k plan) (plan_r plan))
}.

Section Equivalence.
Context (plan : RsEncodePlan) (Hplan : plan_ok plan).

Let k := plan_k plan.
Let r := plan_r plan.
Let sb := plan_shard_bytes plan.
Let coeff := plan_coeff plan.

Lemma plan_table_product row column x :
  row < r -> column < k ->
  plan_table_at build_gf_mul_table plan k row column x = gf_mul (mget coeff (k + row) column) x.
Proof.
  intros Hr Hc. unfold plan_table_at. destruct (has_mul_table plan) eqn:E.
  - rewrite (ok_mul plan Hplan E). by apply mul_table_products.
  - pose proof (bidx_lt x). rewrite gf_table_products by done. by rewrite of_bidx.
Qed.

(** The parity shards hold the contribution of the first [c] data shards. *)
Definition columns_added (data : list byte) (c : nat) (d : list byte) : Prop :=
  length d = (k + r) * sb /\
  forall s b, s < k + r -> b < sb ->
    cell sb d s b = if s <? k then cell sb data s b
                    else gsum c (fun i => gf_mul (mget coeff s i) (cell sb data i b)).

(** One column: every parity shard gets its product with data shard [c]. *)
Definition adds_column (c : nat) (f : list byte -> list byte) : Prop :=
  forall d, length d = (k + r) * sb ->
    length (f d) = (k + r) * sb /\
    forall s b, s < k + r -> b < sb ->
      cell sb (f d) s b = if s <? k then cell sb d s b
                          else bxor (cell sb d s b) (gf_mul (mget coeff s c) (cell sb d c b)).

Lemma columns_added_start data :
  length data = (k + r) * sb -> columns_added data 0 (zero_range data (k * sb) (r * sb)).
Proof.
  intros Hl. destruct (zero_shards sb (k + r) k data Hl) as [Hl' Hc]; [lia|].
  replace (k + r - k) with r in * by lia. split; [done|]. intros s b Hs Hb. by rewrite Hc.
Qed.

Lemma columns_added_step data c f d :
  c < k -> adds_column c f -> columns_added data c d -> columns_added data (S c) (f d).
Proof.
  intros Hc Hf [Hl Hd]. destruct (Hf d Hl) as [Hl' Hd']. split; [done|].
  intros s b Hs Hb. rewrite Hd', !Hd by (done || lia). rewrite (proj2 (Nat.ltb_lt c k)) by done.
  destruct (s <? k); [done|]. by rewrite gsum_S.
Qed.

Lemma columns_added_all data d : columns_added data k d -> d = encode_ref sb k r coeff data.
Proof.
  intros [Hl Hd]. apply encode_ref_unique; [done|]. intros s b Hs Hb. by rewrite Hd.
Qed.

(** An encoder that clears the parity and adds the columns one by one. *)
Lemma column_encoder data (f : nat -> list byte -> list byte) :
  length data = (k + r) * sb -> (forall c, c < k -> adds_column c (f c)) ->
  for_ k f (zero_range data (k * sb) (r * sb)) = encode_ref sb k r coeff data.
Proof.
  intros Hl Hf. apply columns_added_all. apply (for_ind (columns_added data)).
  - by apply columns_added_start.
  - intros c d Hc. apply columns_added_step; auto.
Qed.

Lemma simd_adds_column cpu c :
  c < k -> adds_column c
    (rs_gf256_encode_column cpu (k * sb) sb (c * sb) (default [] (nibble_table plan))
       (c * 32) (k * 32) r sb).
Proof.
  intros Hc d Hl. rewrite (ok_nibble plan Hplan). simpl default. fold k r coeff.
  destruct (encode_column_added k r sb c
              (fill_nibble_table build_gf_mul_table coeff k r) (c * 32) (k * 32) Hc cpu d Hl)
    as [Hl' Hd]. split; [done|]. intros s b Hs Hb. rewrite Hd by done. rewrite andb_true_r.
  destruct (Nat.leb_spec k s), (Nat.ltb_spec s k); try lia; [|done].
  rewrite nibble_table_products by lia. by replace (k + (s - k)) with s by lia.
Qed.

(** A row of the byte loop of the table encoder. *)
Lemma general_row_step c row d :
  c < k -> row < r -> length d = (k + r) * sb ->
  let d' := for_ sb
    (fun byte data =>
       let p := (k + row) * sb + byte in
       <[p := bxor (get data p)
                (plan_table_at build_gf_mul_table plan k row c (get data (c * sb + byte)))]> data) d in
  length d' = (k + r) * sb /\
  forall s b, s < k + r -> b < sb ->
    cell sb d' s b =
    if s =? k + row then bxor (cell sb d s b) (gf_mul (mget coeff s c) (cell sb d c b))
    else cell sb d s b.
Proof.
  intros Hc Hrow Hl d'.
  set (P := fun o (d' : list byte) => length d' = (k + r) * sb /\
    forall s b, s < k + r -> b < sb ->
      cell sb d' s b = if (s =? k + row) && (b <? o)
                       then bxor (cell sb d s b) (gf_mul (mget coeff s c) (cell sb d c b))
                       else cell sb d s b).
  assert (HP : P sb d').
  { apply (for_ind P).
    - split; [done|]. intros s b Hs Hb. by rewrite andb_false_r.
    - intros o e Ho [He Hce]. split; [by rewrite length_insert|]. intros s b Hs Hb.
      cbv zeta. fold (cell sb e (k + row) o) (cell sb e c o).
      rewrite (cell_insert sb (k + r)), plan_table_product, !Hce by (done || lia).
      rewrite (proj2 (Nat.eqb_neq c (k + row))) by lia. cbn [andb].
      rewrite Nat.eqb_refl, Nat.ltb_irrefl. cbn [andb].
      bool_cases; simpl; case_decide; destruct_and?; subst; try done; try lia. }
  destruct HP as [Hl' Hd']. split; [done|]. intros s b Hs Hb. rewrite Hd' by done.
  rewrite (proj2 (Nat.ltb_lt b sb)) by done. by rewrite andb_true_r.
Qed.

Lemma general_adds_column c :
  c < k -> adds_column c
    (for_ r (fun row data => for_ sb
       (fun byte data =>
          let p := (k + row) * sb + byte in
          <[p := bxor (get data p)
                   (plan_table_at build_gf_mul_table plan k row c (get data (c * sb + byte)))]> data)
       data)).
Proof.
  intros Hc d Hl.
  set (P := fun j (d' : list byte) => length d' = (k + r) * sb /\
    forall s b, s < k + r -> b < sb ->
      cell sb d' s b = if (s <? k) || (k + j <=? s) then cell sb d s b
                       else bxor (cell sb d s b) (gf_mul (mget coeff s c) (cell sb d c b))).
  match goal with |- context [length ?d' = _] => assert (HP : P r d') end.
  { apply (for_ind P).
    - split; [done|]. intros s b Hs Hb. bool_cases; done || lia.
    - intros j e Hj [He Hce]. destruct (general_row_step c j e Hc Hj He) as [He' Hce'].
      split; [done|]. intros s b Hs Hb. rewrite Hce', !Hce by (done || lia).
      rewrite (proj2 (Nat.ltb_lt c k)) by done. cbn [orb].
      bool_cases; simpl; try done; lia. }
  destruct HP as [Hl' Hd']. split; [done|]. intros s b Hs Hb. rewrite Hd' by done.
  rewrite (proj2 (Nat.leb_gt (k + r) s)) by lia. by rewrite orb_false_r.
Qed.

Lemma general_table_ref data :
  length data = (k + r) * sb ->
  rs_encode_general_table build_gf_mul_table data plan = encode_ref sb k r coeff data.
Proof. intros Hl. apply column_encoder; [done|]. apply general_adds_column. Qed.

Lemma general_simd_ref cpu data :
  length data = (k + r) * sb ->
  rs_encode_general_simd cpu data plan = encode_ref sb k r coeff data.
Proof. intros Hl. apply column_encoder; [done|]. apply simd_adds_column. Qed.

(** The byte-major reference encoder. *)
Lemma legacy_ref data :
  length data = (k + r) * sb ->
  rs_encode_legacy_gmul data plan = encode_ref sb k r coeff data.
Proof.
  intros Hl.
  set (P := fun o j (d : list byte) => length d = (k + r) * sb /\
    forall s b, s < k + r -> b < sb ->
      cell sb d s b = if (b <? o) || ((b =? o) && (s <? k + j))
                      then code_byte sb k coeff data s b else cell sb data s b).
  assert (Hdata : forall s b, s < k -> code_byte sb k coeff data s b = cell sb data s b)
    by (intros s b Hs; unfold code_byte; by rewrite (proj2 (Nat.ltb_lt s k))).
  unfold rs_encode_legacy_gmul. fold k r sb coeff.
  match goal with |- ?d = _ => assert (HP : P sb 0 d) end.
  { apply (for_ind (fun o => P o 0)).
    - split; [done|]. intros s b Hs Hb. rewrite Nat.add_0_r. bool_cases; simpl; try done;
        try lia; by rewrite Hdata.
    - intros o d Ho Hd. set (msg := map _ (seq 0 k)).
      assert (Hmsg : forall i, i < k -> get msg i = cell sb data i o).
      { intros i Hi. unfold msg. rewrite get_map_seq by done. destruct Hd as [_ Hd].
        rewrite Nat.add_0_l. fold (cell sb d i o). rewrite Hd by lia.
        rewrite Nat.add_0_r, Nat.eqb_refl, (proj2 (Nat.ltb_lt i k)), orb_true_r by done.
        by apply Hdata. }
      assert (HPr : P o r (for_ r (fun shard data =>
        <[(k + shard) * sb + o :=
            gsum k (fun column => gf_mul (mget coeff (k + shard) column) (get msg column))]> data) d)).
      { apply (for_ind (P o)); [done|]. intros j e Hj [He Hce].
        split; [by rewrite length_insert|]. intros s b Hs Hb.
        rewrite (cell_insert sb (k + r)), Hce by (done || lia).
        case_decide as E.
        - destruct E as [<- <-]. rewrite Nat.eqb_refl, (proj2 (Nat.ltb_lt (k + j) (k + S j))), orb_true_r by lia.
          unfold code_byte. rewrite (proj2 (Nat.ltb_ge (k + j) k)) by lia.
          apply gsum_ext. intros i Hi. by rewrite Hmsg.
        - bool_cases; simpl; try done; lia. }
      destruct HPr as [He Hce]. split; [done|]. intros s b Hs Hb. rewrite Hce by done.
      bool_cases; simpl; try done; try lia; by rewrite Hdata by lia. }
  destruct HP as [Hl' Hd]. apply encode_ref_unique; [done|]. intros s b Hs Hb.
  rewrite Hd by done. by rewrite (proj2 (Nat.ltb_lt b sb)).
Qed.

(** The RS(18,16) fast path: one pass over each data shard feeds both parity shards. *)
Lemma fast_adds_column c :
  r = 2 -> c < k -> adds_column c
    (for_ sb (fun byte data =>
       let symbol := get data (c * sb + byte) in
       let data := <[k * sb + byte := bxor (get data (k * sb + byte))
                      (plan_table_at build_gf_mul_table plan k 0 c symbol)]> data in
       <[(k + 1) * sb + byte := bxor (get data ((k + 1) * sb + byte))
                      (plan_table_at build_gf_mul_table plan k 1 c symbol)]> data)).
Proof.
  intros Hr Hc d Hl.
  set (P := fun o (d' : list byte) => length d' = (k + r) * sb /\
    forall s b, s < k + r -> b < sb ->
      cell sb d' s b = if (s <? k) || (o <=? b) then cell sb d s b
                       else bxor (cell sb d s b) (gf_mul (mget coeff s c) (cell sb d c b))).
  match goal with |- context [length ?d' = _] => assert (HP : P sb d') end.
  { apply (for_ind P).
    - split; [done|]. intros s b Hs Hb. by rewrite orb_true_r.
    - intros o e Ho [He Hce]. cbv zeta.
      fold (cell sb e c o) (cell sb e k o). set (e1 := <[k * sb + o := _]> e).
      fold (cell sb e1 (k + 1) o).
      assert (He1 : length e1 = (k + r) * sb) by (unfold e1; by rewrite length_insert).
      assert (Hce1 : forall s b, s < k + r -> b < sb -> cell sb e1 s b =
                if decide (k = s /\ o = b) then bxor (cell sb e k o)
                  (plan_table_at build_gf_mul_table plan k 0 c (cell sb e c o)) else cell sb e s b).
      { intros s b Hs Hb. unfold e1. apply (cell_insert sb (k + r)); done || lia. }
      split; [by rewrite length_insert|]. intros s b Hs Hb.
      rewrite (cell_insert sb (k + r)), !Hce1 by (done || lia).
      rewrite (decide_False (P := k = k + 1 /\ _)) by lia.
      rewrite !plan_table_product, !Hce, Nat.add_0_r by (done || lia).
      rewrite (proj2 (Nat.ltb_lt c k)), (proj2 (Nat.leb_le o o)), !orb_true_r by lia. cbn [orb].
      bool_cases; simpl; repeat case_decide; destruct_and?; subst; try done; lia. }
  destruct HP as [Hl' Hd']. split; [done|]. intros s b Hs Hb. rewrite Hd' by done.
  rewrite (proj2 (Nat.leb_gt sb b)) by lia. by rewrite orb_false_r.
Qed.

Lemma zero_two_shards data :
  r = 2 -> length data = (k + r) * sb ->
  columns_added data 0 (zero_range (zero_range data (k * sb) sb) ((k + 1) * sb) sb).
Proof.
  intros Hr Hl.
  destruct (for_insert_spec data (k * sb) sb (fun _ => x00)) as [Hl1 Hc1]; [nia|].
  destruct (for_insert_spec (zero_range data (k * sb) sb) ((k + 1) * sb) sb (fun _ => x00))
    as [Hl2 Hc2]; [unfold zero_range; rewrite Hl1; nia|].
  split; [unfold zero_range in *; congruence|]. intros s b Hs Hb. unfold cell at 1.
  unfold zero_range at 1. rewrite Hc2. unfold zero_range at 1. rewrite Hc1.
  destruct (Nat.ltb_spec s k).
  - rewrite !decide_False by nia. done.
  - assert (s = k \/ s = k + 1) as [-> | ->] by lia.
    + rewrite decide_False, decide_True by nia. done.
    + rewrite decide_True by nia. done.
Qed.

Lemma fast_16_2_ref data :
  k = RS_FAST_K -> r = RS_FAST_R -> sb = PKG_SIZE -> length data = (k + r) * sb ->
  rs_encode_16_2_fast build_gf_mul_table data plan = encode_ref sb k r coeff data.
Proof.
  intros Hk Hr Hsb Hl. unfold rs_encode_16_2_fast. rewrite <- Hk, <- Hsb.
  apply columns_added_all. apply (for_ind (columns_added data)); [by apply zero_two_shards|].
  intros c d Hc. apply columns_added_step; [done|]. by apply fast_adds_column.
Qed.

End Equivalence.

(** The hqm/rscode path, for the generator extracted from it. *)
Lemma map_cells sb data b :
  map (fun shard => get data (shard * sb + b)) (seq 0 4) =
  [cell sb data 0 b; cell sb data 1 b; cell sb data 2 b; cell sb data 3 b].
Proof. done. Qed.

Lemma rscode_4_2_ref data :
  length data = 6 * PKG_SIZE ->
  rs_encode_rscode_4_2 data = encode_ref PKG_SIZE 4 2 build_generator_rscode_4_2 data.
Proof.
  unfold rs_encode_rscode_4_2. generalize PKG_SIZE. intros sb Hl.
  set (P := fun o (d : list byte) => length d = 6 * sb /\
    forall s b, s < 6 -> b < sb ->
      cell sb d s b = if b <? o then code_byte sb 4 build_generator_rscode_4_2 data s b
                      else cell sb data s b).
  match goal with |- ?d = _ => assert (HP : P sb d) end.
  { apply (for_ind P); [done|]. intros o d Ho [Hd Hcd]. cbv zeta.
    rewrite map_cells, !Hcd, Nat.ltb_irrefl by lia.
    unfold for_. cbn [seq foldl].
    rewrite !encode_data_linear by lia.
    split; [by rewrite !length_insert|]. intros s b Hs Hb.
    rewrite !(cell_insert sb 6), Hcd by (rewrite ?length_insert; done || lia).
    assert (Hcode : forall s', 4 <= s' -> code_byte sb 4 build_generator_rscode_4_2 data s' o =
      gsum 4 (fun j => gf_mul (mget build_generator_rscode_4_2 s' j)
        (get [cell sb data 0 o; cell sb data 1 o; cell sb data 2 o; cell sb data 3 o] j))).
    { intros s' Hs'. unfold code_byte. rewrite (proj2 (Nat.ltb_ge s' 4)) by done.
      apply gsum_ext. intros i Hi. do 4 (destruct i as [|i]; [done|]). lia. }
    repeat case_decide; destruct_and?; subst; try lia;
      rewrite ?(proj2 (Nat.ltb_lt _ _)) by lia; rewrite ?Hcode by lia; try done.
    destruct (decide (b = o)) as [->|].
    - rewrite Nat.ltb_irrefl, (proj2 (Nat.ltb_lt o (S o))) by lia.
      unfold code_byte. by rewrite (proj2 (Nat.ltb_lt s 4)) by lia.
    - bool_cases; done || lia. }
  destruct HP as [Hl' Hd]. apply encode_ref_unique; [done|]. intros s b Hs Hb.
  rewrite Hd by done. by rewrite (proj2 (Nat.ltb_lt b sb)).
Qed.
