(* ===== verification/Codec.v ===== *)
(** * Codecs: src/apps/wg_multi_pipeline/codec.h, codec.c, block_codec.c, copy_codec.c,
      xor_fec_codec.c, rs_fec_codec.c

    The bitset of present shards, the virtual table every codec fills in, the NULL-tolerant
    dispatchers, and the codecs without state of their own.  A buffer pointer is
    [option (list byte)], [None] standing for [NULL]; a table entry is [None] when the function
    pointer is [NULL].  [St] is the state a codec's functions share. *)

From Stdlib Require Import Strings.Byte.
From S2P Require Import Prelude Gf256 ByteVec RsEncode.

Definition PACKAGES_PER_DECODE_BLOCK : nat := 4.
Definition XOR_FEC_PARITY_SHARDS : nat := 1.
Definition RS_FEC_DATA_SHARDS : nat := 4.
Definition RS_FEC_PARITY_SHARDS : nat := 2.
Definition RS_FEC_TOTAL_SHARDS : nat := RS_FEC_DATA_SHARDS + RS_FEC_PARITY_SHARDS.
Definition DECODE_BLOCK : nat := PKG_SIZE * PACKAGES_PER_DECODE_BLOCK.
Definition XOR_FEC_ENCODE_BLOCK : nat := DECODE_BLOCK + PKG_SIZE * XOR_FEC_PARITY_SHARDS.
Definition RS_FEC_ENCODE_BLOCK : nat := RS_FEC_TOTAL_SHARDS * PKG_SIZE.
Definition XOR_FEC_SHARD_COUNT : nat := PACKAGES_PER_DECODE_BLOCK + XOR_FEC_PARITY_SHARDS.

Inductive CodecKind :=
| CODEC_KIND_NONE | CODEC_KIND_BLOCK | CODEC_KIND_COPY | CODEC_KIND_XOR_FEC
| CODEC_KIND_RS_FEC | CODEC_KIND_RS | CODEC_KIND_WIREHAIR.

Inductive CodecRecoverStatus :=
| CODEC_RECOVER_OK | CODEC_RECOVER_UNAVAILABLE | CODEC_RECOVER_ERR.

#[export] Instance CodecRecoverStatus_eq_dec : EqDecision CodecRecoverStatus.
Proof. solve_decision. Defined.

(** ** Bitset of present shards *)

Definition codec_present_bytes (shard_count : nat) : nat := (shard_count + 7) / 8.

Definition codec_present_get (bits : list byte) (index : nat) : bool :=
  negb (Z.land (Z.shiftr (byte_to_Z (get bits (index / 8))) (Z.of_nat (index mod 8))) 1 =? 0)%Z.

Definition codec_present_set (bits : list byte) (index : nat) : list byte :=
  <[index / 8 := Z_to_byte (Z.lor (byte_to_Z (get bits (index / 8)))
                             (Z.shiftl 1 (Z.of_nat (index mod 8))))]> bits.

(** [memset(bits, c, nbytes)] *)
Definition present_fill (bits : list byte) (nbytes : nat) (c : byte) : list byte :=
  for_ nbytes (fun i bits => <[i := c]> bits) bits.

Definition codec_present_clear_all (bits : list byte) (shard_count : nat) : list byte :=
  if 0 <? shard_count then present_fill bits (codec_present_bytes shard_count) x00 else bits.

Definition codec_present_set_all (bits : list byte) (shard_count : nat) : list byte :=
  if shard_count =? 0 then bits
  else
    let nbytes := codec_present_bytes shard_count in
    let bits := present_fill bits nbytes xff in
    let rem := shard_count mod 8 in
    if rem =? 0 then bits
    else <[nbytes - 1 := Z_to_byte (Z.shiftl 1 (Z.of_nat rem) - 1)]> bits.

Definition codec_present_from_u64 (bits : list byte) (shard_count : nat) (mask : Z) : list byte :=
  for_ (Nat.min shard_count 64)
    (fun i bits => if (Z.land mask (Z.shiftl 1 (Z.of_nat i)) =? 0)%Z then bits
                   else codec_present_set bits i)
    (codec_present_clear_all bits shard_count).

(** ** The virtual table *)

Record CodecVTable (St : Type) := mkCodecVTable {
  vt_encode : option (St -> option (list byte) -> nat -> option (list byte) * St);
  vt_decode : option (St -> option (list byte) -> nat -> option (list byte) * St);
  vt_input_block_size : option (St -> nat * St);
  vt_output_block_size : option (St -> nat * St);
  vt_data_shards : option (St -> nat * St);
  vt_parity_shards : option (St -> nat * St);
  vt_is_systematic : option (St -> Z * St);
  vt_allows_best_effort : option (St -> Z * St);
  vt_recover : option (St -> option (list byte) -> option (list byte) -> nat ->
                       CodecRecoverStatus * option (list byte) * St) }.
Arguments mkCodecVTable {St}.
Arguments vt_encode {St}.
Arguments vt_decode {St}.
Arguments vt_input_block_size {St}.
Arguments vt_output_block_size {St}.
Arguments vt_data_shards {St}.
Arguments vt_parity_shards {St}.
Arguments vt_is_systematic {St}.
Arguments vt_allows_best_effort {St}.
Arguments vt_recover {St}.

Section Dispatch.
Context {St : Type}.

(** A [const Codec *]: [None] is [NULL] or a codec without table. *)
Abbreviation Codec := (option (CodecVTable St)).

Definition Codec_encode (codec : Codec) (st : St) (data : option (list byte)) (len : nat) :
    option (list byte) * St :=
  match codec with
  | Some vt => match vt_encode vt with Some f => f st data len | None => (data, st) end
  | None => (data, st)
  end.

Definition Codec_decode (codec : Codec) (st : St) (data : option (list byte)) (len : nat) :
    option (list byte) * St :=
  match codec with
  | Some vt => match vt_decode vt with Some f => f st data len | None => (data, st) end
  | None => (data, st)
  end.

Definition query (codec : Codec) (field : CodecVTable St -> option (St -> nat * St)) (st : St) :
    nat * St :=
  match codec with
  | Some vt => match field vt with Some f => f st | None => (0, st) end
  | None => (0, st)
  end.

Definition Codec_input_block_size (codec : Codec) : St -> nat * St :=
  query codec vt_input_block_size.
Definition Codec_output_block_size (codec : Codec) : St -> nat * St :=
  query codec vt_output_block_size.
Definition Codec_data_shards (codec : Codec) : St -> nat * St := query codec vt_data_shards.
Definition Codec_parity_shards (codec : Codec) : St -> nat * St := query codec vt_parity_shards.

Definition Codec_is_systematic (codec : Codec) (st : St) : Z * St :=
  match codec with
  | Some vt => match vt_is_systematic vt with Some f => f st | None => (0%Z, st) end
  | None => (0%Z, st)
  end.

Definition Codec_allows_best_effort (codec : Codec) (st : St) : Z * St :=
  match codec with
  | None => (0%Z, st)
  | Some vt =>
      match vt_allows_best_effort vt with
      | Some f => f st
      | None => Codec_is_systematic codec st
      end
  end.

Definition Codec_recover (codec : Codec) (st : St) (shards present_bits : option (list byte))
    (shard_count : nat) : CodecRecoverStatus * option (list byte) * St :=
  match codec, present_bits with
  | Some vt, Some _ =>
      match vt_recover vt with
      | Some f =>
          if shard_count =? 0 then (CODEC_RECOVER_UNAVAILABLE, shards, st)
          else f st shards present_bits shard_count
      | None => (CODEC_RECOVER_UNAVAILABLE, shards, st)
      end
  | _, _ => (CODEC_RECOVER_UNAVAILABLE, shards, st)
  end.

(** ** none *)

Definition none_recover (st : St) (shards present_bits : option (list byte)) (shard_count : nat) :
    CodecRecoverStatus * option (list byte) * St :=
  match present_bits with
  | Some bits =>
      if negb (shard_count =? 1) then (CODEC_RECOVER_UNAVAILABLE, shards, st)
      else ((if codec_present_get bits 0 then CODEC_RECOVER_OK else CODEC_RECOVER_UNAVAILABLE),
            shards, st)
  | None => (CODEC_RECOVER_UNAVAILABLE, shards, st)
  end.

Definition none_codec_vtable : CodecVTable St :=
  mkCodecVTable (Some (fun st data _ => (data, st))) (Some (fun st data _ => (data, st)))
    (Some (pair PKG_SIZE)) (Some (pair PKG_SIZE)) (Some (pair 1)) (Some (pair 0))
    (Some (pair 1%Z)) None (Some none_recover).

(** ** block: adds one to every byte *)

Definition block_shift (delta : Z) (data : option (list byte)) (len : nat) : option (list byte) :=
  match data with
  | None => None
  | Some d =>
      if negb (len =? DECODE_BLOCK) then Some d
      else Some (for_ len (fun i d => <[i := Z_to_byte (byte_to_Z (get d i) + delta)]> d) d)
  end.

Definition block_encode (st : St) (data : option (list byte)) (len : nat) :
    option (list byte) * St := (block_shift 1 data len, st).
Definition block_decode (st : St) (data : option (list byte)) (len : nat) :
    option (list byte) * St := (block_shift (-1) data len, st).

Definition block_codec_vtable : CodecVTable St :=
  mkCodecVTable (Some block_encode) (Some block_decode)
    (Some (pair DECODE_BLOCK)) (Some (pair DECODE_BLOCK))
    (Some (pair PACKAGES_PER_DECODE_BLOCK)) (Some (pair 0)) (Some (pair 0%Z)) (Some (pair 1%Z))
    None.

(** ** copy *)

Definition copy_codec_vtable : CodecVTable St :=
  mkCodecVTable (Some (fun st data _ => (data, st))) (Some (fun st data _ => (data, st)))
    (Some (pair DECODE_BLOCK)) (Some (pair DECODE_BLOCK))
    (Some (pair PACKAGES_PER_DECODE_BLOCK)) (Some (pair 0)) (Some (pair 1%Z)) None None.

(** ** xor_fec: one parity shard *)

(** [parity[byte] ^= input[byte]] for a whole shard: shard [from] into shard [to]. *)
Definition xor_shard (from to : nat) (data : list byte) : list byte :=
  for_ PKG_SIZE
    (fun byte data =>
       <[to * PKG_SIZE + byte :=
           bxor (get data (to * PKG_SIZE + byte)) (get data (from * PKG_SIZE + byte))]> data)
    data.

(** The code does not look whether [data] is NULL; its callers pass a block. *)
Definition xor_fec_encode (st : St) (data : option (list byte)) (len : nat) :
    option (list byte) * St :=
  match data with
  | None => (data, st)
  | Some d =>
      if negb (len =? XOR_FEC_ENCODE_BLOCK) then (data, st)
      else
        let d := zero_range d (PACKAGES_PER_DECODE_BLOCK * PKG_SIZE) PKG_SIZE in
        (Some (for_ PACKAGES_PER_DECODE_BLOCK
                 (fun shard => xor_shard shard PACKAGES_PER_DECODE_BLOCK) d), st)
  end.

Definition xor_fec_decode (st : St) (data : option (list byte)) (len : nat) :
    option (list byte) * St := (data, st).

(** First loop of [XorFecCodec_recover_one]: the missing shard, [XOR_FEC_SHARD_COUNT] when there
    is none, [None] when two are missing. *)
Definition find_missing (present : nat -> bool) : option nat :=
  foldl (fun missing shard =>
           match missing with
           | None => None
           | Some m =>
               if present shard then Some m
               else if negb (m =? XOR_FEC_SHARD_COUNT) then None
               else Some shard
           end)
        (Some XOR_FEC_SHARD_COUNT) (seq 0 XOR_FEC_SHARD_COUNT).

(** [XorFecCodec_recover_one] on shards that lie in one buffer; returns -1, 0 or 1. *)
Definition XorFecCodec_recover_one (shards : list byte) (present : nat -> bool) : Z * list byte :=
  match find_missing present with
  | None => ((-1)%Z, shards)
  | Some missing =>
      if missing =? XOR_FEC_SHARD_COUNT then (0%Z, shards)
      else
        (1%Z,
         for_ XOR_FEC_SHARD_COUNT
           (fun shard shards => if shard =? missing then shards else xor_shard shard missing shards)
           (zero_range shards (missing * PKG_SIZE) PKG_SIZE))
  end.

Definition xor_fec_recover (st : St) (shards present_bits : option (list byte))
    (shard_count : nat) : CodecRecoverStatus * option (list byte) * St :=
  match shards, present_bits with
  | Some buf, Some bits =>
      if negb (shard_count =? XOR_FEC_SHARD_COUNT) then (CODEC_RECOVER_ERR, shards, st)
      else
        let '(recovered, buf') := XorFecCodec_recover_one buf (codec_present_get bits) in
        ((if (recovered <? 0)%Z then CODEC_RECOVER_UNAVAILABLE else CODEC_RECOVER_OK),
         Some buf', st)
  | _, _ => (CODEC_RECOVER_ERR, shards, st)
  end.

Definition xor_fec_codec_vtable : CodecVTable St :=
  mkCodecVTable (Some xor_fec_encode) (Some xor_fec_decode)
    (Some (pair DECODE_BLOCK)) (Some (pair XOR_FEC_ENCODE_BLOCK))
    (Some (pair PACKAGES_PER_DECODE_BLOCK)) (Some (pair XOR_FEC_PARITY_SHARDS))
    (Some (pair 1%Z)) None (Some xor_fec_recover).

End Dispatch.
