(* ===== verification/CodecSpec.v ===== *)
(** * What the stateless codecs promise

    Laws of the present bitset, the round trip of the block codec and the recovery of the XOR
    code. *)

From Stdlib Require Import Strings.Byte.
From S2P Require Import Prelude Gf256 ByteVec RsSimd RsEncode Codec.

#[local] Opaque PKG_SIZE gsum.

(** ** Bitset *)

Lemma present_get_testbit bits i :
  codec_present_get bits i =
  Z.testbit (byte_to_Z (get bits (i / 8))) (Z.of_nat (i mod 8)).
Proof.
  unfold codec_present_get. set (x := byte_to_Z _). set (m := Z.of_nat _).
  change 1%Z with (Z.ones 1). rewrite Z.land_ones by lia. change (2 ^ 1)%Z with 2%Z.
  rewrite Z.testbit_odd, Zmod_odd. by destruct (Z.odd _).
Qed.

Lemma present_set_length bits i : length (codec_present_set bits i) = length bits.
Proof. apply length_insert. Qed.

Lemma is_byte_bits z : (0 <= z)%Z -> (forall m, (8 <= m)%Z -> Z.testbit z m = false) -> is_byte z.
Proof.
  intros Hz Hb. split; [done|]. destruct (decide (z = 0)%Z) as [->|]; [lia|].
  destruct (decide (z < 2 ^ 8)%Z) as [|Hge]; [done|exfalso].
  assert (H8 : (8 <= Z.log2 z)%Z) by (apply Z.log2_le_pow2; lia).
  pose proof (Z.bit_log2 z ltac:(lia)) as Hlog. rewrite Hb in Hlog; done.
Qed.

Lemma byte_testbit_high b m : (8 <= m)%Z -> Z.testbit (byte_to_Z b) m = false.
Proof.
  intros Hm. pose proof (byte_to_Z_range b) as [H0 H1].
  destruct (decide (byte_to_Z b = 0)%Z) as [->|]; [apply Z.bits_0|].
  apply Z.bits_above_log2; [lia|]. apply Z.log2_lt_pow2; [lia|].
  eapply Z.lt_le_trans; [exact H1|]. apply Z.pow_le_mono_r; lia.
Qed.

Lemma present_get_zero n s : codec_present_get (replicate n x00) s = false.
Proof.
  rewrite present_get_testbit. unfold get. rewrite nth_lookup.
  destruct (replicate n x00 !! _) as [b|] eqn:E; [|apply Z.bits_0].
  apply lookup_replicate in E as [-> _]. apply Z.bits_0.
Qed.

(** Setting a bit sets that bit and no other. *)
Lemma present_get_set bits i j :
  i / 8 < length bits ->
  codec_present_get (codec_present_set bits i) j = (i =? j) || codec_present_get bits j.
Proof.
  intros Hi. rewrite !present_get_testbit. unfold codec_present_set.
  rewrite get_insert by done.
  pose proof (Nat.mod_upper_bound i 8 ltac:(lia)). pose proof (Nat.mod_upper_bound j 8 ltac:(lia)).
  pose proof (Nat.div_mod_eq i 8). pose proof (Nat.div_mod_eq j 8).
  case_decide as E.
  - rewrite byte_to_Z_to_byte.
    + rewrite Z.lor_spec, Z.shiftl_1_l, Z.pow2_bits_eqb by lia. rewrite E, orb_comm. f_equal.
      bool_cases; try done; lia.
    + apply is_byte_bits.
      * apply Z.lor_nonneg. split; [apply byte_to_Z_range|]. apply Z.shiftl_nonneg. lia.
      * intros m Hm. rewrite Z.lor_spec, Z.shiftl_1_l, Z.pow2_bits_eqb by lia.
        rewrite byte_testbit_high by done. simpl. apply Z.eqb_neq. lia.
  - rewrite (proj2 (Nat.eqb_neq i j)) by (intros ->; done). done.
Qed.

Lemma get_present_fill bits nbytes c i :
  nbytes <= length bits -> i < nbytes -> get (present_fill bits nbytes c) i = c.
Proof.
  intros Hl Hi. destruct (for_insert_spec bits 0 nbytes (fun _ => c)) as [_ Hg]; [lia|].
  unfold present_fill. simpl in Hg. rewrite Hg. by rewrite decide_True by lia.
Qed.

Lemma present_clear_all bits n i :
  codec_present_bytes n <= length bits -> i < n ->
  codec_present_get (codec_present_clear_all bits n) i = false.
Proof.
  intros Hl Hi. rewrite present_get_testbit. unfold codec_present_clear_all.
  rewrite (proj2 (Nat.ltb_lt 0 n)) by lia.
  rewrite get_present_fill; [apply Z.bits_0|done|].
  unfold codec_present_bytes. apply Nat.Div0.div_lt_upper_bound.
  pose proof (Nat.div_mod_eq (n + 7) 8). pose proof (Nat.mod_upper_bound (n + 7) 8). lia.
Qed.

Lemma length_present_fill bits nbytes c : length (present_fill bits nbytes c) = length bits.
Proof.
  unfold present_fill. apply (for_ind (fun _ b => length b = length bits)); [done|].
  intros i b _ Hb. by rewrite length_insert.
Qed.

Lemma shard_byte_lt n i : i < n -> i / 8 < codec_present_bytes n.
Proof.
  intros Hi. unfold codec_present_bytes. apply Nat.Div0.div_lt_upper_bound.
  pose proof (Nat.div_mod_eq (n + 7) 8). pose proof (Nat.mod_upper_bound (n + 7) 8). lia.
Qed.

(** Setting all marks exactly the shards below the count. *)
Lemma present_set_all bits n i :
  codec_present_bytes n <= length bits -> i < codec_present_bytes n * 8 ->
  codec_present_get (codec_present_set_all bits n) i = (i <? n).
Proof.
  intros Hl Hi. unfold codec_present_set_all.
  destruct (Nat.eqb_spec n 0) as [->|Hn]; [change (codec_present_bytes 0) with 0 in Hi; lia|].
  set (nb := codec_present_bytes n) in *.
  assert (Hib : i / 8 < nb) by (apply Nat.Div0.div_lt_upper_bound; lia).
  pose proof (Nat.div_mod_eq i 8). pose proof (Nat.mod_upper_bound i 8 ltac:(lia)).
  pose proof (Nat.div_mod_eq n 8). pose proof (Nat.mod_upper_bound n 8 ltac:(lia)).
  assert (Hnb : nb = (n + 7) / 8) by done.
  pose proof (Nat.div_mod_eq (n + 7) 8). pose proof (Nat.mod_upper_bound (n + 7) 8 ltac:(lia)).
  assert (Hff : forall m, (0 <= m < 8)%Z -> Z.testbit (byte_to_Z xff) m = true).
  { intros m Hm. change (byte_to_Z xff) with (Z.ones 8). apply Z.ones_spec_low. lia. }
  rewrite present_get_testbit. destruct (Nat.eqb_spec (n mod 8) 0) as [Hr|Hr].
  - rewrite get_present_fill by done. rewrite Hff by lia. symmetry. apply Nat.ltb_lt. lia.
  - rewrite get_insert by (rewrite length_present_fill; lia). case_decide as E.
    + rewrite Z.shiftl_1_l.
      replace (2 ^ Z.of_nat (n mod 8) - 1)%Z with (Z.ones (Z.of_nat (n mod 8)))
        by (rewrite Z.ones_equiv; lia).
      rewrite byte_to_Z_to_byte.
      * destruct (Nat.ltb_spec i n); [apply Z.ones_spec_low|apply Z.ones_spec_high]; lia.
      * unfold is_byte, in_range. rewrite Z.ones_equiv.
        pose proof (Z.pow_lt_mono_r 2 (Z.of_nat (n mod 8)) 8).
        pose proof (Z.pow_pos_nonneg 2 (Z.of_nat (n mod 8))). lia.
    + rewrite get_present_fill by done. rewrite Hff by lia. symmetry. apply Nat.ltb_lt. lia.
Qed.

Lemma present_set_all_length bits n : length (codec_present_set_all bits n) = length bits.
Proof.
  unfold codec_present_set_all. repeat case_match; rewrite ?length_insert, ?length_present_fill; done.
Qed.

(** ** block *)

Lemma block_shift_spec d delta :
  length d = DECODE_BLOCK ->
  let d' := for_ DECODE_BLOCK (fun i d => <[i := Z_to_byte (byte_to_Z (get d i) + delta)]> d) d in
  length d' = length d /\
  forall i, i < DECODE_BLOCK -> get d' i = Z_to_byte (byte_to_Z (get d i) + delta).
Proof.
  intros Hl d'. rewrite Hl.
  set (P := fun j (d' : list byte) => length d' = DECODE_BLOCK /\ forall i, i < DECODE_BLOCK ->
    get d' i = if i <? j then Z_to_byte (byte_to_Z (get d i) + delta) else get d i).
  assert (HP : P DECODE_BLOCK d').
  { apply (for_ind P); [done|]. intros j e Hj [He Hg]. split; [by rewrite length_insert|].
    intros i Hi. rewrite get_insert by lia. rewrite !Hg, Nat.ltb_irrefl by done.
    case_decide; bool_cases; subst; done || lia. }
  destruct HP as [Hl' Hg]. split; [done|]. intros i Hi. rewrite Hg by done.
  by rewrite (proj2 (Nat.ltb_lt i _)).
Qed.

Lemma byte_shift_back b : Z_to_byte (byte_to_Z (Z_to_byte (byte_to_Z b + 1)) + -1) = b.
Proof.
  apply byte_to_Z_inj. rewrite !byte_to_Z_of_Z. pose proof (byte_to_Z_range b) as [? Hb].
  change (2 ^ 8)%Z with 256%Z in Hb. Z.div_mod_to_equations. lia.
Qed.

Lemma block_decode_encode d :
  length d = DECODE_BLOCK ->
  block_shift (-1) (block_shift 1 (Some d) DECODE_BLOCK) DECODE_BLOCK = Some d.
Proof.
  intros Hl. unfold block_shift. rewrite Nat.eqb_refl. cbn [negb].
  destruct (block_shift_spec d 1 Hl) as [Hl1 Hg1].
  set (d1 := for_ DECODE_BLOCK _ d) in *.
  destruct (block_shift_spec d1 (-1)) as [Hl2 Hg2]; [congruence|].
  set (d2 := for_ DECODE_BLOCK _ d1) in *. f_equal. apply get_ext; [congruence|].
  intros i Hi. rewrite Hg2, Hg1 by lia. apply byte_shift_back.
Qed.

(** ** xor_fec *)

Lemma xor_shard_spec n from to d :
  length d = n * PKG_SIZE -> from < n -> to < n -> from <> to ->
  length (xor_shard from to d) = n * PKG_SIZE /\
  forall s b, s < n -> b < PKG_SIZE ->
    cell PKG_SIZE (xor_shard from to d) s b =
    if s =? to then bxor (cell PKG_SIZE d to b) (cell PKG_SIZE d from b)
    else cell PKG_SIZE d s b.
Proof.
  unfold xor_shard. generalize PKG_SIZE as sb. intros sb Hl Hf Ht Hne.
  set (P := fun o (d' : list byte) => length d' = n * sb /\
    forall s b, s < n -> b < sb ->
      cell sb d' s b = if (s =? to) && (b <? o) then bxor (cell sb d to b) (cell sb d from b)
                       else cell sb d s b).
  match goal with |- context [length ?d' = _] => assert (HP : P sb d') end.
  { apply (for_ind P).
    - split; [done|]. intros. by rewrite andb_false_r.
    - intros o e Ho [He Hce]. split; [by rewrite length_insert|]. intros s b Hs Hb.
      fold (cell sb e to o) (cell sb e from o).
      rewrite (cell_insert sb n), !Hce by done.
      rewrite (proj2 (Nat.eqb_neq from to)), Nat.eqb_refl, Nat.ltb_irrefl by done. cbn [andb].
      case_decide; bool_cases; destruct_and?; subst; simpl; try done; lia. }
  destruct HP as [Hl' Hd]. split; [done|]. intros s b Hs Hb. rewrite Hd by done.
  rewrite (proj2 (Nat.ltb_lt b sb)) by done. by rewrite andb_true_r.
Qed.

(** Accumulating shards [0 .. j - 1] but [m] into the cleared shard [m]. *)
Lemma xor_accumulate n m d :
  length d = n * PKG_SIZE -> m < n -> forall j, j <= n ->
  let d' := for_ j (fun shard d => if shard =? m then d else xor_shard shard m d)
                 (zero_range d (m * PKG_SIZE) PKG_SIZE) in
  length d' = n * PKG_SIZE /\
  forall s b, s < n -> b < PKG_SIZE ->
    cell PKG_SIZE d' s b =
    if s =? m then gsum j (fun i => if i =? m then x00 else cell PKG_SIZE d i b)
    else cell PKG_SIZE d s b.
Proof.
  intros Hl Hm j Hj d'.
  destruct (for_insert_spec d (m * PKG_SIZE) PKG_SIZE (fun _ => x00)) as [Hl0 Hg0]; [nia|].
  set (P := fun j (d' : list byte) => length d' = n * PKG_SIZE /\
    forall s b, s < n -> b < PKG_SIZE ->
      cell PKG_SIZE d' s b =
      if s =? m then gsum j (fun i => if i =? m then x00 else cell PKG_SIZE d i b)
      else cell PKG_SIZE d s b).
  change (P j d'). apply (for_ind P).
  - split; [unfold zero_range; congruence|]. intros s b Hs Hb.
    unfold cell at 1, zero_range. rewrite Hg0. destruct (Nat.eqb_spec s m) as [->|].
    + rewrite decide_True by lia. done.
    + rewrite decide_False by nia. done.
  - intros i e Hi [He Hce]. destruct (Nat.eqb_spec i m) as [->|Hne].
    + split; [done|]. intros s b Hs Hb. rewrite Hce by done. case_match; [|done].
      rewrite gsum_S, Nat.eqb_refl. ring.
    + destruct (xor_shard_spec n i m e) as [He' Hce']; [done|lia..|].
      split; [done|]. intros s b Hs Hb. rewrite Hce', !Hce by (done || lia).
      rewrite Nat.eqb_refl, (proj2 (Nat.eqb_neq i m)) by done. case_match; [|done].
      by rewrite gsum_S, (proj2 (Nat.eqb_neq i m)).
Qed.

(** In an encoded block the five shards add up to zero. *)
Definition xor_closed (d : list byte) : Prop :=
  length d = XOR_FEC_SHARD_COUNT * PKG_SIZE /\
  forall b, b < PKG_SIZE -> gsum XOR_FEC_SHARD_COUNT (fun s => cell PKG_SIZE d s b) = x00.

Lemma xor_encode_closed {St} (st : St) d :
  length d = XOR_FEC_ENCODE_BLOCK ->
  exists e, fst (xor_fec_encode st (Some d) XOR_FEC_ENCODE_BLOCK) = Some e /\ xor_closed e /\
    forall s b, s < PACKAGES_PER_DECODE_BLOCK -> b < PKG_SIZE ->
      cell PKG_SIZE e s b = cell PKG_SIZE d s b.
Proof.
  intros Hl. unfold xor_fec_encode. rewrite Nat.eqb_refl. cbn [negb fst].
  eexists. split; [reflexivity|].
  assert (Hl' : length d = 5 * PKG_SIZE)
    by (rewrite Hl; unfold XOR_FEC_ENCODE_BLOCK, DECODE_BLOCK, PACKAGES_PER_DECODE_BLOCK,
          XOR_FEC_PARITY_SHARDS; lia).
  destruct (xor_accumulate 5 4 d Hl' ltac:(lia) 4 ltac:(lia)) as [Hle Hce].
  set (e := for_ PACKAGES_PER_DECODE_BLOCK _ _).
  match type of Hle with length ?x = _ => assert (He : e = x) end.
  { apply for_ext. intros i x Hi. by rewrite (proj2 (Nat.eqb_neq i 4)) by
      (unfold PACKAGES_PER_DECODE_BLOCK in Hi; lia). }
  rewrite He. match type of He with _ = ?x => revert Hle Hce; generalize x end.
  clear e He. intros e Hle Hce. split; [split; [done|]|].
  - intros b Hb. change XOR_FEC_SHARD_COUNT with (S 4). rewrite gsum_S, (Hce 4 b) by lia.
    rewrite Nat.eqb_refl.
    rewrite (gsum_ext 4 _ (fun i => if i =? 4 then x00 else cell PKG_SIZE d i b)).
    + apply bxor_self.
    + intros i Hi. rewrite Hce by lia. by rewrite (proj2 (Nat.eqb_neq i 4)) by lia.
  - intros s b Hs Hb. unfold PACKAGES_PER_DECODE_BLOCK in Hs. rewrite Hce by lia.
    by rewrite (proj2 (Nat.eqb_neq s 4)) by lia.
Qed.

(** The missing shard is the sum of the others. *)
Lemma xor_closed_missing e m b :
  xor_closed e -> m < XOR_FEC_SHARD_COUNT -> b < PKG_SIZE ->
  gsum XOR_FEC_SHARD_COUNT (fun i => if i =? m then x00 else cell PKG_SIZE e i b) =
  cell PKG_SIZE e m b.
Proof.
  intros [_ He] Hm Hb. 
  set (S := gsum _ _).
  assert (Hone : cell PKG_SIZE e m b =
            gsum XOR_FEC_SHARD_COUNT (fun i => if i =? m then cell PKG_SIZE e m b else x00)).
  { rewrite (gsum_single _ m) by (try intros i _ Hi; by rewrite ?(proj2 (Nat.eqb_neq i m))).
    by rewrite Nat.eqb_refl. }
  assert (Hsum : bxor S (cell PKG_SIZE e m b) = x00).
  { rewrite <- (He b Hb), Hone. unfold S. rewrite <- gsum_bxor. apply gsum_ext. intros i Hi.
    destruct (Nat.eqb_spec i m) as [->|]; ring. }
  replace S with (bxor (bxor S (cell PKG_SIZE e m b)) (cell PKG_SIZE e m b)) by ring.
  rewrite Hsum. ring.
Qed.

(** Shards below [n] whose bit is clear. *)
Definition missing_count (present : nat -> bool) (n : nat) : nat :=
  length (List.filter (fun s => negb (present s)) (seq 0 n)).

Lemma find_missing_spec present :
  match find_missing present with
  | None => 2 <= missing_count present XOR_FEC_SHARD_COUNT
  | Some m =>
      m <= XOR_FEC_SHARD_COUNT /\ missing_count present XOR_FEC_SHARD_COUNT <= 1 /\
      (m < XOR_FEC_SHARD_COUNT -> present m = false) /\
      forall i, i < XOR_FEC_SHARD_COUNT -> i <> m -> present i = true
  end.
Proof.
  unfold find_missing, missing_count. change XOR_FEC_SHARD_COUNT with 5. cbn [seq foldl List.filter].
  destruct (present 0) eqn:E0, (present 1) eqn:E1, (present 2) eqn:E2, (present 3) eqn:E3,
    (present 4) eqn:E4; cbn; try lia.
  all: split; [lia|]; split; [lia|]; split; [intros; done || lia|].
  all: intros i Hi Hm; do 5 (destruct i as [|i]; [done|]); lia.
Qed.

Lemma missing_zero present m :
  (m < XOR_FEC_SHARD_COUNT -> present m = false) ->
  (forall i, i < XOR_FEC_SHARD_COUNT -> i <> m -> present i = true) ->
  missing_count present XOR_FEC_SHARD_COUNT = 0 <-> ~ m < XOR_FEC_SHARD_COUNT.
Proof.
  intros Habs Hpres. unfold missing_count. rewrite length_zero_iff_nil. split.
  - intros Hnil Hlt.
    assert (Hin : In m (List.filter (fun s => negb (present s)) (seq 0 XOR_FEC_SHARD_COUNT))).
    { apply filter_In. rewrite in_seq, Habs by done. split; [lia|done]. }
    by rewrite Hnil in Hin.
  - intros Hge. destruct (List.filter _ _) as [|x l] eqn:E; [done|].
    assert (Hin : In x (x :: l)) by (by left). rewrite <- E in Hin.
    apply filter_In in Hin as [Hx Hp]. apply in_seq in Hx. rewrite Hpres in Hp by lia. done.
Qed.

Lemma XorFecCodec_recover_one_spec buf e present :
  xor_closed e -> length buf = length e ->
  (forall s b, s < XOR_FEC_SHARD_COUNT -> b < PKG_SIZE -> present s = true ->
     cell PKG_SIZE buf s b = cell PKG_SIZE e s b) ->
  XorFecCodec_recover_one buf present =
  if missing_count present XOR_FEC_SHARD_COUNT <=? 1
  then ((if missing_count present XOR_FEC_SHARD_COUNT =? 0 then 0%Z else 1%Z), e)
  else ((-1)%Z, buf).
Proof.
  intros He Hl Hc. pose proof He as [Hle _]. unfold XorFecCodec_recover_one.
  pose proof (find_missing_spec present) as Hm.
  destruct (find_missing present) as [m|]; [|by rewrite (proj2 (Nat.leb_gt _ 1)) by lia].
  destruct Hm as (Hmle & Hcount & Habs & Hpres). rewrite (proj2 (Nat.leb_le _ 1)) by done.
  pose proof (missing_zero present m Habs Hpres) as Hz.
  destruct (Nat.eqb_spec m XOR_FEC_SHARD_COUNT) as [->|Hne].
  - rewrite (proj2 (Nat.eqb_eq _ 0)) by (apply Hz; lia). f_equal.
    apply (cell_ext PKG_SIZE XOR_FEC_SHARD_COUNT); [congruence..|].
    intros s b Hs Hb. apply Hc; [done..|]. apply Hpres; lia.
  - rewrite (proj2 (Nat.eqb_neq _ 0)) by (rewrite Hz; lia). f_equal.
    destruct (xor_accumulate XOR_FEC_SHARD_COUNT m buf ltac:(congruence) ltac:(lia)
                XOR_FEC_SHARD_COUNT ltac:(lia)) as [Hl' Hc'].
    apply (cell_ext PKG_SIZE XOR_FEC_SHARD_COUNT); [done|congruence|].
    intros s b Hs Hb. rewrite Hc' by done. destruct (Nat.eqb_spec s m) as [->|Hsm].
    + rewrite <- (xor_closed_missing e m b) by (done || lia). apply gsum_ext. intros i Hi.
      destruct (Nat.eqb_spec i m); [done|]. apply Hc; [done..|]. by apply Hpres.
    + apply Hc; [done..|]. by apply Hpres.
Qed.

(** The XOR code restores a block that lost one shard.  Encoding a block of five shards keeps
    its four data shards; whatever buffer then agrees with the encoded block on the shards marked
    present, recovery rebuilds the whole encoded block when at most one shard is missing, and
    otherwise reports that the block is unavailable and leaves the buffer alone. *)
Theorem xor_fec_recovers_one_loss {St : Type} (st : St) (d : list byte) :
  length d = XOR_FEC_ENCODE_BLOCK ->
  exists e,
    Codec_encode (Some xor_fec_codec_vtable) st (Some d) XOR_FEC_ENCODE_BLOCK = (Some e, st) /\
    length e = length d /\
    (forall s b, s < PACKAGES_PER_DECODE_BLOCK -> b < PKG_SIZE ->
       cell PKG_SIZE e s b = cell PKG_SIZE d s b) /\
    forall buf bits,
      length buf = length e ->
      (forall s b, s < XOR_FEC_SHARD_COUNT -> b < PKG_SIZE -> codec_present_get bits s = true ->
         cell PKG_SIZE buf s b = cell PKG_SIZE e s b) ->
      Codec_recover (Some xor_fec_codec_vtable) st (Some buf) (Some bits) XOR_FEC_SHARD_COUNT =
      if missing_count (codec_present_get bits) XOR_FEC_SHARD_COUNT <=? 1
      then (CODEC_RECOVER_OK, Some e, st) else (CODEC_RECOVER_UNAVAILABLE, Some buf, st).
Proof.
  intros Hl. destruct (xor_encode_closed st d Hl) as (e & He & Hclosed & Hdata).
  exists e. split_and!; [| |done|].
  - cbn [Codec_encode vt_encode xor_fec_codec_vtable]. rewrite <- He. unfold xor_fec_encode.
    by rewrite Nat.eqb_refl.
  - destruct Hclosed as [-> _]. rewrite Hl.
    unfold XOR_FEC_ENCODE_BLOCK, DECODE_BLOCK, XOR_FEC_SHARD_COUNT. lia.
  - intros buf bits Hbuf Hc.
    unfold Codec_recover. cbn [vt_recover xor_fec_codec_vtable].
    rewrite (proj2 (Nat.eqb_neq XOR_FEC_SHARD_COUNT 0)) by (unfold XOR_FEC_SHARD_COUNT; done).
    unfold xor_fec_recover. rewrite Nat.eqb_refl. cbn [negb].
    rewrite (XorFecCodec_recover_one_spec buf e) by done.
    destruct (Nat.leb_spec (missing_count (codec_present_get bits) XOR_FEC_SHARD_COUNT) 1);
      [|done]. by destruct (_ =? 0).
Qed.

Lemma xor_fec_recovers_one_loss_witness :
  length (replicate XOR_FEC_ENCODE_BLOCK x07) = XOR_FEC_ENCODE_BLOCK /\
  exists e, Codec_encode (Some xor_fec_codec_vtable) tt
              (Some (replicate XOR_FEC_ENCODE_BLOCK x07)) XOR_FEC_ENCODE_BLOCK = (Some e, tt).
Proof.
  split; [apply length_replicate|].
  destruct (xor_fec_recovers_one_loss tt (replicate XOR_FEC_ENCODE_BLOCK x07)) as (e & He & _);
    [apply length_replicate|]. exists e. exact He.
Defined.
