(* ===== verification/RsCodec.v ===== *)
(** * The Reed-Solomon codec: src/apps/wg_multi_pipeline/rs_codec.c

    The static variables of the file are the fields of [RsState]; a public function is a function
    on that state.  What the code reads from outside is an [RsEnv]: whether [pthread_once] and the
    two [malloc]s of a plan succeed, the values [monotonic_nanoseconds] returns (numbered by the
    variable that receives them) and the CPU features.  The geometry fields are [size_t] values that
    [params_valid] has bounded; the arguments of the entry points are [Z] so that the unbounded
    [size_t] values a caller may pass are there. *)

From Stdlib Require Import Strings.Byte.
From S2P Require Import Prelude Gf256 ByteVec RsMatrix RsGenerator RsSimd RsEncode Codec.

Inductive RsProfile := RS_PROFILE_4_1 | RS_PROFILE_4_2 | RS_PROFILE_4_3.

Inductive RsEncodeImpl :=
| RS_ENCODE_AUTO | RS_ENCODE_GENERAL | RS_ENCODE_SIMD | RS_ENCODE_FAST_16_2
| RS_ENCODE_LEGACY | RS_ENCODE_RSCODE.

#[export] Instance RsEncodeImpl_eq_dec : EqDecision RsEncodeImpl.
Proof. solve_decision. Defined.

Record RsGeometry := mkRsGeometry {
  geo_k : nat; geo_r : nat; geo_n : nat; geo_shard_bytes : nat }.

#[export] Instance RsGeometry_eq_dec : EqDecision RsGeometry.
Proof. solve_decision. Defined.

Record RsEncodeStats := mkRsEncodeStats {
  encode_calls : Z;
  rebuild_calls : Z;
  general_path_calls : Z;
  simd_path_calls : Z;
  fast_path_calls : Z;
  legacy_path_calls : Z;
  rscode_path_calls : Z;
  lock_wait_ns : Z;
  lock_hold_ns : Z;
  encode_body_ns : Z;
  gmul_calls : Z }.

Definition zero_stats : RsEncodeStats := mkRsEncodeStats 0 0 0 0 0 0 0 0 0 0 0.

(** The sum of two rows of counters, each a [uint64_t]: the calls of [rs_stat_add_u64] of one
    operation are collected in a second row. *)
Definition add_stats (a b : RsEncodeStats) : RsEncodeStats :=
  mkRsEncodeStats
    (u64 (encode_calls a + encode_calls b)) (u64 (rebuild_calls a + rebuild_calls b))
    (u64 (general_path_calls a + general_path_calls b))
    (u64 (simd_path_calls a + simd_path_calls b)) (u64 (fast_path_calls a + fast_path_calls b))
    (u64 (legacy_path_calls a + legacy_path_calls b))
    (u64 (rscode_path_calls a + rscode_path_calls b)) (u64 (lock_wait_ns a + lock_wait_ns b))
    (u64 (lock_hold_ns a + lock_hold_ns b)) (u64 (encode_body_ns a + encode_body_ns b))
    (u64 (gmul_calls a + gmul_calls b)).

Record RsState := mkRsState {
  once_done : bool;
  rs_generator : list (list byte);
  rs_gf_mul_table : list (list byte);
  rs_mul_table_ready : bool;
  rs_matrix_ready : bool;
  rs_matrix_init_ns : Z;
  rs_geo : RsGeometry;
  rs_encode_plan : RsEncodePlan;
  rs_encode_impl : RsEncodeImpl;
  rs_last_encode_impl : RsEncodeImpl;
  rs_encode_stats : RsEncodeStats;
  rs_simd_enabled : bool }.

(** The static initialisers. *)
Definition rs_start : RsState :=
  mkRsState false [] (replicate 256 (replicate 256 x00)) false false 0
    (mkRsGeometry 4 2 6 PKG_SIZE) rs_encode_plan_clear RS_ENCODE_AUTO RS_ENCODE_GENERAL
    zero_stats true.

Record RsEnv := mkRsEnv {
  env_once : bool;
  env_malloc_nibble : bool;
  env_malloc_table : bool;
  env_clock : nat -> Z;
  env_cpu : Cpu }.

(** ** Assignments to the static variables *)

Definition with_once (b : bool) (s : RsState) : RsState :=
  mkRsState b (rs_generator s) (rs_gf_mul_table s) (rs_mul_table_ready s) (rs_matrix_ready s)
    (rs_matrix_init_ns s) (rs_geo s) (rs_encode_plan s) (rs_encode_impl s)
    (rs_last_encode_impl s) (rs_encode_stats s) (rs_simd_enabled s).
Definition with_generator (g : list (list byte)) (s : RsState) : RsState :=
  mkRsState (once_done s) g (rs_gf_mul_table s) (rs_mul_table_ready s) (rs_matrix_ready s)
    (rs_matrix_init_ns s) (rs_geo s) (rs_encode_plan s) (rs_encode_impl s)
    (rs_last_encode_impl s) (rs_encode_stats s) (rs_simd_enabled s).
Definition with_table (t : list (list byte)) (s : RsState) : RsState :=
  mkRsState (once_done s) (rs_generator s) t true (rs_matrix_ready s)
    (rs_matrix_init_ns s) (rs_geo s) (rs_encode_plan s) (rs_encode_impl s)
    (rs_last_encode_impl s) (rs_encode_stats s) (rs_simd_enabled s).
Definition with_matrix_ready (b : bool) (s : RsState) : RsState :=
  mkRsState (once_done s) (rs_generator s) (rs_gf_mul_table s) (rs_mul_table_ready s) b
    (rs_matrix_init_ns s) (rs_geo s) (rs_encode_plan s) (rs_encode_impl s)
    (rs_last_encode_impl s) (rs_encode_stats s) (rs_simd_enabled s).
Definition with_init_ns (ns : Z) (s : RsState) : RsState :=
  mkRsState (once_done s) (rs_generator s) (rs_gf_mul_table s) (rs_mul_table_ready s)
    (rs_matrix_ready s) ns (rs_geo s) (rs_encode_plan s) (rs_encode_impl s)
    (rs_last_encode_impl s) (rs_encode_stats s) (rs_simd_enabled s).
Definition with_geo (g : RsGeometry) (s : RsState) : RsState :=
  mkRsState (once_done s) (rs_generator s) (rs_gf_mul_table s) (rs_mul_table_ready s)
    (rs_matrix_ready s) (rs_matrix_init_ns s) g (rs_encode_plan s) (rs_encode_impl s)
    (rs_last_encode_impl s) (rs_encode_stats s) (rs_simd_enabled s).
Definition with_plan (p : RsEncodePlan) (s : RsState) : RsState :=
  mkRsState (once_done s) (rs_generator s) (rs_gf_mul_table s) (rs_mul_table_ready s)
    (rs_matrix_ready s) (rs_matrix_init_ns s) (rs_geo s) p (rs_encode_impl s)
    (rs_last_encode_impl s) (rs_encode_stats s) (rs_simd_enabled s).
Definition with_impl (i : RsEncodeImpl) (s : RsState) : RsState :=
  mkRsState (once_done s) (rs_generator s) (rs_gf_mul_table s) (rs_mul_table_ready s)
    (rs_matrix_ready s) (rs_matrix_init_ns s) (rs_geo s) (rs_encode_plan s) i
    (rs_last_encode_impl s) (rs_encode_stats s) (rs_simd_enabled s).
Definition with_last_impl (i : RsEncodeImpl) (s : RsState) : RsState :=
  mkRsState (once_done s) (rs_generator s) (rs_gf_mul_table s) (rs_mul_table_ready s)
    (rs_matrix_ready s) (rs_matrix_init_ns s) (rs_geo s) (rs_encode_plan s) (rs_encode_impl s)
    i (rs_encode_stats s) (rs_simd_enabled s).
Definition with_stats (st : RsEncodeStats) (s : RsState) : RsState :=
  mkRsState (once_done s) (rs_generator s) (rs_gf_mul_table s) (rs_mul_table_ready s)
    (rs_matrix_ready s) (rs_matrix_init_ns s) (rs_geo s) (rs_encode_plan s) (rs_encode_impl s)
    (rs_last_encode_impl s) st (rs_simd_enabled s).
Definition with_simd (b : bool) (s : RsState) : RsState :=
  mkRsState (once_done s) (rs_generator s) (rs_gf_mul_table s) (rs_mul_table_ready s)
    (rs_matrix_ready s) (rs_matrix_init_ns s) (rs_geo s) (rs_encode_plan s) (rs_encode_impl s)
    (rs_last_encode_impl s) (rs_encode_stats s) b.

Definition count (delta : RsEncodeStats) (s : RsState) : RsState :=
  with_stats (add_stats (rs_encode_stats s) delta) s.

(** Rows of counters with one entry set. *)
Definition one_encode : RsEncodeStats := mkRsEncodeStats 1 0 0 0 0 0 0 0 0 0 0.
Definition one_rebuild : RsEncodeStats := mkRsEncodeStats 0 1 0 0 0 0 0 0 0 0 0.

(** ** Initialisation *)

(** [rebuild_generator] on the current geometry.  When an entry of the Cauchy matrix fails the
    parity rows written so far are never read: the matrix is not ready. *)
Definition rs_rebuild (s : RsState) : bool * RsState :=
  let s := count one_rebuild s in
  let geo := rs_geo s in
  match rebuild_generator (geo_k geo) (geo_r geo) with
  | Some g => (true, with_generator g s)
  | None => (false, with_generator (fill_identity_data_rows (geo_k geo)) s)
  end.

Definition rs_build_plan (env : RsEnv) (k r : nat) (s : RsState) : option RsEncodePlan :=
  rs_encode_plan_build (rs_gf_mul_table s) (rs_generator s) (rs_mul_table_ready s)
    (geo_shard_bytes (rs_geo s)) k r (env_malloc_nibble env) (env_malloc_table env).

Definition elapsed (started finished : Z) : Z :=
  if (finished >=? started)%Z then (finished - started)%Z else 0%Z.

Definition rs_init (env : RsEnv) (s : RsState) : RsState :=
  let started := env_clock env 0 in
  let s := with_table build_gf_mul_table s in
  let s := with_geo (mkRsGeometry 4 2 6 PKG_SIZE) s in
  let s := with_matrix_ready false s in
  let s := with_plan rs_encode_plan_clear s in
  let '(ok, s) := rs_rebuild s in
  let s :=
    match (if ok then rs_build_plan env (geo_k (rs_geo s)) (geo_r (rs_geo s)) s else None) with
    | Some plan => with_matrix_ready true (with_plan plan s)
    | None => with_matrix_ready false (with_plan rs_encode_plan_clear s)
    end in
  if (started =? 0)%Z then s
  else with_init_ns (elapsed started (env_clock env 1)) s.

(** [pthread_once(&rs_once, rs_init) == 0] *)
Definition rs_ready (env : RsEnv) (s : RsState) : bool * RsState :=
  if negb (env_once env) then (false, s)
  else if once_done s then (true, s)
  else (true, with_once true (rs_init env s)).

Definition RsCodec_prepare_matrix (env : RsEnv) (s : RsState) : Z * RsState :=
  let '(ready, s) := rs_ready env s in
  ((if ready && rs_matrix_ready s then 0 else -1)%Z, s).

Definition RsCodec_matrix_ready (env : RsEnv) (s : RsState) : bool * RsState :=
  let '(rc, s) := RsCodec_prepare_matrix env s in ((rc =? 0)%Z, s).

Definition RsCodec_matrix_init_ns (env : RsEnv) (s : RsState) : Z * RsState :=
  let '(_, s) := RsCodec_prepare_matrix env s in (rs_matrix_init_ns s, s).

(** [RsCodec_calibrate_gmul_ns]: the measured loop, then the elapsed time; bit 0 of the end time
    is flipped for one value of the accumulator. *)
Definition RsCodec_calibrate_gmul_ns (env : RsEnv) (iters : nat) (s : RsState) : Z * RsState :=
  let '(ready, s) := rs_ready env s in
  if negb ready then (0%Z, s)
  else
    let started := env_clock env 2 in
    let '(acc, _, _) :=
      for_ iters
        (fun _ '(acc, lhs, rhs) =>
           (bxor acc (gf_mul lhs rhs), Z_to_byte (byte_to_Z lhs + 1),
            Z_to_byte (byte_to_Z rhs + 3)))
        (x01, x03, x07) in
    let finished := env_clock env 3 in
    let finished := if decide (acc = xff) then Z.lxor finished 1 else finished in
    (elapsed started finished, s).

(** ** Configuration *)

(** [None] is an integer that is none of the enumerators. *)
Definition RsCodec_set_encode_impl (impl : option RsEncodeImpl) (s : RsState) : RsState :=
  match impl with Some i => with_impl i s | None => s end.

Definition RsCodec_reset_encode_stats (s : RsState) : RsState := with_stats zero_stats s.

Definition RsCodec_set_simd_enabled_for_tests (enabled : Z) (s : RsState) : RsState :=
  with_simd (negb (enabled =? 0)%Z) s.

Definition RsCodec_encode_plan_ready (env : RsEnv) (s : RsState) : bool * RsState :=
  let '(ready, s) := rs_ready env s in (ready && initialized (rs_encode_plan s), s).

Definition RsCodec_encode_plan_has_mul_table (s : RsState) : bool :=
  initialized (rs_encode_plan s) && has_mul_table (rs_encode_plan s).

Definition RsCodec_encode_plan_has_nibble_table (s : RsState) : bool :=
  initialized (rs_encode_plan s) && has_nibble_table (rs_encode_plan s).

Definition RsCodec_set_params_ex (env : RsEnv) (data_shards parity_shards shard_bytes : Z)
    (s : RsState) : Z * RsState :=
  let shard_bytes := if (shard_bytes =? 0)%Z then Z.of_nat PKG_SIZE else shard_bytes in
  if negb (params_valid data_shards parity_shards shard_bytes) then ((-1)%Z, s)
  else
    let '(ready, s) := rs_ready env s in
    if negb ready then ((-1)%Z, s)
    else
      let geo := rs_geo s in
      if (Z.of_nat (geo_k geo) =? data_shards)%Z && (Z.of_nat (geo_r geo) =? parity_shards)%Z &&
         (Z.of_nat (geo_shard_bytes geo) =? shard_bytes)%Z &&
         rs_matrix_ready s && initialized (rs_encode_plan s)
      then (0%Z, s)
      else
        let k := Z.to_nat data_shards in
        let r := Z.to_nat parity_shards in
        let s := with_geo (mkRsGeometry k r (Z.to_nat (data_shards +u64 parity_shards)%cint)
                             (Z.to_nat shard_bytes)) s in
        let '(ok, s) := rs_rebuild s in
        match (if ok then rs_build_plan env k r s else None) with
        | None => ((-1)%Z, with_matrix_ready false (with_plan rs_encode_plan_clear s))
        | Some new_plan => (0%Z, with_matrix_ready true (with_plan new_plan s))
        end.

Definition RsCodec_set_params (env : RsEnv) (data_shards parity_shards : Z) (s : RsState) :
    Z * RsState :=
  RsCodec_set_params_ex env data_shards parity_shards (Z.of_nat PKG_SIZE) s.

Definition RsCodec_get_params (env : RsEnv) (s : RsState) : (nat * nat) * RsState :=
  let '(_, s) := rs_ready env s in ((geo_k (rs_geo s), geo_r (rs_geo s)), s).

(** [None] is an integer that is none of the profiles. *)
Definition RsCodec_set_profile (env : RsEnv) (profile : option RsProfile) (s : RsState) :
    Z * RsState :=
  match profile with
  | Some RS_PROFILE_4_1 => RsCodec_set_params env 4 1 s
  | Some RS_PROFILE_4_2 => RsCodec_set_params env 4 2 s
  | Some RS_PROFILE_4_3 => RsCodec_set_params env 4 3 s
  | None => ((-1)%Z, s)
  end.

Definition RsCodec_get_profile (env : RsEnv) (s : RsState) : RsProfile * RsState :=
  let '(_, s) := rs_ready env s in
  let geo := rs_geo s in
  ((if (geo_k geo =? 4) && (geo_r geo =? 1) then RS_PROFILE_4_1
    else if (geo_k geo =? 4) && (geo_r geo =? 3) then RS_PROFILE_4_3
    else RS_PROFILE_4_2), s).

Definition RsCodec_params_is_wire_shard_count (env : RsEnv) (shard_count : Z) (s : RsState) :
    bool * RsState :=
  let '(_, s) := rs_ready env s in
  let geo := rs_geo s in
  if (shard_count <=? Z.of_nat (geo_k geo))%Z then (false, s)
  else (params_valid (Z.of_nat (geo_k geo)) (shard_count - Z.of_nat (geo_k geo))
          (Z.of_nat (geo_shard_bytes geo)), s).

Definition RsCodec_set_params_from_shard_count (env : RsEnv) (shard_count : Z) (s : RsState) :
    Z * RsState :=
  let '(ok, s) := RsCodec_params_is_wire_shard_count env shard_count s in
  if negb ok then ((-1)%Z, s)
  else RsCodec_set_params env (Z.of_nat (geo_k (rs_geo s)))
         (shard_count - Z.of_nat (geo_k (rs_geo s))) s.

(** ** Encode *)

Definition rs_geometry_is_fast_16_2 (s : RsState) (k r len : nat) : bool :=
  (k =? RS_FAST_K) && (r =? RS_FAST_R) && (len =? RS_FAST_N * PKG_SIZE) && rs_mul_table_ready s.

(** [if (finished >= started) counter += finished - started] *)
Definition span (started finished : Z) : Z := elapsed started finished.

(** The encoder [rs_encode] selects. *)
Definition rs_select (env : RsEnv) (s : RsState) (len : nat) : RsEncodeImpl :=
  let plan := rs_encode_plan s in
  let k := plan_k plan in
  let r := plan_r plan in
  let use_legacy := bool_decide (rs_encode_impl s = RS_ENCODE_LEGACY) in
  let use_rscode_4_2 := bool_decide (rs_encode_impl s = RS_ENCODE_RSCODE) &&
                        ((k =? 4) && (r =? 2) && (plan_shard_bytes plan =? PKG_SIZE)) in
  let use_fast := negb use_legacy && negb use_rscode_4_2 && rs_geometry_is_fast_16_2 s k r len &&
                  bool_decide (rs_encode_impl s = RS_ENCODE_FAST_16_2) in
  let use_simd := negb use_legacy && negb use_rscode_4_2 && negb use_fast &&
                  rs_simd_enabled s && has_nibble_table plan &&
                  rs_gf256_simd_available (env_cpu env) &&
                  (bool_decide (rs_encode_impl s = RS_ENCODE_AUTO) ||
                   bool_decide (rs_encode_impl s = RS_ENCODE_SIMD)) in
  if use_rscode_4_2 then RS_ENCODE_RSCODE
  else if use_legacy then RS_ENCODE_LEGACY
  else if use_fast then RS_ENCODE_FAST_16_2
  else if use_simd then RS_ENCODE_SIMD
  else RS_ENCODE_GENERAL.

(** The body of the selected encoder. *)
Definition rs_encode_body (env : RsEnv) (s : RsState) (impl : RsEncodeImpl) (d : list byte) :
    list byte :=
  let plan := rs_encode_plan s in
  match impl with
  | RS_ENCODE_RSCODE => rs_encode_rscode_4_2 d
  | RS_ENCODE_LEGACY => rs_encode_legacy_gmul d plan
  | RS_ENCODE_FAST_16_2 => rs_encode_16_2_fast (rs_gf_mul_table s) d plan
  | RS_ENCODE_SIMD => rs_encode_general_simd (env_cpu env) d plan
  | _ => rs_encode_general_table (rs_gf_mul_table s) d plan
  end.

(** What the call adds to the counters: the path counter, the number of products and the times. *)
Definition rs_encode_counts (env : RsEnv) (s : RsState) (impl : RsEncodeImpl) : RsEncodeStats :=
  let plan := rs_encode_plan s in
  let wait_start := env_clock env 2 in
  let hold_start := env_clock env 3 in
  let body_start := env_clock env 4 in
  let body_end := env_clock env 5 in
  let body := span body_start body_end in
  let products := u64 (Z.of_nat (plan_shard_bytes plan) * Z.of_nat (plan_k plan) *
                       Z.of_nat (plan_r plan)) in
  match impl with
  | RS_ENCODE_RSCODE =>
      mkRsEncodeStats 0 0 0 0 0 0 1 (span wait_start hold_start) (span hold_start body_end) body 0
  | RS_ENCODE_LEGACY => mkRsEncodeStats 0 0 0 0 0 1 0 0 0 body products
  | RS_ENCODE_FAST_16_2 =>
      mkRsEncodeStats 0 0 0 0 1 0 0 0 0 body
        (Z.of_nat PKG_SIZE * Z.of_nat RS_FAST_K * Z.of_nat RS_FAST_R)
  | RS_ENCODE_SIMD => mkRsEncodeStats 0 0 0 1 0 0 0 0 0 body products
  | _ => mkRsEncodeStats 0 0 1 0 0 0 0 0 0 body products
  end.

Definition rs_encode (env : RsEnv) (s : RsState) (data : option (list byte)) (len : nat) :
    option (list byte) * RsState :=
  match data with
  | None => (data, s)
  | Some d =>
      let '(ready, s) := rs_ready env s in
      if negb ready then (data, s)
      else
        let s := count one_encode s in
        let plan := rs_encode_plan s in
        if negb (rs_matrix_ready s) || negb (initialized plan) then (data, s)
        else if negb (len =? plan_n plan * plan_shard_bytes plan) then (data, s)
        else
          let impl := rs_select env s len in
          let d' := rs_encode_body env s impl d in
          (Some d', with_last_impl impl (count (rs_encode_counts env s impl) s))
  end.

(** [rs_decode] checks its arguments and leaves the block alone: the code is systematic. *)
Definition rs_decode (s : RsState) (data : option (list byte)) (len : nat) :
    option (list byte) * RsState := (data, s).

(** ** Recover *)

Definition rs_data_shards_present (present_bits : list byte) (k : nat) : bool :=
  forallb (codec_present_get present_bits) (seq 0 k).

(** The loop that counts the received shards and keeps the first [k] of them. *)
Definition collect_survivors (present_bits : list byte) (k n : nat) : nat * list nat :=
  foldl (fun '(received, survivors) shard =>
           if codec_present_get present_bits shard
           then (S received,
                 if length survivors <? k then survivors ++ [shard] else survivors)
           else (received, survivors))
        (0, []) (seq 0 n).

(** One missing shard: the row that expresses it by the survivors, then its bytes. *)
Definition repair_shard (G inverse : list (list byte)) (survivors : list nat) (k sb shard : nat)
    (shards : list byte) : list byte :=
  let repair_row :=
    map (fun column => gsum k (fun term => gf_mul (mget G shard term) (mget inverse term column)))
        (seq 0 k) in
  for_ sb
    (fun byte shards =>
       <[shard * sb + byte :=
           gsum k (fun term => gf_mul (get repair_row term)
                                 (get shards (nth term survivors 0 * sb + byte)))]> shards)
    shards.

Definition rs_recover (env : RsEnv) (s : RsState) (shards present_bits : option (list byte))
    (shard_count : nat) : CodecRecoverStatus * option (list byte) * RsState :=
  match shards, present_bits with
  | Some buf, Some bits =>
      if negb (shard_count =? geo_n (rs_geo s)) then (CODEC_RECOVER_ERR, shards, s)
      else
        let '(rc, s) := RsCodec_prepare_matrix env s in
        if negb (rc =? 0)%Z then (CODEC_RECOVER_ERR, shards, s)
        else
          let geo := rs_geo s in
          let k := geo_k geo in
          let n := geo_n geo in
          let '(received, survivors) := collect_survivors bits k n in
          if received <? k then (CODEC_RECOVER_UNAVAILABLE, shards, s)
          else if received =? n then (CODEC_RECOVER_OK, shards, s)
          else if rs_data_shards_present bits k then (CODEC_RECOVER_OK, shards, s)
          else if negb (length survivors =? k) then (CODEC_RECOVER_ERR, shards, s)
          else
            let submatrix := select_rows (rs_generator s) survivors in
            match matrix_inverse_dyn submatrix k with
            | None => (CODEC_RECOVER_ERR, shards, s)
            | Some inverse =>
                (CODEC_RECOVER_OK,
                 Some (for_ n
                   (fun shard shards =>
                      if codec_present_get bits shard then shards
                      else repair_shard (rs_generator s) inverse survivors k
                             (geo_shard_bytes geo) shard shards)
                   buf),
                 s)
            end
  | _, _ => (CODEC_RECOVER_ERR, shards, s)
  end.

(** ** The codec *)

Definition rs_query (env : RsEnv) (f : RsGeometry -> nat) (s : RsState) : nat * RsState :=
  let '(_, s) := rs_ready env s in (f (rs_geo s), s).

Definition rs_vtable (env : RsEnv) : CodecVTable RsState :=
  mkCodecVTable (Some (rs_encode env)) (Some rs_decode)
    (Some (rs_query env (fun g => geo_k g * geo_shard_bytes g)))
    (Some (rs_query env (fun g => geo_n g * geo_shard_bytes g)))
    (Some (rs_query env geo_k)) (Some (rs_query env geo_r)) (Some (pair 1%Z)) None
    (Some (rs_recover env)).
