(* ===== verification/RsCodecSpec.v ===== *)
(** * What the Reed-Solomon codec promises

    The states the public functions reach keep a generator and an encode plan that belong to the
    current geometry; in such a state every encoder computes the code of the generator, and
    recovery restores a block from any [k] of its [n] shards. *)

From Stdlib Require Import Strings.Byte.
From S2P Require Import Prelude Gf256 ByteVec RsMatrix RsGenerator RsSimd RsEncode Codec RsCodec.

#[local] Opaque PKG_SIZE gsum build_gf_mul_table.

(** ** Parameter validation *)

(** A geometry inside the limits of the codec. *)
Record geometry_ok (k r sb : nat) : Prop := {
  gk : 1 <= k;
  gr : 1 <= r;
  gn : k + r <= RS_ABS_MAX_SHARDS;
  gsb : 1 <= sb }.

Lemma params_valid_ok k r sb :
  (0 <= k)%Z -> (0 <= r)%Z -> (k + r < 2 ^ 64)%Z -> params_valid k r sb = true ->
  (1 <= k)%Z /\ (1 <= r)%Z /\ (k + r <= 255)%Z /\ (1 <= sb <= 65535)%Z /\
  ((k + r) * sb <= CODEC_MAX_ENCODE_BLOCK)%Z.
Proof.
  intros Hk Hr Hn. unfold params_valid.
  destruct (Z.ltb_spec k 1), (Z.ltb_spec r 1), (Z.ltb_spec sb 1); cbn [orb]; try done.
  rewrite Z.gtb_ltb. destruct (Z.ltb_spec 65535 sb); [done|].
  rewrite u64_small by (unfold in_range; lia). rewrite Z.gtb_ltb.
  destruct (Z.ltb_spec (Z.of_nat RS_ABS_MAX_SHARDS) (k + r)) as [|Hle]; [done|].
  change (Z.of_nat RS_ABS_MAX_SHARDS) with 255%Z in Hle.
  rewrite u64_small by (unfold in_range; nia). rewrite Z.gtb_ltb.
  destruct (Z.ltb_spec CODEC_MAX_ENCODE_BLOCK ((k + r) * sb)); [done|]. intros _. lia.
Qed.

Lemma params_valid_nat k r sb :
  params_valid (Z.of_nat k) (Z.of_nat r) (Z.of_nat sb) = true ->
  k + r <= 255 -> geometry_ok k r sb.
Proof.
  intros Hv Hn. apply params_valid_ok in Hv; [|lia..].
  split; unfold RS_ABS_MAX_SHARDS; lia.
Qed.

Lemma mul_table_bytes k r :
  1 <= k -> 1 <= r -> k + r <= 255 ->
  rs_encode_mul_table_bytes (Z.of_nat k) (Z.of_nat r) = Some (Z.of_nat (k * r * 256)) /\
  (Z.of_nat (k * r * 256) <= RS_ENCODE_MUL_TABLE_MAX_BYTES)%Z.
Proof.
  intros Hk Hr Hn. assert (Hkr : 4 * (k * r) <= 255 * 255).
  { assert (4 * (k * r) <= (k + r) * (k + r)) by
      (destruct (Nat.le_ge_cases k r) as [H|H];
       apply Nat.le_exists_sub in H as (d & -> & _); nia).
    nia. }
  assert (Hm : (Z.of_nat k * Z.of_nat r = Z.of_nat (k * r))%Z) by lia.
  assert (Hd : (Z.of_nat k <= SIZE_MAX / Z.of_nat r)%Z).
  { apply Z.div_le_lower_bound; [lia|]. unfold SIZE_MAX. nia. }
  assert (H256 : (SIZE_MAX / 256 = 2 ^ 56 - 1)%Z) by done.
  unfold rs_encode_mul_table_bytes, RS_ENCODE_MUL_TABLE_MAX_BYTES.
  rewrite (proj2 (Z.eqb_neq (Z.of_nat k) 0)), (proj2 (Z.eqb_neq (Z.of_nat r) 0)) by lia.
  cbn [orb]. rewrite Z.gtb_ltb, (proj2 (Z.ltb_ge _ (Z.of_nat k))) by done.
  rewrite Hm, !u64_small by (unfold in_range; lia).
  rewrite Z.gtb_ltb, (proj2 (Z.ltb_ge _ (Z.of_nat (k * r)))) by (rewrite H256; lia).
  split; [f_equal; lia|nia].
Qed.

(** ** The invariant *)

(** The published plan and generator belong to the geometry. *)
Record published (s : RsState) : Prop := {
  pub_geo : geometry_ok (geo_k (rs_geo s)) (geo_r (rs_geo s)) (geo_shard_bytes (rs_geo s));
  pub_n : geo_n (rs_geo s) = geo_k (rs_geo s) + geo_r (rs_geo s);
  pub_generator : rebuild_generator (geo_k (rs_geo s)) (geo_r (rs_geo s)) = Some (rs_generator s);
  pub_plan_ok : plan_ok (rs_encode_plan s);
  pub_plan_k : plan_k (rs_encode_plan s) = geo_k (rs_geo s);
  pub_plan_r : plan_r (rs_encode_plan s) = geo_r (rs_geo s);
  pub_plan_sb : plan_shard_bytes (rs_encode_plan s) = geo_shard_bytes (rs_geo s);
  pub_plan_coeff : plan_coeff (rs_encode_plan s) = rs_generator s;
  pub_initialized : initialized (rs_encode_plan s) = true;
  pub_has_mul : has_mul_table (rs_encode_plan s) = true;
  pub_has_nibble : has_nibble_table (rs_encode_plan s) = true }.

Record rs_inv (s : RsState) : Prop := {
  inv_table : once_done s = true ->
    rs_gf_mul_table s = build_gf_mul_table /\ rs_mul_table_ready s = true;
  inv_ready : rs_matrix_ready s = true -> once_done s = true /\ published s;
  inv_not_ready : rs_matrix_ready s = false -> initialized (rs_encode_plan s) = false }.

Lemma plan_build_spec G sb k r m1 m2 plan :
  k + r <= 255 ->
  rs_encode_plan_build build_gf_mul_table G true sb k r m1 m2 = Some plan ->
  geometry_ok k r sb /\ plan_ok plan /\ plan_k plan = k /\ plan_r plan = r /\
  plan_shard_bytes plan = sb /\ plan_coeff plan = G /\ initialized plan = true /\
  has_mul_table plan = true /\ has_nibble_table plan = true.
Proof.
  intros Hn. unfold rs_encode_plan_build.
  destruct (params_valid _ _ _) eqn:Hv; cbn [negb orb]; [|done].
  pose proof (params_valid_nat _ _ _ Hv Hn) as Hg. pose proof Hg as [Hk Hr _ _].
  destruct (mul_table_bytes k r Hk Hr Hn) as [-> Hcap]. cbn [mbind option_bind].
  destruct m1; cbn [negb]; [|done].
  rewrite (proj2 (Z.leb_le _ _) Hcap). destruct m2; cbn [negb]; [|done].
  intros [= <-]. cbn. split; [done|]. split; [|done]. split; done.
Qed.

(** Allocations that succeed give a plan for every valid geometry. *)
Lemma plan_build_total G sb k r :
  k + r <= 255 -> params_valid (Z.of_nat k) (Z.of_nat r) (Z.of_nat sb) = true ->
  is_Some (rs_encode_plan_build build_gf_mul_table G true sb k r true true).
Proof.
  intros Hn Hv. unfold rs_encode_plan_build. rewrite Hv. cbn [negb orb].
  pose proof (params_valid_nat _ _ _ Hv Hn) as [Hk Hr _ _].
  destruct (mul_table_bytes k r Hk Hr Hn) as [-> Hcap]. cbn [mbind option_bind negb].
  rewrite (proj2 (Z.leb_le _ _) Hcap). eauto.
Qed.

(** The tail of [rs_init] and of [RsCodec_set_params_ex]. *)
Definition publish (env : RsEnv) (k r : nat) (s : RsState) : option RsState :=
  let '(ok, s) := rs_rebuild s in
  match (if ok then rs_build_plan env k r s else None) with
  | Some plan => Some (with_matrix_ready true (with_plan plan s))
  | None => None
  end.

Lemma publish_inv env k r sb s s' :
  rs_gf_mul_table s = build_gf_mul_table -> rs_mul_table_ready s = true ->
  rs_geo s = mkRsGeometry k r (k + r) sb -> k + r <= 255 ->
  publish env k r s = Some s' ->
  published s' /\ rs_matrix_ready s' = true /\ rs_gf_mul_table s' = build_gf_mul_table /\
  rs_mul_table_ready s' = true /\ once_done s' = once_done s /\ rs_geo s' = rs_geo s.
Proof.
  intros Ht Hr Hg Hn. unfold publish, rs_rebuild. cbn -[rebuild_generator].
  rewrite Hg. cbn [geo_k geo_r].
  destruct (rebuild_generator k r) as [G|] eqn:HG; [|done].
  unfold rs_build_plan. cbn -[rs_encode_plan_build]. rewrite Ht, Hr, Hg.
  destruct (rs_encode_plan_build _ _ _ _ _ _ _ _) as [plan|] eqn:Hp; [|done].
  apply plan_build_spec in Hp as (Hgo & Hok & Hk & Hr' & Hsb & Hc & Hi & Hm & Hnib); [|done].
  intros [= <-]. split; [|done]. split; cbn; rewrite ?Hg; cbn; done.
Qed.

Lemma rs_rebuild_frame s :
  let s' := snd (rs_rebuild s) in
  rs_gf_mul_table s' = rs_gf_mul_table s /\ rs_mul_table_ready s' = rs_mul_table_ready s /\
  once_done s' = once_done s.
Proof. unfold rs_rebuild. by destruct (rebuild_generator _ _). Qed.

Lemma rs_init_inv env s : rs_inv (with_once true (rs_init env s)).
Proof.
  unfold rs_init.
  set (s0 := with_plan rs_encode_plan_clear (with_matrix_ready false
               (with_geo (mkRsGeometry 4 2 6 PKG_SIZE) (with_table build_gf_mul_table s)))).
  pose proof (publish_inv env 4 2 PKG_SIZE s0) as Hpub. unfold publish in Hpub.
  pose proof (rs_rebuild_frame s0) as (Ht & Hr & _).
  assert (Hgeo : rs_geo (snd (rs_rebuild s0)) = mkRsGeometry 4 2 6 PKG_SIZE)
    by (unfold rs_rebuild; by destruct (rebuild_generator _ _)).
  destruct (rs_rebuild s0) as [ok s1]. cbn [snd] in *. rewrite Hgeo. cbn [geo_k geo_r].
  destruct (if ok then rs_build_plan env 4 2 s1 else None) as [plan|].
  - destruct (Hpub _ eq_refl eq_refl eq_refl ltac:(lia) eq_refl) as (Hp & _ & Ht' & Hr' & _).
    case_match; (split; cbn; [by rewrite Ht, Hr|intros _; split; [done|]|done]);
      destruct Hp; split; done.
  - case_match; split; cbn; try done; by rewrite Ht, Hr.
Qed.

Lemma rs_ready_inv env s b s' : rs_ready env s = (b, s') -> rs_inv s -> rs_inv s'.
Proof.
  unfold rs_ready. intros H Hi. repeat case_match; simplify_eq; try done. apply rs_init_inv.
Qed.

Lemma rs_ready_done env s s' : rs_ready env s = (true, s') -> once_done s' = true.
Proof. unfold rs_ready. intros H. repeat case_match; simplify_eq; done. Qed.

Lemma rs_set_params_inv env k r sb s rc s' :
  (0 <= k)%Z -> (0 <= r)%Z -> (k + r < 2 ^ 64)%Z -> rs_inv s ->
  RsCodec_set_params_ex env k r sb s = (rc, s') -> rs_inv s'.
Proof.
  intros Hk Hr Hn Hi. unfold RsCodec_set_params_ex.
  set (sb' := if (sb =? 0)%Z then _ else _).
  destruct (params_valid k r sb') eqn:Hv; cbn [negb]; [|by intros [= _ <-]].
  apply params_valid_ok in Hv as (Hk1 & Hr1 & Hn1 & Hsb & _); [|done..].
  destruct (rs_ready env s) as [ready s1] eqn:Hready. pose proof (rs_ready_inv _ _ _ _ Hready Hi) as Hi1.
  destruct ready; cbn [negb]; [|by intros [= _ <-]].
  pose proof (rs_ready_done _ _ _ Hready) as Hdone. destruct (inv_table s1 Hi1 Hdone) as [Ht Htr].
  destruct (_ && initialized _); [by intros [= _ <-]|].
  set (s2 := with_geo _ s1).
  assert (Hgeo : rs_geo s2 = mkRsGeometry (Z.to_nat k) (Z.to_nat r) (Z.to_nat k + Z.to_nat r)
                               (Z.to_nat sb')).
  { unfold s2. cbn. f_equal. rewrite u64_small by (unfold in_range; lia). lia. }
  pose proof (publish_inv env (Z.to_nat k) (Z.to_nat r) (Z.to_nat sb') s2) as Hpub.
  unfold publish in Hpub. pose proof (rs_rebuild_frame s2) as (Ht2 & Hr2 & Ho2).
  destruct (rs_rebuild s2) as [ok s3]. cbn [snd] in *.
  destruct (if ok then rs_build_plan env _ _ s3 else None) as [plan|]; intros [= _ <-].
  - destruct (Hpub _ Ht Htr Hgeo ltac:(lia) eq_refl) as (Hp & Hm & Ht' & Hr' & Hd & _).
    split; [done| |by rewrite Hm]. intros _. split; [by rewrite Hd|done].
  - split; cbn; try done. intros _. by rewrite Ht2, Hr2.
Qed.

(** The result 0 means a codec that is ready with the requested geometry. *)
Lemma rs_set_params_zero env k r sb s s' :
  (0 <= k)%Z -> (0 <= r)%Z -> (k + r < 2 ^ 64)%Z -> rs_inv s ->
  RsCodec_set_params_ex env k r sb s = (0%Z, s') ->
  let sb' := if (sb =? 0)%Z then Z.of_nat PKG_SIZE else sb in
  env_once env = true /\ once_done s' = true /\ rs_matrix_ready s' = true /\
  rs_geo s' = mkRsGeometry (Z.to_nat k) (Z.to_nat r) (Z.to_nat k + Z.to_nat r) (Z.to_nat sb').
Proof.
  intros Hk Hr Hn Hi. unfold RsCodec_set_params_ex.
  set (sb' := if (sb =? 0)%Z then _ else _). cbv zeta.
  destruct (params_valid k r sb') eqn:Hv; cbn [negb]; [|done].
  apply params_valid_ok in Hv as (Hk1 & Hr1 & Hn1 & Hsb & _); [|done..].
  destruct (rs_ready env s) as [ready s1] eqn:Hready. pose proof (rs_ready_inv _ _ _ _ Hready Hi) as Hi1.
  destruct ready; cbn [negb]; [|done].
  assert (He : env_once env = true) by (unfold rs_ready in Hready; by destruct (env_once env)).
  pose proof (rs_ready_done _ _ _ Hready) as Hdone.
  destruct (_ && initialized _) eqn:Esame.
  - intros [= <-]. rewrite !andb_true_iff, !Z.eqb_eq in Esame. destruct Esame as [[[[Ek Er] Esb] Em] _].
    destruct (inv_ready s1 Hi1 Em) as [_ Hp]. pose proof (pub_n s1 Hp) as Hpn. split_and!; try done.
    destruct (rs_geo s1) as [k1 r1 n1 sb1]. cbn in *. subst. f_equal; lia.
  - set (s2 := with_geo _ s1).
    assert (Hgeo : rs_geo s2 = mkRsGeometry (Z.to_nat k) (Z.to_nat r) (Z.to_nat k + Z.to_nat r)
                                 (Z.to_nat sb')).
    { unfold s2. cbn. f_equal. rewrite u64_small by (unfold in_range; lia). lia. }
    pose proof (rs_rebuild_frame s2) as (_ & _ & Ho2).
    assert (Hg3 : rs_geo (snd (rs_rebuild s2)) = rs_geo s2)
      by (unfold rs_rebuild; by destruct (rebuild_generator _ _)).
    destruct (rs_rebuild s2) as [ok s3]. cbn [snd] in *.
    destruct (if ok then rs_build_plan env _ _ s3 else None) as [plan|]; intros [= <-].
    split_and!; try done; cbn; by rewrite ?Ho2, ?Hg3.
Qed.

(** Counters, the last implementation and the two switches are not part of the invariant. *)
Lemma inv_irrelevant s s' :
  once_done s' = once_done s -> rs_generator s' = rs_generator s ->
  rs_gf_mul_table s' = rs_gf_mul_table s -> rs_mul_table_ready s' = rs_mul_table_ready s ->
  rs_matrix_ready s' = rs_matrix_ready s -> rs_geo s' = rs_geo s ->
  rs_encode_plan s' = rs_encode_plan s -> rs_inv s -> rs_inv s'.
Proof.
  intros Ho Hg Ht Htr Hm Hgeo Hp [H1 H2 H3]. split; rewrite ?Ho, ?Ht, ?Htr, ?Hm, ?Hp; try done.
  intros Hr. destruct (H2 Hr) as [Hd [? ? ? ? ? ? ? ? ? ?]]. split; [done|].
  split; rewrite ?Hg, ?Hgeo, ?Hp; done.
Qed.

Lemma rs_encode_inv env s data len : rs_inv s -> rs_inv (snd (rs_encode env s data len)).
Proof.
  intros Hi. unfold rs_encode. destruct data as [d|]; [|done].
  destruct (rs_ready env s) as [ready s1] eqn:Hready.
  pose proof (rs_ready_inv _ _ _ _ Hready Hi) as Hi1.
  destruct ready; cbn [negb]; [|done].
  repeat (case_match; cbn [snd]); by apply (inv_irrelevant s1).
Qed.

Lemma rs_recover_state env s shards bits n :
  rs_inv s -> rs_inv (snd (rs_recover env s shards bits n)).
Proof.
  intros Hi. unfold rs_recover. destruct shards as [buf|], bits as [bits|]; try done.
  destruct (negb _); [done|]. unfold RsCodec_prepare_matrix.
  destruct (rs_ready env s) as [ready s1] eqn:Hready.
  pose proof (rs_ready_inv _ _ _ _ Hready Hi) as Hi1.
  destruct (negb _); [done|]. destruct (collect_survivors _ _ _) as [received survivors].
  repeat (case_match; cbn [snd]); done.
Qed.

(** ** Reachable states *)

(** One call of a public function.  [RsCodec_set_params_ex] is called with shard counts whose sum
    is a [size_t]. *)
Inductive rs_step : RsState -> RsState -> Prop :=
| step_set_params env k r sb s :
    (0 <= k)%Z -> (0 <= r)%Z -> (k + r < 2 ^ 64)%Z ->
    rs_step s (snd (RsCodec_set_params_ex env k r sb s))
| step_set_impl impl s : rs_step s (RsCodec_set_encode_impl impl s)
| step_set_simd enabled s : rs_step s (RsCodec_set_simd_enabled_for_tests enabled s)
| step_reset_stats s : rs_step s (RsCodec_reset_encode_stats s)
| step_query env s : rs_step s (snd (rs_ready env s))
| step_encode env data len s : rs_step s (snd (rs_encode env s data len))
| step_recover env shards bits n s : rs_step s (snd (rs_recover env s shards bits n)).

Definition rs_reachable (s : RsState) : Prop := rtc rs_step rs_start s.

Lemma rs_step_inv s s' : rs_inv s -> rs_step s s' -> rs_inv s'.
Proof.
  intros Hi Hs. destruct Hs as [env k r sb s Hk Hr Hn|impl s|en s|s|env s|env data len s|env sh b n s].
  - destruct (RsCodec_set_params_ex env k r sb s) as [rc s'] eqn:E. cbn [snd].
    exact (rs_set_params_inv env k r sb s rc s' Hk Hr Hn Hi E).
  - destruct impl; [|done]. by apply (inv_irrelevant s).
  - by apply (inv_irrelevant s).
  - by apply (inv_irrelevant s).
  - destruct (rs_ready env s) as [b s'] eqn:E. cbn [snd]. eapply rs_ready_inv; eauto.
  - by apply rs_encode_inv.
  - by apply rs_recover_state.
Qed.

Lemma rs_reachable_inv s : rs_reachable s -> rs_inv s.
Proof.
  intros H. assert (H0 : rs_inv rs_start) by (split; done).
  revert H0. unfold rs_reachable in H. induction H as [s|s1 s2 s3 H12 _ IH]; [done|].
  intros Hi. apply IH. by eapply rs_step_inv.
Qed.

(** ** Every encoder computes the reference code *)

(** The block the current generator defines. *)
Definition rs_code (s : RsState) (d : list byte) : list byte :=
  encode_ref (geo_shard_bytes (rs_geo s)) (geo_k (rs_geo s)) (geo_r (rs_geo s))
    (rs_generator s) d.

Definition rs_block_size (s : RsState) : nat := geo_n (rs_geo s) * geo_shard_bytes (rs_geo s).

(** A call that changes only counters and the last implementation. *)
Definition same_codec (s s' : RsState) : Prop :=
  rs_geo s' = rs_geo s /\ rs_generator s' = rs_generator s /\
  rs_encode_plan s' = rs_encode_plan s /\ rs_matrix_ready s' = rs_matrix_ready s.

Lemma rs_ready_ready env s :
  env_once env = true -> once_done s = true -> rs_ready env s = (true, s).
Proof. intros He Ho. unfold rs_ready. by rewrite He, Ho. Qed.

Lemma rs_select_body env s d :
  rs_inv s -> rs_matrix_ready s = true -> length d = rs_block_size s ->
  rs_encode_body env s (rs_select env s (rs_block_size s)) d = rs_code s d.
Proof.
  intros Hi Hm Hl. destruct (inv_ready s Hi Hm) as [Ho Hp]. destruct (inv_table s Hi Ho) as [Ht _].
  destruct Hp as [Hg Hn HG Hok Hk Hr Hsb Hc _ _ _].
  assert (Hlen : length d = (plan_k (rs_encode_plan s) + plan_r (rs_encode_plan s)) *
                            plan_shard_bytes (rs_encode_plan s))
    by (rewrite Hl, Hk, Hr, Hsb; unfold rs_block_size; by rewrite Hn).
  unfold rs_code. rewrite <- Hsb, <- Hk, <- Hr, <- Hc.
  unfold rs_select.
  destruct (bool_decide (rs_encode_impl s = RS_ENCODE_RSCODE) && _) eqn:Ers.
  { apply andb_true_iff in Ers as [_ Ers]. rewrite !andb_true_iff, !Nat.eqb_eq in Ers.
    destruct Ers as [[Ek Er] Esb]. cbn [rs_encode_body]. rewrite Ek, Er, Esb.
    assert (Hgen : plan_coeff (rs_encode_plan s) = build_generator_rscode_4_2).
    { rewrite Hc. rewrite <- Hk, <- Hr, Ek, Er in HG. unfold rebuild_generator in HG.
      cbn [Nat.eqb andb] in HG. by simplify_eq. }
    rewrite Hgen. apply rscode_4_2_ref. rewrite Hlen, Ek, Er, Esb. done. }
  destruct (bool_decide (rs_encode_impl s = RS_ENCODE_LEGACY)) eqn:El.
  { by apply legacy_ref. }
  cbn [negb andb].
  destruct (rs_geometry_is_fast_16_2 s _ _ _ && _) eqn:Ef.
  { apply andb_true_iff in Ef as [Ef _]. unfold rs_geometry_is_fast_16_2 in Ef.
    rewrite !andb_true_iff, !Nat.eqb_eq in Ef. destruct Ef as [[[Ek Er] Elen] _].
    cbn [rs_encode_body]. rewrite Ht. apply fast_16_2_ref; try done.
    unfold rs_block_size in Elen. rewrite Hn, <- Hk, <- Hr, Ek, Er, <- Hsb in Elen.
    unfold RS_FAST_N in Elen. unfold RS_FAST_K, RS_FAST_R in Elen. lia. }
  cbn [negb].
  destruct (_ && (bool_decide (rs_encode_impl s = RS_ENCODE_AUTO) || _)).
  - cbn [rs_encode_body]. by apply general_simd_ref.
  - cbn [rs_encode_body]. rewrite Ht. by apply general_table_ref.
Qed.

Lemma rs_encode_code env s d :
  rs_inv s -> rs_matrix_ready s = true -> env_once env = true -> length d = rs_block_size s ->
  fst (rs_encode env s (Some d) (rs_block_size s)) = Some (rs_code s d) /\
  same_codec s (snd (rs_encode env s (Some d) (rs_block_size s))).
Proof.
  intros Hi Hm He Hl. destruct (inv_ready s Hi Hm) as [Ho Hp].
  unfold rs_encode. rewrite rs_ready_ready by done. cbn [negb].
  set (s1 := count one_encode s).
  assert (Hi1 : rs_inv s1) by (by apply (inv_irrelevant s)).
  change (rs_matrix_ready s1) with (rs_matrix_ready s).
  change (rs_encode_plan s1) with (rs_encode_plan s).
  rewrite Hm, (pub_initialized s Hp). cbn [negb orb].
  assert (Hlen : rs_block_size s = plan_n (rs_encode_plan s) * plan_shard_bytes (rs_encode_plan s)).
  { unfold rs_block_size. destruct Hp. destruct pub_plan_ok0. congruence. }
  rewrite <- Hlen, Nat.eqb_refl. cbn [negb]. split; [|done]. cbn [fst]. f_equal.
  by apply (rs_select_body env s1 d).
Qed.
