(* ===== verification/RsRecover.v ===== *)
(** * Recovery of erased shards

    [rs_recover] restores a block from any [k] of its [n] shards.  The file also states the
    theorems of the Reed-Solomon codec, proved from the lemmas of the files before it. *)

From Stdlib Require Import Strings.Byte.
From S2P Require Import Prelude Gf256 ByteVec RsMatrix RsGenerator RsSimd RsEncode Codec RsCodec.
From S2P Require Import RsCodecSpec.

#[local] Opaque PKG_SIZE gsum build_gf_mul_table.

(** ** Survivors *)

Definition present_shards (bits : list byte) (n : nat) : list nat :=
  List.filter (codec_present_get bits) (seq 0 n).

Lemma collect_survivors_spec bits k n :
  collect_survivors bits k n =
  (length (present_shards bits n), take k (present_shards bits n)).
Proof.
  unfold collect_survivors, present_shards. induction n as [|n IH]; [simpl; by rewrite take_nil|].
  rewrite seq_S, foldl_app, IH, List.filter_app, length_app, Nat.add_0_l. cbn [foldl List.filter].
  set (l := List.filter _ (seq 0 n)). destruct (codec_present_get bits n).
  - f_equal; [simpl; lia|]. rewrite length_take. destruct (Nat.ltb_spec (Nat.min k (length l)) k).
    + rewrite !take_ge by (rewrite ?length_app; simpl; lia). done.
    + rewrite take_app_le by lia. done.
  - simpl. by rewrite Nat.add_0_r, app_nil_r.
Qed.

Lemma filter_sublist {A} (f : A -> bool) l : List.filter f l `sublist_of` l.
Proof.
  induction l as [|x l IH]; simpl; [done|]. destruct (f x); by constructor.
Qed.

Lemma survivors_sublist bits k n : take k (present_shards bits n) `sublist_of` seq 0 n.
Proof. etrans; [apply sublist_take|apply filter_sublist]. Qed.

Lemma survivor_present bits k n i s :
  take k (present_shards bits n) !! i = Some s -> codec_present_get bits s = true /\ s < n.
Proof.
  intros H%list_elem_of_lookup_2.
  assert (Hin : s ∈ present_shards bits n) by (eapply elem_of_sublist; [done|apply sublist_take]).
  apply list_elem_of_In, filter_In in Hin as [Hs Hp]. apply in_seq in Hs. split; [done|lia].
Qed.

(** All shards of a block are given by the generator, the data shards too. *)
Lemma code_byte_generator sb k r G d s b :
  mds_generator k r G -> s < k + r ->
  code_byte sb k G d s b = gsum k (fun i => gf_mul (mget G s i) (cell sb d i b)).
Proof.
  intros HG Hs. unfold code_byte. destruct (Nat.ltb_spec s k); [|done].
  rewrite <- (gsum_delta_l k s (fun i => cell sb d i b)) by done. apply gsum_ext. intros i Hi.
  by rewrite (mds_identity k r G HG).
Qed.

Section Repair.
Context (sb k r : nat) (G inverse : list (list byte)) (survivors : list nat) (d : list byte).
Context (HG : mds_generator k r G).
Context (Hlen : length survivors = k).
Context (Hsurv : forall i s, survivors !! i = Some s -> s < k + r).
Context (Hinv : matrix_inverse_dyn (select_rows G survivors) k = Some inverse).

(** The repair row of shard [s] applied to the survivors' bytes is the byte of shard [s]. *)
Lemma repair_row_value s b :
  s < k + r ->
  gsum k (fun term =>
    gf_mul (gsum k (fun u => gf_mul (mget G s u) (mget inverse u term)))
           (code_byte sb k G d (nth term survivors 0) b)) = code_byte sb k G d s b.
Proof.
  intros Hs. rewrite (code_byte_generator sb k r G d s b HG Hs).
  rewrite (gsum_ext k _ (fun term => gsum k (fun u => gf_mul (mget G s u)
    (gf_mul (mget inverse u term)
       (gsum k (fun t => gf_mul (mget (select_rows G survivors) term t) (cell sb d t b))))))).
  - rewrite gsum_swap. apply gsum_ext. intros u Hu. rewrite gsum_mul_l.
    rewrite (matrix_inverse_left _ _ k (fun t => cell sb d t b) Hinv u Hu). done.
  - intros term Ht. rewrite <- gsum_mul_r.
    destruct (lookup_lt_is_Some_2 survivors term) as [t Hterm]; [lia|].
    rewrite (nth_lookup_Some _ _ 0 _ Hterm).
    rewrite (code_byte_generator sb k r G d t b HG) by eauto.
    apply gsum_ext. intros u Hu.
    rewrite (gsum_ext k (fun t0 => gf_mul (mget (select_rows G survivors) term t0) _)
               (fun i => gf_mul (mget G t i) (cell sb d i b))).
    + ring.
    + intros i Hi. unfold mget. by rewrite (row_of_select _ _ _ t Hterm).
Qed.

Lemma repair_shard_spec shard buf :
  length buf = (k + r) * sb -> shard < k + r -> shard ∉ survivors ->
  (forall s b, s ∈ survivors -> b < sb -> cell sb buf s b = code_byte sb k G d s b) ->
  let buf' := repair_shard G inverse survivors k sb shard buf in
  length buf' = (k + r) * sb /\
  forall s b, s < k + r -> b < sb ->
    cell sb buf' s b = if s =? shard then code_byte sb k G d s b else cell sb buf s b.
Proof.
  intros Hl Hsh Hni Hs buf'.
  set (P := fun o (e : list byte) => length e = (k + r) * sb /\
    forall s b, s < k + r -> b < sb ->
      cell sb e s b = if (s =? shard) && (b <? o) then code_byte sb k G d s b
                      else cell sb buf s b).
  assert (HP : P sb buf').
  { apply (for_ind P).
    - split; [done|]. intros s b _ _. by rewrite andb_false_r.
    - intros o e Ho [He Hce]. split; [by rewrite length_insert|]. intros s b Hs' Hb.
      rewrite (cell_insert sb (k + r)), Hce by done. case_decide as E.
      + destruct E as [<- <-]. rewrite Nat.eqb_refl, (proj2 (Nat.ltb_lt o (S o))) by lia.
        cbn [andb]. rewrite <- (repair_row_value shard o Hsh). apply gsum_ext. intros t Ht.
        rewrite get_map_seq by done. f_equal.
        destruct (lookup_lt_is_Some_2 survivors t) as [x Hx]; [lia|].
        rewrite (nth_lookup_Some _ _ 0 _ Hx). fold (cell sb e x o).
        assert (Hxin : x ∈ survivors) by (by eapply list_elem_of_lookup_2).
        rewrite Hce by eauto. rewrite (proj2 (Nat.eqb_neq x shard)) by (intros ->; done).
        by apply Hs.
      + bool_cases; simpl; try done; lia. }
  destruct HP as [Hl' Hc]. split; [done|]. intros s b Hs' Hb. rewrite Hc by done.
  rewrite (proj2 (Nat.ltb_lt b sb)) by done. by rewrite andb_true_r.
Qed.

End Repair.

(** ** The whole recovery *)

Lemma rs_block_size_ok s :
  published s -> rs_block_size s = (geo_k (rs_geo s) + geo_r (rs_geo s)) * geo_shard_bytes (rs_geo s).
Proof. intros Hp. unfold rs_block_size. by rewrite (pub_n s Hp). Qed.

Lemma published_mds s : published s -> mds_generator (geo_k (rs_geo s)) (geo_r (rs_geo s)) (rs_generator s).
Proof.
  intros Hp. pose proof (pub_geo s Hp) as [Hk Hr Hn _].
  apply rebuild_generator_mds; [done|by unfold RS_ABS_MAX_SHARDS in Hn|apply Hp].
Qed.

(** The elimination succeeds for every set of survivors. *)
Lemma survivors_inverse s bits :
  published s -> geo_k (rs_geo s) <= length (present_shards bits (geo_n (rs_geo s))) ->
  let survivors := take (geo_k (rs_geo s)) (present_shards bits (geo_n (rs_geo s))) in
  length survivors = geo_k (rs_geo s) /\
  is_Some (matrix_inverse_dyn (select_rows (rs_generator s) survivors) (geo_k (rs_geo s))).
Proof.
  intros Hp Hk survivors. assert (Hlen : length survivors = geo_k (rs_geo s))
    by (unfold survivors; rewrite length_take; lia).
  split; [done|]. pose proof (pub_geo s Hp) as [Hk1 Hr Hn _].
  apply matrix_inverse_total; [lia|].
  apply (mds_kernel _ _ _ (published_mds s Hp)); [|done].
  rewrite <- (pub_n s Hp). apply survivors_sublist.
Qed.

(** The repair loop over all shards rebuilds the block. *)
Lemma repair_all s bits d buf inverse :
  published s ->
  let k := geo_k (rs_geo s) in
  let n := geo_n (rs_geo s) in
  let sb := geo_shard_bytes (rs_geo s) in
  let survivors := take k (present_shards bits n) in
  length survivors = k ->
  matrix_inverse_dyn (select_rows (rs_generator s) survivors) k = Some inverse ->
  length buf = rs_block_size s ->
  (forall sh b, sh < n -> b < sb -> codec_present_get bits sh = true ->
     cell sb buf sh b = cell sb (rs_code s d) sh b) ->
  for_ n (fun shard shards => if codec_present_get bits shard then shards
            else repair_shard (rs_generator s) inverse survivors k sb shard shards) buf
  = rs_code s d.
Proof.
  intros Hp k n sb survivors Hlen Hinv Hl Hc.
  pose proof (pub_n s Hp) as Hn. fold k n in Hn. set (r := geo_r (rs_geo s)) in *.
  assert (Hsize : rs_block_size s = (k + r) * sb) by (by apply rs_block_size_ok).
  assert (Hcode : forall sh b, sh < k + r -> b < sb ->
            cell sb (rs_code s d) sh b = code_byte sb k (rs_generator s) d sh b).
  { intros sh b Hsh Hb. unfold rs_code, encode_ref. by rewrite cell_of_cells. }
  set (P := fun j (e : list byte) => length e = (k + r) * sb /\
    forall sh b, sh < k + r -> b < sb -> codec_present_get bits sh = true \/ sh < j ->
      cell sb e sh b = code_byte sb k (rs_generator s) d sh b).
  match goal with |- ?e = _ => assert (HP : P n e) end.
  { apply (for_ind P).
    - split; [congruence|]. intros sh b Hsh Hb [Hpres|?]; [|lia].
      rewrite <- Hcode, Hc by (done || lia). done.
    - intros j e Hj [He Hce]. destruct (codec_present_get bits j) eqn:Hpj.
      + split; [done|]. intros sh b Hsh Hb [?|Hlt]; [auto|].
        destruct (decide (sh = j)) as [->|]; [auto|]. apply Hce; [done..|right; lia].
      + destruct (repair_shard_spec sb k r (rs_generator s) inverse survivors d
                    (published_mds s Hp) Hlen) with (shard := j) (buf := e) as [He' Hce'].
        * intros i x Hx. apply survivor_present in Hx as [_ Hx]. lia.
        * done.
        * done.
        * lia.
        * intros Hin. apply list_elem_of_lookup in Hin as [i Hi].
          apply survivor_present in Hi as [Hi _]. congruence.
        * intros x b Hin Hb. apply list_elem_of_lookup in Hin as [i Hi].
          apply survivor_present in Hi as [Hi Hx]. apply Hce; [lia|done|by left].
        * split; [done|]. intros sh b Hsh Hb Hor. rewrite Hce' by done.
          destruct (Nat.eqb_spec sh j); [done|]. apply Hce; [done..|]. destruct Hor; [by left|right; lia]. }
  destruct HP as [Hle Hce]. apply encode_ref_unique; [done|]. intros sh b Hsh Hb.
  apply Hce; [done..|right; lia].
Qed.

Lemma rs_prepared env s :
  rs_inv s -> rs_matrix_ready s = true -> env_once env = true ->
  RsCodec_prepare_matrix env s = (0%Z, s).
Proof.
  intros Hi Hm He. destruct (inv_ready s Hi Hm) as [Ho _]. unfold RsCodec_prepare_matrix.
  rewrite rs_ready_ready by done. by rewrite Hm.
Qed.

(** What [rs_recover] does in a ready state, by the number of received shards. *)
Lemma rs_recover_cases env s buf bits m :
  rs_inv s -> rs_matrix_ready s = true -> env_once env = true ->
  let k := geo_k (rs_geo s) in
  let n := geo_n (rs_geo s) in
  rs_recover env s (Some buf) (Some bits) m =
  if negb (m =? n) then (CODEC_RECOVER_ERR, Some buf, s)
  else if length (present_shards bits n) <? k then (CODEC_RECOVER_UNAVAILABLE, Some buf, s)
  else if (length (present_shards bits n) =? n) || rs_data_shards_present bits k
  then (CODEC_RECOVER_OK, Some buf, s)
  else
    let survivors := take k (present_shards bits n) in
    (CODEC_RECOVER_OK,
     Some (for_ n (fun shard shards => if codec_present_get bits shard then shards
             else repair_shard (rs_generator s)
                    (default [] (matrix_inverse_dyn (select_rows (rs_generator s) survivors) k))
                    survivors k (geo_shard_bytes (rs_geo s)) shard shards) buf), s).
Proof.
  intros Hi Hm He k n. destruct (inv_ready s Hi Hm) as [Ho Hp]. unfold rs_recover. fold n.
  destruct (negb (m =? n)); [done|]. rewrite rs_prepared by done. cbn [Z.eqb negb].
  fold k n. rewrite collect_survivors_spec.
  destruct (Nat.ltb_spec (length (present_shards bits n)) k) as [|Hge]; [done|].
  destruct (length (present_shards bits n) =? n); [done|]. cbn [orb].
  destruct (rs_data_shards_present bits k); [done|].
  destruct (survivors_inverse s bits Hp Hge) as [Hl [inverse Hinv]]. fold k n in Hl, Hinv.
  rewrite Hl, Nat.eqb_refl, Hinv. done.
Qed.

Lemma all_present_data bits k n :
  k <= n -> length (present_shards bits n) = n -> rs_data_shards_present bits k = true.
Proof.
  intros Hk Hl. apply forallb_forall. intros s Hs%in_seq.
  unfold present_shards in Hl. rewrite <- (length_seq n 0) in Hl at 2.
  apply filter_length_forallb in Hl. rewrite forallb_forall in Hl. apply Hl, in_seq. lia.
Qed.

(** In an encoded block the data shards are those of the input. *)
Lemma rs_code_data s d sh b :
  sh < geo_k (rs_geo s) -> b < geo_shard_bytes (rs_geo s) ->
  cell (geo_shard_bytes (rs_geo s)) (rs_code s d) sh b = cell (geo_shard_bytes (rs_geo s)) d sh b.
Proof.
  intros Hsh Hb. unfold rs_code, encode_ref. rewrite cell_of_cells by lia. unfold code_byte.
  by rewrite (proj2 (Nat.ltb_lt sh _)).
Qed.

Lemma rs_recover_ready env s d buf bits :
  rs_inv s -> rs_matrix_ready s = true -> env_once env = true ->
  let k := geo_k (rs_geo s) in
  let n := geo_n (rs_geo s) in
  let sb := geo_shard_bytes (rs_geo s) in
  length buf = rs_block_size s ->
  (forall sh b, sh < n -> b < sb -> codec_present_get bits sh = true ->
     cell sb buf sh b = cell sb (rs_code s d) sh b) ->
  k <= length (present_shards bits n) ->
  rs_recover env s (Some buf) (Some bits) n =
  (CODEC_RECOVER_OK,
   Some (if rs_data_shards_present bits k then buf else rs_code s d), s).
Proof.
  intros Hi Hm He k n sb Hl Hc Hk. destruct (inv_ready s Hi Hm) as [_ Hp].
  rewrite rs_recover_cases by done. fold k n sb. rewrite Nat.eqb_refl. cbn [negb].
  rewrite (proj2 (Nat.ltb_ge _ k)) by done.
  destruct (rs_data_shards_present bits k) eqn:Hd; [by rewrite orb_true_r|].
  rewrite orb_false_r. destruct (Nat.eqb_spec (length (present_shards bits n)) n) as [E|_].
  { rewrite (all_present_data bits k n) in Hd by (try done; unfold k, n; rewrite (pub_n s Hp); lia).
    done. }
  destruct (survivors_inverse s bits Hp Hk) as [Hls [inverse Hinv]]. fold k n in Hls, Hinv.
  cbv zeta. rewrite Hinv. cbn [default from_option id]. do 3 f_equal. by apply repair_all.
Qed.
