(* ===== verification/RsTheorems.v ===== *)
(** * The theorems of the Reed-Solomon codec

    Each is proved from the lemmas of RsMatrix, RsEncode, RsCodecSpec and RsRecover. *)

From Stdlib Require Import Strings.Byte.
From S2P Require Import Prelude Gf256 ByteVec RsMatrix RsGenerator RsSimd RsEncode Codec RsCodec.
From S2P Require Import RsCodecSpec RsRecover.

#[local] Opaque PKG_SIZE gsum build_gf_mul_table.

(** ** A concrete codec for the witnesses: RS(3,2) with shards of two bytes *)

Definition demo_env : RsEnv := mkRsEnv true true true (fun _ => 0%Z) (mkCpu true false true).
Definition demo_state : RsState := snd (RsCodec_set_params_ex demo_env 2 1 2 rs_start).

Lemma demo_reachable : rs_reachable demo_state.
Proof. apply rtc_once. by apply step_set_params. Qed.

Lemma demo_ready : rs_matrix_ready demo_state = true.
Proof. vm_compute. reflexivity. Qed.

Lemma demo_size : rs_block_size demo_state = 6.
Proof. vm_compute. reflexivity. Qed.

(** ** Recovery *)

(** C20: Any [k] of the [n] shards restore a block.  A block encoded by one reachable codec state
    and received by another with the same geometry, on whatever CPUs and with whatever encoder
    selected: if the buffer agrees with the encoded block on the shards marked present and at
    least [k] shards are present, [rs_recover] returns OK and the data shards of the buffer are
    those that were encoded; when a data shard was missing the whole encoded block is rebuilt,
    and when none was the buffer is left as it is. *)
Theorem rs_recover_restores_block (env1 env2 : RsEnv) (s1 s2 : RsState) (d : list byte) :
  rs_reachable s1 -> rs_reachable s2 ->
  rs_matrix_ready s1 = true -> rs_matrix_ready s2 = true -> rs_geo s1 = rs_geo s2 ->
  env_once env1 = true -> env_once env2 = true -> length d = rs_block_size s1 ->
  let k := geo_k (rs_geo s1) in
  let n := geo_n (rs_geo s1) in
  let sb := geo_shard_bytes (rs_geo s1) in
  exists e,
    fst (rs_encode env1 s1 (Some d) (n * sb)) = Some e /\ length e = n * sb /\
    forall buf bits,
      length buf = n * sb ->
      (forall sh b, sh < n -> b < sb -> codec_present_get bits sh = true ->
         cell sb buf sh b = cell sb e sh b) ->
      k <= length (present_shards bits n) ->
      exists buf',
        rs_recover env2 s2 (Some buf) (Some bits) n = (CODEC_RECOVER_OK, Some buf', s2) /\
        (forall sh b, sh < k -> b < sb -> cell sb buf' sh b = cell sb d sh b) /\
        (rs_data_shards_present bits k = false -> buf' = e) /\
        (rs_data_shards_present bits k = true -> buf' = buf).
Proof.
  intros Hr1 Hr2 Hm1 Hm2 Hgeo He1 He2 Hd k n sb.
  apply rs_reachable_inv in Hr1, Hr2.
  destruct (inv_ready s1 Hr1 Hm1) as [_ Hp1]. destruct (inv_ready s2 Hr2 Hm2) as [_ Hp2].
  assert (Hgen : rs_generator s2 = rs_generator s1).
  { pose proof (pub_generator s1 Hp1) as H1. pose proof (pub_generator s2 Hp2) as H2.
    rewrite Hgeo in H1. congruence. }
  assert (Hcode : rs_code s2 d = rs_code s1 d) by (unfold rs_code; by rewrite Hgen, Hgeo).
  exists (rs_code s1 d). split_and!.
  - by apply rs_encode_code.
  - unfold rs_code, encode_ref. rewrite length_of_cells. unfold n. by rewrite (pub_n s1 Hp1).
  - intros buf bits Hl Hc Hk. eexists. split_and!.
    + unfold n, k, sb in *. rewrite Hgeo in *. rewrite (rs_recover_ready env2 s2 d); try done.
      by rewrite Hcode.
    + intros sh b Hsh Hb. destruct (rs_data_shards_present bits _) eqn:Hdp.
      * rewrite Hc; [by apply rs_code_data| |done|].
        -- unfold n. rewrite (pub_n s1 Hp1). lia.
        -- unfold rs_data_shards_present in Hdp. rewrite forallb_forall in Hdp.
           apply Hdp, in_seq. rewrite <- Hgeo. lia.
      * rewrite Hcode. by apply rs_code_data.
    + unfold k. rewrite Hgeo. by intros ->.
    + unfold k. rewrite Hgeo. by intros ->.
Qed.

Lemma rs_recover_restores_block_witness :
  exists e buf',
    fst (rs_encode demo_env demo_state (Some [x01; x02; x03; x04; x00; x00]) 6) = Some e /\
    rs_recover demo_env demo_state (Some (<[0 := xff]> (<[1 := xff]> e))) (Some [x06]) 3 =
    (CODEC_RECOVER_OK, Some buf', demo_state) /\ buf' = e.
Proof.
  destruct (rs_recover_restores_block demo_env demo_env demo_state demo_state
              [x01; x02; x03; x04; x00; x00] demo_reachable demo_reachable demo_ready demo_ready
              eq_refl eq_refl eq_refl ltac:(vm_compute; reflexivity)) as (e & He & Hlen & Hrec).
  assert (Hl6 : length e = 6) by (rewrite Hlen; vm_compute; reflexivity).
  destruct (Hrec (<[0 := xff]> (<[1 := xff]> e)) [x06]) as (buf' & Hb & _ & Hall & _).
  - rewrite !length_insert. exact Hlen.
  - change (geo_n (rs_geo demo_state)) with 3. change (geo_shard_bytes (rs_geo demo_state)) with 2.
    intros [|sh] b Hsh Hb Hp; [discriminate Hp|].
    unfold cell. rewrite !get_insert by (rewrite ?length_insert; lia).
    repeat case_decide; lia || reflexivity.
  - vm_compute. lia.
  - exists e, buf'. split; [exact He|]. split; [exact Hb|]. apply Hall. vm_compute. reflexivity.
Defined.

(** [rs_recover] classifies every call.  In a ready state of a reachable codec the status is
    ERR exactly when the shard count is not that of the geometry, UNAVAILABLE exactly when fewer
    than [k] shards are present, and OK otherwise: the inversion of the survivors' matrix never
    fails.  The buffer changes only when the status is OK and a data shard is missing, and the
    state never changes. *)
Theorem rs_recover_status (env : RsEnv) (s : RsState) (buf bits : list byte) (m : nat) :
  rs_reachable s -> rs_matrix_ready s = true -> env_once env = true ->
  let k := geo_k (rs_geo s) in
  let n := geo_n (rs_geo s) in
  let '(status, buf', s') := rs_recover env s (Some buf) (Some bits) m in
  status = (if negb (m =? n) then CODEC_RECOVER_ERR
            else if length (present_shards bits n) <? k then CODEC_RECOVER_UNAVAILABLE
            else CODEC_RECOVER_OK) /\
  s' = s /\
  (status <> CODEC_RECOVER_OK \/ rs_data_shards_present bits k = true -> buf' = Some buf).
Proof.
  intros Hr Hm He k n. apply rs_reachable_inv in Hr.
  rewrite rs_recover_cases by done. fold k n.
  destruct (negb (m =? n)); [by split_and!|].
  destruct (length (present_shards bits n) <? k); [by split_and!|].
  destruct (_ || rs_data_shards_present bits k) eqn:E; [by split_and!|].
  apply orb_false_iff in E as [_ E]. split; [done|]. split; [done|].
  intros [?|Hp]; [done|congruence].
Qed.

Lemma rs_recover_status_witness :
  let '(status, _, _) := rs_recover demo_env demo_state (Some (replicate 6 x00)) (Some [x02]) 3 in
  status = CODEC_RECOVER_UNAVAILABLE.
Proof.
  pose proof (rs_recover_status demo_env demo_state (replicate 6 x00) [x02] 3
                demo_reachable demo_ready eq_refl) as H.
  destruct (rs_recover demo_env demo_state _ _ 3) as [[status buf'] s'].
  destruct H as [H _]. rewrite H. vm_compute. reflexivity.
Defined.

(** ** Encoding *)

(** C21: All encoders agree.  For a reachable, ready codec the encoded block is the one the
    generator of the geometry defines (data shards copied, parity byte [j] the sum of the products
    of row [k + j] with the data bytes), whichever of the table, SIMD (AVX2, SSSE3), 16+2, legacy
    or rscode encoders the configuration and the CPU select; so two codecs with one geometry
    produce the same bytes.  The call leaves geometry, generator and plan as they were. *)
Theorem rs_encoders_agree (env1 env2 : RsEnv) (s1 s2 : RsState) (d : list byte) :
  rs_reachable s1 -> rs_reachable s2 ->
  rs_matrix_ready s1 = true -> rs_matrix_ready s2 = true -> rs_geo s1 = rs_geo s2 ->
  env_once env1 = true -> env_once env2 = true -> length d = rs_block_size s1 ->
  fst (rs_encode env1 s1 (Some d) (rs_block_size s1)) =
    Some (encode_ref (geo_shard_bytes (rs_geo s1)) (geo_k (rs_geo s1)) (geo_r (rs_geo s1))
            (rs_generator s1) d) /\
  fst (rs_encode env2 s2 (Some d) (rs_block_size s2)) =
    fst (rs_encode env1 s1 (Some d) (rs_block_size s1)) /\
  same_codec s1 (snd (rs_encode env1 s1 (Some d) (rs_block_size s1))).
Proof.
  intros Hr1 Hr2 Hm1 Hm2 Hgeo He1 He2 Hd. apply rs_reachable_inv in Hr1, Hr2.
  destruct (inv_ready s1 Hr1 Hm1) as [_ Hp1]. destruct (inv_ready s2 Hr2 Hm2) as [_ Hp2].
  destruct (rs_encode_code env1 s1 d Hr1 Hm1 He1 Hd) as [H1 Hs].
  assert (Hd2 : length d = rs_block_size s2) by (rewrite Hd; unfold rs_block_size; by rewrite Hgeo).
  destruct (rs_encode_code env2 s2 d Hr2 Hm2 He2 Hd2) as [H2 _].
  split_and!; try done. rewrite H1, H2. f_equal. unfold rs_code. rewrite Hgeo. f_equal.
  pose proof (pub_generator s1 Hp1) as G1. pose proof (pub_generator s2 Hp2) as G2.
  rewrite Hgeo in G1. congruence.
Qed.

Definition demo_legacy : RsState := RsCodec_set_encode_impl (Some RS_ENCODE_LEGACY) demo_state.

Lemma rs_encoders_agree_witness :
  fst (rs_encode demo_env demo_legacy (Some [x01; x02; x03; x04; x00; x00]) 6) =
  fst (rs_encode demo_env demo_state (Some [x01; x02; x03; x04; x00; x00]) 6).
Proof.
  apply (rs_encoders_agree demo_env demo_env demo_state demo_legacy
           [x01; x02; x03; x04; x00; x00]).
  - exact demo_reachable.
  - apply (rtc_r _ demo_state); [exact demo_reachable|apply step_set_impl].
  - exact demo_ready.
  - vm_compute. reflexivity.
  - vm_compute. reflexivity.
  - reflexivity.
  - reflexivity.
  - vm_compute. reflexivity.
Defined.

(** ** Elimination *)

(** [matrix_inverse_dyn] inverts exactly the matrices with a trivial kernel.  For the sizes it
    accepts, it returns a matrix if and only if the input maps no nonzero vector to zero; the
    returned matrix is then a left inverse, and outside those sizes it returns nothing. *)
Theorem matrix_inverse_dyn_correct (m : list (list byte)) (k : nat) :
  (0 < k < RS_ABS_MAX_SHARDS ->
     (is_Some (matrix_inverse_dyn m k) <-> kernel_trivial k m)) /\
  (k = 0 \/ RS_ABS_MAX_SHARDS <= k -> matrix_inverse_dyn m k = None) /\
  forall inverse, matrix_inverse_dyn m k = Some inverse ->
    forall v i, i < k ->
      gsum k (fun j => gf_mul (mget inverse i j) (gsum k (fun t => gf_mul (mget m j t) (v t)))) =
      v i.
Proof.
  split_and!.
  - intros Hk. split; [apply kernel_of_inverse|by apply matrix_inverse_total].
  - intros Hk. unfold matrix_inverse_dyn.
    destruct (Nat.eqb_spec k 0), (Nat.leb_spec RS_ABS_MAX_SHARDS k); simpl; done || lia.
  - intros inverse Hi v i Hlt. by apply matrix_inverse_left.
Qed.

(** ** Configuration *)

(** Configuration succeeds for every valid geometry.  When the parameters are valid, their sum
    is a [size_t] and the allocations succeed, [RsCodec_set_params_ex] returns 0 and leaves the
    codec ready with the requested geometry (1400-byte shards when the size given is 0), its
    generator and a plan with both product tables; in any case what it leaves is a state of the
    invariant. *)
Theorem rs_set_params_configures (env : RsEnv) (k r sb : Z) (s : RsState) :
  rs_reachable s -> (0 <= k)%Z -> (0 <= r)%Z -> (k + r < 2 ^ 64)%Z ->
  env_once env = true -> env_malloc_nibble env = true -> env_malloc_table env = true ->
  let sb' := if (sb =? 0)%Z then Z.of_nat PKG_SIZE else sb in
  params_valid k r sb' = true ->
  let '(rc, s') := RsCodec_set_params_ex env k r sb s in
  rc = 0%Z /\ rs_matrix_ready s' = true /\ published s' /\
  rs_geo s' = mkRsGeometry (Z.to_nat k) (Z.to_nat r) (Z.to_nat k + Z.to_nat r) (Z.to_nat sb').
Proof.
  intros Hreach Hk Hr Hn He Hm1 Hm2 sb' Hv. apply rs_reachable_inv in Hreach as Hi.
  unfold RsCodec_set_params_ex. fold sb'. rewrite Hv. cbn [negb].
  destruct (params_valid_ok k r sb' Hk Hr Hn Hv) as (Hk1 & Hr1 & Hn1 & Hsb & _).
  destruct (rs_ready env s) as [ready s1] eqn:Hready.
  assert (ready = true) as -> by (unfold rs_ready in Hready; rewrite He in Hready;
    repeat case_match; simplify_eq; done).
  pose proof (rs_ready_inv _ _ _ _ Hready Hi) as Hi1.
  pose proof (rs_ready_done _ _ _ Hready) as Hdone. destruct (inv_table s1 Hi1 Hdone) as [Ht Htr].
  cbn [negb]. destruct (_ && initialized _) eqn:Esame.
  - rewrite !andb_true_iff, !Z.eqb_eq in Esame. destruct Esame as [[[[Ek Er] Esb] Em] _].
    destruct (inv_ready s1 Hi1 Em) as [_ Hp]. split_and!; try done.
    pose proof (pub_n s1 Hp) as Hpn. destruct (rs_geo s1) as [k1 r1 n1 sb1]. cbn in *.
    subst. f_equal; lia.
  - set (s2 := with_geo _ s1).
    assert (Hgeo : rs_geo s2 = mkRsGeometry (Z.to_nat k) (Z.to_nat r) (Z.to_nat k + Z.to_nat r)
                                 (Z.to_nat sb')).
    { unfold s2. cbn. f_equal. rewrite u64_small by (unfold in_range; lia). lia. }
    pose proof (publish_inv env (Z.to_nat k) (Z.to_nat r) (Z.to_nat sb') s2) as Hpub.
    assert (Hbuilt : exists s', publish env (Z.to_nat k) (Z.to_nat r) s2 = Some s').
    { unfold publish, rs_rebuild. change (rs_geo (count one_rebuild s2)) with (rs_geo s2).
      rewrite Hgeo. cbn [geo_k geo_r].
      destruct (rebuild_generator_total (Z.to_nat k) (Z.to_nat r)) as [G HG]; [lia|]. rewrite HG.
      unfold rs_build_plan. cbn -[rs_encode_plan_build]. rewrite Ht, Htr, Hm1, Hm2.
      destruct (plan_build_total G (Z.to_nat sb') (Z.to_nat k) (Z.to_nat r)) as [plan Hplan];
        [lia|by rewrite !Z2Nat.id by lia|]. rewrite Hplan. eauto. }
    destruct Hbuilt as [s' Hs']. destruct (Hpub s' Ht Htr Hgeo ltac:(lia) Hs')
      as (Hp & Hm & _ & _ & _ & Hg'). unfold publish in Hs'.
    destruct (rs_rebuild s2) as [ok s3].
    destruct (if ok then rs_build_plan env _ _ s3 else None); simplify_eq.
    split_and!; try done. by rewrite Hg'.
Qed.

Lemma rs_set_params_configures_witness :
  let '(rc, s') := RsCodec_set_params_ex demo_env 16 2 0 rs_start in
  rc = 0%Z /\ rs_matrix_ready s' = true.
Proof.
  pose proof (rs_set_params_configures demo_env 16 2 0 rs_start (rtc_refl _ _)
                ltac:(lia) ltac:(lia) ltac:(lia) eq_refl eq_refl eq_refl
                ltac:(vm_compute; reflexivity)) as H.
  destruct (RsCodec_set_params_ex demo_env 16 2 0 rs_start) as [rc s'].
  destruct H as (H1 & H2 & _). split; assumption.
Defined.

(** Valid parameters stay in bounds.  If [params_valid] accepts [size_t] counts whose sum does
    not wrap, there are between 1 and 254 data and parity shards, at most 255 in all, shard sizes
    fit 16 bits and the block fits [CODEC_MAX_ENCODE_BLOCK]; the size of the product table is
    computed without overflow and is below its cap, every Cauchy denominator is nonzero, and every
    byte of every shard is inside the block. *)
Theorem params_valid_bounds (k r sb : Z) :
  (0 <= k)%Z -> (0 <= r)%Z -> (k + r < 2 ^ 64)%Z -> params_valid k r sb = true ->
  (1 <= k <= 254)%Z /\ (1 <= r <= 254)%Z /\ (k + r <= 255)%Z /\ (1 <= sb <= 65535)%Z /\
  ((k + r) * sb <= CODEC_MAX_ENCODE_BLOCK)%Z /\
  rs_encode_mul_table_bytes k r = Some (k * r * 256)%Z /\
  (k * r * 256 <= RS_ENCODE_MUL_TABLE_MAX_BYTES)%Z /\
  (forall row column, (0 <= row < r)%Z -> (0 <= column < k)%Z ->
     is_Some (cauchy_entry (Z.to_nat r) (Z.to_nat row) (Z.to_nat column))) /\
  (forall shard byte, (0 <= shard < k + r)%Z -> (0 <= byte < sb)%Z ->
     (0 <= shard * sb + byte < (k + r) * sb)%Z).
Proof.
  intros Hk Hr Hn Hv. destruct (params_valid_ok k r sb Hk Hr Hn Hv) as (Hk1 & Hr1 & Hn1 & Hsb & Hb).
  destruct (mul_table_bytes (Z.to_nat k) (Z.to_nat r)) as [Ht Hcap]; [lia..|].
  rewrite !Z2Nat.id in Ht by lia.
  assert (Hprod : Z.of_nat (Z.to_nat k * Z.to_nat r * 256) = (k * r * 256)%Z) by lia.
  rewrite Hprod in Ht, Hcap. split_and!; try lia; try done.
  - intros row column Hrow Hcol. apply cauchy_entry_total; lia.
  - intros shard byte Hs Hbyte. nia.
Qed.

Lemma params_valid_bounds_witness :
  params_valid 127 128 1400 = true /\ (127 * 128 * 256 <= RS_ENCODE_MUL_TABLE_MAX_BYTES)%Z.
Proof.
  split; [vm_compute; reflexivity|].
  apply (params_valid_bounds 127 128 1400); [lia..|vm_compute; reflexivity].
Defined.

(** The sum of the two counts is not checked for overflow: [SIZE_MAX] data shards and two parity
    shards wrap to one shard and are accepted. *)
Lemma params_valid_wraps : params_valid (2 ^ 64 - 1) 2 1400 = true.
Proof. vm_compute. reflexivity. Qed.
