(* ===== verification/CodecInterface.v ===== *)
(** * What a codec promises to its clients

    [ErasureCodec] is the contract the reassembly code relies on: constant geometry, a systematic
    layout, and recovery of the data shards from any [k] shards of a code word.  The none, copy,
    XOR and Reed-Solomon codecs implement it. *)

From Stdlib Require Import Strings.Byte.
From S2P Require Import Prelude Gf256 ByteVec RsMatrix RsGenerator RsSimd RsEncode Codec CodecSpec.
From S2P Require Import RsCodec RsCodecSpec RsRecover.

#[local] Opaque PKG_SIZE gsum build_gf_mul_table.

(** [buf] agrees with the block [e] on the present shards. *)
Definition agrees (n : nat) (bits buf e : list byte) : Prop :=
  forall s b, s < n -> b < PKG_SIZE -> codec_present_get bits s = true ->
    cell PKG_SIZE buf s b = cell PKG_SIZE e s b.

(** [ok] are the states of a configured codec, [code] its code words. *)
Class ErasureCodec {St : Type} (codec : option (CodecVTable St)) (ok : St -> Prop) (k r : nat)
    (code : list byte -> Prop) : Prop := {
  ec_some : is_Some codec;
  ec_k : 1 <= k;
  ec_n : k + r <= 255;
  ec_data_shards st : ok st -> Codec_data_shards codec st = (k, st);
  ec_parity_shards st : ok st -> Codec_parity_shards codec st = (r, st);
  ec_systematic st : ok st -> Codec_is_systematic codec st = (1%Z, st);
  ec_best_effort st : ok st -> Codec_allows_best_effort codec st = (1%Z, st);
  ec_input st : ok st -> Codec_input_block_size codec st = (k * PKG_SIZE, st);
  ec_decode st d len : ok st -> Codec_decode codec st d len = (d, st);
  ec_length e : code e -> length e = (k + r) * PKG_SIZE;
  ec_recover st e buf bits :
    ok st -> code e -> length buf = length e -> agrees (k + r) bits buf e ->
    k <= length (present_shards bits (k + r)) ->
    forallb (codec_present_get bits) (seq 0 k) = false ->
    exists buf',
      Codec_recover codec st (Some buf) (Some bits) (k + r) = (CODEC_RECOVER_OK, Some buf', st) /\
      length buf' = length buf /\
      forall s b, s < k -> b < PKG_SIZE -> cell PKG_SIZE buf' s b = cell PKG_SIZE e s b
}.

(** Without parity shards every shard is needed, and then none is missing. *)
Lemma no_parity_vacuous bits k :
  k <= length (present_shards bits k) -> forallb (codec_present_get bits) (seq 0 k) = false -> False.
Proof.
  intros Hk Hf. pose proof (all_present_data bits k k (Nat.le_refl k)) as H.
  unfold rs_data_shards_present in H. rewrite H in Hf; [done|].
  pose proof (filter_length_le (codec_present_get bits) (seq 0 k)) as Hle.
  rewrite length_seq in Hle. unfold present_shards in *. lia.
Qed.

#[export] Instance none_erasure {St : Type} :
  ErasureCodec (Some (@none_codec_vtable St)) (fun _ => True) 1 0
    (fun e => length e = (1 + 0) * PKG_SIZE).
Proof.
  split; try done; try (intros; cbn; f_equal; lia); try lia.
  intros st e buf bits _ _ _ _ Hk Hf. by destruct (no_parity_vacuous bits 1).
Qed.

#[export] Instance copy_erasure {St : Type} :
  ErasureCodec (Some (@copy_codec_vtable St)) (fun _ => True) 4 0
    (fun e => length e = (4 + 0) * PKG_SIZE).
Proof.
  split; try done; try lia.
  intros st e buf bits _ _ _ _ Hk Hf. by destruct (no_parity_vacuous bits 4).
Qed.

#[export] Instance xor_erasure {St : Type} :
  ErasureCodec (Some (@xor_fec_codec_vtable St)) (fun _ => True) 4 1 xor_closed.
Proof.
  split; try done; try lia.
  - by intros e [He _].
  - intros st e buf bits _ He Hl Hag Hk Hf. exists e. split; [|done].
    unfold Codec_recover. cbn [vt_recover xor_fec_codec_vtable].
    change (4 + 1) with XOR_FEC_SHARD_COUNT in *.
    rewrite (proj2 (Nat.eqb_neq XOR_FEC_SHARD_COUNT 0)) by (unfold XOR_FEC_SHARD_COUNT; done).
    unfold xor_fec_recover. rewrite Nat.eqb_refl. cbn [negb].
    rewrite (XorFecCodec_recover_one_spec buf e) by done.
    assert (Hm : missing_count (codec_present_get bits) XOR_FEC_SHARD_COUNT <= 1).
    { unfold missing_count, present_shards in *.
      pose proof (filter_length (codec_present_get bits) (seq 0 XOR_FEC_SHARD_COUNT)) as Hsum.
      rewrite length_seq in Hsum. change XOR_FEC_SHARD_COUNT with 5 in *. lia. }
    rewrite (proj2 (Nat.leb_le _ 1)) by done. by destruct (_ =? 0).
Qed.

(** A configured Reed-Solomon codec with 1400-byte shards. *)
Definition rs_configured (k r : nat) (s : RsState) : Prop :=
  rs_reachable s /\ rs_matrix_ready s = true /\ rs_geo s = mkRsGeometry k r (k + r) PKG_SIZE.

(** The code words of the geometry. *)
Definition rs_codeword (k r : nat) (e : list byte) : Prop :=
  exists G d, rebuild_generator k r = Some G /\ e = encode_ref PKG_SIZE k r G d.

Lemma rs_erasure env k r :
  env_once env = true -> 1 <= k -> k + r <= 255 ->
  ErasureCodec (Some (rs_vtable env)) (rs_configured k r) k r (rs_codeword k r).
Proof.
  intros He Hk Hn.
  assert (Hready : forall s, rs_configured k r s -> rs_ready env s = (true, s)).
  { intros s (Hr & Hm & _). apply rs_ready_ready; [done|].
    apply rs_reachable_inv in Hr. by apply (inv_ready s Hr Hm). }
  assert (Hq : forall f s, rs_configured k r s -> rs_query env f s = (f (rs_geo s), s)).
  { intros f s Hs. unfold rs_query. by rewrite Hready. }
  split; try done.
  - intros s Hs. unfold Codec_data_shards, query. cbn [vt_data_shards rs_vtable].
    rewrite Hq by done. destruct Hs as (_ & _ & ->). done.
  - intros s Hs. unfold Codec_parity_shards, query. cbn [vt_parity_shards rs_vtable].
    rewrite Hq by done. destruct Hs as (_ & _ & ->). done.
  - intros s Hs. unfold Codec_input_block_size, query. cbn [vt_input_block_size rs_vtable].
    rewrite Hq by done. destruct Hs as (_ & _ & ->). done.
  - intros e (G & d & _ & ->). apply length_of_cells.
  - intros s e buf bits Hs (G & d & HG & ->) Hl Hag Hp Hf.
    destruct Hs as (Hr & Hm & Hgeo). apply rs_reachable_inv in Hr.
    destruct (inv_ready s Hr Hm) as [_ Hpub].
    assert (HGs : rs_generator s = G).
    { pose proof (pub_generator s Hpub) as H. rewrite Hgeo in H. cbn in H. congruence. }
    assert (Hcode : encode_ref PKG_SIZE k r G d = rs_code s d)
      by (unfold rs_code; by rewrite Hgeo, HGs).
    exists (rs_code s d). unfold Codec_recover. cbn [vt_recover rs_vtable].
    rewrite (proj2 (Nat.eqb_neq (k + r) 0)) by lia.
    split.
    + pose proof (rs_recover_ready env s d buf bits Hr Hm He) as H. rewrite Hgeo in H.
      cbn in H. unfold rs_data_shards_present in H. rewrite Hf in H. apply H.
      * rewrite Hl. unfold encode_ref. rewrite length_of_cells. unfold rs_block_size.
        by rewrite Hgeo.
      * rewrite <- Hcode. exact Hag.
      * done.
    + rewrite <- Hcode. split; [by symmetry|done].
Qed.
