(* ===== verification/WireDecoder.v ===== *)
(** * Per-flow reassembly: src/apps/wg_multi_pipeline/wire_flow_decoder.c

    The decoder keeps a window of 128 shard groups, recovers each one through the codec interface
    and writes blocks out in order.  A [WireGroup *] is an index into the group array; the codec
    is reached only through the dispatchers of codec.c, and its state is threaded through.

    The output callback is a function of the environment: [out_ok i] says whether the [i]-th call
    returns 0; the chunks passed to it are collected in [d_outputs].  [clock i] is the [i]-th
    reading of [realtime_nanoseconds], [calloc_ok] and [realloc_ok] tell whether the allocations
    succeed.  The [assert]s hold by the guards before them. *)

From Stdlib Require Import Strings.Byte.
From S2P Require Import Prelude WireHeader Gf256 ByteVec RsEncode Codec.

Definition WIRE_FLOW_GROUP_WINDOW : nat := 128.
(** [CODEC_MAX_ENCODE_BLOCK / PKG_SIZE] *)
Definition WIRE_FLOW_MAX_SHARDS : nat := 255.

Inductive WireGroupState :=
| WIRE_GROUP_EMPTY | WIRE_GROUP_ACTIVE | WIRE_GROUP_RECOVERED | WIRE_GROUP_EMITTED
| WIRE_GROUP_FAILED.

#[export] Instance WireGroupState_eq_dec : EqDecision WireGroupState.
Proof. solve_decision. Defined.

Record WireGroup := mkWireGroup {
  g_state : WireGroupState;
  g_block_id : Z;
  g_shard_count : nat;
  g_valid_len : nat;
  g_received_bits : option (list byte);
  g_encode_begin_ns : Z;
  g_encode_end_ns : Z;
  g_timing_valid : bool;
  g_data : option (list byte);
  g_last_recovery_count : nat }.

Inductive WireRecoverResult := WIRE_RECOVER_PENDING | WIRE_RECOVER_OK | WIRE_RECOVER_FAILED.

#[export] Instance WireRecoverResult_eq_dec : EqDecision WireRecoverResult.
Proof. solve_decision. Defined.

Record LatencySample := mkLatencySample {
  encode_ns : Z; transfer_ns : Z; decode_ns : Z; end_to_end_ns : Z; jitter_ns : Z }.

Record LatencyStats := mkLatencyStats {
  samples : list LatencySample;
  capacity : Z;
  invalid_samples : Z;
  have_previous_delay : bool;
  previous_delay_ns : Z;
  disabled : bool }.

(** The counters of [WireFlowDecoderStats]. *)
Inductive WireStat :=
| output_bytes | seen_datagrams | received_datagrams | duplicate_datagrams | late_datagrams
| malformed_datagrams | dropped_groups | recovered_groups | missing_data_shards | decoded_blocks
| groups_received | groups_recovered | groups_emitted | groups_failed | window_overflow
| skipped_groups | pending_recovered_groups.

#[export] Instance WireStat_eq_dec : EqDecision WireStat.
Proof. solve_decision. Defined.

Definition WireFlowDecoderStats : Type := WireStat -> Z.

(** [stats.field += n] and [stats.field = v] *)
Definition bump (c : WireStat) (n : Z) (s : WireFlowDecoderStats) : WireFlowDecoderStats :=
  fun x => if decide (x = c) then u64 (s x + n) else s x.
Definition assign (c : WireStat) (v : Z) (s : WireFlowDecoderStats) : WireFlowDecoderStats :=
  fun x => if decide (x = c) then v else s x.

Record WireFlowDecoder (St : Type) := mkWireFlowDecoder {
  d_complete : bool;
  d_expected_shards : Z;
  d_best_effort : bool;
  d_input_size : Z;
  d_groups : list WireGroup;
  d_next_emit_block : Z;
  d_end_block_count : Z;
  d_end_seen : bool;
  d_stats : WireFlowDecoderStats;
  d_latency : LatencyStats;
  d_codec_state : St;
  d_outputs : list (list byte) }.
Arguments mkWireFlowDecoder {St}.
Arguments d_complete {St}.
Arguments d_expected_shards {St}.
Arguments d_best_effort {St}.
Arguments d_input_size {St}.
Arguments d_groups {St}.
Arguments d_next_emit_block {St}.
Arguments d_end_block_count {St}.
Arguments d_end_seen {St}.
Arguments d_stats {St}.
Arguments d_latency {St}.
Arguments d_codec_state {St}.
Arguments d_outputs {St}.

(** ** Groups *)

(** [release_group]: both buffers freed, the slot zeroed. *)
Definition release_group : WireGroup :=
  mkWireGroup WIRE_GROUP_EMPTY 0 0 0 None 0 0 false None 0.

Definition group_at (groups : list WireGroup) (i : nat) : WireGroup :=
  nth i groups release_group.

(** Index of the first group that satisfies [f]. *)
Fixpoint first_index (f : WireGroup -> bool) (groups : list WireGroup) : option nat :=
  match groups with
  | [] => None
  | g :: rest => if f g then Some 0 else option_map S (first_index f rest)
  end.

Definition find_group (groups : list WireGroup) (block_id : Z) : option nat :=
  first_index (fun g => negb (bool_decide (g_state g = WIRE_GROUP_EMPTY)) &&
                        (g_block_id g =? block_id)%Z) groups.

Definition is_empty_slot (g : WireGroup) : bool := bool_decide (g_state g = WIRE_GROUP_EMPTY).

Definition window_has_empty_slot (groups : list WireGroup) : bool := existsb is_empty_slot groups.

(** [allocate_group]: the slot it filled and the new array. *)
Definition allocate_group (calloc_ok : bool) (groups : list WireGroup) (block_id : Z)
    (shard_count valid_len : nat) (encode_begin_ns encode_end_ns : Z) :
    option (nat * list WireGroup) :=
  if (shard_count =? 0) || (WIRE_FLOW_MAX_SHARDS <? shard_count) then None
  else if negb calloc_ok then None
  else
    match first_index is_empty_slot groups with
    | None => None
    | Some index =>
        Some (index,
          <[index := mkWireGroup WIRE_GROUP_ACTIVE block_id shard_count valid_len
                       (Some (replicate (codec_present_bytes shard_count) x00))
                       encode_begin_ns encode_end_ns
                       (negb (encode_begin_ns =? 0)%Z && (encode_end_ns >=? encode_begin_ns)%Z)
                       (Some (replicate (shard_count * PKG_SIZE) x00)) 0]> groups)
    end.

Definition group_all_shards_present (g : WireGroup) : bool :=
  match g_received_bits g with
  | None => false
  | Some bits =>
      if (g_shard_count g =? 0) || (WIRE_FLOW_MAX_SHARDS <? g_shard_count g) then false
      else forallb (codec_present_get bits) (seq 0 (g_shard_count g))
  end.

Definition group_received_count (g : WireGroup) : nat :=
  match g_received_bits g with
  | None => 0
  | Some bits => length (List.filter (codec_present_get bits) (seq 0 (g_shard_count g)))
  end.

(** Assignments to fields of a group. *)
Definition with_state (st : WireGroupState) (g : WireGroup) : WireGroup :=
  mkWireGroup st (g_block_id g) (g_shard_count g) (g_valid_len g) (g_received_bits g)
    (g_encode_begin_ns g) (g_encode_end_ns g) (g_timing_valid g) (g_data g)
    (g_last_recovery_count g).
Definition with_bits (bits : option (list byte)) (g : WireGroup) : WireGroup :=
  mkWireGroup (g_state g) (g_block_id g) (g_shard_count g) (g_valid_len g) bits
    (g_encode_begin_ns g) (g_encode_end_ns g) (g_timing_valid g) (g_data g)
    (g_last_recovery_count g).
Definition with_data (data : option (list byte)) (g : WireGroup) : WireGroup :=
  mkWireGroup (g_state g) (g_block_id g) (g_shard_count g) (g_valid_len g) (g_received_bits g)
    (g_encode_begin_ns g) (g_encode_end_ns g) (g_timing_valid g) data (g_last_recovery_count g).
Definition with_last_count (n : nat) (g : WireGroup) : WireGroup :=
  mkWireGroup (g_state g) (g_block_id g) (g_shard_count g) (g_valid_len g) (g_received_bits g)
    (g_encode_begin_ns g) (g_encode_end_ns g) (g_timing_valid g) (g_data g) n.

(** ** Latency samples *)

Definition UINT64_MAX : Z := 2 ^ 64 - 1.
(** [sizeof(LatencySample)] *)
Definition LATENCY_SAMPLE_SIZE : Z := 40.

Definition latency_stats_add (realloc_ok : bool) (stats : LatencyStats)
    (encode_begin_ns encode_end_ns ready_ns decode_done_ns : Z) : LatencyStats :=
  if disabled stats then stats
  else if (encode_begin_ns =? 0)%Z || (encode_end_ns <? encode_begin_ns)%Z ||
          (ready_ns <? encode_end_ns)%Z || (decode_done_ns <? ready_ns)%Z
  then mkLatencyStats (samples stats) (capacity stats) (u64 (invalid_samples stats + 1))
         (have_previous_delay stats) (previous_delay_ns stats) (disabled stats)
  else
    let off := mkLatencyStats (samples stats) (capacity stats) (invalid_samples stats)
                 (have_previous_delay stats) (previous_delay_ns stats) true in
    let full := (Z.of_nat (length (samples stats)) =? capacity stats)%Z in
    let new_capacity := if (capacity stats =? 0)%Z then 1024%Z else u64 (capacity stats * 2) in
    if full && ((new_capacity <=? capacity stats)%Z ||
                (new_capacity >? UINT64_MAX / LATENCY_SAMPLE_SIZE)%Z) then off
    else if full && negb realloc_ok then off
    else
      let end_to_end := u64 (decode_done_ns - encode_begin_ns) in
      let jitter :=
        if have_previous_delay stats then
          if (end_to_end >=? previous_delay_ns stats)%Z
          then u64 (end_to_end - previous_delay_ns stats)
          else u64 (previous_delay_ns stats - end_to_end)
        else UINT64_MAX in
      mkLatencyStats
        (samples stats ++
           [mkLatencySample (u64 (encode_end_ns - encode_begin_ns)) (u64 (ready_ns - encode_end_ns))
              (u64 (decode_done_ns - ready_ns)) end_to_end jitter])
        (if full then new_capacity else capacity stats) (invalid_samples stats)
        true end_to_end false.

(** ** The decoder *)

Section Decoder.
Context {St : Type} (codec : option (CodecVTable St)).
Context (out_ok : nat -> bool) (clock : nat -> Z) (realloc_ok : bool).

Abbreviation Dec := (WireFlowDecoder St).

(** Assignments to fields of the decoder. *)
Definition set_groups (gs : list WireGroup) (d : Dec) : Dec :=
  mkWireFlowDecoder (d_complete d) (d_expected_shards d) (d_best_effort d) (d_input_size d) gs
    (d_next_emit_block d) (d_end_block_count d) (d_end_seen d) (d_stats d) (d_latency d)
    (d_codec_state d) (d_outputs d).
Definition set_next (n : Z) (d : Dec) : Dec :=
  mkWireFlowDecoder (d_complete d) (d_expected_shards d) (d_best_effort d) (d_input_size d)
    (d_groups d) n (d_end_block_count d) (d_end_seen d) (d_stats d) (d_latency d)
    (d_codec_state d) (d_outputs d).
Definition set_end (count : Z) (d : Dec) : Dec :=
  mkWireFlowDecoder (d_complete d) (d_expected_shards d) (d_best_effort d) (d_input_size d)
    (d_groups d) (d_next_emit_block d) count true (d_stats d) (d_latency d) (d_codec_state d)
    (d_outputs d).
Definition set_complete (d : Dec) : Dec :=
  mkWireFlowDecoder true (d_expected_shards d) (d_best_effort d) (d_input_size d) (d_groups d)
    (d_next_emit_block d) (d_end_block_count d) (d_end_seen d) (d_stats d) (d_latency d)
    (d_codec_state d) (d_outputs d).
Definition set_stats (s : WireFlowDecoderStats) (d : Dec) : Dec :=
  mkWireFlowDecoder (d_complete d) (d_expected_shards d) (d_best_effort d) (d_input_size d)
    (d_groups d) (d_next_emit_block d) (d_end_block_count d) (d_end_seen d) s (d_latency d)
    (d_codec_state d) (d_outputs d).
Definition set_latency (l : LatencyStats) (d : Dec) : Dec :=
  mkWireFlowDecoder (d_complete d) (d_expected_shards d) (d_best_effort d) (d_input_size d)
    (d_groups d) (d_next_emit_block d) (d_end_block_count d) (d_end_seen d) (d_stats d) l
    (d_codec_state d) (d_outputs d).
Definition set_codec_state (st : St) (d : Dec) : Dec :=
  mkWireFlowDecoder (d_complete d) (d_expected_shards d) (d_best_effort d) (d_input_size d)
    (d_groups d) (d_next_emit_block d) (d_end_block_count d) (d_end_seen d) (d_stats d)
    (d_latency d) st (d_outputs d).
Definition set_outputs (o : list (list byte)) (d : Dec) : Dec :=
  mkWireFlowDecoder (d_complete d) (d_expected_shards d) (d_best_effort d) (d_input_size d)
    (d_groups d) (d_next_emit_block d) (d_end_block_count d) (d_end_seen d) (d_stats d)
    (d_latency d) (d_codec_state d) o.

Definition set_group (i : nat) (g : WireGroup) (d : Dec) : Dec :=
  set_groups (<[i := g]> (d_groups d)) d.
Definition count_stat (c : WireStat) (d : Dec) : Dec := set_stats (bump c 1 (d_stats d)) d.

(** A query of the codec. *)
Definition ask {A} (q : option (CodecVTable St) -> St -> A * St) (d : Dec) : A * Dec :=
  let '(a, st) := q codec (d_codec_state d) in (a, set_codec_state st d).

(** [output_fn(flow_id, data, len, ctx)]: true when it returns 0. *)
Definition output (chunk : list byte) (d : Dec) : bool * Dec :=
  (out_ok (length (d_outputs d)), set_outputs (d_outputs d ++ [chunk]) d).

Definition group_systematic_data_ready (g : WireGroup) (d : Dec) : bool * Dec :=
  match codec, g_received_bits g with
  | Some _, Some bits =>
      let '(systematic, d) := ask Codec_is_systematic d in
      if (systematic =? 0)%Z then (false, d)
      else
        let '(data_shards, d) := ask Codec_data_shards d in
        let '(parity_shards, d) := ask Codec_parity_shards d in
        if (data_shards =? 0) || negb (g_shard_count g =? data_shards + parity_shards)
        then (false, d)
        else (forallb (codec_present_get bits) (seq 0 data_shards), d)
  | _, _ => (false, d)
  end.

Definition mark_group_recovered (i : nat) (via_fec_recover : bool) (d : Dec) : Dec :=
  let g := group_at (d_groups d) i in
  let g := if via_fec_recover
           then with_bits (option_map (fun bits => codec_present_set_all bits (g_shard_count g))
                             (g_received_bits g)) g
           else g in
  count_stat groups_recovered
    (count_stat recovered_groups (set_group i (with_state WIRE_GROUP_RECOVERED g) d)).

(** The group is given up at the end of the stream, or waits for more shards. *)
Definition fail_or_wait (i : nat) (finalize_at_end : bool) (d : Dec) : WireRecoverResult * Dec :=
  if finalize_at_end then
    (WIRE_RECOVER_FAILED,
     count_stat groups_failed
       (set_group i (with_state WIRE_GROUP_FAILED (group_at (d_groups d) i)) d))
  else (WIRE_RECOVER_PENDING, d).

Definition try_recover_group (i : nat) (finalize_at_end : bool) (d : Dec) :
    WireRecoverResult * Dec :=
  let g := group_at (d_groups d) i in
  match codec with
  | None => (WIRE_RECOVER_PENDING, d)
  | Some _ =>
      match g_state g with
      | WIRE_GROUP_RECOVERED | WIRE_GROUP_EMITTED => (WIRE_RECOVER_OK, d)
      | WIRE_GROUP_FAILED => (WIRE_RECOVER_FAILED, d)
      | WIRE_GROUP_EMPTY => (WIRE_RECOVER_PENDING, d)
      | WIRE_GROUP_ACTIVE =>
          if group_all_shards_present g
          then (WIRE_RECOVER_OK, mark_group_recovered i false d)
          else
            let '(ready, d) := group_systematic_data_ready g d in
            if ready then (WIRE_RECOVER_OK, mark_group_recovered i false d)
            else
              let '(data_shards, d) := ask Codec_data_shards d in
              let count := group_received_count g in
              if (data_shards =? 0) || (count <? data_shards)
              then fail_or_wait i finalize_at_end d
              else if negb finalize_at_end && (count =? g_last_recovery_count g)
              then (WIRE_RECOVER_PENDING, d)
              else
                let g := with_last_count count g in
                let '(status, data, st) :=
                  Codec_recover codec (d_codec_state d) (g_data g) (g_received_bits g)
                    (g_shard_count g) in
                let d := set_codec_state st (set_group i (with_data data g) d) in
                match status with
                | CODEC_RECOVER_OK => (WIRE_RECOVER_OK, mark_group_recovered i true d)
                | CODEC_RECOVER_UNAVAILABLE | CODEC_RECOVER_ERR => fail_or_wait i finalize_at_end d
                end
      end
  end.

Definition count_pending_recovered (d : Dec) : Z :=
  Z.of_nat (length (List.filter
    (fun g => bool_decide (g_state g = WIRE_GROUP_RECOVERED) &&
              (g_block_id g >=? d_next_emit_block d)%Z) (d_groups d))).

Definition refresh_pending_snapshot (d : Dec) : Dec :=
  set_stats (assign pending_recovered_groups (count_pending_recovered d) (d_stats d)) d.

Definition block_in_reorder_window (block_id next_emit : Z) : bool :=
  (block_id >=? next_emit)%Z &&
  ((block_id -u64 next_emit)%cint <? Z.of_nat WIRE_FLOW_GROUP_WINDOW)%Z.

(** The first [n] bytes of a buffer. *)
Definition prefix (data : option (list byte)) (n : nat) : list byte := take n (default [] data).

(** [false] is the result -1. *)
Definition write_decoded_group (i : nat) (d : Dec) : bool * Dec :=
  let g := group_at (d_groups d) i in
  match codec with
  | None => (false, d)
  | Some _ =>
      if negb (bool_decide (g_state g = WIRE_GROUP_RECOVERED)) then (false, d)
      else
        let '(input_size, d) := ask Codec_input_block_size d in
        let output_size := g_shard_count g * PKG_SIZE in
        if (g_valid_len g =? 0) || (input_size <? g_valid_len g) || (output_size =? 0) ||
           (CODEC_MAX_ENCODE_BLOCK <? Z.of_nat output_size)%Z
        then (false, d)
        else
          let reading := Z.to_nat (d_stats d decoded_blocks) * 2 in
          let decode_ready_ns := clock reading in
          let '(data, st) := Codec_decode codec (d_codec_state d) (g_data g) output_size in
          let decode_done_ns := clock (reading + 1) in
          let d := set_codec_state st d in
          let g := with_state WIRE_GROUP_EMITTED (with_data data g) in
          let d := set_group i g d in
          let d := count_stat groups_emitted (count_stat decoded_blocks d) in
          let d := if g_timing_valid g
                   then set_latency (latency_stats_add realloc_ok (d_latency d)
                          (g_encode_begin_ns g) (g_encode_end_ns g) decode_ready_ns
                          decode_done_ns) d
                   else d in
          let '(ok, d) := output (prefix data (g_valid_len g)) d in
          if negb ok then (false, d)
          else
            let d := set_stats (bump output_bytes (Z.of_nat (g_valid_len g)) (d_stats d)) d in
            (true, set_group i release_group d)
  end.

(** The loop over the data shards of a group that is written in part. *)
Fixpoint write_shards (bits : list byte) (data : list byte) (shard count remaining : nat)
    (d : Dec) : bool * Dec :=
  match count with
  | O => (true, d)
  | S count' =>
      if remaining =? 0 then (true, d)
      else
        let shard_len := if PKG_SIZE <? remaining then PKG_SIZE else remaining in
        if codec_present_get bits shard then
          let '(ok, d) := output (take shard_len (drop (shard * PKG_SIZE) data)) d in
          if negb ok then (false, d)
          else
            write_shards bits data (S shard) count' (remaining - shard_len)
              (set_stats (bump output_bytes (Z.of_nat shard_len) (d_stats d)) d)
        else
          write_shards bits data (S shard) count' (remaining - shard_len)
            (count_stat missing_data_shards d)
  end.

Definition write_best_effort_group (i : nat) (d : Dec) : bool * Dec :=
  let g := group_at (d_groups d) i in
  match codec with
  | None => (false, d)
  | Some _ =>
      let '(allowed, d) := ask Codec_allows_best_effort d in
      let '(input_size, d) := ask Codec_input_block_size d in
      if (allowed =? 0)%Z || (g_valid_len g =? 0) || (input_size <? g_valid_len g) then (false, d)
      else
        let '(data_shards, d) := ask Codec_data_shards d in
        let '(parity_shards, d) := ask Codec_parity_shards d in
        if (data_shards =? 0) || negb (g_shard_count g =? data_shards + parity_shards)
        then (false, d)
        else
          let '(systematic, d) := ask Codec_is_systematic d in
          let output_size := g_shard_count g * PKG_SIZE in
          if (systematic =? 0)%Z &&
             ((output_size =? 0) || (CODEC_MAX_ENCODE_BLOCK <? Z.of_nat output_size)%Z)
          then (false, d)
          else
            let '(data, d) :=
              if (systematic =? 0)%Z then
                let '(data, st) := Codec_decode codec (d_codec_state d) (g_data g) output_size in
                (data, set_codec_state st (set_group i (with_data data g) d))
              else (g_data g, d) in
            let '(ok, d) := write_shards (default [] (g_received_bits g)) (default [] data)
                              0 data_shards (g_valid_len g) d in
            if negb ok then (false, d) else (true, set_group i release_group d)
  end.

(** [head] is the group at the head of the window, [None] when it is missing. *)
Definition skip_unrecoverable_head (head : option nat) (d : Dec) : bool * Dec :=
  let '(ok, d) :=
    match head with
    | None => (true, d)
    | Some i =>
        let g := group_at (d_groups d) i in
        let '(allowed, d) := ask Codec_allows_best_effort d in
        match g_data g, g_received_bits g with
        | Some _, Some _ =>
            if negb (allowed =? 0)%Z && (0 <? g_valid_len g)
            then write_best_effort_group i d
            else (true, set_group i release_group d)
        | _, _ => (true, set_group i release_group d)
        end
    end in
  if negb ok then (false, d)
  else (true, set_next (d_next_emit_block d +u64 1)%cint (count_stat skipped_groups d)).

Definition block_needs_room (d : Dec) (block_id : Z) : bool :=
  if negb (block_in_reorder_window block_id (d_next_emit_block d)) then true
  else match find_group (d_groups d) block_id with
       | Some _ => false
       | None => negb (window_has_empty_slot (d_groups d))
       end.

(** [write_decoded_group(dec, head)] followed by [dec->next_emit_block++]. *)
Definition emit_head (i : nat) (d : Dec) : bool * Dec :=
  let '(ok, d) := write_decoded_group i d in
  if negb ok then (false, d) else (true, set_next (d_next_emit_block d +u64 1)%cint d).

(** The loop of [make_room_for_block]; [guard] counts the skips.  The outer [None] is an
    exhausted fuel. *)
Fixpoint make_room_loop (fuel : nat) (block_id : Z) (guard : nat) (d : Dec) : option (bool * Dec) :=
  match fuel with
  | O => None
  | S fuel' =>
      if negb (block_needs_room d block_id && (guard <? WIRE_FLOW_GROUP_WINDOW))
      then Some (true, d)
      else if (d_next_emit_block d >=? block_id)%Z then Some (true, d)
      else
        let head := find_group (d_groups d) (d_next_emit_block d) in
        let head_state := match head with
                          | Some i => g_state (group_at (d_groups d) i)
                          | None => WIRE_GROUP_EMPTY end in
        let emit i d := let '(ok, d) := emit_head i d in
                        if negb ok then Some (false, d)
                        else make_room_loop fuel' block_id guard d in
        let skip d := let '(ok, d) := skip_unrecoverable_head head d in
                      if negb ok then Some (false, d)
                      else make_room_loop fuel' block_id (S guard) d in
        match head, head_state with
        | Some i, WIRE_GROUP_RECOVERED => emit i d
        | Some i, WIRE_GROUP_ACTIVE =>
            let '(res, d) := try_recover_group i true d in
            if bool_decide (res = WIRE_RECOVER_OK) then emit i d else skip d
        | _, _ => skip d
        end
  end.

(** Each turn advances [next_emit_block], which stays below [block_id]; at most 128 skips, and
    at most one emission per slot. *)
Definition ROOM_FUEL : nat := 2 * WIRE_FLOW_GROUP_WINDOW + 1.

Definition make_room_for_block (block_id : Z) (d : Dec) : option (bool * Dec) :=
  if negb (d_best_effort d) then Some (true, d) else make_room_loop ROOM_FUEL block_id 0 d.

Definition later_recovered_waiting (d : Dec) : bool :=
  existsb (fun g => bool_decide (g_state g = WIRE_GROUP_RECOVERED) &&
                    (g_block_id g >? d_next_emit_block d)%Z) (d_groups d).

Definition head_below_recover_threshold (head : option nat) (d : Dec) : bool * Dec :=
  match head with
  | None => (true, d)
  | Some i =>
      let g := group_at (d_groups d) i in
      match g_state g with
      | WIRE_GROUP_FAILED => (true, d)
      | WIRE_GROUP_ACTIVE =>
          match codec with
          | None => (false, d)
          | Some _ =>
              let '(k, d) := ask Codec_data_shards d in
              ((k =? 0) || (group_received_count g <? k), d)
          end
      | _ => (false, d)
      end
  end.

Fixpoint emit_loop (fuel : nat) (d : Dec) : option (bool * Dec) :=
  match fuel with
  | O => None
  | S fuel' =>
      if d_end_seen d && (d_next_emit_block d >=? d_end_block_count d)%Z then Some (true, d)
      else
        let head := find_group (d_groups d) (d_next_emit_block d) in
        let head_state := match head with
                          | Some i => g_state (group_at (d_groups d) i)
                          | None => WIRE_GROUP_EMPTY end in
        let emit i d := let '(ok, d) := emit_head i d in
                        if negb ok then Some (false, d) else emit_loop fuel' d in
        let skip d := let '(ok, d) := skip_unrecoverable_head head d in
                      if negb ok then Some (false, d) else emit_loop fuel' d in
        match head, head_state with
        | Some i, WIRE_GROUP_RECOVERED => emit i d
        | _, _ =>
            if d_best_effort d && d_end_seen d &&
               (match head with None => true | Some _ => false end ||
                bool_decide (head_state = WIRE_GROUP_FAILED))
            then skip d
            else if d_best_effort d then
              let '(below, d) := head_below_recover_threshold head d in
              if below && later_recovered_waiting d then
                match head, head_state with
                | Some i, WIRE_GROUP_ACTIVE =>
                    let '(res, d) := try_recover_group i true d in
                    if bool_decide (res = WIRE_RECOVER_OK) then emit i d else skip d
                | _, _ => skip d
                end
              else Some (true, d)
            else Some (true, d)
        end
  end.

(** Before the end of the stream each turn passes a block of the window; after it each turn
    passes a block below [end_block_count]. *)
Definition emit_fuel (d : Dec) : nat :=
  WIRE_FLOW_GROUP_WINDOW + 2 + Z.to_nat (d_end_block_count d - d_next_emit_block d).

Definition try_emit_from_head (d : Dec) : option (bool * Dec) := emit_loop (emit_fuel d) d.

Definition finalize_active_groups (d : Dec) : Dec :=
  for_ WIRE_FLOW_GROUP_WINDOW
    (fun index d =>
       if bool_decide (g_state (group_at (d_groups d) index) = WIRE_GROUP_ACTIVE)
       then snd (try_recover_group index true d) else d)
    d.

Definition wire_flow_decoder_flush_best_effort (d : Dec) : option (bool * Dec) :=
  if negb (d_best_effort d) then Some (false, d)
  else if negb (d_end_seen d) then Some (true, d)
  else
    match try_emit_from_head (finalize_active_groups d) with
    | None => None
    | Some (false, d) => Some (false, d)
    | Some (true, d) =>
        let d := refresh_pending_snapshot d in
        Some (true, if (d_next_emit_block d >=? d_end_block_count d)%Z then set_complete d else d)
    end.

Definition wire_flow_decoder_shard_count_ok (shard_count expected_shards : Z) : bool :=
  (shard_count =? expected_shards)%Z.

(** [wire_flow_decoder_create]: [calloc] leaves 128 empty groups and zero counters. *)
Definition wire_flow_decoder_create (codec_state : St) (expected_shards : Z) (best_effort : bool)
    (input_size : Z) : option Dec :=
  match codec with
  | None => None
  | Some _ =>
      if (expected_shards =? 0)%Z then None
      else Some (mkWireFlowDecoder false expected_shards best_effort input_size
                   (replicate WIRE_FLOW_GROUP_WINDOW release_group) 0 0 false (fun _ => 0%Z)
                   (mkLatencyStats [] 0 0 false 0 false) codec_state [])
  end.

Definition ingest_end (header : WireHeader) (d : Dec) : option (bool * Dec) :=
  if negb (wire_flow_decoder_shard_count_ok (wh_shard_count header) (d_expected_shards d)) ||
     negb (wh_payload_len header =? 0)%Z ||
     (d_end_seen d && negb (wh_block_id header =? d_end_block_count d)%Z)
  then Some (true, count_stat malformed_datagrams d)
  else
    let d := set_end (wh_block_id header) d in
    match try_emit_from_head (finalize_active_groups d) with
    | None => None
    | Some (false, d) => Some (false, d)
    | Some (true, d) =>
        let d := refresh_pending_snapshot d in
        if (d_next_emit_block d =? d_end_block_count d)%Z then Some (true, set_complete d)
        else if d_best_effort d then
          match wire_flow_decoder_flush_best_effort d with
          | None => None
          | Some (false, d) => Some (false, d)
          | Some (true, d) => Some (true, set_complete d)
          end
        else Some (true, d)
    end.

(** The part of [wire_flow_decoder_ingest] after the group of the datagram is known. *)
Definition ingest_shard (i : nat) (header : WireHeader) (payload : list byte) (d : Dec) :
    option (bool * Dec) :=
  let g := group_at (d_groups d) i in
  match g_state g with
  | WIRE_GROUP_RECOVERED | WIRE_GROUP_FAILED | WIRE_GROUP_EMITTED =>
      Some (true, count_stat duplicate_datagrams d)
  | _ =>
      if negb (Z.of_nat (g_shard_count g) =? wh_shard_count header)%Z ||
         negb (Z.of_nat (g_valid_len g) =? wh_valid_len header)%Z ||
         negb (g_encode_begin_ns g =? wh_encode_begin_ns header)%Z ||
         negb (g_encode_end_ns g =? wh_encode_end_ns header)%Z
      then Some (true, count_stat malformed_datagrams d)
      else
        let index := Z.to_nat (wh_shard_index header) in
        match g_received_bits g, g_data g with
        | Some bits, Some data =>
            if g_shard_count g <=? index then Some (true, count_stat malformed_datagrams d)
            else if codec_present_get bits index then Some (true, count_stat duplicate_datagrams d)
            else
              let g := with_bits (Some (codec_present_set bits index))
                         (with_data (Some (store_bytes data (index * PKG_SIZE)
                                             (take PKG_SIZE payload))) g) in
              let d := count_stat received_datagrams (set_group i g d) in
              let '(_, d) := try_recover_group i false d in
              match try_emit_from_head d with
              | None => None
              | Some (false, d) => Some (false, d)
              | Some (true, d) =>
                  let d := refresh_pending_snapshot d in
                  Some (true,
                    if d_end_seen d && (d_next_emit_block d =? d_end_block_count d)%Z
                    then set_complete d else d)
              end
        | _, _ => Some (true, count_stat malformed_datagrams d)
        end
  end.

Definition ingest_data (calloc_ok : bool) (header : WireHeader) (payload : list byte) (d : Dec) :
    option (bool * Dec) :=
  if negb (block_in_reorder_window (wh_block_id header) (d_next_emit_block d))
  then Some (true, count_stat window_overflow d)
  else
    match find_group (d_groups d) (wh_block_id header) with
    | Some i => ingest_shard i header payload d
    | None =>
        match allocate_group calloc_ok (d_groups d) (wh_block_id header)
                (Z.to_nat (wh_shard_count header)) (Z.to_nat (wh_valid_len header))
                (wh_encode_begin_ns header) (wh_encode_end_ns header) with
        | None => Some (true, count_stat window_overflow d)
        | Some (i, groups) =>
            ingest_shard i header payload (count_stat groups_received (set_groups groups d))
        end
    end.

(** [wire_flow_decoder_ingest]: [Some (true, _)] is the result 0, [Some (false, _)] is -1. *)
Definition wire_flow_decoder_ingest (calloc_ok : bool) (header : WireHeader)
    (payload : option (list byte)) (payload_len : nat) (d : Dec) : option (bool * Dec) :=
  match codec with
  | None => Some (true, d)
  | Some _ =>
      if d_complete d then Some (true, d)
      else if (wh_type header =? WIRE_TYPE_END)%Z then ingest_end header d
      else
        match payload with
        | None => Some (true, count_stat malformed_datagrams d)
        | Some bytes =>
            if negb (wh_type header =? WIRE_TYPE_DATA)%Z ||
               negb (wire_flow_decoder_shard_count_ok (wh_shard_count header)
                       (d_expected_shards d)) ||
               (wh_shard_index header >=? wh_shard_count header)%Z ||
               (wh_valid_len header =? 0)%Z || (wh_valid_len header >? d_input_size d)%Z ||
               negb (wh_payload_len header =? Z.of_nat PKG_SIZE)%Z || (payload_len <? PKG_SIZE)
            then Some (true, count_stat malformed_datagrams d)
            else
              let d := count_stat seen_datagrams d in
              if (wh_block_id header <? d_next_emit_block d)%Z
              then Some (true, count_stat late_datagrams d)
              else if d_best_effort d then
                match make_room_for_block (wh_block_id header) d with
                | None => None
                | Some (false, d) => Some (false, d)
                | Some (true, d) =>
                    if (wh_block_id header <? d_next_emit_block d)%Z
                    then Some (true, count_stat late_datagrams d)
                    else ingest_data calloc_ok header bytes d
                end
              else ingest_data calloc_ok header bytes d
        end
  end.

(** [wire_flow_decoder_destroy]: what is left of the decoder before [free]. *)
Definition wire_flow_decoder_destroy (d : Dec) : Dec :=
  for_ WIRE_FLOW_GROUP_WINDOW (fun index d => set_group index release_group d) d.

Definition wire_flow_decoder_is_complete (d : option Dec) : bool :=
  match d with None => false | Some d => d_complete d end.
Definition wire_flow_decoder_end_seen (d : option Dec) : bool :=
  match d with None => false | Some d => d_end_seen d end.
Definition wire_flow_decoder_next_block (d : option Dec) : Z :=
  match d with None => 0%Z | Some d => d_next_emit_block d end.
Definition wire_flow_decoder_end_block_count (d : option Dec) : Z :=
  match d with None => 0%Z | Some d => d_end_block_count d end.
Definition wire_flow_decoder_pending_recovered_groups (d : option Dec) : Z :=
  match d with None => 0%Z | Some d => count_pending_recovered d end.

End Decoder.
