(* ===== verification/WireDecoderSpec.v ===== *)
(** * What the reassembly code promises

    A stream of blocks is encoded by an erasure codec and its datagrams reach the decoder in any
    order, with losses and duplicates.  The decoder is proved against the codec interface: what it
    writes are the blocks of the stream, in order, and a block is held back only while fewer than
    [k] of its shards have arrived.  A ghost set [R] has the shards that came in time: the bits of
    a group that waits are those of [R], and a block written in part is its data shards in [R]. *)

From Stdlib Require Import Strings.Byte.
From S2P Require Import Prelude WireHeader Gf256 ByteVec RsEncode Codec CodecSpec RsRecover.
From S2P Require Import CodecInterface WireDecoder.

Lemma pkg_size_value : Z.of_nat PKG_SIZE = 1400%Z.
Proof. done. Qed.

#[local] Opaque PKG_SIZE.

(** ** Searching the group array *)

Lemma first_index_Some f gs i :
  first_index f gs = Some i -> i < length gs /\ f (group_at gs i) = true.
Proof.
  revert i. induction gs as [|g gs IH]; intros i H; [done|]. simpl in H.
  destruct (f g) eqn:E; simplify_eq; [by split; [simpl; lia|]|].
  destruct (first_index f gs) as [j|]; simplify_eq/=. destruct (IH j eq_refl). split; [lia|done].
Qed.

Lemma first_index_None f gs i :
  first_index f gs = None -> i < length gs -> f (group_at gs i) = false.
Proof.
  revert i. induction gs as [|g gs IH]; intros i H Hi; [simpl in Hi; lia|]. simpl in H.
  destruct (f g) eqn:E; [done|]. destruct (first_index f gs); [done|].
  destruct i as [|i]; [done|]. apply IH; [done|]. simpl in Hi. lia.
Qed.

Lemma group_at_insert gs i j g :
  i < length gs -> group_at (<[i := g]> gs) j = if decide (i = j) then g else group_at gs j.
Proof.
  intros Hi. unfold group_at. rewrite !nth_lookup. destruct (decide (i = j)) as [->|Hn].
  - by rewrite list_lookup_insert_eq.
  - by rewrite list_lookup_insert_ne.
Qed.

Definition occupied (g : WireGroup) : Prop := g_state g <> WIRE_GROUP_EMPTY.

Lemma find_group_Some gs id i :
  find_group gs id = Some i ->
  i < length gs /\ occupied (group_at gs i) /\ g_block_id (group_at gs i) = id.
Proof.
  intros [Hi Hf]%first_index_Some. apply andb_true_iff in Hf as [Hs Hid].
  split; [done|]. unfold occupied. case_bool_decide; [done|]. split; [done|lia].
Qed.

Lemma find_group_None gs id i :
  find_group gs id = None -> i < length gs -> occupied (group_at gs i) ->
  g_block_id (group_at gs i) <> id.
Proof.
  intros Hn Hi Ho. pose proof (first_index_None _ gs i Hn Hi) as Hf. unfold occupied in Ho.
  cbn beta in Hf. rewrite bool_decide_eq_false_2 in Hf by done. cbn [negb andb] in Hf. lia.
Qed.

(** ** Received shards *)

Lemma received_count_le n bits :
  length (present_shards bits n) <= n.
Proof.
  unfold present_shards. etrans; [apply filter_length_le|]. by rewrite length_seq.
Qed.

Lemma data_ready_count k r bits :
  forallb (codec_present_get bits) (seq 0 k) = true -> k <= length (present_shards bits (k + r)).
Proof.
  intros Hf. unfold present_shards. rewrite seq_app, List.filter_app, length_app.
  assert (List.filter (codec_present_get bits) (seq 0 k) = seq 0 k) as ->.
  { rewrite forallb_forall in Hf. induction (seq 0 k) as [|x l IH]; [done|]. simpl.
    rewrite Hf by (by left). f_equal. apply IH. intros y Hy. apply Hf. by right. }
  rewrite length_seq. lia.
Qed.

(** ** Chunks *)

(** A block written as a whole, and the pieces of a block written in part. *)
Definition whole (e : list byte) (len : nat) : list (list byte) := [take len e].

Fixpoint pieces (present : nat -> bool) (e : list byte) (shard count remaining : nat) :
    list (list byte) :=
  match count with
  | O => []
  | S count' =>
      if remaining =? 0 then []
      else
        let shard_len := if PKG_SIZE <? remaining then PKG_SIZE else remaining in
        (if present shard then [take shard_len (drop (shard * PKG_SIZE) e)] else []) ++
        pieces present e (S shard) count' (remaining - shard_len)
  end.

Lemma pieces_ext present present' e shard count remaining :
  (forall s, shard <= s < shard + count -> present s = present' s) ->
  pieces present e shard count remaining = pieces present' e shard count remaining.
Proof.
  revert shard remaining. induction count as [|count IH]; intros shard remaining Hs; [done|].
  simpl. case_match; [done|]. rewrite (Hs shard) by lia. f_equal. apply IH. intros s Hin. apply Hs. lia.
Qed.

Lemma pieces_nothing e shard count remaining :
  pieces (fun _ => false) e shard count remaining = [].
Proof.
  revert shard remaining. induction count as [|count IH]; intros shard remaining; [done|].
  simpl. case_match; [done|]. apply IH.
Qed.

(** Cells and prefixes. *)
Lemma take_cells k a b n v :
  length a = n * PKG_SIZE -> length b = n * PKG_SIZE -> k <= n -> v <= k * PKG_SIZE ->
  (forall s i, s < k -> i < PKG_SIZE -> cell PKG_SIZE a s i = cell PKG_SIZE b s i) ->
  take v a = take v b.
Proof.
  intros Ha Hb Hk Hv Hc. assert (Hkn : k * PKG_SIZE <= n * PKG_SIZE) by nia.
  apply get_ext; [rewrite !length_take; lia|]. intros i Hi. rewrite length_take in Hi.
  assert (Hin : i < v) by lia. unfold get. rewrite !nth_lookup, !lookup_take_lt by done.
  rewrite <- !nth_lookup. fold (get a i) (get b i).
  destruct (cell_index PKG_SIZE k i) as (s & j & Hs & Hj & ->); [lia|]. by apply Hc.
Qed.

Lemma take_drop_cells a b n s len :
  length a = n * PKG_SIZE -> length b = n * PKG_SIZE -> s < n -> len <= PKG_SIZE ->
  (forall i, i < PKG_SIZE -> cell PKG_SIZE a s i = cell PKG_SIZE b s i) ->
  take len (drop (s * PKG_SIZE) a) = take len (drop (s * PKG_SIZE) b).
Proof.
  intros Ha Hb Hs Hl Hc. assert (Hroom : s * PKG_SIZE + PKG_SIZE <= n * PKG_SIZE) by nia.
  apply get_ext; [rewrite !length_take, !length_drop; lia|]. intros i Hi.
  rewrite length_take, length_drop in Hi. unfold get.
  rewrite !nth_lookup, !lookup_take_lt, !lookup_drop, <- !nth_lookup by lia.
  by apply (Hc i); lia.
Qed.

(** ** The invariant *)

(** What the sender encoded: block, number of valid bytes and time stamps of every block id. *)
Record Stream := mkStream {
  st_block : Z -> list byte;
  st_len : Z -> nat;
  st_begin : Z -> Z;
  st_end : Z -> Z }.

Section Spec.
Context {St : Type} (codec : option (CodecVTable St)) (ok : St -> Prop) (k r : nat).
Context (code : list byte -> Prop) (EC : ErasureCodec codec ok k r code).
Context (out_ok : nat -> bool) (clock : nat -> Z) (realloc_ok : bool).
Context (strm : Stream).

(** The shards of each block that have come in time. *)
Context (R : Z -> nat -> bool).

Abbreviation Dec := (WireFlowDecoder St).

(** A failure is a failure of the output callback. *)
Definition outcome (b : bool) (P : Prop) : Prop :=
  if b then P else exists n, out_ok n = false.

Lemma outcome_fails n (P : Prop) : out_ok n = false -> outcome false P.
Proof. intros H. by exists n. Qed.

(** Every block is a code word and its valid bytes lie in the data shards. *)
Definition stream_ok : Prop :=
  forall id, code (st_block strm id) /\ 1 <= st_len strm id <= k * PKG_SIZE.
Context (HS : stream_ok).

(** How many shards of block [id] have come in time. *)
Definition tally (id : Z) : nat := length (List.filter (R id) (seq 0 (k + r))).

(** The bits of a group that still waits are the shards that have come. *)
Definition records (bits : list byte) (id : Z) : Prop :=
  forall s, s < k + r -> codec_present_get bits s = R id s.

Lemma records_tally bits id : records bits id -> length (present_shards bits (k + r)) = tally id.
Proof using Type.
  intros H. unfold tally, present_shards. f_equal. apply filter_ext_in. intros s Hs%in_seq.
  apply H. lia.
Qed.

(** An active group holds fewer than [quota] shards: [k] while the stream runs, [0] (there is no
    active group) after its end. *)
Context (quota : nat) (Hquota : quota <= k).

Record good (g : WireGroup) : Prop := {
  good_id : (0 <= g_block_id g)%Z;
  good_count : g_shard_count g = k + r;
  good_len : g_valid_len g = st_len strm (g_block_id g);
  good_buffers : exists bits data,
    g_received_bits g = Some bits /\ g_data g = Some data /\
    length bits = codec_present_bytes (k + r) /\ length data = (k + r) * PKG_SIZE /\
    match g_state g with
    | WIRE_GROUP_ACTIVE =>
        (agrees (k + r) bits data (st_block strm (g_block_id g)) /\ records bits (g_block_id g)) /\
        g_last_recovery_count g = 0
    | WIRE_GROUP_FAILED =>
        (agrees (k + r) bits data (st_block strm (g_block_id g)) /\ records bits (g_block_id g)) /\
        tally (g_block_id g) < k
    | WIRE_GROUP_RECOVERED =>
        forall s b, s < k -> b < PKG_SIZE ->
          cell PKG_SIZE data s b = cell PKG_SIZE (st_block strm (g_block_id g)) s b
    | _ => False
    end;
  good_times : g_encode_begin_ns g = st_begin strm (g_block_id g) /\
               g_encode_end_ns g = st_end strm (g_block_id g) }.

(** A block in the output: as a whole, or, in best-effort mode, those of its data shards that came
    in time, when fewer than [k] of its shards did. *)
Definition contribution (best_effort : bool) (id : Z) (chunks : list (list byte)) : Prop :=
  chunks = whole (st_block strm id) (st_len strm id) \/
  (best_effort = true /\ tally id < k /\
   chunks = pieces (R id) (st_block strm id) 0 k (st_len strm id)).

(** The output consists of one contribution per block, in order. *)
Definition in_order (best_effort : bool) (next : Z) (outputs : list (list byte)) : Prop :=
  exists parts, Z.of_nat (length parts) = next /\ outputs = concat parts /\
    forall i chunks, parts !! i = Some chunks -> contribution best_effort (Z.of_nat i) chunks.

(** [U] bounds the block ids of the window; [busy] is a group that has just received a shard, or
    that is given up and about to be written. *)
Record dinv (U : Z) (busy : option nat) (d : Dec) : Prop := {
  di_length : length (d_groups d) = WIRE_FLOW_GROUP_WINDOW;
  di_ok : ok (d_codec_state d);
  di_expected : d_expected_shards d = Z.of_nat (k + r);
  di_input : d_input_size d = Z.of_nat (k * PKG_SIZE);
  di_next : (0 <= d_next_emit_block d)%Z;
  di_bound : (U < 2 ^ 64)%Z;
  di_end : (d_end_block_count d < 2 ^ 64)%Z;
  di_window : (U <= d_next_emit_block d + Z.of_nat WIRE_FLOW_GROUP_WINDOW)%Z;
  di_groups : forall i, i < WIRE_FLOW_GROUP_WINDOW -> occupied (group_at (d_groups d) i) ->
    good (group_at (d_groups d) i) /\
    (d_next_emit_block d <= g_block_id (group_at (d_groups d) i) < U)%Z;
  di_settled : forall i, i < WIRE_FLOW_GROUP_WINDOW -> busy <> Some i ->
    g_state (group_at (d_groups d) i) = WIRE_GROUP_ACTIVE ->
    group_received_count (group_at (d_groups d) i) < quota;
  di_failed : forall i, i < WIRE_FLOW_GROUP_WINDOW -> busy <> Some i ->
    g_state (group_at (d_groups d) i) = WIRE_GROUP_FAILED -> d_end_seen d = true;
  di_seen : forall id s, R id s = true -> (id < d_next_emit_block d)%Z \/
    exists i, i < WIRE_FLOW_GROUP_WINDOW /\ occupied (group_at (d_groups d) i) /\
      g_block_id (group_at (d_groups d) i) = id;
  di_unique : forall i j, i < WIRE_FLOW_GROUP_WINDOW -> j < WIRE_FLOW_GROUP_WINDOW ->
    occupied (group_at (d_groups d) i) -> occupied (group_at (d_groups d) j) ->
    g_block_id (group_at (d_groups d) i) = g_block_id (group_at (d_groups d) j) -> i = j;
  di_reach : d_best_effort d = false -> (d_next_emit_block d <= U)%Z;
  di_out : in_order (d_best_effort d) (d_next_emit_block d) (d_outputs d) }.

(** Fields a step leaves alone. *)
Record frame (d d' : Dec) : Prop := {
  fr_complete : d_complete d' = d_complete d;
  fr_best : d_best_effort d' = d_best_effort d;
  fr_count : d_end_block_count d' = d_end_block_count d;
  fr_seen : d_end_seen d' = d_end_seen d }.

#[local] Instance frame_preorder : PreOrder frame.
Proof.
  split; [by intros d|]. intros a b c [] []. split; congruence.
Qed.

(** Counters do not matter. *)
Lemma dinv_stats U busy s d : dinv U busy d -> dinv U busy (set_stats s d).
Proof. intros []. by split. Qed.

Lemma dinv_count U busy c d : dinv U busy d -> dinv U busy (count_stat c d).
Proof. apply dinv_stats. Qed.

Lemma frame_stats s d : frame d (set_stats s d).
Proof. by split. Qed.

Lemma ask_ok {A} (q : option (CodecVTable St) -> St -> A * St) a d :
  q codec (d_codec_state d) = (a, d_codec_state d) -> ask codec q d = (a, d).
Proof. intros H. unfold ask. rewrite H. by destruct d. Qed.

(** Replacing the group in slot [i]. *)
Lemma dinv_set_group U busy i g d :
  dinv U busy d -> i < WIRE_FLOW_GROUP_WINDOW -> occupied (group_at (d_groups d) i) ->
  good g -> g_block_id g = g_block_id (group_at (d_groups d) i) -> occupied g ->
  (g_state g = WIRE_GROUP_ACTIVE -> busy = Some i \/ group_received_count g < quota) ->
  (g_state g = WIRE_GROUP_FAILED -> busy = Some i \/ d_end_seen d = true) ->
  dinv U busy (set_group i g d).
Proof.
  intros H Hi Ho Hg Hid Hog Hset Hfail. pose proof H as [].
  assert (Hat : forall j, group_at (d_groups (set_group i g d)) j =
            if decide (i = j) then g else group_at (d_groups d) j)
    by (intros j; cbn [d_groups set_group set_groups]; apply group_at_insert; lia).
  assert (Hocc : forall j, occupied (group_at (d_groups (set_group i g d)) j) ->
            occupied (group_at (d_groups d) j))
    by (intros j; rewrite Hat; case_decide; by subst).
  assert (Hids : forall j, g_block_id (group_at (d_groups (set_group i g d)) j) =
                           g_block_id (group_at (d_groups d) j))
    by (intros j; rewrite Hat; case_decide; by subst).
  split; try done.
  - cbn. by rewrite length_insert.
  - intros j Hj Hoj. rewrite Hids. destruct (di_groups0 j Hj (Hocc j Hoj)) as [Hgj Hw].
    split; [|done]. rewrite Hat. case_decide; [done|]. apply di_groups0; auto.
  - intros j Hj Hb. rewrite Hat. case_decide as E; [|by apply di_settled0].
    subst. intros Hs. destruct (Hset Hs); [congruence|done].
  - intros j Hj Hb. rewrite Hat. case_decide as E; [|by apply di_failed0].
    subst. intros Hs. destruct (Hfail Hs); [congruence|done].
  - intros id s Hr. destruct (di_seen0 id s Hr) as [?|(j & Hj & Hoj & Hidj)]; [by left|right].
    exists j. rewrite Hids. split_and!; try done. rewrite Hat. by case_decide.
  - intros j1 j2 Hj1 Hj2 Ho1 Ho2. rewrite !Hids. auto.
Qed.

(** A group that is settled. *)
Lemma dinv_settle U i d :
  dinv U (Some i) d ->
  (g_state (group_at (d_groups d) i) = WIRE_GROUP_ACTIVE ->
   group_received_count (group_at (d_groups d) i) < quota) ->
  g_state (group_at (d_groups d) i) <> WIRE_GROUP_FAILED ->
  dinv U None d.
Proof.
  intros [] Hs Hf. split; try done; intros j Hj _ Ha; destruct (decide (i = j)) as [<-|].
  - by apply Hs.
  - apply di_settled0; congruence.
  - done.
  - apply (di_failed0 j); congruence.
Qed.

Lemma dinv_busy U i d : dinv U None d -> dinv U (Some i) d.
Proof. intros []. split; try done; intros j Hj _; [by apply di_settled0|by apply di_failed0]. Qed.

(** ** Recovery of one group *)

(** [d'] is [d] with another good group for the same block in slot [i]. *)
Record regroup (i : nat) (d d' : Dec) : Prop := {
  rg_frame : frame d d';
  rg_next : d_next_emit_block d' = d_next_emit_block d;
  rg_outputs : d_outputs d' = d_outputs d;
  rg_length : length (d_groups d') = length (d_groups d);
  rg_others : forall j, j <> i -> group_at (d_groups d') j = group_at (d_groups d) j;
  rg_id : g_block_id (group_at (d_groups d') i) = g_block_id (group_at (d_groups d) i) }.

Lemma regroup_set i g d :
  i < length (d_groups d) -> g_block_id g = g_block_id (group_at (d_groups d) i) ->
  regroup i d (set_group i g d).
Proof.
  intros Hi Hid. split; try done; cbn [d_groups set_group set_groups].
  - by rewrite length_insert.
  - intros j Hj. rewrite group_at_insert by done. by rewrite decide_False.
  - rewrite group_at_insert by done. by rewrite decide_True.
Qed.

Lemma regroup_refl i d : regroup i d d.
Proof. by split. Qed.

Lemma regroup_stats i s d d' : regroup i d d' -> regroup i d (set_stats s d').
Proof. intros [[] ? ? ? ? ?]. by repeat split. Qed.

Lemma group_at_set i g (d : Dec) :
  i < length (d_groups d) -> group_at (d_groups (set_group i g d)) i = g.
Proof.
  intros Hi. cbn [d_groups set_group set_groups]. rewrite group_at_insert by done.
  by rewrite decide_True.
Qed.

(** The outcome of [try_recover_group] on an active group. *)
Definition recovered_or_not (i : nat) (finalize : bool) (count : nat) (d : Dec)
    (res : WireRecoverResult) (d' : Dec) : Prop :=
  regroup i d d' /\
  if k <=? count
  then res = WIRE_RECOVER_OK /\ g_state (group_at (d_groups d') i) = WIRE_GROUP_RECOVERED
  else if finalize
  then res = WIRE_RECOVER_FAILED /\ g_state (group_at (d_groups d') i) = WIRE_GROUP_FAILED
  else res = WIRE_RECOVER_PENDING /\ d' = d.

Lemma mark_recovered_spec U busy i via d bits data :
  dinv U busy d -> i < WIRE_FLOW_GROUP_WINDOW ->
  occupied (group_at (d_groups d) i) ->
  g_received_bits (group_at (d_groups d) i) = Some bits ->
  g_data (group_at (d_groups d) i) = Some data ->
  length bits = codec_present_bytes (k + r) -> length data = (k + r) * PKG_SIZE ->
  (forall s b, s < k -> b < PKG_SIZE ->
     cell PKG_SIZE data s b =
     cell PKG_SIZE (st_block strm (g_block_id (group_at (d_groups d) i))) s b) ->
  let d' := mark_group_recovered i via d in
  dinv U busy d' /\ regroup i d d' /\
  g_state (group_at (d_groups d') i) = WIRE_GROUP_RECOVERED.
Proof.
  intros H Hi Ho Hb Hd Hlb Hld Hc d'. destruct (di_groups _ _ _ H i Hi Ho) as [Hg _].
  pose proof (di_length _ _ _ H) as Hlen.
  assert (Hil : i < length (d_groups d)) by lia.
  set (g := group_at (d_groups d) i) in *.
  set (g' := with_state WIRE_GROUP_RECOVERED
    (if via then with_bits (option_map (fun bits => codec_present_set_all bits (g_shard_count g))
                              (g_received_bits g)) g else g)).
  assert (Hd' : d' = count_stat groups_recovered (count_stat recovered_groups (set_group i g' d)))
    by done.
  assert (Hid : g_block_id g' = g_block_id g) by (unfold g'; by destruct via).
  assert (Hst : g_state g' = WIRE_GROUP_RECOVERED) by done.
  assert (Hgood : good g').
  { destruct Hg as [H1 H2 H3 _]. unfold g'. destruct via; split; cbn; try done.
    - rewrite Hb. cbn. eexists _, data. split_and!; try done.
      rewrite present_set_all_length. done.
    - eauto 10. }
  rewrite Hd'. split_and!.
  - do 2 apply dinv_count. apply dinv_set_group; congruence || done.
  - do 2 apply regroup_stats. by apply regroup_set.
  - change (g_state (group_at (d_groups (set_group i g' d)) i) = WIRE_GROUP_RECOVERED).
    by rewrite group_at_set.
Qed.

Lemma fail_or_wait_spec U busy i finalize d :
  dinv U busy d -> i < WIRE_FLOW_GROUP_WINDOW ->
  g_state (group_at (d_groups d) i) = WIRE_GROUP_ACTIVE ->
  group_received_count (group_at (d_groups d) i) < k ->
  (finalize = true -> busy = Some i \/ d_end_seen d = true) ->
  let '(res, d') := fail_or_wait i finalize d in
  dinv U busy d' /\ regroup i d d' /\
  if finalize
  then res = WIRE_RECOVER_FAILED /\ g_state (group_at (d_groups d') i) = WIRE_GROUP_FAILED
  else res = WIRE_RECOVER_PENDING /\ d' = d.
Proof.
  intros H Hi Ha Hcnt Hfin. unfold fail_or_wait.
  destruct finalize; [|by split; [|split; [apply regroup_refl|]]].
  assert (Ho : occupied (group_at (d_groups d) i)) by (unfold occupied; by rewrite Ha).
  destruct (di_groups _ _ _ H i Hi Ho) as [Hg _]. pose proof (di_length _ _ _ H) as Hlen.
  set (g := group_at (d_groups d) i) in *.
  assert (Hgood : good (with_state WIRE_GROUP_FAILED g)).
  { destruct Hg as [H1 H2 H3 (bits & data & Hb & Hd & Hlb & Hld & Hs)]. rewrite Ha in Hs.
    split; cbn; try done. exists bits, data. destruct Hs as [[Hag Hrec] _]. split_and!; try done.
    rewrite <- (records_tally bits) by done. unfold group_received_count in Hcnt.
    by rewrite Hb, H2 in Hcnt. }
  split; [|split; [|split]].
  - apply dinv_count. apply dinv_set_group; auto; done.
  - apply regroup_stats. apply regroup_set; [lia|done].
  - done.
  - change (g_state (group_at (d_groups (set_group i (with_state WIRE_GROUP_FAILED g) d)) i) =
            WIRE_GROUP_FAILED). by rewrite group_at_set by lia.
Qed.

(** The systematic fast path asks for all data shards. *)
Lemma systematic_ready_spec U busy g bits d :
  dinv U busy d -> g_shard_count g = k + r -> g_received_bits g = Some bits ->
  group_systematic_data_ready codec g d = (forallb (codec_present_get bits) (seq 0 k), d).
Proof.
  intros H Hn Hb. pose proof (di_ok _ _ _ H) as Hok. unfold group_systematic_data_ready.
  destruct (ec_some (ErasureCodec := EC)) as [vt Hvt]. rewrite Hvt, Hb, <- Hvt.
  rewrite (ask_ok Codec_is_systematic 1%Z d) by (by apply EC). cbn [Z.eqb].
  rewrite (ask_ok Codec_data_shards k d) by (by apply EC).
  rewrite (ask_ok Codec_parity_shards r d) by (by apply EC).
  pose proof (ec_k (ErasureCodec := EC)).
  rewrite Hn, Nat.eqb_refl, (proj2 (Nat.eqb_neq k 0)) by lia. done.
Qed.

Lemma agrees_data bits data e s b :
  agrees (k + r) bits data e -> forallb (codec_present_get bits) (seq 0 k) = true ->
  s < k -> b < PKG_SIZE -> cell PKG_SIZE data s b = cell PKG_SIZE e s b.
Proof.
  intros Hag Hf Hs Hb. apply Hag; [lia|done|]. rewrite forallb_forall in Hf.
  apply Hf, in_seq. lia.
Qed.

Lemma set_group_twice i a b (d : Dec) :
  set_group i b (set_codec_state (d_codec_state d) (set_group i a d)) = set_group i b d.
Proof.
  unfold set_group, set_groups, set_codec_state. cbn. f_equal. apply list_insert_insert_eq.
Qed.

Lemma try_recover_spec U busy i finalize d :
  dinv U busy d -> i < WIRE_FLOW_GROUP_WINDOW ->
  g_state (group_at (d_groups d) i) = WIRE_GROUP_ACTIVE ->
  (finalize = true -> busy = Some i \/ d_end_seen d = true) ->
  let '(res, d') := try_recover_group codec i finalize d in
  dinv U busy d' /\
  recovered_or_not i finalize (group_received_count (group_at (d_groups d) i)) d res d'.
Proof.
  intros H Hi Ha Hfin.
  assert (Ho : occupied (group_at (d_groups d) i)) by (unfold occupied; by rewrite Ha).
  destruct (di_groups _ _ _ H i Hi Ho) as [Hg Hwin]. pose proof (di_length _ _ _ H) as Hlen.
  unfold try_recover_group, recovered_or_not. set (g := group_at (d_groups d) i) in *.
  destruct Hg as [Hg1 Hg2 Hg3 (bits & data & Hb & Hd & Hlb & Hld & Hs)].
  rewrite Ha in Hs |- *. destruct Hs as [[Hag _] Hlast].
  destruct (ec_some (ErasureCodec := EC)) as [vt Hvt]. rewrite Hvt. rewrite <- Hvt.
  assert (Hcount : group_received_count g = length (present_shards bits (k + r)))
    by (unfold group_received_count; by rewrite Hb, Hg2).
  pose proof (ec_k (ErasureCodec := EC)) as Hk. pose proof (ec_n (ErasureCodec := EC)) as Hn.
  (* the two paths that need no decoding *)
  assert (Hfast : forallb (codec_present_get bits) (seq 0 k) = true ->
    let d' := mark_group_recovered i false d in
    dinv U busy d' /\ regroup i d d' /\
    if k <=? group_received_count g
    then WIRE_RECOVER_OK = WIRE_RECOVER_OK /\ g_state (group_at (d_groups d') i) = WIRE_GROUP_RECOVERED
    else if finalize then WIRE_RECOVER_OK = WIRE_RECOVER_FAILED /\
                          g_state (group_at (d_groups d') i) = WIRE_GROUP_FAILED
    else WIRE_RECOVER_OK = WIRE_RECOVER_PENDING /\ d' = d).
  { intros Hf d'. rewrite Hcount, (proj2 (Nat.leb_le k _)) by (by apply data_ready_count).
    destruct (mark_recovered_spec U busy i false d bits data H Hi Ho Hb Hd Hlb Hld) as (H1 & H2 & H3);
      [|done]. intros s b Hs Hbb. by apply (agrees_data bits). }
  destruct (group_all_shards_present g) eqn:Hall.
  { apply Hfast. unfold group_all_shards_present in Hall. rewrite Hb in Hall. case_match; [done|].
    rewrite Hg2, seq_app, forallb_app in Hall. by apply andb_true_iff in Hall as [? _]. }
  rewrite (systematic_ready_spec U busy g bits d H Hg2 Hb).
  destruct (forallb (codec_present_get bits) (seq 0 k)) eqn:Hf; [by apply Hfast|].
  rewrite (ask_ok Codec_data_shards k d) by (by apply EC, (di_ok _ _ _ H)).
  rewrite (proj2 (Nat.eqb_neq k 0)) by lia. cbn [orb].
  destruct (Nat.ltb_spec (group_received_count g) k) as [Hlt|Hge].
  { rewrite (proj2 (Nat.leb_gt k _)) by done.
    pose proof (fail_or_wait_spec U busy i finalize d H Hi Ha Hlt Hfin) as Hw.
    by destruct (fail_or_wait i finalize d). }
  rewrite (proj2 (Nat.leb_le k _)) by done.
  rewrite Hlast, (proj2 (Nat.eqb_neq (group_received_count g) 0)), andb_false_r by lia.
  cbn [g_data g_received_bits with_last_count g_shard_count]. rewrite Hd, Hb, Hg2.
  destruct (ec_recover (ErasureCodec := EC) (d_codec_state d) (st_block strm (g_block_id g)) data bits)
    as (buf' & Hrec & Hlen' & Hc'); try done.
  { by apply (di_ok _ _ _ H). }
  { by apply HS. }
  { rewrite Hld. symmetry. apply (ec_length (ErasureCodec := EC)), HS. }
  { by rewrite <- Hcount. }
  rewrite Hrec.
  set (g1 := with_data (Some buf') (with_last_count (group_received_count g) g)).
  set (g2 := with_state WIRE_GROUP_RECOVERED
               (with_bits (Some (codec_present_set_all bits (k + r))) g1)).
  assert (Hmark : mark_group_recovered i true
            (set_codec_state (d_codec_state d) (set_group i g1 d)) =
            count_stat groups_recovered (count_stat recovered_groups (set_group i g2 d))).
  { unfold mark_group_recovered.
    change (d_groups (set_codec_state (d_codec_state d) (set_group i g1 d)))
      with (d_groups (set_group i g1 d)). rewrite group_at_set by lia.
    change (g_received_bits g1) with (g_received_bits g). rewrite Hb.
    change (g_shard_count g1) with (g_shard_count g). rewrite Hg2. cbn [option_map].
    by rewrite set_group_twice. }
  assert (Hgood : good g2).
  { split; cbn; try done. eexists _, buf'. split_and!; try done.
    - by rewrite present_set_all_length.
    - by rewrite Hlen'. }
  rewrite Hmark. split; [do 2 apply dinv_count; apply dinv_set_group; congruence || done|].
  split; [do 2 apply regroup_stats; apply regroup_set; [lia|done]|]. split; [done|].
  change (g_state (group_at (d_groups (set_group i g2 d)) i) = WIRE_GROUP_RECOVERED).
  by rewrite group_at_set by lia.
Qed.

(** ** Writing a group and moving on *)

Record kept (d d' : Dec) : Prop := {
  kp_frame : frame d d';
  kp_expected : d_expected_shards d' = d_expected_shards d;
  kp_input : d_input_size d' = d_input_size d;
  kp_codec : d_codec_state d' = d_codec_state d }.

(** The head is gone from the window, its chunks are in the output. *)
Lemma dinv_advance U busy d d' chunks :
  dinv U busy d ->
  (forall i, busy = Some i -> g_block_id (group_at (d_groups d) i) = d_next_emit_block d) -> kept d d' -> (d_best_effort d = false -> d_next_emit_block d < U)%Z ->
  d_next_emit_block d' = (d_next_emit_block d + 1)%Z ->
  d_outputs d' = d_outputs d ++ chunks ->
  contribution (d_best_effort d) (d_next_emit_block d) chunks ->
  length (d_groups d') = WIRE_FLOW_GROUP_WINDOW ->
  (forall j, j < WIRE_FLOW_GROUP_WINDOW -> occupied (group_at (d_groups d') j) ->
     group_at (d_groups d') j = group_at (d_groups d) j /\
     g_block_id (group_at (d_groups d) j) <> d_next_emit_block d) ->
  (forall j, j < WIRE_FLOW_GROUP_WINDOW ->
     g_block_id (group_at (d_groups d) j) <> d_next_emit_block d ->
     group_at (d_groups d') j = group_at (d_groups d) j) ->
  dinv U None d'.
Proof.
  intros [] Hbusy [[Hc Hbe Hec Hes] Hexp Hin Hst] Hreach Hnext Hout Hcon Hlen Hgr Hsame.
  assert (Hocc : forall j, j < WIRE_FLOW_GROUP_WINDOW -> occupied (group_at (d_groups d') j) ->
            occupied (group_at (d_groups d) j))
    by (intros j Hj Ho; destruct (Hgr j Hj Ho) as [<- _]; done).
  split; rewrite ?Hst, ?Hexp, ?Hin, ?Hnext, ?Hec, ?Hbe, ?Hout; try done; try lia.
  - intros j Hj Ho. destruct (Hgr j Hj Ho) as [-> Hne].
    destruct (di_groups0 j Hj (Hocc j Hj Ho)). split; [done|]. lia.
  - intros j Hj _ Ha. assert (Ho : occupied (group_at (d_groups d') j)) by (unfold occupied; by rewrite Ha).
    destruct (Hgr j Hj Ho) as [E Hne]. rewrite E in Ha |- *. apply di_settled0; [done| |done].
    intros Hb. by apply Hne, Hbusy.
  - intros j Hj _ Ha. assert (Ho : occupied (group_at (d_groups d') j)) by (unfold occupied; by rewrite Ha).
    destruct (Hgr j Hj Ho) as [E Hne]. rewrite E in Ha. rewrite Hes. apply (di_failed0 j); [done| |done].
    intros Hb. by apply Hne, Hbusy.
  - intros id s Hr. destruct (di_seen0 id s Hr) as [?|(j & Hj & Ho & Hid)]; [left; lia|].
    destruct (Z.eq_dec id (d_next_emit_block d)) as [->|Hne]; [left; lia|right].
    exists j. rewrite (Hsame j Hj) by congruence. done.
  - intros i j Hi Hj Hoi Hoj. destruct (Hgr i Hi Hoi) as [-> _], (Hgr j Hj Hoj) as [-> _]. auto.
  - intros Hs. specialize (Hreach Hs). lia.
  - destruct di_out0 as (parts & Hpl & Hpo & Hpc). exists (parts ++ [chunks]). split_and!.
    + rewrite length_app. simpl. lia.
    + by rewrite concat_app, Hpo; simpl; rewrite app_nil_r.
    + intros i c [Hi|[Hi Hi2]]%lookup_app_Some; [by apply Hpc|].
      destruct (i - length parts) as [|m] eqn:E; simpl in Hi2; [|done].
      simplify_eq. replace (Z.of_nat i) with (d_next_emit_block d) by lia. done.
Qed.

(** How the window changes in a step: a group that is not passed keeps its block and is left
    alone, recovered or given up. *)
Record evolves (d d' : Dec) : Prop := {
  ev_frame : frame d d';
  ev_next : (d_next_emit_block d <= d_next_emit_block d')%Z;
  ev_groups : forall i, i < WIRE_FLOW_GROUP_WINDOW -> occupied (group_at (d_groups d) i) ->
    (d_next_emit_block d' <= g_block_id (group_at (d_groups d) i))%Z ->
    g_block_id (group_at (d_groups d') i) = g_block_id (group_at (d_groups d) i) /\
    (group_at (d_groups d') i = group_at (d_groups d) i \/
     g_state (group_at (d_groups d') i) = WIRE_GROUP_RECOVERED \/
     (g_state (group_at (d_groups d') i) = WIRE_GROUP_FAILED /\
      (d_best_effort d = true \/ d_end_seen d = true)));
  ev_old : forall i, i < WIRE_FLOW_GROUP_WINDOW -> occupied (group_at (d_groups d') i) ->
    occupied (group_at (d_groups d) i) /\
    g_block_id (group_at (d_groups d') i) = g_block_id (group_at (d_groups d) i) }.

#[local] Instance evolves_preorder : PreOrder evolves.
Proof using Type. clear Hquota.
  split; [intros d; split; [done|lia|auto|auto]|].
  intros a b c [Fab Nab Gab Oab] [Fbc Nbc Gbc Obc].
  split; [by etrans|lia| |].
  2:{ intros i Hi Ho. destruct (Obc i Hi Ho) as [Ho' ->]. by apply Oab. }
  intros i Hi Ho Hn. destruct (Gab i Hi Ho) as [Eab Hab]; [lia|].
  assert (Hob : occupied (group_at (d_groups b) i))
    by (unfold occupied; destruct Hab as [->|[->|[-> _]]]; done).
  destruct (Gbc i Hi Hob) as [Ebc Hbc]; [lia|]. split; [congruence|].
  rewrite (fr_best _ _ Fab), (fr_seen _ _ Fab) in Hbc.
  destruct Hbc as [E|?]; [|by right]. rewrite E. exact Hab.
Qed.

Definition ev_best d d' (H : evolves d d') := fr_best _ _ (ev_frame _ _ H).
Definition ev_count d d' (H : evolves d d') := fr_count _ _ (ev_frame _ _ H).
Definition ev_seen d d' (H : evolves d d') := fr_seen _ _ (ev_frame _ _ H).
Definition ev_complete d d' (H : evolves d d') := fr_complete _ _ (ev_frame _ _ H).

Lemma evolves_regroup i d d' :
  regroup i d d' -> i < WIRE_FLOW_GROUP_WINDOW -> occupied (group_at (d_groups d) i) ->
  (d' = d \/ g_state (group_at (d_groups d') i) = WIRE_GROUP_RECOVERED \/
   (g_state (group_at (d_groups d') i) = WIRE_GROUP_FAILED /\
    (d_best_effort d = true \/ d_end_seen d = true))) ->
  evolves d d'.
Proof using Type. clear Hquota.
  intros [] Hi Hoi Hs. split; [done|lia| |].
  - intros j Hj Ho Hn.
    destruct (decide (j = i)) as [->|Hne]; [|by rewrite rg_others0 by done; auto].
    split; [done|]. destruct Hs as [->|?]; auto.
  - intros j Hj. destruct (decide (j = i)) as [->|Hne]; [done|]. by rewrite rg_others0.
Qed.

Lemma evolves_release i (d d' : Dec) :
  length (d_groups d) = WIRE_FLOW_GROUP_WINDOW -> i < WIRE_FLOW_GROUP_WINDOW ->
  g_block_id (group_at (d_groups d) i) = d_next_emit_block d ->
  d_groups d' = <[i := release_group]> (d_groups d) -> frame d d' ->
  (d_next_emit_block d < d_next_emit_block d')%Z -> evolves d d'.
Proof using Type. clear Hquota.
  intros Hlen Hi Hid Hg Hf Hn. split; [done|lia| |].
  - intros j Hj Ho Hnj. rewrite Hg, group_at_insert by lia. case_decide; [subst; lia|auto].
  - intros j Hj. rewrite Hg, group_at_insert by lia. case_decide; [by intros []|auto].
Qed.

Lemma evolves_next (d d' : Dec) :
  d_groups d' = d_groups d -> frame d d' ->
  (d_next_emit_block d <= d_next_emit_block d')%Z -> evolves d d'.
Proof using Type. clear Hquota. 
  intros Hg Hf Hn. split; [done|done| |]; intros j Hj Ho; rewrite Hg in *; auto.
Qed.

(** Slot [i], the head, is released. *)
Lemma release_head_groups U busy (d : Dec) i (d' : Dec) :
  dinv U busy d -> i < WIRE_FLOW_GROUP_WINDOW -> occupied (group_at (d_groups d) i) ->
  g_block_id (group_at (d_groups d) i) = d_next_emit_block d ->
  d_groups d' = <[i := release_group]> (d_groups d) ->
  length (d_groups d') = WIRE_FLOW_GROUP_WINDOW /\
  (forall j, j < WIRE_FLOW_GROUP_WINDOW -> occupied (group_at (d_groups d') j) ->
     group_at (d_groups d') j = group_at (d_groups d) j /\
     g_block_id (group_at (d_groups d) j) <> d_next_emit_block d) /\
  (forall j, j < WIRE_FLOW_GROUP_WINDOW ->
     g_block_id (group_at (d_groups d) j) <> d_next_emit_block d ->
     group_at (d_groups d') j = group_at (d_groups d) j).
Proof.
  intros H Hi Ho Hid Hgs. pose proof (di_length _ _ _ H) as Hlen. rewrite Hgs.
  split_and!; [by rewrite length_insert| |].
  2:{ intros j Hj Hne. rewrite group_at_insert by lia. case_decide; [subst; done|done]. }
  intros j Hj. rewrite group_at_insert by lia.
  case_decide as E; [by intros []|]. intros Hoj. split; [done|]. intros Hje.
  apply E. apply (di_unique _ _ _ H); try done. congruence.
Qed.

Lemma write_decoded_spec U busy i d :
  dinv U busy d -> i < WIRE_FLOW_GROUP_WINDOW ->
  g_state (group_at (d_groups d) i) = WIRE_GROUP_RECOVERED ->
  let id := g_block_id (group_at (d_groups d) i) in
  let '(b, d') := write_decoded_group codec out_ok clock realloc_ok i d in
  outcome b
    (kept d d' /\ d_next_emit_block d' = d_next_emit_block d /\
     d_groups d' = <[i := release_group]> (d_groups d) /\
     d_outputs d' = d_outputs d ++ whole (st_block strm id) (st_len strm id)).
Proof.
  intros H Hi Hr id.
  assert (Ho : occupied (group_at (d_groups d) i)) by (unfold occupied; by rewrite Hr).
  destruct (di_groups _ _ _ H i Hi Ho) as [Hg Hwin]. pose proof (di_length _ _ _ H) as Hlen.
  unfold write_decoded_group. subst id. set (g := group_at (d_groups d) i) in *.
  destruct Hg as [Hg1 Hg2 Hg3 (bits & data & Hb & Hd & Hlb & Hld & Hs)]. rewrite Hr in Hs |- *.
  destruct (ec_some (ErasureCodec := EC)) as [vt Hvt]. rewrite Hvt. rewrite <- Hvt.
  rewrite bool_decide_eq_true_2 by done. cbn [negb].
  rewrite (ask_ok Codec_input_block_size (k * PKG_SIZE) d) by (by apply EC, (di_ok _ _ _ H)).
  destruct (HS (g_block_id g)) as [Hcode Hvl]. pose proof (ec_k (ErasureCodec := EC)) as Hk.
  pose proof (ec_n (ErasureCodec := EC)) as Hn. pose proof pkg_size_value as Hpkg.
  rewrite Hg2, Hg3. rewrite (proj2 (Nat.eqb_neq (st_len strm _) 0)) by lia.
  rewrite (proj2 (Nat.ltb_ge (k * PKG_SIZE) _)) by lia.
  rewrite (proj2 (Nat.eqb_neq ((k + r) * PKG_SIZE) 0)) by nia.
  rewrite (proj2 (Z.ltb_ge _ _)) by (unfold CODEC_MAX_ENCODE_BLOCK; nia). cbn [orb].
  rewrite Hd, (ec_decode (ErasureCodec := EC)) by apply (di_ok _ _ _ H).
  unfold output. cbv zeta.
  match goal with |- context [negb (out_ok ?n)] => destruct (out_ok n) eqn:Hout end; cbn [negb];
    [|by eapply outcome_fails]. cbn [outcome]. clear Hout.
  assert (Hprefix : [prefix (Some data) (g_valid_len g)] =
                    whole (st_block strm (g_block_id g)) (st_len strm (g_block_id g))).
  { rewrite Hg3. unfold whole, prefix. cbn [default from_option]. f_equal.
    apply (take_cells k data _ (k + r)); try done; try lia.
    by apply (ec_length (ErasureCodec := EC)). }
  rewrite <- Hprefix.
  destruct (g_timing_valid _); (split; [by repeat split|]; split; [done|]; split; [|done]);
    cbn; apply list_insert_insert_eq.
Qed.

(** The head is written and the window moves on. *)
Lemma emit_head_spec U i d :
  dinv U None d -> i < WIRE_FLOW_GROUP_WINDOW ->
  g_state (group_at (d_groups d) i) = WIRE_GROUP_RECOVERED ->
  g_block_id (group_at (d_groups d) i) = d_next_emit_block d ->
  let '(b, d') := emit_head codec out_ok clock realloc_ok i d in
  outcome b
    (dinv U None d' /\ evolves d d' /\ d_next_emit_block d' = (d_next_emit_block d + 1)%Z /\
     (d_next_emit_block d < U)%Z).
Proof.
  intros H Hi Hr Hid. unfold emit_head.
  assert (Ho : occupied (group_at (d_groups d) i)) by (unfold occupied; by rewrite Hr).
  destruct (di_groups _ _ _ H i Hi Ho) as [_ Hwin].
  pose proof (write_decoded_spec U None i d H Hi Hr) as Hw. cbv zeta in Hw.
  destruct (write_decoded_group _ _ _ _ i d) as [b d1]. destruct b; cbn [negb]; [|done].
  destruct Hw as (Hk & Hn & Hg & Hout). cbn [outcome].
  pose proof (di_next _ _ _ H). pose proof (di_bound _ _ _ H).
  assert (Hnext : u64 (d_next_emit_block d1 + 1) = (d_next_emit_block d + 1)%Z)
    by (rewrite Hn; apply u64_small; unfold in_range; lia).
  destruct (release_head_groups U None d i (set_next (d_next_emit_block d + 1) d1) H Hi Ho Hid Hg)
    as (Hl & Hgr & Hsame). rewrite Hnext.
  split; [|split; [|split; [done|lia]]].
  - eapply dinv_advance; [exact H|done| | |done|exact Hout| |exact Hl|exact Hgr|exact Hsame].
    + destruct Hk as [[] ? ? ?]. by repeat split.
    + intros _. lia.
    + left. by rewrite Hid.
  - apply (evolves_release i); [apply (di_length _ _ _ H)|done|done|exact Hg| |cbn; lia].
    destruct Hk as [[] ? ? ?]. by repeat split.
Qed.

(** ** Writing part of a group and skipping the head *)

Lemma write_shards_spec bits data e count shard remaining (d : Dec) :
  length data = (k + r) * PKG_SIZE -> length e = (k + r) * PKG_SIZE ->
  agrees (k + r) bits data e -> shard + count <= k ->
  let '(b, d') := write_shards out_ok bits data shard count remaining d in
  outcome b
    (kept d d' /\ d_next_emit_block d' = d_next_emit_block d /\ d_groups d' = d_groups d /\
     d_outputs d' = d_outputs d ++ pieces (codec_present_get bits) e shard count remaining).
Proof.
  intros Hld Hle Hag. revert shard remaining d.
  induction count as [|count IH]; intros shard remaining d Hs; cbn [write_shards pieces].
  { cbn [outcome]. rewrite app_nil_r. by repeat split. }
  destruct (remaining =? 0).
  { cbn [outcome]. rewrite app_nil_r. by repeat split. }
  set (len := if PKG_SIZE <? remaining then PKG_SIZE else remaining).
  assert (Hlen : len <= PKG_SIZE) by (unfold len; bool_cases; lia).
  destruct (codec_present_get bits shard) eqn:Hp.
  - unfold output. destruct (out_ok _) eqn:Hcall; cbn [negb]; [|by eapply outcome_fails].
    match goal with |- context [write_shards _ _ _ _ _ _ ?x] => set (d1 := x) end.
    pose proof (IH (S shard) (remaining - len) d1 ltac:(lia)) as H.
    destruct (write_shards _ _ _ _ _ _ d1) as [b d'].
    destruct b; [|done]. destruct H as ([[] ? ? ?] & Hn & Hg & Ho).
    split; [by repeat split|]. split; [done|]. split; [done|]. rewrite Ho.
    change (d_outputs d1) with (d_outputs d ++ [take len (drop (shard * PKG_SIZE) data)]).
    rewrite <- app_assoc. do 2 f_equal. f_equal.
    apply (take_drop_cells _ _ (k + r)); try done; [lia|]. intros i Hi. apply Hag; done || lia.
  - match goal with |- context [write_shards _ _ _ _ _ _ ?x] => set (d1 := x) end.
    pose proof (IH (S shard) (remaining - len) d1 ltac:(lia)) as H.
    destruct (write_shards _ _ _ _ _ _ d1) as [b d'].
    destruct b; [|done]. destruct H as ([[] ? ? ?] & Hn & Hg & Ho).
    split; [by repeat split|]. split; [done|]. split; [done|]. by rewrite Ho.
Qed.

Definition waiting (g : WireGroup) : Prop :=
  g_state g = WIRE_GROUP_ACTIVE \/ g_state g = WIRE_GROUP_FAILED.

Lemma waiting_agrees g :
  good g -> waiting g -> exists bits data,
    g_received_bits g = Some bits /\ g_data g = Some data /\
    length data = (k + r) * PKG_SIZE /\ agrees (k + r) bits data (st_block strm (g_block_id g)) /\
    records bits (g_block_id g) /\
    (g_state g = WIRE_GROUP_ACTIVE -> group_received_count g = tally (g_block_id g)) /\
    (g_state g = WIRE_GROUP_FAILED -> tally (g_block_id g) < k).
Proof.
  intros [_ Hn _ (bits & data & Hb & Hd & _ & Hl & Hs)] [E|E]; rewrite E in Hs |- *; exists bits, data;
    destruct Hs as [[Hag Hrec] Hlast]; split_and!; try done.
  intros _. rewrite <- (records_tally bits) by done. unfold group_received_count. by rewrite Hb, Hn.
Qed.

Lemma write_best_effort_spec U busy i d :
  dinv U busy d -> i < WIRE_FLOW_GROUP_WINDOW -> waiting (group_at (d_groups d) i) ->
  let id := g_block_id (group_at (d_groups d) i) in
  let '(b, d') := write_best_effort_group codec out_ok i d in
  outcome b
    (kept d d' /\ d_next_emit_block d' = d_next_emit_block d /\
     d_groups d' = <[i := release_group]> (d_groups d) /\
     d_outputs d' = d_outputs d ++ pieces (R id) (st_block strm id) 0 k (st_len strm id)).
Proof.
  intros H Hi Hw id.
  assert (Ho : occupied (group_at (d_groups d) i)) by (destruct Hw as [E|E]; unfold occupied; by rewrite E).
  destruct (di_groups _ _ _ H i Hi Ho) as [Hg Hwin]. pose proof (di_ok _ _ _ H) as Hok.
  unfold write_best_effort_group. subst id. set (g := group_at (d_groups d) i) in *.
  destruct (waiting_agrees g Hg Hw) as (bits & data & Hb & Hd & Hld & Hag & Hrec & _ & _).
  destruct Hg as [Hg1 Hg2 Hg3 _].
  destruct (ec_some (ErasureCodec := EC)) as [vt Hvt]. rewrite Hvt. rewrite <- Hvt.
  rewrite (ask_ok Codec_allows_best_effort 1%Z d) by (by apply EC).
  rewrite (ask_ok Codec_input_block_size (k * PKG_SIZE) d) by (by apply EC).
  rewrite (ask_ok Codec_data_shards k d) by (by apply EC).
  rewrite (ask_ok Codec_parity_shards r d) by (by apply EC).
  rewrite (ask_ok Codec_is_systematic 1%Z d) by (by apply EC).
  destruct (HS (g_block_id g)) as [Hcode Hvl]. pose proof (ec_k (ErasureCodec := EC)) as Hk.
  rewrite Hg2, Hg3. rewrite (proj2 (Nat.eqb_neq (st_len strm _) 0)) by lia.
  rewrite (proj2 (Nat.ltb_ge (k * PKG_SIZE) _)) by lia. rewrite Nat.eqb_refl.
  rewrite (proj2 (Nat.eqb_neq k 0)) by lia. cbn [orb negb Z.eqb andb].
  rewrite Hd, Hb. cbn [default from_option].
  pose proof (write_shards_spec bits data (st_block strm (g_block_id g)) k 0
                (st_len strm (g_block_id g)) d Hld (ec_length _ Hcode) Hag ltac:(lia)) as Hws.
  destruct (write_shards out_ok _ _ 0 k _ d) as [b d1]. destruct b; cbn [negb]; [|done].
  destruct Hws as ([[] ? ? ?] & Hn & Hgs & Hout).
  split; [by repeat split|]. split; [done|]. split; [cbn; by rewrite Hgs|].
  cbn [d_outputs set_group set_groups]. rewrite Hout. f_equal. apply pieces_ext. intros s Hs.
  apply Hrec. lia.
Qed.

(** The head: missing, or a group that cannot be emitted as a whole. *)
Definition skippable (d : Dec) (head : option nat) : Prop :=
  find_group (d_groups d) (d_next_emit_block d) = head /\
  match head with
  | None => True
  | Some i => waiting (group_at (d_groups d) i)
  end.

Lemma skip_spec U busy head d :
  dinv U busy d -> (forall i, busy = Some i -> head = Some i) ->
  (busy = None \/ exists i, head = Some i /\ g_state (group_at (d_groups d) i) = WIRE_GROUP_FAILED) ->
  d_best_effort d = true -> skippable d head ->
  (d_next_emit_block d + 1 < 2 ^ 64)%Z ->
  let '(b, d') := skip_unrecoverable_head codec out_ok head d in
  outcome b
    (dinv U None d' /\ evolves d d' /\ d_next_emit_block d' = (d_next_emit_block d + 1)%Z).
Proof.
  intros H Hbusy Hst Hbe [Hfind Hw] Hbound. unfold skip_unrecoverable_head.
  pose proof (di_ok _ _ _ H) as Hok. pose proof (di_next _ _ _ H) as Hnn.
  pose proof (di_length _ _ _ H) as Hlen.
  destruct head as [i|].
  - apply find_group_Some in Hfind as (Hi & Ho & Hid). rewrite Hlen in Hi.
    rewrite (ask_ok Codec_allows_best_effort 1%Z d) by (by apply EC).
    destruct (di_groups _ _ _ H i Hi Ho) as [Hg Hwin].
    destruct (waiting_agrees _ Hg Hw) as (bits & data & Hb & Hd & _ & _ & _ & Hact & Hfail).
    rewrite Hd, Hb.
    assert (Hfew : tally (d_next_emit_block d) < k).
    { rewrite <- Hid. destruct Hw as [Ha|Hf]; [|by apply Hfail]. rewrite <- Hact by done.
      eapply Nat.lt_le_trans; [apply (di_settled _ _ _ H i)|done]; try done.
      destruct Hst as [->|(j & [= <-] & Hj)]; congruence. }
    destruct (HS (g_block_id (group_at (d_groups d) i))) as [_ Hvl].
    rewrite (good_len _ Hg), (proj2 (Nat.ltb_lt 0 _)) by lia. cbn [Z.eqb negb andb].
    pose proof (write_best_effort_spec U busy i d H Hi Hw) as Hwb. cbv zeta in Hwb.
    destruct (write_best_effort_group _ _ i d) as [b d1]. destruct b; cbn [negb]; [|done].
    destruct Hwb as (Hk & Hn & Hgs & Hout).
    set (d2 := set_next _ _).
    assert (Hnext : d_next_emit_block d2 = (d_next_emit_block d + 1)%Z).
    { unfold d2. cbn. rewrite Hn. apply u64_small. unfold in_range. lia. }
    destruct (release_head_groups U busy d i d2 H Hi Ho Hid Hgs) as (Hl & Hgr & Hsame).
    split; [|split; [|done]].
    2:{ apply (evolves_release i); [done|done|done|exact Hgs| |lia].
        destruct Hk as [[] ? ? ?]. by repeat split. }
    eapply dinv_advance; [exact H| | | |exact Hnext|exact Hout| |exact Hl|exact Hgr|exact Hsame].
    + intros j Hj. apply Hbusy in Hj as [= <-]. done.
    + destruct Hk as [[] ? ? ?]. by repeat split.
    + congruence.
    + right. rewrite Hid. done.
  - cbn [negb]. set (d2 := set_next _ _).
    assert (Hnext : d_next_emit_block d2 = (d_next_emit_block d + 1)%Z).
    { unfold d2. cbn. apply u64_small. unfold in_range. lia. }
    split; [|split; [apply evolves_next; [done|by repeat split|lia]|done]].
    assert (Hnone : forall s, R (d_next_emit_block d) s = false).
    { intros s. destruct (R _ s) eqn:E; [exfalso|done].
      destruct (di_seen _ _ _ H _ s E) as [?|(j & Hj & Ho & Hid)]; [lia|].
      apply (find_group_None _ _ j Hfind); [lia|done|done]. }
    eapply (dinv_advance U busy d d2 []);
      [exact H|intros j Hj; by apply Hbusy in Hj|by repeat split|congruence|exact Hnext| | |done| |done].
    + cbn. by rewrite app_nil_r.
    + right. split; [done|]. split.
      * unfold tally. rewrite (filter_ext _ (fun _ => false) Hnone).
        pose proof (ec_k (ErasureCodec := EC)). by induction (seq 0 (k + r)).
      * rewrite (pieces_ext _ (fun _ => false)) by done. by rewrite pieces_nothing.
    + intros j Hj Hoj. split; [done|]. apply (find_group_None _ _ j Hfind); [lia|done].
Qed.

(** ** The emit loop *)

Lemma find_group_unique U busy i d :
  dinv U busy d -> i < WIRE_FLOW_GROUP_WINDOW -> occupied (group_at (d_groups d) i) ->
  find_group (d_groups d) (g_block_id (group_at (d_groups d) i)) = Some i.
Proof.
  intros H Hi Ho. pose proof (di_length _ _ _ H) as Hlen.
  destruct (find_group (d_groups d) _) as [j|] eqn:E.
  - apply find_group_Some in E as (Hj & Hoj & Hid). f_equal.
    apply (di_unique _ _ _ H); try done; lia.
  - exfalso. apply (find_group_None _ _ i E); [lia|done|done].
Qed.

(** An active head is below the threshold and is given up. *)
Lemma fail_head_spec U i d :
  dinv U None d -> find_group (d_groups d) (d_next_emit_block d) = Some i ->
  g_state (group_at (d_groups d) i) = WIRE_GROUP_ACTIVE -> d_best_effort d = true ->
  let '(res, d') := try_recover_group codec i true d in
  res = WIRE_RECOVER_FAILED /\ dinv U (Some i) d' /\ evolves d d' /\
  d_next_emit_block d' = d_next_emit_block d /\ skippable d' (Some i) /\
  g_state (group_at (d_groups d') i) = WIRE_GROUP_FAILED.
Proof.
  intros H Hfind Ha Hbe. apply find_group_Some in Hfind as (Hi & Ho & Hid).
  rewrite (di_length _ _ _ H) in Hi.
  pose proof (try_recover_spec U (Some i) i true d (dinv_busy U i d H) Hi Ha ltac:(by left)) as Hr.
  destruct (try_recover_group codec i true d) as [res d']. destruct Hr as [H' [Hrg Hres]].
  rewrite (proj2 (Nat.leb_gt k _)) in Hres by (eapply Nat.lt_le_trans; [by apply (di_settled _ _ _ H)|done]).
  destruct Hres as [-> Hf]. split_and!; [done|done| |apply Hrg| |done].
  { apply (evolves_regroup i); auto. }
  split; [|by right].
  rewrite (rg_next _ _ _ Hrg), <- Hid, <- (rg_id _ _ _ Hrg).
  apply (find_group_unique U (Some i)); try done. unfold occupied. by rewrite Hf.
Qed.

Lemma later_waiting_below U d :
  dinv U None d -> later_recovered_waiting d = true -> (d_next_emit_block d + 1 < U)%Z.
Proof.
  intros H Hw. unfold later_recovered_waiting in Hw. apply existsb_exists in Hw as (g & Hin & Hg).
  apply andb_true_iff in Hg as [Hs Hid]. case_bool_decide; [|done].
  apply list_elem_of_In, list_elem_of_lookup in Hin as [i Hi].
  pose proof (lookup_lt_Some _ _ _ Hi) as Hlt. rewrite (di_length _ _ _ H) in Hlt.
  assert (Hat : group_at (d_groups d) i = g) by (unfold group_at; by apply nth_lookup_Some).
  destruct (di_groups _ _ _ H i Hlt) as [_ Hw]; rewrite Hat in *; [by unfold occupied; congruence|lia].
Qed.

(** Nothing more can be emitted. *)
Definition stuck (d : Dec) : Prop :=
  (d_end_seen d = true /\ (d_next_emit_block d >= d_end_block_count d)%Z) \/
  ((forall i, find_group (d_groups d) (d_next_emit_block d) = Some i ->
      g_state (group_at (d_groups d) i) <> WIRE_GROUP_RECOVERED) /\
   (d_best_effort d = true -> d_end_seen d = true -> exists i,
      find_group (d_groups d) (d_next_emit_block d) = Some i /\
      g_state (group_at (d_groups d) i) = WIRE_GROUP_ACTIVE)).

Definition emitted (U : Z) (d : Dec) (res : option (bool * Dec)) : Prop :=
  exists b d', res = Some (b, d') /\
    outcome b (dinv U None d' /\ evolves d d' /\ stuck d').

Lemma emitted_trans U d d1 res :
  evolves d d1 -> emitted U d1 res -> emitted U d res.
Proof.
  intros Hf (b & d' & -> & H). exists b, d'. split; [done|]. destruct b; [|done].
  destruct H as (H1 & H2 & H3). split_and!; [done|by etrans|done].
Qed.

Ltac stop_here :=
  eexists true, _; split; [done|]; split_and!; [done..|]; right;
  split; [intros ? ?; congruence|intros; first [congruence|by eexists]].

Lemma emit_loop_spec U fuel d :
  dinv U None d -> 1 <= fuel ->
  (Z.max U (d_end_block_count d) - d_next_emit_block d < Z.of_nat fuel)%Z ->
  emitted U d (emit_loop codec out_ok clock realloc_ok fuel d).
Proof.
  revert d. induction fuel as [|fuel IH]; intros d H Hf1 Hfuel; [lia|]. cbn [emit_loop].
  pose proof (di_bound _ _ _ H) as HU. pose proof (di_end _ _ _ H) as HE.
  pose proof (di_length _ _ _ H) as Hlen.
  (* moving on to the next turn *)
  assert (Hturn : forall d1, dinv U None d1 -> evolves d d1 ->
            d_next_emit_block d1 = (d_next_emit_block d + 1)%Z ->
            (d_next_emit_block d < Z.max U (d_end_block_count d))%Z ->
            emitted U d (emit_loop codec out_ok clock realloc_ok fuel d1)).
  { intros d1 H1 Hfr Hn Hlt. eapply emitted_trans; [done|].
    apply IH; [done|lia|]. rewrite (ev_count _ _ Hfr), Hn. lia. }
  assert (Hskip : forall busy d1 head, dinv U busy d1 -> (forall i, busy = Some i -> head = Some i) ->
            (busy = None \/ exists i, head = Some i /\
               g_state (group_at (d_groups d1) i) = WIRE_GROUP_FAILED) ->
            evolves d d1 -> d_best_effort d = true ->
            d_next_emit_block d1 = d_next_emit_block d -> skippable d1 head ->
            (d_next_emit_block d < Z.max U (d_end_block_count d))%Z ->
            emitted U d (let '(ok0, d2) := skip_unrecoverable_head codec out_ok head d1 in
                         if negb ok0 then Some (false, d2)
                         else emit_loop codec out_ok clock realloc_ok fuel d2)).
  { intros busy d1 head H1 Hbusy Hst Hfr Hbe Hn Hsk Hlt.
    pose proof (skip_spec U busy head d1 H1 Hbusy Hst ltac:(by rewrite (ev_best _ _ Hfr)) Hsk ltac:(lia)) as Hs.
    destruct (skip_unrecoverable_head codec out_ok head d1) as [b d2].
    destruct b; cbn [negb]; [|by eexists false, _].
    destruct Hs as (H2 & Hfr2 & Hn2). apply Hturn; [done|by etrans|lia|done]. }
  destruct (d_end_seen d && _) eqn:Hend.
  { apply andb_true_iff in Hend as [He Hge]. eexists true, _. split; [done|].
    split_and!; [done|done|]. left. split; [done|]. lia. }
  destruct (find_group (d_groups d) (d_next_emit_block d)) as [i|] eqn:Hfind.
  - pose proof Hfind as Hfind'. apply find_group_Some in Hfind' as (Hi & Ho & Hid).
    rewrite Hlen in Hi. destruct (di_groups _ _ _ H i Hi Ho) as [Hgood Hwin].
    destruct (g_state (group_at (d_groups d) i)) eqn:Hs; [done| | | |].
    + (* ACTIVE *)
      rewrite bool_decide_eq_false_2 by done. rewrite andb_false_r.
      destruct (d_best_effort d) eqn:Hbe.
      2:{ stop_here. }
      unfold head_below_recover_threshold. rewrite Hs.
      destruct (ec_some (ErasureCodec := EC)) as [vt Hvt]. rewrite Hvt. rewrite <- Hvt.
      rewrite (ask_ok Codec_data_shards k d) by (by apply EC, (di_ok _ _ _ H)).
      destruct (_ && later_recovered_waiting d) eqn:Hw.
      * apply andb_true_iff in Hw as [_ Hw]. apply (later_waiting_below U) in Hw; [|done].
        pose proof (fail_head_spec U i d H Hfind Hs Hbe) as Hfail.
        destruct (try_recover_group codec i true d) as [res d1].
        destruct Hfail as (-> & H1 & Hfr & Hn1 & Hsk & Hfd).
        rewrite bool_decide_eq_false_2 by done.
        apply (Hskip (Some i)); try done; [right; by exists i|lia].
      * stop_here.
    + (* RECOVERED *)
      pose proof (emit_head_spec U i d H Hi Hs Hid) as Hem.
      destruct (emit_head codec out_ok clock realloc_ok i d) as [b d1].
      destruct b; cbn [negb]; [|by eexists false, _].
      destruct Hem as (H1 & Hfr & Hn1 & Hlt). apply Hturn; try done. lia.
    + (* EMITTED *)
      exfalso. destruct Hgood as [_ _ _ (bits & data & _ & _ & _ & _ & Hfalse)].
      by rewrite Hs in Hfalse.
    + (* FAILED *)
      rewrite bool_decide_eq_true_2 by done. cbn [orb]. rewrite andb_true_r.
      destruct (d_best_effort d) eqn:Hbe; cbn [andb].
      2:{ stop_here. }
      assert (Hsk : skippable d (Some i)) by (split; [done|by right]).
      destruct (d_end_seen d) eqn:He; cbn [andb] in Hend |- *.
      * apply (Hskip None); try done; [by left|lia].
      * unfold head_below_recover_threshold. rewrite Hs. cbn [andb].
        destruct (later_recovered_waiting d) eqn:Hw.
        -- apply (later_waiting_below U) in Hw; [|done]. apply (Hskip None); try done; [by left|lia].
        -- stop_here.
  - assert (Hsk : skippable d None) by done. cbn [orb]. rewrite andb_true_r.
    destruct (d_best_effort d) eqn:Hbe; cbn [andb].
    2:{ stop_here. }
    destruct (d_end_seen d) eqn:He; cbn [andb] in Hend |- *.
    + apply (Hskip None); try done; [by left|lia].
    + cbn [head_below_recover_threshold andb]. destruct (later_recovered_waiting d) eqn:Hw.
      * apply (later_waiting_below U) in Hw; [|done]. apply (Hskip None); try done; [by left|lia].
      * stop_here.
Qed.

End Spec.
