(* ===== verification/WireDecoderRun.v ===== *)
(** * Runs of the reassembly code

    The operations of wire_flow_decoder.c that put the steps of [WireDecoderSpec] together: making
    room, the end of the stream, and the ingestion of one datagram.  The invariant is preserved by
    every honest datagram and by every malformed one; a shard that is used joins the set of those
    that came in time ([mark]). *)

From Stdlib Require Import Strings.Byte.
From S2P Require Import Prelude WireHeader Gf256 ByteVec RsEncode Codec CodecSpec RsRecover.
From S2P Require Import CodecInterface WireDecoder WireDecoderSpec.

#[local] Opaque PKG_SIZE.
#[local] Existing Instance frame_preorder.
#[local] Existing Instance evolves_preorder.

(** A datagram as it reaches [wire_flow_decoder_ingest], and whether the allocations made for it
    succeed. *)
Record Datagram := mkDatagram {
  dg_header : WireHeader;
  dg_payload : option (list byte);
  dg_len : nat;
  dg_calloc : bool }.

Section Run.
Context {St : Type} (codec : option (CodecVTable St)) (ok : St -> Prop) (k r : nat).
Context (code : list byte -> Prop) (EC : ErasureCodec codec ok k r code).
Context (out_ok : nat -> bool) (clock : nat -> Z) (realloc_ok : bool).
Context (strm : Stream) (HS : stream_ok k code strm).

(** The blocks of the stream have ids below [top]. *)
Context (top : Z) (Htop : (top + Z.of_nat WIRE_FLOW_GROUP_WINDOW <= 2 ^ 64)%Z).

Abbreviation Dec := (WireFlowDecoder St).
Abbreviation inv := (dinv ok k r strm).

(** A result other than an exhausted fuel; [P] holds of the state when it is a success, and a
    failure is one of the output callback. *)
Definition yields (P : Dec -> Prop) (res : option (bool * Dec)) : Prop :=
  exists b d', res = Some (b, d') /\ outcome out_ok b (P d').

Lemma yields_mono (P Q : Dec -> Prop) res : (forall d, P d -> Q d) -> yields P res -> yields Q res.
Proof. intros HPQ (b & d' & -> & H). exists b, d'. destruct b; cbn in *; auto. Qed.

Lemma yields_ret (P : Dec -> Prop) d : P d -> yields P (Some (true, d)).
Proof. intros H. by exists true, d. Qed.

Lemma yields_fail (P : Dec -> Prop) Q d : outcome out_ok false Q -> yields P (Some (false, d)).
Proof. by exists false, d. Qed.

Lemma yields_bind (P Q : Dec -> Prop) res (f : Dec -> option (bool * Dec)) :
  yields P res -> (forall d, P d -> yields Q (f d)) ->
  yields Q (match res with
            | None => None
            | Some (false, d) => Some (false, d)
            | Some (true, d) => f d
            end).
Proof.
  intros (b & d' & -> & H) Hf. destruct b; [by apply Hf, H|by eapply yields_fail].
Qed.

(** The bound of the window may be raised. *)
Lemma inv_raise {R} q U U' busy d :
  inv R q U busy d -> (U <= U' <= d_next_emit_block d + Z.of_nat WIRE_FLOW_GROUP_WINDOW)%Z ->
  (U' < 2 ^ 64)%Z -> inv R q U' busy d.
Proof.
  intros [] HU HU'. split; try done; try lia.
  - intros i Hi Ho. destruct (di_groups i Hi Ho). split; [done|lia].
  - intros Hs. specialize (di_reach Hs). lia.
Qed.

Lemma inv_weaken {R} q q' U busy d : q <= q' -> inv R q U busy d -> inv R q' U busy d.
Proof.
  intros Hq []. split; try done. intros i Hi Hb Ha. eapply Nat.lt_le_trans; [by apply di_settled|done].
Qed.

(** ** Emitting from the head *)

Lemma try_emit_spec {R} q U d :
  q <= k -> inv R q U None d ->
  emitted ok k r out_ok strm R q U d (try_emit_from_head codec out_ok clock realloc_ok d).
Proof.
  intros Hq H. pose proof (di_window _ _ _ _ _ _ _ _ _ H). unfold try_emit_from_head, emit_fuel.
  eapply emit_loop_spec; [done|done|done|done|lia|]. unfold WIRE_FLOW_GROUP_WINDOW in *. lia.
Qed.

(** ** Making room *)

Definition moved (R : Z -> nat -> bool) (U : Z) (d d' : Dec) : Prop :=
  inv R k U None d' /\ evolves d d'.

Lemma make_room_loop_spec {R} U block_id fuel guard d :
  inv R k U None d -> d_best_effort d = true -> (block_id < 2 ^ 64)%Z ->
  (Z.of_nat (WIRE_FLOW_GROUP_WINDOW - guard) + Z.max 0 (U - d_next_emit_block d) <
     Z.of_nat fuel)%Z ->
  yields (moved R U d) (make_room_loop codec out_ok clock realloc_ok fuel block_id guard d).
Proof.
  revert guard d. induction fuel as [|fuel IH]; intros guard d H Hbe Hid Hfuel; [lia|].
  cbn [make_room_loop].
  destruct (block_needs_room d block_id && _) eqn:Hroom; cbn [negb];
    [|apply yields_ret; split; [done|reflexivity]].
  apply andb_true_iff in Hroom as [_ Hguard%Nat.ltb_lt].
  destruct (d_next_emit_block d >=? block_id)%Z eqn:Hge; [apply yields_ret; split; [done|reflexivity]|].
  assert (Hturn : forall d1 guard1, inv R k U None d1 -> evolves d d1 ->
            d_next_emit_block d1 = (d_next_emit_block d + 1)%Z ->
            (guard1 = S guard \/ guard1 = guard /\ (d_next_emit_block d < U)%Z) ->
            yields (moved R U d) (make_room_loop codec out_ok clock realloc_ok fuel block_id guard1 d1)).
  { intros d1 guard1 H1 Hfr Hn Hg. eapply yields_mono, IH; [|done| |done|].
    - intros d2 (H2 & Hfr2). split; [done|by etrans].
    - by rewrite (ev_best _ _ Hfr).
    - rewrite Hn. destruct Hg as [->|[-> Hlt]]; lia. }
  assert (Hskip : forall busy d1 head, inv R k U busy d1 ->
            (forall i, busy = Some i -> head = Some i) ->
            (busy = None \/ exists i, head = Some i /\
               g_state (group_at (d_groups d1) i) = WIRE_GROUP_FAILED) ->
            evolves d d1 -> d_next_emit_block d1 = d_next_emit_block d -> skippable d1 head ->
            yields (moved R U d)
              (let '(ok0, d2) := skip_unrecoverable_head codec out_ok head d1 in
               if negb ok0 then Some (false, d2)
               else make_room_loop codec out_ok clock realloc_ok fuel block_id (S guard) d2)).
  { intros busy d1 head H1 Hbusy Hst Hfr Hn Hsk.
    pose proof (skip_spec codec ok k r code EC out_ok strm R HS k ltac:(done) U busy head d1 H1
                  Hbusy Hst ltac:(by rewrite (ev_best _ _ Hfr)) Hsk ltac:(lia)) as Hs.
    destruct (skip_unrecoverable_head codec out_ok head d1) as [b d2].
    destruct b; cbn [negb]; [|by eapply yields_fail].
    destruct Hs as (H2 & Hfr2 & Hn2). apply Hturn; [done|by etrans|lia|by left]. }
  destruct (find_group (d_groups d) (d_next_emit_block d)) as [i|] eqn:Hfind;
    [|apply (Hskip None d None); first [done|reflexivity|by left]].
  pose proof Hfind as Hfind'. apply find_group_Some in Hfind' as (Hi & Ho & Hgid).
  rewrite (di_length _ _ _ _ _ _ _ _ _ H) in Hi.
  destruct (di_groups _ _ _ _ _ _ _ _ _ H i Hi Ho) as [Hgood Hwin].
  destruct (g_state (group_at (d_groups d) i)) eqn:Hs; [done| | | |].
  - pose proof (fail_head_spec codec ok k r code EC strm R HS k ltac:(done) U i d H Hfind Hs Hbe) as Hf.
    destruct (try_recover_group codec i true d) as [res d1].
    destruct Hf as (-> & H1 & Hfr & Hn1 & Hsk & Hfd). rewrite bool_decide_eq_false_2 by done.
    apply (Hskip (Some i)); try done. right. by exists i.
  - pose proof (emit_head_spec codec ok k r code EC out_ok clock realloc_ok strm R HS k ltac:(done) U i d H Hi Hs
                  Hgid) as Hem.
    destruct (emit_head codec out_ok clock realloc_ok i d) as [b d1].
    destruct b; cbn [negb]; [|by eapply yields_fail].
    destruct Hem as (H1 & Hfr & Hn1 & Hlt). apply Hturn; try done. by right.
  - exfalso. destruct Hgood as [_ _ _ (bits & data & _ & _ & _ & _ & Hfalse)].
    by rewrite Hs in Hfalse.
  - apply (Hskip None); try done; [by left|]. split; [done|by right].
Qed.

Lemma make_room_spec {R} U block_id d :
  inv R k U None d -> (block_id < 2 ^ 64)%Z ->
  yields (moved R U d) (make_room_for_block codec out_ok clock realloc_ok block_id d).
Proof.
  intros H Hid. unfold make_room_for_block.
  destruct (d_best_effort d) eqn:Hbe; cbn [negb]; [|apply yields_ret; split; [done|reflexivity]].
  pose proof (di_window _ _ _ _ _ _ _ _ _ H). apply make_room_loop_spec; try done.
  unfold ROOM_FUEL, WIRE_FLOW_GROUP_WINDOW in *. lia.
Qed.

(** ** The end of the stream *)

Lemma finalize_spec {R} U d :
  inv R k U None d -> d_end_seen d = true ->
  let d' := finalize_active_groups codec d in
  inv R 0 U None d' /\ evolves d d' /\ d_next_emit_block d' = d_next_emit_block d.
Proof.
  intros H He d'. unfold d', finalize_active_groups.
  assert (Hloop : let d1 := for_ WIRE_FLOW_GROUP_WINDOW (fun index d =>
       if bool_decide (g_state (group_at (d_groups d) index) = WIRE_GROUP_ACTIVE)
       then snd (try_recover_group codec index true d) else d) d in
     inv R k U None d1 /\ evolves d d1 /\ d_next_emit_block d1 = d_next_emit_block d /\
     forall j, j < WIRE_FLOW_GROUP_WINDOW ->
       g_state (group_at (d_groups d1) j) <> WIRE_GROUP_ACTIVE).
  { apply (for_ind (fun n (d1 : Dec) =>
      inv R k U None d1 /\ evolves d d1 /\ d_next_emit_block d1 = d_next_emit_block d /\
      forall j, j < n -> g_state (group_at (d_groups d1) j) <> WIRE_GROUP_ACTIVE)).
    - split_and!; [done|reflexivity|done|lia].
    - intros i d1 Hi (H1 & Hf1 & Hn1 & Ha1). case_bool_decide as Hact.
      + pose proof (try_recover_spec codec ok k r code EC strm R HS k ltac:(done) U None i true
                    d1 H1 Hi Hact ltac:(right; by rewrite (ev_seen _ _ Hf1))) as Hr.
        destruct (try_recover_group codec i true d1) as [res d2]. destruct Hr as (H2 & Hrg & Hres).
        assert (Hst : g_state (group_at (d_groups d2) i) = WIRE_GROUP_RECOVERED \/
                      g_state (group_at (d_groups d2) i) = WIRE_GROUP_FAILED)
          by (destruct (k <=? _); destruct Hres; auto).
        cbn [snd]. split_and!; [done| |by rewrite (rg_next _ _ _ Hrg)|].
        * etrans; [done|]. apply (evolves_regroup i); [done|done|by unfold occupied; rewrite Hact|].
          right. rewrite (ev_seen _ _ Hf1). naive_solver.
        * intros j Hj. destruct (decide (j = i)) as [->|Hne]; [naive_solver congruence|].
          rewrite (rg_others _ _ _ Hrg j Hne). apply Ha1. lia.
      + split_and!; try done. intros j Hj. destruct (decide (j = i)) as [->|Hne]; [done|].
        apply Ha1. lia. }
  destruct Hloop as (H1 & Hf1 & Hn1 & Ha1). split_and!; try done.
  destruct H1. split; try done. intros j Hj _ Hact. by destruct (Ha1 j Hj).
Qed.

(** ** The decoder between two datagrams *)

Definition reached_end (d : Dec) : Prop :=
  d_end_seen d = true /\ (d_next_emit_block d >= d_end_block_count d)%Z.

Record at_rest (R : Z -> nat -> bool) (d : Dec) : Prop := {
  ar_inv : exists U, (U <= top)%Z /\ inv R k U None d;
  ar_stuck : d_best_effort d = false -> stuck d;
  ar_open : d_best_effort d = true -> d_end_seen d = true -> d_complete d = true;
  ar_complete : d_complete d = true -> reached_end d }.

Lemma at_rest_stats {R} s d : at_rest R d -> at_rest R (set_stats s d).
Proof. intros [(U & HU & H) Hs Hn Hc]. split; [exists U; by split; [|apply dinv_stats]|done..]. Qed.

Lemma inv_complete {R} q U d : inv R q U None d -> inv R q U None (set_complete d).
Proof. intros []. by split. Qed.

Lemma at_rest_complete {R} U d :
  (U <= top)%Z -> inv R k U None d -> (d_best_effort d = false -> stuck d) -> reached_end d ->
  at_rest R (set_complete d).
Proof. intros HU H Hs He. split; [exists U; by split; [|apply inv_complete]|done..]. Qed.

(** Where no group is active, best effort reaches the end. *)
Lemma stuck_at_end {R} U d :
  inv R 0 U None d -> stuck d -> d_best_effort d = true -> d_end_seen d = true -> reached_end d.
Proof.
  intros H [?|[_ Hact]] Hbe He; [done|]. destruct (Hact Hbe He) as (i & Hf & Ha).
  apply find_group_Some in Hf as (Hi & _ & _). rewrite (di_length _ _ _ _ _ _ _ _ _ H) in Hi.
  pose proof (di_settled _ _ _ _ _ _ _ _ _ H i Hi ltac:(done) Ha). lia.
Qed.

(** What a successful emission after the end leaves. *)
Definition drained (R : Z -> nat -> bool) (U : Z) (d d' : Dec) : Prop := inv R 0 U None d' /\ evolves d d' /\ stuck d'.

Lemma finalize_emit_spec {R} U d :
  inv R k U None d -> d_end_seen d = true ->
  yields (drained R U d)
    (try_emit_from_head codec out_ok clock realloc_ok (finalize_active_groups codec d)).
Proof.
  intros H He. destruct (finalize_spec U d H He) as (H1 & Hf1 & Hn1).
  destruct (try_emit_spec 0 U _ ltac:(lia) H1) as (b & d' & -> & Hem).
  exists b, d'. split; [done|]. destruct b; [|done]. destruct Hem as (H2 & Hf2 & Hs2).
  split; [done|]. split; [by etrans|done].
Qed.

Lemma inv_stats_weaken {R} U s d : inv R 0 U None d -> inv R k U None (set_stats s d).
Proof. intros H. apply dinv_stats. eapply inv_weaken; [|done]. lia. Qed.

(** Flushing after the end of the stream completes it. *)
Lemma flush_spec {R} U d :
  inv R k U None d -> (U <= top)%Z -> d_best_effort d = true -> d_end_seen d = true ->
  yields (fun d' => at_rest R d' /\ reached_end d' /\
                    d_best_effort d' = true /\ d_end_block_count d' = d_end_block_count d)
    (wire_flow_decoder_flush_best_effort codec out_ok clock realloc_ok d).
Proof.
  intros H HU Hbe He. unfold wire_flow_decoder_flush_best_effort. rewrite Hbe, He. cbn [negb].
  eapply yields_bind; [by apply (finalize_emit_spec (R := R) U)|]. intros d' (H' & Hf & Hs).
  pose proof (ev_best _ _ Hf) as Hbe'. rewrite Hbe in Hbe'.
  assert (Hend : reached_end d').
  { apply (stuck_at_end (R := R) U); [done|done|done|by rewrite (ev_seen _ _ Hf)]. }
  apply yields_ret. cbn [refresh_pending_snapshot set_stats d_next_emit_block d_end_block_count].
  rewrite (proj2 (Z.geb_le _ _)) by (destruct Hend; lia).
  split_and!; [|done|done|apply Hf].
  apply (at_rest_complete U); [done|by apply inv_stats_weaken|by intros ?; apply Hs|done].
Qed.

(** An end that passes the checks. *)
Definition accepted_end (header : WireHeader) (d : Dec) : Prop :=
  wh_shard_count header = d_expected_shards d /\ wh_payload_len header = 0%Z /\
  (d_end_seen d = true -> wh_block_id header = d_end_block_count d).

(** An accepted end completes a best-effort stream, and a strict one whose blocks are all out. *)
Lemma ingest_end_spec {R} header d :
  at_rest R d -> d_complete d = false -> (wh_block_id header < 2 ^ 64)%Z ->
  yields (fun d' => at_rest R d' /\ d_best_effort d' = d_best_effort d /\
            (accepted_end header d ->
             d_best_effort d = true \/ (top <= wh_block_id header <= d_next_emit_block d)%Z ->
             d_complete d' = true /\ d_end_block_count d' = wh_block_id header))
    (ingest_end codec out_ok clock realloc_ok header d).
Proof.
  intros Hr Hc Hid. unfold ingest_end. destruct (_ || _) eqn:Hchk.
  { apply yields_ret. split_and!; [by apply at_rest_stats|done|]. intros (E1 & E2 & E3) _.
    unfold wire_flow_decoder_shard_count_ok in Hchk. rewrite E1, E2, !Z.eqb_refl in Hchk.
    destruct (d_end_seen d); cbn in Hchk; [|done]. rewrite E3, Z.eqb_refl in Hchk; done. }
  clear Hchk. destruct (ar_inv _ d Hr) as (U & HU & H). set (d0 := set_end (wh_block_id header) d).
  assert (H0 : inv R k U None d0) by (destruct H; by split).
  eapply yields_bind; [by apply (finalize_emit_spec (R := R) U)|]. intros d1 (H1 & Hf & Hs).
  pose proof (ev_best _ _ Hf) as Hbe. pose proof (ev_seen _ _ Hf) as Hseen.
  pose proof (ev_count _ _ Hf) as Hcount. pose proof (ev_next _ _ Hf) as Hnext.
  change (d_best_effort d0) with (d_best_effort d) in Hbe. cbn in Hseen, Hcount, Hnext.
  set (d2 := refresh_pending_snapshot d1).
  assert (H2 : inv R k U None d2) by (by apply inv_stats_weaken).
  destruct (d_next_emit_block d2 =? _)%Z eqn:Heq.
  { apply yields_ret. split_and!; [|done|done].
    apply (at_rest_complete U); [done|done|by intros _|]. split; [done|lia]. }
  destruct (d_best_effort d2) eqn:Hbe2.
  2:{ apply yields_ret. split_and!; [|done|].
      { split; [by exists U|by intros _|congruence|].
        change (d_complete d1 = true -> reached_end d2). rewrite (ev_complete _ _ Hf). cbn. congruence. }
      intros _ [Hb|Hn].
      - change (d_best_effort d1 = false) in Hbe2. congruence.
      - exfalso. pose proof (di_reach _ _ _ _ _ _ _ _ _ H2 Hbe2) as Hreach.
        apply Z.eqb_neq in Heq. apply Heq.
        change (d_end_block_count d2) with (d_end_block_count d1). rewrite Hcount.
        change (d_next_emit_block d2) with (d_next_emit_block d1) in *. lia. }
  eapply yields_bind; [by apply (flush_spec (R := R) U)|]. intros d3 (Hr3 & He3 & Hbe3 & Hcount3).
  apply yields_ret. split_and!; [|etrans; [exact Hbe3|by rewrite <- Hbe]|].
  - destruct Hr3 as [(U3 & HU3 & H3) Hs3 _ _]. by apply (at_rest_complete U3).
  - intros _ _. split; [done|]. etrans; [exact Hcount3|exact Hcount].
Qed.

(** ** What has arrived *)

(** Shard [s] of block [id] has been used: the block is passed, or it waits in the window. *)
Definition held (d : Dec) (id : Z) (s : nat) : Prop :=
  (id < d_next_emit_block d)%Z \/
  exists i bits, i < WIRE_FLOW_GROUP_WINDOW /\ occupied (group_at (d_groups d) i) /\
    g_block_id (group_at (d_groups d) i) = id /\
    g_received_bits (group_at (d_groups d) i) = Some bits /\
    (g_state (group_at (d_groups d) i) <> WIRE_GROUP_ACTIVE \/ codec_present_get bits s = true).

Definition keeps (d d' : Dec) : Prop := forall id s, held d id s -> held d' id s.

Lemma good_occupied {R} g : good k r strm R g -> occupied g.
Proof.
  intros [_ _ _ (bits & data & _ & _ & _ & _ & Hs) _]. unfold occupied. by intros E; rewrite E in Hs.
Qed.

Lemma evolves_keeps {R} q U d d' : inv R q U None d' -> evolves d d' -> keeps d d'.
Proof.
  intros H' Hev id s [Hlt|(i & bits & Hi & Ho & Hid & Hb & Hs)].
  { left. pose proof (ev_next _ _ Hev). lia. }
  destruct (Z.lt_ge_cases id (d_next_emit_block d')) as [Hlt|Hge]; [by left|]. right.
  destruct (ev_groups _ _ Hev i Hi Ho ltac:(lia)) as [Hid' Hg].
  assert (Ho' : occupied (group_at (d_groups d') i))
    by (unfold occupied; destruct Hg as [->|[->|[-> _]]]; done).
  destruct (di_groups _ _ _ _ _ _ _ _ _ H' i Hi Ho') as [[_ _ _ (bits' & data' & Hb' & _) _] _].
  exists i, bits'. split_and!; [done|done|congruence|done|].
  destruct Hg as [E|[E|[E _]]]; [|left; by rewrite E..].
  rewrite E in Hb' |- *. destruct Hs; [by left|right]. congruence.
Qed.

(** ** Shards that come in time *)

Definition mark (id : Z) (s : nat) (R : Z -> nat -> bool) : Z -> nat -> bool :=
  fun id' s' => ((id' =? id)%Z && (s' =? s)) || R id' s'.

Lemma mark_other id s R id' s' : id' <> id -> mark id s R id' s' = R id' s'.
Proof. intros H. unfold mark. by rewrite (proj2 (Z.eqb_neq _ _)). Qed.

Lemma tally_other id s R id' : id' <> id -> tally k r (mark id s R) id' = tally k r R id'.
Proof.
  intros H. unfold tally. f_equal. apply List.filter_ext. intros s'. by apply mark_other.
Qed.

Lemma good_other {R} id s g : g_block_id g <> id -> good k r strm R g -> good k r strm (mark id s R) g.
Proof.
  intros Hne [H1 H2 H3 (bits & data & Hb & Hd & Hlb & Hld & Hs) H5]. split; try done.
  assert (Hrec : records k r R bits (g_block_id g) -> records k r (mark id s R) bits (g_block_id g)).
  { intros Hr t Ht. rewrite mark_other by done. by apply Hr. }
  exists bits, data. rewrite tally_other by done. split_and!; try done.
  destruct (g_state g); naive_solver.
Qed.

Lemma in_order_mark {R} id s best next outputs :
  (next <= id)%Z -> in_order k r strm R best next outputs ->
  in_order k r strm (mark id s R) best next outputs.
Proof.
  intros Hle (parts & Hlen & Hout & Hp). exists parts. split_and!; [done|done|]. intros i chunks Hi.
  pose proof (lookup_lt_Some _ _ _ Hi). destruct (Hp i chunks Hi) as [?|(Hb & Ht & Hc)]; [by left|right].
  rewrite tally_other by lia. split_and!; [done|done|]. rewrite Hc. apply pieces_ext. intros t _.
  by rewrite mark_other by lia.
Qed.

(** Shard [s] of the block in slot [i] comes, and the group in the slot is replaced. *)
Lemma inv_put {R} q U busy i g s d :
  let id := g_block_id (group_at (d_groups d) i) in
  inv R q U busy d -> i < WIRE_FLOW_GROUP_WINDOW -> occupied (group_at (d_groups d) i) ->
  good k r strm (mark id s R) g -> g_block_id g = id -> occupied g ->
  (g_state g = WIRE_GROUP_ACTIVE -> busy = Some i \/ group_received_count g < q) ->
  (g_state g = WIRE_GROUP_FAILED -> busy = Some i \/ d_end_seen d = true) ->
  inv (mark id s R) q U busy (set_group i g d).
Proof.
  intros id H Hi Ho Hg Hid Hog Hset Hfail. pose proof H as [].
  assert (Hat : forall j, group_at (d_groups (set_group i g d)) j =
            if decide (i = j) then g else group_at (d_groups d) j)
    by (intros j; cbn [d_groups set_group set_groups]; apply group_at_insert; lia).
  assert (Hocc : forall j, occupied (group_at (d_groups (set_group i g d)) j) ->
            occupied (group_at (d_groups d) j))
    by (intros j; rewrite Hat; case_decide; by subst).
  assert (Hids : forall j, g_block_id (group_at (d_groups (set_group i g d)) j) =
                           g_block_id (group_at (d_groups d) j))
    by (intros j; rewrite Hat; case_decide; by subst).
  assert (Hhere : forall j, j < WIRE_FLOW_GROUP_WINDOW -> occupied (group_at (d_groups d) j) ->
            occupied (group_at (d_groups (set_group i g d)) j))
    by (intros j _ Hoj; rewrite Hat; by case_decide).
  destruct (di_groups i Hi Ho) as [_ Hwin]. split; try done.
  - cbn. by rewrite length_insert.
  - intros j Hj Hoj. rewrite Hids. destruct (di_groups j Hj (Hocc j Hoj)) as [Hgj Hw].
    split; [|done]. rewrite Hat. case_decide as E; [done|]. apply good_other; [|done]. intros Hsame.
    apply E. by apply di_unique; [| |done|apply Hocc|].
  - intros j Hj Hb. rewrite Hat. case_decide as E; [|by apply di_settled].
    subst. intros Hs. destruct (Hset Hs); [congruence|done].
  - intros j Hj Hb. rewrite Hat. case_decide as E; [|by apply di_failed].
    subst. intros Hs. destruct (Hfail Hs); [congruence|done].
  - intros id' s' Hr. destruct (Z.eq_dec id' id) as [->|Hne].
    { right. exists i. rewrite Hids. auto. }
    rewrite mark_other in Hr by done.
    destruct (di_seen id' s' Hr) as [?|(j & Hj & Hoj & Hidj)]; [by left|right].
    exists j. rewrite Hids. auto.
  - intros j1 j2 Hj1 Hj2 Ho1 Ho2. rewrite !Hids. auto.
  - apply in_order_mark; [|done]. unfold id. cbn. lia.
Qed.

Lemma group_again {R} s g :
  (g_state g = WIRE_GROUP_RECOVERED \/ R (g_block_id g) s = true) ->
  good k r strm R g -> good k r strm (mark (g_block_id g) s R) g.
Proof.
  intros Hs [H1 H2 H3 (bits & data & Hb & Hd & Hlb & Hld & Hst) H5]. split; try done.
  exists bits, data. split_and!; try done. destruct Hs as [Hs|Hs]; [by rewrite Hs in *|].
  assert (Heq : forall t, mark (g_block_id g) s R (g_block_id g) t = R (g_block_id g) t).
  { intros t. unfold mark. rewrite Z.eqb_refl. destruct (Nat.eqb_spec t s) as [->|]; [by rewrite Hs|done]. }
  assert (Ht : tally k r (mark (g_block_id g) s R) (g_block_id g) = tally k r R (g_block_id g)).
  { unfold tally. f_equal. by apply List.filter_ext. }
  rewrite Ht. unfold records in *. destruct (g_state g); try done;
    destruct Hst as [[Hag Hrec] Hlast]; split_and!; try done; intros t Htt; rewrite Heq; by apply Hrec.
Qed.

(** A shard that its group has no use for: the group is recovered, or has the shard. *)
Lemma inv_again {R} q U i s d :
  let g := group_at (d_groups d) i in
  inv R q U None d -> i < WIRE_FLOW_GROUP_WINDOW -> occupied g ->
  (g_state g = WIRE_GROUP_RECOVERED \/ R (g_block_id g) s = true) ->
  inv (mark (g_block_id g) s R) q U None d.
Proof.
  intros g H Hi Ho Hs. pose proof (di_length _ _ _ _ _ _ _ _ _ H) as Hlen.
  destruct (di_groups _ _ _ _ _ _ _ _ _ H i Hi Ho) as [Hg _]. fold g in Hg.
  assert (Hsame : set_group i g d = d).
  { destruct (lookup_lt_is_Some_2 (d_groups d) i) as [x Hx]; [lia|].
    assert (Hgx : g = x) by (unfold g, group_at; by rewrite nth_lookup, Hx).
    unfold set_group, set_groups. rewrite list_insert_id by congruence. by destruct d. }
  rewrite <- Hsame. apply inv_put; try done; [by apply group_again| |].
  - intros Ha. right. by apply (di_settled _ _ _ _ _ _ _ _ _ H).
  - intros Hf. right. by apply (di_failed _ _ _ _ _ _ _ _ _ H i).
Qed.

(** ** One shard *)

(** A data datagram that carries a shard of the stream. *)
Record honest (header : WireHeader) (bytes : list byte) : Prop := {
  hn_id : (0 <= wh_block_id header < top)%Z;
  hn_index : (0 <= wh_shard_index header)%Z;
  hn_len : wh_valid_len header = Z.of_nat (st_len strm (wh_block_id header));
  hn_begin : wh_encode_begin_ns header = st_begin strm (wh_block_id header);
  hn_end : wh_encode_end_ns header = st_end strm (wh_block_id header);
  hn_bytes : PKG_SIZE <= length bytes;
  hn_shard : forall b, b < PKG_SIZE ->
    get bytes b = cell PKG_SIZE (st_block strm (wh_block_id header))
                    (Z.to_nat (wh_shard_index header)) b }.

Definition put_shard (s : nat) (bytes bits data : list byte) (g : WireGroup) : WireGroup :=
  with_bits (Some (codec_present_set bits s))
    (with_data (Some (store_bytes data (s * PKG_SIZE) (take PKG_SIZE bytes))) g).

Lemma put_shard_good {R} header bytes bits data g :
  let s := Z.to_nat (wh_shard_index header) in
  honest header bytes -> good k r strm R g -> g_block_id g = wh_block_id header ->
  g_state g = WIRE_GROUP_ACTIVE -> g_received_bits g = Some bits -> g_data g = Some data ->
  s < k + r -> good k r strm (mark (wh_block_id header) s R) (put_shard s bytes bits data g).
Proof.
  intros s Hh [H1 H2 H3 (bits' & data' & Hb & Hd & Hlb & Hld & Hs) H5] Hid Ha Hb' Hd' Hsn.
  rewrite Hb' in Hb. rewrite Hd' in Hd. injection Hb as <-. injection Hd as <-.
  rewrite Ha in Hs. destruct Hs as [[Hag Hrec] Hlast]. pose proof (hn_bytes _ _ Hh) as Hby.
  assert (Hroom : s * PKG_SIZE + PKG_SIZE <= (k + r) * PKG_SIZE) by nia.
  destruct (store_bytes_spec data (s * PKG_SIZE) (take PKG_SIZE bytes)) as [Hl Hg].
  { rewrite length_take. lia. }
  rewrite length_take, Nat.min_l in Hg by done.
  split; try done. eexists _, _. split; [done|]. split; [done|].
  rewrite present_set_length, Hl. cbn [g_state with_bits with_data put_shard]. rewrite Ha.
  split_and!; try done.
  2:{ intros t Ht. rewrite present_get_set by (rewrite Hlb; by apply shard_byte_lt).
      cbn [g_block_id with_bits with_data put_shard]. unfold mark. rewrite Hid, Z.eqb_refl.
      rewrite (Nat.eqb_sym s t), Hrec, Hid by done. done. }
  intros s' b Hs' Hb Hp.
  rewrite present_get_set in Hp by (rewrite Hlb; by apply shard_byte_lt).
  unfold cell. rewrite Hg. case_decide as Hin.
  - assert (s' = s) as -> by nia. unfold get.
    rewrite nth_lookup, lookup_take_lt, <- nth_lookup by lia.
    replace (s * PKG_SIZE + b - s * PKG_SIZE) with b by lia.
    cbn [g_block_id with_bits with_data put_shard]. rewrite Hid. by apply (hn_shard _ _ Hh).
  - apply Hag; [done|done|]. destruct (Nat.eqb_spec s s') as [->|]; [|done]. lia.
Qed.

(** The shard is stored in slot [i]. *)
Lemma put_shard_spec {R} U header bytes bits data i d :
  let s := Z.to_nat (wh_shard_index header) in
  let g := group_at (d_groups d) i in
  let d1 := set_group i (put_shard s bytes bits data g) d in
  honest header bytes -> inv R k U None d -> i < WIRE_FLOW_GROUP_WINDOW ->
  g_block_id g = wh_block_id header -> g_state g = WIRE_GROUP_ACTIVE ->
  g_received_bits g = Some bits -> g_data g = Some data -> s < k + r ->
  inv (mark (wh_block_id header) s R) k U (Some i) d1 /\ keeps d d1 /\ held d1 (wh_block_id header) s.
Proof.
  intros s g d1 Hh H Hi Hid Ha Hb Hd Hsn. pose proof (di_length _ _ _ _ _ _ _ _ _ H) as Hlen.
  assert (Ho : occupied g) by (unfold occupied; by rewrite Ha).
  destruct (di_groups _ _ _ _ _ _ _ _ _ H i Hi Ho) as [Hgood _]. fold g in Hgood.
  assert (Hlb : s / 8 < length bits).
  { destruct Hgood as [_ _ _ (bits' & data' & Hb' & _ & Hlb & _) _].
    rewrite Hb in Hb'. injection Hb' as <-. rewrite Hlb. by apply shard_byte_lt. }
  assert (Hgood1 : good k r strm (mark (wh_block_id header) s R) (put_shard s bytes bits data g))
    by (by apply put_shard_good).
  assert (Hat : forall j, group_at (d_groups d1) j =
            if decide (i = j) then put_shard s bytes bits data g else group_at (d_groups d) j).
  { intros j. unfold d1. cbn [d_groups set_group set_groups]. apply group_at_insert. lia. }
  split_and!.
  - rewrite <- Hid in Hgood1 |- *.
    apply inv_put; first [done|by left|by apply dinv_busy].
  - intros id s' [Hlt|(j & bits' & Hj & Hoj & Hidj & Hbj & Hst)]; [by left|]. right. exists j.
    rewrite Hat. case_decide as E; [|by exists bits']. subst j.
    exists (codec_present_set bits s). split_and!; try done.
    destruct Hst as [?|Hst]; [by left|right]. fold g in Hbj.
    rewrite Hb in Hbj. injection Hbj as <-.
    rewrite present_get_set, Hst by done. apply orb_true_r.
  - right. exists i, (codec_present_set bits s). rewrite Hat, decide_True by done.
    split_and!; try done. right. rewrite present_get_set by done. by rewrite Nat.eqb_refl.
Qed.

(** What a datagram does to the decoder between two datagrams; [R] holds what has come in time,
    the datagram included. *)
Record taken (R : Z -> nat -> bool) (d d' : Dec) : Prop := {
  tk_rest : at_rest R d';
  tk_best : d_best_effort d' = d_best_effort d;
  tk_seen : d_end_seen d' = d_end_seen d;
  tk_keeps : keeps d d' }.

Lemma taken_stats {R} s d : at_rest R d -> taken R d (set_stats s d).
Proof. intros H. split; [by apply at_rest_stats|done|done|by intros ?]. Qed.

Lemma taken_refl {R} d : at_rest R d -> taken R d d.
Proof. intros H. split; [done|done|done|by intros ?]. Qed.

Lemma taken_trans {R R'} d d1 d2 : taken R d d1 -> taken R' d1 d2 -> taken R' d d2.
Proof. intros [] []. split; [done|congruence|congruence|]. intros id s Hh. auto. Qed.

Lemma at_rest_again {R} i s d :
  let g := group_at (d_groups d) i in
  at_rest R d -> i < WIRE_FLOW_GROUP_WINDOW -> occupied g ->
  (g_state g = WIRE_GROUP_RECOVERED \/ R (g_block_id g) s = true) ->
  at_rest (mark (g_block_id g) s R) d.
Proof.
  intros g [(U & HU & H) Hs Ho Hc] Hi Hoc Hst. split; try done. exists U. split; [done|].
  by apply inv_again.
Qed.

(** What has come in time after shard [s] of block [id]: the shard is used when [used] holds. *)
Definition after_shard (R : Z -> nat -> bool) (id : Z) (s : nat) (used : Prop)
    (R' : Z -> nat -> bool) : Prop :=
  (R' = R \/ R' = mark id s R) /\ (used -> R' = mark id s R).

Definition shard_taken (R : Z -> nat -> bool) (id : Z) (s : nat) (used : Prop) (d d' : Dec) : Prop :=
  exists R', after_shard R id s used R' /\ taken R' d d'.

Lemma shard_unused {R} id s (used : Prop) d d' : ~ used -> taken R d d' -> shard_taken R id s used d d'.
Proof. intros Hn HT. exists R. split; [|done]. split; [by left|]. by intros Hu. Qed.

Lemma shard_used {R} id s used d d' : taken (mark id s R) d d' -> shard_taken R id s used d d'.
Proof. intros HT. exists (mark id s R). split; [|done]. split; [by right|done]. Qed.

Lemma shard_after {R} id s (used used' : Prop) d d1 d2 :
  (used' -> used) -> taken R d d1 -> shard_taken R id s used d1 d2 -> shard_taken R id s used' d d2.
Proof.
  intros Hu HT (R' & [Ha Hb] & HT'). exists R'. split; [split; auto|]. by eapply taken_trans.
Qed.

(** The group that has just received a shard is tried. *)
Lemma recover_busy_spec {R} U i d :
  inv R k U (Some i) d -> i < WIRE_FLOW_GROUP_WINDOW ->
  g_state (group_at (d_groups d) i) = WIRE_GROUP_ACTIVE ->
  let d' := snd (try_recover_group codec i false d) in
  inv R k U None d' /\ evolves d d'.
Proof.
  intros H Hi Ha.
  pose proof (try_recover_spec codec ok k r code EC strm R HS k ltac:(done) U (Some i) i false d H Hi
                Ha ltac:(done)) as Hr.
  destruct (try_recover_group codec i false d) as [res d']. destruct Hr as (H' & Hrg & Hres).
  cbn [snd]. assert (Ho : occupied (group_at (d_groups d) i)) by (unfold occupied; by rewrite Ha).
  destruct (Nat.leb_spec k (group_received_count (group_at (d_groups d) i))) as [Hle|Hlt];
    destruct Hres as [_ Hst].
  - split; [|apply (evolves_regroup i); auto]. apply (dinv_settle _ _ _ _ _ _ _ i); [done|congruence..].
  - subst d'. split; [|reflexivity]. apply (dinv_settle _ _ _ _ _ _ _ i); [done|done|congruence].
Qed.

(** Emission after a shard: the decoder is at rest again. *)
Lemma emit_taken_spec {R} U d :
  inv R k U None d -> (U <= top)%Z -> (d_best_effort d = true -> d_end_seen d = false) ->
  d_complete d = false ->
  yields (taken R d)
    (match try_emit_from_head codec out_ok clock realloc_ok d with
     | None => None
     | Some (false, d) => Some (false, d)
     | Some (true, d) =>
         let d := refresh_pending_snapshot d in
         Some (true,
           if d_end_seen d && (d_next_emit_block d =? d_end_block_count d)%Z
           then set_complete d else d)
     end).
Proof.
  intros H HU Hn Hc. eapply yields_bind.
  { destruct (try_emit_spec k U d ltac:(lia) H) as (b & d' & -> & Hem). exists b, d'.
    split; [done|exact Hem]. }
  intros d' (H' & Hev & Hs). cbv zeta. apply yields_ret. set (d2 := refresh_pending_snapshot d').
  assert (Hr2 : at_rest R d2).
  { split; [exists U; by split; [|apply dinv_stats]|by intros _| |].
    - intros Hb He. change (d_best_effort d' = true) in Hb. change (d_end_seen d' = true) in He.
      rewrite (ev_best _ _ Hev) in Hb. rewrite (ev_seen _ _ Hev), Hn in He; done.
    - change (d_complete d' = true -> reached_end d2). rewrite (ev_complete _ _ Hev). congruence. }
  assert (Hk : keeps d d2) by exact (evolves_keeps _ U d d' H' Hev).
  destruct (d_end_seen d2 && _) eqn:Hend; [|by split; [|apply Hev|apply Hev|]].
  apply andb_true_iff in Hend as [He Heq%Z.eqb_eq].
  split; [|apply Hev|apply Hev|done].
  apply (at_rest_complete U); [done|by apply dinv_stats|by intros _|]. split; [done|lia].
Qed.

Lemma ingest_shard_spec {R} i header bytes d :
  at_rest R d -> d_complete d = false -> honest header bytes ->
  find_group (d_groups d) (wh_block_id header) = Some i ->
  wh_shard_count header = Z.of_nat (k + r) -> (wh_shard_index header < wh_shard_count header)%Z ->
  let s := Z.to_nat (wh_shard_index header) in
  yields (fun d' => shard_taken R (wh_block_id header) s
                      (g_state (group_at (d_groups d) i) <> WIRE_GROUP_FAILED) d d' /\
                    held d' (wh_block_id header) s)
    (ingest_shard codec out_ok clock realloc_ok i header bytes d).
Proof.
  intros Hr Hc Hh Hfind Hsc Hix s. pose proof Hfind as Hfind'.
  destruct (ar_inv _ d Hr) as (U & HU & H).
  apply find_group_Some in Hfind' as (Hi & Ho & Hid). rewrite (di_length _ _ _ _ _ _ _ _ _ H) in Hi.
  destruct (di_groups _ _ _ _ _ _ _ _ _ H i Hi Ho) as [Hgood Hwin]. unfold ingest_shard.
  pose proof Hgood as [_ Hg2 Hg3 (bits & data & Hb & Hd & _ & _ & Hgs) [Hg4 Hg5]].
  pose proof (hn_index _ _ Hh) as Hi0.
  assert (Hheld : g_state (group_at (d_groups d) i) <> WIRE_GROUP_ACTIVE \/
                    codec_present_get bits s = true ->
    held (count_stat duplicate_datagrams d) (wh_block_id header) s).
  { intros Hst. right. exists i, bits. auto 10. }
  assert (Hdup : g_state (group_at (d_groups d) i) = WIRE_GROUP_RECOVERED \/
                   R (wh_block_id header) s = true ->
    taken (mark (wh_block_id header) s R) d (count_stat duplicate_datagrams d)).
  { intros Hst. rewrite <- Hid in Hst |- *.
    destruct (taken_stats (bump duplicate_datagrams 1 (d_stats d)) d (at_rest_again i s d Hr Hi Ho Hst)).
    by split. }
  destruct (g_state (group_at (d_groups d) i)) eqn:Hs; [done| | |done|].
  2:{ apply yields_ret. split; [apply shard_used, Hdup; by left|apply Hheld; by left]. }
  2:{ apply yields_ret. split; [apply shard_unused; [auto|by apply taken_stats]|apply Hheld; by left]. }
  rewrite Hg2, Hg3, Hg4, Hg5, Hid, Hsc, (hn_len _ _ Hh), (hn_begin _ _ Hh), (hn_end _ _ Hh).
  rewrite !Z.eqb_refl, Hb, Hd. cbn [negb orb].
  fold s. rewrite (proj2 (Nat.leb_gt (k + r) _)) by lia.
  destruct (codec_present_get bits s) eqn:Hp.
  { apply yields_ret. split; [|apply Hheld; by right]. apply shard_used, Hdup. right.
    rewrite <- Hid. destruct Hgs as [[_ Hrec] _]. rewrite <- Hrec by lia. done. }
  destruct (put_shard_spec (R := R) U header bytes bits data i d) as (H1 & Hk1 & Hh1); try done; [lia|].
  fold s in H1, Hk1, Hh1.
  change (with_bits _ _) with (put_shard s bytes bits data (group_at (d_groups d) i)).
  set (d1 := set_group i _ d) in *. set (d2 := count_stat received_datagrams d1).
  pose proof (di_length _ _ _ _ _ _ _ _ _ H) as Hlen.
  assert (Ha2 : g_state (group_at (d_groups d2) i) = WIRE_GROUP_ACTIVE).
  { change (g_state (group_at (d_groups d1) i) = WIRE_GROUP_ACTIVE). unfold d1.
    by rewrite group_at_set by lia. }
  set (R' := mark (wh_block_id header) s R) in *.
  assert (H2 : inv R' k U (Some i) d2) by (by apply dinv_stats).
  destruct (recover_busy_spec U i d2 H2 Hi Ha2) as [H3 Hev].
  destruct (try_recover_group codec i false d2) as [res d3]. cbn [snd] in H3, Hev.
  assert (Hn3 : d_best_effort d3 = true -> d_end_seen d3 = false).
  { rewrite (ev_best _ _ Hev), (ev_seen _ _ Hev). intros Hb3. change (d_best_effort d = true) in Hb3.
    change (d_end_seen d = false). destruct (d_end_seen d) eqn:He; [|done].
    rewrite (ar_open _ _ Hr) in Hc; done. }
  assert (Hk3 : keeps d d3).
  { intros id s' Hhs. apply (evolves_keeps _ U d2 d3 H3 Hev). by apply Hk1. }
  eapply yields_mono, (emit_taken_spec U d3 H3 HU Hn3).
  - intros d' [T1 T2 T3 T4]. split.
    + apply shard_used. split; [done|by rewrite T2, (ev_best _ _ Hev)|by rewrite T3, (ev_seen _ _ Hev)|].
      intros id s' Hhs. by apply T4, Hk3.
    + apply T4, (evolves_keeps _ U d2 d3 H3 Hev). exact Hh1.
  - rewrite (ev_complete _ _ Hev). exact Hc.
Qed.

(** ** A new group *)

Lemma in_window_spec block_id next :
  (0 <= next)%Z -> (block_id < 2 ^ 64)%Z ->
  block_in_reorder_window block_id next = true <->
  (next <= block_id < next + Z.of_nat WIRE_FLOW_GROUP_WINDOW)%Z.
Proof.
  intros Hn Hb. unfold block_in_reorder_window. rewrite andb_true_iff.
  split.
  - intros [H1 H2]. rewrite u64_small in H2 by (unfold in_range; lia). lia.
  - intros H. rewrite u64_small by (unfold in_range; lia). lia.
Qed.

(** In the window there is a slot for a block that has none: the ids of the window are distinct. *)
Lemma slot_exists {R} q U d block_id :
  inv R q U None d -> find_group (d_groups d) block_id = None ->
  (d_next_emit_block d <= block_id <
     d_next_emit_block d + Z.of_nat WIRE_FLOW_GROUP_WINDOW)%Z ->
  is_Some (first_index is_empty_slot (d_groups d)).
Proof.
  intros H Hnone Hwin. destruct (first_index is_empty_slot (d_groups d)) eqn:E; [by eexists|exfalso].
  pose proof (di_length _ _ _ _ _ _ _ _ _ H) as Hlen.
  assert (Hocc : forall i, i < WIRE_FLOW_GROUP_WINDOW -> occupied (group_at (d_groups d) i)).
  { intros i Hi. pose proof (first_index_None _ _ i E ltac:(lia)) as Hf.
    unfold is_empty_slot in Hf. by case_bool_decide. }
  set (ids := List.map (fun i => g_block_id (group_at (d_groups d) i)) (seq 0 WIRE_FLOW_GROUP_WINDOW)).
  assert (Hnd : List.NoDup (block_id :: ids)).
  { constructor.
    - intros (i & Hid & Hi%in_seq)%in_map_iff. apply (find_group_None _ _ i Hnone); [lia| |done].
      apply Hocc. lia.
    - apply NoDup_map_NoDup_ForallPairs; [|apply seq_NoDup].
      intros i j Hi%in_seq Hj%in_seq Heq.
      apply (di_unique _ _ _ _ _ _ _ _ _ H); try lia; try done; apply Hocc; lia. }
  set (range := List.map (fun j => (d_next_emit_block d + Z.of_nat j)%Z) (seq 0 WIRE_FLOW_GROUP_WINDOW)).
  assert (Hrange : forall x, (d_next_emit_block d <= x <
             d_next_emit_block d + Z.of_nat WIRE_FLOW_GROUP_WINDOW)%Z -> In x range).
  { intros x Hx. apply in_map_iff. exists (Z.to_nat (x - d_next_emit_block d)).
    rewrite in_seq. split; lia. }
  assert (Hincl : incl (block_id :: ids) range).
  { intros x [<-|(i & <- & Hi%in_seq)%in_map_iff]; apply Hrange; [done|].
    assert (Hi' : i < WIRE_FLOW_GROUP_WINDOW) by lia.
    destruct (di_groups _ _ _ _ _ _ _ _ _ H i Hi' (Hocc i Hi')) as [_ Hw].
    pose proof (di_window _ _ _ _ _ _ _ _ _ H). lia. }
  pose proof (NoDup_incl_length Hnd Hincl) as Hle. unfold ids, range in Hle.
  cbn [length] in Hle. rewrite !length_map, !length_seq in Hle. lia.
Qed.

(** An empty group for a block of the stream. *)
Definition fresh (header : WireHeader) : WireGroup :=
  mkWireGroup WIRE_GROUP_ACTIVE (wh_block_id header) (k + r) (st_len strm (wh_block_id header))
    (Some (replicate (codec_present_bytes (k + r)) x00)) (wh_encode_begin_ns header)
    (wh_encode_end_ns header)
    (negb (wh_encode_begin_ns header =? 0)%Z &&
     (wh_encode_end_ns header >=? wh_encode_begin_ns header)%Z)
    (Some (replicate ((k + r) * PKG_SIZE) x00)) 0.

Lemma fresh_good {R} header bytes :
  honest header bytes -> (forall s, R (wh_block_id header) s = false) -> good k r strm R (fresh header).
Proof.
  intros [Hid ? ? Hb He ? ?] Hnone. split; try done; cbn; [lia|].
  eexists _, _. split_and!; [done|done|apply length_replicate|apply length_replicate| | |done].
  - intros s b _ _. by rewrite present_get_zero.
  - intros s _. by rewrite present_get_zero, Hnone.
Qed.

Lemma fresh_count header : group_received_count (fresh header) = 0.
Proof.
  unfold group_received_count. cbn [g_received_bits fresh g_shard_count].
  induction (seq 0 (k + r)) as [|s l IH]; [done|]. cbn [List.filter]. by rewrite present_get_zero.
Qed.

Lemma allocate_spec {R} U header bytes i d :
  let d1 := set_group i (fresh header) d in
  inv R k U None d -> (U <= top)%Z -> honest header bytes ->
  i < WIRE_FLOW_GROUP_WINDOW -> ~ occupied (group_at (d_groups d) i) ->
  find_group (d_groups d) (wh_block_id header) = None ->
  (d_next_emit_block d <= wh_block_id header <
     d_next_emit_block d + Z.of_nat WIRE_FLOW_GROUP_WINDOW)%Z ->
  inv R k (Z.max U (wh_block_id header + 1)) None d1.
Proof.
  intros d1 H HU Hh Hi He Hnone Hwin. pose proof (hn_id _ _ Hh) as Hid.
  apply (inv_raise _ _ (Z.max U (wh_block_id header + 1))) in H;
    [|pose proof (di_window _ _ _ _ _ _ _ _ _ H); lia|lia].
  pose proof (di_length _ _ _ _ _ _ _ _ _ H) as Hlen.
  assert (Hat : forall j, group_at (d_groups d1) j =
            if decide (i = j) then fresh header else group_at (d_groups d) j).
  { intros j. unfold d1. cbn [d_groups set_group set_groups]. apply group_at_insert. lia. }
  assert (Hnew : forall j, j < WIRE_FLOW_GROUP_WINDOW -> occupied (group_at (d_groups d) j) ->
            g_block_id (group_at (d_groups d) j) <> wh_block_id header).
  { intros j Hj Ho. apply (find_group_None _ _ j Hnone); [lia|done]. }
  destruct H. split; try done.
  - cbn. by rewrite length_insert.
  - intros j Hj. rewrite Hat. case_decide as E; [|apply di_groups; done].
    intros _. split; [eapply fresh_good; [done|]|].
    { intros s. destruct (R _ s) eqn:Er; [exfalso|done].
      destruct (di_seen _ s Er) as [?|(j' & Hj' & Ho & Hid')]; [lia|]. by apply (Hnew j'). } change (d_next_emit_block d1) with (d_next_emit_block d).
    cbn [g_block_id fresh]. lia.
  - intros j Hj Hb. rewrite Hat. case_decide as E; [|by apply di_settled].
    intros _. rewrite fresh_count. pose proof (ec_k (ErasureCodec := EC)). lia.
  - intros j Hj Hb. rewrite Hat. case_decide as E; [done|by apply di_failed].
  - intros id s Hr. destruct (di_seen id s Hr) as [?|(j & Hj & Ho & Hidj)]; [by left|right].
    exists j. rewrite Hat. rewrite decide_False by (by intros ->). done.
  - intros j1 j2 Hj1 Hj2. rewrite !Hat. repeat case_decide; subst; try done.
    + intros _ Ho E. by destruct (Hnew j2 Hj2 Ho).
    + intros Ho _ E. by destruct (Hnew j1 Hj1 Ho).
    + intros. by apply di_unique.
Qed.

Lemma allocate_rest {R} header bytes i d :
  let d1 := count_stat groups_received (set_group i (fresh header) d) in
  at_rest R d -> honest header bytes ->
  i < WIRE_FLOW_GROUP_WINDOW -> ~ occupied (group_at (d_groups d) i) ->
  find_group (d_groups d) (wh_block_id header) = None ->
  (d_next_emit_block d <= wh_block_id header <
     d_next_emit_block d + Z.of_nat WIRE_FLOW_GROUP_WINDOW)%Z ->
  taken R d d1 /\ find_group (d_groups d1) (wh_block_id header) = Some i.
Proof.
  intros d1 Hr Hh Hi He Hnone Hwin. destruct (ar_inv _ d Hr) as (U & HU & H).
  pose proof (allocate_spec U header bytes i d H HU Hh Hi He Hnone Hwin) as H1.
  set (W := Z.max _ _) in H1.
  assert (HW : (W <= top)%Z) by (unfold W; pose proof (hn_id _ _ Hh); lia). pose proof (di_length _ _ _ _ _ _ _ _ _ H) as Hlen.
  assert (Hat : forall j, group_at (d_groups d1) j =
            if decide (i = j) then fresh header else group_at (d_groups d) j).
  { intros j. unfold d1. cbn [d_groups set_group set_groups set_stats count_stat].
    apply group_at_insert. lia. }
  assert (H1' : inv R k W None d1) by (by apply dinv_stats).
  split.
  - split; [|done|done|].
    + split; [by exists W| | |by apply (ar_complete _ d Hr)].
      * intros Hbe. destruct (ar_stuck _ d Hr Hbe) as [?|[Hs _]]; [by left|right].
        split; [|congruence].
        intros j Hj. apply find_group_Some in Hj as (Hjl & Hoj & Hidj).
        rewrite (di_length _ _ _ _ _ _ _ _ _ H1') in Hjl. rewrite Hat in Hoj, Hidj |- *.
        case_decide; [done|]. apply Hs.
        change (d_next_emit_block d1) with (d_next_emit_block d) in Hidj. rewrite <- Hidj.
        by eapply (find_group_unique ok k r strm R k ltac:(done) U None).
      * by apply (ar_open _ d Hr).
    + intros id s [Hlt|(j & bits & Hj & Hoj & Hrest)]; [by left|]. right. exists j, bits.
      rewrite Hat. rewrite decide_False by (by intros ->). done.
  - assert (Ho : occupied (group_at (d_groups d1) i)) by (by rewrite Hat, decide_True).
    pose proof (find_group_unique ok k r strm R k ltac:(done) W None i d1 H1' Hi Ho) as Hf.
    by rewrite Hat, decide_True in Hf.
Qed.

(** A data datagram whose header passed the checks of [wire_flow_decoder_ingest]. *)
Record shard_header (header : WireHeader) : Prop := {
  sh_count : wh_shard_count header = Z.of_nat (k + r);
  sh_index : (wh_shard_index header < wh_shard_count header)%Z }.

Definition in_window (header : WireHeader) (d : Dec) : Prop :=
  (wh_block_id header < d_next_emit_block d + Z.of_nat WIRE_FLOW_GROUP_WINDOW)%Z.

Lemma ingest_data_spec {R} calloc_ok header bytes d :
  at_rest R d -> d_complete d = false -> honest header bytes -> shard_header header ->
  (d_next_emit_block d <= wh_block_id header)%Z ->
  let s := Z.to_nat (wh_shard_index header) in
  yields (fun d' => shard_taken R (wh_block_id header) s
              (d_best_effort d = true /\ calloc_ok = true /\ in_window header d) d d' /\
            (calloc_ok = true -> in_window header d -> held d' (wh_block_id header) s))
    (ingest_data codec out_ok clock realloc_ok calloc_ok header bytes d).
Proof.
  intros Hr Hc Hh [Hsc Hix] Hge s. destruct (ar_inv _ d Hr) as (U & HU & H). pose proof (hn_id _ _ Hh) as Hid.
  pose proof (di_next _ _ _ _ _ _ _ _ _ H) as Hn. pose proof (di_length _ _ _ _ _ _ _ _ _ H) as Hlen.
  unfold ingest_data.
  pose proof (in_window_spec (wh_block_id header) (d_next_emit_block d) ltac:(lia) ltac:(lia)) as Hw.
  destruct (block_in_reorder_window _ _) eqn:Hin; cbn [negb].
  2:{ assert (Hout : ~ in_window header d).
      { intros Hwin. unfold in_window in Hwin. destruct Hw as [_ Hw]. discriminate Hw. lia. }
      apply yields_ret. split; [|done]. apply shard_unused; [naive_solver|by apply taken_stats]. }
  assert (Hwin : (d_next_emit_block d <= wh_block_id header <
            d_next_emit_block d + Z.of_nat WIRE_FLOW_GROUP_WINDOW)%Z) by (by apply Hw).
  destruct (find_group (d_groups d) (wh_block_id header)) as [i|] eqn:Hfind.
  { eapply yields_mono, ingest_shard_spec; try done. intros d' [HT HH]. split; [|done].
    eapply (shard_after _ _ _ _ d d); [|by apply taken_refl|exact HT].
    intros (Hbe & _) Hf. apply find_group_Some in Hfind as (Hi & _ & _). rewrite Hlen in Hi.
    pose proof (di_failed _ _ _ _ _ _ _ _ _ H i Hi ltac:(done) Hf) as He.
    rewrite (ar_open _ d Hr Hbe He) in Hc. done. }
  unfold allocate_group. rewrite Hsc, (hn_len _ _ Hh), !Nat2Z.id.
  pose proof (ec_k (ErasureCodec := EC)) as Hk. pose proof (ec_n (ErasureCodec := EC)) as Hkr.
  rewrite (proj2 (Nat.eqb_neq (k + r) 0)), (proj2 (Nat.ltb_ge WIRE_FLOW_MAX_SHARDS _))
    by (unfold WIRE_FLOW_MAX_SHARDS; lia). cbn [orb].
  destruct calloc_ok; cbn [negb];
    [|apply yields_ret; split; [apply shard_unused; [naive_solver|by apply taken_stats]|done]].
  destruct (slot_exists k U d _ H Hfind Hwin) as [i Hslot]. rewrite Hslot.
  apply first_index_Some in Hslot as [Hi Hempty]. rewrite Hlen in Hi.
  assert (He : ~ occupied (group_at (d_groups d) i)).
  { unfold is_empty_slot, occupied in *. case_bool_decide; [|done]. by intros ?. }
  destruct (allocate_rest header bytes i d Hr Hh Hi He Hfind Hwin) as [HT Hf].
  eapply yields_mono, (ingest_shard_spec i header bytes _ (tk_rest _ _ _ HT)); try done.
  intros d' [HT' HH]. split; [|done]. eapply shard_after; [|exact HT|exact HT'].
  intros _. cbn [d_groups count_stat set_stats]. by rewrite group_at_set by lia.
Qed.

(** ** One datagram *)

Definition ingest (x : Datagram) (d : Dec) : option (bool * Dec) :=
  wire_flow_decoder_ingest codec out_ok clock realloc_ok (dg_calloc x) (dg_header x) (dg_payload x)
    (dg_len x) d.

(** [x] passes the checks on the header and its payload is [bytes]. *)
Record carries (x : Datagram) (bytes : list byte) : Prop := {
  cr_payload : dg_payload x = Some bytes;
  cr_type : wh_type (dg_header x) = WIRE_TYPE_DATA;
  cr_header : shard_header (dg_header x);
  cr_valid : (wh_valid_len (dg_header x) <> 0 /\
              wh_valid_len (dg_header x) <= Z.of_nat (k * PKG_SIZE))%Z;
  cr_payload_len : wh_payload_len (dg_header x) = Z.of_nat PKG_SIZE;
  cr_len : PKG_SIZE <= dg_len x }.

(** Datagrams that pass the checks carry shards of the stream; anything else may arrive too. *)
Definition trusted (x : Datagram) : Prop :=
  (wh_block_id (dg_header x) < 2 ^ 64)%Z /\
  forall bytes, carries x bytes -> honest (dg_header x) bytes.

Definition shard_of (x : Datagram) : nat := Z.to_nat (wh_shard_index (dg_header x)).
Definition block_of (x : Datagram) : Z := wh_block_id (dg_header x).

(** [x] meets a decoder that still works on its block. *)
Definition in_time (x : Datagram) (d : Dec) : Prop :=
  d_complete d = false /\ dg_calloc x = true /\
  (d_next_emit_block d <= block_of x < d_next_emit_block d + Z.of_nat WIRE_FLOW_GROUP_WINDOW)%Z.

(** What has come in time before and after [x]. *)
Record updates (R : Z -> nat -> bool) (x : Datagram) (d : Dec) (R' : Z -> nat -> bool) : Prop := {
  up_grows : forall id s, R id s = true -> R' id s = true;
  up_new : forall id s, R' id s = true ->
    R id s = true \/ (exists bytes, carries x bytes) /\ id = block_of x /\ s = shard_of x;
  up_in_time : forall bytes, carries x bytes -> d_best_effort d = true -> in_time x d ->
    R' (block_of x) (shard_of x) = true }.

Lemma mark_true id s R id' s' :
  mark id s R id' s' = true <-> R id' s' = true \/ id' = id /\ s' = s.
Proof.
  unfold mark. rewrite orb_true_iff, andb_true_iff, Z.eqb_eq, Nat.eqb_eq. naive_solver.
Qed.

Lemma updates_same R x (d : Dec) :
  (forall bytes, carries x bytes -> d_best_effort d = true -> ~ in_time x d) -> updates R x d R.
Proof. intros Hn. split; [done|by left|]. intros bytes Hc Hb Ht. by destruct (Hn bytes Hc Hb). Qed.

Lemma updates_shard R x (d : Dec) R' bytes (used : Prop) :
  carries x bytes -> (d_best_effort d = true -> in_time x d -> used) ->
  after_shard R (block_of x) (shard_of x) used R' -> updates R x d R'.
Proof.
  intros Hc Hu [[->| ->] Hb]; split; try done.
  - by left.
  - intros _ _ Hbe Ht. specialize (Hb (Hu Hbe Ht)). rewrite Hb. apply mark_true. by right.
  - intros id s Hr. apply mark_true. by left.
  - intros id s [Hr|[-> ->]]%mark_true; [by left|right]. by split; [exists bytes|].
  - intros _ _ _ _. apply mark_true. by right.
Qed.

Definition ingested (R : Z -> nat -> bool) (x : Datagram) (d d' : Dec) : Prop :=
  exists R', updates R x d R' /\ at_rest R' d' /\ d_best_effort d' = d_best_effort d /\
  forall bytes, carries x bytes -> d_complete d = false ->
    taken R' d d' /\
    (dg_calloc x = true -> in_window (dg_header x) d -> held d' (block_of x) (shard_of x)).

Lemma make_room_idle fuel block_id guard d :
  block_needs_room d block_id = false ->
  make_room_loop codec out_ok clock realloc_ok (S fuel) block_id guard d = Some (true, d).
Proof. intros H. cbn [make_room_loop]. by rewrite H. Qed.

(** A block of the window needs no room. *)
Lemma make_room_in_window {R} q U block_id d :
  inv R q U None d -> (block_id < 2 ^ 64)%Z ->
  (d_next_emit_block d <= block_id < d_next_emit_block d + Z.of_nat WIRE_FLOW_GROUP_WINDOW)%Z ->
  make_room_for_block codec out_ok clock realloc_ok block_id d = Some (true, d).
Proof.
  intros H Hid Hwin. unfold make_room_for_block. destruct (d_best_effort d); [|done]. cbn [negb].
  assert (Hroom : block_needs_room d block_id = false).
  { unfold block_needs_room. pose proof (di_next _ _ _ _ _ _ _ _ _ H) as Hn.
    rewrite (proj2 (in_window_spec _ _ Hn Hid) Hwin). cbn [negb].
    destruct (find_group (d_groups d) block_id) eqn:Hf; [done|].
    destruct (slot_exists q U d block_id H Hf Hwin) as [i Hi]. unfold window_has_empty_slot.
    apply first_index_Some in Hi as [Hlt He]. apply negb_false_iff, existsb_exists.
    exists (group_at (d_groups d) i). split; [by apply nth_In|done]. }
  assert (Hfuel : ROOM_FUEL = S (2 * WIRE_FLOW_GROUP_WINDOW)) by (unfold ROOM_FUEL; lia).
  rewrite Hfuel. by apply make_room_idle.
Qed.

(** The state in which the shard is stored: [make_room_for_block] may have moved the window. *)
Lemma make_room_rest {R} block_id d :
  at_rest R d -> d_complete d = false -> d_best_effort d = true -> (block_id < 2 ^ 64)%Z ->
  yields (fun d1 => taken R d d1 /\ d_complete d1 = false /\
                    (d_next_emit_block d <= d_next_emit_block d1)%Z)
    (make_room_for_block codec out_ok clock realloc_ok block_id d).
Proof.
  intros Hr Hc Hbe Hid. destruct (ar_inv _ d Hr) as (U & HU & H).
  eapply yields_mono, (make_room_spec U block_id d H Hid). intros d1 [H1 Hev].
  pose proof (ev_complete _ _ Hev) as Hc1. pose proof (ev_best _ _ Hev) as Hb1.
  split_and!; [|congruence|apply Hev].
  split; [|done|apply Hev|by eapply evolves_keeps].
  split; [by exists U| | |]; try congruence. intros Hb He. rewrite (ev_seen _ _ Hev) in He.
  by rewrite Hc1, (ar_open _ d Hr).
Qed.

(** The part of [wire_flow_decoder_ingest] behind the checks. *)
Lemma ingest_carried {R} x bytes d :
  at_rest R d -> d_complete d = false -> carries x bytes -> honest (dg_header x) bytes ->
  yields (fun d' => shard_taken R (block_of x) (shard_of x)
              (d_best_effort d = true /\ in_time x d) d d' /\
            (dg_calloc x = true -> in_window (dg_header x) d ->
             held d' (block_of x) (shard_of x)))
    (if (wh_block_id (dg_header x) <? d_next_emit_block d)%Z
     then Some (true, count_stat late_datagrams d)
     else if d_best_effort d then
       match make_room_for_block codec out_ok clock realloc_ok (wh_block_id (dg_header x)) d with
       | None => None
       | Some (false, d) => Some (false, d)
       | Some (true, d) =>
           if (wh_block_id (dg_header x) <? d_next_emit_block d)%Z
           then Some (true, count_stat late_datagrams d)
           else ingest_data codec out_ok clock realloc_ok (dg_calloc x) (dg_header x) bytes d
       end
     else ingest_data codec out_ok clock realloc_ok (dg_calloc x) (dg_header x) bytes d).
Proof.
  intros Hr Hc Hcr Hh. pose proof (hn_id _ _ Hh) as Hid.
  assert (Hlate : forall d1, at_rest R d1 -> (wh_block_id (dg_header x) < d_next_emit_block d1)%Z ->
    taken R d1 (count_stat late_datagrams d1) /\
    held (count_stat late_datagrams d1) (block_of x) (shard_of x)).
  { intros d1 Hr1 Hlt. split; [by apply taken_stats|by left]. }
  destruct (_ <? _)%Z eqn:Hl1.
  { apply yields_ret. destruct (Hlate d Hr ltac:(lia)). split; [|done]. apply shard_unused; [|done].
    intros (_ & _ & _ & Hw). unfold block_of in Hw. lia. }
  assert (Hstore : (d_next_emit_block d <= wh_block_id (dg_header x))%Z ->
    yields (fun d' => shard_taken R (block_of x) (shard_of x)
                (d_best_effort d = true /\ in_time x d) d d' /\
              (dg_calloc x = true -> in_window (dg_header x) d -> held d' (block_of x) (shard_of x)))
      (ingest_data codec out_ok clock realloc_ok (dg_calloc x) (dg_header x) bytes d)).
  { intros Hge. eapply yields_mono, (ingest_data_spec (dg_calloc x) (dg_header x) bytes d); try done;
      [|by apply Hcr]. intros d' [HT HH]. split; [|done].
    eapply shard_after; [|by apply taken_refl|exact HT]. intros (Hbe & _ & Hca & _ & Hw).
    by split_and!. }
  destruct (d_best_effort d) eqn:Hbe; [|apply Hstore; lia].
  destruct (Z.lt_ge_cases (wh_block_id (dg_header x))
              (d_next_emit_block d + Z.of_nat WIRE_FLOW_GROUP_WINDOW)) as [Hwin|Hwin].
  { destruct (ar_inv _ d Hr) as (U & HU & H).
    rewrite (make_room_in_window k U _ d H), Hl1 by lia. apply Hstore. lia. }
  eapply yields_bind; [by apply (make_room_rest (R := R)); try done; lia|]. intros d1 (HT & Hc1 & Hn1).
  assert (Hfar : ~ (true = true /\ in_time x d)).
  { intros (_ & _ & _ & Hw). unfold block_of in Hw. lia. }
  pose proof (tk_rest _ _ _ HT) as Hr1. destruct (_ <? d_next_emit_block d1)%Z eqn:Hl2.
  { apply yields_ret. destruct (Hlate d1 Hr1 ltac:(lia)) as [HT1 HH].
    split; [|done]. apply shard_unused; [done|by eapply taken_trans]. }
  eapply yields_mono, (ingest_data_spec (dg_calloc x) (dg_header x) bytes d1); try done;
    [|by apply Hcr|lia].
  intros d2 [HT2 HH]. split; [by eapply shard_after; [|exact HT|exact HT2]|]. intros Hca Hw.
  unfold in_window in *. lia.
Qed.

Lemma ingest_spec {R} x d : at_rest R d -> trusted x -> yields (ingested R x d) (ingest x d).
Proof.
  intros Hr [Hid Htr]. unfold ingest, wire_flow_decoder_ingest.
  destruct (ec_some (ErasureCodec := EC)) as [vt Hvt]. rewrite Hvt. rewrite <- Hvt.
  destruct (ar_inv _ d Hr) as (U & HU & H).
  destruct (d_complete d) eqn:Hc.
  { apply yields_ret. exists R. split_and!; [|done|done|congruence].
    apply updates_same. intros bytes _ _ [Hno _]. congruence. }
  destruct (Z.eqb_spec (wh_type (dg_header x)) WIRE_TYPE_END) as [He|He].
  { assert (Hno : forall bytes, ~ carries x bytes).
    { intros bytes Hcr. pose proof (cr_type _ _ Hcr) as Ht. rewrite He in Ht. discriminate Ht. }
    eapply yields_mono, (ingest_end_spec (R := R)); [|done|done|done]. intros d' (Hr' & Hb' & _).
    exists R. split_and!; [|done|done|].
    - apply updates_same. intros bytes Hcr. by destruct (Hno bytes).
    - intros bytes Hcr. by destruct (Hno bytes). }
  assert (Hbad : (forall bytes, ~ carries x bytes) ->
                 yields (ingested R x d) (Some (true, count_stat malformed_datagrams d))).
  { intros Hno. apply yields_ret. exists R. split_and!; [|by apply at_rest_stats|done|].
    - apply updates_same. intros bytes Hcr. by destruct (Hno bytes).
    - intros bytes Hcr. by destruct (Hno bytes). }
  destruct (dg_payload x) as [bytes|] eqn:Hp.
  2:{ apply Hbad. intros bytes Hcr. pose proof (cr_payload _ _ Hcr). congruence. }
  rewrite (di_expected _ _ _ _ _ _ _ _ _ H), (di_input _ _ _ _ _ _ _ _ _ H).
  unfold wire_flow_decoder_shard_count_ok. rewrite Z.geb_leb, Z.gtb_ltb.
  destruct (_ || _) eqn:Hchk.
  { apply Hbad. intros bytes' [_ Hty [Hsc Hix] Hv Hpl Hln].
    rewrite Hty, Hsc, Hpl, !Z.eqb_refl in Hchk. cbn [negb orb] in Hchk.
    rewrite !orb_true_iff, Z.leb_le, Z.eqb_eq, Z.ltb_lt, Nat.ltb_lt in Hchk. destruct Hv, Hchk as [[[[?|?]|?]|?]|?]; done || lia. }
  rewrite !orb_false_iff, !negb_false_iff, !Z.eqb_eq, Z.leb_gt, Z.eqb_neq, Z.ltb_ge, Nat.ltb_ge
    in Hchk.
  destruct Hchk as ((((((Hty & Hsc) & Hix) & Hv0) & Hv1) & Hpl) & Hln).
  assert (Hcr : carries x bytes) by (split; [done|lia|split; lia|split; lia|lia|lia]).
  eapply yields_mono, (ingest_carried x bytes (count_stat seen_datagrams d));
    [|by apply at_rest_stats|done|done|by apply Htr].
  intros d' [(R' & Ha & HT) HH]. exists R'.
  pose proof (taken_trans _ _ _ (taken_stats _ d Hr) HT) as HT'. split_and!; [|apply HT'|apply HT'|done].
  eapply updates_shard; [exact Hcr| |exact Ha]. done.
Qed.

End Run.
