(* ===== verification/WireDecoderTheorems.v ===== *)
(** * Streams through the reassembly code

    Runs of [wire_flow_decoder_ingest] from a fresh decoder, for every codec that implements the
    erasure-code interface: what reaches the output in strict and in best-effort mode, and that a
    paced stream is delivered in full. *)

From Stdlib Require Import Strings.Byte.
From S2P Require Import Prelude WireHeader Gf256 ByteVec RsEncode Codec CodecSpec RsRecover.
From S2P Require Import CodecInterface WireDecoder WireDecoderSpec WireDecoderRun.

#[local] Opaque PKG_SIZE.

(** ** Deliveries *)

(** The shards of block [id] among the datagrams [ds]. *)
Definition arrived (ds : list Datagram) (id : Z) : list nat :=
  List.nodup Nat.eq_dec (List.map shard_of (List.filter (fun x => block_of x =? id)%Z ds)).

(** The first [m] blocks have at least [k] shards among [ds]. *)
Definition covered (k : nat) (ds : list Datagram) (m : nat) : Prop :=
  forall id, id < m -> k <= length (arrived ds (Z.of_nat id)).

(** No datagram runs ahead of the window: when one for block [b] arrives, all blocks up to
    [b - 128] are covered. *)
Definition paced (k : nat) (ds : list Datagram) : Prop :=
  forall before x after, ds = before ++ x :: after -> exists m,
    covered k before m /\ (block_of x < Z.of_nat m + Z.of_nat WIRE_FLOW_GROUP_WINDOW)%Z.

Lemma arrived_spec ds id s :
  In s (arrived ds id) <-> exists x, In x ds /\ block_of x = id /\ shard_of x = s.
Proof.
  unfold arrived. rewrite nodup_In, in_map_iff. split.
  - intros (x & Hs & Hx%filter_In). exists x. split_and!; [apply Hx|lia|done].
  - intros (x & Hx & Hid & Hs). exists x. split; [done|]. apply filter_In. split; [done|lia].
Qed.

(** ** Blocks *)

(** The valid bytes of block [id]. *)
Definition payload_of (strm : Stream) (id : Z) : list byte :=
  take (st_len strm id) (st_block strm id).

Definition blocks_upto (strm : Stream) (n : nat) : list (list byte) :=
  List.map (fun i => payload_of strm (Z.of_nat i)) (seq 0 n).

Lemma in_order_strict k r strm R next outputs :
  in_order k r strm R false next outputs -> outputs = blocks_upto strm (Z.to_nat next).
Proof.
  intros (parts & Hlen & -> & Hparts). rewrite <- Hlen, Nat2Z.id. clear Hlen.
  unfold blocks_upto. induction parts as [|c parts IH] using rev_ind; [done|].
  rewrite concat_app, length_app, Nat.add_1_r, seq_S, List.map_app. f_equal.
  - apply IH. intros i chunks Hi. apply Hparts. by apply lookup_app_l_Some.
  - destruct (Hparts (length parts) c) as [->|[? _]]; [|done|done].
    by rewrite lookup_app_r, Nat.sub_diag by lia.
Qed.

Section Runs.
Context {St : Type} (codec : option (CodecVTable St)) (ok : St -> Prop) (k r : nat).
Context (code : list byte -> Prop) (EC : ErasureCodec codec ok k r code).
Context (out_ok : nat -> bool) (clock : nat -> Z) (realloc_ok : bool).
Context (strm : Stream) (HS : stream_ok k code strm).
Context (top : Z) (Htop : (0 <= top /\ top + Z.of_nat WIRE_FLOW_GROUP_WINDOW <= 2 ^ 64)%Z).

Abbreviation Dec := (WireFlowDecoder St).
Abbreviation rest := (at_rest ok k r strm top).
Abbreviation nothing := (fun (_ : Z) (_ : nat) => false).
Abbreviation yielding := (yields out_ok).
Abbreviation step := (ingest codec out_ok clock realloc_ok).

(** The datagrams of a list one after the other; a failure ends the run. *)
Fixpoint decoder_run (ds : list Datagram) (d : Dec) : option (bool * Dec) :=
  match ds with
  | [] => Some (true, d)
  | x :: ds' =>
      match step x d with
      | None => None
      | Some (false, d') => Some (false, d')
      | Some (true, d') => decoder_run ds' d'
      end
  end.

Lemma run_app ds1 ds2 d P Q :
  yielding P (decoder_run ds1 d) -> (forall d', P d' -> yielding Q (decoder_run ds2 d')) ->
  yielding Q (decoder_run (ds1 ++ ds2) d).
Proof.
  revert d. induction ds1 as [|x ds1 IH]; intros d H1 H2.
  { destruct H1 as (b & d' & [= <- <-] & Hp). by apply H2. }
  cbn [decoder_run app] in *. destruct (step x d) as [[[] d']|]; [by apply IH| |].
  - destruct H1 as (b & d1 & [= <- <-] & Hp). by eexists false, _.
  - by destruct H1 as (b & d1 & ? & _).
Qed.

(** A new decoder. *)
Definition new_decoder (st : St) (best_effort : bool) : option Dec :=
  wire_flow_decoder_create codec st (Z.of_nat (k + r)) best_effort (Z.of_nat (k * PKG_SIZE)).

Lemma new_decoder_rest st best_effort d :
  ok st -> new_decoder st best_effort = Some d ->
  rest nothing d /\ d_best_effort d = best_effort /\ d_end_seen d = false /\ d_complete d = false.
Proof.
  intros Hok Hnew. unfold new_decoder, wire_flow_decoder_create in Hnew.
  destruct codec; [|done]. destruct (_ =? 0)%Z; [done|]. injection Hnew as <-.
  assert (Hempty : forall i, group_at (replicate WIRE_FLOW_GROUP_WINDOW release_group) i = release_group).
  { intros i. unfold group_at. rewrite nth_lookup. destruct (_ !! i) eqn:E; [|done].
    by apply lookup_replicate in E as [-> _]. }
  split_and!; try done. split; [|intros _|done|done].
  - exists 0%Z. split; [lia|]. split; cbn [d_groups d_next_emit_block d_end_block_count]; try done; try lia.
    + intros i _. by rewrite Hempty.
    + intros i _ _. by rewrite Hempty.
    + intros i _ _. by rewrite Hempty.
    + intros i j _ _. by rewrite Hempty.
    + by exists [].
  - right. split; [|done]. intros i Hi.
    change (g_state (group_at (replicate WIRE_FLOW_GROUP_WINDOW release_group) i) <> WIRE_GROUP_RECOVERED).
    by rewrite Hempty.
Qed.

(** [R'] is [R] with the shards of [ds]: those that come in time for a best-effort decoder [d] are
    in it, and every shard in it has come. *)
Record heard (ds : list Datagram) (d : Dec) (R R' : Z -> nat -> bool) : Prop := {
  he_grows : forall id s, R id s = true -> R' id s = true;
  he_new : forall id s, R' id s = true -> R id s = true \/
    exists x bytes, In x ds /\ carries k r x bytes /\ block_of x = id /\ shard_of x = s;
  he_in_time : forall before x after d1 bytes, ds = before ++ x :: after ->
    decoder_run before d = Some (true, d1) -> carries k r x bytes -> d_best_effort d = true ->
    in_time x d1 -> R' (block_of x) (shard_of x) = true }.

Lemma heard_nil d R : heard [] d R R.
Proof. split; [done|by left|]. intros [|y before] x after d1 bytes [=]. Qed.

Lemma heard_cons x ds d d' R R1 R' :
  updates k r R x d R1 -> step x d = Some (true, d') -> d_best_effort d' = d_best_effort d ->
  heard ds d' R1 R' -> heard (x :: ds) d R R'.
Proof.
  intros [G N T] Hstep Hb [G' N' T']. split.
  - intros id s H. by apply G', G.
  - intros id s [H|(y & bytes & Hy & H)]%N'; [|right; exists y, bytes; by split; [right|]].
    apply N in H as [H|((bytes & Hc) & -> & ->)]; [by left|right]. exists x, bytes. by split; [left|].
  - intros [|y before] z after d1 bytes [= <- ->] Hrun Hc Hbe Ht.
    + injection Hrun as <-. by eapply G', T.
    + cbn [decoder_run] in Hrun. rewrite Hstep in Hrun.
      by eapply (T' before z after); [done|exact Hrun|exact Hc|congruence|].
Qed.

Lemma run_rest ds d R :
  rest R d -> Forall (trusted k r strm top) ds ->
  yielding (fun d' => exists R', heard ds d R R' /\ rest R' d' /\ d_best_effort d' = d_best_effort d)
    (decoder_run ds d).
Proof.
  revert d R. induction ds as [|x ds IH]; intros d R Hr Hds; cbn [decoder_run].
  { apply yields_ret. exists R. split; [apply heard_nil|done]. }
  inversion_clear Hds as [|? ? Hx Hds'].
  destruct (ingest_spec codec ok k r code EC out_ok clock realloc_ok strm HS top (proj2 Htop) x d Hr Hx)
    as (b & d' & Hstep & Hres). rewrite Hstep. destruct b; [|by eapply yields_fail].
  destruct Hres as (R1 & Hup & Hr1 & Hb1 & _). eapply yields_mono, (IH d' R1 Hr1 Hds').
  intros d2 (R' & Hh & Hr2 & Hb2). exists R'. split; [by eapply heard_cons|]. split; [done|congruence].
Qed.

(** ** What reaches the output *)

(** C9: strict mode.  Whatever the network delivers (lost, duplicated, reordered or malformed
    datagrams), a run does not get stuck, it fails only when the output callback fails, and
    otherwise the output consists of the first [next_emit_block] blocks of the stream, each whole
    and in order.  No group that could be recovered is waiting, and a complete stream has reached
    the announced end. *)
Theorem wire_decoder_strict_output st d ds :
  ok st -> new_decoder st false = Some d -> Forall (trusted k r strm top) ds ->
  exists b d', decoder_run ds d = Some (b, d') /\
    outcome out_ok b
      (d_outputs d' = blocks_upto strm (Z.to_nat (d_next_emit_block d')) /\
       (forall i, i < WIRE_FLOW_GROUP_WINDOW ->
          g_state (group_at (d_groups d') i) = WIRE_GROUP_ACTIVE ->
          group_received_count (group_at (d_groups d') i) < k) /\
       (reached_end d' \/ forall i, find_group (d_groups d') (d_next_emit_block d') = Some i ->
          g_state (group_at (d_groups d') i) <> WIRE_GROUP_RECOVERED) /\
       (d_complete d' = true -> reached_end d')).
Proof.
  intros Hok Hnew Hds. destruct (new_decoder_rest st false d Hok Hnew) as (Hr & Hbe & _ & _).
  destruct (run_rest ds d _ Hr Hds) as (b & d' & Hrun & Hres). exists b, d'. split; [done|].
  destruct b; [|done]. destruct Hres as (R & _ & [(U & HU & H) Hs _ Hc] & Hb). rewrite Hbe in Hb.
  split_and!; [|intros i Hi; by apply (di_settled _ _ _ _ _ _ _ _ _ H)| |done].
  - pose proof (di_out _ _ _ _ _ _ _ _ _ H) as Hout. rewrite Hb in Hout.
    by apply (in_order_strict k r strm R).
  - destruct (Hs Hb) as [?|[? _]]; [by left|by right].
Qed.

(** C19: best-effort mode.  Whatever the network delivers, a run does not get stuck and fails only
    when the output callback fails.  Otherwise there is a set [R] of shards such that the output has
    one contribution per block, in block order: the whole block, or, only when [R] has fewer than
    [k] of its shards, exactly its data shards in [R].  Every shard in [R] has arrived, and every
    shard that arrives while its block is within the window of the decoder (and for which there
    is memory) is in [R]. *)
Theorem wire_decoder_best_effort_output st d ds :
  ok st -> new_decoder st true = Some d -> Forall (trusted k r strm top) ds ->
  exists b d', decoder_run ds d = Some (b, d') /\
    outcome out_ok b
      ((exists R, in_order k r strm R true (d_next_emit_block d') (d_outputs d') /\
          (forall id s, R id s = true -> exists x bytes, In x ds /\ carries k r x bytes /\
             block_of x = id /\ shard_of x = s) /\
          (forall before x after d1 bytes, ds = before ++ x :: after ->
             decoder_run before d = Some (true, d1) -> carries k r x bytes -> in_time x d1 ->
             R (block_of x) (shard_of x) = true)) /\
       (d_complete d' = true -> reached_end d')).
Proof.
  intros Hok Hnew Hds. destruct (new_decoder_rest st true d Hok Hnew) as (Hr & Hbe & _ & _).
  destruct (run_rest ds d _ Hr Hds) as (b & d' & Hrun & Hres). exists b, d'. split; [done|].
  destruct b; [|done]. destruct Hres as (R & [_ Hnew' Htime] & [(U & HU & H) Hs _ Hc] & Hb).
  rewrite Hbe in Hb. split; [|done]. exists R. split_and!.
  - rewrite <- Hb. apply (di_out _ _ _ _ _ _ _ _ _ H).
  - intros id s [?|?]%Hnew'; done.
  - intros before x after d1 bytes E Hrun1 Hc1. by apply (Htime before x after d1 bytes).
Qed.


(** A group given up at the end stays so: in strict mode a shard that the end overtook is counted
    as a duplicate, even when it would make the block recoverable. *)
Lemma shard_after_end_is_lost x bytes i (d : Dec) :
  d_best_effort d = false -> d_complete d = false -> carries k r x bytes ->
  d_expected_shards d = Z.of_nat (k + r) -> d_input_size d = Z.of_nat (k * PKG_SIZE) ->
  (0 <= d_next_emit_block d)%Z -> (block_of x < 2 ^ 64)%Z ->
  (d_next_emit_block d <= block_of x <
     d_next_emit_block d + Z.of_nat WIRE_FLOW_GROUP_WINDOW)%Z ->
  find_group (d_groups d) (block_of x) = Some i ->
  g_state (group_at (d_groups d) i) = WIRE_GROUP_FAILED ->
  step x d = Some (true, count_stat duplicate_datagrams (count_stat seen_datagrams d)).
Proof.
  intros Hbe Hc [Hp Hty [Hsc Hix] [Hv0 Hv1] Hpl Hln] Hex Hin Hn Hid Hwin Hf Hs.
  unfold step, wire_flow_decoder_ingest, block_of in *.
  destruct (ec_some (ErasureCodec := EC)) as [vt Hvt]. rewrite Hvt. rewrite <- Hvt.
  rewrite Hc, Hty, Hp, Hpl, Hex, Hin. unfold wire_flow_decoder_shard_count_ok.
  rewrite Hsc in Hix |- *. rewrite !Z.eqb_refl. cbn [Z.eqb WIRE_TYPE_DATA WIRE_TYPE_END Pos.eqb negb orb].
  rewrite Z.geb_leb, Z.gtb_ltb, (proj2 (Z.leb_gt _ _)), (proj2 (Z.eqb_neq _ _)),
    (proj2 (Z.ltb_ge _ _)), (proj2 (Nat.ltb_ge _ _)) by done.
  cbn [orb d_next_emit_block d_best_effort count_stat set_stats]. rewrite Hbe.
  rewrite (proj2 (Z.ltb_ge _ _)) by lia. unfold ingest_data.
  cbn [d_next_emit_block d_groups count_stat set_stats]. rewrite (proj2 (in_window_spec _ _ Hn Hid)) by done.
  cbn [negb]. rewrite Hf. unfold ingest_shard. cbn [d_groups count_stat set_stats]. by rewrite Hs.
Qed.

(** ** Delivery *)

(** The state after the datagrams [ds] of a strict stream. *)
Record delivering (ds : list Datagram) (d : Dec) : Prop := {
  dl_rest : exists R, rest R d;
  dl_strict : d_best_effort d = false;
  dl_open : d_end_seen d = false;
  dl_shards : forall x, In x ds -> shard_of x < k + r;
  dl_held : forall x, In x ds -> held d (block_of x) (shard_of x) }.

(** Blocks with enough shards are out. *)
Lemma delivering_progress ds d m :
  delivering ds d -> covered k ds m -> (Z.of_nat m <= d_next_emit_block d)%Z.
Proof.
  intros [[R Hr] Hbe Hes Hsh Hheld] Hcov. destruct (ar_inv _ _ _ _ _ _ d Hr) as (U & HU & H).
  destruct (Z.le_gt_cases (Z.of_nat m) (d_next_emit_block d)) as [|Hlt]; [done|exfalso].
  pose proof (di_next _ _ _ _ _ _ _ _ _ H) as Hn0.
  specialize (Hcov (Z.to_nat (d_next_emit_block d)) ltac:(lia)). rewrite Z2Nat.id in Hcov by done.
  set (id := d_next_emit_block d) in *. pose proof (ec_k (ErasureCodec := EC)) as Hk.
  assert (Hat : forall s, In s (arrived ds id) -> exists i bits,
    find_group (d_groups d) id = Some i /\ i < WIRE_FLOW_GROUP_WINDOW /\
    g_received_bits (group_at (d_groups d) i) = Some bits /\
    g_state (group_at (d_groups d) i) = WIRE_GROUP_ACTIVE /\ codec_present_get bits s = true /\
    s < k + r).
  { intros s (x & Hx & Hid & Hs)%arrived_spec. pose proof (Hsh x Hx) as Hlt'.
    destruct (Hheld x Hx) as [?|(i & bits & Hi & Ho & Hidi & Hb & Hst)]; [lia|].
    pose proof (find_group_unique ok k r strm R k ltac:(done) U None i d H Hi Ho) as Hf.
    rewrite Hidi, Hid in Hf. exists i, bits.
    assert (Ha : g_state (group_at (d_groups d) i) = WIRE_GROUP_ACTIVE).
    { destruct (di_groups _ _ _ _ _ _ _ _ _ H i Hi Ho) as [[_ _ _ (? & ? & _ & _ & _ & _ & Hg) _] _].
      pose proof (di_failed _ _ _ _ _ _ _ _ _ H i Hi ltac:(done)) as Hnf.
      destruct (ar_stuck _ _ _ _ _ _ d Hr Hbe) as [[? _]|[Hrec _]]; [congruence|].
      specialize (Hrec i Hf). destruct (g_state (group_at (d_groups d) i)); try done. by rewrite Hnf in Hes. }
    destruct Hst as [|Hst]; [done|]. rewrite Hs in Hst, Hlt'. done. }
  destruct (arrived ds id) as [|s0 rest_s] eqn:E; [simpl in Hcov; lia|].
  destruct (Hat s0) as (i & bits & Hf & Hi & Hb & Ha & _ & _); [by left|].
  pose proof (di_settled _ _ _ _ _ _ _ _ _ H i Hi ltac:(done) Ha) as Hcnt.
  assert (Ho : occupied (group_at (d_groups d) i)) by (unfold occupied; by rewrite Ha).
  destruct (di_groups _ _ _ _ _ _ _ _ _ H i Hi Ho) as [[_ Hsc _ _ _] _].
  unfold group_received_count in Hcnt. rewrite Hb, Hsc in Hcnt.
  assert (length (s0 :: rest_s) <=
          length (List.filter (codec_present_get bits) (seq 0 (k + r)))) as Hle; [|lia].
  apply NoDup_incl_length; [rewrite <- E; apply NoDup_nodup|].
  intros s Hs. destruct (Hat s Hs) as (i' & bits' & Hf' & _ & Hb' & _ & Hp & Hlt').
  rewrite Hf in Hf'. injection Hf' as <-. rewrite Hb in Hb'. injection Hb' as <-.
  apply filter_In. split; [apply in_seq; lia|done].
Qed.

(** A datagram with a shard of the stream, for which the allocations succeed. *)
Definition shard_datagram (x : Datagram) : Prop :=
  dg_calloc x = true /\
  exists bytes, carries k r x bytes /\ honest strm top (dg_header x) bytes.

Lemma shard_datagram_trusted x : shard_datagram x -> trusted k r strm top x.
Proof.
  intros (_ & bytes & Hc & Hh). split; [pose proof (hn_id _ _ _ _ Hh); lia|].
  intros bytes' Hc'. pose proof (cr_payload _ _ _ _ Hc) as E.
  rewrite (cr_payload _ _ _ _ Hc') in E. by injection E as ->.
Qed.

Lemma delivering_step ds x d m :
  delivering ds d -> shard_datagram x -> covered k ds m ->
  (block_of x < Z.of_nat m + Z.of_nat WIRE_FLOW_GROUP_WINDOW)%Z ->
  yielding (delivering (ds ++ [x])) (step x d).
Proof.
  intros Hd Hx Hcov Hm. pose proof (delivering_progress ds d m Hd Hcov) as Hnext.
  pose proof (shard_datagram_trusted x Hx) as Htr. destruct Hx as (Hca & bytes & Hcr & Hh).
  destruct Hd as [[R Hr] Hbe Hes Hsh Hheld].
  assert (Hc : d_complete d = false).
  { destruct (d_complete d) eqn:E; [|done]. destruct (ar_complete _ _ _ _ _ _ d Hr E). congruence. }
  eapply yields_mono, (ingest_spec codec ok k r code EC out_ok clock realloc_ok strm HS top
                         (proj2 Htop) x d Hr Htr).
  intros d' (R' & _ & Hr' & Hb' & Hx). destruct (Hx bytes Hcr Hc) as [[_ _ Hseen Hkeep] Hnew].
  split; [by exists R'|congruence|congruence| |].
  - intros y [Hy|[<-|[]]]%in_app_iff; [by apply Hsh|].
    destruct (cr_header _ _ _ _ Hcr) as [Hsc Hix]. pose proof (hn_index _ _ _ _ Hh).
    unfold shard_of. lia.
  - intros y [Hy|[<-|[]]]%in_app_iff; [by apply Hkeep, Hheld|]. apply Hnew; [done|].
    unfold in_window, block_of in *. lia.
Qed.

Lemma delivering_run ds1 ds2 d :
  delivering ds1 d -> Forall shard_datagram ds2 -> paced k (ds1 ++ ds2) ->
  yielding (delivering (ds1 ++ ds2)) (decoder_run ds2 d).
Proof.
  revert ds1 d. induction ds2 as [|x ds2 IH]; intros ds1 d Hd Hds Hp; cbn [decoder_run].
  { rewrite app_nil_r. by apply yields_ret. }
  inversion_clear Hds as [|? ? Hx Hds']. destruct (Hp ds1 x ds2 eq_refl) as (m & Hcov & Hm).
  eapply yields_bind; [by eapply delivering_step|]. intros d' Hd'.
  change (x :: ds2) with ([x] ++ ds2). rewrite app_assoc. apply IH; [done|done|].
  by rewrite <- app_assoc.
Qed.

(** C10: delivery.  A strict decoder and a stream of [top] blocks: when at least [k] of the shards
    of every block arrive, in any order and with any duplicates as long as no datagram runs more
    than the window ahead of the blocks that are covered, and then the end arrives, the stream is
    complete and the output is exactly the blocks of the stream. *)
Theorem wire_decoder_delivers_stream st d ds e :
  ok st -> new_decoder st false = Some d ->
  Forall shard_datagram ds -> paced k ds -> covered k ds (Z.to_nat top) ->
  wh_type (dg_header e) = WIRE_TYPE_END -> wh_shard_count (dg_header e) = Z.of_nat (k + r) ->
  wh_payload_len (dg_header e) = 0%Z -> wh_block_id (dg_header e) = top ->
  (forall n, out_ok n = true) ->
  exists d', decoder_run (ds ++ [e]) d = Some (true, d') /\ d_complete d' = true /\
    d_outputs d' = blocks_upto strm (Z.to_nat top).
Proof.
  intros Hok Hnew Hds Hp Hcov Ety Esc Epl Eid Hout.
  destruct (new_decoder_rest st false d Hok Hnew) as (Hr & Hbe & Hes & _).
  assert (Hd : delivering [] d) by (split; [by eexists|done..]).
  assert (Hrun : yielding (fun d' => d_complete d' = true /\
                   d_outputs d' = blocks_upto strm (Z.to_nat top)) (decoder_run (ds ++ [e]) d)).
  2:{ destruct Hrun as (b & d' & Hrun & Hres). destruct b; [by exists d'|].
      destruct Hres as [n Hn]. by rewrite Hout in Hn. }
  eapply run_app; [by apply (delivering_run [] ds)|]. intros d1 Hd1.
  pose proof (delivering_progress ds d1 _ Hd1 Hcov) as Hnext. rewrite Z2Nat.id in Hnext by lia.
  destruct Hd1 as [[R Hr1] Hbe1 Hes1 _ _]. cbn [decoder_run]. unfold step, wire_flow_decoder_ingest.
  destruct (ec_some (ErasureCodec := EC)) as [vt Hvt]. rewrite Hvt. rewrite <- Hvt.
  destruct (d_complete d1) eqn:Hc1.
  { destruct (ar_complete _ _ _ _ _ _ d1 Hr1 Hc1). congruence. }
  rewrite Ety, Z.eqb_refl. destruct (ar_inv _ _ _ _ _ _ d1 Hr1) as (U & HU & H).
  eapply yields_bind; [apply (ingest_end_spec codec ok k r code EC out_ok clock realloc_ok strm HS top
                                (proj2 Htop) (R := R)); [done|done|]|].
  { rewrite Eid. unfold WIRE_FLOW_GROUP_WINDOW in *. lia. }
  intros d2 (Hr2 & Hbe2 & Hend). apply yields_ret. destruct Hend as [Hcomp Hcount].
  { split_and!; [by rewrite Esc, (di_expected _ _ _ _ _ _ _ _ _ H)|done|congruence]. }
  { right. lia. }
  split; [done|]. destruct (ar_complete _ _ _ _ _ _ d2 Hr2 Hcomp) as [_ Hge].
  destruct (ar_inv _ _ _ _ _ _ d2 Hr2) as (U2 & HU2 & H2).
  assert (Hs2 : d_best_effort d2 = false) by congruence.
  pose proof (di_reach _ _ _ _ _ _ _ _ _ H2 Hs2) as Hreach.
  pose proof (di_out _ _ _ _ _ _ _ _ _ H2) as Ho. rewrite Hs2 in Ho. apply in_order_strict in Ho.
  rewrite Ho. do 2 f_equal. lia.
Qed.

End Runs.

(** ** A stream of two blocks through the none codec, out of order and with a duplicate *)

Definition demo_stream : Stream :=
  mkStream (fun _ => replicate PKG_SIZE x41) (fun _ => 5) (fun _ => 7%Z) (fun _ => 9%Z).

Definition demo_datagram (id : Z) : Datagram :=
  mkDatagram (mkWireHeader WIRE_VERSION_V4 WIRE_TYPE_DATA 0 8 1 id 0 1 5 (Z.of_nat PKG_SIZE) 7 9 0 0 0)
    (Some (replicate PKG_SIZE x41)) PKG_SIZE true.

Definition demo_end : Datagram :=
  mkDatagram (mkWireHeader WIRE_VERSION_V4 WIRE_TYPE_END 0 8 1 2 0 1 0 0 0 0 0 0 0) None 0 true.

Definition demo_run : list Datagram := [demo_datagram 1; demo_datagram 0; demo_datagram 1].

Lemma demo_stream_ok : stream_ok 1 (fun e => length e = (1 + 0) * PKG_SIZE) demo_stream.
Proof.
  intros id. cbn [st_len st_block demo_stream]. rewrite length_replicate.
  pose proof pkg_size_value. lia.
Qed.

Lemma demo_shard id :
  (0 <= id < 2)%Z -> shard_datagram 1 0 demo_stream 2 (demo_datagram id).
Proof.
  intros Hid. split; [done|]. pose proof pkg_size_value as Hp.
  exists (replicate PKG_SIZE x41). split; split; try done; cbn; lia.
Qed.

Abbreviation demo_new := (@new_decoder unit (Some none_codec_vtable) 1 0 tt).

Lemma demo_run_shards : Forall (shard_datagram 1 0 demo_stream 2) demo_run.
Proof. repeat constructor; apply demo_shard; lia. Qed.

Lemma demo_run_trusted : Forall (trusted 1 0 demo_stream 2) demo_run.
Proof.
  eapply list.Forall_impl; [exact demo_run_shards|]. intros x Hx.
  apply shard_datagram_trusted; [done|]. exact Hx.
Qed.

Lemma demo_paced : paced 1 demo_run.
Proof.
  intros before x after E. exists 0. split; [intros id Hid; lia|].
  assert (Hx : In x demo_run) by (rewrite E; apply in_elt).
  by destruct Hx as [<-|[<-|[<-|[]]]].
Qed.

Lemma wire_decoder_strict_output_witness :
  exists d, demo_new false = Some d /\ exists b d',
    decoder_run (Some none_codec_vtable) (fun _ => true) (fun _ => 0%Z) true demo_run d =
      Some (b, d') /\ b = true.
Proof.
  eexists. split; [reflexivity|].
  destruct (wire_decoder_strict_output (Some none_codec_vtable) (fun _ => True) 1 0 _ none_erasure
              (fun _ => true) (fun _ => 0%Z) true demo_stream demo_stream_ok 2 ltac:(by vm_compute) tt _
              demo_run I eq_refl demo_run_trusted) as (b & d' & Hrun & Hres).
  exists b, d'. split; [exact Hrun|]. destruct b; [done|]. by destruct Hres.
Defined.

(** The first block never comes; the shard of the second is written at the end. *)
Definition demo_gap : list Datagram := [demo_datagram 1; demo_end].

Lemma demo_gap_trusted : Forall (trusted 1 0 demo_stream 2) demo_gap.
Proof.
  constructor; [|constructor; [|done]].
  - apply shard_datagram_trusted; [by vm_compute|]. by apply demo_shard.
  - split; [done|]. intros bytes Hc. by pose proof (cr_type _ _ _ _ Hc).
Qed.

Lemma wire_decoder_best_effort_output_witness :
  exists d, demo_new true = Some d /\ exists d' R,
    decoder_run (Some none_codec_vtable) (fun _ => true) (fun _ => 0%Z) true demo_gap d =
      Some (true, d') /\
    in_order 1 0 demo_stream R true (d_next_emit_block d') (d_outputs d') /\ R 1%Z 0 = true.
Proof.
  eexists. split; [reflexivity|].
  destruct (wire_decoder_best_effort_output (Some none_codec_vtable) (fun _ => True) 1 0 _ none_erasure
              (fun _ => true) (fun _ => 0%Z) true demo_stream demo_stream_ok 2 ltac:(by vm_compute) tt _
              demo_gap I eq_refl demo_gap_trusted) as (b & d' & Hrun & Hres).
  destruct b; [|by destruct Hres]. destruct Hres as [(R & Hio & _ & Htime) _].
  exists d', R. split; [exact Hrun|]. split; [exact Hio|].
  destruct (demo_shard 1 ltac:(lia)) as (_ & bytes & Hc & _).
  eapply (Htime [] (demo_datagram 1) [demo_end] _ bytes); [done|reflexivity|exact Hc|].
  clear. split; [reflexivity|]. split; [reflexivity|]. split; [by vm_compute|by vm_compute].
Defined.

Lemma wire_decoder_delivers_stream_witness :
  exists d, demo_new false = Some d /\ exists d',
    decoder_run (Some none_codec_vtable) (fun _ => true) (fun _ => 0%Z) true
      (demo_run ++ [demo_end]) d = Some (true, d') /\
    d_complete d' = true /\ d_outputs d' = blocks_upto demo_stream 2.
Proof.
  eexists. split; [reflexivity|].
  apply (wire_decoder_delivers_stream (Some none_codec_vtable) (fun _ => True) 1 0 _ none_erasure
           (fun _ => true) (fun _ => 0%Z) true demo_stream demo_stream_ok 2 ltac:(by vm_compute) tt _
           demo_run demo_end I eq_refl demo_run_shards demo_paced); try reflexivity.
  intros id Hid. change (id < 2) in Hid.
  destruct id as [|[|id]]; [by apply Nat.leb_le|by apply Nat.leb_le|lia].
Defined.

