(* ===== verification/FecTransport.v ===== *)
(** * FEC transport, shared part: src/src/fec_transport.c and src/include/fec_transport.h

    The library turns a sequence of messages into groups of Reed-Solomon shards and back.  A group
    has [k] data shards and [r] parity shards: [k - 1] messages and, in shard [k - 1], a table of
    their lengths.  This file has the statuses, the configuration and its validation, and the
    counting of users that share the one static codec.  FecEncoder and FecDecoder have the rest.
    The Wirehair backend of the library is left out: the configurations here select
    [FEC_CODEC_RS]. *)

From Stdlib Require Import Strings.Byte.
From S2P Require Import Prelude WireHeader Gf256 ByteVec RsEncode Codec RsCodec RsMatrix.
From S2P Require Import RsGenerator RsSimd RsCodecSpec RsRecover.

Inductive FecStatus :=
| FEC_OK | FEC_ERR_INVAL | FEC_ERR_NOMEM | FEC_ERR_QUEUE_FULL | FEC_ERR_WIRE_HEADER
| FEC_ERR_METADATA | FEC_ERR_CODEC | FEC_ERR_DOWNSTREAM | FEC_ERR_STALE | FEC_ERR_NOT_FEC
| FEC_ERR_EXHAUSTED | FEC_ERR_BUSY.

#[export] Instance FecStatus_eq_dec : EqDecision FecStatus.
Proof. solve_decision. Defined.

(** What the output callback returns. *)
Inductive FecOutputStatus := FEC_OUTPUT_OK | FEC_OUTPUT_BLOCKED | FEC_OUTPUT_ERROR.

#[export] Instance FecOutputStatus_eq_dec : EqDecision FecOutputStatus.
Proof. solve_decision. Defined.

Inductive FecCodecKind := FEC_CODEC_RS | FEC_CODEC_WIREHAIR.

#[export] Instance FecCodecKind_eq_dec : EqDecision FecCodecKind.
Proof. solve_decision. Defined.

Definition FEC_TRANSPORT_MAX_SHARDS : Z := 255.
Definition FEC_DEFAULT_FLUSH_NS : Z := 20 * 1000 * 1000.
Definition FEC_DEFAULT_WINDOW : Z := 64.
Definition FEC_DEFAULT_QUEUE_PKTS : Z := 256.
Definition UINT16_MAX : Z := 65535.
Definition UINT32_MAX : Z := 2 ^ 32 - 1.

Inductive FecKind := FEC_KIND_DATA | FEC_KIND_METADATA | FEC_KIND_PARITY.

#[export] Instance FecKind_eq_dec : EqDecision FecKind.
Proof. solve_decision. Defined.

(** The fields of [FecTransportConfig] that the Reed-Solomon backend reads. *)
Record FecTransportConfig := mkFecTransportConfig {
  cfg_codec : FecCodecKind;
  cfg_data_shards : Z;
  cfg_parity_shards : Z;
  cfg_shard_size : Z;
  cfg_flush_timeout_ns : Z;
  cfg_group_window : Z;
  cfg_output_queue_packets : Z;
  cfg_output_queue_bytes : Z;
  cfg_wire_rate_bps : Z;
  cfg_wire_burst_bytes : Z }.

(** Every field fits its C type. *)
Definition config_in_range (c : FecTransportConfig) : Prop :=
  in_range 16 (cfg_data_shards c) /\ in_range 16 (cfg_parity_shards c) /\
  in_range 16 (cfg_shard_size c) /\ in_range 64 (cfg_flush_timeout_ns c) /\
  in_range 64 (cfg_group_window c) /\ in_range 64 (cfg_output_queue_packets c) /\
  in_range 64 (cfg_output_queue_bytes c) /\ in_range 64 (cfg_wire_rate_bps c) /\
  in_range 64 (cfg_wire_burst_bytes c).

Definition fec_transport_config_init : FecTransportConfig :=
  mkFecTransportConfig FEC_CODEC_RS 4 2 0 FEC_DEFAULT_FLUSH_NS FEC_DEFAULT_WINDOW
    FEC_DEFAULT_QUEUE_PKTS 0 0 0.

(** [align8] *)
Definition align8 (value : Z) : Z := Z.land (value +u64 7)%cint (Z.lnot 7).

(** [if (field == 0) field = value] *)
Definition or_default (v d : Z) : Z := if (v =? 0)%Z then d else v.

(** The Reed-Solomon part of [config_complete]: [None] is the result 0. *)
Definition config_complete (c : FecTransportConfig) : option FecTransportConfig :=
  if negb (bool_decide (cfg_codec c = FEC_CODEC_RS)) then None
  else if (cfg_data_shards c <? 2)%Z || (cfg_parity_shards c <? 1)%Z then None
  else if (u32 (cfg_data_shards c + cfg_parity_shards c) >? FEC_TRANSPORT_MAX_SHARDS)%Z then None
  else
    let shard_size := or_default (cfg_shard_size c) (u16 (Z.of_nat PKG_SIZE)) in
    if (shard_size <? 32)%Z then None
    else
      let valid_span := u32 (cfg_data_shards c * shard_size) in
      if (valid_span =? 0)%Z || (valid_span >? UINT16_MAX)%Z then None
      else
        let group_window := or_default (cfg_group_window c) FEC_DEFAULT_WINDOW in
        let packets := or_default (cfg_output_queue_packets c) FEC_DEFAULT_QUEUE_PKTS in
        if (packets <? (cfg_parity_shards c +u64 1)%cint)%Z then None
        else
          let bytes := or_default (cfg_output_queue_bytes c)
                         (u64 (packets * (Z.of_nat WIRE_HEADER_SIZE + shard_size))) in
          Some (mkFecTransportConfig (cfg_codec c) (cfg_data_shards c) (cfg_parity_shards c)
                  shard_size (cfg_flush_timeout_ns c) group_window packets bytes
                  (cfg_wire_rate_bps c) (cfg_wire_burst_bytes c)).

(** ** The users of the static codec *)

(** [fec_backend_users], [fec_backend_k], [fec_backend_r], [fec_backend_shard] *)
Record FecBackend := mkFecBackend {
  be_users : Z; be_k : Z; be_r : Z; be_shard : Z }.

Definition fec_backend_start : FecBackend := mkFecBackend 0 0 0 0.

Definition unbind_rs (b : FecBackend) : FecBackend :=
  if (be_users b >? 0)%Z then mkFecBackend (be_users b - 1) (be_k b) (be_r b) (be_shard b) else b.

(** [bind_rs]: the codec it stores is the one [RsCodec_get] returns. *)
Definition bind_rs (env : RsEnv) (c : FecTransportConfig) (b : FecBackend) (s : RsState) :
    bool * FecBackend * RsState :=
  if (be_users b >? 0)%Z &&
     (negb (be_k b =? cfg_data_shards c)%Z || negb (be_r b =? cfg_parity_shards c)%Z ||
      negb (be_shard b =? cfg_shard_size c)%Z)
  then (false, b, s)
  else
    let '(rc, s) := RsCodec_set_params_ex env (cfg_data_shards c) (cfg_parity_shards c)
                      (cfg_shard_size c) s in
    if negb (rc =? 0)%Z then (false, b, s)
    else
      let '((data_shards, parity_shards), s) := RsCodec_get_params env s in
      let '(block_size, s) := Codec_output_block_size (Some (rs_vtable env)) s in
      if (Z.of_nat data_shards =? cfg_data_shards c)%Z &&
         (Z.of_nat parity_shards =? cfg_parity_shards c)%Z &&
         (Z.of_nat block_size =?
            u64 ((cfg_data_shards c + cfg_parity_shards c) * cfg_shard_size c))%Z
      then (true, mkFecBackend (be_users b + 1) (cfg_data_shards c) (cfg_parity_shards c)
                    (cfg_shard_size c), s)
      else (false, b, s).

(** ** Shape of a group and counters *)

(** The fields [k], [r], [n], [shard_size] and [message_shards] of an encoder or decoder. *)
Record FecShape := mkFecShape {
  sh_k : nat; sh_r : nat; sh_n : nat; sh_shard_size : nat; sh_message_shards : nat }.

Definition shape_of (c : FecTransportConfig) : FecShape :=
  let k := cfg_data_shards c in
  let r := cfg_parity_shards c in
  mkFecShape (Z.to_nat k) (Z.to_nat r) (Z.to_nat (u16 (k + r))) (Z.to_nat (cfg_shard_size c))
    (Z.to_nat (u16 (k - 1))).

(** The counters of [FecStats]. *)
Inductive FecStat :=
| data_datagrams_tx | parity_datagrams_tx | metadata_datagrams_tx | received_datagrams
| duplicate_datagrams | stale_datagrams | invalid_datagrams | completed_groups | recovered_groups
| recovered_shards | unrecoverable_groups | expired_groups | evicted_groups | missing_shards
| over_r_groups | max_missing_run | output_queue_packets | output_queue_bytes | blocked_count
| queue_overflow_count | wire_pacing_deferred | downstream_callback_errors.

#[export] Instance FecStat_eq_dec : EqDecision FecStat.
Proof. solve_decision. Defined.

Definition FecStats : Type := FecStat -> Z.

Definition stats_zero : FecStats := fun _ => 0%Z.
Definition stat_add (c : FecStat) (n : Z) (s : FecStats) : FecStats :=
  fun x => if decide (x = c) then u64 (s x + n) else s x.
Definition stat_set (c : FecStat) (v : Z) (s : FecStats) : FecStats :=
  fun x => if decide (x = c) then v else s x.

(** [status = c; if (status != FEC_OK) return status;] and then [k] *)
Definition if_ok {A} (c : option (FecStatus * A)) (k : A -> option (FecStatus * A)) :
    option (FecStatus * A) :=
  match c with Some (FEC_OK, a) => k a | r => r end.

(** [group_id_of] *)
Definition group_id_of (epoch group : Z) : Z := Z.lor (u64 (Z.shiftl epoch 32)) group.

(** The bytes of one shard of a block. *)
Definition shard_bytes (sb : nat) (block : list byte) (shard : nat) : list byte :=
  take sb (drop (shard * sb) block).

(** ** Facts about the configuration *)

Record shape_ok (s : FecShape) : Prop := {
  so_k : 2 <= sh_k s;
  so_r : 1 <= sh_r s;
  so_n : sh_n s = sh_k s + sh_r s;
  so_max : sh_n s <= 255;
  so_sb : 32 <= sh_shard_size s;
  so_span : (Z.of_nat (sh_k s * sh_shard_size s) <= UINT16_MAX)%Z;
  so_m : sh_message_shards s = sh_k s - 1 }.

(** * What the FEC transport relies on

    [BlockCode] is the contract between the transport and its codec: encoding keeps the data
    shards and gives a code word, and any [k] shards of a code word give it back.  The
    Reed-Solomon codec implements it for every shard size. *)

#[local] Opaque PKG_SIZE gsum build_gf_mul_table.

(** [buf] has the shards of [e] that are marked in [bits]. *)
Definition shards_agree (sb n : nat) (bits buf e : list byte) : Prop :=
  forall s b, s < n -> b < sb -> codec_present_get bits s = true -> cell sb buf s b = cell sb e s b.

(** [ok] are the states of a codec configured for [k + r] shards of [sb] bytes, [code] its code
    words. *)
Class BlockCode {St : Type} (codec : option (CodecVTable St)) (ok : St -> Prop) (sb k r : nat)
    (code : list byte -> Prop) : Prop := {
  bc_length e : code e -> length e = (k + r) * sb;
  bc_encode st d :
    ok st -> length d = (k + r) * sb ->
    exists e st',
      Codec_encode codec st (Some d) ((k + r) * sb) = (Some e, st') /\ ok st' /\ code e /\
      forall s b, s < k -> b < sb -> cell sb e s b = cell sb d s b;
  bc_recover st e buf bits :
    ok st -> code e -> length buf = (k + r) * sb -> shards_agree sb (k + r) bits buf e ->
    k <= length (present_shards bits (k + r)) ->
    forallb (codec_present_get bits) (seq 0 k) = false ->
    exists st', Codec_recover codec st (Some buf) (Some bits) (k + r)
                = (CODEC_RECOVER_OK, Some e, st') /\ ok st';
  bc_recover_total st buf bits :
    ok st -> exists status buf' st',
      Codec_recover codec st (Some buf) (Some bits) (k + r) = (status, Some buf', st') /\
      length buf' = length buf /\ ok st'
}.

(** ** Reed-Solomon *)

Lemma length_repair_shard G inverse survivors k sb shard buf :
  length (repair_shard G inverse survivors k sb shard buf) = length buf.
Proof.
  unfold repair_shard. apply (for_ind (fun _ b => length b = length buf)); [done|].
  intros i b _ <-. apply length_insert.
Qed.

(** A codec state configured for the geometry, as [bind_rs] leaves it. *)
Definition rs_bound (sb k r : nat) (s : RsState) : Prop :=
  rs_inv s /\ rs_matrix_ready s = true /\ rs_geo s = mkRsGeometry k r (k + r) sb.

Definition rs_word (sb k r : nat) (e : list byte) : Prop :=
  exists G d, rebuild_generator k r = Some G /\ e = encode_ref sb k r G d.

Lemma rs_bound_code sb k r s d :
  rs_bound sb k r s -> rs_word sb k r (rs_code s d) /\ rs_block_size s = (k + r) * sb.
Proof.
  intros (Hi & Hm & Hg). destruct (inv_ready s Hi Hm) as [_ Hp].
  pose proof (pub_generator s Hp) as HG. unfold rs_code, rs_block_size. rewrite Hg in *. cbn in *.
  split; [by exists (rs_generator s), d|done].
Qed.

#[export] Instance rs_block_code env sb k r :
  env_once env = true -> BlockCode (Some (rs_vtable env)) (rs_bound sb k r) sb k r (rs_word sb k r).
Proof.
  intros He. split.
  - intros e (G & d & _ & ->). apply length_of_cells.
  - intros s d Hs Hl. destruct (rs_bound_code sb k r s d Hs) as [Hw Hsz].
    destruct Hs as (Hi & Hm & Hg).
    destruct (rs_encode_code env s d Hi Hm He) as [Hf (Hgeo & _ & _ & Hmr)]; [by rewrite Hsz|].
    pose proof (rs_encode_inv env s (Some d) (rs_block_size s) Hi) as Hi'.
    rewrite Hsz in *. unfold Codec_encode. cbn [vt_encode rs_vtable].
    destruct (rs_encode env s (Some d) ((k + r) * sb)) as [o s']. cbn [fst snd] in *. subst o.
    exists (rs_code s d), s'. split; [done|]. split; [|split; [done|]].
    { split; [done|]. by rewrite Hmr, Hgeo. }
    intros sh b Hsh Hb. pose proof (rs_code_data s d sh b) as H. rewrite Hg in H. cbn in H.
    by apply H.
  - intros s e buf bits Hs (G & d & HG & ->) Hl Hag Hk Hf.
    destruct Hs as (Hi & Hm & Hg). destruct (inv_ready s Hi Hm) as [_ Hp].
    assert (Hcode : encode_ref sb k r G d = rs_code s d).
    { pose proof (pub_generator s Hp) as H. rewrite Hg in H. cbn in H. rewrite HG in H.
      injection H as ->. unfold rs_code. by rewrite Hg. }
    exists s. split; [|by split]. unfold Codec_recover. cbn [vt_recover rs_vtable].
    pose proof (pub_geo s Hp) as Hgo. rewrite Hg in Hgo. destruct Hgo as [Hk1 _ _ _]. cbn in Hk1.
    rewrite (proj2 (Nat.eqb_neq (k + r) 0)) by lia.
    pose proof (rs_recover_ready env s d buf bits Hi Hm He) as H. rewrite Hg in H. cbn in H.
    unfold rs_data_shards_present in H. rewrite Hf in H. rewrite Hcode. apply H; try done.
    + unfold rs_block_size. by rewrite Hg.
    + rewrite <- Hcode. exact Hag.
  - intros s buf bits Hs. pose proof Hs as (Hi & Hm & Hg).
    unfold Codec_recover. cbn [vt_recover rs_vtable].
    destruct (k + r =? 0); [by do 3 eexists|].
    rewrite rs_recover_cases by done.
    repeat (case_match; try by (do 3 eexists; split; [reflexivity|])).
    do 3 eexists. split; [reflexivity|]. split; [|done].
    apply (for_ind (fun _ b => length b = length buf)); [done|].
    intros i b _ <-. case_match; [done|]. apply length_repair_shard.
Qed.
