(* ===== verification/FecEncoder.v ===== *)
(** * FEC encoder: src/src/fec_transport.c, [fec_encoder_*]

    A message is copied into the block of the open group and leaves at once as a data shard; when
    the group is full or times out, its length table and parity shards follow.  Shards wait in a
    circular queue that [fec_encoder_drain] empties under a token bucket.

    The codec is reached through the dispatchers of codec.c; the static state behind it is the
    field [e_codec_state].  The output callback belongs to the environment: [out i] is what its
    [i]-th call returns, and [e_calls] lists the datagrams passed to it with the answers.  [None]
    is undefined behaviour: an access outside the block or the queue. *)

From Stdlib Require Import Strings.Byte.
From S2P Require Import Prelude WireHeader Gf256 ByteVec RsEncode Codec RsCodec FecTransport.

Record FecQueueItem := mkFecQueueItem {
  it_len : Z; it_kind : FecKind; it_datagram : list Z }.

(** The zeroed queue storage; an item holds a datagram of [max_datagram] bytes. *)
Definition blank_item (max_datagram : nat) : FecQueueItem :=
  mkFecQueueItem 0 FEC_KIND_DATA (replicate max_datagram 0%Z).

(** A call of the output callback: what it was given and what it returned. *)
Abbreviation Call A := (A * FecOutputStatus)%type.

Record FecEncoder (St : Type) := mkFecEncoder {
  e_config : FecTransportConfig;
  e_shape : FecShape;
  e_epoch : Z;
  e_next_group : Z;
  e_group_exhausted : bool;
  e_data_count : nat;
  e_pending_since_valid : bool;
  e_pending_since_ns : Z;
  e_tokens : Z;
  e_last_refill_ns : Z;
  e_last_refill_valid : bool;
  e_lengths : list Z;
  e_block : list byte;
  e_q_cap : nat;
  e_q_count : nat;
  e_q_head : nat;
  e_q_bytes : Z;
  e_q_byte_cap : Z;
  e_max_datagram : Z;
  e_q_storage : list FecQueueItem;
  e_stats : FecStats;
  e_codec_state : St;
  e_calls : list (Call (list Z)) }.
Arguments mkFecEncoder {St}.
Arguments e_config {St}.
Arguments e_shape {St}.
Arguments e_epoch {St}.
Arguments e_next_group {St}.
Arguments e_group_exhausted {St}.
Arguments e_data_count {St}.
Arguments e_pending_since_valid {St}.
Arguments e_pending_since_ns {St}.
Arguments e_tokens {St}.
Arguments e_last_refill_ns {St}.
Arguments e_last_refill_valid {St}.
Arguments e_lengths {St}.
Arguments e_block {St}.
Arguments e_q_cap {St}.
Arguments e_q_count {St}.
Arguments e_q_head {St}.
Arguments e_q_bytes {St}.
Arguments e_q_byte_cap {St}.
Arguments e_max_datagram {St}.
Arguments e_q_storage {St}.
Arguments e_stats {St}.
Arguments e_codec_state {St}.
Arguments e_calls {St}.

(** [memcpy(block + p, bs, length bs)]; [None] when it leaves the block. *)
Definition store_checked (block : list byte) (p : nat) (bs : list byte) : option (list byte) :=
  if p + length bs <=? length block then Some (store_bytes block p bs) else None.

Section Encoder.
Context `{host : HostOrder} {St : Type} (codec : option (CodecVTable St)).
Context (out : nat -> FecOutputStatus).

Abbreviation Enc := (FecEncoder St).

(** ** Assignments to the fields *)

(** The open group: group number, exhaustion, messages, lengths and block. *)
Definition enc_group (next : Z) (exhausted : bool) (count : nat) (lengths : list Z)
    (block : list byte) (e : Enc) : Enc :=
  mkFecEncoder (e_config e) (e_shape e) (e_epoch e) next exhausted count (e_pending_since_valid e)
    (e_pending_since_ns e) (e_tokens e) (e_last_refill_ns e) (e_last_refill_valid e) lengths block
    (e_q_cap e) (e_q_count e) (e_q_head e) (e_q_bytes e) (e_q_byte_cap e) (e_max_datagram e)
    (e_q_storage e) (e_stats e) (e_codec_state e) (e_calls e).

Definition enc_pending (valid : bool) (since : Z) (e : Enc) : Enc :=
  mkFecEncoder (e_config e) (e_shape e) (e_epoch e) (e_next_group e) (e_group_exhausted e)
    (e_data_count e) valid since (e_tokens e) (e_last_refill_ns e) (e_last_refill_valid e)
    (e_lengths e) (e_block e) (e_q_cap e) (e_q_count e) (e_q_head e) (e_q_bytes e)
    (e_q_byte_cap e) (e_max_datagram e) (e_q_storage e) (e_stats e) (e_codec_state e) (e_calls e).

Definition enc_tokens (tokens last : Z) (valid : bool) (e : Enc) : Enc :=
  mkFecEncoder (e_config e) (e_shape e) (e_epoch e) (e_next_group e) (e_group_exhausted e)
    (e_data_count e) (e_pending_since_valid e) (e_pending_since_ns e) tokens last valid
    (e_lengths e) (e_block e) (e_q_cap e) (e_q_count e) (e_q_head e) (e_q_bytes e)
    (e_q_byte_cap e) (e_max_datagram e) (e_q_storage e) (e_stats e) (e_codec_state e) (e_calls e).

Definition enc_queue (count head : nat) (bytes : Z) (storage : list FecQueueItem) (e : Enc) : Enc :=
  mkFecEncoder (e_config e) (e_shape e) (e_epoch e) (e_next_group e) (e_group_exhausted e)
    (e_data_count e) (e_pending_since_valid e) (e_pending_since_ns e) (e_tokens e)
    (e_last_refill_ns e) (e_last_refill_valid e) (e_lengths e) (e_block e) (e_q_cap e) count head
    bytes (e_q_byte_cap e) (e_max_datagram e) storage (e_stats e) (e_codec_state e) (e_calls e).

Definition enc_stats (stats : FecStats) (e : Enc) : Enc :=
  mkFecEncoder (e_config e) (e_shape e) (e_epoch e) (e_next_group e) (e_group_exhausted e)
    (e_data_count e) (e_pending_since_valid e) (e_pending_since_ns e) (e_tokens e)
    (e_last_refill_ns e) (e_last_refill_valid e) (e_lengths e) (e_block e) (e_q_cap e)
    (e_q_count e) (e_q_head e) (e_q_bytes e) (e_q_byte_cap e) (e_max_datagram e) (e_q_storage e)
    stats (e_codec_state e) (e_calls e).

Definition enc_codec_state (st : St) (e : Enc) : Enc :=
  mkFecEncoder (e_config e) (e_shape e) (e_epoch e) (e_next_group e) (e_group_exhausted e)
    (e_data_count e) (e_pending_since_valid e) (e_pending_since_ns e) (e_tokens e)
    (e_last_refill_ns e) (e_last_refill_valid e) (e_lengths e) (e_block e) (e_q_cap e)
    (e_q_count e) (e_q_head e) (e_q_bytes e) (e_q_byte_cap e) (e_max_datagram e) (e_q_storage e)
    (e_stats e) st (e_calls e).

Definition enc_calls (calls : list (Call (list Z))) (e : Enc) : Enc :=
  mkFecEncoder (e_config e) (e_shape e) (e_epoch e) (e_next_group e) (e_group_exhausted e)
    (e_data_count e) (e_pending_since_valid e) (e_pending_since_ns e) (e_tokens e)
    (e_last_refill_ns e) (e_last_refill_valid e) (e_lengths e) (e_block e) (e_q_cap e)
    (e_q_count e) (e_q_head e) (e_q_bytes e) (e_q_byte_cap e) (e_max_datagram e) (e_q_storage e)
    (e_stats e) (e_codec_state e) calls.

Definition enc_epoch (epoch : Z) (e : Enc) : Enc :=
  mkFecEncoder (e_config e) (e_shape e) epoch (e_next_group e) (e_group_exhausted e)
    (e_data_count e) (e_pending_since_valid e) (e_pending_since_ns e) (e_tokens e)
    (e_last_refill_ns e) (e_last_refill_valid e) (e_lengths e) (e_block e) (e_q_cap e)
    (e_q_count e) (e_q_head e) (e_q_bytes e) (e_q_byte_cap e) (e_max_datagram e) (e_q_storage e)
    (e_stats e) (e_codec_state e) (e_calls e).

(** [stats.field++] *)
Definition enc_count (c : FecStat) (e : Enc) : Enc := enc_stats (stat_add c 1 (e_stats e)) e.

(** [stats.output_queue_packets = q_count; stats.output_queue_bytes = q_bytes] *)
Definition note_queue (e : Enc) : Enc :=
  enc_stats (stat_set output_queue_bytes (e_q_bytes e)
               (stat_set output_queue_packets (Z.of_nat (e_q_count e)) (e_stats e))) e.

(** [queue_overflow_count++] and the two gauges, before [FEC_ERR_QUEUE_FULL]. *)
Definition note_overflow (e : Enc) : Enc := note_queue (enc_count queue_overflow_count e).

(** [memset] of [lengths] and of [block] to zero *)
Definition zero_lengths (e : Enc) : list Z := replicate (length (e_lengths e)) 0%Z.
Definition zero_block (e : Enc) : list byte := replicate (length (e_block e)) x00.

(** ** The queue *)

Definition queue_slot (e : Enc) (index : nat) : option FecQueueItem := e_q_storage e !! index.

Definition queue_can_add (e : Enc) (packets : nat) (bytes : Z) : bool :=
  if e_q_cap e <? e_q_count e + packets then false
  else if ((e_q_bytes e +u64 bytes)%cint >? e_q_byte_cap e)%Z then false
  else true.

Definition queue_pop (e : Enc) : option Enc :=
  match queue_slot e (e_q_head e) with
  | None => None
  | Some item =>
      Some (note_queue
              (enc_queue (e_q_count e - 1) ((e_q_head e + 1) mod e_q_cap e)
                 (e_q_bytes e -u64 it_len item)%cint (e_q_storage e) e))
  end.

(** ** The token bucket *)

Definition NS_PER_SEC : Z := 1000000000.
Definition U64_MAX : Z := 2 ^ 64 - 1.

Definition burst_of (e : Enc) : Z :=
  if (cfg_wire_burst_bytes (e_config e) =? 0)%Z then e_max_datagram e
  else cfg_wire_burst_bytes (e_config e).

(** Tokens earned in [dt] nanoseconds at [rate] bits per second. *)
Definition token_gain (rate dt : Z) : Z :=
  (u64 (u64 (rate / 8 * (dt / NS_PER_SEC)) + u64 (rate / 8 * (dt mod NS_PER_SEC)) / NS_PER_SEC))%Z.

Definition refill_tokens (now_ns : Z) (e : Enc) : Enc :=
  let rate := cfg_wire_rate_bps (e_config e) in
  if (rate =? 0)%Z then e
  else
    let burst := burst_of e in
    if negb (e_last_refill_valid e) then enc_tokens burst now_ns true e
    else if (now_ns <=? e_last_refill_ns e)%Z then e
    else
      let add := token_gain rate (now_ns -u64 e_last_refill_ns e)%cint in
      if (add >? U64_MAX - e_tokens e)%Z then enc_tokens burst now_ns true e
      else
        let tokens := (e_tokens e +u64 add)%cint in
        enc_tokens (if (tokens >? burst)%Z then burst else tokens) now_ns true e.

(** ** Shards *)

Definition header_of (e : Enc) (shard : nat) (payload_len : Z) : WireHeader :=
  let sh := e_shape e in
  {| wh_version := 0; wh_type := WIRE_TYPE_DATA; wh_final_dst := 0; wh_ttl := 0; wh_flow_id := 0;
     wh_block_id := group_id_of (e_epoch e) (e_next_group e);
     wh_shard_index := u16 (Z.of_nat shard);
     wh_shard_count := Z.of_nat (sh_n sh);
     wh_valid_len :=
       if shard <? sh_message_shards sh then u16 (Z.of_nat (sh_k sh * sh_shard_size sh))
       else u16 (Z.of_nat ((e_data_count e + 1) * sh_shard_size sh));
     wh_payload_len := payload_len; wh_encode_begin_ns := 0; wh_encode_end_ns := 0;
     wh_origin_node := 0; wh_flags := 0; wh_segment_bytes := 0 |}.

Definition pack_shard (e : Enc) (shard : nat) (payload_len : Z) (packet : list Z) : list Z :=
  write_at (wire_header_encode packet (header_of e shard payload_len))
    WIRE_HEADER_SIZE (map byte_to_Z (shard_bytes (sh_shard_size (e_shape e)) (e_block e) shard)).

(** [WIRE_HEADER_SIZE + shard_size] *)
Definition datagram_size (sh : FecShape) : Z := Z.of_nat (WIRE_HEADER_SIZE + sh_shard_size sh).

Definition kind_of (sh : FecShape) (shard : nat) : FecKind :=
  if shard <? sh_message_shards sh then FEC_KIND_DATA
  else if shard =? sh_message_shards sh then FEC_KIND_METADATA
  else FEC_KIND_PARITY.

Definition enqueue_shard (shard : nat) (payload_len : Z) (e : Enc) : option (FecStatus * Enc) :=
  let sh := e_shape e in
  let len := datagram_size sh in
  if (payload_len =? 0)%Z || (payload_len >? Z.of_nat (sh_shard_size sh))%Z
  then Some (FEC_ERR_INVAL, e)
  else if negb (queue_can_add e 1 len) then Some (FEC_ERR_QUEUE_FULL, note_overflow e)
  else
    let tail := (e_q_head e + e_q_count e) mod e_q_cap e in
    match queue_slot e tail with
    | None => None
    | Some item =>
        let item := mkFecQueueItem (u16 len) (kind_of sh shard)
                      (pack_shard e shard payload_len (it_datagram item)) in
        Some (FEC_OK,
          note_queue (enc_queue (e_q_count e + 1) (e_q_head e) (e_q_bytes e +u64 len)%cint
                        (<[tail := item]> (e_q_storage e)) e))
    end.

(** The loop over the tail shards of [encode_and_enqueue_tails]. *)
Fixpoint enqueue_tails (shards : list nat) (e : Enc) : option (FecStatus * Enc) :=
  match shards with
  | [] => Some (FEC_OK, e)
  | shard :: rest =>
      if_ok (enqueue_shard shard (Z.of_nat (sh_shard_size (e_shape e))) e) (enqueue_tails rest)
  end.

(** The two bytes [memcpy]ed for a length: the image of [htons(length)]. *)
Definition network_length (len : Z) : list byte :=
  map Z_to_byte (store 2 (htons len)).

(** The loop that writes the lengths behind the count byte of the table at [base]. *)
Fixpoint write_lengths (lengths : list Z) (base shard : nat) (block : list byte) :
    option (list byte) :=
  match lengths with
  | [] => Some block
  | len :: rest =>
      match store_checked block (base + 1 + shard * 2) (network_length len) with
      | None => None
      | Some block => write_lengths rest base (S shard) block
      end
  end.

(** The length table in shard [message_shards]: [None] when it does not fit the block. *)
Definition write_length_table (e : Enc) : option (list byte) :=
  let sh := e_shape e in
  let base := sh_message_shards sh * sh_shard_size sh in
  let block := zero_range (e_block e) base (sh_shard_size sh) in
  match store_checked block base [Z_to_byte (Z.of_nat (e_data_count e))] with
  | None => None
  | Some block => write_lengths (take (e_data_count e) (e_lengths e)) base 0 block
  end.

(** The assignments that close a group. *)
Definition close_group (e : Enc) : Enc :=
  let last := (e_next_group e =? UINT32_MAX)%Z in
  enc_pending false 0
    (enc_group (if last then e_next_group e else u32 (e_next_group e + 1))
       (if last then true else e_group_exhausted e) 0 (zero_lengths e) (zero_block e) e).

Definition encode_and_enqueue_tails (e : Enc) : option (FecStatus * Enc) :=
  let sh := e_shape e in
  if (e_data_count e =? 0) || e_group_exhausted e
  then Some (if e_group_exhausted e then FEC_ERR_EXHAUSTED else FEC_OK, e)
  else
    let tails := sh_n sh - sh_message_shards sh in
    let tail_bytes := (Z.of_nat tails * datagram_size sh)%Z in
    if negb (queue_can_add e tails tail_bytes) then Some (FEC_ERR_QUEUE_FULL, note_overflow e)
    else
      match write_length_table e with
      | None => None
      | Some block =>
          let '(block, st) := Codec_encode codec (e_codec_state e) (Some block)
                                (sh_n sh * sh_shard_size sh) in
          let e := enc_codec_state st
                     (enc_group (e_next_group e) (e_group_exhausted e) (e_data_count e)
                        (e_lengths e) (default [] block) e) in
          if_ok (enqueue_tails (seq (sh_message_shards sh) tails) e)
            (fun e => Some (FEC_OK, close_group e))
      end.

(** ** The public functions *)

(** [fec_encoder_create] after the codec was bound: [calloc]ed fields, an empty queue. *)
Definition fec_encoder_new (c : FecTransportConfig) (st : St) : Enc :=
  let sh := shape_of c in
  let max_datagram := (Z.of_nat WIRE_HEADER_SIZE + cfg_shard_size c)%Z in
  mkFecEncoder c sh 0 0 false 0 false 0 0 0 false
    (replicate (sh_message_shards sh) 0%Z) (replicate (sh_n sh * sh_shard_size sh) x00)
    (Z.to_nat (cfg_output_queue_packets c)) 0 0 0 (cfg_output_queue_bytes c) max_datagram
    (replicate (Z.to_nat (cfg_output_queue_packets c)) (blank_item (Z.to_nat max_datagram)))
    stats_zero st [].

Definition fec_encoder_reset (epoch : Z) (e : Enc) : Enc :=
  enc_stats stats_zero
    (enc_tokens 0 (e_last_refill_ns e) false
       (enc_queue 0 0 0 (e_q_storage e)
          (enc_pending false 0
             (enc_group 0 false 0 (zero_lengths e) (zero_block e) (enc_epoch epoch e))))).

Definition fec_encoder_has_pending (e : option Enc) : bool :=
  match e with
  | None => false
  | Some e => negb (e_data_count e =? 0) || negb (e_q_count e =? 0)
  end.

Definition bytes_to_ns (bytes rate_bps : Z) : Z :=
  if (rate_bps =? 0)%Z || (bytes =? 0)%Z then 0%Z
  else (u64 (u64 (u64 (bytes * 8 * NS_PER_SEC) + rate_bps) - 1) / rate_bps)%Z.

(** The time at which the open group is due, 0 when there is none. *)
Definition flush_at (e : Enc) : Z :=
  if e_pending_since_valid e && negb (e_data_count e =? 0) &&
     negb (cfg_flush_timeout_ns (e_config e) =? 0)%Z
  then (e_pending_since_ns e +u64 cfg_flush_timeout_ns (e_config e))%cint else 0%Z.

(** The time at which the head of the queue has its tokens, 0 when it need not wait. *)
Definition pace_at (e : Enc) : option Z :=
  if (0 <? e_q_count e) && negb (cfg_wire_rate_bps (e_config e) =? 0)%Z && e_last_refill_valid e
  then
    match queue_slot e (e_q_head e) with
    | None => None
    | Some item =>
        Some (if (e_tokens e <? it_len item)%Z
              then (e_last_refill_ns e +u64 bytes_to_ns (it_len item -u64 e_tokens e)%cint
                                              (cfg_wire_rate_bps (e_config e)))%cint
              else 0%Z)
    end
  else Some 0%Z.

Definition fec_encoder_next_update_ns (e : Enc) : option Z :=
  match pace_at e with
  | None => None
  | Some pace =>
      let flush := flush_at e in
      Some (if (flush =? 0)%Z then pace
            else if (pace =? 0)%Z then flush
            else if (flush <? pace)%Z then flush else pace)
  end.

Definition fec_encoder_flush (e : Enc) : option (FecStatus * Enc) := encode_and_enqueue_tails e.

(** The part of [fec_encoder_push] that stores the message and sends it as a shard. *)
Definition push_message (data : list byte) (now_ns : Z) (e : Enc) : option (FecStatus * Enc) :=
  let sh := e_shape e in
  let dg := datagram_size sh in
  let last := (e_data_count e + 1 =? sh_message_shards sh) in
  let need_packets := 1 + (if last then sh_r sh + 1 else 0) in
  let need_bytes := (dg + (if last then Z.of_nat (sh_r sh + 1) * dg else 0))%Z in
  if negb (queue_can_add e need_packets need_bytes)
  then Some (FEC_ERR_QUEUE_FULL, note_overflow e)
  else
    let e := if e_data_count e =? 0
             then enc_pending true now_ns
                    (enc_group (e_next_group e) (e_group_exhausted e) (e_data_count e)
                       (zero_lengths e) (zero_block e) e)
             else e in
    match store_checked (e_block e) (e_data_count e * sh_shard_size sh) data with
    | None => None
    | Some block =>
        let len := u16 (Z.of_nat (length data)) in
        let e := enc_group (e_next_group e) (e_group_exhausted e) (e_data_count e)
                   (<[e_data_count e := len]> (e_lengths e)) block e in
        if_ok (enqueue_shard (e_data_count e) len e)
          (fun e =>
             let e := enc_group (e_next_group e) (e_group_exhausted e) (S (e_data_count e))
                        (e_lengths e) (e_block e) e in
             if e_data_count e =? sh_message_shards sh then encode_and_enqueue_tails e
             else Some (FEC_OK, e))
    end.

(** [data] is [None] for [NULL]. *)
Definition fec_encoder_push (data : option (list byte)) (now_ns : Z) (e : Enc) :
    option (FecStatus * Enc) :=
  match data with
  | None => Some (FEC_ERR_INVAL, e)
  | Some data =>
      if length data =? 0 then Some (FEC_ERR_INVAL, e)
      else if sh_shard_size (e_shape e) <? length data then Some (FEC_ERR_INVAL, e)
      else if e_group_exhausted e then Some (FEC_ERR_EXHAUSTED, e)
      else if sh_message_shards (e_shape e) <=? e_data_count e
      then if_ok (encode_and_enqueue_tails e) (push_message data now_ns)
      else push_message data now_ns e
  end.

(** The counter of a sent datagram. *)
Definition tx_stat (kind : FecKind) : FecStat :=
  match kind with
  | FEC_KIND_DATA => data_datagrams_tx
  | FEC_KIND_METADATA => metadata_datagrams_tx
  | FEC_KIND_PARITY => parity_datagrams_tx
  end.

(** [cb.output(ctx, item->datagram, item->len)] *)
Definition call_output (item : FecQueueItem) (e : Enc) : FecOutputStatus * Enc :=
  let answer := out (length (e_calls e)) in
  (answer, enc_calls (e_calls e ++ [(take (Z.to_nat (it_len item)) (it_datagram item), answer)]) e).

(** One turn of the loop pops an item, so [q_count] turns are enough. *)
Fixpoint drain_loop (turns : nat) (budget : Z) (e : Enc) : option (FecStatus * Enc) :=
  match turns with
  | O => Some (FEC_OK, e)
  | S turns =>
      if (budget >? 0)%Z && (0 <? e_q_count e) then
        match queue_slot e (e_q_head e) with
        | None => None
        | Some item =>
            let paced := negb (cfg_wire_rate_bps (e_config e) =? 0)%Z in
            if paced && (e_tokens e <? it_len item)%Z
            then Some (FEC_OK, enc_count wire_pacing_deferred e)
            else
              let '(answer, e) := call_output item e in
              match answer with
              | FEC_OUTPUT_BLOCKED => Some (FEC_OK, enc_count blocked_count e)
              | FEC_OUTPUT_ERROR =>
                  Some (FEC_ERR_DOWNSTREAM, enc_count downstream_callback_errors e)
              | FEC_OUTPUT_OK =>
                  let e := if paced
                           then enc_tokens (e_tokens e -u64 it_len item)%cint (e_last_refill_ns e)
                                  (e_last_refill_valid e) e
                           else e in
                  match queue_pop (enc_count (tx_stat (it_kind item)) e) with
                  | None => None
                  | Some e => drain_loop turns (budget - 1) e
                  end
              end
        end
      else Some (FEC_OK, e)
  end.

Definition fec_encoder_drain (budget : Z) (e : Enc) : option (FecStatus * Enc) :=
  drain_loop (e_q_count e) budget e.

(** The open group has waited for [flush_timeout_ns]. *)
Definition flush_due (now_ns : Z) (e : Enc) : bool :=
  e_pending_since_valid e && negb (e_data_count e =? 0) &&
  negb (cfg_flush_timeout_ns (e_config e) =? 0)%Z && (now_ns >=? e_pending_since_ns e)%Z &&
  ((now_ns -u64 e_pending_since_ns e)%cint >=? cfg_flush_timeout_ns (e_config e))%Z.

Definition fec_encoder_update (now_ns : Z) (e : Enc) : option (FecStatus * Enc) :=
  let e := refill_tokens now_ns e in
  if flush_due now_ns e then
    match encode_and_enqueue_tails e with
    | Some (FEC_OK, e) | Some (FEC_ERR_QUEUE_FULL, e) => fec_encoder_drain U64_MAX e
    | r => r
    end
  else fec_encoder_drain U64_MAX e.

Definition fec_encoder_get_stats (e : option Enc) : FecStats :=
  match e with None => stats_zero | Some e => e_stats e end.

End Encoder.

(** [fec_encoder_create] of a Reed-Solomon encoder: [callbacks] is false when there is no output
    callback, [alloc] says whether the encoder itself is allocated and [parts] whether its lengths,
    block and queue are. *)
Definition fec_encoder_create (env : RsEnv) (alloc parts : bool)
    (config : option FecTransportConfig) (callbacks : bool) (b : FecBackend) (s : RsState) :
    option (FecEncoder RsState) * FecBackend * RsState :=
  let config := default fec_transport_config_init config in
  if negb callbacks then (None, b, s)
  else
    match config_complete config with
    | None => (None, b, s)
    | Some resolved =>
        let '(bound, b, s) := bind_rs env resolved b s in
        if negb bound then (None, b, s)
        else if negb alloc then (None, unbind_rs b, s)
        else if negb parts then (None, unbind_rs b, s)
        else (Some (fec_encoder_new resolved s), b, s)
    end.

(** [fec_encoder_destroy]: the memory is freed and the codec loses a user. *)
Definition fec_encoder_destroy {St} (e : option (FecEncoder St)) (b : FecBackend) : FecBackend :=
  match e with
  | None => b
  | Some e => if bool_decide (cfg_codec (e_config e) = FEC_CODEC_RS) then unbind_rs b else b
  end.
