(* ===== verification/FecDecoder.v ===== *)
(** * FEC decoder: src/src/fec_transport.c, [fec_decoder_*]

    The decoder keeps a window of groups.  A data shard is handed out as soon as all before it
    were; the rest of a group follows when [k] of its shards are there, and what is left when a
    newer group arrives, the group expires or its slot is needed.  A [FecDecodeGroup *] is an index
    into [d_groups].  [out i] is the answer of the [i]-th call of the output callback; [d_calls]
    lists the messages passed to it.  [None] is undefined behaviour: a read or a write outside a
    buffer of the decoder. *)

From Stdlib Require Import Strings.Byte.
From S2P Require Import Prelude WireHeader Gf256 ByteVec RsEncode Codec RsCodec FecTransport.
From S2P Require Import FecEncoder.

Inductive FecGroupState := FEC_GROUP_FREE | FEC_GROUP_COLLECTING | FEC_GROUP_COMPLETED.

#[export] Instance FecGroupState_eq_dec : EqDecision FecGroupState.
Proof. solve_decision. Defined.

Record FecDecodeGroup := mkFecDecodeGroup {
  g_active : FecGroupState;
  g_released_unrecoverable : bool;
  g_data_count_hint_valid : bool;
  g_metadata_valid : bool;
  g_emit_blocked : bool;
  g_data_count : nat;
  g_group_id : Z;
  g_last_seen_ns : Z;
  g_present : list byte;
  g_delivered : list byte;
  g_lengths : list Z;
  g_block : list byte }.

(** A slot after [group_clear]; at creation the same, with [calloc]ed buffers. *)
Definition blank_group (sh : FecShape) : FecDecodeGroup :=
  mkFecDecodeGroup FEC_GROUP_FREE false false false false 0 0 0 (replicate 32 x00)
    (replicate 32 x00) (replicate (sh_message_shards sh) 0%Z)
    (replicate (sh_n sh * sh_shard_size sh) x00).

Definition group_clear (sh : FecShape) (g : FecDecodeGroup) : FecDecodeGroup := blank_group sh.

(** ** Assignments to the fields of a group *)

Definition g_activate (id : Z) (g : FecDecodeGroup) : FecDecodeGroup :=
  mkFecDecodeGroup FEC_GROUP_COLLECTING (g_released_unrecoverable g) (g_data_count_hint_valid g)
    (g_metadata_valid g) (g_emit_blocked g) (g_data_count g) id (g_last_seen_ns g) (g_present g)
    (g_delivered g) (g_lengths g) (g_block g).
Definition g_complete (g : FecDecodeGroup) : FecDecodeGroup :=
  mkFecDecodeGroup FEC_GROUP_COMPLETED (g_released_unrecoverable g) (g_data_count_hint_valid g)
    (g_metadata_valid g) false (g_data_count g) (g_group_id g) (g_last_seen_ns g) (g_present g)
    (g_delivered g) (g_lengths g) (g_block g).
Definition g_release (g : FecDecodeGroup) : FecDecodeGroup :=
  mkFecDecodeGroup (g_active g) true (g_data_count_hint_valid g) (g_metadata_valid g)
    (g_emit_blocked g) (g_data_count g) (g_group_id g) (g_last_seen_ns g) (g_present g)
    (g_delivered g) (g_lengths g) (g_block g).
Definition g_hint (count : nat) (g : FecDecodeGroup) : FecDecodeGroup :=
  mkFecDecodeGroup (g_active g) (g_released_unrecoverable g) true (g_metadata_valid g)
    (g_emit_blocked g) count (g_group_id g) (g_last_seen_ns g) (g_present g) (g_delivered g)
    (g_lengths g) (g_block g).
Definition g_metadata (count : nat) (g : FecDecodeGroup) : FecDecodeGroup :=
  mkFecDecodeGroup (g_active g) (g_released_unrecoverable g) (g_data_count_hint_valid g) true
    (g_emit_blocked g) count (g_group_id g) (g_last_seen_ns g) (g_present g) (g_delivered g)
    (g_lengths g) (g_block g).
Definition g_blocked (b : bool) (g : FecDecodeGroup) : FecDecodeGroup :=
  mkFecDecodeGroup (g_active g) (g_released_unrecoverable g) (g_data_count_hint_valid g)
    (g_metadata_valid g) b (g_data_count g) (g_group_id g) (g_last_seen_ns g) (g_present g)
    (g_delivered g) (g_lengths g) (g_block g).
Definition g_seen (now : Z) (g : FecDecodeGroup) : FecDecodeGroup :=
  mkFecDecodeGroup (g_active g) (g_released_unrecoverable g) (g_data_count_hint_valid g)
    (g_metadata_valid g) (g_emit_blocked g) (g_data_count g) (g_group_id g) now (g_present g)
    (g_delivered g) (g_lengths g) (g_block g).
Definition g_set_present (bits : list byte) (g : FecDecodeGroup) : FecDecodeGroup :=
  mkFecDecodeGroup (g_active g) (g_released_unrecoverable g) (g_data_count_hint_valid g)
    (g_metadata_valid g) (g_emit_blocked g) (g_data_count g) (g_group_id g) (g_last_seen_ns g) bits
    (g_delivered g) (g_lengths g) (g_block g).
Definition g_set_delivered (bits : list byte) (g : FecDecodeGroup) : FecDecodeGroup :=
  mkFecDecodeGroup (g_active g) (g_released_unrecoverable g) (g_data_count_hint_valid g)
    (g_metadata_valid g) (g_emit_blocked g) (g_data_count g) (g_group_id g) (g_last_seen_ns g)
    (g_present g) bits (g_lengths g) (g_block g).
Definition g_set_lengths (lengths : list Z) (g : FecDecodeGroup) : FecDecodeGroup :=
  mkFecDecodeGroup (g_active g) (g_released_unrecoverable g) (g_data_count_hint_valid g)
    (g_metadata_valid g) (g_emit_blocked g) (g_data_count g) (g_group_id g) (g_last_seen_ns g)
    (g_present g) (g_delivered g) lengths (g_block g).
Definition g_set_block (block : list byte) (g : FecDecodeGroup) : FecDecodeGroup :=
  mkFecDecodeGroup (g_active g) (g_released_unrecoverable g) (g_data_count_hint_valid g)
    (g_metadata_valid g) (g_emit_blocked g) (g_data_count g) (g_group_id g) (g_last_seen_ns g)
    (g_present g) (g_delivered g) (g_lengths g) block.

(** ** Functions of one group *)

Definition present (g : FecDecodeGroup) (shard : nat) : bool := codec_present_get (g_present g) shard.
Definition delivered (g : FecDecodeGroup) (shard : nat) : bool :=
  codec_present_get (g_delivered g) shard.
Definition length_at (g : FecDecodeGroup) (index : nat) : Z := nth index (g_lengths g) 0%Z.

(** The number of messages is known. *)
Definition count_known (g : FecDecodeGroup) : bool := g_metadata_valid g || g_data_count_hint_valid g.

Definition expected_shard (sh : FecShape) (g : FecDecodeGroup) (shard : nat) : bool :=
  if sh_n sh <=? shard then false
  else if sh_message_shards sh <=? shard then true
  else if negb (count_known g) then true
  else shard <? g_data_count g.

Definition all_messages_delivered (g : FecDecodeGroup) (data_count : nat) : bool :=
  forallb (delivered g) (seq 0 data_count).

Definition messages_complete (g : FecDecodeGroup) : bool :=
  g_metadata_valid g && all_messages_delivered g (g_data_count g).

(** The number of messages an emission loop looks at. *)
Definition emit_limit (sh : FecShape) (g : FecDecodeGroup) : nat :=
  if count_known g then g_data_count g else sh_message_shards sh.

Definition mark_unused_zeros (sh : FecShape) (data_count : nat) (g : FecDecodeGroup) :
    FecDecodeGroup :=
  g_set_present
    (foldl codec_present_set (g_present g)
       (seq data_count (sh_message_shards sh - data_count))) g.

Definition present_count (bits : list byte) (n : nat) : nat :=
  length (List.filter (codec_present_get bits) (seq 0 n)).

(** [uint16_t] at [p], in network order: [None] outside the block. *)
Definition read_length `{HostOrder} (block : list byte) (p : nat) : option Z :=
  if p + 2 <=? length block
  then Some (ntohs (load (map byte_to_Z (take 2 (drop p block))))) else None.

(** The loop of [parse_metadata]: the outer [None] is an access outside the block, the inner
    [None] the status [FEC_ERR_METADATA]; lengths filled in before an error stay. *)
Fixpoint parse_lengths `{HostOrder} (sb base : nat) (block : list byte) (indices : list nat)
    (lengths : list Z) : option (bool * list Z) :=
  match indices with
  | [] => Some (true, lengths)
  | index :: rest =>
      match read_length block (base + 1 + index * 2) with
      | None => None
      | Some len =>
          let old := nth index lengths 0%Z in
          if (len =? 0)%Z || (len >? Z.of_nat sb)%Z then Some (false, lengths)
          else if negb (old =? 0)%Z && negb (old =? len)%Z then Some (false, lengths)
          else parse_lengths sb base block rest
                 (if (old =? 0)%Z then <[index := len]> lengths else lengths)
      end
  end.

(** [parse_metadata]: the message count, and the group with the lengths it learnt. *)
Definition parse_metadata `{HostOrder} (sh : FecShape) (g : FecDecodeGroup) :
    option (option nat * FecDecodeGroup) :=
  if negb (present g (sh_message_shards sh)) then Some (None, g)
  else
    let base := sh_message_shards sh * sh_shard_size sh in
    let data_count := Z.to_nat (byte_to_Z (get (g_block g) base)) in
    if (data_count =? 0) || (sh_message_shards sh <? data_count) then Some (None, g)
    else if g_data_count_hint_valid g && negb (g_data_count g =? data_count) then Some (None, g)
    else
      match parse_lengths (sh_shard_size sh) base (g_block g) (seq 0 data_count) (g_lengths g) with
      | None => None
      | Some (ok, lengths) =>
          Some (if ok then Some data_count else None, g_set_lengths lengths g)
      end.

(** The loop of [record_group_loss]: missing shards and the longest run of them. *)
Definition count_missing (sh : FecShape) (g : FecDecodeGroup) : Z * Z :=
  let '(missing_count, _, max_run) :=
    foldl (fun '(missing_count, run, max_run) shard =>
             if expected_shard sh g shard && negb (present g shard)
             then (missing_count + 1, run + 1, Z.max max_run (run + 1))%Z
             else (missing_count, 0, max_run)%Z)
          (0, 0, 0)%Z (seq 0 (sh_n sh)) in
  (missing_count, max_run).

Record FecDecoder (St : Type) := mkFecDecoder {
  d_config : FecTransportConfig;
  d_shape : FecShape;
  d_epoch : Z;
  d_highest_group_id : Z;
  d_highest_group_valid : bool;
  d_groups : list FecDecodeGroup;
  d_stats : FecStats;
  d_codec_state : St;
  d_calls : list (Call (list byte)) }.
Arguments mkFecDecoder {St}.
Arguments d_config {St}.
Arguments d_shape {St}.
Arguments d_epoch {St}.
Arguments d_highest_group_id {St}.
Arguments d_highest_group_valid {St}.
Arguments d_groups {St}.
Arguments d_stats {St}.
Arguments d_codec_state {St}.
Arguments d_calls {St}.

Section Decoder.
Context `{host : HostOrder} {St : Type} (codec : option (CodecVTable St)).
Context (out : nat -> FecOutputStatus).

Abbreviation Dec := (FecDecoder St).

(** ** Assignments to the fields *)

Definition dec_groups (gs : list FecDecodeGroup) (d : Dec) : Dec :=
  mkFecDecoder (d_config d) (d_shape d) (d_epoch d) (d_highest_group_id d)
    (d_highest_group_valid d) gs (d_stats d) (d_codec_state d) (d_calls d).
Definition dec_stats (stats : FecStats) (d : Dec) : Dec :=
  mkFecDecoder (d_config d) (d_shape d) (d_epoch d) (d_highest_group_id d)
    (d_highest_group_valid d) (d_groups d) stats (d_codec_state d) (d_calls d).
Definition dec_codec_state (st : St) (d : Dec) : Dec :=
  mkFecDecoder (d_config d) (d_shape d) (d_epoch d) (d_highest_group_id d)
    (d_highest_group_valid d) (d_groups d) (d_stats d) st (d_calls d).
Definition dec_calls (calls : list (Call (list byte))) (d : Dec) : Dec :=
  mkFecDecoder (d_config d) (d_shape d) (d_epoch d) (d_highest_group_id d)
    (d_highest_group_valid d) (d_groups d) (d_stats d) (d_codec_state d) calls.
Definition dec_highest (id : Z) (valid : bool) (d : Dec) : Dec :=
  mkFecDecoder (d_config d) (d_shape d) (d_epoch d) id valid (d_groups d) (d_stats d)
    (d_codec_state d) (d_calls d).
Definition dec_epoch (epoch : Z) (d : Dec) : Dec :=
  mkFecDecoder (d_config d) (d_shape d) epoch (d_highest_group_id d) (d_highest_group_valid d)
    (d_groups d) (d_stats d) (d_codec_state d) (d_calls d).

Definition dec_add (c : FecStat) (n : Z) (d : Dec) : Dec := dec_stats (stat_add c n (d_stats d)) d.
Definition dec_count (c : FecStat) (d : Dec) : Dec := dec_add c 1 d.

Definition group_at (d : Dec) (i : nat) : FecDecodeGroup :=
  nth i (d_groups d) (blank_group (d_shape d)).
Definition set_group (i : nat) (g : FecDecodeGroup) (d : Dec) : Dec :=
  dec_groups (<[i := g]> (d_groups d)) d.
Definition upd_group (i : nat) (f : FecDecodeGroup -> FecDecodeGroup) (d : Dec) : Dec :=
  set_group i (f (group_at d i)) d.

(** ** Loss statistics and completion *)

Definition record_group_loss (g : FecDecodeGroup) (mark_unrecoverable : bool) (d : Dec) : Dec :=
  if bool_decide (g_active g = FEC_GROUP_FREE) then d
  else
    let '(missing_count, max_run) := count_missing (d_shape d) g in
    if (missing_count =? 0)%Z then d
    else
      let d := dec_add missing_shards missing_count d in
      let d := if (missing_count >? Z.of_nat (sh_r (d_shape d)))%Z
               then dec_count over_r_groups d else d in
      let d := if (max_run >? d_stats d max_missing_run)%Z
               then dec_stats (stat_set max_missing_run max_run (d_stats d)) d else d in
      if mark_unrecoverable && negb (messages_complete g)
      then dec_count unrecoverable_groups d else d.

Definition complete_group (i : nat) (d : Dec) : Dec :=
  let g := group_at d i in
  if bool_decide (g_active g = FEC_GROUP_COMPLETED) then d
  else dec_count completed_groups (upd_group i g_complete (record_group_loss g false d)).

(** ** Emission *)

(** [cb.output(ctx, data, length)] *)
Definition call_output (msg : list byte) (d : Dec) : FecOutputStatus * Dec :=
  let answer := out (length (d_calls d)) in
  (answer, dec_calls (d_calls d ++ [(msg, answer)]) d).

(** The [length] bytes at the start of shard [index]; [None] when they leave the block. *)
Definition message_bytes (sh : FecShape) (g : FecDecodeGroup) (index : nat) (len : Z) : option (list byte) :=
  if index * sh_shard_size sh + Z.to_nat len <=? length (g_block g)
  then Some (take (Z.to_nat len) (drop (index * sh_shard_size sh) (g_block g))) else None.

(** [data] is read by the callback. *)
Definition emit_record (i shard : nat) (data : option (list byte)) (len : Z) (d : Dec) : option (FecStatus * Dec) :=
  if (len =? 0)%Z then Some (FEC_ERR_METADATA, d)
  else if delivered (group_at d i) shard then Some (FEC_OK, d)
  else
    match data with
    | None => None
    | Some data =>
        let '(answer, d) := call_output data d in
        Some match answer with
        | FEC_OUTPUT_BLOCKED => (FEC_OK, upd_group i (g_blocked true) (dec_count blocked_count d))
        | FEC_OUTPUT_ERROR => (FEC_ERR_DOWNSTREAM, dec_count downstream_callback_errors d)
        | FEC_OUTPUT_OK =>
            (FEC_OK,
             upd_group i (fun g => g_blocked false
                                     (g_set_delivered (codec_present_set (g_delivered g) shard) g)) d)
        end
    end.

(** The call of [emit_record] in the three loops below, and the two returns that follow it. *)
Definition emit_message (i index : nat) (len : Z) (next : Dec -> option (FecStatus * Dec)) (d : Dec) :
    option (FecStatus * Dec) :=
  if_ok (emit_record i index (message_bytes (d_shape d) (group_at d i) index len) len d)
    (fun d => if negb (delivered (group_at d i) index) then Some (FEC_OK, d) else next d).

(** [length == 0 || length > shard_size] *)
Definition bad_length (d : Dec) (len : Z) : bool :=
  (len =? 0)%Z || (len >? Z.of_nat (sh_shard_size (d_shape d)))%Z.

Fixpoint emit_contiguous_loop (i : nat) (indices : list nat) (d : Dec) : option (FecStatus * Dec) :=
  match indices with
  | [] => Some (FEC_OK, d)
  | index :: rest =>
      let g := group_at d i in
      if delivered g index then emit_contiguous_loop i rest d
      else if negb (present g index) then Some (FEC_OK, d)
      else if bad_length d (length_at g index) then Some (FEC_ERR_METADATA, d)
      else emit_message i index (length_at g index) (emit_contiguous_loop i rest) d
  end.

Definition emit_contiguous (i : nat) (d : Dec) : option (FecStatus * Dec) :=
  emit_contiguous_loop i (seq 0 (emit_limit (d_shape d) (group_at d i))) d.

Fixpoint emit_available_loop (i : nat) (indices : list nat) (d : Dec) : option (FecStatus * Dec) :=
  match indices with
  | [] => Some (FEC_OK, d)
  | index :: rest =>
      let g := group_at d i in
      if negb (present g index) || delivered g index then emit_available_loop i rest d
      else if bad_length d (length_at g index) then emit_available_loop i rest d
      else emit_message i index (length_at g index) (emit_available_loop i rest) d
  end.

Definition emit_available (i : nat) (d : Dec) : option (FecStatus * Dec) :=
  emit_available_loop i (seq 0 (emit_limit (d_shape d) (group_at d i))) d.

Fixpoint emit_all_loop (i : nat) (indices : list nat) (d : Dec) : option (FecStatus * Dec) :=
  match indices with
  | [] => Some (FEC_OK, d)
  | index :: rest =>
      let g := group_at d i in
      if delivered g index then emit_all_loop i rest d
      else emit_message i index (length_at g index) (emit_all_loop i rest) d
  end.

(** [parse_metadata], and on success the count, [metadata_valid] and [mark_unused_zeros]. *)
Definition learn_metadata (i : nat) (next : nat -> Dec -> option (FecStatus * Dec)) (d : Dec) :
    option (FecStatus * Dec) :=
  match parse_metadata (d_shape d) (group_at d i) with
  | None => None
  | Some (None, g) => Some (FEC_ERR_METADATA, set_group i g d)
  | Some (Some data_count, g) =>
      next data_count
        (set_group i (mark_unused_zeros (d_shape d) data_count (g_metadata data_count g)) d)
  end.

Definition emit_from_metadata (i : nat) (d : Dec) : option (FecStatus * Dec) :=
  learn_metadata i (fun data_count d => emit_all_loop i (seq 0 data_count) d) d.

(** ** Recovery *)

(** The end of [recover_group], after [Codec_recover] or with all data shards present. *)
Definition finish_group (i : nat) (d : Dec) : option (FecStatus * Dec) :=
  if_ok (emit_from_metadata i d)
    (fun d => Some (FEC_OK, if messages_complete (group_at d i) then complete_group i d else d)).

Definition recover_group (i : nat) (d : Dec) : option (FecStatus * Dec) :=
  let sh := d_shape d in
  let g := group_at d i in
  if present_count (g_present g) (sh_n sh) <? sh_k sh then Some (FEC_OK, d)
  else
    let missing_data := length (List.filter (fun s => negb (present g s)) (seq 0 (sh_k sh))) in
    if missing_data =? 0 then finish_group i d
    else
      let '(recovered, block, st) :=
        Codec_recover codec (d_codec_state d) (Some (g_block g)) (Some (g_present g)) (sh_n sh) in
      let d := dec_codec_state st (upd_group i (g_set_block (default [] block)) d) in
      match recovered with
      | CODEC_RECOVER_UNAVAILABLE => Some (FEC_OK, d)
      | CODEC_RECOVER_ERR => Some (FEC_ERR_CODEC, d)
      | CODEC_RECOVER_OK =>
          let d := dec_add recovered_shards (Z.of_nat missing_data) (dec_count recovered_groups d) in
          finish_group i
            (upd_group i (fun g => g_set_present
                                     (foldl codec_present_set (g_present g) (seq 0 (sh_k sh))) g) d)
      end.

(** ** The window *)

(** What the loop of [find_group] finds: the group itself, or the candidates for its slot. *)
Record Scan := mkScan {
  sc_found : option nat; sc_free : option nat; sc_completed : option nat; sc_oldest : option nat }.

(** [best == NULL || group->group_id < best->group_id] *)
Definition older (gs : list FecDecodeGroup) (i : nat) (id : Z) (best : option nat) : option nat :=
  match best with
  | None => Some i
  | Some j => match gs !! j with
              | Some g => if (id <? g_group_id g)%Z then Some i else Some j
              | None => Some j
              end
  end.

Definition scan_step (gs : list FecDecodeGroup) (id : Z) (s : Scan) (i : nat) : Scan :=
  match sc_found s, gs !! i with
  | None, Some g =>
      match g_active g with
      | FEC_GROUP_FREE =>
          mkScan None (match sc_free s with Some j => Some j | None => Some i end) (sc_completed s) (sc_oldest s)
      | FEC_GROUP_COMPLETED =>
          if (g_group_id g =? id)%Z
          then mkScan (Some i) (sc_free s) (sc_completed s) (sc_oldest s)
          else mkScan None (sc_free s) (older gs i (g_group_id g) (sc_completed s)) (sc_oldest s)
      | FEC_GROUP_COLLECTING =>
          if (g_group_id g =? id)%Z
          then mkScan (Some i) (sc_free s) (sc_completed s) (sc_oldest s)
          else mkScan None (sc_free s) (sc_completed s) (older gs i (g_group_id g) (sc_oldest s))
      end
  | _, _ => s
  end.

Definition scan_groups (gs : list FecDecodeGroup) (id : Z) : Scan :=
  foldl (scan_step gs id) (mkScan None None None None) (seq 0 (length gs)).

(** [group_clear(group); group->active = FEC_GROUP_COLLECTING; group->group_id = group_id] *)
Definition open_group (i : nat) (id : Z) (d : Dec) : Dec :=
  set_group i (g_activate id (group_clear (d_shape d) (group_at d i))) d.

(** What [find_group] returns: a group, or NULL with [*stale] or [*err] set. *)
Inductive Found :=
| FoundGroup (i : nat)
| FoundStale
| FoundError (err : FecStatus).

Definition find_group (id : Z) (d : Dec) : option (Found * Dec) :=
  let s := scan_groups (d_groups d) id in
  match sc_found s, sc_free s, sc_completed s, sc_oldest s with
  | Some i, _, _, _ => Some (FoundGroup i, d)
  | None, Some i, _, _ => Some (FoundGroup i, open_group i id d)
  | None, None, Some i, _ => Some (FoundGroup i, open_group i id d)
  | None, None, None, Some i =>
      if (id <? g_group_id (group_at d i))%Z then Some (FoundStale, d)
      else
        match emit_available i d with
        | None => None
        | Some (FEC_OK, d) =>
            Some (if g_emit_blocked (group_at d i) then (FoundError FEC_ERR_QUEUE_FULL, d)
                  else
                    let d := record_group_loss (group_at d i) true (dec_count evicted_groups d) in
                    (FoundGroup i, open_group i id d))
        | Some (err, d) => Some (FoundError err, d)
        end
  | None, None, None, None => Some (FoundError FEC_OK, d)
  end.

(** The oldest group that is still collecting, was not released and is older than [id]. *)
Definition release_candidate (gs : list FecDecodeGroup) (id : Z) : option nat :=
  foldl (fun best i =>
           match gs !! i with
           | Some g =>
               if negb (bool_decide (g_active g = FEC_GROUP_COLLECTING)) ||
                  g_released_unrecoverable g || (g_group_id g >=? id)%Z
               then best else older gs i (g_group_id g) best
           | None => best
           end)
        None (seq 0 (length gs)).

(** Every turn of the loop releases one more group of the window. *)
Fixpoint release_loop (turns : nat) (id : Z) (d : Dec) : option (FecStatus * Dec) :=
  match release_candidate (d_groups d) id with
  | None => Some (FEC_OK, d)
  | Some i =>
      match turns with
      | O => None
      | S turns =>
          if_ok (emit_available i d)
            (fun d => if g_emit_blocked (group_at d i) then Some (FEC_OK, d)
                      else release_loop turns id (upd_group i g_release d))
      end
  end.

Definition release_older_groups (id : Z) (d : Dec) : option (FecStatus * Dec) :=
  release_loop (length (d_groups d)) id d.

Definition apply_tail_hint (i : nat) (header : WireHeader) (d : Dec) : FecStatus * Dec :=
  let sh := d_shape d in
  let sb := Z.of_nat (sh_shard_size sh) in
  let g := group_at d i in
  if (wh_valid_len header <? 2 * sb)%Z ||
     (wh_valid_len header >? Z.of_nat (sh_k sh) * sb)%Z ||
     negb (wh_valid_len header mod sb =? 0)%Z
  then (FEC_ERR_WIRE_HEADER, dec_count invalid_datagrams d)
  else
    let hinted := Z.to_nat (u8 (wh_valid_len header / sb - 1)) in
    if (g_data_count_hint_valid g && negb (g_data_count g =? hinted)) ||
       (hinted =? 0) || (sh_message_shards sh <? hinted)
    then (FEC_ERR_WIRE_HEADER, dec_count invalid_datagrams d)
    else (FEC_OK, set_group i (mark_unused_zeros sh hinted (g_hint hinted g)) d).

(** ** The public functions *)

(** [fec_decoder_create] after the codec was bound. *)
Definition fec_decoder_new (c : FecTransportConfig) (st : St) : Dec :=
  let sh := shape_of c in
  mkFecDecoder c sh 0 0 false (replicate (Z.to_nat (cfg_group_window c)) (blank_group sh))
    stats_zero st [].

Definition fec_decoder_reset (epoch : Z) (d : Dec) : Dec :=
  dec_groups (map (group_clear (d_shape d)) (d_groups d))
    (dec_stats stats_zero (dec_highest 0 false (dec_epoch epoch d))).

Definition wire_shape_ok (d : Dec) (header : WireHeader) (len : nat) : bool :=
  let sh := d_shape d in
  let sb := Z.of_nat (sh_shard_size sh) in
  if negb (wh_type header =? WIRE_TYPE_DATA)%Z ||
     negb (wh_shard_count header =? Z.of_nat (sh_n sh))%Z ||
     (wh_shard_index header >=? Z.of_nat (sh_n sh))%Z || (wh_payload_len header =? 0)%Z ||
     (wh_payload_len header >? sb)%Z || negb (len =? WIRE_HEADER_SIZE + sh_shard_size sh)
  then false
  else if (wh_shard_index header <? Z.of_nat (sh_message_shards sh))%Z
  then (wh_valid_len header =? u16 (Z.of_nat (sh_k sh) * sb))%Z
  else (wh_payload_len header =? sb)%Z.

(** [highest_group_id] is updated by a group newer than all before it. *)
Definition note_highest (id : Z) (d : Dec) : option (FecStatus * Dec) :=
  if negb (d_highest_group_valid d) || (id >? d_highest_group_id d)%Z
  then if_ok (release_older_groups id d) (fun d => Some (FEC_OK, dec_highest id true d))
  else Some (FEC_OK, d).

(** The end of [fec_decoder_input]: complete the group or try to recover it. *)
Definition settle_group (i : nat) (d : Dec) : option (FecStatus * Dec) :=
  if present (group_at d i) (sh_message_shards (d_shape d)) then
    learn_metadata i
      (fun data_count d =>
         if all_messages_delivered (group_at d i) data_count
         then Some (FEC_OK, complete_group i d) else recover_group i d) d
  else recover_group i d.

(** The write of a bit of [present]: [None] outside the bitmap. *)
Definition present_set_checked (bits : list byte) (index : nat) : option (list byte) :=
  if index / 8 <? length bits then Some (codec_present_set bits index) else None.

(** [group->lengths[index] = length]: [None] outside the array. *)
Definition set_length_checked (lengths : list Z) (index : nat) (len : Z) : option (list Z) :=
  if index <? length lengths then Some (<[index := len]> lengths) else None.

(** The stores of [fec_decoder_input]: the time, the shard, its bit, and its length if it is a
    message shard; [None] when one of them leaves its buffer or the datagram is too short. *)
Definition store_shard (sh : FecShape) (shard : nat) (len : Z) (payload : list byte) (now_ns : Z)
    (g : FecDecodeGroup) : option FecDecodeGroup :=
  let g := g_seen now_ns g in
  if length payload <? sh_shard_size sh then None
  else
  match store_checked (g_block g) (shard * sh_shard_size sh) (take (sh_shard_size sh) payload) with
  | None => None
  | Some block =>
      let g := g_set_block block g in
      match present_set_checked (g_present g) shard with
      | None => None
      | Some bits =>
          let g := g_set_present bits g in
          if shard <? sh_message_shards sh then
            match set_length_checked (g_lengths g) shard len with
            | None => None
            | Some lengths => Some (g_set_lengths lengths g)
            end
          else Some g
      end
  end.

(** The part of [fec_decoder_input] that stores the shard. *)
Definition accept_shard (i : nat) (header : WireHeader) (payload : list byte) (now_ns : Z)
    (d : Dec) : option (FecStatus * Dec) :=
  let sh := d_shape d in
  let shard := Z.to_nat (wh_shard_index header) in
  let g := group_at d i in
  if bool_decide (g_active g = FEC_GROUP_COMPLETED) || present g shard
  then Some (FEC_OK, dec_count duplicate_datagrams d)
  else
    let d := dec_count received_datagrams d in
    match store_shard sh shard (wh_payload_len header) payload now_ns g with
    | None => None
    | Some g =>
        if shard <? sh_message_shards sh
        then if_ok (emit_contiguous i (set_group i g d)) (settle_group i)
        else settle_group i (set_group i g d)
    end.

(** The part of [fec_decoder_input] that checks the shard against its group. *)
Definition input_shard (i : nat) (header : WireHeader) (payload : list byte) (now_ns : Z)
    (d : Dec) : option (FecStatus * Dec) :=
  let g := group_at d i in
  if (wh_shard_index header >=? Z.of_nat (sh_message_shards (d_shape d)))%Z
  then if_ok (Some (apply_tail_hint i header d)) (accept_shard i header payload now_ns)
  else if g_data_count_hint_valid g && (wh_shard_index header >=? Z.of_nat (g_data_count g))%Z
  then Some (FEC_ERR_WIRE_HEADER, dec_count invalid_datagrams d)
  else accept_shard i header payload now_ns d.

(** [fec_decoder_input]; [datagram] is [None] for [NULL]. *)
Definition fec_decoder_input (datagram : option (list Z)) (now_ns : Z) (d : Dec) :
    option (FecStatus * Dec) :=
  match datagram with
  | None => Some (FEC_ERR_INVAL, d)
  | Some bytes =>
      let len := length bytes in
      if len =? 0 then Some (FEC_ERR_INVAL, d)
      else if len <? WIRE_HEADER_SIZE then Some (FEC_ERR_NOT_FEC, d)
      else
        match wire_header_decode bytes with
        | None => Some (FEC_ERR_NOT_FEC, d)
        | Some header =>
            let id := wh_block_id header in
            if negb (wh_type header =? WIRE_TYPE_DATA)%Z then Some (FEC_ERR_NOT_FEC, d)
            else if negb (wire_shape_ok d header len)
            then Some (FEC_ERR_WIRE_HEADER, dec_count invalid_datagrams d)
            else if negb (u32 (Z.shiftr id 32) =? d_epoch d)%Z
            then Some (FEC_ERR_STALE, dec_count stale_datagrams d)
            else if d_highest_group_valid d && (id <? d_highest_group_id d)%Z &&
                    (d_highest_group_id d - id >=? Z.of_nat (length (d_groups d)))%Z
            then Some (FEC_ERR_STALE, dec_count stale_datagrams d)
            else
              if_ok (note_highest id d)
                (fun d =>
                   match find_group id d with
                   | None => None
                   | Some (FoundGroup i, d) =>
                       input_shard i header
                         (map Z_to_byte
                            (read_at bytes WIRE_HEADER_SIZE (sh_shard_size (d_shape d))))
                         now_ns d
                   | Some (FoundStale, d) => Some (FEC_ERR_STALE, dec_count stale_datagrams d)
                   | Some (FoundError FEC_OK, d) => Some (FEC_ERR_CODEC, d)
                   | Some (FoundError err, d) => Some (err, d)
                   end)
        end
  end.

(** The body of the loop of [retry_blocked]. *)
Definition retry_group (i : nat) (d : Dec) : option (FecStatus * Dec) :=
  let g := group_at d i in
  if negb (bool_decide (g_active g = FEC_GROUP_COLLECTING)) || negb (g_emit_blocked g)
  then Some (FEC_OK, d)
  else
    if_ok (emit_contiguous i d)
      (fun d =>
         let g := group_at d i in
         if g_emit_blocked g then Some (FEC_OK, d)
         else if g_metadata_valid g then
           if_ok (emit_from_metadata i d)
             (fun d =>
                let g := group_at d i in
                Some (FEC_OK,
                  if negb (g_emit_blocked g) && all_messages_delivered g (g_data_count g)
                  then complete_group i d else d))
         else recover_group i d).

(** A loop over the window that stops at the first error. *)
Fixpoint over_groups (body : nat -> Dec -> option (FecStatus * Dec)) (indices : list nat) (d : Dec) :
    option (FecStatus * Dec) :=
  match indices with
  | [] => Some (FEC_OK, d)
  | i :: rest => if_ok (body i d) (over_groups body rest)
  end.

Definition retry_blocked (d : Dec) : option (FecStatus * Dec) :=
  over_groups retry_group (seq 0 (length (d_groups d))) d.

(** The body of the loop of [fec_decoder_update]. *)
Definition expire_group (now_ns : Z) (i : nat) (d : Dec) : option (FecStatus * Dec) :=
  let g := group_at d i in
  if negb (bool_decide (g_active g = FEC_GROUP_COLLECTING)) || (g_last_seen_ns g =? 0)%Z ||
     (now_ns <? g_last_seen_ns g)%Z ||
     (now_ns - g_last_seen_ns g <? cfg_flush_timeout_ns (d_config d))%Z
  then Some (FEC_OK, d)
  else
    if_ok (emit_available i d)
      (fun d =>
         if g_emit_blocked (group_at d i) then Some (FEC_OK, d)
         else
           let d := record_group_loss (group_at d i) true d in
           Some (FEC_OK,
             dec_count expired_groups
               (set_group i (group_clear (d_shape d) (group_at d i)) d))).

Definition fec_decoder_update (now_ns : Z) (d : Dec) : option (FecStatus * Dec) :=
  if_ok (retry_blocked d)
    (fun d =>
       if (cfg_flush_timeout_ns (d_config d) =? 0)%Z then Some (FEC_OK, d)
       else over_groups (expire_group now_ns) (seq 0 (length (d_groups d))) d).

Definition fec_decoder_get_stats (d : option Dec) : FecStats :=
  match d with None => stats_zero | Some d => d_stats d end.

End Decoder.

(** [fec_decoder_create] of a Reed-Solomon decoder; the flags as for [fec_encoder_create]. *)
Definition fec_decoder_create (env : RsEnv) (alloc parts : bool)
    (config : option FecTransportConfig) (callbacks : bool) (b : FecBackend) (s : RsState) :
    option (FecDecoder RsState) * FecBackend * RsState :=
  let config := default fec_transport_config_init config in
  if negb callbacks then (None, b, s)
  else
    match config_complete config with
    | None => (None, b, s)
    | Some resolved =>
        let '(bound, b, s) := bind_rs env resolved b s in
        if negb bound then (None, b, s)
        else if negb alloc then (None, unbind_rs b, s)
        else if negb parts then (None, unbind_rs b, s)
        else (Some (fec_decoder_new resolved s), b, s)
    end.

Definition fec_decoder_destroy {St} (d : option (FecDecoder St)) (b : FecBackend) : FecBackend :=
  match d with
  | None => b
  | Some d => if bool_decide (cfg_codec (d_config d) = FEC_CODEC_RS) then unbind_rs b else b
  end.
