(* ===== verification/FecGroups.v ===== *)
(** * Groups and datagrams of the FEC transport

    What travels between an encoder and a decoder, independent of either: a group is its messages
    and a code word whose data shards are the padded messages, zero shards and the length table;
    a datagram is a header and one shard. *)

From Stdlib Require Import Strings.Byte.
From S2P Require Import Prelude WireHeader Gf256 ByteVec RsEncode Codec RsCodec FecTransport.
From S2P Require Import FecEncoder.

(** ** Calls of the output callback *)

(** What the callback has taken. *)
Definition taken {A} (calls : list (Call A)) : list A :=
  map fst (List.filter (fun c => bool_decide (snd c = FEC_OUTPUT_OK)) calls).

Lemma taken_snoc {A} (calls : list (Call A)) (a : A) s :
  taken (calls ++ [(a, s)]) = taken calls ++ (if bool_decide (s = FEC_OUTPUT_OK) then [a] else []).
Proof.
  unfold taken. rewrite List.filter_app, map_app. cbn. by destruct s.
Qed.

Lemma taken_app {A} (c1 c2 : list (Call A)) : taken (c1 ++ c2) = taken c1 ++ taken c2.
Proof. unfold taken. by rewrite List.filter_app, map_app. Qed.

Lemma taken_cons {A} (a : A) s calls :
  taken ((a, s) :: calls) = (if bool_decide (s = FEC_OUTPUT_OK) then [a] else []) ++ taken calls.
Proof. unfold taken. cbn. by destruct s. Qed.

Lemma taken_map {A B} (f : A -> B) (calls : list (Call A)) :
  taken (map (fun c => (f (fst c), snd c)) calls) = map f (taken calls).
Proof.
  induction calls as [|[a s] calls IH]; [done|]. cbn [map fst snd]. rewrite !taken_cons, IH.
  by destruct s.
Qed.

Lemma taken_incl {A} (calls : list (Call A)) a : a ∈ taken calls -> a ∈ map fst calls.
Proof.
  induction calls as [|[x s] calls IH]; [done|]. rewrite taken_cons. cbn [map fst].
  rewrite elem_of_app, elem_of_cons. intros [H|H]; [|auto].
  left. case_bool_decide; [|by apply elem_of_nil in H]. by apply list_elem_of_singleton in H.
Qed.

(** ** Shards of a block *)

Lemma length_shard_bytes sb n block s :
  length block = n * sb -> s < n -> length (shard_bytes sb block s) = sb.
Proof. intros Hl Hs. unfold shard_bytes. rewrite length_take, length_drop. nia. Qed.

Lemma get_shard_bytes sb block s b : b < sb -> get (shard_bytes sb block s) b = cell sb block s b.
Proof.
  intros Hb. unfold get, cell, get, shard_bytes. rewrite !nth_lookup.
  rewrite lookup_take_lt, lookup_drop by done. done.
Qed.

Lemma shard_bytes_ext sb n b1 b2 s s' :
  length b1 = n * sb -> length b2 = n * sb -> s < n -> s' < n ->
  (forall b, b < sb -> cell sb b1 s b = cell sb b2 s' b) -> shard_bytes sb b1 s = shard_bytes sb b2 s'.
Proof.
  intros H1 H2 Hs Hs' H. apply get_ext; rewrite !(length_shard_bytes sb n) by done; [done|].
  intros b Hb. rewrite !get_shard_bytes by done. by apply H.
Qed.

Lemma shard_cells sb b1 b2 s b :
  shard_bytes sb b1 s = shard_bytes sb b2 s -> b < sb -> cell sb b1 s b = cell sb b2 s b.
Proof. intros H Hb. by rewrite <- !get_shard_bytes, H. Qed.

Lemma get_beyond a i : length a <= i -> get a i = x00.
Proof. intros H. unfold get. by apply nth_overflow. Qed.

Lemma get_drop a p i : get (drop p a) i = get a (p + i).
Proof. unfold get. by rewrite !nth_lookup, lookup_drop. Qed.

(** Storing at the start of a shard. *)
Lemma shard_store sb n block s bs s' :
  length block = n * sb -> s < n -> s' < n -> length bs <= sb ->
  shard_bytes sb (store_bytes block (s * sb) bs) s' =
  if decide (s' = s) then bs ++ drop (length bs) (shard_bytes sb block s) else shard_bytes sb block s'.
Proof.
  intros Hl Hs Hs' Hb. destruct (store_bytes_spec block (s * sb) bs) as [Hl' Hg]; [nia|].
  rewrite Hl in Hl'.
  assert (Hlen := length_shard_bytes sb n _ s' Hl' Hs').
  apply get_ext.
  { rewrite Hlen. case_decide; [|by rewrite (length_shard_bytes sb n)].
    rewrite length_app, length_drop, (length_shard_bytes sb n) by done. lia. }
  rewrite Hlen. intros b Hb'. rewrite get_shard_bytes by done. unfold cell. rewrite Hg.
  destruct (decide (s' = s)) as [->|Hne].
  - destruct (decide (b < length bs)).
    + rewrite decide_True, get_app_l by lia. f_equal. lia.
    + rewrite decide_False, get_app_r, get_drop, get_shard_bytes by lia. unfold cell. f_equal. lia.
  - rewrite decide_False by nia. by rewrite get_shard_bytes.
Qed.

Lemma shard_zero sb n block s s' :
  length block = n * sb -> s < n -> s' < n ->
  length (zero_range block (s * sb) sb) = n * sb /\
  shard_bytes sb (zero_range block (s * sb) sb) s' =
  if decide (s' = s) then replicate sb x00 else shard_bytes sb block s'.
Proof.
  intros Hl Hs Hs'.
  destruct (for_insert_spec block (s * sb) sb (fun _ => x00)) as [Hl' Hg]; [nia|].
  fold (zero_range block (s * sb) sb) in Hl', Hg. rewrite Hl in Hl'. split; [done|].
  assert (Hlen := length_shard_bytes sb n _ s' Hl' Hs').
  apply get_ext; rewrite Hlen.
  { case_decide; [by rewrite length_replicate|by rewrite (length_shard_bytes sb n)]. }
  intros b Hb. rewrite get_shard_bytes by done. unfold cell. rewrite Hg. case_decide.
  - case_decide; [by rewrite get_replicate|nia].
  - case_decide; [nia|by rewrite get_shard_bytes].
Qed.

Lemma shard_replicate sb n s :
  s < n -> shard_bytes sb (replicate (n * sb) x00) s = replicate sb x00.
Proof.
  intros Hs. unfold shard_bytes. rewrite drop_replicate, take_replicate. f_equal. nia.
Qed.

(** Two stores one behind the other. *)
Lemma store_bytes_app block p a b :
  p + length a + length b <= length block ->
  store_bytes (store_bytes block p a) (p + length a) b = store_bytes block p (a ++ b).
Proof.
  intros Hl. destruct (store_bytes_spec block p a) as [L1 G1]; [lia|].
  destruct (store_bytes_spec (store_bytes block p a) (p + length a) b) as [L2 G2]; [lia|].
  destruct (store_bytes_spec block p (a ++ b)) as [L3 G3]; [rewrite length_app; lia|].
  apply get_ext; [lia|]. intros i _. rewrite G2, G3, G1, length_app.
  repeat case_decide; try lia; try done.
  - rewrite get_app_r by lia. f_equal. lia.
  - by rewrite get_app_l by lia.
Qed.

(** ** Padded messages and the length table *)

Definition padded (sb : nat) (msg : list byte) : list byte :=
  msg ++ replicate (sb - length msg) x00.

Lemma length_padded sb msg : length msg <= sb -> length (padded sb msg) = sb.
Proof. intros H. unfold padded. rewrite length_app, length_replicate. lia. Qed.

Section Groups.
Context `{host : HostOrder} (sh : FecShape).

Definition table (msgs : list (list byte)) : list byte :=
  Z_to_byte (Z.of_nat (length msgs)) ::
  concat (map (fun msg => network_length (Z.of_nat (length msg))) msgs).

Lemma length_network_length len : length (network_length len) = 2.
Proof. unfold network_length. rewrite length_map, length_store. done. Qed.

Lemma length_table msgs : length (table msgs) = 1 + 2 * length msgs.
Proof.
  unfold table. cbn [length]. f_equal. induction msgs as [|msg msgs IH]; [done|]. cbn [map concat].
  rewrite length_app, length_network_length, IH. cbn [length]. lia.
Qed.

(** Entry [i] of the table. *)
Lemma table_entry msgs i msg :
  msgs !! i = Some msg ->
  take 2 (drop (1 + i * 2) (table msgs)) = network_length (Z.of_nat (length msg)).
Proof.
  unfold table. cbn [drop Nat.add].
  revert i; induction msgs as [|m msgs IH]; intros i Hi; [done|]. cbn [map concat].
  destruct i as [|i].
  - injection Hi as ->. cbn [Nat.mul]. rewrite drop_0. rewrite take_app_le.
    + apply take_ge. by rewrite length_network_length.
    + by rewrite length_network_length.
  - rewrite <- (IH i Hi). f_equal. rewrite drop_app_ge by (rewrite length_network_length; lia).
    rewrite length_network_length. f_equal. lia.
Qed.

(** ** Datagrams *)

Definition fec_header (id : Z) (shard : nat) (valid_len payload_len : Z) : WireHeader :=
  {| wh_version := 0; wh_type := WIRE_TYPE_DATA; wh_final_dst := 0; wh_ttl := 0; wh_flow_id := 0;
     wh_block_id := id; wh_shard_index := Z.of_nat shard; wh_shard_count := Z.of_nat (sh_n sh);
     wh_valid_len := valid_len; wh_payload_len := payload_len; wh_encode_begin_ns := 0;
     wh_encode_end_ns := 0; wh_origin_node := 0; wh_flags := 0; wh_segment_bytes := 0 |}.

Definition fec_datagram (h : WireHeader) (shard : list byte) : list Z :=
  base_bytes h WIRE_VERSION_V3 ++ map byte_to_Z shard.

Definition data_datagram (id : Z) (i : nat) (msg : list byte) : list Z :=
  fec_datagram (fec_header id i (Z.of_nat (sh_k sh * sh_shard_size sh)) (Z.of_nat (length msg)))
    (padded (sh_shard_size sh) msg).

Definition tail_datagram (id : Z) (count : nat) (word : list byte) (i : nat) : list Z :=
  fec_datagram (fec_header id i (Z.of_nat ((count + 1) * sh_shard_size sh))
                  (Z.of_nat (sh_shard_size sh)))
    (shard_bytes (sh_shard_size sh) word i).

Record Group := mkGroup {
  gr_id : Z; gr_msgs : list (list byte); gr_word : list byte }.

Abbreviation sb := (sh_shard_size sh).
Abbreviation m := (sh_message_shards sh).
Abbreviation n := (sh_n sh).

Definition msg_ok (msg : list byte) : Prop := 1 <= length msg <= sb.

Record group_ok (code : list byte -> Prop) (G : Group) : Prop := {
  go_id : in_range 64 (gr_id G);
  go_count : 1 <= length (gr_msgs G) <= m;
  go_msgs : Forall msg_ok (gr_msgs G);
  go_code : code (gr_word G);
  go_data i msg : gr_msgs G !! i = Some msg -> shard_bytes sb (gr_word G) i = padded sb msg;
  go_unused i : length (gr_msgs G) <= i < m -> shard_bytes sb (gr_word G) i = replicate sb x00;
  go_table : shard_bytes sb (gr_word G) m = padded sb (table (gr_msgs G)) }.

(** The datagrams of the messages of a group, and all of them. *)
Definition data_datagrams (id : Z) (msgs : list (list byte)) : list (list Z) :=
  imap (data_datagram id) msgs.

Definition group_stream (G : Group) : list (list Z) :=
  data_datagrams (gr_id G) (gr_msgs G) ++
  map (tail_datagram (gr_id G) (length (gr_msgs G)) (gr_word G)) (seq m (n - m)).

(** The shards of a group that are sent. *)
Definition sends (G : Group) (i : nat) : Prop := i < length (gr_msgs G) \/ m <= i < n.

Definition datagram_of (G : Group) (i : nat) : list Z :=
  match gr_msgs G !! i with
  | Some msg => data_datagram (gr_id G) i msg
  | None => tail_datagram (gr_id G) (length (gr_msgs G)) (gr_word G) i
  end.

Lemma group_stream_datagrams G dg :
  length (gr_msgs G) <= m -> m <= n -> dg ∈ group_stream G -> exists i, sends G i /\ dg = datagram_of G i.
Proof.
  intros Hc Hmn. unfold group_stream, data_datagrams, datagram_of. rewrite elem_of_app.
  intros [(i & msg & -> & Hi)%elem_of_lookup_imap_1|H].
  - exists i. split; [|by rewrite Hi]. left. by eapply lookup_lt_Some.
  - apply list_elem_of_In, in_map_iff in H as (i & <- & Hi). apply in_seq in Hi.
    exists i. split; [right; lia|]. by rewrite lookup_ge_None_2 by lia.
Qed.

(** The length table fits its shard. *)
Definition table_fits : Prop := 1 + 2 * m <= sb.

End Groups.
Arguments group_ok {host}.
