(* ===== verification/FecEncoderSpec.v ===== *)
(** * What the FEC encoder sends

    The encoder is related to the groups it has closed and the messages of the open one: the
    datagrams it has sent or queued are exactly those of the closed groups followed by the data
    shards of the open one. *)

From Stdlib Require Import Strings.Byte.
From S2P Require Import Prelude WireHeader Gf256 ByteVec RsEncode Codec RsCodec Ring FecTransport.
From S2P Require Import FecEncoder FecGroups RsCodecSpec.

(** ** The queue as a ring *)

Definition as_ring {St} (e : FecEncoder St) : ring FecQueueItem :=
  {| r_slots := e_q_storage e; r_capacity := e_q_cap e; r_head := e_q_head e;
     r_tail := (e_q_head e + e_q_count e) mod e_q_cap e; r_count := e_q_count e |}.

Definition queued {St} (e : FecEncoder St) : list FecQueueItem := contents (as_ring e).

Section EncoderSpec.
Context `{host : HostOrder} {St : Type} (codec : option (CodecVTable St)).
Context (out : nat -> FecOutputStatus).
Context (sh : FecShape) (ok : St -> Prop) (code : list byte -> Prop).
Context (Hshape : shape_ok sh) (Hfits : table_fits sh).
Context `{Hcode : !BlockCode codec ok (sh_shard_size sh) (sh_k sh) (sh_r sh) code}.

Abbreviation Enc := (FecEncoder St).
Abbreviation sb := (sh_shard_size sh).
Abbreviation m := (sh_message_shards sh).
Abbreviation n := (sh_n sh).
Abbreviation dg := (datagram_size sh).

(** ** Frames *)

(** Nothing but the queue and the counters differs. *)
Definition enc_same (e e' : Enc) : Prop :=
  e' = enc_stats (e_stats e')
         (enc_queue (e_q_count e') (e_q_head e') (e_q_bytes e') (e_q_storage e') e).

Lemma enc_same_refl e : enc_same e e.
Proof using Type. by destruct e. Qed.

Lemma enc_same_trans e1 e2 e3 : enc_same e1 e2 -> enc_same e2 e3 -> enc_same e1 e3.
Proof using Type. unfold enc_same. intros H12 H23. rewrite H12 in H23. exact H23. Qed.

(** ** The queue *)

Record enc_q (e : Enc) : Prop := {
  eq_shape : e_shape e = sh;
  eq_ring : ring_ok (as_ring e);
  eq_slots : Forall (fun it => length (it_datagram it) = WIRE_HEADER_SIZE + sb) (e_q_storage e);
  eq_items : Forall (fun it => it_len it = dg) (queued e);
  eq_bytes : e_q_bytes e = (Z.of_nat (e_q_count e) * dg)%Z;
  eq_cap : (e_q_bytes e <= e_q_byte_cap e < 2 ^ 64)%Z;
  eq_alloc : (Z.of_nat (e_q_cap e) * dg < 2 ^ 64)%Z }.

Lemma dg_small : (76 <= dg < 32900)%Z.
Proof using Hshape.
  clear Hfits Hcode. destruct Hshape as [Hk _ _ _ Hsb Hsp _].
  unfold datagram_size, WIRE_HEADER_SIZE, UINT16_MAX in *. nia.
Qed.

Lemma queue_room (e : Enc) p :
  enc_q e -> queue_can_add e p (Z.of_nat p * dg) = true <->
  e_q_count e + p <= e_q_cap e /\ (e_q_bytes e + Z.of_nat p * dg <= e_q_byte_cap e)%Z.
Proof using Hshape.
  intros [_ _ _ _ Hb Hc Ha]. pose proof dg_small as Hdg. unfold queue_can_add.
  destruct (Nat.ltb_spec (e_q_cap e) (e_q_count e + p)); [split; [done|lia]|].
  rewrite u64_small by (unfold in_range; rewrite Hb; nia). rewrite Z.gtb_ltb.
  destruct (Z.ltb_spec (e_q_byte_cap e) (e_q_bytes e + Z.of_nat p * dg)); split; try done; lia.
Qed.

(** The item a shard becomes. *)
Definition item_for (e : Enc) (shard : nat) (payload_len : Z) : FecQueueItem :=
  mkFecQueueItem dg (kind_of sh shard)
    (fec_datagram (header_of e shard payload_len) (shard_bytes sb (e_block e) shard)).

Lemma length_fec_datagram h bs : length (fec_datagram h bs) = WIRE_HEADER_SIZE + length bs.
Proof using Type. unfold fec_datagram. by rewrite length_app, length_base_bytes, length_map. Qed.

Lemma pack_shard_datagram (e : Enc) shard plen packet :
  e_shape e = sh -> length (e_block e) = n * sb -> shard < n ->
  length packet = WIRE_HEADER_SIZE + sb ->
  pack_shard e shard plen packet =
  fec_datagram (header_of e shard plen) (shard_bytes sb (e_block e) shard).
Proof using Type.
  intros Hs Hb Hlt Hp. unfold pack_shard, wire_header_encode.
  rewrite encode_base_bytes by lia. rewrite Hs.
  assert (Hl : length (drop WIRE_HEADER_SIZE packet) = sb) by (rewrite length_drop; lia).
  rewrite write_field; [|by rewrite length_base_bytes
    |rewrite length_map, (length_shard_bytes sb n) by done; lia].
  rewrite drop_ge, app_nil_r; [done|]. rewrite length_map, (length_shard_bytes sb n) by done. lia.
Qed.

(** A queue with a free place takes a shard. *)
Lemma enqueue_shard_ok (e : Enc) shard plen :
  enc_q e -> length (e_block e) = n * sb -> shard < n -> (1 <= plen <= Z.of_nat sb)%Z ->
  e_q_count e < e_q_cap e -> (e_q_bytes e + dg <= e_q_byte_cap e)%Z ->
  exists e', enqueue_shard shard plen e = Some (FEC_OK, e') /\ enc_same e e' /\ enc_q e' /\
    queued e' = queued e ++ [item_for e shard plen] /\ e_q_count e' = S (e_q_count e).
Proof using Hshape.
  intros Hq Hb Hs Hp Hc Hbc. pose proof dg_small as Hdg. pose proof Hq as [Hsh Hr Hsl Hit Hby Hcap Hal].
  pose proof Hr as (Hr1 & Hr2 & Hr3 & Hr4 & _). cbn in Hr1, Hr2, Hr3, Hr4.
  set (tail := (e_q_head e + e_q_count e) mod e_q_cap e).
  assert (Htail : tail < e_q_cap e) by (apply Nat.mod_upper_bound; lia).
  destruct (lookup_lt_is_Some_2 (e_q_storage e) tail ltac:(lia)) as [old Hold].
  assert (Hlen : length (it_datagram old) = WIRE_HEADER_SIZE + sb)
    by (by eapply (list.Forall_lookup_1 _ _ _ _ Hsl)).
  unfold enqueue_shard. rewrite Hsh.
  rewrite (proj2 (Z.eqb_neq plen 0)), Z.gtb_ltb, (proj2 (Z.ltb_ge (Z.of_nat sb) plen)) by lia.
  cbn [orb]. replace (queue_can_add e 1 dg) with true
    by (symmetry; replace dg with (Z.of_nat 1 * dg)%Z by lia; apply queue_room; [done|lia]).
  cbn [negb]. fold tail. unfold queue_slot. rewrite Hold.
  rewrite (pack_shard_datagram e shard plen) by done.
  replace (u16 dg) with dg by (symmetry; apply uwrap_small; unfold in_range; lia).
  fold (item_for e shard plen).
  rewrite u64_small by (unfold in_range; lia).
  set (e' := note_queue _). exists e'. split; [done|]. split; [by destruct e|].
  assert (Has : as_ring e' = put_tail (as_ring e) (item_for e shard plen)).
  { unfold as_ring, put_tail. cbn. f_equal. fold tail. unfold tail.
    rewrite Nat.Div0.add_mod_idemp_l. f_equal. lia. }
  assert (Hcont : queued e' = queued e ++ [item_for e shard plen])
    by (unfold queued; rewrite Has; by apply put_tail_contents).
  split; [|split; [done|cbn; lia]]. split; cbn [e_shape e_q_storage e_q_bytes e_q_count e_q_byte_cap
    e_q_cap e' note_queue enc_stats enc_queue].
  - done.
  - rewrite Has. by apply put_tail_ok.
  - apply Forall_insert; [done|]. cbn [item_for it_datagram]. rewrite length_fec_datagram, (length_shard_bytes sb n); done.
  - rewrite Hcont. apply list.Forall_app. split; [done|]. by constructor.
  - lia.
  - lia.
  - done.
Qed.

Lemma enqueue_tails_ok shards (e : Enc) :
  enc_q e -> length (e_block e) = n * sb -> Forall (fun s => s < n) shards ->
  e_q_count e + length shards <= e_q_cap e ->
  (e_q_bytes e + Z.of_nat (length shards) * dg <= e_q_byte_cap e)%Z ->
  exists e', enqueue_tails shards e = Some (FEC_OK, e') /\ enc_same e e' /\ enc_q e' /\
    queued e' = queued e ++ map (fun s => item_for e s (Z.of_nat sb)) shards.
Proof using Hshape.
  intros Hq Hb Hall. revert e Hq Hb.
  induction Hall as [|s shards Hs Hall IH]; intros e Hq Hb Hc Hbc; cbn [length] in *.
  - exists e. split; [done|]. split; [apply enc_same_refl|]. by rewrite app_nil_r.
  - pose proof dg_small as Hdg. pose proof (so_sb sh Hshape) as Hsb.
    destruct (enqueue_shard_ok e s (Z.of_nat sb)) as (e1 & He1 & Hs1 & Hq1 & Hc1 & Hn1);
      [done|done|done|lia|lia|lia|].
    destruct (IH e1) as (e2 & He2 & Hs2 & Hq2 & Hc2); [done|by rewrite Hs1| | |].
    { replace (e_q_cap e1) with (e_q_cap e) by (by rewrite Hs1). lia. }
    { rewrite (eq_bytes e1 Hq1), Hn1. replace (e_q_byte_cap e1) with (e_q_byte_cap e)
        by (by rewrite Hs1). rewrite (eq_bytes e Hq) in Hbc. lia. }
    exists e2. cbn [enqueue_tails]. rewrite (eq_shape e Hq), He1. cbn [if_ok].
    split; [done|]. split; [by eapply enc_same_trans|]. split; [done|].
    rewrite Hc2, Hc1, <- app_assoc. cbn [map app]. do 2 f_equal. apply map_ext. intros s'.
    unfold item_for. by rewrite Hs1.
Qed.

(** ** The length table *)

Lemma write_lengths_ok lens base j block :
  base + 1 + 2 * (j + length lens) <= length block ->
  write_lengths lens base j block =
  Some (store_bytes block (base + 1 + j * 2) (concat (map network_length lens))).
Proof using Type.
  revert j block; induction lens as [|len lens IH]; intros j block Hl; [done|]. cbn [length] in Hl.
  cbn [write_lengths map concat]. unfold store_checked.
  rewrite (proj2 (Nat.leb_le _ _)) by (rewrite length_network_length; lia).
  destruct (store_bytes_spec block (base + 1 + j * 2) (network_length len)) as [Hl' _];
    [rewrite length_network_length; lia|].
  rewrite IH by lia. f_equal.
  replace (base + 1 + S j * 2) with (base + 1 + j * 2 + length (network_length len))
    by (rewrite length_network_length; lia).
  apply store_bytes_app. rewrite length_network_length.
  assert (length (concat (map network_length lens)) = 2 * length lens) as ->; [|lia].
  clear IH Hl Hl'. induction lens as [|l lens IH]; [done|]. cbn [map concat].
  rewrite length_app, length_network_length, IH. cbn [length]. lia.
Qed.

(** The block and the lengths of the open group. *)
Record enc_open (e : Enc) (cur : list (list byte)) : Prop := {
  eo_count : e_data_count e = length cur;
  eo_le : length cur <= m;
  eo_msgs : Forall (msg_ok sh) cur;
  eo_lengths : e_lengths e = map (fun msg => Z.of_nat (length msg)) cur ++
                             replicate (m - length cur) 0%Z;
  eo_block : length (e_block e) = n * sb;
  eo_data i msg : cur !! i = Some msg -> shard_bytes sb (e_block e) i = padded sb msg;
  eo_zero i : length cur <= i < m -> shard_bytes sb (e_block e) i = replicate sb x00 }.

Lemma m_lt_n : 1 <= m /\ m < n /\ m < sh_k sh /\ sh_k sh <= n.
Proof using Hshape. clear Hfits Hcode. destruct Hshape. lia. Qed.

Lemma write_length_table_ok (e : Enc) cur :
  e_shape e = sh -> enc_open e cur ->
  exists block, write_length_table e = Some block /\ length block = n * sb /\
    forall s, s < n -> shard_bytes sb block s =
      if decide (s = m) then padded sb (table cur) else shard_bytes sb (e_block e) s.
Proof using Hshape Hfits.
  clear Hcode. intros Hs [Hc Hle _ Hlen Hb _ _]. pose proof m_lt_n as (Hm1 & Hmn & _).
  unfold write_length_table. rewrite Hs.
  assert (Hz : forall s, s < n -> _) by (intros s; exact (shard_zero sb n (e_block e) m s Hb Hmn)).
  destruct (Hz 0 ltac:(lia)) as [Hzl _].
  set (b0 := zero_range (e_block e) (m * sb) sb) in *. unfold store_checked.
  unfold table_fits in Hfits. cbn [length]. rewrite (proj2 (Nat.leb_le _ _)) by nia.
  set (c0 := Z_to_byte (Z.of_nat (e_data_count e))).
  destruct (store_bytes_spec b0 (m * sb) [c0]) as [Hl1 _]; [cbn [length]; nia|].
  assert (Htk : take (e_data_count e) (e_lengths e) = map (fun msg => Z.of_nat (length msg)) cur).
  { rewrite Hc, Hlen, take_app_le, take_ge by (by rewrite length_map). done. }
  rewrite Htk, write_lengths_ok by (rewrite length_map; nia).
  rewrite Nat.mul_0_l, Nat.add_0_r, map_map.
  change (m * sb + 1) with (m * sb + length [c0]).
  assert (Htab : [c0] ++ concat (map (fun x => network_length (Z.of_nat (length x))) cur) = table cur)
    by (unfold c0, table; by rewrite Hc).
  pose proof (length_table cur) as Htl.
  rewrite store_bytes_app by (rewrite <- Nat.add_assoc, <- length_app, Htab; nia).
  rewrite Htab. eexists. split; [done|].
  destruct (store_bytes_spec b0 (m * sb) (table cur)) as [Hl2 _]; [nia|].
  split; [lia|]. intros s Hlt. rewrite (shard_store sb n) by (done || lia).
  destruct (Hz s Hlt) as [_ Hzs]. destruct (Hz m Hmn) as [_ Hzm]. fold b0 in Hzs, Hzm.
  rewrite decide_True in Hzm by done. destruct (decide (s = m)) as [Es|Es]; [|done].
  rewrite Hzm. unfold padded. by rewrite drop_replicate.
Qed.

(** ** The stream *)

Definition open_id (e : Enc) : Z := group_id_of (e_epoch e) (e_next_group e).

Record enc_rel (e : Enc) (Gs : list Group) (cur : list (list byte)) : Prop := {
  er_q : enc_q e;
  er_open : enc_open e cur;
  er_st : ok (e_codec_state e);
  er_epoch : in_range 32 (e_epoch e);
  er_next : in_range 32 (e_next_group e);
  er_count : Z.of_nat (length Gs) = (e_next_group e + if e_group_exhausted e then 1 else 0)%Z;
  er_exhausted : e_group_exhausted e = true -> e_next_group e = UINT32_MAX /\ cur = [];
  er_groups : Forall (group_ok sh code) Gs;
  er_ids i G : Gs !! i = Some G -> gr_id G = group_id_of (e_epoch e) (Z.of_nat i);
  er_sent : taken (e_calls e) ++ map it_datagram (queued e) =
            concat (map (group_stream sh) Gs) ++ data_datagrams sh (open_id e) cur }.

(** The messages the encoder has taken in. *)
Definition absorbed (Gs : list Group) (cur : list (list byte)) : list (list byte) :=
  concat (map gr_msgs Gs) ++ cur.

Lemma enc_rel_stats e Gs cur stats : enc_rel e Gs cur -> enc_rel (enc_stats stats e) Gs cur.
Proof using Type.
  intros [[] [] ? ? ? ? ? ? ? ?]. split; try done; split; done.
Qed.

Lemma enc_rel_tokens e Gs cur tk last v : enc_rel e Gs cur -> enc_rel (enc_tokens tk last v e) Gs cur.
Proof using Type.
  intros [[] [] ? ? ? ? ? ? ? ?]. split; try done; split; done.
Qed.

Lemma enc_rel_overflow e Gs cur : enc_rel e Gs cur -> enc_rel (note_overflow e) Gs cur.
Proof using Type. intros H. by do 2 apply enc_rel_stats. Qed.

Lemma header_of_data (e : Enc) i len :
  e_shape e = sh -> i < m -> 
  header_of e i len = fec_header sh (open_id e) i (Z.of_nat (sh_k sh * sb)) len.
Proof using Hshape.
  clear Hfits Hcode. intros Hs Hi. unfold header_of, fec_header. rewrite Hs.
  rewrite (proj2 (Nat.ltb_lt i m)) by done. destruct Hshape. unfold UINT16_MAX in *.
  f_equal; apply uwrap_small; unfold in_range; lia.
Qed.

Lemma header_of_tail (e : Enc) i len :
  e_shape e = sh -> m <= i < n -> e_data_count e <= m ->
  header_of e i len = fec_header sh (open_id e) i (Z.of_nat ((e_data_count e + 1) * sb)) len.
Proof using Hshape.
  clear Hfits Hcode. intros Hs Hi Hc. unfold header_of, fec_header. rewrite Hs.
  rewrite (proj2 (Nat.ltb_ge i m)) by lia. destruct Hshape. unfold UINT16_MAX in *.
  f_equal; apply uwrap_small; unfold in_range; nia.
Qed.

Lemma group_id_range epoch g : in_range 32 epoch -> in_range 32 g -> in_range 64 (group_id_of epoch g).
Proof using Type.
  intros He Hg. unfold group_id_of. rewrite lor_halves by done. unfold in_range in *. lia.
Qed.

(** ** Closing a group *)

(** The group a finished block makes. *)
Lemma finished_group_ok e cur block word :
  enc_open e cur -> cur <> [] -> in_range 64 (open_id e) -> code word ->
  length block = n * sb -> length word = n * sb ->
  (forall s b, s < sh_k sh -> b < sb -> cell sb word s b = cell sb block s b) ->
  (forall s, s < n -> shard_bytes sb block s =
     if decide (s = m) then padded sb (table cur) else shard_bytes sb (e_block e) s) ->
  group_ok sh code (mkGroup (open_id e) cur word).
Proof using Hshape.
  clear Hfits Hcode. intros [Hc Hle Hms Hlen Hb Hdata Hzero] Hne Hid Hcw Hbl Hwl Hsys Htab.
  pose proof m_lt_n as (Hm1 & Hmn & Hmk & Hkn).
  assert (Hcur : 1 <= length cur) by (destruct cur; [done|cbn; lia]).
  assert (Hws : forall s, s < sh_k sh -> shard_bytes sb word s = shard_bytes sb block s).
  { intros s Hs. apply (shard_bytes_ext sb n); try lia. intros b Hb'. by apply Hsys. }
  split; cbn [gr_id gr_msgs gr_word]; try done.
  - intros i msg Hi. apply lookup_lt_Some in Hi as Hlt.
    rewrite Hws, Htab, decide_False by lia. by apply Hdata.
  - intros i Hi. rewrite Hws, Htab, decide_False by lia. by apply Hzero.
  - by rewrite Hws, Htab, decide_True by lia.
Qed.

Lemma close_group_rel e Gs cur block st e1 word :
  enc_rel e Gs cur -> cur <> [] -> e_group_exhausted e = false ->
  ok st -> code word -> length block = n * sb -> length word = n * sb ->
  (forall s b, s < sh_k sh -> b < sb -> cell sb word s b = cell sb block s b) ->
  (forall s, s < n -> shard_bytes sb block s =
     if decide (s = m) then padded sb (table cur) else shard_bytes sb (e_block e) s) ->
  enc_same (enc_codec_state st (enc_group (e_next_group e) false (e_data_count e) (e_lengths e) word e))
    e1 ->
  enc_q e1 ->
  map it_datagram (queued e1) = map it_datagram (queued e) ++
    map (tail_datagram sh (open_id e) (length cur) word) (seq m (n - m)) ->
  enc_rel (close_group e1) (Gs ++ [mkGroup (open_id e) cur word]) [].
Proof using Hshape.
  clear Hfits Hcode. intros [Hq Ho Hst Hep Hnx Hct Hex Hgs Hids Hsent] Hne Hexh Hst' Hcw Hbl Hwl
    Hsys Htab Hsame Hq1 Hqd.
  pose proof m_lt_n as (Hm1 & Hmn & Hmk & Hkn). pose proof Ho as [Hc Hle Hms Hlen Hb Hdata Hzero].
  assert (HG : group_ok sh code (mkGroup (open_id e) cur word)).
  { apply (finished_group_ok e cur block); try assumption. unfold open_id.
    apply group_id_range; assumption. }
  rewrite Hexh in Hct. rewrite Z.add_0_r in Hct.
  assert (Hcalls : e_calls e1 = e_calls e) by (by rewrite Hsame).
  assert (Hnext : e_next_group e1 = e_next_group e) by (by rewrite Hsame).
  assert (Hepoch : e_epoch e1 = e_epoch e) by (by rewrite Hsame).
  assert (Hexh1 : e_group_exhausted e1 = false) by (by rewrite Hsame).
  assert (Hlens : length (e_lengths e1) = m).
  { replace (e_lengths e1) with (e_lengths e) by (by rewrite Hsame).
    rewrite Hlen, length_app, length_map, length_replicate. lia. }
  assert (Hblk : length (e_block e1) = n * sb)
    by (replace (e_block e1) with word by (by rewrite Hsame); done).
  split.
  - destruct Hq1. split; done.
  - split; cbn [close_group enc_pending enc_group e_data_count e_lengths e_block length map app].
    + done.
    + lia.
    + done.
    + unfold zero_lengths. rewrite Hlens. f_equal. lia.
    + unfold zero_block. by rewrite length_replicate.
    + done.
    + intros i Hi. unfold zero_block. rewrite Hblk. apply shard_replicate. lia.
  - change (ok (e_codec_state e1)). replace (e_codec_state e1) with st by (by rewrite Hsame). done.
  - change (in_range 32 (e_epoch e1)). by rewrite Hepoch.
  - unfold close_group. cbn. rewrite Hnext. case_match; [done|]. apply uwrap_range. lia.
  - unfold close_group. cbn. rewrite Hnext, Hexh1, length_app. cbn [length].
    unfold in_range in Hnx. destruct (Z.eqb_spec (e_next_group e) UINT32_MAX); [lia|].
    unfold UINT32_MAX in *. unfold u32. rewrite uwrap_small by (unfold in_range; lia). lia.
  - unfold close_group. cbn. rewrite Hnext, Hexh1.
    destruct (Z.eqb_spec (e_next_group e) UINT32_MAX); [done|done].
  - apply list.Forall_app. split; [done|]. by constructor.
  - intros i G Hi. change (e_epoch (close_group e1)) with (e_epoch e1). rewrite Hepoch.
    apply lookup_app_Some in Hi as [Hi|[Hi1 Hi2]]; [by apply Hids|].
    apply list_lookup_singleton_Some in Hi2 as [Hi2 <-]. cbn [gr_id]. unfold open_id.
    f_equal. lia.
  - change (e_calls (close_group e1)) with (e_calls e1).
    change (queued (close_group e1)) with (queued e1).
    rewrite Hcalls, Hqd, app_assoc, Hsent, map_app, concat_app. cbn [map concat].
    unfold group_stream at 3. cbn [gr_id gr_msgs gr_word].
    change (data_datagrams sh _ []) with (@nil (list Z)). by rewrite !app_nil_r, <- !app_assoc.
Qed.

Lemma tails_room e :
  enc_q e -> queue_can_add e (n - m) (Z.of_nat (n - m) * dg) = true ->
  e_q_count e + (n - m) <= e_q_cap e /\
  (e_q_bytes e + Z.of_nat (n - m) * dg <= e_q_byte_cap e)%Z.
Proof using Hshape. intros Hq. by apply queue_room. Qed.

Lemma encode_tails_ok e Gs cur :
  enc_rel e Gs cur -> cur <> [] -> e_group_exhausted e = false ->
  queue_can_add e (n - m) (Z.of_nat (n - m) * dg) = true ->
  exists e' word, encode_and_enqueue_tails codec e = Some (FEC_OK, e') /\
    enc_rel e' (Gs ++ [mkGroup (open_id e) cur word]) [] /\ e_q_cap e' = e_q_cap e.
Proof using Hshape Hfits Hcode.
  intros Hrel Hne Hexh Hcan. pose proof Hrel as [Hq Ho Hst _ _ _ _ _ _ _].
  pose proof m_lt_n as (Hm1 & Hmn & Hmk & Hkn). pose proof (eo_count e cur Ho) as Hc.
  destruct (tails_room e Hq Hcan) as [Hroom Hbytes].
  destruct (write_length_table_ok e cur (eq_shape e Hq) Ho) as (block & Hw & Hbl & Htab).
  assert (Hn : sh_k sh + sh_r sh = n) by (by rewrite (so_n sh Hshape)).
  destruct (bc_encode (e_codec_state e) block Hst) as (word & st & Henc & Hst' & Hcw & Hsys);
    [by rewrite Hn|].
  pose proof (bc_length word Hcw) as Hwl. rewrite Hn in Henc, Hwl.
  unfold encode_and_enqueue_tails. rewrite (eq_shape e Hq), Hexh, orb_false_r, Hcan, Hw, Henc.
  rewrite (proj2 (Nat.eqb_neq (e_data_count e) 0)) by (rewrite Hc; by destruct cur).
  cbn [negb default from_option id].
  set (e0 := enc_codec_state st _).
  assert (Hq0 : enc_q e0) by (destruct Hq; by split).
  destruct (enqueue_tails_ok (seq m (n - m)) e0) as (e1 & He1 & Hsame & Hq1 & Hqd);
    [done|done|apply list.Forall_forall; intros s Hs; apply elem_of_seq in Hs; lia| | |];
    try (rewrite length_seq; done).
  rewrite He1. cbn [if_ok]. exists (close_group e1), word. split; [done|].
  split; [|by rewrite Hsame].
  apply (close_group_rel e Gs cur block st e1 word); try done.
  rewrite Hqd, map_app, map_map. f_equal. apply map_ext_in. intros s Hs. apply in_seq in Hs.
  unfold item_for. cbn [it_datagram]. unfold tail_datagram.
  pose proof (eo_le e cur Ho) as Hle.
  rewrite header_of_tail; [|exact (eq_shape e Hq)|lia|change (e_data_count e <= m); lia].
  change (e_data_count e0) with (e_data_count e). by rewrite Hc.
Qed.

(** A call of [encode_and_enqueue_tails] closes the open group or leaves it. *)
Lemma encode_tails_cases e Gs cur :
  enc_rel e Gs cur ->
  exists status e' Gs' cur', encode_and_enqueue_tails codec e = Some (status, e') /\
    enc_rel e' Gs' cur' /\ absorbed Gs' cur' = absorbed Gs cur /\ (cur' = [] \/ cur' = cur).
Proof using Hshape Hfits Hcode.
  intros Hrel. pose proof Hrel as [Hq Ho _ _ _ _ Hex _ _ _].
  destruct (decide (cur = [])) as [->|Hne].
  { unfold encode_and_enqueue_tails. rewrite (eo_count e [] Ho). cbn [length Nat.eqb orb].
    do 2 eexists. exists Gs, []. by split_and!; [reflexivity|..|left]. }
  destruct (e_group_exhausted e) eqn:Hexh; [by destruct (Hex eq_refl)|].
  destruct (queue_can_add e (n - m) (Z.of_nat (n - m) * dg)) eqn:Hcan.
  - destruct (encode_tails_ok e Gs cur Hrel Hne Hexh Hcan) as (e' & word & He & Hrel' & _).
    exists FEC_OK, e', (Gs ++ [mkGroup (open_id e) cur word]), [].
    split_and!; [done|done| |by left]. unfold absorbed. rewrite map_app, concat_app. cbn.
    by rewrite !app_nil_r.
  - exists FEC_ERR_QUEUE_FULL, (note_overflow e), Gs, cur.
    split_and!; [|by apply enc_rel_overflow|done|by right].
    unfold encode_and_enqueue_tails. rewrite (eq_shape e Hq), Hexh, Hcan, (eo_count e cur Ho).
    by rewrite (proj2 (Nat.eqb_neq (length cur) 0)) by (by destruct cur).
Qed.

(** ** Push *)

(** Storing a message behind those of the open group. *)
Lemma store_message_open e cur msg :
  enc_open e cur -> length cur < m -> msg_ok sh msg ->
  exists block, store_checked (e_block e) (length cur * sb) msg = Some block /\
    enc_open (enc_group (e_next_group e) (e_group_exhausted e) (S (length cur))
                (<[length cur := Z.of_nat (length msg)]> (e_lengths e)) block e) (cur ++ [msg]).
Proof using Hshape.
  clear Hfits Hcode. intros [Hc Hle Hms Hlen Hb Hdata Hzero] Hlt [Hm1 Hm2].
  pose proof m_lt_n as (_ & Hmn & _). unfold store_checked.
  rewrite (proj2 (Nat.leb_le _ _)) by (rewrite Hb; nia). eexists. split; [done|].
  destruct (store_bytes_spec (e_block e) (length cur * sb) msg) as [Hl _]; [rewrite Hb; nia|].
  assert (Hst : forall s, s < n -> _)
    by (intros s Hs; exact (shard_store sb n (e_block e) (length cur) msg s Hb ltac:(lia) Hs Hm2)).
  split; cbn [enc_group e_data_count e_lengths e_block]; rewrite ?length_app; cbn [length].
  - lia.
  - lia.
  - apply list.Forall_app. split; [done|]. by constructor.
  - rewrite Hlen, map_app, <- app_assoc.
    destruct (m - length cur) as [|z] eqn:Ez; [lia|]. cbn [replicate].
    rewrite list_insert_middle by (by rewrite length_map). cbn [map app]. do 3 f_equal. lia.
  - by rewrite Hl.
  - intros i x Hi. apply lookup_app_Some in Hi as [Hi|[Hi1 Hi2]].
    + apply lookup_lt_Some in Hi as Hi'. rewrite Hst, decide_False by lia. by apply Hdata.
    + apply list_lookup_singleton_Some in Hi2 as [Hi2 <-]. replace i with (length cur) by lia.
      rewrite Hst, decide_True, Hzero by lia. unfold padded. by rewrite drop_replicate.
  - intros i Hi. rewrite Hst, decide_False by lia. apply Hzero. lia.
Qed.

(** At the first message of a group the block and the lengths are cleared once more. *)
Lemma start_group_rel e Gs now :
  enc_rel e Gs [] ->
  enc_rel (enc_pending true now (enc_group (e_next_group e) (e_group_exhausted e) (e_data_count e)
             (zero_lengths e) (zero_block e) e)) Gs [].
Proof using Hshape.
  clear Hfits Hcode. intros [Hq [Hc Hle Hms Hlen Hb Hdata Hzero] Hst Hep Hnx Hct Hex Hgs Hids Hsent].
  pose proof m_lt_n as (_ & Hmn & _). split; try done; [by destruct Hq|].
  split; cbn [enc_pending enc_group e_data_count e_lengths e_block]; try done.
  - unfold zero_lengths. rewrite Hlen. cbn. by rewrite length_replicate.
  - unfold zero_block. by rewrite length_replicate.
  - intros i Hi. unfold zero_block. rewrite Hb. apply shard_replicate. lia.
Qed.

Lemma enc_open_ext e e' cur :
  e_data_count e' = e_data_count e -> e_lengths e' = e_lengths e -> e_block e' = e_block e ->
  enc_open e cur -> enc_open e' cur.
Proof using Type. intros H1 H2 H3 [? ? ? ? ? ? ?]. split; rewrite ?H1, ?H2, ?H3; done. Qed.

Lemma data_datagrams_snoc id cur msg :
  data_datagrams sh id (cur ++ [msg]) = data_datagrams sh id cur ++ [data_datagram sh id (length cur) msg].
Proof using Type. unfold data_datagrams. rewrite imap_app. cbn. by rewrite Nat.add_0_r. Qed.

(** The message and its data shard, when the queue has a place. *)
Lemma send_message_rel e Gs cur msg :
  enc_rel e Gs cur -> length cur < m -> e_group_exhausted e = false -> msg_ok sh msg ->
  e_q_count e < e_q_cap e -> (e_q_bytes e + dg <= e_q_byte_cap e)%Z ->
  exists block e1,
    store_checked (e_block e) (e_data_count e * sb) msg = Some block /\
    enqueue_shard (e_data_count e) (u16 (Z.of_nat (length msg)))
      (enc_group (e_next_group e) (e_group_exhausted e) (e_data_count e)
         (<[e_data_count e := u16 (Z.of_nat (length msg))]> (e_lengths e)) block e)
      = Some (FEC_OK, e1) /\
    (e_q_count e1 = S (e_q_count e) /\ e_q_cap e1 = e_q_cap e /\ e_q_byte_cap e1 = e_q_byte_cap e /\
     e_group_exhausted e1 = false) /\ e_data_count e1 = e_data_count e /\
    enc_rel (enc_group (e_next_group e1) (e_group_exhausted e1) (S (e_data_count e1)) (e_lengths e1)
               (e_block e1) e1) Gs (cur ++ [msg]).
Proof using Hshape.
  clear Hfits Hcode. intros Hrel Hlt Hexh Hmsg Hroom Hbytes.
  pose proof Hrel as [Hq Ho Hst Hep Hnx Hct Hex Hgs Hids Hsent].
  pose proof m_lt_n as (_ & Hmn & _). pose proof (eo_count e cur Ho) as Hc. pose proof Hmsg as [Hm1 Hm2].
  destruct (store_message_open e cur msg Ho Hlt Hmsg) as (block & Hblk & Ho').
  assert (Hu : u16 (Z.of_nat (length msg)) = Z.of_nat (length msg)).
  { pose proof (so_span sh Hshape) as Hsp. pose proof (so_k sh Hshape). unfold UINT16_MAX in Hsp.
    apply uwrap_small. unfold in_range. nia. }
  rewrite Hc, Hu. exists block. set (e0 := enc_group _ _ _ _ _ e).
  assert (Hq0 : enc_q e0) by (destruct Hq; by split).
  destruct (enqueue_shard_ok e0 (length cur) (Z.of_nat (length msg)))
    as (e1 & He1 & Hsame & Hq1 & Hqd & Hn1);
    [done|exact (eo_block _ _ Ho')|lia|lia|done|done|].
  exists e1. split; [done|]. split; [done|]. split; [by rewrite Hn1, Hsame|].
  split; [by rewrite Hsame|].
  split.
  - destruct Hq1. by split.
  - apply (enc_open_ext _ _ _) with (4 := Ho'); by rewrite Hsame.
  - by rewrite Hsame.
  - by rewrite Hsame.
  - by rewrite Hsame.
  - by rewrite Hsame.
  - rewrite Hsame. cbn. intros H. by rewrite Hexh in H.
  - done.
  - by rewrite Hsame.
  - change (e_calls (enc_group _ _ _ _ _ e1)) with (e_calls e1).
    change (queued (enc_group _ _ _ _ _ e1)) with (queued e1).
    change (open_id (enc_group _ _ _ _ _ e1)) with (open_id e1).
    replace (open_id e1) with (open_id e) by (by rewrite Hsame).
    replace (e_calls e1) with (e_calls e) by (by rewrite Hsame).
    rewrite Hqd, map_app, data_datagrams_snoc. change (queued e0) with (queued e).
    rewrite !app_assoc, Hsent. f_equal. cbn [map item_for it_datagram]. f_equal.
    unfold data_datagram. rewrite header_of_data by (exact (eq_shape e Hq) || done).
    f_equal. apply (eo_data _ _ Ho'). by rewrite lookup_app_r, Nat.sub_diag by lia.
Qed.

(** A message is taken in exactly when the call returns [FEC_OK]. *)
Definition taken_in (status : FecStatus) (msg : list byte) : list (list byte) :=
  if decide (status = FEC_OK) then [msg] else [].

Lemma absorbed_snoc Gs cur msg : absorbed Gs (cur ++ [msg]) = absorbed Gs cur ++ [msg].
Proof using Type. unfold absorbed. by rewrite app_assoc. Qed.

Lemma push_message_cases e Gs cur msg now :
  enc_rel e Gs cur -> length cur < m -> e_group_exhausted e = false -> msg_ok sh msg ->
  exists status e' Gs' cur', push_message codec msg now e = Some (status, e') /\
    enc_rel e' Gs' cur' /\ length cur' < m /\
    absorbed Gs' cur' = absorbed Gs cur ++ taken_in status msg.
Proof using Hshape Hfits Hcode.
  intros Hrel Hlt Hexh Hmsg. pose proof Hrel as [Hq Ho _ _ _ _ _ _ _ _].
  pose proof m_lt_n as (Hm1 & Hmn & _). pose proof (eo_count e cur Ho) as Hc.
  assert (Hnm : n - m = sh_r sh + 1) by (destruct Hshape; lia).
  unfold push_message. rewrite (eq_shape e Hq).
  set (last := e_data_count e + 1 =? m). set (np := 1 + (if last then sh_r sh + 1 else 0)).
  replace (dg + (if last then Z.of_nat (sh_r sh + 1) * dg else 0))%Z with (Z.of_nat np * dg)%Z
    by (unfold np; destruct last; lia).
  destruct (queue_can_add e np (Z.of_nat np * dg)) eqn:Hcan; cbn [negb].
  2:{ exists FEC_ERR_QUEUE_FULL, (note_overflow e), Gs, cur.
      split_and!; [done|by apply enc_rel_overflow|done|]. cbn. by rewrite app_nil_r. }
  apply queue_room in Hcan as [Hr1 Hr2]; [|done]. pose proof dg_small as Hdg.
  set (e1 := if e_data_count e =? 0 then _ else e).
  assert (He1 : enc_rel e1 Gs cur).
  { unfold e1. destruct (Nat.eqb_spec (e_data_count e) 0); [|done].
    assert (cur = []) as -> by (destruct cur; [done|cbn in Hc; lia]). by apply start_group_rel. }
  assert (Hq1 : e_q_count e1 = e_q_count e /\ e_q_cap e1 = e_q_cap e /\ e_q_bytes e1 = e_q_bytes e /\
                e_q_byte_cap e1 = e_q_byte_cap e /\ e_group_exhausted e1 = false)
    by (unfold e1; by destruct (_ =? 0)).
  destruct Hq1 as (Ec & Ecap & Eb & Ebc & Eexh).
  destruct (send_message_rel e1 Gs cur msg He1 Hlt Eexh Hmsg)
    as (block & e2 & Hst & Henq & (Q1 & Q2 & Q3 & Q4) & Hd2 & Hrel2); [lia|lia|].
  rewrite Hst. change (e_data_count (enc_group ?a ?b ?c ?d ?f ?g)) with c.
  rewrite Henq. cbn [if_ok]. set (e3 := enc_group _ _ _ _ _ e2) in *.
  change (e_data_count e3) with (S (e_data_count e2)). rewrite Hd2, (eo_count e1 cur (er_open _ _ _ He1)).
  destruct (Nat.eqb_spec (S (length cur)) m) as [Em|Em].
  - assert (Hl : last = true) by (unfold last; apply Nat.eqb_eq; lia).
    destruct (encode_tails_ok e3 Gs (cur ++ [msg]) Hrel2) as (e4 & word & H4 & Hrel4 & _);
      [by destruct cur|done| |].
    { pose proof (eq_bytes _ (er_q _ _ _ Hrel2)) as Hb3. pose proof (eq_bytes e Hq) as Hb.
      apply queue_room; [exact (er_q _ _ _ Hrel2)|]. rewrite Hb3.
      change (e_q_count e3) with (e_q_count e2). change (e_q_cap e3) with (e_q_cap e2).
      change (e_q_byte_cap e3) with (e_q_byte_cap e2). unfold np in *. rewrite Hl in *. nia. }
    exists FEC_OK, e4, (Gs ++ [mkGroup (open_id e3) (cur ++ [msg]) word]), [].
    split_and!; [done|done|cbn; lia|]. unfold absorbed. rewrite map_app, concat_app. cbn.
    by rewrite !app_nil_r, app_assoc.
  - exists FEC_OK, e3, Gs, (cur ++ [msg]). split_and!; [done|done|rewrite length_app; cbn; lia|].
    by rewrite absorbed_snoc.
Qed.

(** ** Drain *)

Lemma head_item e :
  enc_q e -> 0 < e_q_count e ->
  exists it rest, queue_slot e (e_q_head e) = Some it /\ queued e = it :: rest /\ it_len it = dg /\
    take (Z.to_nat (it_len it)) (it_datagram it) = it_datagram it.
Proof using Type.
  intros [_ Hr Hsl Hit _ _ _] Hc. destruct (contents_cons (as_ring e) Hr Hc) as (it & rest & Hq).
  fold (queued e) in Hq. pose proof Hr as (Hr1 & _ & Hr3 & _).
  pose proof (contents_lookup (as_ring e) 0 Hr Hc) as Hl. fold (queued e) in Hl. rewrite Hq in Hl.
  cbn in Hl, Hr1, Hr3. rewrite Nat.add_0_r, Nat.mod_small in Hl by done.
  rewrite Hq in Hit. apply list.Forall_cons in Hit as [Hlen _].
  assert (Hd : length (it_datagram it) = WIRE_HEADER_SIZE + sb)
    by (by eapply (list.Forall_lookup_1 _ _ _ _ Hsl)).
  exists it, rest. split; [done|]. split; [done|]. split; [done|].
  apply take_ge. rewrite Hlen, Hd. unfold datagram_size. lia.
Qed.

(** The head leaves the queue for the callback. *)
Lemma send_head_rel e Gs cur it rest :
  enc_rel e Gs cur -> queued e = it :: rest -> it_len it = dg ->
  exists e', queue_pop (enc_calls (e_calls e ++ [(it_datagram it, FEC_OUTPUT_OK)]) e) = Some e' /\
    enc_rel e' Gs cur.
Proof using Hshape.
  clear Hfits Hcode. intros [Hq Ho Hst Hep Hnx Hct Hex Hgs Hids Hsent] Hqd Hlen.
  pose proof Hq as [Hs Hr Hsl Hit Hb Hcap Hal]. pose proof dg_small as Hdg.
  destruct (take_head_spec None (as_ring e) it rest Hr Hqd) as (r' & Ht & Hr' & Hc' & Hcap' & Hcnt & Hpos).
  unfold take_head in Ht. cbn in Ht. unfold queue_pop, queue_slot.
  change (e_q_storage (enc_calls ?c ?x)) with (e_q_storage x).
  change (e_q_head (enc_calls ?c ?x)) with (e_q_head x).
  destruct (e_q_storage e !! e_q_head e) as [it'|]; [|done]. injection Ht as -> <-.
  eexists. split; [reflexivity|]. set (e' := note_queue _).
  assert (Has : as_ring e' = {| r_slots := e_q_storage e; r_capacity := e_q_cap e;
    r_head := (e_q_head e + 1) mod e_q_cap e; r_tail := (e_q_head e + e_q_count e) mod e_q_cap e;
    r_count := e_q_count e - 1 |}).
  { unfold as_ring. cbn. f_equal. rewrite Nat.Div0.add_mod_idemp_l. f_equal. cbn in Hpos. lia. }
  rewrite <- Has in Hr', Hc'. cbn in Hpos.
  assert (Hbytes : e_q_bytes e' = (Z.of_nat (e_q_count e - 1) * dg)%Z).
  { unfold e'. cbn. rewrite Hlen, Hb, u64_small by (unfold in_range; nia). nia. }
  split; [|by apply (enc_open_ext e)|done|done|done|done|done|done|done|].
  - split; try done.
    + change (Forall (fun it0 => it_len it0 = dg) (contents (as_ring e'))). rewrite Hc'.
      rewrite Hqd in Hit. by apply list.Forall_cons in Hit as [_ Hit].
    + rewrite Hbytes. change (e_q_byte_cap e') with (e_q_byte_cap e). nia.
  - change (e_calls e') with (e_calls e ++ [(it_datagram it, FEC_OUTPUT_OK)]).
    rewrite taken_snoc. cbn [bool_decide decide_rel]. rewrite bool_decide_true by done.
    unfold queued. rewrite Hc'. change (open_id e') with (open_id e). rewrite <- Hsent, Hqd.
    cbn [map]. by rewrite <- app_assoc.
Qed.

(** A call that is refused changes nothing. *)
Lemma refused_rel e Gs cur dgm answer :
  enc_rel e Gs cur -> answer <> FEC_OUTPUT_OK ->
  enc_rel (enc_calls (e_calls e ++ [(dgm, answer)]) e) Gs cur.
Proof using Type.
  intros [Hq Ho Hst Hep Hnx Hct Hex Hgs Hids Hsent] Hne.
  split; try assumption; [by destruct Hq|by apply (enc_open_ext e)|].
  change (e_calls (enc_calls ?c e)) with c. rewrite taken_snoc, bool_decide_false by done.
  by rewrite app_nil_r.
Qed.

Lemma drain_loop_rel turns budget e Gs cur :
  enc_rel e Gs cur ->
  exists status e', drain_loop out turns budget e = Some (status, e') /\ enc_rel e' Gs cur.
Proof using Hshape.
  revert budget e; induction turns as [|turns IH]; intros budget e Hrel; [by do 2 eexists|].
  cbn [drain_loop]. destruct (_ && _) eqn:Hgo; [|by do 2 eexists].
  apply andb_true_iff in Hgo as [_ Hgo]. apply Nat.ltb_lt in Hgo.
  destruct (head_item e (er_q _ _ _ Hrel) Hgo) as (it & rest & Hslot & Hqd & Hlen & Htake).
  rewrite Hslot. destruct (_ && _) eqn:Hp.
  { do 2 eexists. split; [done|]. by apply enc_rel_stats. }
  unfold call_output. rewrite Htake. destruct (out (length (e_calls e))).
  - set (e1 := if negb _ then _ else _).
    assert (exists tk, e1 = enc_tokens tk (e_last_refill_ns e) (e_last_refill_valid e)
              (enc_calls (e_calls e ++ [(it_datagram it, FEC_OUTPUT_OK)]) e)) as [tk ->].
    { unfold e1. destruct (negb _); [by eexists|]. exists (e_tokens e). by destruct e. }
    destruct (send_head_rel
      (enc_stats (stat_add (tx_stat (it_kind it)) 1 (e_stats e))
         (enc_tokens tk (e_last_refill_ns e) (e_last_refill_valid e) e)) Gs cur it rest)
      as (e2 & Hpop & Hrel2); [by apply enc_rel_stats, enc_rel_tokens|done|done|].
    match goal with |- context [queue_pop ?x] =>
      match type of Hpop with queue_pop ?y = _ => change (queue_pop x) with (queue_pop y) end end.
    rewrite Hpop. by apply IH.
  - do 2 eexists. split; [done|]. by apply enc_rel_stats, refused_rel.
  - do 2 eexists. split; [done|]. by apply enc_rel_stats, refused_rel.
Qed.

(** ** The public functions *)

Lemma refill_rel e Gs cur now : enc_rel e Gs cur -> enc_rel (refill_tokens now e) Gs cur.
Proof using Type.
  intros H. unfold refill_tokens. repeat case_match; try done; by apply enc_rel_tokens.
Qed.

Lemma update_rel e Gs cur now :
  enc_rel e Gs cur -> length cur < m ->
  exists status e' Gs' cur', fec_encoder_update codec out now e = Some (status, e') /\
    enc_rel e' Gs' cur' /\ length cur' < m /\ absorbed Gs' cur' = absorbed Gs cur.
Proof using Hshape Hfits Hcode.
  intros Hrel Hlt. apply (refill_rel _ _ _ now) in Hrel. unfold fec_encoder_update, fec_encoder_drain.
  set (e1 := refill_tokens now e) in *. destruct (flush_due now e1).
  - destruct (encode_tails_cases e1 Gs cur Hrel) as (st & e2 & Gs' & cur' & -> & Hrel2 & Habs & Hcur).
    assert (Hlt' : length cur' < m)
      by (pose proof m_lt_n; destruct Hcur as [->| ->]; [cbn; lia|done]).
    destruct (drain_loop_rel (e_q_count e2) U64_MAX e2 Gs' cur' Hrel2) as (st3 & e3 & Hd & Hrel3).
    destruct st; first [exists st3, e3, Gs', cur'; by split_and!
                       |do 2 eexists; exists Gs', cur'; by split_and!].
  - destruct (drain_loop_rel (e_q_count e1) U64_MAX e1 Gs cur Hrel) as (st3 & e3 & Hd & Hrel3).
    exists st3, e3, Gs, cur. by split_and!.
Qed.

Lemma push_rel e Gs cur data now :
  enc_rel e Gs cur -> length cur < m ->
  exists status e' Gs' cur', fec_encoder_push codec data now e = Some (status, e') /\
    enc_rel e' Gs' cur' /\ length cur' < m /\
    absorbed Gs' cur' = absorbed Gs cur ++ match data with Some msg => taken_in status msg | None => [] end.
Proof using Hshape Hfits Hcode.
  intros Hrel Hlt. pose proof (er_q _ _ _ Hrel) as Hq. unfold fec_encoder_push.
  assert (Hno : forall status, status <> FEC_OK ->
    exists st e' Gs' cur', Some (status, e) = Some (st, e') /\ enc_rel e' Gs' cur' /\ length cur' < m /\
      absorbed Gs' cur' = absorbed Gs cur ++
        match data with Some msg => taken_in st msg | None => [] end).
  { intros status Hne. exists status, e, Gs, cur. split_and!; try done.
    destruct data as [msg|]; unfold taken_in; [rewrite decide_False by done|]; by rewrite app_nil_r. }
  destruct data as [msg|]; [|by apply Hno].
  destruct (Nat.eqb_spec (length msg) 0); [by apply Hno|]. rewrite (eq_shape e Hq).
  destruct (Nat.ltb_spec sb (length msg)); [by apply Hno|].
  destruct (e_group_exhausted e) eqn:Hexh; [by apply Hno|].
  rewrite (eo_count e cur (er_open _ _ _ Hrel)), (proj2 (Nat.leb_gt m (length cur))) by done.
  by apply push_message_cases; [..|split; lia].
Qed.

(** ** Runs *)

Inductive EncOp :=
| Push (data : option (list byte)) (now_ns : Z)
| Flush
| Drain (budget : Z)
| Update (now_ns : Z).

Definition run_op (op : EncOp) (e : Enc) : option (FecStatus * Enc) :=
  match op with
  | Push data now => fec_encoder_push codec data now e
  | Flush => fec_encoder_flush codec e
  | Drain budget => fec_encoder_drain out budget e
  | Update now => fec_encoder_update codec out now e
  end.

(** The message of a push that returned [FEC_OK]. *)
Definition op_message (op : EncOp) (status : FecStatus) : list (list byte) :=
  match op with Push (Some msg) _ => taken_in status msg | _ => [] end.

(** The state after a sequence of calls, and the messages that were taken in. *)
Fixpoint run_ops (ops : list EncOp) (e : Enc) : option (list (list byte) * Enc) :=
  match ops with
  | [] => Some ([], e)
  | op :: ops =>
      match run_op op e with
      | None => None
      | Some (status, e) =>
          match run_ops ops e with
          | None => None
          | Some (msgs, e) => Some (op_message op status ++ msgs, e)
          end
      end
  end.

Lemma run_op_rel op e Gs cur :
  enc_rel e Gs cur -> length cur < m ->
  exists status e' Gs' cur', run_op op e = Some (status, e') /\
    enc_rel e' Gs' cur' /\ length cur' < m /\
    absorbed Gs' cur' = absorbed Gs cur ++ op_message op status.
Proof using Hshape Hfits Hcode.
  intros Hrel Hlt. destruct op as [data now| |budget|now]; cbn [run_op op_message].
  - by apply push_rel.
  - destruct (encode_tails_cases e Gs cur Hrel) as (st & e' & Gs' & cur' & He & Hrel' & Habs & Hcur).
    exists st, e', Gs', cur'. split_and!; try done; [|by rewrite app_nil_r].
    pose proof m_lt_n. destruct Hcur as [->| ->]; [cbn; lia|done].
  - destruct (drain_loop_rel (e_q_count e) budget e Gs cur Hrel) as (st & e' & He & Hrel').
    exists st, e', Gs, cur. split_and!; try done. by rewrite app_nil_r.
  - destruct (update_rel e Gs cur now Hrel Hlt) as (st & e' & Gs' & cur' & He & H1 & H2 & H3).
    exists st, e', Gs', cur'. split_and!; try done. by rewrite app_nil_r.
Qed.

Lemma run_ops_rel ops e Gs cur :
  enc_rel e Gs cur -> length cur < m ->
  exists msgs e' Gs' cur', run_ops ops e = Some (msgs, e') /\
    enc_rel e' Gs' cur' /\ length cur' < m /\ absorbed Gs' cur' = absorbed Gs cur ++ msgs.
Proof using Hshape Hfits Hcode.
  revert e Gs cur; induction ops as [|op ops IH]; intros e Gs cur Hrel Hlt; cbn [run_ops].
  - exists [], e, Gs, cur. rewrite app_nil_r. by split_and!.
  - destruct (run_op_rel op e Gs cur Hrel Hlt) as (st & e1 & Gs1 & cur1 & -> & Hrel1 & Hlt1 & H1).
    destruct (IH e1 Gs1 cur1 Hrel1 Hlt1) as (msgs & e2 & Gs2 & cur2 & -> & Hrel2 & Hlt2 & H2).
    exists (op_message op st ++ msgs), e2, Gs2, cur2. split_and!; try done.
    by rewrite H2, H1, app_assoc.
Qed.

End EncoderSpec.

(** * Creating FEC encoders and decoders

    What [config_complete] accepts has a well-formed shape, what [bind_rs] binds is a codec of that
    shape, and as long as the bound users are there the codec keeps it. *)

#[local] Opaque PKG_SIZE.

(** ** Configuration *)

Definition pkg_size_value : Z.of_nat PKG_SIZE = 1400%Z := eq_refl.

Lemma config_complete_ok c c' :
  config_in_range c -> config_complete c = Some c' ->
  config_in_range c' /\ shape_ok (shape_of c') /\ (2 <= cfg_output_queue_packets c')%Z /\
  (1 <= cfg_group_window c')%Z /\ (32 <= cfg_shard_size c')%Z /\
  (cfg_data_shards c' + cfg_parity_shards c' <= 255)%Z /\ cfg_codec c' = FEC_CODEC_RS.
Proof.
  intros (Hk & Hr & Hsb & Hf & Hw & Hp & Hb & Hrate & Hburst). unfold config_complete.
  destruct (bool_decide_reflect (cfg_codec c = FEC_CODEC_RS)) as [Hc|]; cbn [negb]; [|done].
  destruct (Z.ltb_spec (cfg_data_shards c) 2) as [|Hk2]; [done|].
  destruct (Z.ltb_spec (cfg_parity_shards c) 1) as [|Hr1]; [done|]. cbn [orb].
  unfold in_range in Hk, Hr, Hsb. unfold u32. rewrite uwrap_small by (unfold in_range; lia).
  rewrite Z.gtb_ltb. unfold FEC_TRANSPORT_MAX_SHARDS.
  destruct (Z.ltb_spec 255 (cfg_data_shards c + cfg_parity_shards c)) as [|Hn]; [done|].
  set (sb := or_default (cfg_shard_size c) (u16 (Z.of_nat PKG_SIZE))).
  assert (Hsbr : (0 <= sb < 2 ^ 16)%Z).
  { unfold sb, or_default. case_match; [|lia]. apply uwrap_range. lia. }
  destruct (Z.ltb_spec sb 32) as [|Hsb32]; [done|].
  rewrite uwrap_small by (unfold in_range; nia). rewrite Z.gtb_ltb. unfold UINT16_MAX.
  destruct (Z.eqb_spec (cfg_data_shards c * sb) 0) as [|_]; [done|].
  destruct (Z.ltb_spec 65535 (cfg_data_shards c * sb)) as [|Hspan]; [done|]. cbn [orb].
  unfold u64. rewrite uwrap_small by (unfold in_range; lia).
  assert (Hor : forall v d, in_range 64 v -> in_range 64 d -> in_range 64 (or_default v d))
    by (intros v d ? ?; unfold or_default; case_match; done).
  pose proof (Hor _ FEC_DEFAULT_WINDOW Hw ltac:(done)) as Hw'.
  pose proof (Hor _ FEC_DEFAULT_QUEUE_PKTS Hp ltac:(done)) as Hp'.
  destruct (Z.ltb_spec (or_default (cfg_output_queue_packets c) FEC_DEFAULT_QUEUE_PKTS)
              (cfg_parity_shards c + 1)) as [|Hpk]; [done|].
  intros [= <-]. cbn [cfg_output_queue_packets cfg_group_window cfg_shard_size cfg_data_shards
    cfg_parity_shards cfg_codec].
  split; [|split; [|split_and!; try done; try lia]].
  - unfold config_in_range. cbn [cfg_data_shards cfg_parity_shards cfg_shard_size cfg_flush_timeout_ns
      cfg_group_window cfg_output_queue_packets cfg_output_queue_bytes cfg_wire_rate_bps
      cfg_wire_burst_bytes]. split_and!; try assumption.
    apply Hor; [assumption|]. apply uwrap_range. lia.
  - unfold shape_of, u16. cbn [cfg_data_shards cfg_parity_shards cfg_shard_size].
    rewrite !uwrap_small by (unfold in_range; lia).
    split; cbn; unfold UINT16_MAX; lia.
  - unfold or_default. unfold in_range in Hw. destruct (Z.eqb_spec (cfg_group_window c) 0); [done|lia].
Qed.

(** ** Binding *)

(** The counters of the backend: a positive number of users keeps the geometry. *)
Definition backend_ok (env : RsEnv) (b : FecBackend) (s : RsState) : Prop :=
  rs_inv s /\ (0 <= be_users b)%Z /\
  ((0 < be_users b)%Z ->
   rs_bound (Z.to_nat (be_shard b)) (Z.to_nat (be_k b)) (Z.to_nat (be_r b)) s /\ env_once env = true).

Lemma bind_rs_ok env c b s b' s' :
  config_in_range c -> cfg_shard_size c <> 0%Z -> rs_inv s -> bind_rs env c b s = (true, b', s') ->
  rs_bound (Z.to_nat (cfg_shard_size c)) (Z.to_nat (cfg_data_shards c))
    (Z.to_nat (cfg_parity_shards c)) s' /\ env_once env = true /\
  b' = mkFecBackend (be_users b + 1) (cfg_data_shards c) (cfg_parity_shards c) (cfg_shard_size c).
Proof.
  intros (Hk & Hr & Hsb & _) Hne Hi. unfold bind_rs. destruct (_ && _); [done|].
  destruct (RsCodec_set_params_ex _ _ _ _ _) as [rc s1] eqn:Hset.
  destruct (Z.eqb_spec rc 0) as [->|]; cbn [negb]; [|done]. unfold in_range in *.
  pose proof Hset as Hi1. apply rs_set_params_inv in Hi1; [|lia|lia|lia|done].
  apply rs_set_params_zero in Hset as (He & Ho & Hm & Hgeo); [|lia|lia|lia|done].
  rewrite (proj2 (Z.eqb_neq _ 0)) in Hgeo by done.
  unfold RsCodec_get_params, Codec_output_block_size, query. cbn [vt_output_block_size rs_vtable].
  unfold rs_query. rewrite !rs_ready_ready by done. destruct (_ && _); [|done].
  intros [= <- <-]. by split_and!.
Qed.

Lemma bind_rs_refused env c b s b' s' :
  bind_rs env c b s = (false, b', s') -> b' = b.
Proof.
  unfold bind_rs. destruct (_ && _); [by intros [= <- _]|].
  destruct (RsCodec_set_params_ex _ _ _ _ _) as [rc s1]. destruct (negb _); [by intros [= <- _]|].
  destruct (RsCodec_get_params _ _) as [[k r] s2]. destruct (Codec_output_block_size _ _) as [bs s3].
  destruct (_ && _); by intros [= <- _].
Qed.

Lemma query_state env f s : env_once env = true -> once_done s = true -> snd (rs_query env f s) = s.
Proof. intros He Ho. unfold rs_query. by rewrite rs_ready_ready. Qed.

(** While there are users, a call of [bind_rs] does not change the codec. *)
Lemma bind_rs_frozen env c b s ok b' s' :
  config_in_range c -> cfg_shard_size c <> 0%Z -> backend_ok env b s -> (0 < be_users b)%Z ->
  bind_rs env c b s = (ok, b', s') -> s' = s.
Proof.
  intros (Hk & Hr & Hsb & _) Hne (Hi & Hu & Hb) Hpos. destruct (Hb Hpos) as [(_ & Hm & Hgeo) He].
  destruct (inv_ready s Hi Hm) as [Ho Hp]. unfold in_range in *. unfold bind_rs.
  rewrite Z.gtb_ltb, (proj2 (Z.ltb_lt 0 _)) by done. cbn [andb].
  destruct (_ || _) eqn:Hg; [by intros [= _ _ <-]|].
  rewrite !orb_false_iff, !negb_false_iff, !Z.eqb_eq in Hg. destruct Hg as [[Ek Er] Es].
  assert (Hset : exists rc, RsCodec_set_params_ex env (cfg_data_shards c) (cfg_parity_shards c)
                              (cfg_shard_size c) s = (rc, s)).
  { unfold RsCodec_set_params_ex. rewrite (proj2 (Z.eqb_neq _ 0)) by done.
    destruct (params_valid _ _ _); cbn [negb]; [|by eexists].
    rewrite rs_ready_ready by done. cbn [negb]. rewrite Hgeo, Hm, (pub_initialized s Hp).
    cbn [geo_k geo_r geo_shard_bytes]. rewrite Ek, Er, Es, !Z2Nat.id, !Z.eqb_refl by lia. by eexists. }
  destruct Hset as [rc ->]. destruct (negb _); [by intros [= _ _ <-]|].
  unfold RsCodec_get_params, Codec_output_block_size, query. cbn [vt_output_block_size rs_vtable].
  unfold rs_query. rewrite !rs_ready_ready by done. destruct (_ && _); by intros [= _ _ <-].
Qed.

Lemma bind_rs_inv env c b s ok b' s' :
  config_in_range c -> rs_inv s -> bind_rs env c b s = (ok, b', s') -> rs_inv s'.
Proof.
  intros (Hk & Hr & Hsb & _) Hi. unfold bind_rs, in_range in *.
  destruct (_ && _); [by intros [= _ _ <-]|].
  destruct (RsCodec_set_params_ex _ _ _ _ _) as [rc s1] eqn:Hset.
  pose proof Hset as Hi1. apply rs_set_params_inv in Hi1; [|lia|lia|lia|done].
  destruct (negb _); [by intros [= _ _ <-]|].
  unfold RsCodec_get_params, Codec_output_block_size, query. cbn [vt_output_block_size rs_vtable].
  unfold rs_query. destruct (rs_ready env s1) as [b2 s2] eqn:H2.
  destruct (rs_ready env s2) as [b3 s3] eqn:H3.
  assert (rs_inv s3) by (eapply rs_ready_inv; [exact H3|]; by eapply rs_ready_inv).
  destruct (_ && _); by intros [= _ _ <-].
Qed.

(** Binding and unbinding keep the promise to the users. *)
Lemma bind_rs_backend env c b s ok b' s' :
  config_in_range c -> cfg_shard_size c <> 0%Z -> backend_ok env b s ->
  bind_rs env c b s = (ok, b', s') -> backend_ok env b' s'.
Proof.
  intros Hc Hne Hok Hbind. pose proof Hok as (Hi & Hu & Hb).
  pose proof (bind_rs_inv _ _ _ _ _ _ _ Hc Hi Hbind) as Hi'. destruct ok.
  - destruct (bind_rs_ok _ _ _ _ _ _ Hc Hne Hi Hbind) as (Hbd & He & ->).
    split; [done|]. split; [cbn; lia|]. done.
  - pose proof (bind_rs_refused _ _ _ _ _ _ Hbind) as ->. split; [done|]. split; [done|].
    intros Hpos. rewrite (bind_rs_frozen _ _ _ _ _ _ _ Hc Hne Hok Hpos Hbind). by apply Hb.
Qed.

Lemma unbind_rs_backend env b s : backend_ok env b s -> backend_ok env (unbind_rs b) s.
Proof.
  intros (Hi & Hu & Hb). unfold unbind_rs. rewrite Z.gtb_ltb. destruct (Z.ltb_spec 0 (be_users b)).
  - split; [done|]. split; [cbn; lia|]. intros _. by apply Hb.
  - by split.
Qed.

(** ** The first state of an encoder *)

Lemma encoder_start {St} (c : FecTransportConfig) (st : St) epoch
    (ok : St -> Prop) (code : list byte -> Prop) `{HostOrder} :
  config_in_range c -> shape_ok (shape_of c) -> (2 <= cfg_output_queue_packets c)%Z -> ok st ->
  (cfg_output_queue_packets c * datagram_size (shape_of c) < 2 ^ 64)%Z -> in_range 32 epoch ->
  enc_rel (shape_of c) ok code (fec_encoder_reset epoch (fec_encoder_new c st)) [] [].
Proof.
  intros (_ & _ & Hsbr & _ & _ & Hpr & Hbr & _) Hs Hp Hst Hal Hep. set (sh := shape_of c) in *.
  pose proof (m_lt_n sh Hs) as (_ & Hmn & _).
  assert (Hdg : Z.to_nat (Z.of_nat WIRE_HEADER_SIZE + cfg_shard_size c)%Z
                = WIRE_HEADER_SIZE + sh_shard_size sh).
  { unfold sh, shape_of, in_range in *. cbn [sh_shard_size]. lia. }
  assert (Hblk : forall i, i < sh_n sh -> shard_bytes (sh_shard_size sh)
            (e_block (fec_encoder_reset epoch (fec_encoder_new c st))) i
            = replicate (sh_shard_size sh) x00).
  { intros i Hi. cbn. unfold zero_block. cbn. rewrite length_replicate. by apply shard_replicate. }
  split; try done.
  - split; try done.
    + unfold ring_ok, as_ring. cbn. rewrite length_replicate. lia.
    + cbn. apply Forall_replicate. unfold blank_item. cbn [it_datagram]. by rewrite length_replicate.
    + cbn. unfold in_range in Hpr. rewrite Z2Nat.id by lia. exact Hal.
  - split; try done.
    + cbn. lia.
    + cbn. unfold zero_lengths. cbn. rewrite length_replicate. f_equal. fold sh. lia.
    + cbn. unfold zero_block. cbn. by rewrite !length_replicate.
    + intros i Hi. apply Hblk. lia.
Qed.
