(* ===== verification/FecDecoderEmit.v ===== *)
(** * How the FEC decoder hands out messages

    The three emission loops of the decoder differ only in when they skip a message and when they
    stop.  This file gives them a common form and describes what any of them does to the decoder:
    the calls it makes, the bits it sets, and that nothing else changes. *)

From Stdlib Require Import Strings.Byte.
From S2P Require Import Prelude WireHeader Gf256 ByteVec RsEncode Codec CodecSpec RsCodec.
From S2P Require Import FecTransport FecEncoder FecDecoder FecGroups.

(** ** Slots *)

Record slot_ok (sh : FecShape) (g : FecDecodeGroup) : Prop := {
  sl_present : length (g_present g) = 32;
  sl_delivered : length (g_delivered g) = 32;
  sl_lengths : length (g_lengths g) = sh_message_shards sh;
  sl_block : length (g_block g) = sh_n sh * sh_shard_size sh;
  sl_count : g_data_count g <= sh_message_shards sh }.

Lemma blank_slot_ok sh : slot_ok sh (blank_group sh).
Proof. split; cbn [blank_group g_present g_delivered g_lengths g_block g_data_count];
  rewrite ?length_replicate; try done; lia. Qed.

(** Setting a list of bits. *)
Lemma present_set_many bits l j :
  length bits = 32 -> Forall (fun i => i < 256) l ->
  codec_present_get (foldl codec_present_set bits l) j = bool_decide (j ∈ l) || codec_present_get bits j.
Proof.
  revert bits; induction l as [|i l IH]; intros bits Hb Hl; cbn [foldl]; [done|].
  apply list.Forall_cons in Hl as [Hi Hl]. rewrite IH; [|by rewrite present_set_length|done].
  rewrite present_get_set by (rewrite Hb; apply Nat.Div0.div_lt_upper_bound; lia).
  destruct (Nat.eqb_spec i j) as [->|Hne].
  - rewrite orb_true_r. symmetry. apply orb_true_iff. left. apply bool_decide_eq_true. by left.
  - cbn [orb]. f_equal. apply bool_decide_ext. rewrite elem_of_cons. naive_solver.
Qed.

Lemma present_set_many_length bits l : length (foldl codec_present_set bits l) = length bits.
Proof.
  revert bits; induction l as [|i l IH]; intros bits; cbn [foldl]; [done|].
  by rewrite IH, present_set_length.
Qed.

(** ** Reading and writing groups *)

Section Access.
Context {St : Type}.
Implicit Types d : FecDecoder St.

Lemma group_at_lookup d i g : d_groups d !! i = Some g -> group_at d i = g.
Proof. intros H. unfold group_at. rewrite nth_lookup, H. done. Qed.

Lemma lookup_group_at d i : i < length (d_groups d) -> d_groups d !! i = Some (group_at d i).
Proof.
  intros H. unfold group_at. rewrite nth_lookup. destruct (lookup_lt_is_Some_2 _ _ H) as [g ->]. done.
Qed.

Lemma group_at_set_eq d i g : i < length (d_groups d) -> group_at (set_group i g d) i = g.
Proof. intros H. apply group_at_lookup. cbn. by apply list_lookup_insert_eq. Qed.

Lemma group_at_set_ne d i j g : i <> j -> group_at (set_group i g d) j = group_at d j.
Proof.
  intros H. unfold group_at, set_group. cbn. by rewrite !nth_lookup, list_lookup_insert_ne.
Qed.

(** All slots satisfy [P]. *)
Definition slots (P : FecDecodeGroup -> Prop) d : Prop := Forall P (d_groups d).

Lemma slots_at P d i : slots P d -> i < length (d_groups d) -> P (group_at d i).
Proof. intros H Hi. eapply (list.Forall_lookup_1 _ _ _ _ H). by apply lookup_group_at. Qed.

Lemma slots_set P d i g : slots P d -> P g -> slots P (set_group i g d).
Proof. intros H Hg. by apply Forall_insert. Qed.

End Access.

(** ** The effect of an emission *)

Section Emission.
Context `{host : HostOrder} {St : Type} (codec : option (CodecVTable St)).
Context (out : nat -> FecOutputStatus) (sh : FecShape).

Abbreviation Dec := (FecDecoder St).

(** The message an emission takes from a group. *)
Definition msg_at (g : FecDecodeGroup) (idx : nat) : list byte :=
  take (Z.to_nat (length_at g idx)) (drop (idx * sh_shard_size sh) (g_block g)).

(** It lies inside the block. *)
Definition readable (g : FecDecodeGroup) (idx : nat) : Prop :=
  idx * sh_shard_size sh + Z.to_nat (length_at g idx) <= length (g_block g).

Lemma message_readable g idx : readable g idx -> message_bytes sh g idx (length_at g idx) = Some (msg_at g idx).
Proof using Type. intros H. unfold message_bytes, readable in *. by rewrite (proj2 (Nat.leb_le _ _) H). Qed.

(** A group after the indices [l] were delivered. *)
Definition deliver (b : bool) (l : list nat) (g : FecDecodeGroup) : FecDecodeGroup :=
  g_blocked b (g_set_delivered (foldl codec_present_set (g_delivered g) l) g).

(** [new] lists the indices that were passed to the callback, with the answers. *)
Record emits (i : nat) (d d' : Dec) (new : list (Call nat)) : Prop := {
  em_groups : exists b,
    d_groups d' = <[i := deliver b (taken new) (group_at d i)]> (d_groups d) /\
    (b = true -> g_emit_blocked (group_at d i) = true \/ exists idx, (idx, FEC_OUTPUT_BLOCKED) ∈ new);
  em_calls : d_calls d' = d_calls d ++ map (fun c => (msg_at (group_at d i) (fst c), snd c)) new;
  em_frame : d' = mkFecDecoder (d_config d) (d_shape d) (d_epoch d) (d_highest_group_id d)
                    (d_highest_group_valid d) (d_groups d') (d_stats d') (d_codec_state d) (d_calls d');
  em_fresh : Forall (fun c => delivered (group_at d i) (fst c) = false) new;
  em_nodup : NoDup (map fst new);
  em_small : Forall (fun c => fst c < 256) new;
  em_answer j c : new !! j = Some c -> snd c = out (length (d_calls d) + j) }.

Lemma deliver_nil g : deliver (g_emit_blocked g) [] g = g.
Proof using Type. by destruct g. Qed.

Lemma delivered_deliver b l g j :
  length (g_delivered g) = 32 -> Forall (fun x => x < 256) l ->
  delivered (deliver b l g) j = bool_decide (j ∈ l) || delivered g j.
Proof using Type. intros Hg Hl. unfold delivered, deliver. by apply present_set_many. Qed.

Lemma emits_refl i d : emits i d d [].
Proof using Type.
  split; try done; [|by rewrite app_nil_r|by destruct d|constructor].
  exists (g_emit_blocked (group_at d i)). split; [|auto]. cbn. rewrite deliver_nil.
  destruct (decide (i < length (d_groups d))).
  - rewrite list_insert_id; [done|]. by apply lookup_group_at.
  - by rewrite list_insert_ge by lia.
Qed.

Lemma emits_stats i d d' new stats : emits i d d' new -> emits i d (dec_stats stats d') new.
Proof using Type. intros [? ? Hf ? ? ? ?]. split; try done. by rewrite Hf. Qed.

(** The group after the emission. *)
Lemma emits_at i d d' new :
  emits i d d' new -> i < length (d_groups d) ->
  exists b, group_at d' i = deliver b (taken new) (group_at d i) /\
    (b = true -> g_emit_blocked (group_at d i) = true \/ exists idx, (idx, FEC_OUTPUT_BLOCKED) ∈ new).
Proof using Type.
  intros [(b & Hg & Hb) _ _ _ _ _ _] Hi. exists b. split; [|done]. apply group_at_lookup. rewrite Hg.
  by apply list_lookup_insert_eq.
Qed.

Lemma emits_length i d d' new : emits i d d' new -> length (d_groups d') = length (d_groups d).
Proof using Type. intros [(b & Hg & _) _ _ _ _ _ _]. rewrite Hg. apply length_insert. Qed.

Lemma emits_other i d d' new j : emits i d d' new -> i <> j -> group_at d' j = group_at d j.
Proof using Type.
  intros [(b & Hg & _) _ Hf _ _ _ _] Hne. unfold group_at. rewrite Hg, !nth_lookup.
  rewrite list_lookup_insert_ne by done. by rewrite Hf.
Qed.

(** One call followed by an emission. *)
Lemma emits_cons i d d1 d2 idx new :
  i < length (d_groups d) -> length (g_delivered (group_at d i)) = 32 -> idx < 256 ->
  emits i d d1 [(idx, FEC_OUTPUT_OK)] -> emits i d1 d2 new -> emits i d d2 ((idx, FEC_OUTPUT_OK) :: new).
Proof using Type.
  intros Hi Hd Hidx H1 H2. destruct (emits_at _ _ _ _ H1 Hi) as (b1 & Hg1 & Hb1).
  pose proof H1 as [_ Hc1 Hf1 Hfr1 _ _ Ha1].
  pose proof H2 as [(b2 & Hg2 & Hb2) Hc2 Hf2 Hfr2 Hn2 Hsm2 Ha2].
  assert (Hmsg : forall x, msg_at (group_at d1 i) x = msg_at (group_at d i) x)
    by (intros x; by rewrite Hg1).
  assert (Hdl : forall x, delivered (group_at d1 i) x = (idx =? x) || delivered (group_at d i) x).
  { intros x. rewrite Hg1. change (taken [(idx, FEC_OUTPUT_OK)]) with [idx].
    rewrite delivered_deliver by (done || by apply Forall_singleton). f_equal.
    destruct (Nat.eqb_spec idx x) as [->|]; [apply bool_decide_true; by left|].
    apply bool_decide_false. rewrite list_elem_of_singleton. naive_solver. }
  split.
  - exists b2. rewrite Hg2, Hg1. destruct (em_groups _ _ _ _ H1) as (b1' & Hg1' & _). rewrite Hg1'.
    rewrite list_insert_insert_eq. split; [by destruct (group_at d i)|]. intros Hb.
    destruct (Hb2 Hb) as [Hb'|[x Hx]]; [|right; exists x; by right].
    rewrite Hg1 in Hb'. cbn in Hb'. destruct (Hb1 Hb') as [?|[x Hx]]; [by left|].
    apply list_elem_of_singleton in Hx. done.
  - rewrite Hc2, Hc1, <- app_assoc. cbn [map app fst snd]. do 2 f_equal. apply map_ext.
    intros [x a]. cbn. by rewrite Hmsg.
  - rewrite Hf2 at 1. by rewrite Hf1.
  - constructor.
    + by apply list.Forall_cons in Hfr1 as [? _].
    + eapply list.Forall_impl; [exact Hfr2|]. intros [x a] Hx. cbn in *. rewrite Hdl in Hx.
      by apply orb_false_iff in Hx as [_ Hx].
  - cbn [map fst]. constructor; [|done]. intros Hin. apply list_elem_of_In, in_map_iff in Hin as ([x a] & Hx & Hin).
    cbn in Hx. subst x. apply list_elem_of_In in Hin. rewrite list.Forall_forall in Hfr2.
    specialize (Hfr2 _ Hin). cbn in Hfr2. by rewrite Hdl, Nat.eqb_refl in Hfr2.
  - by constructor.
  - intros [|j] c Hc; cbn in Hc.
    + injection Hc as <-. by rewrite (Ha1 0 (idx, FEC_OUTPUT_OK) eq_refl).
    + rewrite (Ha2 j c Hc), Hc1, length_app. cbn. f_equal. lia.
Qed.

(** The bits after an emission. *)
Lemma emits_delivered i d d' new x :
  emits i d d' new -> i < length (d_groups d) -> length (g_delivered (group_at d i)) = 32 ->
  delivered (group_at d' i) x = bool_decide (x ∈ taken new) || delivered (group_at d i) x.
Proof using Type.
  intros H Hi Hd. destruct (emits_at _ _ _ _ H Hi) as (b & -> & _). apply delivered_deliver; [done|].
  apply list.Forall_forall. intros y Hy. apply taken_incl, list_elem_of_In, in_map_iff in Hy
    as (c & <- & Hc). apply list_elem_of_In in Hc. pose proof (em_small _ _ _ _ H) as Hs.
  rewrite list.Forall_forall in Hs. by apply Hs.
Qed.

(** ** One message *)

Lemma emits_call i d idx a b :
  i < length (d_groups d) -> idx < 256 -> delivered (group_at d i) idx = false ->
  a = out (length (d_calls d)) ->
  (b = true -> g_emit_blocked (group_at d i) = true \/ a = FEC_OUTPUT_BLOCKED) ->
  emits i d (set_group i (deliver b (taken [(idx, a)]) (group_at d i))
               (dec_calls (d_calls d ++ [(msg_at (group_at d i) idx, a)]) d)) [(idx, a)].
Proof using Type.
  intros Hi Hidx Hdl Ha Hb. split; try done.
  - exists b. split; [done|]. intros H. destruct (Hb H) as [?| ->]; [by left|right].
    exists idx. by left.
  - by apply Forall_singleton.
  - cbn. apply NoDup_singleton.
  - by apply Forall_singleton.
  - intros [|j] c Hc; [|done]. injection Hc as <-. cbn. by rewrite Nat.add_0_r.
Qed.

(** [emit_message] makes one call; when the callback takes the message the loop goes on. *)
Lemma emit_message_spec i idx next d :
  d_shape d = sh -> i < length (d_groups d) -> length (g_delivered (group_at d i)) = 32 -> idx < 256 ->
  delivered (group_at d i) idx = false -> length_at (group_at d i) idx <> 0%Z -> readable (group_at d i) idx ->
  exists d', emits i d d' [(idx, out (length (d_calls d)))] /\
    emit_message out i idx (length_at (group_at d i) idx) next d =
    match out (length (d_calls d)) with
    | FEC_OUTPUT_OK => next d'
    | FEC_OUTPUT_BLOCKED => Some (FEC_OK, d')
    | FEC_OUTPUT_ERROR => Some (FEC_ERR_DOWNSTREAM, d')
    end.
Proof using Type.
  intros Hs Hi Hd Hidx Hdl Hlen Hrd. unfold emit_message, emit_record, call_output.
  rewrite (proj2 (Z.eqb_neq _ 0)), Hdl, Hs, (message_readable _ _ Hrd) by done.
  set (g := group_at d i) in *.
  destruct (out (length (d_calls d))) eqn:Ho.
  - set (d1 := upd_group i _ _).
    exists (set_group i (deliver false (taken [(idx, FEC_OUTPUT_OK)]) g)
               (dec_calls (d_calls d ++ [(msg_at g idx, FEC_OUTPUT_OK)]) d)).
    split; [by apply emits_call|]. cbn [if_ok].
    change d1 with (set_group i (deliver false (taken [(idx, FEC_OUTPUT_OK)]) g)
               (dec_calls (d_calls d ++ [(msg_at g idx, FEC_OUTPUT_OK)]) d)).
    rewrite group_at_set_eq by done. change (taken [(idx, FEC_OUTPUT_OK)]) with [idx].
    rewrite delivered_deliver by (done || by apply Forall_singleton).
    by rewrite bool_decide_true by (by left).
  - exists (dec_stats (stat_add blocked_count 1 (d_stats d))
             (set_group i (deliver true (taken [(idx, FEC_OUTPUT_BLOCKED)]) g)
               (dec_calls (d_calls d ++ [(msg_at g idx, FEC_OUTPUT_BLOCKED)]) d))).
    split; [apply emits_stats, emits_call; auto|].
    set (d1 := upd_group i _ _).
    assert (Hd1 : group_at d1 i = g_blocked true g)
      by (unfold d1, upd_group; by rewrite group_at_set_eq by done).
    cbn [if_ok]. rewrite Hd1. change (delivered (g_blocked true g) idx) with (delivered g idx).
    by rewrite Hdl.
  - exists (dec_stats (stat_add downstream_callback_errors 1 (d_stats d))
             (set_group i (deliver (g_emit_blocked g) (taken [(idx, FEC_OUTPUT_ERROR)]) g)
               (dec_calls (d_calls d ++ [(msg_at g idx, FEC_OUTPUT_ERROR)]) d))).
    split; [apply emits_stats, emits_call; auto|].
    cbn [if_ok]. do 2 f_equal. unfold set_group, dec_groups, dec_count, dec_add. cbn.
    change (deliver (g_emit_blocked g) (taken [(idx, FEC_OUTPUT_ERROR)]) g)
      with (deliver (g_emit_blocked g) [] g).
    rewrite deliver_nil, list_insert_id by (by apply lookup_group_at). by destruct d.
Qed.

(** ** The loops *)

Inductive action := Skip | Stop (status : FecStatus) | Emit.

(** What a loop does with a message, looking at the group only. *)
Fixpoint emit_loop (act : FecDecodeGroup -> nat -> action) (i : nat) (indices : list nat) (d : Dec) :
    option (FecStatus * Dec) :=
  match indices with
  | [] => Some (FEC_OK, d)
  | index :: rest =>
      match act (group_at d i) index with
      | Skip => emit_loop act i rest d
      | Stop status => Some (status, d)
      | Emit => emit_message out i index (length_at (group_at d i) index) (emit_loop act i rest) d
      end
  end.

Definition bad_len (len : Z) : bool := (len =? 0)%Z || (len >? Z.of_nat (sh_shard_size sh))%Z.

Definition act_contiguous (g : FecDecodeGroup) (index : nat) : action :=
  if delivered g index then Skip
  else if negb (present g index) then Stop FEC_OK
  else if bad_len (length_at g index) then Stop FEC_ERR_METADATA
  else Emit.

Definition act_available (g : FecDecodeGroup) (index : nat) : action :=
  if negb (present g index) || delivered g index then Skip
  else if bad_len (length_at g index) then Skip
  else Emit.

Definition act_all (g : FecDecodeGroup) (index : nat) : action :=
  if delivered g index then Skip else Emit.

(** Loops that agree on states of the same shape agree on their continuations. *)
Lemma emit_message_ext i idx len (k1 k2 : Dec -> option (FecStatus * Dec)) d :
  (forall d', d_shape d' = d_shape d -> k1 d' = k2 d') ->
  emit_message out i idx len k1 d = emit_message out i idx len k2 d.
Proof using Type.
  intros Hk. unfold emit_message, emit_record, call_output.
  destruct (_ =? 0)%Z; [done|]. destruct (delivered _ _) eqn:E.
  - cbn [if_ok]. rewrite E. by apply Hk.
  - destruct (message_bytes _ _ _ _); [|done]. destruct (out _); cbn [if_ok]; try done; case_match; try done; by apply Hk.
Qed.

Lemma contiguous_loop i indices d :
  d_shape d = sh -> emit_contiguous_loop out i indices d = emit_loop act_contiguous i indices d.
Proof using Type.
  revert d; induction indices as [|x l IH]; intros d Hs; [done|]. cbn [emit_contiguous_loop emit_loop].
  unfold act_contiguous at 1, bad_length, bad_len. rewrite Hs.
  destruct (delivered _ _); [by apply IH|]. destruct (negb _); [done|]. destruct (_ || _); [done|].
  apply emit_message_ext. intros d' Hd'. apply IH. by rewrite Hd'.
Qed.

Lemma available_loop i indices d :
  d_shape d = sh -> emit_available_loop out i indices d = emit_loop act_available i indices d.
Proof using Type.
  revert d; induction indices as [|x l IH]; intros d Hs; [done|]. cbn [emit_available_loop emit_loop].
  unfold act_available at 1, bad_length, bad_len. rewrite Hs.
  destruct (_ || delivered _ _); [by apply IH|]. destruct (_ || _); [by apply IH|].
  apply emit_message_ext. intros d' Hd'. apply IH. by rewrite Hd'.
Qed.

Lemma all_loop i indices d :
  d_shape d = sh -> emit_all_loop out i indices d = emit_loop act_all i indices d.
Proof using Type.
  revert d; induction indices as [|x l IH]; intros d Hs; [done|]. cbn [emit_all_loop emit_loop].
  unfold act_all at 1. destruct (delivered _ _); [by apply IH|].
  apply emit_message_ext. intros d' Hd'. apply IH. by rewrite Hd'.
Qed.

Lemma deliver_twice b1 l1 b2 l2 g : deliver b2 l2 (deliver b1 l1 g) = deliver b2 (l1 ++ l2) g.
Proof using Type. destruct g. unfold deliver. cbn. by rewrite foldl_app. Qed.

Lemma deliver_length b l g : length (g_delivered (deliver b l g)) = length (g_delivered g).
Proof using Type. apply present_set_many_length. Qed.

(** Whatever the callback answers, a loop makes some calls for messages it may emit. *)
Lemma emit_loop_emits act (P : nat -> Prop) i indices d :
  d_shape d = sh -> i < length (d_groups d) -> length (g_delivered (group_at d i)) = 32 ->
  Forall (fun x => x < 256) indices ->
  (forall b l idx, idx ∈ indices -> act (deliver b l (group_at d i)) idx = Emit ->
     P idx /\ delivered (deliver b l (group_at d i)) idx = false) ->
  (forall idx, idx ∈ indices -> P idx -> readable (group_at d i) idx) ->
  exists st d' new, emit_loop act i indices d = Some (st, d') /\ emits i d d' new /\
    Forall (fun c => fst c ∈ indices /\ P (fst c)) new.
Proof using Type.
  intros Hs Hi Hd Hall. revert d Hs Hi Hd.
  induction Hall as [|x rest Hx Hall IH]; intros d Hs Hi Hd HP HR; cbn [emit_loop].
  { exists FEC_OK, d, []. split; [done|]. split; [apply emits_refl|done]. }
  assert (Hin : forall new, Forall (fun c : Call nat => fst c ∈ rest /\ P (fst c)) new ->
                Forall (fun c => fst c ∈ x :: rest /\ P (fst c)) new).
  { intros new Hn. eapply list.Forall_impl; [exact Hn|]. intros c [H1 H2]. split; [by right|done]. }
  destruct (act (group_at d i) x) as [|status|] eqn:Ha.
  - destruct (IH d Hs Hi Hd) as (st & d' & new & E & Hem & Hn);
      [intros b l idx Hx'; apply HP; by right|intros idx Hx'; apply HR; by right|].
    exists st, d', new. split; [done|]. split; [done|by apply Hin].
  - exists status, d, []. split; [done|]. split; [apply emits_refl|done].
  - pose proof (HP (g_emit_blocked (group_at d i)) [] x) as H0. rewrite deliver_nil in H0.
    destruct (H0 ltac:(by left) Ha) as [HPx Hdx].
    destruct (decide (length_at (group_at d i) x = 0%Z)) as [E|Hlen].
    { unfold emit_message, emit_record. rewrite E. cbn. exists FEC_ERR_METADATA, d, [].
      split; [done|]. split; [apply emits_refl|done]. }
    destruct (emit_message_spec i x (emit_loop act i rest) d Hs Hi Hd Hx Hdx Hlen) as (d1 & Hem1 & ->);
      [apply HR; [by left|done]|].
    destruct (emits_at _ _ _ _ Hem1 Hi) as (b1 & Hg1 & _).
    destruct (out (length (d_calls d))) eqn:Ho.
    + destruct (IH d1) as (st & d2 & new & E & Hem & Hn).
      * rewrite (em_frame _ _ _ _ Hem1). done.
      * by rewrite (emits_length _ _ _ _ Hem1).
      * by rewrite Hg1, deliver_length.
      * intros b l idx Hx'. rewrite Hg1, deliver_twice. apply HP. by right.
      * intros idx Hx' Hp. unfold readable, length_at. rewrite Hg1. apply HR; [by right|done].
      * exists st, d2, ((x, FEC_OUTPUT_OK) :: new). split; [done|]. split; [by apply (emits_cons i d d1)|].
        constructor; [split; [by left|done]|by apply Hin].
    + exists FEC_OK, d1, [(x, FEC_OUTPUT_BLOCKED)]. split; [done|]. split; [done|]. apply Forall_singleton. split; [by left|done].
    + exists FEC_ERR_DOWNSTREAM, d1, [(x, FEC_OUTPUT_ERROR)]. split; [done|]. split; [done|]. apply Forall_singleton. split; [by left|done].
Qed.

(** With a callback that takes everything, a loop delivers the messages it need not stop at. *)
Lemma emit_loop_delivers act i l1 l2 d :
  (forall j, out j = FEC_OUTPUT_OK) ->
  d_shape d = sh -> i < length (d_groups d) -> length (g_delivered (group_at d i)) = 32 ->
  Forall (fun x => x < 256 /\ length_at (group_at d i) x <> 0%Z /\ readable (group_at d i) x /\ forall b l,
    act (deliver b l (group_at d i)) x =
    if delivered (deliver b l (group_at d i)) x then Skip else Emit) l1 ->
  exists new d1, emits i d d1 new /\ emit_loop act i (l1 ++ l2) d = emit_loop act i l2 d1 /\
    Forall (fun x => delivered (group_at d1 i) x = true) l1.
Proof using Type.
  intros Hout Hs Hi Hd Hall. revert d Hs Hi Hd Hall.
  induction l1 as [|x l1 IH]; intros d Hs Hi Hd Hall; cbn [app].
  { exists [], d. split; [apply emits_refl|done]. }
  apply list.Forall_cons in Hall as [(Hx & Hlen & Hrd & Hact) Hall]. cbn [emit_loop].
  pose proof (Hact (g_emit_blocked (group_at d i)) []) as Ha. rewrite deliver_nil in Ha. rewrite Ha.
  destruct (delivered (group_at d i) x) eqn:Hdx.
  - destruct (IH d Hs Hi Hd Hall) as (new & d1 & Hem & -> & Hl). exists new, d1.
    split; [done|]. split; [done|]. constructor; [|done].
    by rewrite (emits_delivered _ _ _ _ _ Hem), Hdx, orb_true_r.
  - destruct (emit_message_spec i x (emit_loop act i (l1 ++ l2)) d Hs Hi Hd Hx Hdx Hlen Hrd)
      as (d1 & Hem1 & ->). rewrite Hout in *.
    destruct (emits_at _ _ _ _ Hem1 Hi) as (b1 & Hg1 & _).
    assert (Hi1 : i < length (d_groups d1)) by (by rewrite (emits_length _ _ _ _ Hem1)).
    assert (Hd1 : length (g_delivered (group_at d1 i)) = 32) by (by rewrite Hg1, deliver_length).
    destruct (IH d1) as (new & d2 & Hem & -> & Hl); [|done|done| |].
    + rewrite (em_frame _ _ _ _ Hem1). done.
    + eapply list.Forall_impl; [exact Hall|]. intros y (Hy1 & Hy2 & Hyr & Hy3). unfold readable, length_at. rewrite Hg1.
      split; [done|]. split; [done|]. split; [done|]. intros b l. rewrite deliver_twice. apply Hy3.
    + exists ((x, FEC_OUTPUT_OK) :: new), d2. split; [by apply (emits_cons i d d1)|].
      split; [done|]. constructor; [|done]. rewrite (emits_delivered _ _ _ _ _ Hem) by done.
      rewrite (emits_delivered _ _ _ _ _ Hem1) by done.
      rewrite (bool_decide_true (x ∈ taken [(x, FEC_OUTPUT_OK)])) by (by left).
      by rewrite orb_true_r.
Qed.

End Emission.
