(* ===== verification/FecDecoderInv.v ===== *)
(** * Invariants of the FEC decoder

    An invariant of the decoder is a predicate on one slot of its window with laws for the moves
    of a slot: opening, storing a shard, learning the metadata, recovering, delivering, releasing,
    completing.  [SlotInv] states the laws; the lemmas show that every public function keeps such
    a predicate on all slots, and that it always returns.  FecDecoderSpec has two instances: one
    for arbitrary input, one for the datagrams of an encoder. *)

From Stdlib Require Import Strings.Byte.
From S2P Require Import Prelude WireHeader Gf256 ByteVec RsEncode Codec CodecSpec RsCodec.
From S2P Require Import FecTransport FecEncoder FecDecoder FecGroups FecDecoderEmit.

(** A slot after [parse_metadata] has found [c] messages. *)
Definition learned (sh : FecShape) (c : nat) (g : FecDecodeGroup) : FecDecodeGroup :=
  mark_unused_zeros sh c (g_metadata c g).

(** A slot after a tail shard said that there are [c] messages. *)
Definition hinted (sh : FecShape) (c : nat) (g : FecDecodeGroup) : FecDecodeGroup :=
  mark_unused_zeros sh c (g_hint c g).

(** A slot after [Codec_recover] filled in [block]. *)
Definition recovered (sh : FecShape) (block : list byte) (g : FecDecodeGroup) : FecDecodeGroup :=
  let g := g_set_block block g in
  g_set_present (foldl codec_present_set (g_present g) (seq 0 (sh_k sh))) g.

(** A slot after a shard was stored. *)
Definition stored (sh : FecShape) (h : WireHeader) (payload : list byte) (now : Z)
    (g : FecDecodeGroup) : FecDecodeGroup :=
  let shard := Z.to_nat (wh_shard_index h) in
  let g := g_seen now g in
  let g := g_set_block (store_bytes (g_block g) (shard * sh_shard_size sh) payload) g in
  let g := g_set_present (codec_present_set (g_present g) shard) g in
  if shard <? sh_message_shards sh
  then g_set_lengths (<[shard := wh_payload_len h]> (g_lengths g)) g else g.

(** The message count a tail shard announces. *)
Definition hint_of (sh : FecShape) (h : WireHeader) : nat :=
  Z.to_nat (u8 (wh_valid_len h / Z.of_nat (sh_shard_size sh) - 1)).

Definition hint_checks (sh : FecShape) (h : WireHeader) : Prop :=
  let sb := Z.of_nat (sh_shard_size sh) in
  (2 * sb <= wh_valid_len h <= Z.of_nat (sh_k sh) * sb)%Z /\ (wh_valid_len h mod sb = 0)%Z.

Definition in_use (g : FecDecodeGroup) : Prop := g_active g <> FEC_GROUP_FREE.

(** [Q] holds of every slot, [Good] of every message handed out; [arrives] are the datagrams
    that may come in; [may g idx] says that message [idx] of [g] may be handed out, [full g] that
    all data shards of [g] are right, [blk] that the callback may block. *)
Class SlotInv `{HostOrder} {St : Type} (codec : option (CodecVTable St)) (sh : FecShape)
    (ok : St -> Prop) (Q : FecDecodeGroup -> Prop) (full : FecDecodeGroup -> Prop)
    (may : FecDecodeGroup -> nat -> Prop) (Good : list byte -> Prop)
    (arrives : WireHeader -> list byte -> Prop) (blk : Prop) : Prop := {
  si_slot g : Q g -> slot_ok sh g;
  si_blank : Q (blank_group sh);
  si_open h p : arrives h p -> Q (g_activate (wh_block_id h) (blank_group sh));
  si_checked g idx : Q g -> in_use g -> idx < emit_limit sh g -> present g idx = true ->
    bad_len sh (length_at g idx) = false -> may g idx;
  si_good g idx : Q g -> may g idx -> Good (msg_at sh g idx);
  si_readable g idx : Q g -> may g idx -> readable sh g idx;
  si_blocked g : Q g -> g_emit_blocked g = true -> blk;
  si_deliver g b l : Q g -> (b = true -> blk) -> in_use g -> Forall (may g) l -> Q (deliver b l g);
  si_release g : Q g -> Q (g_release g);
  si_complete g : Q g -> in_use g -> Q (g_complete g);
  si_learn g : Q g -> in_use g -> exists r g',
    parse_metadata sh g = Some (r, g') /\ Q g' /\ g_active g' = g_active g /\
    forall c, r = Some c -> c <= sh_message_shards sh /\ Q (learned sh c g') /\
      (full g -> forall idx, idx < c -> may (learned sh c g') idx);
  si_recover g st : Q g -> in_use g -> ok st ->
    sh_k sh <= present_count (g_present g) (sh_n sh) ->
    forallb (present g) (seq 0 (sh_k sh)) = false ->
    exists status block st',
      Codec_recover codec st (Some (g_block g)) (Some (g_present g)) (sh_n sh)
        = (status, Some block, st') /\ ok st' /\ Q (g_set_block block g) /\
      (status = CODEC_RECOVER_OK -> Q (recovered sh block g) /\ full (recovered sh block g));
  si_full g : (forall s, s < sh_k sh -> present g s = true) -> full g;
  si_full_deliver g b l : full g -> full (deliver b l g);
  si_hint g h p : Q g -> in_use g -> g_group_id g = wh_block_id h -> arrives h p ->
    (Z.of_nat (sh_message_shards sh) <= wh_shard_index h)%Z -> hint_checks sh h ->
    1 <= hint_of sh h <= sh_message_shards sh ->
    (g_data_count_hint_valid g = true -> g_data_count g = hint_of sh h) ->
    Q (hinted sh (hint_of sh h) g);
  si_store g h p now : Q g -> in_use g -> g_group_id g = wh_block_id h -> arrives h p ->
    present g (Z.to_nat (wh_shard_index h)) = false -> Q (stored sh h p now g);
  si_arrives h p : arrives h p -> (0 <= wh_shard_index h < Z.of_nat (sh_n sh))%Z /\ length p = sh_shard_size sh
}.

Section Inv.
Context `{host : HostOrder} {St : Type} (codec : option (CodecVTable St)).
Context (out : nat -> FecOutputStatus) (sh : FecShape) (ok : St -> Prop).
Context (Q full : FecDecodeGroup -> Prop) (may : FecDecodeGroup -> nat -> Prop).
Context (Good : list byte -> Prop) (arrives : WireHeader -> list byte -> Prop).
Context (Hshape : shape_ok sh).
Context (blk : Prop) (Hblk : forall j, out j = FEC_OUTPUT_BLOCKED -> blk).
Context `{HQ : !SlotInv codec sh ok Q full may Good arrives blk}.

Abbreviation Dec := (FecDecoder St).
Abbreviation m := (sh_message_shards sh).

Record dec_safe (d : Dec) : Prop := {
  ds_shape : d_shape d = sh;
  ds_slots : slots Q d;
  ds_calls : Forall (fun c => Good (fst c)) (d_calls d);
  ds_st : ok (d_codec_state d) }.

(** ** Moves of one slot *)

Lemma safe_set d i g : dec_safe d -> Q g -> dec_safe (set_group i g d).
Proof using Type. intros [? ? ? ?] Hg. split; try done. by apply slots_set. Qed.

Lemma safe_stats d s : dec_safe d -> dec_safe (dec_stats s d).
Proof using Type. by intros []. Qed.

Lemma safe_at d i : dec_safe d -> i < length (d_groups d) -> Q (group_at d i).
Proof using Type. intros Hd. apply slots_at, Hd. Qed.

Lemma safe_slot d i : dec_safe d -> i < length (d_groups d) -> slot_ok sh (group_at d i).
Proof using HQ Hblk. intros Hd Hi. by eapply si_slot, safe_at. Qed.

(** ** Functions that return *)

(** The function returns, and [P] holds of the decoder it leaves. *)
Definition returns (P : Dec -> Prop) (c : option (FecStatus * Dec)) : Prop :=
  exists status d', c = Some (status, d') /\ P d'.

Lemma returns_some (P : Dec -> Prop) status d : P d -> returns P (Some (status, d)).
Proof using Type. intros H. by exists status, d. Qed.

Lemma returns_pair (P : Dec -> Prop) (r : FecStatus * Dec) : P (snd r) -> returns P (Some r).
Proof using Type. destruct r as [s d]. apply returns_some. Qed.

Lemma returns_if_ok (P R : Dec -> Prop) c k :
  returns P c -> (forall d, P d -> returns R (k d)) -> (forall d, P d -> R d) -> returns R (if_ok c k).
Proof using Type.
  intros (status & d & -> & HP) Hk HPR. destruct status; cbn [if_ok]; try (apply returns_some; auto; done).
  by apply Hk.
Qed.

(** ** Emission *)

(** Calls for messages that may be handed out keep the decoder safe. *)
Lemma safe_emits i d d' new :
  dec_safe d -> i < length (d_groups d) -> in_use (group_at d i) -> emits out sh i d d' new ->
  Forall (fun c => may (group_at d i) (fst c)) new -> dec_safe d'.
Proof using HQ Hblk.
  intros Hd Hi Hu Hem Hnew. pose proof (safe_at d i Hd Hi) as HQi. destruct Hd as [Hs Hsl Hc Hst].
  pose proof Hem as [(b & Hg & Hb) Hcalls Hf _ _ _ Hans]. split.
  - by rewrite Hf.
  - unfold slots. rewrite Hg. apply Forall_insert; [done|]. eapply si_deliver; [done| |done|].
    { intros Hbt. destruct (Hb Hbt) as [Hbl|[x Hx]]; [by eapply si_blocked|].
      apply list_elem_of_lookup in Hx as [y Hy]. apply (Hblk _ (eq_sym (Hans y _ Hy))). }
    apply list.Forall_forall. intros x Hx. apply taken_incl, list_elem_of_In, in_map_iff in Hx
      as (c & <- & Hin). apply list_elem_of_In in Hin. rewrite list.Forall_forall in Hnew. by apply Hnew.
  - rewrite Hcalls. apply list.Forall_app. split; [done|]. apply Forall_map.
    eapply list.Forall_impl; [exact Hnew|]. intros c Hm. cbn. by eapply si_good.
  - by rewrite Hf.
Qed.

(** What an emission leaves of the slot: everything but the delivered bits and the flag. *)
Record emitted (i : nat) (d d' : Dec) : Prop := {
  ed_safe : dec_safe d';
  ed_length : length (d_groups d') = length (d_groups d);
  ed_slot : exists b l, group_at d' i = deliver b l (group_at d i);
  ed_other j : i <> j -> group_at d' j = group_at d j }.

Lemma emits_emitted i d d' new :
  dec_safe d' -> i < length (d_groups d) -> emits out sh i d d' new -> emitted i d d'.
Proof using Type.
  intros Hd' Hi Hem. split; [done|by eapply emits_length| |].
  - destruct (emits_at _ _ _ _ _ _ Hem Hi) as (b & Hg & _). by exists b, (taken new).
  - intros j Hj. by eapply emits_other.
Qed.

Lemma limit_small g : slot_ok sh g -> Forall (fun x => x < 256) (seq 0 (emit_limit sh g)).
Proof using Hshape.
  clear HQ. intros [_ _ _ _ Hc]. apply list.Forall_forall. intros x Hx. apply elem_of_seq in Hx.
  unfold emit_limit in Hx. destruct Hshape. destruct (count_known g); lia.
Qed.

Lemma emit_loop_safe act i indices d :
  dec_safe d -> i < length (d_groups d) -> in_use (group_at d i) ->
  Forall (fun x => x < 256) indices ->
  (forall b l idx, idx ∈ indices -> act (deliver b l (group_at d i)) idx = Emit ->
     may (group_at d i) idx /\ delivered (deliver b l (group_at d i)) idx = false) ->
  returns (emitted i d) (emit_loop out act i indices d).
Proof using HQ Hblk.
  intros Hd Hi Hu Hall Hact. pose proof (safe_slot d i Hd Hi) as Hsl.
  destruct (emit_loop_emits out sh act (may (group_at d i)) i indices d) as (st & d' & new & E & Hem & Hnew).
  - by apply ds_shape.
  - done.
  - by apply sl_delivered in Hsl.
  - done.
  - done.
  - intros idx _. eapply si_readable. by apply safe_at.
  - rewrite E. apply returns_some. eapply emits_emitted; [|done|done]. eapply safe_emits; try done.
    eapply list.Forall_impl; [exact Hnew|]. by intros c [_ Hc].
Qed.

Lemma emit_contiguous_safe i d :
  dec_safe d -> i < length (d_groups d) -> in_use (group_at d i) ->
  returns (emitted i d) (emit_contiguous out i d).
Proof using HQ Hshape Hblk.
  intros Hd Hi Hu. pose proof (safe_slot d i Hd Hi) as Hsl. pose proof (safe_at d i Hd Hi) as HQi.
  unfold emit_contiguous. rewrite (ds_shape d Hd), (contiguous_loop out sh) by (by apply ds_shape).
  apply emit_loop_safe; [done|done|done|by apply limit_small|].
  intros b l idx Hin. apply elem_of_seq in Hin. unfold act_contiguous.
  destruct (delivered _ idx) eqn:Edl; [done|].
  change (present (deliver b l (group_at d i)) idx) with (present (group_at d i) idx).
  change (length_at (deliver b l (group_at d i)) idx) with (length_at (group_at d i) idx).
  destruct (present (group_at d i) idx) eqn:Ep; cbn [negb]; [|done].
  destruct (bad_len sh (length_at (group_at d i) idx)) eqn:Eb; [done|]. intros _. split; [|done].
  eapply si_checked; try done. lia.
Qed.

Lemma emit_available_safe i d :
  dec_safe d -> i < length (d_groups d) -> in_use (group_at d i) ->
  returns (emitted i d) (emit_available out i d).
Proof using HQ Hshape Hblk.
  intros Hd Hi Hu. pose proof (safe_slot d i Hd Hi) as Hsl. pose proof (safe_at d i Hd Hi) as HQi.
  unfold emit_available. rewrite (ds_shape d Hd), (available_loop out sh) by (by apply ds_shape).
  apply emit_loop_safe; [done|done|done|by apply limit_small|].
  intros b l idx Hin. apply elem_of_seq in Hin. unfold act_available.
  change (present (deliver b l (group_at d i)) idx) with (present (group_at d i) idx).
  change (length_at (deliver b l (group_at d i)) idx) with (length_at (group_at d i) idx).
  destruct (present (group_at d i) idx) eqn:Ep; cbn [negb orb]; [|done].
  destruct (delivered _ idx) eqn:Edl; [done|].
  destruct (bad_len sh (length_at (group_at d i) idx)) eqn:Eb; [done|]. intros _. split; [|done].
  eapply si_checked; try done. lia.
Qed.

(** The slots other than [i] are those of [K]. *)
Definition kept (i : nat) (K : nat -> FecDecodeGroup) (d : Dec) : Prop :=
  forall j, j <> i -> group_at d j = K j.

(** The decoder is safe, has as many slots as before, slot [i] is in the state [a] and the others
    are untouched. *)
Definition safe_in (n0 i : nat) (a : FecGroupState) (id : Z) (K : nat -> FecDecodeGroup) (d : Dec) :
    Prop :=
  dec_safe d /\ length (d_groups d) = n0 /\ i < n0 /\ g_active (group_at d i) = a /\
  g_group_id (group_at d i) = id /\ kept i K d.

Definition safe_n (n0 : nat) (d : Dec) : Prop := dec_safe d /\ length (d_groups d) = n0.

Definition safe_k (n0 i : nat) (K : nat -> FecDecodeGroup) (d : Dec) : Prop := safe_n n0 d /\ kept i K d.

Lemma safe_in_k n0 i a id K d : safe_in n0 i a id K d -> safe_k n0 i K d.
Proof using Type. intros (? & ? & _ & _ & _ & ?). by split. Qed.

Lemma safe_k_n n0 i K d : safe_k n0 i K d -> safe_n n0 d.
Proof using Type. by intros [? _]. Qed.

Lemma safe_in_n n0 i a id K d : safe_in n0 i a id K d -> safe_n n0 d.
Proof using Type. intros (? & ? & _). by split. Qed.

Lemma emitted_in n0 i a id K d d' : safe_in n0 i a id K d -> emitted i d d' -> safe_in n0 i a id K d'.
Proof using Type.
  intros (Hd & Hn & Hi & Ha & Hid & Hk) [Hd' Hl (b & l & Hg) Ho]. unfold safe_in. rewrite Hl, Hg.
  split_and!; try done. intros j Hj. rewrite Ho by done. by apply Hk.
Qed.

Lemma emitted_returns n0 i a id K d c :
  safe_in n0 i a id K d -> returns (emitted i d) c -> returns (safe_in n0 i a id K) c.
Proof using Type. intros Hin (st & d' & -> & Hem). apply returns_some. by eapply emitted_in. Qed.

Lemma set_in n0 i a id K d g :
  safe_in n0 i a id K d -> Q g -> g_active g = a -> g_group_id g = id ->
  safe_in n0 i a id K (set_group i g d).
Proof using Type.
  intros (Hd & Hn & Hi & Ha & Hid & Hk) Hg Hga Hgid. split; [by apply safe_set|].
  split; [cbn; by rewrite length_insert|]. split; [done|]. rewrite group_at_set_eq by lia.
  split_and!; try done. intros j Hj. rewrite group_at_set_ne by done. by apply Hk.
Qed.

Lemma stats_in n0 i a id K d s : safe_in n0 i a id K d -> safe_in n0 i a id K (dec_stats s d).
Proof using Type. intros (Hd & H). split; [by apply safe_stats|exact H]. Qed.

Lemma in_at n0 i a id K d : safe_in n0 i a id K d -> Q (group_at d i).
Proof using Type. intros (Hd & Hn & Hi & _ & _). apply safe_at; [done|lia]. Qed.

(** *** Metadata and recovery *)

Lemma parse_keeps g r g' : parse_metadata sh g = Some (r, g') -> g_group_id g' = g_group_id g.
Proof using Type. unfold parse_metadata. intros H. repeat case_match; simplify_eq; done. Qed.

Lemma learn_metadata_returns n0 i a id K next (R : Dec -> Prop) d :
  safe_in n0 i a id K d -> a <> FEC_GROUP_FREE -> (forall d', safe_in n0 i a id K d' -> R d') ->
  (forall c d', safe_in n0 i a id K d' -> c <= m ->
     (full (group_at d i) -> forall idx, idx < c -> may (group_at d' i) idx) -> returns R (next c d')) ->
  returns R (learn_metadata i next d).
Proof using HQ Hblk.
  intros Hin Ha HR Hnext. pose proof Hin as (Hd & Hn & Hi & Hact & Hid & Hkp).
  assert (Hu : in_use (group_at d i)) by (unfold in_use; congruence).
  destruct (si_learn (group_at d i) (in_at _ _ _ _ _ _ Hin) Hu) as (r & g' & Hp & HQ' & Ha' & Hr).
  pose proof (parse_keeps _ _ _ Hp) as Hid'.
  unfold learn_metadata. rewrite (ds_shape d Hd), Hp. destruct r as [c|].
  - destruct (Hr c eq_refl) as (Hc & HQl & Hf). apply Hnext.
    + apply set_in; try done; cbn; congruence.
    + done.
    + rewrite group_at_set_eq by lia. apply Hf.
  - apply returns_some, HR. apply set_in; try done; congruence.
Qed.

Lemma emit_from_metadata_returns n0 i a id K d :
  safe_in n0 i a id K d -> a <> FEC_GROUP_FREE -> full (group_at d i) ->
  returns (safe_in n0 i a id K) (emit_from_metadata out i d).
Proof using HQ Hshape Hblk.
  intros Hin Ha Hf. unfold emit_from_metadata.
  apply (learn_metadata_returns n0 i a id K); [done|done|done|].
  intros c d' Hin' Hc Hmay. pose proof Hin' as (Hd' & Hn' & Hi' & Ha' & _).
  rewrite (all_loop out sh) by (by apply ds_shape). eapply emitted_returns; [done|].
  apply emit_loop_safe; [done|lia|unfold in_use; congruence| |].
  - apply list.Forall_forall. intros x Hx. apply elem_of_seq in Hx. destruct Hshape. lia.
  - intros b l idx Hidx. apply elem_of_seq in Hidx. unfold act_all.
    destruct (delivered _ idx); [done|]. intros _. split; [|done]. apply Hmay; [done|lia].
Qed.

Lemma record_group_loss_safe n0 g b d : safe_n n0 d -> safe_n n0 (record_group_loss g b d).
Proof using Type.
  intros [Hd Hn]. unfold record_group_loss. case_match; [done|]. destruct (count_missing _ _) as [mc mr].
  repeat case_match; (split; [repeat apply safe_stats; done|done]).
Qed.

Lemma record_group_loss_groups g b (d : Dec) : d_groups (record_group_loss g b d) = d_groups d.
Proof using Type.
  unfold record_group_loss. case_match; [done|]. destruct (count_missing _ _) as [mc mr].
  repeat case_match; done.
Qed.

Lemma group_at_loss g b (d : Dec) i : group_at (record_group_loss g b d) i = group_at d i.
Proof using Type.
  unfold group_at. rewrite record_group_loss_groups.
  replace (d_shape (record_group_loss g b d)) with (d_shape d); [done|].
  unfold record_group_loss. case_match; [done|]. destruct (count_missing _ _) as [mc mr].
  repeat case_match; done.
Qed.

Lemma complete_group_safe n0 i a id K d :
  safe_in n0 i a id K d -> a <> FEC_GROUP_FREE -> safe_k n0 i K (complete_group i d).
Proof using HQ Hblk.
  intros Hin Ha. pose proof Hin as (Hd & Hn & Hi & Hact & _ & Hk). unfold complete_group.
  case_match; [split; [by split|done]|].
  destruct (record_group_loss_safe n0 (group_at d i) false d) as [Hd' Hn']; [by split|].
  split; [split; [|cbn; by rewrite length_insert]|].
  - apply safe_stats, safe_set; [done|]. rewrite group_at_loss.
    eapply si_complete; [by eapply in_at|unfold in_use; congruence].
  - intros j Hj. change (group_at (upd_group i g_complete (record_group_loss (group_at d i) false d)) j = K j).
    unfold upd_group. rewrite group_at_set_ne, group_at_loss by done. by apply Hk.
Qed.

Lemma finish_group_returns n0 i a id K d :
  safe_in n0 i a id K d -> a <> FEC_GROUP_FREE -> full (group_at d i) ->
  returns (safe_k n0 i K) (finish_group out i d).
Proof using HQ Hshape Hblk.
  intros Hin Ha Hf. unfold finish_group.
  eapply returns_if_ok; [by apply emit_from_metadata_returns| |by apply safe_in_k].
  intros d' Hin'. apply returns_some. case_match; [by eapply complete_group_safe|by eapply safe_in_k].
Qed.

Lemma filter_negb_zero {A} (f : A -> bool) l :
  (length (List.filter (fun x => negb (f x)) l) =? 0) = forallb f l.
Proof using Type.
  induction l as [|x l IH]; [done|]. cbn. destruct (f x); cbn; done.
Qed.

Lemma recover_group_returns n0 i a id K d :
  safe_in n0 i a id K d -> a <> FEC_GROUP_FREE -> returns (safe_k n0 i K) (recover_group codec out i d).
Proof using HQ Hshape Hblk.
  intros Hin Ha. pose proof Hin as (Hd & Hn & Hi & Hact & Hid & Hkp). unfold recover_group.
  assert (Hu : in_use (group_at d i)) by (unfold in_use; congruence).
  rewrite (ds_shape d Hd). destruct (Nat.ltb_spec (present_count (g_present (group_at d i)) (sh_n sh)) (sh_k sh)) as [|Hk].
  { apply returns_some. by eapply safe_in_k. }
  rewrite filter_negb_zero. destruct (forallb (present (group_at d i)) (seq 0 (sh_k sh))) eqn:Hall.
  { eapply finish_group_returns; [done|done|]. eapply si_full. intros s Hs.
    rewrite forallb_forall in Hall. apply Hall, in_seq. lia. }
  destruct (si_recover (group_at d i) (d_codec_state d) (in_at _ _ _ _ _ _ Hin) Hu (ds_st d Hd) Hk Hall)
    as (status & block & st' & Hrec & Hst' & HQb & Hok). rewrite Hrec. cbn [default from_option].
  set (d1 := dec_codec_state st' _).
  assert (Hin1 : safe_in n0 i a id K d1).
  { assert (H1 : safe_in n0 i a id K (upd_group i (g_set_block block) d)).
    { apply set_in; try done. }
    destruct H1 as ([H1 H2 H3 H4] & H5). split; [split; done|exact H5]. }
  destruct status.
  - destruct (Hok eq_refl) as [HQr Hfr].
    set (d2 := dec_add recovered_shards _ _).
    assert (Hin2 : safe_in n0 i a id K d2).
    { by do 2 apply stats_in. }
    assert (Hg2 : group_at d2 i = g_set_block block (group_at d i)).
    { unfold d2, d1, upd_group. change (group_at (set_group i (g_set_block block (group_at d i)) d) i
        = g_set_block block (group_at d i)). apply group_at_set_eq. lia. }
    assert (Hupd : upd_group i (fun g => g_set_present
        (foldl codec_present_set (g_present g) (seq 0 (sh_k sh))) g) d2
        = set_group i (recovered sh block (group_at d i)) d2).
    { unfold upd_group. by rewrite Hg2. }
    rewrite Hupd. eapply (finish_group_returns n0 i a id); [|done|].
    + apply set_in; try done.
    + rewrite group_at_set_eq; [done|]. destruct Hin2 as (_ & -> & Hi2 & _). done.
  - apply returns_some. by eapply safe_in_k.
  - apply returns_some. by eapply safe_in_k.
Qed.

Lemma settle_group_returns n0 i a id K d :
  safe_in n0 i a id K d -> a <> FEC_GROUP_FREE -> returns (safe_k n0 i K) (settle_group codec out i d).
Proof using HQ Hshape Hblk.
  intros Hin Ha. unfold settle_group. case_match; [|by eapply recover_group_returns].
  eapply learn_metadata_returns; [done|done|by apply safe_in_k|].
  intros c d' Hin' _ _. case_match; [|by eapply recover_group_returns].
  apply returns_some. by eapply complete_group_safe.
Qed.

(** *** A shard *)

Lemma returns_k_n n0 i K c : returns (safe_k n0 i K) c -> returns (safe_n n0) c.
Proof using Type. intros (st & d & -> & [H _]). by exists st, d. Qed.

(** The stores of a shard that arrives stay inside the slot. *)
Lemma store_shard_stored g h p now :
  Q g -> arrives h p ->
  store_shard sh (Z.to_nat (wh_shard_index h)) (wh_payload_len h) p now g = Some (stored sh h p now g).
Proof using HQ Hshape.
  intros HQg Harr. destruct (si_slot _ HQg) as [Hp _ Hl Hb _]. destruct (si_arrives _ _ Harr) as [Hi Hlen].
  pose proof (so_n sh Hshape) as Hn. assert (Hn256 : sh_n sh <= 255) by (destruct Hshape; lia).
  set (shard := Z.to_nat (wh_shard_index h)). assert (Hsh : shard < sh_n sh) by lia.
  unfold store_shard, stored, store_checked, present_set_checked, set_length_checked. fold shard. cbv zeta.
  cbn [g_seen g_block g_set_block g_present g_set_present g_lengths].
  rewrite (take_ge p) by lia. rewrite Hlen, Hb, Hp, Hl, Nat.ltb_irrefl.
  rewrite (proj2 (Nat.leb_le _ _)) by nia.
  assert (shard / 8 < 32) by (apply Nat.Div0.div_lt_upper_bound; lia). rewrite (proj2 (Nat.ltb_lt _ _)) by done.
  by destruct (shard <? m).
Qed.

Lemma accept_shard_returns n0 i a id K h p now d :
  safe_in n0 i a id K d -> a <> FEC_GROUP_FREE -> arrives h p -> id = wh_block_id h ->
  returns (safe_n n0) (accept_shard codec out i h p now d).
Proof using HQ Hshape Hblk.
  intros Hin Ha Harr Hid. pose proof Hin as (Hd & Hn & Hi & Hact & Hgid & Hkp). unfold accept_shard.
  assert (Hu : in_use (group_at d i)) by (unfold in_use; congruence).
  destruct (bool_decide _ || _) eqn:Hdup.
  { apply returns_some. split; [by apply safe_stats|done]. }
  apply orb_false_iff in Hdup as [_ Hpr]. rewrite (ds_shape d Hd).
  assert (Hst : safe_in n0 i a id K (set_group i (stored sh h p now (group_at d i))
                                     (dec_count received_datagrams d))).
  { apply set_in.
    - by apply stats_in.
    - eapply si_store; try done; [by eapply in_at|congruence].
    - unfold stored. by case_match.
    - unfold stored. by case_match. }
  rewrite (store_shard_stored _ _ _ _ (in_at _ _ _ _ _ _ Hin) Harr). destruct (_ <? m).
  - apply (returns_if_ok (safe_in n0 i a id K));
      [|intros d' Hd'; by eapply returns_k_n, settle_group_returns|by apply safe_in_n].
    eapply emitted_returns; [exact Hst|]. pose proof Hst as (H1 & H2 & H3 & H4 & _).
    apply emit_contiguous_safe; [done|lia|unfold in_use; congruence].
  - by eapply returns_k_n, settle_group_returns.
Qed.

Lemma apply_tail_hint_in n0 i a id K h p d :
  safe_in n0 i a id K d -> a <> FEC_GROUP_FREE -> arrives h p -> id = wh_block_id h ->
  (Z.of_nat m <= wh_shard_index h)%Z -> safe_in n0 i a id K (snd (apply_tail_hint i h d)).
Proof using HQ Hblk.
  intros Hin Ha Harr Hid Hge. pose proof Hin as (Hd & Hn & Hi & Hact & Hgid & Hkp).
  assert (Hu : in_use (group_at d i)) by (unfold in_use; congruence).
  assert (Hinv : safe_in n0 i a id K (dec_count invalid_datagrams d))
    by (by apply stats_in).
  unfold apply_tail_hint. rewrite (ds_shape d Hd). fold (hint_of sh h).
  destruct (_ || negb _) eqn:Hc1; [done|]. destruct (_ || (_ <? hint_of sh h)) eqn:Hc2; [done|].
  rewrite !orb_false_iff, negb_false_iff, Z.ltb_ge, Z.gtb_ltb, Z.ltb_ge, Z.eqb_eq in Hc1.
  rewrite !orb_false_iff, andb_false_iff, negb_false_iff, !Nat.eqb_eq, Nat.eqb_neq, Nat.ltb_ge in Hc2.
  destruct Hc1 as [[Hv1 Hv2] Hv3], Hc2 as [[Hh Hz] Hm].
  apply set_in; try done. eapply si_hint;
    [by eapply in_at|done|congruence|exact Harr|done|by split|lia|].
  intros Hhv. destruct Hh as [Hh|Hh]; [congruence|done].
Qed.

Lemma input_shard_returns n0 i a id K h p now d :
  safe_in n0 i a id K d -> a <> FEC_GROUP_FREE -> arrives h p -> id = wh_block_id h ->
  returns (safe_n n0) (input_shard codec out i h p now d).
Proof using HQ Hshape Hblk.
  intros Hin Ha Harr Hid. pose proof Hin as (Hd & Hn & _). unfold input_shard.
  rewrite (ds_shape d Hd), Z.geb_leb. destruct (Z.leb_spec (Z.of_nat m) (wh_shard_index h)).
  - apply (returns_if_ok (safe_in n0 i a id K));
      [apply returns_pair; by eapply apply_tail_hint_in| |by apply safe_in_n].
    intros d' Hin'. by eapply accept_shard_returns.
  - case_match; [|by eapply accept_shard_returns]. apply returns_some. split; [by apply safe_stats|done].
Qed.

(** *** The window *)

Record scan_ok (gs : list FecDecodeGroup) (id : Z) (s : Scan) : Prop := {
  so_found i : sc_found s = Some i ->
    exists g, gs !! i = Some g /\ in_use g /\ g_group_id g = id;
  so_free i : sc_free s = Some i -> exists g, gs !! i = Some g /\ g_active g = FEC_GROUP_FREE;
  so_completed i : sc_completed s = Some i -> i < length gs;
  so_oldest i : sc_oldest s = Some i ->
    exists g, gs !! i = Some g /\ g_active g = FEC_GROUP_COLLECTING }.

Lemma older_cases gs i id best j : older gs i id best = Some j -> j = i \/ best = Some j.
Proof using Type. unfold older. intros H. repeat case_match; simplify_eq; auto. Qed.

Lemma scan_step_ok gs id s i : scan_ok gs id s -> scan_ok gs id (scan_step gs id s i).
Proof using Type.
  intros Hs. pose proof Hs as [Hf Hfr Hc Ho]. unfold scan_step.
  destruct (sc_found s) eqn:Ef; [done|]. destruct (gs !! i) as [g|] eqn:Hg; [|done].
  pose proof (lookup_lt_Some _ _ _ Hg) as Hi.
  destruct (g_active g) eqn:Ha.
  - split; cbn; try done. intros j Hj. destruct (sc_free s); simplify_eq; [auto|by exists g].
  - destruct (Z.eqb_spec (g_group_id g) id) as [Hid|_].
    + split; cbn; try done. intros j [= <-]. exists g. unfold in_use. by rewrite Ha.
    + split; cbn; try done. intros j Hj. apply older_cases in Hj as [->|Hj]; [by exists g|auto].
  - destruct (Z.eqb_spec (g_group_id g) id) as [Hid|_].
    + split; cbn; try done. intros j [= <-]. exists g. unfold in_use. by rewrite Ha.
    + split; cbn; try done. intros j Hj. apply older_cases in Hj as [->|Hj]; [done|auto].
Qed.

Lemma scan_groups_ok gs id : scan_ok gs id (scan_groups gs id).
Proof using Type.
  unfold scan_groups.
  assert (H : forall l s, scan_ok gs id s -> scan_ok gs id (foldl (scan_step gs id) s l)).
  { induction l as [|x l IH]; intros s Hs; cbn; [done|]. apply IH, scan_step_ok, Hs. }
  apply H. split; done.
Qed.

Lemma open_group_in n0 i h p d :
  safe_n n0 d -> i < n0 -> arrives h p ->
  exists K, safe_in n0 i FEC_GROUP_COLLECTING (wh_block_id h) K (open_group i (wh_block_id h) d).
Proof using HQ Hblk.
  intros [Hd Hn] Hi Harr. unfold open_group, group_clear. rewrite (ds_shape d Hd).
  eexists. split; [apply safe_set; [done|]; by eapply si_open|].
  split; [cbn; by rewrite length_insert|]. split; [done|]. rewrite group_at_set_eq by lia. by split_and!.
Qed.

Definition found_ok (n0 : nat) (id : Z) (r : Found) (d : Dec) : Prop :=
  safe_n n0 d /\ match r with
                 | FoundGroup i => exists a K, a <> FEC_GROUP_FREE /\ safe_in n0 i a id K d
                 | _ => True
                 end.

(** [find_group] returns a slot of the group it was asked for, or none. *)
Lemma find_group_returns n0 h p d :
  safe_n n0 d -> arrives h p ->
  exists r d', find_group out (wh_block_id h) d = Some (r, d') /\ found_ok n0 (wh_block_id h) r d'.
Proof using HQ Hshape Hblk.
  intros Hn Harr. pose proof Hn as [Hd Hl]. unfold find_group.
  destruct (scan_groups_ok (d_groups d) (wh_block_id h)) as [Hf Hfr Hc Ho].
  destruct (sc_found _) as [i|].
  { eexists _, _. split; [done|]. split; [done|]. destruct (Hf i eq_refl) as (g & Hg & Hu & Hid).
    exists (g_active g), (group_at d). split; [done|]. apply lookup_lt_Some in Hg as Hi.
    rewrite <- (group_at_lookup _ _ _ Hg) in *. split_and!; try done. lia. }
  assert (Hopen : forall d1 i, safe_n n0 d1 -> i < length (d_groups d1) -> exists r d',
    Some (FoundGroup i, open_group i (wh_block_id h) d1) = Some (r, d') /\ found_ok n0 (wh_block_id h) r d').
  { intros d1 i Hn1 Hi. eexists _, _. split; [done|].
    destruct (open_group_in n0 i h p d1 Hn1 ltac:(destruct Hn1; lia) Harr) as [K Hin].
    split; [by eapply safe_in_n|exists FEC_GROUP_COLLECTING, K; split; [done|exact Hin]]. }
  destruct (sc_free _) as [i|].
  { destruct (Hfr i eq_refl) as (g & Hg & _). apply Hopen; [done|]. by eapply lookup_lt_Some. }
  destruct (sc_completed _) as [i|]; [apply Hopen; auto|].
  assert (Hstay : forall r d1, (forall i, r <> FoundGroup i) -> safe_n n0 d1 ->
    exists r' d', Some (r, d1) = Some (r', d') /\ found_ok n0 (wh_block_id h) r' d').
  { intros r d1 Hr Hn1. eexists _, _. split; [done|]. split; [done|]. destruct r as [i| |]; [by destruct (Hr i)|done..]. }
  destruct (sc_oldest _) as [i|]; [|by apply Hstay].
  destruct (_ <? _)%Z; [by apply Hstay|].
  destruct (Ho i eq_refl) as (g & Hg & Hcol). apply lookup_lt_Some in Hg as Hi.
  rewrite <- (group_at_lookup _ _ _ Hg) in Hcol.
  destruct (emit_available_safe i d Hd Hi ltac:(unfold in_use; congruence)) as (st & d1 & -> & [Hd1 Hl1 _ _]).
  assert (Hn1 : safe_n n0 d1) by (split; [done|lia]).
  destruct st; try (by apply Hstay).
  destruct (g_emit_blocked _); [by apply Hstay|]. apply Hopen.
  - apply record_group_loss_safe. split; [by apply safe_stats|apply Hn1].
  - rewrite record_group_loss_groups. cbn. lia.
Qed.

(** *** Releasing older groups *)

Definition releasable (g : FecDecodeGroup) : bool :=
  bool_decide (g_active g = FEC_GROUP_COLLECTING) && negb (g_released_unrecoverable g).

Lemma release_candidate_ok gs id i :
  release_candidate gs id = Some i -> exists g, gs !! i = Some g /\ releasable g = true.
Proof using Type.
  unfold release_candidate. set (f := fun best j => _).
  assert (H : forall l best, (forall j, best = Some j -> exists g, gs !! j = Some g /\ releasable g = true) ->
    forall j, foldl f best l = Some j -> exists g, gs !! j = Some g /\ releasable g = true).
  { induction l as [|x l IH]; intros best Hb j; cbn [foldl]; [apply Hb|]. apply IH.
    intros y. unfold f. destruct (gs !! x) as [g|] eqn:Hg; [|apply Hb].
    destruct (_ || _) eqn:Hc; [apply Hb|]. intros Hy. apply older_cases in Hy as [->|Hy]; [|by apply Hb].
    exists g. split; [done|]. rewrite !orb_false_iff, negb_false_iff in Hc. destruct Hc as [[Hc1 Hc2] _].
    unfold releasable. by rewrite Hc1, Hc2. }
  by apply H.
Qed.

(** The number of groups that can still be released. *)
Definition release_count (gs : list FecDecodeGroup) : nat := length (List.filter releasable gs).

Lemma release_count_insert gs i g g' :
  gs !! i = Some g -> releasable g = true -> releasable g' = false ->
  S (release_count (<[i := g']> gs)) = release_count gs.
Proof using Type.
  intros Hg Hr Hr'. apply list_elem_of_split_length in Hg as (l1 & l2 & -> & ->).
  rewrite list_insert_middle by done. unfold release_count.
  rewrite !List.filter_app, !length_app. cbn. rewrite Hr, Hr'. cbn. lia.
Qed.

Lemma release_loop_returns n0 turns id d :
  safe_n n0 d -> release_count (d_groups d) <= turns -> returns (safe_n n0) (release_loop out turns id d).
Proof using HQ Hshape Hblk.
  revert d; induction turns as [|turns IH]; intros d Hn Hc; cbn [release_loop].
  - destruct (release_candidate (d_groups d) id) as [i|] eqn:Hi; [|by apply returns_some].
    apply release_candidate_ok in Hi as (g & Hg & Hr).
    pose proof (release_count_insert _ _ _ (g_release g) Hg Hr) as H.
    rewrite <- H in Hc; [lia|]. unfold releasable. cbn. by rewrite andb_false_r.
  - destruct (release_candidate (d_groups d) id) as [i|] eqn:Hi; [|by apply returns_some].
    apply release_candidate_ok in Hi as (g & Hg & Hr). apply lookup_lt_Some in Hg as Hlt.
    pose proof (group_at_lookup _ _ _ Hg) as Hat. pose proof Hn as [Hd Hl].
    assert (Hcol : g_active g = FEC_GROUP_COLLECTING)
      by (unfold releasable in Hr; apply andb_true_iff in Hr as [Hr _]; by apply bool_decide_eq_true in Hr).
    pose proof (emit_available_safe i d Hd Hlt ltac:(unfold in_use; congruence)) as Hem.
    apply (returns_if_ok (fun d' => emitted i d d')); [exact Hem| |].
    + intros d1 [Hd1 Hl1 (b & l & Hg1) Ho1]. rewrite Hat in Hg1.
      case_match; [apply returns_some; split; [done|lia]|]. apply IH.
      * split; [|cbn; rewrite length_insert; lia]. apply safe_set; [done|]. eapply si_release, safe_at; [done|lia].
      * unfold upd_group, set_group. cbn [d_groups dec_groups]. rewrite Hg1.
        assert (Hgs : d_groups d1 = <[i := deliver b l g]> (d_groups d)).
        { apply list_eq. intros j. destruct (decide (j = i)) as [->|Hj].
          - rewrite list_lookup_insert_eq by done. rewrite lookup_group_at by lia. by rewrite Hg1.
          - rewrite list_lookup_insert_ne by done. destruct (decide (j < length (d_groups d))).
            + rewrite !lookup_group_at by lia. by rewrite Ho1.
            + by rewrite !lookup_ge_None_2 by lia. }
        rewrite Hgs, list_insert_insert_eq.
        pose proof (release_count_insert _ _ _ (g_release (deliver b l g)) Hg Hr) as Hrc.
        rewrite <- Hrc in Hc; [lia|]. unfold releasable. cbn. by rewrite andb_false_r.
    + intros d1 [Hd1 Hl1 _ _]. split; [done|lia].
Qed.

Lemma note_highest_returns n0 id d : safe_n n0 d -> returns (safe_n n0) (note_highest out id d).
Proof using HQ Hshape Hblk.
  intros Hn. unfold note_highest. case_match; [|by apply returns_some].
  apply (returns_if_ok (safe_n n0)); [|intros d' [[] ?]; by apply returns_some|done].
  apply release_loop_returns; [done|]. unfold release_count. apply filter_length_le.
Qed.

(** ** The public functions *)

(** A datagram that reaches [find_group]: what its header and payload say. *)
Definition datagram_arrives (d : Dec) (bytes : list Z) : Prop :=
  forall h, wire_header_decode bytes = Some h -> wire_shape_ok d h (length bytes) = true ->
    u32 (Z.shiftr (wh_block_id h) 32) = d_epoch d ->
    arrives h (map Z_to_byte (read_at bytes WIRE_HEADER_SIZE (sh_shard_size sh))).

Lemma input_returns n0 datagram now d :
  safe_n n0 d -> (forall bytes, datagram = Some bytes -> datagram_arrives d bytes) ->
  returns (safe_n n0) (fec_decoder_input codec out datagram now d).
Proof using HQ Hshape Hblk.
  intros Hn Harr. pose proof Hn as [Hd Hl]. unfold fec_decoder_input.
  destruct datagram as [bytes|]; [|by apply returns_some]. specialize (Harr bytes eq_refl).
  destruct (_ =? 0); [by apply returns_some|]. destruct (_ <? WIRE_HEADER_SIZE); [by apply returns_some|].
  destruct (wire_header_decode bytes) as [h|] eqn:Hh; [|by apply returns_some].
  assert (Hst : forall c status, returns (safe_n n0) (Some (status, dec_count c d)))
    by (intros c status; apply returns_some; split; [by apply safe_stats|done]).
  destruct (negb _); [by apply returns_some|].
  destruct (wire_shape_ok d h (length bytes)) eqn:Hshp; cbn [negb]; [|apply Hst].
  destruct (Z.eqb_spec (u32 (Z.shiftr (wh_block_id h) 32)) (d_epoch d)) as [Hep|]; cbn [negb]; [|apply Hst].
  destruct (_ && _); [apply Hst|]. specialize (Harr h Hh Hshp Hep).
  apply (returns_if_ok (safe_n n0)); [by apply note_highest_returns| |done].
  intros d1 Hn1. destruct (find_group_returns n0 h _ d1 Hn1 Harr) as (r & d2 & -> & Hn2 & Hr). pose proof Hn2 as [Hd2 Hl2].
  destruct r as [i| |err].
  - destruct Hr as (a & K & Ha & Hin). rewrite (ds_shape d2 Hd2). by eapply input_shard_returns.
  - apply returns_some. split; [by apply safe_stats|done].
  - destruct err; by apply returns_some.
Qed.

(** A loop over the window. *)
Lemma over_groups_returns n0 body indices d (I : Dec -> list nat -> Prop) :
  I d indices -> (forall d l, I d l -> safe_n n0 d) ->
  (forall d i l, I d (i :: l) -> returns (fun d' => I d' l) (body i d)) ->
  returns (safe_n n0) (over_groups body indices d).
Proof using Type.
  intros HI Hsafe Hbody. revert d HI; induction indices as [|i l IH]; intros d HI; cbn [over_groups].
  - apply returns_some. eauto.
  - apply (returns_if_ok (fun d' => I d' l)); [by apply Hbody|exact IH|eauto].
Qed.

(** A blocked group that has its metadata has its data shards. *)
Definition retry_ready (g : FecDecodeGroup) : Prop :=
  g_active g = FEC_GROUP_COLLECTING -> g_emit_blocked g = true -> g_metadata_valid g = true -> full g.

(** [retry_group] needs the data shards of a group that has its metadata. *)
Lemma retry_group_returns n0 i d :
  safe_n n0 d -> i < n0 -> retry_ready (group_at d i) ->
  returns (safe_k n0 i (group_at d)) (retry_group codec out i d).
Proof using HQ Hshape Hblk.
  intros [Hd Hn] Hi Hhz. unfold retry_group.
  assert (Hstay : safe_k n0 i (group_at d) d) by (split; [by split|done]).
  destruct (_ || _) eqn:Hc; [by apply returns_some|].
  rewrite orb_false_iff, !negb_false_iff, bool_decide_eq_true in Hc. destruct Hc as [Hcol Hbl].
  assert (Hin : safe_in n0 i FEC_GROUP_COLLECTING (g_group_id (group_at d i)) (group_at d) d)
    by (by split_and!).
  pose proof (emit_contiguous_safe i d Hd ltac:(lia) ltac:(unfold in_use; congruence)) as Hem.
  apply (returns_if_ok (emitted i d)); [exact Hem| |].
  2:{ intros d1 Hem1. eapply safe_in_k, emitted_in; [exact Hin|done]. }
  intros d1 Hem1. pose proof (emitted_in _ _ _ _ _ _ _ Hin Hem1) as Hin1.
  destruct Hem1 as [_ _ (b & l & Hg1) _].
  destruct (g_emit_blocked (group_at d1 i)); [apply returns_some; by eapply safe_in_k|].
  destruct (g_metadata_valid (group_at d1 i)) eqn:Hmv; [|by eapply recover_group_returns].
  assert (Hfull : full (group_at d1 i)).
  { rewrite Hg1 in *. eapply si_full_deliver. by apply Hhz. }
  apply (returns_if_ok (safe_in n0 i FEC_GROUP_COLLECTING (g_group_id (group_at d i)) (group_at d)));
    [by apply emit_from_metadata_returns| |by apply safe_in_k].
  intros d2 Hin2. apply returns_some.
  case_match; [by eapply complete_group_safe|by eapply safe_in_k].
Qed.

Lemma retry_blocked_returns n0 d :
  safe_n n0 d -> Forall retry_ready (d_groups d) -> returns (safe_n n0) (retry_blocked codec out d).
Proof using HQ Hshape Hblk.
  intros Hn Hr. pose proof Hn as [Hd Hl]. unfold retry_blocked.
  apply (over_groups_returns n0 _ _ _ (fun d l => safe_n n0 d /\ NoDup l /\
           Forall (fun i => i < n0 /\ retry_ready (group_at d i)) l)).
  - split; [done|]. split; [apply NoDup_seq|]. apply list.Forall_forall. intros i Hi.
    apply elem_of_seq in Hi. split; [lia|]. eapply slots_at; [exact Hr|lia].
  - by intros d' l [? _].
  - intros d' i l (Hn' & Hnd & Hall). apply list.NoDup_cons in Hnd as [Hni Hnd].
    apply list.Forall_cons in Hall as [[Hi Hri] Hall].
    destruct (retry_group_returns n0 i d' Hn' Hi Hri) as (st & d1 & -> & [Hn1 Hk]).
    apply returns_some. split; [done|]. split; [done|].
    apply list.Forall_forall. intros j Hj. rewrite list.Forall_forall in Hall.
    rewrite Hk by (by intros ->). by apply Hall.
Qed.

Lemma expire_group_returns n0 now i d :
  safe_n n0 d -> i < n0 -> returns (safe_n n0) (expire_group out now i d).
Proof using HQ Hshape Hblk.
  intros [Hd Hn] Hi. unfold expire_group. destruct (_ || _) eqn:Hc; [by apply returns_some|].
  rewrite !orb_false_iff, negb_false_iff, bool_decide_eq_true in Hc. destruct Hc as [[[Hcol _] _] _].
  pose proof (emit_available_safe i d Hd ltac:(lia) ltac:(unfold in_use; congruence)) as Hem.
  apply (returns_if_ok (emitted i d)); [exact Hem| |].
  2:{ intros d1 [? ? _ _]. split; [done|lia]. }
  intros d1 [Hd1 Hl1 _ _]. assert (Hn1 : safe_n n0 d1) by (split; [done|lia]).
  case_match; [by apply returns_some|]. apply returns_some.
  destruct (record_group_loss_safe n0 (group_at d1 i) true d1 Hn1) as [Hd2 Hn2].
  split; [|cbn; by rewrite length_insert]. apply safe_stats, safe_set; [done|].
  unfold group_clear. rewrite (ds_shape _ Hd2). eapply si_blank.
Qed.

Lemma update_returns n0 now d :
  safe_n n0 d -> Forall retry_ready (d_groups d) ->
  returns (safe_n n0) (fec_decoder_update codec out now d).
Proof using HQ Hshape Hblk.
  intros Hn Hr. unfold fec_decoder_update.
  apply (returns_if_ok (safe_n n0)); [by apply retry_blocked_returns| |done].
  intros d1 Hn1. case_match; [by apply returns_some|].
  apply (over_groups_returns n0 _ _ _ (fun d l => safe_n n0 d /\ Forall (fun i => i < n0) l)).
  - split; [done|]. destruct Hn1 as [_ <-]. apply list.Forall_forall. intros i Hi.
    apply elem_of_seq in Hi. lia.
  - by intros d' l [? _].
  - intros d' i l (Hn' & Hall). apply list.Forall_cons in Hall as [Hi Hall].
    destruct (expire_group_returns n0 now i d' Hn' Hi) as (st & d2 & -> & Hn2).
    by apply returns_some.
Qed.

Lemma reset_safe n0 epoch d : safe_n n0 d -> safe_n n0 (fec_decoder_reset epoch d).
Proof using HQ Hblk.
  intros [[Hs Hsl Hc Hst] Hn]. unfold fec_decoder_reset, group_clear.
  split; [|cbn; by rewrite length_map]. split; try done.
  unfold slots. cbn. apply Forall_map, list.Forall_forall. intros g _. rewrite Hs. eapply si_blank.
Qed.

End Inv.
