(* ===== verification/FecDecoderSpec.v ===== *)
(** * Two invariants of the FEC decoder

    For arbitrary datagrams: the buffers of every slot keep their sizes, so no access leaves them.
    For the datagrams of encoded groups, lost, repeated or reordered in any way: what a slot holds
    belongs to its group, so every message handed out is a message of a group. *)

From Stdlib Require Import Strings.Byte.
From S2P Require Import Prelude WireHeader Gf256 ByteVec RsEncode Codec CodecSpec RsCodec RsRecover.
From S2P Require Import FecTransport FecEncoder FecDecoder FecGroups FecDecoderEmit FecDecoderInv.

(** ** Bits *)

Lemma mark_unused_present sh c g s :
  length (g_present g) = 32 -> sh_message_shards sh <= 255 -> c <= sh_message_shards sh ->
  present (mark_unused_zeros sh c g) s =
  bool_decide (c <= s < sh_message_shards sh) || present g s.
Proof.
  intros Hl Hm Hc. unfold present, mark_unused_zeros. cbn [g_present g_set_present].
  rewrite present_set_many; [|done|].
  - f_equal. apply bool_decide_ext. rewrite elem_of_seq. lia.
  - apply list.Forall_forall. intros x Hx. apply elem_of_seq in Hx. lia.
Qed.

Lemma present_set_present g i s :
  length (g_present g) = 32 -> i < 256 ->
  codec_present_get (codec_present_set (g_present g) i) s = (i =? s) || present g s.
Proof. intros Hl Hi. apply present_get_set. rewrite Hl. apply Nat.Div0.div_lt_upper_bound. lia. Qed.

(** ** Reading the length table *)

(** Lengths that fit a shard. *)
Definition fit (sb : nat) (lengths : list Z) : Prop :=
  Forall (fun len => (0 <= len <= Z.of_nat sb)%Z) lengths.

Section Table.
Context `{host : HostOrder}.

(** Two bytes in network order make no negative number. *)
Lemma ntohs_load_nonneg bs : Forall is_byte bs -> (0 <= ntohs (load bs))%Z.
Proof using Type.
  intros Hbs. unfold ntohs, load. destruct host_little.
  - pose proof (bswap_range 2 (of_le bs)). lia.
  - unfold of_be. pose proof (of_le_range (rev bs)) as H. destruct H; [by apply is_byte_rev|lia].
Qed.

Lemma read_length_nonneg block p len : read_length block p = Some len -> (0 <= len)%Z.
Proof using Type.
  unfold read_length. case_match; [|done]. intros [= <-]. apply ntohs_load_nonneg.
  apply Forall_map, list.Forall_forall. intros b _. apply byte_to_Z_range.
Qed.

Lemma fit_nth sb lengths i : fit sb lengths -> (0 <= nth i lengths 0 <= Z.of_nat sb)%Z.
Proof using Type.
  intros H. rewrite nth_lookup. destruct (lengths !! i) as [l|] eqn:E; cbn; [|lia].
  by apply (list.Forall_lookup_1 _ _ _ _ H) in E.
Qed.

(** Whatever the table holds, the lengths fit a shard, and those of an accepted table are positive. *)
Lemma parse_lengths_total sb base block indices lengths :
  Forall (fun i => base + 1 + i * 2 + 2 <= length block /\ i < length lengths) indices ->
  fit sb lengths ->
  exists r lengths', parse_lengths sb base block indices lengths = Some (r, lengths') /\
    length lengths' = length lengths /\ fit sb lengths' /\
    (forall j, (nth j lengths 0 <> 0 -> nth j lengths' 0 = nth j lengths 0)%Z) /\
    (r = true -> Forall (fun i => nth i lengths' 0 <> 0)%Z indices).
Proof using Type.
  revert lengths; induction indices as [|i l IH]; intros lengths Hall Hfit; cbn [parse_lengths].
  { by exists true, lengths. }
  apply list.Forall_cons in Hall as [[Hi Hil] Hall].
  destruct (read_length block (base + 1 + i * 2)) as [len|] eqn:Hr.
  2:{ unfold read_length in Hr. by rewrite (proj2 (Nat.leb_le _ _)) in Hr by done. }
  apply read_length_nonneg in Hr.
  destruct (Z.eqb_spec len 0) as [|Hlen]; [by exists false, lengths|]. rewrite Z.gtb_ltb.
  destruct (Z.ltb_spec (Z.of_nat sb) len) as [|Hlen2]; [by exists false, lengths|]. cbn [orb].
  destruct (_ && _) eqn:Hold; [by exists false, lengths|].
  set (lengths1 := if (nth i lengths 0 =? 0)%Z then <[i := len]> lengths else lengths).
  assert (H1 : length lengths1 = length lengths) by (unfold lengths1; case_match; [apply length_insert|done]).
  assert (H2 : forall j, (nth j lengths 0 <> 0 -> nth j lengths1 0 = nth j lengths 0)%Z).
  { intros j Hj. unfold lengths1. destruct (Z.eqb_spec (nth i lengths 0%Z) 0); [|done].
    rewrite !nth_lookup in *. rewrite list_lookup_insert_ne; [done|]. by intros ->. }
  assert (H3 : (nth i lengths1 0 <> 0)%Z).
  { unfold lengths1. destruct (Z.eqb_spec (nth i lengths 0%Z) 0); [|done].
    by rewrite nth_lookup, list_lookup_insert_eq. }
  destruct (IH lengths1) as (r & l' & -> & Hl & Hf & Hk & Hp).
  - by rewrite H1.
  - unfold lengths1. case_match; [|done]. apply Forall_insert; [done|]. lia.
  - exists r, l'. split; [done|]. split; [congruence|]. split; [done|]. split.
    + intros j Hj. rewrite Hk by (by rewrite H2). by apply H2.
    + intros Hrt. constructor; [by rewrite Hk|auto].
Qed.

(** The lengths a table announces, when they agree with those known before. *)
Lemma parse_lengths_ok sb base block indices lengths (len : nat -> Z) :
  NoDup indices ->
  Forall (fun i => i < length lengths /\ read_length block (base + 1 + i * 2) = Some (len i) /\
            (1 <= len i <= Z.of_nat sb)%Z /\
            (nth i lengths 0%Z = 0%Z \/ nth i lengths 0%Z = len i)) indices ->
  exists lengths', parse_lengths sb base block indices lengths = Some (true, lengths') /\
    length lengths' = length lengths /\
    forall j, nth j lengths' 0%Z = if decide (j ∈ indices) then len j else nth j lengths 0%Z.
Proof using Type.
  revert lengths; induction indices as [|i l IH]; intros lengths Hnd Hall; cbn [parse_lengths].
  { exists lengths. split; [done|]. split; [done|]. intros j. by rewrite decide_False by apply not_elem_of_nil. }
  apply list.NoDup_cons in Hnd as [Hni Hnd].
  apply list.Forall_cons in Hall as [(Hi & Hr & Hlen & Hold) Hall]. rewrite Hr.
  rewrite (proj2 (Z.eqb_neq (len i) 0)), Z.gtb_ltb, (proj2 (Z.ltb_ge _ (len i))) by lia. cbn [orb].
  set (lengths1 := if (nth i lengths 0 =? 0)%Z then <[i := len i]> lengths else lengths).
  assert (Hl1 : length lengths1 = length lengths) by (unfold lengths1; case_match; [apply length_insert|done]).
  assert (Hn1 : forall j, nth j lengths1 0%Z = if decide (j = i) then len i else nth j lengths 0%Z).
  { intros j. unfold lengths1. destruct (Z.eqb_spec (nth i lengths 0%Z) 0) as [E|E].
    - rewrite !nth_lookup. destruct (decide (j = i)) as [->|Hj].
      + by rewrite list_lookup_insert_eq.
      + by rewrite list_lookup_insert_ne.
    - destruct (decide (j = i)) as [->|]; [|done]. destruct Hold; [done|congruence]. }
  replace (negb (nth i lengths 0 =? 0)%Z && negb (nth i lengths 0 =? len i)%Z) with false.
  2:{ symmetry. destruct Hold as [->| ->]; [done|]. by rewrite Z.eqb_refl, andb_false_r. }
  destruct (IH lengths1 Hnd) as (l' & -> & Hl' & Hn').
  { apply list.Forall_forall. intros j Hj. rewrite list.Forall_forall in Hall.
    destruct (Hall j Hj) as (H1 & H2 & H3 & H4). rewrite Hl1, Hn1, decide_False by (by intros ->). done. }
  exists l'. split; [done|]. split; [congruence|]. intros j. rewrite Hn', Hn1.
  destruct (decide (j = i)) as [->|Hj].
  - rewrite (decide_False (P := i ∈ l)) by done. by rewrite decide_True by (by left).
  - destruct (decide (j ∈ l)); [by rewrite decide_True by (by right)|].
    rewrite decide_False; [done|]. rewrite elem_of_cons. naive_solver.
Qed.

End Table.

(** ** Arbitrary input *)

Section Hostile.
Context `{host : HostOrder} {St : Type} (codec : option (CodecVTable St)).
Context (sh : FecShape) (ok : St -> Prop) (code : list byte -> Prop).
Context (Hshape : shape_ok sh) (Hfits : table_fits sh).
Context `{Hcode : !BlockCode codec ok (sh_shard_size sh) (sh_k sh) (sh_r sh) code}.

Definition any_arrives (h : WireHeader) (p : list byte) : Prop :=
  (0 <= wh_shard_index h < Z.of_nat (sh_n sh))%Z /\ length p = sh_shard_size sh /\
  (0 <= wh_payload_len h <= Z.of_nat (sh_shard_size sh))%Z.

(** The buffers have their sizes and no length exceeds a shard. *)
Definition any_slot (g : FecDecodeGroup) : Prop := slot_ok sh g /\ fit (sh_shard_size sh) (g_lengths g).

(** A message inside a shard of the block. *)
Definition inside (g : FecDecodeGroup) (idx : nat) : Prop :=
  idx < sh_message_shards sh /\ (0 < length_at g idx <= Z.of_nat (sh_shard_size sh))%Z.

Definition fits_shard (msg : list byte) : Prop := 1 <= length msg <= sh_shard_size sh.

Lemma length_store_bytes block p bs : length (store_bytes block p bs) = length block.
Proof using Type.
  unfold store_bytes. apply (for_ind (fun _ b => length b = length block)); [done|].
  intros i b _ <-. apply length_insert.
Qed.

Lemma parse_metadata_total g :
  any_slot g -> exists r g', parse_metadata sh g = Some (r, g') /\ any_slot g' /\
    g_active g' = g_active g /\
    (forall c, r = Some c -> c <= sh_message_shards sh /\ forall idx, idx < c -> inside g' idx).
Proof using Hshape Hfits.
  clear Hcode. intros [Hsl Hfit]. unfold parse_metadata. destruct (negb _); [by exists None, g|].
  set (base := sh_message_shards sh * sh_shard_size sh). set (c := Z.to_nat _).
  destruct ((c =? 0) || _) eqn:Hc; [by exists None, g|]. destruct (_ && negb _); [by exists None, g|].
  apply orb_false_iff in Hc as [_ Hc]. apply Nat.ltb_ge in Hc.
  destruct (parse_lengths_total (sh_shard_size sh) base (g_block g) (seq 0 c) (g_lengths g))
    as (r & l' & -> & Hl' & Hfit' & _ & Hpos); [|done|].
  { apply list.Forall_forall. intros i Hi. apply elem_of_seq in Hi. rewrite (sl_block sh g Hsl), (sl_lengths sh g Hsl).
    unfold table_fits, base in *. destruct Hshape. split; [nia|lia]. }
  eexists _, _. split; [done|]. split; [|split; [done|]].
  - split; [|done]. destruct Hsl. split; cbn; try done. congruence.
  - intros c' H. destruct r; [|done]. injection H as <-. split; [done|]. intros idx Hidx. split; [lia|].
    specialize (Hpos eq_refl). rewrite list.Forall_forall in Hpos.
    specialize (Hpos idx ltac:(apply elem_of_seq; lia)). unfold length_at. cbn [g_lengths g_set_lengths].
    pose proof (fit_nth _ _ idx Hfit'). cbn in Hpos. lia.
Qed.

Lemma slot_ok_mark c g : slot_ok sh g -> slot_ok sh (mark_unused_zeros sh c g).
Proof using Type.
  intros []. split; cbn; try done. by rewrite present_set_many_length.
Qed.

Lemma inside_message g idx : any_slot g -> inside g idx -> fits_shard (msg_at sh g idx).
Proof using Hshape.
  clear Hcode Hfits. intros [[_ _ _ Hb _] _] [Hidx Hlen]. unfold fits_shard, msg_at.
  rewrite length_take, length_drop, Hb. destruct Hshape. nia.
Qed.

#[export] Instance any_slot_inv :
  SlotInv codec sh ok any_slot (fun _ => True) inside fits_shard any_arrives True.
Proof using Hshape Hfits Hcode.
  assert (Hfit0 : fit (sh_shard_size sh) (replicate (sh_message_shards sh) 0%Z))
    by (apply Forall_replicate; lia).
  split; try done.
  - by intros g [? _].
  - split; [apply blank_slot_ok|done].
  - intros h p _. split; [|done]. destruct (blank_slot_ok sh). by split.
  - intros g idx [Hg Hf] _ Hlim _ Hbad. pose proof (fit_nth _ _ idx Hf) as Hn. unfold bad_len in Hbad.
    apply orb_false_iff in Hbad as [Hz _]. apply Z.eqb_neq in Hz. unfold length_at in *.
    unfold inside, length_at, emit_limit in *. destruct Hg. destruct (count_known g); lia.
  - apply inside_message.
  - intros g idx [[_ _ _ Hb _] _] [Hidx Hlen]. unfold readable. rewrite Hb. destruct Hshape. nia.
  - intros g b l [[] Hf] _ _ _. split; [|done]. split; cbn; try done. by rewrite present_set_many_length.
  - intros g [[] Hf]. by split.
  - intros g [[] Hf] _. by split.
  - intros g Hg _. destruct (parse_metadata_total g Hg) as (r & g' & Hp & Hg' & Ha & Hr).
    exists r, g'. split_and!; try done. intros c Hc. destruct (Hr c Hc) as [Hcm Hin]. split; [done|].
    split; [|by intros _]. destruct Hg' as [Hsl' Hf']. split; [|done]. apply slot_ok_mark.
    destruct Hsl'. split; cbn; try done.
  - intros g st [Hg Hf] _ Hst _ _. rewrite (so_n sh Hshape).
    destruct (bc_recover_total st (g_block g) (g_present g) Hst) as (status & b & st' & Hrec & Hl & Hst').
    exists status, b, st'. assert (slot_ok sh (g_set_block b g)) by (destruct Hg; split; cbn; congruence).
    split_and!; try done. intros _. split; [|done]. split; [|done].
    destruct Hg. split; cbn; try done; [by rewrite present_set_many_length|congruence].
  - intros g h p [Hg Hf] _ _ _ _ _ Hh _. split; [|done]. apply slot_ok_mark. destruct Hg. split; cbn; try done. lia.
  - intros g h p now [Hg Hf] _ _ (_ & _ & Hlen) _. unfold stored. destruct Hg.
    case_match; (split; [split; cbn; rewrite ?present_set_length, ?length_store_bytes, ?length_insert; done|]);
      [by apply Forall_insert|done].
  - by intros h p (? & ? & _).
Qed.

(** The shard index of a header that was read from bytes. *)
Lemma decode_index_nonneg bytes h :
  Forall is_byte bytes -> wire_header_decode bytes = Some h ->
  (0 <= wh_shard_index h)%Z /\ (0 <= wh_payload_len h)%Z.
Proof using Type.
  intros Hb. unfold wire_header_decode. destruct (_ <? _); [done|]. destruct (_ || _); [done|].
  intros [= <-]. cbn [wh_shard_index wh_payload_len].
  split; apply ntohs_load_nonneg; by apply Forall_take, Forall_drop.
Qed.

Lemma any_datagram_arrives (d : FecDecoder St) bytes :
  d_shape d = sh -> Forall is_byte bytes -> datagram_arrives sh any_arrives d bytes.
Proof using Type.
  intros Hs Hb h Hh Hok _. destruct (decode_index_nonneg _ _ Hb Hh) as [H0 Hp0].
  unfold wire_shape_ok in Hok. rewrite Hs in Hok. destruct (_ || negb (_ =? _ + _)) eqn:E; [done|].
  rewrite !orb_false_iff, !negb_false_iff, Z.geb_leb, Z.leb_gt, Z.gtb_ltb, Z.ltb_ge, Nat.eqb_eq in E.
  destruct E as [[[[[_ _] Hi] _] Hpl] Hlen]. split; [lia|]. split; [|lia].
  rewrite length_map. unfold read_at. rewrite length_take, length_drop. lia.
Qed.

End Hostile.

(** ** Encoded groups *)

Section Honest.
Context `{host : HostOrder} {St : Type} (codec : option (CodecVTable St)).
Context (sh : FecShape) (ok : St -> Prop) (code : list byte -> Prop).
Context (Hshape : shape_ok sh).
Context `{Hcode : !BlockCode codec ok (sh_shard_size sh) (sh_k sh) (sh_r sh) code}.

Abbreviation sb := (sh_shard_size sh).
Abbreviation m := (sh_message_shards sh).
Abbreviation n := (sh_n sh).
Abbreviation count G := (length (gr_msgs G)).

(** The groups that were encoded, by their id. *)
Context (sent : Z -> option Group).
Context (Hsent : forall id G, sent id = Some G -> gr_id G = id /\ group_ok sh code G).

Lemma sent_ok id G : sent id = Some G -> group_ok sh code G.
Proof using Hsent. intros H. by apply Hsent in H as [_ H]. Qed.

(** What slot [g] holds comes from the group [G]. *)
Record grp_rel (g : FecDecodeGroup) (G : Group) : Prop := {
  gs_lens idx : length_at g idx <> 0%Z ->
    exists msg, gr_msgs G !! idx = Some msg /\ length_at g idx = Z.of_nat (length msg);
  gs_block s : s < n -> present g s = true -> shard_bytes sb (g_block g) s = shard_bytes sb (gr_word G) s;
  gs_unused s : count G <= s < m -> shard_bytes sb (g_block g) s = replicate sb x00;
  gs_count : count_known g = true -> g_data_count g = count G;
  gs_deliv idx : delivered g idx = true -> idx < count G }.

Definition honest (g : FecDecodeGroup) : Prop :=
  slot_ok sh g /\ (in_use g -> exists G, sent (g_group_id g) = Some G /\ grp_rel g G).

Definition all_data (g : FecDecodeGroup) : Prop := forall s, s < sh_k sh -> present g s = true.

Definition ready (g : FecDecodeGroup) (idx : nat) : Prop :=
  in_use g /\ present g idx = true /\ length_at g idx <> 0%Z.

(** A message of a group that was encoded. *)
Definition sent_message (msg : list byte) : Prop := exists id G, sent id = Some G /\ msg ∈ gr_msgs G.

(** The header and the shard of a datagram of such a group. *)
Definition sent_arrives (h : WireHeader) (p : list byte) : Prop :=
  exists G i, sent (wh_block_id h) = Some G /\ sends sh G i /\ wh_shard_index h = Z.of_nat i /\
    p = shard_bytes sb (gr_word G) i /\
    (i < m -> exists msg, gr_msgs G !! i = Some msg /\ wh_payload_len h = Z.of_nat (length msg)) /\
    (m <= i -> wh_valid_len h = Z.of_nat ((count G + 1) * sb)).

(** *** Facts about encoded groups *)

Lemma shape_facts : 1 <= m /\ m < n /\ m < sh_k sh /\ sh_k sh <= n /\ m <= 253 /\ 32 <= sb.
Proof using Hshape. destruct Hshape. lia. Qed.

Lemma word_length G : group_ok sh code G -> length (gr_word G) = n * sb.
Proof using Hshape Hcode. intros HG. rewrite (so_n sh Hshape). eapply bc_length, go_code, HG. Qed.

Lemma group_msg G i msg : group_ok sh code G -> gr_msgs G !! i = Some msg -> 1 <= length msg <= sb.
Proof using Type. intros HG Hi. by apply (list.Forall_lookup_1 _ _ _ _ (go_msgs _ _ _ HG) Hi). Qed.

(** The message of a shard. *)
Lemma rel_msg g G idx :
  group_ok sh code G -> slot_ok sh g -> grp_rel g G -> present g idx = true ->
  length_at g idx <> 0%Z -> gr_msgs G !! idx = Some (msg_at sh g idx).
Proof using Hshape.
  intros HG Hsl [Hlens Hblock _ _ _] Hp Hl. destruct (Hlens idx Hl) as (msg & Hmsg & Hlen).
  pose proof shape_facts. pose proof (go_count _ _ _ HG).
  assert (Hidx : idx < count G) by (by eapply lookup_lt_Some).
  pose proof (group_msg G idx msg HG Hmsg) as Hml.
  rewrite Hmsg. f_equal. unfold msg_at. rewrite Hlen, Nat2Z.id.
  specialize (Hblock idx ltac:(lia) Hp). rewrite (go_data _ _ _ HG _ _ Hmsg) in Hblock.
  assert (Ht : take (length msg) (shard_bytes sb (g_block g) idx) =
               take (length msg) (drop (idx * sb) (g_block g))).
  { unfold shard_bytes. rewrite take_take. f_equal. lia. }
  rewrite <- Ht, Hblock. unfold padded. by rewrite take_app_length.
Qed.

Lemma rel_present_unused g G c :
  group_ok sh code G -> slot_ok sh g -> grp_rel g G -> c = count G -> grp_rel (mark_unused_zeros sh c g) G.
Proof using Hshape.
  intros HG Hsl [Hl Hb Hu Hc Hd] ->. pose proof shape_facts. pose proof (go_count _ _ _ HG).
  split; try done. intros s Hs. rewrite mark_unused_present by (destruct Hsl; done || lia).
  intros Hp. apply orb_true_iff in Hp as [Hp|Hp]; [|by apply Hb].
  apply bool_decide_eq_true in Hp. cbn. by rewrite Hu, (go_unused _ _ _ HG).
Qed.

Lemma blank_rel id G : grp_rel (g_activate id (blank_group sh)) G.
Proof using Hshape.
  pose proof shape_facts. split; try done.
  - intros idx H0. exfalso. apply H0. unfold length_at. cbn [g_lengths g_activate blank_group].
    rewrite nth_lookup. destruct (_ !! idx) eqn:E; [|done]. by apply lookup_replicate in E as [-> _].
  - intros s _ Hp. unfold present in Hp. cbn [g_present g_activate blank_group] in Hp.
    by rewrite present_get_zero in Hp.
  - intros s Hs. apply shard_replicate. lia.
  - intros idx Hp. unfold delivered in Hp. cbn [g_delivered g_activate blank_group] in Hp.
    by rewrite present_get_zero in Hp.
Qed.

(** *** The length table *)

Lemma rel_table g G :
  group_ok sh code G -> slot_ok sh g -> grp_rel g G -> present g m = true ->
  1 + 2 * count G <= sb /\ take (1 + 2 * count G) (drop (m * sb) (g_block g)) = table (gr_msgs G).
Proof using Hshape Hcode.
  intros HG Hsl Hrel Hp. pose proof shape_facts. pose proof (word_length G HG) as Hw.
  pose proof (go_table _ _ _ HG) as Ht. pose proof (length_table (gr_msgs G)) as Htl.
  assert (Hle : 1 + 2 * count G <= sb).
  { pose proof (length_shard_bytes sb n (gr_word G) m Hw ltac:(lia)) as Hl. rewrite Ht in Hl.
    unfold padded in Hl. rewrite length_app, length_replicate in Hl. lia. }
  split; [done|]. rewrite <- (gs_block _ _ Hrel m ltac:(lia) Hp) in Ht.
  rewrite <- Htl. transitivity (take (length (table (gr_msgs G))) (shard_bytes sb (g_block g) m)).
  - unfold shard_bytes. rewrite take_take. f_equal. lia.
  - rewrite Ht. unfold padded. by rewrite take_app_length.
Qed.

Lemma rel_count_byte g G :
  group_ok sh code G -> slot_ok sh g -> grp_rel g G -> present g m = true ->
  Z.to_nat (byte_to_Z (get (g_block g) (m * sb))) = count G.
Proof using Hshape Hcode.
  intros HG Hsl Hrel Hp. pose proof shape_facts. pose proof (go_count _ _ _ HG).
  destruct (rel_table g G HG Hsl Hrel Hp) as [_ Ht].
  assert (Hg : get (g_block g) (m * sb) = get (table (gr_msgs G)) 0).
  { rewrite <- Ht. unfold get. rewrite !nth_lookup, lookup_take_lt, lookup_drop by lia.
    by rewrite Nat.add_0_r. }
  rewrite Hg. unfold table, get. cbn [nth]. rewrite byte_to_Z_to_byte; [lia|].
  unfold is_byte, in_range. lia.
Qed.

Lemma ntohs_network_length len :
  in_range 16 len -> ntohs (load (map byte_to_Z (network_length len))) = len.
Proof using Type.
  intros Hlen. unfold network_length. rewrite map_map.
  assert (Hb : map (fun x => byte_to_Z (Z_to_byte x)) (store 2 (htons len)) = be_bytes 2 len).
  { rewrite store_htons. rewrite <- (map_id (be_bytes 2 len)) at 2. apply map_ext_in.
    intros x Hx. apply byte_to_Z_to_byte. pose proof (be_bytes_is_byte 2 len) as Hall.
    rewrite list.Forall_forall in Hall. by apply Hall, list_elem_of_In. }
  rewrite Hb. by apply ntohs_load_be.
Qed.

Lemma rel_read_length g G i msg :
  group_ok sh code G -> slot_ok sh g -> grp_rel g G -> present g m = true -> gr_msgs G !! i = Some msg ->
  read_length (g_block g) (m * sb + 1 + i * 2) = Some (Z.of_nat (length msg)).
Proof using Hshape Hcode.
  intros HG Hsl Hrel Hp Hi. pose proof shape_facts. pose proof (group_msg G i msg HG Hi) as Hml.
  destruct (rel_table g G HG Hsl Hrel Hp) as [Hle Ht]. apply lookup_lt_Some in Hi as Hic.
  unfold read_length. rewrite (sl_block _ _ Hsl), (proj2 (Nat.leb_le _ _)) by nia. f_equal.
  rewrite <- (ntohs_network_length (Z.of_nat (length msg))).
  2:{ pose proof (so_span sh Hshape). unfold UINT16_MAX, in_range in *. nia. }
  do 3 f_equal. rewrite <- (table_entry _ _ _ Hi), <- Ht, skipn_firstn_comm, drop_drop, take_take.
  rewrite Nat.min_l by lia. f_equal. f_equal. lia.
Qed.

Lemma rel_parse g G :
  group_ok sh code G -> slot_ok sh g -> grp_rel g G -> present g m = true ->
  exists lengths, parse_metadata sh g = Some (Some (count G), g_set_lengths lengths g) /\
    length lengths = m /\
    forall j, nth j lengths 0%Z = match gr_msgs G !! j with
                                 | Some msg => Z.of_nat (length msg) | None => 0%Z end.
Proof using Hshape Hcode.
  intros HG Hsl Hrel Hp. pose proof (go_count _ _ _ HG) as Hc. unfold parse_metadata.
  rewrite Hp. cbn [negb]. rewrite (rel_count_byte g G HG Hsl Hrel Hp).
  rewrite (proj2 (Nat.eqb_neq (count G) 0)), (proj2 (Nat.ltb_ge m (count G))) by lia. cbn [orb].
  replace (g_data_count_hint_valid g && negb (g_data_count g =? count G)) with false.
  2:{ symmetry. destruct (g_data_count_hint_valid g) eqn:Hh; [|done]. rewrite (gs_count _ _ Hrel).
      - by rewrite Nat.eqb_refl.
      - unfold count_known. by rewrite Hh, orb_true_r. }
  destruct (parse_lengths_ok sb (m * sb) (g_block g) (seq 0 (count G)) (g_lengths g)
              (fun i => Z.of_nat (length (nth i (gr_msgs G) [])))) as (l & -> & Hl & Hn).
  - apply NoDup_seq.
  - apply list.Forall_forall. intros i Hi. apply elem_of_seq in Hi.
    destruct (lookup_lt_is_Some_2 (gr_msgs G) i ltac:(lia)) as [msg Hmsg].
    rewrite nth_lookup, Hmsg. cbn [default from_option id]. pose proof (group_msg G i msg HG Hmsg).
    rewrite (sl_lengths _ _ Hsl). split; [lia|]. split; [by apply (rel_read_length g G)|].
    split; [lia|]. destruct (decide (nth i (g_lengths g) 0%Z = 0%Z)) as [|Hne]; [by left|right].
    destruct (gs_lens _ _ Hrel i Hne) as (msg' & Hm' & Hl'). unfold length_at in Hl'. congruence.
  - exists l. split; [done|]. split; [by rewrite Hl, (sl_lengths _ _ Hsl)|]. intros j. rewrite Hn.
    destruct (gr_msgs G !! j) as [msg|] eqn:Hj.
    + apply lookup_lt_Some in Hj as Hjl. rewrite decide_True by (apply elem_of_seq; lia).
      by rewrite nth_lookup, Hj.
    + apply lookup_ge_None in Hj as Hjl. rewrite decide_False by (rewrite elem_of_seq; lia).
      destruct (decide (nth j (g_lengths g) 0%Z = 0%Z)) as [|Hne]; [done|].
      destruct (gs_lens _ _ Hrel j Hne) as (msg' & Hm' & _). congruence.
Qed.

(** *** Moves of a slot *)

Lemma honest_rel g G : honest g -> in_use g -> sent (g_group_id g) = Some G -> grp_rel g G.
Proof using Type. intros [_ H] Hu HG. destruct (H Hu) as (G' & HG' & Hr). congruence. Qed.

Lemma honest_blank : honest (blank_group sh).
Proof using Type. split; [apply blank_slot_ok|by intros []]. Qed.

Lemma honest_open h p : sent_arrives h p -> honest (g_activate (wh_block_id h) (blank_group sh)).
Proof using Hshape.
  intros (G & i & HG & _). split; [destruct (blank_slot_ok sh); by split|].
  intros _. exists G. split; [done|apply blank_rel].
Qed.

Lemma honest_checked g idx :
  honest g -> in_use g -> idx < emit_limit sh g -> present g idx = true ->
  bad_len sh (length_at g idx) = false -> ready g idx.
Proof using Type.
  intros _ Hu _ Hp Hb. split; [done|]. split; [done|]. unfold bad_len in Hb.
  apply orb_false_iff in Hb as [Hb _]. by apply Z.eqb_neq in Hb.
Qed.

Lemma honest_good g idx : honest g -> ready g idx -> sent_message (msg_at sh g idx).
Proof using Hshape Hsent.
  intros [Hsl Hin] (Hu & Hp & Hl). destruct (Hin Hu) as (G & HG & Hrel).
  exists (g_group_id g), G. split; [done|]. eapply list_elem_of_lookup_2, (rel_msg g G); try done.
  by eapply sent_ok.
Qed.

Lemma ready_index g G idx : sent (g_group_id g) = Some G -> honest g -> ready g idx -> idx < count G.
Proof using Type.
  intros HG Hh (Hu & _ & Hl). pose proof (honest_rel g G Hh Hu HG) as Hrel.
  destruct (gs_lens _ _ Hrel idx Hl) as (msg & Hm & _). by eapply lookup_lt_Some.
Qed.

Lemma honest_deliver g b l : honest g -> in_use g -> Forall (ready g) l -> honest (deliver b l g).
Proof using Hshape Hsent.
  intros Hh Hu Hl. pose proof Hh as [Hsl Hin]. destruct (Hin Hu) as (G & HG & Hrel).
  assert (Hlt : Forall (fun x => x < count G) l).
  { eapply list.Forall_impl; [exact Hl|]. intros x. by apply ready_index. }
  pose proof shape_facts. pose proof (go_count _ _ _ (sent_ok _ _ HG)).
  split; [destruct Hsl; split; cbn; try done; by rewrite present_set_many_length|].
  intros _. exists G. split; [done|]. destruct Hrel as [Hln Hb Hz Hc Hd]. split; try done.
  intros idx. rewrite delivered_deliver.
  - intros Hx. apply orb_true_iff in Hx as [Hx|Hx]; [|by apply Hd].
    apply bool_decide_eq_true in Hx. rewrite list.Forall_forall in Hlt. by apply Hlt.
  - by apply sl_delivered in Hsl.
  - eapply list.Forall_impl; [exact Hlt|]. cbn. lia.
Qed.

(** Changes to the fields the relation does not mention. *)
Lemma honest_same g g' :
  honest g -> slot_ok sh g' -> (in_use g' -> in_use g) -> g_group_id g' = g_group_id g ->
  (forall G, grp_rel g G -> grp_rel g' G) -> honest g'.
Proof using Type.
  intros [_ Hin] Hsl Hu Hid Hr. split; [done|]. intros Hu'. destruct (Hin (Hu Hu')) as (G & HG & Hrel).
  exists G. rewrite Hid. auto.
Qed.

Lemma honest_put g G : slot_ok sh g -> sent (g_group_id g) = Some G -> grp_rel g G -> honest g.
Proof using Type. intros Hsl HG Hrel. split; [done|]. intros _. by exists G. Qed.

(** A slot that holds the code word, whatever bits are set. *)
Lemma rel_word g G bits : group_ok sh code G -> grp_rel g G ->
  grp_rel (g_set_present bits (g_set_block (gr_word G) g)) G.
Proof using Type. intros HG []. split; try done. intros s Hs. cbn. by apply (go_unused _ _ _ HG). Qed.

Lemma honest_learn g :
  honest g -> in_use g -> exists r g',
    parse_metadata sh g = Some (r, g') /\ honest g' /\ g_active g' = g_active g /\
    forall c, r = Some c -> c <= m /\ honest (learned sh c g') /\
      (all_data g -> forall idx, idx < c -> ready (learned sh c g') idx).
Proof using Hshape Hcode Hsent.
  intros Hh Hu. pose proof Hh as [Hsl Hin]. destruct (Hin Hu) as (G & HG & Hrel).
  pose proof (sent_ok _ _ HG) as HGok. pose proof shape_facts. pose proof (go_count _ _ _ HGok).
  destruct (present g m) eqn:Hpm.
  2:{ exists None, g. unfold parse_metadata. rewrite Hpm. cbn [negb]. by split_and!. }
  destruct (rel_parse g G HGok Hsl Hrel Hpm) as (l & -> & Hl & Hn).
  exists (Some (count G)), (g_set_lengths l g). split; [done|].
  assert (Hsl' : slot_ok sh (g_set_lengths l g)) by (destruct Hsl; by split).
  assert (Hrel' : grp_rel (g_set_lengths l g) G).
  { destruct Hrel. split; try done. intros idx. unfold length_at. cbn [g_lengths g_set_lengths].
    rewrite Hn. destruct (gr_msgs G !! idx) as [msg|]; [|done]. by exists msg. }
  split; [|split; [done|]].
  { split; [done|]. intros _. by exists G. }
  intros c [= <-]. split; [lia|].
  assert (Hslm : slot_ok sh (g_metadata (count G) (g_set_lengths l g)))
    by (destruct Hsl; split; cbn; try done; lia).
  assert (Hrelm : grp_rel (g_metadata (count G) (g_set_lengths l g)) G)
    by (destruct Hrel'; by split).
  split.
  - split; [by apply slot_ok_mark|]. intros _. exists G. split; [done|]. by apply rel_present_unused.
  - intros Hf idx Hidx. split; [done|]. split.
    + unfold learned. rewrite mark_unused_present by (destruct Hsl; done || lia).
      apply orb_true_iff. right. apply (Hf idx). lia.
    + unfold length_at. cbn. rewrite Hn. destruct (lookup_lt_is_Some_2 (gr_msgs G) idx Hidx) as [msg Hm].
      rewrite Hm. pose proof (group_msg G idx msg HGok Hm). lia.
Qed.

Lemma honest_recover g st :
  honest g -> in_use g -> ok st -> sh_k sh <= present_count (g_present g) n ->
  forallb (present g) (seq 0 (sh_k sh)) = false ->
  exists G st', sent (g_group_id g) = Some G /\
    Codec_recover codec st (Some (g_block g)) (Some (g_present g)) n
      = (CODEC_RECOVER_OK, Some (gr_word G), st') /\ ok st' /\
    honest (g_set_block (gr_word G) g) /\ honest (recovered sh (gr_word G) g) /\
    all_data (recovered sh (gr_word G) g).
Proof using Hshape Hcode Hsent.
  intros Hh Hu Hst Hk Hf. pose proof Hh as [Hsl Hin]. destruct (Hin Hu) as (G & HG & Hrel).
  pose proof (sent_ok _ _ HG) as HGok. pose proof (word_length G HGok) as Hw. pose proof shape_facts.
  rewrite (so_n sh Hshape) in *.
  destruct (bc_recover st (gr_word G) (g_block g) (g_present g) Hst) as (st' & Hrec & Hst').
  - eapply go_code, HGok.
  - rewrite <- (so_n sh Hshape). by apply sl_block.
  - intros s b Hs Hb Hp. apply shard_cells; [|done]. apply (gs_block _ _ Hrel); [by rewrite (so_n sh Hshape)|done].
  - exact Hk.
  - exact Hf.
  - exists G, st'. split; [done|]. split; [done|]. split; [done|].
    assert (Hbits : forall s, s < sh_k sh ->
      codec_present_get (foldl codec_present_set (g_present g) (seq 0 (sh_k sh))) s = true).
    { intros s Hs. rewrite present_set_many; [|by apply sl_present in Hsl|].
      - apply orb_true_iff. left. apply bool_decide_eq_true, elem_of_seq. lia.
      - apply list.Forall_forall. intros x Hx. apply elem_of_seq in Hx. pose proof (so_max sh Hshape).
        rewrite (so_n sh Hshape) in *. lia. }
    split; [|split; [|exact Hbits]]; (apply (honest_put _ G); [|done|by apply rel_word]).
    + destruct Hsl; split; cbn; try done. by rewrite (so_n sh Hshape).
    + destruct Hsl; split; cbn; try done; [by rewrite present_set_many_length|by rewrite (so_n sh Hshape)].
Qed.

Lemma honest_hint g h p :
  honest g -> in_use g -> g_group_id g = wh_block_id h -> sent_arrives h p ->
  (Z.of_nat m <= wh_shard_index h)%Z -> honest (hinted sh (hint_of sh h) g).
Proof using Hshape Hsent.
  intros Hh Hu Hid (G & i & HG & _ & Hi & _ & _ & Hv) Hm. rewrite <- Hid in HG.
  pose proof (honest_rel g G Hh Hu HG) as Hrel. destruct Hh as [Hsl _].
  pose proof (sent_ok _ _ HG) as HGok. pose proof shape_facts. pose proof (go_count _ _ _ HGok).
  assert (Hint : hint_of sh h = count G).
  { unfold hint_of. rewrite Hv, Nat2Z.inj_mul, Z.div_mul by lia. unfold u8, uwrap.
    rewrite Z.mod_small by lia. lia. }
  rewrite Hint. assert (Hslm : slot_ok sh (g_hint (count G) g)) by (destruct Hsl; split; cbn; try done; lia).
  apply (honest_put _ G); [by apply slot_ok_mark|done|]. apply rel_present_unused; try done.
  destruct Hrel. by split.
Qed.

Lemma rel_stored g G h p i now :
  group_ok sh code G -> slot_ok sh g -> grp_rel g G -> wh_shard_index h = Z.of_nat i -> sends sh G i ->
  p = shard_bytes sb (gr_word G) i ->
  (i < m -> exists msg, gr_msgs G !! i = Some msg /\ wh_payload_len h = Z.of_nat (length msg)) ->
  grp_rel (stored sh h p now g) G.
Proof using Hshape Hcode.
  intros HG Hsl [Hl Hb Hz Hc Hd] Hi Hs -> Hlen. pose proof shape_facts. pose proof (word_length G HG) as Hw.
  pose proof (go_count _ _ _ HG). pose proof (so_max sh Hshape).
  assert (Hin : i < n) by (destruct Hs; lia).
  pose proof (length_shard_bytes sb n _ i Hw Hin) as Hpl.
  assert (Hblock : forall s, s < n ->
    shard_bytes sb (store_bytes (g_block g) (i * sb) (shard_bytes sb (gr_word G) i)) s =
    if decide (s = i) then shard_bytes sb (gr_word G) i else shard_bytes sb (g_block g) s).
  { intros s Hs'. rewrite (shard_store sb n) by (destruct Hsl; done || lia). case_decide; [|done].
    rewrite drop_ge, app_nil_r; [done|]. rewrite (length_shard_bytes sb n) by (destruct Hsl; done || lia). lia. }
  unfold stored. rewrite Hi, Nat2Z.id.
  assert (Hrel : grp_rel (g_set_present (codec_present_set (g_present g) i)
     (g_set_block (store_bytes (g_block g) (i * sb) (shard_bytes sb (gr_word G) i)) (g_seen now g))) G).
  { split; try done.
    - intros s Hs' Hp. cbn [g_block g_set_block g_set_present]. rewrite Hblock by done. case_decide; [by subst|].
      apply Hb; [done|]. unfold present in Hp. cbn [g_present g_set_present] in Hp.
      rewrite present_set_present in Hp by (destruct Hsl; done || lia).
      by rewrite (proj2 (Nat.eqb_neq i s)) in Hp by lia.
    - intros s Hs'. cbn [g_block g_set_block g_set_present]. rewrite Hblock by lia.
      rewrite decide_False by (destruct Hs; lia). by apply Hz. }
  destruct (Nat.ltb_spec i m) as [Him|]; [|exact Hrel].
  destruct Hrel as [Hl' Hb' Hz' Hc' Hd']. split; try done.
  intros idx. unfold length_at. cbn [g_lengths g_set_lengths g_set_present g_set_block g_seen].
  rewrite nth_lookup. destruct (decide (idx = i)) as [->|Hne].
  - rewrite list_lookup_insert_eq by (destruct Hsl; lia). intros _. by apply Hlen.
  - rewrite list_lookup_insert_ne, <- nth_lookup by done. apply Hl.
Qed.

Lemma slot_ok_stored g h p now : slot_ok sh g -> slot_ok sh (stored sh h p now g).
Proof using Type.
  intros []. unfold stored.
  case_match; split; cbn; rewrite ?present_set_length, ?length_store_bytes, ?length_insert; done.
Qed.

Lemma honest_store g h p now :
  honest g -> in_use g -> g_group_id g = wh_block_id h -> sent_arrives h p -> honest (stored sh h p now g).
Proof using Hshape Hcode Hsent.
  intros Hh Hu Hid (G & i & HG & Hs & Hi & Hp & Hlen & _). rewrite <- Hid in HG.
  pose proof (honest_rel g G Hh Hu HG) as Hrel. destruct Hh as [Hsl _].
  apply (honest_put _ G); [by apply slot_ok_stored| |by eapply rel_stored; eauto using sent_ok].
  unfold stored. by case_match.
Qed.

(** A message that is ready lies inside its shard. *)
Lemma honest_readable g idx : honest g -> ready g idx -> readable sh g idx.
Proof using Hshape Hsent.
  intros [Hsl Hrel] (Hu & Hp & Hl). destruct (Hrel Hu) as (G & HG & [Hlens _ _ _ _]).
  destruct (Hlens idx Hl) as (msg & Hmsg & Hlen). pose proof (sent_ok _ _ HG) as HGok.
  pose proof (group_msg G idx msg HGok Hmsg). pose proof (go_count _ _ _ HGok). pose proof shape_facts.
  apply lookup_lt_Some in Hmsg. unfold readable. rewrite (sl_block sh g Hsl), Hlen, Nat2Z.id. nia.
Qed.

#[export] Instance honest_slot_inv :
  SlotInv codec sh ok honest all_data ready sent_message sent_arrives True.
Proof using Hshape Hcode Hsent.
  split.
  - by intros g [? _].
  - apply honest_blank.
  - apply honest_open.
  - apply honest_checked.
  - apply honest_good.
  - apply honest_readable.
  - done.
  - intros g b l Hg _. by apply honest_deliver.
  - intros g Hh. pose proof Hh as [Hsl _]. eapply honest_same; try done; [by destruct Hsl|]. by intros G [].
  - intros g Hh Hu. pose proof Hh as [Hsl _]. eapply honest_same; try done; [by destruct Hsl|]. by intros G [].
  - apply honest_learn.
  - intros g st Hh Hu Hst Hk Hf.
    destruct (honest_recover g st Hh Hu Hst Hk Hf) as (G & st' & _ & H1 & H2 & H3 & H4 & H5).
    by exists CODEC_RECOVER_OK, (gr_word G), st'.
  - done.
  - done.
  - intros g h p Hh Hu Hid Ha Hm _ _ _. by eapply honest_hint.
  - intros g h p now Hh Hu Hid Ha _. by eapply honest_store.
  - intros h p (G & i & HG & Hs & -> & -> & _). pose proof (go_count _ _ _ (sent_ok _ _ HG)).
    pose proof shape_facts. assert (i < n) by (destruct Hs; lia). split; [lia|].
    unfold shard_bytes. rewrite length_take, length_drop, (word_length G (sent_ok _ _ HG)). nia.
Qed.

(** *** Datagrams *)

Lemma fec_datagram_decode h p :
  header_ok h -> length p = sb ->
  wire_header_decode (fec_datagram h p) = Some (as_v3 h) /\
  map Z_to_byte (read_at (fec_datagram h p) WIRE_HEADER_SIZE sb) = p.
Proof using Type.
  intros Hh Hp. split; [by apply decode_v3_bytes|]. unfold fec_datagram, read_at.
  rewrite drop_app_ge, length_base_bytes, Nat.sub_diag, drop_0 by (by rewrite length_base_bytes).
  rewrite take_ge by (rewrite length_map; lia). rewrite map_map.
  erewrite map_ext; [apply map_id|]. intros x. apply Z_to_byte_to_Z.
Qed.

Lemma fec_header_ok G i valid plen :
  in_range 64 (gr_id G) -> i < n -> in_range 16 valid -> in_range 16 plen ->
  header_ok (fec_header sh (gr_id G) i valid plen).
Proof using Hshape.
  intros Hid Hi Hv Hp. pose proof (so_max sh Hshape). unfold header_ok, fec_header, WIRE_TYPE_DATA. cbn.
  split_and!; try assumption; unfold in_range; lia.
Qed.

(** A datagram of an encoded group arrives as its header and its shard, and is well-formed. *)
Lemma datagram_of_decode G i :
  group_ok sh code G -> sent (gr_id G) = Some G -> sends sh G i ->
  exists h, wire_header_decode (datagram_of sh G i) = Some h /\ wh_block_id h = gr_id G /\
    wh_shard_index h = Z.of_nat i /\
    sent_arrives h (map Z_to_byte (read_at (datagram_of sh G i) WIRE_HEADER_SIZE sb)) /\
    wh_type h = WIRE_TYPE_DATA /\
    length (datagram_of sh G i) = WIRE_HEADER_SIZE + sb /\
    forall d : FecDecoder St, d_shape d = sh -> wire_shape_ok d h (WIRE_HEADER_SIZE + sb) = true.
Proof using Hshape Hcode.
  intros HG Hsome Hs. pose proof shape_facts. pose proof (go_count _ _ _ HG). pose proof (word_length G HG) as Hw.
  assert (Hi : i < n) by (destruct Hs; lia). pose proof (so_span sh Hshape) as Hspan. unfold UINT16_MAX in Hspan.
  pose proof (so_m sh Hshape). pose proof (go_id _ _ _ HG) as Hid.
  unfold datagram_of. destruct (gr_msgs G !! i) as [msg|] eqn:Hmsg.
  - pose proof (group_msg G i msg HG Hmsg). apply lookup_lt_Some in Hmsg as Hlt.
    unfold data_datagram. edestruct fec_datagram_decode as [-> ->].
    + apply fec_header_ok; try done; unfold in_range; nia.
    + apply length_padded. lia.
    + eexists. split; [done|]. split; [done|]. split; [done|]. split; [|split; [done|split]].
      * exists G, i. cbn. split_and!; try done; [by rewrite (go_data _ _ _ HG _ _ Hmsg)|by exists msg|lia].
      * unfold fec_datagram. by rewrite length_app, length_base_bytes, length_map, length_padded by lia.
      * intros d Hd. unfold wire_shape_ok, u16, uwrap. rewrite Hd. cbn [as_v3 fec_header wh_type
          wh_shard_count wh_shard_index wh_payload_len wh_valid_len]. rewrite Z.mod_small by lia. bool_cases; done || lia.
  - apply lookup_ge_None in Hmsg as Hge. unfold tail_datagram. edestruct fec_datagram_decode as [-> ->].
    + apply fec_header_ok; try done; unfold in_range; nia.
    + by apply (length_shard_bytes sb n).
    + eexists. split; [done|]. split; [done|]. split; [done|]. split; [|split; [done|split]].
      * exists G, i. cbn. split_and!; try done. destruct Hs; lia.
      * unfold fec_datagram.
        by rewrite length_app, length_base_bytes, length_map, (length_shard_bytes sb n) by done.
      * intros d Hd. unfold wire_shape_ok. rewrite Hd. cbn [as_v3 fec_header wh_type wh_shard_count
          wh_shard_index wh_payload_len wh_valid_len]. destruct Hs; bool_cases; done || lia.
Qed.

Lemma sent_datagram_arrives (d : FecDecoder St) G i :
  sent (gr_id G) = Some G -> sends sh G i ->
  datagram_arrives sh sent_arrives d (datagram_of sh G i).
Proof using Hshape Hcode Hsent.
  intros HG Hs h Hh _ _. destruct (datagram_of_decode G i (sent_ok _ _ HG) HG Hs) as (h' & Hh' & _ & _ & Ha & _).
  congruence.
Qed.

End Honest.

(** * Runs of the FEC decoder under an invariant

    Any sequence of the public functions that change a decoder returns and keeps an invariant of
    its slots. *)

(** A call of [fec_decoder_input], [fec_decoder_update] or [fec_decoder_reset]. *)
Inductive DecOp :=
| Input (datagram : option (list Z)) (now_ns : Z)
| Tick (now_ns : Z)
| ResetEpoch (epoch : Z).

Section Runs.
Context `{host : HostOrder} {St : Type} (codec : option (CodecVTable St)).
Context (out : nat -> FecOutputStatus).

Definition dec_op (op : DecOp) (d : FecDecoder St) : option (FecDecoder St) :=
  match op with
  | Input datagram now => option_map snd (fec_decoder_input codec out datagram now d)
  | Tick now => option_map snd (fec_decoder_update codec out now d)
  | ResetEpoch epoch => Some (fec_decoder_reset epoch d)
  end.

Fixpoint run_dec (ops : list DecOp) (d : FecDecoder St) : option (FecDecoder St) :=
  match ops with
  | [] => Some d
  | op :: ops => match dec_op op d with None => None | Some d => run_dec ops d end
  end.

Section Keep.
Context (sh : FecShape) (ok : St -> Prop).
Context (Q full : FecDecodeGroup -> Prop) (may : FecDecodeGroup -> nat -> Prop).
Context (Good : list byte -> Prop) (arrives : WireHeader -> list byte -> Prop).
Context (Hshape : shape_ok sh) (blk : Prop) (Hblk : forall j, out j = FEC_OUTPUT_BLOCKED -> blk).
Context `{HQ : !SlotInv codec sh ok Q full may Good arrives blk}.

(** Datagrams that may come in, and updates only where no blocked group misses a data shard. *)
Definition op_fits (op : DecOp) : Prop :=
  match op with
  | Input (Some bytes) _ => forall d : FecDecoder St, d_shape d = sh -> datagram_arrives sh arrives d bytes
  | Input None _ | ResetEpoch _ => True
  | Tick _ => forall g, Q g -> retry_ready full g
  end.

Lemma run_dec_safe ops n0 d :
  safe_n sh ok Q Good n0 d -> Forall op_fits ops ->
  exists d', run_dec ops d = Some d' /\ safe_n sh ok Q Good n0 d'.
Proof using HQ Hshape Hblk.
  intros Hn Hall. revert d Hn. induction Hall as [|op ops Hop Hall IH]; intros d Hn; cbn [run_dec].
  { by exists d. }
  assert (Hstep : exists d', dec_op op d = Some d' /\ safe_n sh ok Q Good n0 d').
  { destruct op as [datagram now|now|epoch]; cbn [dec_op].
    - edestruct (input_returns codec out sh ok Q full may Good arrives Hshape blk Hblk n0 datagram now d Hn)
        as (st & d' & -> & Hd'); [|by exists d'].
      intros bytes ->. apply Hop. apply (ds_shape _ _ _ _ _ (proj1 Hn)).
    - edestruct (update_returns codec out sh ok Q full may Good arrives Hshape blk Hblk n0 now d Hn)
        as (st & d' & -> & Hd'); [|by exists d'].
      eapply list.Forall_impl; [apply (ds_slots _ _ _ _ _ (proj1 Hn))|]. exact Hop.
    - eexists. split; [done|]. eapply reset_safe; done. }
  destruct Hstep as (d1 & -> & Hn1). by apply IH.
Qed.

End Keep.
End Runs.

(** A decoder after its creation. *)
Lemma new_safe `{HostOrder} {St} (codec : option (CodecVTable St)) c st ok Q full may Good arrives blk
    `{HQ : !SlotInv codec (shape_of c) ok Q full may Good arrives blk} :
  ok st -> safe_n (shape_of c) ok Q Good (Z.to_nat (cfg_group_window c)) (fec_decoder_new c st).
Proof.
  intros Hst. split; [|apply length_replicate]. split; try done.
  apply Forall_replicate. eapply si_blank.
Qed.

(** ** Invariants with a callback that may not block *)

Section Blocked.
Context `{host : HostOrder} {St : Type} (codec : option (CodecVTable St)).
Context (sh : FecShape) (ok : St -> Prop).
Context (Q full : FecDecodeGroup -> Prop) (may : FecDecodeGroup -> nat -> Prop).
Context (Good : list byte -> Prop) (arrives : WireHeader -> list byte -> Prop) (blk : Prop).

Definition blocked_only (g : FecDecodeGroup) : Prop := Q g /\ (g_emit_blocked g = true -> blk).

(** An invariant stays one when it also says that blocked slots come from a blocking callback. *)
Lemma slot_inv_blocked :
  SlotInv codec sh ok Q full may Good arrives True ->
  SlotInv codec sh ok blocked_only full may Good arrives blk.
Proof.
  intros HQ. split.
  - intros g [Hg _]. by eapply si_slot.
  - split; [by eapply si_blank|done].
  - intros h p Ha. split; [by eapply si_open|done].
  - intros g idx [Hg _]. by eapply si_checked.
  - intros g idx [Hg _]. by eapply si_good.
  - intros g idx [Hg _]. by eapply si_readable.
  - by intros g [_ Hb].
  - intros g b l [Hg _] Hb Hu Hl. split; [by eapply si_deliver|done].
  - intros g [Hg Hb]. split; [by eapply si_release|done].
  - intros g [Hg Hb] Hu. split; [by eapply si_complete|done].
  - intros g [Hg Hb] Hu. destruct (si_learn g Hg Hu) as (r & g' & Hp & Hg' & Ha & Hr).
    assert (Hbl : g_emit_blocked g' = g_emit_blocked g).
    { unfold parse_metadata in Hp. repeat case_match; by simplify_eq. }
    exists r, g'. split; [done|]. split; [split; [done|by rewrite Hbl]|]. split; [done|].
    intros c Hc. destruct (Hr c Hc) as (H1 & H2 & H3). split; [done|]. split; [|done].
    split; [done|]. change (g_emit_blocked (learned sh c g')) with (g_emit_blocked g'). by rewrite Hbl.
  - intros g st [Hg Hb] Hu Hst Hk Hf.
    destruct (si_recover g st Hg Hu Hst Hk Hf) as (status & block & st' & H1 & H2 & H3 & H4).
    exists status, block, st'. split; [done|]. split; [done|]. split; [by split|].
    intros Hs. destruct (H4 Hs). split; [by split|done].
  - intros g. eapply si_full.
  - intros g b l. eapply si_full_deliver.
  - intros g h p [Hg Hb] Hu Hid Ha Hm Hc H1 H2. split; [by eapply si_hint|done].
  - intros g h p now [Hg Hb] Hu Hid Ha Hp. split; [by eapply si_store|]. unfold stored. by case_match.
  - intros h p. eapply si_arrives.
Qed.

End Blocked.
