(* ===== verification/FecDelivery.v ===== *)
(** * Delivery by the FEC decoder

    With a callback that takes every message and groups that fit the window, the decoder hands out
    the messages of a group once each: those whose shards came in order at once, all of them as
    soon as [k] shards of the group are known.  The ghost state is [log], the pairs of a group id
    and a message index that were handed out. *)

From Stdlib Require Import Strings.Byte.
From S2P Require Import Prelude WireHeader Gf256 ByteVec RsEncode Codec CodecSpec RsCodec RsRecover.
From S2P Require Import FecTransport FecEncoder FecDecoder FecGroups FecDecoderEmit FecDecoderInv.
From S2P Require Import FecDecoderSpec.

(** ** Loops that the callback never stops *)

Section Loops.
Context `{host : HostOrder} {St : Type} (out : nat -> FecOutputStatus) (sh : FecShape).
Context (Hout : forall j, out j = FEC_OUTPUT_OK).

Abbreviation Dec := (FecDecoder St).

(** What a loop may do with message [x] of [g]: skip it, stop without an error, or emit it. *)
Definition proper_act (act : FecDecodeGroup -> nat -> action) (P : nat -> Prop) (g : FecDecodeGroup)
    (x : nat) : Prop :=
  x < 256 /\ forall b l, match act (deliver b l g) x with
                        | Skip => True
                        | Stop status => status = FEC_OK
                        | Emit => P x /\ length_at g x <> 0%Z /\ delivered (deliver b l g) x = false
                        end.

Lemma emit_loop_ok act P i indices (d : Dec) :
  d_shape d = sh -> i < length (d_groups d) -> length (g_delivered (group_at d i)) = 32 ->
  Forall (proper_act act P (group_at d i)) indices -> (forall x, P x -> readable sh (group_at d i) x) ->
  exists new d', emit_loop out act i indices d = Some (FEC_OK, d') /\ emits out sh i d d' new /\
    Forall (fun c => P (fst c)) new.
Proof using Hout.
  intros Hs Hi Hd Hall. revert d Hs Hi Hd Hall.
  induction indices as [|x rest IH]; intros d Hs Hi Hd Hall HR; cbn [emit_loop].
  { exists [], d. split; [done|]. split; [apply emits_refl|done]. }
  apply list.Forall_cons in Hall as [[Hx Hact] Hall].
  pose proof (Hact (g_emit_blocked (group_at d i)) []) as H0. rewrite deliver_nil in H0.
  destruct (act (group_at d i) x) as [|status|].
  - by apply IH.
  - subst status. exists [], d. split; [done|]. split; [apply emits_refl|done].
  - destruct H0 as (HP & Hlen & Hdl).
    destruct (emit_message_spec out sh i x (emit_loop out act i rest) d Hs Hi Hd Hx Hdl Hlen (HR x HP))
      as (d1 & Hem1 & ->). rewrite Hout in *.
    destruct (emits_at _ _ _ _ _ _ Hem1 Hi) as (b1 & Hg1 & _).
    destruct (IH d1) as (new & d2 & -> & Hem & Hn).
    + rewrite (em_frame _ _ _ _ _ _ Hem1). done.
    + by rewrite (emits_length _ _ _ _ _ _ Hem1).
    + by rewrite Hg1, deliver_length.
    + eapply list.Forall_impl; [exact Hall|]. intros y [Hy Hya]. split; [done|]. intros b l.
      rewrite Hg1, deliver_twice. apply Hya.
    + intros y Hy. unfold readable, length_at. rewrite Hg1. by apply HR.
    + exists ((x, FEC_OUTPUT_OK) :: new), d2. split; [done|]. split; [by apply (emits_cons _ _ i d d1)|].
      by constructor.
Qed.

(** The messages up to [x] are delivered when the loop need not stop before. *)
Lemma emit_loop_prefix act P i l1 l2 (d d' : Dec) :
  d_shape d = sh -> i < length (d_groups d) -> length (g_delivered (group_at d i)) = 32 ->
  Forall (proper_act act P (group_at d i)) (l1 ++ l2) -> (forall x, P x -> readable sh (group_at d i) x) ->
  Forall (fun x => length_at (group_at d i) x <> 0%Z /\ readable sh (group_at d i) x /\ forall b l,
    act (deliver b l (group_at d i)) x =
    if delivered (deliver b l (group_at d i)) x then Skip else Emit) l1 ->
  emit_loop out act i (l1 ++ l2) d = Some (FEC_OK, d') ->
  Forall (fun x => delivered (group_at d' i) x = true) l1.
Proof using Hout.
  intros Hs Hi Hd Hall HR Hl1 Hrun. apply list.Forall_app in Hall as [Hall1 Hall2].
  destruct (emit_loop_delivers out sh act i l1 l2 d Hout Hs Hi Hd) as (new & d1 & Hem & He & Hdl).
  { apply list.Forall_forall. intros x Hx. rewrite list.Forall_forall in Hl1, Hall1.
    destruct (Hl1 x Hx) as (? & ? & ?). by destruct (Hall1 x Hx). }
  rewrite He in Hrun. destruct (emits_at _ _ _ _ _ _ Hem Hi) as (b1 & Hg1 & _).
  destruct (emit_loop_ok act P i l2 d1) as (new2 & d2 & Hrun2 & Hem2 & _).
  - rewrite (em_frame _ _ _ _ _ _ Hem). done.
  - by rewrite (emits_length _ _ _ _ _ _ Hem).
  - by rewrite Hg1, deliver_length.
  - eapply list.Forall_impl; [exact Hall2|]. intros y [Hy Hya]. split; [done|]. intros b l.
    rewrite Hg1, deliver_twice. apply Hya.
  - intros y Hy. unfold readable, length_at. rewrite Hg1. by apply HR.
  - rewrite Hrun in Hrun2. injection Hrun2 as <-. eapply list.Forall_impl; [exact Hdl|].
    intros x Hx. cbn. rewrite (emits_delivered _ _ _ _ _ _ _ Hem2), Hx, orb_true_r; try done.
    + by rewrite (emits_length _ _ _ _ _ _ Hem).
    + by rewrite Hg1, deliver_length.
Qed.

(** No call is refused, so nothing is blocked. *)
Lemma emits_unblocked i (d d' : Dec) new :
  emits out sh i d d' new -> i < length (d_groups d) -> g_emit_blocked (group_at d i) = false ->
  group_at d' i = deliver false (map fst new) (group_at d i) /\
  Forall (fun c => snd c = FEC_OUTPUT_OK) new /\ taken new = map fst new.
Proof using Hout.
  intros Hem Hi Hb. assert (Hok : Forall (fun c => snd c = FEC_OUTPUT_OK) new).
  { apply list.Forall_lookup. intros j c Hc. by rewrite (em_answer _ _ _ _ _ _ Hem j c Hc). }
  assert (Ht : taken new = map fst new).
  { clear Hem. induction Hok as [|[x a] new Ha Hok IH]; [done|]. cbn in Ha. subst a. rewrite taken_cons, IH. done. }
  split; [|done]. destruct (emits_at _ _ _ _ _ _ Hem Hi) as (b & -> & Hbl). rewrite Ht.
  destruct b; [|done]. destruct (Hbl eq_refl) as [H|[x Hx]]; [congruence|].
  rewrite list.Forall_forall in Hok. by apply Hok in Hx.
Qed.

End Loops.

Section Delivery.
Context `{host : HostOrder} {St : Type} (codec : option (CodecVTable St)).
Context (sh : FecShape) (ok : St -> Prop) (code : list byte -> Prop).
Context (Hshape : shape_ok sh).
Context `{Hcode : !BlockCode codec ok (sh_shard_size sh) (sh_k sh) (sh_r sh) code}.
Context (sent : Z -> option Group).
Context (Hsent : forall id G, sent id = Some G -> gr_id G = id /\ group_ok sh code G).
Context (out : nat -> FecOutputStatus) (Hout : forall j, out j = FEC_OUTPUT_OK).

Abbreviation Dec := (FecDecoder St).
Abbreviation sb := (sh_shard_size sh).
Abbreviation m := (sh_message_shards sh).
Abbreviation n := (sh_n sh).
Abbreviation count G := (length (gr_msgs G)).
Abbreviation safe := (dec_safe sh ok (honest sh sent) (sent_message sent)).

#[local] Instance delivery_inv :
  SlotInv codec sh ok (honest sh sent) (all_data sh) ready (sent_message sent) (sent_arrives sh sent) True.
Proof using Hshape Hcode Hsent. by apply honest_slot_inv with (code := code). Qed.

(** ** The log *)

(** Message [idx] of the group [id]. *)
Definition message_of (id : Z) (idx : nat) : list byte :=
  match sent id with Some G => nth idx (gr_msgs G) [] | None => [] end.

(** Slot [j] has handed out message [idx] of group [id]. *)
Definition gave (d : Dec) (j : nat) (id : Z) (idx : nat) : Prop :=
  j < length (d_groups d) /\ in_use (group_at d j) /\ g_group_id (group_at d j) = id /\
  delivered (group_at d j) idx = true.

Record logged (d : Dec) (log : list (Z * nat)) : Prop := {
  lg_calls : d_calls d = map (fun e => (message_of (fst e) (snd e), FEC_OUTPUT_OK)) log;
  lg_nodup : NoDup log;
  lg_iff id idx : (id, idx) ∈ log <-> exists j, gave d j id idx }.

(** The slots in use belong to different groups. *)
Definition uniq (d : Dec) : Prop := forall j j',
  j < length (d_groups d) -> j' < length (d_groups d) ->
  in_use (group_at d j) -> in_use (group_at d j') ->
  g_group_id (group_at d j) = g_group_id (group_at d j') -> j = j'.

Record world (d : Dec) : Prop := {
  wd_safe : safe d;
  wd_unblocked : slots (fun g => g_emit_blocked g = false) d;
  wd_uniq : uniq d;
  wd_log : exists log, logged d log }.

(** [d'] is [d] but for slot [i], the counters, the calls and the state of the codec. *)
Record only_at (i : nat) (d d' : Dec) : Prop := {
  oa_length : length (d_groups d') = length (d_groups d);
  oa_other j : j <> i -> group_at d' j = group_at d j;
  oa_epoch : d_epoch d' = d_epoch d;
  oa_highest : d_highest_group_id d' = d_highest_group_id d;
  oa_valid : d_highest_group_valid d' = d_highest_group_valid d;
  oa_id : g_group_id (group_at d' i) = g_group_id (group_at d i) }.

Lemma only_at_trans i d1 d2 d3 : only_at i d1 d2 -> only_at i d2 d3 -> only_at i d1 d3.
Proof using Type. intros [] []. split; try congruence. intros j Hj. rewrite <- oa_other0; auto. Qed.

Lemma only_at_refl i d : only_at i d d.
Proof using Type. by split. Qed.

Lemma only_at_emits i d d' new : emits out sh i d d' new -> i < length (d_groups d) -> only_at i d d'.
Proof using Type.
  intros Hem Hi. pose proof (em_frame _ _ _ _ _ _ Hem) as Hf. split; try (by rewrite Hf).
  - by eapply emits_length.
  - intros j Hj. by eapply emits_other.
  - destruct (emits_at _ _ _ _ _ _ Hem Hi) as (b & -> & _). done.
Qed.

Lemma only_at_set i d g' :
  i < length (d_groups d) -> g_group_id g' = g_group_id (group_at d i) -> only_at i d (set_group i g' d).
Proof using Type.
  intros Hi Hid. split; try done.
  - cbn. apply length_insert.
  - intros j Hj. by apply group_at_set_ne.
  - by rewrite group_at_set_eq.
Qed.

(** ** Steps that keep the world *)

Lemma world_stats d s : world d -> world (dec_stats s d).
Proof using Type.
  intros [Hs Hb Hu (log & [])]. split; try done; [by apply safe_stats|]. exists log. by split.
Qed.

Lemma world_codec d st : world d -> ok st -> world (dec_codec_state st d).
Proof using Type.
  intros [[] Hb Hu (log & [])] Hst. split; try done. exists log. by split.
Qed.

Lemma world_highest d id v : world d -> world (dec_highest id v d).
Proof using Type.
  intros [[] Hb Hu (log & [])]. split; try done. exists log. by split.
Qed.

Lemma in_use_same g g' : g_active g' = g_active g -> in_use g' <-> in_use g.
Proof using Type. unfold in_use. by intros ->. Qed.

(** A slot that keeps its group, its use and its delivered bits. *)
Lemma world_set d i g' :
  world d -> i < length (d_groups d) -> honest sh sent g' -> g_emit_blocked g' = false ->
  (in_use g' <-> in_use (group_at d i)) -> g_group_id g' = g_group_id (group_at d i) ->
  g_delivered g' = g_delivered (group_at d i) -> world (set_group i g' d).
Proof using Type.
  intros [Hs Hb Hu (log & [Hc Hn Hi])] Hlt Hh Hbl Hiu Hid Hdl.
  assert (Hlen : length (d_groups (set_group i g' d)) = length (d_groups d)) by apply length_insert.
  assert (Hat : forall j, (in_use (group_at (set_group i g' d) j) <-> in_use (group_at d j)) /\
    g_group_id (group_at (set_group i g' d) j) = g_group_id (group_at d j) /\
    forall x, delivered (group_at (set_group i g' d) j) x = delivered (group_at d j) x).
  { intros j. destruct (decide (j = i)) as [->|Hj].
    - rewrite group_at_set_eq by done. split; [done|]. split; [done|]. intros x. unfold delivered. by rewrite Hdl.
    - by rewrite group_at_set_ne by done. }
  split.
  - by apply safe_set.
  - by apply slots_set.
  - intros j j' Hj Hj' Hj1 Hj2 Hids. rewrite Hlen in *. destruct (Hat j) as (E1 & E2 & _).
    destruct (Hat j') as (E1' & E2' & _). apply Hu; try done; [by apply E1|by apply E1'|congruence].
  - exists log. split; [done|done|]. intros id idx. rewrite Hi. unfold gave. rewrite Hlen.
    split; intros (j & Hj & Hju & Hjid & Hjd); exists j; destruct (Hat j) as (E1 & E2 & E3);
      rewrite E2, E3 in *; (split_and!; try done; by apply E1).
Qed.

(** The slots of the window after messages of slot [i] were handed out. *)
Lemma emits_slots (d d' : Dec) i new :
  emits out sh i d d' new -> i < length (d_groups d) -> forall j,
  g_group_id (group_at d' j) = g_group_id (group_at d j) /\
  (in_use (group_at d' j) <-> in_use (group_at d j)).
Proof using Type.
  intros Hem Hlt j. destruct (only_at_emits i d d' new Hem Hlt) as [_ Hoth _ _ _ _].
  destruct (decide (j = i)) as [->|Hj]; [|by rewrite Hoth].
  by destruct (emits_at _ _ _ _ _ _ Hem Hlt) as (b & -> & _).
Qed.

(** What was handed out before or now. *)
Lemma gave_emits (d d' : Dec) i new id x :
  emits out sh i d d' new -> i < length (d_groups d) -> in_use (group_at d i) ->
  length (g_delivered (group_at d i)) = 32 ->
  (exists j, gave d' j id x) <->
  (exists j, gave d j id x) \/ id = g_group_id (group_at d i) /\ x ∈ taken new.
Proof using Type.
  intros Hem Hlt Hiu Hd. pose proof (emits_slots d d' i new Hem Hlt) as Hat.
  pose proof (only_at_emits i d d' new Hem Hlt) as [Hlen Hoth _ _ _ _].
  pose proof (emits_delivered out sh _ _ _ _ x Hem Hlt Hd) as Hdl. unfold gave. rewrite Hlen. split.
  - intros (j & Hj & Hju & Hjid & Hjd). destruct (Hat j) as [E1 E2]. rewrite E1 in Hjid. apply E2 in Hju.
    destruct (decide (j = i)) as [->|Hne]; [|left; exists j; by rewrite Hoth in Hjd].
    rewrite Hdl in Hjd. apply orb_true_iff in Hjd as [Hjd|Hjd]; [right|left; by exists i].
    by apply bool_decide_eq_true in Hjd.
  - intros [(j & Hj & Hju & Hjid & Hjd)|[-> Hx]].
    + exists j. destruct (Hat j) as [-> E2]. split_and!; try done; [by apply E2|].
      destruct (decide (j = i)) as [->|Hne]; [|by rewrite Hoth]. by rewrite Hdl, Hjd, orb_true_r.
    + exists i. destruct (Hat i) as [-> E2]. split_and!; try done; [by apply E2|].
      by rewrite Hdl, bool_decide_true.
Qed.

Lemma logged_emits (d d' : Dec) i new log :
  safe d -> uniq d -> g_emit_blocked (group_at d i) = false -> logged d log -> i < length (d_groups d) ->
  in_use (group_at d i) -> emits out sh i d d' new ->
  Forall (fun c => ready (group_at d i) (fst c)) new ->
  logged d' (log ++ map (fun c => (g_group_id (group_at d i), fst c)) new).
Proof using Hshape Hsent Hout.
  intros Hs Hu Hbi [Hc Hn Hi] Hlt Hiu Hem Hnew.
  destruct (emits_unblocked out sh Hout i d d' new Hem Hlt Hbi) as (_ & Hok & Ht).
  pose proof (safe_at sh ok _ _ d i Hs Hlt) as [Hsl Hrel]. destruct (Hrel Hiu) as (G & HG & Hr).
  assert (Hin_new : forall id x, (id, x) ∈ map (fun c => (g_group_id (group_at d i), fst c)) new <->
            id = g_group_id (group_at d i) /\ x ∈ map fst new).
  { intros id x. rewrite !list_elem_of_In, !in_map_iff. naive_solver. }
  split.
  - rewrite (em_calls _ _ _ _ _ _ Hem), Hc, map_app, map_map. f_equal. apply map_ext_in.
    intros c Hin. apply list_elem_of_In in Hin. rewrite list.Forall_forall in Hnew, Hok.
    rewrite (Hok c Hin). cbn [fst snd]. f_equal. destruct (Hnew c Hin) as (_ & Hp & Hl).
    unfold message_of. rewrite HG, nth_lookup.
    by rewrite (rel_msg sh code Hshape _ G (fst c) (sent_ok sh code sent Hsent _ _ HG) Hsl Hr Hp Hl).
  - apply list.NoDup_app. split; [done|]. split.
    + intros [id x] Hx Hin. apply Hin_new in Hin as [-> Hin].
      apply Hi in Hx as (j & Hj & Hju & Hjid & Hjd). assert (j = i) as -> by (by apply Hu).
      apply list_elem_of_In, in_map_iff in Hin as (c & <- & Hin).
      pose proof (em_fresh _ _ _ _ _ _ Hem) as Hfr. rewrite list.Forall_forall in Hfr.
      apply list_elem_of_In in Hin. specialize (Hfr c Hin). congruence.
    + rewrite <- (map_map fst (fun x => (g_group_id (group_at d i), x))). apply NoDup_fmap_2.
      * intros x y. by intros [= ->].
      * by apply (em_nodup _ _ _ _ _ _ Hem).
  - intros id x. rewrite elem_of_app, Hi, Hin_new.
    rewrite (gave_emits d d' i new id x Hem Hlt Hiu) by (by apply sl_delivered in Hsl). by rewrite Ht.
Qed.

(** Messages are handed out. *)
Lemma world_emits (d d' : Dec) i new :
  world d -> i < length (d_groups d) -> in_use (group_at d i) -> emits out sh i d d' new ->
  Forall (fun c => ready (group_at d i) (fst c)) new -> world d'.
Proof using Hshape Hcode Hsent Hout.
  intros [Hs Hb Hu (log & Hlog)] Hlt Hiu Hem Hnew. pose proof (slots_at _ _ _ Hb Hlt) as Hbi.
  pose proof (safe_emits codec out sh ok _ _ _ _ _ True (fun _ _ => I) i d d' new Hs Hlt Hiu Hem Hnew) as Hs'.
  destruct (emits_unblocked out sh Hout i d d' new Hem Hlt Hbi) as (Hg & _).
  pose proof (emits_slots d d' i new Hem Hlt) as Hat. split; [done| | |].
  - unfold slots. destruct (em_groups _ _ _ _ _ _ Hem) as (b & Hgs & _). rewrite Hgs.
    apply Forall_insert; [done|].
    assert (Hb' : group_at d' i = deliver b (taken new) (group_at d i))
      by (apply group_at_lookup; rewrite Hgs; by apply list_lookup_insert_eq).
    by rewrite Hg in Hb'; injection Hb' as <-.
  - intros j j' Hj Hj' Hj1 Hj2 Hids. rewrite (emits_length _ _ _ _ _ _ Hem) in *.
    destruct (Hat j) as [E1 E2]. destruct (Hat j') as [E1' E2'].
    apply Hu; try done; [by apply E2|by apply E2'|congruence].
  - eexists. by apply (logged_emits d d' i new log).
Qed.

(** ** Settling a slot *)

(** A slot that collects: a shard that came has its length, and the unused shards count as present
    from the first tail shard on, not before the number of messages is known. *)
Record cold (G : Group) (g : FecDecodeGroup) : Prop := {
  cd_active : g_active g = FEC_GROUP_COLLECTING;
  cd_lens j : j < count G -> present g j = true -> length_at g j <> 0%Z;
  cd_unknown s : count_known g = false -> count G <= s < m -> present g s = false;
  cd_tail t s : m <= t < n -> present g t = true -> count G <= s < m -> present g s = true }.

(** In addition, the messages in order were handed out. *)
Definition in_order (G : Group) (g : FecDecodeGroup) : Prop := forall idx,
  idx < count G -> (forall j, j <= idx -> present g j = true) -> delivered g idx = true.

Definition warm (G : Group) (g : FecDecodeGroup) : Prop := cold G g /\ in_order G g.

(** A slot between two calls. *)
Definition settled (G : Group) (g : FecDecodeGroup) : Prop :=
  (warm G g /\ present_count (g_present g) n < sh_k sh) \/
  (g_active g = FEC_GROUP_COMPLETED /\ forall idx, idx < count G -> delivered g idx = true).

Definition settles (i : nat) (G : Group) (d : Dec) (c : option (FecStatus * Dec)) : Prop :=
  exists d', c = Some (FEC_OK, d') /\ world d' /\ only_at i d d' /\ settled G (group_at d' i) /\
    (g_active (group_at d' i) = FEC_GROUP_COLLECTING ->
     forall s, present (group_at d i) s = true -> present (group_at d' i) s = true).

(** Slot [i] is in use for the group [G]. *)
Record at_work (i : nat) (G : Group) (d : Dec) : Prop := {
  aw_world : world d;
  aw_lt : i < length (d_groups d);
  aw_use : g_active (group_at d i) = FEC_GROUP_COLLECTING;
  aw_sent : sent (g_group_id (group_at d i)) = Some G }.

Lemma aw_in_use i G d : at_work i G d -> in_use (group_at d i).
Proof using Type. intros []. unfold in_use. congruence. Qed.

Lemma aw_honest i G d : at_work i G d -> honest sh sent (group_at d i).
Proof using Type. intros [[] ? _ _]. by eapply safe_at. Qed.

Lemma aw_slot i G d : at_work i G d -> slot_ok sh (group_at d i).
Proof using Type. intros H. by destruct (aw_honest i G d H). Qed.

Lemma aw_rel i G d : at_work i G d -> grp_rel sh (group_at d i) G.
Proof using Type. intros H. pose proof H as []. eapply honest_rel; [by eapply aw_honest|by eapply aw_in_use|done]. Qed.

Lemma aw_group i G d : at_work i G d -> group_ok sh code G.
Proof using Hsent. intros []. by eapply sent_ok. Qed.

Lemma aw_blocked i G d : at_work i G d -> g_emit_blocked (group_at d i) = false.
Proof using Type. intros [[] ? _ _]. by eapply slots_at in wd_unblocked0. Qed.

Lemma aw_shape i G d : at_work i G d -> d_shape d = sh.
Proof using Type. intros [[[] _ _ _] _ _ _]. done. Qed.

(** A slot at work is replaced by one that is at work. *)
Lemma aw_set i G d g' :
  at_work i G d -> honest sh sent g' -> g_emit_blocked g' = false ->
  g_active g' = FEC_GROUP_COLLECTING -> g_group_id g' = g_group_id (group_at d i) ->
  g_delivered g' = g_delivered (group_at d i) ->
  at_work i G (set_group i g' d) /\ only_at i d (set_group i g' d) /\ group_at (set_group i g' d) i = g'.
Proof using Type.
  intros Haw Hh Hb Ha Hid Hdl. pose proof Haw as [Hw Hlt Hu Hs].
  assert (Heq : group_at (set_group i g' d) i = g') by (by apply group_at_set_eq).
  split; [|split; [by apply only_at_set|done]]. split; rewrite ?Heq; try done.
  - apply world_set; try done. apply in_use_same. congruence.
  - cbn. by rewrite length_insert.
  - by rewrite Hid.
Qed.

(** Messages are handed out of a slot at work. *)
Lemma aw_emits i G d d' new :
  at_work i G d -> emits out sh i d d' new -> Forall (fun c => ready (group_at d i) (fst c)) new ->
  at_work i G d' /\ only_at i d d' /\ group_at d' i = deliver false (map fst new) (group_at d i).
Proof using Hshape Hcode Hsent Hout.
  intros Haw Hem Hnew. pose proof Haw as [Hw Hlt Hu Hs]. pose proof (aw_in_use i G d Haw) as Hiu.
  destruct (emits_unblocked out sh Hout i d d' new Hem Hlt (aw_blocked _ _ _ Haw)) as (Hg & _).
  pose proof (only_at_emits i d d' new Hem Hlt) as Ho.
  split; [|done]. split; rewrite ?Hg; try done.
  - by apply (world_emits d d' i new).
  - by rewrite (oa_length _ _ _ Ho).
Qed.

Lemma aw_stats i G d s : at_work i G d -> at_work i G (dec_stats s d).
Proof using Type. intros []. split; try done. by apply world_stats. Qed.

Lemma only_at_stats i d d' s : only_at i d d' -> only_at i d (dec_stats s d').
Proof using Type. by intros []. Qed.

Lemma record_group_loss_stats g b (d : Dec) : exists s, record_group_loss g b d = dec_stats s d.
Proof using Type.
  unfold record_group_loss. destruct (bool_decide _); [by exists (d_stats d); destruct d|].
  destruct (count_missing _ _) as [mc mr]. destruct (_ =? 0)%Z; [by exists (d_stats d); destruct d|].
  repeat case_match; by eexists.
Qed.

(** Completing a slot whose messages were all handed out. *)
Lemma complete_settles i G d d0 :
  at_work i G d -> only_at i d0 d -> (forall idx, idx < count G -> delivered (group_at d i) idx = true) ->
  settles i G d0 (Some (FEC_OK, complete_group i d)).
Proof using Hshape Hcode Hsent.
  intros Haw Ho Hall. pose proof Haw as [Hw Hlt Hu Hs]. pose proof (aw_honest i G d Haw) as Hh.
  unfold complete_group. rewrite Hu. rewrite bool_decide_false by done.
  destruct (record_group_loss_stats (group_at d i) false d) as [st ->].
  set (d1 := dec_stats st d). assert (Hw1 : world d1) by (by apply world_stats).
  change (upd_group i g_complete d1) with (set_group i (g_complete (group_at d i)) d1).
  assert (Heq : group_at (set_group i (g_complete (group_at d i)) d1) i = g_complete (group_at d i))
    by (by apply group_at_set_eq).
  eexists. split; [done|]. split; [apply world_stats, world_set; try done|split; [|split]].
  - eapply si_complete; [done|by eapply aw_in_use].
  - split; intros _; [exact (aw_in_use i G d Haw)|done].
  - apply only_at_stats. eapply only_at_trans; [exact Ho|].
    change (only_at i d (dec_stats st (set_group i (g_complete (group_at d i)) d))).
    by apply only_at_stats, only_at_set.
  - right. change (group_at (dec_count _ ?x) i) with (group_at x i). rewrite Heq. split; [done|exact Hall].
  - change (group_at (dec_count _ ?x) i) with (group_at x i). by rewrite Heq.
Qed.

(** The length table is read. *)
Lemma learn_world i G d next :
  at_work i G d -> present (group_at d i) m = true ->
  exists d1 l, learn_metadata i next d = next (count G) d1 /\ at_work i G d1 /\ only_at i d d1 /\
    group_at d1 i = learned sh (count G) (g_set_lengths l (group_at d i)) /\
    forall j, j < count G -> length_at (group_at d1 i) j <> 0%Z.
Proof using Hshape Hcode Hsent.
  intros Haw Hm. pose proof (aw_group _ _ _ Haw) as HG.
  destruct (rel_parse codec sh ok code Hshape (group_at d i) G HG) as (l & Hp & Hl & Hn);
    [by eapply aw_slot|by apply aw_rel|done|].
  destruct (honest_learn codec sh ok code Hshape sent Hsent (group_at d i)) as (r & g' & Hp' & _ & _ & Hr);
    [by eapply aw_honest|by eapply aw_in_use|].
  rewrite Hp in Hp'. injection Hp' as <- <-. destruct (Hr (count G) eq_refl) as (_ & Hh & _).
  unfold learn_metadata. rewrite (aw_shape _ _ _ Haw), Hp.
  destruct (aw_set i G d (learned sh (count G) (g_set_lengths l (group_at d i))) Haw Hh) as (Haw1 & Ho & Heq).
  - apply (aw_blocked _ _ _ Haw).
  - apply (aw_use _ _ _ Haw).
  - done.
  - done.
  - eexists _, l. split; [done|]. split; [exact Haw1|]. split; [exact Ho|]. split; [exact Heq|].
    intros j Hj. fold (learned sh (count G) (g_set_lengths l (group_at d i))). rewrite Heq.
    unfold length_at. cbn. rewrite Hn. destruct (lookup_lt_is_Some_2 (gr_msgs G) j Hj) as [msg Hmsg].
    rewrite Hmsg. pose proof (group_msg sh code G j msg HG Hmsg). lia.
Qed.

(** The loop over all messages, when they are all there. *)
Lemma emit_everything i G d c :
  at_work i G d -> c <= 255 ->
  (forall x, x < c -> present (group_at d i) x = true /\ length_at (group_at d i) x <> 0%Z) ->
  exists d' l, emit_all_loop out i (seq 0 c) d = Some (FEC_OK, d') /\ at_work i G d' /\ only_at i d d' /\
    group_at d' i = deliver false l (group_at d i) /\
    forall idx, idx < c -> delivered (group_at d' i) idx = true.
Proof using Hshape Hcode Hsent Hout.
  intros Haw Hc Hall. rewrite (all_loop out sh) by (by eapply aw_shape).
  assert (Hacts : Forall (proper_act act_all (ready (group_at d i)) (group_at d i)) (seq 0 c)).
  { apply list.Forall_forall. intros x Hx. apply elem_of_seq in Hx. split; [lia|]. intros b lx.
    destruct (Hall x) as [Hp Hl]; [lia|]. unfold act_all. destruct (delivered _ x) eqn:Hd; [done|].
    split; [|done]. split; [by eapply aw_in_use|done]. }
  pose proof (sl_delivered _ _ (aw_slot _ _ _ Haw)) as Hdl.
  assert (HR : forall x, ready (group_at d i) x -> readable sh (group_at d i) x)
    by (intros x; eapply honest_readable; try done; by eapply aw_honest).
  destruct (emit_loop_ok out sh Hout act_all (ready (group_at d i)) i (seq 0 c) d)
    as (new & d2 & Hrun & Hem & Hnew); [by eapply aw_shape|apply Haw|done|done|done|].
  destruct (aw_emits i G d d2 new Haw Hem Hnew) as (Haw2 & Ho2 & Hg2).
  exists d2, (map fst new). split_and!; try done. intros idx Hidx.
  assert (Hpre : Forall (fun x => delivered (group_at d2 i) x = true) (seq 0 c)).
  { apply (emit_loop_prefix out sh Hout act_all (ready (group_at d i)) i (seq 0 c) [] d d2);
      rewrite ?app_nil_r; try done; [by eapply aw_shape|apply Haw|].
    apply list.Forall_forall. intros x Hx. apply elem_of_seq in Hx. destruct (Hall x) as [Hp Hl]; [lia|].
    split; [done|]. split; [|done]. apply HR. split; [by eapply aw_in_use|done]. }
  rewrite list.Forall_forall in Hpre. apply Hpre, elem_of_seq. lia.
Qed.

Lemma finish_settles i G d d0 :
  at_work i G d -> only_at i d0 d -> all_data sh (group_at d i) -> settles i G d0 (finish_group out i d).
Proof using Hshape Hcode Hsent Hout.
  intros Haw Ho Hall. pose proof (shape_facts sh Hshape). pose proof (go_count _ _ _ (aw_group _ _ _ Haw)).
  unfold finish_group, emit_from_metadata.
  destruct (learn_world i G d (fun data_count d => emit_all_loop out i (seq 0 data_count) d) Haw)
    as (d1 & l & -> & Haw1 & Ho1 & Hg1 & Hlen1); [apply Hall; lia|].
  destruct (emit_everything i G d1 (count G) Haw1) as (d2 & l2 & Hrun & Haw2 & Ho2 & Hg2 & Hdone); [lia| |].
  { intros x Hx. split; [|by apply Hlen1]. rewrite Hg1. unfold learned.
    pose proof (aw_slot _ _ _ Haw) as Hsl. rewrite mark_unused_present by (destruct Hsl; done || lia).
    apply orb_true_iff. right. apply (Hall x). lia. }
  rewrite Hrun. cbn [if_ok]. replace (messages_complete (group_at d2 i)) with true.
  - apply complete_settles; [done|eauto using only_at_trans|done].
  - symmetry. unfold messages_complete, all_messages_delivered. apply andb_true_iff.
    split; [by rewrite Hg2, Hg1|]. replace (g_data_count (group_at d2 i)) with (count G) by (by rewrite Hg2, Hg1).
    apply forallb_forall. intros idx Hidx. apply in_seq in Hidx. apply Hdone. lia.
Qed.

Lemma only_at_codec i d d' st : only_at i d d' -> only_at i d (dec_codec_state st d').
Proof using Type. by intros []. Qed.

Lemma recover_settles i G d d0 :
  at_work i G d -> only_at i d0 d -> warm G (group_at d i) ->
  (forall s, present (group_at d0 i) s = true -> present (group_at d i) s = true) ->
  settles i G d0 (recover_group codec out i d).
Proof using Hshape Hcode Hsent Hout.
  intros Haw Ho Hwm Hmono. unfold recover_group. rewrite (aw_shape _ _ _ Haw).
  destruct (Nat.ltb_spec (present_count (g_present (group_at d i)) n) (sh_k sh)) as [Hlt|Hge].
  { exists d. split; [done|]. split; [apply Haw|]. split; [done|]. split; [by left|done]. }
  rewrite filter_negb_zero. destruct (forallb _ _) eqn:Hf.
  { apply finish_settles; try done. intros s Hs. rewrite forallb_forall in Hf. apply Hf, in_seq. lia. }
  pose proof (aw_honest _ _ _ Haw) as Hh.
  destruct (honest_recover codec sh ok code Hshape sent Hsent (group_at d i) (d_codec_state d))
    as (G' & st' & HG' & -> & Hst' & Hh1 & Hh2 & Hfull); try done;
    [by eapply aw_in_use|apply Haw|].
  rewrite (aw_sent _ _ _ Haw) in HG'. injection HG' as <-. cbn [default].
  set (d1 := upd_group i (g_set_block (gr_word G)) d).
  destruct (aw_set i G d (g_set_block (gr_word G) (group_at d i)) Haw Hh1) as (Haw1 & Ho1 & Hg1);
    [apply (aw_blocked _ _ _ Haw)|apply (aw_use _ _ _ Haw)|done|done|]. fold d1 in Haw1, Ho1, Hg1.
  set (d2 := dec_add _ _ _).
  assert (Haw2 : at_work i G d2).
  { apply aw_stats, aw_stats. destruct Haw1. split; try done. by apply world_codec. }
  assert (Ho2 : only_at i d d2) by (by apply only_at_stats, only_at_stats, only_at_codec).
  assert (Hg2 : group_at d2 i = g_set_block (gr_word G) (group_at d i)) by exact Hg1.
  unfold upd_group. rewrite Hg2. fold (recovered sh (gr_word G) (group_at d i)).
  destruct (aw_set i G d2 (recovered sh (gr_word G) (group_at d i)) Haw2 Hh2) as (Haw3 & Ho3 & Hg3);
    [apply (aw_blocked _ _ _ Haw)|apply (aw_use _ _ _ Haw)|by rewrite Hg2|by rewrite Hg2|].
  apply finish_settles; [exact Haw3|eauto using only_at_trans|]. by rewrite Hg3.
Qed.

Lemma settle_settles i G d d0 :
  at_work i G d -> only_at i d0 d -> warm G (group_at d i) ->
  (forall s, present (group_at d0 i) s = true -> present (group_at d i) s = true) ->
  settles i G d0 (settle_group codec out i d).
Proof using Hshape Hcode Hsent Hout.
  intros Haw Ho Hwm Hmono. unfold settle_group. rewrite (aw_shape _ _ _ Haw).
  destruct (present (group_at d i) m) eqn:Hm; [|by apply recover_settles].
  pose proof (aw_slot _ _ _ Haw) as Hsl. pose proof (shape_facts sh Hshape).
  pose proof (go_count _ _ _ (aw_group _ _ _ Haw)).
  edestruct (learn_world i G d) as (d1 & l & -> & Haw1 & Ho1 & Hg1 & Hlen1); [done|done|].
  assert (Hpr : forall s, present (group_at d1 i) s =
            bool_decide (count G <= s < m) || present (group_at d i) s).
  { intros s. rewrite Hg1. unfold learned. by rewrite mark_unused_present by (destruct Hsl; done || lia). }
  destruct (all_messages_delivered _ _) eqn:Hall.
  - apply complete_settles; [done|eauto using only_at_trans|]. unfold all_messages_delivered in Hall.
    rewrite forallb_forall in Hall. intros idx Hidx. apply Hall, in_seq. lia.
  - apply recover_settles; [done|eauto using only_at_trans| |].
    + destruct Hwm as [[Ha Hl Hk Ht] Hp]. split; [split|].
      * by rewrite Hg1.
      * intros j Hj _. by apply Hlen1.
      * by rewrite Hg1.
      * intros t s _ _ Hs. by rewrite Hpr, bool_decide_true.
      * intros idx Hidx Hj. rewrite Hg1. apply Hp; [done|]. intros j Hle. specialize (Hj j Hle).
        rewrite Hpr, bool_decide_false in Hj by lia. done.
    + intros s Hs. rewrite Hpr. apply orb_true_iff. right. auto.
Qed.

(** ** Handing out what is there *)

Lemma aw_length i G d j :
  at_work i G d -> cold G (group_at d i) -> j < count G -> present (group_at d i) j = true ->
  ready (group_at d i) j /\ bad_len sh (length_at (group_at d i) j) = false.
Proof using Hsent.
  intros Haw Hc Hj Hp. pose proof (cd_lens _ _ Hc j Hj Hp) as Hl. split.
  { split; [by eapply aw_in_use|done]. }
  destruct (gs_lens _ _ _ (aw_rel _ _ _ Haw) j Hl) as (msg & Hmsg & E).
  pose proof (group_msg sh code G j msg (aw_group _ _ _ Haw) Hmsg). unfold bad_len.
  rewrite (proj2 (Z.eqb_neq _ 0)), Z.gtb_ltb, E by done. cbn [orb]. apply Z.ltb_ge. lia.
Qed.

(** The messages a loop looks at: those of the group, or none of its shards is there. *)
Lemma limit_cases i G d x :
  at_work i G d -> cold G (group_at d i) -> x < emit_limit sh (group_at d i) ->
  x < 256 /\ (x < count G \/ present (group_at d i) x = false).
Proof using Hshape Hsent.
  intros Haw Hc Hx. pose proof (shape_facts sh Hshape). pose proof (go_count _ _ _ (aw_group _ _ _ Haw)).
  unfold emit_limit in Hx. destruct (count_known (group_at d i)) eqn:Hk.
  - rewrite (gs_count _ _ _ (aw_rel _ _ _ Haw) Hk) in Hx. lia.
  - split; [lia|]. destruct (decide (x < count G)); [by left|right].
    apply (cd_unknown _ _ Hc); [done|lia].
Qed.

Lemma limit_count i G d :
  at_work i G d -> count G <= emit_limit sh (group_at d i).
Proof using Hshape Hsent.
  intros Haw. pose proof (go_count _ _ _ (aw_group _ _ _ Haw)). unfold emit_limit.
  destruct (count_known (group_at d i)) eqn:Hk; [|lia].
  by rewrite (gs_count _ _ _ (aw_rel _ _ _ Haw) Hk).
Qed.

Lemma contiguous_proper i G d x :
  at_work i G d -> cold G (group_at d i) -> x < emit_limit sh (group_at d i) ->
  proper_act (act_contiguous sh) (ready (group_at d i)) (group_at d i) x.
Proof using Hshape Hsent.
  intros Haw Hc Hx. destruct (limit_cases i G d x Haw Hc Hx) as [Hs Hx']. split; [done|]. intros b l.
  unfold act_contiguous. destruct (delivered _ x) eqn:Hd; [done|].
  change (present (deliver b l (group_at d i)) x) with (present (group_at d i) x).
  change (length_at (deliver b l (group_at d i)) x) with (length_at (group_at d i) x).
  destruct (present (group_at d i) x) eqn:Hp; [|done]. cbn [negb]. destruct Hx' as [Hx'|]; [|done].
  destruct (aw_length i G d x Haw Hc Hx' Hp) as [Hr ->]. split; [done|]. split; [apply Hr|done].
Qed.

Lemma available_proper i G d x :
  at_work i G d -> cold G (group_at d i) -> x < emit_limit sh (group_at d i) ->
  proper_act (act_available sh) (ready (group_at d i)) (group_at d i) x.
Proof using Hshape Hsent.
  intros Haw Hc Hx. destruct (limit_cases i G d x Haw Hc Hx) as [Hs Hx']. split; [done|]. intros b l.
  unfold act_available.
  change (present (deliver b l (group_at d i)) x) with (present (group_at d i) x).
  change (length_at (deliver b l (group_at d i)) x) with (length_at (group_at d i) x).
  destruct (present (group_at d i) x) eqn:Hp; [|done]. cbn [negb orb].
  destruct (delivered _ x) eqn:Hd; [done|]. destruct Hx' as [Hx'|]; [|done].
  destruct (aw_length i G d x Haw Hc Hx' Hp) as [Hr ->]. split; [done|]. split; [apply Hr|done].
Qed.

(** A loop of proper actions over the messages of a slot. *)
Lemma emit_proper i G d act :
  at_work i G d ->
  (forall x, x < emit_limit sh (group_at d i) -> proper_act act (ready (group_at d i)) (group_at d i) x) ->
  exists d' l, emit_loop out act i (seq 0 (emit_limit sh (group_at d i))) d = Some (FEC_OK, d') /\
    at_work i G d' /\ only_at i d d' /\ group_at d' i = deliver false l (group_at d i) /\
    Forall (fun x => x < 256) l.
Proof using Hshape Hcode Hsent Hout.
  intros Haw Hact. pose proof (sl_delivered _ _ (aw_slot _ _ _ Haw)) as Hdl.
  destruct (emit_loop_ok out sh Hout act (ready (group_at d i)) i
              (seq 0 (emit_limit sh (group_at d i))) d) as (new & d' & Hrun & Hem & Hnew);
    [by eapply aw_shape|apply Haw|done| | |].
  { apply list.Forall_forall. intros x Hx. apply elem_of_seq in Hx. apply Hact. lia. }
  { intros x. eapply honest_readable; try done. by eapply aw_honest. }
  destruct (aw_emits i G d d' new Haw Hem Hnew) as (Haw' & Ho & Hg). exists d', (map fst new).
  split_and!; try done. apply Forall_map. apply (em_small _ _ _ _ _ _ Hem).
Qed.

(** [emit_contiguous] hands out the messages in order. *)
Lemma contiguous_in_order i G d :
  at_work i G d -> cold G (group_at d i) ->
  exists d' l, emit_contiguous out i d = Some (FEC_OK, d') /\ at_work i G d' /\ only_at i d d' /\
    group_at d' i = deliver false l (group_at d i) /\ in_order G (group_at d' i).
Proof using Hshape Hcode Hsent Hout.
  intros Haw Hc. unfold emit_contiguous. rewrite (aw_shape _ _ _ Haw), (contiguous_loop out sh) by (by eapply aw_shape).
  destruct (emit_proper i G d (act_contiguous sh) Haw) as (d' & l & Hrun & Haw' & Ho & Hg & _);
    [by eauto using contiguous_proper|].
  exists d', l. split_and!; try done. intros idx Hidx Hpres.
  pose proof (limit_count i G d Haw) as Hlim. set (lim := emit_limit sh (group_at d i)) in *.
  assert (Hsplit : seq 0 lim = seq 0 (S idx) ++ seq (S idx) (lim - S idx))
    by (rewrite <- seq_app; f_equal; lia). rewrite Hsplit in Hrun.
  assert (Hpre : Forall (fun x => delivered (group_at d' i) x = true) (seq 0 (S idx))).
  { eapply (emit_loop_prefix out sh Hout (act_contiguous sh) (ready (group_at d i))); try done.
    - by eapply aw_shape.
    - apply Haw.
    - apply (sl_delivered _ _ (aw_slot _ _ _ Haw)).
    - rewrite <- Hsplit. apply list.Forall_forall. intros x Hx. apply elem_of_seq in Hx.
      apply (contiguous_proper i G); [done|done|]. fold lim. lia.
    - intros x. eapply honest_readable; try done. by eapply aw_honest.
    - apply list.Forall_forall. intros x Hx. apply elem_of_seq in Hx.
      assert (Hp : present (group_at d i) x = true) by (specialize (Hpres x ltac:(lia)); by rewrite Hg in Hpres).
      destruct (aw_length i G d x Haw Hc ltac:(lia) Hp) as [Hr Hb]. split; [apply Hr|].
      split; [eapply honest_readable; try done; by eapply aw_honest|]. intros b l'.
      unfold act_contiguous. destruct (delivered _ x); [done|].
      change (present (deliver b l' (group_at d i)) x) with (present (group_at d i) x).
      change (length_at (deliver b l' (group_at d i)) x) with (length_at (group_at d i) x).
      by rewrite Hp, Hb. }
  rewrite list.Forall_forall in Hpre. apply Hpre, elem_of_seq. lia.
Qed.

Lemma available_ok i G d :
  at_work i G d -> cold G (group_at d i) ->
  exists d' l, emit_available out i d = Some (FEC_OK, d') /\ at_work i G d' /\ only_at i d d' /\
    group_at d' i = deliver false l (group_at d i) /\ Forall (fun x => x < 256) l.
Proof using Hshape Hcode Hsent Hout.
  intros Haw Hc. unfold emit_available. rewrite (aw_shape _ _ _ Haw), (available_loop out sh) by (by eapply aw_shape).
  apply (emit_proper i G d (act_available sh) Haw). by eauto using available_proper.
Qed.

(** ** A shard *)

(** Shard [x] came for slot [i]. *)
Definition takes (i : nat) (G : Group) (x : nat) (d : Dec) (c : option (FecStatus * Dec)) : Prop :=
  exists d', c = Some (FEC_OK, d') /\ world d' /\ only_at i d d' /\ settled G (group_at d' i) /\
    (g_active (group_at d' i) = FEC_GROUP_COLLECTING ->
     g_active (group_at d i) = FEC_GROUP_COLLECTING /\ present (group_at d' i) x = true /\
     forall s, present (group_at d i) s = true -> present (group_at d' i) s = true).

Lemma settles_takes i G x d d0 c :
  settles i G d c -> only_at i d0 d -> g_active (group_at d0 i) = FEC_GROUP_COLLECTING ->
  present (group_at d i) x = true ->
  (forall s, present (group_at d0 i) s = true -> present (group_at d i) s = true) -> takes i G x d0 c.
Proof using Type.
  intros (d' & -> & Hw & Ho & Hs & Hm) Ho0 Hc0 Hx Hm0. exists d'. split; [done|]. split; [done|].
  split; [by eapply only_at_trans|]. split; [done|]. auto.
Qed.

(** The header and payload of shard [x] of [G]. *)
Definition shard_comes (G : Group) (x : nat) (h : WireHeader) (p : list byte) : Prop :=
  sends sh G x /\ wh_shard_index h = Z.of_nat x /\ p = shard_bytes sb (gr_word G) x /\
  (x < m -> exists msg, gr_msgs G !! x = Some msg /\ wh_payload_len h = Z.of_nat (length msg)) /\
  (m <= x -> wh_valid_len h = Z.of_nat ((count G + 1) * sb)).

Lemma stored_fields h p now g x :
  wh_shard_index h = Z.of_nat x -> length (g_present g) = 32 -> x < 256 ->
  g_active (stored sh h p now g) = g_active g /\ g_group_id (stored sh h p now g) = g_group_id g /\
  g_delivered (stored sh h p now g) = g_delivered g /\ g_emit_blocked (stored sh h p now g) = g_emit_blocked g /\
  count_known (stored sh h p now g) = count_known g /\
  forall s, present (stored sh h p now g) s = (x =? s) || present g s.
Proof using Type.
  intros Hx Hl Hs. unfold stored. rewrite Hx, Nat2Z.id.
  destruct (x <? m); (split_and!; try done; intros s; unfold present; by apply present_set_present).
Qed.

Lemma stored_cold i G x h p now d :
  at_work i G d -> cold G (group_at d i) -> shard_comes G x h p ->
  (m <= x -> forall s, count G <= s < m -> present (group_at d i) s = true) ->
  cold G (stored sh h p now (group_at d i)).
Proof using Hshape Hsent.
  intros Haw [Ha Hl Hk Ht] (Hs & Hx & _ & Hlen & _) Hun. pose proof (aw_group _ _ _ Haw) as HG.
  pose proof (aw_slot _ _ _ Haw) as [Hsp _ Hsl _ _].
  pose proof (shape_facts sh Hshape). pose proof (go_count _ _ _ HG). pose proof (so_max sh Hshape).
  destruct (stored_fields h p now (group_at d i) x Hx Hsp) as (E1 & _ & _ & _ & E5 & E6);
    [destruct Hs; lia|]. split.
  - congruence.
  - intros j Hj Hp. rewrite E6 in Hp. unfold length_at, stored. rewrite Hx, Nat2Z.id.
    destruct (Nat.eqb_spec x j) as [->|Hne].
    + rewrite (proj2 (Nat.ltb_lt j m)) by lia. cbn [g_lengths g_set_lengths g_set_present g_set_block g_seen].
      rewrite nth_lookup, list_lookup_insert_eq by lia.
      destruct (Hlen ltac:(lia)) as (msg & Hm & ->). cbn. pose proof (group_msg sh code G j msg HG Hm). lia.
    + cbn [orb] in Hp. destruct (x <? m); [|by apply Hl].
      cbn [g_lengths g_set_lengths g_set_present g_set_block g_seen].
      rewrite nth_lookup, list_lookup_insert_ne, <- nth_lookup by done. by apply Hl.
  - intros s Hkn Hs'. rewrite E5 in Hkn. rewrite E6, (Hk s Hkn Hs'). rewrite orb_false_r.
    apply Nat.eqb_neq. destruct Hs; lia.
  - intros t s Htn Hp Hs'. rewrite E6 in *. apply orb_true_iff. right.
    apply orb_true_iff in Hp as [Hp|Hp]; [|by apply (Ht t)].
    apply Nat.eqb_eq in Hp. subst t. apply Hun; [lia|done].
Qed.

Lemma accept_takes i G x h p now d :
  at_work i G d -> warm G (group_at d i) -> shard_comes G x h p -> wh_block_id h = g_group_id (group_at d i) ->
  (m <= x -> forall s, count G <= s < m -> present (group_at d i) s = true) ->
  (present (group_at d i) x = true -> present_count (g_present (group_at d i)) n < sh_k sh) ->
  takes i G x d (accept_shard codec out i h p now d).
Proof using Hshape Hcode Hsent Hout.
  intros Haw [Hc Hord] Hsc Hid Hun Hfew. unfold accept_shard. rewrite (aw_shape _ _ _ Haw).
  pose proof Hsc as (Hs & Hx & Hp & Hlen & Hval). rewrite Hx, Nat2Z.id, (aw_use _ _ _ Haw).
  rewrite bool_decide_false by done. cbn [orb].
  pose proof (shape_facts sh Hshape). pose proof (go_count _ _ _ (aw_group _ _ _ Haw)).
  pose proof (so_max sh Hshape). assert (Hx256 : x < 256) by (destruct Hs; lia).
  destruct (present (group_at d i) x) eqn:Hpx.
  { eexists. split; [done|]. split; [apply world_stats, Haw|]. split; [by split|]. split; [|done].
    left. by split; [|auto]. }
  pose proof (stored_cold i G x h p now d Haw Hc Hsc Hun) as Hc1.
  destruct (stored_fields h p now (group_at d i) x Hx) as (E1 & E2 & E3 & E4 & E5 & E6);
    [apply (sl_present _ _ (aw_slot _ _ _ Haw))|done|].
  assert (Hh1 : honest sh sent (stored sh h p now (group_at d i))).
  { eapply honest_store; try done; [by eapply aw_honest|by eapply aw_in_use|].
    exists G, x. rewrite Hid, (aw_sent _ _ _ Haw). by split_and!. }
  assert (Hst : store_shard sh x (wh_payload_len h) p now (group_at d i)
    = Some (stored sh h p now (group_at d i))).
  { pose proof (store_shard_stored codec sh ok _ _ _ _ _ Hshape _ (HQ := delivery_inv)) as Hss.
    rewrite <- (Hss _ h p now (aw_honest _ _ _ Haw)),
      Hx, Nat2Z.id; [done|]. exists G, x. rewrite Hid, (aw_sent _ _ _ Haw). by split_and!. }
  rewrite Hst. clear Hst.
  set (d0 := dec_count received_datagrams d). assert (Haw0 : at_work i G d0) by (by apply aw_stats).
  destruct (aw_set i G d0 (stored sh h p now (group_at d i)) Haw0 Hh1) as (Haw1 & Ho1 & Hg1);
    [by rewrite E4; apply (aw_blocked _ _ _ Haw)|by rewrite E1; apply (aw_use _ _ _ Haw)|done|done|].
  assert (Hmono : forall s, present (group_at d i) s = true -> present (stored sh h p now (group_at d i)) s = true)
    by (intros s Hps; by rewrite E6, Hps, orb_true_r).
  assert (Hnew : present (stored sh h p now (group_at d i)) x = true) by (by rewrite E6, Nat.eqb_refl).
  unfold stored in *. rewrite Hx, Nat2Z.id in *. destruct (Nat.ltb_spec x m) as [Hxm|Hxm].
  - destruct (contiguous_in_order i G _ Haw1) as (d2 & l & Hrun & Haw2 & Ho2 & Hg2 & Hord2);
      [by rewrite Hg1|]. cbn zeta. rewrite Hrun. cbn [if_ok].
    apply (settles_takes i G x d2).
    + apply settle_settles; [done|apply only_at_refl| |done]. split; [|done]. rewrite Hg2, Hg1.
      by destruct Hc1.
    + eapply only_at_trans; [|exact Ho2]. by destruct Ho1.
    + apply Haw.
    + by rewrite Hg2, Hg1.
    + rewrite Hg2, Hg1. done.
  - eapply (settles_takes i G x).
    + apply settle_settles; [exact Haw1|apply only_at_refl| |done]. split; [by rewrite Hg1|].
      rewrite Hg1. intros idx Hidx Hj. apply Hord; [done|]. intros j Hle. specialize (Hj j Hle).
      rewrite E6, (proj2 (Nat.eqb_neq x j)) in Hj by lia. done.
    + by destruct Ho1.
    + apply Haw.
    + by rewrite Hg1.
    + rewrite Hg1. done.
Qed.

(** A tail shard of the group announces its number of messages. *)
Lemma tail_hint_ok i G x h p d :
  safe d -> i < length (d_groups d) -> in_use (group_at d i) -> sent (g_group_id (group_at d i)) = Some G ->
  shard_comes G x h p -> m <= x -> wh_block_id h = g_group_id (group_at d i) ->
  apply_tail_hint i h d = (FEC_OK, set_group i (hinted sh (count G) (group_at d i)) d) /\
  honest sh sent (hinted sh (count G) (group_at d i)).
Proof using Hshape Hsent.
  intros Hs Hlt Hu HG (Hse & Hx & Hp & Hlen & Hval) Hm Hid. specialize (Hval Hm).
  pose proof (safe_at sh ok _ _ d i Hs Hlt) as Hh. pose proof (sent_ok sh code sent Hsent _ _ HG) as HGok.
  pose proof (honest_rel sh sent _ G Hh Hu HG) as Hrel. pose proof (shape_facts sh Hshape).
  pose proof (go_count _ _ _ HGok). pose proof (so_m sh Hshape).
  assert (Hdiv : (wh_valid_len h / Z.of_nat sb - 1 = Z.of_nat (count G))%Z)
    by (rewrite Hval, Nat2Z.inj_mul, Z.div_mul by lia; lia).
  assert (Hhint : hint_of sh h = count G).
  { unfold hint_of. rewrite Hdiv. unfold u8, uwrap. rewrite Z.mod_small by lia. lia. }
  split.
  2:{ rewrite <- Hhint. eapply honest_hint; try done.
      - exists G, x. rewrite Hid, HG. by split_and!.
      - rewrite Hx. lia. }
  unfold apply_tail_hint. rewrite (ds_shape _ _ _ _ _ Hs).
  rewrite (proj2 (Z.ltb_ge _ _)), Z.gtb_ltb, (proj2 (Z.ltb_ge _ _)) by nia.
  replace (wh_valid_len h mod Z.of_nat sb)%Z with 0%Z
    by (rewrite Hval, Nat2Z.inj_mul, Z.mod_mul by lia; done). cbn [Z.eqb negb orb].
  fold (hint_of sh h). rewrite Hhint.
  rewrite (proj2 (Nat.eqb_neq (count G) 0)), (proj2 (Nat.ltb_ge m (count G))) by lia.
  destruct (g_data_count_hint_valid (group_at d i)) eqn:Hv; [|done].
  rewrite (gs_count _ _ _ Hrel), Nat.eqb_refl; [done|]. unfold count_known. by rewrite Hv, orb_true_r.
Qed.

Lemma hinted_present i G d s :
  at_work i G d ->
  present (hinted sh (count G) (group_at d i)) s = bool_decide (count G <= s < m) || present (group_at d i) s.
Proof using Hshape Hsent.
  intros Haw. pose proof (aw_slot _ _ _ Haw). pose proof (shape_facts sh Hshape).
  pose proof (go_count _ _ _ (aw_group _ _ _ Haw)).
  unfold hinted. by rewrite mark_unused_present by (destruct H; done || lia).
Qed.

Lemma hinted_warm i G d :
  at_work i G d -> warm G (group_at d i) -> warm G (hinted sh (count G) (group_at d i)).
Proof using Hshape Hsent.
  intros Haw [[Ha Hl Hk Ht] Hord]. pose proof (hinted_present i G d) as Hp. split; [split|].
  - done.
  - intros j Hj Hpj. rewrite Hp, bool_decide_false in Hpj by (done || lia). by apply Hl.
  - intros s Hkn. unfold count_known in Hkn. cbn in Hkn. by rewrite orb_true_r in Hkn.
  - intros t s _ _ Hs. by rewrite Hp, bool_decide_true.
  - intros idx Hidx Hj. apply Hord; [done|]. intros j Hle. specialize (Hj j Hle).
    rewrite Hp, bool_decide_false in Hj by (done || lia). done.
Qed.

Lemma present_count_ext bits bits' k :
  (forall s, s < k -> codec_present_get bits s = codec_present_get bits' s) ->
  present_count bits k = present_count bits' k.
Proof using Type.
  intros H. unfold present_count. f_equal. apply filter_ext_in. intros s Hs. apply H.
  apply in_seq in Hs. lia.
Qed.

(** A data shard of the group lies below the number of messages. *)
Lemma data_index_ok g G x :
  grp_rel sh g G -> x < count G ->
  g_data_count_hint_valid g && (Z.of_nat (g_data_count g) <=? Z.of_nat x)%Z = false.
Proof using Type.
  intros Hrel Hx. destruct (g_data_count_hint_valid g) eqn:Hv; [|done].
  rewrite (gs_count _ _ _ Hrel) by (unfold count_known; by rewrite Hv, orb_true_r).
  cbn [andb]. apply Z.leb_gt. lia.
Qed.

(** A shard of the group of a slot that collects. *)
Lemma input_collecting i G x h p now d :
  at_work i G d -> warm G (group_at d i) -> present_count (g_present (group_at d i)) n < sh_k sh ->
  shard_comes G x h p -> wh_block_id h = g_group_id (group_at d i) ->
  takes i G x d (input_shard codec out i h p now d).
Proof using Hshape Hcode Hsent Hout.
  intros Haw Hwm Hfew Hsc Hid. pose proof Hsc as (Hs & Hx & Hp & Hlen & Hval).
  pose proof (go_count _ _ _ (aw_group _ _ _ Haw)). pose proof (shape_facts sh Hshape).
  unfold input_shard. rewrite (aw_shape _ _ _ Haw), Hx, !Z.geb_leb.
  destruct (Z.leb_spec (Z.of_nat m) (Z.of_nat x)) as [Hm|Hm].
  - destruct (tail_hint_ok i G x h p d) as [-> Hh1]; try done;
      [apply Haw|apply Haw|by eapply aw_in_use|apply Haw|lia|]. cbn [if_ok].
    destruct (aw_set i G d (hinted sh (count G) (group_at d i)) Haw Hh1) as (Haw1 & Ho1 & Hg1);
      [apply (aw_blocked _ _ _ Haw)|apply (aw_use _ _ _ Haw)|done|done|].
    pose proof (hinted_present i G d) as Hpr.
    destruct (accept_takes i G x h p now _ Haw1) as (d' & Hrun & Hw & Ho & Hset & Hcol).
    + rewrite Hg1. by apply hinted_warm.
    + done.
    + by rewrite Hg1.
    + intros _ s Hs'. rewrite Hg1, Hpr by done. by rewrite bool_decide_true.
    + rewrite Hg1. intros Hpx. rewrite Hpr, bool_decide_false in Hpx by (done || lia). cbn [orb] in Hpx.
      erewrite present_count_ext; [exact Hfew|]. intros s Hsn.
      change (present (hinted sh (count G) (group_at d i)) s = present (group_at d i) s). rewrite Hpr by done.
      case_bool_decide as Hb; [|done]. cbn [orb]. symmetry. destruct Hwm as [Hc _].
      apply (cd_tail _ _ Hc x); [destruct Hs; lia|done|done].
    + exists d'. split; [done|]. split; [done|]. split; [by eapply only_at_trans|]. split; [done|].
      intros Hc. destruct (Hcol Hc) as (_ & Hpx & Hmono). split; [apply Haw|]. split; [done|].
      intros s Hps. apply Hmono.
      rewrite Hg1, Hpr by done. by rewrite Hps, orb_true_r.
  - assert (Hxc : x < count G) by (destruct Hs; lia).
    rewrite (data_index_ok _ G) by (done || by apply aw_rel). apply accept_takes; try done. lia.
Qed.

(** A shard of a group that is complete changes nothing that matters. *)
Lemma input_completed i G x h p now d :
  world d -> i < length (d_groups d) -> g_active (group_at d i) = FEC_GROUP_COMPLETED ->
  sent (g_group_id (group_at d i)) = Some G -> settled G (group_at d i) ->
  shard_comes G x h p -> wh_block_id h = g_group_id (group_at d i) ->
  takes i G x d (input_shard codec out i h p now d).
Proof using Hshape Hsent.
  intros Hw Hlt Hact HG Hset Hsc Hid. pose proof Hsc as (Hs & Hx & Hp & Hlen & Hval).
  assert (Hu : in_use (group_at d i)) by (unfold in_use; congruence).
  pose proof (safe_at sh ok _ _ d i (wd_safe d Hw) Hlt) as Hh.
  pose proof (honest_rel sh sent _ G Hh Hu HG) as Hrel. pose proof (go_count _ _ _ (sent_ok sh code sent Hsent _ _ HG)).
  assert (Hdone : forall idx, idx < count G -> delivered (group_at d i) idx = true).
  { destruct Hset as [[[[Hc _ _ _] _] _]|[_ Hset]]; [congruence|done]. }
  unfold input_shard. rewrite (ds_shape _ _ _ _ _ (wd_safe d Hw)), Hx, !Z.geb_leb.
  destruct (Z.leb_spec (Z.of_nat m) (Z.of_nat x)) as [Hm|Hm].
  - destruct (tail_hint_ok i G x h p d) as [-> Hh1]; try done; [apply Hw|lia|]. cbn [if_ok].
    assert (Hw1 : world (set_group i (hinted sh (count G) (group_at d i)) d)).
    { apply world_set; try done. by apply (slots_at _ _ _ (wd_unblocked d Hw)) in Hlt. }
    pose proof (group_at_set_eq d i (hinted sh (count G) (group_at d i)) Hlt) as Hg1.
    unfold accept_shard. rewrite Hg1. cbn [g_active hinted mark_unused_zeros g_set_present g_hint].
    rewrite Hact, bool_decide_true by done. cbn [orb]. eexists. split; [done|].
    split; [by apply world_stats|]. split; [by apply only_at_stats, only_at_set|].
    change (group_at (dec_count _ ?y) i) with (group_at y i). rewrite Hg1. split; [right; by split|].
    cbn. by rewrite Hact.
  - assert (Hxc : x < count G) by (destruct Hs; lia).
    rewrite (data_index_ok _ G) by done.
    unfold accept_shard. rewrite Hact, bool_decide_true by done. cbn [orb]. eexists. split; [done|].
    split; [by apply world_stats|]. split; [by apply only_at_stats|].
    change (group_at (dec_count _ ?y) i) with (group_at y i). split; [done|]. by rewrite Hact.
Qed.

End Delivery.

(** * Runs of the FEC decoder

    Every datagram of groups that fit the window is accepted, whatever the order and the losses;
    [tracked] relates the window to the shards that came. *)

(** ** The scan of the window *)

Lemma older_some gs i id best : is_Some (older gs i id best).
Proof. unfold older. repeat case_match; eauto. Qed.

(** The scan finds the group when a slot has it, else a free slot when there is one. *)
Lemma scan_complete gs id j g :
  gs !! j = Some g -> (in_use g /\ g_group_id g = id \/ g_active g = FEC_GROUP_FREE) ->
  is_Some (sc_found (scan_groups gs id)) \/
  (~ (in_use g /\ g_group_id g = id) /\ is_Some (sc_free (scan_groups gs id))).
Proof.
  intros Hg Hcase.
  set (P s := is_Some (sc_found s) \/ (~ (in_use g /\ g_group_id g = id) /\ is_Some (sc_free s))).
  assert (Hkeep : forall l s, P s -> P (foldl (scan_step gs id) s l)).
  { induction l as [|x l IH]; intros s Hs; cbn [foldl]; [done|]. apply IH. unfold scan_step.
    destruct Hs as [[y Hy]|[Hn [y Hy]]]; [rewrite Hy; left; by exists y|].
    destruct (sc_found s) as [z|] eqn:Hz; [left; rewrite Hz; by exists z|].
    repeat case_match; try (left; by eexists); try (right; split; [done|]; cbn; rewrite ?Hy; by eexists). }
  assert (Hj : j ∈ seq 0 (length gs)) by (apply elem_of_seq; apply lookup_lt_Some in Hg; lia).
  unfold scan_groups. apply list_elem_of_split in Hj as (l1 & l2 & ->). rewrite foldl_app. cbn [foldl].
  apply Hkeep. set (s := foldl _ _ l1). unfold P, scan_step.
  destruct (sc_found s) as [z|] eqn:Hz; [left; rewrite Hz; by exists z|]. rewrite Hg.
  destruct Hcase as [[Hu Hid]|Hfree].
  - unfold in_use in Hu. rewrite Hid, Z.eqb_refl. left. destruct (g_active g); [done|by eexists..].
  - rewrite Hfree. right. split; [intros [Hu _]; by apply Hu|]. cbn. case_match; by eexists.
Qed.

(** The statuses of a sequence of [fec_decoder_input] calls, and the decoder after them. *)
Fixpoint run_inputs `{HostOrder} {St} (codec : option (CodecVTable St)) (out : nat -> FecOutputStatus)
    (arrivals : list (list Z * Z)) (d : FecDecoder St) : option (list FecStatus * FecDecoder St) :=
  match arrivals with
  | [] => Some ([], d)
  | (datagram, now) :: rest =>
      match fec_decoder_input codec out (Some datagram) now d with
      | None => None
      | Some (status, d) =>
          match run_inputs codec out rest d with
          | None => None
          | Some (statuses, d) => Some (status :: statuses, d)
          end
      end
  end.

Section Run.
Context `{host : HostOrder} {St : Type} (codec : option (CodecVTable St)).
Context (sh : FecShape) (ok : St -> Prop) (code : list byte -> Prop).
Context (Hshape : shape_ok sh).
Context `{Hcode : !BlockCode codec ok (sh_shard_size sh) (sh_k sh) (sh_r sh) code}.
Context (sent : Z -> option Group).
Context (Hsent : forall id G, sent id = Some G -> gr_id G = id /\ group_ok sh code G).
Context (out : nat -> FecOutputStatus) (Hout : forall j, out j = FEC_OUTPUT_OK).

Abbreviation Dec := (FecDecoder St).
Abbreviation sb := (sh_shard_size sh).
Abbreviation m := (sh_message_shards sh).
Abbreviation n := (sh_n sh).
Abbreviation count G := (length (gr_msgs G)).
Abbreviation safe := (dec_safe sh ok (honest sh sent) (sent_message sent)).
Abbreviation world := (world sh ok sent).

(** The group ids of the run lie in one window of [n0] numbers. *)
Context (epoch lo : Z) (n0 : nat).

Definition in_window (id : Z) : Prop := (lo <= id < lo + Z.of_nat n0)%Z.

(** [recv] lists the shards that came, as pairs of a group id and an index. *)
Record tracked (recv : list (Z * nat)) (d : Dec) : Prop := {
  tk_world : world d;
  tk_length : length (d_groups d) = n0;
  tk_epoch : d_epoch d = epoch;
  tk_highest : d_highest_group_valid d = true -> in_window (d_highest_group_id d);
  tk_slot j : j < n0 -> in_use (group_at d j) ->
    exists G, sent (g_group_id (group_at d j)) = Some G /\ settled sh G (group_at d j) /\
      in_window (g_group_id (group_at d j)) /\
      (g_active (group_at d j) = FEC_GROUP_COLLECTING ->
       forall x, (g_group_id (group_at d j), x) ∈ recv -> present (group_at d j) x = true);
  tk_seen id x : (id, x) ∈ recv ->
    exists j, j < n0 /\ in_use (group_at d j) /\ g_group_id (group_at d j) = id }.

(** ** Moves of one slot *)

(** Slot [i] changes and shards [new] came for it. *)
Lemma tracked_move recv new d d' i G :
  tracked recv d -> i < n0 -> in_use (group_at d i) -> world d' -> only_at i d d' ->
  in_use (group_at d' i) -> sent (g_group_id (group_at d i)) = Some G -> settled sh G (group_at d' i) ->
  (g_active (group_at d' i) = FEC_GROUP_COLLECTING ->
     g_active (group_at d i) = FEC_GROUP_COLLECTING /\
     (forall x, x ∈ new -> present (group_at d' i) x = true) /\
     (forall x, present (group_at d i) x = true -> present (group_at d' i) x = true)) ->
  tracked (map (fun x => (g_group_id (group_at d i), x)) new ++ recv) d'.
Proof using Type.
  intros [Hw Hl He Hh Hs Hseen] Hi Hu Hw' [O1 O2 O3 O4 O5 O6] Hu' HG Hset Hcol.
  assert (Hid : forall j, g_group_id (group_at d' j) = g_group_id (group_at d j))
    by (intros j; destruct (decide (j = i)) as [->|]; [done|by rewrite O2]).
  split; try done; [congruence|congruence|by rewrite O4, O5| |].
  - intros j Hj Hju. destruct (decide (j = i)) as [->|Hne].
    + destruct (Hs i Hi Hu) as (G' & HG' & _ & Hwin & Hpr). rewrite O6. exists G. split; [done|].
      split; [done|]. split; [done|]. intros Hc. destruct (Hcol Hc) as (Hc0 & Hnew & Hmono).
      intros x Hx. apply elem_of_app in Hx as [Hx|Hx]; [|by apply Hmono, Hpr].
      apply list_elem_of_In, in_map_iff in Hx as (y & [= <-] & Hy). by apply Hnew, list_elem_of_In.
    + rewrite O2 in * by done. destruct (Hs j Hj Hju) as (G' & HG' & Hse & Hwin & Hpr).
      exists G'. split_and!; try done. intros Hc x Hx. apply Hpr; [done|].
      apply elem_of_app in Hx as [Hx|Hx]; [|done].
      apply list_elem_of_In, in_map_iff in Hx as (y & [= E _] & _).
      exfalso. apply Hne. symmetry. apply (wd_uniq _ _ _ _ Hw); try done; lia.
  - intros id x Hx. apply elem_of_app in Hx as [Hx|Hx].
    + apply list_elem_of_In, in_map_iff in Hx as (y & [= <- <-] & _). exists i. by rewrite O6.
    + destruct (Hseen id x Hx) as (j & Hj & Hju & Hjid). exists j. split; [done|]. rewrite Hid.
      split; [|done]. destruct (decide (j = i)) as [->|]; [done|by rewrite O2].
Qed.

Lemma tracked_at_work recv d i :
  tracked recv d -> i < n0 -> g_active (group_at d i) = FEC_GROUP_COLLECTING ->
  exists G, at_work sh ok sent i G d /\ settled sh G (group_at d i) /\
    warm sh G (group_at d i) /\ present_count (g_present (group_at d i)) n < sh_k sh.
Proof using Type.
  intros [Hw Hl He Hh Hs Hseen] Hi Hc.
  destruct (Hs i Hi) as (G & HG & Hset & _ & _); [unfold in_use; congruence|].
  exists G. split; [split; try done; lia|]. split; [done|]. destruct Hset as [[Hwm Hf]|[Hd _]]; [done|congruence].
Qed.

(** ** Releasing older groups *)

Lemma settled_deliver G g b l :
  slot_ok sh g -> Forall (fun x => x < 256) l -> settled sh G g -> settled sh G (g_release (deliver b l g)).
Proof using Type.
  intros Hsl Hl. assert (Hd : forall x, delivered g x = true -> delivered (deliver b l g) x = true).
  { intros x Hx. rewrite delivered_deliver, Hx, orb_true_r by (done || by apply sl_delivered in Hsl). done. }
  intros [[[[H1 H2 H3 H4] Hord] Hf]|[Ha Hall]]; [left|right].
  - split; [|exact Hf]. split; [by split|]. intros idx Hidx Hj. by apply (Hd idx), Hord.
  - split; [done|]. intros idx Hidx. by apply (Hd idx), Hall.
Qed.

Lemma release_tracked recv turns id d status d' :
  tracked recv d -> release_loop out turns id d = Some (status, d') ->
  status = FEC_OK /\ tracked recv d'.
Proof using Hshape Hcode Hsent Hout.
  revert d; induction turns as [|turns IH]; intros d Ht; cbn [release_loop];
    (destruct (release_candidate (d_groups d) id) as [i|] eqn:Hi; [|by intros [= <- <-]]); [done|].
  apply release_candidate_ok in Hi as (g & Hg & Hr). apply lookup_lt_Some in Hg as Hlt.
  pose proof (group_at_lookup _ _ _ Hg) as Hat. unfold releasable in Hr. apply andb_true_iff in Hr as [Hr _].
  apply bool_decide_eq_true in Hr. rewrite <- Hat in Hr. rewrite (tk_length _ _ Ht) in Hlt.
  destruct (tracked_at_work recv d i Ht Hlt Hr) as (G & Haw & Hset & [Hc _] & _).
  destruct (available_ok codec sh ok code Hshape sent Hsent out Hout i G d Haw Hc)
    as (d1 & l & Hrun & Haw1 & Ho1 & Hg1 & Hl).
  rewrite Hrun. cbn [if_ok]. rewrite (aw_blocked _ _ _ _ _ _ Haw1). apply IH. unfold upd_group.
  destruct (aw_set sh ok sent i G d1 (g_release (group_at d1 i)) Haw1) as (Haw2 & Ho2 & Hg2).
  { eapply (si_release (SlotInv := honest_slot_inv codec sh ok code Hshape sent Hsent)).
    by eapply aw_honest. }
  { apply (aw_blocked _ _ _ _ _ _ Haw1). } { apply (aw_use _ _ _ _ _ _ Haw1). } { done. } { done. }
  apply (tracked_move recv [] d _ i G); try done.
  - by eapply aw_in_use.
  - apply Haw2.
  - by eapply only_at_trans.
  - by eapply aw_in_use.
  - apply Haw.
  - rewrite Hg2, Hg1. apply settled_deliver; [by eapply aw_slot|done|done].
  - intros _. rewrite Hg2, Hg1. split; [done|]. split; [|done]. intros x Hx. by apply elem_of_nil in Hx.
Qed.

Lemma note_highest_tracked recv id d :
  tracked recv d -> in_window id ->
  exists d', note_highest out id d = Some (FEC_OK, d') /\ tracked recv d'.
Proof using Hshape Hcode Hsent Hout.
  intros Ht Hid. unfold note_highest. case_match; [|by exists d]. pose proof Ht as [[Hs _ _ _] Hl _ _ _ _].
  destruct (release_loop_returns codec out sh ok (honest sh sent) (all_data sh) ready (sent_message sent)
              (sent_arrives sh sent) Hshape True (fun _ _ => I) (HQ := honest_slot_inv codec sh ok code Hshape sent Hsent)
              n0 (length (d_groups d)) id d)
    as (status & d1 & Hrun & _); [by split|unfold release_count; apply filter_length_le|].
  unfold release_older_groups. rewrite Hrun. destruct (release_tracked _ _ _ _ _ _ Ht Hrun) as [-> Ht1].
  eexists. split; [done|]. destruct Ht1. split; try done. by apply world_highest.
Qed.

(** ** Opening a group *)

Abbreviation opened id := (g_activate id (blank_group sh)).

Lemma opened_empty id x : present (opened id) x = false /\ delivered (opened id) x = false.
Proof using Type.
  unfold present, delivered. cbn [g_present g_delivered g_activate blank_group].
  by rewrite !present_get_zero.
Qed.

Lemma opened_settled id G : group_ok sh code G -> settled sh G (opened id).
Proof using Hshape.
  intros HG. pose proof (go_count _ _ _ HG) as Hc. left. split; [split; [split|]|].
  - done.
  - intros j _ Hp. by rewrite (proj1 (opened_empty id j)) in Hp.
  - intros s _ _. apply opened_empty.
  - intros t s _ Hp. by rewrite (proj1 (opened_empty id t)) in Hp.
  - intros idx _ Hj. specialize (Hj 0 ltac:(lia)). by rewrite (proj1 (opened_empty id 0)) in Hj.
  - replace (present_count (g_present (opened id)) n) with 0; [destruct Hshape; lia|].
    symmetry. unfold present_count. induction (seq 0 n) as [|x l IH]; [done|]. cbn [List.filter].
    by rewrite (proj1 (opened_empty id x) : codec_present_get (g_present (opened id)) x = false).
Qed.

Lemma open_tracked recv d i id G :
  tracked recv d -> i < n0 -> g_active (group_at d i) = FEC_GROUP_FREE -> sent id = Some G -> in_window id ->
  (forall j, j < n0 -> in_use (group_at d j) -> g_group_id (group_at d j) <> id) ->
  tracked recv (open_group i id d) /\ group_at (open_group i id d) i = opened id.
Proof using Hshape Hsent.
  intros [[Hs Hb Hun (log & [Hlc Hln Hli])] Hl He Hh Hsl Hseen] Hi Hfree HG Hwin Hnew.
  unfold open_group, group_clear. rewrite (ds_shape _ _ _ _ _ Hs).
  set (d' := set_group i (opened id) d).
  assert (Hat : group_at d' i = opened id) by (apply group_at_set_eq; lia).
  assert (Hoth : forall j, j <> i -> group_at d' j = group_at d j) by (intros j Hj; by apply group_at_set_ne).
  assert (Hlen : length (d_groups d') = length (d_groups d)) by apply length_insert.
  assert (Hold : forall j, in_use (group_at d j) -> group_at d' j = group_at d j).
  { intros j Hj. apply Hoth. intros ->. by apply Hj. }
  split; [|done]. split; try done; [|by rewrite Hlen| |].
  - split.
    + apply safe_set; [done|]. split; [destruct (blank_slot_ok sh); by split|]. intros _. exists G.
      split; [done|]. by apply blank_rel.
    + by apply slots_set.
    + intros j j' Hj Hj' Hu Hu' Hid. rewrite Hlen in *. rewrite Hl in *.
      destruct (decide (j = i)) as [->|Hne], (decide (j' = i)) as [->|Hne']; [done| | |].
      * rewrite Hat, (Hoth j' Hne') in *. exfalso. by apply (Hnew j').
      * rewrite Hat, (Hoth j Hne) in *. exfalso. by apply (Hnew j).
      * rewrite !Hoth in * by done. apply Hun; try done; lia.
    + exists log. split; [done|done|]. intros id' x. rewrite Hli. unfold gave. rewrite Hlen. split.
      * intros (j & Hj & Hju & Hjid & Hjd). exists j. by rewrite Hold.
      * intros (j & Hj & Hju & Hjid & Hjd). destruct (decide (j = i)) as [->|Hne].
        -- rewrite Hat in Hjd. by rewrite (proj2 (opened_empty id x)) in Hjd.
        -- rewrite Hoth in * by done. by exists j.
  - intros j Hj Hu. destruct (decide (j = i)) as [->|Hne]; [|rewrite Hoth in * by done; by apply Hsl].
    rewrite Hat. exists G. split; [done|]. split; [apply opened_settled; by eapply sent_ok|].
    split; [done|]. intros _ x Hx. destruct (Hseen id x Hx) as (j & Hj' & Hju & Hjid).
    exfalso. by apply (Hnew j).
  - intros id' x Hx. destruct (Hseen id' x Hx) as (j & Hj & Hju & Hjid). exists j. by rewrite Hold.
Qed.

(** While a group of the window has no slot, some slot is free. *)
Lemma free_slot recv d id :
  tracked recv d -> in_window id ->
  (forall j, j < n0 -> in_use (group_at d j) -> g_group_id (group_at d j) <> id) ->
  exists j, j < n0 /\ g_active (group_at d j) = FEC_GROUP_FREE.
Proof using Type.
  intros Ht Hid Hnew.
  destruct (decide (Exists (fun j => g_active (group_at d j) = FEC_GROUP_FREE) (seq 0 n0))) as [Hex|Hno].
  { apply list.Exists_exists in Hex as (j & Hj & Hf). apply elem_of_seq in Hj. exists j. split; [lia|done]. }
  exfalso. assert (Hall : forall j, j < n0 -> in_use (group_at d j)).
  { intros j Hj Hf. apply Hno, list.Exists_exists. exists j. split; [apply elem_of_seq; lia|done]. }
  set (ids := id :: map (fun j => g_group_id (group_at d j)) (seq 0 n0)).
  set (range := map (fun k => (lo + Z.of_nat k)%Z) (seq 0 n0)).
  assert (Hnd : List.NoDup ids).
  { constructor.
    - intros Hin. apply in_map_iff in Hin as (j & E & Hj). apply in_seq in Hj. apply (Hnew j); [lia| |done].
      apply Hall. lia.
    - apply NoDup_map_NoDup_ForallPairs; [|apply seq_NoDup]. intros j j' Hj Hj' E.
      apply in_seq in Hj, Hj'. apply (wd_uniq _ _ _ _ (tk_world _ _ Ht)); rewrite ?(tk_length _ _ Ht);
        first [done|lia|apply Hall; lia]. }
  assert (Hrange : forall z, in_window z -> In z range).
  { intros z Hz. apply in_map_iff. exists (Z.to_nat (z - lo)). unfold in_window in Hz.
    split; [lia|]. apply in_seq. lia. }
  assert (Hincl : incl ids range).
  { intros z [<-|Hz]; [by apply Hrange|]. apply in_map_iff in Hz as (j & <- & Hj). apply in_seq in Hj.
    apply Hrange. destruct (tk_slot _ _ Ht j) as (_ & _ & _ & Hw & _); [lia|apply Hall; lia|done]. }
  pose proof (NoDup_incl_length Hnd Hincl) as Hle. unfold ids, range in Hle. cbn [length] in Hle.
  rewrite !length_map, !length_seq in Hle. lia.
Qed.

(** [find_group] finds the slot of the group or opens one. *)
Lemma find_tracked recv d id G :
  tracked recv d -> sent id = Some G -> in_window id ->
  exists i d', find_group out id d = Some (FoundGroup i, d') /\ i < n0 /\ tracked recv d' /\
    in_use (group_at d' i) /\ g_group_id (group_at d' i) = id.
Proof using Hshape Hsent.
  intros Ht HG Hwin. pose proof (tk_length _ _ Ht) as Hl. unfold find_group.
  destruct (scan_groups_ok (d_groups d) id) as [Hf Hfr _ _].
  destruct (sc_found _) as [i|] eqn:Ef.
  { destruct (Hf i eq_refl) as (g & Hg & Hu & Hid). apply lookup_lt_Some in Hg as Hi.
    exists i, d. rewrite (group_at_lookup _ _ _ Hg). split_and!; try done. lia. }
  assert (Hnew : forall j, j < n0 -> in_use (group_at d j) -> g_group_id (group_at d j) <> id).
  { intros j Hj Hu Hid. destruct (scan_complete (d_groups d) id j (group_at d j)) as [[y Hy]|[Hn _]];
      [apply lookup_group_at; lia|by left|congruence|by apply Hn]. }
  destruct (free_slot recv d id Ht Hwin Hnew) as (j & Hj & Hjf).
  destruct (scan_complete (d_groups d) id j (group_at d j)) as [[y Hy]|[_ [i Hi]]];
    [apply lookup_group_at; lia|by right|congruence|].
  rewrite Hi. destruct (Hfr i Hi) as (g & Hg & Hifree). apply lookup_lt_Some in Hg as Hilt.
  rewrite <- (group_at_lookup _ _ _ Hg) in Hifree.
  destruct (open_tracked recv d i id G Ht ltac:(lia) Hifree HG Hwin Hnew) as [Ht' Hat].
  exists i, (open_group i id d). rewrite Hat. split_and!; try done. lia.
Qed.

(** ** Datagrams *)

(** A datagram of the run: shard [x] of group [G]. *)
Definition in_run (G : Group) (x : nat) : Prop :=
  sent (gr_id G) = Some G /\ sends sh G x /\ in_window (gr_id G) /\ u32 (Z.shiftr (gr_id G) 32) = epoch.

Lemma arrives_comes G x h p :
  sent_arrives sh sent h p -> sent (wh_block_id h) = Some G -> wh_shard_index h = Z.of_nat x ->
  shard_comes sh G x h p.
Proof using Type.
  intros (G' & x' & HG' & Hs & Hx' & Hp & Hlen & Hval) HG Hx. assert (G' = G) as -> by congruence.
  assert (x' = x) as -> by lia. by split_and!.
Qed.

(** Every datagram of the run is accepted. *)
Lemma input_tracked recv d G x now :
  tracked recv d -> in_run G x ->
  exists d', fec_decoder_input codec out (Some (datagram_of sh G x)) now d = Some (FEC_OK, d') /\
    tracked ((gr_id G, x) :: recv) d'.
Proof using Hshape Hcode Hsent Hout.
  intros Ht (HG & Hs & Hwin & Hep). pose proof (sent_ok sh code sent Hsent _ _ HG) as HGok.
  destruct (datagram_of_decode codec sh ok code Hshape sent G x HGok HG Hs)
    as (h & Hdec & Hid & Hx & Harr & Hty & Hlen & Hshp).
  unfold fec_decoder_input. rewrite Hdec, Hlen, Hty, Hid. cbn [Nat.add WIRE_HEADER_SIZE Nat.eqb Nat.ltb Nat.leb].
  change (S (43 + sb)) with (WIRE_HEADER_SIZE + sb). rewrite Hshp by apply Ht. cbn [Z.eqb negb].
  rewrite Z.eqb_refl. cbn [negb]. rewrite Hep, (tk_epoch _ _ Ht), Z.eqb_refl, (tk_length _ _ Ht). cbn [negb].
  replace (d_highest_group_valid d && (gr_id G <? d_highest_group_id d)%Z &&
           (d_highest_group_id d - gr_id G >=? Z.of_nat n0)%Z) with false.
  2:{ symmetry. destruct (d_highest_group_valid d) eqn:Hv; [|done]. pose proof (tk_highest _ _ Ht Hv) as Hh.
      unfold in_window in Hh, Hwin. rewrite Z.geb_leb, (proj2 (Z.leb_gt _ _)) by lia. by rewrite andb_false_r. }
  destruct (note_highest_tracked recv (gr_id G) d Ht Hwin) as (d1 & -> & Ht1). cbn [if_ok].
  destruct (find_tracked recv d1 (gr_id G) G Ht1 HG Hwin) as (i & d2 & -> & Hi & Ht2 & Hu & Hgid).
  rewrite (ds_shape _ _ _ _ _ (wd_safe _ _ _ _ (tk_world _ _ Ht2))).
  rewrite <- Hid in HG. pose proof (arrives_comes G x h _ Harr HG Hx) as Hsc. rewrite Hid in HG.
  destruct (tk_slot _ _ Ht2 i Hi Hu) as (G' & HG' & Hset & _ & _).
  rewrite Hgid, HG in HG'. injection HG' as <-. pose proof (tk_length _ _ Ht2) as Hl2.
  assert (Htk : takes sh ok sent i G x d2 (input_shard codec out i h
            (map Z_to_byte (read_at (datagram_of sh G x) WIRE_HEADER_SIZE sb)) now d2)).
  { destruct (g_active (group_at d2 i)) eqn:Hact; [done| |].
    - destruct (tracked_at_work recv d2 i Ht2 Hi Hact) as (G2 & Haw & _ & Hwm & Hfew).
      pose proof (aw_sent _ _ _ _ _ _ Haw) as E. rewrite Hgid, HG in E. injection E as <-.
      eapply input_collecting; try done. by rewrite Hgid, Hid.
    - eapply input_completed; try done; [apply Ht2|lia|by rewrite Hgid|by rewrite Hgid, Hid]. }
  destruct Htk as (d3 & Hrun & Hw3 & Ho3 & Hset3 & Hcol3). exists d3. split; [exact Hrun|].
  rewrite <- Hgid. apply (tracked_move recv [x] d2 d3 i G); try done.
  - destruct Hset3 as [[[Hc _] _]|[Hc _]]; unfold in_use; [rewrite (cd_active _ _ _ Hc)|rewrite Hc]; done.
  - by rewrite Hgid.
  - intros Hc. destruct (Hcol3 Hc) as (Hc2 & Hpx & Hmono). split; [done|]. split; [|done].
    intros y Hy. apply list_elem_of_singleton in Hy. by subst.
Qed.

(** A datagram names its group and its shard. *)
Lemma datagram_of_inj G x G' x' :
  in_run G x -> in_run G' x' -> datagram_of sh G x = datagram_of sh G' x' -> gr_id G = gr_id G' /\ x = x'.
Proof using Hshape Hcode Hsent.
  intros (HG & Hs & _) (HG' & Hs' & _) E.
  destruct (datagram_of_decode codec sh ok code Hshape sent G x (sent_ok sh code sent Hsent _ _ HG) HG Hs)
    as (h & Hdec & Hid & Hx & _).
  destruct (datagram_of_decode codec sh ok code Hshape sent G' x' (sent_ok sh code sent Hsent _ _ HG') HG' Hs')
    as (h' & Hdec' & Hid' & Hx' & _).
  rewrite E, Hdec' in Hdec. injection Hdec as ->. split; [congruence|lia].
Qed.

Definition of_run (datagram : list Z) : Prop := exists G x, datagram = datagram_of sh G x /\ in_run G x.

Lemma run_tracked arrivals recv d :
  tracked recv d -> Forall (fun a => of_run (fst a)) arrivals ->
  exists d' recv', run_inputs codec out arrivals d = Some (replicate (length arrivals) FEC_OK, d') /\
    tracked recv' d' /\ recv ⊆ recv' /\
    forall G x, in_run G x -> datagram_of sh G x ∈ map fst arrivals -> (gr_id G, x) ∈ recv'.
Proof using Hshape Hcode Hsent Hout.
  intros Ht Hall. revert recv d Ht. induction Hall as [|[dg now] rest (G & x & Hdg & Hrun) Hall IH];
    intros recv d Ht; cbn [run_inputs fst map] in *.
  { exists d, recv. split_and!; try done. intros G x _ H. by apply elem_of_nil in H. }
  destruct (input_tracked recv d G x now Ht Hrun) as (d1 & Hin & Ht1). rewrite Hdg, Hin.
  destruct (IH _ d1 Ht1) as (d2 & recv2 & -> & Ht2 & Hsub & Hcov).
  exists d2, recv2. split; [done|]. split; [done|]. split.
  - intros e He. apply Hsub. by right.
  - intros G' x' Hrun' Hin'. apply elem_of_cons in Hin' as [E|Hin']; [|by apply Hcov].
    destruct (datagram_of_inj _ _ _ _ Hrun' Hrun E) as [-> ->]. apply Hsub. by left.
Qed.

(** ** What was delivered *)

(** A group of which [count + 1] shards came has handed out all its messages. *)
Lemma tracked_complete recv d G xs log :
  tracked recv d -> logged sent d log -> sent (gr_id G) = Some G -> NoDup xs -> count G < length xs ->
  Forall (fun x => sends sh G x /\ (gr_id G, x) ∈ recv) xs ->
  forall idx, idx < count G -> (gr_id G, idx) ∈ log.
Proof using Hshape Hsent.
  intros Ht Hlog HG Hnd Hlen Hxs idx Hidx. pose proof (shape_facts sh Hshape).
  pose proof (go_count _ _ _ (sent_ok sh code sent Hsent _ _ HG)) as Hcnt. rewrite list.Forall_forall in Hxs.
  destruct xs as [|x0 xs0] eqn:Exs; [cbn in Hlen; lia|]. rewrite <- Exs in *.
  destruct (tk_seen _ _ Ht (gr_id G) x0) as (j & Hj & Hu & Hid); [apply Hxs; rewrite Exs; by left|].
  destruct (tk_slot _ _ Ht j Hj Hu) as (G' & HG' & Hset & _ & Hpr). rewrite Hid, HG in HG'. injection HG' as <-.
  apply (lg_iff _ _ _ Hlog). exists j. split; [rewrite (tk_length _ _ Ht); done|]. split; [done|]. split; [done|].
  destruct Hset as [[[Hc _] Hfew]|[_ Hall]]; [exfalso|by apply Hall].
  specialize (Hpr (cd_active _ _ _ Hc)). rewrite Hid in Hpr.
  assert (Htail : exists t, t ∈ xs /\ m <= t).
  { destruct (decide (Exists (fun t => m <= t) xs)) as [He|Hn]; [by apply list.Exists_exists in He|exfalso].
    assert (Hincl : incl xs (seq 0 (count G))).
    { intros y Hy. apply in_seq. apply list_elem_of_In in Hy. destruct (Hxs y Hy) as [[Hy1|Hy1] _]; [lia|].
      exfalso. apply Hn, list.Exists_exists. exists y. split; [done|lia]. }
    apply NoDup_ListNoDup in Hnd. pose proof (NoDup_incl_length Hnd Hincl) as Hle.
    rewrite length_seq in Hle. lia. }
  destruct Htail as (t & Ht1 & Ht2).
  assert (Hlong : List.NoDup (xs ++ seq (count G) (m - count G))).
  { apply NoDup_ListNoDup, list.NoDup_app. split; [done|]. split; [|apply NoDup_seq].
    intros y Hy Hy'. apply elem_of_seq in Hy'. destruct (Hxs y Hy) as [[Hy1|Hy1] _]; lia. }
  assert (Hincl : incl (xs ++ seq (count G) (m - count G))
                    (List.filter (codec_present_get (g_present (group_at d j))) (seq 0 n))).
  { intros y Hy. apply filter_In. apply in_app_iff in Hy as [Hy|Hy].
    - apply list_elem_of_In in Hy. destruct (Hxs y Hy) as [Hys Hyr]. split; [|by apply Hpr].
      apply in_seq. destruct Hys; lia.
    - apply in_seq in Hy. split; [apply in_seq; lia|].
      assert (Hm : m <= t < n) by (destruct (Hxs t Ht1) as [[|] _]; lia).
      apply (cd_tail _ _ _ Hc t y Hm); [|lia]. apply Hpr, Hxs, Ht1. }
  pose proof (NoDup_incl_length Hlong Hincl) as Hle. rewrite length_app, length_seq in Hle.
  unfold present_count in Hfew. pose proof (so_m sh Hshape). lia.
Qed.

(** A message whose shard came, and all shards before it, was handed out. *)
Lemma tracked_in_order recv d G idx log :
  tracked recv d -> logged sent d log -> sent (gr_id G) = Some G -> idx < count G ->
  (forall x, x <= idx -> (gr_id G, x) ∈ recv) -> (gr_id G, idx) ∈ log.
Proof using Type.
  intros Ht Hlog HG Hidx Hx. destruct (tk_seen _ _ Ht (gr_id G) idx) as (j & Hj & Hu & Hid); [by apply Hx|].
  destruct (tk_slot _ _ Ht j Hj Hu) as (G' & HG' & Hset & _ & Hpr). rewrite Hid, HG in HG'. injection HG' as <-.
  apply (lg_iff _ _ _ Hlog). exists j. split; [rewrite (tk_length _ _ Ht); done|]. split; [done|]. split; [done|].
  destruct Hset as [[[Hc Hord] _]|[_ Hall]]; [|by apply Hall]. apply Hord; [done|].
  intros x Hle. apply Hpr; [apply (cd_active _ _ _ Hc)|]. rewrite Hid. by apply Hx.
Qed.

(** What was handed out belongs to a group of the window. *)
Lemma log_sent recv d log id idx :
  tracked recv d -> logged sent d log -> (id, idx) ∈ log ->
  exists G, sent id = Some G /\ gr_id G = id /\ idx < count G.
Proof using Hsent.
  intros Ht Hlog Hin. apply (lg_iff _ _ _ Hlog) in Hin as (j & Hj & Hu & Hid & Hdl).
  destruct (tk_slot _ _ Ht j) as (G & HG & _); [by rewrite (tk_length _ _ Ht) in Hj|done|].
  exists G. rewrite Hid in HG. split; [done|]. split; [by apply Hsent in HG as [? _]|].
  assert (Hh : honest sh sent (group_at d j)) by (eapply safe_at; [apply Ht|done]).
  rewrite <- Hid in HG. by apply (gs_deliv _ _ _ (honest_rel sh sent _ G Hh Hu HG)).
Qed.

End Run.
