(* ===== verification/FecCreate.v ===== *)
(** * Pacing of the FEC encoder

    The token bucket of the encoder: the bytes handed to the callback never exceed the burst plus
    what the configured rate allows.  The refill rounds down and forgets the remainder, so calls
    that are close together earn nothing. *)

From Stdlib Require Import Strings.Byte.
From S2P Require Import Prelude WireHeader Gf256 ByteVec RsEncode Codec CodecSpec RsCodec.
From S2P Require Import RsCodecSpec FecTransport FecDecoder FecEncoder FecGroups FecEncoderSpec.

Definition sum_lengths {A} (l : list (list A)) : Z := foldr (fun x n => (Z.of_nat (length x) + n)%Z) 0%Z l.

Lemma sum_lengths_app {A} (l1 l2 : list (list A)) :
  sum_lengths (l1 ++ l2) = (sum_lengths l1 + sum_lengths l2)%Z.
Proof. induction l1 as [|x l1 IH]; [done|]. cbn [app sum_lengths foldr] in *. unfold sum_lengths in *. lia. Qed.

Lemma sum_lengths_one {A} (x : list A) : sum_lengths [x] = Z.of_nat (length x).
Proof. cbn. lia. Qed.

#[local] Arguments sum_lengths : simpl never.
#[local] Arguments taken : simpl never.

Lemma token_gain_bounds rate dt :
  (0 <= rate)%Z -> (0 <= dt)%Z ->
  (0 <= token_gain rate dt)%Z /\ (NS_PER_SEC * token_gain rate dt <= rate / 8 * dt)%Z.
Proof.
  intros Hr Hd. unfold token_gain, NS_PER_SEC. pose proof (Z.div_pos rate 8 Hr ltac:(lia)) as Hr8.
  set (r := (rate / 8)%Z) in *. pose proof (Z.div_mod dt 1000000000 ltac:(lia)) as Hdm.
  pose proof (Z.mod_pos_bound dt 1000000000 ltac:(lia)). pose proof (Z.div_pos dt 1000000000 Hd ltac:(lia)).
  set (q := (dt / 1000000000)%Z) in *. set (m := (dt mod 1000000000)%Z) in *.
  assert (Hle : forall v, (0 <= v -> 0 <= u64 v <= v)%Z).
  { intros v Hv. unfold u64, uwrap. split; [apply Z.mod_pos_bound; lia|]. apply Z.mod_le; lia. }
  pose proof (Hle (r * q)%Z ltac:(nia)) as H1. pose proof (Hle (r * m)%Z ltac:(nia)) as H2.
  pose proof (Z.mul_div_le (u64 (r * m)) 1000000000 ltac:(lia)) as H3.
  pose proof (Z.div_pos (u64 (r * m)) 1000000000 ltac:(lia) ltac:(lia)) as H4.
  pose proof (Hle (u64 (r * q) + u64 (r * m) / 1000000000)%Z ltac:(lia)) as H5.
  split; [lia|]. rewrite Hdm. nia.
Qed.

Section Pacing.
Context `{host : HostOrder} {St : Type} (codec : option (CodecVTable St)).
Context (out : nat -> FecOutputStatus).
Context (c : FecTransportConfig) (md t0 t1 : Z).
Context (Hc : config_in_range c) (Hmd : in_range 64 md) (Hrate : cfg_wire_rate_bps c <> 0%Z).
Context (Ht0 : (0 <= t0)%Z) (Ht1 : (t1 < 2 ^ 64)%Z).

Abbreviation Enc := (FecEncoder St).
Abbreviation rate8 := (cfg_wire_rate_bps c / 8)%Z.

Definition burst : Z := if (cfg_wire_burst_bytes c =? 0)%Z then md else cfg_wire_burst_bytes c.

(** The bytes the callback has taken. *)
Definition wire_bytes (e : Enc) : Z := sum_lengths (taken (e_calls e)).

Record paced (e : Enc) : Prop := {
  pc_config : e_config e = c;
  pc_max : e_max_datagram e = md;
  pc_items : Forall (fun it => (0 <= it_len it)%Z) (e_q_storage e);
  pc_tokens : (0 <= e_tokens e <= U64_MAX)%Z;
  pc_bound :
    if e_last_refill_valid e
    then (t0 <= e_last_refill_ns e <= t1)%Z /\
         (NS_PER_SEC * (wire_bytes e + e_tokens e) <=
          NS_PER_SEC * burst + rate8 * (e_last_refill_ns e - t0))%Z
    else e_tokens e = 0%Z /\ wire_bytes e = 0%Z }.

Lemma burst_range : (0 <= burst <= U64_MAX)%Z.
Proof using Hc Hmd.
  unfold burst, U64_MAX. destruct Hc as (_ & _ & _ & _ & _ & _ & _ & _ & Hb). unfold in_range in *.
  case_match; lia.
Qed.

(** ** Steps that do not touch the bucket *)

Definition pace_same (e e' : Enc) : Prop :=
  e_config e' = e_config e /\ e_max_datagram e' = e_max_datagram e /\ e_tokens e' = e_tokens e /\
  e_last_refill_valid e' = e_last_refill_valid e /\ e_last_refill_ns e' = e_last_refill_ns e /\
  e_calls e' = e_calls e /\ e_epoch e' = e_epoch e /\
  (Forall (fun it => (0 <= it_len it)%Z) (e_q_storage e) -> Forall (fun it => (0 <= it_len it)%Z) (e_q_storage e')).

Lemma paced_same e e' : pace_same e e' -> paced e -> paced e'.
Proof using Type.
  intros (H1 & H2 & H3 & H4 & H5 & H6 & _ & H7) [P1 P2 P3 P4 P5].
  split; unfold wire_bytes in *; rewrite ?H1, ?H2, ?H3, ?H4, ?H5, ?H6; auto.
Qed.

Lemma pace_refl e : pace_same e e.
Proof using Type. by split_and!. Qed.

Lemma pace_trans e1 e2 e3 : pace_same e1 e2 -> pace_same e2 e3 -> pace_same e1 e3.
Proof using Type. unfold pace_same. intros H1 H2. destruct_and?. split_and!; congruence || auto. Qed.

(** What a function returns differs from [e] by such steps only. *)
Definition keeps_pace (e : Enc) (r : option (FecStatus * Enc)) : Prop :=
  forall status e', r = Some (status, e') -> pace_same e e'.

Lemma keeps_some e status e' : pace_same e e' -> keeps_pace e (Some (status, e')).
Proof using Type. by intros H s x [= <- <-]. Qed.

Lemma keeps_if_ok e r k :
  keeps_pace e r -> (forall e', pace_same e e' -> keeps_pace e (k e')) -> keeps_pace e (if_ok r k).
Proof using Type.
  intros Hr Hk. destruct r as [[status e']|]; [|done]. pose proof (Hr status e' eq_refl) as H.
  destruct status; cbn [if_ok]; try (by apply keeps_some). by apply Hk.
Qed.

Lemma keeps_from e e1 r : pace_same e e1 -> keeps_pace e1 r -> keeps_pace e r.
Proof using Type. intros H Hr status e' E. eapply pace_trans; [exact H|by eapply Hr]. Qed.

Lemma u16_nonneg v : (0 <= u16 v)%Z.
Proof using Type. unfold u16, uwrap. apply Z.mod_pos_bound. lia. Qed.

Lemma enqueue_shard_pace shard len e : keeps_pace e (enqueue_shard shard len e).
Proof using Type.
  unfold enqueue_shard. case_match; [by apply keeps_some|]. case_match; [by apply keeps_some|].
  case_match; [|done]. apply keeps_some. split_and!; try done. intros Hall.
  apply Forall_insert; [done|]. apply u16_nonneg.
Qed.

Lemma enqueue_tails_pace shards e : keeps_pace e (enqueue_tails shards e).
Proof using Type.
  revert e; induction shards as [|x l IH]; intros e; cbn [enqueue_tails]; [by apply keeps_some|].
  apply keeps_if_ok; [apply enqueue_shard_pace|]. intros e' H. by eapply keeps_from.
Qed.

Lemma tails_pace e : keeps_pace e (encode_and_enqueue_tails codec e).
Proof using Type.
  unfold encode_and_enqueue_tails. case_match; [by apply keeps_some|]. case_match; [by apply keeps_some|].
  case_match; [|done]. destruct (Codec_encode _ _ _ _) as [block st]. apply keeps_if_ok.
  - eapply keeps_from; [|apply enqueue_tails_pace]. by split_and!.
  - intros e' H'. apply keeps_some. eapply pace_trans; [exact H'|]. by split_and!.
Qed.

Lemma push_message_pace data now e : keeps_pace e (push_message codec data now e).
Proof using Type.
  unfold push_message. destruct (negb (queue_can_add _ _ _)); [by apply keeps_some|].
  match goal with |- context [store_checked (e_block ?x)] => set (e1 := x) end.
  assert (H1 : pace_same e e1) by (unfold e1; destruct (e_data_count e =? 0); by split_and!). clearbody e1.
  destruct (store_checked _ _ _); [|done]. apply keeps_if_ok.
  - eapply keeps_from; [|apply enqueue_shard_pace]. eapply pace_trans; [exact H1|]. by split_and!.
  - intros e' H'. case_match.
    + eapply keeps_from; [|apply tails_pace]. eapply pace_trans; [exact H'|]. by split_and!.
    + apply keeps_some. eapply pace_trans; [exact H'|]. by split_and!.
Qed.

Lemma push_pace data now e : keeps_pace e (fec_encoder_push codec data now e).
Proof using Type.
  unfold fec_encoder_push. repeat (case_match; try (by apply keeps_some)).
  - apply keeps_if_ok; [apply tails_pace|]. intros e' H'. eapply keeps_from; [exact H'|apply push_message_pace].
  - apply push_message_pace.
Qed.

(** ** The bucket *)

Lemma refill_paced now e : (t0 <= now <= t1)%Z -> paced e -> paced (refill_tokens now e).
Proof using Hc Hmd Hrate Ht0 Ht1.
  intros Hnow Hp. pose proof Hp as [P1 P2 P3 P4 P5]. unfold refill_tokens. rewrite P1, (proj2 (Z.eqb_neq _ 0)) by done.
  assert (Hb : burst_of e = burst) by (unfold burst_of, burst; by rewrite P1, P2). rewrite Hb.
  pose proof burst_range as Hbr. unfold U64_MAX in *. destruct (e_last_refill_valid e); cbn [negb].
  2:{ destruct P5 as [_ Hw]. split; cbn; try done. unfold wire_bytes in *. cbn.
      split; [done|]. rewrite Hw. assert (0 <= rate8)%Z; [|nia].
      apply Z.div_pos; [|lia]. destruct Hc as (_ & _ & _ & _ & _ & _ & _ & Hr & _). apply Hr. }
  destruct P5 as [Hlast Hbd]. destruct (Z.leb_spec now (e_last_refill_ns e)); [done|].
  assert (Hdt : (now -u64 e_last_refill_ns e)%cint = (now - e_last_refill_ns e)%Z)
    by (unfold u64; apply uwrap_small; unfold in_range; lia). rewrite Hdt.
  destruct (token_gain_bounds (cfg_wire_rate_bps c) (now - e_last_refill_ns e)) as [Hg0 Hg];
    [destruct Hc as (_ & _ & _ & _ & _ & _ & _ & Hr & _); apply Hr|lia|].
  set (gain := token_gain _ _) in *. unfold NS_PER_SEC in *.
  assert (Hsplit : forall tk, (0 <= tk <= 2 ^ 64 - 1)%Z -> (tk <= e_tokens e + gain)%Z ->
            paced (enc_tokens tk now true e)).
  { intros tk Htk Hle. split; try done. unfold wire_bytes in *.
    cbn [e_last_refill_valid e_last_refill_ns e_tokens e_calls enc_tokens]. split; [done|].
    unfold NS_PER_SEC. rewrite Z.mul_sub_distr_l in *. lia. }
  rewrite Z.gtb_ltb. destruct (Z.ltb_spec (2 ^ 64 - 1 - e_tokens e) gain); [apply Hsplit; lia|].
  assert (Hadd : (e_tokens e +u64 gain)%cint = (e_tokens e + gain)%Z)
    by (unfold u64; apply uwrap_small; unfold in_range; lia). rewrite Hadd, Z.gtb_ltb.
  destruct (Z.ltb_spec burst (e_tokens e + gain)); apply Hsplit; lia.
Qed.

Lemma pop_pace e e' : queue_pop e = Some e' -> pace_same e e'.
Proof using Type. clear Hrate. unfold queue_pop. intros H. repeat case_match; simplify_eq; by split_and!. Qed.

(** A datagram that was taken, and its tokens. *)
Lemma send_paced e it tk :
  paced e -> (0 <= it_len it <= e_tokens e)%Z -> tk = (e_tokens e - it_len it)%Z ->
  paced (enc_tokens tk (e_last_refill_ns e) (e_last_refill_valid e)
    (enc_calls (e_calls e ++ [(take (Z.to_nat (it_len it)) (it_datagram it), FEC_OUTPUT_OK)]) e)).
Proof using Type.
  intros [P1 P2 P3 P4 P5] Hit ->. split; cbn; try done; [lia|]. unfold wire_bytes in *. cbn [e_calls enc_tokens enc_calls].
  rewrite taken_snoc, bool_decide_true, sum_lengths_app, sum_lengths_one by done.
  assert (Hlen : (0 <= Z.of_nat (length (take (Z.to_nat (it_len it)) (it_datagram it))) <= it_len it)%Z)
    by (rewrite length_take; lia).
  unfold NS_PER_SEC in *. destruct (e_last_refill_valid e); [split; [apply P5|]; lia|lia].
Qed.

Lemma refused_paced e dgm answer :
  answer <> FEC_OUTPUT_OK -> paced e -> paced (enc_calls (e_calls e ++ [(dgm, answer)]) e).
Proof using Type.
  intros Ha [P1 P2 P3 P4 P5]. split; try done. unfold wire_bytes in *. cbn [e_calls enc_calls].
  rewrite taken_snoc, bool_decide_false, app_nil_r by done. done.
Qed.

Lemma drain_paced turns budget e status e' :
  paced e -> drain_loop out turns budget e = Some (status, e') -> paced e'.
Proof using Hrate.
  revert budget e; induction turns as [|turns IH]; intros budget e Hp; cbn [drain_loop]; [by intros [= _ <-]|].
  destruct (_ && _); [|by intros [= _ <-]]. unfold queue_slot.
  destruct (e_q_storage e !! e_q_head e) as [it|] eqn:Hit; [|done].
  rewrite (pc_config _ Hp), (proj2 (Z.eqb_neq _ 0)) by done. cbn [negb andb].
  pose proof (list.Forall_lookup_1 _ _ _ _ (pc_items _ Hp) Hit) as Hlen. pose proof (pc_tokens _ Hp) as Htk.
  destruct (Z.ltb_spec (e_tokens e) (it_len it)) as [|Hge]; [intros [= _ <-]; eapply paced_same; [|exact Hp]; by split_and!|].
  unfold call_output. destruct (out (length (e_calls e))).
  - unfold enc_count. set (e1 := enc_tokens _ _ _ _). destruct (queue_pop _) as [e2|] eqn:Hpop; [|done]. apply IH.
    eapply paced_same; [by eapply pop_pace|].
    eapply (paced_same e1); [by split_and!|]. refine (send_paced e it _ Hp _ _); [cbn in Hlen; lia|].
    unfold u64. apply uwrap_small. unfold in_range, U64_MAX in *. cbn in *. lia.
  - intros [= _ <-]. eapply paced_same; [|eapply (refused_paced e _ FEC_OUTPUT_BLOCKED); done]. by split_and!.
  - intros [= _ <-]. eapply paced_same; [|eapply (refused_paced e _ FEC_OUTPUT_ERROR); done]. by split_and!.
Qed.

(** No call but a reset changes the epoch. *)
Lemma keeps_epoch e r status e' : keeps_pace e r -> r = Some (status, e') -> e_epoch e' = e_epoch e.
Proof using Type. intros H E. by destruct (H status e' E) as (_ & _ & _ & _ & _ & _ & H' & _). Qed.

Lemma refill_epoch now (e : Enc) : e_epoch (refill_tokens now e) = e_epoch e.
Proof using Type. unfold refill_tokens. repeat case_match; done. Qed.

Lemma drain_epoch turns budget (e : Enc) status e' :
  drain_loop out turns budget e = Some (status, e') -> e_epoch e' = e_epoch e.
Proof using Type.
  revert budget e; induction turns as [|turns IH]; intros budget e; cbn [drain_loop]; [by intros [= _ <-]|].
  destruct (_ && _); [|by intros [= _ <-]]. destruct (queue_slot e (e_q_head e)) as [it|]; [|done].
  destruct (_ && _); [by intros [= _ <-]|]. unfold call_output.
  destruct (out (length (e_calls e))); [|by intros [= _ <-]..].
  destruct (queue_pop _) as [e2|] eqn:Hpop; [|done]. intros Hrun. rewrite (IH _ _ Hrun).
  apply pop_pace in Hpop as (_ & _ & _ & _ & _ & _ & -> & _). by destruct (negb _).
Qed.

Lemma run_op_epoch op (e : Enc) status e' : run_op codec out op e = Some (status, e') -> e_epoch e' = e_epoch e.
Proof using Type.
  destruct op as [data now| |budget|now]; cbn [run_op].
  - apply keeps_epoch, push_pace.
  - apply keeps_epoch, tails_pace.
  - apply drain_epoch.
  - unfold fec_encoder_update, fec_encoder_drain. rewrite <- (refill_epoch now e).
    set (e1 := refill_tokens now e). destruct (flush_due now e1); [|apply drain_epoch].
    destruct (encode_and_enqueue_tails codec e1) as [[st e2]|] eqn:Htl; [|done].
    rewrite <- (keeps_epoch e1 _ _ _ (tails_pace e1) Htl).
    destruct st; first [by apply drain_epoch | by intros [= _ <-]].
Qed.

Lemma run_ops_epoch ops (e : Enc) msgs e' : run_ops codec out ops e = Some (msgs, e') -> e_epoch e' = e_epoch e.
Proof using Type.
  revert e msgs; induction ops as [|op ops IH]; intros e msgs; cbn [run_ops]; [by intros [= _ <-]|].
  destruct (run_op codec out op e) as [[st e1]|] eqn:He; [|done].
  destruct (run_ops codec out ops e1) as [[ms e2]|] eqn:He2; [|done]. intros [= _ <-].
  by rewrite (IH _ _ He2), (run_op_epoch _ _ _ _ He).
Qed.

(** The times of the updates lie between [t0] and [t1]. *)
Definition op_timed (op : EncOp) : Prop :=
  match op with Update now => (t0 <= now <= t1)%Z | _ => True end.

Lemma run_op_paced op e status e' :
  op_timed op -> paced e -> run_op codec out op e = Some (status, e') -> paced e'.
Proof using Hc Hmd Hrate Ht0 Ht1.
  intros Hop Hp. destruct op as [data now| |budget|now]; cbn [run_op].
  - intros H. eapply paced_same; [|exact Hp]. by eapply push_pace.
  - intros H. eapply paced_same; [|exact Hp]. by eapply tails_pace.
  - by apply drain_paced.
  - unfold fec_encoder_update, fec_encoder_drain. apply (refill_paced now) in Hp; [|done].
    set (e1 := refill_tokens now e) in *. destruct (flush_due now e1); [|by apply drain_paced].
    pose proof (tails_pace e1) as Htl. destruct (encode_and_enqueue_tails codec e1) as [[st e2]|]; [|done].
    pose proof (paced_same _ _ (Htl st e2 eq_refl) Hp) as Hp2.
    destruct st; first [by apply drain_paced | by intros [= _ <-]].
Qed.

Lemma run_ops_paced ops e msgs e' :
  Forall op_timed ops -> paced e -> run_ops codec out ops e = Some (msgs, e') -> paced e'.
Proof using Hc Hmd Hrate Ht0 Ht1.
  intros Hall. revert e msgs. induction Hall as [|op ops Hop Hall IH]; intros e msgs Hp; cbn [run_ops].
  { by intros [= _ <-]. }
  destruct (run_op codec out op e) as [[st e1]|] eqn:He; [|done].
  destruct (run_ops codec out ops e1) as [[ms e2]|] eqn:He2; [|done]. intros [= _ <-].
  eapply IH; [|done]. by eapply run_op_paced.
Qed.

End Pacing.

(** ** Updates that are close together *)

(** The times do not go back, and the rate earns less than a byte between two of them. *)
Fixpoint close_times (rate8 last : Z) (times : list Z) : Prop :=
  match times with
  | [] => True
  | now :: rest => (last <= now < 2 ^ 64 /\ rate8 * (now - last) < NS_PER_SEC)%Z /\ close_times rate8 now rest
  end.

Lemma token_gain_zero rate dt :
  (0 <= rate)%Z -> (0 <= dt)%Z -> (rate / 8 * dt < NS_PER_SEC)%Z -> token_gain rate dt = 0%Z.
Proof.
  intros Hr Hd Hlt. destruct (token_gain_bounds rate dt Hr Hd) as [H0 H1]. unfold NS_PER_SEC in *. lia.
Qed.

Section Starving.
Context `{host : HostOrder} {St : Type} (codec : option (CodecVTable St)).
Context (out : nat -> FecOutputStatus).

Abbreviation Enc := (FecEncoder St).

(** A paced encoder with a full block in its queue, no open group, and too few tokens for the head. *)
Record starving (it : FecQueueItem) (e : Enc) : Prop := {
  sv_rate : (0 < cfg_wire_rate_bps (e_config e))%Z;
  sv_valid : e_last_refill_valid e = true;
  sv_last : (0 <= e_last_refill_ns e < 2 ^ 64)%Z;
  sv_queue : 0 < e_q_count e;
  sv_head : queue_slot e (e_q_head e) = Some it;
  sv_tokens : (0 <= e_tokens e < it_len it)%Z;
  sv_small : (it_len it <= U64_MAX)%Z;
  sv_open : e_data_count e = 0 }.

Lemma refill_starving it e now :
  starving it e -> (e_last_refill_ns e <= now < 2 ^ 64)%Z ->
  (cfg_wire_rate_bps (e_config e) / 8 * (now - e_last_refill_ns e) < NS_PER_SEC)%Z ->
  (0 <= burst_of e)%Z ->
  exists tk, refill_tokens now e = enc_tokens tk now true e /\ (0 <= tk <= e_tokens e)%Z.
Proof.
  intros [H1 H2 H3 H4 H5 H6 H7 H8] Hnow Hlt Hb. unfold refill_tokens.
  rewrite (proj2 (Z.eqb_neq _ 0)), H2 by lia. cbn [negb].
  destruct (Z.leb_spec now (e_last_refill_ns e)) as [Hle|Hgt].
  { assert (now = e_last_refill_ns e) as -> by lia. exists (e_tokens e). split; [|lia]. rewrite <- H2. by destruct e. }
  assert (Hdt : (now -u64 e_last_refill_ns e)%cint = (now - e_last_refill_ns e)%Z)
    by (unfold u64; apply uwrap_small; unfold in_range; lia).
  rewrite Hdt, token_gain_zero by (done || lia). unfold U64_MAX in *.
  rewrite Z.gtb_ltb, (proj2 (Z.ltb_ge _ _)) by lia.
  assert (Hadd : (e_tokens e +u64 0)%cint = e_tokens e)
    by (rewrite Z.add_0_r; unfold u64; apply uwrap_small; unfold in_range; lia). rewrite Hadd.
  eexists. split; [done|]. rewrite Z.gtb_ltb. destruct (Z.ltb_spec (burst_of e) (e_tokens e)); lia.
Qed.

Lemma update_starving it e now :
  starving it e -> (e_last_refill_ns e <= now < 2 ^ 64)%Z ->
  (cfg_wire_rate_bps (e_config e) / 8 * (now - e_last_refill_ns e) < NS_PER_SEC)%Z ->
  (0 <= burst_of e)%Z ->
  exists e', fec_encoder_update codec out now e = Some (FEC_OK, e') /\ starving it e' /\
    e_last_refill_ns e' = now /\ e_config e' = e_config e /\ burst_of e' = burst_of e /\
    e_calls e' = e_calls e.
Proof.
  intros Hs Hnow Hlt Hb. destruct (refill_starving it e now Hs Hnow Hlt Hb) as (tk & Hr & Htk).
  destruct Hs as [H1 H2 H3 H4 H5 H6 H7 H8]. unfold fec_encoder_update, fec_encoder_drain. rewrite Hr.
  replace (flush_due now _) with false
    by (unfold flush_due; cbn [e_data_count enc_tokens]; by rewrite H8, andb_false_r).
  set (e1 := enc_tokens tk now true e). assert (Hq1 : e_q_count e1 = S (e_q_count e - 1)) by (cbn; lia).
  assert (Hh1 : queue_slot e1 (e_q_head e1) = Some it) by exact H5. rewrite Hq1. cbn [drain_loop].
  rewrite Hh1, Hq1. change (e_config e1) with (e_config e). change (e_tokens e1) with tk.
  change ((U64_MAX >? 0)%Z && (0 <? S (e_q_count e - 1))) with true. cbn [andb].
  rewrite (proj2 (Z.eqb_neq (cfg_wire_rate_bps (e_config e)) 0)), (proj2 (Z.ltb_lt tk (it_len it))) by lia.
  cbn [negb andb]. eexists. split; [done|]. split; [|done].
  split; cbn; try done; try lia.
Qed.

End Starving.

(** * Creating and destroying FEC transports

    Encoders and decoders share one static Reed-Solomon codec.  The backend counts its users and
    refuses a second geometry while there are any, so the codec is bound to the geometry of every
    object that is alive. *)

#[local] Opaque PKG_SIZE gsum build_gf_mul_table.

(** A configuration that [config_complete] has accepted. *)
Record complete_config (c : FecTransportConfig) : Prop := {
  cc_range : config_in_range c;
  cc_shape : shape_ok (shape_of c);
  cc_packets : (2 <= cfg_output_queue_packets c)%Z;
  cc_window : (1 <= cfg_group_window c)%Z;
  cc_codec : cfg_codec c = FEC_CODEC_RS }.

(** The codec state is bound to the geometry of a configuration. *)
Definition codec_for (c : FecTransportConfig) (s : RsState) : Prop :=
  rs_bound (sh_shard_size (shape_of c)) (sh_k (shape_of c)) (sh_r (shape_of c)) s.

(** The backend counts one more user, with the geometry of [c]. *)
Definition bound_to (c : FecTransportConfig) (b b' : FecBackend) : Prop :=
  b' = mkFecBackend (be_users b + 1) (cfg_data_shards c) (cfg_parity_shards c) (cfg_shard_size c).

Record created (env : RsEnv) (config : FecTransportConfig) (b b' : FecBackend) (s' : RsState)
    (c : FecTransportConfig) : Prop := {
  cr_complete : config_complete config = Some c;
  cr_config : complete_config c;
  cr_env : env_once env = true;
  cr_codec : codec_for c s';
  cr_bound : bound_to c b b';
  cr_backend : backend_ok env b' s' }.

Lemma complete_created env config c b s b' s' :
  config_in_range config -> backend_ok env b s -> config_complete config = Some c ->
  bind_rs env c b s = (true, b', s') -> created env config b b' s' c.
Proof.
  intros Hr Hb Hc Hbind. destruct (config_complete_ok _ _ Hr Hc) as (H1 & H2 & H3 & H4 & H5 & _ & H7).
  assert (Hne : cfg_shard_size c <> 0%Z) by lia.
  destruct (bind_rs_ok _ _ _ _ _ _ H1 Hne (proj1 Hb) Hbind) as (Hbd & He & Hb').
  split; try done. by eapply bind_rs_backend.
Qed.

(** The common part of the two functions that create. *)
Definition create_with {A} (make : FecTransportConfig -> RsState -> A) (env : RsEnv) (alloc parts : bool)
    (config : FecTransportConfig) (b : FecBackend) (s : RsState) : option A * FecBackend * RsState :=
  match config_complete config with
  | None => (None, b, s)
  | Some resolved =>
      let '(bound, b, s) := bind_rs env resolved b s in
      if negb bound then (None, b, s)
      else if negb alloc then (None, unbind_rs b, s)
      else if negb parts then (None, unbind_rs b, s)
      else (Some (make resolved s), b, s)
  end.

Lemma create_with_some {A} (make : FecTransportConfig -> RsState -> A) env alloc parts config b s a b' s' :
  config_in_range config -> backend_ok env b s ->
  create_with make env alloc parts config b s = (Some a, b', s') ->
  exists c, created env config b b' s' c /\ a = make c s'.
Proof.
  intros Hr Hb. unfold create_with. destruct (config_complete config) as [c|] eqn:Hc; [|done].
  destruct (bind_rs env c b s) as [[[] b1] s1] eqn:Hbind; cbn [negb]; [|done].
  destruct alloc, parts; cbn [negb]; try done. intros [= <- <- <-]. exists c. split; [|done].
  by eapply complete_created.
Qed.

(** A creation that fails leaves the backend and its users as they were. *)
Lemma create_with_none {A} (make : FecTransportConfig -> RsState -> A) env alloc parts config b s b' s' :
  config_in_range config -> backend_ok env b s ->
  create_with make env alloc parts config b s = (None, b', s') ->
  be_users b' = be_users b /\ backend_ok env b' s' /\ ((0 < be_users b)%Z -> s' = s /\ b' = b).
Proof.
  intros Hr Hb. unfold create_with. destruct (config_complete config) as [c|] eqn:Hc; [|by intros [= <- <-]].
  destruct (config_complete_ok _ _ Hr Hc) as (H1 & H2 & H3 & H4 & H5 & _ & _).
  assert (Hne : cfg_shard_size c <> 0%Z) by lia.
  destruct (bind_rs env c b s) as [[[] b1] s1] eqn:Hbind; cbn [negb].
  - pose proof (complete_created env config c b s b1 s1 Hr Hb Hc Hbind) as [_ _ _ _ Hbt Hb1].
    intros Hres. assert (b' = unbind_rs b1 /\ s' = s1) as [-> ->]
      by (destruct alloc, parts; cbn [negb] in Hres; by simplify_eq).
    pose proof Hb as (_ & Hu & _). assert (Hub : unbind_rs b1 = mkFecBackend (be_users b)
      (cfg_data_shards c) (cfg_parity_shards c) (cfg_shard_size c)).
    { rewrite Hbt. unfold unbind_rs. cbn [be_users be_k be_r be_shard]. rewrite Z.gtb_ltb, (proj2 (Z.ltb_lt _ _)) by lia.
      f_equal. lia. }
    split; [by rewrite Hub|]. split; [by apply unbind_rs_backend|]. intros Hpos.
    split; [by eapply bind_rs_frozen|]. rewrite Hub. unfold bind_rs in Hbind.
    rewrite Z.gtb_ltb, (proj2 (Z.ltb_lt 0 _)) in Hbind by done. cbn [andb] in Hbind.
    destruct (_ || _) eqn:Hg; [done|]. rewrite !orb_false_iff, !negb_false_iff, !Z.eqb_eq in Hg.
    destruct Hg as [[<- <-] <-]. by destruct b.
  - intros [= <- <-]. pose proof (bind_rs_refused _ _ _ _ _ _ Hbind) as ->. split; [done|].
    split; [by eapply bind_rs_backend|]. intros Hpos. split; [by eapply bind_rs_frozen|done].
Qed.

Lemma encoder_create_with env alloc parts config b s :
  fec_encoder_create env alloc parts config true b s =
  create_with fec_encoder_new env alloc parts (default fec_transport_config_init config) b s.
Proof. done. Qed.

Lemma decoder_create_with env alloc parts config b s :
  fec_decoder_create env alloc parts config true b s =
  create_with fec_decoder_new env alloc parts (default fec_transport_config_init config) b s.
Proof. done. Qed.

(** ** The objects of a process *)

Inductive FecObject := EncoderObject (e : FecEncoder RsState) | DecoderObject (d : FecDecoder RsState).

Definition object_config (o : FecObject) : FecTransportConfig :=
  match o with EncoderObject e => e_config e | DecoderObject d => d_config d end.

Record FecProcess := mkFecProcess {
  pr_backend : FecBackend; pr_codec : RsState; pr_objects : list FecObject }.

(** A call of one of the four functions; [i] names a live object. *)
Inductive FecOp :=
| CreateEncoder (config : option FecTransportConfig) (callbacks alloc parts : bool)
| CreateDecoder (config : option FecTransportConfig) (callbacks alloc parts : bool)
| Destroy (i : nat).

Definition add_object {A} (wrap : A -> FecObject) (r : option A * FecBackend * RsState)
    (objects : list FecObject) : FecProcess :=
  let '(o, b, s) := r in
  mkFecProcess b s (match o with Some a => wrap a :: objects | None => objects end).

Definition process_step (env : RsEnv) (op : FecOp) (p : FecProcess) : FecProcess :=
  match op with
  | CreateEncoder config callbacks alloc parts =>
      add_object EncoderObject
        (fec_encoder_create env alloc parts config callbacks (pr_backend p) (pr_codec p)) (pr_objects p)
  | CreateDecoder config callbacks alloc parts =>
      add_object DecoderObject
        (fec_decoder_create env alloc parts config callbacks (pr_backend p) (pr_codec p)) (pr_objects p)
  | Destroy i =>
      match pr_objects p !! i with
      | None => p
      | Some o =>
          mkFecProcess
            (match o with
             | EncoderObject e => fec_encoder_destroy (Some e) (pr_backend p)
             | DecoderObject d => fec_decoder_destroy (Some d) (pr_backend p)
             end)
            (pr_codec p) (delete i (pr_objects p))
      end
  end.

Definition op_in_range (op : FecOp) : Prop :=
  match op with
  | CreateEncoder (Some c) _ _ _ | CreateDecoder (Some c) _ _ _ => config_in_range c
  | _ => True
  end.

(** The backend counts the live objects, and the codec is bound to the geometry of each. *)
Record process_ok (env : RsEnv) (p : FecProcess) : Prop := {
  po_backend : backend_ok env (pr_backend p) (pr_codec p);
  po_users : be_users (pr_backend p) = Z.of_nat (length (pr_objects p));
  po_objects : Forall (fun o => complete_config (object_config o) /\
    codec_for (object_config o) (pr_codec p) /\
    be_k (pr_backend p) = cfg_data_shards (object_config o) /\
    be_r (pr_backend p) = cfg_parity_shards (object_config o) /\
    be_shard (pr_backend p) = cfg_shard_size (object_config o)) (pr_objects p) }.

(** While there are users, a new one has their geometry. *)
Lemma bind_rs_same_geometry env c b s b' s' :
  bind_rs env c b s = (true, b', s') -> (0 < be_users b)%Z ->
  be_k b = cfg_data_shards c /\ be_r b = cfg_parity_shards c /\ be_shard b = cfg_shard_size c.
Proof.
  unfold bind_rs. intros Hbind Hpos. rewrite Z.gtb_ltb, (proj2 (Z.ltb_lt 0 _)) in Hbind by done.
  cbn [andb] in Hbind. destruct (_ || _) eqn:Hg; [done|].
  rewrite !orb_false_iff, !negb_false_iff, !Z.eqb_eq in Hg. by destruct Hg as [[-> ->] ->].
Qed.

Lemma create_process {A} (make : FecTransportConfig -> RsState -> A) (wrap : A -> FecObject)
    env alloc parts config p :
  (forall c s, object_config (wrap (make c s)) = c) -> config_in_range config -> process_ok env p ->
  process_ok env (add_object wrap
    (create_with make env alloc parts config (pr_backend p) (pr_codec p)) (pr_objects p)).
Proof.
  intros Hwrap Hr [Hb Hu Ho]. destruct (create_with _ _ _ _ _ _ _) as [[o b'] s'] eqn:Hc. destruct o as [a|].
  - pose proof Hc as Hc'. apply create_with_some in Hc as (c & [Hcc Hcfg He Hcodec Hbt Hb'] & ->); try done.
    cbn [add_object]. unfold bound_to in Hbt. split; cbn [pr_backend pr_codec pr_objects].
    + done.
    + rewrite Hbt. cbn [be_users length]. lia.
    + constructor; [rewrite Hwrap, Hbt; by split_and!|].
      destruct (pr_objects p) as [|x l] eqn:Hobj; [constructor|].
      assert (Hpos : (0 < be_users (pr_backend p))%Z) by (rewrite Hu; cbn [length]; lia).
      unfold create_with in Hc'. rewrite Hcc in Hc'.
      destruct (bind_rs env c (pr_backend p) (pr_codec p)) as [[[] b1] s1] eqn:Hbind; cbn [negb] in Hc'; [|done].
      assert (b1 = b' /\ s1 = s') as [-> ->] by (destruct alloc, parts; cbn [negb] in Hc'; by simplify_eq).
      assert (s' = pr_codec p) as ->.
      { eapply bind_rs_frozen; [apply (cc_range _ Hcfg)| |done|done|done].
        destruct (cc_shape _ Hcfg) as [_ _ _ _ Hsb _ _]. cbn in Hsb. lia. }
      destruct (bind_rs_same_geometry _ _ _ _ _ _ Hbind Hpos) as (E1 & E2 & E3).
      rewrite Hbt. cbn [be_k be_r be_shard]. by rewrite <- E1, <- E2, <- E3.
  - apply create_with_none in Hc as (E & Hb' & Hsame); try done. cbn [add_object].
    split; cbn [pr_backend pr_codec pr_objects]; [done|congruence|].
    destruct (pr_objects p) as [|x l]; [constructor|].
    destruct Hsame as [-> ->]; [rewrite Hu; cbn [length]; lia|done].
Qed.

Lemma default_config_in_range config :
  (forall c, config = Some c -> config_in_range c) ->
  config_in_range (default fec_transport_config_init config).
Proof. intros H. destruct config as [c|]; [by apply H|]. cbn [default]. unfold config_in_range, in_range; split_and!; by vm_compute. Qed.

Lemma process_step_ok env op p : op_in_range op -> process_ok env p -> process_ok env (process_step env op p).
Proof.
  intros Hr Hp. destruct op as [config callbacks alloc parts|config callbacks alloc parts|i]; cbn [process_step].
  - destruct callbacks; [rewrite encoder_create_with|by destruct p, Hp].
    apply create_process; [done| |done]. apply default_config_in_range. by intros c ->.
  - destruct callbacks; [rewrite decoder_create_with|by destruct p, Hp].
    apply create_process; [done| |done]. apply default_config_in_range. by intros c ->.
  - destruct (pr_objects p !! i) as [o|] eqn:Hi; [|done]. destruct Hp as [Hb Hu Ho].
    pose proof (list.Forall_lookup_1 _ _ _ _ Ho Hi) as [Hc _].
    assert (Hd : match o with
                 | EncoderObject e => fec_encoder_destroy (Some e) (pr_backend p)
                 | DecoderObject d => fec_decoder_destroy (Some d) (pr_backend p)
                 end = unbind_rs (pr_backend p)).
    { destruct o; cbn [object_config] in Hc; cbn [fec_encoder_destroy fec_decoder_destroy];
        by rewrite bool_decide_true by (by apply cc_codec in Hc). }
    rewrite Hd. apply lookup_lt_Some in Hi as Hlt. unfold unbind_rs. rewrite Z.gtb_ltb, (proj2 (Z.ltb_lt _ _)) by lia.
    split; cbn [pr_backend pr_codec pr_objects be_users be_k be_r be_shard].
    + pose proof (unbind_rs_backend env _ _ Hb) as Hb'. unfold unbind_rs in Hb'.
      by rewrite Z.gtb_ltb, (proj2 (Z.ltb_lt _ _)) in Hb' by lia.
    + rewrite length_delete by (by eexists). lia.
    + by apply Forall_delete.
Qed.
