(* ===== verification/FecEndToEnd.v ===== *)
(** * From an encoder to a decoder

    The datagrams of an encoder that has sent all its groups, in any order, repeated and with at
    most [r] of each group lost, make a decoder hand out the messages of the groups, each once. *)

From Stdlib Require Import Strings.Byte.
From S2P Require Import Prelude WireHeader Gf256 ByteVec RsEncode Codec CodecSpec RsCodec.
From S2P Require Import FecTransport FecEncoder FecDecoder FecGroups FecDecoderEmit FecDecoderInv.
From S2P Require Import FecDecoderSpec FecDelivery.

(** The group a datagram names. *)
Definition datagram_group `{HostOrder} (datagram : list Z) : option Z :=
  option_map wh_block_id (wire_header_decode datagram).

(** The datagrams of group [id] that were sent and did not arrive. *)
Definition lost `{HostOrder} (sent arrived : list (list Z)) (id : Z) : list (list Z) :=
  List.filter (fun dg => bool_decide (datagram_group dg = Some id) && negb (bool_decide (dg ∈ arrived))) sent.

(** ** Counting *)

Lemma filter_length_split {A} (f : A -> bool) l :
  length (List.filter f l) + length (List.filter (fun x => negb (f x)) l) = length l.
Proof. induction l as [|x l IH]; [done|]. cbn. destruct (f x); cbn; lia. Qed.

Lemma filter_none {A} (f : A -> bool) l : (forall x, In x l -> f x = false) -> List.filter f l = [].
Proof.
  induction l as [|x l IH]; intros Hf; [done|]. cbn [List.filter]. rewrite Hf by (by left).
  apply IH. intros y Hy. apply Hf. by right.
Qed.

Lemma filter_map_length {A B} (f : B -> bool) (g : A -> B) l :
  length (List.filter f (map g l)) = length (List.filter (fun x => f (g x)) l).
Proof. induction l as [|x l IH]; [done|]. cbn. destruct (f (g x)); cbn; lia. Qed.

Lemma filter_concat_length {A} (f : A -> bool) (ls : list (list A)) l :
  l ∈ ls -> length (List.filter f l) <= length (List.filter f (concat ls)).
Proof.
  intros Hl. apply list_elem_of_split in Hl as (l1 & l2 & ->).
  rewrite concat_app, List.filter_app, length_app. cbn [concat]. rewrite List.filter_app, length_app. lia.
Qed.

(** ** Group ids *)

Lemma group_id_value epoch g :
  in_range 32 epoch -> in_range 32 g -> group_id_of epoch g = (epoch * 2 ^ 32 + g)%Z.
Proof. intros He Hg. unfold group_id_of. by rewrite lor_halves. Qed.

Lemma group_id_epoch epoch g :
  in_range 32 epoch -> in_range 32 g -> u32 (Z.shiftr (group_id_of epoch g) 32) = epoch.
Proof.
  intros He Hg. rewrite group_id_value by done. unfold in_range in *. rewrite Z.shiftr_div_pow2 by lia.
  rewrite Z.div_add_l, (Z.div_small g) by lia. rewrite Z.add_0_r. unfold u32. by apply uwrap_small.
Qed.

(** ** The groups of an encoder *)

Definition find_sent (Gs : list Group) (id : Z) : option Group := List.find (fun G => (gr_id G =? id)%Z) Gs.

(** Groups with different ids are found by their id. *)
Lemma find_sent_nodup Gs G : NoDup (map gr_id Gs) -> G ∈ Gs -> find_sent Gs (gr_id G) = Some G.
Proof.
  intros Hnd Hin. unfold find_sent. induction Gs as [|G' Gs IH]; [by apply elem_of_nil in Hin|].
  cbn [map] in Hnd. apply list.NoDup_cons in Hnd as [Hni Hnd]. cbn [List.find].
  apply elem_of_cons in Hin as [->|Hin]; [by rewrite Z.eqb_refl|].
  destruct (Z.eqb_spec (gr_id G') (gr_id G)) as [E|_]; [|by apply IH].
  exfalso. apply Hni. rewrite E. by apply list_elem_of_In, in_map, list_elem_of_In.
Qed.

Lemma find_sent_some Gs id G : find_sent Gs id = Some G -> gr_id G = id /\ G ∈ Gs.
Proof.
  unfold find_sent. intros H. apply List.find_some in H as [Hin E]. split; [by apply Z.eqb_eq in E|].
  by apply list_elem_of_In.
Qed.

Section Channel.
Context `{host : HostOrder} {St : Type} (codec : option (CodecVTable St)).
Context (sh : FecShape) (ok : St -> Prop) (code : list byte -> Prop).
Context (Hshape : shape_ok sh).
Context `{Hcode : !BlockCode codec ok (sh_shard_size sh) (sh_k sh) (sh_r sh) code}.
Context (Gs : list Group) (epoch : Z) (n0 : nat).
Context (Hepoch : in_range 32 epoch) (Hfew : length Gs <= n0) (Hnum : (Z.of_nat (length Gs) <= UINT32_MAX)%Z).
Context (Hok : Forall (group_ok sh code) Gs).
Context (Hids : forall i G, Gs !! i = Some G -> gr_id G = group_id_of epoch (Z.of_nat i)).
Context (out : nat -> FecOutputStatus) (Hout : forall j, out j = FEC_OUTPUT_OK).

Abbreviation m := (sh_message_shards sh).
Abbreviation n := (sh_n sh).
Abbreviation sent := (find_sent Gs).
Abbreviation lo := (epoch * 2 ^ 32)%Z.
Abbreviation in_run := (in_run sh sent epoch lo n0).

Lemma ids_value i G : Gs !! i = Some G -> gr_id G = (lo + Z.of_nat i)%Z /\ i < length Gs.
Proof using Hepoch Hnum Hids.
  clear Hfew. intros Hi. pose proof (lookup_lt_Some _ _ _ Hi) as Hlt. split; [|done]. rewrite (Hids i G Hi).
  unfold UINT32_MAX in Hnum. apply group_id_value; [done|]. unfold in_range. lia.
Qed.

Lemma find_member G : G ∈ Gs -> sent (gr_id G) = Some G.
Proof using Hepoch Hnum Hids.
  clear Hfew. apply find_sent_nodup. apply NoDup_alt. intros i j id Hi Hj.
  apply list_lookup_fmap_Some in Hi as (G1 & E1 & Hi). apply list_lookup_fmap_Some in Hj as (G2 & E2 & Hj).
  destruct (ids_value i G1 Hi), (ids_value j G2 Hj). lia.
Qed.

Lemma sent_groups id G : sent id = Some G -> gr_id G = id /\ group_ok sh code G.
Proof using Hok.
  intros H. apply find_sent_some in H as [E Hin]. split; [done|]. rewrite list.Forall_forall in Hok. by apply Hok.
Qed.

Lemma member_in_run G x : G ∈ Gs -> sends sh G x -> in_run G x.
Proof using Hepoch Hfew Hnum Hids.
  intros Hin Hs. pose proof (find_member G Hin) as Hf. apply list_elem_of_lookup in Hin as [i Hi].
  destruct (ids_value i G Hi) as [Hid Hlt]. split; [done|]. split; [done|]. split.
  - unfold in_window. rewrite Hid. lia.
  - rewrite (Hids i G Hi). unfold UINT32_MAX in Hnum. apply group_id_epoch; [done|]. unfold in_range. lia.
Qed.

Lemma stream_of_run dg : dg ∈ concat (map (group_stream sh) Gs) -> of_run sh sent epoch lo n0 dg.
Proof using Hshape Hepoch Hfew Hnum Hok Hids.
  intros Hin. apply list_elem_of_In, in_concat in Hin as (l & Hl & Hdg).
  apply in_map_iff in Hl as (G & <- & HG). apply list_elem_of_In in HG, Hdg.
  pose proof (shape_facts sh Hshape). assert (HGok : group_ok sh code G) by (rewrite list.Forall_forall in Hok; by apply Hok).
  apply group_stream_datagrams in Hdg as (x & Hs & ->); [|apply HGok|lia].
  exists G, x. split; [done|]. by apply member_in_run.
Qed.

(** ** Losses *)

Definition sent_indices (G : Group) : list nat := seq 0 (length (gr_msgs G)) ++ seq m (n - m).

Lemma group_stream_indices G :
  length (gr_msgs G) <= m -> m <= n -> group_stream sh G = map (datagram_of sh G) (sent_indices G).
Proof using Type.
  clear Hfew Hnum. intros Hc Hmn. unfold group_stream, sent_indices, data_datagrams. rewrite map_app. f_equal.
  - apply list_eq. intros i. rewrite list_lookup_imap, list_lookup_fmap. unfold datagram_of.
    destruct (gr_msgs G !! i) as [msg|] eqn:Hi; cbn.
    + apply lookup_lt_Some in Hi as Hlt. rewrite lookup_seq_lt by done. cbn. by rewrite Hi.
    + apply lookup_ge_None in Hi as Hge. by rewrite lookup_seq_ge.
  - apply map_ext_in. intros i Hi. apply in_seq in Hi. unfold datagram_of. by rewrite lookup_ge_None_2 by lia.
Qed.

(** At least [count + 1] of the datagrams of a group arrive. *)
Lemma enough_arrive G arrived :
  G ∈ Gs -> length (lost (concat (map (group_stream sh) Gs)) arrived (gr_id G)) <= sh_r sh ->
  exists xs, NoDup xs /\ length (gr_msgs G) < length xs /\
    Forall (fun x => sends sh G x /\ datagram_of sh G x ∈ arrived) xs.
Proof using Hshape Hcode Hepoch Hfew Hnum Hok Hids.
  intros HG Hlost. assert (HGok : group_ok sh code G) by (rewrite list.Forall_forall in Hok; by apply Hok).
  pose proof (go_count _ _ _ HGok) as Hc. pose proof (shape_facts sh Hshape) as Hsf.
  pose proof (so_n sh Hshape) as Hn. pose proof (so_m sh Hshape) as Hm.
  set (came x := bool_decide (datagram_of sh G x ∈ arrived)).
  assert (Hsends : forall x, x ∈ sent_indices G -> sends sh G x).
  { intros x Hx. unfold sent_indices in Hx. apply elem_of_app in Hx as [Hx|Hx]; apply elem_of_seq in Hx; [left|right]; lia. }
  exists (List.filter came (sent_indices G)). split_and!.
  - apply NoDup_ListNoDup, List.NoDup_filter, NoDup_ListNoDup, list.NoDup_app. split; [apply NoDup_seq|].
    split; [|apply NoDup_seq]. intros x Hx Hx'. apply elem_of_seq in Hx, Hx'. lia.
  - pose proof (filter_length_split came (sent_indices G)) as Hsplit.
    assert (Hall : length (sent_indices G) = length (gr_msgs G) + (1 + sh_r sh))
      by (unfold sent_indices; rewrite length_app, !length_seq; lia).
    enough (length (List.filter (fun x => negb (came x)) (sent_indices G)) <= sh_r sh) by lia.
    etrans; [|exact Hlost]. unfold lost.
    etrans; [|apply (filter_concat_length _ _ (group_stream sh G)), list_elem_of_In, in_map; by apply list_elem_of_In].
    rewrite group_stream_indices, filter_map_length by lia.
    assert (Hgrp : Forall (fun x => datagram_group (datagram_of sh G x) = Some (gr_id G)) (sent_indices G)).
    { apply list.Forall_forall. intros x Hx. unfold datagram_group.
      destruct (datagram_of_decode codec sh ok code Hshape sent G x HGok (find_member G HG) (Hsends x Hx))
        as (h & -> & Hid & _). cbn. by rewrite Hid. }
    clear -Hgrp. induction Hgrp as [|x l Hx Hgrp IH]; [done|]. cbn [List.filter].
    rewrite bool_decide_true by done. cbn [andb]. unfold came at 1. destruct (negb _); cbn; lia.
  - apply list.Forall_forall. intros x Hx. apply list_elem_of_In, filter_In in Hx as [Hx Hc'].
    apply list_elem_of_In in Hx. split; [by apply Hsends|]. by apply bool_decide_eq_true in Hc'.
Qed.

(** ** The decoder *)

Lemma start_tracked (d : FecDecoder St) :
  d_shape d = sh -> length (d_groups d) = n0 -> ok (d_codec_state d) -> d_calls d = [] ->
  tracked sh ok sent epoch lo n0 [] (fec_decoder_reset epoch d).
Proof using Hshape.
  intros Hs Hl Hst Hcalls. unfold fec_decoder_reset, group_clear. rewrite Hs.
  set (d0 := dec_groups _ _).
  assert (Hblank : forall j, group_at d0 j = blank_group sh).
  { intros j. unfold group_at. cbn. rewrite Hs, nth_lookup, list_lookup_fmap. by destruct (d_groups d !! j). }
  assert (Hfree : forall j, ~ in_use (group_at d0 j)) by (intros j; rewrite Hblank; unfold in_use; cbn; auto).
  assert (Hlen : length (d_groups d0) = n0) by (cbn; by rewrite length_map).
  split; try done; [| |].
  - split.
    + split; try done; [|by cbn; rewrite Hcalls]. apply Forall_map, list.Forall_forall. intros g _.
      apply honest_blank.
    + apply Forall_map, list.Forall_forall. by intros g _.
    + intros j j' _ _ Hu. by destruct (Hfree j).
    + exists []. split; [done|constructor|]. intros id idx. split; [by intros H%elem_of_nil|].
      intros (j & _ & Hu & _). by destruct (Hfree j).
  - intros j _ Hu. by destruct (Hfree j).
  - by intros id x H%elem_of_nil.
Qed.

Definition all_messages : list (Z * nat) :=
  concat (map (fun G => map (fun idx => (gr_id G, idx)) (seq 0 (length (gr_msgs G)))) Gs).

Lemma elem_of_all_messages id idx :
  (id, idx) ∈ all_messages <-> exists G, G ∈ Gs /\ gr_id G = id /\ idx < length (gr_msgs G).
Proof using Type.
  clear. unfold all_messages. rewrite list_elem_of_In, in_concat. split.
  - intros (l & Hl & Hin). apply in_map_iff in Hl as (G & <- & HG).
    apply in_map_iff in Hin as (x & [= <- <-] & Hx). apply in_seq in Hx.
    exists G. split; [by apply list_elem_of_In|]. split; [done|lia].
  - intros (G & HG & <- & Hidx). eexists. split; [apply in_map_iff; exists G; split; [done|by apply list_elem_of_In]|].
    apply in_map_iff. exists idx. split; [done|]. apply in_seq. lia.
Qed.

Lemma NoDup_all_messages : NoDup all_messages.
Proof using Hepoch Hnum Hids.
  clear Hfew. unfold all_messages.
  assert (Hgen : forall l, (exists k, l = drop k Gs) ->
    NoDup (concat (map (fun G => map (fun idx => (gr_id G, idx)) (seq 0 (length (gr_msgs G)))) l))).
  { induction l as [|G l IH]; intros [k Hk]; cbn [map concat]; [constructor|].
    assert (HG : Gs !! k = Some G) by (rewrite <- (Nat.add_0_r k), <- lookup_drop, <- Hk; done).
    assert (Hl : l = drop (S k) Gs).
    { rewrite <- Nat.add_1_r, <- drop_drop, <- Hk. done. }
    apply list.NoDup_app. split; [|split].
    - apply NoDup_fmap_2; [by intros x y [= ->]|apply NoDup_seq].
    - intros [id x] Hx Hin. apply list_elem_of_In, in_map_iff in Hx as (y & [= <- <-] & _).
      apply list_elem_of_In, in_concat in Hin as (l' & Hl' & Hin). apply in_map_iff in Hl' as (G' & <- & HG').
      apply in_map_iff in Hin as (z & [= E _] & _). apply list_elem_of_In, list_elem_of_lookup in HG' as [j Hj].
      rewrite Hl, lookup_drop in Hj. destruct (ids_value _ _ HG), (ids_value _ _ Hj). lia.
    - apply IH. by exists (S k). }
  apply Hgen. by exists 0.
Qed.

Lemma all_messages_values :
  map (fun e => message_of sent (fst e) (snd e)) all_messages = concat (map gr_msgs Gs).
Proof using Hepoch Hnum Hids.
  clear Hfew. unfold all_messages. rewrite concat_map, map_map. f_equal. apply map_ext_in. intros G HG.
  apply list_elem_of_In in HG. rewrite map_map. cbn [fst snd]. unfold message_of. rewrite (find_member G HG).
  apply list_eq. intros i. rewrite list_lookup_fmap. destruct (gr_msgs G !! i) as [msg|] eqn:Hi.
  - apply lookup_lt_Some in Hi as Hlt. rewrite lookup_seq_lt by done. cbn. by rewrite nth_lookup, Hi.
  - apply lookup_ge_None in Hi as Hge. by rewrite lookup_seq_ge.
Qed.

(** The decoder hands out every message once. *)
Lemma channel_delivers d arrivals :
  tracked sh ok sent epoch lo n0 [] d ->
  Forall (fun a => fst a ∈ concat (map (group_stream sh) Gs)) arrivals ->
  (forall id, length (lost (concat (map (group_stream sh) Gs)) (map fst arrivals) id) <= sh_r sh) ->
  exists d', run_inputs codec out arrivals d = Some (replicate (length arrivals) FEC_OK, d') /\
    Forall (fun call => snd call = FEC_OUTPUT_OK) (d_calls d') /\
    map fst (d_calls d') ≡ₚ concat (map gr_msgs Gs).
Proof using Hshape Hcode Hepoch Hfew Hnum Hok Hids Hout.
  intros Ht Harr Hlost.
  destruct (run_tracked codec sh ok code Hshape sent sent_groups out Hout epoch lo n0 arrivals [] d Ht)
    as (d' & recv & Hrun & Ht' & _ & Hcov).
  { eapply list.Forall_impl; [exact Harr|]. intros a. apply stream_of_run. }
  exists d'. split; [done|]. destruct (wd_log _ _ _ _ (tk_world _ _ _ _ _ _ _ _ Ht')) as [log Hlog].
  rewrite (lg_calls _ _ _ Hlog). split; [by apply Forall_map, list.Forall_forall|].
  rewrite map_map. cbn [fst]. rewrite <- all_messages_values. apply Permutation_map.
  apply NoDup_Permutation; [apply Hlog|apply NoDup_all_messages|]. intros [id idx].
  rewrite elem_of_all_messages. split.
  - intros Hin. destruct (log_sent sh ok code sent sent_groups epoch lo n0 recv d' log id idx Ht' Hlog Hin)
      as (G & HG & Hid & Hidx). exists G. split; [by apply find_sent_some in HG as [_ HG]|done].
  - intros (G & HG & <- & Hidx). destruct (enough_arrive G (map fst arrivals) HG (Hlost (gr_id G))) as (xs & Hnd & Hlen & Hxs).
    apply (tracked_complete sh ok code Hshape sent sent_groups epoch lo n0 recv d' G xs log); try done;
      [by apply find_member|].
    eapply list.Forall_impl; [exact Hxs|]. intros x [Hs Hin]. split; [done|].
    apply Hcov; [by apply member_in_run|done].
Qed.

(** Messages that came in order are handed out whatever else is lost. *)
Lemma channel_in_order d arrivals :
  tracked sh ok sent epoch lo n0 [] d ->
  Forall (fun a => fst a ∈ concat (map (group_stream sh) Gs)) arrivals ->
  exists d', run_inputs codec out arrivals d = Some (replicate (length arrivals) FEC_OK, d') /\
    forall G idx, G ∈ Gs -> idx < length (gr_msgs G) ->
      (forall x, x <= idx -> datagram_of sh G x ∈ map fst arrivals) ->
      nth idx (gr_msgs G) [] ∈ map fst (d_calls d').
Proof using Hshape Hcode Hepoch Hfew Hnum Hok Hids Hout.
  intros Ht Harr.
  destruct (run_tracked codec sh ok code Hshape sent sent_groups out Hout epoch lo n0 arrivals [] d Ht)
    as (d' & recv & Hrun & Ht' & _ & Hcov).
  { eapply list.Forall_impl; [exact Harr|]. intros a. apply stream_of_run. }
  exists d'. split; [done|]. intros G idx HG Hidx Hall.
  destruct (wd_log _ _ _ _ (tk_world _ _ _ _ _ _ _ _ Ht')) as [log Hlog].
  assert (Hin : (gr_id G, idx) ∈ log).
  { apply (tracked_in_order sh ok sent epoch lo n0 recv d' G idx log); try done; [by apply find_member|].
    intros x Hx. apply Hcov; [|by apply Hall]. apply member_in_run; [done|]. left. lia. }
  rewrite (lg_calls _ _ _ Hlog), map_map. apply list_elem_of_In, in_map_iff. exists (gr_id G, idx).
  split; [|by apply list_elem_of_In]. cbn. unfold message_of. by rewrite (find_member G HG).
Qed.

End Channel.
