(* ===== verification/FecTheorems.v ===== *)
(** * The theorems of the FEC transport

    Each is proved from the lemmas of FecEncoderSpec, FecDecoderSpec, FecEndToEnd and FecCreate,
    for encoders and decoders as [fec_encoder_create] and [fec_decoder_create] make them on the
    Reed-Solomon codec. *)

From Stdlib Require Import Strings.Byte.
From S2P Require Import Prelude WireHeader Gf256 ByteVec RsSimd RsEncode Codec CodecSpec RsCodec.
From S2P Require Import RsCodecSpec Ring FecTransport FecEncoder FecDecoder FecGroups.
From S2P Require Import FecEncoderSpec FecDecoderEmit FecDecoderInv FecDecoderSpec FecDelivery.
From S2P Require Import FecCreate FecEndToEnd.

#[local] Opaque PKG_SIZE gsum build_gf_mul_table.

(** ** From creation to the invariants *)

Section Created.
Context `{host : HostOrder} (env : RsEnv).

Abbreviation rs := (Some (rs_vtable env)).
Abbreviation code sh := (rs_word (sh_shard_size sh) (sh_k sh) (sh_r sh)).
Abbreviation bound sh := (rs_bound (sh_shard_size sh) (sh_k sh) (sh_r sh)).

(** The queue of the encoder was allocated. *)
Definition queue_allocated (e : FecEncoder RsState) : Prop :=
  (cfg_output_queue_packets (e_config e) * datagram_size (e_shape e) < 2 ^ 64)%Z.

Lemma encoder_created alloc parts config b s e b' s' :
  config_in_range config -> backend_ok env b s ->
  fec_encoder_create env alloc parts (Some config) true b s = (Some e, b', s') ->
  exists c, created env config b b' s' c /\ e = fec_encoder_new c s'.
Proof using Type. rewrite encoder_create_with. by apply create_with_some. Qed.

Lemma decoder_created alloc parts config b s d b' s' :
  config_in_range config -> backend_ok env b s ->
  fec_decoder_create env alloc parts (Some config) true b s = (Some d, b', s') ->
  exists c, created env config b b' s' c /\ d = fec_decoder_new c s'.
Proof using Type. rewrite decoder_create_with. by apply create_with_some. Qed.

Lemma created_rel alloc parts config b s e b' s' epoch :
  config_in_range config -> backend_ok env b s ->
  fec_encoder_create env alloc parts (Some config) true b s = (Some e, b', s') ->
  queue_allocated e -> in_range 32 epoch ->
  shape_ok (e_shape e) /\ env_once env = true /\
  enc_rel (e_shape e) (bound (e_shape e)) (code (e_shape e)) (fec_encoder_reset epoch e) [] [].
Proof using Type.
  intros Hr Hb Hc Hq Hep. destruct (encoder_created _ _ _ _ _ _ _ _ Hr Hb Hc) as (c & [_ Hcfg He Hcd _ _] & ->).
  split; [apply Hcfg|]. split; [done|]. apply encoder_start; try done; apply Hcfg.
Qed.

(** The run of an encoder, from its creation. *)
Lemma created_run alloc parts config b s e b' s' epoch out ops :
  config_in_range config -> backend_ok env b s ->
  fec_encoder_create env alloc parts (Some config) true b s = (Some e, b', s') ->
  queue_allocated e -> table_fits (e_shape e) -> in_range 32 epoch ->
  exists msgs e' Gs cur, run_ops rs out ops (fec_encoder_reset epoch e) = Some (msgs, e') /\
    enc_rel (e_shape e) (bound (e_shape e)) (code (e_shape e)) e' Gs cur /\
    length cur < sh_message_shards (e_shape e) /\ absorbed Gs cur = msgs.
Proof using Type.
  intros Hr Hb Hc Hq Hf Hep. destruct (created_rel _ _ _ _ _ _ _ _ _ Hr Hb Hc Hq Hep) as (Hs & He & Hrel).
  pose proof (rs_block_code env (sh_shard_size (e_shape e)) (sh_k (e_shape e)) (sh_r (e_shape e)) He) as Hcode.
  pose proof (m_lt_n (e_shape e) Hs) as (Hm & _).
  destruct (run_ops_rel rs out (e_shape e) _ _ Hs Hf ops _ [] [] Hrel) as (msgs & e' & Gs & cur & H1 & H2 & H3 & H4);
    [cbn; lia|]. exists msgs, e', Gs, cur. by split_and!.
Qed.

End Created.

(** ** A concrete transport for the witnesses: two messages and one parity shard of 32 bytes *)

Definition demo_host : HostOrder := true.
Definition demo_rs_env : RsEnv := mkRsEnv true true true (fun _ => 0%Z) (mkCpu true false true).
Definition demo_config : FecTransportConfig :=
  mkFecTransportConfig FEC_CODEC_RS 3 1 32 FEC_DEFAULT_FLUSH_NS 2 8 0 0 0.

(** What a creation returned, when it returned an object. *)
Definition created_object {A} (r : option A * FecBackend * RsState) (a : A) : A := default a (fst (fst r)).

Lemma created_object_eq {A} (r : option A * FecBackend * RsState) (a : A) :
  (match fst (fst r) with Some _ => true | None => false end) = true ->
  r = (Some (created_object r a), snd (fst r), snd r).
Proof. destruct r as [[[x|] b] s]; [done|]. by intros H. Qed.

Definition demo_encoder_created :=
  fec_encoder_create demo_rs_env true true (Some demo_config) true fec_backend_start rs_start.
Definition demo_encoder : FecEncoder RsState :=
  created_object demo_encoder_created (fec_encoder_new demo_config rs_start).
Definition demo_b1 : FecBackend := snd (fst demo_encoder_created).
Definition demo_s1 : RsState := snd demo_encoder_created.
Definition demo_decoder_created :=
  fec_decoder_create demo_rs_env true true (Some demo_config) true demo_b1 demo_s1.
Definition demo_decoder : FecDecoder RsState :=
  created_object demo_decoder_created (fec_decoder_new demo_config rs_start).
Definition demo_b2 : FecBackend := snd (fst demo_decoder_created).
Definition demo_s2 : RsState := snd demo_decoder_created.

Lemma demo_encoder_create :
  fec_encoder_create demo_rs_env true true (Some demo_config) true fec_backend_start rs_start =
  (Some demo_encoder, demo_b1, demo_s1).
Proof.
  unfold demo_b1, demo_s1, demo_encoder, demo_encoder_created. apply created_object_eq.
  vm_compute. reflexivity.
Qed.

Lemma demo_decoder_create :
  fec_decoder_create demo_rs_env true true (Some demo_config) true demo_b1 demo_s1 =
  (Some demo_decoder, demo_b2, demo_s2).
Proof.
  unfold demo_b2, demo_s2, demo_decoder, demo_decoder_created. apply created_object_eq.
  vm_compute. reflexivity.
Qed.

(** Two messages are pushed and all is sent. *)
Definition demo_ops : list EncOp := [Push (Some [x41]) 1; Push (Some [x42; x43]) 2; Update 3].
Definition demo_run := run_ops (host := demo_host) (Some (rs_vtable demo_rs_env)) (fun _ => FEC_OUTPUT_OK) demo_ops
                         (fec_encoder_reset 7 demo_encoder).
Definition demo_sent : FecEncoder RsState := default demo_encoder (option_map snd demo_run).

Lemma some_pair_inj {A B} (a c : A) (b d : B) : Some (a, b) = Some (c, d) -> a = c /\ b = d.
Proof. by intros [= -> ->]. Qed.

Lemma run_ops_eq {A B} (r : option (A * B)) a b :
  option_map fst r = Some a -> r = Some (a, default b (option_map snd r)).
Proof. destruct r as [[x y]|]; [|done]. by intros [= ->]. Qed.

Lemma demo_run_eq :
  run_ops (host := demo_host) (Some (rs_vtable demo_rs_env)) (fun _ => FEC_OUTPUT_OK) demo_ops
    (fec_encoder_reset 7 demo_encoder) = Some ([[x41]; [x42; x43]], demo_sent).
Proof. unfold demo_sent, demo_run. apply run_ops_eq. vm_compute. reflexivity. Qed.

(** Only the first of the datagrams is lost. *)
Lemma lost_tail `{HostOrder} (dgs : list (list Z)) id : length (lost dgs (drop 1 dgs) id) <= 1.
Proof.
  unfold lost. destruct dgs as [|x l]; [cbn; lia|]. change (drop 1 (x :: l)) with l. cbn [List.filter].
  rewrite (filter_none _ l).
  - case_match; cbn; lia.
  - intros y Hy. rewrite (bool_decide_true (y ∈ l)) by (by apply list_elem_of_In). apply andb_false_r.
Qed.

Lemma demo_config_range : config_in_range demo_config.
Proof. unfold config_in_range, in_range. split_and!; by vm_compute. Qed.

Lemma start_backend env : backend_ok env fec_backend_start rs_start.
Proof. split; [by split|]. by split. Qed.

Lemma demo_shape : e_shape demo_encoder = mkFecShape 3 1 4 32 2.
Proof. vm_compute. reflexivity. Qed.

Lemma demo_decoder_shape : d_shape demo_decoder = mkFecShape 3 1 4 32 2.
Proof. vm_compute. reflexivity. Qed.

Lemma demo_backend : backend_ok demo_rs_env demo_b1 demo_s1.
Proof.
  destruct (encoder_created demo_rs_env _ _ _ _ _ _ _ _ demo_config_range (start_backend _) demo_encoder_create)
    as (c & [_ _ _ _ _ Hb] & _). exact Hb.
Qed.

(** The group the encoder has sent. *)
Lemma demo_group :
  exists G, group_ok (host := demo_host) (mkFecShape 3 1 4 32 2) (rs_word 32 3 1) G /\
    gr_id G = group_id_of 7 0.
Proof.
  destruct (created_run (host := demo_host) demo_rs_env true true demo_config fec_backend_start rs_start
    demo_encoder demo_b1 demo_s1 7 (fun _ => FEC_OUTPUT_OK) demo_ops demo_config_range (start_backend _)
    demo_encoder_create) as (msgs & e' & Gs & cur & Hrun & Hrel & Hlt & Habs).
  { vm_compute. reflexivity. } { unfold table_fits. rewrite demo_shape. cbn. lia. } { unfold in_range. lia. }
  destruct (some_pair_inj _ _ _ _ (eq_trans (eq_sym demo_run_eq) Hrun)) as [Em _]. rewrite <- Em in Habs.
  pose proof (er_groups _ _ _ _ _ _ Hrel) as HG. rewrite demo_shape in *. cbn [sh_message_shards] in Hlt.
  unfold absorbed in Habs. destruct Gs as [|G Gs]; [exfalso; cbn in Habs; subst cur; cbn in Hlt; lia|].
  exists G. split; [by apply list.Forall_cons in HG as [HG _]|].
  pose proof (run_ops_epoch _ _ _ _ _ _ Hrun) as Hep. cbn [e_epoch fec_encoder_reset] in Hep.
  rewrite (er_ids _ _ _ _ _ _ Hrel 0 G eq_refl), Hep. done.
Qed.

(** ** End to end *)

(** C11: What goes in at the encoder comes out of the decoder.  Let an encoder and a decoder be
    created with one configuration and reset to one epoch, the encoder with a queue that could be
    allocated and the geometry with a length table that fits a shard, and let the encoder have
    taken in the messages [msgs] and sent everything (nothing is pending and the group ids are not
    exhausted), in at most as many groups as the decoder's window.  If every datagram that arrives
    is one that was sent, in any order and any number of times, of each group at most [r] datagrams
    never arrive, and the decoder's callback always answers [FEC_OUTPUT_OK], every
    [fec_decoder_input] returns [FEC_OK], and the messages passed to the callback are exactly
    [msgs], each as often as it was pushed. *)
Theorem fec_transport_delivers `{HostOrder} env config b s e b1 s1 d b2 s2 epoch ops out1 out2 arrivals msgs e' :
  config_in_range config -> backend_ok env b s ->
  fec_encoder_create env true true (Some config) true b s = (Some e, b1, s1) ->
  fec_decoder_create env true true (Some config) true b1 s1 = (Some d, b2, s2) ->
  queue_allocated e -> table_fits (e_shape e) -> in_range 32 epoch ->
  run_ops (Some (rs_vtable env)) out1 ops (fec_encoder_reset epoch e) = Some (msgs, e') ->
  fec_encoder_has_pending (Some e') = false -> e_group_exhausted e' = false ->
  (e_next_group e' <= cfg_group_window (d_config d))%Z ->
  (forall j, out2 j = FEC_OUTPUT_OK) ->
  Forall (fun a => fst a ∈ taken (e_calls e')) arrivals ->
  (forall id, length (lost (taken (e_calls e')) (map fst arrivals) id) <= sh_r (e_shape e)) ->
  exists d',
    run_inputs (Some (rs_vtable env)) out2 arrivals (fec_decoder_reset epoch d) =
      Some (replicate (length arrivals) FEC_OK, d') /\
    Forall (fun call => snd call = FEC_OUTPUT_OK) (d_calls d') /\
    map fst (d_calls d') ≡ₚ msgs.
Proof.
  intros Hr Hb Hce Hcd Hq Hf Hep Hrun Hpend Hexh Hwin Hout Harr Hlost.
  destruct (created_run env _ _ _ _ _ _ _ _ _ out1 ops Hr Hb Hce Hq Hf Hep)
    as (msgs' & e2 & Gs & cur & Hrun' & Hrel & _ & Habs).
  rewrite Hrun in Hrun'. injection Hrun' as <- <-.
  destruct (encoder_created env _ _ _ _ _ _ _ _ Hr Hb Hce) as (c & [Hcc Hcfg He Hcodec _ Hb1] & ->).
  destruct (decoder_created env _ _ _ _ _ _ _ _ Hr Hb1 Hcd) as (c' & [Hcc' _ _ Hcodec2 _ _] & ->).
  rewrite Hcc in Hcc'. injection Hcc' as <-. change (e_shape (fec_encoder_new c s1)) with (shape_of c) in *.
  pose proof (rs_block_code env (sh_shard_size (shape_of c)) (sh_k (shape_of c)) (sh_r (shape_of c)) He) as Hcode.
  cbn [fec_encoder_has_pending] in Hpend. rewrite orb_false_iff, !negb_false_iff, !Nat.eqb_eq in Hpend.
  destruct Hpend as [Hdc Hqc].
  assert (cur = []) as -> by (apply nil_length_inv; rewrite <- Hdc; symmetry; apply (er_open _ _ _ _ _ _ Hrel)).
  pose proof (er_sent _ _ _ _ _ _ Hrel) as Hsent. assert (Hq0 : queued e' = []).
  { unfold queued, contents. cbn [as_ring r_count]. by rewrite Hqc. }
  rewrite Hq0 in Hsent. cbn [map] in Hsent. unfold data_datagrams in Hsent. cbn [imap] in Hsent.
  rewrite !app_nil_r in Hsent. rewrite Hsent in *.
  unfold absorbed in Habs. rewrite app_nil_r in Habs. rewrite <- Habs.
  pose proof (er_count _ _ _ _ _ _ Hrel) as Hcnt. rewrite Hexh, Z.add_0_r in Hcnt.
  pose proof (er_next _ _ _ _ _ _ Hrel) as Hnext. unfold in_range in Hnext.
  assert (Hep' : e_epoch e' = epoch) by (by rewrite (run_ops_epoch _ _ _ _ _ _ Hrun)).
  apply (channel_delivers (Some (rs_vtable env)) (shape_of c) _ _ (cc_shape _ Hcfg) Gs epoch
           (Z.to_nat (cfg_group_window c))); try done.
  - cbn in Hwin. lia.
  - unfold UINT32_MAX. lia.
  - apply Hrel.
  - intros i G Hi. rewrite <- Hep'. by apply (er_ids _ _ _ _ _ _ Hrel).
  - apply start_tracked; [apply Hcfg|done|cbn; apply length_replicate|exact Hcodec2|done].
Qed.

Lemma fec_transport_delivers_witness :
  exists d',
    run_inputs (H := demo_host) (Some (rs_vtable demo_rs_env)) (fun _ => FEC_OUTPUT_OK)
      (map (fun dg => (dg, 5%Z)) (drop 1 (taken (e_calls demo_sent)))) (fec_decoder_reset 7 demo_decoder) =
      Some (replicate 3 FEC_OK, d') /\
    map fst (d_calls d') ≡ₚ [[x41]; [x42; x43]].
Proof.
  assert (Hlen : length (taken (e_calls demo_sent)) = 4) by (vm_compute; reflexivity).
  set (dgs := taken (e_calls demo_sent)) in *.
  destruct (fec_transport_delivers (H := demo_host) demo_rs_env demo_config fec_backend_start rs_start
    demo_encoder demo_b1 demo_s1 demo_decoder demo_b2 demo_s2 7 demo_ops (fun _ => FEC_OUTPUT_OK) (fun _ => FEC_OUTPUT_OK)
    (map (fun dg => (dg, 5%Z)) (drop 1 dgs)) [[x41]; [x42; x43]] demo_sent
    demo_config_range (start_backend _) demo_encoder_create demo_decoder_create)
    as (d' & Hrun & _ & Hperm).
  - vm_compute. reflexivity.
  - unfold table_fits. rewrite demo_shape. cbn. lia.
  - unfold in_range. lia.
  - exact demo_run_eq.
  - vm_compute. reflexivity.
  - vm_compute. reflexivity.
  - vm_compute. discriminate.
  - reflexivity.
  - apply Forall_map, list.Forall_forall. intros dg Hdg. cbn [fst]. by apply elem_of_drop in Hdg || (eapply elem_of_sublist; [exact Hdg|apply sublist_drop]).
  - intros id. rewrite map_map. cbn [fst]. rewrite map_id. rewrite demo_shape. cbn [sh_r].
    apply lost_tail.
  - exists d'. split; [|exact Hperm]. rewrite Hrun. rewrite length_map, length_drop, Hlen. reflexivity.
Defined.

(** ** The encoder *)

(** C12: The encoder implements its stream.  Abstractly an encoder cuts the messages it takes in into
    groups of at most [k - 1], makes each a code word (padded messages, zero shards, length table,
    parity) and sends the datagrams of group after group.  For an encoder just created, with a
    queue that could be allocated and a length table that fits a shard, and reset to an epoch:
    whatever sequence of pushes, flushes, drains and updates follows and whatever the callback
    answers, every call returns, and the datagrams the callback has taken, followed by those in the queue, are exactly
    the datagrams of the closed groups, with consecutive ids, and the data datagrams of the open
    one; the messages of those groups are the messages whose push returned [FEC_OK], in order. *)
Theorem fec_encoder_stream `{HostOrder} env alloc parts config b s e b' s' epoch out ops :
  config_in_range config -> backend_ok env b s ->
  fec_encoder_create env alloc parts (Some config) true b s = (Some e, b', s') ->
  queue_allocated e -> table_fits (e_shape e) -> in_range 32 epoch ->
  let sh := e_shape e in
  exists msgs e' Gs cur,
    run_ops (Some (rs_vtable env)) out ops (fec_encoder_reset epoch e) = Some (msgs, e') /\
    taken (e_calls e') ++ map it_datagram (queued e') =
      concat (map (group_stream sh) Gs) ++ data_datagrams sh (group_id_of epoch (e_next_group e')) cur /\
    Forall (group_ok sh (rs_word (sh_shard_size sh) (sh_k sh) (sh_r sh))) Gs /\
    (forall i G, Gs !! i = Some G -> gr_id G = group_id_of epoch (Z.of_nat i)) /\
    concat (map gr_msgs Gs) ++ cur = msgs /\ length cur < sh_message_shards sh.
Proof.
  intros Hr Hb Hc Hq Hf Hep sh.
  destruct (created_run env _ _ _ _ _ _ _ _ _ out ops Hr Hb Hc Hq Hf Hep)
    as (msgs & e' & Gs & cur & Hrun & Hrel & Hlt & Habs).
  pose proof (run_ops_epoch _ _ _ _ _ _ Hrun) as Hep'. cbn in Hep'. exists msgs, e', Gs, cur.
  pose proof (er_sent _ _ _ _ _ _ Hrel) as Hs. unfold open_id in Hs. rewrite Hep' in Hs.
  split_and!; try done; [apply Hrel|]. intros i G Hi. rewrite <- Hep'. by apply (er_ids _ _ _ _ _ _ Hrel).
Qed.

Lemma fec_encoder_stream_witness :
  exists Gs cur, taken (e_calls demo_sent) ++ map it_datagram (queued demo_sent) =
    concat (map (group_stream (host := demo_host) (e_shape demo_encoder)) Gs) ++
    data_datagrams (host := demo_host) (e_shape demo_encoder)
      (group_id_of 7 (e_next_group demo_sent)) cur /\
    concat (map gr_msgs Gs) ++ cur = [[x41]; [x42; x43]].
Proof.
  destruct (fec_encoder_stream (H := demo_host) demo_rs_env true true demo_config fec_backend_start rs_start
    demo_encoder demo_b1 demo_s1 7 (fun _ => FEC_OUTPUT_OK) demo_ops demo_config_range (start_backend _)
    demo_encoder_create) as (msgs & e' & Gs & cur & Hrun & Hs & _ & _ & Hm & _).
  - vm_compute. reflexivity.
  - unfold table_fits. rewrite demo_shape. cbn. lia.
  - unfold in_range. lia.
  - destruct (some_pair_inj _ _ _ _ (eq_trans (eq_sym demo_run_eq) Hrun)) as [Em Ee].
    exists Gs, cur. rewrite Em, Ee. split; assumption.
Defined.

(** C24: The encoder keeps to its rate.  With a wire rate configured, whatever calls are made, with
    update times between [t0] and [t1], the bytes the callback has taken are at most the burst
    (one datagram when none is configured) plus [rate / 8] bytes per second of [t1 - t0].  No
    arithmetic of the token bucket wraps in the encoder's favour. *)
Theorem fec_encoder_rate `{HostOrder} env alloc parts config b s e b' s' codec epoch out ops t0 t1 msgs e' :
  config_in_range config -> cfg_wire_rate_bps config <> 0%Z ->
  fec_encoder_create env alloc parts (Some config) true b s = (Some e, b', s') ->
  (0 <= t0 <= t1)%Z -> (t1 < 2 ^ 64)%Z -> Forall (op_timed t0 t1) ops ->
  run_ops codec out ops (fec_encoder_reset epoch e) = Some (msgs, e') ->
  (NS_PER_SEC * wire_bytes e' <= NS_PER_SEC * burst_of e + cfg_wire_rate_bps config / 8 * (t1 - t0))%Z.
Proof.
  intros Hr Hrate Hc Ht Ht1 Htimes Hrun. rewrite encoder_create_with in Hc. unfold create_with in Hc.
  change (default fec_transport_config_init (Some config)) with config in Hc. destruct (config_complete config) as [c|] eqn:Hcc; [|done].
  destruct (config_complete_ok _ _ Hr Hcc) as (Hr' & Hs & _ & _ & Hsb & _).
  assert (Hsame : cfg_wire_rate_bps c = cfg_wire_rate_bps config).
  { unfold config_complete in Hcc. repeat case_match; by simplify_eq. }
  destruct (bind_rs env c b s) as [[[] b1] s1]; cbn [negb] in Hc; [|done].
  assert (e = fec_encoder_new c s1) as -> by (destruct alloc, parts; cbn [negb] in Hc; by simplify_eq).
  set (md := (Z.of_nat WIRE_HEADER_SIZE + cfg_shard_size c)%Z).
  assert (Hmd : in_range 64 md).
  { destruct Hr' as (_ & _ & Hb16 & _). unfold md, in_range, WIRE_HEADER_SIZE in *. lia. }
  rewrite <- Hsame in *.
  assert (Hp : paced c md t0 t1 (fec_encoder_reset epoch (fec_encoder_new c s1))).
  { split; try done. cbn. by apply Forall_replicate. }
  apply (run_ops_paced codec out c md t0 t1 Hr' Hmd Hrate (proj1 Ht) Ht1 _ _ _ _ Htimes Hp) in Hrun.
  change (burst_of (fec_encoder_new c s1)) with (burst c md).
  destruct Hrun as [_ _ _ Htk Hbd]. pose proof (burst_range c md Hr' Hmd) as Hbr.
  assert (Hr8 : (0 <= cfg_wire_rate_bps c / 8)%Z)
    by (apply Z.div_pos; [destruct Hr' as (_ & _ & _ & _ & _ & _ & _ & Hx & _); apply Hx|lia]).
  unfold NS_PER_SEC in *. destruct (e_last_refill_valid e'); [destruct Hbd as [Hl Hbd]|destruct Hbd as [_ ->]]; nia.
Qed.

Definition paced_config : FecTransportConfig :=
  mkFecTransportConfig FEC_CODEC_RS 3 1 32 FEC_DEFAULT_FLUSH_NS 2 8 0 8000 0.
Definition paced_created :=
  fec_encoder_create demo_rs_env true true (Some paced_config) true fec_backend_start rs_start.
Definition paced_encoder : FecEncoder RsState :=
  created_object paced_created (fec_encoder_new paced_config rs_start).

Lemma paced_encoder_create :
  fec_encoder_create demo_rs_env true true (Some paced_config) true fec_backend_start rs_start =
  (Some paced_encoder, snd (fst paced_created), snd paced_created).
Proof. unfold paced_encoder, paced_created. apply created_object_eq. vm_compute. reflexivity. Qed.

Lemma paced_config_range : config_in_range paced_config.
Proof. unfold config_in_range, in_range. split_and!; by vm_compute. Qed.

Lemma fec_encoder_rate_witness :
  exists e', run_ops (host := demo_host) (Some (rs_vtable demo_rs_env)) (fun _ => FEC_OUTPUT_OK) demo_ops
    (fec_encoder_reset 7 paced_encoder) = Some ([[x41]; [x42; x43]], e') /\
  (NS_PER_SEC * wire_bytes e' <= NS_PER_SEC * burst_of paced_encoder + 8000 / 8 * (3 - 3))%Z.
Proof.
  eexists. split; [apply (run_ops_eq _ _ paced_encoder); vm_compute; reflexivity|].
  apply (fec_encoder_rate (H := demo_host) demo_rs_env true true paced_config fec_backend_start rs_start
    paced_encoder (snd (fst paced_created)) (snd paced_created) (Some (rs_vtable demo_rs_env)) 7
    (fun _ => FEC_OUTPUT_OK) demo_ops 3 3 [[x41]; [x42; x43]]).
  - exact paced_config_range.
  - vm_compute. discriminate.
  - exact paced_encoder_create.
  - lia.
  - lia.
  - repeat constructor; cbn; lia.
  - apply run_ops_eq. vm_compute. reflexivity.
Defined.

(** ** The decoder *)

(** A call of the decoder on a datagram of one of the groups, or a call without a datagram. *)
Definition op_genuine `{HostOrder} (sh : FecShape) (Gs : list Group) (op : DecOp) : Prop :=
  match op with
  | Input (Some bytes) _ => exists G x, G ∈ Gs /\ sends sh G x /\ bytes = datagram_of sh G x
  | _ => True
  end.

Definition is_input (op : DecOp) : Prop := match op with Input _ _ => True | _ => False end.

(** C13: The decoder hands out nothing but messages.  From its creation on, let the datagrams passed
    in come from the groups [Gs] of an encoder, in any order, lost, repeated or late, and let the
    calls be inputs only, or let the callback never answer [FEC_OUTPUT_BLOCKED], updates and resets
    included.  Then every call returns, and every message passed to the callback is, byte for
    byte, a message of one of the groups, whatever was evicted, released, expired or recovered on
    the way. *)
Theorem fec_decoder_genuine `{HostOrder} env alloc parts config b s d b' s' out Gs ops :
  config_in_range config -> backend_ok env b s ->
  fec_decoder_create env alloc parts (Some config) true b s = (Some d, b', s') ->
  Forall (group_ok (d_shape d) (rs_word (sh_shard_size (d_shape d)) (sh_k (d_shape d)) (sh_r (d_shape d)))) Gs ->
  NoDup (map gr_id Gs) -> Forall (op_genuine (d_shape d) Gs) ops ->
  Forall is_input ops \/ (forall j, out j <> FEC_OUTPUT_BLOCKED) ->
  exists d', run_dec (Some (rs_vtable env)) out ops d = Some d' /\
    Forall (fun call => exists G, G ∈ Gs /\ fst call ∈ gr_msgs G) (d_calls d').
Proof.
  intros Hr Hb Hcd HGs Hnd Hops Hblk.
  destruct (decoder_created env _ _ _ _ _ _ _ _ Hr Hb Hcd) as (c & [_ Hcfg He Hcodec _ _] & ->).
  change (d_shape (fec_decoder_new c s')) with (shape_of c) in *. pose proof (cc_shape _ Hcfg) as Hs.
  pose proof (rs_block_code env (sh_shard_size (shape_of c)) (sh_k (shape_of c)) (sh_r (shape_of c)) He) as Hcode.
  assert (Hsent : forall id G, find_sent Gs id = Some G -> gr_id G = id /\
    group_ok (shape_of c) (rs_word (sh_shard_size (shape_of c)) (sh_k (shape_of c)) (sh_r (shape_of c))) G).
  { intros id G HG. apply find_sent_some in HG as [E Hin]. split; [done|].
    rewrite list.Forall_forall in HGs. by apply HGs. }
  pose proof (slot_inv_blocked _ _ _ _ _ _ _ _ (exists j, out j = FEC_OUTPUT_BLOCKED)
    (honest_slot_inv _ (shape_of c) _ _ Hs (find_sent Gs) Hsent)) as HQ.
  destruct (run_dec_safe (Some (rs_vtable env)) out (shape_of c) _ _ _ _ _ _ Hs _
              (fun j Hj => ex_intro _ j Hj) ops (Z.to_nat (cfg_group_window c)) (fec_decoder_new c s'))
    as (d' & Hrun & [Hsafe _]).
  - exact (new_safe (HQ := HQ) _ c s' _ _ _ _ _ _ _ Hcodec).
  - apply list.Forall_forall. intros op Hop. rewrite list.Forall_forall in Hops. specialize (Hops op Hop).
    destruct op as [[bytes|] now|now|epoch]; cbn in *; try done.
    + destruct Hops as (G & x & HG & Hsx & ->). intros d0 _. eapply sent_datagram_arrives; try done.
      by apply find_sent_nodup.
    + destruct Hblk as [Hin|Hno]; [rewrite list.Forall_forall in Hin; by apply Hin in Hop|].
      intros g [_ Hg] _ Hbl. destruct (Hg Hbl) as [j Hj]. by destruct (Hno j).
  - exists d'. split; [done|]. eapply list.Forall_impl; [apply (ds_calls _ _ _ _ _ Hsafe)|].
    intros call (id & G & HG & Hin). exists G. split; [by apply find_sent_some in HG as [_ HG]|done].
Qed.

Lemma fec_decoder_genuine_witness :
  exists G d', gr_msgs G <> [] /\
    run_dec (host := demo_host) (Some (rs_vtable demo_rs_env)) (fun _ => FEC_OUTPUT_OK)
      [Input (Some (datagram_of (host := demo_host) (d_shape demo_decoder) G 0)) 5; Tick 6;
       Input (Some (datagram_of (host := demo_host) (d_shape demo_decoder) G 3)) 7] demo_decoder = Some d' /\
    Forall (fun call => exists G', G' ∈ [G] /\ fst call ∈ gr_msgs G') (d_calls d').
Proof.
  destruct demo_group as (G & HG & _). pose proof (go_count _ _ _ HG) as Hc. cbn [sh_message_shards] in Hc.
  destruct (fec_decoder_genuine (H := demo_host) demo_rs_env true true demo_config demo_b1 demo_s1 demo_decoder
    demo_b2 demo_s2 (fun _ => FEC_OUTPUT_OK) [G]
    [Input (Some (datagram_of (host := demo_host) (d_shape demo_decoder) G 0)) 5; Tick 6;
     Input (Some (datagram_of (host := demo_host) (d_shape demo_decoder) G 3)) 7] demo_config_range) as (d' & Hd & Hall).
  - exact demo_backend.
  - exact demo_decoder_create.
  - rewrite demo_decoder_shape. by apply Forall_singleton.
  - apply NoDup_singleton.
  - rewrite demo_decoder_shape.
    repeat constructor; [exists G, 0|exists G, 3]; (split; [by left|]; split; [|done]); [left|right]; cbn; lia.
  - by right.
  - exists G, d'. split; [|by split]. intros E. rewrite E in Hc. cbn in Hc. lia.
Defined.

(** C25: Messages in order do not wait for the group.  Let the datagrams passed in come from groups
    with consecutive ids from the epoch of the decoder on, no more groups than the decoder has slots,
    with any losses, and let the callback always answer [FEC_OUTPUT_OK].  Every input returns
    [FEC_OK], and every message whose datagram has come, together with those of all messages
    before it in its group, has been passed to the callback, even if neither the length table nor
    any parity shard ever comes. *)
Theorem fec_decoder_prompt `{HostOrder} env alloc parts config b s d b' s' epoch out Gs arrivals :
  config_in_range config -> backend_ok env b s ->
  fec_decoder_create env alloc parts (Some config) true b s = (Some d, b', s') ->
  let sh := d_shape d in
  in_range 32 epoch -> (forall j, out j = FEC_OUTPUT_OK) ->
  Forall (group_ok sh (rs_word (sh_shard_size sh) (sh_k sh) (sh_r sh))) Gs ->
  (forall i G, Gs !! i = Some G -> gr_id G = group_id_of epoch (Z.of_nat i)) ->
  length Gs <= length (d_groups d) -> (Z.of_nat (length Gs) <= UINT32_MAX)%Z ->
  Forall (fun a => fst a ∈ concat (map (group_stream sh) Gs)) arrivals ->
  exists d',
    run_inputs (Some (rs_vtable env)) out arrivals (fec_decoder_reset epoch d) =
      Some (replicate (length arrivals) FEC_OK, d') /\
    forall G idx, G ∈ Gs -> idx < length (gr_msgs G) ->
      (forall x, x <= idx -> datagram_of sh G x ∈ map fst arrivals) ->
      nth idx (gr_msgs G) [] ∈ map fst (d_calls d').
Proof.
  intros Hr Hb Hcd sh Hep Hout HGs Hids Hlen Hnum Harr.
  destruct (decoder_created env _ _ _ _ _ _ _ _ Hr Hb Hcd) as (c & [_ Hcfg He Hcodec _ _] & ->).
  change (d_shape (fec_decoder_new c s')) with (shape_of c) in sh. subst sh.
  pose proof (rs_block_code env (sh_shard_size (shape_of c)) (sh_k (shape_of c)) (sh_r (shape_of c)) He) as Hcode.
  eapply (channel_in_order (Some (rs_vtable env)) (shape_of c) _ _ (cc_shape _ Hcfg) Gs epoch
            (length (d_groups (fec_decoder_new c s')))); try done.
  apply start_tracked; [apply Hcfg|done|done|exact Hcodec|done].
Qed.

Lemma fec_decoder_prompt_witness :
  exists G d',
    run_inputs (H := demo_host) (Some (rs_vtable demo_rs_env)) (fun _ => FEC_OUTPUT_OK)
      [(datagram_of (host := demo_host) (d_shape demo_decoder) G 0, 5%Z)] (fec_decoder_reset 7 demo_decoder) =
      Some ([FEC_OK], d') /\
    nth 0 (gr_msgs G) [] ∈ map fst (d_calls d').
Proof.
  destruct demo_group as (G & HG & Hid). pose proof (go_count _ _ _ HG) as Hc. cbn [sh_message_shards] in Hc.
  destruct (fec_decoder_prompt (H := demo_host) demo_rs_env true true demo_config demo_b1 demo_s1 demo_decoder
    demo_b2 demo_s2 7 (fun _ => FEC_OUTPUT_OK) [G]
    [(datagram_of (host := demo_host) (d_shape demo_decoder) G 0, 5%Z)] demo_config_range demo_backend
    demo_decoder_create) as (d' & Hd & Hall).
  - unfold in_range. lia.
  - reflexivity.
  - rewrite demo_decoder_shape. by apply Forall_singleton.
  - intros [|i] G' Hi; [|done]. injection Hi as <-. exact Hid.
  - assert (Hl : length (d_groups demo_decoder) = 2) by (vm_compute; reflexivity). rewrite Hl. cbn. lia.
  - cbn. unfold UINT32_MAX. lia.
  - apply Forall_singleton. cbn [fst map concat]. rewrite app_nil_r, demo_decoder_shape.
    rewrite group_stream_indices by (cbn; lia). apply list_elem_of_In, in_map, list_elem_of_In.
    unfold sent_indices. apply elem_of_app. left. apply elem_of_seq. lia.
  - exists G, d'. split; [exact Hd|]. apply Hall; [by left|lia|].
    intros x Hx. assert (x = 0) as -> by lia. by left.
Defined.

(** C14: The decoder stays inside its buffers.  Storing a shard, setting its bit and its length, and
    reading the length table or a message are undefined outside the block, the bitmap and the
    length array of the slot.  For a geometry whose length table fits a shard, whatever bytes
    arrive, whatever the callback answers, and whichever updates and resets are made, every call is
    defined and returns, every slot keeps buffers of the sizes it was given, and every message
    passed to the callback has at least one byte and at most a shard. *)
Theorem fec_decoder_in_bounds `{HostOrder} env alloc parts config b s d b' s' out ops :
  config_in_range config -> backend_ok env b s ->
  fec_decoder_create env alloc parts (Some config) true b s = (Some d, b', s') ->
  table_fits (d_shape d) ->
  Forall (fun op => match op with Input (Some bytes) _ => Forall is_byte bytes | _ => True end) ops ->
  exists d', run_dec (Some (rs_vtable env)) out ops d = Some d' /\
    length (d_groups d') = length (d_groups d) /\ Forall (slot_ok (d_shape d)) (d_groups d') /\
    Forall (fun call => 1 <= length (fst call) <= sh_shard_size (d_shape d)) (d_calls d').
Proof.
  intros Hr Hb Hcd Hfit Hops.
  destruct (decoder_created env _ _ _ _ _ _ _ _ Hr Hb Hcd) as (c & [_ Hcfg He Hcodec _ _] & ->).
  change (d_shape (fec_decoder_new c s')) with (shape_of c) in *. pose proof (cc_shape _ Hcfg) as Hs.
  pose proof (rs_block_code env (sh_shard_size (shape_of c)) (sh_k (shape_of c)) (sh_r (shape_of c)) He) as Hcode.
  pose proof (any_slot_inv (Some (rs_vtable env)) (shape_of c) _ _ Hs Hfit) as HQ.
  destruct (run_dec_safe (Some (rs_vtable env)) out (shape_of c) _ _ _ _ _ _ Hs _ (fun _ _ => I) ops
              (Z.to_nat (cfg_group_window c)) (fec_decoder_new c s')) as (d' & Hrun & [Hsafe Hlen]).
  - exact (new_safe (HQ := HQ) _ c s' _ _ _ _ _ _ _ Hcodec).
  - eapply list.Forall_impl; [exact Hops|]. intros [[bytes|] now|now|epoch] Hop; try done.
    intros d0 Hd0. by apply any_datagram_arrives.
  - exists d'. split; [done|]. split; [rewrite Hlen; cbn; by rewrite length_replicate|].
    split; [|apply (ds_calls _ _ _ _ _ Hsafe)].
    eapply list.Forall_impl; [apply (ds_slots _ _ _ _ _ Hsafe)|]. by intros g [Hg _].
Qed.

Lemma fec_decoder_in_bounds_witness :
  exists d', run_dec (host := demo_host) (Some (rs_vtable demo_rs_env)) (fun _ => FEC_OUTPUT_BLOCKED)
    [Input (Some (repeat 255%Z 76)) 1; Tick 2; Input None 3] demo_decoder = Some d' /\
    Forall (fun call => 1 <= length (fst call) <= 32) (d_calls d').
Proof.
  destruct (fec_decoder_in_bounds (H := demo_host) demo_rs_env true true demo_config demo_b1 demo_s1 demo_decoder
    demo_b2 demo_s2 (fun _ => FEC_OUTPUT_BLOCKED) [Input (Some (repeat 255%Z 76)) 1; Tick 2; Input None 3]
    demo_config_range) as (d' & Hd & _ & _ & Hall).
  - eapply demo_backend.
  - exact demo_decoder_create.
  - unfold table_fits. rewrite demo_decoder_shape. cbn. lia.
  - constructor; [|repeat constructor]. apply list.Forall_forall. intros x Hx.
    apply list_elem_of_In, repeat_spec in Hx. subst x. unfold is_byte, in_range. lia.
  - exists d'. split; [exact Hd|]. rewrite demo_decoder_shape in Hall. exact Hall.
Defined.

(** ** The objects of a process *)

(** C23: Encoders and decoders can share the codec.  After any sequence of creations, failed ones
    included, and destructions, the backend counts exactly the objects that are alive; each has a
    configuration that passed validation, with [2 <= k], [1 <= r], [k + r <= 255], shards of at
    least 32 bytes and a group that fits 16 bits, and the static codec is initialised for exactly
    its geometry, so no creation changes the codec under a live object. *)
Theorem fec_process_wf env ops :
  Forall op_in_range ops ->
  process_ok env (foldl (fun p op => process_step env op p) (mkFecProcess fec_backend_start rs_start []) ops).
Proof.
  intros Hops. assert (Hp : process_ok env (mkFecProcess fec_backend_start rs_start [])).
  { split; [apply start_backend|done|constructor]. }
  revert Hp. generalize (mkFecProcess fec_backend_start rs_start []).
  induction Hops as [|op ops Hop Hops IH]; intros p Hp; cbn [foldl]; [done|].
  apply IH. by apply process_step_ok.
Qed.

Lemma fec_process_wf_witness :
  process_ok demo_rs_env
    (foldl (fun p op => process_step demo_rs_env op p) (mkFecProcess fec_backend_start rs_start [])
       [CreateEncoder (Some demo_config) true true true; CreateDecoder (Some demo_config) true true true;
        CreateDecoder None true true true; Destroy 0]).
Proof.
  apply fec_process_wf.
  repeat (apply list.Forall_cons_2; [exact demo_config_range || exact I|]). apply list.Forall_nil_2.
Defined.
