(* ===== verification/FecLimits.v ===== *)
(** * Where the FEC transport falls short

    Runs of the encoder and the decoder that do not do what the library is for: a message that was
    never sent, a message delivered twice, a length table that leaves its block, and an encoder
    that is never allowed to send. *)

From Stdlib Require Import Strings.Byte.
From S2P Require Import Prelude WireHeader Gf256 ByteVec RsEncode Codec CodecSpec RsCodec.
From S2P Require Import RsCodecSpec FecTransport FecEncoder FecDecoder FecGroups FecEncoderSpec.
From S2P Require Import FecDecoderInv FecDecoderSpec FecCreate.

#[local] Opaque PKG_SIZE gsum build_gf_mul_table.

(** ** Decoders on genuine datagrams *)

(** Two messages and one parity shard of 32 bytes, a window of two groups. *)
Definition small_config : FecTransportConfig :=
  mkFecTransportConfig FEC_CODEC_RS 3 1 32 FEC_DEFAULT_FLUSH_NS 2 8 608 0 0.
Definition small_shape : FecShape := mkFecShape 3 1 4 32 2.

Lemma small_config_complete :
  config_complete small_config = Some small_config /\ shape_of small_config = small_shape.
Proof. by vm_compute. Qed.

(** The messages a run of the decoder has delivered. *)
Definition delivered_by `{HostOrder} {St} (codec : option (CodecVTable St)) (out : nat -> FecOutputStatus)
    (ops : list DecOp) (d : FecDecoder St) : option (list (list byte)) :=
  option_map (fun d => taken (d_calls d)) (run_dec codec out ops d).

Lemma datagram_of_data `{HostOrder} G i msg :
  gr_msgs G !! i = Some msg -> datagram_of small_shape G i = data_datagram small_shape (gr_id G) i msg.
Proof. intros Hi. unfold datagram_of. by rewrite Hi. Qed.

(** The datagram of the length table does not depend on the parity. *)
Lemma datagram_of_table `{HostOrder} code G :
  group_ok small_shape code G ->
  datagram_of small_shape G 2 =
  fec_datagram (fec_header small_shape (gr_id G) 2 (Z.of_nat ((length (gr_msgs G) + 1) * 32)) 32)
    (padded 32 (table (gr_msgs G))).
Proof.
  intros HG. pose proof (go_count _ _ _ HG) as Hc. cbn [sh_message_shards small_shape] in Hc.
  unfold datagram_of. rewrite lookup_ge_None_2 by lia. unfold tail_datagram.
  pose proof (go_table _ _ _ HG) as Ht. cbn [sh_message_shards sh_shard_size small_shape] in *. by rewrite Ht.
Qed.

(** A message that was never sent.  A group carries "A" and "BC".  The decoder gets the first
    message while the callback is blocked, then the length table; the shard of the second message
    never comes.  The next [fec_decoder_update] delivers "A" and then, because it takes the length
    table for proof that all data shards are there, two zero bytes of the empty shard as the
    second message.  This holds for every codec, which is not even called. *)
Theorem fec_update_invents_message `{HostOrder} {St} (codec : option (CodecVTable St)) (st : St) code G :
  group_ok small_shape code G -> gr_id G = group_id_of 7 0 -> gr_msgs G = [[x41]; [x42; x43]] ->
  delivered_by codec (fun j => if j =? 0 then FEC_OUTPUT_BLOCKED else FEC_OUTPUT_OK)
    [Input (Some (datagram_of small_shape G 0)) 1; Input (Some (datagram_of small_shape G 2)) 2; Tick 3]
    (fec_decoder_reset 7 (fec_decoder_new small_config st)) =
  Some [[x41]; [x00; x00]].
Proof.
  intros HG Hid Hm. rewrite (datagram_of_table code G HG), (datagram_of_data G 0 [x41]), Hid, Hm by (by rewrite Hm).
  destruct H; vm_compute; reflexivity.
Qed.

(** A message delivered twice.  The window holds two groups; of the first only one datagram
    comes, the second is completed, and a third begins.  The third takes the slot of the completed
    group and not that of the older, unfinished one, so a late copy of a datagram of the second
    group, which is not stale, opens that group again and its message is delivered a second
    time. *)
Theorem fec_late_copy_redelivered `{HostOrder} {St} (codec : option (CodecVTable St)) (st : St) code G0 G1 G2 :
  group_ok small_shape code G0 -> group_ok small_shape code G1 -> group_ok small_shape code G2 ->
  gr_id G0 = group_id_of 7 0 -> gr_id G1 = group_id_of 7 1 -> gr_id G2 = group_id_of 7 2 ->
  gr_msgs G0 = [[x30]; [x31]] -> gr_msgs G1 = [[x41]; [x42; x43]] -> gr_msgs G2 = [[x50]; [x51]] ->
  delivered_by codec (fun _ => FEC_OUTPUT_OK)
    [Input (Some (datagram_of small_shape G0 0)) 1; Input (Some (datagram_of small_shape G1 0)) 2;
     Input (Some (datagram_of small_shape G1 1)) 3; Input (Some (datagram_of small_shape G1 2)) 4;
     Input (Some (datagram_of small_shape G2 0)) 5; Input (Some (datagram_of small_shape G1 0)) 6]
    (fec_decoder_reset 7 (fec_decoder_new small_config st)) =
  Some [[x30]; [x41]; [x42; x43]; [x50]; [x41]].
Proof.
  intros _ HG1 _ Hi0 Hi1 Hi2 Hm0 Hm1 Hm2. rewrite (datagram_of_table code G1 HG1).
  rewrite (datagram_of_data G0 0 [x30]), (datagram_of_data G1 0 [x41]), (datagram_of_data G1 1 [x42; x43]),
    (datagram_of_data G2 0 [x50]), Hi0, Hi1, Hi2, Hm1 by (by rewrite ?Hm0, ?Hm1, ?Hm2).
  destruct H; vm_compute; reflexivity.
Qed.

(** *** Groups for the witnesses *)

Definition small_group `{HostOrder} (id : Z) (m0 m1 : list byte) : Group :=
  mkGroup id [m0; m1]
    (padded 32 m0 ++ padded 32 m1 ++ padded 32 (table [m0; m1]) ++ replicate 32 x00).

Lemma small_group_ok `{HostOrder} id m0 m1 :
  in_range 64 id -> 1 <= length m0 <= 32 -> 1 <= length m1 <= 32 ->
  group_ok small_shape (fun _ => True) (small_group id m0 m1).
Proof.
  intros Hid H0 H1. assert (Ht : length (table [m0; m1]) = 5) by (by rewrite length_table).
  assert (Hs : forall a b c d : list byte, length a = 32 -> length b = 32 -> length c = 32 ->
    shard_bytes 32 (a ++ b ++ c ++ d) 0 = a /\ shard_bytes 32 (a ++ b ++ c ++ d) 1 = b /\
    shard_bytes 32 (a ++ b ++ c ++ d) 2 = c).
  { intros a b c d Ha Hb Hc. unfold shard_bytes. split_and!.
    - cbn [Nat.mul]. rewrite drop_0, take_app_le, take_ge by lia. done.
    - rewrite drop_app_ge by lia. rewrite Ha, drop_0, take_app_le, take_ge by lia. done.
    - rewrite drop_app_ge, drop_app_ge by lia. rewrite Ha, Hb, drop_0, take_app_le, take_ge by lia. done. }
  destruct (Hs (padded 32 m0) (padded 32 m1) (padded 32 (table [m0; m1])) (replicate 32 x00))
    as (E0 & E1 & E2); [apply length_padded; lia..|].
  split; try done; cbn [gr_msgs gr_word small_group sh_message_shards sh_shard_size small_shape length]; try lia.
  - repeat (apply list.Forall_cons_2; [unfold msg_ok; cbn [sh_shard_size small_shape]; lia|]). apply list.Forall_nil_2.
  - intros [|[|i]] msg Hi; cbn in Hi; [injection Hi as <-; exact E0|injection Hi as <-; exact E1|done].
Qed.

Lemma fec_update_invents_message_witness :
  delivered_by (H := true) (@None (CodecVTable unit)) (fun j => if j =? 0 then FEC_OUTPUT_BLOCKED else FEC_OUTPUT_OK)
    [Input (Some (datagram_of (host := true) small_shape (small_group (H := true) (group_id_of 7 0) [x41] [x42; x43]) 0)) 1;
     Input (Some (datagram_of (host := true) small_shape (small_group (H := true) (group_id_of 7 0) [x41] [x42; x43]) 2)) 2;
     Tick 3]
    (fec_decoder_reset 7 (fec_decoder_new small_config tt)) = Some [[x41]; [x00; x00]].
Proof.
  apply (fec_update_invents_message (H := true) None tt (fun _ => True)).
  - apply small_group_ok; [|cbn; lia..]. by vm_compute.
  - reflexivity.
  - reflexivity.
Defined.

Lemma fec_late_copy_redelivered_witness :
  let G0 := small_group (H := true) (group_id_of 7 0) [x30] [x31] in
  let G1 := small_group (H := true) (group_id_of 7 1) [x41] [x42; x43] in
  let G2 := small_group (H := true) (group_id_of 7 2) [x50] [x51] in
  delivered_by (H := true) (@None (CodecVTable unit)) (fun _ => FEC_OUTPUT_OK)
    [Input (Some (datagram_of (host := true) small_shape G0 0)) 1;
     Input (Some (datagram_of (host := true) small_shape G1 0)) 2;
     Input (Some (datagram_of (host := true) small_shape G1 1)) 3;
     Input (Some (datagram_of (host := true) small_shape G1 2)) 4;
     Input (Some (datagram_of (host := true) small_shape G2 0)) 5;
     Input (Some (datagram_of (host := true) small_shape G1 0)) 6]
    (fec_decoder_reset 7 (fec_decoder_new small_config tt)) =
  Some [[x30]; [x41]; [x42; x43]; [x50]; [x41]].
Proof.
  intros G0 G1 G2. apply (fec_late_copy_redelivered (H := true) None tt (fun _ => True)).
  1-3: apply small_group_ok; [by vm_compute|cbn; lia..].
  all: reflexivity.
Defined.

(** ** The length table of a large group *)

Lemma write_lengths_overflow `{HostOrder} lens base j block :
  length block < base + 1 + 2 * (j + length lens) -> 0 < length lens ->
  write_lengths lens base j block = None.
Proof.
  revert j block; induction lens as [|len lens IH]; intros j block Hb Hlen; [cbn in Hlen; lia|].
  cbn [write_lengths]. unfold store_checked. rewrite length_network_length.
  destruct (Nat.leb_spec (base + 1 + j * 2 + 2) (length block)) as [Hle|]; [|done].
  destruct lens as [|l2 lens]; [cbn in Hb; lia|]. apply IH; [|cbn; lia].
  destruct (store_bytes_spec block (base + 1 + j * 2) (network_length len)) as [-> _];
    [rewrite length_network_length; lia|]. cbn [length] in *. lia.
Qed.

(** C39: The length table can leave the block.  Nothing in [config_complete] bounds the number of
    messages by the room for their lengths: when an open group of [c] messages has
    [1 + 2 * c > (r + 1) * shard_size] and the queue has room for the tail, closing the group
    writes the lengths behind the end of the block, for every codec. *)
Theorem fec_length_table_overflows `{HostOrder} {St} (codec : option (CodecVTable St)) (e : FecEncoder St) :
  shape_ok (e_shape e) -> length (e_block e) = sh_n (e_shape e) * sh_shard_size (e_shape e) ->
  e_group_exhausted e = false -> 0 < e_data_count e <= length (e_lengths e) ->
  (sh_r (e_shape e) + 1) * sh_shard_size (e_shape e) < 1 + 2 * e_data_count e ->
  queue_can_add e (sh_r (e_shape e) + 1) (Z.of_nat (sh_r (e_shape e) + 1) * datagram_size (e_shape e)) = true ->
  encode_and_enqueue_tails codec e = None.
Proof.
  intros Hs Hb Hex Hc Hbig Hq. unfold encode_and_enqueue_tails.
  rewrite Hex, (proj2 (Nat.eqb_neq _ 0)) by lia. cbn [orb].
  pose proof (so_n _ Hs). pose proof (so_m _ Hs). pose proof (so_k _ Hs).
  replace (sh_n (e_shape e) - sh_message_shards (e_shape e)) with (sh_r (e_shape e) + 1) by lia.
  rewrite Hq. cbn [negb]. unfold write_length_table.
  destruct (shard_zero (sh_shard_size (e_shape e)) (sh_n (e_shape e)) (e_block e) (sh_message_shards (e_shape e))
              (sh_message_shards (e_shape e)) Hb ltac:(lia) ltac:(lia)) as [Hz _].
  set (base := sh_message_shards (e_shape e) * sh_shard_size (e_shape e)) in *.
  unfold store_checked at 1. cbn [length].
  destruct (Nat.leb_spec (base + 1) (length (zero_range (e_block e) base (sh_shard_size (e_shape e))))) as [Hle|]; [|done].
  rewrite write_lengths_overflow; [done| |].
  - destruct (store_bytes_spec (zero_range (e_block e) base (sh_shard_size (e_shape e))) base
                [Z_to_byte (Z.of_nat (e_data_count e))]) as [-> _]; [cbn [length]; lia|].
    rewrite Hz, length_take. unfold base. nia.
  - rewrite length_take. lia.
Qed.

(** 253 messages and one parity shard of 32 bytes: an accepted configuration. *)
Definition wide_config : FecTransportConfig :=
  mkFecTransportConfig FEC_CODEC_RS 254 1 32 FEC_DEFAULT_FLUSH_NS 2 8 608 0 0.

Definition wide_encoder : FecEncoder unit :=
  let e := fec_encoder_reset 7 (fec_encoder_new wide_config tt) in
  enc_group 0 false 253 (replicate 253 1%Z) (e_block e) e.

Lemma fec_length_table_overflows_witness :
  config_complete wide_config = Some wide_config /\
  encode_and_enqueue_tails (host := true) (@None (CodecVTable unit)) wide_encoder = None.
Proof.
  split; [vm_compute; reflexivity|]. apply (fec_length_table_overflows (H := true)).
  - split; vm_compute; first [reflexivity|discriminate|lia].
  - vm_compute. reflexivity.
  - reflexivity.
  - vm_compute. lia.
  - vm_compute. lia.
  - vm_compute. reflexivity.
Defined.

(** ** Pacing *)

(** Frequent updates starve a paced encoder.  The refill rounds the earned bytes down and moves
    its clock on regardless, so while the head of the queue lacks tokens and each update comes so
    soon after the last that the rate earns less than a byte, nothing is ever sent, however many
    updates there are and however much time they cover in total. *)
Theorem fec_pacing_starves `{HostOrder} {St} (codec : option (CodecVTable St)) out it times (e : FecEncoder St) :
  starving it e -> (0 <= burst_of e)%Z ->
  close_times (cfg_wire_rate_bps (e_config e) / 8) (e_last_refill_ns e) times ->
  exists e', run_ops codec out (map Update times) e = Some ([], e') /\
    e_calls e' = e_calls e /\ e_q_count e' <> 0 /\
    e_last_refill_ns e' = foldl (fun _ now => now) (e_last_refill_ns e) times.
Proof.
  intros Hs Hb. revert e Hs Hb. induction times as [|now times IH]; intros e Hs Hb Ht; cbn [map run_ops].
  { exists e. split_and!; try done. destruct Hs. lia. }
  destruct Ht as [[Hn Hg] Ht]. cbn [run_op op_message].
  destruct (update_starving codec out it e now Hs Hn Hg Hb) as (e1 & -> & Hs1 & Hl & Hcfg & Hb1 & Hc).
  destruct (IH e1) as (e2 & -> & Hc2 & Hq2 & Hl2); [done|congruence|by rewrite Hcfg, Hl|].
  exists e2. split; [done|]. split; [congruence|]. split; [done|]. by rewrite Hl2, Hl.
Qed.

(** One datagram waits, at 8 Mbit/s, with no tokens left. *)
Definition waiting_item : FecQueueItem := mkFecQueueItem 76 FEC_KIND_DATA (repeat 0%Z 76).
Definition waiting_encoder : FecEncoder unit :=
  enc_queue 1 0 76 (replicate 8 waiting_item)
    (enc_tokens 0 1000 true
       (fec_encoder_new (mkFecTransportConfig FEC_CODEC_RS 3 1 32 FEC_DEFAULT_FLUSH_NS 2 8 608 8000000 0) tt)).

Lemma fec_pacing_starves_witness :
  exists e', run_ops (host := true) (@None (CodecVTable unit)) (fun _ => FEC_OUTPUT_OK)
    (map Update [1900; 2800; 3700; 4600; 5500]%Z) waiting_encoder = Some ([], e') /\ e_calls e' = [].
Proof.
  destruct (fec_pacing_starves (H := true) None (fun _ => FEC_OUTPUT_OK) waiting_item
    [1900; 2800; 3700; 4600; 5500]%Z waiting_encoder) as (e' & Hrun & Hc & _).
  - split; vm_compute; first [reflexivity|discriminate|lia|split; first [reflexivity|discriminate]].
  - vm_compute. discriminate.
  - cbn [close_times]. repeat split; vm_compute; first [reflexivity|discriminate].
  - exists e'. split; [exact Hrun|exact Hc].
Defined.
