(* ===== verification/WirehairSegment.v ===== *)
(** * Wirehair segments, sender side: src/apps/wg_multi_pipeline/wirehair_segment.c

    A segment is a piece of a stream that travels as the packets of a fountain code: the first
    packets are the segment itself, cut to [WH_PACKET_SIZE], the others repair packets of the
    Wirehair library.  This file has the configuration and its validation, the packet counts, the
    incremental encoder [WirehairSegmentTx] and the blocking [wirehair_segment_send].

    The library (src/third_party/wirehair) is the class [Wirehair] of its functions.  A callback
    with its context is a function on a context type.  The nanosecond totals that are measured
    around the calls are left out of the statistics. *)

From Stdlib Require Import Strings.Byte.
From S2P Require Import Prelude WireHeader.

Local Open Scope Z_scope.

(** ** The library *)

Inductive WirehairResult :=
| Wirehair_Success | Wirehair_NeedMore | Wirehair_InvalidInput | Wirehair_BadDenseSeed
| Wirehair_BadPeelSeed | Wirehair_BadInput_SmallN | Wirehair_BadInput_LargeN
| Wirehair_ExtraInsufficient | Wirehair_Error | Wirehair_OOM | Wirehair_UnsupportedPlatform.

#[export] Instance WirehairResult_eq_dec : EqDecision WirehairResult.
Proof. solve_decision. Defined.

(** The functions of <wirehair/wirehair.h> that are used, for blocks of [WH_PACKET_SIZE] bytes:
    [None] is a null codec.  [wirehair_encode] returns the bytes it writes, [wirehair_recover] the
    message. *)
Class Wirehair := {
  WirehairEncoder : Type;
  WirehairDecoder : Type;
  wirehair_init : WirehairResult;
  wirehair_encoder_create : list byte -> option WirehairEncoder;
  wirehair_encode : WirehairEncoder -> Z -> WirehairResult * list byte;
  wirehair_decoder_create : Z -> option WirehairDecoder;
  wirehair_decode : WirehairDecoder -> Z -> list byte -> WirehairResult * WirehairDecoder;
  wirehair_recover : WirehairDecoder -> Z -> WirehairResult * list byte }.

(** ** Configuration *)

Definition WIRE_FLAG_RETURN_PATH : Z := 1.
Definition WIRE_FLAG_ACK_REQUEST : Z := 2.
Definition WIRE_DEFAULT_TTL : Z := 8.

Definition WH_SEGMENT_DEFAULT_BYTES : Z := 10 * 1024 * 1024.
Definition WH_SEGMENT_DEFAULT_REPAIR_PCT : Z := 10.
Definition WH_SEGMENT_WINDOW_DEFAULT : Z := 8.
Definition WH_SEGMENT_WINDOW_MAX : Z := 16.
Definition WH_PACKET_SIZE : Z := 1370.
Definition WH_REPAIR_MIN_PACKETS : Z := 2.
Definition WH_ACK_REPAIR_ROUND_PCT : Z := 5.
Definition WH_ACK_INITIAL_WAIT_MS : Z := 200.
Definition WH_ACK_REPAIR_WAIT_MS : Z := 40.
Definition WH_ACK_POLL_SLICE_MS : Z := 5.
Definition WH_ACK_WAIT_MIN_MS : Z := 8.
Definition WH_ACK_WAIT_MAX_MS : Z := 800.
Definition WH_ACK_SRTT_MULT : Z := 2.

Record WirehairSegmentConfig := mkSegmentConfig {
  sc_segment_bytes : Z;
  sc_repair_percent : Z;
  sc_window : Z;
  sc_ack_enabled : bool;
  sc_origin_node : Z;
  sc_ack_ttl : Z }.

Definition wirehair_segment_config_defaults : WirehairSegmentConfig :=
  mkSegmentConfig WH_SEGMENT_DEFAULT_BYTES WH_SEGMENT_DEFAULT_REPAIR_PCT WH_SEGMENT_WINDOW_DEFAULT
    false 1 WIRE_DEFAULT_TTL.

(** Every field fits its C type. *)
Definition segment_config_in_range (c : WirehairSegmentConfig) : Prop :=
  in_range 32 (sc_segment_bytes c) /\ in_range 8 (sc_repair_percent c) /\
  in_range 8 (sc_window c) /\ in_range 8 (sc_origin_node c) /\ in_range 8 (sc_ack_ttl c).

Definition wirehair_segment_window (config : option WirehairSegmentConfig) : Z :=
  match config with
  | None => WH_SEGMENT_WINDOW_DEFAULT
  | Some config =>
      if sc_window config =? 0 then WH_SEGMENT_WINDOW_DEFAULT
      else if sc_window config >? WH_SEGMENT_WINDOW_MAX then WH_SEGMENT_WINDOW_MAX
      else sc_window config
  end.

Definition wirehair_segment_source_packets (segment_bytes : Z) : Z :=
  if segment_bytes =? 0 then 0
  else
    let packets := u32 (segment_bytes + WH_PACKET_SIZE - 1) / WH_PACKET_SIZE in
    if packets <? 2 then 2 else packets.

Definition wirehair_segment_repair_packets (source_packets repair_percent : Z) : Z :=
  if (source_packets =? 0) || (repair_percent =? 0) then 0
  else
    let scaled := u64 (source_packets * repair_percent) in
    let repair := u32 (u64 (scaled + 99) / 100) in
    if repair <? WH_REPAIR_MIN_PACKETS then WH_REPAIR_MIN_PACKETS else repair.

Definition wirehair_segment_ack_repair_round_packets (source_packets : Z) : Z :=
  wirehair_segment_repair_packets source_packets WH_ACK_REPAIR_ROUND_PCT.

Definition wirehair_segment_ack_repair_delay_ms (srtt_ms : Z) : Z :=
  if srtt_ms =? 0 then WH_ACK_INITIAL_WAIT_MS
  else
    let delay := u32 (srtt_ms * WH_ACK_SRTT_MULT) in
    let delay := if delay <? WH_ACK_WAIT_MIN_MS then WH_ACK_WAIT_MIN_MS else delay in
    if delay >? WH_ACK_WAIT_MAX_MS then WH_ACK_WAIT_MAX_MS else delay.

Definition wirehair_segment_repair_ceiling (source_packets repair_percent : Z) (ack_enabled : bool) :
    Z :=
  let repair := wirehair_segment_repair_packets source_packets repair_percent in
  if ack_enabled && (source_packets >? repair) then source_packets else repair.

Definition wirehair_segment_config_valid (config : option WirehairSegmentConfig) : bool :=
  match config with
  | None => false
  | Some c =>
      if (sc_segment_bytes c =? 0) || (sc_repair_percent c >? 100) || (sc_origin_node c =? 0) ||
         (sc_ack_ttl c =? 0) ||
         (negb (sc_window c =? 0) && (sc_window c >? WH_SEGMENT_WINDOW_MAX))
      then false
      else
        let source_packets := wirehair_segment_source_packets (sc_segment_bytes c) in
        let repair_packets := wirehair_segment_repair_ceiling source_packets (sc_repair_percent c)
                                (sc_ack_enabled c) in
        (source_packets <=? 64000) && (u32 (source_packets + repair_packets) <=? 65535)
  end.

Record WirehairSegmentSendStats := mkSendStats {
  ss_source_packets : Z;
  ss_repair_budget : Z;
  ss_repair_sent : Z;
  ss_packets_sent : Z;
  ss_repair_rounds : Z;
  ss_stopped_by_ack : bool;
  ss_ack_timed_out : bool }.

Definition stats_sent (repair : bool) (s : WirehairSegmentSendStats) : WirehairSegmentSendStats :=
  mkSendStats (ss_source_packets s) (ss_repair_budget s)
    (if repair then u32 (ss_repair_sent s + 1) else ss_repair_sent s)
    (u32 (ss_packets_sent s + 1)) (ss_repair_rounds s) (ss_stopped_by_ack s) (ss_ack_timed_out s).
Definition stats_round (s : WirehairSegmentSendStats) : WirehairSegmentSendStats :=
  mkSendStats (ss_source_packets s) (ss_repair_budget s) (ss_repair_sent s) (ss_packets_sent s)
    (u32 (ss_repair_rounds s + 1)) (ss_stopped_by_ack s) (ss_ack_timed_out s).
Definition stats_acked (s : WirehairSegmentSendStats) : WirehairSegmentSendStats :=
  mkSendStats (ss_source_packets s) (ss_repair_budget s) (ss_repair_sent s) (ss_packets_sent s)
    (ss_repair_rounds s) true (ss_ack_timed_out s).
Definition stats_timed_out (s : WirehairSegmentSendStats) : WirehairSegmentSendStats :=
  mkSendStats (ss_source_packets s) (ss_repair_budget s) (ss_repair_sent s) (ss_packets_sent s)
    (ss_repair_rounds s) (ss_stopped_by_ack s) true.

(** ** One packet *)

(** The header fields that are the same for all packets of a segment. *)
Record SegmentTarget := mkTarget {
  tg_config : WirehairSegmentConfig;
  tg_flow_id : Z;
  tg_segment_id : Z;
  tg_final_dst : Z;
  tg_ttl : Z;
  tg_data_len : Z;
  tg_packet_limit : Z }.

Definition packet_header (t : SegmentTarget) (packet_id written : Z) : WireHeader :=
  {| wh_version := WIRE_VERSION_V4; wh_type := WIRE_TYPE_DATA; wh_final_dst := tg_final_dst t;
     wh_ttl := tg_ttl t; wh_flow_id := tg_flow_id t; wh_block_id := tg_segment_id t;
     wh_shard_index := u16 packet_id; wh_shard_count := u16 (tg_packet_limit t);
     wh_valid_len := 0; wh_payload_len := u16 written; wh_encode_begin_ns := 0;
     wh_encode_end_ns := 0; wh_origin_node := sc_origin_node (tg_config t);
     wh_flags := if sc_ack_enabled (tg_config t) then WIRE_FLAG_ACK_REQUEST else 0;
     wh_segment_bytes := tg_data_len t |}.

Section Tx.
Context `{wh : Wirehair}.

(** [wirehair_ready]: [once] is the result of [pthread_once]. *)
Definition wirehair_ready (once : bool) : bool :=
  once && bool_decide (wirehair_init = Wirehair_Success).

(** The bytes of a packet: a slice of the message, or what the library encodes. *)
Definition fill_packet_payload (encoder : option WirehairEncoder) (message : list byte)
    (codec_bytes packet_id source_packets : Z) : option (list byte) :=
  if packet_id <? source_packets then
    let offset := u64 (packet_id * WH_PACKET_SIZE) in
    if offset >=? codec_bytes then None
    else
      let remaining := u32 (codec_bytes - offset) in
      let written := if remaining <? WH_PACKET_SIZE then remaining else WH_PACKET_SIZE in
      Some (take (Z.to_nat written) (drop (Z.to_nat offset) message))
  else
    match encoder with
    | None => None
    | Some encoder =>
        let '(encode_result, payload) := wirehair_encode encoder packet_id in
        let written := Z.of_nat (length payload) in
        if negb (bool_decide (encode_result = Wirehair_Success)) || (written =? 0) ||
           (written >? WH_PACKET_SIZE)
        then None else Some payload
    end.

(** [None] is the result -1. *)
Definition ensure_wirehair_encoder (encoder : option WirehairEncoder) (message : list byte)
    (codec_bytes : Z) : option WirehairEncoder :=
  match encoder with
  | Some e => Some e
  | None => if codec_bytes =? 0 then None
            else wirehair_encoder_create (take (Z.to_nat codec_bytes) message)
  end.

(** ** The incremental encoder *)

Record WirehairSegmentTx := mkTx {
  tx_target : SegmentTarget;
  tx_encoder : option WirehairEncoder;
  tx_message : list byte;
  tx_codec_bytes : Z;
  tx_next_packet_id : Z;
  tx_stats : WirehairSegmentSendStats }.

Definition tx_with (tx : WirehairSegmentTx) (encoder : option WirehairEncoder) (next : Z)
    (stats : WirehairSegmentSendStats) : WirehairSegmentTx :=
  mkTx (tx_target tx) encoder (tx_message tx) (tx_codec_bytes tx) next stats.

(** [codec_bytes] and [message]: a segment shorter than two packets is padded with zeros. *)
Definition codec_bytes_of (data_len : Z) : Z :=
  if data_len <? 2 * WH_PACKET_SIZE then 2 * WH_PACKET_SIZE else data_len.
Definition message_of (data : list byte) : list byte :=
  data ++ replicate (Z.to_nat (codec_bytes_of (Z.of_nat (length data))) - length data) x00.

(** The guard of [wirehair_segment_tx_create] and [wirehair_segment_send]. *)
Definition segment_args_bad (once : bool) (config : option WirehairSegmentConfig)
    (final_dst ttl : Z) (data : option (list byte)) : bool :=
  match config, data with
  | Some c, Some data =>
      let data_len := Z.of_nat (length data) in
      negb (wirehair_segment_config_valid config) || (data_len =? 0) ||
      (data_len >? sc_segment_bytes c) || (data_len >? 2 ^ 32 - 1) || (final_dst =? 0) ||
      (ttl =? 0) || negb (wirehair_ready once)
  | _, _ => true
  end.

(** [alloc] says whether the object, and [alloc_pad] whether the padded copy is allocated. *)
Definition wirehair_segment_tx_create (once alloc alloc_pad : bool)
    (config : option WirehairSegmentConfig) (flow_id segment_id final_dst ttl : Z)
    (data : option (list byte)) : option WirehairSegmentTx :=
  if segment_args_bad once config final_dst ttl data then None
  else
    match config, data with
    | Some c, Some data =>
        if negb alloc then None
        else
          let data_len := Z.of_nat (length data) in
          let source_packets := wirehair_segment_source_packets data_len in
          let repair_budget :=
            wirehair_segment_repair_packets source_packets (sc_repair_percent c) in
          let repair_ceiling := wirehair_segment_repair_ceiling source_packets
                                  (sc_repair_percent c) (sc_ack_enabled c) in
          let packet_limit := u32 (source_packets + repair_ceiling) in
          if (data_len <? 2 * WH_PACKET_SIZE) && negb alloc_pad then None
          else
            Some (mkTx (mkTarget c flow_id segment_id final_dst ttl data_len packet_limit) None
                    (message_of data) (codec_bytes_of data_len) 0
                    (mkSendStats source_packets repair_budget 0 0 0 false false))
    | _, _ => None
    end.

Definition wirehair_segment_tx_source_complete (tx : option WirehairSegmentTx) : bool :=
  match tx with
  | None => false
  | Some tx => tx_next_packet_id tx >=? ss_source_packets (tx_stats tx)
  end.

Definition wirehair_segment_tx_repair_exhausted (tx : option WirehairSegmentTx) : bool :=
  match tx with
  | None => false
  | Some tx => tx_next_packet_id tx >=? tg_packet_limit (tx_target tx)
  end.

Definition wirehair_segment_tx_stats (tx : option WirehairSegmentTx) :
    option WirehairSegmentSendStats := option_map tx_stats tx.

Section Emit.
Context {C : Type} (emit_fn : WireHeader -> list byte -> C -> Z * C).

(** [emit_one_packet]: the result, the context and the statistics. *)
Definition emit_one_packet (encoder : option WirehairEncoder) (message : list byte)
    (codec_bytes : Z) (t : SegmentTarget) (packet_id source_packets : Z)
    (stats : WirehairSegmentSendStats) (c : C) : Z * WirehairSegmentSendStats * C :=
  match fill_packet_payload encoder message codec_bytes packet_id source_packets with
  | None => (-1, stats, c)
  | Some payload =>
      let written := Z.of_nat (length payload) in
      let '(rc, c) := emit_fn (packet_header t packet_id written) payload c in
      if negb (rc =? 0) then (-1, stats, c)
      else (0, stats_sent (packet_id >=? source_packets) stats, c)
  end.

(** One turn of the loop of [wirehair_segment_tx_emit_range]: [true] when the packet was sent. *)
Definition emit_turn (tx : WirehairSegmentTx) (c : C) : bool * WirehairSegmentTx * C :=
  let id := tx_next_packet_id tx in
  let repair := id >=? ss_source_packets (tx_stats tx) in
  match (if repair
         then option_map Some
                (ensure_wirehair_encoder (tx_encoder tx) (tx_message tx) (tx_codec_bytes tx))
         else Some (tx_encoder tx)) with
  | None => (false, tx, c)
  | Some encoder =>
      let '(rc, stats, c) :=
        emit_one_packet encoder (tx_message tx) (tx_codec_bytes tx) (tx_target tx) id
          (ss_source_packets (tx_stats tx)) (tx_stats tx) c in
      if negb (rc =? 0) then (false, tx_with tx encoder id stats, c)
      else (true, tx_with tx encoder (u32 (id + 1)) stats, c)
  end.

(** The loop: [turns] is the number of packets still to send. *)
Fixpoint emit_loop (turns : nat) (emitted : Z) (tx : WirehairSegmentTx) (c : C) :
    Z * WirehairSegmentTx * C :=
  match turns with
  | O => (emitted, tx, c)
  | S turns =>
      let '(sent, tx, c) := emit_turn tx c in
      if sent then emit_loop turns (emitted + 1) tx c else (-1, tx, c)
  end.

Definition wirehair_segment_tx_emit_range (tx : WirehairSegmentTx) (end_packet_id : Z) (c : C) :
    Z * WirehairSegmentTx * C :=
  if end_packet_id <? tx_next_packet_id tx then (-1, tx, c)
  else
    let limit := tg_packet_limit (tx_target tx) in
    let end_packet_id := if end_packet_id >? limit then limit else end_packet_id in
    emit_loop (Z.to_nat (end_packet_id - tx_next_packet_id tx)) 0 tx c.

Definition wirehair_segment_tx_emit_source (tx : WirehairSegmentTx) (max_packets : Z) (c : C) :
    Z * WirehairSegmentTx * C :=
  if max_packets =? 0 then (0, tx, c)
  else
    let source := ss_source_packets (tx_stats tx) in
    let e := u32 (tx_next_packet_id tx + max_packets) in
    wirehair_segment_tx_emit_range tx
      (if (e <? tx_next_packet_id tx) || (e >? source) then source else e) c.

Definition wirehair_segment_tx_emit_repair (tx : WirehairSegmentTx) (max_packets : Z) (c : C) :
    Z * WirehairSegmentTx * C :=
  if (tx_next_packet_id tx <? ss_source_packets (tx_stats tx)) || (max_packets =? 0)
  then (0, tx, c)
  else
    let limit := tg_packet_limit (tx_target tx) in
    let e := u32 (tx_next_packet_id tx + max_packets) in
    let '(emitted, tx, c) :=
      wirehair_segment_tx_emit_range tx
        (if (e <? tx_next_packet_id tx) || (e >? limit) then limit else e) c in
    if emitted >? 0
    then (emitted, tx_with tx (tx_encoder tx) (tx_next_packet_id tx) (stats_round (tx_stats tx)), c)
    else (emitted, tx, c).

(** ** The blocking sender *)

(** [ack_poll flow_id segment_id wait_ms]; [None] is a null callback. *)
Context (ack_poll : option (Z -> Z -> Z -> C -> Z * C)).

(** The loop of [wait_for_segment_ack]: every turn waits for a slice of at least a millisecond. *)
Fixpoint wait_loop (turns : nat) (poll : Z -> Z -> Z -> C -> Z * C) (flow_id segment_id wait_ms waited : Z)
    (c : C) : Z * C :=
  match turns with
  | O => (0, c)
  | S turns =>
      if waited <? wait_ms then
        let slice := if WH_ACK_POLL_SLICE_MS >? wait_ms - waited then wait_ms - waited
                     else WH_ACK_POLL_SLICE_MS in
        let '(acked, c) := poll flow_id segment_id slice c in
        if negb (acked =? 0) then (acked, c)
        else wait_loop turns poll flow_id segment_id wait_ms (waited + slice) c
      else (0, c)
  end.

Definition wait_for_segment_ack (flow_id segment_id wait_ms : Z) (c : C) : Z * C :=
  match ack_poll with
  | None => (0, c)
  | Some poll => wait_loop (Z.to_nat wait_ms) poll flow_id segment_id wait_ms 0 c
  end.

(** The local variables of [wirehair_segment_send] that its loops change. *)
Record SendState := mkSendState {
  sn_encoder : option WirehairEncoder;
  sn_stats : WirehairSegmentSendStats;
  sn_ctx : C }.

(** [Some rc] is [result = rc; goto out], [None] is the next statement. *)
Abbreviation SendStep := (option Z * SendState)%type.

(** [if (acked < 0) goto out; if (acked > 0) { stopped_by_ack = true; result = 0; goto out; }] *)
Definition check_ack (acked : Z) (s : SendState) : SendStep :=
  if acked <? 0 then (Some (-1), s)
  else if acked >? 0 then (Some 0, mkSendState (sn_encoder s) (stats_acked (sn_stats s)) (sn_ctx s))
  else (None, s).

Section Send.
Context (message : list byte) (codec_bytes source_packets : Z) (t : SegmentTarget).

Definition send_packet (packet_id : Z) (s : SendState) : SendStep :=
  let '(rc, stats, c) := emit_one_packet (sn_encoder s) message codec_bytes t packet_id
                           source_packets (sn_stats s) (sn_ctx s) in
  (if negb (rc =? 0) then Some (-1) else None, mkSendState (sn_encoder s) stats c).

(** [ensure_wirehair_encoder] on the local encoder. *)
Definition ensure_encoder (s : SendState) : SendStep :=
  match ensure_wirehair_encoder (sn_encoder s) message codec_bytes with
  | None => (Some (-1), s)
  | Some e => (None, mkSendState (Some e) (sn_stats s) (sn_ctx s))
  end.

Definition then_ (r : SendStep) (next : SendState -> SendStep) : SendStep :=
  match r with (None, s) => next s | r => r end.

(** The finite loop without acknowledgements, from [packet_id] on. *)
Fixpoint send_loop (turns : nat) (packet_id : Z) (s : SendState) : SendStep :=
  match turns with
  | O => (None, s)
  | S turns =>
      then_ (if packet_id >=? source_packets then ensure_encoder s else (None, s))
        (fun s => then_ (send_packet packet_id s) (send_loop turns (packet_id + 1)))
  end.

(** The loops that look for an acknowledgement before each packet. *)
Fixpoint polled_loop (poll : Z -> Z -> Z -> C -> Z * C) (turns : nat) (packet_id : Z) (s : SendState) :
    SendStep :=
  match turns with
  | O => (None, s)
  | S turns =>
      let '(acked, c) := poll (tg_flow_id t) (tg_segment_id t) 0 (sn_ctx s) in
      then_ (check_ack acked (mkSendState (sn_encoder s) (sn_stats s) c))
        (fun s => then_ (send_packet packet_id s) (polled_loop poll turns (packet_id + 1)))
  end.

Definition wait_ack (wait_ms : Z) (s : SendState) : SendStep :=
  let '(acked, c) := wait_for_segment_ack (tg_flow_id t) (tg_segment_id t) wait_ms (sn_ctx s) in
  check_ack acked (mkSendState (sn_encoder s) (sn_stats s) c).

(** The repair rounds: each sends at least one packet. *)
Fixpoint repair_loop (poll : Z -> Z -> Z -> C -> Z * C) (turns : nat) (packet_id : Z) (s : SendState) :
    SendStep :=
  if negb (packet_id <? tg_packet_limit t) then (None, s)
  else
    match turns with
    | O => (None, s)
    | S turns =>
        let round_end := u32 (packet_id + wirehair_segment_ack_repair_round_packets source_packets) in
        let round_end := if (round_end <? packet_id) || (round_end >? tg_packet_limit t)
                         then tg_packet_limit t else round_end in
        then_ (ensure_encoder s)
          (fun s =>
             let s := mkSendState (sn_encoder s) (stats_round (sn_stats s)) (sn_ctx s) in
             then_ (polled_loop poll (Z.to_nat (round_end - packet_id)) packet_id s)
               (fun s => then_ (wait_ack WH_ACK_REPAIR_WAIT_MS s) (repair_loop poll turns round_end)))
    end.

Definition send_body (ack_enabled : bool) (repair_budget : Z) (s : SendState) : Z * SendState :=
  match (if ack_enabled then ack_poll else None) with
  | None =>
      let send_limit := if ack_enabled then tg_packet_limit t
                        else u32 (source_packets + repair_budget) in
      let '(r, s) := send_loop (Z.to_nat send_limit) 0 s in (default 0 r, s)
  | Some poll =>
      let '(r, s) :=
        then_ (polled_loop poll (Z.to_nat source_packets) 0 s)
          (fun s => then_ (wait_ack WH_ACK_INITIAL_WAIT_MS s)
                      (repair_loop poll (Z.to_nat (tg_packet_limit t - source_packets)) source_packets)) in
      match r with
      | Some rc => (rc, s)
      | None => (-1, mkSendState (sn_encoder s) (stats_timed_out (sn_stats s)) (sn_ctx s))
      end
  end.
End Send.

(** [wirehair_segment_send]: the result, the statistics and the context. *)
Definition wirehair_segment_send (once alloc_pad : bool) (config : option WirehairSegmentConfig)
    (flow_id segment_id final_dst ttl : Z) (data : option (list byte)) (c : C) :
    Z * option WirehairSegmentSendStats * C :=
  if segment_args_bad once config final_dst ttl data then (-1, None, c)
  else
    match config, data with
    | Some cfg, Some data =>
        let data_len := Z.of_nat (length data) in
        let source_packets := wirehair_segment_source_packets data_len in
        let repair_budget :=
          wirehair_segment_repair_packets source_packets (sc_repair_percent cfg) in
        let repair_ceiling := wirehair_segment_repair_ceiling source_packets
                                (sc_repair_percent cfg) (sc_ack_enabled cfg) in
        let packet_limit := u32 (source_packets + repair_ceiling) in
        if (data_len <? 2 * WH_PACKET_SIZE) && negb alloc_pad then (-1, None, c)
        else
          let t := mkTarget cfg flow_id segment_id final_dst ttl data_len packet_limit in
          let '(result, s) :=
            send_body (message_of data) (codec_bytes_of data_len) source_packets t
              (sc_ack_enabled cfg) repair_budget
              (mkSendState None (mkSendStats source_packets repair_budget 0 0 0 false false) c) in
          (result, Some (sn_stats s), sn_ctx s)
    | _, _ => (-1, None, c)
    end.

End Emit.
End Tx.
