(* ===== verification/WirehairReceiver.v ===== *)
(** * Wirehair segments, receiver side: src/apps/wg_multi_pipeline/wirehair_segment.c

    The receiver keeps a window of segments, feeds the packets of each to a decoder of the
    library, acknowledges a segment when it is recovered and hands the segments out in order.  A
    [WirehairSegmentSlot *] is an index into [rv_slots].  The callbacks with their contexts are
    functions on a context type; the clock and the times measured with it are left out. *)

From Stdlib Require Import Strings.Byte.
From S2P Require Import Prelude WireHeader WirehairSegment.

Local Open Scope Z_scope.

Inductive WirehairSegmentSlotState :=
| WH_SEG_SLOT_EMPTY | WH_SEG_SLOT_COLLECTING | WH_SEG_SLOT_RECOVERED.

#[export] Instance WirehairSegmentSlotState_eq_dec : EqDecision WirehairSegmentSlotState.
Proof. solve_decision. Defined.

Section Receiver.
Context `{wh : Wirehair}.

(** [sl_recovered] is what the buffer [recovered] holds: nothing defined before
    [wirehair_recover] has written it. *)
Record WirehairSegmentSlot := mkSlot {
  sl_state : WirehairSegmentSlotState;
  sl_segment_id : Z;
  sl_segment_bytes : Z;
  sl_codec_bytes : Z;
  sl_packet_limit : Z;
  sl_source_origin : Z;
  sl_ack_requested : bool;
  sl_ack_sent : bool;
  sl_decoder : option WirehairDecoder;
  sl_recovered : option (list byte) }.

Definition slot_zero : WirehairSegmentSlot :=
  mkSlot WH_SEG_SLOT_EMPTY 0 0 0 0 0 false false None None.

Definition sl_fed (d : WirehairDecoder) (s : WirehairSegmentSlot) : WirehairSegmentSlot :=
  mkSlot (sl_state s) (sl_segment_id s) (sl_segment_bytes s) (sl_codec_bytes s) (sl_packet_limit s)
    (sl_source_origin s) (sl_ack_requested s) (sl_ack_sent s) (Some d) (sl_recovered s).
Definition sl_written (bs : list byte) (s : WirehairSegmentSlot) : WirehairSegmentSlot :=
  mkSlot (sl_state s) (sl_segment_id s) (sl_segment_bytes s) (sl_codec_bytes s) (sl_packet_limit s)
    (sl_source_origin s) (sl_ack_requested s) (sl_ack_sent s) (sl_decoder s) (Some bs).
Definition sl_done (s : WirehairSegmentSlot) : WirehairSegmentSlot :=
  mkSlot WH_SEG_SLOT_RECOVERED (sl_segment_id s) (sl_segment_bytes s) (sl_codec_bytes s)
    (sl_packet_limit s) (sl_source_origin s) (sl_ack_requested s) (sl_ack_sent s) (sl_decoder s)
    (sl_recovered s).
Definition sl_acked (s : WirehairSegmentSlot) : WirehairSegmentSlot :=
  mkSlot (sl_state s) (sl_segment_id s) (sl_segment_bytes s) (sl_codec_bytes s) (sl_packet_limit s)
    (sl_source_origin s) (sl_ack_requested s) true (sl_decoder s) (sl_recovered s).

Record WirehairSegmentReceiver := mkReceiver {
  rv_config : WirehairSegmentConfig;
  rv_flow_id : Z;
  rv_window : Z;
  rv_next_emit_segment : Z;
  rv_end_segment_count : Z;
  rv_end_seen : bool;
  rv_complete : bool;
  rv_ahead_window_drops : Z;
  rv_recover_count : Z;
  rv_ack_count : Z;
  rv_recovered_ids : list Z;
  rv_recovered_valid : list bool;
  rv_slots : list WirehairSegmentSlot }.

Definition rv_emit (next : Z) (complete : bool) (r : WirehairSegmentReceiver) : WirehairSegmentReceiver :=
  mkReceiver (rv_config r) (rv_flow_id r) (rv_window r) next (rv_end_segment_count r) (rv_end_seen r)
    complete (rv_ahead_window_drops r) (rv_recover_count r) (rv_ack_count r) (rv_recovered_ids r)
    (rv_recovered_valid r) (rv_slots r).
Definition rv_end (count : Z) (r : WirehairSegmentReceiver) : WirehairSegmentReceiver :=
  mkReceiver (rv_config r) (rv_flow_id r) (rv_window r) (rv_next_emit_segment r) count true
    (rv_complete r) (rv_ahead_window_drops r) (rv_recover_count r) (rv_ack_count r)
    (rv_recovered_ids r) (rv_recovered_valid r) (rv_slots r).
Definition rv_counts (drops recovers acks : Z) (r : WirehairSegmentReceiver) : WirehairSegmentReceiver :=
  mkReceiver (rv_config r) (rv_flow_id r) (rv_window r) (rv_next_emit_segment r)
    (rv_end_segment_count r) (rv_end_seen r) (rv_complete r) drops recovers acks (rv_recovered_ids r)
    (rv_recovered_valid r) (rv_slots r).
Definition rv_marks (ids : list Z) (valid : list bool) (r : WirehairSegmentReceiver) :
    WirehairSegmentReceiver :=
  mkReceiver (rv_config r) (rv_flow_id r) (rv_window r) (rv_next_emit_segment r)
    (rv_end_segment_count r) (rv_end_seen r) (rv_complete r) (rv_ahead_window_drops r)
    (rv_recover_count r) (rv_ack_count r) ids valid (rv_slots r).
Definition rv_set_slots (slots : list WirehairSegmentSlot) (r : WirehairSegmentReceiver) :
    WirehairSegmentReceiver :=
  mkReceiver (rv_config r) (rv_flow_id r) (rv_window r) (rv_next_emit_segment r)
    (rv_end_segment_count r) (rv_end_seen r) (rv_complete r) (rv_ahead_window_drops r)
    (rv_recover_count r) (rv_ack_count r) (rv_recovered_ids r) (rv_recovered_valid r) slots.

Definition rv_slot (r : WirehairSegmentReceiver) (i : nat) : WirehairSegmentSlot :=
  nth i (rv_slots r) slot_zero.
Definition rv_set_slot (i : nat) (s : WirehairSegmentSlot) (r : WirehairSegmentReceiver) :
    WirehairSegmentReceiver := rv_set_slots (<[i := s]> (rv_slots r)) r.

(** ** The table of recovered segments *)

Definition table_index (segment_id : Z) : nat := Z.to_nat (segment_id mod WH_SEGMENT_WINDOW_MAX).

Definition clear_recovered (segment_id : Z) (r : WirehairSegmentReceiver) : WirehairSegmentReceiver :=
  let index := table_index segment_id in
  if nth index (rv_recovered_ids r) 0 =? segment_id
  then rv_marks (rv_recovered_ids r) (<[index := false]> (rv_recovered_valid r)) r else r.

Definition mark_recovered (segment_id : Z) (r : WirehairSegmentReceiver) : WirehairSegmentReceiver :=
  let index := table_index segment_id in
  rv_marks (<[index := segment_id]> (rv_recovered_ids r)) (<[index := true]> (rv_recovered_valid r)) r.

Definition wirehair_segment_receiver_segment_recovered (r : option WirehairSegmentReceiver)
    (segment_id : Z) : bool :=
  match r with
  | None => false
  | Some r =>
      let index := table_index segment_id in
      nth index (rv_recovered_valid r) false && (nth index (rv_recovered_ids r) 0 =? segment_id)
  end.

(** ** Slots *)

Definition release_slot (i : nat) (r : WirehairSegmentReceiver) : WirehairSegmentReceiver :=
  let s := rv_slot r i in
  let r := if bool_decide (sl_state s = WH_SEG_SLOT_EMPTY) then r
           else clear_recovered (sl_segment_id s) r in
  rv_set_slot i slot_zero r.

(** The first slot below [window] that [p] holds of. *)
Definition first_slot (p : WirehairSegmentSlot -> bool) (r : WirehairSegmentReceiver) : option nat :=
  List.find (fun i => p (rv_slot r i)) (seq 0 (Z.to_nat (rv_window r))).

Definition find_slot (r : WirehairSegmentReceiver) (segment_id : Z) : option nat :=
  first_slot (fun s => negb (bool_decide (sl_state s = WH_SEG_SLOT_EMPTY)) &&
                       (sl_segment_id s =? segment_id)) r.

Definition header_geometry_ok (r : WirehairSegmentReceiver) (h : WireHeader) : bool :=
  if (wh_segment_bytes h =? 0) || (wh_segment_bytes h >? sc_segment_bytes (rv_config r)) then false
  else
    let source_packets := wirehair_segment_source_packets (wh_segment_bytes h) in
    let max_repair :=
      wirehair_segment_repair_ceiling source_packets (sc_repair_percent (rv_config r))
        (sc_ack_enabled (rv_config r) || negb (Z.land (wh_flags h) WIRE_FLAG_ACK_REQUEST =? 0)) in
    (wh_shard_count h >=? source_packets) && (wh_shard_count h <=? u32 (source_packets + max_repair)).

(** [alloc] says whether the buffer for the recovered segment is allocated. *)
Definition allocate_slot (alloc : bool) (h : WireHeader) (r : WirehairSegmentReceiver) :
    option nat * WirehairSegmentReceiver :=
  if negb (header_geometry_ok r h) then (None, r)
  else
    let codec_bytes := codec_bytes_of (wh_segment_bytes h) in
    match first_slot (fun s => bool_decide (sl_state s = WH_SEG_SLOT_EMPTY)) r with
    | None => (None, r)
    | Some i =>
        match wirehair_decoder_create codec_bytes, alloc with
        | Some d, true =>
            (Some i,
             rv_set_slot i
               (mkSlot WH_SEG_SLOT_COLLECTING (wh_block_id h) (wh_segment_bytes h) codec_bytes
                  (wh_shard_count h) (wh_origin_node h)
                  (sc_ack_enabled (rv_config r) &&
                   negb (Z.land (wh_flags h) WIRE_FLAG_ACK_REQUEST =? 0))
                  (sl_ack_sent (rv_slot r i)) (Some d) None) r)
        | _, _ => (None, release_slot i r)
        end
    end.

(** ** Acknowledgements and output *)

Context {C : Type} (output_fn : Z -> list byte -> C -> Z * C).
Context (ack_fn : option (WireHeader -> C -> Z * C)).

Definition ack_header (r : WirehairSegmentReceiver) (dst segment_id segment_bytes : Z) : WireHeader :=
  {| wh_version := WIRE_VERSION_V4; wh_type := WIRE_TYPE_ACK; wh_final_dst := dst;
     wh_ttl := sc_ack_ttl (rv_config r); wh_flow_id := rv_flow_id r; wh_block_id := segment_id;
     wh_shard_index := 0; wh_shard_count := 0; wh_valid_len := 0; wh_payload_len := 0;
     wh_encode_begin_ns := 0; wh_encode_end_ns := 0;
     wh_origin_node := sc_origin_node (rv_config r); wh_flags := WIRE_FLAG_RETURN_PATH;
     wh_segment_bytes := segment_bytes |}.

Definition emit_return_ack (origin_node segment_id segment_bytes : Z) (r : WirehairSegmentReceiver)
    (c : C) : Z * WirehairSegmentReceiver * C :=
  match ack_fn with
  | None => (0, r, c)
  | Some ack =>
      if origin_node =? 0 then (0, r, c)
      else
        let '(rc, c) := ack (ack_header r origin_node segment_id segment_bytes) c in
        (rc, if rc =? 0
             then rv_counts (rv_ahead_window_drops r) (rv_recover_count r) (u64 (rv_ack_count r + 1)) r
             else r, c)
  end.

Definition emit_ack (i : nat) (r : WirehairSegmentReceiver) (c : C) :
    Z * WirehairSegmentReceiver * C :=
  let s := rv_slot r i in
  if negb (sl_ack_requested s) then (0, r, c)
  else
    let '(rc, r, c) :=
      emit_return_ack (sl_source_origin s) (sl_segment_id s) (sl_segment_bytes s) r c in
    if negb (rc =? 0) then (-1, r, c) else (0, rv_set_slot i (sl_acked (rv_slot r i)) r, c).

(** The loop of [emit_ready_segments]: every turn empties a slot.  [None] is an exhausted bound. *)
Fixpoint emit_ready_loop (turns : nat) (r : WirehairSegmentReceiver) (c : C) :
    option (Z * WirehairSegmentReceiver * C) :=
  match find_slot r (rv_next_emit_segment r) with
  | None => Some (0, r, c)
  | Some i =>
      let s := rv_slot r i in
      if negb (bool_decide (sl_state s = WH_SEG_SLOT_RECOVERED)) then Some (0, r, c)
      else
        match turns with
        | O => None
        | S turns =>
            let '(rc, c) :=
              output_fn (rv_flow_id r)
                (take (Z.to_nat (sl_segment_bytes s)) (default [] (sl_recovered s))) c in
            if negb (rc =? 0) then Some (-1, r, c)
            else
              let r := release_slot i r in
              emit_ready_loop turns
                (rv_emit (u64 (rv_next_emit_segment r + 1)) (rv_complete r) r) c
        end
  end.

Definition emit_ready_segments (r : WirehairSegmentReceiver) (c : C) :
    option (Z * WirehairSegmentReceiver * C) :=
  match emit_ready_loop (length (rv_slots r)) r c with
  | Some (0, r, c) =>
      Some (0, if rv_end_seen r && (rv_next_emit_segment r =? rv_end_segment_count r)
               then rv_emit (rv_next_emit_segment r) true r else r, c)
  | x => x
  end.

(** ** The public functions *)

(** [has_output] says whether [output_fn] is given, [alloc] whether the receiver is allocated. *)
Definition wirehair_segment_receiver_create (once alloc has_output : bool)
    (config : option WirehairSegmentConfig) (flow_id : Z) : option WirehairSegmentReceiver :=
  match config with
  | None => None
  | Some c =>
      if negb (wirehair_segment_config_valid config) || negb has_output || negb (wirehair_ready once)
      then None
      else if negb alloc then None
      else
        let max := Z.to_nat WH_SEGMENT_WINDOW_MAX in
        Some (mkReceiver c flow_id (wirehair_segment_window config) 0 0 false false 0 0 0
                (replicate max 0) (replicate max false) (replicate max slot_zero))
  end.

(** The end of [wirehair_segment_receiver_ingest]: the packet goes to the decoder of its slot. *)
Definition decode_packet (i : nat) (h : WireHeader) (payload : list byte)
    (r : WirehairSegmentReceiver) (c : C) : option (Z * WirehairSegmentReceiver * C) :=
  match sl_decoder (rv_slot r i) with
  | None => None
  | Some d =>
      let '(decode_result, d) := wirehair_decode d (wh_shard_index h) payload in
      let r := rv_set_slot i (sl_fed d (rv_slot r i)) r in
      match decode_result with
      | Wirehair_NeedMore => Some (0, r, c)
      | Wirehair_Success =>
          let '(recover_result, bytes) := wirehair_recover d (sl_codec_bytes (rv_slot r i)) in
          let r := rv_set_slot i (sl_written bytes (rv_slot r i)) r in
          if negb (bool_decide (recover_result = Wirehair_Success)) then Some (-1, r, c)
          else
            let r := rv_counts (rv_ahead_window_drops r) (u64 (rv_recover_count r + 1))
                       (rv_ack_count r) r in
            let r := rv_set_slot i (sl_done (rv_slot r i)) r in
            let r := mark_recovered (sl_segment_id (rv_slot r i)) r in
            let '(rc, r, c) := emit_ack i r c in
            if negb (rc =? 0) then Some (-1, r, c) else emit_ready_segments r c
      | _ => Some (-1, r, c)
      end
  end.

(** The packet of a segment in the window, once its slot is known. *)
Definition slot_packet (i : nat) (h : WireHeader) (payload : list byte)
    (r : WirehairSegmentReceiver) (c : C) : option (Z * WirehairSegmentReceiver * C) :=
  let s := rv_slot r i in
  if negb (sl_packet_limit s =? wh_shard_count h) ||
     negb (sl_segment_bytes s =? wh_segment_bytes h) ||
     negb (sl_source_origin s =? wh_origin_node h)
  then Some (-1, r, c)
  else if bool_decide (sl_state s = WH_SEG_SLOT_RECOVERED) then Some (emit_ack i r c)
  else decode_packet i h payload r c.

(** [payload] is [None] for NULL. *)
Definition wirehair_segment_receiver_ingest (alloc : bool) (h : WireHeader)
    (payload : option (list byte)) (r : WirehairSegmentReceiver) (c : C) :
    option (Z * WirehairSegmentReceiver * C) :=
  let ack_wanted := sc_ack_enabled (rv_config r) &&
                    negb (Z.land (wh_flags h) WIRE_FLAG_ACK_REQUEST =? 0) in
  if negb (wh_version h =? WIRE_VERSION_V4) || negb (wh_flow_id h =? rv_flow_id r)
  then Some (-1, r, c)
  else if wh_type h =? WIRE_TYPE_END then emit_ready_segments (rv_end (wh_block_id h) r) c
  else if (wh_type h =? WIRE_TYPE_DATA) && (wh_block_id h <? rv_next_emit_segment r) then
    Some (if ack_wanted then emit_return_ack (wh_origin_node h) (wh_block_id h) (wh_segment_bytes h) r c
          else (0, r, c))
  else
    match payload with
    | None => Some (-1, r, c)
    | Some payload =>
        let payload_len := Z.of_nat (length payload) in
        if negb (wh_type h =? WIRE_TYPE_DATA) || (payload_len =? 0) ||
           negb (payload_len =? wh_payload_len h) || (payload_len >? WH_PACKET_SIZE) ||
           (wh_origin_node h =? 0) || (wh_shard_count h =? 0) ||
           (wh_shard_index h >=? wh_shard_count h)
        then Some (-1, r, c)
        else if u64 (wh_block_id h - rv_next_emit_segment r) >=? rv_window r
        then Some (0, rv_counts (u64 (rv_ahead_window_drops r + 1)) (rv_recover_count r)
                        (rv_ack_count r) r, c)
        else
          match find_slot r (wh_block_id h) with
          | Some i => slot_packet i h payload r c
          | None =>
              if negb (header_geometry_ok r h) then Some (-1, r, c)
              else
                match allocate_slot alloc h r with
                | (None, r) => Some (0, r, c)
                | (Some i, r) => slot_packet i h payload r c
                end
          end
    end.

Definition wirehair_segment_receiver_complete (r : option WirehairSegmentReceiver) : bool :=
  match r with None => false | Some r => rv_complete r end.

Definition wirehair_segment_receiver_ahead_drops (r : option WirehairSegmentReceiver) : Z :=
  match r with None => 0 | Some r => rv_ahead_window_drops r end.

(** The acknowledgement for a packet of a recovered segment, if it is still held. *)
Definition wirehair_segment_receiver_fill_ack (r : option WirehairSegmentReceiver)
    (data : option WireHeader) : option WireHeader :=
  match r, data with
  | Some r', Some data =>
      if wirehair_segment_receiver_segment_recovered r (wh_block_id data)
      then Some (ack_header r' (wh_origin_node data) (wh_block_id data) (wh_segment_bytes data))
      else None
  | _, _ => None
  end.

End Receiver.
