(* ===== verification/WirehairSender.v ===== *)
(** * The sliding-window sender of Wirehair segments:
      src/apps/wg_multi_pipeline/wirehair_segment_sender.c

    The sender keeps up to [window] segments in flight, in slots indexed by the segment id modulo
    the window.  A tick sends source packets of every segment that has some left, and only then,
    for the oldest segment, repair packets in rounds until its acknowledgement comes.  The emit
    callback with its context is a function on a context type.  A segment's packets are produced
    by the [WirehairSegmentTx] of WirehairSegment. *)

From Stdlib Require Import Strings.Byte.
From S2P Require Import Prelude WireHeader WirehairSegment.

Local Open Scope Z_scope.

Definition WIREHAIR_SENDER_SOURCE_BATCH : Z := 32.

Inductive WirehairSegmentSenderPacketKind :=
| WH_SENDER_PKT_DATA | WH_SENDER_PKT_REPAIR | WH_SENDER_PKT_END.

Record WirehairSegmentSenderStats := mkSenderStats {
  st_repair_sent : Z;
  st_repair_rounds : Z;
  st_send_window_hwm : Z;
  st_segments_completed : Z;
  st_end_segment_count : Z;
  st_ack_timed_out : bool }.

Section Sender.
Context `{host : HostOrder} `{wh : Wirehair}.

Record WirehairSegmentSenderSlot := mkSenderSlot {
  sd_active : bool;
  sd_acked : bool;
  sd_segment_id : Z;
  sd_data : list byte;
  sd_tx : option WirehairSegmentTx;
  sd_repair_due_ns : Z;
  sd_source_complete_ns : Z;
  sd_repair_due_valid : bool }.

Definition sender_slot_zero : WirehairSegmentSenderSlot :=
  mkSenderSlot false false 0 [] None 0 0 false.

Definition sd_set_acked (s : WirehairSegmentSenderSlot) : WirehairSegmentSenderSlot :=
  mkSenderSlot (sd_active s) true (sd_segment_id s) (sd_data s) (sd_tx s) (sd_repair_due_ns s)
    (sd_source_complete_ns s) (sd_repair_due_valid s).
Definition sd_set_tx (tx : WirehairSegmentTx) (s : WirehairSegmentSenderSlot) :
    WirehairSegmentSenderSlot :=
  mkSenderSlot (sd_active s) (sd_acked s) (sd_segment_id s) (sd_data s) (Some tx)
    (sd_repair_due_ns s) (sd_source_complete_ns s) (sd_repair_due_valid s).
Definition sd_set_complete (now : Z) (s : WirehairSegmentSenderSlot) : WirehairSegmentSenderSlot :=
  mkSenderSlot (sd_active s) (sd_acked s) (sd_segment_id s) (sd_data s) (sd_tx s)
    (sd_repair_due_ns s) now false.
Definition sd_set_due (due : Z) (valid : bool) (s : WirehairSegmentSenderSlot) :
    WirehairSegmentSenderSlot :=
  mkSenderSlot (sd_active s) (sd_acked s) (sd_segment_id s) (sd_data s) (sd_tx s) due
    (sd_source_complete_ns s) valid.

Record WirehairSegmentSender := mkSender {
  sr_config : WirehairSegmentConfig;
  sr_flow_id : Z;
  sr_final_dst : Z;
  sr_ttl : Z;
  sr_window : Z;
  sr_base_segment : Z;
  sr_next_segment_id : Z;
  sr_input_finished : bool;
  sr_end_emitted : bool;
  sr_failed : bool;
  sr_ack_timed_out : bool;
  sr_active_count : Z;
  sr_window_hwm : Z;
  sr_repair_sent : Z;
  sr_repair_rounds : Z;
  sr_segments_completed : Z;
  sr_ack_ids : list Z;
  sr_ack_valid : list bool;
  sr_srtt_ns : Z;
  sr_slots : list WirehairSegmentSenderSlot }.

(** ** Assignments *)

Definition sr_set_window (base next active hwm completed : Z) (s : WirehairSegmentSender) :
    WirehairSegmentSender :=
  mkSender (sr_config s) (sr_flow_id s) (sr_final_dst s) (sr_ttl s) (sr_window s) base next
    (sr_input_finished s) (sr_end_emitted s) (sr_failed s) (sr_ack_timed_out s) active hwm
    (sr_repair_sent s) (sr_repair_rounds s) completed (sr_ack_ids s) (sr_ack_valid s) (sr_srtt_ns s)
    (sr_slots s).
Definition sr_set_flags (finished ended failed timed_out : bool) (s : WirehairSegmentSender) :
    WirehairSegmentSender :=
  mkSender (sr_config s) (sr_flow_id s) (sr_final_dst s) (sr_ttl s) (sr_window s)
    (sr_base_segment s) (sr_next_segment_id s) finished ended failed timed_out (sr_active_count s)
    (sr_window_hwm s) (sr_repair_sent s) (sr_repair_rounds s) (sr_segments_completed s)
    (sr_ack_ids s) (sr_ack_valid s) (sr_srtt_ns s) (sr_slots s).
Definition sr_set_repair (sent rounds : Z) (s : WirehairSegmentSender) : WirehairSegmentSender :=
  mkSender (sr_config s) (sr_flow_id s) (sr_final_dst s) (sr_ttl s) (sr_window s)
    (sr_base_segment s) (sr_next_segment_id s) (sr_input_finished s) (sr_end_emitted s)
    (sr_failed s) (sr_ack_timed_out s) (sr_active_count s) (sr_window_hwm s) sent rounds
    (sr_segments_completed s) (sr_ack_ids s) (sr_ack_valid s) (sr_srtt_ns s) (sr_slots s).
Definition sr_set_acks (ids : list Z) (valid : list bool) (srtt : Z) (s : WirehairSegmentSender) :
    WirehairSegmentSender :=
  mkSender (sr_config s) (sr_flow_id s) (sr_final_dst s) (sr_ttl s) (sr_window s)
    (sr_base_segment s) (sr_next_segment_id s) (sr_input_finished s) (sr_end_emitted s)
    (sr_failed s) (sr_ack_timed_out s) (sr_active_count s) (sr_window_hwm s) (sr_repair_sent s)
    (sr_repair_rounds s) (sr_segments_completed s) ids valid srtt (sr_slots s).
Definition sr_set_slots (slots : list WirehairSegmentSenderSlot) (s : WirehairSegmentSender) :
    WirehairSegmentSender :=
  mkSender (sr_config s) (sr_flow_id s) (sr_final_dst s) (sr_ttl s) (sr_window s)
    (sr_base_segment s) (sr_next_segment_id s) (sr_input_finished s) (sr_end_emitted s)
    (sr_failed s) (sr_ack_timed_out s) (sr_active_count s) (sr_window_hwm s) (sr_repair_sent s)
    (sr_repair_rounds s) (sr_segments_completed s) (sr_ack_ids s) (sr_ack_valid s) (sr_srtt_ns s)
    slots.

Definition sr_slot (s : WirehairSegmentSender) (i : nat) : WirehairSegmentSenderSlot :=
  nth i (sr_slots s) sender_slot_zero.
Definition sr_set_slot (i : nat) (sl : WirehairSegmentSenderSlot) (s : WirehairSegmentSender) :
    WirehairSegmentSender := sr_set_slots (<[i := sl]> (sr_slots s)) s.
Definition sr_upd_slot (i : nat) (f : WirehairSegmentSenderSlot -> WirehairSegmentSenderSlot)
    (s : WirehairSegmentSender) : WirehairSegmentSender := sr_set_slot i (f (sr_slot s i)) s.

(** [sender->failed = 1] *)
Definition sender_fail (s : WirehairSegmentSender) : WirehairSegmentSender :=
  sr_set_flags (sr_input_finished s) (sr_end_emitted s) true (sr_ack_timed_out s) s.

(** ** Acknowledgements *)

Definition ack_index (segment_id : Z) : nat := Z.to_nat (segment_id mod WH_SEGMENT_WINDOW_MAX).

Definition ack_contains (s : WirehairSegmentSender) (segment_id : Z) : bool :=
  let index := ack_index segment_id in
  nth index (sr_ack_valid s) false && (nth index (sr_ack_ids s) 0 =? segment_id).

Definition ack_clear (segment_id : Z) (s : WirehairSegmentSender) : WirehairSegmentSender :=
  if ack_contains s segment_id
  then sr_set_acks (sr_ack_ids s) (<[ack_index segment_id := false]> (sr_ack_valid s)) (sr_srtt_ns s) s
  else s.

Definition ack_mark (h : WireHeader) (s : WirehairSegmentSender) : WirehairSegmentSender :=
  if negb (wh_flow_id h =? sr_flow_id s) || (wh_block_id h <? sr_base_segment s) ||
     (wh_block_id h - sr_base_segment s >=? sr_window s)
  then s
  else
    let index := ack_index (wh_block_id h) in
    sr_set_acks (<[index := wh_block_id h]> (sr_ack_ids s)) (<[index := true]> (sr_ack_valid s))
      (sr_srtt_ns s) s.

Definition note_ack_rtt (sl : WirehairSegmentSenderSlot) (now_ns : Z) (s : WirehairSegmentSender) :
    WirehairSegmentSender :=
  if (sd_source_complete_ns sl =? 0) || (now_ns <? sd_source_complete_ns sl) then s
  else
    let rtt_ns := now_ns - sd_source_complete_ns sl in
    let srtt := if sr_srtt_ns s =? 0 then rtt_ns else u64 (u64 (sr_srtt_ns s * 7) + rtt_ns) / 8 in
    sr_set_acks (sr_ack_ids s) (sr_ack_valid s) srtt s.

(** [release_slot] of an active slot. *)
Definition sender_release_slot (i : nat) (s : WirehairSegmentSender) : WirehairSegmentSender :=
  let sl := sr_slot s i in
  if negb (sd_active sl) then s
  else
    let s := match wirehair_segment_tx_stats (sd_tx sl) with
             | Some st => sr_set_repair (sr_repair_sent s) (u64 (sr_repair_rounds s + ss_repair_rounds st)) s
             | None => s
             end in
    let s := sr_set_slot i sender_slot_zero s in
    sr_set_window (sr_base_segment s) (sr_next_segment_id s) (u64 (sr_active_count s - 1))
      (sr_window_hwm s) (u64 (sr_segments_completed s + 1)) s.

Definition slot_at (s : WirehairSegmentSender) (segment_id : Z) : nat :=
  Z.to_nat (segment_id mod sr_window s).

(** Every turn of the loop releases an active slot. *)
Fixpoint release_acked_loop (turns : nat) (s : WirehairSegmentSender) : WirehairSegmentSender :=
  match turns with
  | O => s
  | S turns =>
      if sr_active_count s >? 0 then
        let i := slot_at s (sr_base_segment s) in
        let sl := sr_slot s i in
        if negb (sd_active sl) || negb (sd_segment_id sl =? sr_base_segment s) || negb (sd_acked sl)
        then s
        else
          let s := sender_release_slot i (ack_clear (sd_segment_id sl) s) in
          release_acked_loop turns
            (sr_set_window (u64 (sr_base_segment s + 1)) (sr_next_segment_id s) (sr_active_count s)
               (sr_window_hwm s) (sr_segments_completed s) s)
      else s
  end.

Definition release_acked_base (s : WirehairSegmentSender) : WirehairSegmentSender :=
  release_acked_loop (Z.to_nat (sr_active_count s)) s.

(** The body of the loop of [apply_pending_acks]. *)
Definition apply_ack (now_ns : Z) (s : WirehairSegmentSender) (i : nat) : WirehairSegmentSender :=
  let sl := sr_slot s i in
  if sd_active sl && negb (sd_acked sl) && ack_contains s (sd_segment_id sl)
  then sr_upd_slot i sd_set_acked (note_ack_rtt sl now_ns s) else s.

(** The result, whether anything changed, is not used by the callers. *)
Definition apply_pending_acks (now_ns : Z) (s : WirehairSegmentSender) : WirehairSegmentSender :=
  release_acked_base (foldl (apply_ack now_ns) s (seq 0 (Z.to_nat (sr_window s)))).

(** ** Creation, admission *)

Definition wirehair_segment_sender_create (alloc has_emit : bool)
    (config : option WirehairSegmentConfig) (flow_id final_dst ttl : Z) :
    option WirehairSegmentSender :=
  match config with
  | None => None
  | Some c =>
      if negb (wirehair_segment_config_valid config) || negb (sc_ack_enabled c) || (final_dst =? 0) ||
         (ttl =? 0) || negb has_emit
      then None
      else if negb alloc then None
      else
        let window := wirehair_segment_window config in
        let max := Z.to_nat WH_SEGMENT_WINDOW_MAX in
        Some (mkSender c flow_id final_dst ttl window 0 0 false false false false 0 0 0 0 0
                (replicate max 0) (replicate max false) 0
                (replicate (Z.to_nat window) sender_slot_zero))
  end.

Definition wirehair_segment_sender_can_admit (s : WirehairSegmentSender) : bool :=
  if sr_failed s || sr_input_finished s then false
  else if u64 (sr_next_segment_id s - sr_base_segment s) >=? sr_window s then false
  else negb (sd_active (sr_slot s (slot_at s (sr_next_segment_id s)))).

(** [alloc] says whether the copy of the data, [alloc_tx] and [alloc_pad] whether the parts of the
    encoder are allocated. *)
Definition wirehair_segment_sender_admit (once alloc alloc_tx alloc_pad : bool) (segment_id : Z)
    (data : option (list byte)) (s : WirehairSegmentSender) : Z * WirehairSegmentSender :=
  match data with
  | None => (-2, s)
  | Some data =>
      let data_len := Z.of_nat (length data) in
      if (data_len =? 0) || (data_len >? sc_segment_bytes (sr_config s)) || sr_failed s then (-2, s)
      else if negb (wirehair_segment_sender_can_admit s) then (-1, s)
      else if negb (segment_id =? sr_next_segment_id s) then (-2, s)
      else
        let i := slot_at s segment_id in
        if sd_active (sr_slot s i) then (-2, s)
        else if negb alloc then (-2, s)
        else
          match wirehair_segment_tx_create once alloc_tx alloc_pad (Some (sr_config s))
                  (sr_flow_id s) segment_id (sr_final_dst s) (sr_ttl s) (Some data) with
          | None => (-2, sr_set_slot i sender_slot_zero s)
          | Some tx =>
              let sl := sr_slot s i in
              let s := sr_set_slot i
                         (mkSenderSlot true (sd_acked sl) segment_id data (Some tx)
                            (sd_repair_due_ns sl) (sd_source_complete_ns sl)
                            (sd_repair_due_valid sl)) s in
              let active := u64 (sr_active_count s + 1) in
              (0, sr_set_window (sr_base_segment s) (u64 (sr_next_segment_id s + 1)) active
                    (if active >? sr_window_hwm s then active else sr_window_hwm s)
                    (sr_segments_completed s) s)
          end
  end.

Definition wirehair_segment_sender_mark_input_finished (s : WirehairSegmentSender) :
    WirehairSegmentSender :=
  sr_set_flags true (sr_end_emitted s) (sr_failed s) (sr_ack_timed_out s) s.

(** [now_ns] is the reading of [sender_now_ns]. *)
Definition wirehair_segment_sender_input_ack (datagram : option (list Z)) (now_ns : Z)
    (s : WirehairSegmentSender) : Z * WirehairSegmentSender :=
  match datagram with
  | None => (-1, s)
  | Some bytes =>
      if (length bytes =? 0)%nat then (-1, s)
      else
        match wire_header_decode bytes with
        | None => (-1, s)
        | Some h =>
            if negb (wh_version h =? WIRE_VERSION_V4) || negb (wh_type h =? WIRE_TYPE_ACK) ||
               negb (wh_flow_id h =? sr_flow_id s)
            then (-1, s)
            else (0, apply_pending_acks now_ns (ack_mark h s))
        end
  end.

(** ** Emission *)

Section Emit.
Context {C : Type}.
Context (emit_fn : WireHeader -> option (list byte) -> WirehairSegmentSenderPacketKind -> C -> Z * C).

(** [sender_emit_bridge] for an encoder with [source_packets] source packets. *)
Definition sender_emit_bridge (source_packets : Z) (h : WireHeader) (payload : list byte)
    (sc : WirehairSegmentSender * C) : Z * (WirehairSegmentSender * C) :=
  let '(s, c) := sc in
  let repair := negb (wh_shard_index h <? source_packets) in
  let s := if repair then sr_set_repair (u64 (sr_repair_sent s + 1)) (sr_repair_rounds s) s else s in
  let '(rc, c) := emit_fn h (Some payload)
                    (if repair then WH_SENDER_PKT_REPAIR else WH_SENDER_PKT_DATA) c in
  (if rc >? 0 then -2 else rc, (s, c)).

(** What a turn of the loop of [wirehair_segment_sender_tick] does next. *)
Inductive TickNext := TickContinue | TickBreak | TickReturn (rc : Z).

(** [if (emitted < 0) { if (emitted == -2) break; failed = 1; return -1; }] *)
Definition after_emit (emitted : Z) (s : WirehairSegmentSender) : TickNext * WirehairSegmentSender :=
  if emitted <? 0 then if emitted =? -2 then (TickBreak, s) else (TickReturn (-1), sender_fail s)
  else (TickContinue, s).

Definition tick_source (now_ns : Z) (i : nat) (tx : WirehairSegmentTx) (s : WirehairSegmentSender)
    (c : C) : TickNext * WirehairSegmentSender * C :=
  let '(emitted, tx, (s, c)) :=
    wirehair_segment_tx_emit_source (sender_emit_bridge (ss_source_packets (tx_stats tx))) tx
      WIREHAIR_SENDER_SOURCE_BATCH (s, c) in
  let s := sr_upd_slot i (sd_set_tx tx) s in
  match after_emit emitted s with
  | (TickContinue, s) =>
      (TickContinue, if wirehair_segment_tx_source_complete (Some tx)
                     then sr_upd_slot i (sd_set_complete now_ns) s else s, c)
  | (next, s) => (next, s, c)
  end.

Definition tick_repair (now_ns : Z) (i : nat) (tx : WirehairSegmentTx) (s : WirehairSegmentSender)
    (c : C) : TickNext * WirehairSegmentSender * C :=
  let '(emitted, tx, (s, c)) :=
    wirehair_segment_tx_emit_repair (sender_emit_bridge (ss_source_packets (tx_stats tx))) tx
      (wirehair_segment_ack_repair_round_packets (ss_source_packets (tx_stats tx))) (s, c) in
  let s := sr_upd_slot i (sd_set_tx tx) s in
  match after_emit emitted s with
  | (TickContinue, s) =>
      (TickContinue,
       sr_upd_slot i (sd_set_due (u64 (now_ns + WH_ACK_REPAIR_WAIT_MS * 1000000)) true) s, c)
  | (next, s) => (next, s, c)
  end.

(** One turn of the loop, on slot [i]. *)
Definition tick_slot (now_ns wait_ns : Z) (source_pending : bool) (i : nat)
    (s : WirehairSegmentSender) (c : C) : TickNext * WirehairSegmentSender * C :=
  let sl := sr_slot s i in
  if negb (sd_active sl) || sd_acked sl then (TickContinue, s, c)
  else
    match sd_tx sl with
    | None => (TickReturn (-1), sender_fail s, c)
    | Some tx =>
        if negb (wirehair_segment_tx_source_complete (Some tx)) then tick_source now_ns i tx s c
        else if source_pending
        then (TickContinue, sr_upd_slot i (fun sl => sd_set_due (sd_repair_due_ns sl) false sl) s, c)
        else if negb (sd_segment_id sl =? sr_base_segment s) then (TickContinue, s, c)
        else
          let s := if sd_repair_due_valid sl then s
                   else sr_upd_slot i (sd_set_due (u64 (now_ns + wait_ns)) true) s in
          if now_ns <? sd_repair_due_ns (sr_slot s i) then (TickContinue, s, c)
          else if wirehair_segment_tx_repair_exhausted (Some tx) then
            (TickReturn (-1),
             sr_set_flags (sr_input_finished s) (sr_end_emitted s) true true
               (sr_set_repair (sr_repair_sent s)
                  (u64 (sr_repair_rounds s + ss_repair_rounds (tx_stats tx))) s), c)
          else tick_repair now_ns i tx s c
    end.

Fixpoint tick_loop (now_ns wait_ns : Z) (source_pending : bool) (turns : list nat)
    (s : WirehairSegmentSender) (c : C) : Z * WirehairSegmentSender * C :=
  match turns with
  | [] => (0, s, c)
  | i :: turns =>
      let slot := Z.to_nat (u64 (sr_base_segment s + Z.of_nat i) mod sr_window s) in
      match tick_slot now_ns wait_ns source_pending slot s c with
      | (TickContinue, s, c) => tick_loop now_ns wait_ns source_pending turns s c
      | (TickBreak, s, c) => (0, s, c)
      | (TickReturn rc, s, c) => (rc, s, c)
      end
  end.

(** A segment in flight has source packets left. *)
Definition source_pending (s : WirehairSegmentSender) : bool :=
  existsb (fun i =>
             let sl := sr_slot s i in
             sd_active sl && negb (sd_acked sl) &&
             match sd_tx sl with
             | Some tx => negb (wirehair_segment_tx_source_complete (Some tx))
             | None => false
             end)
    (seq 0 (Z.to_nat (sr_window s))).

Definition wirehair_segment_sender_tick (now_ns : Z) (s : WirehairSegmentSender) (c : C) :
    Z * WirehairSegmentSender * C :=
  if sr_failed s then (-1, s, c)
  else
    let s := apply_pending_acks now_ns s in
    let pending := source_pending s in
    let wait_ms := wirehair_segment_ack_repair_delay_ms (u32 (u64 (sr_srtt_ns s + 500000) / 1000000)) in
    tick_loop now_ns (wait_ms * 1000000) pending (seq 0 (Z.to_nat (sr_window s))) s c.

Definition end_header (s : WirehairSegmentSender) : WireHeader :=
  {| wh_version := WIRE_VERSION_V4; wh_type := WIRE_TYPE_END; wh_final_dst := sr_final_dst s;
     wh_ttl := sr_ttl s; wh_flow_id := sr_flow_id s; wh_block_id := sr_next_segment_id s;
     wh_shard_index := 0; wh_shard_count := 0; wh_valid_len := 0; wh_payload_len := 0;
     wh_encode_begin_ns := 0; wh_encode_end_ns := 0;
     wh_origin_node := sc_origin_node (sr_config s); wh_flags := WIRE_FLAG_ACK_REQUEST;
     wh_segment_bytes := 0 |}.

Definition wirehair_segment_sender_try_emit_end (s : WirehairSegmentSender) (c : C) :
    Z * WirehairSegmentSender * C :=
  if sr_failed s || sr_end_emitted s || negb (sr_input_finished s) || negb (sr_active_count s =? 0)
  then (0, s, c)
  else
    let '(rc, c) := emit_fn (end_header s) None WH_SENDER_PKT_END c in
    if negb (rc =? 0) then (-1, sender_fail s, c)
    else (1, sr_set_flags (sr_input_finished s) true (sr_failed s) (sr_ack_timed_out s) s, c).

End Emit.

(** ** Queries *)

Definition wirehair_segment_sender_idle (s : option WirehairSegmentSender) : bool :=
  match s with
  | None => false
  | Some s => sr_input_finished s && (sr_active_count s =? 0) && negb (sr_failed s)
  end.

Definition wirehair_segment_sender_failed (s : option WirehairSegmentSender) : bool :=
  match s with None => false | Some s => sr_failed s end.

Definition wirehair_segment_sender_end_emitted (s : option WirehairSegmentSender) : bool :=
  match s with None => false | Some s => sr_end_emitted s end.

Definition wirehair_segment_sender_get_stats (s : option WirehairSegmentSender) :
    WirehairSegmentSenderStats :=
  match s with
  | None => mkSenderStats 0 0 0 0 0 false
  | Some s =>
      mkSenderStats (sr_repair_sent s) (sr_repair_rounds s) (sr_window_hwm s)
        (sr_segments_completed s) (sr_next_segment_id s) (sr_ack_timed_out s)
  end.

End Sender.
