(* ===== verification/WirehairSegmentSpec.v ===== *)
(** * Packets of a segment

    The packet counts of a valid configuration, the packets of a segment as a function of the
    segment, and the invariant of [WirehairSegmentTx]: whatever the callback answers, it is given
    the packets of the segment in order, each once. *)

From Stdlib Require Import Strings.Byte.
From S2P Require Import Prelude WireHeader WirehairSegment.

Local Open Scope Z_scope.

(** ** Counts *)

(** A validated configuration whose segments are counted without wrap-around. *)
Record config_ok (c : WirehairSegmentConfig) : Prop := {
  co_range : segment_config_in_range c;
  co_valid : wirehair_segment_config_valid (Some c) = true;
  co_bytes : sc_segment_bytes c + WH_PACKET_SIZE <= 2 ^ 32 }.

Lemma source_packets_eq n :
  0 < n -> n + WH_PACKET_SIZE <= 2 ^ 32 ->
  wirehair_segment_source_packets n = Z.max 2 ((n + WH_PACKET_SIZE - 1) / WH_PACKET_SIZE).
Proof.
  unfold wirehair_segment_source_packets, WH_PACKET_SIZE. intros Hn Hm.
  destruct (Z.eqb_spec n 0); [lia|]. unfold u32. rewrite uwrap_small by (unfold in_range; lia).
  destruct (Z.ltb_spec ((n + 1370 - 1) / 1370) 2); lia.
Qed.

Lemma source_packets_mono n m :
  0 < n <= m -> m + WH_PACKET_SIZE <= 2 ^ 32 ->
  2 <= wirehair_segment_source_packets n <= wirehair_segment_source_packets m.
Proof.
  intros Hn Hm. rewrite !source_packets_eq by lia. split; [lia|].
  assert (H := Z.div_le_mono (n + WH_PACKET_SIZE - 1) (m + WH_PACKET_SIZE - 1) WH_PACKET_SIZE).
  unfold WH_PACKET_SIZE in *. lia.
Qed.

Lemma repair_packets_mono a b p :
  0 <= p <= 100 -> 0 <= a <= b -> b <= 64000 ->
  0 <= wirehair_segment_repair_packets a p <= wirehair_segment_repair_packets b p /\
  wirehair_segment_repair_packets b p <= Z.max 2 b.
Proof.
  intros Hp Hab Hb. unfold wirehair_segment_repair_packets, WH_REPAIR_MIN_PACKETS.
  assert (Hs : forall x, 0 <= x <= 64000 -> u32 (u64 (u64 (x * p) + 99) / 100) = (x * p + 99) / 100).
  { intros x Hx. unfold u64, u32. assert (0 <= x * p <= 64000 * 100) by nia.
    assert (0 <= (x * p + 99) / 100 <= 64001).
    { split; [apply Z.div_pos; lia|apply Z.div_le_upper_bound; lia]. }
    rewrite (uwrap_small 64 (x * p)), (uwrap_small 64), uwrap_small; unfold in_range; lia. }
  rewrite !Hs by lia.
  assert ((a * p + 99) / 100 <= (b * p + 99) / 100) by (apply Z.div_le_mono; nia).
  assert (0 <= (a * p + 99) / 100) by (apply Z.div_pos; nia).
  assert ((b * p + 99) / 100 <= b) by (apply Z.lt_succ_r, Z.div_lt_upper_bound; nia).
  destruct (Z.eqb_spec a 0), (Z.eqb_spec b 0), (Z.eqb_spec p 0); cbn [orb]; try lia;
    repeat match goal with |- context [?x <? ?y] => destruct (Z.ltb_spec x y) end; lia.
Qed.

(** A repair round is never empty. *)
Lemma round_packets_bounds n :
  2 <= n <= 64000 -> 0 < wirehair_segment_ack_repair_round_packets n < 2 ^ 31.
Proof.
  intros Hn. unfold wirehair_segment_ack_repair_round_packets, WH_ACK_REPAIR_ROUND_PCT.
  destruct (repair_packets_mono n n 5) as [_ H]; [lia..|].
  assert (2 <= wirehair_segment_repair_packets n 5); [|lia].
  unfold wirehair_segment_repair_packets at 1. rewrite (proj2 (Z.eqb_neq _ 0)) by lia. cbn [orb Z.eqb]. unfold WH_REPAIR_MIN_PACKETS.
  destruct (Z.ltb_spec (u32 (u64 (u64 (n * 5) + 99) / 100)) 2); lia.
Qed.

Lemma repair_ceiling_mono a b p ack :
  0 <= p <= 100 -> 2 <= a <= b -> b <= 64000 ->
  0 <= wirehair_segment_repair_ceiling a p ack <= wirehair_segment_repair_ceiling b p ack /\
  wirehair_segment_repair_ceiling b p ack <= b.
Proof.
  intros Hp Hab Hb. destruct (repair_packets_mono a b p) as [H1 H2]; [lia..|].
  destruct (repair_packets_mono a a p) as [_ H3]; [lia..|].
  unfold wirehair_segment_repair_ceiling. rewrite !Z.gtb_ltb. destruct ack; cbn [andb]; [|lia].
  destruct (Z.ltb_spec (wirehair_segment_repair_packets a p) a),
    (Z.ltb_spec (wirehair_segment_repair_packets b p) b); lia.
Qed.

(** Source packets and packet limit of a segment of [n] bytes. *)
Abbreviation source_of n := (wirehair_segment_source_packets n).
Definition limit_of (c : WirehairSegmentConfig) (n : Z) : Z :=
  u32 (source_of n + wirehair_segment_repair_ceiling (source_of n) (sc_repair_percent c) (sc_ack_enabled c)).

Definition segment_ok (c : WirehairSegmentConfig) (data : list byte) : Prop :=
  0 < Z.of_nat (length data) <= sc_segment_bytes c.

Lemma config_ok_facts c :
  config_ok c ->
  0 < sc_segment_bytes c /\ 0 <= sc_repair_percent c <= 100 /\ 0 < sc_origin_node c < 256 /\
  0 < sc_ack_ttl c < 256 /\ source_of (sc_segment_bytes c) <= 64000 /\
  1 <= wirehair_segment_window (Some c) <= WH_SEGMENT_WINDOW_MAX /\
  source_of (sc_segment_bytes c) +
    wirehair_segment_repair_ceiling (source_of (sc_segment_bytes c)) (sc_repair_percent c) (sc_ack_enabled c)
    <= 65535.
Proof.
  intros [Hr Hv Hb]. unfold segment_config_in_range, in_range in Hr. destruct Hr as (H1 & H2 & H3 & H4 & H5).
  cbn [wirehair_segment_config_valid] in Hv.
  destruct (_ || _) eqn:Hg in Hv; [done|]. rewrite !orb_false_iff, andb_false_iff, negb_false_iff in Hg.
  rewrite !Z.eqb_neq, !Z.eqb_eq, !Z.gtb_ltb, !Z.ltb_ge in Hg. destruct Hg as ((((G1 & G2) & G3) & G4) & G5).
  rewrite andb_true_iff, !Z.leb_le in Hv. destruct Hv as [V1 V2].
  destruct (source_packets_mono (sc_segment_bytes c) (sc_segment_bytes c)) as [Hs _]; [lia..|].
  destruct (repair_ceiling_mono _ (source_of (sc_segment_bytes c)) (sc_repair_percent c) (sc_ack_enabled c)
    ltac:(lia) (conj Hs (Z.le_refl _)) V1) as [Hc Hc'].
  unfold u32 in V2. rewrite uwrap_small in V2 by (unfold in_range; lia).
  split_and!; try lia.
  - unfold wirehair_segment_window. rewrite Z.gtb_ltb. unfold WH_SEGMENT_WINDOW_DEFAULT, WH_SEGMENT_WINDOW_MAX in *.
    destruct (Z.eqb_spec (sc_window c) 0), (Z.ltb_spec 16 (sc_window c)); lia.
  - unfold wirehair_segment_window. rewrite Z.gtb_ltb. unfold WH_SEGMENT_WINDOW_DEFAULT, WH_SEGMENT_WINDOW_MAX in *.
    destruct (Z.eqb_spec (sc_window c) 0), (Z.ltb_spec 16 (sc_window c)); lia.
Qed.

(** A valid configuration bounds the packets of every segment. *)
Lemma segment_counts c data :
  config_ok c -> segment_ok c data ->
  let n := Z.of_nat (length data) in
  2 <= source_of n <= 64000 /\ source_of n <= limit_of c n <= 65535 /\
  limit_of c n = source_of n + wirehair_segment_repair_ceiling (source_of n) (sc_repair_percent c) (sc_ack_enabled c) /\
  (source_of n - 1) * WH_PACKET_SIZE < codec_bytes_of n <= source_of n * WH_PACKET_SIZE /\
  n <= codec_bytes_of n < 2 ^ 32.
Proof.
  intros Hc [Hn1 Hn2] n. destruct (config_ok_facts c Hc) as (F1 & F2 & _ & _ & F5 & _ & F7).
  pose proof (co_bytes _ Hc) as Hb. fold n in Hn1, Hn2.
  destruct (source_packets_mono n (sc_segment_bytes c)) as [Hs Hs']; [lia..|].
  destruct (repair_ceiling_mono (source_of n) (source_of (sc_segment_bytes c)) (sc_repair_percent c)
    (sc_ack_enabled c)) as [Hr Hr']; [lia..|].
  unfold limit_of, u32. rewrite uwrap_small by (unfold in_range; lia).
  split; [lia|]. split; [lia|]. split; [done|].
  rewrite (source_packets_eq n) by lia. unfold codec_bytes_of, WH_PACKET_SIZE in *.
  destruct (Z.ltb_spec n (2 * 1370)); [rewrite Z.max_l by (assert ((n + 1370 - 1) / 1370 < 3) by (apply Z.div_lt_upper_bound; lia); lia); lia|].
  assert (2 <= (n + 1370 - 1) / 1370) by (apply Z.div_le_lower_bound; lia).
  rewrite Z.max_r by lia. pose proof (Z.div_mod (n + 1370 - 1) 1370). pose proof (Z.mod_pos_bound (n + 1370 - 1) 1370). lia.
Qed.

(** Four gigabytes pass the validation: the number of packets wraps around to two. *)
Lemma segment_config_valid_wraps :
  wirehair_segment_config_valid (Some (mkSegmentConfig (2 ^ 32 - 1) 10 8 false 1 8)) = true /\
  wirehair_segment_source_packets (2 ^ 32 - 1) = 2.
Proof. by vm_compute. Qed.

Lemma length_message_of data :
  Z.of_nat (length (message_of data)) = codec_bytes_of (Z.of_nat (length data)).
Proof.
  unfold message_of. rewrite length_app, length_replicate. unfold codec_bytes_of, WH_PACKET_SIZE.
  destruct (Z.ltb_spec (Z.of_nat (length data)) (2 * 1370)); lia.
Qed.

Lemma message_of_prefix data : take (length data) (message_of data) = data.
Proof. unfold message_of. by rewrite take_app_length. Qed.

(** ** The packets of a message *)

Section Packets.
Context `{wh : Wirehair}.

Definition codec_len (data : list byte) : Z := codec_bytes_of (Z.of_nat (length data)).

(** Packet [id] of the segment [data]: what the encoder sends. *)
Definition packet_of (data : list byte) (id : Z) : option (list byte) :=
  fill_packet_payload (wirehair_encoder_create (message_of data)) (message_of data) (codec_len data) id
    (source_of (Z.of_nat (length data))).

(** A source packet is a slice of the padded segment. *)
Lemma packet_of_source c data id :
  config_ok c -> segment_ok c data -> 0 <= id < source_of (Z.of_nat (length data)) ->
  packet_of data id =
  Some (take (Z.to_nat WH_PACKET_SIZE) (drop (Z.to_nat id * Z.to_nat WH_PACKET_SIZE) (message_of data))).
Proof.
  intros Hc Hd Hid. destruct (segment_counts c data Hc Hd) as (H1 & _ & _ & H2 & H3).
  unfold packet_of, fill_packet_payload, codec_len. rewrite (proj2 (Z.ltb_lt _ _)) by lia.
  pose proof (length_message_of data) as Hl. set (n := Z.of_nat (length data)) in *.
  assert (Hoff : id * WH_PACKET_SIZE < codec_bytes_of n) by (unfold WH_PACKET_SIZE in *; nia).
  unfold u64, u32. rewrite (uwrap_small 64) by (unfold in_range, WH_PACKET_SIZE in *; nia).
  rewrite Z.geb_leb, (proj2 (Z.leb_gt _ _)) by lia.
  rewrite uwrap_small by (unfold in_range, WH_PACKET_SIZE in *; lia). f_equal.
  rewrite Z2Nat.inj_mul by (unfold WH_PACKET_SIZE; lia).
  destruct (Z.ltb_spec (codec_bytes_of n - id * WH_PACKET_SIZE) WH_PACKET_SIZE) as [Hlt|]; [|done].
  rewrite !take_ge; [done| |]; rewrite length_drop; unfold WH_PACKET_SIZE in *; lia.
Qed.

(** The payload of a packet is never empty and fits a datagram. *)
Lemma packet_of_length c data id p :
  config_ok c -> segment_ok c data -> 0 <= id -> packet_of data id = Some p ->
  0 < Z.of_nat (length p) <= WH_PACKET_SIZE.
Proof.
  intros Hc Hd Hid Hp. destruct (Z.lt_ge_cases id (source_of (Z.of_nat (length data)))) as [Hlt|Hge].
  - rewrite (packet_of_source c data id Hc Hd) in Hp by lia. injection Hp as <-.
    destruct (segment_counts c data Hc Hd) as (H1 & _ & _ & H2 & H3). pose proof (length_message_of data) as Hl.
    rewrite length_take, length_drop. unfold WH_PACKET_SIZE in *. nia.
  - unfold packet_of, fill_packet_payload in Hp. rewrite (proj2 (Z.ltb_ge _ _)) in Hp by lia.
    destruct (wirehair_encoder_create _); [|done]. destruct (wirehair_encode _ _) as [res bs].
    destruct (_ || _) eqn:Hg in Hp; [done|]. injection Hp as <-.
    rewrite !orb_false_iff, Z.eqb_neq, Z.gtb_ltb, Z.ltb_ge in Hg. lia.
Qed.

(** The source packets are the padded segment: nothing is lost when all of them arrive. *)
Lemma source_packets_concat c data :
  config_ok c -> segment_ok c data ->
  concat (map (fun id => default [] (packet_of data (Z.of_nat id)))
            (seq 0 (Z.to_nat (source_of (Z.of_nat (length data)))))) = message_of data.
Proof.
  intros Hc Hd. destruct (segment_counts c data Hc Hd) as (H1 & _ & _ & H2 & _).
  pose proof (length_message_of data) as Hl. set (N := Z.to_nat (source_of (Z.of_nat (length data)))).
  set (sz := Z.to_nat WH_PACKET_SIZE).
  assert (Hpre : forall m, (m <= N)%nat ->
    concat (map (fun id => default [] (packet_of data (Z.of_nat id))) (seq 0 m)) = take (m * sz) (message_of data)).
  { induction m as [|m IH]; intros Hm; [done|].
    rewrite seq_S, map_app, concat_app, IH by lia. cbn [map concat Nat.add].
    rewrite (packet_of_source c) by (done || lia). cbn [default from_option].
    rewrite app_nil_r, Nat2Z.id. fold sz. unfold id. rewrite (take_take_drop (message_of data) (m * sz) sz). f_equal. lia. }
  rewrite Hpre by lia. apply take_ge. unfold N, sz, WH_PACKET_SIZE in *. lia.
Qed.

(** ** The incremental encoder *)

Section Tx.
Context (cfg : WirehairSegmentConfig) (Hcfg : config_ok cfg).
Context (data : list byte) (Hdata : segment_ok cfg data) (flow seg dst ttl : Z).

Definition target_of : SegmentTarget :=
  mkTarget cfg flow seg dst ttl (Z.of_nat (length data)) (limit_of cfg (Z.of_nat (length data))).

(** An encoder of [data] that has sent the packets below [next]. *)
Record tx_ok (tx : WirehairSegmentTx) : Prop := {
  to_target : tx_target tx = target_of;
  to_message : tx_message tx = message_of data;
  to_codec : tx_codec_bytes tx = codec_len data;
  to_source : ss_source_packets (tx_stats tx) = source_of (Z.of_nat (length data));
  to_next : 0 <= tx_next_packet_id tx <= limit_of cfg (Z.of_nat (length data));
  to_encoder : tx_encoder tx = None \/ tx_encoder tx = wirehair_encoder_create (message_of data) }.

Lemma tx_create_ok once alloc alloc_pad tx :
  wirehair_segment_tx_create once alloc alloc_pad (Some cfg) flow seg dst ttl (Some data) = Some tx ->
  tx_ok tx /\ tx_next_packet_id tx = 0.
Proof using Hcfg Hdata.
  unfold wirehair_segment_tx_create. destruct (segment_args_bad _ _ _ _ _); [done|].
  destruct alloc; cbn [negb]; [|done]. destruct (_ && _); [done|]. intros [= <-]. cbn. split; [|done].
  split; try done; cbn; [|by left]. destruct (segment_counts cfg data Hcfg Hdata) as (? & ? & _). lia.
Qed.

Context {C : Type} (emit : WireHeader -> list byte -> C -> Z * C).

(** [W id c]: the callback with context [c] has taken the packets below [id]. *)
Context (W : Z -> C -> Prop).
Context (HW : forall id p c rc c', 0 <= id < limit_of cfg (Z.of_nat (length data)) -> packet_of data id = Some p ->
  W id c -> emit (packet_header target_of id (Z.of_nat (length p))) p c = (rc, c') ->
  W (if rc =? 0 then id + 1 else id) c').

Lemma fill_packet_eq enc id :
  enc = wirehair_encoder_create (message_of data) \/ id < source_of (Z.of_nat (length data)) ->
  fill_packet_payload enc (message_of data) (codec_len data) id (source_of (Z.of_nat (length data))) =
  packet_of data id.
Proof using Type.
  intros [->|Hid]; [done|]. unfold packet_of, fill_packet_payload. by rewrite (proj2 (Z.ltb_lt _ _)).
Qed.

Lemma ensure_encoder_eq enc :
  enc = None \/ enc = wirehair_encoder_create (message_of data) ->
  ensure_wirehair_encoder enc (message_of data) (codec_len data) = wirehair_encoder_create (message_of data) \/
  codec_len data = 0.
Proof using Type.
  unfold ensure_wirehair_encoder. intros H. destruct (Z.eqb_spec (codec_len data) 0) as [|Hn]; [by right|left].
  unfold codec_len in *. rewrite <- length_message_of, Nat2Z.id, firstn_all.
  destruct H as [->| ->]; [done|]. by destruct (wirehair_encoder_create _).
Qed.

(** One turn: the next packet is sent, or nothing changes. *)
Lemma emit_turn_ok tx c sent tx' c' :
  tx_ok tx -> tx_next_packet_id tx < limit_of cfg (Z.of_nat (length data)) -> W (tx_next_packet_id tx) c ->
  emit_turn emit tx c = (sent, tx', c') ->
  tx_ok tx' /\ W (tx_next_packet_id tx') c' /\
  tx_next_packet_id tx' = (if sent then tx_next_packet_id tx + 1 else tx_next_packet_id tx).
Proof using Hcfg Hdata HW.
  intros Htx Hlt HWc Hturn. pose proof (to_next _ Htx) as Hnext.
  destruct (segment_counts cfg data Hcfg Hdata) as (Hc1 & Hc2 & _ & _ & _). cbn zeta in *.
  unfold emit_turn in Hturn. rewrite (to_source _ Htx), (to_message _ Htx), (to_codec _ Htx), (to_target _ Htx) in Hturn.
  set (id := tx_next_packet_id tx) in *. rewrite Z.geb_leb in Hturn.
  set (enc := if (source_of (Z.of_nat (length data)) <=? id) then _ else _) in Hturn.
  assert (Henc : enc = None \/ exists e, enc = Some e /\ (e = None \/ e = wirehair_encoder_create (message_of data)) /\
    (e = wirehair_encoder_create (message_of data) \/ id < source_of (Z.of_nat (length data)))).
  { unfold enc. destruct (Z.leb_spec (source_of (Z.of_nat (length data))) id) as [Hle|Hgt].
    - destruct (ensure_encoder_eq (tx_encoder tx) (to_encoder _ Htx)) as [->|H0].
      + destruct (wirehair_encoder_create _) as [e|] eqn:He; [|by left]. right. exists (Some e). split; [done|].
        split; [by right|by left].
      + exfalso. unfold codec_len, codec_bytes_of, WH_PACKET_SIZE in H0. destruct (Z.ltb_spec (Z.of_nat (length data)) (2 * 1370)); lia.
    - right. exists (tx_encoder tx). split; [done|]. split; [apply (to_encoder _ Htx)|by right]. }
  destruct Henc as [E|(e & E & Hor & He)]; rewrite E in Hturn; [by simplify_eq|].
  unfold emit_one_packet in Hturn. rewrite (fill_packet_eq e id He) in Hturn.
  assert (Hkeep : forall next st, ss_source_packets st = source_of (Z.of_nat (length data)) ->
    0 <= next <= limit_of cfg (Z.of_nat (length data)) -> tx_ok (tx_with tx e next st)).
  { intros next st Hst Hn. split; cbn; try done; apply Htx. }
  destruct (packet_of data id) as [p|] eqn:Hp; cycle 1.
  { cbn in Hturn. injection Hturn as <- <- <-. cbn. split; [apply Hkeep; [apply Htx|lia]|]. done. }
  destruct (emit _ _ _) as [rc c1] eqn:Hemit. pose proof (HW id p c rc c1 ltac:(lia) Hp HWc Hemit) as HW1.
  destruct (Z.eqb_spec rc 0) as [->|Hrc]; cbn in Hturn; injection Hturn as <- <- <-; cbn.
  - unfold u32. rewrite uwrap_small by (unfold in_range; lia).
    split; [|split; [exact HW1|done]]. apply Hkeep; [|lia]. destruct (_ <=? _); cbn; apply Htx.
  - split; [apply Hkeep; [apply Htx|lia]|]. by split.
Qed.

Lemma tx_emit_loop_ok turns emitted tx c rc tx' c' :
  tx_ok tx -> tx_next_packet_id tx + Z.of_nat turns <= limit_of cfg (Z.of_nat (length data)) ->
  W (tx_next_packet_id tx) c -> 0 <= emitted ->
  emit_loop emit turns emitted tx c = (rc, tx', c') ->
  tx_ok tx' /\ W (tx_next_packet_id tx') c' /\ tx_next_packet_id tx <= tx_next_packet_id tx' /\
  (rc = -1 \/ rc = emitted + Z.of_nat turns /\ tx_next_packet_id tx' = tx_next_packet_id tx + Z.of_nat turns).
Proof using Hcfg Hdata HW.
  revert emitted tx c. induction turns as [|turns IH]; intros emitted tx c Htx Hle HWc Hem Hl; cbn [emit_loop] in Hl.
  { injection Hl as <- <- <-. split_and!; try done; lia. }
  destruct (emit_turn emit tx c) as [[sent tx1] c1] eqn:Ht.
  destruct (emit_turn_ok _ _ _ _ _ Htx ltac:(lia) HWc Ht) as (H1 & H2 & H3).
  destruct sent; [|injection Hl as <- <- <-; split_and!; try done; [lia|by left]].
  apply IH in Hl as (G1 & G2 & G3 & G4); try done; [|lia..]. split_and!; try done; [lia|].
  destruct G4 as [->|[-> G4]]; [by left|right]. lia.
Qed.

(** What a call of one of the two emission functions does: [-1] is the only failure. *)
Definition emits (tx : WirehairSegmentTx) (hi : Z) (r : Z * WirehairSegmentTx * C) : Prop :=
  let '(rc, tx', c') := r in
  tx_ok tx' /\ W (tx_next_packet_id tx') c' /\ tx_next_packet_id tx <= tx_next_packet_id tx' /\
  (rc = -1 \/ rc = tx_next_packet_id tx' - tx_next_packet_id tx /\ tx_next_packet_id tx' = hi).

Lemma emit_range_ok tx c hi :
  tx_ok tx -> W (tx_next_packet_id tx) c -> tx_next_packet_id tx <= hi <= limit_of cfg (Z.of_nat (length data)) ->
  emits tx hi (wirehair_segment_tx_emit_range emit tx hi c).
Proof using Hcfg Hdata HW.
  intros Htx HWc Hhi. unfold wirehair_segment_tx_emit_range. rewrite (proj2 (Z.ltb_ge _ _)) by lia.
  rewrite (to_target _ Htx). cbn [tg_packet_limit target_of]. rewrite Z.gtb_ltb, (proj2 (Z.ltb_ge _ _)) by lia.
  destruct (emit_loop _ _ _ _ _) as [[rc tx'] c'] eqn:Hl.
  apply tx_emit_loop_ok in Hl as (H1 & H2 & H3 & H4); try done; [|lia..]. cbn. split_and!; try done.
  destruct H4 as [->|[-> H4]]; [by left|right]. lia.
Qed.

Lemma emit_source_ok tx c m :
  tx_ok tx -> W (tx_next_packet_id tx) c -> 0 < m < 2 ^ 31 ->
  tx_next_packet_id tx <= source_of (Z.of_nat (length data)) ->
  emits tx (Z.min (source_of (Z.of_nat (length data))) (tx_next_packet_id tx + m))
    (wirehair_segment_tx_emit_source emit tx m c).
Proof using Hcfg Hdata HW.
  intros Htx HWc Hm Hs. destruct (segment_counts cfg data Hcfg Hdata) as (Hc1 & Hc2 & _). cbn zeta in *.
  pose proof (to_next _ Htx) as Hn. unfold wirehair_segment_tx_emit_source. rewrite (proj2 (Z.eqb_neq _ _)) by lia.
  rewrite (to_source _ Htx). unfold u32. rewrite uwrap_small by (unfold in_range; lia).
  rewrite (proj2 (Z.ltb_ge (_ + m) _)), Z.gtb_ltb by lia. cbn [orb].
  destruct (Z.ltb_spec (source_of (Z.of_nat (length data))) (tx_next_packet_id tx + m)).
  - rewrite Z.min_l by lia. apply emit_range_ok; try done; lia.
  - rewrite Z.min_r by lia. apply emit_range_ok; try done; lia.
Qed.

Lemma emit_repair_ok tx c m :
  tx_ok tx -> W (tx_next_packet_id tx) c -> 0 < m < 2 ^ 31 ->
  source_of (Z.of_nat (length data)) <= tx_next_packet_id tx ->
  emits tx (Z.min (limit_of cfg (Z.of_nat (length data))) (tx_next_packet_id tx + m))
    (wirehair_segment_tx_emit_repair emit tx m c).
Proof using Hcfg Hdata HW.
  intros Htx HWc Hm Hs. destruct (segment_counts cfg data Hcfg Hdata) as (Hc1 & Hc2 & _). cbn zeta in *.
  pose proof (to_next _ Htx) as Hn. unfold wirehair_segment_tx_emit_repair.
  rewrite (to_source _ Htx), (proj2 (Z.ltb_ge _ _)), (proj2 (Z.eqb_neq _ _)) by lia. cbn [orb].
  rewrite (to_target _ Htx). cbn [tg_packet_limit target_of].
  unfold u32. rewrite uwrap_small by (unfold in_range; lia).
  rewrite (proj2 (Z.ltb_ge (_ + m) _)), Z.gtb_ltb by lia. cbn [orb].
  set (e := if _ <? _ then _ else _). set (hi := Z.min _ _).
  assert (He : e = hi).
  { unfold e, hi. destruct (Z.ltb_spec (limit_of cfg (Z.of_nat (length data))) (tx_next_packet_id tx + m)); lia. }
  rewrite He. assert (Hr : emits tx hi (wirehair_segment_tx_emit_range emit tx hi c)).
  { apply emit_range_ok; try done. unfold hi. lia. }
  destruct (wirehair_segment_tx_emit_range _ _ _ _) as [[rc tx'] c']. destruct (rc >? 0); [|done].
  destruct Hr as (H1 & H2 & H3 & H4). cbn. split; [|by split]. destruct H1. by split.
Qed.

End Tx.
End Packets.

(** * What the segment transport relies on in the Wirehair library

    The class [FountainCode] states the documented contract of <wirehair/wirehair.h> that the
    receiver needs: once [wirehair_decode] has returned [Wirehair_Success] for packets of one
    message, [wirehair_recover] gives that message.  Nothing is assumed about how many packets
    that takes.  A simple repetition code is an instance. *)

(** A decoder after the packets [pkts], whatever it answered. *)
Definition feed `{wh : Wirehair} (d : WirehairDecoder) (pkts : list (Z * list byte)) : WirehairDecoder :=
  foldl (fun d q => snd (wirehair_decode d (fst q) (snd q))) d pkts.

(** Packets of the segment [data]. *)
Definition genuine_packets `{wh : Wirehair} (data : list byte) (pkts : list (Z * list byte)) : Prop :=
  Forall (fun q => 0 <= fst q /\ packet_of data (fst q) = Some (snd q)) pkts.

Class FountainCode `(wh : Wirehair) : Prop := {
  fc_recover data pkts id p d0 d :
    0 < Z.of_nat (length data) -> Z.of_nat (length data) + WH_PACKET_SIZE <= 2 ^ 32 ->
    wirehair_decoder_create (codec_len data) = Some d0 ->
    genuine_packets data pkts -> 0 <= id -> packet_of data id = Some p ->
    wirehair_decode (feed d0 pkts) id p = (Wirehair_Success, d) ->
    wirehair_recover d (codec_len data) = (Wirehair_Success, message_of data) }.

(** ** A repetition code *)

Definition chunk (m : list byte) (i : nat) : list byte :=
  take (Z.to_nat WH_PACKET_SIZE) (drop (i * Z.to_nat WH_PACKET_SIZE) m).

(** The blocks of a message of [n] bytes. *)
Definition blocks (n : Z) : Z := (n + WH_PACKET_SIZE - 1) / WH_PACKET_SIZE.

(** Packet [id] is block [id mod N]; a decoder is the blocks it has. *)
#[export] Instance repetition : Wirehair := {|
  WirehairEncoder := list byte;
  WirehairDecoder := list (option (list byte));
  wirehair_init := Wirehair_Success;
  wirehair_encoder_create m := Some m;
  wirehair_encode m id := (Wirehair_Success, chunk m (Z.to_nat (id mod blocks (Z.of_nat (length m)))));
  wirehair_decoder_create n := Some (replicate (Z.to_nat (blocks n)) None);
  wirehair_decode d id p :=
    let d := <[Z.to_nat (id mod Z.of_nat (length d)) := Some p]> d in
    (if forallb (fun o => match o with Some _ => true | None => false end) d
     then Wirehair_Success else Wirehair_NeedMore, d);
  wirehair_recover d n := (Wirehair_Success, concat (map (default []) d)) |}.

Lemma blocks_codec_len data : 2 <= blocks (codec_len data) /\
  (blocks (codec_len data) - 1) * WH_PACKET_SIZE < codec_len data <= blocks (codec_len data) * WH_PACKET_SIZE.
Proof.
  unfold blocks, codec_len, codec_bytes_of. set (n := Z.of_nat (length data)).
  set (cb := if n <? 2 * WH_PACKET_SIZE then 2 * WH_PACKET_SIZE else n).
  assert (2 * WH_PACKET_SIZE <= cb) by (unfold cb; destruct (Z.ltb_spec n (2 * WH_PACKET_SIZE)); lia).
  unfold WH_PACKET_SIZE in *. split; [apply Z.div_le_lower_bound; lia|].
  pose proof (Z.div_mod (cb + 1370 - 1) 1370). pose proof (Z.mod_pos_bound (cb + 1370 - 1) 1370). lia.
Qed.

(** The chunks of a message make up the message. *)
Lemma chunks_concat data :
  concat (map (chunk (message_of data)) (seq 0 (Z.to_nat (blocks (codec_len data))))) = message_of data.
Proof.
  destruct (blocks_codec_len data) as [H2 Hb]. pose proof (length_message_of data) as Hl. fold (codec_len data) in Hl.
  assert (Hpre : forall m, concat (map (chunk (message_of data)) (seq 0 m)) =
    take (m * Z.to_nat WH_PACKET_SIZE) (message_of data)).
  { induction m as [|m IH]; [done|]. rewrite seq_S, map_app, concat_app, IH. cbn [map concat Nat.add].
    rewrite app_nil_r. unfold chunk. rewrite take_take_drop. f_equal. lia. }
  rewrite Hpre. apply take_ge. unfold WH_PACKET_SIZE in *. lia.
Qed.

Section Repetition.
Context (data : list byte).
Context (Hpos : 0 < Z.of_nat (length data)) (Hlen : Z.of_nat (length data) + WH_PACKET_SIZE <= 2 ^ 32).

Abbreviation N := (blocks (codec_len data)).

Lemma source_of_blocks : wirehair_segment_source_packets (Z.of_nat (length data)) = N.
Proof using Hpos Hlen.
  rewrite source_packets_eq by done. unfold blocks, codec_len, codec_bytes_of, WH_PACKET_SIZE in *.
  destruct (Z.ltb_spec (Z.of_nat (length data)) (2 * 1370)).
  - rewrite Z.max_l; [done|]. apply Z.lt_succ_r, Z.div_lt_upper_bound; lia.
  - rewrite Z.max_r; [done|]. apply Z.div_le_lower_bound; lia.
Qed.

(** Every packet is a chunk. *)
Lemma repetition_packet id p :
  0 <= id -> packet_of (wh := repetition) data id = Some p ->
  p = chunk (message_of data) (Z.to_nat (id mod N)).
Proof using Hpos Hlen.
  intros Hid. destruct (blocks_codec_len data) as [H2 Hb]. pose proof (length_message_of data) as Hl.
  fold (codec_len data) in Hl. assert (Hcl : codec_len data < 2 ^ 32).
  { unfold codec_len, codec_bytes_of, WH_PACKET_SIZE in *. destruct (Z.ltb_spec (Z.of_nat (length data)) (2 * 1370)); lia. }
  unfold packet_of, fill_packet_payload. rewrite source_of_blocks. destruct (Z.ltb_spec id N) as [Hlt|Hge].
  - unfold u64, u32. rewrite (uwrap_small 64) by (unfold in_range, WH_PACKET_SIZE in *; nia).
    rewrite Z.geb_leb, (proj2 (Z.leb_gt _ _)) by (unfold WH_PACKET_SIZE in *; nia).
    rewrite uwrap_small by (unfold in_range, WH_PACKET_SIZE in *; nia). intros [= <-].
    rewrite Z.mod_small by lia. unfold chunk. rewrite Z2Nat.inj_mul by (unfold WH_PACKET_SIZE; lia).
    destruct (Z.ltb_spec (codec_len data - id * WH_PACKET_SIZE) WH_PACKET_SIZE) as [Hs|]; [|done].
    rewrite !take_ge; [done| |]; rewrite length_drop; unfold WH_PACKET_SIZE in *; lia.
  - cbn [wirehair_encoder_create wirehair_encode repetition]. rewrite Hl. destruct (_ || _); [done|]. by intros [= <-].
Qed.

(** What a decoder holds are chunks in their places. *)
Definition holds_chunks (d : list (option (list byte))) : Prop :=
  length d = Z.to_nat N /\ forall i p, d !! i = Some (Some p) -> p = chunk (message_of data) i.

Lemma repetition_decode d id p :
  holds_chunks d -> 0 <= id -> packet_of (wh := repetition) data id = Some p ->
  holds_chunks (snd (wirehair_decode (Wirehair := repetition) d id p)).
Proof using Hpos Hlen.
  intros [Hd Hc] Hid Hp. apply repetition_packet in Hp; [|done]. destruct (blocks_codec_len data) as [H2 _].
  cbn. split; [by rewrite length_insert|]. rewrite Hd, Z2Nat.id by lia. intros i q.
  rewrite list_lookup_insert_Some. intros [(<- & [= <-] & _)|[_ H]]; [exact Hp|by apply Hc].
Qed.

Lemma repetition_feed d pkts :
  holds_chunks d -> genuine_packets (wh := repetition) data pkts ->
  holds_chunks (feed (wh := repetition) d pkts).
Proof using Hpos Hlen.
  intros Hd Hp. revert d Hd. induction Hp as [|[id p] pkts [H0 H1] _ IH]; intros d Hd; [done|].
  cbn [feed foldl fst snd]. apply IH. by apply repetition_decode.
Qed.

Lemma full_chunks d :
  holds_chunks d -> forallb (fun o => match o with Some _ => true | None => false end) d = true ->
  concat (map (default []) d) = message_of data.
Proof using Type.
  intros [Hd Hc] Hall. rewrite <- (chunks_concat data). f_equal.
  rewrite forallb_forall in Hall. apply list_eq. intros i. rewrite !list_lookup_fmap.
  destruct (lt_dec i (Z.to_nat N)) as [Hi|Hi].
  - rewrite lookup_seq_lt by done. destruct (lookup_lt_is_Some_2 d i) as [o Ho]; [lia|]. rewrite Ho. cbn.
    destruct o as [p|]; [by rewrite (Hc i p Ho)|].
    exfalso. specialize (Hall None). cbn in Hall. assert (In None d) by (apply list_elem_of_In; by eapply list_elem_of_lookup_2).
    naive_solver.
  - rewrite !lookup_ge_None_2; [done|rewrite length_seq; lia|lia].
Qed.

End Repetition.

#[export] Instance repetition_fountain : FountainCode repetition.
Proof.
  split. intros data pkts id p d0 d Hpos Hlen Hd0 Hp Hid Hpk Hdec. cbn in Hd0. injection Hd0 as <-.
  assert (H0 : holds_chunks data (replicate (Z.to_nat (blocks (codec_len data))) None)).
  { split; [apply length_replicate|]. intros i q Hq. apply lookup_replicate in Hq as [Hq _]. done. }
  pose proof (repetition_feed data Hpos Hlen _ _ H0 Hp) as H1.
  pose proof (repetition_decode data Hpos Hlen _ _ _ H1 Hid Hpk) as H2. rewrite Hdec in H2. cbn in H2.
  cbn in Hdec |- *. destruct (forallb _ _) eqn:Hall in Hdec; [|done]. injection Hdec as <-.
  f_equal. by apply full_chunks.
Qed.
