(* ===== verification/WirehairSendSpec.v ===== *)
(** * The blocking sender of one segment

    [wirehair_segment_send] gives the emit callback the packets of the segment in order.  Without
    acknowledgements it sends the source packets and the repair budget; with them it stops at the
    first poll that answers otherwise than 0, and reports a timeout only after the last packet.  The
    callbacks keep a trace of their calls and answers, and the results are stated over it. *)

From Stdlib Require Import Strings.Byte.
From S2P Require Import Prelude WireHeader WirehairSegment WirehairSegmentSpec.

Local Open Scope Z_scope.

(** ** What the callbacks see *)

Inductive send_event :=
  | Emitted (h : WireHeader) (p : list byte) (rc : Z)
  | Polled (wait answer : Z).

(** Events after which the sender goes on. *)
Definition quiet (e : send_event) : Prop := match e with Emitted _ _ rc => rc = 0 | Polled _ a => a = 0 end.

(** The packets the emit callback accepted, and how often the sender polled. *)
Definition sent (tr : list send_event) : list (WireHeader * list byte) :=
  omap (fun e => match e with Emitted h p rc => if rc =? 0 then Some (h, p) else None | Polled _ _ => None end) tr.
Definition polls (tr : list send_event) : Z :=
  Z.of_nat (length (omap (fun e => match e with Polled w _ => Some w | _ => None end) tr)).

(** The packets of a segment below [n], with their headers. *)
Definition are_packets `{wh : Wirehair} (cfg : WirehairSegmentConfig) (data : list byte) (flow seg dst ttl n : Z)
    (log : list (WireHeader * list byte)) : Prop :=
  Forall2 (fun id q => packet_of data id = Some (snd q) /\
      fst q = packet_header (target_of cfg data flow seg dst ttl) id (Z.of_nat (length (snd q))))
    (seqZ 0 n) log.

(** How a call ends, from the trace of its callbacks and the number of packets sent: the return
    value and the two flags of the statistics.  [polling]: acknowledgements are enabled and there is a
    poll callback. *)
Inductive send_end `{wh : Wirehair} (data : list byte) (limit : Z) (polling : bool) :
    list send_event -> Z -> Z -> bool -> bool -> Prop :=
  | end_acked tr w a n : Forall quiet tr -> 0 < a -> send_end data limit polling (tr ++ [Polled w a]) n 0 true false
  | end_poll_failed tr w a n : Forall quiet tr -> a < 0 -> send_end data limit polling (tr ++ [Polled w a]) n (-1) false false
  | end_refused tr h p rc n : Forall quiet tr -> rc <> 0 -> send_end data limit polling (tr ++ [Emitted h p rc]) n (-1) false false
  | end_no_encoder tr n : Forall quiet tr -> source_of (Z.of_nat (length data)) <= n < limit ->
      wirehair_encoder_create (message_of data) = None -> send_end data limit polling tr n (-1) false false
  | end_no_packet tr n : Forall quiet tr -> n < limit -> packet_of data n = None ->
      send_end data limit polling tr n (-1) false false
  | end_all_sent tr : Forall quiet tr -> polling = false -> send_end data limit polling tr limit 0 false false
  | end_timeout tr : Forall quiet tr -> polling = true -> send_end data limit polling tr limit (-1) false true.

Lemma sent_app a b : sent (a ++ b) = sent a ++ sent b.
Proof. apply omap_app. Qed.
Lemma polls_app a b : polls (a ++ b) = polls a + polls b.
Proof. unfold polls. rewrite omap_app, length_app. lia. Qed.
Lemma polls_emitted h p rc : polls [Emitted h p rc] = 0.
Proof. done. Qed.
Lemma polls_polled w a : polls [Polled w a] = 1.
Proof. done. Qed.
Lemma quiet_snoc tr e : Forall quiet tr -> quiet e -> Forall quiet (tr ++ [e]).
Proof. intros H1 H2. apply Forall_app_2; [done|by constructor]. Qed.

Section Send.
Context `{wh : Wirehair}.
Context (cfg : WirehairSegmentConfig) (Hcfg : config_ok cfg).
Context (data : list byte) (Hdata : segment_ok cfg data) (flow seg dst ttl : Z).
Context {C : Type} (emit : WireHeader -> list byte -> C -> Z * C).
Context (ack_poll : option (Z -> Z -> Z -> C -> Z * C)).

Abbreviation target := (target_of cfg data flow seg dst ttl).
Abbreviation source := (source_of (Z.of_nat (length data))).
Abbreviation limit := (limit_of cfg (Z.of_nat (length data))).
Abbreviation encoder := (wirehair_encoder_create (message_of data)).

Definition polling : bool := sc_ack_enabled cfg && match ack_poll with Some _ => true | None => false end.

(** What an answer of the poll other than 0 makes the sender return. *)
Definition verdict (a : Z) : Z := if a <? 0 then -1 else 0.

(** [W n c]: the callback with context [c] has taken the packets below [n]; polling keeps it. *)
Context (W : Z -> C -> Prop).
Context (HW : forall id p c rc c', 0 <= id < limit -> packet_of data id = Some p -> W id c ->
  emit (packet_header target id (Z.of_nat (length p))) p c = (rc, c') -> W (if rc =? 0 then id + 1 else id) c').
Context (HP : forall poll n wait c a c', ack_poll = Some poll -> W n c -> poll flow seg wait c = (a, c') -> W n c').

(** [Q k c]: no callback has stopped the sender, which has polled [k] times if it polls;
    [R n rc acked c]: the sender ends with [rc] after [n] packets. *)
Context (Q : Z -> C -> Prop) (R : Z -> Z -> bool -> C -> Prop).
Context (Qmono : forall j k c, Q k c -> j <= k -> Q j c).
Context (Qfree : forall j k c, polling = false -> Q k c -> Q j c).
Context (Qemit : forall h p k c c', Q k c -> emit h p c = (0, c') -> Q k c').
Context (Remit : forall h p k n c rc c', Q k c -> n <= k -> emit h p c = (rc, c') -> rc <> 0 -> R n (-1) false c').
Context (Qpoll : forall poll wait k c c', ack_poll = Some poll -> Q k c -> poll flow seg wait c = (0, c') -> Q (k + 1) c').
Context (Rpoll : forall poll wait k n c a c', ack_poll = Some poll -> Q k c -> n <= k -> poll flow seg wait c = (a, c') ->
  a <> 0 -> R n (verdict a) (0 <? a) c').
Context (Rcodec : forall n c, Q n c -> n < limit -> (source <= n /\ encoder = None) \/ packet_of data n = None ->
  R n (-1) false c).

(** What the encoder of a repair packet is, and what it may be before. *)
Definition enc_any (e : option WirehairEncoder) : Prop := e = None \/ e = encoder.
Definition enc_ready (e : option WirehairEncoder) : Prop := e = encoder.

(** [n] packets have been sent and counted. *)
Record sent_to (E : option WirehairEncoder -> Prop) (n : Z) (s : SendState) : Prop := {
  se_wire : W n (sn_ctx s);
  se_encoder : E (sn_encoder s);
  se_count : ss_packets_sent (sn_stats s) = n;
  se_timeout : ss_ack_timed_out (sn_stats s) = false }.

(** Nothing has stopped the sender. *)
Definition calm (k : Z) (s : SendState) : Prop := Q k (sn_ctx s) /\ ss_stopped_by_ack (sn_stats s) = false.

(** A part of the function: it goes on after packet [hi], or ends. *)
Definition runs (E : option WirehairEncoder -> Prop) (lo hi : Z) (r : option Z * SendState) : Prop :=
  exists n, lo <= n <= hi /\ sent_to E n (snd r) /\
    match fst r with
    | None => n = hi /\ calm hi (snd r)
    | Some rc => R n rc (ss_stopped_by_ack (sn_stats (snd r))) (sn_ctx (snd r))
    end.

Lemma sent_to_any E n s : sent_to E n s -> (forall e, E e -> enc_any e) -> sent_to enc_any n s.
Proof using Type. intros [] H. split; auto. Qed.

Lemma runs_any E lo hi r : runs E lo hi r -> (forall e, E e -> enc_any e) -> runs enc_any lo hi r.
Proof using Type. intros (n & H1 & H2 & H3) H. exists n. split_and!; try lia; [|done]. by eapply sent_to_any. Qed.

Lemma runs_then E lo mid hi r next :
  runs E lo mid r -> mid <= hi ->
  (forall s, sent_to E mid s -> calm mid s -> runs E mid hi (next s)) ->
  lo <= mid -> runs E lo hi (then_ r next).
Proof using Type.
  intros (n & H1 & H2 & H3) Hmid Hn Hlo. destruct r as [[rc|] s]; cbn in *.
  - exists n. split_and!; try done; lia.
  - destruct H3 as [-> H3]. destruct (Hn s H2 H3) as (m & G1 & G2 & G3). exists m. split_and!; try done; lia.
Qed.

Lemma runs_here E n s : sent_to E n s -> calm n s -> runs E n n (None, s).
Proof using Type. intros H1 H2. exists n. split_and!; try done; lia. Qed.

(** The end of the function at packet [n]. *)
Lemma runs_end E n hi rc s :
  sent_to E n s -> R n rc (ss_stopped_by_ack (sn_stats s)) (sn_ctx s) -> n <= hi -> runs E n hi (Some rc, s).
Proof using Type. intros H1 H2 H3. exists n. split_and!; try done; lia. Qed.

(** ** The parts *)

Lemma send_packet_ok (E : option WirehairEncoder -> Prop) id s :
  sent_to E id s -> calm (id + 1) s -> 0 <= id < limit ->
  (forall e, E e -> e = encoder \/ id < source) ->
  runs E id (id + 1) (send_packet emit (message_of data) (codec_len data) source target id s).
Proof using HW Hcfg Hdata Qmono Qemit Remit Rcodec.
  intros [S1 S2 S3 S4] [C1 C2] Hid HE. destruct (segment_counts cfg data Hcfg Hdata) as (_ & Hl & _). cbn zeta in Hl.
  unfold send_packet, emit_one_packet.
  rewrite (fill_packet_eq data _ id (HE _ S2)). destruct (packet_of data id) as [p|] eqn:Hp; cycle 1.
  { apply runs_end; [by split| |lia]. cbn. rewrite C2. apply Rcodec; [eapply Qmono; [exact C1|lia]|lia|by right]. }
  destruct (emit _ p _) as [rc c] eqn:He. pose proof (HW id p _ rc c Hid Hp S1 He) as HW1.
  destruct (Z.eqb_spec rc 0) as [->|Hrc]; cbn.
  - exists (id + 1). cbn. split_and!; [lia..| |lia|by split; [eapply Qemit|]].
    split; try done. cbn. unfold u32. rewrite uwrap_small; [lia|]. unfold in_range. lia.
  - apply runs_end; [by split| |lia]. cbn. rewrite C2. eapply Remit; [exact C1|lia|exact He|done].
Qed.

Lemma ensure_encoder_ok n s :
  sent_to enc_any n s -> calm n s ->
  (exists s', ensure_encoder (message_of data) (codec_len data) s = (None, s') /\ sent_to enc_ready n s' /\ calm n s') \/
  (ensure_encoder (message_of data) (codec_len data) s = (Some (-1), s) /\ encoder = None).
Proof using Hcfg Hdata.
  clear Rcodec. intros [S1 S2 S3 S4] [C1 C2]. destruct (segment_counts cfg data Hcfg Hdata) as (_ & _ & _ & _ & Hc). cbn zeta in Hc.
  unfold segment_ok in Hdata. unfold ensure_encoder.
  destruct (ensure_encoder_eq data (sn_encoder s) S2) as [->|H0]; [|exfalso; unfold codec_len in H0; lia].
  destruct encoder as [e|] eqn:He; [left|by right]. eexists. split; [done|]. split; by split.
Qed.

(** Without an encoder the sender ends. *)
Lemma no_encoder_ends E n hi s :
  sent_to E n s -> calm n s -> source <= n < limit -> n <= hi -> encoder = None -> runs E n hi (Some (-1), s).
Proof using Rcodec. intros Hs [C1 C2] Hn Hhi He. apply runs_end; [done| |lia]. rewrite C2. apply Rcodec; [done|lia|left; split; [lia|done]]. Qed.

(** The answer of a poll, or of a wait. *)
Lemma check_ack_ok E n hi acked s :
  sent_to E n s -> ss_stopped_by_ack (sn_stats s) = false -> acked <> 0 -> R n (verdict acked) (0 <? acked) (sn_ctx s) ->
  n <= hi -> exists rc s', check_ack acked s = (Some rc, s') /\ runs E n hi (Some rc, s').
Proof using Type.
  intros [S1 S2 S3 S4] Hst Hne HR Hhi. unfold check_ack, verdict in *. rewrite Z.gtb_ltb.
  destruct (Z.ltb_spec acked 0); [|destruct (Z.ltb_spec 0 acked); [|lia]]; eexists _, _; (split; [reflexivity|]); apply runs_end; try done.
  by destruct (Z.ltb_spec 0 acked); [lia|rewrite Hst].
Qed.

Lemma polled_loop_ok E poll turns id s :
  ack_poll = Some poll -> sent_to E id s -> calm id s -> 0 <= id -> id + Z.of_nat turns <= limit ->
  (forall e i, E e -> i < id + Z.of_nat turns -> e = encoder \/ i < source) ->
  runs E id (id + Z.of_nat turns)
    (polled_loop emit (message_of data) (codec_len data) source target poll turns id s).
Proof using HW HP Hcfg Hdata Qmono Qemit Remit Qpoll Rpoll Rcodec.
  intros Hp. revert id s. induction turns as [|turns IH]; intros id s Hs Hc H0 Hle HE; cbn [polled_loop].
  { rewrite Z.add_0_r. by apply runs_here. }
  destruct (poll _ _ 0 _) as [acked c] eqn:Ha. pose proof Hs as [S1 S2 S3 S4]. pose proof Hc as [C1 C2].
  pose proof (HP poll id 0 _ acked c Hp S1 Ha) as S1'. set (s1 := mkSendState _ _ c).
  assert (Hs1 : sent_to E id s1) by (by split). destruct (decide (acked = 0)) as [->|Hne].
  - cbn [check_ack Z.ltb Z.gtb Z.compare then_]. eapply (runs_then E id (id + 1)); [apply send_packet_ok; try done| | |]; try lia.
    + split; [by eapply Qpoll|done].
    + intros e He. apply HE; [done|lia].
    + intros s2 Hs2 Hc2. replace (id + Z.of_nat (S turns)) with (id + 1 + Z.of_nat turns) by lia.
      apply IH; try done; [lia..|]. intros e i He Hi. apply HE; [done|lia].
  - destruct (check_ack_ok E id (id + Z.of_nat (S turns)) acked s1 Hs1 C2 Hne) as (rc & s2 & -> & H2); [|lia|exact H2].
    eapply Rpoll; [done|exact C1|lia|exact Ha|done].
Qed.

(** Waiting is a sequence of polls that ends with the first answer other than 0. *)
Lemma wait_loop_ok poll turns wait waited n c a c' :
  ack_poll = Some poll -> W n c -> Q n c -> wait_loop turns poll flow seg wait waited c = (a, c') ->
  W n c' /\ (a = 0 /\ Q n c' \/ a <> 0 /\ R n (verdict a) (0 <? a) c').
Proof using HP Qmono Qpoll Rpoll.
  intros Hp. revert waited c. induction turns as [|turns IH]; intros waited c Hc Hq; cbn [wait_loop]; [intros [= <- <-]; auto|].
  case_match; [|intros [= <- <-]; auto]. destruct (poll _ _ _ c) as [acked c1] eqn:Ha.
  pose proof (HP _ _ _ _ _ _ Hp Hc Ha) as Hc1.
  destruct (Z.eqb_spec acked 0) as [->|Hne]; cbn [negb].
  - apply IH; [done|]. eapply Qmono; [by eapply Qpoll|lia].
  - intros [= <- <-]. split; [done|]. right. split; [done|]. eapply Rpoll; [done|exact Hq|lia|exact Ha|done].
Qed.

Lemma wait_ack_ok E poll wait n s :
  ack_poll = Some poll -> sent_to E n s -> calm n s -> runs E n n (wait_ack ack_poll target wait s).
Proof using HP Qmono Qpoll Rpoll.
  intros Hp [S1 S2 S3 S4] [C1 C2]. unfold wait_ack, wait_for_segment_ack. rewrite Hp.
  destruct (wait_loop _ _ _ _ _ _ _) as [a c] eqn:Hw. cbn [tg_flow_id tg_segment_id target_of] in Hw.
  destruct (wait_loop_ok _ _ _ _ _ _ _ _ Hp S1 C1 Hw) as [Hc [[-> Hq]|[Hne HR]]].
  - apply runs_here; by split.
  - destruct (check_ack_ok E n n a (mkSendState (sn_encoder s) (sn_stats s) c)) as (rc & s2 & -> & H2); try done; lia.
Qed.

Lemma send_loop_ok turns id s :
  polling = false -> sent_to enc_any id s -> calm id s -> 0 <= id -> id + Z.of_nat turns <= limit ->
  runs enc_any id (id + Z.of_nat turns)
    (send_loop emit (message_of data) (codec_len data) source target turns id s).
Proof using HW Hcfg Hdata Qmono Qfree Qemit Remit Rcodec.
  intros Hno. revert id s. induction turns as [|turns IH]; intros id s Hs Hc H0 Hle; cbn [send_loop].
  { rewrite Z.add_0_r. by apply runs_here. }
  assert (Hrest : forall s E, sent_to E id s -> calm id s ->
    (forall e, E e -> e = encoder \/ id < source) -> (forall e, E e -> enc_any e) ->
    runs enc_any id (id + Z.of_nat (S turns))
      (then_ (send_packet emit (message_of data) (codec_len data) source target id s)
         (send_loop emit (message_of data) (codec_len data) source target turns (id + 1)))).
  { intros s1 E Hs1 [C1 C2] HE Hany. apply (runs_then _ id (id + 1)); [|lia| |lia].
    - eapply runs_any; [apply send_packet_ok; try done; [|lia]|done]. split; [by eapply Qfree|done].
    - intros s2 Hs2 Hc2. replace (id + Z.of_nat (S turns)) with (id + 1 + Z.of_nat turns) by lia. apply IH; try done; lia. }
  rewrite Z.geb_leb. destruct (Z.leb_spec source id) as [Hge|Hlt].
  - destruct (ensure_encoder_ok id s Hs Hc) as [(s1 & -> & Hs1 & Hc1)|[-> He]]; cbn [then_].
    + apply (Hrest s1 enc_ready); try done; intros e He; [by left|by right].
    + apply no_encoder_ends; try done; lia.
  - cbn [then_]. apply (Hrest s enc_any); try done. intros e _. by right.
Qed.

Lemma repair_loop_ok poll turns id s :
  ack_poll = Some poll -> sent_to enc_any id s -> calm id s ->
  source <= id <= limit -> limit - id <= Z.of_nat turns ->
  runs enc_any id limit
    (repair_loop emit ack_poll (message_of data) (codec_len data) source target poll turns id s).
Proof using HW HP Hcfg Hdata Qmono Qemit Remit Qpoll Rpoll Rcodec.
  intros Hp. destruct (segment_counts cfg data Hcfg Hdata) as (Hn & Hl & _). cbn zeta in *.
  set (m := wirehair_segment_ack_repair_round_packets source).
  assert (Hm : 0 < m < 2 ^ 31) by (apply round_packets_bounds; lia).
  revert id s. induction turns as [|turns IH]; intros id s Hs Hc Hid Hle; cbn [repair_loop tg_packet_limit target_of].
  all: destruct (Z.ltb_spec id limit) as [Hlt|Hge]; cbn [negb];
    [|assert (id = limit) as <- by lia; by apply runs_here].
  { lia. }
  fold m. unfold u32. rewrite uwrap_small by (unfold in_range; lia). rewrite (proj2 (Z.ltb_ge (id + m) id)), Z.gtb_ltb by lia. cbn [orb].
  set (e := if limit <? id + m then limit else id + m).
  assert (He : id < e <= limit) by (unfold e; destruct (Z.ltb_spec limit (id + m)); lia).
  destruct (ensure_encoder_ok id s Hs Hc) as [(s1 & -> & Hs1 & Hc1)|[-> Hno]]; cbn [then_]; cycle 1.
  { apply no_encoder_ends; try done; lia. }
  set (s2 := mkSendState _ (stats_round _) _).
  assert (Hs2 : sent_to enc_ready id s2) by (destruct Hs1; by split). assert (Hc2 : calm id s2) by (destruct Hc1; by split).
  apply (runs_then _ id e); [|lia| |lia].
  - eapply runs_any; [|intros x Hx; right; exact Hx]. replace e with (id + Z.of_nat (Z.to_nat (e - id))) at 1 by lia.
    apply polled_loop_ok; try done; [lia..|]. intros x i Hx _. by left.
  - intros s3 Hs3 Hc3. apply (runs_then _ e e); [by eapply wait_ack_ok|lia| |lia].
    intros s4 Hs4 Hc4. apply IH; try done; lia.
Qed.

(** The whole function, once its arguments are accepted. *)
Lemma send_body_ok s rc s' :
  sent_to enc_any 0 s -> calm 0 s ->
  send_body emit ack_poll (message_of data) (codec_len data) source target (sc_ack_enabled cfg)
    (wirehair_segment_repair_packets source (sc_repair_percent cfg)) s = (rc, s') ->
  exists n, 0 <= n <= limit /\ W n (sn_ctx s') /\ ss_packets_sent (sn_stats s') = n /\
    (R n rc (ss_stopped_by_ack (sn_stats s')) (sn_ctx s') /\ ss_ack_timed_out (sn_stats s') = false \/
     n = limit /\ Q n (sn_ctx s') /\ ss_stopped_by_ack (sn_stats s') = false /\
     rc = (if polling then -1 else 0) /\ ss_ack_timed_out (sn_stats s') = polling).
Proof using HW HP Hcfg Hdata Qmono Qfree Qemit Remit Qpoll Rpoll Rcodec.
  intros Hs Hc Hb. destruct (segment_counts cfg data Hcfg Hdata) as (Hn & Hl & Hlim & _). cbn zeta in *.
  unfold send_body in Hb. destruct (if sc_ack_enabled cfg then ack_poll else None) as [poll|] eqn:Hmode.
  - assert (Hp : ack_poll = Some poll /\ polling = true) by (unfold polling; destruct (sc_ack_enabled cfg); [by rewrite Hmode|done]).
    destruct Hp as [Hp Hyes]. set (r := then_ _ _) in Hb. assert (Hr : runs enc_any 0 limit r).
    { apply (runs_then _ 0 source); [|lia| |lia].
      - replace source with (0 + Z.of_nat (Z.to_nat source)) at 1 by lia.
        apply (polled_loop_ok enc_any poll (Z.to_nat source)); try done; [lia..|]. intros e i _ Hi. right. lia.
      - intros s1 Hs1 Hc1. apply (runs_then _ source source); [by eapply wait_ack_ok|lia| |lia].
        intros s2 Hs2 Hc2. apply repair_loop_ok; try done; [lia|]. cbn. lia. }
    destruct Hr as (n & Hr1 & [S1 S2 S3 S4] & Hr3). destruct r as [[rc1|] s1]; cbn in *; injection Hb as <- <-; exists n.
    + rewrite S4. split_and!; try done; try lia. by left.
    + destruct Hr3 as [-> [C1 C2]]. cbn. rewrite C2, Hyes. split_and!; try done; try lia. by right.
  - assert (Hno : polling = false) by (unfold polling; destruct (sc_ack_enabled cfg); [by rewrite Hmode|done]).
    assert (Hsl : (if sc_ack_enabled cfg then tg_packet_limit target
                   else u32 (source + wirehair_segment_repair_packets source (sc_repair_percent cfg))) = limit).
    { cbn. unfold limit_of, wirehair_segment_repair_ceiling. by destruct (sc_ack_enabled cfg). }
    rewrite Hsl in Hb. destruct (send_loop _ _ _ _ _ _ _ _) as [r s1] eqn:Hloop.
    assert (Hr : runs enc_any 0 (0 + Z.of_nat (Z.to_nat limit)) (r, s1)) by (rewrite <- Hloop; apply send_loop_ok; try done; lia).
    rewrite Z2Nat.id, Z.add_0_l in Hr by lia.
    destruct Hr as (n & Hr1 & [S1 S2 S3 S4] & Hr3). injection Hb as <- <-. exists n. cbn in *. rewrite S4. destruct r as [rc1|]; cbn in *.
    + split_and!; try done; try lia. by left.
    + destruct Hr3 as [-> [C1 C2]]. rewrite C2, Hno. split_and!; try done; try lia. by right.
Qed.

End Send.

(** The packet [n], offered. *)
Lemma wire_next `{wh : Wirehair} cfg data flow seg dst ttl n tr p rc h :
  are_packets cfg data flow seg dst ttl n (sent tr) -> 0 <= n -> packet_of data n = Some p ->
  h = packet_header (target_of cfg data flow seg dst ttl) n (Z.of_nat (length p)) ->
  are_packets cfg data flow seg dst ttl (if rc =? 0 then n + 1 else n) (sent (tr ++ [Emitted h p rc])).
Proof.
  intros Hw Hn Hp ->. rewrite sent_app. cbn. destruct (rc =? 0); [|by rewrite app_nil_r].
  unfold are_packets. rewrite seqZ_app with (n1 := n) (n2 := 1) by lia. apply Forall2_app; [exact Hw|].
  cbn. rewrite Z.add_0_l. by repeat constructor.
Qed.

(** C18: the contract of the blocking sender, from what its callbacks see.  The packets the emit
    callback accepts are the first [n] packets of the segment, in order and each once, and [n] is
    what the statistics count.  The call goes on exactly as long as emit answers 0 and the poll
    answers 0: it returns 0 and reports an acknowledgement when the last event is a poll with a
    positive answer; it returns -1 when that poll's answer is negative, when emit refused the last
    packet, or when the codec has no encoder or no packet; otherwise all packets have been sent, and
    it returns 0 without polling and -1 with the timeout flag when it polls.  When it polls, it has
    done so at least once per packet. *)
Theorem wirehair_segment_send_contract `{wh : Wirehair} {C : Type} (emit : WireHeader -> list byte -> C -> Z * C)
    (ack_poll : option (Z -> Z -> Z -> C -> Z * C)) (trace : C -> list send_event)
    cfg data flow seg dst ttl once alloc_pad c rc stats c' :
  config_ok cfg -> trace c = [] ->
  (forall h p c rc c', emit h p c = (rc, c') -> trace c' = trace c ++ [Emitted h p rc]) ->
  (forall poll wait c a c', ack_poll = Some poll -> poll flow seg wait c = (a, c') -> trace c' = trace c ++ [Polled wait a]) ->
  wirehair_segment_send emit ack_poll once alloc_pad (Some cfg) flow seg dst ttl (Some data) c = (rc, Some stats, c') ->
  let limit := limit_of cfg (Z.of_nat (length data)) in
  exists n, 0 <= n <= limit /\ are_packets cfg data flow seg dst ttl n (sent (trace c')) /\ ss_packets_sent stats = n /\
    send_end data limit (polling cfg ack_poll) (trace c') n rc (ss_stopped_by_ack stats) (ss_ack_timed_out stats) /\
    (polling cfg ack_poll = true -> n <= polls (trace c')).
Proof.
  intros Hcfg Htr Hemit Hpoll. unfold wirehair_segment_send. destruct (segment_args_bad _ _ _ _ _) eqn:Hbad; [done|].
  cbn [segment_args_bad] in Hbad. rewrite !orb_false_iff, Z.eqb_neq, !Z.gtb_ltb, !Z.ltb_ge in Hbad.
  assert (Hok : segment_ok cfg data) by (unfold segment_ok; lia). cbn zeta. case_match; [done|].
  destruct (send_body _ _ _ _ _ _ _ _ _) as [rc1 s'] eqn:Hb. intros [= -> <- <-].
  set (lim := limit_of cfg (Z.of_nat (length data))). set (pl := polling cfg ack_poll).
  apply (send_body_ok cfg Hcfg data Hok flow seg dst ttl emit ack_poll
    (fun n c => are_packets cfg data flow seg dst ttl n (sent (trace c)))) with
    (Q := fun k c => Forall quiet (trace c) /\ (pl = true -> k <= polls (trace c)))
    (R := fun n rc acked c => send_end data lim pl (trace c) n rc acked false /\ (pl = true -> n <= polls (trace c))) in Hb.
  - destruct Hb as (n & Hn & Hw & Hc & Hend). exists n. split_and!; try done; try lia.
    + destruct Hend as [[[H1 _] H2]|(-> & [H1 _] & H2 & -> & H4)]; [by rewrite H2|]. rewrite H2, H4. fold pl.
      destruct pl eqn:Epl; [by apply end_timeout|by apply end_all_sent].
    + by destruct Hend as [[[_ H1] _]|(-> & [_ H1] & _)].
  - intros id p c1 rc1 c2 Hid Hp Hw He. rewrite (Hemit _ _ _ _ _ He). by apply wire_next; [|lia|..].
  - intros poll n wait c1 a c2 Hp Hw He. rewrite (Hpoll _ _ _ _ _ Hp He), sent_app. cbn. by rewrite app_nil_r.
  - intros j k c1 [H1 H2] Hj. split; [done|]. intros Hp. specialize (H2 Hp). lia.
  - intros j k c1 Hno [H1 _]. split; [done|]. fold pl in Hno. by rewrite Hno.
  - intros h p k c1 c2 [H1 H2] He. rewrite (Hemit _ _ _ _ _ He), polls_app, polls_emitted, Z.add_0_r.
    split; [by apply quiet_snoc|done].
  - intros h p k n c1 rc1 c2 [H1 H2] Hn He Hrc. rewrite (Hemit _ _ _ _ _ He), polls_app, polls_emitted, Z.add_0_r.
    split; [by apply end_refused|]. intros Hp. specialize (H2 Hp). lia.
  - intros poll wait k c1 c2 Hp [H1 H2] He. rewrite (Hpoll _ _ _ _ _ Hp He), polls_app, polls_polled.
    split; [by apply quiet_snoc|]. intros Hp'. specialize (H2 Hp'). lia.
  - intros poll wait k n c1 a c2 Hp [H1 H2] Hn He Ha. rewrite (Hpoll _ _ _ _ _ Hp He), polls_app, polls_polled.
    split; [|intros Hp'; specialize (H2 Hp'); lia]. unfold verdict.
    destruct (Z.ltb_spec a 0), (Z.ltb_spec 0 a); try lia; [by apply end_poll_failed|by apply end_acked].
  - intros n c1 [H1 H2] Hn Hno. split; [|done]. destruct Hno as [[Hge Hno]|Hno]; [by apply end_no_encoder|by apply end_no_packet].
  - split; try done; cbn; [by rewrite Htr; constructor|by left].
  - split; cbn; [|done]. rewrite Htr. done.
Qed.

(** ** A transfer *)

Definition demo_config : WirehairSegmentConfig :=
  {| sc_segment_bytes := 3000; sc_repair_percent := 20; sc_window := 2; sc_ack_enabled := true;
     sc_origin_node := 1; sc_ack_ttl := 8 |}.

Definition demo_segment (n : nat) : list byte := replicate n x2a.

Lemma demo_config_ok : config_ok demo_config.
Proof. split; [unfold segment_config_in_range, in_range; cbn; lia|reflexivity|cbn; unfold WH_PACKET_SIZE; lia]. Qed.

(** A receiver that acknowledges at the third poll. *)
Definition traced_emit (h : WireHeader) (p : list byte) (c : list send_event) : Z * list send_event := (0, c ++ [Emitted h p 0]).
Definition traced_poll (flow seg wait : Z) (c : list send_event) : Z * list send_event :=
  let a := if polls c =? 2 then 1 else 0 in (a, c ++ [Polled wait a]).

Definition traced_send :=
  wirehair_segment_send (wh := repetition) traced_emit (Some traced_poll) true true
    (Some demo_config) 7 0 4 8 (Some (demo_segment 2800)) [].

Lemma traced_send_acked :
  match traced_send with
  | (rc, Some stats, _) => rc = 0 /\ ss_packets_sent stats = 2 /\ ss_stopped_by_ack stats = true
  | _ => False
  end.
Proof. vm_compute. repeat split; reflexivity. Qed.

Lemma wirehair_segment_send_contract_witness :
  exists stats c', traced_send = (0, Some stats, c') /\
    are_packets (wh := repetition) demo_config (demo_segment 2800) 7 0 4 8 2 (sent c') /\
    send_end (wh := repetition) (demo_segment 2800) (limit_of demo_config 2800) true c' 2 0 true (ss_ack_timed_out stats).
Proof.
  pose proof traced_send_acked as E. destruct traced_send as [[rc [stats|]] c'] eqn:Hs; [|destruct E]. destruct E as (-> & E2 & E3).
  destruct (wirehair_segment_send_contract (wh := repetition) traced_emit (Some traced_poll) (fun c => c) demo_config (demo_segment 2800) 7 0 4 8
    true true [] 0 stats c' demo_config_ok eq_refl) as (n & _ & H2 & H3 & H4 & _).
  - intros h p c rc1 c1 [= <- <-]. reflexivity.
  - intros poll wait c a c1 [= <-] [= <- <-]. reflexivity.
  - exact Hs.
  - rewrite E2 in H3. subst n. rewrite E3 in H4. exists stats, c'. exact (conj eq_refl (conj H2 H4)).
Defined.
