(* ===== verification/WirehairReceiverSpec.v ===== *)
(** * The receiver against the stream it decodes

    [segs] are the segments of a stream, [scfg] is the configuration of their sender.  The window
    of a receiver that gets packets of this stream is related to it by [recv_ok], which every call
    of [wirehair_segment_receiver_ingest] keeps, whatever the callbacks answer. *)

From Stdlib Require Import Strings.Byte.
From S2P Require Import Prelude WireHeader WirehairSegment WirehairReceiver WirehairSegmentSpec.

Local Open Scope Z_scope.

(** ** Lookups *)

Section Slots.
Context `{wh : Wirehair}.
Implicit Types r : WirehairSegmentReceiver.

Lemma rv_slot_set_eq r i s : (i < length (rv_slots r))%nat -> rv_slot (rv_set_slot i s r) i = s.
Proof. intros Hi. unfold rv_slot. cbn. by rewrite nth_lookup, list_lookup_insert_eq. Qed.

Lemma rv_slot_set_ne r i j s : i <> j -> rv_slot (rv_set_slot i s r) j = rv_slot r j.
Proof. intros Hij. unfold rv_slot. cbn. by rewrite !nth_lookup, list_lookup_insert_ne. Qed.

Lemma rv_slot_set r i j s :
  (i < length (rv_slots r))%nat -> rv_slot (rv_set_slot i s r) j = if decide (i = j) then s else rv_slot r j.
Proof. intros Hi. case_decide as E; [subst; by apply rv_slot_set_eq|by apply rv_slot_set_ne]. Qed.

Lemma first_slot_some p r i :
  first_slot p r = Some i -> (i < Z.to_nat (rv_window r))%nat /\ p (rv_slot r i) = true.
Proof. intros H. apply find_some in H as [H1 H2]. rewrite in_seq in H1. split; [lia|done]. Qed.

Lemma first_slot_none p r i :
  first_slot p r = None -> (i < Z.to_nat (rv_window r))%nat -> p (rv_slot r i) = false.
Proof. intros H Hi. apply (find_none _ _ H). apply in_seq. lia. Qed.

Definition empty (s : WirehairSegmentSlot) : Prop := sl_state s = WH_SEG_SLOT_EMPTY.
Definition recovered (s : WirehairSegmentSlot) : Prop := sl_state s = WH_SEG_SLOT_RECOVERED.

#[export] Instance empty_dec s : Decision (empty s).
Proof. unfold empty. apply _. Defined.
#[export] Instance recovered_dec s : Decision (recovered s).
Proof. unfold recovered. apply _. Defined.

Lemma recovered_not_empty s : recovered s -> ~ empty s.
Proof. unfold recovered, empty. by intros ->. Qed.

Lemma rv_slot_lt r j : ~ empty (rv_slot r j) -> (j < length (rv_slots r))%nat.
Proof.
  intros H. destruct (lt_dec j (length (rv_slots r))); [done|]. exfalso. apply H.
  unfold rv_slot. by rewrite nth_overflow by lia.
Qed.

Lemma find_slot_some r id i :
  find_slot r id = Some i ->
  (i < Z.to_nat (rv_window r))%nat /\ ~ empty (rv_slot r i) /\ sl_segment_id (rv_slot r i) = id.
Proof.
  intros H. apply first_slot_some in H as [H1 H2]. rewrite andb_true_iff, negb_true_iff, bool_decide_eq_false, Z.eqb_eq in H2.
  by destruct H2.
Qed.

Lemma find_slot_none r id i :
  find_slot r id = None -> (i < Z.to_nat (rv_window r))%nat ->
  empty (rv_slot r i) \/ sl_segment_id (rv_slot r i) <> id.
Proof.
  intros H Hi. apply (first_slot_none _ _ i H) in Hi.
  rewrite andb_false_iff, negb_false_iff, bool_decide_eq_true, Z.eqb_neq in Hi. exact Hi.
Qed.

(** ** The table of recovered segments *)

Definition in_table r (id : Z) : bool := wirehair_segment_receiver_segment_recovered (Some r) id.

Lemma table_index_lt id : (table_index id < 16)%nat.
Proof. unfold table_index, WH_SEGMENT_WINDOW_MAX. pose proof (Z.mod_pos_bound id 16). lia. Qed.

Lemma table_index_inj id id' : table_index id = table_index id' -> Z.abs (id - id') < 16 -> id = id'.
Proof.
  unfold table_index, WH_SEGMENT_WINDOW_MAX. intros H Hd.
  pose proof (Z.mod_pos_bound id 16 ltac:(lia)). pose proof (Z.mod_pos_bound id' 16 ltac:(lia)).
  pose proof (Z.div_mod id 16 ltac:(lia)). pose proof (Z.div_mod id' 16 ltac:(lia)). lia.
Qed.

Lemma in_table_mark r id id' :
  length (rv_recovered_ids r) = 16%nat -> length (rv_recovered_valid r) = 16%nat ->
  in_table (mark_recovered id r) id' =
  if decide (table_index id = table_index id') then bool_decide (id = id') else in_table r id'.
Proof.
  intros H1 H2. unfold in_table, mark_recovered, wirehair_segment_receiver_segment_recovered. cbn.
  pose proof (table_index_lt id) as Hi. rewrite !nth_lookup. case_decide as E.
  - rewrite <- E, !list_lookup_insert_eq by lia. cbn. by destruct (Z.eqb_spec id id'), (bool_decide_reflect (id = id')).
  - by rewrite !list_lookup_insert_ne.
Qed.

Lemma in_table_clear r id id' :
  length (rv_recovered_valid r) = 16%nat ->
  in_table (clear_recovered id r) id' = in_table r id' && negb (id =? id').
Proof.
  intros H2. unfold in_table, clear_recovered, wirehair_segment_receiver_segment_recovered.
  pose proof (table_index_lt id) as Hi. destruct (Z.eqb_spec (nth (table_index id) (rv_recovered_ids r) 0) id) as [E|E]; cbn.
  - rewrite !nth_lookup. destruct (decide (table_index id = table_index id')) as [Ei|Ei].
    + rewrite <- Ei, list_lookup_insert_eq by lia. cbn. rewrite nth_lookup in E. rewrite E.
      destruct (Z.eqb_spec id id'); by rewrite ?andb_false_r.
    + rewrite list_lookup_insert_ne by done. destruct (Z.eqb_spec id id') as [->|]; [done|]. by rewrite andb_true_r.
  - destruct (Z.eqb_spec id id') as [<-|]; [|by rewrite andb_true_r].
    rewrite (proj2 (Z.eqb_neq _ id) E). by rewrite !andb_false_r.
Qed.

End Slots.

(** ** The stream *)

Section Stream.
Context `{wh : Wirehair} `{!FountainCode wh}.
Context (scfg : WirehairSegmentConfig) (Hscfg : config_ok scfg).
Context (segs : list (list byte)) (Hsegs : Forall (segment_ok scfg) segs).
Context (Hcount : Z.of_nat (length segs) < 2 ^ 63).
Context (flow dst ttl : Z).

Abbreviation seg_target i seg := (target_of scfg seg flow (Z.of_nat i) dst ttl).
Abbreviation seg_limit seg := (limit_of scfg (Z.of_nat (length seg))).

(** The packets of the stream: header and payload. *)
Inductive genuine : WireHeader -> option (list byte) -> Prop :=
| genuine_data i seg id p :
    segs !! i = Some seg -> 0 <= id < seg_limit seg -> packet_of seg id = Some p ->
    genuine (packet_header (seg_target i seg) id (Z.of_nat (length p))) (Some p)
| genuine_end h payload :
    wh_version h = WIRE_VERSION_V4 -> wh_flow_id h = flow -> wh_type h = WIRE_TYPE_END ->
    wh_block_id h = Z.of_nat (length segs) -> genuine h payload.

Lemma seg_ok i seg : segs !! i = Some seg -> segment_ok scfg seg.
Proof using Hsegs. rewrite list.Forall_lookup in Hsegs. apply Hsegs. Qed.

(** The fields of a data header are not cut by their widths. *)
Lemma packet_header_fields i seg id p :
  segs !! i = Some seg -> 0 <= id < seg_limit seg -> packet_of seg id = Some p ->
  let h := packet_header (seg_target i seg) id (Z.of_nat (length p)) in
  wh_shard_index h = id /\ wh_shard_count h = seg_limit seg /\ wh_payload_len h = Z.of_nat (length p) /\
  0 < Z.of_nat (length p) <= WH_PACKET_SIZE /\ 0 < wh_origin_node h.
Proof using Hscfg Hsegs.
  intros Hi Hid Hp h. pose proof (seg_ok _ _ Hi) as Hs.
  destruct (segment_counts scfg seg Hscfg Hs) as (_ & Hl & _). destruct (config_ok_facts scfg Hscfg) as (_ & _ & Ho & _).
  pose proof (packet_of_length scfg seg id p Hscfg Hs ltac:(lia) Hp) as Hlen. cbn.
  unfold u16. rewrite !uwrap_small by (unfold in_range, WH_PACKET_SIZE in *; lia). split_and!; lia.
Qed.

(** ** The invariant *)

(** A slot that is in use is for a segment of the window: it has been fed with packets of it, or
    holds it. *)
Definition slot_holds (next window : nat) (s : WirehairSegmentSlot) : Prop :=
  empty s \/
  exists i seg, segs !! i = Some seg /\ (next <= i < next + window)%nat /\
    sl_segment_id s = Z.of_nat i /\ sl_segment_bytes s = Z.of_nat (length seg) /\
    sl_codec_bytes s = codec_len seg /\
    match sl_state s with
    | WH_SEG_SLOT_EMPTY => False
    | WH_SEG_SLOT_COLLECTING =>
        exists d0 pkts, wirehair_decoder_create (codec_len seg) = Some d0 /\
          genuine_packets seg pkts /\ sl_decoder s = Some (feed d0 pkts)
    | WH_SEG_SLOT_RECOVERED => sl_recovered s = Some (message_of seg)
    end.

Record recv_ok (next : nat) (r : WirehairSegmentReceiver) : Prop := {
  ro_window : 1 <= rv_window r <= WH_SEGMENT_WINDOW_MAX;
  ro_flow : rv_flow_id r = flow;
  ro_widths : in_range 8 (sc_ack_ttl (rv_config r)) /\ in_range 8 (sc_origin_node (rv_config r)) /\
    in_range 32 (rv_flow_id r);
  ro_origin i : in_range 8 (sl_source_origin (rv_slot r i));
  ro_slots : length (rv_slots r) = 16%nat;
  ro_ids : length (rv_recovered_ids r) = 16%nat;
  ro_valid : length (rv_recovered_valid r) = 16%nat;
  ro_next : rv_next_emit_segment r = Z.of_nat next;
  ro_le : (next <= length segs)%nat;
  ro_holds i : slot_holds next (Z.to_nat (rv_window r)) (rv_slot r i);
  ro_outside i : (Z.to_nat (rv_window r) <= i)%nat -> empty (rv_slot r i);
  ro_distinct i j : ~ empty (rv_slot r i) -> ~ empty (rv_slot r j) ->
    sl_segment_id (rv_slot r i) = sl_segment_id (rv_slot r j) -> i = j;
  ro_table id : in_table r id = true <->
    exists i, recovered (rv_slot r i) /\ sl_segment_id (rv_slot r i) = id;
  ro_end : rv_end_seen r = true -> rv_end_segment_count r = Z.of_nat (length segs);
  ro_complete : rv_complete r = true -> rv_end_seen r = true /\ next = length segs }.

(** A segment has been handed out, or waits in its slot. *)
Definition is_done (next : nat) (r : WirehairSegmentReceiver) (i : nat) : Prop :=
  (i < next)%nat \/ exists j, recovered (rv_slot r j) /\ sl_segment_id (rv_slot r j) = Z.of_nat i.

(** The slot of a segment of the stream. *)
Lemma slot_in_use next r j :
  recv_ok next r -> ~ empty (rv_slot r j) ->
  exists i seg, segs !! i = Some seg /\ (next <= i < next + Z.to_nat (rv_window r))%nat /\
    sl_segment_id (rv_slot r j) = Z.of_nat i /\ (j < Z.to_nat (rv_window r))%nat.
Proof using Type.
  intros Hr Hj. destruct (ro_holds _ _ Hr j) as [|(i & seg & H1 & H2 & H3 & _)]; [done|].
  exists i, seg. split_and!; try done; try lia. destruct (lt_dec j (Z.to_nat (rv_window r))); [done|].
  exfalso. apply Hj. apply (ro_outside _ _ Hr). lia.
Qed.

(** ** Changes of one slot *)

Lemma recv_ok_counts next r a b c : recv_ok next r -> recv_ok next (rv_counts a b c r).
Proof using Type. intros []. by split. Qed.

Lemma recv_ok_end next r :
  recv_ok next r -> recv_ok next (rv_end (Z.of_nat (length segs)) r).
Proof using Type. intros []. split; try done. cbn. intros Hc. by apply ro_complete0 in Hc as [_ ->]. Qed.

(** A slot is replaced by one with the same claim to be recovered. *)
Lemma recv_ok_set next r i s :
  recv_ok next r -> (i < Z.to_nat (rv_window r))%nat ->
  slot_holds next (Z.to_nat (rv_window r)) s -> in_range 8 (sl_source_origin s) ->
  (forall j, j <> i -> ~ empty s -> ~ empty (rv_slot r j) -> sl_segment_id (rv_slot r j) <> sl_segment_id s) ->
  (recovered s <-> recovered (rv_slot r i)) ->
  (recovered s -> sl_segment_id s = sl_segment_id (rv_slot r i)) ->
  recv_ok next (rv_set_slot i s r).
Proof using Type.
  intros Hr Hi Hs Hor Hd Hrec Hid. pose proof (ro_window _ _ Hr) as Hw. unfold WH_SEGMENT_WINDOW_MAX in Hw.
  assert (Hl : (i < length (rv_slots r))%nat) by (rewrite (ro_slots _ _ Hr); lia).
  pose proof (fun j => rv_slot_set r i j s Hl) as Hget.
  destruct Hr. split; try done.
  - intros j. rewrite Hget. by case_decide.
  - cbn. by rewrite length_insert.
  - intros j. cbn [rv_window rv_set_slot rv_set_slots]. rewrite Hget. by case_decide.
  - intros j. cbn [rv_window rv_set_slot rv_set_slots]. rewrite Hget. intros Hj. rewrite decide_False by lia. by apply ro_outside0.
  - intros j k. rewrite !Hget. repeat case_decide; subst; try done; intros H1 H2 E.
    + exfalso. by apply (Hd k).
    + exfalso. by apply (Hd j).
    + by apply ro_distinct0.
  - intros id. change (in_table (rv_set_slot i s r) id) with (in_table r id). rewrite ro_table0. split.
    + intros (j & H1 & H2). exists j. rewrite Hget. case_decide; [subst|done]. split; [by apply Hrec|].
      rewrite Hid; [done|by apply Hrec].
    + intros (j & H1 & H2). exists j. rewrite Hget in *. case_decide; [subst|done]. split; [by apply Hrec|].
      by rewrite <- Hid.
Qed.

(** A segment of the window that is complete. *)
Lemma recv_ok_recovered next r i seg :
  recv_ok next r -> (i < Z.to_nat (rv_window r))%nat -> sl_state (rv_slot r i) = WH_SEG_SLOT_COLLECTING ->
  segs !! Z.to_nat (sl_segment_id (rv_slot r i)) = Some seg -> sl_recovered (rv_slot r i) = Some (message_of seg) ->
  let r' := rv_set_slot i (sl_done (rv_slot r i)) r in
  recv_ok next (mark_recovered (sl_segment_id (rv_slot r i)) r').
Proof using Type.
  intros Hr Hi Hst Hseg Hmsg r'. pose proof (ro_window _ _ Hr) as Hw. unfold WH_SEGMENT_WINDOW_MAX in Hw.
  assert (Hl : (i < length (rv_slots r))%nat) by (rewrite (ro_slots _ _ Hr); lia).
  pose proof (fun j => rv_slot_set r i j (sl_done (rv_slot r i)) Hl) as Hget. fold r' in Hget.
  assert (Hne : ~ empty (rv_slot r i)) by (unfold empty; by rewrite Hst).
  destruct (ro_holds _ _ Hr i) as [|(n & seg' & G1 & G2 & G3 & G4 & G5 & _)]; [done|].
  rewrite G3, Nat2Z.id in Hseg. rewrite G1 in Hseg. injection Hseg as ->.
  pose proof (in_table_mark r' (sl_segment_id (rv_slot r i))) as Hmark.
  pose proof (ro_distinct _ _ Hr i) as Hdist. pose proof (slot_in_use next r) as Huse. destruct Hr.
  assert (Hsame : forall j, rv_slot (mark_recovered (sl_segment_id (rv_slot r i)) r') j = rv_slot r' j) by done.
  split; try done.
  - intros j. rewrite Hsame, Hget. case_decide; [subst j; cbn|]; apply ro_origin0.
  - cbn. by rewrite length_insert.
  - cbn. by rewrite length_insert.
  - cbn. by rewrite length_insert.
  - intros j. rewrite Hsame, Hget. case_decide; [subst j|by apply ro_holds0]. right. exists n, seg. split_and!; cbn; done || lia.
  - intros j Hj. rewrite Hsame, Hget. case_decide; [|by apply ro_outside0]. subst. cbn in Hj. lia.
  - intros j k. rewrite !Hsame, !Hget. repeat case_decide; subst; try done; cbn [sl_segment_id sl_done]; intros H1 H2 E.
    + by apply Hdist.
    + symmetry. by apply Hdist.
    + by apply ro_distinct0.
  - intros id. rewrite Hmark by (cbn; done). change (in_table r' id) with (in_table r id).
    case_decide as Eidx.
    + rewrite bool_decide_eq_true. split.
      * intros <-. exists i. rewrite Hsame, Hget, decide_True by done. done.
      * intros (j & H1 & H2). rewrite Hsame, Hget in *. case_decide; [by subst|].
        apply table_index_inj in Eidx; [done|].
        destruct (Huse j) as (n' & seg' & U1 & U2 & U3 & _); [by split|by apply recovered_not_empty|].
        rewrite <- H2, U3, G3. lia.
    + rewrite ro_table0. split; intros (j & H1 & H2); exists j.
      * rewrite Hsame, Hget. case_decide; [subst j|done]. by unfold recovered in H1; rewrite Hst in H1.
      * rewrite Hsame, Hget in *. case_decide; [subst j|done]. cbn in H2. by rewrite H2 in Eidx.
Qed.

(** The oldest segment is handed out. *)
Lemma recv_ok_release next r i :
  recv_ok next r -> recovered (rv_slot r i) -> sl_segment_id (rv_slot r i) = Z.of_nat next ->
  let r' := release_slot i r in
  recv_ok (S next) (rv_emit (u64 (rv_next_emit_segment r' + 1)) (rv_complete r') r').
Proof using Hcount.
  intros Hr Hrec Hid r'. pose proof (recovered_not_empty _ Hrec) as Hne.
  destruct (slot_in_use next r i Hr Hne) as (n & seg & G1 & G2 & G3 & G4).
  assert (n = next) as -> by lia. pose proof (lookup_lt_Some _ _ _ G1) as Hlt.
  pose proof (ro_window _ _ Hr) as Hw. unfold WH_SEGMENT_WINDOW_MAX in Hw.
  assert (Hl : (i < length (rv_slots r))%nat) by (rewrite (ro_slots _ _ Hr); lia).
  set (rc := clear_recovered (Z.of_nat next) r). assert (Er : r' = rv_set_slot i slot_zero rc).
  { unfold r', release_slot. rewrite bool_decide_eq_false_2 by done. by rewrite Hid. }
  assert (Ec : rv_slots rc = rv_slots r /\ rv_window rc = rv_window r /\ rv_flow_id rc = rv_flow_id r /\
    rv_next_emit_segment rc = rv_next_emit_segment r /\ length (rv_recovered_ids rc) = length (rv_recovered_ids r) /\
    length (rv_recovered_valid rc) = length (rv_recovered_valid r) /\ rv_end_seen rc = rv_end_seen r /\
    rv_end_segment_count rc = rv_end_segment_count r /\ rv_complete rc = rv_complete r /\ rv_config rc = rv_config r).
  { unfold rc, clear_recovered. case_match; cbn; [by rewrite length_insert|done]. }
  destruct Ec as (E1 & E2 & E3 & E4 & E5 & E6 & E7 & E8 & E9 & E10).
  assert (Hget : forall j, rv_slot r' j = if decide (i = j) then slot_zero else rv_slot r j).
  { intros j. rewrite Er, rv_slot_set by (by rewrite E1). case_decide; [done|]. unfold rv_slot. by rewrite E1. }
  assert (Hgete : forall j x y, rv_slot (rv_emit x y r') j = rv_slot r' j) by done.
  pose proof (in_table_clear r (Z.of_nat next)) as Hclear. fold rc in Hclear. destruct Hr.
  split; rewrite ?Hgete; try (rewrite Er; cbn; rewrite ?E2, ?E3, ?E5, ?E6, ?E7, ?E8, ?E9, ?E10; done).
  - intros j. rewrite Hgete, Hget. by case_decide.
  - rewrite Er. cbn. by rewrite E1, length_insert.
  - rewrite Er. cbn. unfold u64. rewrite E4, ro_next0, uwrap_small by (unfold in_range; lia). lia.
  - lia.
  - intros j. rewrite Hgete, Hget. replace (rv_window _) with (rv_window r) by (rewrite Er; cbn; done).
    case_decide; [by left|].
    destruct (ro_holds0 j) as [|(n & seg' & F1 & F2 & F3 & F)]; [by left|right]. exists n, seg'.
    assert (n <> next).
    { intros ->. apply (ro_distinct0 i j) in Hne; [done|..].
      - intros Hemp. unfold empty in Hemp. rewrite Hemp in F. tauto.
      - by rewrite Hid, F3. }
    split_and!; try done; try lia; apply F.
  - intros j Hj. rewrite Hgete, Hget. case_decide; [done|]. apply ro_outside0. rewrite Er in Hj. cbn in Hj. by rewrite E2 in Hj.
  - intros j k. rewrite !Hgete, !Hget. repeat case_decide; try done. by apply ro_distinct0.
  - intros id. replace (in_table _ id) with (in_table rc id) by (rewrite Er; done). rewrite Hclear by done.
    rewrite andb_true_iff, ro_table0, negb_true_iff, Z.eqb_neq. split.
    + intros [(j & H1 & H2) H3]. exists j. rewrite Hgete, Hget. case_decide; [subst j|done]. by rewrite <- H2, Hid in H3.
    + intros (j & H1 & H2). rewrite Hgete, Hget in *. case_decide; [done|]. split; [by exists j|]. intros E.
      apply (ro_distinct0 i j) in Hne; [done|by apply recovered_not_empty|]. by rewrite Hid, H2.
  - rewrite Er. cbn. rewrite E9. intros Hc. apply ro_complete0 in Hc as [_ ->]. lia.
Qed.

End Stream.

(** * Calls of the receiver

    Every call of [wirehair_segment_receiver_ingest] on a packet of the stream returns and keeps
    the invariant of WirehairReceiverSpec.  What the callbacks have been given is followed through
    a predicate [W]: it is told the number of segments handed out and the segments that may have
    been acknowledged. *)

Section Run.
Context `{wh : Wirehair} `{!FountainCode wh}.
Context (scfg : WirehairSegmentConfig) (Hscfg : config_ok scfg).
Context (segs : list (list byte)) (Hsegs : Forall (segment_ok scfg) segs).
Context (Hcount : Z.of_nat (length segs) < 2 ^ 63).
Context (flow dst ttl : Z).

Abbreviation recv_ok := (recv_ok segs flow).
Abbreviation genuine := (genuine scfg segs flow dst ttl).

Context {C : Type} (output : Z -> list byte -> C -> Z * C) (ack : option (WireHeader -> C -> Z * C)).

(** An acknowledgement of segment [i]. *)
Definition ack_of (i : nat) (h : WireHeader) : Prop :=
  wh_version h = WIRE_VERSION_V4 /\ wh_type h = WIRE_TYPE_ACK /\ wh_flow_id h = flow /\
  wh_block_id h = Z.of_nat i /\ header_ok h.

(** [W n R c]: the output callback has taken the first [n] segments, and only segments of [R] have
    been acknowledged. *)
Context (W : nat -> (nat -> Prop) -> C -> Prop).
Context (HWout : forall n R seg c rc c', segs !! n = Some seg -> W n R c -> output flow seg c = (rc, c') ->
  W (if rc =? 0 then S n else n) R c').
Context (HWack : forall n (R : nat -> Prop) i h f c rc c', ack = Some f -> R i -> ack_of i h -> W n R c ->
  f h c = (rc, c') -> W n R c').
Context (HWmono : forall n (R R' : nat -> Prop) c, (forall i, R i -> R' i) -> W n R c -> W n R' c).

(** [reliable]: the callbacks do not fail. *)
Context (reliable : Prop).
Context (Hrout : reliable -> forall f seg c, fst (output f seg c) = 0).
Context (Hrack : reliable -> forall f h c, ack = Some f -> fst (f h c) = 0).

(** [ended]: the end of the stream has been announced. *)
Context (ended : Prop).

Record same_setup (r r' : WirehairSegmentReceiver) : Prop := {
  su_config : rv_config r' = rv_config r;
  su_window : rv_window r' = rv_window r;
  su_drops : rv_ahead_window_drops r' = rv_ahead_window_drops r;
  su_end : rv_end_seen r' = true -> rv_end_seen r = true \/ ended }.

Lemma setup_same r r' :
  rv_config r' = rv_config r -> rv_window r' = rv_window r ->
  rv_ahead_window_drops r' = rv_ahead_window_drops r -> rv_end_seen r' = rv_end_seen r -> same_setup r r'.
Proof using Type. intros H1 H2 H3 H4. split; try done. rewrite H4. by left. Qed.

#[local] Hint Extern 0 (same_setup _ _) => apply setup_same; reflexivity : core.

Lemma setup_trans r1 r2 r3 : same_setup r1 r2 -> same_setup r2 r3 -> same_setup r1 r3.
Proof using Type. intros [] []. split; try congruence. tauto. Qed.
#[local] Hint Resolve setup_trans : core.

(** No recovered segment waits to be handed out, and the end was not missed. *)
Definition settled (next : nat) (r : WirehairSegmentReceiver) : Prop :=
  (forall j, recovered (rv_slot r j) -> sl_segment_id (rv_slot r j) <> Z.of_nat next) /\
  (rv_end_seen r = true -> next = length segs -> rv_complete r = true).

Definition drained (next : nat) (r : WirehairSegmentReceiver) : Prop :=
  forall j, recovered (rv_slot r j) -> sl_segment_id (rv_slot r j) <> Z.of_nat next.

(** What a call leaves behind: the invariants, and nothing that was done is undone. *)
Definition step_ok (next : nat) (r : WirehairSegmentReceiver) (res : option (Z * WirehairSegmentReceiver * C)) : Prop :=
  exists rc r' c' next', res = Some (rc, r', c') /\ recv_ok next' r' /\ (next <= next')%nat /\
    W next' (is_done next' r') c' /\ same_setup r r' /\
    (forall i, is_done next r i -> is_done next' r' i) /\
    (reliable -> settled next r -> settled next' r').

Lemma step_trans next r next1 r1 res :
  (next <= next1)%nat -> same_setup r r1 -> (forall i, is_done next r i -> is_done next1 r1 i) ->
  (settled next r -> settled next1 r1) ->
  step_ok next1 r1 res -> step_ok next r res.
Proof using Type.
  intros H1 H2 H4 H5 (rc & r' & c' & next' & E & G1 & G2 & G3 & G4 & G6 & G7).
  exists rc, r', c', next'. split_and!; try done; try lia; [eauto|auto|auto].
Qed.

Lemma step_here next r c rc :
  recv_ok next r -> W next (is_done next r) c -> step_ok next r (Some (rc, r, c)).
Proof using Type. intros Hr HW. exists rc, r, c, next. by split_and!. Qed.

(** ** Handing out *)

(** The segment in a slot. *)
Lemma recovered_slot next r j :
  recv_ok next r -> recovered (rv_slot r j) ->
  exists i seg, segs !! i = Some seg /\ sl_segment_id (rv_slot r j) = Z.of_nat i /\
    (next <= i < next + Z.to_nat (rv_window r))%nat /\
    take (Z.to_nat (sl_segment_bytes (rv_slot r j))) (default [] (sl_recovered (rv_slot r j))) = seg.
Proof using Type.
  intros Hr Hj. destruct (ro_holds _ _ _ _ Hr j) as [H|(i & seg & H1 & H2 & H3 & H4 & H5 & H6)].
  { by apply recovered_not_empty in Hj. }
  rewrite Hj in H6. exists i, seg. split_and!; try done; try lia. rewrite H6, H4, Nat2Z.id. cbn. apply message_of_prefix.
Qed.

Lemma release_done next r j i :
  recv_ok next r -> recovered (rv_slot r j) -> sl_segment_id (rv_slot r j) = Z.of_nat next ->
  forall x y, is_done next r i -> is_done (S next) (rv_emit x y (release_slot j r)) i.
Proof using Type.
  intros Hr Hj Hid x y [H|(k & H1 & H2)]; [left; lia|]. destruct (decide (k = j)) as [->|Hk]; [left; lia|].
  right. exists k. assert (E : rv_slot (rv_emit x y (release_slot j r)) k = rv_slot r k); [|by rewrite E].
  change (rv_slot (rv_emit x y (release_slot j r)) k) with (rv_slot (release_slot j r) k).
  unfold release_slot. rewrite rv_slot_set_ne by done. case_bool_decide; [done|].
  unfold clear_recovered. by case_match.
Qed.

Lemma release_setup j r x y : same_setup r (rv_emit x y (release_slot j r)).
Proof using Type.
  unfold release_slot. case_bool_decide; [done|]. unfold clear_recovered. by case_match.
Qed.

Lemma release_slot_get next r j k :
  recv_ok next r -> recovered (rv_slot r j) -> ~ empty (rv_slot (release_slot j r) k) ->
  rv_slot (release_slot j r) k = rv_slot r k.
Proof using Type.
  intros Hr Hj Hk. assert (Hlt : (j < length (rv_slots r))%nat) by (by apply rv_slot_lt, recovered_not_empty).
  unfold release_slot in *. rewrite bool_decide_eq_false_2 in * by (by apply recovered_not_empty).
  destruct (decide (k = j)) as [->|Hkj].
  - rewrite rv_slot_set_eq in Hk; [done|]. unfold clear_recovered. by case_match.
  - rewrite rv_slot_set_ne by done. unfold clear_recovered. by case_match.
Qed.

Lemma drained_none next r : recv_ok next r -> find_slot r (Z.of_nat next) = None -> drained next r.
Proof using Type.
  intros Hr Hf k Hk E. pose proof (recovered_not_empty _ Hk) as Hne.
  destruct (slot_in_use _ _ _ _ _ Hr Hne) as (i & seg & _ & _ & _ & Hkw).
  by destruct (find_slot_none _ _ k Hf Hkw).
Qed.

Lemma drained_head next r j :
  recv_ok next r -> ~ empty (rv_slot r j) -> sl_segment_id (rv_slot r j) = Z.of_nat next ->
  ~ recovered (rv_slot r j) -> drained next r.
Proof using Type.
  intros Hr Hne Hid Hnot k Hk E.
  assert (k = j) as -> by (apply (ro_distinct _ _ _ _ Hr); [by apply recovered_not_empty|done|congruence]). done.
Qed.

Lemma emit_ready_loop_ok turns next hi r c :
  recv_ok next r -> W next (is_done next r) c ->
  (forall j, ~ empty (rv_slot r j) -> sl_segment_id (rv_slot r j) < Z.of_nat hi) -> (hi <= next + turns)%nat ->
  exists rc r' c' next', emit_ready_loop output turns r c = Some (rc, r', c') /\ recv_ok next' r' /\
    (next <= next')%nat /\ W next' (is_done next' r') c' /\ same_setup r r' /\
    (forall i, is_done next r i -> is_done next' r' i) /\
    (rc = 0 -> drained next' r') /\ (rc = 0 \/ rc = -1 /\ ~ reliable).
Proof using HWout HWmono Hcount Hrout.
  revert next r c. induction turns as [|turns IH]; intros next r c Hr HW Hhi Hle; cbn [emit_ready_loop].
  all: assert (Hstop : drained next r -> exists rc r' c' next', Some (0, r, c) = Some (rc, r', c') /\ recv_ok next' r' /\
    (next <= next')%nat /\ W next' (is_done next' r') c' /\ same_setup r r' /\
    (forall i, is_done next r i -> is_done next' r' i) /\ (rc = 0 -> drained next' r') /\ (rc = 0 \/ rc = -1 /\ ~ reliable))
    by (intros Hs; exists 0, r, c, next; split_and!; try done; try lia; by left).
  all: rewrite (ro_next _ _ _ _ Hr); destruct (find_slot r (Z.of_nat next)) as [j|] eqn:Hf; [|by apply Hstop, drained_none].
  all: apply find_slot_some in Hf as (Hj & Hne & Hid); destruct (decide (recovered (rv_slot r j))) as [Hrec|Hrec];
    [rewrite bool_decide_eq_true_2 by done|rewrite bool_decide_eq_false_2 by done; by apply Hstop, (drained_head _ _ j)]; cbn [negb].
  - exfalso. specialize (Hhi j Hne). lia.
  - destruct (recovered_slot next r j Hr Hrec) as (i & seg & Hi & Hi2 & _ & Hmsg). rewrite Hmsg.
    assert (i = next) as -> by lia. rewrite (ro_flow _ _ _ _ Hr).
    destruct (output flow seg c) as [rc c1] eqn:Hout. pose proof (HWout _ _ _ _ _ _ Hi HW Hout) as HW1.
    destruct (Z.eqb_spec rc 0) as [->|Hrc]; cbn [negb]; cycle 1.
    { exists (-1), r, c1, next. split_and!; try done; try lia. right. split; [done|]. intros Hrel.
      apply Hrc. rewrite <- (Hrout Hrel flow seg c). by rewrite Hout. }
    pose proof (recv_ok_release segs Hcount flow next r j Hr Hrec Hid) as Hr1. cbn zeta in Hr1.
    destruct (IH _ _ c1 Hr1) as (rc & r' & c' & next' & E & G1 & G2 & G3 & G4 & G5 & G6).
    + eapply HWmono; [|exact HW1]. intros i. by apply release_done.
    + intros k Hk. change (rv_slot (rv_emit _ _ (release_slot j r)) k) with (rv_slot (release_slot j r) k) in *.
      rewrite (release_slot_get next) in * by done. by apply Hhi.
    + lia.
    + exists rc, r', c', next'. split_and!; try done; try lia; try apply G6.
      * eapply setup_trans; [apply release_setup|exact G4].
      * intros i Hi'. apply G5. by apply release_done.
Qed.

Lemma recv_ok_complete next r :
  recv_ok next r -> rv_end_seen r = true -> rv_next_emit_segment r = rv_end_segment_count r ->
  recv_ok next (rv_emit (rv_next_emit_segment r) true r).
Proof using Type.
  intros Hr He Hn. rewrite (ro_end _ _ _ _ Hr He), (ro_next _ _ _ _ Hr) in Hn. destruct Hr. split; try done. cbn. intros _. split; [done|lia].
Qed.

(** [emit_ready_segments] leaves nothing waiting unless the output callback fails. *)
Lemma emit_ready_ok next r c :
  recv_ok next r -> W next (is_done next r) c ->
  exists rc r' c' next', emit_ready_segments output r c = Some (rc, r', c') /\ recv_ok next' r' /\
    (next <= next')%nat /\ W next' (is_done next' r') c' /\ same_setup r r' /\
    (forall i, is_done next r i -> is_done next' r' i) /\ (rc = 0 -> settled next' r') /\ (rc = 0 \/ ~ reliable).
Proof using HWout HWmono Hcount Hrout.
  intros Hr HW. unfold emit_ready_segments. pose proof (ro_window _ _ _ _ Hr) as Hw. unfold WH_SEGMENT_WINDOW_MAX in Hw.
  destruct (emit_ready_loop_ok (length (rv_slots r)) next (next + Z.to_nat (rv_window r)) r c Hr HW)
    as (rc & r1 & c1 & n1 & E & G1 & G2 & G3 & G4 & G5 & G6 & G7).
  { intros j Hj. destruct (slot_in_use _ _ _ _ _ Hr Hj) as (i & _ & _ & Hi & -> & _). lia. }
  { rewrite (ro_slots _ _ _ _ Hr). lia. }
  rewrite E. destruct G7 as [->|[-> Hnr]]; cycle 1.
  { exists (-1), r1, c1, n1. split_and!; try done. by right. }
  destruct (rv_end_seen r1) eqn:Hes; cbn [andb]; cycle 1.
  { exists 0, r1, c1, n1. split_and!; try done; [|by left]. intros _. split; [by apply G6|]. by rewrite Hes. }
  destruct (Z.eqb_spec (rv_next_emit_segment r1) (rv_end_segment_count r1)) as [En|En].
  - exists 0, (rv_emit (rv_next_emit_segment r1) true r1), c1, n1. split_and!; try done; [by apply recv_ok_complete|eapply setup_trans; [exact G4|done]| |by left].
    intros _. split; [by apply G6|done].
  - exists 0, r1, c1, n1. split_and!; try done; [|by left]. intros _. split; [by apply G6|]. intros _ ->.
    by rewrite (ro_end _ _ _ _ G1 Hes), (ro_next _ _ _ _ G1) in En.
Qed.

Lemma emit_ready_step next r c :
  recv_ok next r -> W next (is_done next r) c -> step_ok next r (emit_ready_segments output r c).
Proof using HWout HWmono Hcount Hrout.
  intros Hr HW. destruct (emit_ready_ok next r c Hr HW) as (rc & r' & c' & n' & H). exists rc, r', c', n'. split_and!; try apply H.
  intros Hrel _. destruct H as (_ & _ & _ & _ & _ & _ & H & [Hrc|]); [by apply H|done].
Qed.

(** ** Acknowledgements *)

Lemma counts_self r : rv_counts (rv_ahead_window_drops r) (rv_recover_count r) (rv_ack_count r) r = r.
Proof using Type. by destruct r. Qed.

(** Only the number of acknowledgements changes. *)
Lemma return_ack_ok next r c origin i bytes rc r' c' :
  recv_ok next r -> W next (is_done next r) c -> is_done next r i -> (i < length segs)%nat ->
  in_range 8 origin -> in_range 32 bytes ->
  emit_return_ack ack origin (Z.of_nat i) bytes r c = (rc, r', c') ->
  W next (is_done next r) c' /\ (rc = 0 \/ ~ reliable) /\
  exists n, r' = rv_counts (rv_ahead_window_drops r) (rv_recover_count r) n r.
Proof using HWack Hrack Hcount.
  intros Hr HW Hi Hlt Hor Hby. unfold emit_return_ack. destruct ack as [f|] eqn:Hack; cycle 1.
  { intros [= <- <- <-]. split; [done|]. split; [by left|]. exists (rv_ack_count r). by rewrite counts_self. }
  destruct (origin =? 0). { intros [= <- <- <-]. split; [done|]. split; [by left|]. exists (rv_ack_count r). by rewrite counts_self. }
  destruct (f _ c) as [rc1 c1] eqn:Hf. intros [= <- <- <-]. split; [|split].
  - eapply HWack; [done|exact Hi| |exact HW|exact Hf]. split_and!; try done; [cbn; apply (ro_flow _ _ _ _ Hr)|].
    destruct (ro_widths _ _ _ _ Hr) as (? & ? & ?). unfold header_ok. cbn. unfold WIRE_TYPE_ACK, WIRE_FLAG_RETURN_PATH, in_range in *. split_and!; lia.
  - destruct (Z.eqb_spec rc1 0) as [|Hne]; [by left|right]. intros Hrel. apply Hne. rewrite <- (Hrack Hrel f (ack_header r origin (Z.of_nat i) bytes) c eq_refl). by rewrite Hf.
  - case_match; [by eexists|]. exists (rv_ack_count r). by rewrite counts_self.
Qed.

Lemma is_done_set next r j s i :
  (j < length (rv_slots r))%nat ->
  (recovered (rv_slot r j) -> recovered s /\ sl_segment_id s = sl_segment_id (rv_slot r j)) ->
  is_done next r i -> is_done next (rv_set_slot j s r) i.
Proof using Type.
  intros Hj Hs [H|(k & H1 & H2)]; [by left|right]. exists k. rewrite rv_slot_set by done.
  case_decide; [subst|done]. destruct (Hs H1) as [H3 H4]. by rewrite H4.
Qed.

Lemma seg_bytes i seg : segs !! i = Some seg -> in_range 32 (Z.of_nat (length seg)).
Proof using Hscfg Hsegs.
  intros Hi. pose proof (seg_ok scfg segs Hsegs i seg Hi) as Hseg. pose proof (co_bytes _ Hscfg) as Hcb.
  unfold segment_ok, WH_PACKET_SIZE, in_range in *. lia.
Qed.

(** A recovered segment is acknowledged again. *)
Lemma emit_ack_ok next r c j :
  recv_ok next r -> W next (is_done next r) c -> recovered (rv_slot r j) ->
  exists rc r' c', emit_ack ack j r c = (rc, r', c') /\ recv_ok next r' /\ W next (is_done next r') c' /\
    same_setup r r' /\ (forall i, is_done next r i -> is_done next r' i) /\ (settled next r -> settled next r') /\
    (rc = 0 \/ ~ reliable).
Proof using HWack HWmono Hcount Hrack Hscfg Hsegs.
  intros Hr HW Hj. pose proof (recovered_not_empty _ Hj) as Hne. pose proof (rv_slot_lt r j Hne) as Hlt.
  unfold emit_ack. destruct (sl_ack_requested _); cbn [negb]; cycle 1.
  { exists 0, r, c. split_and!; try done. by left. }
  destruct (ro_holds _ _ _ _ Hr j) as [|(i0 & seg0 & Hi0 & _ & _ & Hbytes & _)]; [done|].
  assert (Hby : in_range 32 (sl_segment_bytes (rv_slot r j))) by (rewrite Hbytes; by eapply seg_bytes).
  destruct (slot_in_use _ _ _ _ _ Hr Hne) as (i & seg & Hi & _ & Hid & Hjw). rewrite Hid.
  destruct (emit_return_ack _ _ _ _ _ _) as [[rc r1] c1] eqn:Hret.
  destruct (return_ack_ok next r c _ i _ _ _ _ Hr HW ltac:(right; by exists j)
    (lookup_lt_Some _ _ _ Hi) (ro_origin _ _ _ _ Hr j) Hby Hret) as (HW1 & Hrc1 & n & ->).
  set (r1 := rv_counts _ _ n r). pose proof (recv_ok_counts segs flow next r (rv_ahead_window_drops r) (rv_recover_count r) n Hr) as Hr1.
  fold r1 in Hr1. destruct (Z.eqb_spec rc 0) as [->|]; cbn [negb]; cycle 1.
  { exists (-1), r1, c1. destruct Hrc1; [done|]. split_and!; try done. by right. }
  assert (Hsame : forall i', is_done next r i' -> is_done next (rv_set_slot j (sl_acked (rv_slot r1 j)) r1) i').
  { intros i' Hi'. apply is_done_set; [done|done|exact Hi']. }
  exists 0, (rv_set_slot j (sl_acked (rv_slot r1 j)) r1), c1. split_and!; try done.
  - apply recv_ok_set; try done.
    + destruct (ro_holds _ _ _ _ Hr1 j) as [|(i' & seg' & H)]; [done|]. right. exists i', seg'. exact H.
    + apply (ro_origin _ _ _ _ Hr j).
    + intros k Hk _ Hk2 E. apply Hk. by apply (ro_distinct _ _ _ _ Hr1).
  - by eapply HWmono.
  - intros [H1 H2]. split; [|exact H2]. intros k. rewrite rv_slot_set by done. case_decide; [subst|]; apply H1.
Qed.

(** ** Decoding *)

Context (alloc : bool).

(** Slot [j] collects segment [i]. *)
Definition collects (r : WirehairSegmentReceiver) (j i : nat) : Prop :=
  sl_state (rv_slot r j) = WH_SEG_SLOT_COLLECTING /\ sl_segment_id (rv_slot r j) = Z.of_nat i /\
  (j < Z.to_nat (rv_window r))%nat.

(** A collecting slot is changed without being finished. *)
Lemma collect_set next r c j i s :
  recv_ok next r -> W next (is_done next r) c -> collects r j i ->
  slot_holds segs next (Z.to_nat (rv_window r)) s -> in_range 8 (sl_source_origin s) ->
  sl_state s = WH_SEG_SLOT_COLLECTING -> sl_segment_id s = Z.of_nat i ->
  let r' := rv_set_slot j s r in
  recv_ok next r' /\ W next (is_done next r') c /\ same_setup r r' /\
  (forall i, is_done next r i -> is_done next r' i) /\ (settled next r -> settled next r') /\ rv_slot r' j = s.
Proof using HWmono.
  intros Hr HW (Hst & Hid & Hjw) Hs Hor Hss Hsid r'. pose proof (ro_window _ _ _ _ Hr) as Hw. unfold WH_SEGMENT_WINDOW_MAX in Hw.
  assert (Hlt : (j < length (rv_slots r))%nat) by (rewrite (ro_slots _ _ _ _ Hr); lia).
  assert (Hne : ~ empty (rv_slot r j)) by (unfold empty; by rewrite Hst).
  assert (Hnr : ~ recovered (rv_slot r j)) by (unfold recovered; by rewrite Hst).
  assert (Hnr' : ~ recovered s) by (unfold recovered; by rewrite Hss).
  assert (Hmono : forall i, is_done next r i -> is_done next r' i) by (intros i'; by apply is_done_set).
  split_and!; try done.
  - apply recv_ok_set; try done. intros k Hk _ Hk2 E. apply Hk. apply (ro_distinct _ _ _ _ Hr); try done. congruence.
  - by eapply HWmono.
  - intros [H1 H2]. split; [|exact H2]. intros k. unfold r'. rewrite rv_slot_set by done. case_decide; [done|apply H1].
  - by apply rv_slot_set_eq.
Qed.

(** The segment is complete: it is acknowledged and what is in order is handed out. *)
Lemma finish_ok next r c j i seg :
  recv_ok next r -> W next (is_done next r) c -> collects r j i -> segs !! i = Some seg ->
  sl_recovered (rv_slot r j) = Some (message_of seg) ->
  step_ok next r
    (let r := rv_set_slot j (sl_done (rv_slot r j)) r in
     let r := mark_recovered (sl_segment_id (rv_slot r j)) r in
     let '(rc, r, c) := emit_ack ack j r c in
     if negb (rc =? 0) then Some (-1, r, c) else emit_ready_segments output r c).
Proof using HWack HWmono HWout Hcount Hrout Hrack Hscfg Hsegs.
  intros Hr HW (Hst & Hid & Hjw) Hi Hmsg. pose proof (ro_window _ _ _ _ Hr) as Hw. unfold WH_SEGMENT_WINDOW_MAX in Hw.
  assert (Hlt : (j < length (rv_slots r))%nat) by (rewrite (ro_slots _ _ _ _ Hr); lia). cbn zeta.
  rewrite rv_slot_set_eq by done. cbn [sl_segment_id sl_done].
  pose proof (recv_ok_recovered segs flow next r j seg Hr Hjw Hst) as Hr1. cbn zeta in Hr1.
  rewrite Hid, Nat2Z.id in Hr1. specialize (Hr1 Hi Hmsg). rewrite Hid.
  set (r1 := mark_recovered _ _) in *.
  assert (Hj1 : rv_slot r1 j = sl_done (rv_slot r j)) by (change (rv_slot r1 j) with (rv_slot (rv_set_slot j (sl_done (rv_slot r j)) r) j); by apply rv_slot_set_eq).
  assert (Hmono : forall i', is_done next r i' -> is_done next r1 i').
  { intros i' H. change (is_done next (rv_set_slot j (sl_done (rv_slot r j)) r) i'). apply is_done_set; [done| |done].
    unfold recovered. by rewrite Hst. }
  assert (HW1 : W next (is_done next r1) c) by (by eapply HWmono).
  destruct (emit_ack_ok next r1 c j Hr1 HW1) as (rc & r2 & c2 & E & G1 & G2 & G3 & G4 & _ & G5); [by rewrite Hj1|].
  rewrite E. assert (Hset : same_setup r r2) by (eapply setup_trans; [|exact G3]; done).
  destruct (Z.eqb_spec rc 0) as [->|]; cbn [negb].
  - destruct (emit_ready_ok next r2 c2 G1 G2) as (rc & r' & c' & n' & F1 & F2 & F3 & F4 & F5 & F6 & F7 & F8).
    exists rc, r', c', n'. split_and!; try done; auto; [eauto|intros Hrel _; by destruct F8; [apply F7|]].
  - exists (-1), r2, c2, next. split_and!; try done; auto. intros Hrel. by destruct G5.
Qed.

(** A packet of segment [i] for the decoder of its slot. *)
Lemma decode_packet_ok next r c j i seg id p :
  recv_ok next r -> W next (is_done next r) c -> collects r j i -> segs !! i = Some seg ->
  0 <= id < limit_of scfg (Z.of_nat (length seg)) -> packet_of seg id = Some p ->
  step_ok next r
    (decode_packet output ack j (packet_header (target_of scfg seg flow (Z.of_nat i) dst ttl) id (Z.of_nat (length p))) p r c).
Proof using FountainCode0 HWack HWmono HWout Hcount Hscfg Hsegs Hrout Hrack.
  intros Hr HW Hcol Hi Hid Hp. pose proof Hcol as (Hst & Hsid & Hjw).
  destruct (packet_header_fields scfg Hscfg segs Hsegs flow dst ttl i seg id p Hi Hid Hp) as (F1 & _).
  pose proof (seg_ok scfg segs Hsegs i seg Hi) as Hseg. pose proof (co_bytes _ Hscfg) as Hcb.
  destruct (ro_holds _ _ _ _ Hr j) as [He|(i' & seg' & G1 & G2 & G3 & G4 & G5 & G6)]; [unfold empty in He; by rewrite Hst in He|].
  assert (i' = i) as -> by lia. rewrite Hi in G1. injection G1 as <-. rewrite Hst in G6.
  destruct G6 as (d0 & pkts & D1 & D2 & D3). unfold decode_packet. rewrite D3, F1.
  destruct (wirehair_decode (feed d0 pkts) id p) as [res d] eqn:Hdec.
  assert (Hfeed : d = feed d0 (pkts ++ [(id, p)])) by (unfold feed; rewrite foldl_app; cbn; fold (feed d0 pkts); by rewrite Hdec).
  assert (Hpk : genuine_packets seg (pkts ++ [(id, p)])).
  { apply list.Forall_app. split; [done|]. apply list.Forall_singleton. split; [cbn; lia|done]. }
  destruct (collect_set next r c j i (sl_fed d (rv_slot r j)) Hr HW Hcol) as (H1 & H2 & H3 & H4 & H5 & H6); try done.
  { right. exists i, seg. cbn. rewrite Hst. split_and!; try done; try lia. exists d0, (pkts ++ [(id, p)]). by rewrite Hfeed. }
  { apply (ro_origin _ _ _ _ Hr j). }
  set (r1 := rv_set_slot j (sl_fed d (rv_slot r j)) r) in *.
  assert (Hother : forall rc, step_ok next r (Some (rc, r1, c))).
  { intros rc. exists rc, r1, c, next. by split_and!. }
  destruct res; try apply Hother.
  rewrite H6. cbn [sl_codec_bytes sl_fed]. rewrite G5.
  assert (Hrec : wirehair_recover d (codec_len seg) = (Wirehair_Success, message_of seg)).
  { unfold segment_ok in Hseg. apply (fc_recover seg pkts id p d0 d); try done; lia. }
  rewrite Hrec. rewrite bool_decide_eq_true_2 by done. cbn [negb].
  assert (Hcol1 : collects r1 j i) by (split_and!; [by rewrite H6|by rewrite H6|done]).
  destruct (collect_set next r1 c j i (sl_written (message_of seg) (sl_fed d (rv_slot r j))) H1 H2 Hcol1)
    as (K1 & K2 & K3 & K4 & K5 & K6); try done.
  { right. exists i, seg. cbn. rewrite Hst. split_and!; try done; try lia. exists d0, (pkts ++ [(id, p)]). by rewrite Hfeed. }
  { apply (ro_origin _ _ _ _ Hr j). }
  set (r2 := rv_set_slot j (sl_written (message_of seg) (sl_fed d (rv_slot r j))) r1) in *.
  set (r3 := rv_counts (rv_ahead_window_drops r2) (u64 (rv_recover_count r2 + 1)) (rv_ack_count r2) r2).
  apply (step_trans next r next r3); [lia| | | |]; [eapply setup_trans; [exact H3|]; eapply setup_trans; [exact K3|done]|intros x Hx; exact (K4 x (H4 x Hx))|intros Hx; exact (K5 (H5 Hx))|].
  apply (finish_ok next r3 c j i seg); [by apply recv_ok_counts|exact K2| |done|].
  - split_and!; [change (rv_slot r3 j) with (rv_slot r2 j); by rewrite K6..|done].
  - change (rv_slot r3 j) with (rv_slot r2 j). by rewrite K6.
Qed.

Lemma slot_packet_ok next r c j i seg id p :
  recv_ok next r -> W next (is_done next r) c -> ~ empty (rv_slot r j) -> (j < Z.to_nat (rv_window r))%nat ->
  sl_segment_id (rv_slot r j) = Z.of_nat i -> segs !! i = Some seg ->
  0 <= id < limit_of scfg (Z.of_nat (length seg)) -> packet_of seg id = Some p ->
  step_ok next r
    (slot_packet output ack j (packet_header (target_of scfg seg flow (Z.of_nat i) dst ttl) id (Z.of_nat (length p))) p r c).
Proof using FountainCode0 HWack HWmono HWout Hcount Hscfg Hsegs Hrout Hrack.
  intros Hr HW Hne Hjw Hsid Hi Hid Hp. unfold slot_packet. case_match; [by apply step_here|].
  case_bool_decide as Hrec.
  - destruct (emit_ack_ok next r c j Hr HW Hrec) as (rc & r' & c' & -> & G). exists rc, r', c', next. split_and!; try done; try apply G. intros _. apply G.
  - apply decode_packet_ok; try done. split_and!; try done.
    unfold empty in Hne. destruct (sl_state (rv_slot r j)); done.
Qed.

(** A new slot for a segment of the window. *)
Lemma allocate_slot_ok next r c i seg id p :
  recv_ok next r -> W next (is_done next r) c -> segs !! i = Some seg ->
  0 <= id < limit_of scfg (Z.of_nat (length seg)) -> packet_of seg id = Some p ->
  (next <= i < next + Z.to_nat (rv_window r))%nat -> find_slot r (Z.of_nat i) = None ->
  match allocate_slot alloc (packet_header (target_of scfg seg flow (Z.of_nat i) dst ttl) id (Z.of_nat (length p))) r with
  | (None, r') => step_ok next r (Some (0, r', c))
  | (Some j, r') =>
      recv_ok next r' /\ W next (is_done next r') c /\ same_setup r r' /\
      (forall i, is_done next r i -> is_done next r' i) /\ (settled next r -> settled next r') /\
      ~ empty (rv_slot r' j) /\ (j < Z.to_nat (rv_window r'))%nat /\ sl_segment_id (rv_slot r' j) = Z.of_nat i
  end.
Proof using HWmono Hscfg Hsegs.
  intros Hr HW Hi Hid Hp Hwin Hnone. unfold allocate_slot. destruct (negb (header_geometry_ok _ _)); [by apply step_here|].
  destruct (first_slot _ r) as [j|] eqn:Hf; [|by apply step_here]. apply first_slot_some in Hf as [Hjw Hemp].
  apply bool_decide_eq_true in Hemp. pose proof (ro_window _ _ _ _ Hr) as Hw. unfold WH_SEGMENT_WINDOW_MAX in Hw.
  assert (Hlt : (j < length (rv_slots r))%nat) by (rewrite (ro_slots _ _ _ _ Hr); lia).
  assert (Hnr : ~ recovered (rv_slot r j)) by (unfold recovered; by rewrite Hemp).
  assert (Hset : forall s, ~ recovered s -> slot_holds segs next (Z.to_nat (rv_window r)) s -> (~ empty s -> sl_segment_id s = Z.of_nat i) ->
    in_range 8 (sl_source_origin s) -> let r' := rv_set_slot j s r in
    recv_ok next r' /\ W next (is_done next r') c /\ same_setup r r' /\
    (forall i, is_done next r i -> is_done next r' i) /\ (settled next r -> settled next r') /\ rv_slot r' j = s).
  { intros s Hs Hh Hsid Hor r'. assert (Hm : forall i, is_done next r i -> is_done next r' i) by (intros i'; by apply is_done_set).
    split_and!; try done; [|by eapply HWmono| |by apply rv_slot_set_eq].
    - apply recv_ok_set; try done. intros k Hk Hse Hke. rewrite (Hsid Hse).
      destruct (slot_in_use _ _ _ _ _ Hr Hke) as (_ & _ & _ & _ & _ & Hkw). by destruct (find_slot_none _ _ k Hnone Hkw).
    - intros [H1 H2]. split; [|exact H2]. intros k. unfold r'. rewrite rv_slot_set by done. case_decide; [done|apply H1]. }
  assert (Hfail : release_slot j r = rv_set_slot j slot_zero r) by (unfold release_slot; by rewrite bool_decide_eq_true_2).
  assert (Hzero : step_ok next r (Some (0, release_slot j r, c))).
  { rewrite Hfail. destruct (Hset slot_zero) as (A1 & A2 & A3 & A4 & A5 & _); [done|by left|done|done|].
    exists 0, (rv_set_slot j slot_zero r), c, next. by split_and!. }
  cbn [wh_segment_bytes packet_header target_of tg_data_len].
  destruct (wirehair_decoder_create _) as [d0|] eqn:Hd0; [|done]. destruct alloc; [|done].
  set (s := mkSlot _ _ _ _ _ _ _ _ _ _). destruct (Hset s) as (A1 & A2 & A3 & A4 & A5 & A6); [done| |done|cbn; destruct (config_ok_facts scfg Hscfg) as (_ & _ & Ho & _); unfold in_range; lia|].
  - right. exists i, seg. cbn. split_and!; try done; try lia. exists d0, []. split_and!; [exact Hd0|constructor|done].
  - split_and!; try done; by rewrite A6.
Qed.

(** ** One call *)

(** A packet of a segment in or behind the window, or the end. *)
Definition in_reach (next : nat) (r : WirehairSegmentReceiver) (h : WireHeader) : Prop :=
  wh_type h = WIRE_TYPE_END \/ wh_block_id h < Z.of_nat next + rv_window r.

Lemma ingest_ok next r c h payload :
  recv_ok next r -> W next (is_done next r) c -> genuine h payload -> in_reach next r h ->
  (wh_type h = WIRE_TYPE_END -> ended) -> step_ok next r (wirehair_segment_receiver_ingest output ack alloc h payload r c).
Proof using FountainCode0 HWack HWmono HWout Hcount Hscfg Hsegs Hrout Hrack.
  intros Hr HW Hg Hreach Hended. pose proof (ro_window _ _ _ _ Hr) as Hw. unfold WH_SEGMENT_WINDOW_MAX in Hw.
  unfold wirehair_segment_receiver_ingest. destruct Hg as [i seg id p Hi Hid Hp|h payload Hv Hfl Hty Hbl].
  - destruct (packet_header_fields scfg Hscfg segs Hsegs flow dst ttl i seg id p Hi Hid Hp) as (F1 & F2 & F3 & F4 & F5).
    set (h := packet_header _ _ _) in *. pose proof (lookup_lt_Some _ _ _ Hi) as Hlt.
    change (wh_version h) with WIRE_VERSION_V4. change (wh_flow_id h) with flow. rewrite (ro_flow _ _ _ _ Hr), !Z.eqb_refl.
    change (wh_type h) with WIRE_TYPE_DATA. change (WIRE_TYPE_DATA =? WIRE_TYPE_END) with false.
    change (WIRE_TYPE_DATA =? WIRE_TYPE_DATA) with true. change (wh_block_id h) with (Z.of_nat i).
    rewrite (ro_next _ _ _ _ Hr). cbn [negb orb andb].
    destruct (Z.ltb_spec (Z.of_nat i) (Z.of_nat next)) as [Hlate|Hahead].
    { destruct (_ && _); [|by apply step_here].
      assert (Horg : in_range 8 (wh_origin_node h)).
      { cbn. destruct (config_ok_facts scfg Hscfg) as (_ & _ & Ho & _). unfold in_range. lia. }
      destruct (emit_return_ack _ _ _ _ _ _) as [[rc r1] c1] eqn:Hret.
      destruct (return_ack_ok next r c _ i _ _ _ _ Hr HW ltac:(left; lia) ltac:(lia) Horg (seg_bytes i seg Hi) Hret) as (HW1 & Hrc1 & n & ->).
      exists rc, (rv_counts (rv_ahead_window_drops r) (rv_recover_count r) n r), c1, next.
      split_and!; try done. by apply recv_ok_counts. }
    rewrite F1, F2, F3. rewrite (proj2 (Z.eqb_neq (Z.of_nat (length p)) 0)), Z.eqb_refl, Z.gtb_ltb, (proj2 (Z.ltb_ge WH_PACKET_SIZE _)),
      (proj2 (Z.eqb_neq (wh_origin_node h) 0)), (proj2 (Z.eqb_neq (limit_of _ _) 0)), !Z.geb_leb, (proj2 (Z.leb_gt (limit_of _ _) id)) by lia.
    cbn [negb orb].
    assert (Hin : Z.of_nat i < Z.of_nat next + rv_window r) by (destruct Hreach as [Hr1|Hr1]; [done|exact Hr1]).
    unfold u64. rewrite uwrap_small by (unfold in_range; lia). rewrite (proj2 (Z.leb_gt (rv_window r) _)) by lia.
    destruct (find_slot r (Z.of_nat i)) as [j|] eqn:Hf.
    { apply find_slot_some in Hf as (Hjw & Hne & Hsid). by apply (slot_packet_ok next r c j i seg). }
    case_match; [by apply step_here|].
    pose proof (allocate_slot_ok next r c i seg id p Hr HW Hi Hid Hp ltac:(lia) Hf) as Hal. fold h in Hal.
    destruct (allocate_slot _ _ _) as [[j|] r1]; [|done]. destruct Hal as (A1 & A2 & A3 & A4 & A5 & A6 & A7 & A8).
    apply (step_trans next r next r1); try done. by apply slot_packet_ok.
  - rewrite Hv, Hfl, (ro_flow _ _ _ _ Hr), !Z.eqb_refl, Hty, Hbl. cbn [negb orb].
    change (WIRE_TYPE_END =? WIRE_TYPE_END) with true. cbn iota.
    destruct (emit_ready_ok next (rv_end (Z.of_nat (length segs)) r) c) as (rc & r' & c' & n' & E & G1 & G2 & G3 & G4 & G5 & G6 & G7).
    { by apply recv_ok_end. } { exact HW. }
    exists rc, r', c', n'. split_and!; try done; [|intros Hrel _; destruct G7; [by apply G6|done]].
    destruct G4. split; try done. intros _. right. auto.
Qed.

(** A packet ahead of the window is dropped. *)
Lemma ingest_ahead next r c h payload :
  recv_ok next r -> genuine h payload -> ~ in_reach next r h ->
  wirehair_segment_receiver_ingest output ack alloc h payload r c =
  Some (0, rv_counts (u64 (rv_ahead_window_drops r + 1)) (rv_recover_count r) (rv_ack_count r) r, c).
Proof using Hscfg Hsegs Hcount.
  intros Hr Hg Hreach. unfold in_reach in Hreach. pose proof (ro_window _ _ _ _ Hr) as Hw. unfold WH_SEGMENT_WINDOW_MAX in Hw.
  destruct Hg as [i seg id p Hi Hid Hp|h payload Hv Hfl Hty Hbl]; [|by rewrite Hty in Hreach; tauto].
  destruct (packet_header_fields scfg Hscfg segs Hsegs flow dst ttl i seg id p Hi Hid Hp) as (F1 & F2 & F3 & F4 & F5).
  set (h := packet_header _ _ _) in *. pose proof (lookup_lt_Some _ _ _ Hi) as Hlt. unfold wirehair_segment_receiver_ingest.
  change (wh_version h) with WIRE_VERSION_V4. change (wh_flow_id h) with flow. rewrite (ro_flow _ _ _ _ Hr), !Z.eqb_refl.
  change (wh_type h) with WIRE_TYPE_DATA in *. change (WIRE_TYPE_DATA =? WIRE_TYPE_END) with false.
  change (WIRE_TYPE_DATA =? WIRE_TYPE_DATA) with true. change (wh_block_id h) with (Z.of_nat i) in *.
  rewrite (ro_next _ _ _ _ Hr). cbn [negb orb andb]. rewrite (proj2 (Z.ltb_ge (Z.of_nat i) (Z.of_nat next))) by lia.
  rewrite F1, F2, F3. rewrite (proj2 (Z.eqb_neq (Z.of_nat (length p)) 0)), Z.eqb_refl, Z.gtb_ltb, (proj2 (Z.ltb_ge WH_PACKET_SIZE _)),
    (proj2 (Z.eqb_neq (wh_origin_node h) 0)), (proj2 (Z.eqb_neq (limit_of _ _) 0)), !Z.geb_leb, (proj2 (Z.leb_gt (limit_of _ _) id)) by lia.
  cbn [negb orb]. unfold u64 at 1. rewrite uwrap_small by (unfold in_range; lia).
  by rewrite (proj2 (Z.leb_le (rv_window r) _)) by lia.
Qed.

End Run.
