(* ===== verification/WirehairSenderSpec.v ===== *)
(** * The sliding-window sender against the segments it was given

    [segs] are the segments admitted so far, [A] the segments an acknowledgement has come for, and
    [f] counts the packets the emit callback has taken of each.  Every call keeps [sender_ok]: the
    segments in flight are the last ones, at most a window of them, each in the slot of its id and
    with an encoder for exactly its data, and no segment has left the window unacknowledged. *)

From Stdlib Require Import Strings.Byte.
From S2P Require Import Prelude WireHeader WirehairSegment WirehairSender WirehairSegmentSpec.

Local Open Scope Z_scope.

(** ** Slots and the table of acknowledgements *)

Section Slots.
Context `{wh : Wirehair}.
Implicit Types s : WirehairSegmentSender.

Lemma sr_slot_set s i sl j :
  (i < length (sr_slots s))%nat -> sr_slot (sr_set_slot i sl s) j = if decide (i = j) then sl else sr_slot s j.
Proof.
  intros Hi. unfold sr_slot. cbn. rewrite !nth_lookup. case_decide as E.
  - subst. by rewrite list_lookup_insert_eq.
  - by rewrite list_lookup_insert_ne.
Qed.

Lemma ack_index_lt id : (ack_index id < 16)%nat.
Proof. unfold ack_index, WH_SEGMENT_WINDOW_MAX. pose proof (Z.mod_pos_bound id 16). lia. Qed.

Lemma ack_contains_mark s id id' srtt :
  length (sr_ack_ids s) = 16%nat ->
  ack_contains (sr_set_acks (<[ack_index id := id]> (sr_ack_ids s)) (<[ack_index id := true]> (sr_ack_valid s)) srtt s)
    id' = true ->
  id = id' \/ ack_contains s id' = true.
Proof.
  intros Hl. pose proof (ack_index_lt id). unfold ack_contains. cbn. rewrite !nth_lookup, !andb_true_iff, !Z.eqb_eq.
  destruct (decide (ack_index id = ack_index id')) as [E|E].
  - rewrite <- E. rewrite (list_lookup_insert_eq (sr_ack_ids s)) by lia. cbn. intros [_ H1]. by left.
  - rewrite !list_lookup_insert_ne by done. by right.
Qed.

Lemma ack_contains_clear s id id' : ack_contains (ack_clear id s) id' = true -> ack_contains s id' = true.
Proof.
  unfold ack_clear. destruct (ack_contains s id); [|done]. unfold ack_contains. cbn.
  rewrite !nth_lookup, !andb_true_iff. intros [H1 H2]. split; [|done].
  destruct (decide (ack_index id = ack_index id')) as [E|E]; [|by rewrite list_lookup_insert_ne in H1].
  destruct (decide (ack_index id < length (sr_ack_valid s))%nat).
  - by rewrite <- E, list_lookup_insert_eq in H1.
  - rewrite list_insert_ge in H1 by lia. exact H1.
Qed.

End Slots.

(** ** The invariant *)

Section Sender.
Context `{host : HostOrder} `{wh : Wirehair}.
Context (cfg : WirehairSegmentConfig) (Hcfg : config_ok cfg) (flow dst ttl : Z).

Abbreviation w := (wirehair_segment_window (Some cfg)).

Implicit Types (s : WirehairSegmentSender) (A : nat -> Prop) (f : nat -> Z) (segs : list (list byte)).

(** The slot of a segment. *)
Definition place (id : nat) : nat := Z.to_nat (Z.of_nat id mod w).

Lemma w_range : 1 <= w <= 16.
Proof using Hcfg. destruct (config_ok_facts cfg Hcfg) as (_ & _ & _ & _ & _ & H & _). exact H. Qed.

Lemma place_lt id : (place id < Z.to_nat w)%nat.
Proof using Hcfg. pose proof w_range. unfold place. pose proof (Z.mod_pos_bound (Z.of_nat id) w). lia. Qed.

Lemma place_inj b id id' :
  place id = place id' -> (b <= id < b + Z.to_nat w)%nat -> (b <= id' < b + Z.to_nat w)%nat -> id = id'.
Proof using Hcfg.
  pose proof w_range as Hw. unfold place. intros E H1 H2.
  pose proof (Z.mod_pos_bound (Z.of_nat id) w ltac:(lia)) as B1. pose proof (Z.mod_pos_bound (Z.of_nat id') w ltac:(lia)) as B2.
  pose proof (Z.div_mod (Z.of_nat id) w ltac:(lia)) as D1. pose proof (Z.div_mod (Z.of_nat id') w ltac:(lia)) as D2.
  set (q := Z.of_nat id / w) in *. set (q' := Z.of_nat id' / w) in *. assert (q = q') as Eq by nia. lia.
Qed.

(** Segment [id] in its slot. *)
Record in_slot segs A f (id : nat) (sl : WirehairSegmentSenderSlot) : Prop := {
  is_active : sd_active sl = true;
  is_id : sd_segment_id sl = Z.of_nat id;
  is_acked : sd_acked sl = true -> A id;
  is_tx : exists seg tx, segs !! id = Some seg /\ segment_ok cfg seg /\ sd_tx sl = Some tx /\
    tx_ok cfg seg flow (Z.of_nat id) dst ttl tx /\ f id = tx_next_packet_id tx }.

Record sender_ok segs A f (base : nat) s : Prop := {
  sk_config : sr_config s = cfg;
  sk_flow : sr_flow_id s = flow;
  sk_dst : sr_final_dst s = dst;
  sk_ttl : sr_ttl s = ttl;
  sk_window : sr_window s = w;
  sk_slots : length (sr_slots s) = Z.to_nat w;
  sk_ids : length (sr_ack_ids s) = 16%nat;
  sk_base : sr_base_segment s = Z.of_nat base;
  sk_next : sr_next_segment_id s = Z.of_nat (length segs);
  sk_order : (base <= length segs <= base + Z.to_nat w)%nat;
  sk_small : Z.of_nat (length segs) < 2 ^ 63;
  sk_count : sr_active_count s = Z.of_nat (length segs - base);
  sk_flight id : (base <= id < length segs)%nat -> in_slot segs A f id (sr_slot s (place id));
  sk_free j : (forall id, (base <= id < length segs)%nat -> place id <> j) -> sr_slot s j = sender_slot_zero;
  sk_table id : ack_contains s (Z.of_nat id) = true -> A id;
  sk_done id : (id < base)%nat -> A id;
  sk_future id : (length segs <= id)%nat -> f id = 0;
  sk_end : sr_end_emitted s = true -> sr_input_finished s = true /\ base = length segs }.

(** Fields outside the window do not matter. *)
Lemma sender_ok_repair segs A f base s a b :
  sender_ok segs A f base s -> sender_ok segs A f base (sr_set_repair a b s).
Proof using Type. intros []. by split. Qed.

Lemma sender_ok_fail segs A f base s b :
  sender_ok segs A f base s ->
  sender_ok segs A f base (sr_set_flags (sr_input_finished s) (sr_end_emitted s) true b s).
Proof using Type. intros []. by split. Qed.

Lemma sender_ok_finish segs A f base s :
  sender_ok segs A f base s -> sender_ok segs A f base (wirehair_segment_sender_mark_input_finished s).
Proof using Type. intros []. split; try done. cbn. intros H. split; [done|]. by apply sk_end0. Qed.

Lemma sender_ok_srtt segs A f base s srtt :
  sender_ok segs A f base s -> sender_ok segs A f base (sr_set_acks (sr_ack_ids s) (sr_ack_valid s) srtt s).
Proof using Type. intros []. by split. Qed.

Lemma sender_ok_mono segs A A' f base s :
  (forall id, A id -> A' id) -> sender_ok segs A f base s -> sender_ok segs A' f base s.
Proof using Type.
  intros HA []. split; try done; auto. intros id Hid. destruct (sk_flight0 id Hid). split; auto.
Qed.

(** A slot in flight is replaced by another for the same segment. *)
Lemma sender_ok_set segs A f f' base s id sl :
  sender_ok segs A f base s -> (base <= id < length segs)%nat -> in_slot segs A f' id sl ->
  (forall id', id' <> id -> f' id' = f id') -> sender_ok segs A f' base (sr_set_slot (place id) sl s).
Proof using Hcfg.
  intros Hs Hid Hin Hf. pose proof (place_lt id) as Hp.
  assert (Hl : (place id < length (sr_slots s))%nat) by (by rewrite (sk_slots _ _ _ _ _ Hs)).
  pose proof (fun j => sr_slot_set s (place id) sl j Hl) as Hget. destruct Hs. split; try done.
  - cbn. by rewrite length_insert.
  - intros id' Hid'. rewrite Hget. case_decide as E.
    + apply (place_inj base) in E; [|lia..]. by subst.
    + assert (id' <> id) by congruence. destruct (sk_flight0 id' Hid') as [H1 H2 H3 H4]. split; try done. by rewrite Hf.
  - intros j Hj. rewrite Hget. case_decide as E; [|by apply sk_free0]. exfalso. by apply (Hj id).
  - intros id' Hid'. rewrite Hf by lia. by apply sk_future0.
Qed.

(** ** Acknowledgements *)

Lemma note_rtt_ok segs A f base s sl now :
  sender_ok segs A f base s -> sender_ok segs A f base (note_ack_rtt sl now s).
Proof using Type. intros Hs. unfold note_ack_rtt. case_match; [done|]. by apply sender_ok_srtt. Qed.

Lemma note_rtt_slots sl now s : sr_slots (note_ack_rtt sl now s) = sr_slots s.
Proof using Type. unfold note_ack_rtt. by case_match. Qed.

(** An active slot is in flight. *)
Lemma active_in_flight segs A f base s j :
  sender_ok segs A f base s -> sd_active (sr_slot s j) = true ->
  exists id, (base <= id < length segs)%nat /\ place id = j /\ sd_segment_id (sr_slot s j) = Z.of_nat id.
Proof using Type.
  intros Hs Hj.
  destruct (decide (Exists (fun id => place id = j) (seq base (length segs - base)))) as [He|He].
  - apply list.Exists_exists in He as (id & Hin & Hp). apply elem_of_seq in Hin. exists id. split; [lia|]. split; [done|].
    subst j. apply (is_id _ _ _ _ _ (sk_flight _ _ _ _ _ Hs id ltac:(lia))).
  - exfalso. rewrite (sk_free _ _ _ _ _ Hs j) in Hj; [done|]. intros id Hid Hp. apply He.
    apply list.Exists_exists. exists id. split; [apply elem_of_seq; lia|done].
Qed.

Lemma apply_ack_ok segs A f base now s j :
  sender_ok segs A f base s -> sender_ok segs A f base (apply_ack now s j).
Proof using Hcfg.
  intros Hs. unfold apply_ack. destruct (_ && _) eqn:Hg; [|done]. rewrite !andb_true_iff in Hg. destruct Hg as ((H1 & _) & H2).
  destruct (active_in_flight _ _ _ _ _ _ Hs H1) as (id & Hid & <- & Hsid). rewrite Hsid in H2.
  unfold sr_upd_slot, sr_slot at 1. rewrite note_rtt_slots. fold (sr_slot s (place id)).
  apply (sender_ok_set segs A f f base); [by apply note_rtt_ok|done| |done].
  destruct (sk_flight _ _ _ _ _ Hs id Hid) as [F1 F2 F3 F4]. split; try done. intros _. by apply (sk_table _ _ _ _ _ Hs).
Qed.

(** The oldest segment leaves the window. *)
Lemma release_base_ok segs A f base s :
  sender_ok segs A f base s -> (base < length segs)%nat -> A base ->
  let s1 := sender_release_slot (place base) (ack_clear (Z.of_nat base) s) in
  sender_ok segs A f (S base)
    (sr_set_window (u64 (sr_base_segment s1 + 1)) (sr_next_segment_id s1) (sr_active_count s1)
       (sr_window_hwm s1) (sr_segments_completed s1) s1) /\
  sr_end_emitted s1 = sr_end_emitted s.
Proof using Hcfg.
  intros Hs Hlt HA s1. pose proof (sk_flight _ _ _ _ _ Hs base ltac:(lia)) as Hin. pose proof (place_lt base) as Hp.
  set (s0 := ack_clear (Z.of_nat base) s) in s1.
  assert (E0 : exists v, s0 = sr_set_acks (sr_ack_ids s) v (sr_srtt_ns s) s).
  { unfold s0, ack_clear. case_match; [by eexists|]. exists (sr_ack_valid s). by destruct s. }
  assert (Ht : forall id, ack_contains s0 id = true -> ack_contains s id = true) by apply ack_contains_clear.
  destruct E0 as [v E0]. clearbody s0. assert (Esl : sr_slot s0 (place base) = sr_slot s (place base)) by (by rewrite E0).
  assert (E1 : exists rounds, s1 = sr_set_window (sr_base_segment s) (sr_next_segment_id s) (u64 (sr_active_count s - 1))
    (sr_window_hwm s) (u64 (sr_segments_completed s + 1))
    (sr_set_slot (place base) sender_slot_zero (sr_set_repair (sr_repair_sent s) rounds s0))).
  { unfold s1, sender_release_slot. rewrite Esl, (is_active _ _ _ _ _ Hin). cbn [negb].
    destruct (is_tx _ _ _ _ _ Hin) as (seg & tx & _ & _ & -> & _). cbn [wirehair_segment_tx_stats option_map].
    rewrite E0. cbn. by eexists. }
  destruct E1 as [rounds ->].
  assert (Hl : (place base < length (sr_slots (sr_set_repair (sr_repair_sent s) rounds s0)))%nat).
  { rewrite E0. cbn. by rewrite (sk_slots _ _ _ _ _ Hs). }
  pose proof (fun j => sr_slot_set _ (place base) sender_slot_zero j Hl) as Hget.
  assert (Hold : forall j, sr_slot (sr_set_repair (sr_repair_sent s) rounds s0) j = sr_slot s j) by (by rewrite E0).
  assert (Hends : sr_end_emitted s = false).
  { destruct (sr_end_emitted s) eqn:He; [|done]. apply (sk_end _ _ _ _ _ Hs) in He as [_ ->]. lia. }
  split; [|by rewrite E0]. destruct Hs. cbn [sr_set_window sr_set_slot sr_set_slots sr_set_repair].
  split; try (rewrite E0; cbn; done).
  - rewrite E0. cbn. by rewrite length_insert.
  - rewrite E0. cbn. unfold u64. rewrite sk_base0, uwrap_small by (unfold in_range; lia). lia.
  - lia.
  - done.
  - rewrite E0. cbn. unfold u64. rewrite sk_count0, uwrap_small by (unfold in_range; lia). lia.
  - intros id Hid. replace (sr_slot _ (place id)) with (sr_slot s (place id)); [apply sk_flight0; lia|].
    rewrite <- (Hold (place id)). symmetry. etransitivity; [apply Hget|]. rewrite decide_False; [done|].
    intros E. apply (place_inj base) in E; lia.
  - intros j Hj. etransitivity; [apply Hget|]. case_decide as E; [done|]. rewrite Hold. apply sk_free0.
    intros id Hid <-. destruct (decide (id = base)) as [->|]; [done|]. apply (Hj id); [lia|done].
  - intros id Hid. apply sk_table0, Ht. exact Hid.
  - intros id Hid. destruct (decide (id = base)) as [->|]; [done|]. apply sk_done0. lia.
  - done.
  - cbn. rewrite E0. cbn. by rewrite Hends.
Qed.

(** Acknowledged segments leave the window in order. *)
Lemma release_acked_ok segs A f turns base s :
  sender_ok segs A f base s ->
  exists base', (base <= base')%nat /\ sender_ok segs A f base' (release_acked_loop turns s) /\
    sr_end_emitted (release_acked_loop turns s) = sr_end_emitted s.
Proof using Hcfg.
  revert base s. induction turns as [|turns IH]; intros base s Hs; cbn [release_acked_loop]; [by exists base|].
  rewrite (sk_count _ _ _ _ _ Hs), Z.gtb_ltb. destruct (Z.ltb_spec 0 (Z.of_nat (length segs - base))); [|by exists base].
  unfold slot_at. rewrite (sk_window _ _ _ _ _ Hs), (sk_base _ _ _ _ _ Hs). fold (place base).
  pose proof (sk_flight _ _ _ _ _ Hs base ltac:(lia)) as Hin. rewrite (is_active _ _ _ _ _ Hin), (is_id _ _ _ _ _ Hin), Z.eqb_refl.
  cbn [negb orb]. destruct (sd_acked _) eqn:Ha; cbn [negb]; [|by exists base].
  apply (is_acked _ _ _ _ _ Hin) in Ha. destruct (release_base_ok segs A f base s Hs ltac:(lia) Ha) as [Hs1 He].
  apply IH in Hs1 as (base' & H1 & H2 & H3). exists base'. split; [lia|]. split; [exact H2|]. by rewrite H3.
Qed.

Lemma apply_acks_ok segs A f base now s :
  sender_ok segs A f base s ->
  exists base', (base <= base')%nat /\ sender_ok segs A f base' (apply_pending_acks now s).
Proof using Hcfg.
  intros Hs. unfold apply_pending_acks. generalize (seq 0 (Z.to_nat (sr_window s))) as js. intros js.
  assert (Hf : sender_ok segs A f base (foldl (apply_ack now) s js)).
  { revert s Hs. induction js as [|j js IH]; intros s Hs; [done|]. apply IH. by apply apply_ack_ok. }
  destruct (release_acked_ok segs A f (Z.to_nat (sr_active_count (foldl (apply_ack now) s js))) base _ Hf)
    as (base' & H1 & H2 & _). by exists base'.
Qed.

(** Acknowledgements touch none of the flags. *)
Definition same_flags s s' : Prop :=
  sr_input_finished s' = sr_input_finished s /\ sr_failed s' = sr_failed s /\
  sr_ack_timed_out s' = sr_ack_timed_out s.

Lemma release_flags i s : same_flags s (sender_release_slot i s).
Proof using Type. unfold sender_release_slot. case_match; [done|]. by destruct (wirehair_segment_tx_stats _). Qed.

Lemma release_acked_flags turns s : same_flags s (release_acked_loop turns s).
Proof using Type.
  revert s. induction turns as [|turns IH]; intros s; cbn [release_acked_loop]; [done|].
  case_match; [|done]. case_match; [done|].
  set (s1 := sender_release_slot _ _). assert (Hsf : same_flags s s1).
  { destruct (release_flags (slot_at s (sr_base_segment s)) (ack_clear (sd_segment_id (sr_slot s (slot_at s (sr_base_segment s)))) s)) as (E1 & E2 & E3).
    unfold same_flags, s1. rewrite E1, E2, E3. unfold ack_clear. by case_match. }
  destruct Hsf as (H1 & H2 & H3). destruct (IH (sr_set_window (u64 (sr_base_segment s1 + 1)) (sr_next_segment_id s1) (sr_active_count s1)
    (sr_window_hwm s1) (sr_segments_completed s1) s1)) as (G1 & G2 & G3). cbn in *. split_and!; congruence.
Qed.

Lemma apply_acks_flags now s : same_flags s (apply_pending_acks now s).
Proof using Type.
  unfold apply_pending_acks, release_acked_base. generalize (seq 0 (Z.to_nat (sr_window s))) as js. intros js.
  assert (H : same_flags s (foldl (apply_ack now) s js)).
  { revert s. induction js as [|j js IH]; intros s; [done|]. cbn [foldl].
    assert (H1 : same_flags s (apply_ack now s j)).
    { unfold apply_ack. case_match; [|done]. unfold note_ack_rtt. by case_match. }
    destruct H1 as (H1 & H2 & H3), (IH (apply_ack now s j)) as (G1 & G2 & G3). split_and!; congruence. }
  destruct H as (H1 & H2 & H3), (release_acked_flags (Z.to_nat (sr_active_count (foldl (apply_ack now) s js))) (foldl (apply_ack now) s js)) as (G1 & G2 & G3).
  split_and!; congruence.
Qed.

Lemma input_ack_flags bytes now s : same_flags s (snd (wirehair_segment_sender_input_ack (Some bytes) now s)).
Proof using Type.
  unfold wirehair_segment_sender_input_ack. repeat (case_match; try done). cbn [snd].
  match goal with |- same_flags s (apply_pending_acks now (ack_mark ?h s)) => rename h into hd end.
  destruct (apply_acks_flags now (ack_mark hd s)) as (F1 & F2 & F3). unfold same_flags. rewrite F1, F2, F3.
  unfold ack_mark. by case_match.
Qed.

(** An acknowledgement arrives. *)
Lemma ack_mark_ok segs A f base h s :
  sender_ok segs A f base s ->
  sender_ok segs (fun id => A id \/ Z.of_nat id = wh_block_id h) f base (ack_mark h s).
Proof using Type.
  intros Hs. unfold ack_mark. assert (Hm : sender_ok segs (fun id => A id \/ Z.of_nat id = wh_block_id h) f base s).
  { eapply sender_ok_mono; [|exact Hs]. tauto. }
  case_match; [done|]. destruct Hm. split; try done.
  - cbn. by rewrite length_insert.
  - intros id Hid. apply ack_contains_mark in Hid as [->|Hid]; [by right|by apply sk_table0|done].
Qed.

Lemma input_ack_ok segs A f base bytes now s :
  sender_ok segs A f base s ->
  exists base', (base <= base')%nat /\
    sender_ok segs (fun id => A id \/ exists h, wire_header_decode bytes = Some h /\ wh_type h = WIRE_TYPE_ACK /\
                                       wh_flow_id h = flow /\ wh_block_id h = Z.of_nat id)
      f base' (snd (wirehair_segment_sender_input_ack (Some bytes) now s)).
Proof using Hcfg.
  intros Hs. unfold wirehair_segment_sender_input_ack.
  assert (Hno : forall A', (forall id, A id -> A' id) ->
    exists base', (base <= base')%nat /\ sender_ok segs A' f base' (snd (-1, s))).
  { intros A' HA. exists base. split; [done|]. by eapply sender_ok_mono. }
  destruct (_ =? _)%nat; [apply Hno; tauto|]. destruct (wire_header_decode bytes) as [h|] eqn:Hd; [|apply Hno; tauto].
  destruct (_ || _) eqn:Hg; [apply Hno; tauto|]. rewrite !orb_false_iff, !negb_false_iff, !Z.eqb_eq in Hg.
  destruct Hg as ((_ & Hty) & Hfl). rewrite (sk_flow _ _ _ _ _ Hs) in Hfl.
  destruct (apply_acks_ok _ _ f base now _ (ack_mark_ok segs A f base h s Hs)) as (base' & H1 & H2).
  exists base'. split; [done|]. eapply sender_ok_mono; [|exact H2]. intros id [HA|Hb]; [by left|right]. by exists h.
Qed.

End Sender.

(** * Calls of the sliding-window sender

    Creation, admission, ticks and the end keep the invariant of WirehairSenderSpec.  The emit
    callback is followed through a predicate [G] on its context, which is told for every packet
    which segment and packet number it is, and that the segment lies in a window whose older
    segments are all acknowledged. *)

(** [f] with the count of segment [i] changed. *)
Definition upd (f : nat -> Z) (i : nat) (v : Z) : nat -> Z := fun x => if decide (x = i) then v else f x.

Lemma upd_eq f i v : upd f i v i = v.
Proof. unfold upd. by rewrite decide_True. Qed.
Lemma upd_ne f i v x : x <> i -> upd f i v x = f x.
Proof. intros H. unfold upd. by rewrite decide_False. Qed.

Section Run.
Context `{host : HostOrder} `{wh : Wirehair}.
Context (cfg : WirehairSegmentConfig) (Hcfg : config_ok cfg) (flow dst ttl : Z).

Abbreviation w := (wirehair_segment_window (Some cfg)).
Abbreviation sender_ok := (sender_ok cfg flow dst ttl).
Abbreviation in_slot := (in_slot cfg flow dst ttl).
Abbreviation place := (place cfg).

Implicit Types (s : WirehairSegmentSender) (A : nat -> Prop) (f : nat -> Z) (segs : list (list byte)).

(** ** Creation and admission *)

Lemma sender_create_ok alloc s :
  wirehair_segment_sender_create alloc true (Some cfg) flow dst ttl = Some s ->
  sender_ok [] (fun _ => False) (fun _ => 0) 0 s /\ sr_failed s = false.
Proof using Type.
  unfold wirehair_segment_sender_create. case_match; [done|]. destruct alloc; [|done]. intros [= <-].
  split; [|done]. split; try done; cbn [sr_slots sr_ack_ids sr_base_segment length].
  - apply length_replicate.
  - lia.
  - lia.
  - intros j _. unfold sr_slot. cbn. rewrite nth_lookup. destruct (replicate _ _ !! j) as [sl|] eqn:E; [|done].
    by apply lookup_replicate in E as [-> _].
  - intros id Hid. apply andb_true_iff in Hid as [Hid _]. cbn [sr_ack_valid] in Hid. revert Hid.
    generalize (ack_index (Z.of_nat id)). intros i Hi. by do 17 (destruct i as [|i]; [done|]).
  - intros id Hid. lia.
Qed.

Lemma admit_ok segs A f base s once a1 a2 a3 id data rc s' :
  sender_ok segs A f base s -> Z.of_nat (S (length segs)) < 2 ^ 63 ->
  wirehair_segment_sender_admit once a1 a2 a3 id (Some data) s = (rc, s') ->
  (rc <> 0 /\ s' = s) \/
  (rc = 0 /\ id = Z.of_nat (length segs) /\ segment_ok cfg data /\ sr_input_finished s = false /\
   sr_input_finished s' = false /\ sender_ok (segs ++ [data]) A f base s').
Proof using Hcfg.
  intros Hs Hsmall. unfold wirehair_segment_sender_admit, wirehair_segment_sender_can_admit.
  destruct (_ || _) eqn:Hg; [intros [= <- <-]; by left|]. rewrite !orb_false_iff, Z.eqb_neq, Z.gtb_ltb, Z.ltb_ge in Hg.
  destruct Hg as ((Hpos & Hle) & Hfail). rewrite (sk_config _ _ _ _ _ _ _ _ _ Hs) in Hle. rewrite Hfail. cbn [orb].
  destruct (sr_input_finished s) eqn:Hfin; [intros [= <- <-]; by left|].
  rewrite (sk_next _ _ _ _ _ _ _ _ _ Hs), (sk_base _ _ _ _ _ _ _ _ _ Hs), (sk_window _ _ _ _ _ _ _ _ _ Hs).
  pose proof (sk_order _ _ _ _ _ _ _ _ _ Hs) as Hord. pose proof (w_range cfg Hcfg) as Hw.
  unfold u64. rewrite (uwrap_small 64 (_ - _)) by (unfold in_range; lia). rewrite Z.geb_leb.
  destruct (Z.leb_spec w (Z.of_nat (length segs) - Z.of_nat base)) as [|Hroom]; [intros [= <- <-]; by left|].
  unfold slot_at. rewrite (sk_window _ _ _ _ _ _ _ _ _ Hs). fold (place (length segs)).
  assert (Hfree : sr_slot s (place (length segs)) = sender_slot_zero).
  { apply (sk_free _ _ _ _ _ _ _ _ _ Hs). intros i Hi E. apply (place_inj cfg Hcfg base) in E; lia. }
  rewrite Hfree. cbn [sd_active sender_slot_zero negb].
  destruct (Z.eqb_spec id (Z.of_nat (length segs))) as [->|]; cbn [negb]; [|intros [= <- <-]; by left].
  fold (place (length segs)). rewrite Hfree. cbn [sd_active sender_slot_zero].
  destruct a1; cbn [negb]; [|intros [= <- <-]; by left].
  pose proof (place_lt cfg Hcfg (length segs)) as Hp.
  assert (Hl : (place (length segs) < length (sr_slots s))%nat) by (by rewrite (sk_slots _ _ _ _ _ _ _ _ _ Hs)).
  rewrite (sk_config _ _ _ _ _ _ _ _ _ Hs), (sk_flow _ _ _ _ _ _ _ _ _ Hs), (sk_dst _ _ _ _ _ _ _ _ _ Hs), (sk_ttl _ _ _ _ _ _ _ _ _ Hs).
  destruct (wirehair_segment_tx_create _ _ _ _ _ _ _ _ _) as [tx|] eqn:Htx; cycle 1.
  { intros [= <- <-]. left. split; [done|]. unfold sr_set_slot. rewrite list_insert_id; [by destruct s|].
    destruct (lookup_lt_is_Some_2 _ _ Hl) as [sl Hsl]. unfold sr_slot in Hfree. rewrite nth_lookup, Hsl in Hfree. by rewrite Hsl, <- Hfree. }
  assert (Hok : segment_ok cfg data) by (unfold segment_ok; lia).
  destruct (tx_create_ok cfg Hcfg data Hok flow (Z.of_nat (length segs)) dst ttl once a2 a3 tx Htx) as [Htxok Hnext].
  intros [= <- <-]. right. split; [done|]. split; [done|]. split; [done|]. split; [done|]. split; [done|].
  set (sl := mkSenderSlot _ _ _ _ _ _ _ _). pose proof (fun j => sr_slot_set s (place (length segs)) sl j Hl) as Hget.
  assert (Hlen : length (segs ++ [data]) = S (length segs)) by (rewrite length_app; cbn; lia).
  destruct Hs. cbn [sr_set_window]. split; try done; rewrite ?Hlen.
  - cbn. by rewrite length_insert.
  - cbn. rewrite sk_next0, uwrap_small by (unfold in_range; lia). lia.
  - lia.
  - lia.
  - cbn. unfold u64. rewrite sk_count0, uwrap_small by (unfold in_range; lia). lia.
  - intros i Hi. match goal with |- in_slot _ _ _ _ (sr_slot ?x _) => change (sr_slot x (place i)) with (sr_slot (sr_set_slot (place (length segs)) sl s) (place i)) end.
    rewrite Hget. destruct (decide (i = length segs)) as [->|Hne].
    + rewrite decide_True by done. split; try done. exists data, tx. split; [by rewrite lookup_app_r, Nat.sub_diag by lia|].
      split_and!; try done. rewrite sk_future0 by lia. done.
    + rewrite decide_False by (intros E; apply (place_inj cfg Hcfg base) in E; lia).
      destruct (sk_flight0 i ltac:(lia)) as [F1 F2 F3 (seg & tx' & F4 & F)]. split; try done. exists seg, tx'.
      split; [by rewrite lookup_app_l by lia|exact F].
  - intros j Hj. match goal with |- sr_slot ?x _ = _ => change (sr_slot x j) with (sr_slot (sr_set_slot (place (length segs)) sl s) j) end.
    rewrite Hget. case_decide as E; [exfalso; apply (Hj (length segs)); [lia|done]|]. apply sk_free0. intros i Hi. apply Hj. lia.
  - intros i Hi. apply sk_future0. lia.
  - cbn. intros He. apply sk_end0 in He as [He _]. by rewrite Hfin in He.
Qed.

(** ** Emission *)

Section Emit.
Context {C : Type}.
Context (emit : WireHeader -> option (list byte) -> WirehairSegmentSenderPacketKind -> C -> Z * C).
Context (segs : list (list byte)) (A : nat -> Prop).

(** Segment [i] lies in a window behind which everything is acknowledged. *)
Definition may_send (i : nat) : Prop :=
  exists b, (forall j, (j < b)%nat -> A j) /\ (b <= i < b + Z.to_nat w)%nat.

Context (G : (nat -> Z) -> C -> Prop).
Context (HGpkt : forall f i seg id p kind c rc c', segs !! i = Some seg -> may_send i ->
  0 <= id < limit_of cfg (Z.of_nat (length seg)) -> packet_of seg id = Some p -> f i = id -> G f c ->
  emit (packet_header (target_of cfg seg flow (Z.of_nat i) dst ttl) id (Z.of_nat (length p))) (Some p) kind c = (rc, c') ->
  G (if rc =? 0 then upd f i (id + 1) else f) c').
Context (HGext : forall f f' c, (forall i, f i = f' i) -> G f c -> G f' c).

(** The context of the bridge while packets of segment [i] are sent. *)
Definition bridge_inv f (i : nat) s (pid : Z) (sc : WirehairSegmentSender * C) : Prop :=
  (exists a, fst sc = sr_set_repair a (sr_repair_rounds s) s) /\ G (upd f i pid) (snd sc).

Lemma bridge_step f i s seg source pid p sc rc sc' :
  segs !! i = Some seg -> may_send i -> 0 <= pid < limit_of cfg (Z.of_nat (length seg)) -> packet_of seg pid = Some p ->
  bridge_inv f i s pid sc ->
  sender_emit_bridge emit source (packet_header (target_of cfg seg flow (Z.of_nat i) dst ttl) pid (Z.of_nat (length p))) p sc = (rc, sc') ->
  bridge_inv f i s (if rc =? 0 then pid + 1 else pid) sc'.
Proof using HGpkt HGext.
  intros Hi Hms Hpid Hp [[a Ha] HG]. destruct sc as [s1 c]. cbn [fst snd] in *. unfold sender_emit_bridge.
  set (repair := negb _). set (kind := if repair then WH_SENDER_PKT_REPAIR else WH_SENDER_PKT_DATA).
  destruct (emit _ (Some p) kind c) as [rc1 c1] eqn:He. intros [= <- <-].
  pose proof (HGpkt _ i seg pid p kind c rc1 c1 Hi Hms Hpid Hp (upd_eq f i pid) HG He) as HG1. split.
  - cbn. rewrite Ha. destruct repair; cbn; by eexists.
  - cbn [snd]. assert (Hrc : ((if rc1 >? 0 then -2 else rc1) =? 0) = (rc1 =? 0)).
    { rewrite Z.gtb_ltb. destruct (Z.ltb_spec 0 rc1), (Z.eqb_spec rc1 0); cbn; lia || (subst; done) || by apply Z.eqb_neq. }
    rewrite Hrc. destruct (rc1 =? 0); [|done]. eapply HGext; [|exact HG1].
    intros x. unfold upd. by case_decide.
Qed.

(** What a part of a tick leaves behind. *)
Definition ticked f (base : nat) s' c' : Prop :=
  exists f', sender_ok segs A f' base s' /\ G f' c' /\ forall i, f i <= f' i.

Lemma may_send_flight f base s i :
  sender_ok segs A f base s -> (base <= i < length segs)%nat -> may_send i.
Proof using Type.
  intros Hs Hi. exists base. pose proof (sk_order _ _ _ _ _ _ _ _ _ Hs). split; [apply (sk_done _ _ _ _ _ _ _ _ _ Hs)|lia].
Qed.

(** After an emission function has run on the encoder of segment [i]. *)
Lemma emitted_ok f base s i seg tx hi rc tx' s1 c' :
  sender_ok segs A f base s -> (base <= i < length segs)%nat -> segs !! i = Some seg -> segment_ok cfg seg ->
  f i = tx_next_packet_id tx ->
  emits cfg seg flow (Z.of_nat i) dst ttl (bridge_inv f i s) tx hi (rc, tx', (s1, c')) ->
  (exists f', sender_ok segs A f' base (sr_upd_slot (place i) (sd_set_tx tx') s1) /\ G f' c' /\
    (forall x, f x <= f' x) /\ in_slot segs A f' i (sr_slot (sr_upd_slot (place i) (sd_set_tx tx') s1) (place i))) /\
  sr_failed s1 = sr_failed s /\ sr_ack_timed_out s1 = sr_ack_timed_out s /\ sr_input_finished s1 = sr_input_finished s /\
  (rc = -1 \/ 0 <= rc).
Proof using Hcfg.
  intros Hs Hi Hseg Hok Hf (Htx & [[a Ha] HG] & Hle & Hrc). cbn [fst snd] in *. subst s1.
  pose proof (place_lt cfg Hcfg i) as Hp. pose proof (sk_slots _ _ _ _ _ _ _ _ _ Hs) as Hl.
  split; [|split_and!; try done; lia]. exists (upd f i (tx_next_packet_id tx')).
  pose proof (sk_flight _ _ _ _ _ _ _ _ _ Hs i Hi) as [F1 F2 F3 _].
  assert (Hin : in_slot segs A (upd f i (tx_next_packet_id tx')) i
            (sd_set_tx tx' (sr_slot (sr_set_repair a (sr_repair_rounds s) s) (place i)))).
  { split; try done. exists seg, tx'. split_and!; try done. by rewrite upd_eq. }
  split_and!; try done.
  - apply (sender_ok_set cfg Hcfg flow dst ttl segs A f); try done; [by apply sender_ok_repair|]. intros x Hx. by rewrite upd_ne.
  - intros x. unfold upd. case_decide; [subst; lia|lia].
  - unfold sr_upd_slot. rewrite sr_slot_set by (cbn; lia). by rewrite decide_True by done.
Qed.

Lemma set_same_ok f base s i (g : WirehairSegmentSenderSlot -> WirehairSegmentSenderSlot) :
  sender_ok segs A f base s -> (base <= i < length segs)%nat ->
  (forall sl, sd_active (g sl) = sd_active sl /\ sd_acked (g sl) = sd_acked sl /\ sd_segment_id (g sl) = sd_segment_id sl /\
    sd_tx (g sl) = sd_tx sl) ->
  sender_ok segs A f base (sr_upd_slot (place i) g s).
Proof using Hcfg.
  intros Hs Hi Hg. apply (sender_ok_set cfg Hcfg flow dst ttl segs A f f); try done.
  destruct (sk_flight _ _ _ _ _ _ _ _ _ Hs i Hi) as [F1 F2 F3 F4]. destruct (Hg (sr_slot s (place i))) as (G1 & G2 & G3 & G4).
  split; [by rewrite G1|by rewrite G3|by rewrite G2|by rewrite G4].
Qed.

(** What a turn of the loop of a tick may do. *)
Definition turn_ok f base s (r : TickNext * WirehairSegmentSender * C) : Prop :=
  let '(next, s', c') := r in
  ticked f base s' c' /\ sr_input_finished s' = sr_input_finished s /\
  match next with
  | TickReturn rc => rc = -1 /\ sr_failed s' = true
  | _ => sr_failed s' = sr_failed s
  end /\
  (sr_ack_timed_out s' = true -> sr_ack_timed_out s = true \/
     exists seg, segs !! base = Some seg /\ f base = limit_of cfg (Z.of_nat (length seg))).

Lemma tick_source_turn f base s c now i seg tx :
  sender_ok segs A f base s -> G f c -> (base <= i < length segs)%nat -> segs !! i = Some seg -> segment_ok cfg seg ->
  tx_ok cfg seg flow (Z.of_nat i) dst ttl tx -> f i = tx_next_packet_id tx ->
  wirehair_segment_tx_source_complete (Some tx) = false ->
  turn_ok f base s (tick_source emit now (place i) tx s c).
Proof using Hcfg HGpkt HGext.
  intros Hs HG Hi Hseg Hok Htx Hf Hsc. cbn in Hsc. rewrite Z.geb_leb, Z.leb_gt, (to_source _ _ _ _ _ _ _ Htx) in Hsc.
  unfold tick_source. set (source := ss_source_packets (tx_stats tx)).
  assert (He : emits cfg seg flow (Z.of_nat i) dst ttl (bridge_inv f i s) tx
    (Z.min (source_of (Z.of_nat (length seg))) (tx_next_packet_id tx + WIREHAIR_SENDER_SOURCE_BATCH))
    (wirehair_segment_tx_emit_source (sender_emit_bridge emit source) tx WIREHAIR_SENDER_SOURCE_BATCH (s, c))).
  { apply (emit_source_ok cfg Hcfg seg Hok); try done; try lia.
    - intros pid p sc rc sc' Hpid Hp Hb Hem. apply (bridge_step f i s seg source pid p sc); try done. by eapply may_send_flight.
    - split; [exists (sr_repair_sent s); by destruct s|]. cbn. eapply HGext; [|exact HG]. intros x. unfold upd. case_decide; [subst; lia|done]. }
  destruct (wirehair_segment_tx_emit_source _ _ _ _) as [[rc tx'] [s1 c']].
  destruct (emitted_ok f base s i seg tx _ rc tx' s1 c' Hs Hi Hseg Hok Hf He) as ((f' & H1 & H2 & H3 & H4) & E1 & E2 & E3 & E4).
  set (s2 := sr_upd_slot (place i) (sd_set_tx tx') s1) in *.
  unfold after_emit. destruct E4 as [->|Hrc].
  - cbn. split_and!; try done; [|by left; congruence]. exists f'. split_and!; try done. by apply sender_ok_fail.
  - rewrite (proj2 (Z.ltb_ge rc 0)) by lia. cbn [turn_ok]. case_match.
    + split_and!; try done; [|by left; rewrite <- E2]. exists f'. split_and!; try done. by apply set_same_ok.
    + split_and!; try done; [|by left; rewrite <- E2]. by exists f'.
Qed.

Lemma tick_repair_turn f base s c now i seg tx :
  sender_ok segs A f base s -> G f c -> (base <= i < length segs)%nat -> segs !! i = Some seg -> segment_ok cfg seg ->
  tx_ok cfg seg flow (Z.of_nat i) dst ttl tx -> f i = tx_next_packet_id tx ->
  wirehair_segment_tx_source_complete (Some tx) = true ->
  turn_ok f base s (tick_repair emit now (place i) tx s c).
Proof using Hcfg HGpkt HGext.
  intros Hs HG Hi Hseg Hok Htx Hf Hsc. cbn in Hsc. rewrite Z.geb_leb, Z.leb_le, (to_source _ _ _ _ _ _ _ Htx) in Hsc.
  destruct (segment_counts cfg seg Hcfg Hok) as (Hn & _). cbn zeta in Hn.
  unfold tick_repair. set (source := ss_source_packets (tx_stats tx)). set (m := wirehair_segment_ack_repair_round_packets source).
  assert (Hm : 0 < m < 2 ^ 31).
  { unfold m, source. rewrite (to_source _ _ _ _ _ _ _ Htx). by apply round_packets_bounds. }
  assert (He : emits cfg seg flow (Z.of_nat i) dst ttl (bridge_inv f i s) tx
    (Z.min (limit_of cfg (Z.of_nat (length seg))) (tx_next_packet_id tx + m))
    (wirehair_segment_tx_emit_repair (sender_emit_bridge emit source) tx m (s, c))).
  { apply (emit_repair_ok cfg Hcfg seg Hok); try done.
    - intros pid p sc rc sc' Hpid Hp Hb Hem. apply (bridge_step f i s seg source pid p sc); try done. by eapply may_send_flight.
    - split; [exists (sr_repair_sent s); by destruct s|]. cbn. eapply HGext; [|exact HG]. intros x. unfold upd. case_decide; [subst; lia|done]. }
  destruct (wirehair_segment_tx_emit_repair _ _ _ _) as [[rc tx'] [s1 c']].
  destruct (emitted_ok f base s i seg tx _ rc tx' s1 c' Hs Hi Hseg Hok Hf He) as ((f' & H1 & H2 & H3 & H4) & E1 & E2 & E3 & E4).
  set (s2 := sr_upd_slot (place i) (sd_set_tx tx') s1) in *.
  unfold after_emit. destruct E4 as [->|Hrc].
  - cbn. split_and!; try done; [|by left; congruence]. exists f'. split_and!; try done. by apply sender_ok_fail.
  - rewrite (proj2 (Z.ltb_ge rc 0)) by lia. cbn [turn_ok].
    split_and!; try done; [|by left; rewrite <- E2]. exists f'. split_and!; try done. by apply set_same_ok.
Qed.

Lemma turn_here f base s c : sender_ok segs A f base s -> G f c -> turn_ok f base s (TickContinue, s, c).
Proof using Type. intros Hs HG. split_and!; try done; [|by left]. by exists f. Qed.

Lemma tick_slot_turn f base s c now wait pending i :
  sender_ok segs A f base s -> G f c -> (base <= i < length segs)%nat ->
  turn_ok f base s (tick_slot emit now wait pending (place i) s c).
Proof using Hcfg HGpkt HGext.
  intros Hs HG Hi. unfold tick_slot. pose proof (sk_flight _ _ _ _ _ _ _ _ _ Hs i Hi) as Hin.
  destruct Hin as [F1 F2 F3 (seg & tx & Hseg & Hok & Htxs & Htx & Hf)]. rewrite F1, Htxs, F2. cbn [negb orb].
  destruct (sd_acked _); [by apply turn_here|].
  destruct (wirehair_segment_tx_source_complete (Some tx)) eqn:Hsc; cbn [negb]; [|by apply (tick_source_turn f base s c now i seg)].
  destruct pending. { split_and!; try done; [|by left]. exists f. split_and!; try done. by apply set_same_ok. }
  rewrite (sk_base _ _ _ _ _ _ _ _ _ Hs). destruct (Z.eqb_spec (Z.of_nat i) (Z.of_nat base)) as [E|]; cbn [negb]; [|by apply turn_here].
  assert (i = base) as -> by lia.
  set (s1 := if sd_repair_due_valid _ then s else _).
  assert (Hs1 : sender_ok segs A f base s1 /\ sr_failed s1 = sr_failed s /\ sr_ack_timed_out s1 = sr_ack_timed_out s /\
    sr_input_finished s1 = sr_input_finished s).
  { unfold s1. case_match; [done|]. split; [|done]. by apply set_same_ok. }
  destruct Hs1 as (Hs1 & K1 & K2 & K3).
  assert (Hback : forall r, turn_ok f base s1 r -> turn_ok f base s r).
  { intros [[next s'] c'] (T1 & T2 & T3 & T4). split_and!; [done|congruence| |by rewrite <- K2].
    destruct next; [congruence|congruence|done]. }
  destruct (now <? _); [by apply Hback, turn_here|].
  destruct (wirehair_segment_tx_repair_exhausted (Some tx)) eqn:Hex.
  - split_and!; try done.
    + exists f. split_and!; try done. by apply (sender_ok_fail cfg flow dst ttl segs A f base (sr_set_repair _ _ s1)), sender_ok_repair.
    + intros _. right. exists seg. split; [done|]. cbn in Hex. rewrite Z.geb_leb, Z.leb_le, (to_target _ _ _ _ _ _ _ Htx) in Hex. cbn in Hex.
      pose proof (to_next _ _ _ _ _ _ _ Htx). lia.
  - apply Hback. by apply (tick_repair_turn f base s1 c now base seg).
Qed.

Lemma tick_loop_ok f base s c now wait pending turns rc s' c' :
  sender_ok segs A f base s -> G f c -> Forall (fun i => (i < Z.to_nat w)%nat) turns ->
  tick_loop emit now wait pending turns s c = (rc, s', c') ->
  ticked f base s' c' /\ sr_input_finished s' = sr_input_finished s /\
  (rc = 0 /\ sr_failed s' = sr_failed s \/ rc = -1 /\ sr_failed s' = true) /\
  (sr_ack_timed_out s' = true -> sr_ack_timed_out s = true \/
     exists seg, segs !! base = Some seg /\ exists f', sender_ok segs A f' base s' /\ f' base = limit_of cfg (Z.of_nat (length seg))).
Proof using Hcfg HGpkt HGext.
  intros Hs HG Hturns. revert f s c Hs HG.
  induction Hturns as [|i turns Hi Hturns IH]; intros f s c Hs HG; cbn [tick_loop].
  { intros [= <- <- <-]. split_and!; [|done|by left|by left]. by exists f. }
  pose proof (sk_order _ _ _ _ _ _ _ _ _ Hs) as Hord. pose proof (sk_small _ _ _ _ _ _ _ _ _ Hs) as Hsm. pose proof (w_range cfg Hcfg) as Hw.
  rewrite (sk_base _ _ _ _ _ _ _ _ _ Hs), (sk_window _ _ _ _ _ _ _ _ _ Hs). unfold u64. rewrite uwrap_small by (unfold in_range; lia).
  replace (Z.of_nat base + Z.of_nat i) with (Z.of_nat (base + i)) by lia. fold (place (base + i)%nat).
  assert (Hturn : turn_ok f base s (tick_slot emit now wait pending (place (base + i)%nat) s c)).
  { destruct (decide (base + i < length segs)%nat); [apply tick_slot_turn; try done; lia|].
    unfold tick_slot. rewrite (sk_free _ _ _ _ _ _ _ _ _ Hs); [cbn; by apply turn_here|].
    intros id Hid E. apply (place_inj cfg Hcfg base) in E; lia. }
  destruct (tick_slot _ _ _ _ _ _ _) as [[next s1] c1]. destruct Hturn as ((f1 & H1 & H2 & H3) & T2 & T3 & T4).
  assert (Hto : sr_ack_timed_out s1 = true -> sr_ack_timed_out s = true \/
     exists seg, segs !! base = Some seg /\ exists f', sender_ok segs A f' base s1 /\ f' base = limit_of cfg (Z.of_nat (length seg))).
  { intros Ht. destruct (T4 Ht) as [|(seg & E1 & E2)]; [by left|right]. exists seg. split; [done|]. exists f1. split; [done|].
    destruct (decide (base < length segs)%nat) as [Hb|Hb]; [|apply lookup_lt_Some in E1; lia].
    destruct (is_tx _ _ _ _ _ _ _ _ _ (sk_flight _ _ _ _ _ _ _ _ _ H1 base ltac:(lia))) as (seg' & tx & E3 & _ & _ & Htx & E4).
    rewrite E1 in E3. injection E3 as <-. pose proof (to_next _ _ _ _ _ _ _ Htx). specialize (H3 base). lia. }
  destruct next as [| |rc1].
  - intros Hl. destruct (IH f1 s1 c1 H1 H2 Hl) as ((f2 & K1 & K2 & K3) & K4 & K5 & K6). split_and!; [|congruence| |].
    + exists f2. split_and!; try done. intros x. specialize (H3 x). specialize (K3 x). lia.
    + destruct K5 as [[-> K5]|K5]; [left; split; congruence|by right].
    + intros Ht. destruct (K6 Ht) as [Ht1|]; [|by right]. destruct (Hto Ht1) as [|(seg & E1 & f' & E2 & E3)]; [by left|right].
      exists seg. split; [done|]. exists f2. split; [done|].
      destruct (decide (base < length segs)%nat) as [Hb|Hb]; [|apply lookup_lt_Some in E1; lia].
      destruct (is_tx _ _ _ _ _ _ _ _ _ (sk_flight _ _ _ _ _ _ _ _ _ K1 base ltac:(lia))) as (seg' & tx & E4 & _ & _ & Htx & E5).
      rewrite E1 in E4. injection E4 as <-. pose proof (to_next _ _ _ _ _ _ _ Htx).
      destruct (is_tx _ _ _ _ _ _ _ _ _ (sk_flight _ _ _ _ _ _ _ _ _ E2 base ltac:(lia))) as (seg2 & tx2 & _ & _ & Q1 & _ & Q2).
      destruct (is_tx _ _ _ _ _ _ _ _ _ (sk_flight _ _ _ _ _ _ _ _ _ H1 base ltac:(lia))) as (seg3 & tx3 & _ & _ & Q3 & _ & Q4).
      rewrite Q1 in Q3. injection Q3 as <-. specialize (K3 base). lia.
  - intros [= <- <- <-]. split_and!; try done; [by exists f1|by left].
  - intros [= <- <- <-]. destruct T3 as [-> T3]. split_and!; try done; [by exists f1|by right].
Qed.

(** A tick: the window may move on, packets of its segments are sent. *)
Lemma tick_ok f base s c now rc s' c' :
  sender_ok segs A f base s -> G f c -> wirehair_segment_sender_tick emit now s c = (rc, s', c') ->
  exists base', (base <= base')%nat /\ ticked f base' s' c' /\ (rc = 0 \/ rc = -1 /\ sr_failed s' = true) /\
    sr_input_finished s' = sr_input_finished s /\
    (sr_ack_timed_out s' = true -> sr_ack_timed_out s = true \/
       exists seg, segs !! base' = Some seg /\ exists f', sender_ok segs A f' base' s' /\ f' base' = limit_of cfg (Z.of_nat (length seg))).
Proof using Hcfg HGpkt HGext.
  intros Hs HG. unfold wirehair_segment_sender_tick. destruct (sr_failed s) eqn:Hfail.
  { intros [= <- <- <-]. exists base. split_and!; [done| |by right|done|by left]. by exists f. }
  destruct (apply_acks_flags now s) as (K1 & K2 & K3).
  destruct (apply_acks_ok cfg Hcfg flow dst ttl segs A f base now s Hs) as (base' & Hb & Hs1).
  intros Ht. apply (tick_loop_ok f base') in Ht as (H1 & H2 & H3 & H4); try done.
  - exists base'. split_and!; try done; [destruct H3 as [[-> _]|H3]; [by left|by right]|congruence|by rewrite <- K3].
  - rewrite (sk_window _ _ _ _ _ _ _ _ _ Hs1). apply list.Forall_forall. intros i Hi. apply elem_of_seq in Hi. lia.
Qed.

(** ** The end *)

Context (HGend : forall f h c rc c', wh_version h = WIRE_VERSION_V4 -> wh_flow_id h = flow -> wh_type h = WIRE_TYPE_END ->
  wh_block_id h = Z.of_nat (length segs) -> (forall i, (i < length segs)%nat -> A i) -> G f c ->
  emit h None WH_SENDER_PKT_END c = (rc, c') -> G f c').

Lemma try_emit_end_ok f base s c rc s' c' :
  sender_ok segs A f base s -> G f c -> wirehair_segment_sender_try_emit_end emit s c = (rc, s', c') ->
  sender_ok segs A f base s' /\ G f c' /\ sr_input_finished s' = sr_input_finished s /\
  sr_ack_timed_out s' = sr_ack_timed_out s /\ (sr_input_finished s = false -> c' = c).
Proof using HGend.
  intros Hs HG. unfold wirehair_segment_sender_try_emit_end. destruct (_ || _) eqn:Hg; [by intros [= <- <- <-]|].
  rewrite !orb_false_iff, !negb_false_iff, Z.eqb_eq, (sk_count _ _ _ _ _ _ _ _ _ Hs) in Hg. destruct Hg as (((G1 & G2) & G3) & G4).
  pose proof (sk_order _ _ _ _ _ _ _ _ _ Hs) as Hord. destruct (emit _ None _ c) as [rc1 c1] eqn:He.
  assert (HG1 : G f c1).
  { eapply HGend; [| | | | |exact HG|exact He]; try done; cbn.
    - apply (sk_flow _ _ _ _ _ _ _ _ _ Hs).
    - apply (sk_next _ _ _ _ _ _ _ _ _ Hs).
    - intros i Hi. apply (sk_done _ _ _ _ _ _ _ _ _ Hs). lia. }
  destruct (rc1 =? 0); cbn [negb]; intros [= <- <- <-]; split_and!; try done; try (by rewrite G3).
  - destruct Hs. split; try done. cbn. intros _. split; [done|lia].
  - by apply sender_ok_fail.
Qed.

End Emit.
End Run.
