(* ===== verification/WirehairChannel.v ===== *)
(** * The segment transport end to end

    A sender (wirehair_segment_sender.c) and a receiver (the second half of wirehair_segment.c)
    joined by a network that may lose, repeat and reorder packets and acknowledgements in any way:
    every packet the emit callback has accepted and every acknowledgement the ack callback has
    accepted may be handed over any number of times, at any time.  The callbacks answer from
    arbitrary tables, so they may fail at any call.  [segs] collects the admitted segments. *)

From Stdlib Require Import Strings.Byte.
From S2P Require Import Prelude WireHeader WirehairSegment WirehairReceiver WirehairSender.
From S2P Require Import WirehairSegmentSpec WirehairReceiverSpec WirehairSenderSpec.

Local Open Scope Z_scope.

(** ** Callbacks *)

(** The packets that were accepted, and the number of calls. *)
Record Wire := mkWire { w_packets : list (WireHeader * option (list byte)); w_calls : nat }.

Definition transmit (answer : nat -> Z) (h : WireHeader) (payload : option (list byte))
    (kind : WirehairSegmentSenderPacketKind) (c : Wire) : Z * Wire :=
  let rc := answer (w_calls c) in
  (rc, mkWire (if rc =? 0 then w_packets c ++ [(h, payload)] else w_packets c) (S (w_calls c))).

(** The segments that were taken, the acknowledgements that were sent, and the number of calls. *)
Record Sink := mkSink { k_segments : list (list byte); k_acks : list WireHeader; k_calls : nat }.

Definition take_segment (answer : nat -> Z) (flow_id : Z) (data : list byte) (k : Sink) : Z * Sink :=
  let rc := answer (k_calls k) in
  (rc, mkSink (if rc =? 0 then k_segments k ++ [data] else k_segments k) (k_acks k) (S (k_calls k))).

Definition send_ack (answer : nat -> Z) (h : WireHeader) (k : Sink) : Z * Sink :=
  let rc := answer (k_calls k) in
  (rc, mkSink (k_segments k) (if rc =? 0 then k_acks k ++ [h] else k_acks k) (S (k_calls k))).

Definition ack_datagram `{host : HostOrder} (h : WireHeader) : list Z :=
  wire_header_encode_v4 (replicate WIRE_V4_HEADER_SIZE 0) h.

(** ** The system *)

Inductive SysOp :=
| Admit (segment_id : Z) (data : list byte) (alloc alloc_tx alloc_pad : bool)
| Finish
| Tick (now_ns : Z)
| TryEnd
| Deliver (n : nat) (alloc : bool)
| DeliverAck (n : nat) (now_ns : Z).

Section System.
Context `{host : HostOrder} `{wh : Wirehair}.

Record Sys := mkSys {
  y_sender : WirehairSegmentSender;
  y_receiver : WirehairSegmentReceiver;
  y_wire : Wire;
  y_sink : Sink;
  y_segs : list (list byte) }.

Definition sys_start (once : bool) (cfg rcfg : WirehairSegmentConfig) (flow dst ttl : Z) : option Sys :=
  match wirehair_segment_sender_create true true (Some cfg) flow dst ttl,
        wirehair_segment_receiver_create once true true (Some rcfg) flow with
  | Some s, Some r => Some (mkSys s r (mkWire [] 0) (mkSink [] [] 0) [])
  | _, _ => None
  end.

Context (emits takes : nat -> Z) (once : bool).

(** [None]: the receiver would follow a null pointer, or its loop would not end. *)
Definition sys_step (y : Sys) (op : SysOp) : option Sys :=
  let '(mkSys s r c k segs) := y in
  match op with
  | Admit id data a1 a2 a3 =>
      let '(rc, s) := wirehair_segment_sender_admit once a1 a2 a3 id (Some data) s in
      Some (mkSys s r c k (if rc =? 0 then segs ++ [data] else segs))
  | Finish => Some (mkSys (wirehair_segment_sender_mark_input_finished s) r c k segs)
  | Tick now =>
      let '(_, s, c) := wirehair_segment_sender_tick (transmit emits) now s c in
      Some (mkSys s r c k segs)
  | TryEnd =>
      let '(_, s, c) := wirehair_segment_sender_try_emit_end (transmit emits) s c in
      Some (mkSys s r c k segs)
  | Deliver n alloc =>
      match w_packets c !! n with
      | None => Some y
      | Some (h, payload) =>
          match wirehair_segment_receiver_ingest (take_segment takes) (Some (send_ack takes)) alloc
                  h payload r k with
          | Some (_, r, k) => Some (mkSys s r c k segs)
          | None => None
          end
      end
  | DeliverAck n now =>
      match k_acks k !! n with
      | None => Some y
      | Some h =>
          let '(_, s) := wirehair_segment_sender_input_ack (Some (ack_datagram h)) now s in
          Some (mkSys s r c k segs)
      end
  end.

Fixpoint sys_run (y : Sys) (ops : list SysOp) : option Sys :=
  match ops with
  | [] => Some y
  | op :: ops => match sys_step y op with Some y => sys_run y ops | None => None end
  end.

End System.

(** The packet numbers of segment [i] in the order they were sent. *)
Definition sent_ids (i : nat) (packets : list (WireHeader * option (list byte))) : list Z :=
  map (fun q => wh_shard_index (fst q))
    (filter (fun q => wh_type (fst q) = WIRE_TYPE_DATA /\ wh_block_id (fst q) = Z.of_nat i) packets).

(** * What the segment transport delivers

    The invariant of a sender and a receiver joined by an arbitrary network (WirehairChannel), kept
    by every step, and what follows for the segments that reach the output callback. *)

(** ** A stream that grows *)

Section Growth.
Context `{wh : Wirehair}.
Context (cfg : WirehairSegmentConfig) (flow dst ttl : Z) (segs : list (list byte)) (x : list byte).

Lemma genuine_grow h p :
  genuine cfg segs flow dst ttl h p -> wh_type h <> WIRE_TYPE_END -> genuine cfg (segs ++ [x]) flow dst ttl h p.
Proof.
  intros [i seg id q Hi Hid Hq|h' p' _ _ Hty _] Hne; [|done]. apply genuine_data; [|done|done].
  by apply lookup_app_l_Some.
Qed.

Lemma recv_ok_grow next r :
  recv_ok segs flow next r -> rv_end_seen r = false -> recv_ok (segs ++ [x]) flow next r.
Proof.
  intros [] He. split; try done.
  - rewrite length_app. lia.
  - intros i. destruct (ro_holds i) as [|(j & seg & H1 & H)]; [by left|right]. exists j, seg.
    split; [by apply lookup_app_l_Some|exact H].
  - by rewrite He.
  - intros Hc. apply ro_complete in Hc as [Hc _]. by rewrite He in Hc.
Qed.

Lemma settled_grow next r :
  settled segs next r -> rv_end_seen r = false -> settled (segs ++ [x]) next r.
Proof. intros [H1 H2] He. split; [done|]. by rewrite He. Qed.

(** Nothing that is ready waits: the segments that are done without a gap have been handed out. *)
Lemma settled_behind next r b :
  settled segs next r -> (forall j, (j < b)%nat -> is_done next r j) -> (b <= next)%nat.
Proof.
  intros [Hs _] Hd. destruct (decide (b <= next)%nat) as [|Hb]; [done|exfalso].
  destruct (Hd next ltac:(lia)) as [|(j & H1 & H2)]; [lia|]. by apply (Hs j H1).
Qed.

End Growth.

Lemma sent_ids_app i p q : sent_ids i (p ++ q) = sent_ids i p ++ sent_ids i q.
Proof. unfold sent_ids. by rewrite list.filter_app, map_app. Qed.

Lemma sent_ids_packet `{wh : Wirehair} cfg flow dst ttl i j (seg : list byte) id (p : list byte) :
  0 <= id < 65536 ->
  sent_ids i [(packet_header (target_of cfg seg flow (Z.of_nat j) dst ttl) id (Z.of_nat (length p)), Some p)] =
  if decide (i = j) then [id] else [].
Proof.
  intros Hid. unfold sent_ids. rewrite filter_cons. cbn [fst packet_header wh_type wh_block_id target_of tg_segment_id].
  repeat case_decide; try (subst; tauto || lia).
  cbn. unfold u16. rewrite uwrap_small by (unfold in_range; lia). done.
Qed.

(** ** The invariant *)

Section Channel.
Context `{host : HostOrder} `{wh : Wirehair} `{!FountainCode wh}.
Context (cfg : WirehairSegmentConfig) (Hcfg : config_ok cfg).
Context (flow dst ttl : Z).
Context (emit_rc take_rc : nat -> Z) (once : bool) (rw : Z).

Abbreviation window := (wirehair_segment_window (Some cfg)).
Abbreviation seg_limit seg := (limit_of cfg (Z.of_nat (length seg))).

(** The receiver's callbacks do not fail. *)
Definition reliable : Prop := forall n, take_rc n = 0.

(** Then the window of the sender fits into the receiver's. *)
Definition calm : Prop := reliable /\ window <= rw.

(** A packet on the wire. *)
Definition packet_ok segs (fin : Prop) (next : nat) (r : WirehairSegmentReceiver)
    (q : WireHeader * option (list byte)) : Prop :=
  genuine cfg segs flow dst ttl (fst q) (snd q) /\ (wh_type (fst q) = WIRE_TYPE_END -> fin) /\
  (calm -> in_reach next r (fst q)).

(** Per segment, [f] counts the packets that were accepted; they are its first ones, in order. *)
Definition counts_ok (segs : list (list byte)) (f : nat -> Z) (c : Wire) : Prop :=
  (forall i, sent_ids i (w_packets c) = seqZ 0 (f i)) /\
  forall i seg, segs !! i = Some seg -> 0 <= f i <= seg_limit seg.

Definition sink_ok segs (next : nat) (R : nat -> Prop) (k : Sink) : Prop :=
  k_segments k = take next segs /\ Forall (fun h => exists i, ack_of flow i h /\ R i) (k_acks k).

Record sys_ok (A : nat -> Prop) (f : nat -> Z) (base next : nat) (y : Sys) : Prop := {
  so_sender : sender_ok cfg flow dst ttl (y_segs y) A f base (y_sender y);
  so_recv : recv_ok (y_segs y) flow next (y_receiver y);
  so_segs : Forall (segment_ok cfg) (y_segs y);
  so_window : rv_window (y_receiver y) = rw;
  so_acked i : A i -> is_done next (y_receiver y) i;
  so_net : Forall (packet_ok (y_segs y) (sr_input_finished (y_sender y) = true) next (y_receiver y))
             (w_packets (y_wire y));
  so_end : rv_end_seen (y_receiver y) = true -> sr_input_finished (y_sender y) = true;
  so_counts : counts_ok (y_segs y) f (y_wire y);
  so_sink : sink_ok (y_segs y) next (is_done next (y_receiver y)) (y_sink y);
  so_calm : calm -> settled (y_segs y) next (y_receiver y) /\ rv_ahead_window_drops (y_receiver y) = 0;
  so_timeout : sr_ack_timed_out (y_sender y) = true ->
    exists i seg, y_segs y !! i = Some seg /\ f i = seg_limit seg }.

Lemma packet_ok_mono segs (fin fin' : Prop) next next' r r' q :
  (fin -> fin') -> (next <= next')%nat -> rv_window r' = rv_window r ->
  packet_ok segs fin next r q -> packet_ok segs fin' next' r' q.
Proof using Type.
  intros H1 H2 H3 (P1 & P2 & P3). split_and!; [done|auto|]. intros Hc. destruct (P3 Hc) as [|H]; [by left|right].
  rewrite H3. lia.
Qed.

(** ** The sender's packets *)

(** What the emit callback keeps while nothing else moves. *)
Definition wire_inv segs fin next r (f : nat -> Z) (c : Wire) : Prop :=
  counts_ok segs f c /\ Forall (packet_ok segs fin next r) (w_packets c).

Lemma wire_packet segs fin A next r f i seg id p kind c rc c' :
  Forall (segment_ok cfg) segs ->
  (calm -> settled segs next r) -> rv_window r = rw -> (forall i, A i -> is_done next r i) ->
  segs !! i = Some seg -> may_send cfg A i -> 0 <= id < seg_limit seg ->
  packet_of seg id = Some p -> f i = id -> wire_inv segs fin next r f c ->
  transmit emit_rc (packet_header (target_of cfg seg flow (Z.of_nat i) dst ttl) id (Z.of_nat (length p))) (Some p) kind c
    = (rc, c') ->
  wire_inv segs fin next r (if rc =? 0 then upd f i (id + 1) else f) c'.
Proof using Hcfg.
  intros Hsegs Hset Hrw HA Hi (b & Hb & Hwin) Hid Hp Hf [[C1 C2] N]. unfold transmit. intros [= <- <-].
  destruct (Z.eqb_spec (emit_rc (w_calls c)) 0) as [_|_]; [|done].
  pose proof (seg_ok cfg segs Hsegs i seg Hi) as Hok.
  destruct (segment_counts cfg seg Hcfg Hok) as (_ & Hl & _). split; [split|].
  - intros j. cbn [w_packets]. rewrite sent_ids_app, C1, (sent_ids_packet cfg) by lia. unfold upd. case_decide as E.
    + subst j. rewrite Hf, seqZ_app with (n1 := id) (n2 := 1) by lia. cbn. by rewrite Z.add_0_l.
    + by rewrite app_nil_r.
  - intros j seg' Hj. unfold upd. case_decide as E; [|by apply C2]. subst j. rewrite Hi in Hj. injection Hj as <-. lia.
  - cbn [w_packets]. apply list.Forall_app. split; [done|]. apply list.Forall_singleton. split_and!; [by econstructor|done|].
    intros Hc. right. cbn [fst packet_header wh_block_id target_of tg_segment_id].
    assert (b <= next)%nat by (eapply settled_behind; [by apply Hset|]; auto).
    pose proof (w_range cfg Hcfg). destruct Hc as [_ Hc]. rewrite Hrw. lia.
Qed.

Lemma wire_inv_ext segs fin next r f f' c :
  (forall i, f i = f' i) -> wire_inv segs fin next r f c -> wire_inv segs fin next r f' c.
Proof using Type.
  intros Hf [[C1 C2] N]. split; [|done]. split; [intros i; by rewrite <- Hf|].
  intros i seg Hi. rewrite <- Hf. by apply C2.
Qed.

(** ** The receiver's callbacks *)

Lemma sink_take segs n (R : nat -> Prop) seg k rc k' :
  segs !! n = Some seg -> sink_ok segs n R k -> take_segment take_rc flow seg k = (rc, k') ->
  sink_ok segs (if rc =? 0 then S n else n) R k'.
Proof using Type.
  intros Hn [K1 K2]. unfold take_segment. intros [= <- <-]. destruct (_ =? 0); [|done].
  split; [|done]. cbn. by rewrite K1, (take_S_r _ _ _ Hn).
Qed.

Lemma sink_ack segs n (R : nat -> Prop) i h k rc k' :
  R i -> ack_of flow i h -> sink_ok segs n R k -> send_ack take_rc h k = (rc, k') -> sink_ok segs n R k'.
Proof using Type.
  intros Hi Ha [K1 K2]. unfold send_ack. intros [= <- <-]. split; [done|]. cbn. destruct (_ =? 0); [|done].
  apply list.Forall_app. split; [done|]. apply list.Forall_singleton. by exists i.
Qed.

Lemma sink_mono segs n (R R' : nat -> Prop) k :
  (forall i, R i -> R' i) -> sink_ok segs n R k -> sink_ok segs n R' k.
Proof using Type.
  intros H [K1 K2]. split; [done|]. eapply list.Forall_impl; [exact K2|]. cbn. intros h (i & H1 & H2). exists i. auto.
Qed.

(** A packet that was sent arrives. *)
Lemma deliver_ok A f base next s r c k segs n alloc :
  sys_ok A f base next (mkSys s r c k segs) -> Z.of_nat (length segs) < 2 ^ 63 ->
  exists next' y', sys_step emit_rc take_rc once (mkSys s r c k segs) (Deliver n alloc) = Some y' /\
    y_segs y' = segs /\ sys_ok A f base next' y'.
Proof using FountainCode0 Hcfg.
  intros Hy Hlen. cbn [sys_step]. destruct (w_packets c !! n) as [[h p]|] eqn:Hn; [|by exists next, (mkSys s r c k segs)].
  pose proof (so_net _ _ _ _ _ Hy) as Hnet. rewrite list.Forall_lookup in Hnet. specialize (Hnet n _ Hn). cbn in Hnet.
  destruct Hnet as (Hg & Hfin & Hre). cbn [fst snd] in *.
  destruct (decide (in_reach next r h)) as [Hin|Hout]; cycle 1.
  { rewrite (ingest_ahead cfg Hcfg segs (so_segs _ _ _ _ _ Hy) Hlen flow dst ttl _ _ alloc next r k h p (so_recv _ _ _ _ _ Hy) Hg Hout).
    exists next. eexists. split; [done|]. split; [done|]. destruct Hy. split; try done; cbn [y_receiver y_segs] in *.
    - by apply recv_ok_counts.
    - intros Hc. by destruct (Hout (Hre Hc)). }
  destruct (ingest_ok cfg Hcfg segs (so_segs _ _ _ _ _ Hy) Hlen flow dst ttl (take_segment take_rc) (Some (send_ack take_rc))
    (sink_ok segs)) with (reliable := reliable) (ended := sr_input_finished s = true) (alloc := alloc) (next := next) (r := r) (c := k) (h := h) (payload := p)
    as (rc & r' & k' & next' & E & G1 & G2 & G3 & [_ G4 G5 G5'] & G6 & G7).
  - intros m R seg k0 rc k1. apply sink_take.
  - intros m R i h0 g k0 rc k1 [= <-]. apply sink_ack.
  - intros m R R' k0. apply sink_mono.
  - intros Hrel g seg k0. cbn. apply Hrel.
  - intros Hrel g h0 k0 [= <-]. cbn. apply Hrel.
  - apply Hy.
  - apply (so_sink _ _ _ _ _ Hy).
  - done.
  - done.
  - done.
  - rewrite E. exists next'. eexists. split; [done|]. split; [done|]. destruct Hy. cbn [y_receiver y_segs y_sender y_wire y_sink] in *.
    split; cbn [y_receiver y_segs y_sender y_wire y_sink]; try done; [congruence|auto| | |].
    + eapply list.Forall_impl; [exact so_net0|]. intros q. by apply packet_ok_mono.
    + intros He. destruct (G5' He); auto.
    + intros Hc. destruct (so_calm0 Hc) as [S1 S2]. split; [|congruence]. apply G7; [apply Hc|done].
Qed.

(** ** Steps of the sender *)

(** What the sender knows of the receiver does not change. *)
Lemma sender_step A f f' base base' next s s' r c c' k segs :
  sys_ok A f base next (mkSys s r c k segs) ->
  sender_ok cfg flow dst ttl segs A f' base' s' ->
  (sr_input_finished s = true -> sr_input_finished s' = true) ->
  wire_inv segs (sr_input_finished s' = true) next r f' c' ->
  (sr_ack_timed_out s' = true -> exists i seg, segs !! i = Some seg /\ f' i = seg_limit seg) ->
  sys_ok A f' base' next (mkSys s' r c' k segs).
Proof using Type. intros [] Hs Hfin [C N] Ht. split; try done. cbn in *. auto. Qed.

Lemma wire_inv_of A f base next s r c k segs :
  sys_ok A f base next (mkSys s r c k segs) -> wire_inv segs (sr_input_finished s = true) next r f c.
Proof using Type. intros []. by split. Qed.

(** The packet count of a segment in flight is that of its encoder. *)
Lemma flight_count segs A f f' base s i :
  sender_ok cfg flow dst ttl segs A f base s -> sender_ok cfg flow dst ttl segs A f' base s ->
  (base <= i < length segs)%nat -> f i = f' i.
Proof using Type.
  intros H1 H2 Hi.
  destruct (is_tx _ _ _ _ _ _ _ _ _ (sk_flight _ _ _ _ _ _ _ _ _ H1 i Hi)) as (? & tx & _ & _ & E1 & _ & ->).
  destruct (is_tx _ _ _ _ _ _ _ _ _ (sk_flight _ _ _ _ _ _ _ _ _ H2 i Hi)) as (? & tx' & _ & _ & E2 & _ & ->).
  congruence.
Qed.

Lemma tick_step A f base next s r c k segs now :
  sys_ok A f base next (mkSys s r c k segs) ->
  exists f' base' y', sys_step emit_rc take_rc once (mkSys s r c k segs) (Tick now) = Some y' /\
    y_segs y' = segs /\ sys_ok A f' base' next y'.
Proof using Hcfg.
  intros Hy. cbn [sys_step]. destruct (wirehair_segment_sender_tick _ _ _ _) as [[rc s'] c'] eqn:Ht.
  destruct (tick_ok cfg Hcfg flow dst ttl (transmit emit_rc) segs A (wire_inv segs (sr_input_finished s = true) next r))
    with (f := f) (base := base) (s := s) (c := c) (now := now) (rc := rc) (s' := s') (c' := c')
    as (base' & Hb & (f' & H1 & H2 & H3) & _ & Hfin & Hto).
  - intros g i seg id p kind c0 rc0 c1. apply wire_packet; apply Hy.
  - intros g g' c0. apply wire_inv_ext.
  - apply Hy.
  - by eapply wire_inv_of.
  - done.
  - exists f', base'. eexists. split; [done|]. split; [done|].
    apply (sender_step A f f' base base' next s s' r c); try done; [by rewrite Hfin|by rewrite Hfin|].
    intros Htt. destruct (Hto Htt) as [Ht0|(seg & E1 & f2 & E2 & E3)].
    + destruct (so_timeout _ _ _ _ _ Hy Ht0) as (i & seg & E1 & E2). exists i, seg. split; [done|]. cbn in E1.
      destruct H2 as [[_ C] _]. specialize (C i seg E1). specialize (H3 i). lia.
    + exists base', seg. split; [done|]. apply lookup_lt_Some in E1 as Hlt. rewrite <- E3. eapply flight_count; [done..|]. lia.
Qed.

Lemma end_step A f base next s r c k segs :
  sys_ok A f base next (mkSys s r c k segs) ->
  exists y', sys_step emit_rc take_rc once (mkSys s r c k segs) TryEnd = Some y' /\
    y_segs y' = segs /\ sys_ok A f base next y'.
Proof using Hcfg.
  intros Hy. cbn [sys_step]. destruct (wirehair_segment_sender_try_emit_end _ _ _) as [[rc s'] c'] eqn:Ht.
  destruct (try_emit_end_ok cfg flow dst ttl (transmit emit_rc) segs A (wire_inv segs True next r))
    with (f := f) (base := base) (s := s) (c := c) (rc := rc) (s' := s') (c' := c')
    as (H1 & [C N] & Hfin & Hto & Hsame).
  - intros g h c0 rc0 c1 E1 E2 E3 E4 _ [C N]. unfold transmit. intros [= <- <-].
    destruct (_ =? 0); [|done]. split; cycle 1.
    { cbn. apply list.Forall_app. split; [done|]. apply list.Forall_singleton. split_and!; [by apply genuine_end|done|by left]. }
    destruct C as [C1 C2]. split; [|done]. intros i. cbn [w_packets]. rewrite sent_ids_app, C1.
    unfold sent_ids. rewrite filter_cons_False; [apply app_nil_r|]. cbn. rewrite E3. by intros [].
  - apply Hy.
  - destruct (wire_inv_of _ _ _ _ _ _ _ _ _ Hy) as [C N]. split; [done|]. eapply list.Forall_impl; [exact N|]. intros q. by apply packet_ok_mono.
  - done.
  - eexists. split; [done|]. split; [done|].
    apply (sender_step A f f base base next s s' r c); try done; [by rewrite Hfin| |rewrite Hto; apply (so_timeout _ _ _ _ _ Hy)].
    rewrite Hfin. destruct (sr_input_finished s) eqn:E.
    + split; [done|]. eapply list.Forall_impl; [exact N|]. intros q. by apply packet_ok_mono.
    + rewrite Hsame, <- E by done. by eapply wire_inv_of.
Qed.

Lemma finish_step A f base next s r c k segs :
  sys_ok A f base next (mkSys s r c k segs) ->
  sys_ok A f base next (mkSys (wirehair_segment_sender_mark_input_finished s) r c k segs).
Proof using Type.
  intros Hy. destruct (wire_inv_of _ _ _ _ _ _ _ _ _ Hy) as [C N].
  apply (sender_step A f f base base next s _ r c); try done; [apply sender_ok_finish, Hy| |apply (so_timeout _ _ _ _ _ Hy)].
  split; [done|]. eapply list.Forall_impl; [exact N|]. intros q. by apply packet_ok_mono.
Qed.

Lemma admit_flags a1 a2 a3 id data s :
  sr_ack_timed_out (snd (wirehair_segment_sender_admit once a1 a2 a3 id (Some data) s)) = sr_ack_timed_out s.
Proof using Type. unfold wirehair_segment_sender_admit. by repeat (case_match; try done). Qed.

Lemma admit_step A f base next s r c k segs id data a1 a2 a3 :
  sys_ok A f base next (mkSys s r c k segs) -> Z.of_nat (S (length segs)) < 2 ^ 63 ->
  exists y', sys_step emit_rc take_rc once (mkSys s r c k segs) (Admit id data a1 a2 a3) = Some y' /\
    (length (y_segs y') <= S (length segs))%nat /\ sys_ok A f base next y'.
Proof using Hcfg.
  intros Hy Hlen. cbn [sys_step]. pose proof (admit_flags a1 a2 a3 id data s) as Hto.
  destruct (wirehair_segment_sender_admit _ _ _ _ _ _ _) as [rc s'] eqn:Ha. cbn [snd] in Hto.
  destruct (admit_ok cfg Hcfg flow dst ttl segs A f base s once a1 a2 a3 id data rc s' (so_sender _ _ _ _ _ Hy) Hlen Ha)
    as [[Hrc ->]|(-> & -> & Hok & F1 & F2 & Hs)].
  { rewrite (proj2 (Z.eqb_neq rc 0)) by done. eexists. split; [done|]. split; [cbn; lia|done]. }
  eexists. split; [done|]. split; [cbn; rewrite length_app; cbn; lia|]. cbn [Z.eqb].
  pose proof (sk_future _ _ _ _ _ _ _ _ _ (so_sender _ _ _ _ _ Hy)) as Hfut. destruct Hy. cbn in *.
  assert (He : rv_end_seen r = false).
  { destruct (rv_end_seen r); [|done]. rewrite so_end0 in F1 by done. done. }
  split; cbn; try done.
  - by apply recv_ok_grow.
  - apply list.Forall_app. split; [done|]. by apply list.Forall_singleton.
  - eapply list.Forall_impl; [exact so_net0|]. intros q (P1 & P2 & P3). rewrite F1 in P2. split_and!; try done.
    + apply genuine_grow; [done|]. intros Hty. by apply P2 in Hty.
    + intros Hty. by apply P2 in Hty.
  - by rewrite He.
  - destruct so_counts0 as [C1 C2]. split; [done|]. intros i seg Hi. apply lookup_app_Some in Hi as [Hi|[Hge Hi]]; [by apply C2|].
    apply list_lookup_singleton_Some in Hi as [Hi <-]. rewrite Hfut by lia.
    destruct (segment_counts cfg data Hcfg Hok) as (Hn & Hl & _). lia.
  - destruct so_sink0 as [K1 K2]. split; [|done]. rewrite K1. symmetry. apply take_app_le. apply so_recv0.
  - intros Hc. destruct (so_calm0 Hc). split; [|done]. by apply settled_grow.
  - rewrite Hto. intros Ht. destruct (so_timeout0 Ht) as (i & seg & H1 & H2). exists i, seg. split; [by apply lookup_app_l_Some|done].
Qed.

Lemma ack_datagram_decode h :
  header_ok h -> wire_header_decode (ack_datagram h) = Some (as_v4 h).
Proof using Type.
  intros Hh. unfold ack_datagram. rewrite encode_v4_bytes by (rewrite length_replicate; lia). by apply decode_v4_bytes.
Qed.

Lemma ack_step A f base next s r c k segs n now :
  sys_ok A f base next (mkSys s r c k segs) ->
  exists A' base' y', sys_step emit_rc take_rc once (mkSys s r c k segs) (DeliverAck n now) = Some y' /\
    y_segs y' = segs /\ sys_ok A' f base' next y'.
Proof using Hcfg.
  intros Hy. cbn [sys_step]. destruct (k_acks k !! n) as [h|] eqn:Hn; [|by exists A, base, (mkSys s r c k segs)].
  destruct (so_sink _ _ _ _ _ Hy) as [_ K]. rewrite list.Forall_lookup in K. destruct (K n h Hn) as (i & (H1 & H2 & H3 & H4 & H5) & Hi).
  destruct (input_ack_ok cfg Hcfg flow dst ttl segs A f base (ack_datagram h) now s (so_sender _ _ _ _ _ Hy)) as (base' & _ & Hs).
  destruct (input_ack_flags (ack_datagram h) now s) as (E1 & E2 & E3).
  destruct (wirehair_segment_sender_input_ack _ _ _) as [rc s']. cbn [snd] in *.
  eexists _, base', _. split; [done|]. split; [done|].
  destruct (wire_inv_of _ _ _ _ _ _ _ _ _ Hy) as [C N]. destruct Hy. cbn [y_receiver y_segs y_sender y_wire y_sink] in *.
  split; cbn [y_receiver y_segs y_sender y_wire y_sink]; try done.
  - intros j [HA|(h' & D1 & D2 & D3 & D4)]; [by apply so_acked0|]. rewrite ack_datagram_decode in D1 by done.
    injection D1 as <-. cbn in D4. assert (j = i) as -> by lia. done.
  - by rewrite E1.
  - by rewrite E1.
  - by rewrite E3.
Qed.

(** ** Runs *)

Lemma step_ok_sys A f base next y op :
  sys_ok A f base next y -> Z.of_nat (S (length (y_segs y))) < 2 ^ 63 ->
  exists A' f' base' next' y', sys_step emit_rc take_rc once y op = Some y' /\
    (length (y_segs y') <= S (length (y_segs y)))%nat /\ sys_ok A' f' base' next' y'.
Proof using FountainCode0 Hcfg.
  intros Hy Hlen. destruct y as [s r c k segs]. cbn [y_segs] in *. destruct op as [id data a1 a2 a3| |now| |n alloc|n now].
  - destruct (admit_step _ _ _ _ _ _ _ _ _ id data a1 a2 a3 Hy Hlen) as (y' & H). by exists A, f, base, next, y'.
  - exists A, f, base, next. eexists. split; [done|]. split; [cbn; lia|]. by apply finish_step.
  - destruct (tick_step _ _ _ _ _ _ _ _ _ now Hy) as (f' & base' & y' & H1 & H2 & H3).
    exists A, f', base', next, y'. rewrite H2. split_and!; try done; lia.
  - destruct (end_step _ _ _ _ _ _ _ _ _ Hy) as (y' & H1 & H2 & H3).
    exists A, f, base, next, y'. rewrite H2. split_and!; try done; lia.
  - destruct (deliver_ok _ _ _ _ _ _ _ _ _ n alloc Hy ltac:(lia)) as (next' & y' & H1 & H2 & H3).
    exists A, f, base, next', y'. rewrite H2. split_and!; try done; lia.
  - destruct (ack_step _ _ _ _ _ _ _ _ _ n now Hy) as (A' & base' & y' & H1 & H2 & H3).
    exists A', f, base', next, y'. rewrite H2. split_and!; try done; lia.
Qed.

Lemma run_ok A f base next y ops :
  sys_ok A f base next y -> Z.of_nat (length (y_segs y) + length ops) < 2 ^ 63 ->
  exists A' f' base' next' y', sys_run emit_rc take_rc once y ops = Some y' /\ sys_ok A' f' base' next' y'.
Proof using FountainCode0 Hcfg.
  revert A f base next y. induction ops as [|op ops IH]; intros A f base next y Hy Hlen; cbn [sys_run].
  { by exists A, f, base, next, y. }
  cbn [length] in Hlen. destruct (step_ok_sys A f base next y op Hy ltac:(lia)) as (A1 & f1 & b1 & n1 & y1 & E & Hl & Hy1).
  rewrite E. apply (IH A1 f1 b1 n1 y1 Hy1). lia.
Qed.

End Channel.
