(* ===== verification/WirehairTheorems.v ===== *)
(** * Theorems on the segment transport

    What the sliding-window sender and the receiver of Wirehair segments guarantee together, over
    a network that loses, repeats and reorders, and where the sender gives up. *)

From Stdlib Require Import Strings.Byte.
From S2P Require Import Prelude WireHeader WirehairSegment WirehairReceiver WirehairSender.
From S2P Require Import WirehairSegmentSpec WirehairReceiverSpec WirehairSendSpec.
From S2P Require Import WirehairSenderSpec WirehairChannel.

Local Open Scope Z_scope.

Section Theorems.
Context `{host : HostOrder} `{wh : Wirehair} `{!FountainCode wh}.

Lemma receiver_create_ok once rcfg flow r :
  config_ok rcfg -> in_range 32 flow ->
  wirehair_segment_receiver_create once true true (Some rcfg) flow = Some r ->
  recv_ok [] flow 0 r /\ rv_window r = wirehair_segment_window (Some rcfg) /\
  settled [] 0 r /\ rv_ahead_window_drops r = 0 /\ rv_end_seen r = false.
Proof using Type.
  intros Hr Hf. unfold wirehair_segment_receiver_create. case_match; [done|]. intros [= <-].
  destruct (config_ok_facts rcfg Hr) as (_ & _ & Ho & Ht & _ & Hw & _).
  assert (Hz : forall i, rv_slot (mkReceiver rcfg flow (wirehair_segment_window (Some rcfg)) 0 0 false false 0 0 0
    (replicate 16 0) (replicate 16 false) (replicate 16 slot_zero)) i = slot_zero).
  { intros i. unfold rv_slot. by do 17 (destruct i as [|i]; [done|]). }
  split_and!; try done; [|split; [intros j; by rewrite Hz|done]].
  split; try done.
  - cbn. unfold in_range in *. lia.
  - intros i. by rewrite Hz.
  - intros i. rewrite Hz. by left.
  - intros i _. by rewrite Hz.
  - intros i j. rewrite Hz. by intros [].
  - intros id. split.
    + unfold in_table, wirehair_segment_receiver_segment_recovered. cbn [rv_recovered_valid].
      generalize (table_index id). intros i. by do 17 (destruct i as [|i]; [done|]).
    + intros (i & Hi & _). by rewrite Hz in Hi.
Qed.

Lemma channel_start_ok once cfg rcfg flow dst ttl take_rc y :
  config_ok rcfg -> in_range 32 flow -> sys_start once cfg rcfg flow dst ttl = Some y ->
  sys_ok cfg flow dst ttl take_rc (wirehair_segment_window (Some rcfg)) (fun _ => False) (fun _ => 0) 0 0 y /\
  y_segs y = [].
Proof using Type.
  intros Hr Hf. unfold sys_start.
  destruct (wirehair_segment_sender_create _ _ _ _ _ _) as [s|] eqn:Hs; [|done].
  destruct (wirehair_segment_receiver_create _ _ _ _ _) as [r|] eqn:Hrc; [|done]. intros [= <-]. split; [|done].
  destruct (receiver_create_ok once rcfg flow r Hr Hf Hrc) as (R1 & R2 & R3 & R4 & R5).
  destruct (sender_create_ok cfg flow dst ttl true s Hs) as [S1 _].
  assert (Ht : sr_ack_timed_out s = false).
  { revert Hs. unfold wirehair_segment_sender_create. case_match; [done|]. by intros [= <-]. }
  split; cbn; try done.
  - by rewrite R5.
  - by rewrite Ht.
Qed.

(** An idle sender has had everything acknowledged. *)
Lemma idle_all_done cfg flow dst ttl take_rc rw A f base next y i :
  sys_ok cfg flow dst ttl take_rc rw A f base next y ->
  wirehair_segment_sender_idle (Some (y_sender y)) = true -> (i < length (y_segs y))%nat ->
  is_done next (y_receiver y) i.
Proof using Type.
  intros Hy Hidle Hi. cbn in Hidle. rewrite !andb_true_iff, Z.eqb_eq in Hidle. destruct Hidle as ((_ & Hc) & _).
  pose proof (so_sender _ _ _ _ _ _ _ _ _ _ _ Hy) as Hs. rewrite (sk_count _ _ _ _ _ _ _ _ _ Hs) in Hc.
  apply (so_acked _ _ _ _ _ _ _ _ _ _ _ Hy), (sk_done _ _ _ _ _ _ _ _ _ Hs). lia.
Qed.

Section Run.
Context (cfg rcfg : WirehairSegmentConfig) (flow dst ttl : Z) (once : bool).
Context (emit_rc take_rc : nat -> Z) (y0 : Sys) (ops : list SysOp).

(** A run of the transport from its start: [emit_rc] and [take_rc] are the answers of the
    callbacks. *)
Definition transport_run (y : Sys) : Prop :=
  config_ok cfg /\ config_ok rcfg /\ in_range 32 flow /\ Z.of_nat (length ops) < 2 ^ 63 /\
  sys_start once cfg rcfg flow dst ttl = Some y0 /\ sys_run emit_rc take_rc once y0 ops = Some y.

Lemma transport_run_ok y :
  transport_run y -> exists A f base next,
    sys_ok cfg flow dst ttl take_rc (wirehair_segment_window (Some rcfg)) A f base next y.
Proof using FountainCode0.
  intros (Hc & Hr & Hf & Hn & H0 & Hy). destruct (channel_start_ok once cfg rcfg flow dst ttl take_rc y0 Hr Hf H0) as [Hy0 E].
  destruct (run_ok cfg Hc flow dst ttl emit_rc take_rc once _ _ _ _ _ y0 ops Hy0) as (A & f & b & n & y' & E1 & H1).
  { rewrite E. exact Hn. }
  rewrite Hy in E1. injection E1 as <-. by exists A, f, b, n.
Qed.
End Run.

(** C15: whatever the network loses, repeats or reorders and whatever the callbacks answer, a run of
    sender and receiver does not get stuck, and the segments the output callback has taken are a
    prefix of the admitted ones, byte for byte and in order; a receiver that is complete has handed
    out all of them; and when the sender is idle every admitted segment has been handed out or sits
    recovered in the receiver's window. *)
Theorem wirehair_transport_in_order cfg rcfg flow dst ttl once emit_rc take_rc y0 ops :
  config_ok cfg -> config_ok rcfg -> in_range 32 flow -> Z.of_nat (length ops) < 2 ^ 63 ->
  sys_start once cfg rcfg flow dst ttl = Some y0 ->
  exists y, sys_run emit_rc take_rc once y0 ops = Some y /\
    k_segments (y_sink y) `prefix_of` y_segs y /\
    (wirehair_segment_receiver_complete (Some (y_receiver y)) = true -> k_segments (y_sink y) = y_segs y) /\
    (wirehair_segment_sender_idle (Some (y_sender y)) = true -> forall i seg, y_segs y !! i = Some seg ->
       k_segments (y_sink y) !! i = Some seg \/
       exists j, sl_state (rv_slot (y_receiver y) j) = WH_SEG_SLOT_RECOVERED /\
         sl_segment_id (rv_slot (y_receiver y) j) = Z.of_nat i /\
         sl_recovered (rv_slot (y_receiver y) j) = Some (message_of seg)).
Proof using FountainCode0.
  intros Hc Hr Hf Hn H0. destruct (channel_start_ok once cfg rcfg flow dst ttl take_rc y0 Hr Hf H0) as [Hy0 E].
  destruct (run_ok cfg Hc flow dst ttl emit_rc take_rc once _ _ _ _ _ y0 ops Hy0) as (A & f & b & next & y & E1 & Hy).
  { rewrite E. exact Hn. }
  exists y. destruct (so_sink _ _ _ _ _ _ _ _ _ _ _ Hy) as [K _]. pose proof (so_recv _ _ _ _ _ _ _ _ _ _ _ Hy) as Hre.
  split; [done|]. split; [rewrite K; apply prefix_take|]. split.
  - cbn. intros Hcomp. apply (ro_complete _ _ _ _ Hre) in Hcomp as [_ ->]. rewrite K. by apply take_ge.
  - intros Hidle i seg Hi. apply lookup_lt_Some in Hi as Hlt.
    destruct (idle_all_done _ _ _ _ _ _ _ _ _ _ _ i Hy Hidle Hlt) as [H|(j & H1 & H2)].
    + left. rewrite K, lookup_take_lt by done. exact Hi.
    + right. exists j. split_and!; try done. destruct (ro_holds _ _ _ _ Hre j) as [He|(i' & seg' & G1 & _ & G2 & _ & _ & G3)].
      { by apply recovered_not_empty in H1. }
      rewrite H1 in G3. assert (i' = i) as -> by lia. rewrite Hi in G1. by injection G1 as <-.
Qed.

(** C16: when the receiver's callbacks accept what they are given and its window is at least the
    sender's, the sender never runs ahead of it: no packet is dropped for lying beyond the window,
    and an idle sender means that every admitted segment has been handed out. *)
Theorem wirehair_window_never_overrun cfg rcfg flow dst ttl once emit_rc take_rc y0 ops y :
  transport_run cfg rcfg flow dst ttl once emit_rc take_rc y0 ops y ->
  (forall n, take_rc n = 0) ->
  wirehair_segment_window (Some cfg) <= wirehair_segment_window (Some rcfg) ->
  wirehair_segment_receiver_ahead_drops (Some (y_receiver y)) = 0 /\
  (wirehair_segment_sender_idle (Some (y_sender y)) = true -> k_segments (y_sink y) = y_segs y).
Proof using FountainCode0.
  intros Hrun Hrel Hw. destruct (transport_run_ok _ _ _ _ _ _ _ _ _ _ _ Hrun) as (A & f & b & next & Hy).
  destruct (so_calm _ _ _ _ _ _ _ _ _ _ _ Hy (conj Hrel Hw)) as [Hset Hdrop]. split; [done|]. intros Hidle.
  destruct (so_sink _ _ _ _ _ _ _ _ _ _ _ Hy) as [-> _]. apply take_ge.
  eapply settled_behind; [exact Hset|]. intros j Hj. by eapply idle_all_done.
Qed.

(** C17: the packets of every segment leave the sender in order and each at most once, the source
    packets first, never more than the segment's limit; and the sender reports an acknowledgement
    timeout only after it has sent every packet of some segment. *)
Theorem wirehair_sender_packets_once cfg rcfg flow dst ttl once emit_rc take_rc y0 ops y :
  transport_run cfg rcfg flow dst ttl once emit_rc take_rc y0 ops y ->
  (forall i seg, y_segs y !! i = Some seg ->
     exists n, 0 <= n <= limit_of cfg (Z.of_nat (length seg)) /\ sent_ids i (w_packets (y_wire y)) = seqZ 0 n) /\
  (st_ack_timed_out (wirehair_segment_sender_get_stats (Some (y_sender y))) = true ->
     exists i seg, y_segs y !! i = Some seg /\
       sent_ids i (w_packets (y_wire y)) = seqZ 0 (limit_of cfg (Z.of_nat (length seg)))).
Proof using FountainCode0.
  intros Hrun. destruct (transport_run_ok _ _ _ _ _ _ _ _ _ _ _ Hrun) as (A & f & b & next & Hy).
  destruct (so_counts _ _ _ _ _ _ _ _ _ _ _ Hy) as [C1 C2]. split.
  - intros i seg Hi. exists (f i). split; [by apply C2|apply C1].
  - intros Ht. destruct (so_timeout _ _ _ _ _ _ _ _ _ _ _ Hy Ht) as (i & seg & H1 & H2). exists i, seg. split; [done|].
    by rewrite C1, H2.
Qed.

(** ** Back-pressure *)

Section Busy.
Context (cfg : WirehairSegmentConfig) (Hcfg : config_ok cfg) (flow dst ttl : Z).
Context {C : Type} (emit : WireHeader -> option (list byte) -> WirehairSegmentSenderPacketKind -> C -> Z * C).
Context (Hbusy : forall h p k c, 0 < fst (emit h p k c)).

(** The encoder turns every refusal of the callback into [-1]. *)
Lemma busy_emit_source seg i tx source s c :
  segment_ok cfg seg -> tx_ok cfg seg flow i dst ttl tx ->
  tx_next_packet_id tx < source_of (Z.of_nat (length seg)) ->
  exists tx' sc, wirehair_segment_tx_emit_source (sender_emit_bridge emit source) tx WIREHAIR_SENDER_SOURCE_BATCH (s, c) =
    (-1, tx', sc).
Proof using Hcfg Hbusy.
  intros Hok Htx Hlt. destruct (wirehair_segment_tx_emit_source _ _ _ _) as [[rc tx'] sc] eqn:He. exists tx', sc.
  assert (Hem : emits cfg seg flow i dst ttl (fun n (_ : WirehairSegmentSender * C) => n = tx_next_packet_id tx) tx
    (Z.min (source_of (Z.of_nat (length seg))) (tx_next_packet_id tx + WIREHAIR_SENDER_SOURCE_BATCH)) (rc, tx', sc)).
  { rewrite <- He. apply (emit_source_ok cfg Hcfg seg Hok); try done; [|lia].
    intros id p [s1 c1] rc1 sc1 _ _ -> Hb. unfold sender_emit_bridge in Hb. revert Hb.
    match goal with |- context [emit ?a ?b ?k c1] => pose proof (Hbusy a b k c1); destruct (emit a b k c1) as [rc2 c2] end.
    intros [= <- <-]. cbn in *. by rewrite Z.gtb_ltb, (proj2 (Z.ltb_lt 0 rc2)). }
  destruct Hem as (_ & Hn & _ & [->|[_ Hhi]]); [done|]. unfold WIREHAIR_SENDER_SOURCE_BATCH in *. lia.
Qed.
End Busy.

(** A callback that reports back-pressure ends the transfer.  [sender_emit_bridge] turns a
    positive answer, a full queue, into [-2], which [wirehair_segment_sender_tick] would answer by
    trying again at the next tick; but [emit_one_packet] returns [-1] for every answer but [0], so
    the first refused packet marks the sender as failed for good. *)
Theorem wirehair_backpressure_fails_sender cfg flow dst ttl segs f s seg C
    (emit : WireHeader -> option (list byte) -> WirehairSegmentSenderPacketKind -> C -> Z * C) now c :
  config_ok cfg -> sender_ok cfg flow dst ttl segs (fun _ => False) f 0 s -> segs !! 0%nat = Some seg ->
  f 0%nat < wirehair_segment_source_packets (Z.of_nat (length seg)) -> sr_failed s = false ->
  (forall h p k c, 0 < fst (emit h p k c)) ->
  exists s' c', wirehair_segment_sender_tick emit now s c = (-1, s', c') /\
    wirehair_segment_sender_failed (Some s') = true /\
    forall now' c'', wirehair_segment_sender_tick emit now' s' c'' = (-1, s', c'').
Proof using Type.
  intros Hcfg Hs Hseg Hf Hfail Hbusy. unfold wirehair_segment_sender_tick at 1. rewrite Hfail.
  destruct (apply_acks_ok cfg Hcfg flow dst ttl segs _ f 0 now s Hs) as (base & _ & Hs1).
  assert (base = 0%nat) as ->. { destruct base; [done|]. by destruct (sk_done _ _ _ _ _ _ _ _ _ Hs1 0%nat ltac:(lia)). }
  set (s1 := apply_pending_acks now s) in *. apply lookup_lt_Some in Hseg as Hlt.
  rewrite (sk_window _ _ _ _ _ _ _ _ _ Hs1). pose proof (w_range cfg Hcfg) as Hw.
  destruct (Z.to_nat (wirehair_segment_window (Some cfg))) as [|w] eqn:Ew; [lia|]. cbn [seq tick_loop].
  rewrite (sk_base _ _ _ _ _ _ _ _ _ Hs1), (sk_window _ _ _ _ _ _ _ _ _ Hs1).
  change (u64 (Z.of_nat 0 + Z.of_nat 0)) with (Z.of_nat 0). fold (place cfg 0).
  destruct (sk_flight _ _ _ _ _ _ _ _ _ Hs1 0%nat ltac:(lia)) as [F1 F2 F3 (seg' & tx & G1 & Hok & G2 & Htx & G3)].
  rewrite Hseg in G1. injection G1 as <-. unfold tick_slot. rewrite F1, G2. cbn [negb orb].
  destruct (sd_acked _); [by destruct F3|].
  assert (Hsc : wirehair_segment_tx_source_complete (Some tx) = false).
  { cbn. rewrite Z.geb_leb, Z.leb_gt, (to_source _ _ _ _ _ _ _ Htx). lia. }
  rewrite Hsc. cbn [negb]. unfold tick_source.
  destruct (busy_emit_source cfg Hcfg flow dst ttl emit Hbusy seg _ tx (ss_source_packets (tx_stats tx)) s1 c Hok Htx ltac:(lia))
    as (tx' & [s2 c2] & ->).
  cbn [after_emit Z.ltb Z.compare Z.eqb Z.opp]. eexists _, _. split; [done|]. split; [done|]. intros now' c''.
  unfold wirehair_segment_sender_tick. done.
Qed.

End Theorems.

(** ** A run

    Two segments, each smaller than the codec's minimum: the packets of the second arrive first,
    one packet arrives twice, and the first acknowledgement is lost. *)

Definition demo_ops : list SysOp :=
  [Admit 0 (demo_segment 5) true true true; Admit 1 (demo_segment 7) true true true; Tick 10;
   Deliver 2 true; Deliver 3 true; Deliver 3 true; Deliver 0 true; Deliver 1 true;
   DeliverAck 1 20; DeliverAck 2 30; Finish; TryEnd; Deliver 4 true].

Lemma demo_run :
  match sys_start (wh := repetition) true demo_config demo_config 7 4 8 with
  | Some y0 =>
      match sys_run (host := true) (wh := repetition) (fun _ => 0) (fun _ => 0) true y0 demo_ops with
      | Some y => Some (wirehair_segment_receiver_complete (Some (y_receiver y)),
                        wirehair_segment_sender_idle (Some (y_sender y)),
                        map length (k_segments (y_sink y)), length (w_packets (y_wire y)))
      | None => None
      end
  | None => None
  end = Some (true, true, [5; 7]%nat, 5%nat).
Proof. vm_compute. reflexivity. Qed.

Lemma demo_start :
  exists y0, sys_start (wh := repetition) true demo_config demo_config 7 4 8 = Some y0 /\
    exists y, sys_run (host := true) (fun _ => 0) (fun _ => 0) true y0 demo_ops = Some y /\
      wirehair_segment_receiver_complete (Some (y_receiver y)) = true /\
      wirehair_segment_sender_idle (Some (y_sender y)) = true /\ map length (k_segments (y_sink y)) = [5; 7]%nat.
Proof.
  pose proof demo_run as H. destruct (sys_start _ _ _ _ _ _) as [y0|]; [|done]. exists y0. split; [done|].
  destruct (sys_run _ _ _ _ _) as [y|]; [|done]. exists y. injection H as H1 H2 H3 _. by split_and!.
Qed.

Lemma wirehair_transport_in_order_witness :
  exists y0 y, sys_start (wh := repetition) true demo_config demo_config 7 4 8 = Some y0 /\
    sys_run (host := true) (fun _ => 0) (fun _ => 0) true y0 demo_ops = Some y /\
    k_segments (y_sink y) `prefix_of` y_segs y.
Proof.
  destruct demo_start as (y0 & H0 & _).
  destruct (wirehair_transport_in_order (host := true) demo_config demo_config 7 4 8 true (fun _ => 0) (fun _ => 0) y0 demo_ops
    demo_config_ok demo_config_ok) as (y & H1 & H2 & _); [unfold in_range; lia|cbn; lia|exact H0|].
  exists y0, y. exact (conj H0 (conj H1 H2)).
Defined.

Lemma wirehair_window_never_overrun_witness :
  exists y0 y, sys_run (host := true) (wh := repetition) (fun _ => 0) (fun _ => 0) true y0 demo_ops = Some y /\
    map length (k_segments (y_sink y)) = [5; 7]%nat /\
    wirehair_segment_receiver_ahead_drops (Some (y_receiver y)) = 0 /\ k_segments (y_sink y) = y_segs y.
Proof.
  destruct demo_start as (y0 & H0 & y & H1 & H2 & H3 & H4). exists y0, y.
  destruct (wirehair_window_never_overrun (host := true) demo_config demo_config 7 4 8 true (fun _ => 0) (fun _ => 0) y0 demo_ops y)
    as [H5 H6].
  - split_and!; try done; try apply demo_config_ok; unfold in_range; cbn; lia.
  - done.
  - lia.
  - exact (conj H1 (conj H4 (conj H5 (H6 H3)))).
Defined.

Lemma wirehair_sender_packets_once_witness :
  exists y0 y, sys_run (host := true) (wh := repetition) (fun _ => 0) (fun _ => 0) true y0 demo_ops = Some y /\
    forall i seg, y_segs y !! i = Some seg ->
      exists n, 0 <= n <= limit_of demo_config (Z.of_nat (length seg)) /\ sent_ids i (w_packets (y_wire y)) = seqZ 0 n.
Proof.
  destruct demo_start as (y0 & H0 & y & H1 & _). exists y0, y. split; [exact H1|].
  apply (wirehair_sender_packets_once (host := true) demo_config demo_config 7 4 8 true (fun _ => 0) (fun _ => 0) y0 demo_ops y).
  split_and!; try done; try apply demo_config_ok; unfold in_range; cbn; lia.
Defined.

Lemma demo_admit_result :
  match wirehair_segment_sender_create (wh := repetition) true true (Some demo_config) 7 4 8 with
  | Some s =>
      let '(rc, s') := wirehair_segment_sender_admit true true true true 0 (Some (demo_segment 5)) s in
      (rc, sr_failed s')
  | None => (-1, true)
  end = (0, false).
Proof. vm_compute. reflexivity. Qed.

Lemma demo_admitted :
  exists s, sender_ok (wh := repetition) demo_config 7 4 8 [demo_segment 5] (fun _ => False) (fun _ => 0) 0 s /\
    sr_failed s = false.
Proof.
  pose proof demo_admit_result as E. destruct (wirehair_segment_sender_create _ _ _ _ _ _) as [s|] eqn:Hs; [|done].
  destruct (sender_create_ok (wh := repetition) demo_config 7 4 8 true s Hs) as [H1 _].
  destruct (wirehair_segment_sender_admit _ _ _ _ _ _ _) as [rc s'] eqn:Ha. injection E as -> E.
  destruct (admit_ok demo_config demo_config_ok 7 4 8 _ _ _ _ _ _ _ _ _ _ _ _ _ H1 ltac:(cbn; lia) Ha)
    as [[]|(_ & _ & _ & _ & _ & H3)]; [done|]. by exists s'.
Qed.

Lemma wirehair_backpressure_fails_sender_witness :
  exists s s' : WirehairSegmentSender (wh := repetition),
    wirehair_segment_sender_failed (Some s) = false /\
    wirehair_segment_sender_tick (fun _ _ _ c => (1, c)) 10 s tt = (-1, s', tt) /\
    wirehair_segment_sender_failed (Some s') = true.
Proof.
  destruct demo_admitted as (s & Hs & Hf).
  destruct (wirehair_backpressure_fails_sender demo_config 7 4 8 [demo_segment 5] (fun _ => 0) s (demo_segment 5) unit
    (fun _ _ _ c => (1, c)) 10 tt demo_config_ok Hs eq_refl eq_refl Hf) as (s' & [] & H1 & H2 & _); [cbn; lia|].
  exists s, s'. exact (conj Hf (conj H1 H2)).
Defined.
