(* ===== verification/FlowPeerMap.v ===== *)
(** * The 5-tuple table: src/src/flow_peer_map.c

    A [sockaddr_storage] is the list of its 128 bytes.  [flow_peer_map_lookup] scans the
    entries in order, assigns the next flow id on first sight and doubles the table when it is
    full; [oom] is a failing [realloc].  Flow ids and the limit are [uint32_t]. *)

From S2P Require Import Prelude.

Local Open Scope Z_scope.

Inductive FlowPeerMapStatus := FPM_OK | FPM_ERR_INVALID | FPM_ERR_ALLOC | FPM_ERR_LIMIT.

Record FlowTuple := mkTuple {
  ft_src : list Z;
  ft_src_len : nat;
  ft_dst : list Z;
  ft_dst_len : nat;
  ft_protocol : Z
}.

#[export] Instance FlowTuple_eq_dec : EqDecision FlowTuple.
Proof. solve_decision. Defined.

Definition SOCKADDR_STORAGE_SIZE : nat := 128.

Record FlowPeerEntry := mkEntry { fe_tuple : FlowTuple; fe_flow_id : Z }.

(** [entries] has [capacity] slots, of which the first [count] are in use. *)
Record FlowPeerMap := mkPeerMap {
  pm_entries : list FlowPeerEntry;
  pm_count : nat;
  pm_capacity : nat;
  pm_next_flow_id : Z;
  pm_max_flows : Z
}.

(** [(uint32_t)-1]. *)
Definition NO_FLOW : Z := 2 ^ 32 - 1.

Definition entry_zero : FlowPeerEntry :=
  mkEntry (mkTuple (replicate SOCKADDR_STORAGE_SIZE 0) 0 (replicate SOCKADDR_STORAGE_SIZE 0) 0 0) 0.

Definition sockaddr_equal (a : list Z) (alen : nat) (b : list Z) (blen : nat) : bool :=
  if (alen =? 0)%nat || (blen =? 0)%nat then false
  else if negb (alen =? blen)%nat then false
  else bool_decide (take alen a = take alen b).

Definition tuple_equal (a b : FlowTuple) : bool :=
  if negb (ft_protocol a =? ft_protocol b) then false
  else sockaddr_equal (ft_src a) (ft_src_len a) (ft_src b) (ft_src_len b) &&
       sockaddr_equal (ft_dst a) (ft_dst_len a) (ft_dst b) (ft_dst_len b).

(** [None] is the result -1; [src] and [dst] have at least the given lengths. *)
Definition flow_tuple_set (src : list Z) (src_len : nat) (dst : list Z) (dst_len : nat) (protocol : Z)
  : option FlowTuple :=
  if (src_len =? 0)%nat || (dst_len =? 0)%nat || (SOCKADDR_STORAGE_SIZE <? src_len)%nat ||
     (SOCKADDR_STORAGE_SIZE <? dst_len)%nat then None
  else Some (mkTuple
    (write_at (replicate SOCKADDR_STORAGE_SIZE 0) 0 (take src_len src)) src_len
    (write_at (replicate SOCKADDR_STORAGE_SIZE 0) 0 (take dst_len dst)) dst_len protocol).

Definition flow_peer_map_init (oom_map oom_entries : bool) (max_flows : Z)
  : FlowPeerMapStatus * option FlowPeerMap :=
  if max_flows =? 0 then (FPM_ERR_INVALID, None)
  else if oom_map then (FPM_ERR_ALLOC, None)
  else if oom_entries then (FPM_ERR_ALLOC, None)
  else (FPM_OK, Some (mkPeerMap (replicate 16 entry_zero) 0 16 0 max_flows)).

(** The scan: the flow id of the first of the [n] entries from [i] on that matches. *)
Fixpoint find_tuple (entries : list FlowPeerEntry) (t : FlowTuple) (i n : nat) : option Z :=
  match n with
  | O => None
  | S n' =>
      match entries !! i with
      | None => None
      | Some e => if tuple_equal (fe_tuple e) t then Some (fe_flow_id e) else find_tuple entries t (S i) n'
      end
  end.

Definition flow_peer_map_lookup (oom : bool) (map : FlowPeerMap) (t : FlowTuple) : Z * FlowPeerMap :=
  match find_tuple (pm_entries map) t 0 (pm_count map) with
  | Some fid => (fid, map)
  | None =>
      if pm_max_flows map <=? pm_next_flow_id map then (NO_FLOW, map)
      else if (pm_capacity map <=? pm_count map)%nat && oom then (NO_FLOW, map)
      else
        let map :=
          if (pm_capacity map <=? pm_count map)%nat then
            let new_cap := (pm_capacity map * 2)%nat in
            mkPeerMap (pm_entries map ++ replicate (new_cap - pm_capacity map) entry_zero)
              (pm_count map) new_cap (pm_next_flow_id map) (pm_max_flows map)
          else map in
        (pm_next_flow_id map,
         mkPeerMap (<[pm_count map := mkEntry t (pm_next_flow_id map)]> (pm_entries map))
           (pm_count map + 1) (pm_capacity map) (u32 (pm_next_flow_id map + 1)) (pm_max_flows map))
  end.

(** ** What two equal addresses have in common *)

(** The part of a tuple the comparison looks at. *)
Definition tuple_key (t : FlowTuple) : list Z * list Z * Z :=
  (take (ft_src_len t) (ft_src t), take (ft_dst_len t) (ft_dst t), ft_protocol t).

(** Tuples [flow_tuple_set] can produce. *)
Definition tuple_ok (t : FlowTuple) : Prop :=
  (0 < ft_src_len t <= length (ft_src t))%nat /\ (0 < ft_dst_len t <= length (ft_dst t))%nat.

Lemma sockaddr_equal_spec a alen b blen :
  (0 < alen <= length a)%nat -> (0 < blen <= length b)%nat ->
  sockaddr_equal a alen b blen = bool_decide (take alen a = take blen b).
Proof.
  intros Ha Hb. unfold sockaddr_equal. bool_cases; try lia; simpl; [by subst|].
  symmetry. apply bool_decide_eq_false. intros E. apply (f_equal length) in E.
  rewrite !length_take in E. lia.
Qed.

Lemma tuple_equal_spec a b :
  tuple_ok a -> tuple_ok b -> tuple_equal a b = bool_decide (tuple_key a = tuple_key b).
Proof.
  intros [Ha1 Ha2] [Hb1 Hb2]. unfold tuple_equal, tuple_key.
  rewrite !sockaddr_equal_spec by done. destruct (Z.eqb_spec (ft_protocol a) (ft_protocol b)); simpl;
    repeat case_bool_decide; simpl; try done; naive_solver congruence.
Qed.

Lemma flow_tuple_set_ok src sl dst dl proto t :
  flow_tuple_set src sl dst dl proto = Some t -> (sl <= length src)%nat -> (dl <= length dst)%nat ->
  tuple_ok t /\ tuple_key t = (take sl src, take dl dst, proto).
Proof.
  unfold flow_tuple_set. destruct (_ || _) eqn:E; [done|]. intros Ht Hs Hd. simplify_eq.
  rewrite !orb_false_iff, !Nat.eqb_neq, !Nat.ltb_ge in E.
  assert (Hw : forall l n, (n <= length l)%nat -> (n <= SOCKADDR_STORAGE_SIZE)%nat ->
    take n (write_at (replicate SOCKADDR_STORAGE_SIZE 0) 0 (take n l)) = take n l /\
    length (write_at (replicate SOCKADDR_STORAGE_SIZE 0) 0 (take n l)) = SOCKADDR_STORAGE_SIZE).
  { intros l n Hl Hn. split.
    - unfold write_at. rewrite take_0. simpl app. rewrite take_app_le by (rewrite length_take; lia).
      by rewrite take_take, Nat.min_id.
    - rewrite length_write_at; rewrite length_replicate; [done|]. rewrite length_take. lia. }
  destruct (Hw src sl) as [Es Ls]; [lia|lia|]. destruct (Hw dst dl) as [Ed Ld]; [lia|lia|].
  split.
  - unfold tuple_ok; cbn [ft_src ft_src_len ft_dst ft_dst_len]. rewrite Ls, Ld. lia.
  - unfold tuple_key; cbn [ft_src ft_src_len ft_dst ft_dst_len ft_protocol]. by rewrite Es, Ed.
Qed.

(** ** The invariant: slot [i] holds flow id [i], keys are distinct *)

Definition keys (map : FlowPeerMap) : list (list Z * list Z * Z) :=
  (tuple_key ∘ fe_tuple) <$> take (pm_count map) (pm_entries map).

Record peer_map_ok (map : FlowPeerMap) : Prop := {
  pmo_len : length (pm_entries map) = pm_capacity map;
  pmo_count : (pm_count map <= pm_capacity map)%nat;
  pmo_cap : (0 < pm_capacity map)%nat;
  pmo_next : pm_next_flow_id map = Z.of_nat (pm_count map);
  pmo_max : pm_next_flow_id map <= pm_max_flows map <= NO_FLOW;
  pmo_ids : forall i e, (i < pm_count map)%nat -> pm_entries map !! i = Some e ->
    fe_flow_id e = Z.of_nat i /\ tuple_ok (fe_tuple e);
  pmo_keys : NoDup (keys map)
}.

Lemma find_tuple_spec map t i n :
  peer_map_ok map -> tuple_ok t -> (i + n = pm_count map)%nat ->
  match find_tuple (pm_entries map) t i n with
  | Some fid => exists j, fid = Z.of_nat j /\ keys map !! j = Some (tuple_key t)
  | None => forall j, (i <= j)%nat -> keys map !! j <> Some (tuple_key t)
  end.
Proof.
  intros H Ht. revert i. induction n as [|n IH]; intros i Hn; simpl.
  { intros j Hj. unfold keys. rewrite list_lookup_fmap, lookup_take_ge by lia. done. }
  assert (Hl : (i < length (pm_entries map))%nat)
    by (rewrite (pmo_len _ H); pose proof (pmo_count _ H); lia).
  destruct (lookup_lt_is_Some_2 _ _ Hl) as [e He]. rewrite He.
  destruct (pmo_ids _ H i e ltac:(lia) He) as [Hid Hok].
  assert (Hki : keys map !! i = Some (tuple_key (fe_tuple e))).
  { unfold keys. rewrite list_lookup_fmap, lookup_take_lt, He by lia. done. }
  rewrite tuple_equal_spec by done. case_bool_decide as E.
  - exists i. by rewrite Hki, E.
  - specialize (IH (S i) ltac:(lia)).
    destruct (find_tuple (pm_entries map) t (S i) n); [done|].
    intros j Hj. destruct (decide (j = i)) as [->|]; [congruence|]. apply IH. lia.
Qed.

(** A key the scan misses is new. *)
Lemma keys_miss map t :
  peer_map_ok map -> tuple_ok t -> find_tuple (pm_entries map) t 0 (pm_count map) = None ->
  tuple_key t ∉ keys map.
Proof.
  intros H Ht E. pose proof (find_tuple_spec map t 0 (pm_count map) H Ht eq_refl) as Hs.
  rewrite E in Hs. intros [j Hj]%list_elem_of_lookup. by apply (Hs j ltac:(lia)).
Qed.

Lemma keys_length map : peer_map_ok map -> length (keys map) = pm_count map.
Proof.
  intros H. unfold keys. rewrite length_fmap, length_take, (pmo_len _ H).
  pose proof (pmo_count _ H). lia.
Qed.

(** Appending an entry to a table with a free slot. *)
Lemma peer_map_ok_append map t :
  peer_map_ok map -> tuple_ok t -> tuple_key t ∉ keys map -> (pm_count map < pm_capacity map)%nat ->
  pm_next_flow_id map < pm_max_flows map ->
  let map' := mkPeerMap (<[pm_count map := mkEntry t (pm_next_flow_id map)]> (pm_entries map))
     (pm_count map + 1) (pm_capacity map) (u32 (pm_next_flow_id map + 1)) (pm_max_flows map) in
  peer_map_ok map' /\ keys map' = keys map ++ [tuple_key t].
Proof.
  intros H Ht Hnew Hlt Hmax map'. assert (Hk : keys map' = keys map ++ [tuple_key t]).
  { unfold keys; subst map'; simpl. replace (pm_count map + 1)%nat with (S (pm_count map)) by lia.
    rewrite (take_S_r _ _ (mkEntry t (pm_next_flow_id map)))
      by (apply list_lookup_insert_eq; by rewrite (pmo_len _ H)).
    rewrite take_insert_ge by lia. by rewrite fmap_app. }
  split; [|done]. pose proof H as [H1 H2 H3 H4 H5 H6 H7].
  assert (Hu : u32 (pm_next_flow_id map + 1) = pm_next_flow_id map + 1).
  { apply uwrap_small. unfold in_range. unfold NO_FLOW in H5. lia. }
  split; subst map'; simpl; rewrite ?Hu; try lia.
  - by rewrite length_insert.
  - intros i e Hi He. apply list_lookup_insert_Some in He as [(<- & <- & _)|[Hne He]].
    + simpl. by rewrite H4.
    + apply H6; [lia|done].
  - rewrite Hu in Hk. rewrite Hk. apply list.NoDup_app. split; [done|]. split; [by intros x Hx ->%list_elem_of_singleton|].
    apply list.NoDup_singleton.
Qed.

Lemma peer_map_ok_grow map :
  peer_map_ok map ->
  let map' := mkPeerMap (pm_entries map ++ replicate (pm_capacity map * 2 - pm_capacity map) entry_zero)
              (pm_count map) (pm_capacity map * 2) (pm_next_flow_id map) (pm_max_flows map) in
  peer_map_ok map' /\ keys map' = keys map.
Proof.
  intros [H1 H2 H3 H4 H5 H6 H7] map'. assert (Hk : keys map' = keys map).
  { unfold keys; subst map'; simpl. by rewrite take_app_le by (rewrite H1; lia). }
  split; [|done]. split; subst map'; simpl; try lia.
  - rewrite length_app, length_replicate. lia.
  - intros i e Hi He. rewrite lookup_app_l in He by lia. by apply H6.
  - by rewrite Hk.
Qed.

(** One lookup: a known key gives its position, a new one is appended while ids remain. *)
Lemma lookup_spec oom map t :
  peer_map_ok map -> tuple_ok t ->
  let '(fid, map') := flow_peer_map_lookup oom map t in
  peer_map_ok map' /\ pm_max_flows map' = pm_max_flows map /\
  ((exists j, fid = Z.of_nat j /\ keys map !! j = Some (tuple_key t) /\ map' = map) \/
   ((tuple_key t ∉ keys map) /\ fid = NO_FLOW /\ map' = map /\
    (pm_max_flows map <= Z.of_nat (length (keys map)) \/ oom = true)) \/
   ((tuple_key t ∉ keys map) /\ fid = Z.of_nat (length (keys map)) /\ fid < pm_max_flows map /\
    keys map' = keys map ++ [tuple_key t])).
Proof.
  intros H Ht. unfold flow_peer_map_lookup.
  pose proof (find_tuple_spec map t 0 (pm_count map) H Ht eq_refl) as Hf.
  destruct (find_tuple (pm_entries map) t 0 (pm_count map)) as [fid|] eqn:E.
  { split; [done|]. split; [done|]. left. destruct Hf as (j & -> & Hj). by exists j. }
  pose proof (keys_miss map t H Ht E) as Hnew. pose proof (pmo_next _ H) as Hnx.
  destruct (Z.leb_spec (pm_max_flows map) (pm_next_flow_id map)) as [Hm|Hm].
  { split; [done|]. split; [done|]. right; left. split_and!; try done. left.
    rewrite keys_length by done. lia. }
  destruct (Nat.leb_spec (pm_capacity map) (pm_count map)) as [Hc|Hc]; simpl.
  - destruct oom; simpl.
    { split; [done|]. split; [done|]. right; left. split_and!; auto. }
    destruct (peer_map_ok_grow map H) as [Hg Hkg].
    set (map1 := mkPeerMap (pm_entries map ++ _) _ _ _ _) in *.
    pose proof (pmo_count _ H). pose proof (pmo_cap _ H).
    destruct (peer_map_ok_append map1 t) as [Ha Hka]; [done|done|by rewrite Hkg|simpl; lia|done|].
    split; [done|]. split; [done|]. right; right. rewrite Hkg in Hka. simpl in Hka.
    split_and!; try done. rewrite keys_length by done. by rewrite Hnx.
  - destruct (peer_map_ok_append map t) as [Ha Hka]; try done.
    split; [done|]. split; [done|]. right; right. split_and!; try done.
    by rewrite keys_length.
Qed.

Lemma init_ok max_flows :
  0 < max_flows <= NO_FLOW ->
  exists map, flow_peer_map_init false false max_flows = (FPM_OK, Some map) /\ peer_map_ok map /\
    keys map = [] /\ pm_max_flows map = max_flows.
Proof.
  intros Hm. unfold flow_peer_map_init. destruct (Z.eqb_spec max_flows 0); [lia|].
  eexists. split; [reflexivity|]. split; [|done].
  split; simpl; try done; try lia. apply NoDup_nil_2.
Qed.

(** ** A history of lookups *)

Fixpoint lookups (map : FlowPeerMap) (ops : list (bool * FlowTuple)) : list Z * FlowPeerMap :=
  match ops with
  | [] => ([], map)
  | (oom, t) :: ops' =>
      let '(fid, map1) := flow_peer_map_lookup oom map t in
      let '(fids, map2) := lookups map1 ops' in (fid :: fids, map2)
  end.

(** Every id handed out stays the position of its key. *)
Lemma lookups_spec ops map fids map' :
  peer_map_ok map -> Forall (fun o => tuple_ok (snd o)) ops -> lookups map ops = (fids, map') ->
  peer_map_ok map' /\ pm_max_flows map' = pm_max_flows map /\ keys map `prefix_of` keys map' /\
  forall a oom t fid, ops !! a = Some (oom, t) -> fids !! a = Some fid -> fid <> NO_FLOW ->
    exists j, fid = Z.of_nat j /\ keys map' !! j = Some (tuple_key t).
Proof.
  revert map fids map'. induction ops as [|[oom t] ops IH]; intros map fids map' H Hops E; simpl in E.
  { simplify_eq. done. }
  apply list.Forall_cons in Hops as [Ht Hops]. simpl in Ht.
  pose proof (lookup_spec oom map t H Ht) as Hs.
  destruct (flow_peer_map_lookup oom map t) as [fid map1].
  destruct (lookups map1 ops) as [fids2 map2] eqn:E2. simplify_eq.
  destruct Hs as (H1 & Hm1 & Hs).
  destruct (IH _ _ _ H1 Hops E2) as (H2 & Hm2 & Hp2 & Hids).
  assert (Hp1 : keys map `prefix_of` keys map1).
  { destruct Hs as [(j & _ & _ & ->)|[(_ & _ & -> & _)|(_ & _ & _ & ->)]]; [done|done|].
    by apply prefix_app_r. }
  split; [done|]. split; [congruence|]. split; [by etransitivity|].
  intros [|a] oom' t' fid' Ho Hf Hne; simpl in Ho, Hf; simplify_eq; [|by eapply Hids].
  destruct Hs as [(j & -> & Hj & ->)|[(_ & -> & _)|(_ & -> & _ & Hk)]]; [|done|].
  - exists j. split; [done|]. by eapply prefix_lookup_Some.
  - exists (length (keys map)). split; [done|]. eapply prefix_lookup_Some; [|done].
    rewrite Hk. by apply list_lookup_middle.
Qed.

(** ** Property *)

(** From [flow_peer_map_init] on, whatever the history of lookups and allocation failures,
    every flow id handed out is below the limit, and two lookups got the same id exactly when
    they asked for the same 5-tuple (protocol and the significant address bytes): ids are
    stable and never shared. *)
Theorem peer_map_ids_stable_and_injective max_flows map ops fids map' a b oa ob ta tb ia ib :
  0 < max_flows <= NO_FLOW ->
  flow_peer_map_init false false max_flows = (FPM_OK, Some map) ->
  Forall (fun o => tuple_ok (snd o)) ops -> lookups map ops = (fids, map') ->
  ops !! a = Some (oa, ta) -> fids !! a = Some ia -> ia <> NO_FLOW ->
  ops !! b = Some (ob, tb) -> fids !! b = Some ib -> ib <> NO_FLOW ->
  0 <= ia < max_flows /\ (ia = ib <-> tuple_key ta = tuple_key tb).
Proof.
  intros Hm Hi Hops E Ha Hia Hna Hb Hib Hnb.
  destruct (init_ok max_flows Hm) as (map0 & Hi0 & H0 & Hk0 & Hmx). rewrite Hi0 in Hi. simplify_eq.
  destruct (lookups_spec ops map fids map' H0 Hops E) as (H' & Hm' & _ & Hids).
  destruct (Hids a _ _ _ Ha Hia Hna) as (ja & -> & Hja).
  destruct (Hids b _ _ _ Hb Hib Hnb) as (jb & -> & Hjb).
  split.
  - apply lookup_lt_Some in Hja. rewrite keys_length in Hja by done.
    pose proof (pmo_next _ H'). pose proof (pmo_max _ H'). rewrite Hm' in *. lia.
  - split; [intros ->%Nat2Z.inj; congruence|]. intros Ek. f_equal.
    eapply NoDup_lookup; [apply (pmo_keys _ H')|exact Hja|by rewrite Hjb, Ek].
Qed.

Definition sample_tuple (port : Z) : FlowTuple :=
  mkTuple [10; 0; 0; port] 4 [10; 0; 0; 9] 4 17.

Lemma peer_map_ids_stable_and_injective_witness :
  let map := mkPeerMap (replicate 16 entry_zero) 0 16 0 2 in
  let ops := [(false, sample_tuple 1); (false, sample_tuple 2); (false, sample_tuple 1);
              (false, sample_tuple 3)] in
  fst (lookups map ops) = [0; 1; 0; NO_FLOW] /\
  0 <= 0 < 2 /\ (0 = 0 <-> tuple_key (sample_tuple 1) = tuple_key (sample_tuple 1)).
Proof.
  intros map ops. split; [vm_compute; reflexivity|].
  apply (peer_map_ids_stable_and_injective 2 map ops [0; 1; 0; NO_FLOW] (snd (lookups map ops))
           0 2 false false (sample_tuple 1) (sample_tuple 1) 0 0);
    try (vm_compute; reflexivity); try (vm_compute; congruence).
  - unfold NO_FLOW. lia.
  - repeat constructor; simpl; lia.
Defined.
