(* ===== verification/Packet.v ===== *)
(** * Packets and the packet pool: src/src/packet.c, src/src/packet_pool.c

    A small block memory in the style of CompCert: a pointer is a block and an index into it,
    blocks are never reused, and a read of a freed block is undefined behaviour.  [DataPacket]s
    live in blocks of one (from [calloc]) or of [capacity] (the pool array); payload bytes live
    in byte blocks.  Allocation failure and the clock are arguments. *)

From S2P Require Import Prelude TimeUtils.

Record ptr := Ptr { p_blk : nat; p_off : nat }.

#[export] Instance ptr_eq_dec : EqDecision ptr.
Proof. solve_decision. Defined.

#[export] Instance ptr_countable : Countable ptr.
Proof.
  apply (inj_countable' (fun p => (p_blk p, p_off p)) (fun '(b, o) => Ptr b o)).
  by intros [].
Defined.

Inductive PacketStatus := PKT_OK | PKT_ERR_INVALID | PKT_ERR_SYSTEM.
Inductive PacketPoolStatus := PP_OK | PP_ERR_INVALID | PP_ERR_ALLOC.

Record DataPacket := mkPacket {
  flow_id : Z;
  enqueue_ts : timespec;
  payload_len : nat;
  payload : option ptr;
  user_data : option nat;   (* the [PacketAdoptCtx] block of an adopted payload *)
  pool : option nat         (* the owning [PacketPool] *)
}.

(** [free_fn] is a code address; its calls are recorded in [free_calls]. *)
Record PacketAdoptCtx := mkAdopt { free_fn : option Z; free_ctx : Z }.

Record PacketPool := mkPool {
  pp_capacity : nat;
  pp_payload_cap : nat;
  pp_packets : nat;           (* block of the packet array *)
  pp_payload_slab : nat;      (* block of the payload slab *)
  pp_free_list : list (option ptr);
  pp_free_count : nat
}.

Record mem := mkMem {
  next_blk : nat;
  pkts : gmap nat (list DataPacket);
  bytes : gmap nat (list Z);
  pools : gmap nat PacketPool;
  adopts : gmap nat PacketAdoptCtx;
  free_calls : list (Z * option ptr * Z)
}.

Definition set_pkts (f : gmap nat (list DataPacket) -> gmap nat (list DataPacket)) (m : mem) : mem :=
  mkMem (next_blk m) (f (pkts m)) (bytes m) (pools m) (adopts m) (free_calls m).
Definition set_bytes (f : gmap nat (list Z) -> gmap nat (list Z)) (m : mem) : mem :=
  mkMem (next_blk m) (pkts m) (f (bytes m)) (pools m) (adopts m) (free_calls m).
Definition set_pools (f : gmap nat PacketPool -> gmap nat PacketPool) (m : mem) : mem :=
  mkMem (next_blk m) (pkts m) (bytes m) (f (pools m)) (adopts m) (free_calls m).
Definition set_adopts (f : gmap nat PacketAdoptCtx -> gmap nat PacketAdoptCtx) (m : mem) : mem :=
  mkMem (next_blk m) (pkts m) (bytes m) (pools m) (f (adopts m)) (free_calls m).
Definition set_free_calls (f : list (Z * option ptr * Z) -> list (Z * option ptr * Z)) (m : mem) : mem :=
  mkMem (next_blk m) (pkts m) (bytes m) (pools m) (adopts m) (f (free_calls m)).

Abbreviation C := (comp mem).

(** ** Memory primitives *)

Definition fresh_blk : C nat :=
  fun m => Some (next_blk m,
    mkMem (S (next_blk m)) (pkts m) (bytes m) (pools m) (adopts m) (free_calls m)).

Definition lookup_pkt (m : mem) (p : ptr) : option DataPacket :=
  pkts m !! p_blk p ≫= fun l => l !! p_off p.

Definition load_pkt (p : ptr) : C DataPacket :=
  m ← gets id; the (lookup_pkt m p).

Definition store_pkt (p : ptr) (d : DataPacket) : C unit :=
  _ ← load_pkt p;
  modify (set_pkts (alter (fun l => <[p_off p := d]> l) (p_blk p))).

Definition alloc_pkt (d : DataPacket) : C ptr :=
  b ← fresh_blk; _ ← modify (set_pkts <[b := [d]]>); mret (Ptr b 0).

(** [free] of a pointer: it must be the start of a live block; [free(NULL)] is a no-op. *)
Definition free_pkt (p : ptr) : C unit :=
  m ← gets id;
  match pkts m !! p_blk p, p_off p with
  | Some _, O => modify (set_pkts (delete (p_blk p)))
  | _, _ => ub
  end.

Definition free_bytes (p : option ptr) : C unit :=
  match p with
  | None => mret tt
  | Some p =>
      m ← gets id;
      match bytes m !! p_blk p, p_off p with
      | Some _, O => modify (set_bytes (delete (p_blk p)))
      | _, _ => ub
      end
  end.

(** [memcpy] of [data] to [p]: it has to fit the block. *)
Definition write_bytes (p : option ptr) (data : list Z) : C unit :=
  match p with
  | None => ub
  | Some p =>
      m ← gets id;
      match bytes m !! p_blk p with
      | None => ub
      | Some l =>
          if (p_off p + length data <=? length l)%nat
          then modify (set_bytes <[p_blk p := write_at l (p_off p) data]>)
          else ub
      end
  end.

Definition read_bytes (p : option ptr) (n : nat) : C (list Z) :=
  match p with
  | None => ub
  | Some p =>
      m ← gets id;
      match bytes m !! p_blk p with
      | None => ub
      | Some l => if (p_off p + n <=? length l)%nat then mret (read_at l (p_off p) n) else ub
      end
  end.

(** ** src/src/packet_pool.c *)

(** The four allocations and the mutex can fail; then everything allocated is freed again and
    the memory is as before. *)
Definition packet_pool_init (oom_pool oom_packets oom_slab oom_list mutex_fails : bool)
  (capacity payload_cap : nat) : C (PacketPoolStatus * option nat) :=
  if (capacity =? 0) || (payload_cap =? 0) then mret (PP_ERR_INVALID, None)
  else if oom_pool then mret (PP_ERR_ALLOC, None)
  else if oom_packets || oom_slab || oom_list then mret (PP_ERR_ALLOC, None)
  else if mutex_fails then mret (PP_ERR_ALLOC, None)
  else
    pl ← fresh_blk; packets ← fresh_blk; slab ← fresh_blk;
    let pkt i := mkPacket 0 ts_zero 0 (Some (Ptr slab (i * payload_cap))) None (Some pl) in
    _ ← modify (set_pkts <[packets := pkt <$> seq 0 capacity]>);
    _ ← modify (set_bytes <[slab := replicate (capacity * payload_cap) 0%Z]>);
    _ ← modify (set_pools <[pl :=
          {| pp_capacity := capacity; pp_payload_cap := payload_cap;
             pp_packets := packets; pp_payload_slab := slab;
             pp_free_list := (fun i => Some (Ptr packets i)) <$> seq 0 capacity;
             pp_free_count := capacity |}]>);
    mret (PP_OK, Some pl).

Definition packet_pool_destroy (pl : option nat) : C unit :=
  match pl with
  | None => mret tt
  | Some pl =>
      m ← gets id; p ← the (pools m !! pl);
      _ ← modify (set_bytes (delete (pp_payload_slab p)));
      _ ← modify (set_pkts (delete (pp_packets p)));
      modify (set_pools (delete pl))
  end.

Definition packet_pool_capacity (pl : option nat) : C nat :=
  match pl with
  | None => mret 0
  | Some pl => m ← gets id; p ← the (pools m !! pl); mret (pp_capacity p)
  end.

Definition packet_pool_payload_cap (pl : option nat) : C nat :=
  match pl with
  | None => mret 0
  | Some pl => m ← gets id; p ← the (pools m !! pl); mret (pp_payload_cap p)
  end.

Definition packet_pool_available (pl : option nat) : C nat :=
  match pl with
  | None => mret 0
  | Some pl => m ← gets id; p ← the (pools m !! pl); mret (pp_free_count p)
  end.

Definition set_free (p : PacketPool) (fl : list (option ptr)) (n : nat) : PacketPool :=
  {| pp_capacity := pp_capacity p; pp_payload_cap := pp_payload_cap p;
     pp_packets := pp_packets p; pp_payload_slab := pp_payload_slab p;
     pp_free_list := fl; pp_free_count := n |}.

Definition packet_pool_release (pl : option nat) (pk : option ptr) : C unit :=
  match pl, pk with
  | Some pl, Some pk =>
      d ← load_pkt pk;
      if decide (pool d = Some pl) then
        _ ← store_pkt pk (mkPacket 0 ts_zero 0 (payload d) None (pool d));
        m ← gets id; p ← the (pools m !! pl);
        if (pp_free_count p <? pp_capacity p)%nat then
          modify (set_pools <[pl :=
            set_free p (<[pp_free_count p := Some pk]> (pp_free_list p)) (pp_free_count p + 1)]>)
        else mret tt
      else mret tt
  | _, _ => mret tt
  end.

Definition packet_pool_alloc (clock : option timespec) (pl : option nat) (fid : Z)
  : C (option ptr) :=
  match pl with
  | None => mret None
  | Some pl =>
      m ← gets id; p ← the (pools m !! pl);
      if (pp_free_count p =? 0)%nat then mret None
      else
        let n := pp_free_count p - 1 in
        e ← the (pp_free_list p !! n);
        pk ← the e;
        _ ← modify (set_pools <[pl := set_free p (<[n := None]> (pp_free_list p)) n]>);
        d ← load_pkt pk;
        let '(st, ts) := time_utils_now_mono clock (enqueue_ts d) in
        _ ← store_pkt pk (mkPacket fid ts 0 (payload d) None (Some pl));
        match st with
        | TU_OK => mret (Some pk)
        | _ => _ ← packet_pool_release (Some pl) (Some pk); mret None
        end
  end.

Definition packet_is_pooled (pk : option ptr) : C bool :=
  match pk with
  | None => mret false
  | Some pk => d ← load_pkt pk; mret (bool_decide (is_Some (pool d)))
  end.

(** ** src/src/packet.c *)

(** [data = None] is a NULL pointer; the payload is copied into a block of its own. *)
Definition packet_create (oom_pkt oom_payload : bool) (clock : option timespec)
  (fid : Z) (data : option (list Z)) (len : nat) : C (option ptr) :=
  if (0 <? len)%nat && bool_decide (data = None) then mret None
  else if oom_pkt then mret None
  else if (0 <? len)%nat && oom_payload then mret None
  else match clock with
  | None => mret None
  | Some now =>
      pay ← (if (0 <? len)%nat then
               b ← fresh_blk;
               _ ← modify (set_bytes <[b := take len (default [] data)]>);
               mret (Some (Ptr b 0))
             else mret None);
      pk ← alloc_pkt (mkPacket fid now len pay None None);
      mret (Some pk)
  end.

Definition packet_adopt (oom_pkt oom_adopt : bool) (clock : option timespec)
  (fid : Z) (pay : option ptr) (len : nat) (ffn : option Z) (fctx : Z) : C (option ptr) :=
  if (0 <? len)%nat && bool_decide (pay = None) then mret None
  else if oom_pkt then mret None
  else if oom_adopt then mret None
  else match clock with
  | None => mret None
  | Some now =>
      a ← fresh_blk;
      _ ← modify (set_adopts <[a := mkAdopt ffn fctx]>);
      pk ← alloc_pkt (mkPacket fid now len pay (Some a) None);
      mret (Some pk)
  end.

Definition packet_free (pk : option ptr) : C unit :=
  match pk with
  | None => mret tt
  | Some pk =>
      d ← load_pkt pk;
      match pool d with
      | Some pl => packet_pool_release (Some pl) (Some pk)
      | None =>
          _ ← match user_data d with
              | Some a =>
                  m ← gets id; ad ← the (adopts m !! a);
                  _ ← match free_fn ad with
                      | Some fn => modify (set_free_calls (fun l => l ++ [(fn, payload d, free_ctx ad)]))
                      | None => mret tt
                      end;
                  modify (set_adopts (delete a))
              | None => free_bytes (payload d)
              end;
          free_pkt pk
      end
  end.

Definition packet_stamp_now (clock : option timespec) (pk : option ptr) : C PacketStatus :=
  match pk with
  | None => mret PKT_ERR_INVALID
  | Some pk =>
      d ← load_pkt pk;
      let '(st, ts) := time_utils_now_mono clock (enqueue_ts d) in
      match st with
      | TU_OK =>
          _ ← store_pkt pk (mkPacket (flow_id d) ts (payload_len d) (payload d) (user_data d) (pool d));
          mret PKT_OK
      | _ => mret PKT_ERR_SYSTEM
      end
  end.

Arguments packet_pool_release : simpl never.

(** ** The pool invariant

    [offs] are the array indices on the free stack, bottom first. *)

Definition slot_ptrs (p : PacketPool) (offs : list nat) : list (option ptr) :=
  (fun i => Some (Ptr (pp_packets p) i)) <$> offs.

Record pool_ok (m : mem) (pl : nat) (p : PacketPool) (offs : list nat) : Prop := {
  po_live : pools m !! pl = Some p;
  po_list : pp_free_list p = slot_ptrs p offs ++ replicate (pp_capacity p - length offs) None;
  po_count : pp_free_count p = length offs;
  po_nodup : NoDup offs;
  po_range : Forall (fun i => i < pp_capacity p) offs;
  po_array : exists arr, pkts m !! pp_packets p = Some arr /\ length arr = pp_capacity p /\
    forall i d, arr !! i = Some d ->
      pool d = Some pl /\ payload d = Some (Ptr (pp_payload_slab p) (i * pp_payload_cap p))
}.

Lemma mem_pkts_eta m : set_pkts id m = m.
Proof. by destruct m. Qed.

Lemma load_pkt_run m q d : lookup_pkt m q = Some d -> load_pkt q m = Some (d, m).
Proof. intros H. unfold load_pkt, mbind, comp_bind, gets, the. simpl. by rewrite H. Qed.

Lemma store_pkt_run m q d d' :
  lookup_pkt m q = Some d ->
  store_pkt q d' m = Some (tt, set_pkts (alter (fun l => <[p_off q := d']> l) (p_blk q)) m).
Proof.
  intros H. unfold store_pkt, mbind, comp_bind. by rewrite (load_pkt_run m q d H).
Qed.

Lemma lookup_pkt_arr m b arr i :
  pkts m !! b = Some arr -> lookup_pkt m (Ptr b i) = arr !! i.
Proof. intros H. unfold lookup_pkt. simpl. by rewrite H. Qed.

Lemma pool_slot m pl p offs i :
  pool_ok m pl p offs -> i < pp_capacity p ->
  exists d, lookup_pkt m (Ptr (pp_packets p) i) = Some d /\ pool d = Some pl /\
            payload d = Some (Ptr (pp_payload_slab p) (i * pp_payload_cap p)).
Proof.
  intros H Hi. destruct (po_array _ _ _ _ H) as (arr & Ha & Hlen & Hall).
  rewrite (lookup_pkt_arr m _ arr i Ha).
  destruct (arr !! i) as [d|] eqn:E; [|apply lookup_ge_None in E; lia].
  exists d. destruct (Hall _ _ E). done.
Qed.

(** A pool survives a store that keeps the packet's pool and payload pointers. *)
Lemma pool_ok_store m pl p offs b i d d' :
  pool_ok m pl p offs -> lookup_pkt m (Ptr b i) = Some d ->
  pool d' = pool d -> payload d' = payload d ->
  pool_ok (set_pkts (alter (fun l => <[i := d']> l) b) m) pl p offs.
Proof.
  intros H Hd Hpo Hpa. destruct (po_array _ _ _ _ H) as (arr & Ha & Hlen & Hall).
  destruct H as [Hl Hfl Hc Hn Hr _]. split; try done. simpl.
  destruct (decide (b = pp_packets p)) as [->|Hne].
  - rewrite lookup_alter_eq, Ha. simpl. eexists. split; [done|].
    rewrite length_insert. split; [done|].
    rewrite (lookup_pkt_arr m _ arr i Ha) in Hd. intros j e Hj.
    destruct (decide (j = i)) as [->|Hji].
    + rewrite list_lookup_insert_eq in Hj by (by eapply lookup_lt_Some). simplify_eq.
      rewrite Hpo, Hpa. by apply Hall.
    + rewrite list_lookup_insert_ne in Hj by done. by apply Hall.
  - rewrite lookup_alter_ne by done. by eauto.
Qed.

(** Replacing the free stack. *)
Lemma pool_ok_set_free m pl p offs offs' :
  pool_ok m pl p offs -> NoDup offs' -> Forall (fun i => i < pp_capacity p) offs' ->
  let p' := set_free p (slot_ptrs p offs' ++ replicate (pp_capacity p - length offs') None)
                       (length offs') in
  pool_ok (set_pools <[pl := p']> m) pl p' offs'.
Proof.
  intros H Hnd Hr p'. split; simpl; try done.
  - apply lookup_insert_eq.
  - apply (po_array _ _ _ _ H).
Qed.

Lemma length_slot_ptrs p offs : length (slot_ptrs p offs) = length offs.
Proof. apply length_fmap. Qed.

Lemma free_list_push p offs i :
  length offs < pp_capacity p ->
  <[length offs := Some (Ptr (pp_packets p) i)]>
    (slot_ptrs p offs ++ replicate (pp_capacity p - length offs) None) =
  slot_ptrs p (offs ++ [i]) ++ replicate (pp_capacity p - length (offs ++ [i])) None.
Proof.
  intros H. rewrite length_app. simpl.
  replace (pp_capacity p - length offs) with (S (pp_capacity p - (length offs + 1))) by lia.
  simpl. rewrite list_insert_middle by (by rewrite length_slot_ptrs).
  unfold slot_ptrs. rewrite fmap_app, <- app_assoc. done.
Qed.

Lemma free_list_pop p offs i :
  length offs < pp_capacity p ->
  let l := slot_ptrs p (offs ++ [i]) ++ replicate (pp_capacity p - length (offs ++ [i])) None in
  l !! length offs = Some (Some (Ptr (pp_packets p) i)) /\
  <[length offs := None]> l =
    slot_ptrs p offs ++ replicate (pp_capacity p - length offs) None.
Proof.
  intros H l. subst l. rewrite length_app. simpl.
  replace (pp_capacity p - length offs) with (S (pp_capacity p - (length offs + 1))) by lia.
  assert (E : slot_ptrs p (offs ++ [i]) = slot_ptrs p offs ++ [Some (Ptr (pp_packets p) i)])
    by (unfold slot_ptrs; by rewrite fmap_app).
  rewrite E, <- app_assoc. simpl.
  rewrite list_lookup_middle, list_insert_middle by (by rewrite length_slot_ptrs). done.
Qed.

Lemma pool_release_spec m pl p offs i :
  pool_ok m pl p offs -> i < pp_capacity p -> i ∉ offs ->
  exists m' p', packet_pool_release (Some pl) (Some (Ptr (pp_packets p) i)) m = Some (tt, m') /\
    pool_ok m' pl p' (offs ++ [i]) /\
    pp_capacity p' = pp_capacity p /\ pp_packets p' = pp_packets p /\
    pp_payload_slab p' = pp_payload_slab p /\ pp_payload_cap p' = pp_payload_cap p.
Proof.
  intros H Hi Hni. destruct (pool_slot m pl p offs i H Hi) as (d & Hd & Hpo & Hpa).
  unfold packet_pool_release, mbind, comp_bind. rewrite (load_pkt_run m _ d Hd).
  rewrite decide_True by done. rewrite (store_pkt_run m _ d _ Hd). unfold gets, the. simpl.
  rewrite (po_live _ _ _ _ H).
  assert (Hlt : length offs < pp_capacity p)
    by (eapply NoDup_miss_lt; eauto using po_nodup, po_range).
  rewrite (po_count _ _ _ _ H), (proj2 (Nat.ltb_lt _ _) Hlt).
  rewrite (po_list _ _ _ _ H), free_list_push by done.
  replace (length offs + 1) with (length (offs ++ [i])) by (by rewrite length_app).
  eexists _, (set_free p _ _). split; [reflexivity|]. split; [|done].
  apply (pool_ok_set_free _ pl p offs).
  - eapply pool_ok_store; [done|exact Hd|done|done].
  - apply list.NoDup_app. split; [apply (po_nodup _ _ _ _ H)|]. split; [|apply NoDup_singleton].
    intros x Hx Hx'%list_elem_of_singleton. congruence.
  - apply Forall_app. split; [apply (po_range _ _ _ _ H)|by constructor].
Qed.

Lemma pool_ok_top_lt m pl p offs i :
  pool_ok m pl p (offs ++ [i]) ->
  NoDup offs /\ (i ∉ offs) /\ i < pp_capacity p /\ length offs < pp_capacity p /\
  Forall (fun i => i < pp_capacity p) offs.
Proof.
  intros H. pose proof (po_nodup _ _ _ _ H) as Hnd. apply list.NoDup_app in Hnd as (Hnd & Hdis & _).
  pose proof (po_range _ _ _ _ H) as Hr. apply Forall_app in Hr as [Hr Hi].
  assert (Hni : i ∉ offs) by (intros Hin; eapply Hdis; [done|by apply list_elem_of_singleton]).
  inversion Hi as [|? ? Hi0 _]; subst. repeat split; try done. by eapply NoDup_miss_lt.
Qed.

Lemma pool_alloc_spec m pl p offs i now fid :
  pool_ok m pl p (offs ++ [i]) ->
  exists m' p', packet_pool_alloc (Some now) (Some pl) fid m =
                  Some (Some (Ptr (pp_packets p) i), m') /\
    pool_ok m' pl p' offs /\
    pp_capacity p' = pp_capacity p /\ pp_packets p' = pp_packets p /\
    pp_payload_slab p' = pp_payload_slab p /\ pp_payload_cap p' = pp_payload_cap p /\
    lookup_pkt m' (Ptr (pp_packets p) i) =
      Some (mkPacket fid now 0 (Some (Ptr (pp_payload_slab p) (i * pp_payload_cap p))) None (Some pl)).
Proof.
  intros H. destruct (pool_ok_top_lt _ _ _ _ _ H) as (Hnd & Hni & Hi & Hlen & Hr).
  destruct (pool_slot m pl p _ i H Hi) as (d & Hd & Hpo & Hpa).
  unfold packet_pool_alloc, mbind, comp_bind, gets, the, modify. simpl.
  rewrite (po_live _ _ _ _ H), (po_count _ _ _ _ H), length_app. simpl.
  destruct (Nat.eqb_spec (length offs + 1) 0); [lia|].
  replace (length offs + 1 - 1) with (length offs) by lia.
  destruct (free_list_pop p offs i Hlen) as [E1 E2]. simpl in E1, E2.
  rewrite (po_list _ _ _ _ H), E1, E2.
  set (m1 := set_pools _ m).
  assert (Hd1 : lookup_pkt m1 (Ptr (pp_packets p) i) = Some d) by done.
  rewrite (load_pkt_run m1 _ d Hd1), (store_pkt_run m1 _ d _ Hd1).
  eexists _, (set_free p _ _). split; [reflexivity|].
  split.
  { eapply pool_ok_store; [|exact Hd1|by rewrite Hpo|done].
    by apply (pool_ok_set_free m pl p (offs ++ [i])). }
  split; [done|]. split; [done|]. split; [done|]. split; [done|].
  destruct (po_array _ _ _ _ H) as (arr & Ha & Hl & _).
  unfold lookup_pkt. simpl. rewrite lookup_alter_eq, Ha. simpl.
  rewrite list_lookup_insert_eq by lia. by rewrite Hpa.
Qed.

Lemma pool_alloc_no_clock m pl p offs i fid :
  pool_ok m pl p (offs ++ [i]) ->
  exists m' p', packet_pool_alloc None (Some pl) fid m = Some (None, m') /\
    pool_ok m' pl p' (offs ++ [i]) /\ pp_capacity p' = pp_capacity p /\
    pp_packets p' = pp_packets p.
Proof.
  intros H. destruct (pool_ok_top_lt _ _ _ _ _ H) as (Hnd & Hni & Hi & Hlen & Hr).
  destruct (pool_slot m pl p _ i H Hi) as (d & Hd & Hpo & Hpa).
  unfold packet_pool_alloc, mbind, comp_bind, gets, the, modify. simpl.
  rewrite (po_live _ _ _ _ H), (po_count _ _ _ _ H), length_app. simpl.
  destruct (Nat.eqb_spec (length offs + 1) 0); [lia|].
  replace (length offs + 1 - 1) with (length offs) by lia.
  destruct (free_list_pop p offs i Hlen) as [E1 E2]. simpl in E1, E2.
  rewrite (po_list _ _ _ _ H), E1, E2.
  set (m1 := set_pools _ m).
  assert (Hd1 : lookup_pkt m1 (Ptr (pp_packets p) i) = Some d) by done.
  rewrite (load_pkt_run m1 _ d Hd1), (store_pkt_run m1 _ d _ Hd1). simpl.
  match goal with |- context [packet_pool_release _ _ ?m2] => set (m' := m2) end.
  set (p1 := set_free p (slot_ptrs p offs ++ replicate (pp_capacity p - length offs) None)
                        (length offs)).
  assert (H1 : pool_ok m' pl p1 offs).
  { eapply pool_ok_store; [|exact Hd1|by rewrite Hpo|done].
    by apply (pool_ok_set_free m pl p (offs ++ [i])). }
  destruct (pool_release_spec m' pl p1 offs i H1 Hi Hni) as (m2 & p2 & E & H2 & Hc & Hp & _).
  exists m2, p2. unfold p1 in E at 1. simpl in E. rewrite E. done.
Qed.

Lemma pool_alloc_empty m pl p clock fid :
  pool_ok m pl p [] -> packet_pool_alloc clock (Some pl) fid m = Some (None, m).
Proof.
  intros H. unfold packet_pool_alloc, mbind, comp_bind, gets, the. simpl.
  by rewrite (po_live _ _ _ _ H), (po_count _ _ _ _ H).
Qed.

Lemma packet_free_pooled m pl p offs i :
  pool_ok m pl p offs -> i < pp_capacity p ->
  packet_free (Some (Ptr (pp_packets p) i)) m =
  packet_pool_release (Some pl) (Some (Ptr (pp_packets p) i)) m.
Proof.
  intros H Hi. destruct (pool_slot m pl p offs i H Hi) as (d & Hd & Hpo & _).
  unfold packet_free, mbind, comp_bind. by rewrite (load_pkt_run m _ d Hd), Hpo.
Qed.

Lemma packet_pool_init_spec m capacity payload_cap :
  0 < capacity -> 0 < payload_cap ->
  exists m' pl p, packet_pool_init false false false false false capacity payload_cap m =
      Some ((PP_OK, Some pl), m') /\
    pool_ok m' pl p (seq 0 capacity) /\ pp_capacity p = capacity /\
    pp_payload_cap p = payload_cap.
Proof.
  intros Hc Hp. unfold packet_pool_init.
  destruct (Nat.eqb_spec capacity 0), (Nat.eqb_spec payload_cap 0); try lia. simpl.
  eexists _, _, (mkPool _ _ _ _ _ _). split; [reflexivity|]. split; [|done].
  split; simpl.
  - apply lookup_insert_eq.
  - by rewrite length_seq, Nat.sub_diag, app_nil_r.
  - by rewrite length_seq.
  - apply NoDup_seq.
  - apply Forall_forall. intros x Hx%list_elem_of_In%elem_of_seq. lia.
  - eexists. split; [apply lookup_insert_eq|]. rewrite length_fmap, length_seq.
    split; [done|]. intros i d Hd. apply list_lookup_fmap_Some in Hd as (j & -> & Hj).
    apply lookup_seq in Hj as [-> _]. done.
Qed.

(** ** Clients of one pool

    Any interleaving of allocations (with or without a working clock), field updates that
    keep the two pool pointers, and frees of packets the clients hold. *)
Inductive pool_reach (pl : nat) : mem -> list ptr -> Prop :=
  | pr_init m0 m cap pcap :
      packet_pool_init false false false false false cap pcap m0 = Some ((PP_OK, Some pl), m) ->
      pool_reach pl m []
  | pr_alloc m held clock fid pk m' :
      pool_reach pl m held ->
      packet_pool_alloc clock (Some pl) fid m = Some (Some pk, m') ->
      pool_reach pl m' (held ++ [pk])
  | pr_alloc_fail m held clock fid m' :
      pool_reach pl m held ->
      packet_pool_alloc clock (Some pl) fid m = Some (None, m') ->
      pool_reach pl m' held
  | pr_store m held pk d d' m' :
      pool_reach pl m held -> pk ∈ held -> lookup_pkt m pk = Some d ->
      pool d' = pool d -> payload d' = payload d ->
      store_pkt pk d' m = Some (tt, m') ->
      pool_reach pl m' held
  | pr_free m h1 pk h2 m' :
      pool_reach pl m (h1 ++ pk :: h2) ->
      packet_free (Some pk) m = Some (tt, m') ->
      pool_reach pl m' (h1 ++ h2).

Definition pool_split (m : mem) (pl : nat) (held : list ptr) : Prop :=
  exists p offs hoffs,
    pool_ok m pl p offs /\ held = Ptr (pp_packets p) <$> hoffs /\ NoDup (offs ++ hoffs) /\
    Forall (fun i => i < pp_capacity p) hoffs /\
    length offs + length hoffs = pp_capacity p.

Lemma pool_split_alloc m pl held clock fid :
  pool_split m pl held ->
  exists r m', packet_pool_alloc clock (Some pl) fid m = Some (r, m') /\
    match r with
    | Some pk => pool_split m' pl (held ++ [pk])
    | None => pool_split m' pl held
    end.
Proof.
  intros (p & offs & hoffs & Hok & -> & Hnd & Hh & Hlen).
  destruct offs as [|i offs _] using rev_ind.
  { exists None, m. split; [by eapply pool_alloc_empty|]. by exists p, [], hoffs. }
  destruct clock as [now|].
  - destruct (pool_alloc_spec m pl p offs i now fid Hok)
      as (m' & p' & E & Hok' & Hc & Hp & _).
    exists (Some (Ptr (pp_packets p) i)), m'. split; [done|].
    exists p', offs, (hoffs ++ [i]). rewrite Hp, Hc, fmap_app. split; [done|].
    split; [done|]. split.
    { eapply NoDup_perm; [|exact Hnd].
      rewrite <- app_assoc. apply Permutation_app_head, Permutation_app_comm. }
    rewrite !length_app in *. simpl in *.
    split; [|lia]. apply Forall_app. split; [done|].
    constructor; [|done]. eapply pool_ok_top_lt. done.
  - destruct (pool_alloc_no_clock m pl p offs i fid Hok) as (m' & p' & E & Hok' & Hc & Hp).
    exists None, m'. split; [done|]. exists p', (offs ++ [i]), hoffs. by rewrite Hp, Hc.
Qed.

Lemma pool_split_free m pl h1 pk h2 :
  pool_split m pl (h1 ++ pk :: h2) ->
  exists m', packet_free (Some pk) m = Some (tt, m') /\ pool_split m' pl (h1 ++ h2).
Proof.
  intros (p & offs & hoffs & Hok & Hheld & Hnd & Hh & Hlen).
  symmetry in Hheld. apply fmap_app_inv in Hheld as (o1 & o2' & -> & Hheld & ->).
  destruct o2' as [|i o2]; [done|]. simpl in Hheld. injection Hheld as -> ->.
  apply Forall_app in Hh as [Hh1 Hh2]. inversion Hh2 as [|? ? Hi Hh2']; subst.
  assert (Hni : i ∉ offs).
  { apply list.NoDup_app in Hnd as (_ & Hd & _). intros Hin. apply (Hd i Hin).
    apply elem_of_app. right. apply elem_of_cons. by left. }
  rewrite (packet_free_pooled m pl p offs i Hok Hi).
  destruct (pool_release_spec m pl p offs i Hok Hi Hni) as (m' & p' & E & Hok' & Hc & Hp & _).
  exists m'. split; [done|]. exists p', (offs ++ [i]), (o1 ++ o2).
  rewrite Hc, Hp, fmap_app. split; [done|]. split; [done|]. split.
  { eapply NoDup_perm; [|exact Hnd]. solve_Permutation. }
  split; [by apply Forall_app|]. rewrite !length_app in *. simpl in *. lia.
Qed.

Lemma pool_split_store m pl held pk d d' m' :
  pool_split m pl held -> lookup_pkt m pk = Some d ->
  pool d' = pool d -> payload d' = payload d ->
  store_pkt pk d' m = Some (tt, m') -> pool_split m' pl held.
Proof.
  intros (p & offs & hoffs & Hok & Hr) Hd Hpo Hpa E.
  rewrite (store_pkt_run m pk d d' Hd) in E. simplify_eq.
  exists p, offs, hoffs. split; [|done]. destruct pk. by eapply pool_ok_store.
Qed.

Lemma pool_reach_split pl m held : pool_reach pl m held -> pool_split m pl held.
Proof.
  induction 1 as [m0 m cap pcap E|m held clock fid pk m' _ IH E|m held clock fid m' _ IH E
    |m held pk d d' m' _ IH _ Hd Hpo Hpa E|m h1 pk h2 m' _ IH E].
  - assert (Hz : 0 < cap /\ 0 < pcap).
    { revert E. unfold packet_pool_init.
      destruct (Nat.eqb_spec cap 0), (Nat.eqb_spec pcap 0); simpl; intros; simplify_eq; lia. }
    destruct (packet_pool_init_spec m0 cap pcap) as (m' & pl' & p & E' & Hok & Hc & _);
      [lia|lia|]. rewrite E in E'. simplify_eq.
    exists p, (seq 0 (pp_capacity p)), []. rewrite app_nil_r, length_seq. split; [done|]. split; [done|].
    split; [apply NoDup_seq|]. split; [constructor|simpl; lia].
  - destruct (pool_split_alloc m pl held clock fid IH) as (r & m2 & E' & Hr).
    rewrite E in E'. by simplify_eq.
  - destruct (pool_split_alloc m pl held clock fid IH) as (r & m2 & E' & Hr).
    rewrite E in E'. by simplify_eq.
  - by eapply pool_split_store.
  - destruct (pool_split_free m pl h1 pk h2 IH) as (m2 & E' & Hr).
    rewrite E in E'. by simplify_eq.
Qed.

(** ** Properties *)

(** Whatever a set of clients does with a pool (allocate with or without a working clock,
    fill packets in, free packets they hold), the pool never hands out a packet that is still
    held: the held packets are distinct and live, each with a payload slice of its own inside
    the slab, and held plus available packets always add up to the capacity.  Allocation and
    the free of a held packet never run into undefined behaviour, and allocation fails only
    on an empty pool or without a clock. *)
Theorem pool_never_double_allocates pl m held :
  pool_reach pl m held ->
  exists p, pools m !! pl = Some p /\ NoDup held /\
    length held + pp_free_count p = pp_capacity p /\
    (forall pk, pk ∈ held -> exists d, lookup_pkt m pk = Some d /\ pool d = Some pl /\
       payload d = Some (Ptr (pp_payload_slab p) (p_off pk * pp_payload_cap p)) /\
       p_off pk < pp_capacity p /\
       exists m', packet_free (Some pk) m = Some (tt, m')) /\
    (forall clock fid, exists r m', packet_pool_alloc clock (Some pl) fid m = Some (r, m') /\
       (r = None -> clock = None \/ pp_free_count p = 0)).
Proof.
  intros Hr%pool_reach_split. pose proof Hr as (p & offs & hoffs & Hok & -> & Hnd & Hh & Hlen).
  exists p. apply list.NoDup_app in Hnd as (Hno & Hdis & Hnh).
  split; [apply (po_live _ _ _ _ Hok)|].
  split; [apply (NoDup_fmap_2_strong); [by intros ? ? _ _ [=]|done]|].
  rewrite length_fmap, (po_count _ _ _ _ Hok). split; [lia|]. split.
  - intros pk Hpk. pose proof Hpk as (i & -> & Hi)%list_elem_of_fmap.
    assert (Hlt : i < pp_capacity p)
      by (eapply Forall_forall in Hh; [exact Hh|by apply list_elem_of_In]).
    destruct (pool_slot m pl p offs i Hok Hlt) as (d & Hd & Hpo & Hpa).
    exists d. split; [done|]. split; [done|]. split; [done|]. split; [done|].
    apply list_elem_of_split in Hpk as (h1 & h2 & E). rewrite E in Hr.
    destruct (pool_split_free m pl h1 _ h2 Hr) as (m' & Hf & _). eauto.
  - intros clock fid. destruct offs as [|i offs _] using rev_ind.
    { exists None, m. split; [by eapply pool_alloc_empty|auto]. }
    destruct clock as [now|].
    + destruct (pool_alloc_spec m pl p offs i now fid Hok) as (m' & p' & E & _).
      eexists _, _. split; [exact E|done].
    + destruct (pool_alloc_no_clock m pl p offs i fid Hok) as (m' & p' & E & _).
      eexists _, _. split; [exact E|auto].
Qed.

Definition mem0 : mem := mkMem 0 ∅ ∅ ∅ ∅ [].

Lemma pool_never_double_allocates_witness :
  exists m p, pools m !! 0 = Some p /\ pp_free_count p = 1 /\ pp_capacity p = 2.
Proof.
  destruct (packet_pool_init false false false false false 2 8 mem0) as [[[st po] m0]|] eqn:E0;
    [|vm_compute in E0; discriminate E0].
  destruct (packet_pool_alloc (Some (Timespec 1 2)) (Some 0) 5%Z m0) as [[r m1]|] eqn:E1;
    [|vm_compute in E0; injection E0 as <- <- <-; vm_compute in E1; discriminate E1].
  assert (Er : st = PP_OK /\ po = Some 0) by (vm_compute in E0; injection E0 as <- <- _; done).
  destruct Er as [-> ->].
  assert (Er : r = Some (Ptr 1 1)).
  { vm_compute in E0. injection E0 as <-. vm_compute in E1. by injection E1 as <- _. }
  subst r.
  destruct (pool_never_double_allocates 0 m1 [Ptr 1 1]) as (p & Hp & _ & Hlen & _).
  { eapply (pr_alloc 0 m0 []); [by eapply pr_init|exact E1]. }
  exists m1, p. split; [exact Hp|].
  assert (Hc : pp_capacity p = 2).
  { vm_compute in E0. injection E0 as <-. vm_compute in E1. injection E1 as <-.
    vm_compute in Hp. by injection Hp as <-. }
  simpl in Hlen. lia.
Defined.
