(* ===== verification/PktQueue.v ===== *)
(** * The blocking packet ring: src/src/flow_buffer.c and src/src/mixed_queue.c

    The two C files are the same code over the same fields ([FlowCircularBuffer] and
    [MixedQueue]); this file has that code once, over packet pointers, and FlowBuffer.v and
    MixedQueue.v give it the two sets of names and status codes.

    Every function is one critical section of the queue's mutex.  A blocking call is modelled
    by what one pass through its [while] loop does with the lock held: it returns, or it
    [Blocks] in [pthread_cond_wait], after which the same pass runs again on the state it then
    finds.  [q_live] says that [slots] is not NULL; [q_occ] is the value of the optional
    occupancy mirror ([None] when the pointer is NULL). *)

From S2P Require Import Prelude Ring Packet.

Record pktq := mkQ {
  q_ring : ring (option ptr);
  q_live : bool;
  q_shutdown : bool;
  q_occ : option nat
}.

Inductive q_status := Q_OK | Q_INVALID | Q_ALLOC | Q_FULL | Q_EMPTY | Q_SHUTDOWN.

Inductive outcome (R : Type) := Returns (r : R) | Blocks.
Arguments Returns {R} r.
Arguments Blocks {R}.

Definition with_ring (q : pktq) (r : ring (option ptr)) : pktq :=
  mkQ r (q_live q) (q_shutdown q) (q_occ q).

Definition valid_queue (q : pktq) : bool := q_live q && (0 <? r_capacity (q_ring q))%nat.

Definition occupancy_set (q : pktq) (n : nat) : pktq :=
  match q_occ q with
  | Some _ => mkQ (q_ring q) (q_live q) (q_shutdown q) (Some n)
  | None => q
  end.

(** [calloc], the mutex and the two condition variables can each fail. *)
Definition pktq_init (oom mutex_fails cond1_fails cond2_fails : bool) (q : pktq) (capacity : nat)
  : q_status * pktq :=
  if (capacity =? 0)%nat then (Q_INVALID, q)
  else if oom then (Q_ALLOC, mkQ (q_ring q) false (q_shutdown q) (q_occ q))
  else if mutex_fails || cond1_fails || cond2_fails then
    (Q_ALLOC, mkQ {| r_slots := []; r_capacity := capacity; r_head := 0; r_tail := 0; r_count := 0 |}
                  false false None)
  else (Q_OK, mkQ (ring_init capacity None) true false None).

Definition pktq_set_occupancy_counter (q : pktq) (counter : option nat) : pktq :=
  let q := mkQ (q_ring q) (q_live q) (q_shutdown q) counter in
  occupancy_set q (r_count (q_ring q)).

(** [slots[tail] = pkt; tail = (tail + 1) % capacity; count++] and the mirror. *)
Definition put (q : pktq) (slot : option ptr) : pktq :=
  let q := with_ring q (put_tail (q_ring q) slot) in
  occupancy_set q (r_count (q_ring q)).

(** [pkt = slots[head]; slots[head] = NULL; head = (head + 1) % capacity; count--].  The read
    is in bounds whenever the index invariant holds ([take_head_spec]). *)
Definition ring_pop (r : ring (option ptr)) : option ptr * ring (option ptr) :=
  match take_head (Some None) r with
  | Some (x, r') => (x, r')
  | None => (None, r)
  end.

Definition get (q : pktq) : option ptr * pktq :=
  let '(x, r) := ring_pop (q_ring q) in
  let q := with_ring q r in
  (x, occupancy_set q (r_count (q_ring q))).

Fixpoint destroy_loop (fuel : nat) (r : ring (option ptr)) : C (ring (option ptr)) :=
  match fuel with
  | O => mret r
  | S fuel' =>
      if (0 <? r_count r)%nat then
        match r_slots r !! r_head r with
        | None => ub
        | Some pk =>
            let r' := {| r_slots := r_slots r; r_capacity := r_capacity r;
                         r_head := (r_head r + 1) mod r_capacity r; r_tail := r_tail r;
                         r_count := r_count r - 1 |} in
            _ ← packet_free pk; destroy_loop fuel' r'
        end
      else mret r
  end.

(** The loop runs [count] times; every field is reset afterwards. *)
Definition pktq_destroy (q : pktq) : C pktq :=
  _ ← (if q_live q then destroy_loop (r_count (q_ring q)) (q_ring q) else mret (q_ring q));
  mret (mkQ {| r_slots := []; r_capacity := 0; r_head := 0; r_tail := 0; r_count := 0 |}
            false false None).

Definition pktq_shutdown (q : pktq) : pktq :=
  if q_live q then mkQ (q_ring q) (q_live q) true (q_occ q) else q.

(** [cell] is the caller's [*pkt]; it is cleared when the queue takes the packet. *)
Definition enqueue_locked (q : pktq) (cell : option ptr) (block : bool)
  : outcome (q_status * pktq * option ptr) :=
  match cell with
  | None => Returns (Q_INVALID, q, cell)
  | Some _ =>
    if negb (valid_queue q) then Returns (Q_INVALID, q, cell)
    else if (r_count (q_ring q) =? r_capacity (q_ring q))%nat && negb (q_shutdown q) then
      if block then Blocks else Returns (Q_FULL, q, cell)
    else if q_shutdown q then Returns (Q_SHUTDOWN, q, cell)
    else Returns (Q_OK, put q cell, None)
  end.

(** [waited] is [waited_on_empty] when the pass starts; the last component is what
    [*woke_from_idle] receives. *)
Definition dequeue_locked (q : pktq) (cell : option ptr) (block waited : bool)
  : outcome (q_status * pktq * option ptr * option bool) :=
  if negb (valid_queue q) then Returns (Q_INVALID, q, cell, None)
  else if (r_count (q_ring q) =? 0)%nat && negb (q_shutdown q) then
    if block then Blocks else Returns (Q_EMPTY, q, cell, None)
  else if (r_count (q_ring q) =? 0)%nat && q_shutdown q then Returns (Q_SHUTDOWN, q, cell, None)
  else let '(x, q') := get q in Returns (Q_OK, q', x, Some waited).

Definition pktq_try_enqueue (q : pktq) (cell : option ptr) : q_status * pktq * option ptr :=
  match cell with
  | None => (Q_INVALID, q, cell)
  | Some _ =>
    if negb (valid_queue q) then (Q_INVALID, q, cell)
    else if q_shutdown q then (Q_SHUTDOWN, q, cell)
    else if (r_count (q_ring q) =? r_capacity (q_ring q))%nat then (Q_FULL, q, cell)
    else (Q_OK, put q cell, None)
  end.

Definition pktq_try_dequeue (q : pktq) (cell : option ptr) : q_status * pktq * option ptr :=
  if negb (valid_queue q) then (Q_INVALID, q, cell)
  else if (r_count (q_ring q) =? 0)%nat then
    (if q_shutdown q then Q_SHUTDOWN else Q_EMPTY, q, cell)
  else let '(x, q') := get q in (Q_OK, q', x).

(** The [while] loops of the batch operations, over the caller's array. *)
Fixpoint enqueue_batch_loop (r : ring (option ptr)) (inp : list (option ptr)) (n : nat) {struct n}
  : nat * ring (option ptr) * list (option ptr) :=
  match n, inp with
  | S n', x :: rest =>
      if (r_count r <? r_capacity r)%nat then
        let '(a, r', rest') := enqueue_batch_loop (put_tail r x) rest n' in (S a, r', None :: rest')
      else (0, r, inp)
  | _, _ => (0, r, inp)
  end.

Definition pktq_try_enqueue_batch (q : pktq) (inp : list (option ptr)) (n : nat)
  : nat * pktq * list (option ptr) :=
  if negb (valid_queue q) || (n =? 0)%nat then (0, q, inp)
  else if q_shutdown q then (0, q, inp)
  else
    let '(a, r, inp') := enqueue_batch_loop (q_ring q) inp n in
    (a, occupancy_set (with_ring q r) (r_count r), inp').

Fixpoint dequeue_batch_loop (r : ring (option ptr)) (max_n : nat)
  : list (option ptr) * ring (option ptr) :=
  match max_n with
  | O => ([], r)
  | S n' =>
      if (0 <? r_count r)%nat then
        let '(x, r1) := ring_pop r in
        let '(xs, r2) := dequeue_batch_loop r1 n' in (x :: xs, r2)
      else ([], r)
  end.

(** The packets written to [out], and [*saw_shutdown] of the mixed queue's version. *)
Definition pktq_try_dequeue_batch (q : pktq) (max_n : nat) : list (option ptr) * pktq * bool :=
  if negb (valid_queue q) || (max_n =? 0)%nat then ([], q, false)
  else if (r_count (q_ring q) =? 0)%nat then ([], q, q_shutdown q)
  else
    let '(xs, r) := dequeue_batch_loop (q_ring q) max_n in
    (xs, occupancy_set (with_ring q r) (r_count r), false).

Definition pktq_count (q : pktq) : nat :=
  if negb (valid_queue q) then 0
  else match q_occ q with Some n => n | None => r_count (q_ring q) end.

Definition pktq_is_empty (q : pktq) : bool := (pktq_count q =? 0)%nat.

Definition pktq_is_full (q : pktq) : bool :=
  if negb (valid_queue q) then false
  else match q_occ q with
       | Some n => (n =? r_capacity (q_ring q))%nat
       | None => (r_count (q_ring q) =? r_capacity (q_ring q))%nat
       end.

(** ** The abstraction and the invariant *)

Definition q_items (q : pktq) : list ptr := omap id (contents (q_ring q)).
Definition q_cap (q : pktq) : nat := r_capacity (q_ring q).

(** A live queue: indices consistent, no NULL among the queued slots, the occupancy mirror
    equal to the count. *)
Record q_ok (q : pktq) : Prop := {
  qo_ring : ring_ok (q_ring q);
  qo_live : q_live q = true;
  qo_slots : contents (q_ring q) = Some <$> q_items q;
  qo_occ : q_occ q = None \/ q_occ q = Some (r_count (q_ring q))
}.

Lemma omap_id_some {A} (l : list A) : omap id (Some <$> l) = l.
Proof. induction l as [|x l IH]; simpl; [done|]. by f_equal. Qed.

Lemma q_items_of q l : contents (q_ring q) = Some <$> l -> q_items q = l.
Proof. intros H. unfold q_items. by rewrite H, omap_id_some. Qed.

Lemma q_count q : q_ok q -> r_count (q_ring q) = length (q_items q).
Proof.
  intros H. rewrite <- contents_length by apply (qo_ring _ H).
  by rewrite (qo_slots _ H), length_fmap.
Qed.

Lemma q_valid q : q_ok q -> valid_queue q = true.
Proof.
  intros H. unfold valid_queue. rewrite (qo_live _ H). simpl. apply Nat.ltb_lt.
  apply (qo_ring _ H).
Qed.

Lemma q_bounded q : q_ok q -> length (q_items q) <= q_cap q.
Proof. intros H. rewrite <- q_count by done. apply (qo_ring _ H). Qed.

Lemma occupancy_set_ring q n : q_ring (occupancy_set q n) = q_ring q.
Proof. unfold occupancy_set. by destruct (q_occ q). Qed.
Lemma occupancy_set_live q n : q_live (occupancy_set q n) = q_live q.
Proof. unfold occupancy_set. by destruct (q_occ q). Qed.
Lemma occupancy_set_shutdown q n : q_shutdown (occupancy_set q n) = q_shutdown q.
Proof. unfold occupancy_set. by destruct (q_occ q). Qed.

(** Rebuild the invariant for a queue whose ring and mirror were just updated. *)
Lemma q_ok_update q r l :
  q_ok q -> ring_ok r -> contents r = Some <$> l ->
  let q' := occupancy_set (with_ring q r) (r_count r) in
  q_ok q' /\ q_items q' = l /\ q_cap q' = r_capacity r /\ q_shutdown q' = q_shutdown q.
Proof.
  intros H Hr Hl q'. assert (Hi : q_items q' = l).
  { apply q_items_of. subst q'. by rewrite occupancy_set_ring. }
  split; [|by subst q'; unfold q_cap; rewrite occupancy_set_ring, occupancy_set_shutdown].
  split; subst q'; rewrite ?occupancy_set_ring, ?occupancy_set_live; simpl.
  - done.
  - apply (qo_live _ H).
  - by rewrite Hi.
  - unfold occupancy_set. simpl. destruct (q_occ q) eqn:E; simpl; [by right|by left].
Qed.

Lemma put_spec q p :
  q_ok q -> length (q_items q) < q_cap q ->
  q_ok (put q (Some p)) /\ q_items (put q (Some p)) = q_items q ++ [p] /\
  q_cap (put q (Some p)) = q_cap q /\ q_shutdown (put q (Some p)) = q_shutdown q.
Proof.
  intros H Hlt. rewrite <- q_count in Hlt by done. unfold q_cap in Hlt.
  apply (q_ok_update q (put_tail (q_ring q) (Some p)) (q_items q ++ [p])); [done| |].
  - apply put_tail_ok; [apply (qo_ring _ H)|done].
  - rewrite put_tail_contents; [|apply (qo_ring _ H)|done].
    by rewrite (qo_slots _ H), fmap_app.
Qed.

Lemma ring_pop_spec r x xs :
  ring_ok r -> contents r = Some <$> (x :: xs) ->
  exists r', ring_pop r = (Some x, r') /\ ring_ok r' /\ contents r' = Some <$> xs /\
             r_capacity r' = r_capacity r.
Proof.
  intros Hr Hx. destruct (take_head_spec (Some None) r (Some x) (fmap (M:=list) Some xs) Hr Hx)
    as (r' & E & Hr' & Hc & Hcap & _).
  exists r'. unfold ring_pop. by rewrite E.
Qed.

Lemma get_spec q x xs :
  q_ok q -> q_items q = x :: xs ->
  exists q', get q = (Some x, q') /\ q_ok q' /\ q_items q' = xs /\ q_cap q' = q_cap q /\
             q_shutdown q' = q_shutdown q.
Proof.
  intros H Hx. pose proof (qo_slots _ H) as Hs. rewrite Hx in Hs.
  destruct (ring_pop_spec _ _ _ (qo_ring _ H) Hs) as (r' & E & Hr' & Hc & Hcap).
  unfold get. rewrite E. eexists. split; [reflexivity|].
  destruct (q_ok_update q r' xs H Hr' Hc) as (H1 & H2 & H3 & H4).
  split; [done|]. split; [done|]. split; [|done]. etransitivity; [exact H3|exact Hcap].
Qed.

Lemma dequeue_batch_spec r l n :
  ring_ok r -> contents r = Some <$> l ->
  exists r', dequeue_batch_loop r n = (Some <$> take n l, r') /\ ring_ok r' /\
             contents r' = Some <$> drop n l /\ r_capacity r' = r_capacity r.
Proof.
  revert r l. induction n as [|n IH]; intros r l Hr Hl; simpl; [by exists r|].
  assert (Hc : r_count r = length l) by (by rewrite <- contents_length, Hl, length_fmap).
  destruct l as [|x l]; rewrite Hc; simpl; [by exists r|].
  destruct (ring_pop_spec r x l Hr Hl) as (r1 & -> & Hr1 & Hc1 & Hcap1).
  destruct (IH r1 l Hr1 Hc1) as (r2 & -> & Hr2 & Hc2 & Hcap2).
  exists r2. split; [done|]. split; [done|]. split; [done|congruence].
Qed.

Lemma enqueue_batch_spec r l ps n :
  ring_ok r -> contents r = Some <$> l ->
  let k := Nat.min (Nat.min n (length ps)) (r_capacity r - length l) in
  exists r', enqueue_batch_loop r (Some <$> ps) n =
               (k, r', replicate k None ++ (Some <$> drop k ps)) /\
    ring_ok r' /\ contents r' = Some <$> (l ++ take k ps) /\ r_capacity r' = r_capacity r.
Proof.
  revert r l ps. induction n as [|n IH]; intros r l ps Hr Hl; simpl.
  { exists r. rewrite drop_0, app_nil_r. split_and!; done. }
  assert (Hc : r_count r = length l) by (by rewrite <- contents_length, Hl, length_fmap).
  destruct ps as [|p ps]; csimpl; [exists r; rewrite app_nil_r; split_and!; done|].
  destruct (Nat.ltb_spec (r_count r) (r_capacity r)) as [Hlt|Hge].
  - assert (Hr1 : ring_ok (put_tail r (Some p))) by (by apply put_tail_ok).
    assert (Hl1 : contents (put_tail r (Some p)) = Some <$> (l ++ [p]))
      by (rewrite put_tail_contents, Hl, fmap_app; done).
    destruct (IH _ _ ps Hr1 Hl1) as (r' & E & Hr' & Hc' & Hcap').
    rewrite length_app in E, Hc'. simpl in E, Hc', Hcap'.
    replace (r_capacity r - length l) with (S (r_capacity r - (length l + 1))) by lia.
    csimpl. rewrite E. exists r'. split; [done|]. split; [done|].
    rewrite Hc', <- app_assoc. done.
  - replace (r_capacity r - length l) with 0 by lia. exists r.
    csimpl. rewrite app_nil_r. split_and!; done.
Qed.

(** ** The operations as operations of the abstract queue *)

Definition q_view (q : pktq) : fifo_spec ptr := FifoSpec (q_items q) (q_cap q) (q_shutdown q).

Definition fifo_of (st : q_status) : fifo_status :=
  match st with
  | Q_OK => FifoOk
  | Q_FULL => FifoFull
  | Q_EMPTY => FifoEmpty
  | _ => FifoShutdown
  end.

Lemma try_enqueue_refines q p :
  q_ok q ->
  exists st q', pktq_try_enqueue q (Some p) =
      (st, q', match st with Q_OK => None | _ => Some p end) /\
    q_ok q' /\ spec_push (q_view q) p = (fifo_of st, q_view q') /\
    (st <> Q_OK -> q' = q) /\ st <> Q_INVALID /\ st <> Q_ALLOC /\ st <> Q_EMPTY.
Proof.
  intros H. unfold pktq_try_enqueue, spec_push, q_view. simpl. rewrite q_valid, q_count by done.
  simpl. destruct (q_shutdown q) eqn:Es.
  { exists Q_SHUTDOWN, q. rewrite Es. done. }
  unfold q_cap. destruct (Nat.eqb_spec (length (q_items q)) (r_capacity (q_ring q))) as [E|E].
  { exists Q_FULL, q. rewrite decide_True, Es by done. done. }
  rewrite decide_False by done. pose proof (q_bounded q H) as Hb. unfold q_cap in Hb.
  destruct (put_spec q p H) as (H1 & H2 & H3 & H4); [unfold q_cap; lia|].
  exists Q_OK, (put q (Some p)). unfold q_cap in H3. by rewrite H2, H3, H4, Es.
Qed.

Lemma try_dequeue_refines q :
  q_ok q ->
  exists st x q', pktq_try_dequeue q None = (st, q', x) /\ q_ok q' /\
    spec_pop (q_view q) = (fifo_of st, x, q_view q') /\
    st <> Q_INVALID /\ st <> Q_ALLOC /\ st <> Q_FULL.
Proof.
  intros H. unfold pktq_try_dequeue, spec_pop, q_view. simpl. rewrite q_valid, q_count by done.
  simpl. destruct (q_items q) as [|x xs] eqn:Ei; simpl.
  - exists (if q_shutdown q then Q_SHUTDOWN else Q_EMPTY), None, q. rewrite Ei.
    by destruct (q_shutdown q).
  - destruct (get_spec q x xs H Ei) as (q' & -> & H1 & H2 & H3 & H4).
    exists Q_OK, (Some x), q'. by rewrite H2, H3, H4.
Qed.

Lemma dequeue_batch_refines q n :
  q_ok q ->
  exists q', pktq_try_dequeue_batch q n =
      (Some <$> take n (q_items q), q',
       negb (n =? 0)%nat && (r_count (q_ring q) =? 0)%nat && q_shutdown q) /\
    q_ok q' /\ q_items q' = drop n (q_items q) /\ q_cap q' = q_cap q /\
    q_shutdown q' = q_shutdown q.
Proof.
  intros H. unfold pktq_try_dequeue_batch. rewrite q_valid by done. simpl.
  destruct (Nat.eqb_spec n 0) as [->|Hn]; simpl; [by exists q; rewrite drop_0|].
  pose proof (q_count q H) as Hc.
  destruct (Nat.eqb_spec (r_count (q_ring q)) 0) as [E|E].
  - exists q. rewrite E in Hc. symmetry in Hc. apply length_zero_iff_nil in Hc.
    by rewrite Hc, take_nil, drop_nil.
  - destruct (dequeue_batch_spec (q_ring q) (q_items q) n (qo_ring _ H) (qo_slots _ H))
      as (r' & -> & Hr & Hcn & Hcap).
    destruct (q_ok_update q r' _ H Hr Hcn) as (H1 & H2 & H3 & H4).
    eexists. split; [reflexivity|]. split; [done|]. split; [done|]. split; [|done].
    etransitivity; [exact H3|exact Hcap].
Qed.

Lemma shutdown_refines q :
  q_ok q -> q_ok (pktq_shutdown q) /\ q_view (pktq_shutdown q) = spec_shutdown (q_view q).
Proof.
  intros H. unfold pktq_shutdown. rewrite (qo_live _ H). destruct H as [Hr Hl Hs Ho]. done.
Qed.

Definition pktq_step (q : pktq) (o : fifo_op ptr) : fifo_res ptr * pktq :=
  match o with
  | OpPush p => let '(st, q', _) := pktq_try_enqueue q (Some p) in (ResPush (fifo_of st), q')
  | OpPop => let '(st, q', x) := pktq_try_dequeue q None in (ResPop (fifo_of st) x, q')
  | OpPopBatch n => let '(xs, q', _) := pktq_try_dequeue_batch q n in (ResBatch (omap id xs), q')
  | OpShutdown => (ResShutdown, pktq_shutdown q)
  end.

Lemma pktq_step_ok q o r q' :
  q_ok q -> pktq_step q o = (r, q') -> q_ok q' /\ spec_step (q_view q) o = (r, q_view q').
Proof.
  intros H E. destruct o as [p| |n|]; cbn [pktq_step spec_step] in E |- *.
  - destruct (try_enqueue_refines q p H) as (st & q1 & E1 & Hq & Hs & _).
    rewrite E1 in E. simplify_eq. by rewrite Hs.
  - destruct (try_dequeue_refines q H) as (st & x & q1 & E1 & Hq & Hs & _).
    rewrite E1 in E. simplify_eq. by rewrite Hs.
  - destruct (dequeue_batch_refines q n H) as (q1 & E1 & Hq & Hi & Hc & Hsh).
    rewrite E1 in E. simplify_eq. rewrite omap_id_some. split; [done|].
    unfold q_view. by rewrite Hi, Hc, Hsh.
  - simplify_eq. destruct (shutdown_refines q H) as [H1 H2]. by rewrite H2.
Qed.

#[export] Instance pktq_fifo : Fifo pktq ptr := {|
  fifo_inv := q_ok;
  fifo_view := q_view;
  fifo_step := pktq_step;
  fifo_step_ok := pktq_step_ok;
  fifo_bounded := q_bounded
|}.

Lemma pktq_init_spec q n :
  0 < n -> exists q', pktq_init false false false false q n = (Q_OK, q') /\ q_ok q' /\
    q_items q' = [] /\ q_cap q' = n /\ q_shutdown q' = false.
Proof.
  intros Hn. unfold pktq_init. destruct (Nat.eqb_spec n 0); [lia|]. simpl.
  eexists. split; [reflexivity|]. split; [|done].
  split; simpl; auto using ring_init_ok.
Qed.

Lemma set_occupancy_ok q n :
  q_ok q -> q_ok (pktq_set_occupancy_counter q (Some n)) /\
  q_view (pktq_set_occupancy_counter q (Some n)) = q_view q.
Proof.
  intros [Hr Hl Hs Ho]. split; [|done].
  split; simpl; auto.
Qed.

(** The blocking enqueue: it waits exactly while the queue is full and not shut down, and
    otherwise does what the non-blocking one does. *)
Lemma enqueue_locked_spec q p :
  enqueue_locked q (Some p) true =
  match pktq_try_enqueue q (Some p) with
  | (Q_FULL, _, _) => Blocks
  | r => Returns r
  end.
Proof.
  unfold enqueue_locked, pktq_try_enqueue. destruct (negb (valid_queue q)); [done|].
  destruct (q_shutdown q); simpl; rewrite ?andb_false_r, ?andb_true_r; [done|].
  by destruct (_ =? _)%nat.
Qed.

(** The blocking dequeue: it waits exactly while the queue is empty and not shut down; the
    idle flag it reports is whether it has waited. *)
Lemma dequeue_locked_spec q waited :
  dequeue_locked q None true waited =
  match pktq_try_dequeue q None with
  | (Q_EMPTY, _, _) => Blocks
  | (Q_OK, q', x) => Returns (Q_OK, q', x, Some waited)
  | (st, q', x) => Returns (st, q', x, None)
  end.
Proof.
  unfold dequeue_locked, pktq_try_dequeue. destruct (negb (valid_queue q)); [done|].
  destruct (r_count (q_ring q) =? 0)%nat; simpl; [by destruct (q_shutdown q)|].
  by destruct (get q).
Qed.

(** ** Case analyses used by the clients *)

Lemma try_enqueue_cases q p :
  q_ok q ->
  (q_shutdown q = true /\ pktq_try_enqueue q (Some p) = (Q_SHUTDOWN, q, Some p)) \/
  (q_shutdown q = false /\ length (q_items q) = q_cap q /\
   pktq_try_enqueue q (Some p) = (Q_FULL, q, Some p)) \/
  (q_shutdown q = false /\ length (q_items q) < q_cap q /\
   exists q', pktq_try_enqueue q (Some p) = (Q_OK, q', None) /\ q_ok q' /\
     q_items q' = q_items q ++ [p] /\ q_cap q' = q_cap q /\ q_shutdown q' = false).
Proof.
  intros H. unfold pktq_try_enqueue. rewrite q_valid, q_count by done.
  simpl. destruct (q_shutdown q) eqn:Es; [by left|]. right.
  pose proof (q_bounded q H) as Hb. unfold q_cap in *.
  destruct (Nat.eqb_spec (length (q_items q)) (r_capacity (q_ring q))) as [E|E]; [by left|].
  right. split; [done|]. split; [lia|].
  destruct (put_spec q p H) as (H1 & H2 & H3 & H4); [unfold q_cap; lia|].
  unfold q_cap in H3. exists (put q (Some p)). by rewrite H4.
Qed.

Lemma try_dequeue_cases q :
  q_ok q ->
  (q_items q = [] /\ q_shutdown q = false /\ pktq_try_dequeue q None = (Q_EMPTY, q, None)) \/
  (q_items q = [] /\ q_shutdown q = true /\ pktq_try_dequeue q None = (Q_SHUTDOWN, q, None)) \/
  (exists x q', q_items q = x :: q_items q' /\ pktq_try_dequeue q None = (Q_OK, q', Some x) /\
     q_ok q' /\ q_cap q' = q_cap q /\ q_shutdown q' = q_shutdown q).
Proof.
  intros H. unfold pktq_try_dequeue. rewrite q_valid, q_count by done. simpl.
  destruct (q_items q) as [|x xs] eqn:Ei; simpl.
  - destruct (q_shutdown q); [by right; left|by left].
  - right; right. destruct (get_spec q x xs H Ei) as (q' & -> & H1 & <- & H3 & H4). eauto 10.
Qed.
