(* ===== verification/FlowBuffer.v ===== *)
(** * The per-flow blocking packet ring: src/src/flow_buffer.c

    [FlowCircularBuffer] is the packet ring of PktQueue.v with the [FB_*] status codes. *)

From S2P Require Import Prelude Ring Packet PktQueue.

Definition FlowCircularBuffer : Type := pktq.

Inductive FlowBufferStatus :=
  FB_OK | FB_ERR_INVALID | FB_ERR_ALLOC | FB_ERR_FULL | FB_ERR_EMPTY | FB_ERR_SHUTDOWN.

#[export] Instance FlowBufferStatus_eq_dec : EqDecision FlowBufferStatus.
Proof. solve_decision. Defined.

Definition fb_status (st : q_status) : FlowBufferStatus :=
  match st with
  | Q_OK => FB_OK | Q_INVALID => FB_ERR_INVALID | Q_ALLOC => FB_ERR_ALLOC
  | Q_FULL => FB_ERR_FULL | Q_EMPTY => FB_ERR_EMPTY | Q_SHUTDOWN => FB_ERR_SHUTDOWN
  end.

Definition flow_buffer_init (oom mutex_fails not_full_fails not_empty_fails : bool)
  (fb : FlowCircularBuffer) (capacity : nat) : FlowBufferStatus * FlowCircularBuffer :=
  let '(st, fb) := pktq_init oom mutex_fails not_full_fails not_empty_fails fb capacity in
  (fb_status st, fb).

Definition flow_buffer_set_occupancy_counter (fb : FlowCircularBuffer) (counter : option nat)
  : FlowCircularBuffer := pktq_set_occupancy_counter fb counter.

Definition flow_buffer_destroy (fb : FlowCircularBuffer) : C FlowCircularBuffer := pktq_destroy fb.

Definition flow_buffer_shutdown (fb : FlowCircularBuffer) : FlowCircularBuffer := pktq_shutdown fb.

Definition flow_buffer_enqueue (fb : FlowCircularBuffer) (pkt : option ptr)
  : outcome (FlowBufferStatus * FlowCircularBuffer * option ptr) :=
  match enqueue_locked fb pkt true with
  | Returns (st, fb, pkt) => Returns (fb_status st, fb, pkt)
  | Blocks => Blocks
  end.

Definition flow_buffer_dequeue (fb : FlowCircularBuffer) (pkt : option ptr) (waited : bool)
  : outcome (FlowBufferStatus * FlowCircularBuffer * option ptr * option bool) :=
  match dequeue_locked fb pkt true waited with
  | Returns (st, fb, pkt, woke) => Returns (fb_status st, fb, pkt, woke)
  | Blocks => Blocks
  end.

Definition flow_buffer_try_enqueue (fb : FlowCircularBuffer) (pkt : option ptr)
  : FlowBufferStatus * FlowCircularBuffer * option ptr :=
  let '(st, fb, pkt) := pktq_try_enqueue fb pkt in (fb_status st, fb, pkt).

Definition flow_buffer_try_dequeue (fb : FlowCircularBuffer) (pkt : option ptr)
  : FlowBufferStatus * FlowCircularBuffer * option ptr :=
  let '(st, fb, pkt) := pktq_try_dequeue fb pkt in (fb_status st, fb, pkt).

Definition flow_buffer_try_enqueue_batch (fb : FlowCircularBuffer) (inp : list (option ptr)) (n : nat)
  : nat * FlowCircularBuffer * list (option ptr) := pktq_try_enqueue_batch fb inp n.

(** The number returned is the length of the list of packets written to [out]. *)
Definition flow_buffer_try_dequeue_batch (fb : FlowCircularBuffer) (max_n : nat)
  : list (option ptr) * FlowCircularBuffer :=
  let '(out, fb, _) := pktq_try_dequeue_batch fb max_n in (out, fb).

Definition flow_buffer_count (fb : FlowCircularBuffer) : nat := pktq_count fb.
Definition flow_buffer_is_empty (fb : FlowCircularBuffer) : bool := pktq_is_empty fb.
Definition flow_buffer_is_full (fb : FlowCircularBuffer) : bool := pktq_is_full fb.

(** ** Laws of the [FB_*] operations *)

Lemma fb_try_enqueue_spec fb p :
  q_ok fb ->
  (q_shutdown fb = true /\
   flow_buffer_try_enqueue fb (Some p) = (FB_ERR_SHUTDOWN, fb, Some p)) \/
  (q_shutdown fb = false /\ length (q_items fb) = q_cap fb /\
   flow_buffer_try_enqueue fb (Some p) = (FB_ERR_FULL, fb, Some p)) \/
  (q_shutdown fb = false /\ length (q_items fb) < q_cap fb /\
   exists fb', flow_buffer_try_enqueue fb (Some p) = (FB_OK, fb', None) /\ q_ok fb' /\
     q_items fb' = q_items fb ++ [p] /\ q_cap fb' = q_cap fb /\ q_shutdown fb' = false).
Proof.
  intros H. unfold flow_buffer_try_enqueue.
  destruct (try_enqueue_cases fb p H) as [[Hs ->]|[(Hs & Hl & ->)|(Hs & Hl & fb' & -> & Hr)]];
    [by left|by right; left|]. right; right. eauto 10.
Qed.

Lemma fb_count_items fb : q_ok fb -> flow_buffer_count fb = length (q_items fb).
Proof.
  intros H. unfold flow_buffer_count, pktq_count. rewrite q_valid, <- q_count by done. simpl.
  destruct (qo_occ _ H) as [-> | ->]; done.
Qed.

(** One operation through the public names. *)
Definition fifo_of_fb (st : FlowBufferStatus) : fifo_status :=
  match st with
  | FB_OK => FifoOk | FB_ERR_FULL => FifoFull | FB_ERR_EMPTY => FifoEmpty | _ => FifoShutdown
  end.

Definition flow_buffer_step (fb : FlowCircularBuffer) (o : fifo_op ptr)
  : fifo_res ptr * FlowCircularBuffer :=
  match o with
  | OpPush p => let '(st, fb, _) := flow_buffer_try_enqueue fb (Some p) in (ResPush (fifo_of_fb st), fb)
  | OpPop => let '(st, fb, x) := flow_buffer_try_dequeue fb None in (ResPop (fifo_of_fb st) x, fb)
  | OpPopBatch n => let '(xs, fb) := flow_buffer_try_dequeue_batch fb n in (ResBatch (omap id xs), fb)
  | OpShutdown => (ResShutdown, flow_buffer_shutdown fb)
  end.

Lemma flow_buffer_step_eq fb o : flow_buffer_step fb o = pktq_step fb o.
Proof.
  destruct o as [p| |n|]; cbn [flow_buffer_step pktq_step];
    unfold flow_buffer_try_enqueue, flow_buffer_try_dequeue,
    flow_buffer_try_dequeue_batch.
  - destruct (pktq_try_enqueue fb (Some p)) as [[[] ?] ?]; done.
  - destruct (pktq_try_dequeue fb None) as [[[] ?] ?]; done.
  - by destruct (pktq_try_dequeue_batch fb n) as [[? ?] ?].
  - done.
Qed.

Lemma run_ext {S O R} (f g : S -> O -> R * S) s ops :
  (forall s o, f s o = g s o) -> run f s ops = run g s ops.
Proof.
  intros H. revert s. induction ops as [|o ops IH]; intros s; simpl; [done|].
  rewrite H. destruct (g s o). by rewrite IH.
Qed.

(** ** Properties *)

(** A flow buffer is a bounded FIFO.  From [flow_buffer_init] on, any sequence of
    non-blocking enqueues, dequeues, batch dequeues and shutdowns returns exactly what the
    abstract queue of that capacity returns, never holds more than [capacity] packets, and
    [flow_buffer_count] (with or without the occupancy mirror) is the number queued. *)
Theorem flow_buffer_refines_fifo fb0 capacity fb1 counter ops rs fb :
  flow_buffer_init false false false false fb0 capacity = (FB_OK, fb1) ->
  run flow_buffer_step (flow_buffer_set_occupancy_counter fb1 counter) ops = (rs, fb) ->
  run spec_step (FifoSpec [] capacity false) ops = (rs, q_view fb) /\
  length (q_items fb) <= capacity /\
  flow_buffer_count fb = length (q_items fb) /\
  flow_buffer_is_empty fb = bool_decide (q_items fb = []) /\
  flow_buffer_is_full fb = (length (q_items fb) =? capacity)%nat.
Proof.
  intros Hi Hrun. assert (Hc : 0 < capacity).
  { revert Hi. unfold flow_buffer_init, pktq_init.
    destruct (Nat.eqb_spec capacity 0); simpl; intros; simplify_eq; lia. }
  destruct (pktq_init_spec fb0 capacity Hc) as (q & E & Hok & Hit & Hcap & Hsh).
  unfold flow_buffer_init in Hi. rewrite E in Hi. simpl in Hi. simplify_eq.
  set (fb2 := flow_buffer_set_occupancy_counter _ _) in Hrun.
  assert (H2 : q_ok fb2 /\ q_view fb2 = FifoSpec [] (q_cap fb1) false).
  { subst fb2. destruct counter as [c|].
    - destruct (set_occupancy_ok fb1 c Hok) as [H1 H2]. split; [done|].
      etransitivity; [exact H2|]. unfold q_view. by rewrite Hit, Hsh.
    - destruct Hok as [Hr Hl Hs Ho]. split; [by split; auto|].
      simpl. unfold q_view, flow_buffer_set_occupancy_counter, pktq_set_occupancy_counter,
        q_items, q_cap in *. simpl. by rewrite Hit, Hsh. }
  destruct H2 as [Hok2 Hv2].
  rewrite (run_ext _ pktq_step) in Hrun by apply flow_buffer_step_eq.
  destruct (@fifo_run_refines pktq ptr pktq_fifo ops fb2 fb rs Hok2 Hrun) as [Hok' Hspec].
  change (run spec_step (q_view fb2) ops = (rs, q_view fb)) in Hspec. rewrite Hv2 in Hspec. split; [done|]. simpl in Hok'.
  assert (Hcap' : q_cap fb = q_cap fb1).
  { clear -Hspec. revert rs Hspec. generalize (@nil ptr) false.
    induction ops as [|o ops IH]; intros l b rs; cbn [run].
    - intros E. injection E. intros. by simplify_eq.
    - destruct (spec_step _ o) as [r s1] eqn:E1.
      destruct (run spec_step s1 ops) as [rs' s2] eqn:E2. intros E. simplify_eq.
      assert (exists l' b', s1 = FifoSpec l' (q_cap fb1) b') as (l' & b' & ->).
      { destruct o; simpl in E1; unfold spec_push, spec_pop, spec_pop_batch, spec_shutdown in E1;
          simpl in E1; repeat case_match; simplify_eq; eauto. }
      by eapply IH. }
  split; [rewrite <- Hcap'; by apply q_bounded|].
  split; [by apply fb_count_items|]. split.
  - unfold flow_buffer_is_empty, pktq_is_empty. fold (flow_buffer_count fb).
    rewrite fb_count_items by done. destruct (q_items fb);
      [by rewrite bool_decide_true|by rewrite bool_decide_false].
  - unfold flow_buffer_is_full, pktq_is_full. rewrite q_valid, <- Hcap', <- (q_count fb) by done.
    simpl. unfold q_cap. by destruct (qo_occ _ Hok') as [-> | ->].
Qed.

Definition fb_blank : FlowCircularBuffer := mkQ (ring_init 0 None) false false None.

Lemma flow_buffer_refines_fifo_witness :
  run spec_step (FifoSpec [] 2 false)
    [OpPush (Ptr 1 0); OpPush (Ptr 2 0); OpPush (Ptr 3 0); OpPop; OpShutdown; OpPopBatch 4] =
  ([ResPush FifoOk; ResPush FifoOk; ResPush FifoFull; ResPop FifoOk (Some (Ptr 1 0));
    ResShutdown; ResBatch [Ptr 2 0]], FifoSpec [] 2 true).
Proof.
  refine (proj1 (flow_buffer_refines_fifo fb_blank 2 (mkQ (ring_init 2 None) true false None)
    (Some 0) _ _ (mkQ (Ring [None; None] 2 0 0 0) true true (Some 0)) _ _)).
  - vm_compute. reflexivity.
  - vm_compute. reflexivity.
Defined.

(** The blocking calls honour the ownership contract.  [flow_buffer_enqueue] either
    appends the packet and clears the caller's pointer, or refuses with
    [FB_ERR_SHUTDOWN] leaving queue and pointer alone, or waits, and it waits only on a full
    queue that is not shut down; [flow_buffer_dequeue] hands out the oldest packet with the
    idle flag, drains what is left after a shutdown before reporting it, and waits only on an
    empty queue that is not shut down. *)
Theorem flow_buffer_blocking_contract fb p waited :
  q_ok fb ->
  match flow_buffer_enqueue fb (Some p) with
  | Blocks => length (q_items fb) = q_cap fb /\ q_shutdown fb = false
  | Returns (st, fb', cell) =>
      (st = FB_OK /\ cell = None /\ q_items fb' = q_items fb ++ [p] /\ q_ok fb' /\
       q_shutdown fb = false) \/
      (st = FB_ERR_SHUTDOWN /\ cell = Some p /\ fb' = fb /\ q_shutdown fb = true)
  end /\
  match flow_buffer_dequeue fb None waited with
  | Blocks => q_items fb = [] /\ q_shutdown fb = false
  | Returns (st, fb', cell, woke) =>
      (st = FB_OK /\ woke = Some waited /\ exists x, cell = Some x /\
       q_items fb = x :: q_items fb' /\ q_ok fb') \/
      (st = FB_ERR_SHUTDOWN /\ cell = None /\ fb' = fb /\ q_items fb = [] /\
       q_shutdown fb = true)
  end.
Proof.
  intros H. split.
  - unfold flow_buffer_enqueue. rewrite enqueue_locked_spec.
    destruct (try_enqueue_cases fb p H) as [[Hs ->]|[(Hs & Hl & ->)|(Hs & Hl & fb' & -> & Hr)]].
    + right. done.
    + done.
    + left. by destruct Hr as (? & ? & _).
  - unfold flow_buffer_dequeue. rewrite dequeue_locked_spec.
    destruct (try_dequeue_cases fb H)
      as [(Hi & Hs & ->)|[(Hi & Hs & ->)|(x & q' & Hi & -> & Hok & _)]].
    + done.
    + right. done.
    + left. split; [done|]. split; [done|]. by exists x.
Qed.

Lemma flow_buffer_blocking_contract_witness :
  let fb := mkQ (ring_init 1 None) true false None in
  flow_buffer_dequeue fb None false = Blocks /\ q_items fb = [].
Proof.
  intros fb. assert (Hok : q_ok fb).
  { split; [apply ring_init_ok; lia|reflexivity|reflexivity|left; reflexivity]. }
  pose proof (proj2 (flow_buffer_blocking_contract fb (Ptr 0 0) false Hok)) as H.
  split; [vm_compute; reflexivity|]. vm_compute in H. exact (proj1 H).
Defined.
