(* ===== verification/MixedQueue.v ===== *)
(** * The upstream mixed-flow queue: src/src/mixed_queue.c

    [MixedQueue] is the packet ring of PktQueue.v with the [MQ_*] status codes.  The second
    half models the condition variables: producers blocked in [mixed_queue_push] and the
    dispatcher blocked in [mixed_queue_pop], with the wake-ups the code really sends. *)

From S2P Require Import Prelude Ring Packet PktQueue.

Definition MixedQueue : Type := pktq.

Inductive MixedQueueStatus :=
  MQ_OK | MQ_ERR_INVALID | MQ_ERR_ALLOC | MQ_ERR_FULL | MQ_ERR_EMPTY | MQ_ERR_SHUTDOWN.

#[export] Instance MixedQueueStatus_eq_dec : EqDecision MixedQueueStatus.
Proof. solve_decision. Defined.

Definition mq_status (st : q_status) : MixedQueueStatus :=
  match st with
  | Q_OK => MQ_OK | Q_INVALID => MQ_ERR_INVALID | Q_ALLOC => MQ_ERR_ALLOC
  | Q_FULL => MQ_ERR_FULL | Q_EMPTY => MQ_ERR_EMPTY | Q_SHUTDOWN => MQ_ERR_SHUTDOWN
  end.

Definition mixed_queue_init (oom mutex_fails not_full_fails not_empty_fails : bool)
  (mq : MixedQueue) (capacity : nat) : MixedQueueStatus * MixedQueue :=
  let '(st, mq) := pktq_init oom mutex_fails not_full_fails not_empty_fails mq capacity in
  (mq_status st, mq).

Definition mixed_queue_set_occupancy_counter (mq : MixedQueue) (counter : option nat)
  : MixedQueue := pktq_set_occupancy_counter mq counter.

Definition mixed_queue_destroy (mq : MixedQueue) : C MixedQueue := pktq_destroy mq.

Definition mixed_queue_shutdown (mq : MixedQueue) : MixedQueue := pktq_shutdown mq.

Definition mixed_queue_push (mq : MixedQueue) (pkt : option ptr)
  : outcome (MixedQueueStatus * MixedQueue * option ptr) :=
  match enqueue_locked mq pkt true with
  | Returns (st, mq, pkt) => Returns (mq_status st, mq, pkt)
  | Blocks => Blocks
  end.

Definition mixed_queue_pop (mq : MixedQueue) (pkt : option ptr)
  : outcome (MixedQueueStatus * MixedQueue * option ptr) :=
  match dequeue_locked mq pkt true false with
  | Returns (st, mq, pkt, _) => Returns (mq_status st, mq, pkt)
  | Blocks => Blocks
  end.

Definition mixed_queue_try_push (mq : MixedQueue) (pkt : option ptr)
  : MixedQueueStatus * MixedQueue * option ptr :=
  let '(st, mq, pkt) := pktq_try_enqueue mq pkt in (mq_status st, mq, pkt).

Definition mixed_queue_try_pop (mq : MixedQueue) (pkt : option ptr)
  : MixedQueueStatus * MixedQueue * option ptr :=
  let '(st, mq, pkt) := pktq_try_dequeue mq pkt in (mq_status st, mq, pkt).

(** The packets popped and [*saw_shutdown]. *)
Definition mixed_queue_try_pop_batch (mq : MixedQueue) (max_n : nat)
  : list (option ptr) * MixedQueue * bool := pktq_try_dequeue_batch mq max_n.

Definition mixed_queue_count (mq : MixedQueue) : nat := pktq_count mq.

Definition mixed_queue_count_unlocked_hint (mq : MixedQueue) : nat :=
  if negb (valid_queue mq) then 0
  else match q_occ mq with Some n => n | None => r_count (q_ring mq) end.

Definition mixed_queue_is_empty (mq : MixedQueue) : bool := pktq_is_empty mq.
Definition mixed_queue_is_full (mq : MixedQueue) : bool := pktq_is_full mq.

Lemma mq_push_spec mq p :
  q_ok mq ->
  match mixed_queue_push mq (Some p) with
  | Blocks => length (q_items mq) = q_cap mq /\ q_shutdown mq = false
  | Returns (st, mq', cell) =>
      (st = MQ_OK /\ cell = None /\ q_items mq' = q_items mq ++ [p] /\ q_ok mq' /\
       q_cap mq' = q_cap mq /\ q_shutdown mq' = false /\ q_shutdown mq = false /\
       length (q_items mq) < q_cap mq) \/
      (st = MQ_ERR_SHUTDOWN /\ cell = Some p /\ mq' = mq /\ q_shutdown mq = true)
  end.
Proof.
  intros H. unfold mixed_queue_push. rewrite enqueue_locked_spec.
  destruct (try_enqueue_cases mq p H) as [[Hs ->]|[(Hs & Hl & ->)|(Hs & Hl & q' & -> & Hr)]].
  - right. done.
  - done.
  - left. destruct Hr as (? & ? & ? & ?). done.
Qed.

Lemma mq_pop_spec mq :
  q_ok mq ->
  match mixed_queue_pop mq None with
  | Blocks => q_items mq = [] /\ q_shutdown mq = false
  | Returns (st, mq', cell) =>
      (st = MQ_OK /\ exists x, cell = Some x /\ q_items mq = x :: q_items mq' /\ q_ok mq' /\
       q_cap mq' = q_cap mq /\ q_shutdown mq' = q_shutdown mq) \/
      (st = MQ_ERR_SHUTDOWN /\ cell = None /\ mq' = mq /\ q_items mq = [] /\ q_shutdown mq = true)
  end.
Proof.
  intros H. unfold mixed_queue_pop. rewrite dequeue_locked_spec.
  destruct (try_dequeue_cases mq H)
    as [(Hi & Hs & ->)|[(Hi & Hs & ->)|(x & q' & Hi & -> & Hok & Hc & Hsh)]].
  - done.
  - right. done.
  - left. eauto 10.
Qed.

Lemma mq_pop_batch_spec mq n :
  q_ok mq -> 0 < n ->
  exists mq', mixed_queue_try_pop_batch mq n =
      (Some <$> take n (q_items mq), mq', bool_decide (q_items mq = []) && q_shutdown mq) /\
    q_ok mq' /\ q_items mq' = drop n (q_items mq) /\ q_cap mq' = q_cap mq /\
    q_shutdown mq' = q_shutdown mq.
Proof.
  intros H Hn. destruct (dequeue_batch_refines mq n H) as (q' & E & Hr).
  exists q'. split; [|done]. unfold mixed_queue_try_pop_batch. rewrite E. f_equal.
  destruct (Nat.eqb_spec n 0); [lia|]. simpl. rewrite q_count by done.
  by destruct (q_items mq).
Qed.

(** ** Who waits, and who is woken

    Producers push their packets one after the other with [mixed_queue_push]; the consumer is
    the pop side of [dispatcher_thread] while nothing is deferred: it takes batches with
    [mixed_queue_try_pop_batch] and, finding the queue empty, calls the blocking
    [mixed_queue_pop].  A thread in [pthread_cond_wait] is on a wait list until a signal
    removes it; a signal wakes one waiter, whichever. *)

Definition FM_DISPATCH_BATCH : nat := 32.

Inductive consumer_pc := CTryBatch | CPop | CWaitNotEmpty.

Record wsys := WSys {
  w_q : MixedQueue;
  w_todo : list (list ptr);     (* per producer: the packets it still has to push *)
  w_not_full : list nat;        (* producers waiting on [not_full] *)
  w_consumer : consumer_pc
}.

(** [pthread_cond_signal(&not_full)]. *)
Inductive signal : list nat -> list nat -> Prop :=
  | sig_nobody : signal [] []
  | sig_one ws1 i ws2 : signal (ws1 ++ i :: ws2) (ws1 ++ ws2).

(** [pthread_cond_signal(&not_empty)]: the consumer is its only waiter. *)
Definition wake_consumer (c : consumer_pc) : consumer_pc :=
  match c with CWaitNotEmpty => CPop | _ => c end.

Inductive wstep : wsys -> wsys -> Prop :=
  | ws_push s i p ps q' :
      w_todo s !! i = Some (p :: ps) -> (i ∉ w_not_full s) ->
      mixed_queue_push (w_q s) (Some p) = Returns (MQ_OK, q', None) ->
      wstep s (WSys q' (<[i := ps]> (w_todo s)) (w_not_full s) (wake_consumer (w_consumer s)))
  | ws_push_wait s i p ps :
      w_todo s !! i = Some (p :: ps) -> (i ∉ w_not_full s) ->
      mixed_queue_push (w_q s) (Some p) = Blocks ->
      wstep s (WSys (w_q s) (w_todo s) (w_not_full s ++ [i]) (w_consumer s))
  | ws_batch s xs q' sd ws' :
      w_consumer s = CTryBatch ->
      mixed_queue_try_pop_batch (w_q s) FM_DISPATCH_BATCH = (xs, q', sd) -> xs <> [] ->
      (* [if (n > 0 && was_full) pthread_cond_signal(&mq->not_full)] *)
      (if mixed_queue_is_full (w_q s) then signal (w_not_full s) ws' else ws' = w_not_full s) ->
      wstep s (WSys q' (w_todo s) ws' CTryBatch)
  | ws_batch_empty s q' sd :
      w_consumer s = CTryBatch ->
      mixed_queue_try_pop_batch (w_q s) FM_DISPATCH_BATCH = ([], q', sd) ->
      wstep s (WSys q' (w_todo s) (w_not_full s) CPop)
  | ws_pop s x q' ws' :
      w_consumer s = CPop ->
      mixed_queue_pop (w_q s) None = Returns (MQ_OK, q', Some x) ->
      signal (w_not_full s) ws' ->
      wstep s (WSys q' (w_todo s) ws' CTryBatch)
  | ws_pop_wait s :
      w_consumer s = CPop ->
      mixed_queue_pop (w_q s) None = Blocks ->
      wstep s (WSys (w_q s) (w_todo s) (w_not_full s) CWaitNotEmpty).

(** [n] producers with the given packets, a queue of the given capacity, nobody waiting. *)
Definition wstart (cap : nat) (todo : list (list ptr)) : wsys :=
  WSys (mkQ (ring_init cap None) true false (Some 0)) todo [] CTryBatch.

(** Nothing can move: the dispatcher waits for a packet and every producer that has packets
    left waits for room. *)
Definition wdeadlock (s : wsys) : Prop :=
  w_consumer s = CWaitNotEmpty /\ (exists i, i ∈ w_not_full s) /\
  forall i ps, w_todo s !! i = Some ps -> ps = [] \/ (i ∈ w_not_full s).

(** ** The wake-up invariant for one producer *)

Record one_producer_inv (cap : nat) (s : wsys) : Prop := {
  op_ok : q_ok (w_q s);
  op_cap : q_cap (w_q s) = cap;
  op_open : q_shutdown (w_q s) = false;
  op_one : length (w_todo s) = 1;
  op_full : w_not_full s = [] \/ (w_not_full s = [0] /\ length (q_items (w_q s)) = cap);
  op_empty : w_consumer s = CWaitNotEmpty -> q_items (w_q s) = []
}.

Lemma signal_one_waiter l ws' : signal l ws' -> l = [] \/ l = [0] -> ws' = [].
Proof.
  intros Hs Hl. inversion Hs as [|ws1 i ws2]; subst; [done|].
  destruct Hl as [Hl|Hl]; [by destruct ws1|].
  destruct ws1 as [|? ws1]; simpl in *; [by simplify_eq|].
  injection Hl as _ Hl. by destruct ws1.
Qed.

Lemma is_full_items mq : q_ok mq -> mixed_queue_is_full mq = (length (q_items mq) =? q_cap mq)%nat.
Proof.
  intros H. unfold mixed_queue_is_full, pktq_is_full. rewrite q_valid, <- q_count by done. simpl.
  unfold q_cap. by destruct (qo_occ _ H) as [-> | ->].
Qed.

Lemma one_producer_step cap s s' :
  0 < cap -> one_producer_inv cap s -> wstep s s' -> one_producer_inv cap s'.
Proof.
  intros Hc [Hok Hcap Hop Hone Hfull Hemp] Hst.
  destruct Hst as [s i p ps q' Hi Hni Hp|s i p ps Hi Hni Hp|s xs q' sd ws' Hpc Hb Hne Hsig
    |s q' sd Hpc Hb|s x q' ws' Hpc Hp Hsig|s Hpc Hp].
  - assert (i = 0) as -> by (apply lookup_lt_Some in Hi; lia).
    pose proof (mq_push_spec (w_q s) p Hok) as H. rewrite Hp in H.
    destruct H as [(_ & _ & Hit & Hok' & Hcap' & Hsh & _ & Hlt)|H]; [|naive_solver].
    assert (Hnf : w_not_full s = []) by (destruct Hfull as [?|[E _]]; [done|rewrite E in Hni; set_solver]).
    split; simpl; try done; try congruence.
    + by rewrite length_insert.
    + by left.
    + by destruct (w_consumer s).
  - assert (i = 0) as -> by (apply lookup_lt_Some in Hi; lia).
    pose proof (mq_push_spec (w_q s) p Hok) as H. rewrite Hp in H. destruct H as [Hl _].
    assert (Hnf : w_not_full s = []) by (destruct Hfull as [?|[E _]]; [done|rewrite E in Hni; set_solver]).
    split; simpl; try done. right. rewrite Hnf. split; [done|congruence].
  - destruct (mq_pop_batch_spec (w_q s) FM_DISPATCH_BATCH Hok) as (q1 & E & Hok' & Hit & Hcap' & Hsh);
      [unfold FM_DISPATCH_BATCH; lia|].
    rewrite E in Hb. simplify_eq. split; simpl; try done; try congruence.
    + left. rewrite is_full_items in Hsig by done.
      destruct (Nat.eqb_spec (length (q_items (w_q s))) (q_cap (w_q s))) as [Ef|Ef].
      * eapply signal_one_waiter; [done|]. by destruct Hfull as [?|[? _]]; [left|right].
      * subst ws'. destruct Hfull as [?|[_ ?]]; [done|congruence].
  - destruct (mq_pop_batch_spec (w_q s) FM_DISPATCH_BATCH Hok) as (q1 & E & Hok' & Hit & Hcap' & Hsh);
      [unfold FM_DISPATCH_BATCH; lia|].
    rewrite E in Hb. injection Hb as Hx <- <-.
    assert (Hnil : q_items (w_q s) = []) by (destruct (q_items (w_q s)); done).
    rewrite Hnil in Hit. split; simpl; try done; try congruence.
    rewrite Hnil in Hfull. destruct Hfull as [?|[_ Hz]]; [by left|simpl in Hz; lia].
  - pose proof (mq_pop_spec (w_q s) Hok) as H. rewrite Hp in H.
    destruct H as [(_ & y & _ & _ & Hok' & Hcap' & Hsh)|H]; [|naive_solver].
    split; simpl; try done; try congruence. left.
    eapply signal_one_waiter; [done|]. by destruct Hfull as [?|[? _]]; [left|right].
  - pose proof (mq_pop_spec (w_q s) Hok) as H. rewrite Hp in H.
    split; simpl; try done. intros _. apply H.
Qed.

Lemma one_producer_start cap ps : 0 < cap -> one_producer_inv cap (wstart cap [ps]).
Proof.
  intros Hc. split; simpl; try done; [|by left].
  split; simpl; auto using ring_init_ok.
Qed.

Lemma one_producer_reach cap s s' :
  0 < cap -> rtc wstep s s' -> one_producer_inv cap s -> one_producer_inv cap s'.
Proof.
  intros Hc Hr. induction Hr as [s|s1 s2 s3 Hst _ IH]; [done|].
  intros H. apply IH. by eapply one_producer_step.
Qed.

(** ** Properties *)

(** with a single producer the mixed queue never deadlocks: in every reachable state, of
    the producer waiting for room and the dispatcher waiting for a packet at most one waits. *)
Theorem mixed_queue_one_producer_no_deadlock cap ps s :
  0 < cap -> rtc wstep (wstart cap [ps]) s -> ~ wdeadlock s.
Proof.
  intros Hc Hr (Hw & (i & Hi) & _).
  destruct (one_producer_reach cap _ s Hc Hr (one_producer_start cap ps Hc))
    as [Hok Hcap Hop Hone Hfull Hemp].
  specialize (Hemp Hw). rewrite Hemp in Hfull. simpl in Hfull.
  destruct Hfull as [E|[_ E]]; [rewrite E in Hi; set_solver|lia].
Qed.

Lemma mixed_queue_one_producer_no_deadlock_witness : ~ wdeadlock (wstart 2 [[Ptr 1 0]]).
Proof.
  apply (mixed_queue_one_producer_no_deadlock 2 [Ptr 1 0]).
  - lia.
  - apply rtc_refl.
Defined.

(** With two producers it can deadlock.  [mixed_queue_try_pop_batch] frees up to 32 slots
    and signals [not_full] once, and only if the queue was full, so of two producers blocked on
    a full queue one is never woken: this run ends with the queue empty and open, the
    dispatcher waiting for a packet and a producer that still holds one waiting for room. *)
Theorem mixed_queue_two_producers_deadlock :
  exists s, rtc wstep (wstart 2 [[Ptr 1 0; Ptr 2 0; Ptr 3 0]; [Ptr 4 0]]) s /\
    wdeadlock s /\ q_items (w_q s) = [] /\ q_shutdown (w_q s) = false /\
    w_todo s = [[]; [Ptr 4 0]].
Proof.
  eexists. split.
  { eapply rtc_l; [eapply (ws_push _ 0); [reflexivity|set_solver|vm_compute; reflexivity]|]. simpl.
    eapply rtc_l; [eapply (ws_push _ 0); [reflexivity|set_solver|vm_compute; reflexivity]|]. simpl.
    eapply rtc_l; [eapply (ws_push_wait _ 0); [reflexivity|set_solver|vm_compute; reflexivity]|]. simpl.
    eapply rtc_l; [eapply (ws_push_wait _ 1); [reflexivity|set_solver|vm_compute; reflexivity]|]. simpl.
    eapply rtc_l; [eapply ws_batch;
      [reflexivity|vm_compute; reflexivity|done|apply (sig_one [] 0 [1])]|]. simpl.
    eapply rtc_l; [eapply (ws_push _ 0); [reflexivity|set_solver|vm_compute; reflexivity]|]. simpl.
    eapply rtc_l; [eapply ws_batch;
      [reflexivity|vm_compute; reflexivity|done|vm_compute; reflexivity]|]. simpl.
    eapply rtc_l; [eapply ws_batch_empty; [reflexivity|vm_compute; reflexivity]|]. simpl.
    eapply rtc_l; [eapply ws_pop_wait; [reflexivity|vm_compute; reflexivity]|]. simpl.
    apply rtc_refl. }
  split; [|done]. split; [done|]. simpl. split; [exists 1; set_solver|].
  intros [|[|i]] ps Hps; simpl in Hps; simplify_eq; [by left|right; set_solver].
Qed.
