(* ===== verification/Ownership.v ===== *)
(** * Who owns which packet

    A packet pointer stands for the [DataPacket] and for what [packet_free] gives back with
    it: its payload block, its adoption record, or its slot of a pool.  [owns m ps] says that
    the packets [ps] are live and that no two of them share any of this, so each of them can be
    freed once and freeing one leaves the others as they are.  The queues, the dispatcher and
    the workers are proved to hand such a set around. *)

From S2P Require Import Prelude TimeUtils Packet.

Inductive resource := RPkt (p : ptr) | RBytes (b : nat) | RAdopt (a : nat).

Definition footprint (m : mem) (p : ptr) : list resource :=
  match lookup_pkt m p with
  | None => []
  | Some d =>
      RPkt p :: match pool d, user_data d, payload d with
                | Some _, _, _ => []
                | None, Some a, _ => [RAdopt a]
                | None, None, Some q => [RBytes (p_blk q)]
                | None, None, None => []
                end
  end.

(** The packet is not on the free stack of a pool: it has been handed out and not released. *)
Definition handed_out (P : PacketPool) (p : ptr) : Prop := Some p ∉ take (pp_free_count P) (pp_free_list P).

(** A live packet: a pooled one is in use, a heap packet is the only one in its block, and what
    it gives back is allocated. *)
Definition own_pkt (m : mem) (p : ptr) : Prop :=
  exists d, lookup_pkt m p = Some d /\
    match pool d with
    | Some pl => exists P, pools m !! pl = Some P /\ handed_out P p
    | None =>
        pkts m !! p_blk p = Some [d] /\ p_off p = 0 /\
        match user_data d, payload d with
        | Some a, _ => is_Some (adopts m !! a)
        | None, Some q => is_Some (bytes m !! p_blk q) /\ p_off q = 0
        | None, None => True
        end
    end.

Definition owns (m : mem) (ps : list ptr) : Prop :=
  Forall (own_pkt m) ps /\ NoDup (ps ≫= footprint m).

(** What a memory change does not touch. *)
Definition same_packets (m m' : mem) (ps : list ptr) : Prop :=
  Forall (fun q => lookup_pkt m' q = lookup_pkt m q) ps.

Create HintDb own.

Lemma own_footprint m p : own_pkt m p -> RPkt p ∈ footprint m p.
Proof. intros (d & Hd & _). unfold footprint. rewrite Hd. left. Qed.

Lemma same_packets_elem m m' ps q :
  same_packets m m' ps -> q ∈ ps -> lookup_pkt m' q = lookup_pkt m q.
Proof. intros H Hq. unfold same_packets in H. rewrite list.Forall_forall in H. by apply H. Qed.

Lemma owns_elem m ps q : owns m ps -> q ∈ ps -> own_pkt m q.
Proof. intros [H _] Hq. rewrite list.Forall_forall in H. by apply H. Qed.

Lemma same_packets_refl m ps : same_packets m m ps.
Proof. by apply list.Forall_forall. Qed.

Lemma same_packets_trans m1 m2 m3 ps :
  same_packets m1 m2 ps -> same_packets m2 m3 ps -> same_packets m1 m3 ps.
Proof.
  intros H1 H2. apply list.Forall_forall. intros q Hq.
  rewrite (same_packets_elem _ _ _ _ H2 Hq). by eapply same_packets_elem.
Qed.

Lemma footprints_same m m' ps :
  same_packets m m' ps -> ps ≫= footprint m' = ps ≫= footprint m.
Proof.
  induction 1 as [|q qs Hq _ IH]; [done|]. rewrite !bind_cons, IH. unfold footprint. by rewrite Hq.
Qed.

Lemma owns_frame m m' ps :
  owns m ps -> same_packets m m' ps -> Forall (own_pkt m') ps -> owns m' ps.
Proof. intros [_ Hn] Hs Ho. split; [done|]. by rewrite (footprints_same _ _ _ Hs). Qed.

Lemma owns_perm m ps qs : ps ≡ₚ qs -> owns m ps -> owns m qs.
Proof.
  intros Hp [Ho Hn]. split.
  - by rewrite <- Hp.
  - eapply NoDup_perm; [|done]. by rewrite Hp.
Qed.

#[export] Instance owns_proper m : Proper ((≡ₚ) ==> iff) (owns m).
Proof. intros ps qs H. split; apply owns_perm; [|symmetry]; done. Qed.

Lemma owns_cons m p ps : owns m (p :: ps) -> own_pkt m p /\ owns m ps.
Proof.
  intros [Ho Hn]. apply list.Forall_cons in Ho as [Hp Ho]. rewrite bind_cons in Hn.
  apply list.NoDup_app in Hn as (_ & _ & Hn). done.
Qed.

Lemma owns_app m ps qs : owns m (ps ++ qs) -> owns m ps /\ owns m qs.
Proof.
  intros [Ho Hn]. apply list.Forall_app in Ho as [H1 H2]. rewrite bind_app in Hn.
  apply list.NoDup_app in Hn as (N1 & _ & N2). done.
Qed.

Lemma owns_disjoint m p ps q r :
  owns m (p :: ps) -> q ∈ ps -> r ∈ footprint m p -> r ∉ footprint m q.
Proof.
  intros [_ Hn] Hq Hr Hr'. rewrite bind_cons in Hn. apply list.NoDup_app in Hn as (_ & Hd & _).
  apply (Hd r Hr). apply list_elem_of_bind. eauto.
Qed.

Lemma owns_not_in m p ps : owns m (p :: ps) -> p ∉ ps.
Proof.
  intros H Hin. destruct (owns_cons _ _ _ H) as [Hp _].
  eapply owns_disjoint; [exact H|exact Hin|by apply own_footprint|by apply own_footprint].
Qed.

(** Another owned packet in the block of a heap packet is that packet. *)
Lemma own_heap_block m p q d :
  pkts m !! p_blk p = Some [d] -> p_off p = 0 -> own_pkt m q -> p_blk q = p_blk p -> q = p.
Proof.
  intros Hb H0 (e & He & _) Hbq. unfold lookup_pkt in He. rewrite Hbq, Hb in He. simpl in He.
  destruct p as [bp op], q as [bq oq]; simpl in *; subst.
  destruct oq; [done|]. by destruct oq.
Qed.

(** ** Freeing an owned packet *)

(** Pushing another packet on the free stack. *)
Lemma handed_out_push P p q :
  q <> p -> handed_out P q ->
  handed_out (set_free P (<[pp_free_count P := Some p]> (pp_free_list P)) (pp_free_count P + 1)) q.
Proof.
  unfold handed_out. cbn. intros Hne Hq Hin. apply Hq. apply list_elem_of_lookup in Hin as (i & Hi).
  apply lookup_take_Some in Hi as [Hi Hlt]. apply list_lookup_insert_Some in Hi as [(<- & E & _)|[Hn Hi]]; [congruence|].
  apply list_elem_of_lookup. exists i. apply lookup_take_Some. split; [done|lia].
Qed.

Lemma release_owned m p ps d pl :
  owns m (p :: ps) -> lookup_pkt m p = Some d -> pool d = Some pl ->
  exists m', packet_pool_release (Some pl) (Some p) m = Some (tt, m') /\
    next_blk m' = next_blk m /\ owns m' ps /\ same_packets m m' ps.
Proof.
  intros Ho Hd Hpl. destruct (owns_cons _ _ _ Ho) as [(d' & Hd' & Hp) Hps].
  rewrite Hd in Hd'. simplify_eq. rewrite Hpl in Hp. destruct Hp as (P & HP & HPf).
  set (m1 := set_pkts (alter (fun l =>
      <[p_off p := mkPacket 0 ts_zero 0 (payload d') None (pool d')]> l) (p_blk p)) m).
  assert (Hrel : exists m', packet_pool_release (Some pl) (Some p) m = Some (tt, m') /\
            pkts m' = pkts m1 /\ bytes m' = bytes m /\ adopts m' = adopts m /\
            next_blk m' = next_blk m /\ forall k Q q, q <> p -> pools m !! k = Some Q -> handed_out Q q ->
              exists Q', pools m' !! k = Some Q' /\ handed_out Q' q).
  { unfold packet_pool_release, mbind, comp_bind. rewrite (load_pkt_run _ _ _ Hd).
    rewrite decide_True by done. rewrite (store_pkt_run _ _ d' _ Hd). fold m1.
    unfold gets, the, modify. simpl. rewrite HP.
    case_match; eexists; (split; [reflexivity|]); simpl; split_and!; try done; [|by intros k Q q _ HQ Hq; eauto].
    intros k Q q Hne HQ Hq. destruct (decide (k = pl)) as [->|]; [|rewrite lookup_insert_ne by done; by eauto].
    rewrite lookup_insert_eq. eexists. split; [done|]. rewrite HP in HQ. simplify_eq. by apply handed_out_push. }
  destruct Hrel as (m' & E & Ek & Eb & Ea & En & Epl). exists m'. split; [done|]. split; [done|].
  assert (Hne : forall q, q ∈ ps -> q <> p) by (intros q Hq ->; by eapply owns_not_in).
  assert (Hsame : same_packets m m' ps).
  { apply list.Forall_forall. intros q Hq. specialize (Hne q Hq).
    unfold lookup_pkt. rewrite Ek. simpl. destruct (decide (p_blk q = p_blk p)) as [Eq|Eq].
    - rewrite Eq, lookup_alter_eq. destruct (pkts m !! p_blk p) as [l|]; [simpl|done].
      rewrite list_lookup_insert_ne; [done|]. intros Eo. apply Hne.
      destruct p, q; simpl in *; congruence.
    - by rewrite lookup_alter_ne by done. }
  split; [|done]. eapply owns_frame; [done|done|].
  apply list.Forall_forall. intros q Hq.
  pose proof (owns_elem _ _ _ Hps Hq) as Hoq.
  pose proof (same_packets_elem _ _ _ _ Hsame Hq) as Hsq.
  pose proof Hoq as (e & He & Hk). exists e. rewrite Hsq. split; [done|].
  destruct (pool e); [destruct Hk as (Q & HQ & Hf); apply (Epl _ Q); [by apply Hne|done|done]|]. destruct Hk as (Hb & H0 & Hr).
  split; [|split; [done|by rewrite Eb, Ea]]. rewrite Ek. simpl.
  rewrite lookup_alter_ne; [done|]. intros Eq. apply (Hne q Hq). symmetry.
  eapply own_heap_block; [exact Hb|done| |by rewrite Eq].
  exists d'. split; [done|]. rewrite Hpl. by eauto.
Qed.

(** A heap packet gives back its adoption record or payload, then its own block. *)
Lemma free_heap_frame m m' p ps d :
  owns m (p :: ps) -> lookup_pkt m p = Some d -> pool d = None ->
  pkts m' = delete (p_blk p) (pkts m) -> pools m' = pools m ->
  (forall a, user_data d <> Some a -> adopts m' !! a = adopts m !! a) ->
  (forall b, RBytes b ∉ footprint m p -> bytes m' !! b = bytes m !! b) ->
  owns m' ps /\ same_packets m m' ps.
Proof.
  intros Ho Hd Hnp Ek Epl Ea Eb. destruct (owns_cons _ _ _ Ho) as [(d' & Hd' & Hp) Hps].
  rewrite Hd in Hd'. simplify_eq. rewrite Hnp in Hp. destruct Hp as (Hb & H0 & Hr).
  assert (Hne : forall q, q ∈ ps -> own_pkt m q -> p_blk q <> p_blk p).
  { intros q Hq Hoq Eq. assert (q = p) as -> by (by eapply own_heap_block).
    by eapply owns_not_in. }
  assert (Hall : forall q, q ∈ ps -> own_pkt m q) by (intros q Hq; by eapply owns_elem).
  assert (Hsame : same_packets m m' ps).
  { apply list.Forall_forall. intros q Hq. unfold lookup_pkt.
    rewrite Ek, lookup_delete_ne; [done|]. intros E. by apply (Hne q Hq (Hall q Hq)). }
  split; [|done]. eapply owns_frame; [done|done|].
  apply list.Forall_forall. intros q Hq.
  pose proof (Hall q Hq) as Hoq. pose proof Hoq as (e & He & Hk).
  pose proof (same_packets_elem _ _ _ _ Hsame Hq) as Hsq.
  exists e. rewrite Hsq. split; [done|]. rewrite Epl.
  destruct (pool e) eqn:Epe; [done|]. destruct Hk as (Hbq & H0q & Hrq).
  split; [rewrite Ek, lookup_delete_ne; [done|]; intros E; by apply (Hne q Hq Hoq)|].
  split; [done|]. destruct (user_data e) as [a|] eqn:Eu.
  - rewrite Ea; [done|]. intros E. eapply (owns_disjoint m p ps q (RAdopt a)); [done|done| |].
    + unfold footprint. rewrite Hd, Hnp, E. set_solver.
    + unfold footprint. rewrite He, Epe, Eu. set_solver.
  - destruct (payload e) as [y|] eqn:Ey; [|done]. destruct Hrq as [Hy Hy0]. split; [|done].
    rewrite Eb; [done|]. intros Hin. eapply (owns_disjoint m p ps q); [done|done|exact Hin|].
    unfold footprint. rewrite He, Epe, Eu, Ey. set_solver.
Qed.

Lemma packet_free_owned m p ps :
  owns m (p :: ps) ->
  exists m', packet_free (Some p) m = Some (tt, m') /\ next_blk m' = next_blk m /\
             owns m' ps /\ same_packets m m' ps.
Proof.
  intros Ho. destruct (owns_cons _ _ _ Ho) as [(d & Hd & Hp) Hps].
  unfold packet_free, mbind, comp_bind. rewrite (load_pkt_run _ _ _ Hd).
  destruct (pool d) as [pl|] eqn:Epl; [by eapply release_owned|].
  destruct Hp as (Hb & H0 & Hr).
  destruct (user_data d) as [a|] eqn:Eu.
  - destruct Hr as [ad Had]. unfold gets, the, modify, mret, comp_ret. simpl. rewrite Had.
    destruct (free_fn ad); simpl; unfold free_pkt, mbind, comp_bind, gets, modify; simpl;
      rewrite Hb, H0; eexists; (split; [reflexivity|]);
      (split; [done|]);
      eapply free_heap_frame; eauto; simpl; intros; rewrite lookup_delete_ne by congruence; done.
  - destruct (payload d) as [y|] eqn:Ey.
    + destruct Hr as [[l Hl] Hy0]. unfold free_bytes, free_pkt, mbind, comp_bind, gets, modify.
      simpl. rewrite Hl, Hy0. simpl. rewrite Hb, H0. eexists. split; [reflexivity|].
      split; [done|]. eapply free_heap_frame; eauto. simpl.
      intros b Hnb. rewrite lookup_delete_ne; [done|]. intros <-. apply Hnb.
      unfold footprint. rewrite Hd, Epl, Eu, Ey. set_solver.
    + unfold free_bytes, free_pkt, mbind, comp_bind, gets, modify, mret, comp_ret. simpl.
      rewrite Hb, H0. eexists. split; [reflexivity|].
      split; [done|]. by eapply free_heap_frame.
Qed.

#[export] Hint Resolve owns_frame : own.

(** ** Creating a packet *)

(** Blocks from [next_blk] on have never been allocated. *)
Definition mem_wf (m : mem) : Prop :=
  forall b, next_blk m <= b -> pkts m !! b = None /\ bytes m !! b = None /\ adopts m !! b = None.

(** New blocks do not touch owned packets. *)
Lemma owns_extend m m' ps :
  owns m ps -> pools m' = pools m ->
  (forall b, is_Some (pkts m !! b) -> pkts m' !! b = pkts m !! b) ->
  (forall b, is_Some (bytes m !! b) -> bytes m' !! b = bytes m !! b) ->
  (forall a, is_Some (adopts m !! a) -> adopts m' !! a = adopts m !! a) ->
  owns m' ps /\ same_packets m m' ps.
Proof.
  intros Ho Ep Ek Eb Ea.
  assert (Hs : same_packets m m' ps).
  { apply list.Forall_forall. intros q Hq. destruct (owns_elem _ _ _ Ho Hq) as (d & Hd & _).
    unfold lookup_pkt in *. destruct (pkts m !! p_blk q) as [l|] eqn:El; [|done]. by rewrite Ek, El by eauto. }
  split; [|done]. eapply owns_frame; [done|done|]. apply list.Forall_forall. intros q Hq.
  destruct (owns_elem _ _ _ Ho Hq) as (d & Hd & Hk). exists d.
  rewrite (same_packets_elem _ _ _ _ Hs Hq), Ep. split; [done|].
  destruct (pool d); [done|]. destruct Hk as (K1 & K2 & K3). split; [by rewrite Ek by eauto|].
  split; [done|]. destruct (user_data d); [by rewrite Ea|]. destruct (payload d); [|done].
  destruct K3 as [K3 K4]. by rewrite Eb.
Qed.

Lemma owned_live_resource m ps r :
  owns m ps -> r ∈ ps ≫= footprint m ->
  match r with
  | RPkt p => is_Some (lookup_pkt m p)
  | RBytes b => is_Some (bytes m !! b)
  | RAdopt a => is_Some (adopts m !! a)
  end.
Proof.
  intros Ho Hr. apply list_elem_of_bind in Hr as (q & Hr & Hq).
  destruct (owns_elem _ _ _ Ho Hq) as (d & Hd & Hk). unfold footprint in Hr. rewrite Hd in Hr.
  apply elem_of_cons in Hr as [->|Hr]; [by eauto|].
  destruct (pool d); [set_solver|]. destruct Hk as (_ & _ & Hk).
  destruct (user_data d); [apply list_elem_of_singleton in Hr as ->; done|].
  destruct (payload d); [|set_solver]. apply list_elem_of_singleton in Hr as ->. by destruct Hk.
Qed.

(** What a successful [packet_create] leaves behind: an owned packet of the given flow whose
    payload block holds the first [len] bytes of the data. *)
Definition carries (m : mem) (p : ptr) (fid : Z) (data : list Z) : Prop :=
  exists d, lookup_pkt m p = Some d /\ flow_id d = fid /\ payload_len d = length data /\
    (data <> [] -> exists y, payload d = Some y /\ exists l, bytes m !! p_blk y = Some l /\
                             read_at l (p_off y) (length data) = data).

Lemma packet_create_owned m ps now fid data :
  mem_wf m -> owns m ps ->
  exists p m', packet_create false false (Some now) fid (Some data) (length data) m = Some (Some p, m') /\
    owns m' (p :: ps) /\ same_packets m m' ps /\ mem_wf m' /\ carries m' p fid data.
Proof.
  intros Hwf Ho. destruct (Hwf (next_blk m) ltac:(lia)) as (W1 & W2 & W3).
  destruct (Hwf (S (next_blk m)) ltac:(lia)) as (V1 & V2 & V3).
  unfold packet_create. rewrite bool_decide_eq_false_2, andb_false_r by done.
  destruct (Nat.ltb_spec 0 (length data)) as [Hl|Hl].
  - unfold mbind, comp_bind, fresh_blk, modify, alloc_pkt, mret, comp_ret. simpl.
    rewrite (take_ge data (length data)) by done.
    eexists (Ptr (S (next_blk m)) 0), _. split; [reflexivity|].
    match goal with |- owns ?x _ /\ _ => set (m' := x) end.
    destruct (owns_extend m m' ps Ho) as [Ho' Hs']; [done| | |done|].
    { intros b Hb. simpl. rewrite lookup_insert_ne; [done|]. intros <-. rewrite V1 in Hb. by destruct Hb. }
    { intros b Hb. simpl. rewrite lookup_insert_ne; [done|]. intros <-. rewrite W2 in Hb. by destruct Hb. }
    assert (Hlk : lookup_pkt m' (Ptr (S (next_blk m)) 0) =
      Some (mkPacket fid now (length data) (Some (Ptr (next_blk m) 0)) None None)).
    { unfold lookup_pkt. simpl. by rewrite lookup_insert_eq. }
    split; [split|split; [done|split]].
    + constructor; [|apply Ho']. eexists. split; [exact Hlk|]. simpl.
      rewrite !lookup_insert_eq. split_and!; by eauto.
    + rewrite bind_cons. unfold footprint at 1. rewrite Hlk. simpl.
      assert (Hold : forall r, r ∈ ps ≫= footprint m' -> r <> RPkt (Ptr (S (next_blk m)) 0) /\ r <> RBytes (next_blk m)).
      { intros r Hr. rewrite (footprints_same m m' ps Hs') in Hr.
        pose proof (owned_live_resource m ps r Ho Hr) as Hlive.
        split; intros ->; [unfold lookup_pkt in Hlive; simpl in Hlive; rewrite V1 in Hlive|rewrite W2 in Hlive];
          by destruct Hlive. }
      apply list.NoDup_cons. split; [|apply list.NoDup_cons; split; [|apply Ho']].
      * intros [?|Hin]%elem_of_cons; [done|]. by destruct (Hold _ Hin).
      * intros Hin. by destruct (Hold _ Hin).
    + intros b Hb. simpl in *. rewrite !lookup_insert_ne by lia. apply Hwf. lia.
    + eexists. split; [exact Hlk|]. split; [done|]. split; [done|]. intros _. eexists. split; [reflexivity|].
      exists data. simpl. rewrite lookup_insert_eq. split; [done|]. unfold read_at. by rewrite drop_0, take_ge.
  - assert (data = []) as -> by (destruct data; [done|simpl in *; lia]).
    unfold mbind, comp_bind, fresh_blk, modify, alloc_pkt, mret, comp_ret. simpl.
    eexists (Ptr (next_blk m) 0), _. split; [reflexivity|].
    match goal with |- owns ?x _ /\ _ => set (m' := x) end.
    destruct (owns_extend m m' ps Ho) as [Ho' Hs']; [done| |done|done|].
    { intros b Hb. simpl. rewrite lookup_insert_ne; [done|]. intros <-. rewrite W1 in Hb. by destruct Hb. }
    assert (Hlk : lookup_pkt m' (Ptr (next_blk m) 0) = Some (mkPacket fid now 0 None None None)).
    { unfold lookup_pkt. simpl. by rewrite lookup_insert_eq. }
    split; [split|split; [done|split]].
    + constructor; [|apply Ho']. eexists. split; [exact Hlk|]. simpl. by rewrite !lookup_insert_eq.
    + rewrite bind_cons. unfold footprint at 1. rewrite Hlk. simpl.
      apply list.NoDup_cons. split; [|apply Ho']. intros Hin. rewrite (footprints_same m m' ps Hs') in Hin.
      pose proof (owned_live_resource m ps _ Ho Hin) as Hlive. unfold lookup_pkt in Hlive. simpl in Hlive.
      rewrite W1 in Hlive. by destruct Hlive.
    + intros b Hb. simpl in *. rewrite !lookup_insert_ne by lia. apply Hwf. lia.
    + eexists. split; [exact Hlk|]. done.
Qed.

(** Ownership of the packets of a concrete memory. *)
Ltac owns_now :=
  vm_compute; split;
  [ repeat (apply list.Forall_cons; split; [eexists; split; [reflexivity|]; split_and!; try done; by eexists|]);
    constructor
  | repeat (apply list.NoDup_cons; split; [set_solver|]); apply NoDup_nil_2 ].
