(* ===== verification/TxQueue.v ===== *)
(** * The gated transmit queue: src/src/tx_queue.c

    A ring of packets by value with an item and a byte limit, three overflow policies, insertion
    at either end and a release gate.  Payloads are addresses ([0] is NULL); freeing one is
    recorded in the list of freed packets an operation returns.  The gate is a function pointer
    of the congestion-control layer, so it is a parameter.  Byte counts are [size_t]. *)

From S2P Require Import Prelude Ring PktQueue.

Local Open Scope Z_scope.

Inductive TxqStatus :=
  | TXQ_OK | TXQ_ERR_INVALID | TXQ_ERR_ALLOC | TXQ_ERR_FULL | TXQ_ERR_EMPTY | TXQ_ERR_SHUTDOWN | TXQ_ERR_GATED.

Inductive TxqOverflowPolicy := TXQ_POLICY_BLOCK | TXQ_POLICY_TRY | TXQ_POLICY_DROP_HEAD.

#[export] Instance TxqOverflowPolicy_eq_dec : EqDecision TxqOverflowPolicy.
Proof. solve_decision. Defined.

Record TxqPacket := mkTxq {
  tp_payload : Z;
  tp_length : Z;
  tp_flow_id : Z;
  tp_seq : Z;
  tp_enqueue_ns : Z;
  tp_user : Z;
  tp_free_fn : option Z;
  tp_free_ctx : Z
}.

Definition txq_zero : TxqPacket := mkTxq 0 0 0 0 0 0 None 0.

Record TxQueue := mkTxQueue {
  tq_ring : ring TxqPacket;
  tq_live : bool;               (* [slots] is not NULL *)
  tq_capacity_bytes : Z;
  tq_policy : TxqOverflowPolicy;
  tq_bytes : Z;
  tq_shutdown : bool;
  tq_gate_fn : option Z;
  tq_gate_ctx : Z
}.

Definition with_items (q : TxQueue) (r : ring TxqPacket) (bytes : Z) : TxQueue :=
  mkTxQueue r (tq_live q) (tq_capacity_bytes q) (tq_policy q) bytes (tq_shutdown q) (tq_gate_fn q) (tq_gate_ctx q).

(** What [txq_free_packet] does to the log of freed packets. *)
Definition txq_free_packet (pkt : TxqPacket) : list TxqPacket :=
  if tp_payload pkt =? 0 then [] else [pkt].

Definition txq_full_locked (q : TxQueue) (len : Z) : bool :=
  if (r_capacity (tq_ring q) <=? r_count (tq_ring q))%nat then true
  else negb (tq_capacity_bytes q =? 0) && negb (tq_bytes q =? 0) &&
       (u64 (tq_bytes q + len) >? tq_capacity_bytes q).

(** [None] is a read outside the slot array. *)
Definition txq_evict_head_locked (q : TxQueue) : option (list TxqPacket * TxQueue) :=
  '(pkt, r) ← take_head None (tq_ring q);
  Some (txq_free_packet pkt, with_items q r (tq_bytes q -u64 tp_length pkt)%cint).

Definition txq_insert_tail_locked (q : TxQueue) (pkt : TxqPacket) : TxQueue :=
  with_items q (put_tail (tq_ring q) pkt) (tq_bytes q +u64 tp_length pkt)%cint.

Definition txq_insert_head_locked (q : TxQueue) (pkt : TxqPacket) : TxQueue :=
  with_items q (put_head (tq_ring q) pkt) (tq_bytes q +u64 tp_length pkt)%cint.

(** The allocation, the condition attribute and the three primitives can fail. *)
Definition txq_init (oom attr_fails clock_fails mutex_fails readable_fails not_full_fails : bool)
  (capacity_items : nat) (capacity_bytes : Z) (policy : TxqOverflowPolicy) (q0 : TxQueue) : TxqStatus * TxQueue :=
  if (capacity_items =? 0)%nat then (TXQ_ERR_INVALID, q0)
  else if oom || attr_fails || clock_fails || mutex_fails || readable_fails || not_full_fails then
    (TXQ_ERR_ALLOC, mkTxQueue (Ring [] 0 0 0 0) false 0 TXQ_POLICY_BLOCK 0 false None 0)
  else (TXQ_OK, mkTxQueue (ring_init capacity_items txq_zero) true capacity_bytes policy 0 false None 0).

(** The packets freed, in order, and the queue afterwards; [None] is a read outside the array. *)
Definition txq_destroy (q : TxQueue) : option (list TxqPacket * TxQueue) :=
  if negb (tq_live q) then Some ([], q)
  else
    pkts ← mapM (fun i => r_slots (tq_ring q) !! ((r_head (tq_ring q) + i) mod r_capacity (tq_ring q))%nat)
             (seq 0 (r_count (tq_ring q)));
    Some (pkts ≫= txq_free_packet,
          mkTxQueue (Ring [] (r_capacity (tq_ring q)) (r_head (tq_ring q)) (r_tail (tq_ring q)) 0) false
            (tq_capacity_bytes q) (tq_policy q) 0 (tq_shutdown q) (tq_gate_fn q) (tq_gate_ctx q)).

Definition txq_shutdown (q : TxQueue) : TxQueue :=
  mkTxQueue (tq_ring q) (tq_live q) (tq_capacity_bytes q) (tq_policy q) (tq_bytes q) true
    (tq_gate_fn q) (tq_gate_ctx q).

Definition txq_set_release_gate (q : TxQueue) (fn : option Z) (ctx : Z) : TxQueue :=
  mkTxQueue (tq_ring q) (tq_live q) (tq_capacity_bytes q) (tq_policy q) (tq_bytes q) (tq_shutdown q) fn ctx.

(** [while (count != 0 && full) evict]. *)
Fixpoint evict_loop (fuel : nat) (q : TxQueue) (len : Z) : option (list TxqPacket * TxQueue) :=
  match fuel with
  | O => Some ([], q)
  | S fuel' =>
      if negb (r_count (tq_ring q) =? 0)%nat && txq_full_locked q len then
        '(freed, q1) ← txq_evict_head_locked q;
        '(freed', q2) ← evict_loop fuel' q1 len;
        Some (freed ++ freed', q2)
      else Some ([], q)
  end.

Definition insert_locked (front : bool) (q : TxQueue) (pkt : TxqPacket) : TxQueue :=
  if front then txq_insert_head_locked q pkt else txq_insert_tail_locked q pkt.

(** [txq_now_ns]: nanoseconds of a [clock_gettime] result, 0 when it fails. *)
Definition txq_now_ns (ts : option (Z * Z)) : Z :=
  match ts with
  | None => 0
  | Some (tv_sec, tv_nsec) => u64 (u64 (u64 tv_sec * 1000000000) + u64 tv_nsec)
  end.

(** [now] is what [txq_now_ns] returns. *)
Definition stamp (now : Z) (pkt : TxqPacket) : TxqPacket :=
  if tp_enqueue_ns pkt =? 0 then
    mkTxq (tp_payload pkt) (tp_length pkt) (tp_flow_id pkt) (tp_seq pkt) now (tp_user pkt)
      (tp_free_fn pkt) (tp_free_ctx pkt)
  else pkt.

(** One pass of the [for (;;)] loop, as it starts and as it resumes after a wait (where
    the shutdown flag is looked at first).  The result has the packets freed by eviction. *)
Definition enqueue_pass (q : TxQueue) (pkt : TxqPacket) (front blocking : bool)
  : option (outcome (TxqStatus * list TxqPacket * TxQueue)) :=
  if tq_shutdown q then Some (Returns (TXQ_ERR_SHUTDOWN, [], q))
  else if negb (txq_full_locked q (tp_length pkt)) then
    Some (Returns (TXQ_OK, [], insert_locked front q pkt))
  else
    match tq_policy q with
    | TXQ_POLICY_DROP_HEAD =>
        '(freed, q') ← evict_loop (r_count (tq_ring q)) q (tp_length pkt);
        Some (Returns (TXQ_OK, freed, insert_locked front q' pkt))
    | TXQ_POLICY_BLOCK =>
        if blocking then Some Blocks else Some (Returns (TXQ_ERR_FULL, [], q))
    | TXQ_POLICY_TRY => Some (Returns (TXQ_ERR_FULL, [], q))
    end.

(** The caller's packet, which the call stamps, and the outcome of the first pass. *)
Definition txq_enqueue (now : Z) (q : TxQueue) (pkt : TxqPacket) (front blocking : bool)
  : option (TxqPacket * outcome (TxqStatus * list TxqPacket * TxQueue)) :=
  if (tp_payload pkt =? 0) || (tp_length pkt =? 0) then Some (pkt, Returns (TXQ_ERR_INVALID, [], q))
  else if tq_shutdown q then Some (pkt, Returns (TXQ_ERR_SHUTDOWN, [], q))
  else
    let pkt := stamp now pkt in
    res ← enqueue_pass q pkt front blocking; Some (pkt, res).

Definition txq_push now q pkt := txq_enqueue now q pkt false true.
Definition txq_try_push now q pkt := txq_enqueue now q pkt false false.
Definition txq_push_front now q pkt := txq_enqueue now q pkt true true.

Section Gate.
(** The gate at an address, called with the front packet and its context. *)
Variable gate : Z -> TxqPacket -> Z -> Z.

Definition release_front (q : TxQueue) : option (TxqPacket * TxQueue) :=
  '(pkt, r) ← take_head None (tq_ring q);
  Some (pkt, with_items q r (tq_bytes q -u64 tp_length pkt)%cint).

(** The delay the gate asks for; no gate asks for none. *)
Definition gate_delay (q : TxQueue) : option Z :=
  match tq_gate_fn q with
  | None => Some 0
  | Some fn => pkt ← r_slots (tq_ring q) !! r_head (tq_ring q); Some (gate fn pkt (tq_gate_ctx q))
  end.

(** One pass of the blocking pop.  It waits for a packet ([inl Blocks]) or, with a packet and a
    closed gate, in a timed wait ([inr (tv_sec, tv_nsec)]) from the clock reading [now]. *)
Definition txq_pop (now : Z) (q : TxQueue) : option (outcome (TxqStatus * option TxqPacket * TxQueue) + Z * Z) :=
  if (r_count (tq_ring q) =? 0)%nat then
    if tq_shutdown q then Some (inl (Returns (TXQ_ERR_SHUTDOWN, None, q))) else Some (inl Blocks)
  else
    delay ← gate_delay q;
    if negb (delay =? 0) && negb (tq_shutdown q) then
      let abstime := (now +u64 delay)%cint in Some (inr (abstime / 1000000000, abstime mod 1000000000))
    else '(pkt, q') ← release_front q; Some (inl (Returns (TXQ_OK, Some pkt, q'))).

Definition txq_try_pop (q : TxQueue) : option (TxqStatus * option TxqPacket * TxQueue) :=
  if (r_count (tq_ring q) =? 0)%nat then Some (TXQ_ERR_EMPTY, None, q)
  else
    delay ← gate_delay q;
    if negb (delay =? 0) then Some (TXQ_ERR_GATED, None, q)
    else '(pkt, q') ← release_front q; Some (TXQ_OK, Some pkt, q').
End Gate.

Definition txq_count (q : TxQueue) : nat := r_count (tq_ring q).
Definition txq_bytes (q : TxQueue) : Z := tq_bytes q.
Definition txq_capacity_items (q : TxQueue) : nat := r_capacity (tq_ring q).
Definition txq_capacity_bytes (q : TxQueue) : Z := tq_capacity_bytes q.

(** ** The abstract queue: a list of packets with two limits *)

Definition total (l : list TxqPacket) : Z := foldr (fun p n => tp_length p + n) 0 l.

Definition spec_full (cap : nat) (cap_bytes : Z) (l : list TxqPacket) (len : Z) : bool :=
  (cap <=? length l)%nat ||
  (negb (cap_bytes =? 0) && negb (total l =? 0) && (total l + len >? cap_bytes)).

(** Eviction: the packets dropped from the front and those kept. *)
Fixpoint spec_evict (cap : nat) (cap_bytes : Z) (l : list TxqPacket) (len : Z)
  : list TxqPacket * list TxqPacket :=
  match l with
  | [] => ([], [])
  | p :: l' =>
      if spec_full cap cap_bytes l len then
        let '(dropped, kept) := spec_evict cap cap_bytes l' len in (p :: dropped, kept)
      else ([], l)
  end.

(** ** The invariant *)

Definition items (q : TxQueue) : list TxqPacket := contents (tq_ring q).

(** Queued packets have a payload and a positive length, and the byte counter is their sum. *)
Record txq_ok (q : TxQueue) : Prop := {
  to_ring : ring_ok (tq_ring q);
  to_live : tq_live q = true;
  to_items : Forall (fun p => tp_payload p <> 0 /\ 0 < tp_length p) (items q);
  to_bytes : tq_bytes q = total (items q);
  to_range : total (items q) < 2 ^ 64
}.

Lemma total_app l k : total (l ++ k) = total l + total k.
Proof. induction l as [|p l IH]; simpl; [done|]. lia. Qed.

Lemma total_nonneg l : Forall (fun p => tp_payload p <> 0 /\ 0 < tp_length p) l -> 0 <= total l.
Proof. induction 1 as [|p l [_ Hp] _ IH]; simpl; lia. Qed.

Lemma full_spec q len :
  txq_ok q -> 0 < len -> total (items q) + len < 2 ^ 64 ->
  txq_full_locked q len = spec_full (r_capacity (tq_ring q)) (tq_capacity_bytes q) (items q) len.
Proof.
  intros H Hl Hr. unfold txq_full_locked, spec_full, items. rewrite contents_length by apply (to_ring _ H).
  destruct (_ <=? _)%nat; [done|]. rewrite (to_bytes _ H). fold (items q).
  rewrite u64_small; [done|]. unfold in_range. pose proof (total_nonneg _ (to_items _ H)). lia.
Qed.

Lemma take_front q p l :
  txq_ok q -> items q = p :: l ->
  exists r, take_head None (tq_ring q) = Some (p, r) /\
    txq_ok (with_items q r (tq_bytes q -u64 tp_length p)%cint) /\
    items (with_items q r (tq_bytes q -u64 tp_length p)%cint) = l /\ r_capacity r = r_capacity (tq_ring q) /\
    tp_payload p <> 0.
Proof.
  intros H Hi. destruct (take_head_spec None (tq_ring q) p l (to_ring _ H) Hi) as (r & E & Hr & Hc & Hcap & _).
  exists r. split; [done|]. pose proof (to_items _ H) as Hit. pose proof (to_bytes _ H) as Hb.
  pose proof (to_range _ H) as Hrg. rewrite Hi in Hit, Hb, Hrg. simpl in Hb, Hrg.
  apply list.Forall_cons in Hit as [[Hp1 Hp2] Hit]. pose proof (total_nonneg _ Hit) as Hnn.
  assert (Hbytes : (tq_bytes q -u64 tp_length p)%cint = total l).
  { rewrite Hb. rewrite u64_small; [lia|]. unfold in_range. lia. }
  split; [|done]. split; simpl; unfold items; simpl; rewrite ?Hc; try done; [by apply (to_live _ H)|lia].
Qed.

(** Inserting a packet into a queue with a free slot. *)
Lemma insert_spec front q p :
  txq_ok q -> (length (items q) < r_capacity (tq_ring q))%nat -> tp_payload p <> 0 -> 0 < tp_length p ->
  total (items q) + tp_length p < 2 ^ 64 ->
  txq_ok (insert_locked front q p) /\
  items (insert_locked front q p) = (if front then p :: items q else items q ++ [p]) /\
  r_capacity (tq_ring (insert_locked front q p)) = r_capacity (tq_ring q).
Proof.
  intros H Hlt Hp Hl Hr. unfold items in Hlt. rewrite contents_length in Hlt by apply (to_ring _ H).
  pose proof (to_ring _ H) as Hring. pose proof (total_nonneg _ (to_items _ H)) as Hnn.
  assert (Hb : (tq_bytes q +u64 tp_length p)%cint = total (items q) + tp_length p).
  { rewrite (to_bytes _ H). apply u64_small. unfold in_range. lia. }
  assert (Hi : items (insert_locked front q p) = if front then p :: items q else items q ++ [p]).
  { unfold items, insert_locked. destruct front; simpl; [by apply put_head_contents|by apply put_tail_contents]. }
  split; [|split; [done|by destruct front]]. split; [| | | |].
  - destruct front; simpl; [by apply put_head_ok|by apply put_tail_ok].
  - destruct front; apply (to_live _ H).
  - rewrite Hi. destruct front; [by constructor; [|apply (to_items _ H)]|].
    apply list.Forall_app. split; [apply (to_items _ H)|by repeat constructor].
  - rewrite Hi. destruct front; simpl; rewrite Hb, ?total_app; simpl; lia.
  - rewrite Hi. destruct front; simpl; rewrite ?total_app; simpl; lia.
Qed.

Lemma evict_spec n q len :
  txq_ok q -> 0 < len -> total (items q) + len < 2 ^ 64 -> length (items q) = n ->
  exists q', evict_loop n q len =
      Some (fst (spec_evict (r_capacity (tq_ring q)) (tq_capacity_bytes q) (items q) len), q') /\
    txq_ok q' /\ items q' = snd (spec_evict (r_capacity (tq_ring q)) (tq_capacity_bytes q) (items q) len) /\
    r_capacity (tq_ring q') = r_capacity (tq_ring q) /\ tq_capacity_bytes q' = tq_capacity_bytes q /\
    tq_policy q' = tq_policy q /\ tq_shutdown q' = tq_shutdown q /\ tq_gate_fn q' = tq_gate_fn q /\
    tq_gate_ctx q' = tq_gate_ctx q.
Proof.
  intros H Hl. revert q H. induction n as [|n IH]; intros q H Hr Hn.
  { destruct (items q) as [|? ?] eqn:Ei; [|done]. simpl. exists q. by rewrite Ei. }
  destruct (items q) as [|p l] eqn:Ei; [done|]. cbn [evict_loop spec_evict]. injection Hn as Hn.
  assert (Hc : r_count (tq_ring q) = S n).
  { rewrite <- contents_length by apply (to_ring _ H). change (contents (tq_ring q)) with (items q). rewrite Ei. simpl. lia. }
  rewrite Hc. cbn [Nat.eqb negb andb]. rewrite full_spec; [|done|done|by rewrite Ei]. rewrite Ei.
  destruct (spec_full _ _ (p :: l) len) eqn:Ef; [|exists q; by rewrite Ei].
  destruct (take_front q p l H Ei) as (r & E & Hok & Hi & Hcap & Hp).
  unfold txq_evict_head_locked. rewrite E. simpl.
  unfold txq_free_packet. destruct (Z.eqb_spec (tp_payload p) 0); [done|].
  set (q1 := with_items q r _) in *.
  assert (Hpos : 0 < tp_length p).
  { pose proof (to_items _ H) as Hit. rewrite Ei in Hit. by apply list.Forall_cons in Hit as [[_ ?] _]. }
  destruct (IH q1 Hok) as (q2 & E2 & Hok2 & Hi2 & Hc2 & Hr2); [rewrite Hi; simpl in Hr; lia|by rewrite Hi|].
  rewrite Hi in E2, Hi2. change (r_capacity (tq_ring q1)) with (r_capacity r) in *.
  rewrite Hcap in *. change (tq_capacity_bytes q1) with (tq_capacity_bytes q) in *.
  rewrite E2. simpl. destruct (spec_evict _ _ l len) as [dropped kept]. exists q2. simpl in *.
  split; [done|]. split; [done|]. split; [done|]. split; [done|]. exact Hr2.
Qed.

(** ** The abstract machine and the refinement *)

Record tx_spec := TxSpec {
  ts_items : list TxqPacket;
  ts_cap : nat;
  ts_cap_bytes : Z;
  ts_policy : TxqOverflowPolicy;
  ts_closed : bool;
  ts_gate : option Z;
  ts_ctx : Z
}.

Definition abs (q : TxQueue) : tx_spec :=
  TxSpec (items q) (r_capacity (tq_ring q)) (tq_capacity_bytes q) (tq_policy q) (tq_shutdown q)
    (tq_gate_fn q) (tq_gate_ctx q).

Definition set_ts_items (s : tx_spec) (l : list TxqPacket) : tx_spec :=
  TxSpec l (ts_cap s) (ts_cap_bytes s) (ts_policy s) (ts_closed s) (ts_gate s) (ts_ctx s).

Definition spec_insert (front : bool) (s : tx_spec) (l : list TxqPacket) (pkt : TxqPacket) : tx_spec :=
  set_ts_items s (if front then pkt :: l else l ++ [pkt]).

(** A call of a producer or a consumer; the gate is whatever function is installed at the time. *)
Inductive txq_op :=
  | OpEnqueue (now : Z) (pkt : TxqPacket) (front blocking : bool)
  | OpPop (now : Z) (gate : Z -> TxqPacket -> Z -> Z)
  | OpTryPop (gate : Z -> TxqPacket -> Z -> Z)
  | OpShutdown
  | OpSetGate (fn : option Z) (ctx : Z).

(** A status with the packets evicted and the packet handed out, or a wait. *)
Inductive txq_res :=
  | RStatus (st : TxqStatus) (freed : list TxqPacket) (out : option TxqPacket)
  | RBlocks
  | RWaitsUntil (deadline : Z * Z).

Definition spec_full_of (s : tx_spec) (len : Z) : bool :=
  spec_full (ts_cap s) (ts_cap_bytes s) (ts_items s) len.

Definition spec_enqueue (s : tx_spec) (pkt : TxqPacket) (front blocking : bool) : txq_res * tx_spec :=
  if ts_closed s then (RStatus TXQ_ERR_SHUTDOWN [] None, s)
  else if negb (spec_full_of s (tp_length pkt)) then
    (RStatus TXQ_OK [] None, spec_insert front s (ts_items s) pkt)
  else if decide (ts_policy s = TXQ_POLICY_DROP_HEAD) then
    let '(dropped, kept) := spec_evict (ts_cap s) (ts_cap_bytes s) (ts_items s) (tp_length pkt) in
    (RStatus TXQ_OK dropped None, spec_insert front s kept pkt)
  else if blocking && bool_decide (ts_policy s = TXQ_POLICY_BLOCK) then (RBlocks, s)
  else (RStatus TXQ_ERR_FULL [] None, s).

Definition spec_delay (gate : Z -> TxqPacket -> Z -> Z) (s : tx_spec) (pkt : TxqPacket) : Z :=
  match ts_gate s with Some fn => gate fn pkt (ts_ctx s) | None => 0 end.

Definition spec_step (s : tx_spec) (o : txq_op) : txq_res * tx_spec :=
  match o with
  | OpEnqueue now pkt front blocking =>
      if (tp_payload pkt =? 0) || (tp_length pkt =? 0) then (RStatus TXQ_ERR_INVALID [] None, s)
      else spec_enqueue s (stamp now pkt) front blocking
  | OpPop now gate =>
      match ts_items s with
      | [] => if ts_closed s then (RStatus TXQ_ERR_SHUTDOWN [] None, s) else (RBlocks, s)
      | pkt :: l =>
          if negb (spec_delay gate s pkt =? 0) && negb (ts_closed s) then
            let t := (now +u64 spec_delay gate s pkt)%cint in (RWaitsUntil (t / 1000000000, t mod 1000000000), s)
          else (RStatus TXQ_OK [] (Some pkt), set_ts_items s l)
      end
  | OpTryPop gate =>
      match ts_items s with
      | [] => (RStatus TXQ_ERR_EMPTY [] None, s)
      | pkt :: l =>
          if negb (spec_delay gate s pkt =? 0) then (RStatus TXQ_ERR_GATED [] None, s)
          else (RStatus TXQ_OK [] (Some pkt), set_ts_items s l)
      end
  | OpShutdown =>
      (RStatus TXQ_OK [] None,
       TxSpec (ts_items s) (ts_cap s) (ts_cap_bytes s) (ts_policy s) true (ts_gate s) (ts_ctx s))
  | OpSetGate fn ctx =>
      (RStatus TXQ_OK [] None,
       TxSpec (ts_items s) (ts_cap s) (ts_cap_bytes s) (ts_policy s) (ts_closed s) fn ctx)
  end.

(** The same step with the functions of the code. *)
Definition txq_step (q : TxQueue) (o : txq_op) : option (txq_res * TxQueue) :=
  match o with
  | OpEnqueue now pkt front blocking =>
      '(_, res) ← txq_enqueue now q pkt front blocking;
      Some match res with
           | Blocks => (RBlocks, q)
           | Returns (st, freed, q') => (RStatus st freed None, q')
           end
  | OpPop now gate =>
      res ← txq_pop gate now q;
      Some match res with
           | inl Blocks => (RBlocks, q)
           | inl (Returns (st, out, q')) => (RStatus st [] out, q')
           | inr deadline => (RWaitsUntil deadline, q)
           end
  | OpTryPop gate => '(st, out, q') ← txq_try_pop gate q; Some (RStatus st [] out, q')
  | OpShutdown => Some (RStatus TXQ_OK [] None, txq_shutdown q)
  | OpSetGate fn ctx => Some (RStatus TXQ_OK [] None, txq_set_release_gate q fn ctx)
  end.

Fixpoint txq_run (q : TxQueue) (ops : list txq_op) : option (list txq_res * TxQueue) :=
  match ops with
  | [] => Some ([], q)
  | o :: ops' =>
      '(res, q1) ← txq_step q o;
      '(rest, q2) ← txq_run q1 ops';
      Some (res :: rest, q2)
  end.

Fixpoint spec_run (s : tx_spec) (ops : list txq_op) : list txq_res * tx_spec :=
  match ops with
  | [] => ([], s)
  | o :: ops' =>
      let '(res, s1) := spec_step s o in
      let '(rest, s2) := spec_run s1 ops' in
      (res :: rest, s2)
  end.

(** tx_queue.h documents [txq_try_push] as a push that answers [TXQ_ERR_FULL] on a full queue
    regardless of its policy.  [declined] is the one call where this says something else than
    [spec_step]: a non-blocking push on a full, open [DROP_HEAD] queue. *)
Definition declined (s : tx_spec) (o : txq_op) : bool :=
  match o with
  | OpEnqueue now pkt front blocking =>
      negb blocking && negb (tp_payload pkt =? 0) && negb (tp_length pkt =? 0) && negb (ts_closed s) &&
      bool_decide (ts_policy s = TXQ_POLICY_DROP_HEAD) && spec_full_of s (tp_length pkt)
  | _ => false
  end.

Definition doc_step (s : tx_spec) (o : txq_op) : txq_res * tx_spec :=
  if declined s o then (RStatus TXQ_ERR_FULL [] None, s) else spec_step s o.

Fixpoint doc_run (s : tx_spec) (ops : list txq_op) : list txq_res * tx_spec :=
  match ops with
  | [] => ([], s)
  | o :: ops' =>
      let '(res, s1) := doc_step s o in
      let '(rest, s2) := doc_run s1 ops' in
      (res :: rest, s2)
  end.

(** No call of the sequence is such a push. *)
Fixpoint none_declined (s : tx_spec) (ops : list txq_op) : bool :=
  match ops with
  | [] => true
  | o :: ops' => negb (declined s o) && none_declined (snd (doc_step s o)) ops'
  end.

Lemma doc_run_spec s ops : none_declined s ops = true -> doc_run s ops = spec_run s ops.
Proof.
  revert s. induction ops as [|o ops IH]; intros s H; [done|]. cbn [none_declined doc_run spec_run] in *.
  apply andb_prop in H as [Hd H]. unfold doc_step in *. destruct (declined s o); [done|].
  destruct (spec_step s o) as [res s1]. by rewrite (IH s1 H).
Qed.

(** The bytes a sequence of calls offers to the queue. *)
Definition offered (o : txq_op) : Z :=
  match o with OpEnqueue _ pkt _ _ => tp_length pkt | _ => 0 end.

Definition offered_all (ops : list txq_op) : Z := foldr (fun o n => offered o + n) 0 ops.

Lemma stamp_fields now pkt :
  tp_length (stamp now pkt) = tp_length pkt /\ tp_payload (stamp now pkt) = tp_payload pkt.
Proof. unfold stamp. by case_match. Qed.

Lemma spec_evict_parts cap cb l len :
  fst (spec_evict cap cb l len) ++ snd (spec_evict cap cb l len) = l.
Proof.
  induction l as [|p l IH]; [done|]. cbn [spec_evict]. destruct (spec_full _ _ _ _); [|done].
  destruct (spec_evict cap cb l len). simpl in *. by rewrite IH.
Qed.

(** After eviction there is a free slot, provided there is any slot. *)
Lemma spec_evict_fits cap cb l len :
  (0 < cap)%nat -> snd (spec_evict cap cb l len) = [] \/ spec_full cap cb (snd (spec_evict cap cb l len)) len = false.
Proof.
  intros Hc. induction l as [|p l IH]; [by left|]. cbn [spec_evict].
  destruct (spec_full cap cb (p :: l) len) eqn:E; [|right; exact E]. by destruct (spec_evict cap cb l len).
Qed.

Lemma spec_full_room cap cb l len : spec_full cap cb l len = false -> (length l < cap)%nat.
Proof. unfold spec_full. intros [H _]%orb_false_iff. apply Nat.leb_gt in H. lia. Qed.

Lemma abs_insert front q pkt :
  txq_ok q -> (length (items q) < r_capacity (tq_ring q))%nat -> tp_payload pkt <> 0 -> 0 < tp_length pkt ->
  total (items q) + tp_length pkt < 2 ^ 64 ->
  txq_ok (insert_locked front q pkt) /\
  abs (insert_locked front q pkt) = spec_insert front (abs q) (items q) pkt.
Proof.
  intros H1 H2 H3 H4 H5. destruct (insert_spec front q pkt H1 H2 H3 H4 H5) as (Hok & Hi & Hc).
  split; [done|]. unfold abs, spec_insert, set_ts_items. rewrite Hi, Hc. by destruct front.
Qed.

Lemma enqueue_pass_refines q pkt front blocking :
  txq_ok q -> tp_payload pkt <> 0 -> 0 < tp_length pkt -> total (items q) + tp_length pkt < 2 ^ 64 ->
  exists res, enqueue_pass q pkt front blocking = Some res /\
    match res with
    | Blocks => spec_enqueue (abs q) pkt front blocking = (RBlocks, abs q)
    | Returns (st, freed, q') =>
        spec_enqueue (abs q) pkt front blocking = (RStatus st freed None, abs q') /\ txq_ok q'
    end.
Proof.
  intros H Hp Hl Hr. unfold enqueue_pass, spec_enqueue, spec_full_of. cbn [abs ts_closed ts_cap ts_cap_bytes ts_items ts_policy].
  destruct (tq_shutdown q) eqn:Es; [by eexists|]. rewrite full_spec by done.
  destruct (spec_full _ _ _ _) eqn:Ef; cbn [negb].
  2: { eexists. split; [done|]. destruct (abs_insert front q pkt H) as [Hok Ha]; [by eapply spec_full_room|done..|].
       by rewrite Ha. }
  destruct (tq_policy q) eqn:Epol; cbn [bool_decide]; try by destruct blocking; eexists.
  destruct (evict_spec (r_count (tq_ring q)) q (tp_length pkt) H Hl Hr) as (q' & E & Hok & Hi & Hc & Hcb & Hpol & Hs & Hg & Hx).
  { by apply contents_length, (to_ring _ H). }
  rewrite E. simpl.
  pose proof (spec_evict_parts (r_capacity (tq_ring q)) (tq_capacity_bytes q) (items q) (tp_length pkt)) as Hparts.
  pose proof (spec_evict_fits (r_capacity (tq_ring q)) (tq_capacity_bytes q) (items q) (tp_length pkt)) as Hfit.
  destruct (spec_evict _ _ _ _) as [dropped kept]. simpl in *. eexists. split; [done|].
  pose proof (to_items _ H) as Hit. rewrite <- Hparts in Hit, Hr. apply list.Forall_app in Hit as [Hd _].
  pose proof (total_nonneg _ Hd). rewrite total_app in Hr.
  assert (0 < r_capacity (tq_ring q))%nat by (destruct (to_ring _ H); lia).
  destruct (abs_insert front q' pkt Hok) as [Hok' Ha]; [|done|done|rewrite Hi; lia|].
  { rewrite Hi, Hc. destruct Hfit as [->|Hfit]; [done|simpl; lia|by eapply spec_full_room]. }
  split; [|done]. rewrite Ha, Hi. unfold spec_insert, set_ts_items, abs. simpl. by rewrite Hc, Hcb, Hpol, Hs, Hg, Hx.
Qed.

Lemma items_nil_count q : txq_ok q -> items q = [] -> r_count (tq_ring q) = 0%nat.
Proof. intros H Hi. by apply contents_nil; [apply (to_ring _ H)|]. Qed.

Lemma items_cons_count q p l : txq_ok q -> items q = p :: l -> (r_count (tq_ring q) =? 0)%nat = false.
Proof.
  intros H Hi. rewrite <- contents_length by apply (to_ring _ H). by change (contents (tq_ring q)) with (items q); rewrite Hi.
Qed.

(** With a packet at the front, the gate is asked about that packet. *)
Lemma gate_delay_front gate q p l :
  txq_ok q -> items q = p :: l -> gate_delay gate q = Some (spec_delay gate (abs q) p).
Proof.
  intros H Hi. unfold gate_delay, spec_delay. cbn [abs ts_gate ts_ctx]. destruct (tq_gate_fn q); [|done].
  destruct (take_head_spec None _ p l (to_ring _ H) Hi) as (r & E & _). unfold take_head in E.
  destruct (r_slots (tq_ring q) !! r_head (tq_ring q)); [|done]. by injection E as -> _.
Qed.

Lemma release_front_spec q p l :
  txq_ok q -> items q = p :: l ->
  exists q', release_front q = Some (p, q') /\ txq_ok q' /\ abs q' = set_ts_items (abs q) l.
Proof.
  intros H Hi. destruct (take_front q p l H Hi) as (r & E & Hok & Hi' & Hc & _).
  unfold release_front. rewrite E. simpl. eexists. split; [done|]. split; [done|].
  unfold abs, set_ts_items. rewrite Hi'. simpl. by rewrite Hc.
Qed.

Lemma txq_step_refines q o :
  txq_ok q -> 0 <= offered o -> total (items q) + offered o < 2 ^ 64 ->
  exists res q', txq_step q o = Some (res, q') /\ spec_step (abs q) o = (res, abs q') /\ txq_ok q'.
Proof.
  intros H Hl Hr. destruct o as [now pkt front blocking|now gate|gate| |fn ctx]; cbn [txq_step spec_step offered] in *.
  - unfold txq_enqueue. destruct (stamp_fields now pkt) as [El Ep].
    destruct (Z.eqb_spec (tp_payload pkt) 0); [by eexists _, _|].
    destruct (Z.eqb_spec (tp_length pkt) 0); [by eexists _, _|]. cbn [orb].
    destruct (tq_shutdown q) eqn:Es; [eexists _, _; split; [done|]; unfold spec_enqueue; cbn [abs ts_closed]; by rewrite Es|].
    destruct (enqueue_pass_refines q (stamp now pkt) front blocking H) as (res & E & Hres);
      [by rewrite Ep|rewrite El; lia|rewrite El; lia|].
    rewrite E. simpl. destruct res as [[[st freed] q']|]; eexists _, _; (split; [done|]); [exact Hres|done].
  - unfold txq_pop. cbn [abs ts_items ts_closed]. destruct (items q) as [|p l] eqn:Ei.
    { rewrite (items_nil_count q H Ei). destruct (tq_shutdown q); by eexists _, _. }
    rewrite (items_cons_count q p l H Ei), (gate_delay_front gate q p l H Ei). simpl.
    destruct (_ && _); [by eexists _, _|].
    destruct (release_front_spec q p l H Ei) as (q' & E & Hok & Ha). rewrite E. simpl.
    eexists _, _. split; [done|]. by rewrite Ha.
  - unfold txq_try_pop. cbn [abs ts_items ts_closed]. destruct (items q) as [|p l] eqn:Ei.
    { rewrite (items_nil_count q H Ei). by eexists _, _. }
    rewrite (items_cons_count q p l H Ei), (gate_delay_front gate q p l H Ei). simpl.
    destruct (release_front_spec q p l H Ei) as (q' & E & Hok & Ha). rewrite E.
    destruct (negb _); simpl; eexists _, _; (split; [done|]); [done|by rewrite Ha].
  - eexists _, _. split; [done|]. split; [done|]. by destruct H.
  - eexists _, _. split; [done|]. split; [done|]. by destruct H.
Qed.

(** The packets a result hands out or frees. *)
Definition gone (res : txq_res) : list TxqPacket :=
  match res with RStatus _ freed out => freed ++ option_list out | _ => [] end.

(** The packet a call puts into the queue, as the call stamps it. *)
Definition accepted (o : txq_op) (res : txq_res) : list TxqPacket :=
  match o, res with
  | OpEnqueue now pkt _ _, RStatus TXQ_OK _ _ => [stamp now pkt]
  | _, _ => []
  end.

Fixpoint accepted_all (ops : list txq_op) (rs : list txq_res) : list TxqPacket :=
  match ops, rs with
  | o :: ops', res :: rs' => accepted o res ++ accepted_all ops' rs'
  | _, _ => []
  end.

(** One step moves packets, it neither loses nor copies them. *)
Lemma spec_step_conserves s o res s' :
  spec_step s o = (res, s') -> ts_items s ++ accepted o res ≡ₚ gone res ++ ts_items s'.
Proof.
  destruct o as [now pkt front blocking|now gate|gate| |fn ctx]; cbn [spec_step]; intros E.
  - destruct (_ || _); [injection E as <- <-; simpl; by rewrite app_nil_r|].
    unfold spec_enqueue in E. destruct (ts_closed s); [injection E as <- <-; simpl; by rewrite app_nil_r|].
    pose proof (spec_evict_parts (ts_cap s) (ts_cap_bytes s) (ts_items s) (tp_length (stamp now pkt))) as Hp.
    destruct (negb _); [injection E as <- <-; destruct front; simpl; [symmetry; apply Permutation_cons_append|done]|].
    case_decide.
    + destruct (spec_evict _ _ _ _) as [dropped kept]. injection E as <- <-. simpl in *. rewrite <- Hp, app_nil_r.
      rewrite <- app_assoc. apply Permutation_app_head. destruct front; [symmetry; apply Permutation_cons_append|done].
    + destruct (_ && _); injection E as <- <-; simpl; by rewrite app_nil_r.
  - destruct (ts_items s) as [|p l] eqn:Ei; repeat case_match; simplify_eq; simpl; by rewrite ?Ei, ?app_nil_r.
  - destruct (ts_items s) as [|p l] eqn:Ei; repeat case_match; simplify_eq; simpl; by rewrite ?Ei, ?app_nil_r.
  - injection E as <- <-. simpl. by rewrite app_nil_r.
  - injection E as <- <-. simpl. by rewrite app_nil_r.
Qed.

#[export] Instance total_perm : Proper ((≡ₚ) ==> (=)) total.
Proof. intros l k. induction 1; simpl; lia. Qed.

Lemma spec_step_total s o res s' :
  spec_step s o = (res, s') -> 0 <= offered o -> Forall (fun p => 0 <= tp_length p) (gone res) ->
  total (ts_items s') <= total (ts_items s) + offered o.
Proof.
  intros E Ho Hg. pose proof (total_perm _ _ (spec_step_conserves _ _ _ _ E)) as Ht. rewrite !total_app in Ht.
  assert (0 <= total (gone res)) by (clear -Hg; induction Hg; simpl; lia).
  assert (total (accepted o res) <= offered o); [|lia].
  unfold accepted, offered in *. repeat case_match; simpl; try lia. by rewrite (proj1 (stamp_fields _ _)), Z.add_0_r.
Qed.

Lemma txq_run_refines_aux ops q :
  txq_ok q -> Forall (fun o => 0 <= offered o) ops -> total (items q) + offered_all ops < 2 ^ 64 ->
  exists q', txq_run q ops = Some (fst (spec_run (abs q) ops), q') /\
    abs q' = snd (spec_run (abs q) ops) /\ txq_ok q'.
Proof.
  revert q. induction ops as [|o ops IH]; intros q H Ho Hr; [by exists q|].
  apply list.Forall_cons in Ho as [Ho Hos]. cbn [txq_run spec_run offered_all foldr] in *. fold (offered_all ops) in Hr.
  assert (0 <= offered_all ops) by (clear -Hos; unfold offered_all; induction Hos; simpl; lia).
  destruct (txq_step_refines q o H Ho) as (res & q1 & E & Es & Hok); [lia|].
  rewrite E, Es. simpl.
  assert (Ht : total (items q1) <= total (items q) + offered o).
  { apply (spec_step_total (abs q) o res (abs q1) Es Ho).
    pose proof (spec_step_conserves _ _ _ _ Es) as Hp.
    assert (Hall : Forall (fun p => 0 <= tp_length p) (ts_items (abs q) ++ accepted o res)).
    { apply list.Forall_app. split; [eapply list.Forall_impl; [apply (to_items _ H)|]; simpl; lia|].
      unfold accepted. destruct o, res as [[] ? ?| |]; try constructor; [|constructor].
      by rewrite (proj1 (stamp_fields _ _)). }
    rewrite Hp in Hall. by apply list.Forall_app in Hall as [? _]. }
  destruct (IH q1 Hok Hos) as (q2 & E2 & Ha & Hok2); [lia|]. rewrite E2. simpl.
  destruct (spec_run (abs q1) ops) as [rest s2]. by exists q2.
Qed.

Lemma spec_run_conserves ops s rs s' :
  spec_run s ops = (rs, s') -> ts_items s ++ accepted_all ops rs ≡ₚ (rs ≫= gone) ++ ts_items s'.
Proof.
  revert s rs s'. induction ops as [|o ops IH]; intros s rs s' E; cbn [spec_run] in E.
  { injection E as <- <-. simpl. by rewrite app_nil_r. }
  destruct (spec_step s o) as [res s1] eqn:Es. destruct (spec_run s1 ops) as [rest s2] eqn:Er. injection E as <- <-.
  cbn [accepted_all]. rewrite bind_cons, <- app_assoc, app_assoc, (spec_step_conserves _ _ _ _ Es), <- !app_assoc.
  by rewrite (IH _ _ _ Er).
Qed.

Lemma txq_init_ok cap cap_bytes pol q0 :
  (0 < cap)%nat -> exists q, txq_init false false false false false false cap cap_bytes pol q0 = (TXQ_OK, q) /\
    txq_ok q /\ abs q = TxSpec [] cap cap_bytes pol false None 0.
Proof.
  intros Hc. unfold txq_init. destruct (Nat.eqb_spec cap 0); [lia|]. simpl. eexists. split; [done|].
  unfold abs, items. simpl. rewrite ring_init_contents. split; [|done].
  split; unfold items; simpl; rewrite ?ring_init_contents; [by apply ring_init_ok|done|constructor|done|simpl; lia].
Qed.

Lemma txq_destroy_spec q :
  txq_ok q -> exists q', txq_destroy q = Some (items q, q') /\ tq_live q' = false /\ txq_count q' = 0%nat.
Proof.
  intros H. unfold txq_destroy. rewrite (to_live _ H). cbn [negb]. pose proof (to_ring _ H) as Hr.
  assert (E : mapM (fun i => r_slots (tq_ring q) !! ((r_head (tq_ring q) + i) mod r_capacity (tq_ring q))%nat)
                (seq 0 (r_count (tq_ring q))) = Some (items q)).
  { apply mapM_Some, Forall2_same_length_lookup. unfold items. rewrite contents_length, length_seq by done.
    split; [done|]. intros i j x Hi Hx. apply lookup_seq in Hi as [-> Hlt]. simpl.
    by rewrite <- contents_lookup. }
  assert (Ef : items q ≫= txq_free_packet = items q).
  { pose proof (to_items _ H) as Hit. clear E. induction Hit as [|p l [Hp _] _ IH]; [done|].
    rewrite bind_cons, IH. unfold txq_free_packet. by destruct (Z.eqb_spec (tp_payload p) 0). }
  rewrite E. simpl. rewrite Ef. by eexists.
Qed.

(** The dropped prefix is the shortest one that lets the packet in. *)
Lemma spec_evict_minimal cap cb l len pre p :
  fst (spec_evict cap cb l len) = pre ++ [p] -> spec_full cap cb (p :: snd (spec_evict cap cb l len)) len = true.
Proof.
  revert pre. induction l as [|x l IH]; intros pre; cbn [spec_evict]; [by destruct pre|].
  destruct (spec_full cap cb (x :: l) len) eqn:E; [|by destruct pre].
  pose proof (spec_evict_parts cap cb l len) as Hp. destruct (spec_evict cap cb l len) as [d k]. simpl in *.
  intros [= Hx]. destruct pre as [|y pre]; simpl in Hx; injection Hx as -> Hd; [|by apply (IH pre)].
  subst d. simpl in Hp. by rewrite Hp.
Qed.

(** ** Properties *)

(** C28: the transmit queue refines the documented gated bounded queue.  From [txq_init] on, any
    sequence of pushes at either end under any policy, try-pushes, gated pops, shutdown and gate
    changes never reads outside the slot array and returns exactly what the documented machine on
    a plain list of packets returns (statuses, evicted packets, released packets, waits and
    deadlines), and the byte counter is the sum of the queued lengths.  Two conditions: the lengths
    offered sum to less than 2^64, and the sequence has no [txq_try_push] on a full [DROP_HEAD]
    queue, where the code and tx_queue.h disagree. *)
Theorem txq_refines_gated_queue cap cap_bytes pol q0 ops :
  (0 < cap)%nat -> Forall (fun o => 0 <= offered o) ops -> offered_all ops < 2 ^ 64 ->
  let s0 := TxSpec [] cap cap_bytes pol false None 0 in
  none_declined s0 ops = true ->
  exists q q', txq_init false false false false false false cap cap_bytes pol q0 = (TXQ_OK, q) /\
    txq_run q ops = Some (fst (doc_run s0 ops), q') /\
    abs q' = snd (doc_run s0 ops) /\
    txq_bytes q' = total (items q') /\ txq_count q' = length (items q').
Proof.
  intros Hc Ho Hr s0 Hd. destruct (txq_init_ok cap cap_bytes pol q0 Hc) as (q & E & Hok & Ha).
  destruct (txq_run_refines_aux ops q Hok Ho) as (q' & Er & Ha' & Hok').
  { change (items q) with (ts_items (abs q)). by rewrite Ha. }
  rewrite Ha in Er, Ha'. rewrite (doc_run_spec s0 ops Hd). exists q, q'. do 3 (split; [done|]).
  split; [apply (to_bytes _ Hok')|]. symmetry. by apply contents_length, (to_ring _ Hok').
Qed.

(** No payload is lost, copied or freed twice.  Over any such run followed by
    [txq_destroy], the packets the queue accepted are, as a multiset, the packets it evicted,
    those it handed to consumers and those [txq_destroy] freed (which are the remaining ones,
    front to back). *)
Theorem txq_disposes_payload_once cap cap_bytes pol q0 ops :
  (0 < cap)%nat -> Forall (fun o => 0 <= offered o) ops -> offered_all ops < 2 ^ 64 ->
  exists q rs q' q'', txq_init false false false false false false cap cap_bytes pol q0 = (TXQ_OK, q) /\
    txq_run q ops = Some (rs, q') /\ txq_destroy q' = Some (items q', q'') /\
    accepted_all ops rs ≡ₚ (rs ≫= gone) ++ items q' /\ tq_live q'' = false.
Proof.
  intros Hc Ho Hr. destruct (txq_init_ok cap cap_bytes pol q0 Hc) as (q & E & Hok & Ha).
  destruct (txq_run_refines_aux ops q Hok Ho) as (q' & Er & Ha' & Hok').
  { change (items q) with (ts_items (abs q)). by rewrite Ha. }
  destruct (txq_destroy_spec q' Hok') as (q'' & Ed & Hd & _).
  destruct (spec_run (abs q) ops) as [rs s'] eqn:Es. exists q, rs, q', q''. do 3 (split; [done|]). split; [|done].
  pose proof (spec_run_conserves _ _ _ _ Es) as Hp. rewrite Ha in Hp. simpl in Hp, Ha'. rewrite Hp.
  by rewrite <- Ha'.
Qed.

(** A full [DROP_HEAD] queue that is open accepts every valid packet, for a blocking and a
    non-blocking caller alike: it frees the shortest prefix of oldest packets that makes room
    (an oversized packet enters alone) and keeps the order of the rest.  In particular
    [txq_try_push] never answers [TXQ_ERR_FULL] here. *)
Theorem txq_drop_head_minimal now q pkt front blocking :
  txq_ok q -> tq_policy q = TXQ_POLICY_DROP_HEAD -> tq_shutdown q = false ->
  tp_payload pkt <> 0 -> 0 < tp_length pkt -> total (items q) + tp_length pkt < 2 ^ 64 ->
  txq_full_locked q (tp_length pkt) = true ->
  exists freed kept q', txq_enqueue now q pkt front blocking = Some (stamp now pkt, Returns (TXQ_OK, freed, q')) /\
    items q = freed ++ kept /\ txq_ok q' /\
    items q' = (if front then stamp now pkt :: kept else kept ++ [stamp now pkt]) /\
    (kept = [] \/ spec_full (txq_capacity_items q) (txq_capacity_bytes q) kept (tp_length pkt) = false) /\
    (exists pre p, freed = pre ++ [p] /\
       spec_full (txq_capacity_items q) (txq_capacity_bytes q) (p :: kept) (tp_length pkt) = true).
Proof.
  intros H Hpol Hs Hp Hl Hr Hf. destruct (stamp_fields now pkt) as [El Ep].
  destruct (enqueue_pass_refines q (stamp now pkt) front blocking H) as (res & E & Hres);
    [by rewrite Ep|by rewrite El|by rewrite El|].
  unfold txq_enqueue. destruct (Z.eqb_spec (tp_payload pkt) 0); [done|]. destruct (Z.eqb_spec (tp_length pkt) 0); [lia|].
  rewrite Hs, E. cbn [orb mbind option_bind]. rewrite full_spec in Hf by done.
  unfold spec_enqueue, spec_full_of in Hres. cbn [abs ts_closed ts_cap ts_cap_bytes ts_items ts_policy] in Hres.
  rewrite Hs, Hpol, El, Hf in Hres. cbn [negb] in Hres. rewrite decide_True in Hres by done.
  set (cap := r_capacity (tq_ring q)) in *. set (cb := tq_capacity_bytes q) in *.
  pose proof (spec_evict_parts cap cb (items q) (tp_length pkt)) as Hparts.
  assert (Hc : (0 < cap)%nat) by (destruct (to_ring _ H); lia).
  pose proof (spec_evict_fits cap cb (items q) (tp_length pkt) Hc) as Hfit.
  pose proof (spec_evict_minimal cap cb (items q) (tp_length pkt)) as Hmin.
  assert (Hne : items q <> []) by (intros Hnil; rewrite Hnil in Hf; unfold spec_full in Hf; simpl in Hf; rewrite andb_false_r in Hf; destruct cap; [lia|done]).
  assert (Hd : fst (spec_evict cap cb (items q) (tp_length pkt)) <> []).
  { destruct (items q) as [|x l]; [done|]. cbn [spec_evict]. rewrite Hf. by destruct (spec_evict cap cb l _). }
  destruct (spec_evict cap cb (items q) (tp_length pkt)) as [d k]. cbn [fst snd] in *.
  destruct res as [[[st freed] q']|]; [|done]. destruct Hres as [[= <- <- Ha] Hok].
  exists d, k, q'. split; [done|]. split; [done|]. split; [done|]. split; [done|].
  split; [exact Hfit|]. destruct d as [|p pre _] using rev_ind; [done|]. exists pre, p. split; [done|by apply (Hmin pre)].
Qed.

(** ** Witnesses *)

Definition sample_pkt (n : Z) (len : Z) : TxqPacket := mkTxq n len 7 n 0 0 None 0.

(** Two slots, ten bytes, drop-oldest: the third push evicts, the gate (shut for packet 2, in
    slot 1 of its context) delays a pop, and shutdown lets the rest drain. *)
Definition sample_gate (fn : Z) (pkt : TxqPacket) (ctx : Z) : Z :=
  if tp_seq pkt =? ctx then fn else 0.

Definition sample_ops : list txq_op :=
  [OpEnqueue 5 (sample_pkt 1 4) false true; OpEnqueue 6 (sample_pkt 2 4) false false;
   OpEnqueue 7 (sample_pkt 3 6) true true; OpSetGate (Some 9) 2; OpPop 8 sample_gate; OpTryPop sample_gate;
   OpPop 8 sample_gate; OpShutdown; OpPop 8 sample_gate; OpPop 8 sample_gate; OpEnqueue 9 (sample_pkt 4 1) false true].

Definition sample_raw : TxQueue := mkTxQueue (Ring [] 0 0 0 0) false 0 TXQ_POLICY_BLOCK 0 false None 0.

Lemma txq_refines_gated_queue_witness :
  let s0 := TxSpec [] 2 10 TXQ_POLICY_DROP_HEAD false None 0 in
  exists q q', txq_init false false false false false false 2 10 TXQ_POLICY_DROP_HEAD sample_raw = (TXQ_OK, q) /\
    txq_run q sample_ops = Some (fst (doc_run s0 sample_ops), q') /\
    abs q' = snd (doc_run s0 sample_ops) /\
    txq_bytes q' = total (items q') /\ txq_count q' = length (items q').
Proof.
  apply (txq_refines_gated_queue 2 10 TXQ_POLICY_DROP_HEAD sample_raw sample_ops); [lia| |reflexivity|reflexivity].
  unfold sample_ops. by repeat (apply list.Forall_cons; split; [simpl; lia|]).
Defined.

Example sample_run_results :
  fst (spec_run (TxSpec [] 2 10 TXQ_POLICY_DROP_HEAD false None 0) sample_ops) =
  [RStatus TXQ_OK [] None; RStatus TXQ_OK [] None; RStatus TXQ_OK [stamp 5 (sample_pkt 1 4)] None;
   RStatus TXQ_OK [] None; RStatus TXQ_OK [] (Some (stamp 7 (sample_pkt 3 6))); RStatus TXQ_ERR_GATED [] None;
   RWaitsUntil (0, 17); RStatus TXQ_OK [] None; RStatus TXQ_OK [] (Some (stamp 6 (sample_pkt 2 4)));
   RStatus TXQ_ERR_SHUTDOWN [] None; RStatus TXQ_ERR_SHUTDOWN [] None].
Proof. reflexivity. Qed.

Lemma txq_disposes_payload_once_witness :
  exists q rs q' q'', txq_init false false false false false false 2 10 TXQ_POLICY_DROP_HEAD sample_raw = (TXQ_OK, q) /\
    txq_run q sample_ops = Some (rs, q') /\ txq_destroy q' = Some (items q', q'') /\
    accepted_all sample_ops rs ≡ₚ (rs ≫= gone) ++ items q' /\ tq_live q'' = false.
Proof.
  apply (txq_disposes_payload_once 2 10 TXQ_POLICY_DROP_HEAD sample_raw sample_ops); [lia| |reflexivity].
  unfold sample_ops. by repeat (apply list.Forall_cons; split; [simpl; lia|]).
Defined.

(** Two packets of four bytes in a queue of ten; one of seven needs both to go. *)
Definition sample_full : TxQueue :=
  insert_locked false (insert_locked false
    (snd (txq_init false false false false false false 3 10 TXQ_POLICY_DROP_HEAD sample_raw))
    (sample_pkt 1 4)) (sample_pkt 2 4).

Lemma sample_full_ok : txq_ok sample_full.
Proof.
  split; [|done| |done|done].
  - unfold ring_ok. simpl. lia.
  - unfold items, contents. simpl. by repeat constructor.
Qed.

Lemma txq_drop_head_minimal_witness :
  exists freed kept q', txq_enqueue 3 sample_full (sample_pkt 3 7) false false =
      Some (stamp 3 (sample_pkt 3 7), Returns (TXQ_OK, freed, q')) /\
    items sample_full = freed ++ kept /\ txq_ok q' /\
    items q' = kept ++ [stamp 3 (sample_pkt 3 7)] /\
    (kept = [] \/ spec_full (txq_capacity_items sample_full) (txq_capacity_bytes sample_full) kept 7 = false) /\
    (exists pre p, freed = pre ++ [p] /\
       spec_full (txq_capacity_items sample_full) (txq_capacity_bytes sample_full) (p :: kept) 7 = true).
Proof.
  apply (txq_drop_head_minimal 3 sample_full (sample_pkt 3 7) false false); try reflexivity.
  - apply sample_full_ok.
  - simpl. lia.
Defined.
