(* ===== verification/DatagramPool.v ===== *)
(** * The reference-counted datagram slab: src/apps/wire_relay/datagram_pool.c

    One slab of [capacity] buffers, a stack of free buffer addresses and a 32-bit reference count
    per buffer.  Addresses are [Z] ([0] is NULL); a call returns the addresses it passes to
    [free], and [None] is an access outside one of the arrays.  The C code of every call is one
    critical section (the fallback of [datagram_pool_acquire] is two, the second of which only
    counts), so every call is one function.

    The client side is a list of owners, one entry per reference held: a buffer may have several
    owners, a [malloc] fallback has one. *)

From S2P Require Import Prelude.

Local Open Scope Z_scope.

Record DatagramPoolStats := mkDpStats {
  ds_acquire_pooled : Z;
  ds_acquire_fallback : Z;
  ds_release_pooled : Z;
  ds_release_foreign : Z;
  ds_high_watermark : Z
}.

Record DatagramPool := mkDp {
  dp_slab : Z;
  dp_free_stack : list Z;
  dp_refs : list Z;
  dp_capacity : nat;
  dp_buf_size : Z;
  dp_free_count : nat;
  dp_in_use : nat;
  dp_mu_inited : bool;
  dp_stats : DatagramPoolStats
}.

Definition dp_stats_zero : DatagramPoolStats := mkDpStats 0 0 0 0 0.
Definition dp_zero : DatagramPool := mkDp 0 [] [] 0 0 0 0 false dp_stats_zero.

(** The slab address if the three allocations succeed; the other failure is the mutex. *)
Definition datagram_pool_init (alloc : option Z) (mutex_fails : bool) (capacity : nat) (buf_size : Z)
  (pool0 : DatagramPool) : Z * DatagramPool :=
  if (capacity =? 0)%nat || (buf_size =? 0) then (-1, pool0)
  else
    match alloc with
    | None => (-1, mkDp 0 [] [] capacity buf_size 0 0 false dp_stats_zero)
    | Some slab =>
        if mutex_fails then (-1, mkDp 0 [] [] capacity buf_size 0 0 false dp_stats_zero)
        else (0, mkDp slab ((fun i => slab + Z.of_nat i * buf_size) <$> seq 0 capacity) (replicate capacity 0)
                   capacity buf_size capacity 0 true dp_stats_zero)
    end.

Definition datagram_pool_destroy (pool : DatagramPool) : DatagramPool := dp_zero.

Definition datagram_pool_contains (pool : DatagramPool) (ptr : Z) : bool :=
  if (dp_slab pool =? 0) || (ptr =? 0) || (dp_buf_size pool =? 0) then false
  else if ptr <? dp_slab pool then false
  else
    let off := ptr - dp_slab pool in
    if off >=? u64 (Z.of_nat (dp_capacity pool) * dp_buf_size pool) then false
    else off mod dp_buf_size pool =? 0.

(** [(size_t)(ptr - pool->slab) / pool->buf_size]. *)
Definition slot_index (pool : DatagramPool) (ptr : Z) : nat :=
  Z.to_nat ((ptr - dp_slab pool) / dp_buf_size pool).

Definition set_refs (pool : DatagramPool) (refs : list Z) : DatagramPool :=
  mkDp (dp_slab pool) (dp_free_stack pool) refs (dp_capacity pool) (dp_buf_size pool) (dp_free_count pool)
    (dp_in_use pool) (dp_mu_inited pool) (dp_stats pool).

Definition set_dp_stats (pool : DatagramPool) (st : DatagramPoolStats) : DatagramPool :=
  mkDp (dp_slab pool) (dp_free_stack pool) (dp_refs pool) (dp_capacity pool) (dp_buf_size pool) (dp_free_count pool)
    (dp_in_use pool) (dp_mu_inited pool) st.

Definition count_fallback (st : DatagramPoolStats) : DatagramPoolStats :=
  mkDpStats (ds_acquire_pooled st) (ds_acquire_fallback st +u64 1)%cint (ds_release_pooled st)
    (ds_release_foreign st) (ds_high_watermark st).

Definition count_foreign (st : DatagramPoolStats) : DatagramPoolStats :=
  mkDpStats (ds_acquire_pooled st) (ds_acquire_fallback st) (ds_release_pooled st)
    (ds_release_foreign st +u64 1)%cint (ds_high_watermark st).

(** [malloc] is what [malloc(buf_size)] returns if it is called. *)
Definition datagram_pool_acquire (malloc : option Z) (pool : DatagramPool) : option (option Z * DatagramPool) :=
  if negb (dp_mu_inited pool) then Some (None, pool)
  else if (0 <? dp_free_count pool)%nat then
    let fc := (dp_free_count pool - 1)%nat in
    ptr ← dp_free_stack pool !! fc;
    _ ← dp_refs pool !! slot_index pool ptr;
    let in_use := (dp_in_use pool + 1)%nat in
    let st := dp_stats pool in
    Some (Some ptr,
          mkDp (dp_slab pool) (dp_free_stack pool) (<[slot_index pool ptr := 1]> (dp_refs pool)) (dp_capacity pool)
            (dp_buf_size pool) fc in_use (dp_mu_inited pool)
            (mkDpStats (ds_acquire_pooled st +u64 1)%cint (ds_acquire_fallback st) (ds_release_pooled st)
               (ds_release_foreign st)
               (if Z.of_nat in_use >? ds_high_watermark st then Z.of_nat in_use else ds_high_watermark st)))
  else
    match malloc with
    | Some ptr => Some (Some ptr, set_dp_stats pool (count_fallback (dp_stats pool)))
    | None => Some (None, pool)
    end.

Definition datagram_pool_retain (pool : DatagramPool) (ptr : Z) : option DatagramPool :=
  if negb (dp_mu_inited pool) || negb (datagram_pool_contains pool ptr) then Some pool
  else
    let idx := slot_index pool ptr in
    n ← dp_refs pool !! idx;
    Some (if n >? 0 then set_refs pool (<[idx := u32 (n + 1)]> (dp_refs pool)) else pool).

Definition datagram_pool_release (pool : DatagramPool) (ptr : Z) : option (list Z * DatagramPool) :=
  if ptr =? 0 then Some ([], pool)
  else if negb (dp_mu_inited pool) || negb (datagram_pool_contains pool ptr) then
    Some ([ptr], if dp_mu_inited pool then set_dp_stats pool (count_foreign (dp_stats pool)) else pool)
  else
    let idx := slot_index pool ptr in
    n ← dp_refs pool !! idx;
    if n >? 1 then Some ([], set_refs pool (<[idx := n - 1]> (dp_refs pool)))
    else
      let refs := <[idx := 0]> (dp_refs pool) in
      if (dp_free_count pool <? dp_capacity pool)%nat then
        _ ← dp_free_stack pool !! dp_free_count pool;
        let st := dp_stats pool in
        Some ([], mkDp (dp_slab pool) (<[dp_free_count pool := ptr]> (dp_free_stack pool)) refs (dp_capacity pool)
                    (dp_buf_size pool) (dp_free_count pool + 1)
                    (if (0 <? dp_in_use pool)%nat then dp_in_use pool - 1 else dp_in_use pool)%nat (dp_mu_inited pool)
                    (mkDpStats (ds_acquire_pooled st) (ds_acquire_fallback st) (ds_release_pooled st +u64 1)%cint
                       (ds_release_foreign st) (ds_high_watermark st)))
      else Some ([ptr], set_dp_stats (set_refs pool refs) (count_foreign (dp_stats pool))).

Definition datagram_pool_stats_snapshot (pool : DatagramPool) : DatagramPoolStats :=
  if negb (dp_mu_inited pool) then dp_stats_zero else dp_stats pool.

(** ** Slots and addresses *)

Definition slot_addr (pool : DatagramPool) (i : nat) : Z := dp_slab pool + Z.of_nat i * dp_buf_size pool.

(** The slab exists and its size did not overflow ([calloc] fails otherwise). *)
Record dp_geometry (pool : DatagramPool) : Prop := {
  dg_slab : 0 < dp_slab pool;
  dg_buf : 0 < dp_buf_size pool;
  dg_size : Z.of_nat (dp_capacity pool) * dp_buf_size pool < 2 ^ 64;
  dg_refs : length (dp_refs pool) = dp_capacity pool;
  dg_stack : length (dp_free_stack pool) = dp_capacity pool;
  dg_mutex : dp_mu_inited pool = true
}.

Lemma slot_index_addr pool i : dp_geometry pool -> slot_index pool (slot_addr pool i) = i.
Proof.
  intros H. unfold slot_index, slot_addr. pose proof (dg_buf _ H).
  replace (dp_slab pool + Z.of_nat i * dp_buf_size pool - dp_slab pool) with (Z.of_nat i * dp_buf_size pool) by lia.
  rewrite Z.div_mul by lia. lia.
Qed.

Lemma slot_addr_inj pool i j : dp_geometry pool -> slot_addr pool i = slot_addr pool j -> i = j.
Proof. intros H E. rewrite <- (slot_index_addr pool i H), <- (slot_index_addr pool j H). by rewrite E. Qed.

Lemma contains_spec pool ptr :
  dp_geometry pool ->
  datagram_pool_contains pool ptr = true <-> exists i, (i < dp_capacity pool)%nat /\ ptr = slot_addr pool i.
Proof.
  intros H. pose proof (dg_slab _ H). pose proof (dg_buf _ H). pose proof (dg_size _ H).
  unfold datagram_pool_contains, slot_addr. rewrite u64_small by (unfold in_range; lia).
  destruct (Z.eqb_spec (dp_slab pool) 0); [lia|]. destruct (Z.eqb_spec (dp_buf_size pool) 0); [lia|].
  rewrite orb_false_l, orb_false_r. split.
  - destruct (Z.eqb_spec ptr 0); [done|]. destruct (Z.ltb_spec ptr (dp_slab pool)); [done|].
    rewrite Z.geb_leb. destruct (Z.leb_spec (Z.of_nat (dp_capacity pool) * dp_buf_size pool) (ptr - dp_slab pool)); [done|].
    intros E%Z.eqb_eq. apply Z.mod_divide in E as [k Hk]; [|lia]. exists (Z.to_nat k).
    assert (0 <= k) by nia. split; [|rewrite Z2Nat.id by done; lia].
    assert (k < Z.of_nat (dp_capacity pool)) by nia. lia.
  - intros (i & Hi & ->). assert (0 <= Z.of_nat i * dp_buf_size pool) by nia.
    assert (Z.of_nat i * dp_buf_size pool < Z.of_nat (dp_capacity pool) * dp_buf_size pool) by nia.
    destruct (Z.eqb_spec (dp_slab pool + Z.of_nat i * dp_buf_size pool) 0); [lia|].
    destruct (Z.ltb_spec (dp_slab pool + Z.of_nat i * dp_buf_size pool) (dp_slab pool)); [lia|].
    replace (dp_slab pool + Z.of_nat i * dp_buf_size pool - dp_slab pool) with (Z.of_nat i * dp_buf_size pool) by lia.
    rewrite Z.geb_leb. destruct (Z.leb_spec (Z.of_nat (dp_capacity pool) * dp_buf_size pool) (Z.of_nat i * dp_buf_size pool)); [lia|].
    rewrite Z.mod_mul by lia. done.
Qed.

(** ** The clients: a list of owners *)

Definition owners (held : list Z) (p : Z) : nat := count_occ Z.eq_dec held p.

Fixpoint drop_owner (p : Z) (held : list Z) : list Z :=
  match held with
  | [] => []
  | x :: held' => if Z.eq_dec x p then held' else x :: drop_owner p held'
  end.

Inductive dp_op := DAcquire (malloc : option Z) | DRetain (p : Z) | DRelease (p : Z).

(** A call and its effect on the owners; the result has the addresses passed to [free]. *)
Definition dp_step (s : DatagramPool * list Z) (o : dp_op) : option (list Z * (DatagramPool * list Z)) :=
  let '(pool, held) := s in
  match o with
  | DAcquire malloc => '(r, pool') ← datagram_pool_acquire malloc pool; Some ([], (pool', option_list r ++ held))
  | DRetain p => pool' ← datagram_pool_retain pool p; Some ([], (pool', p :: held))
  | DRelease p => '(freed, pool') ← datagram_pool_release pool p; Some (freed, (pool', drop_owner p held))
  end.

(** Clients call [retain] and [release] on what they own, share only slab buffers, and keep the
    number of owners representable; [malloc] returns an address nobody else has. *)
Definition dp_legal (s : DatagramPool * list Z) (o : dp_op) : Prop :=
  let '(pool, held) := s in
  match o with
  | DAcquire malloc => forall p, malloc = Some p -> p <> 0 /\ datagram_pool_contains pool p = false /\ (p ∉ held)
  | DRetain p => (p ∈ held) /\ datagram_pool_contains pool p = true /\ Z.of_nat (length held) + 1 < 2 ^ 32
  | DRelease p => p ∈ held
  end.

(** What is reachable from a successful [datagram_pool_init]. *)
Inductive dp_reach (slab : Z) (capacity : nat) (buf_size : Z) : DatagramPool * list Z -> Prop :=
  | dp_init pool0 pool :
      datagram_pool_init (Some slab) false capacity buf_size pool0 = (0, pool) ->
      dp_reach slab capacity buf_size (pool, [])
  | dp_next s o freed s' :
      dp_reach slab capacity buf_size s -> dp_legal s o -> dp_step s o = Some (freed, s') ->
      dp_reach slab capacity buf_size s'.

Lemma owners_cons held p q : owners (q :: held) p = ((if Z.eq_dec q p then 1 else 0) + owners held p)%nat.
Proof. unfold owners. simpl. by destruct (Z.eq_dec q p). Qed.

Lemma owners_drop held p q :
  (p ∈ held) -> owners (drop_owner p held) q = (owners held q - if Z.eq_dec p q then 1 else 0)%nat.
Proof.
  induction held as [|x held IH]; [by intros ?%elem_of_nil|]. intros Hp. cbn [drop_owner]. rewrite (owners_cons held q x).
  destruct (Z.eq_dec x p) as [->|Hx]; [destruct (Z.eq_dec p q); lia|].
  apply elem_of_cons in Hp as [->|Hp]; [done|]. rewrite owners_cons, IH by done.
  assert (Hpos : (p = q -> 0 < owners held q)%nat).
  { intros <-. apply count_occ_In. by apply list_elem_of_In. }
  destruct (Z.eq_dec p q) as [<-|]; [|lia]. destruct (Z.eq_dec x p); [done|]. lia.
Qed.

Lemma owners_pos held p : (p ∈ held) <-> (0 < owners held p)%nat.
Proof. rewrite list_elem_of_In. apply count_occ_In. Qed.

Lemma owners_le held p : (owners held p <= length held)%nat.
Proof. apply count_occ_bound. Qed.

(** ** The invariant *)

Definition free_list (pool : DatagramPool) : list Z := take (dp_free_count pool) (dp_free_stack pool).

Record dp_inv (pool : DatagramPool) (held : list Z) : Prop := {
  di_geometry : dp_geometry pool;
  di_refs : forall i, (i < dp_capacity pool)%nat -> dp_refs pool !! i = Some (Z.of_nat (owners held (slot_addr pool i)));
  di_nodup : NoDup (free_list pool);
  di_free : forall p, (p ∈ free_list pool) <->
     exists i, (i < dp_capacity pool)%nat /\ p = slot_addr pool i /\ owners held p = 0%nat;
  di_count : (dp_in_use pool + dp_free_count pool)%nat = dp_capacity pool;
  di_foreign : forall p, (p ∈ held) -> p <> 0 /\ (datagram_pool_contains pool p = false -> owners held p = 1%nat)
}.

(** The fields that locate the slab. *)
Definition same_slab (a b : DatagramPool) : Prop :=
  dp_slab a = dp_slab b /\ dp_capacity a = dp_capacity b /\ dp_buf_size a = dp_buf_size b.

Lemma same_slab_addr a b i : same_slab a b -> slot_addr a i = slot_addr b i.
Proof. intros (E1 & _ & E2). unfold slot_addr. by rewrite E1, E2. Qed.

Lemma same_slab_contains a b p : same_slab a b -> datagram_pool_contains a p = datagram_pool_contains b p.
Proof. intros (E1 & E2 & E3). unfold datagram_pool_contains. by rewrite E1, E2, E3. Qed.

Lemma free_list_length pool held : dp_inv pool held -> length (free_list pool) = dp_free_count pool.
Proof.
  intros H. unfold free_list. rewrite length_take. pose proof (dg_stack _ (di_geometry _ _ H)). pose proof (di_count _ _ H). lia.
Qed.

(** A slab buffer with an owner is not free, so there is room for it on the stack. *)
Lemma free_room pool held i :
  dp_inv pool held -> (i < dp_capacity pool)%nat -> (0 < owners held (slot_addr pool i))%nat ->
  (slot_addr pool i ∉ free_list pool) /\ (dp_free_count pool < dp_capacity pool)%nat.
Proof.
  intros H Hi Ho. assert (Hn : slot_addr pool i ∉ free_list pool).
  { intros (j & Hj & _ & E)%(di_free _ _ H). lia. }
  split; [done|]. rewrite <- (free_list_length pool held H).
  rewrite <- (length_fmap (slot_index pool)). apply (NoDup_miss_lt _ _ i).
  - apply NoDup_fmap_2_strong; [|apply (di_nodup _ _ H)].
    intros x y (a & Ha & -> & _)%(di_free _ _ H) (b & Hb & -> & _)%(di_free _ _ H).
    rewrite !slot_index_addr by apply (di_geometry _ _ H). by intros ->.
  - apply list.Forall_forall. intros k Hk. apply list_elem_of_fmap in Hk as (x & -> & Hx).
    apply (di_free _ _ H) in Hx as (a & Ha & -> & _). by rewrite slot_index_addr by apply (di_geometry _ _ H).
  - done.
  - intros Hk. apply list_elem_of_fmap in Hk as (x & Ex & Hx). pose proof Hx as (a & Ha & -> & _)%(di_free _ _ H).
    rewrite slot_index_addr in Ex by apply (di_geometry _ _ H). by subst.
Qed.

Lemma dp_init_inv slab capacity buf_size pool0 pool :
  0 < slab -> (0 < capacity)%nat -> 0 < buf_size -> Z.of_nat capacity * buf_size < 2 ^ 64 ->
  datagram_pool_init (Some slab) false capacity buf_size pool0 = (0, pool) ->
  dp_inv pool [] /\ dp_slab pool = slab /\ dp_capacity pool = capacity /\ dp_buf_size pool = buf_size.
Proof.
  intros H1 H2 H3 H4. unfold datagram_pool_init. destruct (Nat.eqb_spec capacity 0); [lia|].
  destruct (Z.eqb_spec buf_size 0); [lia|]. simpl. intros [= <-]. split; [|done].
  assert (Hfl : free_list (mkDp slab ((fun i => slab + Z.of_nat i * buf_size) <$> seq 0 capacity) (replicate capacity 0)
                  capacity buf_size capacity 0 true dp_stats_zero)
                = (fun i => slab + Z.of_nat i * buf_size) <$> seq 0 capacity).
  { unfold free_list. cbn [dp_free_count dp_free_stack]. rewrite take_ge; [done|]. rewrite length_fmap, length_seq. lia. }
  split; rewrite ?Hfl; cbn [dp_capacity dp_refs dp_in_use dp_free_count].
  - split; cbn; rewrite ?length_replicate, ?length_fmap, ?length_seq; done.
  - intros i Hi. by rewrite lookup_replicate_2.
  - apply NoDup_fmap_2_strong; [|apply NoDup_seq]. intros x y _ _ E. nia.
  - intros p. rewrite list_elem_of_fmap. setoid_rewrite elem_of_seq. unfold slot_addr. cbn [dp_slab dp_buf_size].
    split; [intros (i & -> & Hi); exists i; split; [lia|done]|]. intros (i & Hi & -> & _). exists i. split; [done|lia].
  - lia.
  - intros p Hp. by apply elem_of_nil in Hp.
Qed.

(** The statistics play no part in the invariant. *)
Lemma inv_stats pool held st : dp_inv pool held -> dp_inv (set_dp_stats pool st) held.
Proof. intros [[] ? ? ? ? ?]. split; [split|..]; done. Qed.

Lemma foreign_not_slot pool p i :
  dp_geometry pool -> datagram_pool_contains pool p = false -> (i < dp_capacity pool)%nat -> slot_addr pool i <> p.
Proof.
  intros Hg Hf Hi E. assert (datagram_pool_contains pool p = true); [|congruence].
  apply contains_spec; [done|]. by exists i.
Qed.

(** An invariant that differs in the owners of addresses outside the slab only. *)
Lemma inv_owners pool held held' :
  dp_inv pool held ->
  (forall i, (i < dp_capacity pool)%nat -> owners held' (slot_addr pool i) = owners held (slot_addr pool i)) ->
  (forall p, (p ∈ held') -> p <> 0 /\ (datagram_pool_contains pool p = false -> owners held' p = 1%nat)) ->
  dp_inv pool held'.
Proof.
  intros H Ho Hf. split; [apply (di_geometry _ _ H)| |apply (di_nodup _ _ H)| |apply (di_count _ _ H)|done].
  - intros i Hi. rewrite Ho by done. by apply (di_refs _ _ H).
  - intros p. rewrite (di_free _ _ H). split; intros (i & Hi & -> & E); exists i; (split; [done|]); (split; [done|]).
    + by rewrite Ho.
    + by rewrite <- Ho.
Qed.

Lemma acquire_fallback_inv pool held p :
  dp_inv pool held -> p <> 0 -> datagram_pool_contains pool p = false -> (p ∉ held) ->
  dp_inv pool (p :: held).
Proof.
  intros H Hp0 Hpc Hph. pose proof (di_geometry _ _ H) as Hg. apply (inv_owners pool held); [done| |].
  - intros i Hi. rewrite owners_cons. destruct (Z.eq_dec p _) as [E|]; [|done].
    by destruct (foreign_not_slot pool p i Hg Hpc Hi).
  - rewrite owners_pos in Hph. intros q [->|Hq]%elem_of_cons.
    + split; [done|]. intros _. rewrite owners_cons. destruct (Z.eq_dec p p); [lia|done].
    + destruct (di_foreign _ _ H q Hq) as [Hq0 Hqf]. split; [done|]. intros E%Hqf. rewrite owners_cons.
      destruct (Z.eq_dec p q) as [<-|]; [lia|lia].
Qed.

Lemma acquire_pooled_inv malloc pool held :
  dp_inv pool held -> (0 < dp_free_count pool)%nat ->
  exists p pool', datagram_pool_acquire malloc pool = Some (Some p, pool') /\ dp_inv pool' (p :: held) /\
    same_slab pool' pool /\ owners held p = 0%nat /\ datagram_pool_contains pool p = true.
Proof.
  intros H Hc. pose proof (di_geometry _ _ H) as Hg. unfold datagram_pool_acquire. rewrite (dg_mutex _ Hg). cbn [negb].
  destruct (Nat.ltb_spec 0 (dp_free_count pool)); [|lia].
  pose proof (free_list_length pool held H) as Hfl.
  destruct (lookup_lt_is_Some_2 (dp_free_stack pool) (dp_free_count pool - 1)) as [ptr Hptr].
  { rewrite (dg_stack _ Hg). pose proof (di_count _ _ H). lia. }
  assert (Efl : free_list pool = take (dp_free_count pool - 1) (dp_free_stack pool) ++ [ptr]).
  { unfold free_list. rewrite <- (take_S_snoc _ _ ptr Hptr). f_equal. lia. }
  pose proof (di_nodup _ _ H) as Hnd. rewrite Efl in Hnd. apply list.NoDup_app in Hnd as (Hnd & Hni & _).
  assert (Hin : ptr ∈ free_list pool) by (rewrite Efl; apply elem_of_app; right; by apply list_elem_of_singleton).
  pose proof Hin as (i & Hi & Ep & Eo)%(di_free _ _ H). rewrite Hptr. simpl.
  assert (Ei : slot_index pool ptr = i) by (subst ptr; by apply slot_index_addr). rewrite Ei.
  rewrite (di_refs _ _ H i Hi). simpl. eexists _, _. split; [done|].
  assert (Hc' : datagram_pool_contains pool ptr = true) by (apply contains_spec; [done|by exists i]).
  split; [|done].
  split; cbn [dp_capacity dp_refs dp_in_use dp_free_count].
  - destruct Hg. split; cbn; rewrite ?length_insert; done.
  - intros j Hj. change (slot_addr _ j) with (slot_addr pool j). rewrite owners_cons.
    destruct (decide (j = i)) as [->|Hne].
    + rewrite list_lookup_insert_eq by (by rewrite (dg_refs _ Hg)). rewrite <- Ep, Eo. by destruct (Z.eq_dec ptr ptr).
    + rewrite list_lookup_insert_ne by done. rewrite (di_refs _ _ H j Hj).
      destruct (Z.eq_dec ptr (slot_addr pool j)) as [E|]; [|done]. subst ptr. by apply slot_addr_inj in E.
  - exact Hnd.
  - intros q. unfold free_list at 1. cbn [dp_free_count dp_free_stack].
    transitivity ((q ∈ free_list pool) /\ q <> ptr).
    + rewrite Efl, elem_of_app, list_elem_of_singleton. split; [|by intros [[?| ->] ?]].
      intros Hq. split; [by left|]. intros ->. apply (Hni ptr Hq). by apply list_elem_of_singleton.
    + rewrite (di_free _ _ H). setoid_rewrite owners_cons.
      split; [intros [(j & Hj & -> & E) Hne]; exists j; split; [done|]; split; [done|]; by destruct (Z.eq_dec ptr _)|].
      intros (j & Hj & -> & E). destruct (Z.eq_dec ptr _) as [|Hne]; [lia|]. split; [|done]. by exists j.
  - pose proof (di_count _ _ H). lia.
  - intros q. rewrite elem_of_cons.
    change (datagram_pool_contains _ q) with (datagram_pool_contains pool q). intros Hq. split.
    + destruct Hq as [->|Hq]; [|by destruct (di_foreign _ _ H q Hq)]. intros E. rewrite E in Ep. unfold slot_addr in Ep.
      destruct Hg. nia.
    + intros Ef. rewrite owners_cons. destruct (Z.eq_dec ptr q) as [<-|]; [congruence|].
      destruct Hq as [->|Hq]; [done|]. by apply (di_foreign _ _ H).
Qed.

Lemma acquire_from malloc pool held p pool' :
  dp_inv pool held -> datagram_pool_acquire malloc pool = Some (Some p, pool') ->
  datagram_pool_contains pool p = true \/ malloc = Some p.
Proof.
  intros H E. destruct (decide (0 < dp_free_count pool)%nat) as [Hc|Hc].
  { destruct (acquire_pooled_inv malloc pool held H Hc) as (q & pool1 & E1 & _ & _ & _ & Hq). left. congruence. }
  right. unfold datagram_pool_acquire in E. rewrite (dg_mutex _ (di_geometry _ _ H)) in E. cbn [negb] in E.
  destruct (Nat.ltb_spec 0 (dp_free_count pool)); [done|]. destruct malloc as [q|]; by injection E as ->.
Qed.

Lemma acquire_inv malloc pool held :
  dp_inv pool held -> dp_legal (pool, held) (DAcquire malloc) ->
  exists r pool', datagram_pool_acquire malloc pool = Some (r, pool') /\ dp_inv pool' (option_list r ++ held) /\
    same_slab pool' pool /\ (forall p, r = Some p -> (p ∉ held)).
Proof.
  intros H Hm. destruct (decide (0 < dp_free_count pool)%nat) as [Hc|Hc].
  { destruct (acquire_pooled_inv malloc pool held H Hc) as (p & pool' & E & Hi & Hs & Ho & _).
    exists (Some p), pool'. do 3 (split; [done|]). intros q [= <-]. rewrite owners_pos. lia. }
  unfold datagram_pool_acquire. rewrite (dg_mutex _ (di_geometry _ _ H)). cbn [negb].
  destruct (Nat.ltb_spec 0 (dp_free_count pool)); [done|]. destruct malloc as [p|]; eexists _, _; (split; [done|]).
  - destruct (Hm p eq_refl) as (Hp0 & Hpc & Hph). split; [by apply inv_stats, acquire_fallback_inv|].
    split; [done|]. by intros q [= <-].
  - done.
Qed.

(** Changing one count where the free list stays as it is. *)
Lemma inv_set_ref pool held held' i :
  dp_inv pool held -> (i < dp_capacity pool)%nat ->
  (0 < owners held (slot_addr pool i))%nat -> (0 < owners held' (slot_addr pool i))%nat ->
  (forall q, q <> slot_addr pool i -> owners held' q = owners held q) ->
  (forall q, (q ∈ held') -> q ∈ held) ->
  dp_inv (set_refs pool (<[i := Z.of_nat (owners held' (slot_addr pool i))]> (dp_refs pool))) held'.
Proof.
  intros H Hi H1 H2 Ho Hsub. pose proof (di_geometry _ _ H) as Hg.
  split; cbn [dp_capacity dp_refs dp_in_use dp_free_count set_refs].
  - destruct Hg. split; cbn; rewrite ?length_insert; done.
  - intros j Hj. change (slot_addr _ j) with (slot_addr pool j). destruct (decide (j = i)) as [->|Hne].
    + by rewrite list_lookup_insert_eq by (by rewrite (dg_refs _ Hg)).
    + rewrite list_lookup_insert_ne by done. rewrite Ho; [by apply (di_refs _ _ H)|].
      intros E%slot_addr_inj; [done|done].
  - apply (di_nodup _ _ H).
  - intros p. change (free_list _) with (free_list pool). rewrite (di_free _ _ H).
    change (slot_addr _) with (slot_addr pool).
    split; intros (j & Hj & -> & E); exists j; (split; [done|]); (split; [done|]);
      (destruct (decide (j = i)) as [->|Hne]; [lia|]).
    + rewrite Ho; [done|]. intros E'%slot_addr_inj; done.
    + rewrite <- Ho; [done|]. intros E'%slot_addr_inj; done.
  - apply (di_count _ _ H).
  - intros p Hp. destruct (di_foreign _ _ H p (Hsub p Hp)) as [Hp0 Hpf]. split; [done|].
    change (datagram_pool_contains _ p) with (datagram_pool_contains pool p). intros E.
    rewrite Ho; [by apply Hpf|]. intros ->. assert (datagram_pool_contains pool (slot_addr pool i) = true); [|congruence].
    apply contains_spec; [done|]. by exists i.
Qed.

Lemma retain_inv pool held p :
  dp_inv pool held -> dp_legal (pool, held) (DRetain p) ->
  exists pool', datagram_pool_retain pool p = Some pool' /\ dp_inv pool' (p :: held) /\ same_slab pool' pool.
Proof.
  intros H (Hp & Hc & Hr). pose proof (di_geometry _ _ H) as Hg. unfold datagram_pool_retain.
  rewrite (dg_mutex _ Hg), Hc. cbn [negb orb]. apply contains_spec in Hc as (i & Hi & ->); [|done].
  rewrite slot_index_addr by done. rewrite (di_refs _ _ H i Hi). simpl.
  apply owners_pos in Hp. pose proof (owners_le held (slot_addr pool i)) as Hle.
  destruct (Z.gtb_spec (Z.of_nat (owners held (slot_addr pool i))) 0); [|lia].
  eexists. split; [done|]. split; [|done].
  replace (u32 (Z.of_nat (owners held (slot_addr pool i)) + 1))
    with (Z.of_nat (owners (slot_addr pool i :: held) (slot_addr pool i))).
  - apply (inv_set_ref pool held); [done..| | |].
    + rewrite owners_cons. lia.
    + intros q Hq. rewrite owners_cons. by destruct (Z.eq_dec _ q) as [<-|].
    + intros q [->|?]%elem_of_cons; [by apply owners_pos|done].
  - rewrite owners_cons. destruct (Z.eq_dec _ _); [|done]. unfold u32. rewrite uwrap_small; [lia|]. unfold in_range. lia.
Qed.

Lemma drop_owner_subset held p q : (q ∈ drop_owner p held) -> q ∈ held.
Proof.
  induction held as [|x held IH]; [done|]. cbn [drop_owner]. destruct (Z.eq_dec x p).
  - intros. by apply elem_of_cons; right.
  - rewrite !elem_of_cons. naive_solver.
Qed.

(** The last owner puts the buffer back on the stack. *)
Lemma release_last_inv pool held i :
  dp_inv pool held -> (i < dp_capacity pool)%nat -> owners held (slot_addr pool i) = 1%nat ->
  exists pool', datagram_pool_release pool (slot_addr pool i) = Some ([], pool') /\
    dp_inv pool' (drop_owner (slot_addr pool i) held) /\ same_slab pool' pool.
Proof.
  intros H Hi H1. pose proof (di_geometry _ _ H) as Hg. set (p := slot_addr pool i) in *.
  assert (Hp : p ∈ held) by (apply owners_pos; lia).
  destruct (free_room pool held i H Hi) as [Hni Hroom]; [fold p; lia|].
  assert (Hc : datagram_pool_contains pool p = true) by (apply contains_spec; [done|by exists i]).
  destruct (di_foreign _ _ H p Hp) as [Hp0 _]. unfold datagram_pool_release.
  destruct (Z.eqb_spec p 0); [done|]. rewrite (dg_mutex _ Hg), Hc. cbn [negb orb].
  assert (Hidx : slot_index pool p = i) by (by apply slot_index_addr).
  rewrite Hidx, (di_refs _ _ H i Hi). fold p. rewrite H1. simpl.
  destruct (Nat.ltb_spec (dp_free_count pool) (dp_capacity pool)); [|lia].
  destruct (lookup_lt_is_Some_2 (dp_free_stack pool) (dp_free_count pool)) as [old Hold]; [by rewrite (dg_stack _ Hg)|].
  rewrite Hold. simpl. eexists. split; [done|]. split; [|done].
  assert (Hdrop : forall q, owners (drop_owner p held) q = (owners held q - if Z.eq_dec p q then 1 else 0)%nat)
    by (intros q; by apply owners_drop).
  match goal with |- dp_inv ?x _ => set (pool' := x) end.
  assert (Hfl : free_list pool' = free_list pool ++ [p]).
  { unfold free_list, pool'. cbn [dp_free_count dp_free_stack]. rewrite Nat.add_1_r.
    rewrite (take_S_snoc _ _ p) by (rewrite list_lookup_insert_eq; [done|by rewrite (dg_stack _ Hg)]).
    by rewrite take_insert_ge by lia. }
  split; rewrite ?Hfl.
  - destruct Hg. split; cbn; rewrite ?length_insert; done.
  - intros j Hj. change (slot_addr pool' j) with (slot_addr pool j). rewrite Hdrop. cbn [pool' dp_refs].
    destruct (decide (j = i)) as [->|Hne].
    + rewrite list_lookup_insert_eq by (by rewrite (dg_refs _ Hg)). fold p. rewrite H1. by destruct (Z.eq_dec p p).
    + rewrite list_lookup_insert_ne by done. rewrite (di_refs _ _ H j Hj).
      destruct (Z.eq_dec p (slot_addr pool j)) as [E|]; [by apply slot_addr_inj in E|]. by rewrite Nat.sub_0_r.
  - apply list.NoDup_app. split; [apply (di_nodup _ _ H)|]. split; [|apply list.NoDup_singleton].
    intros q Hq ->%list_elem_of_singleton. done.
  - intros q. rewrite elem_of_app, list_elem_of_singleton, (di_free _ _ H). cbn [pool' dp_capacity].
    change (slot_addr pool') with (slot_addr pool). split.
    + intros [(j & Hj & -> & E)| ->]; [exists j|exists i]; (split; [done|]); (split; [done|]); rewrite Hdrop; [lia|].
      rewrite H1. by destruct (Z.eq_dec p p).
    + intros (j & Hj & -> & E). rewrite Hdrop in E. destruct (Z.eq_dec p (slot_addr pool j)) as [E'|]; [by right|].
      left. exists j. split; [done|]. split; [done|lia].
  - cbn [pool' dp_in_use dp_free_count dp_capacity]. pose proof (di_count _ _ H).
    destruct (Nat.ltb_spec 0 (dp_in_use pool)); lia.
  - intros q Hq. pose proof (drop_owner_subset _ _ _ Hq) as Hq'. destruct (di_foreign _ _ H q Hq') as [Hq0 Hqf].
    split; [done|]. change (datagram_pool_contains pool' q) with (datagram_pool_contains pool q). intros E.
    rewrite Hdrop. destruct (Z.eq_dec p q) as [<-|]; [congruence|]. rewrite Nat.sub_0_r. by apply Hqf.
Qed.

Lemma release_inv pool held p :
  dp_inv pool held -> (p ∈ held) ->
  exists freed pool', datagram_pool_release pool p = Some (freed, pool') /\ dp_inv pool' (drop_owner p held) /\
    same_slab pool' pool /\ freed = (if datagram_pool_contains pool p then [] else [p]).
Proof.
  intros H Hp. pose proof (di_geometry _ _ H) as Hg. destruct (di_foreign _ _ H p Hp) as [Hp0 Hpf].
  pose proof (proj1 (owners_pos held p) Hp) as Hpos.
  assert (Hdrop : forall q, owners (drop_owner p held) q = (owners held q - if Z.eq_dec p q then 1 else 0)%nat)
    by (intros q; by apply owners_drop).
  destruct (datagram_pool_contains pool p) eqn:Hc.
  - pose proof Hc as (i & Hi & ->)%contains_spec; [|done].
    destruct (decide (owners held (slot_addr pool i) = 1%nat)) as [H1|H1].
    { destruct (release_last_inv pool held i H Hi H1) as (pool' & E & Hinv & Hs). by exists [], pool'. }
    unfold datagram_pool_release. destruct (Z.eqb_spec (slot_addr pool i) 0); [done|].
    rewrite (dg_mutex _ Hg), Hc. cbn [negb orb]. rewrite slot_index_addr by done. rewrite (di_refs _ _ H i Hi). simpl.
    destruct (Z.gtb_spec (Z.of_nat (owners held (slot_addr pool i))) 1); [|lia].
    eexists _, _. split; [done|]. split; [|done].
    replace (Z.of_nat (owners held (slot_addr pool i)) - 1)
      with (Z.of_nat (owners (drop_owner (slot_addr pool i) held) (slot_addr pool i)))
      by (rewrite Hdrop; destruct (Z.eq_dec _ _); [lia|done]).
    apply (inv_set_ref pool held); [done..| | |].
    + rewrite Hdrop. destruct (Z.eq_dec _ _); [lia|done].
    + intros q Hq. rewrite Hdrop. destruct (Z.eq_dec _ q); [done|]. apply Nat.sub_0_r.
    + intros q. apply drop_owner_subset.
  - unfold datagram_pool_release. destruct (Z.eqb_spec p 0); [done|]. rewrite (dg_mutex _ Hg), Hc. cbn [negb orb].
    eexists _, _. split; [done|]. split; [|done]. apply inv_stats, (inv_owners pool held); [done| |].
    + intros i Hi. rewrite Hdrop. destruct (Z.eq_dec p _) as [E|]; [|apply Nat.sub_0_r].
      by destruct (foreign_not_slot pool p i Hg Hc Hi).
    + intros q Hq. destruct (di_foreign _ _ H q (drop_owner_subset _ _ _ Hq)) as [Hq0 Hqf]. split; [done|].
      intros E. rewrite Hdrop. destruct (Z.eq_dec p q) as [<-|]; [|rewrite Nat.sub_0_r; by apply Hqf].
      apply owners_pos in Hq. rewrite Hdrop, Hpf in Hq by done. destruct (Z.eq_dec p p); [lia|done].
Qed.

(** ** Property *)

(** Every legal call succeeds and keeps the invariant. *)
Lemma dp_step_inv pool held o :
  dp_inv pool held -> dp_legal (pool, held) o ->
  exists freed pool' held', dp_step (pool, held) o = Some (freed, (pool', held')) /\ dp_inv pool' held' /\
    same_slab pool' pool.
Proof.
  intros H Hl. destruct o as [malloc|p|p]; cbn [dp_step].
  - destruct (acquire_inv malloc pool held H Hl) as (r & pool' & E & Hi & Hs & _). rewrite E. by eexists _, _, _.
  - destruct (retain_inv pool held p H Hl) as (pool' & E & Hi & Hs). rewrite E. by eexists _, _, _.
  - destruct (release_inv pool held p H Hl) as (freed & pool' & E & Hi & Hs & _). rewrite E. by eexists _, _, _.
Qed.

Lemma dp_reach_inv slab capacity buf_size pool held :
  0 < slab -> (0 < capacity)%nat -> 0 < buf_size -> Z.of_nat capacity * buf_size < 2 ^ 64 ->
  dp_reach slab capacity buf_size (pool, held) ->
  dp_inv pool held /\ dp_slab pool = slab /\ dp_capacity pool = capacity /\ dp_buf_size pool = buf_size.
Proof.
  intros H1 H2 H3 H4 Hr. remember (pool, held) as s eqn:Es. revert pool held Es.
  induction Hr as [pool0 pool1 E|[pool1 held1] o freed s' Hr IH Hl E]; intros pool held Es.
  { injection Es as -> <-. by eapply dp_init_inv. }
  destruct (IH pool1 held1 eq_refl) as (Hi & E1 & E2 & E3).
  destruct (dp_step_inv pool1 held1 o Hi Hl) as (freed' & pool' & held' & E' & Hi' & (S1 & S2 & S3)).
  rewrite E in E'. injection E' as _ ->. injection Es as -> ->. by rewrite S1, S2, S3.
Qed.

(** C27: the datagram pool counts owners exactly.  After any legal sequence of calls every
    reference count is the number of owners of that buffer, the free stack holds exactly the
    buffers without owner, and buffers in use and free buffers make up the capacity.  Whatever
    legal call comes next stays inside the arrays; [datagram_pool_acquire] never returns a buffer
    somebody owns; [datagram_pool_release] passes to [free] exactly the pointers from outside
    the slab and puts a slab buffer back exactly when its last owner lets go. *)
Theorem datagram_pool_refcounts_exact slab capacity buf_size pool held o :
  0 < slab -> (0 < capacity)%nat -> 0 < buf_size -> Z.of_nat capacity * buf_size < 2 ^ 64 ->
  dp_reach slab capacity buf_size (pool, held) -> dp_legal (pool, held) o ->
  (forall i, (i < capacity)%nat -> dp_refs pool !! i = Some (Z.of_nat (owners held (slot_addr pool i)))) /\
  (forall i, (i < capacity)%nat -> (slot_addr pool i ∈ free_list pool) <-> owners held (slot_addr pool i) = 0%nat) /\
  (dp_in_use pool + dp_free_count pool)%nat = capacity /\
  exists freed pool' held', dp_step (pool, held) o = Some (freed, (pool', held')) /\
    match o with
    | DAcquire _ => freed = [] /\ forall p, held' = p :: held -> (p ∉ held)
    | DRetain p => freed = []
    | DRelease p =>
        freed = (if datagram_pool_contains pool p then [] else [p]) /\
        (datagram_pool_contains pool p = true -> (p ∈ free_list pool') <-> owners held p = 1%nat)
    end.
Proof.
  intros H1 H2 H3 H4 Hr Hl. destruct (dp_reach_inv _ _ _ _ _ H1 H2 H3 H4 Hr) as (H & _ & Ec & _).
  pose proof (di_geometry _ _ H) as Hg. rewrite <- Ec. split; [apply (di_refs _ _ H)|]. split; [|split; [apply (di_count _ _ H)|]].
  { intros i Hi. rewrite (di_free _ _ H). split; [by intros (j & _ & _ & E)|]. intros E. by exists i. }
  destruct o as [malloc|p|p]; cbn [dp_step].
  - destruct (acquire_inv malloc pool held H Hl) as (r & pool' & E & Hi & Hs & Hn). rewrite E. simpl.
    eexists _, _, _. split; [done|]. split; [done|]. intros p Hp. destruct r as [q|]; simpl in Hp.
    + injection Hp as ->. by apply Hn.
    + apply (f_equal length) in Hp. simpl in Hp. lia.
  - destruct (retain_inv pool held p H Hl) as (pool' & E & Hi & Hs). rewrite E. by eexists _, _, _.
  - destruct (release_inv pool held p H Hl) as (freed & pool' & E & Hi & Hs & Hf). rewrite E. simpl.
    eexists _, _, _. split; [done|]. split; [done|]. intros (i & Hlt & ->)%contains_spec; [|done].
    rewrite (di_free _ _ Hi), owners_drop by done. apply owners_pos in Hl. destruct (Z.eq_dec _ _); [|done].
    destruct Hs as (S1 & S2 & S3).
    split; [intros (j & _ & _ & E'); lia|]. intros E'. exists i. rewrite S2. split; [done|]. split; [|lia].
    by apply same_slab_addr.
Qed.

(** Two buffers; the first is shared and released once, then the second is taken too. *)
Definition sample_pool : DatagramPool := snd (datagram_pool_init (Some 4096) false 2 100 dp_zero).

Definition sample_run (ops : list dp_op) : option (DatagramPool * list Z) :=
  foldl (fun s o => s' ← s; '(_, s'') ← dp_step s' o; Some s'') (Some (sample_pool, [])) ops.

Definition sample_state : DatagramPool * list Z :=
  default (dp_zero, []) (sample_run [DAcquire None; DRetain 4196; DRelease 4196; DAcquire None]).

Lemma sample_reach : dp_reach 4096 2 100 sample_state.
Proof.
  unfold sample_state, sample_run, foldl.
  eapply (dp_next _ _ _ _ (DAcquire None) []);
    [eapply (dp_next _ _ _ _ (DRelease 4196) []);
      [eapply (dp_next _ _ _ _ (DRetain 4196) []);
        [eapply (dp_next _ _ _ _ (DAcquire None) []); [apply (dp_init _ _ _ dp_zero); reflexivity|done|reflexivity]
        |split; [by left|]; split; [reflexivity|simpl; lia]|reflexivity]
      |by left|reflexivity]
    |done|reflexivity].
Qed.

Lemma datagram_pool_refcounts_exact_witness :
  exists freed pool' held', dp_step sample_state (DRelease 4196) = Some (freed, (pool', held')) /\
    freed = [] /\ ((4196 ∈ free_list pool') <-> owners (snd sample_state) 4196 = 1%nat).
Proof.
  destruct (datagram_pool_refcounts_exact 4096 2 100 (fst sample_state) (snd sample_state) (DRelease 4196)) as (_ & _ & _ & R).
  - lia.
  - lia.
  - lia.
  - reflexivity.
  - exact sample_reach.
  - vm_compute. by right; left.
  - destruct R as (freed & pool' & held' & E & Hf & Hiff). exists freed, pool', held'.
    split; [exact E|]. split; [exact Hf|]. by apply Hiff.
Defined.
