(* ===== verification/EgressQueue.v ===== *)
(** * The relay's send queues: src/apps/wire_relay/egress_queue.c

    [EgressQueue] is a bounded ring of datagrams with insertion at either end, a timed blocking
    enqueue and statistics; [EgressFairDequeuer] serves an acknowledgement and a data queue with
    a quota.  Every critical section of the mutex is one function.  Datagram addresses and
    waiters are [Z] ([0] is NULL); what a call passes to the free hook is part of its result. *)

From S2P Require Import Prelude Ring PktQueue.

Local Open Scope Z_scope.

Record EgressPacket := mkEp {
  ep_datagram : Z;
  ep_len : Z;
  ep_flow_id : Z;
  ep_generation_id : Z;
  ep_enqueue_ns : Z;
  ep_dest : list Z;
  ep_dest_len : Z;
  ep_prefer_head : Z
}.

Definition ep_zero : EgressPacket := mkEp 0 0 0 0 0 [] 0 0.

Inductive EgressStatus :=
  | EGRESS_OK | EGRESS_ERR_INVALID | EGRESS_ERR_ALLOC | EGRESS_ERR_FULL | EGRESS_ERR_EMPTY
  | EGRESS_ERR_SHUTDOWN | EGRESS_ERR_TIMEOUT.

#[export] Instance EgressStatus_eq_dec : EqDecision EgressStatus.
Proof. solve_decision. Defined.

Record EgressQueueStats := mkEqs {
  es_enqueue_immediate : Z;
  es_enqueue_waited : Z;
  es_wait_ns_total : Z;
  es_wait_ns_max : Z;
  es_high_watermark : Z
}.

Definition es_zero : EgressQueueStats := mkEqs 0 0 0 0 0.

Record EgressQueue := mkEq {
  eq_ring : ring EgressPacket;
  eq_live : bool;                 (* [slots] is not NULL *)
  eq_shutdown : bool;
  eq_stats : EgressQueueStats;
  eq_waiter : Z;
  eq_packet_free : Z;
  eq_packet_free_ctx : Z
}.

Definition eq_zero : EgressQueue := mkEq (Ring [] 0 0 0 0) false false es_zero 0 0 0.

Definition mono_ns_now (ts : option (Z * Z)) : Z :=
  match ts with
  | None => 0
  | Some (tv_sec, tv_nsec) =>
      if tv_sec <? 0 then 0 else u64 (u64 (u64 tv_sec * 1000000000) + u64 tv_nsec)
  end.

Definition mono_deadline_from_ms (timeout_ms : Z) (now : Z * Z) : Z * Z :=
  let deadline_ns := u64 (u64 (u64 (u64 (fst now) * 1000000000) + u64 (snd now)) + u64 (timeout_ms * 1000000)) in
  (deadline_ns / 1000000000, deadline_ns mod 1000000000).

(** [count] is the number of packets after the insertion. *)
Definition record_enqueue_stats (st : EgressQueueStats) (count : nat) (waited : bool) (wait_ns : Z) : EgressQueueStats :=
  let hw := if Z.of_nat count >? es_high_watermark st then Z.of_nat count else es_high_watermark st in
  if waited then
    mkEqs (es_enqueue_immediate st) (es_enqueue_waited st +u64 1)%cint (es_wait_ns_total st +u64 wait_ns)%cint
      (if wait_ns >? es_wait_ns_max st then wait_ns else es_wait_ns_max st) hw
  else
    mkEqs (es_enqueue_immediate st +u64 1)%cint (es_enqueue_waited st) (es_wait_ns_total st) (es_wait_ns_max st) hw.

Definition set_ring (q : EgressQueue) (r : ring EgressPacket) (st : EgressQueueStats) : EgressQueue :=
  mkEq r (eq_live q) (eq_shutdown q) st (eq_waiter q) (eq_packet_free q) (eq_packet_free_ctx q).

(** The caller's packet after its datagram moved into the queue. *)
Definition moved (pkt : EgressPacket) : EgressPacket :=
  mkEp 0 0 (ep_flow_id pkt) (ep_generation_id pkt) (ep_enqueue_ns pkt) (ep_dest pkt) (ep_dest_len pkt)
    (ep_prefer_head pkt).

Definition enqueue_locked (q : EgressQueue) (pkt : EgressPacket) (waited : bool) (wait_ns : Z)
  : EgressStatus * EgressQueue * EgressPacket :=
  let r := if ep_prefer_head pkt =? 0 then put_tail (eq_ring q) pkt else put_head (eq_ring q) pkt in
  (EGRESS_OK, set_ring q r (record_enqueue_stats (eq_stats q) (r_count r) waited wait_ns), moved pkt).

(** The allocation and the five primitives can fail. *)
Definition egress_queue_init (oom mutex_fails not_empty_fails attr_fails clock_fails not_full_fails : bool)
  (capacity : nat) (q0 : EgressQueue) : EgressStatus * EgressQueue :=
  if (capacity =? 0)%nat then (EGRESS_ERR_INVALID, q0)
  else if oom then (EGRESS_ERR_ALLOC, eq_zero)
  else if mutex_fails || not_empty_fails || attr_fails || clock_fails || not_full_fails then
    (EGRESS_ERR_ALLOC, mkEq (Ring [] capacity 0 0 0) false false es_zero 0 0 0)
  else (EGRESS_OK, mkEq (ring_init capacity ep_zero) true false es_zero 0 0 0).

(** Every slot with a datagram is freed, whatever the indices say; the result is the datagrams
    freed, in slot order. *)
Definition egress_queue_destroy (q : EgressQueue) : list Z * EgressQueue :=
  (if eq_live q then ep_datagram <$> filter (fun s => ep_datagram s <> 0) (r_slots (eq_ring q)) else [], eq_zero).

Definition egress_queue_set_packet_free (q : EgressQueue) (fn ctx : Z) : EgressQueue :=
  mkEq (eq_ring q) (eq_live q) (eq_shutdown q) (eq_stats q) (eq_waiter q) fn ctx.

(** The second component is the waiter to notify once the mutex is released. *)
Definition egress_queue_shutdown (q : EgressQueue) : EgressQueue * Z :=
  (mkEq (eq_ring q) (eq_live q) true (eq_stats q) (eq_waiter q) (eq_packet_free q) (eq_packet_free_ctx q), eq_waiter q).

Definition invalid_packet (pkt : EgressPacket) : bool := (ep_datagram pkt =? 0) || (ep_len pkt =? 0).

(** Status, queue, the caller's packet, and the waiter to notify. *)
Definition egress_queue_try_enqueue (q : EgressQueue) (pkt : EgressPacket)
  : EgressStatus * EgressQueue * EgressPacket * Z :=
  if invalid_packet pkt then (EGRESS_ERR_INVALID, q, pkt, 0)
  else if eq_shutdown q then (EGRESS_ERR_SHUTDOWN, q, pkt, 0)
  else if (r_capacity (eq_ring q) <=? r_count (eq_ring q))%nat then (EGRESS_ERR_FULL, q, pkt, 0)
  else (enqueue_locked q pkt false 0, eq_waiter q).

(** The timed enqueue up to its first wait; a wait keeps the deadline and the time it began. *)
Definition egress_queue_timed_enqueue (now : Z * Z) (wait_clock : option (Z * Z)) (q : EgressQueue)
  (pkt : EgressPacket) (timeout_ms : Z) : EgressStatus * EgressQueue * EgressPacket * Z + (Z * Z) * Z :=
  if invalid_packet pkt || (timeout_ms =? 0) then inl (EGRESS_ERR_INVALID, q, pkt, 0)
  else
    let deadline := mono_deadline_from_ms timeout_ms now in
    if eq_shutdown q then inl (EGRESS_ERR_SHUTDOWN, q, pkt, 0)
    else if (r_count (eq_ring q) <? r_capacity (eq_ring q))%nat then inl (enqueue_locked q pkt false 0, eq_waiter q)
    else inr (deadline, mono_ns_now wait_clock).

Inductive timedwait_rc := RcOk | RcEintr | RcTimedOut | RcOther.

(** The timed enqueue from the return of one [pthread_cond_timedwait]; [inr] waits again. *)
Definition timed_enqueue_resume (rc : timedwait_rc) (end_clock : option (Z * Z)) (wait_start_ns : Z)
  (q : EgressQueue) (pkt : EgressPacket) : EgressStatus * EgressQueue * EgressPacket * Z + unit :=
  match rc with
  | RcTimedOut => inl (EGRESS_ERR_TIMEOUT, q, pkt, 0)
  | RcOther => inl (EGRESS_ERR_INVALID, q, pkt, 0)
  | RcOk | RcEintr =>
      if (r_capacity (eq_ring q) <=? r_count (eq_ring q))%nat && negb (eq_shutdown q) then inr tt
      else if eq_shutdown q then inl (EGRESS_ERR_SHUTDOWN, q, pkt, 0)
      else inl (enqueue_locked q pkt true (mono_ns_now end_clock -u64 wait_start_ns)%cint, eq_waiter q)
  end.

(** [None] is a read outside the slot array. *)
Definition dequeue_locked (q : EgressQueue) : option (EgressStatus * option EgressPacket * EgressQueue) :=
  if (r_count (eq_ring q) =? 0)%nat then
    Some (if eq_shutdown q then EGRESS_ERR_SHUTDOWN else EGRESS_ERR_EMPTY, None, q)
  else '(pkt, r) ← take_head (Some ep_zero) (eq_ring q); Some (EGRESS_OK, Some pkt, set_ring q r (eq_stats q)).

(** One pass of the blocking dequeue. *)
Definition egress_queue_dequeue (q : EgressQueue)
  : option (outcome (EgressStatus * option EgressPacket * EgressQueue)) :=
  if (r_count (eq_ring q) =? 0)%nat && negb (eq_shutdown q) then Some Blocks
  else res ← dequeue_locked q; Some (Returns res).

Definition egress_queue_try_dequeue (q : EgressQueue) := dequeue_locked q.

Definition egress_queue_count (q : EgressQueue) : nat := r_count (eq_ring q).
Definition egress_queue_stats_snapshot (q : EgressQueue) : EgressQueueStats := eq_stats q.

Definition queue_set_waiter (q : EgressQueue) (waiter : Z) : EgressQueue :=
  mkEq (eq_ring q) (eq_live q) (eq_shutdown q) (eq_stats q) waiter (eq_packet_free q) (eq_packet_free_ctx q).

(** ** The fair dequeuer

    The two queues are shared objects, so they are arguments beside the record; [fd_address] is
    the address of [d->waiter]. *)

Record EgressFairDequeuer := mkFair {
  fd_generation : Z;
  fd_ack_quota : Z;
  fd_consecutive_acks : Z;
  fd_initialized : bool
}.

Definition fd_zero : EgressFairDequeuer := mkFair 0 0 0 false.

Definition waiter_notify (d : EgressFairDequeuer) : EgressFairDequeuer :=
  mkFair (fd_generation d +u64 1)%cint (fd_ack_quota d) (fd_consecutive_acks d) (fd_initialized d).

Definition egress_fair_dequeuer_init (same_queue mutex_fails cond_fails : bool) (fd_address : Z)
  (ack data : EgressQueue) (ack_quota : Z) (d0 : EgressFairDequeuer)
  : EgressStatus * EgressFairDequeuer * EgressQueue * EgressQueue :=
  if same_queue || (ack_quota =? 0) then (EGRESS_ERR_INVALID, d0, ack, data)
  else if mutex_fails || cond_fails then (EGRESS_ERR_ALLOC, fd_zero, ack, data)
  else (EGRESS_OK, mkFair 0 ack_quota 0 true, queue_set_waiter ack fd_address, queue_set_waiter data fd_address).

Definition egress_fair_dequeuer_destroy (d : EgressFairDequeuer) (ack data : EgressQueue)
  : EgressFairDequeuer * EgressQueue * EgressQueue :=
  if negb (fd_initialized d) then (d, ack, data)
  else (fd_zero, queue_set_waiter ack 0, queue_set_waiter data 0).

Definition set_consecutive (d : EgressFairDequeuer) (n : Z) : EgressFairDequeuer :=
  mkFair (fd_generation d) (fd_ack_quota d) n (fd_initialized d).

(** What the dequeuer does after both queues declined. *)
Definition fair_declined (ack_st data_st : EgressStatus) : option EgressStatus :=
  if bool_decide (ack_st = EGRESS_ERR_SHUTDOWN) && bool_decide (data_st = EGRESS_ERR_SHUTDOWN) then
    Some EGRESS_ERR_SHUTDOWN
  else if (negb (bool_decide (ack_st = EGRESS_ERR_EMPTY)) && negb (bool_decide (ack_st = EGRESS_ERR_SHUTDOWN))) ||
          (negb (bool_decide (data_st = EGRESS_ERR_EMPTY)) && negb (bool_decide (data_st = EGRESS_ERR_SHUTDOWN))) then
    Some EGRESS_ERR_INVALID
  else None.

(** One pass of the loop when nothing else runs meanwhile; the interleaved version is the
    machine below.  [Blocks] waits for the generation to move on. *)
Definition egress_fair_dequeue (d : EgressFairDequeuer) (ack data : EgressQueue)
  : option (outcome (EgressStatus * option EgressPacket * EgressFairDequeuer * EgressQueue * EgressQueue)) :=
  if negb (fd_initialized d) then Some (Returns (EGRESS_ERR_INVALID, None, d, ack, data))
  else if fd_consecutive_acks d >=? fd_ack_quota d then
    '(data_st, out, data') ← egress_queue_try_dequeue data;
    if bool_decide (data_st = EGRESS_OK) then Some (Returns (EGRESS_OK, out, set_consecutive d 0, ack, data'))
    else
      '(ack_st, out, ack') ← egress_queue_try_dequeue ack;
      if bool_decide (ack_st = EGRESS_OK) then Some (Returns (EGRESS_OK, out, d, ack', data'))
      else Some match fair_declined ack_st data_st with
                | Some st => Returns (st, None, d, ack', data')
                | None => Blocks
                end
  else
    '(ack_st, out, ack') ← egress_queue_try_dequeue ack;
    if bool_decide (ack_st = EGRESS_OK) then
      Some (Returns (EGRESS_OK, out, set_consecutive d (u32 (fd_consecutive_acks d + 1)), ack', data))
    else
      '(data_st, out, data') ← egress_queue_try_dequeue data;
      if bool_decide (data_st = EGRESS_OK) then Some (Returns (EGRESS_OK, out, set_consecutive d 0, ack', data'))
      else Some match fair_declined ack_st data_st with
                | Some st => Returns (st, None, d, ack', data')
                | None => Blocks
                end.

(** ** Slots outside the window hold no datagram *)

Abbreviation clean := (ring_clean (fun s => ep_datagram s = 0)).

(** ** The abstract queue: a list with a limit and a closing flag *)

Record eq_spec := EqSpec { sq_items : list EgressPacket; sq_cap : nat; sq_closed : bool }.

Inductive eq_op :=
  | ETry (pkt : EgressPacket)
  | ETimed (now : Z * Z) (clock : option (Z * Z)) (pkt : EgressPacket) (timeout_ms : Z)
  | EResume (rc : timedwait_rc) (clock : option (Z * Z)) (wait_start_ns : Z) (pkt : EgressPacket)
  | EDequeue
  | ETryDequeue
  | EShutdown.

(** A status with the packet handed out and the caller's packet afterwards, or a wait. *)
Inductive eq_res := EDone (st : EgressStatus) (out back : option EgressPacket) | EWaits.

Definition spec_put (s : eq_spec) (pkt : EgressPacket) : eq_res * eq_spec :=
  (EDone EGRESS_OK None (Some (moved pkt)),
   EqSpec (if ep_prefer_head pkt =? 0 then sq_items s ++ [pkt] else pkt :: sq_items s) (sq_cap s) (sq_closed s)).

Definition spec_refuse (s : eq_spec) (st : EgressStatus) (pkt : EgressPacket) : eq_res * eq_spec :=
  (EDone st None (Some pkt), s).

Definition eq_spec_step (s : eq_spec) (o : eq_op) : eq_res * eq_spec :=
  let full := (sq_cap s <=? length (sq_items s))%nat in
  match o with
  | ETry pkt =>
      if invalid_packet pkt then spec_refuse s EGRESS_ERR_INVALID pkt
      else if sq_closed s then spec_refuse s EGRESS_ERR_SHUTDOWN pkt
      else if full then spec_refuse s EGRESS_ERR_FULL pkt
      else spec_put s pkt
  | ETimed _ _ pkt timeout_ms =>
      if invalid_packet pkt || (timeout_ms =? 0) then spec_refuse s EGRESS_ERR_INVALID pkt
      else if sq_closed s then spec_refuse s EGRESS_ERR_SHUTDOWN pkt
      else if full then (EWaits, s)
      else spec_put s pkt
  | EResume RcTimedOut _ _ pkt => spec_refuse s EGRESS_ERR_TIMEOUT pkt
  | EResume RcOther _ _ pkt => spec_refuse s EGRESS_ERR_INVALID pkt
  | EResume _ _ _ pkt =>
      if sq_closed s then spec_refuse s EGRESS_ERR_SHUTDOWN pkt
      else if full then (EWaits, s)
      else spec_put s pkt
  | EDequeue =>
      match sq_items s with
      | [] => if sq_closed s then (EDone EGRESS_ERR_SHUTDOWN None None, s) else (EWaits, s)
      | p :: l => (EDone EGRESS_OK (Some p) None, EqSpec l (sq_cap s) (sq_closed s))
      end
  | ETryDequeue =>
      match sq_items s with
      | [] => (EDone (if sq_closed s then EGRESS_ERR_SHUTDOWN else EGRESS_ERR_EMPTY) None None, s)
      | p :: l => (EDone EGRESS_OK (Some p) None, EqSpec l (sq_cap s) (sq_closed s))
      end
  | EShutdown => (EDone EGRESS_OK None None, EqSpec (sq_items s) (sq_cap s) true)
  end.

Definition done_enqueue (x : EgressStatus * EgressQueue * EgressPacket * Z) : eq_res * EgressQueue :=
  let '(st, q', back, _) := x in (EDone st None (Some back), q').

(** The same step with the functions of the code. *)
Definition eq_step (q : EgressQueue) (o : eq_op) : option (eq_res * EgressQueue) :=
  match o with
  | ETry pkt => Some (done_enqueue (egress_queue_try_enqueue q pkt))
  | ETimed now clock pkt timeout_ms =>
      Some match egress_queue_timed_enqueue now clock q pkt timeout_ms with
           | inl x => done_enqueue x
           | inr _ => (EWaits, q)
           end
  | EResume rc clock start pkt =>
      Some match timed_enqueue_resume rc clock start q pkt with
           | inl x => done_enqueue x
           | inr _ => (EWaits, q)
           end
  | EDequeue =>
      res ← egress_queue_dequeue q;
      Some match res with Returns (st, out, q') => (EDone st out None, q') | Blocks => (EWaits, q) end
  | ETryDequeue => '(st, out, q') ← egress_queue_try_dequeue q; Some (EDone st out None, q')
  | EShutdown => Some (EDone EGRESS_OK None None, fst (egress_queue_shutdown q))
  end.

(** Only a call that passed the argument check waits, so a resumed call has a valid packet. *)
Definition eq_legal (o : eq_op) : bool :=
  match o with EResume _ _ _ pkt => negb (invalid_packet pkt) | _ => true end.

Fixpoint eq_run (q : EgressQueue) (ops : list eq_op) : option (list eq_res * EgressQueue) :=
  match ops with
  | [] => Some ([], q)
  | o :: ops' => '(res, q1) ← eq_step q o; '(rest, q2) ← eq_run q1 ops'; Some (res :: rest, q2)
  end.

Fixpoint eq_spec_run (s : eq_spec) (ops : list eq_op) : list eq_res * eq_spec :=
  match ops with
  | [] => ([], s)
  | o :: ops' =>
      let '(res, s1) := eq_spec_step s o in
      let '(rest, s2) := eq_spec_run s1 ops' in
      (res :: rest, s2)
  end.

(** ** The refinement *)

Definition queued (q : EgressQueue) : list EgressPacket := contents (eq_ring q).
Definition eq_abs (q : EgressQueue) : eq_spec := EqSpec (queued q) (r_capacity (eq_ring q)) (eq_shutdown q).

Record egress_ok (q : EgressQueue) : Prop := {
  eo_ring : ring_ok (eq_ring q);
  eo_live : eq_live q = true;
  eo_clean : clean (eq_ring q);
  eo_items : Forall (fun p => ep_datagram p <> 0) (queued q)
}.

Lemma queued_length q : egress_ok q -> length (queued q) = r_count (eq_ring q).
Proof. intros H. apply contents_length, (eo_ring _ H). Qed.

Lemma valid_datagram pkt : invalid_packet pkt = false -> ep_datagram pkt <> 0.
Proof. unfold invalid_packet. intros [H _]%orb_false_iff. by apply Z.eqb_neq. Qed.

Lemma enqueue_locked_refines q pkt waited wait_ns w :
  egress_ok q -> (length (queued q) < r_capacity (eq_ring q))%nat -> ep_datagram pkt <> 0 ->
  exists q', done_enqueue (enqueue_locked q pkt waited wait_ns, w) = (EDone EGRESS_OK None (Some (moved pkt)), q') /\
    spec_put (eq_abs q) pkt = (EDone EGRESS_OK None (Some (moved pkt)), eq_abs q') /\ egress_ok q'.
Proof.
  intros H Hlt Hd. rewrite queued_length in Hlt by done. pose proof (eo_ring _ H) as Hr. pose proof (eo_clean _ H) as Hcl.
  pose proof (eo_items _ H) as Hit. eexists. split; [reflexivity|]. unfold spec_put, eq_abs, queued in *.
  cbn [sq_items sq_cap sq_closed set_ring eq_ring eq_shutdown].
  destruct (ep_prefer_head pkt =? 0); rewrite ?put_tail_contents, ?put_head_contents by done; (split; [done|]).
  - split; [by apply put_tail_ok|apply (eo_live _ H)|by apply clean_put_tail|].
    unfold queued. cbn [set_ring eq_ring]. rewrite put_tail_contents by done. apply list.Forall_app. split; [done|by repeat constructor].
  - split; [by apply put_head_ok|apply (eo_live _ H)|by apply clean_put_head|].
    unfold queued. cbn [set_ring eq_ring]. rewrite put_head_contents by done. by constructor.
Qed.

Lemma egress_dequeue_spec q :
  egress_ok q ->
  match queued q with
  | [] => dequeue_locked q = Some (if eq_shutdown q then EGRESS_ERR_SHUTDOWN else EGRESS_ERR_EMPTY, None, q)
  | p :: l => exists q', dequeue_locked q = Some (EGRESS_OK, Some p, q') /\ egress_ok q' /\
                eq_abs q' = EqSpec l (r_capacity (eq_ring q)) (eq_shutdown q)
  end.
Proof.
  intros H. unfold dequeue_locked. rewrite <- queued_length by done. destruct (queued q) as [|p l] eqn:E; [done|].
  destruct (take_head_spec (Some ep_zero) (eq_ring q) p l (eo_ring _ H) E) as (r & Et & Hr & Hc & Hcap & _ & Hpos).
  cbn [length Nat.eqb]. rewrite Et. simpl. eexists. split; [done|].
  pose proof (eo_items _ H) as Hit. rewrite E in Hit. apply list.Forall_cons in Hit as [_ Hit].
  split; [|unfold eq_abs, queued; simpl; by rewrite Hc, Hcap].
  split; [done|apply (eo_live _ H)| |unfold queued; simpl; by rewrite Hc].
  simpl. by apply (clean_take_head (fun s => ep_datagram s = 0) ep_zero _ _ _ eq_refl (eo_ring _ H) Hpos (eo_clean _ H) Et).
Qed.

Lemma eq_step_refines q o :
  egress_ok q -> eq_legal o = true ->
  exists res q', eq_step q o = Some (res, q') /\ eq_spec_step (eq_abs q) o = (res, eq_abs q') /\ egress_ok q'.
Proof.
  intros H Hl. pose proof (queued_length q H) as Hq.
  assert (Hput : forall pkt waited wait_ns, (length (queued q) < r_capacity (eq_ring q))%nat -> ep_datagram pkt <> 0 ->
    exists res q', Some (done_enqueue (enqueue_locked q pkt waited wait_ns, eq_waiter q)) = Some (res, q') /\
      spec_put (eq_abs q) pkt = (res, eq_abs q') /\ egress_ok q').
  { intros pkt waited wait_ns Hlt Hd.
    destruct (enqueue_locked_refines q pkt waited wait_ns (eq_waiter q) H Hlt Hd) as (q' & E & Es & Hok).
    eexists _, q'. by rewrite E. }
  destruct o as [pkt|now clock pkt tmo|rc clock start pkt| | |]; cbn [eq_step eq_spec_step];
    change (sq_items (eq_abs q)) with (queued q); change (sq_cap (eq_abs q)) with (r_capacity (eq_ring q));
    change (sq_closed (eq_abs q)) with (eq_shutdown q).
  - unfold egress_queue_try_enqueue. rewrite <- Hq. destruct (invalid_packet pkt) eqn:Ei; [by eexists _, _|].
    destruct (eq_shutdown q); [by eexists _, _|].
    destruct (Nat.leb_spec (r_capacity (eq_ring q)) (length (queued q))); [by eexists _, _|].
    by apply Hput, valid_datagram.
  - unfold egress_queue_timed_enqueue. rewrite <- Hq. destruct (invalid_packet pkt) eqn:Ei; [by eexists _, _|].
    destruct (tmo =? 0); [by eexists _, _|]. cbn [orb]. destruct (eq_shutdown q); [by eexists _, _|].
    destruct (Nat.leb_spec (r_capacity (eq_ring q)) (length (queued q)));
      destruct (Nat.ltb_spec (length (queued q)) (r_capacity (eq_ring q))); [lia|by eexists _, _| |lia].
    by apply Hput, valid_datagram.
  - cbn [eq_legal] in Hl. apply negb_true_iff in Hl. unfold timed_enqueue_resume. rewrite <- Hq.
    destruct rc; try (by eexists _, _);
      (destruct (eq_shutdown q); [rewrite andb_false_r; by eexists _, _|]); rewrite andb_true_r;
      (destruct (Nat.leb_spec (r_capacity (eq_ring q)) (length (queued q))); [by eexists _, _|]);
      by apply Hput, valid_datagram.
  - unfold egress_queue_dequeue. rewrite <- Hq. pose proof (egress_dequeue_spec q H) as Hd.
    destruct (queued q) as [|p l]; simpl.
    + rewrite Hd. destruct (eq_shutdown q); by eexists _, _.
    + destruct Hd as (q' & E & Hok & Ha). rewrite E. simpl. eexists _, _. by rewrite Ha.
  - unfold egress_queue_try_dequeue. pose proof (egress_dequeue_spec q H) as Hd.
    destruct (queued q) as [|p l]; simpl.
    + rewrite Hd. by eexists _, _.
    + destruct Hd as (q' & E & Hok & Ha). rewrite E. simpl. eexists _, _. by rewrite Ha.
  - eexists _, _. split; [done|]. split; [done|]. by destruct H.
Qed.

Lemma eq_run_refines ops q :
  egress_ok q -> forallb eq_legal ops = true ->
  exists q', eq_run q ops = Some (fst (eq_spec_run (eq_abs q) ops), q') /\
    eq_abs q' = snd (eq_spec_run (eq_abs q) ops) /\ egress_ok q'.
Proof.
  revert q. induction ops as [|o ops IH]; intros q H Hl; [by exists q|].
  cbn [forallb eq_run eq_spec_run] in *. apply andb_true_iff in Hl as [Hl Hls].
  destruct (eq_step_refines q o H Hl) as (res & q1 & E & Es & Hok). rewrite E, Es. simpl.
  destruct (IH q1 Hok Hls) as (q2 & E2 & Ha & Hok2). rewrite E2. simpl.
  destruct (eq_spec_run (eq_abs q1) ops). by exists q2.
Qed.

Definition op_packet (o : eq_op) : list EgressPacket :=
  match o with ETry pkt | ETimed _ _ pkt _ | EResume _ _ _ pkt => [pkt] | _ => [] end.

(** The packet a call moved into the queue, and the one it handed out. *)
Definition taken_in (o : eq_op) (res : eq_res) : list EgressPacket :=
  match res with EDone EGRESS_OK _ _ => op_packet o | _ => [] end.

Definition handed_out (res : eq_res) : list EgressPacket :=
  match res with EDone _ out _ => option_list out | EWaits => [] end.

Fixpoint taken_in_all (ops : list eq_op) (rs : list eq_res) : list EgressPacket :=
  match ops, rs with
  | o :: ops', res :: rs' => taken_in o res ++ taken_in_all ops' rs'
  | _, _ => []
  end.

Lemma eq_spec_step_conserves s o res s' :
  eq_spec_step s o = (res, s') -> sq_items s ++ taken_in o res ≡ₚ handed_out res ++ sq_items s'.
Proof.
  assert (Hput : forall pkt, spec_put s pkt = (res, s') ->
    sq_items s ++ (match res with EDone EGRESS_OK _ _ => [pkt] | _ => [] end) ≡ₚ handed_out res ++ sq_items s').
  { intros pkt [= <- <-]. simpl. destruct (_ =? _); [done|]. symmetry. apply Permutation_cons_append. }
  destruct o as [pkt|now clock pkt tmo|rc clock start pkt| | |]; cbn [eq_spec_step taken_in op_packet]; intros E.
  3: destruct rc.
  1-6: repeat match type of E with context [if ?b then _ else _] => destruct b end;
    first [by apply Hput | unfold spec_refuse in E; injection E as <- <-; simpl; by rewrite ?app_nil_r].
  1-2: destruct (sq_items s) as [|p l] eqn:Ei; [destruct (sq_closed s)|]; injection E as <- <-; simpl;
    by rewrite ?Ei, ?app_nil_r.
  injection E as <- <-. simpl. by rewrite app_nil_r.
Qed.

Lemma eq_spec_run_conserves ops s rs s' :
  eq_spec_run s ops = (rs, s') -> sq_items s ++ taken_in_all ops rs ≡ₚ (rs ≫= handed_out) ++ sq_items s'.
Proof.
  revert s rs s'. induction ops as [|o ops IH]; intros s rs s' E; cbn [eq_spec_run] in E.
  { injection E as <- <-. simpl. by rewrite app_nil_r. }
  destruct (eq_spec_step s o) as [res s1] eqn:Es. destruct (eq_spec_run s1 ops) as [rest s2] eqn:Er. injection E as <- <-.
  cbn [taken_in_all]. rewrite bind_cons, <- app_assoc, app_assoc, (eq_spec_step_conserves _ _ _ _ Es), <- !app_assoc.
  by rewrite (IH _ _ _ Er).
Qed.

Lemma egress_init_ok cap q0 :
  (0 < cap)%nat -> exists q, egress_queue_init false false false false false false cap q0 = (EGRESS_OK, q) /\
    egress_ok q /\ eq_abs q = EqSpec [] cap false.
Proof.
  intros Hc. unfold egress_queue_init. destruct (Nat.eqb_spec cap 0); [lia|]. simpl. eexists. split; [done|].
  unfold eq_abs, queued. simpl. rewrite ring_init_contents. split; [|done].
  split; unfold queued; simpl; rewrite ?ring_init_contents; [by apply ring_init_ok|done| |constructor].
  intros k Hk. simpl in *. exists ep_zero. split; [|done]. apply lookup_replicate_2. apply Nat.mod_upper_bound. lia.
Qed.

(** C29: the send queue refines the bounded list with head preference, and loses nothing.  From
    [egress_queue_init] on, any sequence of enqueues (non-blocking, or timed with any waits and
    wake-ups), dequeues and shutdown stays inside the slot array, returns what the list returns
    and clears the caller's packet exactly on success.  The datagrams accepted are, as a
    multiset, those handed out and those [egress_queue_destroy] frees, although the destructor
    goes by the slots and not by the indices. *)
Theorem egress_queue_refines_list cap q0 ops :
  (0 < cap)%nat -> forallb eq_legal ops = true ->
  exists q rs q', egress_queue_init false false false false false false cap q0 = (EGRESS_OK, q) /\
    eq_run q ops = Some (rs, q') /\ eq_spec_run (EqSpec [] cap false) ops = (rs, eq_abs q') /\
    ep_datagram <$> taken_in_all ops rs ≡ₚ (ep_datagram <$> (rs ≫= handed_out)) ++ fst (egress_queue_destroy q').
Proof.
  intros Hc Hl. destruct (egress_init_ok cap q0 Hc) as (q & E & Hok & Ha).
  destruct (eq_run_refines ops q Hok Hl) as (q' & Er & Ha' & Hok'). rewrite Ha in Er, Ha'.
  destruct (eq_spec_run (EqSpec [] cap false) ops) as [rs s'] eqn:Es. simpl in Er, Ha'. subst s'.
  exists q, rs, q'. do 3 (split; [done|]). pose proof (eq_spec_run_conserves _ _ _ _ Es) as Hp. simpl in Hp.
  unfold egress_queue_destroy. rewrite (eo_live _ Hok'). cbn [fst].
  rewrite (clean_filter _ _ (eo_ring _ Hok') (eo_clean _ Hok') (eo_items _ Hok')), Hp, fmap_app. done.
Qed.

Definition sample_ep (n head : Z) : EgressPacket := mkEp n 10 1 2 3 [] 16 head.

Definition sample_eq_ops : list eq_op :=
  [ETry (sample_ep 1 0); ETry (sample_ep 2 1); ETry (sample_ep 3 0); ETimed (5, 6) (Some (5, 7)) (sample_ep 3 0) 20;
   EDequeue; EResume RcOk (Some (5, 9)) 5000000007 (sample_ep 3 0); EShutdown; ETry (sample_ep 4 0); ETryDequeue].

Lemma egress_queue_refines_list_witness :
  exists q rs q', egress_queue_init false false false false false false 2 eq_zero = (EGRESS_OK, q) /\
    eq_run q sample_eq_ops = Some (rs, q') /\ eq_spec_run (EqSpec [] 2 false) sample_eq_ops = (rs, eq_abs q') /\
    ep_datagram <$> taken_in_all sample_eq_ops rs ≡ₚ
      (ep_datagram <$> (rs ≫= handed_out)) ++ fst (egress_queue_destroy q').
Proof. apply (egress_queue_refines_list 2 eq_zero sample_eq_ops); [lia|reflexivity]. Defined.

Example sample_eq_run :
  fst (eq_spec_run (EqSpec [] 2 false) sample_eq_ops) =
  [EDone EGRESS_OK None (Some (moved (sample_ep 1 0))); EDone EGRESS_OK None (Some (moved (sample_ep 2 1)));
   EDone EGRESS_ERR_FULL None (Some (sample_ep 3 0)); EWaits; EDone EGRESS_OK (Some (sample_ep 2 1)) None;
   EDone EGRESS_OK None (Some (moved (sample_ep 3 0))); EDone EGRESS_OK None None;
   EDone EGRESS_ERR_SHUTDOWN None (Some (sample_ep 4 0)); EDone EGRESS_OK (Some (sample_ep 1 0)) None].
Proof. reflexivity. Qed.

(** ** Fairness of the dequeuer *)

(** The dequeuer between calls. *)
Definition fair_ok (d : EgressFairDequeuer) : Prop :=
  fd_initialized d = true /\ 0 < fd_ack_quota d < 2 ^ 32 /\ 0 <= fd_consecutive_acks d <= fd_ack_quota d.

(** With a data packet waiting, the data queue is served at the quota or when there is no
    acknowledgement, and an acknowledgement otherwise. *)
Lemma fair_dequeue_data_ready d ack data p l :
  fair_ok d -> egress_ok ack -> egress_ok data -> queued data = p :: l ->
  match queued ack with
  | a :: k =>
      if fd_consecutive_acks d >=? fd_ack_quota d then
        exists data', egress_fair_dequeue d ack data = Some (Returns (EGRESS_OK, Some p, set_consecutive d 0, ack, data')) /\
          queued data' = l
      else
        exists ack', egress_fair_dequeue d ack data =
          Some (Returns (EGRESS_OK, Some a, set_consecutive d (fd_consecutive_acks d + 1), ack', data)) /\ queued ack' = k
  | [] => exists data', egress_fair_dequeue d ack data =
            Some (Returns (EGRESS_OK, Some p, set_consecutive d 0, ack, data')) /\ queued data' = l
  end.
Proof.
  intros (Hi & Hq & Hc) Ha Hd Ed. unfold egress_fair_dequeue, egress_queue_try_dequeue. rewrite Hi. cbn [negb].
  pose proof (egress_dequeue_spec ack Ha) as Sa. pose proof (egress_dequeue_spec data Hd) as Sd. rewrite Ed in Sd.
  destruct Sd as (data' & Edq & _ & Hdata'). apply (f_equal sq_items) in Hdata'. simpl in Hdata'.
  destruct (queued ack) as [|a k].
  - rewrite Edq, Sa. destruct (_ >=? _); simpl; [by eexists|]. by destruct (eq_shutdown ack); simpl; eexists.
  - destruct Sa as (ack' & Eaq & _ & Hack'). apply (f_equal sq_items) in Hack'. simpl in Hack'.
    rewrite Edq, Eaq. rewrite Z.geb_leb. destruct (Z.leb_spec (fd_ack_quota d) (fd_consecutive_acks d)); simpl; eexists; [done|].
    split; [|done]. unfold u32. rewrite uwrap_small; [done|]. unfold in_range. lia.
Qed.

(** Calls in sequence, each on the queues as the other threads left them. *)
Fixpoint fair_calls (d : EgressFairDequeuer) (envs : list (EgressQueue * EgressQueue))
  : option (list (EgressStatus * option EgressPacket * EgressQueue * EgressQueue)) :=
  match envs with
  | [] => Some []
  | (ack, data) :: envs' =>
      res ← egress_fair_dequeue d ack data;
      match res with
      | Blocks => None
      | Returns (st, out, d', ack', data') =>
          rest ← fair_calls d' envs';
          Some ((st, out, ack', data') :: rest)
      end
  end.

Definition data_waits (env : EgressQueue * EgressQueue) : Prop :=
  egress_ok (fst env) /\ egress_ok (snd env) /\ queued (snd env) <> [].

(** A call that served the data queue. *)
Definition serves_data (env : EgressQueue * EgressQueue)
  (res : EgressStatus * option EgressPacket * EgressQueue * EgressQueue) : Prop :=
  exists p l data', queued (snd env) = p :: l /\ res = (EGRESS_OK, Some p, fst env, data') /\ queued data' = l.

Lemma fair_calls_return d envs :
  fair_ok d -> Forall data_waits envs ->
  exists rs, fair_calls d envs = Some rs /\ length rs = length envs /\ Forall (fun r => fst (fst (fst r)) = EGRESS_OK) rs.
Proof.
  intros Hd He. revert d Hd. induction He as [|[ack data] envs (Ha & Hq & Hne) _ IH]; intros d Hd; [by exists []|].
  cbn [fst snd] in *. destruct (queued data) as [|p l] eqn:Ed; [done|].
  pose proof (fair_dequeue_data_ready d ack data p l Hd Ha Hq Ed) as Hs. destruct Hd as (Hi & Hquo & Hc).
  assert (Hnext : forall n, 0 <= n <= fd_ack_quota d -> exists rs, fair_calls (set_consecutive d n) envs = Some rs /\
            length rs = length envs /\ Forall (fun r => fst (fst (fst r)) = EGRESS_OK) rs)
    by (intros n Hn; apply IH; by split).
  cbn [fair_calls]. destruct (queued ack) as [|a k]; [|rewrite Z.geb_leb in Hs; destruct (Z.leb_spec (fd_ack_quota d) (fd_consecutive_acks d))];
    destruct Hs as (q' & E & _); rewrite E; simpl;
    match goal with |- context [fair_calls (set_consecutive d ?n) envs] => destruct (Hnext n) as (rs & Er & Hlen & Hok); [lia|] end;
    rewrite Er; simpl; eexists; (split; [done|]); simpl; rewrite Hlen; (split; [done|]); by constructor.
Qed.

Lemma fair_calls_serve_data d envs rs :
  fair_ok d -> Forall data_waits envs -> fd_ack_quota d - fd_consecutive_acks d < Z.of_nat (length envs) ->
  fair_calls d envs = Some rs -> exists i env res, envs !! i = Some env /\ rs !! i = Some res /\ serves_data env res.
Proof.
  intros Hd He. revert d rs Hd. induction He as [|[ack data] envs (Ha & Hq & Hne) _ IH]; intros d rs Hd Hlen E.
  { destruct Hd as (_ & _ & Hc). simpl in Hlen. lia. }
  cbn [fst snd] in *. destruct (queued data) as [|p l] eqn:Ed; [done|].
  pose proof (fair_dequeue_data_ready d ack data p l Hd Ha Hq Ed) as Hs. cbn [fair_calls] in E.
  assert (Hhere : (exists data', egress_fair_dequeue d ack data =
      Some (Returns (EGRESS_OK, Some p, set_consecutive d 0, ack, data')) /\ queued data' = l) ->
    exists i env res, ((ack, data) :: envs) !! i = Some env /\ rs !! i = Some res /\ serves_data env res).
  { intros (data' & E' & Hl). rewrite E' in E. simpl in E. destruct (fair_calls _ envs) as [rest|]; [|done].
    injection E as <-. exists 0%nat, (ack, data), (EGRESS_OK, Some p, ack, data'). split; [done|]. split; [done|].
    by exists p, l, data'. }
  destruct (queued ack) as [|a k]; [by apply Hhere|]. rewrite Z.geb_leb in Hs.
  destruct (Z.leb_spec (fd_ack_quota d) (fd_consecutive_acks d)); [by apply Hhere|].
  destruct Hs as (ack' & E' & _). rewrite E' in E. simpl in E.
  destruct (fair_calls (set_consecutive d _) envs) as [rest|] eqn:Er; [|done]. injection E as <-.
  destruct Hd as (Hi & Hquo & Hc).
  destruct (IH (set_consecutive d (fd_consecutive_acks d + 1)) rest) as (i & env & res & E1 & E2 & E3);
    [split; [done|]; split; [done|simpl; lia]|simpl in *; lia|done|]. by exists (S i), env, res.
Qed.

(** acknowledgements cannot starve data.  In any [ack_quota + 1] consecutive calls of
    [egress_fair_dequeue] during which a data packet is waiting, whatever the other threads do to
    the queues in between, every call returns a packet at once and at least one of them is the
    oldest packet of the data queue. *)
Theorem fair_dequeue_serves_data d envs :
  fair_ok d -> Forall data_waits envs -> Z.of_nat (length envs) = fd_ack_quota d + 1 ->
  exists rs, fair_calls d envs = Some rs /\ Forall (fun r => fst (fst (fst r)) = EGRESS_OK) rs /\
    exists i env res, envs !! i = Some env /\ rs !! i = Some res /\ serves_data env res.
Proof.
  intros Hd He Hl. destruct (fair_calls_return d envs Hd He) as (rs & E & _ & Hok).
  exists rs. split; [done|]. split; [done|]. apply (fair_calls_serve_data d envs rs Hd He); [|done].
  destruct Hd as (_ & _ & Hc). lia.
Qed.

(** Queues with one packet each, and a quota of one acknowledgement. *)
Definition sample_q (n : Z) : EgressQueue :=
  snd (fst (enqueue_locked (snd (egress_queue_init false false false false false false 2 eq_zero)) (sample_ep n 0) false 0)).

Lemma sample_q_ok n : n <> 0 -> egress_ok (sample_q n).
Proof.
  intros Hn. split; [unfold ring_ok; simpl; lia|done| |].
  - intros k Hk. simpl in Hk. assert (k = 1%nat) as -> by lia. by exists ep_zero.
  - unfold queued, contents. simpl. by repeat constructor.
Qed.

Lemma fair_dequeue_serves_data_witness :
  exists rs, fair_calls (mkFair 0 1 0 true) [(sample_q 1, sample_q 2); (sample_q 3, sample_q 2)] = Some rs /\
    Forall (fun r => fst (fst (fst r)) = EGRESS_OK) rs /\
    exists i env res, [(sample_q 1, sample_q 2); (sample_q 3, sample_q 2)] !! i = Some env /\ rs !! i = Some res /\
      serves_data env res.
Proof.
  apply (fair_dequeue_serves_data (mkFair 0 1 0 true) [(sample_q 1, sample_q 2); (sample_q 3, sample_q 2)]).
  - split; [reflexivity|]. simpl. lia.
  - repeat apply list.Forall_cons_2; [| |apply list.Forall_nil_2];
      (split; [by apply sample_q_ok|]; split; [by apply sample_q_ok|done]).
  - reflexivity.
Defined.

(** ** The dequeuer among concurrent producers

    The dequeuer reads the generation, tries the two queues one after the other and waits for
    the generation to change; a producer changes a queue under its mutex and notifies after it
    released it.  [fs_pending] counts the producers in between, [fs_notified] is the number of
    notifications so far. *)

Inductive fpc := FStart | FObserved (g : Z) | FDeclined (g : Z) (first_is_data : bool) (st : EgressStatus) | FWait (g : Z).

Record fair_state := mkFs {
  fs_ack : EgressQueue;
  fs_data : EgressQueue;
  fs_d : EgressFairDequeuer;
  fs_pc : fpc;
  fs_pending : nat;
  fs_notified : Z
}.

Definition fs_queue (s : fair_state) (is_data : bool) : EgressQueue := if is_data then fs_data s else fs_ack s.

Definition set_queue (s : fair_state) (is_data : bool) (q : EgressQueue) : fair_state :=
  if is_data then mkFs (fs_ack s) q (fs_d s) (fs_pc s) (fs_pending s) (fs_notified s)
  else mkFs q (fs_data s) (fs_d s) (fs_pc s) (fs_pending s) (fs_notified s).

Definition set_pc (s : fair_state) (d : EgressFairDequeuer) (pc : fpc) : fair_state :=
  mkFs (fs_ack s) (fs_data s) d pc (fs_pending s) (fs_notified s).

(** A producer's critical section: its result and the waiter it goes on to notify. *)
Definition producer_call (q : EgressQueue) (o : eq_op) : option (EgressQueue * Z) :=
  match o with
  | ETry pkt => let '(_, q', _, w) := egress_queue_try_enqueue q pkt in Some (q', w)
  | ETimed now clock pkt timeout_ms =>
      match egress_queue_timed_enqueue now clock q pkt timeout_ms with
      | inl (_, q', _, w) => Some (q', w)
      | inr _ => Some (q, 0)
      end
  | EResume rc clock start pkt =>
      match timed_enqueue_resume rc clock start q pkt with
      | inl (_, q', _, w) => Some (q', w)
      | inr _ => Some (q, 0)
      end
  | EShutdown => Some (egress_queue_shutdown q)
  | EDequeue | ETryDequeue => None
  end.

(** What a successful try does to the burst counter. *)
Definition fair_count (d : EgressFairDequeuer) (is_data : bool) (at_quota : bool) : EgressFairDequeuer :=
  if is_data then set_consecutive d 0
  else if at_quota then d else set_consecutive d (u32 (fd_consecutive_acks d + 1)).

(** One step of the dequeuer; [Blocks] is the wait for another generation. *)
Definition fair_step (s : fair_state) : option (outcome fair_state) :=
  let d := fs_d s in
  match fs_pc s with
  | FStart => Some (Returns (set_pc s d (FObserved (fd_generation d))))
  | FObserved g =>
      let at_quota := fd_consecutive_acks d >=? fd_ack_quota d in
      '(st, _, q') ← egress_queue_try_dequeue (fs_queue s at_quota);
      let s' := set_queue s at_quota q' in
      Some (Returns (if bool_decide (st = EGRESS_OK) then set_pc s' (fair_count d at_quota at_quota) FStart
                     else set_pc s' d (FDeclined g at_quota st)))
  | FDeclined g first_is_data st1 =>
      '(st2, _, q') ← egress_queue_try_dequeue (fs_queue s (negb first_is_data));
      let s' := set_queue s (negb first_is_data) q' in
      Some (Returns (
        if bool_decide (st2 = EGRESS_OK) then set_pc s' (fair_count d (negb first_is_data) first_is_data) FStart
        else match (if first_is_data then fair_declined st2 st1 else fair_declined st1 st2) with
             | Some _ => set_pc s' d FStart
             | None => set_pc s' d (FWait g)
             end))
  | FWait g => if g =? fd_generation d then Some Blocks else Some (Returns (set_pc s d FStart))
  end.

Inductive fstep : fair_state -> fair_state -> Prop :=
  | f_produce s is_data o q' w :
      eq_legal o = true -> producer_call (fs_queue s is_data) o = Some (q', w) ->
      fstep s (let s' := set_queue s is_data q' in
               mkFs (fs_ack s') (fs_data s') (fs_d s') (fs_pc s')
                 (if w =? 0 then fs_pending s' else fs_pending s' + 1) (fs_notified s'))
  | f_notify s :
      (0 < fs_pending s)%nat ->
      fstep s (mkFs (fs_ack s) (fs_data s) (waiter_notify (fs_d s)) (fs_pc s) (fs_pending s - 1) (fs_notified s + 1))
  | f_consume s s' : fair_step s = Some (Returns s') -> fstep s s'.

(** What is reachable once [egress_fair_dequeuer_init] has installed the waiter. *)
Inductive freach : fair_state -> Prop :=
  | f_boot addr ack data quota d0 d ack' data' :
      egress_ok ack -> egress_ok data -> addr <> 0 -> 0 < quota < 2 ^ 32 ->
      egress_fair_dequeuer_init false false false addr ack data quota d0 = (EGRESS_OK, d, ack', data') ->
      freach (mkFs ack' data' d FStart 0 0)
  | f_next s s' : freach s -> fstep s s' -> freach s'.

Lemma producer_call_spec q o q' w :
  egress_ok q -> eq_legal o = true -> producer_call q o = Some (q', w) ->
  egress_ok q' /\ eq_waiter q' = eq_waiter q /\ (q' = q \/ w = eq_waiter q).
Proof.
  intros H Hl E. assert (Hok : egress_ok q').
  { destruct (eq_step_refines q o H Hl) as (res & q1 & E1 & _ & Hok). enough (q' = q1) as -> by done.
    destruct o; cbn [producer_call eq_step] in *; try done.
    - destruct (egress_queue_try_enqueue q pkt) as [[[? ?] ?] ?]. simpl in E1. congruence.
    - destruct (egress_queue_timed_enqueue _ _ q pkt timeout_ms) as [[[[? ?] ?] ?]|]; simpl in E1; congruence.
    - destruct (timed_enqueue_resume _ _ _ q pkt) as [[[[? ?] ?] ?]|]; simpl in E1; congruence.
    - destruct (egress_queue_shutdown q). simpl in E1. congruence. }
  split; [done|]. destruct o; cbn [producer_call] in E; try done.
  - unfold egress_queue_try_enqueue, enqueue_locked in E. repeat case_match; simplify_eq; auto.
  - unfold egress_queue_timed_enqueue, enqueue_locked in E. repeat case_match; simplify_eq; auto.
  - unfold timed_enqueue_resume, enqueue_locked in E. repeat case_match; simplify_eq; auto.
  - injection E as <- <-. auto.
Qed.

(** A queue that still answers a try the way it did. *)
Definition answers (q : EgressQueue) (st : EgressStatus) : Prop :=
  queued q = [] /\ st = if eq_shutdown q then EGRESS_ERR_SHUTDOWN else EGRESS_ERR_EMPTY.

(** Something has been announced, or is about to be, since generation [g]. *)
Definition announced (s : fair_state) (g : Z) : Prop := g < fs_notified s \/ (0 < fs_pending s)%nat.

Definition fpc_ok (s : fair_state) : Prop :=
  match fs_pc s with
  | FStart => True
  | FObserved g => g <= fs_notified s
  | FDeclined g b st => g <= fs_notified s /\ (answers (fs_queue s b) st \/ announced s g)
  | FWait g => g <= fs_notified s /\
      (announced s g \/ exists a b, answers (fs_ack s) a /\ answers (fs_data s) b /\ fair_declined a b = None)
  end.

Record fair_inv (s : fair_state) : Prop := {
  fi_ack : egress_ok (fs_ack s) /\ eq_waiter (fs_ack s) <> 0;
  fi_data : egress_ok (fs_data s) /\ eq_waiter (fs_data s) <> 0;
  fi_generation : fd_generation (fs_d s) = u64 (fs_notified s);
  fi_range : 0 <= fs_notified s;
  fi_pc : fpc_ok s
}.

Lemma fi_queue s b : fair_inv s -> egress_ok (fs_queue s b) /\ eq_waiter (fs_queue s b) <> 0.
Proof. intros H. destruct b; [apply (fi_data _ H)|apply (fi_ack _ H)]. Qed.

Lemma dequeue_keeps_waiter q st out q' : dequeue_locked q = Some (st, out, q') -> eq_waiter q' = eq_waiter q.
Proof.
  unfold dequeue_locked. destruct (_ =? _)%nat; [by intros [= _ _ <-]|].
  destruct (take_head _ _) as [[p r]|]; [|done]. by intros [= _ _ <-].
Qed.

(** A try: a packet comes out, or the queue is unchanged and answers this way. *)
Lemma egress_try_cases q :
  egress_ok q -> exists st out q', egress_queue_try_dequeue q = Some (st, out, q') /\ egress_ok q' /\
    eq_waiter q' = eq_waiter q /\ (st = EGRESS_OK \/ st <> EGRESS_OK /\ q' = q /\ answers q st).
Proof.
  intros H. unfold egress_queue_try_dequeue. pose proof (egress_dequeue_spec q H) as Hd.
  destruct (queued q) as [|p l] eqn:Eq.
  - eexists _, _, _. split; [exact Hd|]. split; [done|]. split; [done|]. right.
    split; [by destruct (eq_shutdown q)|]. by split; [|split].
  - destruct Hd as (q' & E & Hok & _). eexists _, _, q'. split; [exact E|]. split; [done|].
    split; [by eapply dequeue_keeps_waiter|by left].
Qed.

Lemma set_queue_other s b q : fs_queue (set_queue s b q) (negb b) = fs_queue s (negb b).
Proof. by destruct b. Qed.

Lemma set_queue_same s b : set_queue s b (fs_queue s b) = s.
Proof. by destruct b, s. Qed.

(** Replacing one queue by a well-formed one with the same waiter. *)
Lemma fair_inv_queue s b q d pc :
  fair_inv s -> egress_ok q -> eq_waiter q <> 0 -> fd_generation d = fd_generation (fs_d s) ->
  fpc_ok (set_pc (set_queue s b q) d pc) -> fair_inv (set_pc (set_queue s b q) d pc).
Proof.
  intros H Hq Hw Hd Hpc. destruct H as [Ha Hda Hg Hr _]. destruct b; split; simpl in *; try done; congruence.
Qed.

Lemma fair_step_inv s s' :
  fs_notified s < 2 ^ 64 -> fair_inv s -> fair_step s = Some (Returns s') ->
  fair_inv s' /\ fs_notified s' = fs_notified s.
Proof.
  intros Hlt H E. pose proof (fi_pc _ H) as Hpc. unfold fair_step, fpc_ok in *.
  destruct (fs_pc s) as [|g|g b st|g] eqn:Epc.
  - injection E as <-. split; [|done]. destruct H as [Ha Hd Hg Hr _]. split; try done. unfold fpc_ok. simpl.
    rewrite Hg, u64_small; [done|]. unfold in_range. lia.
  - destruct (egress_try_cases (fs_queue s (fd_consecutive_acks (fs_d s) >=? fd_ack_quota (fs_d s)))) as (st & out & q' & Et & Hok & Hw & Hcase);
      [by apply fi_queue|]. set (b := _ >=? _) in *. destruct (fi_queue s b H) as [_ Hwq]. rewrite Et in E. simpl in E.
    injection E as <-. destruct Hcase as [->|(Hne & -> & Hans)].
    + rewrite bool_decide_true by done. split; [|by destruct b].
      apply fair_inv_queue; [done|done|congruence|by destruct b|done].
    + rewrite bool_decide_false by done. split; [|by destruct b].
      apply fair_inv_queue; [done|done|congruence|done|]. unfold fpc_ok. cbn [set_pc fs_pc].
      rewrite set_queue_same. split; [by destruct s|]. left. by destruct b.
  - destruct Hpc as [Hle Hpc]. destruct (egress_try_cases (fs_queue s (negb b))) as (st2 & out & q' & Et & Hok & Hw & Hcase);
      [by apply fi_queue|]. destruct (fi_queue s (negb b) H) as [_ Hwq]. rewrite Et in E. simpl in E.
    injection E as <-. destruct Hcase as [->|(Hne & -> & Hans)].
    + rewrite bool_decide_true by done. split; [|by destruct b].
      apply fair_inv_queue; [done|done|congruence|by destruct b|done].
    + rewrite bool_decide_false by done. destruct (if b then _ else _) eqn:Ef.
      * split; [|by destruct b]. apply fair_inv_queue; [done|done|congruence|done|done].
      * split; [|by destruct b]. apply fair_inv_queue; [done|done|congruence|done|]. unfold fpc_ok. cbn [set_pc fs_pc].
        rewrite set_queue_same. split; [done|]. destruct Hpc as [Hpc|Hpc]; [|by left]. right. destruct b; simpl in *; eauto.
  - destruct (g =? _); [done|]. injection E as <-. split; [|done]. destruct H as [Ha Hd Hg Hr _]. by split.
Qed.

Lemma fpc_ok_announced s s' :
  fpc_ok s -> fs_pc s' = fs_pc s -> fs_notified s <= fs_notified s' -> (forall g, g <= fs_notified s -> announced s' g) ->
  fpc_ok s'.
Proof.
  unfold fpc_ok. intros H -> Hle Ha. destruct (fs_pc s); [done|lia| |]; (split; [lia|]).
  - right. apply Ha. lia.
  - left. apply Ha. lia.
Qed.

Lemma fstep_inv s s' :
  fs_notified s' < 2 ^ 64 -> (fs_notified s < 2 ^ 64 -> fair_inv s) -> fstep s s' ->
  fair_inv s' /\ fs_notified s <= fs_notified s'.
Proof.
  intros Hlt Hs Hstep. destruct Hstep as [s b o q' w Hl E|s Hp|s s' E].
  - assert (Hn : fs_notified (set_queue s b q') = fs_notified s) by (by destruct b). simpl in *. rewrite Hn in *.
    specialize (Hs Hlt). split; [|done]. destruct (fi_queue s b Hs) as [Hok Hw].
    destruct (producer_call_spec _ _ _ _ Hok Hl E) as (Hok' & Hw' & Hcase).
    destruct (Z.eqb_spec w 0) as [->|Hw0].
    + destruct Hcase as [->|Hw1]; [|congruence]. rewrite set_queue_same. by destruct s.
    + destruct Hs as [Ha Hd Hg Hr Hpc]. destruct b; split; simpl in *; try done; try congruence;
        try (by split; [|rewrite Hw']);
        (apply (fpc_ok_announced s); [done|done|simpl; lia|]; intros g _; right; simpl; lia).
  - simpl in *. specialize (Hs ltac:(lia)). destruct Hs as [Ha Hd Hg Hr Hpc]. split; [|lia]. split; simpl; [done|done| |lia|].
    + rewrite Hg. rewrite (u64_small (fs_notified s)) by (unfold in_range; lia). done.
    + apply (fpc_ok_announced s); [done|done|simpl; lia|]. intros g Hle. left. simpl. lia.
  - destruct (decide (fs_notified s < 2 ^ 64)) as [Hl|Hl].
    + destruct (fair_step_inv s s' Hl (Hs Hl) E) as [Hi He]. split; [done|lia].
    + exfalso. enough (fs_notified s' = fs_notified s) by lia. clear -E. unfold fair_step in E.
      destruct (fs_pc s); [by injection E as <-| | |case_match; [done|by injection E as <-]].
      * destruct (egress_queue_try_dequeue _) as [[[? ?] ?]|]; [|done]. simpl in E. injection E as <-.
        by destruct (bool_decide _), (_ >=? _).
      * destruct (egress_queue_try_dequeue _) as [[[? ?] ?]|]; [|done]. simpl in E. injection E as <-.
        destruct (bool_decide _); [by destruct first_is_data|]. destruct (if first_is_data then _ else _); by destruct first_is_data.
Qed.

Lemma freach_inv s : freach s -> fs_notified s < 2 ^ 64 -> fair_inv s.
Proof.
  induction 1 as [addr ack data quota d0 d ack' data' Ha Hd Haddr Hq E|s s' _ IH Hstep]; intros Hlt.
  - unfold egress_fair_dequeuer_init in E. destruct (Z.eqb_spec quota 0); [done|]. simpl in E.
    injection E as <- <- <-. split; simpl; try done; split; (by destruct Ha) || (by destruct Hd) || done.
  - by apply (fstep_inv s s').
Qed.

(** C26: the dequeuer misses no wake-up.  If it waits for a new generation although one of the
    queues holds a packet, or both have been shut down, then a producer that already released
    the queue's mutex has yet to notify it; that notification takes it out of its wait.  (Fewer
    than [2^64] notifications, so the generation has not come round.) *)
Theorem fair_dequeuer_no_lost_wakeup s g :
  freach s -> fs_notified s < 2 ^ 64 - 1 -> fs_pc s = FWait g -> fair_step s = Some Blocks ->
  (queued (fs_ack s) <> [] \/ queued (fs_data s) <> [] \/
   (eq_shutdown (fs_ack s) = true /\ eq_shutdown (fs_data s) = true)) ->
  (0 < fs_pending s)%nat /\
  exists s' s'', fstep s s' /\ fair_step s' = Some (Returns s'') /\ fs_pc s'' = FStart /\
    fs_ack s'' = fs_ack s /\ fs_data s'' = fs_data s.
Proof.
  intros Hr Hlt Hpc Hb Hwork. pose proof (freach_inv s Hr ltac:(lia)) as H. pose proof (fi_pc _ H) as Hp.
  unfold fpc_ok in Hp. rewrite Hpc in Hp. unfold fair_step in Hb. rewrite Hpc in Hb.
  destruct (Z.eqb_spec g (fd_generation (fs_d s))) as [Eg|]; [|done].
  rewrite (fi_generation _ H), u64_small in Eg by (unfold in_range; pose proof (fi_range _ H); lia).
  assert (Hpos : (0 < fs_pending s)%nat).
  { destruct Hp as [_ [[?|?]|(a & b & [Ha1 Ha2] & [Hb1 Hb2] & Hf)]]; [lia|done|]. exfalso.
    destruct Hwork as [?|[?|[E1 E2]]]; [done|done|]. rewrite E1 in Ha2. rewrite E2 in Hb2. subst. done. }
  split; [done|]. eexists _, _. split; [by apply f_notify|]. unfold fair_step. cbn [fs_pc fs_d waiter_notify fd_generation].
  rewrite Hpc, (fi_generation _ H). pose proof (fi_range _ H).
  rewrite (u64_small (fs_notified s)), u64_small by (unfold in_range; lia).
  destruct (Z.eqb_spec g (fs_notified s + 1)); [lia|]. split; [done|]. done.
Qed.

(** The dequeuer finds both queues empty and waits; a data packet arrives and its producer has
    not notified yet. *)
Definition sample_empty : EgressQueue := snd (egress_queue_init false false false false false false 2 eq_zero).

Definition sample_boot : fair_state :=
  let '(_, d, ack, data) := egress_fair_dequeuer_init false false false 64 sample_empty sample_empty 3 fd_zero in
  mkFs ack data d FStart 0 0.

Definition consume (s : fair_state) : fair_state :=
  match fair_step s with Some (Returns s') => s' | _ => s end.

Definition sample_waiting : fair_state := consume (consume (consume sample_boot)).

Definition sample_arrived : fair_state :=
  match producer_call (fs_data sample_waiting) (ETry (sample_ep 9 0)) with
  | Some (q', _) => mkFs (fs_ack sample_waiting) q' (fs_d sample_waiting) (fs_pc sample_waiting) 1 0
  | None => sample_waiting
  end.

Lemma sample_empty_ok : egress_ok sample_empty.
Proof. destruct (egress_init_ok 2 eq_zero) as (q & E & Hok & _); [lia|]. unfold sample_empty. by rewrite E. Qed.

Lemma sample_arrived_reach : freach sample_arrived.
Proof.
  assert (H0 : freach sample_boot).
  { apply (f_boot 64 sample_empty sample_empty 3 fd_zero); [apply sample_empty_ok|apply sample_empty_ok|done|lia|reflexivity]. }
  assert (Hw : freach sample_waiting).
  { apply (f_next (consume (consume sample_boot))); [|apply f_consume; reflexivity].
    apply (f_next (consume sample_boot)); [|apply f_consume; reflexivity].
    apply (f_next sample_boot); [exact H0|apply f_consume; reflexivity]. }
  apply (f_next sample_waiting); [done|]. exact (f_produce sample_waiting true (ETry (sample_ep 9 0)) _ _ eq_refl eq_refl).
Qed.

Lemma fair_dequeuer_no_lost_wakeup_witness :
  (0 < fs_pending sample_arrived)%nat /\
  exists s' s'', fstep sample_arrived s' /\ fair_step s' = Some (Returns s'') /\ fs_pc s'' = FStart /\
    fs_ack s'' = fs_ack sample_arrived /\ fs_data s'' = fs_data sample_arrived.
Proof.
  apply (fair_dequeuer_no_lost_wakeup sample_arrived 0).
  - exact sample_arrived_reach.
  - reflexivity.
  - reflexivity.
  - reflexivity.
  - right. left. discriminate.
Defined.
