(* ===== verification/RelayDeferred.v ===== *)
(** * The relay's per-flow backlog: src/apps/wire_relay/relay_deferred.c

    The hub keeps one ring per active flow in a small open-addressed table, a bit mask of the
    rings that hold packets, and a round-robin cursor with a quota.  Every critical section of
    the mutex is one function.  Datagram addresses are [Z] ([0] is NULL); what a call passes to
    the free hook is part of its result. *)

From S2P Require Import Prelude Ring PktQueue.

Local Open Scope Z_scope.

Definition RELAY_DEFERRED_QUOTA : nat := 8.
Definition RELAY_MAX_ACTIVE_FLOWS_LIMIT : nat := 64.

Record RelayDeferredPacket := mkDp {
  dp_datagram : Z;
  dp_len : Z;
  dp_flow_id : Z;
  dp_enqueue_ns : Z;
  dp_prefer_head : Z
}.

Definition packet_clear : RelayDeferredPacket := mkDp 0 0 0 0 0.

Inductive RelayDeferredStatus :=
  | RELAY_DEFERRED_OK | RELAY_DEFERRED_ERR_INVALID | RELAY_DEFERRED_ERR_ALLOC
  | RELAY_DEFERRED_ERR_FULL_FLOW | RELAY_DEFERRED_ERR_FULL_TOTAL | RELAY_DEFERRED_ERR_TABLE_FULL
  | RELAY_DEFERRED_ERR_EMPTY | RELAY_DEFERRED_ERR_SHUTDOWN.

#[export] Instance RelayDeferredStatus_eq_dec : EqDecision RelayDeferredStatus.
Proof. solve_decision. Defined.

Record RelayDeferredHubConfig := mkDcfg {
  max_active_flows : nat;
  per_flow_capacity : nat;
  total_capacity : nat
}.

Record RelayDeferredHubStats := mkDst {
  drop_overflow_flow : Z;
  drop_overflow_total : Z;
  drop_table_full : Z;
  enqueue_ok : Z;
  dequeue_ok : Z;
  high_watermark : Z
}.

Definition ds_zero : RelayDeferredHubStats := mkDst 0 0 0 0 0 0.

(** [ring], [capacity], [head], [tail] and [count] of the slot are the ring. *)
Record RelayDeferredSlot := mkSlot {
  in_use : bool;
  wire_flow_id : Z;
  slot_ring : ring RelayDeferredPacket;
  slot_drop_overflow_flow : Z
}.

Definition slot_zero : RelayDeferredSlot := mkSlot false 0 (Ring [] 0 0 0 0) 0.

Record RelayDeferredHub := mkHub {
  hub_config : RelayDeferredHubConfig;
  slots : list RelayDeferredSlot;
  total_count : nat;
  active_bits : Z;
  rr_cursor : nat;
  rr_sticky_valid : bool;
  rr_sticky_slot : nat;
  rr_quota_left : nat;
  wake_gen : Z;
  hub_shutdown : bool;
  mu_inited : bool;
  cv_inited : bool;
  hub_stats : RelayDeferredHubStats;
  hub_packet_free : Z;
  hub_packet_free_ctx : Z
}.

Definition hub_zero : RelayDeferredHub :=
  mkHub (mkDcfg 0 0 0) [] 0 0 0 false 0 0 0 false false false ds_zero 0 0.

(** ** Assignments to fields *)

Definition set_slots (ss : list RelayDeferredSlot) (h : RelayDeferredHub) : RelayDeferredHub :=
  mkHub (hub_config h) ss (total_count h) (active_bits h) (rr_cursor h) (rr_sticky_valid h)
    (rr_sticky_slot h) (rr_quota_left h) (wake_gen h) (hub_shutdown h) (mu_inited h) (cv_inited h)
    (hub_stats h) (hub_packet_free h) (hub_packet_free_ctx h).
Definition set_total (n : nat) (h : RelayDeferredHub) : RelayDeferredHub :=
  mkHub (hub_config h) (slots h) n (active_bits h) (rr_cursor h) (rr_sticky_valid h)
    (rr_sticky_slot h) (rr_quota_left h) (wake_gen h) (hub_shutdown h) (mu_inited h) (cv_inited h)
    (hub_stats h) (hub_packet_free h) (hub_packet_free_ctx h).
Definition set_active_bits (bits : Z) (h : RelayDeferredHub) : RelayDeferredHub :=
  mkHub (hub_config h) (slots h) (total_count h) bits (rr_cursor h) (rr_sticky_valid h)
    (rr_sticky_slot h) (rr_quota_left h) (wake_gen h) (hub_shutdown h) (mu_inited h) (cv_inited h)
    (hub_stats h) (hub_packet_free h) (hub_packet_free_ctx h).
Definition set_rr (cursor : nat) (valid : bool) (slot quota : nat) (h : RelayDeferredHub)
  : RelayDeferredHub :=
  mkHub (hub_config h) (slots h) (total_count h) (active_bits h) cursor valid slot quota
    (wake_gen h) (hub_shutdown h) (mu_inited h) (cv_inited h) (hub_stats h) (hub_packet_free h)
    (hub_packet_free_ctx h).
Definition set_hub_stats (st : RelayDeferredHubStats) (h : RelayDeferredHub) : RelayDeferredHub :=
  mkHub (hub_config h) (slots h) (total_count h) (active_bits h) (rr_cursor h) (rr_sticky_valid h)
    (rr_sticky_slot h) (rr_quota_left h) (wake_gen h) (hub_shutdown h) (mu_inited h) (cv_inited h)
    st (hub_packet_free h) (hub_packet_free_ctx h).
Definition bump_wake (h : RelayDeferredHub) : RelayDeferredHub :=
  mkHub (hub_config h) (slots h) (total_count h) (active_bits h) (rr_cursor h) (rr_sticky_valid h)
    (rr_sticky_slot h) (rr_quota_left h) (wake_gen h +u64 1)%cint (hub_shutdown h) (mu_inited h)
    (cv_inited h) (hub_stats h) (hub_packet_free h) (hub_packet_free_ctx h).
Definition set_shutdown (h : RelayDeferredHub) : RelayDeferredHub :=
  mkHub (hub_config h) (slots h) (total_count h) (active_bits h) (rr_cursor h) (rr_sticky_valid h)
    (rr_sticky_slot h) (rr_quota_left h) (wake_gen h) true (mu_inited h) (cv_inited h)
    (hub_stats h) (hub_packet_free h) (hub_packet_free_ctx h).

Definition slot_at (h : RelayDeferredHub) (i : nat) : RelayDeferredSlot := nth i (slots h) slot_zero.
Definition set_slot (i : nat) (s : RelayDeferredSlot) (h : RelayDeferredHub) : RelayDeferredHub :=
  set_slots (<[i := s]> (slots h)) h.
Definition slot_count (h : RelayDeferredHub) (i : nat) : nat := r_count (slot_ring (slot_at h i)).

(** ** The table *)

Definition slot_index_for_flow (h : RelayDeferredHub) (flow_id : Z) : nat :=
  if (max_active_flows (hub_config h) =? 0)%nat then 0%nat
  else Z.to_nat (flow_id mod Z.of_nat (max_active_flows (hub_config h))).

(** The first of [n] indices from [start], wrapping around, that satisfies [f]. *)
Definition probe (f : nat -> bool) (start n : nat) : option nat :=
  List.find f (List.map (fun i => ((start + i) mod n)%nat) (seq 0 n)).

Definition find_slot_index (h : RelayDeferredHub) (flow_id : Z) : option nat :=
  probe (fun idx => in_use (slot_at h idx) && (wire_flow_id (slot_at h idx) =? flow_id))
    (slot_index_for_flow h flow_id) (max_active_flows (hub_config h)).

Definition find_free_slot_index (h : RelayDeferredHub) (flow_id : Z) : option nat :=
  probe (fun idx => negb (in_use (slot_at h idx)))
    (slot_index_for_flow h flow_id) (max_active_flows (hub_config h)).

Definition mark_active (i : nat) (h : RelayDeferredHub) : RelayDeferredHub :=
  set_active_bits (Z.lor (active_bits h) (Z.shiftl 1 (Z.of_nat i))) h.
Definition clear_active (i : nat) (h : RelayDeferredHub) : RelayDeferredHub :=
  set_active_bits (Z.ldiff (active_bits h) (Z.shiftl 1 (Z.of_nat i))) h.
Definition is_active (h : RelayDeferredHub) (i : nat) : bool :=
  Z.testbit (active_bits h) (Z.of_nat i).

(** [head = tail = 0] *)
Definition reset_indices (r : ring RelayDeferredPacket) : ring RelayDeferredPacket :=
  Ring (r_slots r) (r_capacity r) 0 0 (r_count r).

Definition release_empty_slot (i : nat) (h : RelayDeferredHub) : RelayDeferredHub :=
  let slot := slot_at h i in
  if negb (r_count (slot_ring slot) =? 0)%nat then h
  else
    let h := clear_active i h in
    set_slot i (mkSlot false 0 (reset_indices (slot_ring slot)) (slot_drop_overflow_flow slot)) h.

(** ** Life cycle *)

Definition config_valid (cfg : RelayDeferredHubConfig) : bool :=
  negb ((max_active_flows cfg <? 1)%nat ||
        (RELAY_MAX_ACTIVE_FLOWS_LIMIT <? max_active_flows cfg)%nat) &&
  negb ((per_flow_capacity cfg =? 0)%nat || (total_capacity cfg =? 0)%nat).

(** The datagrams freed, in slot order, and the slot without its ring. *)
Definition free_slot_ring (s : RelayDeferredSlot) : list Z * RelayDeferredSlot :=
  (dp_datagram <$> filter (fun p => ~ dp_datagram p = 0) (r_slots (slot_ring s)),
   mkSlot (in_use s) (wire_flow_id s) (Ring [] 0 0 0 0) (slot_drop_overflow_flow s)).

(** The allocations and the two primitives can fail; a failure frees what was allocated.  No
    ring of a fresh hub holds a datagram, so those calls of [free_slot_ring] free none. *)
Definition relay_deferred_hub_init (oom mutex_fails cond_fails : bool)
  (cfg : RelayDeferredHubConfig) (h0 : RelayDeferredHub) : RelayDeferredStatus * RelayDeferredHub :=
  if negb (config_valid cfg) then (RELAY_DEFERRED_ERR_INVALID, h0)
  else
    let bare := mkHub cfg [] 0 0 0 false 0 0 0 false false false ds_zero 0 0 in
    if oom || mutex_fails || cond_fails then (RELAY_DEFERRED_ERR_ALLOC, bare)
    else
      let slot := mkSlot false 0 (ring_init (per_flow_capacity cfg) packet_clear) 0 in
      (RELAY_DEFERRED_OK,
       mkHub cfg (replicate (max_active_flows cfg) slot) 0 0 0 false 0 0 0 false true true ds_zero
         0 0).

Definition relay_deferred_hub_shutdown (h : RelayDeferredHub) : RelayDeferredHub :=
  if negb (mu_inited h) then h else bump_wake (set_shutdown h).

(** The datagrams freed and the hub afterwards. *)
Definition relay_deferred_hub_destroy (h : RelayDeferredHub) : list Z * RelayDeferredHub :=
  let h := if mu_inited h then set_shutdown h else h in
  (slots h ≫= (fun s => fst (free_slot_ring s)),
   mkHub (hub_config h) [] 0 0 (rr_cursor h) (rr_sticky_valid h) (rr_sticky_slot h)
     (rr_quota_left h) (wake_gen h) (hub_shutdown h) false false (hub_stats h) (hub_packet_free h)
     (hub_packet_free_ctx h)).

Definition relay_deferred_hub_set_packet_free (fn ctx : Z) (h : RelayDeferredHub) : RelayDeferredHub :=
  mkHub (hub_config h) (slots h) (total_count h) (active_bits h) (rr_cursor h) (rr_sticky_valid h)
    (rr_sticky_slot h) (rr_quota_left h) (wake_gen h) (hub_shutdown h) (mu_inited h) (cv_inited h)
    (hub_stats h) fn ctx.

(** ** Push *)

Definition count_table_full (st : RelayDeferredHubStats) : RelayDeferredHubStats :=
  mkDst (drop_overflow_flow st) (drop_overflow_total st) (drop_table_full st +u64 1)%cint
    (enqueue_ok st) (dequeue_ok st) (high_watermark st).
Definition count_full_total (st : RelayDeferredHubStats) : RelayDeferredHubStats :=
  mkDst (drop_overflow_flow st) (drop_overflow_total st +u64 1)%cint (drop_table_full st)
    (enqueue_ok st) (dequeue_ok st) (high_watermark st).
Definition count_full_flow (st : RelayDeferredHubStats) : RelayDeferredHubStats :=
  mkDst (drop_overflow_flow st +u64 1)%cint (drop_overflow_total st) (drop_table_full st)
    (enqueue_ok st) (dequeue_ok st) (high_watermark st).
Definition count_enqueue (total : nat) (st : RelayDeferredHubStats) : RelayDeferredHubStats :=
  mkDst (drop_overflow_flow st) (drop_overflow_total st) (drop_table_full st)
    (enqueue_ok st +u64 1)%cint (dequeue_ok st)
    (if Z.of_nat total >? high_watermark st then Z.of_nat total else high_watermark st).
Definition count_dequeue (st : RelayDeferredHubStats) : RelayDeferredHubStats :=
  mkDst (drop_overflow_flow st) (drop_overflow_total st) (drop_table_full st) (enqueue_ok st)
    (dequeue_ok st +u64 1)%cint (high_watermark st).

(** The slot of the packet's flow, claimed if the flow has none. *)
Definition claim_slot (flow_id : Z) (h : RelayDeferredHub) : option (nat * RelayDeferredHub) :=
  match find_slot_index h flow_id with
  | Some i => Some (i, h)
  | None =>
      match find_free_slot_index h flow_id with
      | None => None
      | Some i =>
          let slot := slot_at h i in
          let r := slot_ring slot in
          Some (i, set_slot i (mkSlot true flow_id (Ring (r_slots r) (r_capacity r) 0 0 0)
                                 (slot_drop_overflow_flow slot)) h)
      end
  end.

(** The packet enters the ring of slot [i]; the second component tells whether [wake_cv] is
    signalled. *)
Definition store_packet (i : nat) (pkt : RelayDeferredPacket) (h : RelayDeferredHub)
  : RelayDeferredHub * bool :=
  let slot := slot_at h i in
  let became_nonempty := (r_count (slot_ring slot) =? 0)%nat in
  let r := if dp_prefer_head pkt =? 0 then put_tail (slot_ring slot) pkt
           else put_head (slot_ring slot) pkt in
  let h := set_slot i (mkSlot (in_use slot) (wire_flow_id slot) r (slot_drop_overflow_flow slot)) h in
  let h := set_total (total_count h + 1) h in
  let h := set_hub_stats (count_enqueue (total_count h) (hub_stats h)) h in
  if became_nonempty then (bump_wake (mark_active i h), true) else (h, false).

(** Status, hub, the caller's packet, and whether the worker is signalled. *)
Definition relay_deferred_hub_try_push (pkt : RelayDeferredPacket) (h : RelayDeferredHub)
  : RelayDeferredStatus * RelayDeferredHub * RelayDeferredPacket * bool :=
  if (dp_datagram pkt =? 0) || (dp_len pkt =? 0) || negb (mu_inited h)
  then (RELAY_DEFERRED_ERR_INVALID, h, pkt, false)
  else if hub_shutdown h then (RELAY_DEFERRED_ERR_SHUTDOWN, h, pkt, false)
  else
    match claim_slot (dp_flow_id pkt) h with
    | None =>
        (RELAY_DEFERRED_ERR_TABLE_FULL, set_hub_stats (count_table_full (hub_stats h)) h, pkt, false)
    | Some (i, h) =>
        let slot := slot_at h i in
        if (total_capacity (hub_config h) <=? total_count h)%nat
        then (RELAY_DEFERRED_ERR_FULL_TOTAL, set_hub_stats (count_full_total (hub_stats h)) h, pkt,
              false)
        else if (r_capacity (slot_ring slot) <=? r_count (slot_ring slot))%nat
        then
          let slot := mkSlot (in_use slot) (wire_flow_id slot) (slot_ring slot)
                        (slot_drop_overflow_flow slot +u64 1)%cint in
          (RELAY_DEFERRED_ERR_FULL_FLOW,
           set_hub_stats (count_full_flow (hub_stats h)) (set_slot i slot h), pkt, false)
        else
          let '(h, signals) := store_packet i pkt h in
          (RELAY_DEFERRED_OK, h, packet_clear, signals)
    end.

(** ** Wait and pop *)

(** One pass of [relay_deferred_hub_wait]. *)
Definition relay_deferred_hub_wait (h : RelayDeferredHub) : outcome RelayDeferredStatus :=
  if negb (mu_inited h) then Returns RELAY_DEFERRED_ERR_INVALID
  else if (active_bits h =? 0) && negb (hub_shutdown h) then Blocks
  else if (active_bits h =? 0) && hub_shutdown h then Returns RELAY_DEFERRED_ERR_SHUTDOWN
  else Returns RELAY_DEFERRED_OK.

Definition has_work (h : RelayDeferredHub) (i : nat) : bool :=
  is_active h i && (0 <? slot_count h i)%nat.

Definition select_rr_slot (h : RelayDeferredHub) : option nat * RelayDeferredHub :=
  let n := max_active_flows (hub_config h) in
  if (active_bits h =? 0) || (n =? 0)%nat then (None, h)
  else
    let sticky := rr_sticky_valid h && (0 <? rr_quota_left h)%nat in
    if sticky && has_work h (rr_sticky_slot h) then (Some (rr_sticky_slot h), h)
    else
      let h := if sticky then set_rr (rr_cursor h) false (rr_sticky_slot h) 0 h else h in
      match probe (has_work h) (rr_cursor h) n with
      | Some i => (Some i, set_rr ((i + 1) mod n) true i RELAY_DEFERRED_QUOTA h)
      | None => (None, set_rr (rr_cursor h) false (rr_sticky_slot h) 0 h)
      end.

(** A turn of the selected slot is used up. *)
Definition spend_quota (i : nat) (h : RelayDeferredHub) : RelayDeferredHub :=
  if rr_sticky_valid h && (rr_sticky_slot h =? i)%nat && (0 <? rr_quota_left h)%nat then
    let quota := (rr_quota_left h - 1)%nat in
    if (quota =? 0)%nat || (slot_count h i =? 0)%nat
    then set_rr (rr_cursor h) false (rr_sticky_slot h) 0 h
    else set_rr (rr_cursor h) true (rr_sticky_slot h) quota h
  else h.

(** Status, the packet handed out and the hub; [None] is a read outside a ring. *)
Definition relay_deferred_hub_try_pop (h : RelayDeferredHub)
  : option (RelayDeferredStatus * RelayDeferredPacket * RelayDeferredHub) :=
  if negb (mu_inited h) then Some (RELAY_DEFERRED_ERR_INVALID, packet_clear, h)
  else
    match select_rr_slot h with
    | (None, h) =>
        Some (if hub_shutdown h then RELAY_DEFERRED_ERR_SHUTDOWN else RELAY_DEFERRED_ERR_EMPTY,
              packet_clear, h)
    | (Some i, h) =>
        let slot := slot_at h i in
        '(pkt, r) ← take_head (Some packet_clear) (slot_ring slot);
        let h := set_slot i (mkSlot (in_use slot) (wire_flow_id slot) r
                               (slot_drop_overflow_flow slot)) h in
        let h := set_total (total_count h - 1) h in
        let h := set_hub_stats (count_dequeue (hub_stats h)) h in
        let h := spend_quota i h in
        let h := if (slot_count h i =? 0)%nat then release_empty_slot i h else h in
        Some (RELAY_DEFERRED_OK, pkt, h)
    end.

Definition relay_deferred_hub_total_count (h : RelayDeferredHub) : nat :=
  if negb (mu_inited h) then 0%nat else total_count h.
Definition relay_deferred_hub_is_shutdown (h : RelayDeferredHub) : bool :=
  if negb (mu_inited h) then true else hub_shutdown h.
Definition relay_deferred_hub_stats_snapshot (h : RelayDeferredHub) : RelayDeferredHubStats :=
  if negb (mu_inited h) then ds_zero else hub_stats h.
