(* ===== verification/RelayDeferredSpec.v ===== *)
(** * What the relay's backlog promises: order within a flow, limits, no loss

    The invariant of the hub, the abstract backlog (a queue per flow) it refines, and the
    conservation of datagrams from [relay_deferred_hub_init] to [relay_deferred_hub_destroy]. *)

From stdpp Require Import gmap.
From S2P Require Import Prelude Ring PktQueue RelayDeferred.

Abbreviation Pkt := RelayDeferredPacket.
Abbreviation Hub := RelayDeferredHub.
Abbreviation blank := (fun p => dp_datagram p = 0%Z).

(** ** Probing the table *)

Lemma probe_Some f start n i :
  probe f start n = Some i -> 0 < n -> exists d, d < n /\ i = (start + d) mod n /\ f i = true /\
    forall d', d' < d -> f ((start + d') mod n) = false.
Proof.
  unfold probe. intros H Hn.
  assert (Hgen : forall m off, List.find f (List.map (fun i => (start + i) mod n) (seq off m)) = Some i ->
    exists d, off <= d < off + m /\ i = (start + d) mod n /\ f i = true /\
      forall d', off <= d' < d -> f ((start + d') mod n) = false).
  { induction m as [|m IH]; intros off Hf; [done|]. cbn [seq List.map List.find] in Hf.
    destruct (f ((start + off) mod n)) eqn:E.
    - injection Hf as <-. exists off. split_and!; [lia|lia|done|done|]. lia.
    - destruct (IH (S off) Hf) as (d & Hd & Hi & Hfi & Hlt). exists d. split_and!; [lia|lia|done|done|].
      intros d' Hd'. destruct (decide (d' = off)) as [->|]; [done|]. apply Hlt. lia. }
  destruct (Hgen n 0 H) as (d & Hd & Hi & Hfi & Hlt). exists d. split_and!; [lia|done|done|].
  intros d' Hd'. apply Hlt. lia.
Qed.

(** Every index is probed. *)
Lemma probe_reaches start n i : i < n -> exists d, d < n /\ i = (start + d) mod n.
Proof.
  intros Hi. exists ((i + (n - start mod n)) mod n). split; [apply Nat.mod_upper_bound; lia|].
  rewrite Nat.Div0.add_mod_idemp_r. pose proof (Nat.mod_upper_bound start n ltac:(lia)).
  pose proof (Nat.div_mod_eq start n).
  replace (start + (i + (n - start mod n))) with (i + (start / n + 1) * n) by nia.
  rewrite Nat.Div0.mod_add. by rewrite Nat.mod_small.
Qed.

Lemma probe_None f start n i : probe f start n = None -> i < n -> f i = false.
Proof.
  intros H Hi. destruct (probe_reaches start n i Hi) as (d & Hd & ->).
  apply (find_none _ _ H). apply in_map_iff. exists d. split; [done|]. apply in_seq. lia.
Qed.

Lemma probe_bound f start n i : probe f start n = Some i -> 0 < n -> i < n /\ f i = true.
Proof.
  intros H Hn. destruct (probe_Some _ _ _ _ H Hn) as (d & Hd & -> & Hf & _).
  split; [apply Nat.mod_upper_bound; lia|done].
Qed.

(** ** The abstract backlog: a queue per flow *)

Definition entry (s : RelayDeferredSlot) : option (Z * list Pkt) :=
  if in_use s then Some (wire_flow_id s, contents (slot_ring s)) else None.

Definition table (ss : list RelayDeferredSlot) : gmap Z (list Pkt) := list_to_map (omap entry ss).

Definition distinct_flows (ss : list RelayDeferredSlot) : Prop :=
  forall i j s t, ss !! i = Some s -> ss !! j = Some t -> in_use s = true -> in_use t = true ->
    wire_flow_id s = wire_flow_id t -> i = j.

Lemma entry_Some s f l :
  entry s = Some (f, l) <-> in_use s = true /\ wire_flow_id s = f /\ contents (slot_ring s) = l.
Proof. unfold entry. destruct (in_use s); naive_solver. Qed.

Lemma distinct_tail s ss : distinct_flows (s :: ss) -> distinct_flows ss.
Proof.
  intros H i j x y Hi Hj Hx Hy E. pose proof (H (S i) (S j) x y Hi Hj Hx Hy E). lia.
Qed.

Lemma table_nodup ss : distinct_flows ss -> NoDup (omap entry ss).*1.
Proof.
  induction ss as [|s ss IH]; intros H; [constructor|]. cbn [omap list_omap].
  pose proof (IH (distinct_tail _ _ H)) as Hnd. destruct (entry s) as [[f l]|] eqn:E; [|done].
  csimpl. constructor; [|done]. intros (e & Ef & He)%list_elem_of_fmap.
  apply list_elem_of_omap in He as (t & Ht & Et). apply list_elem_of_lookup in Ht as [j Hj].
  destruct e as [f' l']. cbn in Ef. subst f'.
  apply entry_Some in E as (Hu & Hf & _). apply entry_Some in Et as (Hu' & Hf' & _).
  pose proof (H 0 (S j) s t eq_refl Hj Hu Hu' ltac:(congruence)). lia.
Qed.

Lemma table_lookup ss f l :
  distinct_flows ss ->
  table ss !! f = Some l <->
  exists i s, ss !! i = Some s /\ in_use s = true /\ wire_flow_id s = f /\ contents (slot_ring s) = l.
Proof.
  intros H. unfold table. rewrite <- elem_of_list_to_map by (by apply table_nodup).
  rewrite list_elem_of_omap. setoid_rewrite entry_Some. setoid_rewrite list_elem_of_lookup. naive_solver.
Qed.

Lemma table_lookup_None ss f :
  distinct_flows ss ->
  table ss !! f = None <->
  forall i s, ss !! i = Some s -> in_use s = true -> wire_flow_id s <> f.
Proof.
  intros H. destruct (table ss !! f) as [l|] eqn:E.
  - apply table_lookup in E as (i & s & Hi & Hu & Hf & _); [|done]. split; [done|].
    intros Hn. by destruct (Hn i s Hi Hu).
  - split; [|done]. intros _ i s Hi Hu Hf.
    assert (Hs : table ss !! f = Some (contents (slot_ring s))) by (apply table_lookup; eauto 10).
    congruence.
Qed.

Lemma table_size ss : distinct_flows ss -> size (table ss) = length (omap entry ss).
Proof. intros H. by apply map_size_list_to_map, table_nodup. Qed.

(** A table with a free slot has room. *)
Lemma table_full ss :
  distinct_flows ss ->
  (length ss <= size (table ss) <-> forall i s, ss !! i = Some s -> in_use s = true).
Proof.
  intros H. rewrite table_size by done. clear H. induction ss as [|s ss IH].
  - cbn. split; [done|lia].
  - cbn [omap list_omap length].
    assert (Hle : length (omap entry ss) <= length ss).
    { clear. induction ss as [|x ss IH]; [done|]. cbn [omap list_omap length].
      destruct (entry x); cbn [length]; lia. }
    unfold entry at 1. destruct (in_use s) eqn:Hu; cbn [length].
    + rewrite <- Nat.succ_le_mono, IH. split.
      * intros Hall [|i] t Ht; simpl in Ht; [by simplify_eq|]. by apply (Hall i).
      * intros Hall i t Ht. by apply (Hall (S i)).
    + split; [lia|]. intros Hall. specialize (Hall 0 s eq_refl). congruence.
Qed.

(** Replacing slot [i]. *)
Lemma table_insert ss i s s' :
  distinct_flows ss -> ss !! i = Some s -> in_use s' = true ->
  (if in_use s then wire_flow_id s = wire_flow_id s' else table ss !! wire_flow_id s' = None) ->
  distinct_flows (<[i := s']> ss) /\
  table (<[i := s']> ss) = <[wire_flow_id s' := contents (slot_ring s')]> (table ss).
Proof.
  intros H Hi Hu Hold. pose proof (lookup_lt_Some _ _ _ Hi) as Hlt.
  assert (Hother : forall j t, ss !! j = Some t -> in_use t = true -> wire_flow_id t = wire_flow_id s' -> j = i).
  { intros j t Hj Htu Hf. destruct (in_use s) eqn:Es.
    - apply (H j i t s); congruence.
    - exfalso. by apply (proj1 (table_lookup_None ss _ H) Hold j t). }
  assert (Hd : distinct_flows (<[i := s']> ss)).
  { intros j1 j2 a b [(<- & <- & _)|(Hn1 & H1)]%list_lookup_insert_Some
      [(<- & <- & _)|(Hn2 & H2)]%list_lookup_insert_Some Ha Hb E; try done.
    - symmetry. by apply (Hother j2 b).
    - by apply (Hother j1 a).
    - by apply (H j1 j2 a b). }
  split; [done|]. apply map_eq. intros f. apply option_eq. intros l.
  rewrite table_lookup by done. setoid_rewrite list_lookup_insert_Some. rewrite lookup_insert_Some. split.
  - intros (j & t & [(<- & <- & _)|(Hn & Hj)] & Htu & Hf & Hl); [by left|]. right. split.
    + intros E. apply Hn. symmetry. apply (Hother j t); congruence.
    + apply table_lookup; [done|]. eauto 10.
  - intros [[<- <-]|[Hne Hl]]; [exists i, s'; naive_solver|].
    apply table_lookup in Hl as (j & t & Hj & Htu & Hf & Hl); [|done]. exists j, t.
    split_and!; [|done..]. right. split; [|done]. intros <-. simplify_eq. rewrite Htu in Hold. congruence.
Qed.

Lemma table_delete ss i s s' :
  distinct_flows ss -> ss !! i = Some s -> in_use s = true -> in_use s' = false ->
  distinct_flows (<[i := s']> ss) /\
  table (<[i := s']> ss) = delete (wire_flow_id s) (table ss).
Proof.
  intros H Hi Hu Hu'. pose proof (lookup_lt_Some _ _ _ Hi) as Hlt.
  assert (Hd : distinct_flows (<[i := s']> ss)).
  { intros j1 j2 a b [(<- & <- & _)|(Hn1 & H1)]%list_lookup_insert_Some
      [(<- & <- & _)|(Hn2 & H2)]%list_lookup_insert_Some Ha Hb E; try congruence.
    by apply (H j1 j2 a b). }
  split; [done|]. apply map_eq. intros f. apply option_eq. intros l.
  rewrite table_lookup by done. setoid_rewrite list_lookup_insert_Some. rewrite lookup_delete_Some. split.
  - intros (j & t & [(<- & <- & _)|(Hn & Hj)] & Htu & Hf & Hl); [congruence|]. split.
    + intros E. apply Hn. symmetry. apply (H j i t s); congruence.
    + apply table_lookup; [done|]. eauto 10.
  - intros [Hne Hl]. apply table_lookup in Hl as (j & t & Hj & Htu & Hf & Hl); [|done]. exists j, t.
    split_and!; [|done..]. right. split; [|done]. intros <-. simplify_eq.
Qed.

Record backlog := mkBacklog {
  bl_flows : gmap Z (list Pkt);
  bl_total : nat;
  bl_closed : bool
}.

Inductive hub_op := HPush (pkt : Pkt) | HPop | HShutdown.

(** The caller's packet after a push, the packet handed out by a pop. *)
Inductive hub_res :=
  | RPush (st : RelayDeferredStatus) (back : Pkt)
  | RPop (st : RelayDeferredStatus) (out : Pkt)
  | RShutdown.

Definition flow_queue (b : backlog) (f : Z) : list Pkt := default [] (bl_flows b !! f).

Definition valid_packet (pkt : Pkt) : bool := negb (dp_datagram pkt =? 0)%Z && negb (dp_len pkt =? 0)%Z.

(** A push: the flow gets a queue, then the two limits are checked. *)
Definition backlog_push (cfg : RelayDeferredHubConfig) (pkt : Pkt) (b : backlog) : hub_res * backlog :=
  let f := dp_flow_id pkt in
  if negb (valid_packet pkt) then (RPush RELAY_DEFERRED_ERR_INVALID pkt, b)
  else if bl_closed b then (RPush RELAY_DEFERRED_ERR_SHUTDOWN pkt, b)
  else if bool_decide (bl_flows b !! f = None) && (max_active_flows cfg <=? size (bl_flows b))
  then (RPush RELAY_DEFERRED_ERR_TABLE_FULL pkt, b)
  else
    let q := flow_queue b f in
    let refused := mkBacklog (<[f := q]> (bl_flows b)) (bl_total b) (bl_closed b) in
    if total_capacity cfg <=? bl_total b then (RPush RELAY_DEFERRED_ERR_FULL_TOTAL pkt, refused)
    else if per_flow_capacity cfg <=? length q then (RPush RELAY_DEFERRED_ERR_FULL_FLOW pkt, refused)
    else (RPush RELAY_DEFERRED_OK packet_clear,
          mkBacklog (<[f := if (dp_prefer_head pkt =? 0)%Z then q ++ [pkt] else pkt :: q]> (bl_flows b))
            (bl_total b + 1) (bl_closed b)).

Inductive backlog_step (cfg : RelayDeferredHubConfig) (b : backlog) : hub_op -> hub_res -> backlog -> Prop :=
  | step_push pkt res b' : backlog_push cfg pkt b = (res, b') -> backlog_step cfg b (HPush pkt) res b'
  | step_pop f pkt l :
      bl_flows b !! f = Some (pkt :: l) ->
      backlog_step cfg b HPop (RPop RELAY_DEFERRED_OK pkt)
        (mkBacklog (if bool_decide (l = []) then delete f (bl_flows b) else <[f := l]> (bl_flows b))
           (bl_total b - 1) (bl_closed b))
  | step_pop_empty :
      (forall f l, bl_flows b !! f = Some l -> l = []) ->
      backlog_step cfg b HPop
        (RPop (if bl_closed b then RELAY_DEFERRED_ERR_SHUTDOWN else RELAY_DEFERRED_ERR_EMPTY) packet_clear) b
  | step_shutdown :
      backlog_step cfg b HShutdown RShutdown (mkBacklog (bl_flows b) (bl_total b) true).

Definition hub_step (h : Hub) (o : hub_op) : option (hub_res * Hub) :=
  match o with
  | HPush pkt => let '(st, h', back, _) := relay_deferred_hub_try_push pkt h in Some (RPush st back, h')
  | HPop => '(st, out, h') ← relay_deferred_hub_try_pop h; Some (RPop st out, h')
  | HShutdown => Some (RShutdown, relay_deferred_hub_shutdown h)
  end.

Definition view (h : Hub) : backlog := mkBacklog (table (slots h)) (total_count h) (hub_shutdown h).

(** ** The invariant *)

Abbreviation n_flows h := (max_active_flows (hub_config h)).

Record slot_ok (cfg : RelayDeferredHubConfig) (s : RelayDeferredSlot) : Prop := {
  so_ring : ring_ok (slot_ring s);
  so_capacity : r_capacity (slot_ring s) = per_flow_capacity cfg;
  so_clean : ring_clean blank (slot_ring s);
  so_owned : Forall (fun p => ~ blank p) (contents (slot_ring s));
  so_flow : Forall (fun p => dp_flow_id p = wire_flow_id s) (contents (slot_ring s));
  so_unused : in_use s = false -> r_count (slot_ring s) = 0
}.

Definition busy (s : RelayDeferredSlot) : bool := 0 <? r_count (slot_ring s).

Record hub_ok (h : Hub) : Prop := {
  ho_mu : mu_inited h = true;
  ho_config : config_valid (hub_config h) = true;
  ho_length : length (slots h) = n_flows h;
  ho_slots : forall i s, slots h !! i = Some s -> slot_ok (hub_config h) s;
  ho_distinct : distinct_flows (slots h);
  ho_bits : forall i, is_active h i = (0 <? slot_count h i);
  ho_total : total_count h = sum_list ((fun s => r_count (slot_ring s)) <$> slots h);
  ho_cursor : rr_cursor h < n_flows h;
  ho_sticky : rr_sticky_valid h = true ->
    rr_sticky_slot h < n_flows h /\ 0 < rr_quota_left h <= RELAY_DEFERRED_QUOTA /\
    0 < slot_count h (rr_sticky_slot h)
}.

Lemma config_bounds cfg :
  config_valid cfg = true ->
  1 <= max_active_flows cfg <= 64 /\ 0 < per_flow_capacity cfg /\ 0 < total_capacity cfg.
Proof.
  unfold config_valid, RELAY_MAX_ACTIVE_FLOWS_LIMIT. rewrite andb_true_iff, !negb_true_iff, !orb_false_iff.
  rewrite !Nat.ltb_ge, !Nat.eqb_neq. lia.
Qed.

Lemma slot_at_lookup h i s : slots h !! i = Some s -> slot_at h i = s.
Proof. intros H. unfold slot_at. by apply nth_lookup_Some. Qed.

Lemma slot_lookup h i : i < length (slots h) -> slots h !! i = Some (slot_at h i).
Proof.
  intros Hi. destruct (lookup_lt_is_Some_2 _ _ Hi) as [s Hs]. by rewrite Hs, (slot_at_lookup _ _ _ Hs).
Qed.

Lemma slot_count_insert h h' i s' j :
  slots h' = <[i := s']> (slots h) -> i < length (slots h) ->
  slot_count h' j = if decide (j = i) then r_count (slot_ring s') else slot_count h j.
Proof.
  intros Hs Hi. unfold slot_count, slot_at. rewrite Hs, !nth_lookup. case_decide as E.
  - subst. by rewrite list_lookup_insert_eq.
  - by rewrite list_lookup_insert_ne by done.
Qed.

Lemma slot_at_insert h h' i s' j :
  slots h' = <[i := s']> (slots h) -> j <> i -> slot_at h' j = slot_at h j.
Proof. intros Hs Hj. unfold slot_at. by rewrite Hs, !nth_lookup, list_lookup_insert_ne by done. Qed.

(** One slot changes. *)
Lemma hub_ok_update h h' i s s' :
  hub_ok h -> slots h !! i = Some s -> slots h' = <[i := s']> (slots h) ->
  hub_config h' = hub_config h -> mu_inited h' = mu_inited h -> slot_ok (hub_config h) s' ->
  distinct_flows (slots h') ->
  (forall j, is_active h' j = if decide (j = i) then 0 <? r_count (slot_ring s') else is_active h j) ->
  total_count h' + r_count (slot_ring s) = total_count h + r_count (slot_ring s') ->
  rr_cursor h' < n_flows h ->
  (rr_sticky_valid h' = true ->
     rr_sticky_slot h' < n_flows h /\ 0 < rr_quota_left h' <= RELAY_DEFERRED_QUOTA /\
     0 < slot_count h' (rr_sticky_slot h')) ->
  hub_ok h'.
Proof.
  intros H Hi Hs Hc Hm Hok Hd Hb Ht Hcur Hst. pose proof (lookup_lt_Some _ _ _ Hi) as Hlt.
  destruct H. split; rewrite ?Hc, ?Hm; try done.
  - by rewrite Hs, length_insert.
  - intros j t. rewrite Hs. intros [(<- & <- & _)|(_ & Hj)]%list_lookup_insert_Some; [done|eauto].
  - intros j. rewrite Hb, (slot_count_insert h h' i s') by done. case_decide; [done|]. apply ho_bits0.
  - rewrite Hs, list_fmap_insert.
    pose proof (sum_list_insert ((fun s => r_count (slot_ring s)) <$> slots h) i
                  (r_count (slot_ring s)) (r_count (slot_ring s'))) as Hsum.
    rewrite list_lookup_fmap, Hi in Hsum. specialize (Hsum eq_refl). lia.
Qed.

Lemma no_work h : hub_ok h -> active_bits h = 0%Z <-> forall i, slot_count h i = 0.
Proof.
  intros H. split.
  - intros E i. pose proof (ho_bits _ H i) as Hb. unfold is_active in Hb. rewrite E, Z.bits_0 in Hb.
    symmetry in Hb. apply Nat.ltb_ge in Hb. lia.
  - intros Hall. apply Z.bits_inj'. intros z Hz. rewrite Z.bits_0.
    pose proof (ho_bits _ H (Z.to_nat z)) as Hb. unfold is_active in Hb.
    rewrite Z2Nat.id, Hall in Hb by done. done.
Qed.

Lemma has_work_spec h i : hub_ok h -> has_work h i = (0 <? slot_count h i).
Proof. intros H. unfold has_work. rewrite (ho_bits _ H). by destruct (0 <? slot_count h i). Qed.

(** ** Push *)

(** Fields other than the slots. *)
Record same_rest (h h' : Hub) : Prop := {
  sr_config : hub_config h' = hub_config h;
  sr_mu : mu_inited h' = mu_inited h;
  sr_total : total_count h' = total_count h;
  sr_bits : active_bits h' = active_bits h;
  sr_cursor : rr_cursor h' = rr_cursor h;
  sr_valid : rr_sticky_valid h' = rr_sticky_valid h;
  sr_sticky : rr_sticky_slot h' = rr_sticky_slot h;
  sr_quota : rr_quota_left h' = rr_quota_left h;
  sr_shutdown : hub_shutdown h' = hub_shutdown h
}.

Lemma reset_ok cfg s f :
  slot_ok cfg s -> r_count (slot_ring s) = 0 ->
  forall u, slot_ok cfg (mkSlot u f (Ring (r_slots (slot_ring s)) (r_capacity (slot_ring s)) 0 0 0)
                           (slot_drop_overflow_flow s)).
Proof.
  intros [Hr Hc Hcl Ho Hf Hu] H0 u. pose proof Hr as (Hp & Hl & Hh & Hn & Ht).
  split; cbn; try done.
  - unfold ring_ok. cbn. rewrite Nat.Div0.mod_0_l. lia.
  - intros k Hk. cbn in *. apply (clean_empty blank (slot_ring s)); try done. apply Nat.mod_upper_bound. lia.
Qed.

Lemma claim_slot_spec f h :
  hub_ok h ->
  match claim_slot f h with
  | None => table (slots h) !! f = None /\ n_flows h <= size (table (slots h))
  | Some (i, h1) => hub_ok h1 /\ same_rest h h1 /\
      ~ (table (slots h) !! f = None /\ n_flows h <= size (table (slots h))) /\
      exists s, slots h1 !! i = Some s /\ in_use s = true /\ wire_flow_id s = f /\
        contents (slot_ring s) = default [] (table (slots h) !! f) /\
        table (slots h1) = <[f := contents (slot_ring s)]> (table (slots h)) /\
        (forall j, slot_count h1 j = slot_count h j)
  end.
Proof.
  intros H. pose proof (config_bounds _ (ho_config _ H)) as (Hn & _ & _). unfold claim_slot.
  destruct (find_slot_index h f) as [i|] eqn:Hf.
  - apply probe_bound in Hf as [Hi [Hu Hid]%andb_true_iff]; [|lia]. apply Z.eqb_eq in Hid.
    rewrite <- (ho_length _ H) in Hi. pose proof (slot_lookup h i Hi) as Hs.
    assert (Ht : table (slots h) !! f = Some (contents (slot_ring (slot_at h i))))
      by (apply table_lookup; [apply (ho_distinct _ H)|eauto 10]).
    split_and!; [done|by split|naive_solver|]. exists (slot_at h i). rewrite Ht.
    split_and!; try done. by rewrite insert_id.
  - assert (Hnone : table (slots h) !! f = None).
    { apply table_lookup_None; [apply (ho_distinct _ H)|]. intros i s Hs Hu Hid.
      pose proof (lookup_lt_Some _ _ _ Hs) as Hi. rewrite (ho_length _ H) in Hi.
      pose proof (probe_None _ _ _ i Hf Hi) as Hb. cbn beta in Hb.
      rewrite (slot_at_lookup _ _ _ Hs), Hu, Hid, Z.eqb_refl in Hb. done. }
    destruct (find_free_slot_index h f) as [i|] eqn:Hff.
    2:{ split; [done|]. rewrite <- (ho_length _ H). apply table_full; [apply (ho_distinct _ H)|].
        intros i s Hs. pose proof (lookup_lt_Some _ _ _ Hs) as Hi. rewrite (ho_length _ H) in Hi.
        pose proof (probe_None _ _ _ i Hff Hi) as Hb. cbn beta in Hb.
        rewrite (slot_at_lookup _ _ _ Hs) in Hb. by apply negb_false_iff. }
    apply probe_bound in Hff as [Hi Hu%negb_true_iff]; [|lia].
    rewrite <- (ho_length _ H) in Hi. pose proof (slot_lookup h i Hi) as Hs.
    set (s := slot_at h i) in *. pose proof (ho_slots _ H i s Hs) as Hok.
    assert (H0 : r_count (slot_ring s) = 0) by (by apply (so_unused _ _ Hok)).
    set (s' := mkSlot true f (Ring (r_slots (slot_ring s)) (r_capacity (slot_ring s)) 0 0 0)
                 (slot_drop_overflow_flow s)).
    assert (Hold : if in_use s then wire_flow_id s = wire_flow_id s' else table (slots h) !! wire_flow_id s' = None)
      by (by rewrite Hu).
    destruct (table_insert (slots h) i s s' (ho_distinct _ H) Hs eq_refl Hold) as [Hd Ht].
    assert (Hcnt : forall j, slot_count (set_slot i s' h) j = slot_count h j).
    { intros j. rewrite (slot_count_insert h (set_slot i s' h) i s' j) by done. case_decide; [|done].
      subst. unfold slot_count. by rewrite (slot_at_lookup _ _ _ Hs), H0. }
    split_and!.
    + apply (hub_ok_update h (set_slot i s' h) i s s'); try done.
      * by apply reset_ok.
      * intros j. change (is_active h j = if decide (j = i) then false else is_active h j).
        case_decide; [|done]. subst. rewrite (ho_bits _ H). unfold slot_count.
        by rewrite (slot_at_lookup _ _ _ Hs), H0.
      * cbn. lia.
      * apply (ho_cursor _ H).
      * intros Hv. rewrite Hcnt. by apply (ho_sticky _ H).
    + by split.
    + intros [_ Hsz]. rewrite <- (ho_length _ H) in Hsz.
      apply (proj1 (table_full _ (ho_distinct _ H))) with (i := i) (s := s) in Hsz; congruence.
    + exists s'. rewrite Hnone. split_and!; try done.
      cbn. by rewrite list_lookup_insert_eq.
Qed.

Definition put_packet (pkt : Pkt) (q : list Pkt) : list Pkt :=
  if (dp_prefer_head pkt =? 0)%Z then q ++ [pkt] else pkt :: q.

Lemma store_slot_ok cfg s pkt :
  slot_ok cfg s -> in_use s = true -> wire_flow_id s = dp_flow_id pkt -> ~ blank pkt ->
  r_count (slot_ring s) < r_capacity (slot_ring s) ->
  let r := if (dp_prefer_head pkt =? 0)%Z then put_tail (slot_ring s) pkt
           else put_head (slot_ring s) pkt in
  let s' := mkSlot (in_use s) (wire_flow_id s) r (slot_drop_overflow_flow s) in
  slot_ok cfg s' /\ contents r = put_packet pkt (contents (slot_ring s)) /\
  r_count r = r_count (slot_ring s) + 1.
Proof.
  intros [Hr Hc Hcl Ho Hf Hu] Hin Hid Hb Hlt r s'. unfold s', r, put_packet.
  destruct (dp_prefer_head pkt =? 0)%Z.
  - rewrite put_tail_contents by done. split_and!; [|done|done].
    split; cbn [slot_ring in_use wire_flow_id]; try done.
    + by apply put_tail_ok.
    + by apply clean_put_tail.
    + rewrite put_tail_contents by done. apply list.Forall_app. split; [done|by repeat constructor].
    + rewrite put_tail_contents by done. apply list.Forall_app. split; [done|by repeat constructor].
    + congruence.
  - rewrite put_head_contents by done. split_and!; [|done|done].
    split; cbn [slot_ring in_use wire_flow_id]; try done.
    + by apply put_head_ok.
    + by apply clean_put_head.
    + rewrite put_head_contents by done. by constructor.
    + rewrite put_head_contents by done. by constructor.
    + congruence.
Qed.

Lemma store_packet_spec i s pkt h :
  hub_ok h -> slots h !! i = Some s -> in_use s = true -> wire_flow_id s = dp_flow_id pkt ->
  ~ blank pkt -> r_count (slot_ring s) < r_capacity (slot_ring s) ->
  let h' := fst (store_packet i pkt h) in
  hub_ok h' /\ hub_shutdown h' = hub_shutdown h /\ total_count h' = total_count h + 1 /\
  table (slots h') = <[dp_flow_id pkt := put_packet pkt (contents (slot_ring s))]> (table (slots h)).
Proof.
  intros H Hi Hu Hid Hb Hlt h'.
  destruct (store_slot_ok _ s pkt (ho_slots _ H i s Hi) Hu Hid Hb Hlt) as (Hok & Hcon & Hcnt).
  set (r := if (dp_prefer_head pkt =? 0)%Z then _ else _) in *.
  set (s' := mkSlot (in_use s) (wire_flow_id s) r (slot_drop_overflow_flow s)) in *.
  assert (Hold : if in_use s then wire_flow_id s = wire_flow_id s' else table (slots h) !! wire_flow_id s' = None)
    by (by rewrite Hu).
  destruct (table_insert (slots h) i s s' (ho_distinct _ H) Hi Hu Hold) as [Hd Ht].
  pose proof (lookup_lt_Some _ _ _ Hi) as Hil.
  assert (Hslots : slots h' = <[i := s']> (slots h)).
  { unfold h', store_packet. rewrite (slot_at_lookup _ _ _ Hi). by destruct (_ =? 0). }
  assert (Htot : total_count h' = total_count h + 1).
  { unfold h', store_packet. by destruct (_ =? 0). }
  split; [|split; [unfold h', store_packet; by destruct (_ =? 0)|split; [done|]]].
  2:{ rewrite Hslots, Ht. change (slot_ring s') with r. change (wire_flow_id s') with (wire_flow_id s).
      by rewrite Hcon, Hid. }
  apply (hub_ok_update h h' i s s'); try done.
  - unfold h', store_packet. by destruct (_ =? 0).
  - unfold h', store_packet. by destruct (_ =? 0).
  - by rewrite Hslots.
  - intros j. change (slot_ring s') with r. rewrite Hcnt, (proj2 (Nat.ltb_lt 0 _)) by lia.
    unfold h', store_packet. rewrite (slot_at_lookup _ _ _ Hi).
    destruct (Nat.eqb_spec (r_count (slot_ring s)) 0) as [H0|H0].
    + unfold is_active. cbn. by rewrite mark_bits.
    + change (is_active h j = if decide (j = i) then true else is_active h j). case_decide; [|done].
      subst. rewrite (ho_bits _ H). unfold slot_count. rewrite (slot_at_lookup _ _ _ Hi).
      apply Nat.ltb_lt. lia.
  - change (slot_ring s') with r. lia.
  - unfold h', store_packet. destruct (_ =? 0); apply (ho_cursor _ H).
  - intros Hv. rewrite (slot_count_insert h h' i s') by done. change (slot_ring s') with r. rewrite Hcnt.
    assert (Hsame : rr_sticky_slot h' = rr_sticky_slot h /\ rr_quota_left h' = rr_quota_left h /\
                    rr_sticky_valid h' = rr_sticky_valid h)
      by (unfold h', store_packet; by destruct (_ =? 0)).
    destruct Hsame as (E1 & E2 & E3). rewrite E1, E2. rewrite E3 in Hv.
    destruct (ho_sticky _ H Hv) as (? & ? & ?). split_and!; [done|lia|lia|]. case_decide; lia.
Qed.

(** The counters do not matter. *)
Lemma hub_ok_stats st h : hub_ok h -> hub_ok (set_hub_stats st h).
Proof. intros []. by split. Qed.

Lemma try_push_refines pkt h :
  hub_ok h ->
  let '(st, h', back, _) := relay_deferred_hub_try_push pkt h in
  hub_ok h' /\ hub_config h' = hub_config h /\
  backlog_push (hub_config h) pkt (view h) = (RPush st back, view h').
Proof.
  intros H. unfold relay_deferred_hub_try_push, backlog_push, valid_packet. rewrite (ho_mu _ H). cbn [negb].
  rewrite orb_false_r, negb_andb, !negb_involutive.
  destruct ((dp_datagram pkt =? 0)%Z || (dp_len pkt =? 0)%Z) eqn:Hv; [done|].
  apply orb_false_iff in Hv as [Hdg%Z.eqb_neq _]. change (bl_closed (view h)) with (hub_shutdown h).
  destruct (hub_shutdown h) eqn:Hsh; [by unfold view; rewrite Hsh|].
  change (bl_flows (view h)) with (table (slots h)). change (bl_total (view h)) with (total_count h).
  pose proof (claim_slot_spec (dp_flow_id pkt) h H) as Hcl.
  destruct (claim_slot (dp_flow_id pkt) h) as [[i h1]|].
  2:{ destruct Hcl as [Hnone Hsz]. rewrite bool_decide_eq_true_2, (proj2 (Nat.leb_le _ _)) by done.
      split_and!; [by apply hub_ok_stats|done|]. by unfold view; cbn [slots total_count hub_shutdown set_hub_stats set_slot set_slots]; rewrite Hsh. }
  destruct Hcl as (H1 & Hsr & Hroom & s & Hi & Hu & Hid & Hcon & Ht & Hcnt).
  assert (Hno : bool_decide (table (slots h) !! dp_flow_id pkt = None) &&
                (n_flows h <=? size (table (slots h))) = false).
  { apply not_true_is_false. intros [E1%bool_decide_eq_true_1 E2%Nat.leb_le]%andb_true_iff. auto. }
  rewrite Hno. unfold flow_queue. change (bl_flows (view h)) with (table (slots h)).
  rewrite (slot_at_lookup _ _ _ Hi), (sr_config _ _ Hsr), (sr_total _ _ Hsr), <- Hcon.
  pose proof (ho_slots _ H1 i s Hi) as Hsok. rewrite (sr_config _ _ Hsr) in Hsok.
  rewrite (so_capacity _ _ Hsok), <- (contents_length _ (so_ring _ _ Hsok)).
  destruct (total_capacity (hub_config h) <=? total_count h).
  { split_and!; [by apply hub_ok_stats|apply Hsr|]. unfold view.
    cbn [slots total_count hub_shutdown set_hub_stats set_slot set_slots].
    by rewrite Ht, (sr_total _ _ Hsr), (sr_shutdown _ _ Hsr), Hsh. }
  destruct (Nat.leb_spec (per_flow_capacity (hub_config h)) (length (contents (slot_ring s)))) as [Hfull|Hlt].
  { set (s' := mkSlot _ _ _ _). split_and!; [|apply Hsr|].
    - apply hub_ok_stats. destruct (table_insert (slots h1) i s s' (ho_distinct _ H1) Hi Hu) as [Hd _];
        [by rewrite Hu|].
      apply (hub_ok_update h1 (set_slot i s' h1) i s s'); try done.
      + rewrite (sr_config _ _ Hsr). by destruct Hsok.
      + intros j. change (is_active h1 j = if decide (j = i) then 0 <? r_count (slot_ring s) else is_active h1 j).
        case_decide; [|done]. subst. rewrite (ho_bits _ H1). unfold slot_count. by rewrite (slot_at_lookup _ _ _ Hi).
      + apply (ho_cursor _ H1).
      + intros Hv. rewrite (slot_count_insert h1 (set_slot i s' h1) i s') by (done || by eapply lookup_lt_Some).
        destruct (ho_sticky _ H1 Hv) as (Hq1 & [Hq2 Hq3] & Hq). split_and!; [done|done|done|].
        case_decide as E; [|done]. cbn in E. rewrite E in Hq. unfold slot_count in Hq.
        by rewrite (slot_at_lookup _ _ _ Hi) in Hq.
    - unfold view. cbn [slots total_count hub_shutdown set_hub_stats set_slot set_slots].
      destruct (table_insert (slots h1) i s s' (ho_distinct _ H1) Hi Hu) as [_ Ht'];
        [by rewrite Hu|].
      rewrite Ht', (sr_total _ _ Hsr), (sr_shutdown _ _ Hsr), Hsh. do 2 f_equal.
      change (slot_ring s') with (slot_ring s). change (wire_flow_id s') with (wire_flow_id s).
      rewrite Hid, Ht. symmetry. apply insert_insert_eq. }
  rewrite contents_length, <- (so_capacity _ _ Hsok) in Hlt by apply (so_ring _ _ Hsok).
  destruct (store_packet_spec i s pkt h1 H1 Hi Hu Hid Hdg Hlt) as (H2 & Hsh2 & Htot & Ht2).
  assert (Hcfg : hub_config (fst (store_packet i pkt h1)) = hub_config h1)
    by (unfold store_packet; by destruct (_ =? 0)).
  destruct (store_packet i pkt h1) as [h2 sig]. cbn [fst] in *.
  split_and!; [done|by rewrite Hcfg, (sr_config _ _ Hsr)|]. unfold view.
  rewrite Ht2, Htot, Hsh2, (sr_total _ _ Hsr), (sr_shutdown _ _ Hsr), Hsh, Ht. unfold put_packet.
  by rewrite insert_insert_eq.
Qed.

(** ** Pop *)

(** How the round robin chose slot [i]: the slot whose turn it is, or the next one with work. *)
Inductive chosen (h : Hub) (i : nat) : nat -> nat -> Prop :=
  | chosen_sticky : rr_sticky_valid h = true -> i = rr_sticky_slot h ->
      chosen h i (rr_cursor h) (rr_quota_left h)
  | chosen_next d : rr_sticky_valid h = false -> d < n_flows h ->
      i = (rr_cursor h + d) mod n_flows h ->
      (forall d', d' < d -> slot_count h ((rr_cursor h + d') mod n_flows h) = 0) ->
      chosen h i ((i + 1) mod n_flows h) RELAY_DEFERRED_QUOTA.

Lemma select_rr_spec h :
  hub_ok h ->
  match select_rr_slot h with
  | (None, h1) => (forall i, slot_count h i = 0) /\ hub_ok h1 /\ view h1 = view h /\
      hub_config h1 = hub_config h
  | (Some i, h1) => i < n_flows h /\ 0 < slot_count h i /\
      exists cursor quota, chosen h i cursor quota /\ h1 = set_rr cursor true i quota h
  end.
Proof.
  intros H. pose proof (config_bounds _ (ho_config _ H)) as (Hn & _ & _). unfold select_rr_slot.
  rewrite (proj2 (Nat.eqb_neq (n_flows h) 0)), orb_false_r by lia.
  destruct (Z.eqb_spec (active_bits h) 0) as [E|E].
  { split_and!; [by apply no_work|done|done|done]. }
  destruct (rr_sticky_valid h) eqn:Hv; cbn [andb].
  - destruct (ho_sticky _ H Hv) as (Hs1 & Hs2 & Hs3). rewrite (proj2 (Nat.ltb_lt 0 _)) by lia. cbn [andb].
    rewrite has_work_spec, (proj2 (Nat.ltb_lt 0 _)) by done.
    split_and!; [done|done|]. exists (rr_cursor h), (rr_quota_left h). split; [by constructor|].
    destruct h; cbn in *. by subst.
  - destruct (probe (has_work h) (rr_cursor h) (n_flows h)) as [i|] eqn:Hp.
    + apply probe_Some in Hp as (d & Hd & Hi & Hw & Hlt); [|lia].
      rewrite has_work_spec in Hw by done. apply Nat.ltb_lt in Hw.
      split_and!; [rewrite Hi; apply Nat.mod_upper_bound; lia|done|].
      eexists _, _. split; [|done]. apply (chosen_next h i d); try done.
      intros d' Hd'. specialize (Hlt d' Hd'). rewrite has_work_spec in Hlt by done.
      apply Nat.ltb_ge in Hlt. lia.
    + exfalso. apply E, no_work; [done|]. intros i.
      destruct (decide (i < n_flows h)) as [Hi|Hi].
      * pose proof (probe_None _ _ _ i Hp Hi) as Hw. rewrite has_work_spec in Hw by done.
        apply Nat.ltb_ge in Hw. lia.
      * unfold slot_count, slot_at. rewrite nth_overflow; [done|]. rewrite (ho_length _ H). lia.
Qed.

(** The state after slot [i] gave its head away; [r] is its ring. *)
Definition popped (h : Hub) (i : nat) (r : ring Pkt) : Hub :=
  let slot := slot_at h i in
  let h := set_slot i (mkSlot (in_use slot) (wire_flow_id slot) r (slot_drop_overflow_flow slot)) h in
  let h := set_total (total_count h - 1) h in
  let h := set_hub_stats (count_dequeue (hub_stats h)) h in
  let h := spend_quota i h in
  if slot_count h i =? 0 then release_empty_slot i h else h.

Lemma pop_slot_ok cfg s p l r :
  slot_ok cfg s -> contents (slot_ring s) = p :: l ->
  take_head (Some packet_clear) (slot_ring s) = Some (p, r) ->
  ring_ok r -> contents r = l -> r_capacity r = r_capacity (slot_ring s) ->
  in_use s = true -> 0 < r_count (slot_ring s) ->
  slot_ok cfg (mkSlot (in_use s) (wire_flow_id s) r (slot_drop_overflow_flow s)).
Proof.
  intros [Hr Hc Hcl Ho Hf Hu] Hcon Et Hok Hl Hcap Hin Hpos. rewrite Hcon in Ho, Hf.
  apply list.Forall_cons in Ho as [_ Ho]. apply list.Forall_cons in Hf as [_ Hf].
  split; cbn [slot_ring in_use wire_flow_id]; try done; try congruence.
  by apply (clean_take_head blank packet_clear (slot_ring s) p r).
Qed.

Lemma slot_count_lookup h i s : slots h !! i = Some s -> slot_count h i = r_count (slot_ring s).
Proof. intros H. unfold slot_count. by rewrite (slot_at_lookup _ _ _ H). Qed.

Lemma popped_spec h i s p l r quota :
  hub_ok h -> slots h !! i = Some s -> in_use s = true ->
  rr_sticky_valid h = true -> rr_sticky_slot h = i -> rr_quota_left h = quota ->
  contents (slot_ring s) = p :: l -> take_head (Some packet_clear) (slot_ring s) = Some (p, r) ->
  ring_ok r -> contents r = l -> r_capacity r = r_capacity (slot_ring s) ->
  r_count r = r_count (slot_ring s) - 1 -> 0 < r_count (slot_ring s) ->
  let h' := popped h i r in
  hub_ok h' /\ hub_config h' = hub_config h /\ hub_shutdown h' = hub_shutdown h /\
  total_count h' = total_count h - 1 /\ rr_cursor h' = rr_cursor h /\
  (rr_sticky_valid h' = true -> rr_sticky_slot h' = i /\ rr_quota_left h' = quota - 1) /\
  (forall j, j <> i -> slot_at h' j = slot_at h j) /\
  table (slots h') = if bool_decide (l = []) then delete (wire_flow_id s) (table (slots h))
                     else <[wire_flow_id s := l]> (table (slots h)).
Proof.
  intros H Hi Hu Hv Hst Hq Hcon Et Hok Hl Hcap Hcnt Hpos h'.
  pose proof (pop_slot_ok _ s p l r (ho_slots _ H i s Hi) Hcon Et Hok Hl Hcap Hu Hpos) as Hsok.
  set (s1 := mkSlot (in_use s) (wire_flow_id s) r (slot_drop_overflow_flow s)) in *.
  pose proof (lookup_lt_Some _ _ _ Hi) as Hil. destruct (ho_sticky _ H Hv) as (Hs1 & Hs2 & _).
  set (h1 := set_hub_stats (count_dequeue (hub_stats h)) (set_total (total_count h - 1) (set_slot i s1 h))).
  set (h2 := spend_quota i h1).
  assert (Hc1 : slot_count h1 i = r_count r).
  { rewrite (slot_count_insert h h1 i s1) by done. by rewrite decide_True. }
  assert (Hrr : (h2 = set_rr (rr_cursor h) false (rr_sticky_slot h) 0 h1 /\ (quota - 1 = 0 \/ r_count r = 0)) \/
                (h2 = set_rr (rr_cursor h) true (rr_sticky_slot h) (quota - 1) h1 /\ 0 < quota - 1 /\ 0 < r_count r)).
  { unfold h2, spend_quota. change (rr_sticky_valid h1) with (rr_sticky_valid h).
    change (rr_sticky_slot h1) with (rr_sticky_slot h). change (rr_quota_left h1) with (rr_quota_left h).
    rewrite Hv, Hst, Nat.eqb_refl, Hq, (proj2 (Nat.ltb_lt 0 quota)), Hc1 by lia. cbn [andb].
    destruct (Nat.eqb_spec (quota - 1) 0); [by left; split; [|left]|].
    destruct (Nat.eqb_spec (r_count r) 0); [by left; split; [|right]|]. right. split_and!; [done|lia|lia]. }
  assert (Hs2' : slots h2 = <[i := s1]> (slots h)) by (destruct Hrr as [[-> _]|[-> _]]; done).
  assert (Hc2 : slot_count h2 i = r_count r).
  { rewrite (slot_count_insert h h2 i s1) by done. by rewrite decide_True. }
  assert (Hh' : h' = if r_count r =? 0 then release_empty_slot i h2 else h2).
  { rewrite <- Hc2. unfold h', popped. rewrite (slot_at_lookup _ _ _ Hi). done. }
  assert (Hsum : total_count h = sum_list ((fun s => r_count (slot_ring s)) <$> slots h)) by apply (ho_total _ H).
  assert (Htot : r_count (slot_ring s) <= total_count h).
  { pose proof (sum_list_insert ((fun s => r_count (slot_ring s)) <$> slots h) i (r_count (slot_ring s)) 0) as Hs.
    rewrite list_lookup_fmap, Hi in Hs. specialize (Hs eq_refl). lia. }
  destruct (Nat.eqb_spec (r_count r) 0) as [H0|H0].
  - (* the slot is released *)
    assert (l = []) as -> by (rewrite <- Hl; by apply contents_nil). rewrite bool_decide_eq_true_2 by done.
    destruct Hrr as [[E2 _]|[_ [_ ?]]]; [|lia].
    set (s2 := mkSlot false 0 (reset_indices r) (slot_drop_overflow_flow s)).
    assert (E : h' = set_slot i s2 (clear_active i h2)).
    { rewrite Hh'. unfold release_empty_slot. rewrite (slot_at_lookup h2 i s1).
      - change (slot_ring s1) with r. by rewrite H0.
      - rewrite Hs2'. by apply list_lookup_insert_eq. }
    assert (Hslots : slots h' = <[i := s2]> (slots h)).
    { rewrite E. cbn. rewrite Hs2'. by rewrite list_insert_insert_eq. }
    destruct (table_delete (slots h) i s s2 (ho_distinct _ H) Hi Hu eq_refl) as [Hd Ht].
    assert (Hsok2 : slot_ok (hub_config h) s2).
    { pose proof (reset_ok _ s1 0 Hsok H0 false) as Hro. unfold s2, reset_indices. rewrite H0. exact Hro. }
    assert (Hbits : forall j, is_active h' j = if decide (j = i) then 0 <? r_count (slot_ring s2) else is_active h j).
    { intros j. cbn. rewrite E, E2, H0. unfold is_active. cbn. by rewrite clear_bits. }
    assert (Hvalid : rr_sticky_valid h' = false) by (by rewrite E, E2).
    split_and!; try (by rewrite E, E2).
    + apply (hub_ok_update h h' i s s2); try done; try (by rewrite E, E2).
      * by rewrite Hslots.
      * rewrite E, E2. cbn. lia.
      * rewrite E, E2. apply (ho_cursor _ H).
    + intros j Hj. by apply (slot_at_insert h h' i s2).
    + by rewrite Hslots.
  - (* packets remain *)
    assert (Hne : l <> []) by (rewrite <- Hl; by rewrite contents_nil).
    rewrite bool_decide_eq_false_2 by done. rewrite Hh'. clear Hh'.
    assert (Hold : if in_use s then wire_flow_id s = wire_flow_id s1 else table (slots h) !! wire_flow_id s1 = None)
      by (by rewrite Hu).
    destruct (table_insert (slots h) i s s1 (ho_distinct _ H) Hi Hu Hold) as [Hd Ht].
    assert (Hbits : forall j, is_active h2 j = if decide (j = i) then 0 <? r_count (slot_ring s1) else is_active h j).
    { intros j. change (slot_ring s1) with r. rewrite (proj2 (Nat.ltb_lt 0 (r_count r))) by lia.
      assert (is_active h2 j = is_active h j) as -> by (destruct Hrr as [[-> _]|[-> _]]; done).
      case_decide; [|done]. subst j. rewrite (ho_bits _ H), (slot_count_lookup _ _ _ Hi). apply Nat.ltb_lt. lia. }
    assert (Hcfg : hub_config h2 = hub_config h) by (destruct Hrr as [[-> _]|[-> _]]; done).
    assert (Hmu : mu_inited h2 = mu_inited h) by (destruct Hrr as [[-> _]|[-> _]]; done).
    assert (Hshut : hub_shutdown h2 = hub_shutdown h) by (destruct Hrr as [[-> _]|[-> _]]; done).
    assert (Hcur : rr_cursor h2 = rr_cursor h) by (destruct Hrr as [[-> _]|[-> _]]; done).
    assert (Htot2 : total_count h2 = total_count h - 1) by (destruct Hrr as [[-> _]|[-> _]]; done).
    assert (Hsticky : rr_sticky_valid h2 = true -> rr_sticky_slot h2 = i /\ rr_quota_left h2 = quota - 1 /\ 0 < quota - 1).
    { destruct Hrr as [[-> _]|[-> (Hq1 & _)]]; cbn; [done|auto]. }
    split_and!; try done.
    + apply (hub_ok_update h h2 i s s1); try done.
      * by rewrite Hs2'.
      * rewrite Htot2. change (slot_ring s1) with r. lia.
      * rewrite Hcur. apply (ho_cursor _ H).
      * intros Hv2. destruct (Hsticky Hv2) as (E1 & E2 & Hq1).
        rewrite E1, E2, Hc2. lia.
    + intros Hv2. by destruct (Hsticky Hv2) as (E1 & E2 & _).
    + intros j Hj. by apply (slot_at_insert h h2 i s1).
    + rewrite Hs2', Ht. change (slot_ring s1) with r. change (wire_flow_id s1) with (wire_flow_id s). by rewrite Hl.
Qed.

(** A pop that serves slot [i]. *)
Record serves (h : Hub) (i : nat) (pkt : Pkt) (h' : Hub) : Prop := {
  sv_index : i < n_flows h;
  sv_ok : hub_ok h';
  sv_config : hub_config h' = hub_config h;
  sv_others : forall j, j <> i -> slot_at h' j = slot_at h j;
  sv_turn : exists cursor quota, chosen h i cursor quota /\ rr_cursor h' = cursor /\
    (rr_sticky_valid h' = true -> rr_sticky_slot h' = i /\ rr_quota_left h' = quota - 1);
  sv_packet : exists l, contents (slot_ring (slot_at h i)) = pkt :: l /\
    view h' = mkBacklog (if bool_decide (l = []) then delete (wire_flow_id (slot_at h i)) (bl_flows (view h))
                         else <[wire_flow_id (slot_at h i) := l]> (bl_flows (view h)))
                (bl_total (view h) - 1) (bl_closed (view h));
  sv_in_use : in_use (slot_at h i) = true
}.

Lemma busy_in_use h i : hub_ok h -> i < n_flows h -> 0 < slot_count h i -> in_use (slot_at h i) = true.
Proof.
  intros H Hi Hc. rewrite <- (ho_length _ H) in Hi. pose proof (slot_lookup h i Hi) as Hs.
  destruct (in_use (slot_at h i)) eqn:E; [done|].
  pose proof (so_unused _ _ (ho_slots _ H i _ Hs) E). unfold slot_count in Hc. lia.
Qed.

Lemma set_rr_ok h i cursor quota :
  hub_ok h -> i < n_flows h -> 0 < slot_count h i -> chosen h i cursor quota ->
  hub_ok (set_rr cursor true i quota h).
Proof.
  intros H Hi Hc Hch. pose proof (config_bounds _ (ho_config _ H)) as (Hn & _ & _).
  assert (Hb : cursor < n_flows h /\ 0 < quota <= RELAY_DEFERRED_QUOTA).
  { destruct Hch as [Hv ->|d Hv Hd -> _].
    - destruct (ho_sticky _ H Hv) as (_ & ? & _). split; [apply (ho_cursor _ H)|done].
    - split; [apply Nat.mod_upper_bound; lia|unfold RELAY_DEFERRED_QUOTA; lia]. }
  destruct Hb. destruct H. by split.
Qed.

Lemma try_pop_spec h :
  hub_ok h ->
  ((forall i, slot_count h i = 0) /\ exists h',
     relay_deferred_hub_try_pop h =
       Some (if hub_shutdown h then RELAY_DEFERRED_ERR_SHUTDOWN else RELAY_DEFERRED_ERR_EMPTY, packet_clear, h') /\
     hub_ok h' /\ view h' = view h /\ hub_config h' = hub_config h) \/
  (exists i pkt h', relay_deferred_hub_try_pop h = Some (RELAY_DEFERRED_OK, pkt, h') /\ serves h i pkt h').
Proof.
  intros H. unfold relay_deferred_hub_try_pop. rewrite (ho_mu _ H). cbn [negb].
  pose proof (select_rr_spec h H) as Hsel. destruct (select_rr_slot h) as [[i|] h1].
  - right. destruct Hsel as (Hi & Hc & cursor & quota & Hch & E1).
    pose proof (set_rr_ok h i cursor quota H Hi Hc Hch) as H1. rewrite <- E1 in H1.
    pose proof (busy_in_use h i H Hi Hc) as Hu.
    assert (Hs : slots h1 !! i = Some (slot_at h i)).
    { rewrite E1. apply (slot_lookup h). by rewrite (ho_length _ H). }
    set (s := slot_at h i) in *. pose proof (ho_slots _ H1 i s Hs) as Hsok.
    destruct (contents_cons (slot_ring s) (so_ring _ _ Hsok) Hc) as (p & l & Hcon).
    destruct (take_head_spec (Some packet_clear) (slot_ring s) p l (so_ring _ _ Hsok) Hcon)
      as (r & Et & Hr & Hl & Hcap & Hcnt & Hpos).
    rewrite (slot_at_lookup _ _ _ Hs), Et. cbn [mbind option_bind].
    assert (Hpop : rr_sticky_valid h1 = true /\ rr_sticky_slot h1 = i /\ rr_quota_left h1 = quota)
      by (by rewrite E1).
    destruct Hpop as (Hv & Hst & Hq).
    destruct (popped_spec h1 i s p l r quota H1 Hs Hu Hv Hst Hq Hcon Et Hr Hl Hcap Hcnt Hpos)
      as (H' & Hcfg & Hsh & Htot & Hcur & Hturn & Hoth & Htab).
    exists i, p, (popped h1 i r). split.
    { unfold popped. by rewrite (slot_at_lookup _ _ _ Hs). }
    split; try done.
    + by rewrite Hcfg, E1.
    + intros j Hj. rewrite Hoth by done. by rewrite E1.
    + exists cursor, quota. split_and!; [done|by rewrite Hcur, E1|done].
    + exists l. split; [done|]. unfold view. rewrite Htab, Htot, Hsh, E1. done.
  - left. destruct Hsel as (Hz & H1 & Hview & Hcfg). split; [done|]. exists h1.
    assert (hub_shutdown h1 = hub_shutdown h) as -> by (by apply (f_equal bl_closed) in Hview).
    done.
Qed.

Lemma hub_step_refines h o :
  hub_ok h -> exists res h', hub_step h o = Some (res, h') /\ hub_ok h' /\
    hub_config h' = hub_config h /\ backlog_step (hub_config h) (view h) o res (view h').
Proof.
  intros H. destruct o as [pkt| |]; cbn [hub_step].
  - pose proof (try_push_refines pkt h H) as Hp.
    destruct (relay_deferred_hub_try_push pkt h) as [[[st h'] back] sig]. destruct Hp as (H' & Hcfg & Hb).
    eexists _, h'. split_and!; [done..|]. by constructor.
  - destruct (try_pop_spec h H) as [(Hz & h' & E & H' & Hview & Hcfg)|(i & pkt & h' & E & Hsv)];
      rewrite E; cbn [mbind option_bind]; eexists _, h'.
    + split_and!; [done..|]. rewrite Hview. apply (step_pop_empty _ (view h)). intros f l Hf.
      apply table_lookup in Hf as (j & s & Hj & _ & _ & Hl); [|apply (ho_distinct _ H)].
      rewrite <- Hl. apply contents_nil; [apply (ho_slots _ H j s Hj)|].
      rewrite <- (slot_count_lookup _ _ _ Hj). apply Hz.
    + destruct Hsv as [Hi H' Hcfg _ _ (l & Hcon & Hview) Hu]. split_and!; [done..|]. rewrite Hview.
      constructor. apply table_lookup; [apply (ho_distinct _ H)|]. exists i, (slot_at h i).
      split_and!; try done. apply slot_lookup. by rewrite (ho_length _ H).
  - eexists _, _. split; [done|]. unfold relay_deferred_hub_shutdown. rewrite (ho_mu _ H). cbn [negb].
    split; [by destruct H; split|]. split; [done|]. apply step_shutdown.
Qed.

(** ** Every packet comes out, or is freed, exactly once *)

Definition items (b : backlog) : list Pkt := concat (map_to_list (bl_flows b)).*2.

Lemma items_insert m f q q' t c :
  m !! f = Some q ->
  items (mkBacklog (<[f := q']> m) t c) ++ q ≡ₚ items (mkBacklog m t c) ++ q'.
Proof.
  intros Hf. unfold items. cbn [bl_flows]. rewrite <- insert_delete_eq.
  rewrite map_to_list_insert by apply lookup_delete_eq. rewrite <- (map_to_list_delete m f q) by done.
  csimpl. solve_Permutation.
Qed.

Lemma items_delete m f q t c :
  m !! f = Some q -> items (mkBacklog (delete f m) t c) ++ q ≡ₚ items (mkBacklog m t c).
Proof.
  intros Hf. unfold items. cbn [bl_flows]. rewrite <- (map_to_list_delete m f q) by done.
  csimpl. solve_Permutation.
Qed.

Lemma items_new m f t c :
  m !! f = None -> items (mkBacklog (<[f := []]> m) t c) ≡ₚ items (mkBacklog m t c).
Proof. intros Hf. unfold items. cbn [bl_flows]. by rewrite map_to_list_insert. Qed.

(** What a call takes in and hands out. *)
Definition accepted (o : hub_op) (res : hub_res) : list Pkt :=
  match o, res with HPush pkt, RPush RELAY_DEFERRED_OK _ => [pkt] | _, _ => [] end.
Definition handed (res : hub_res) : list Pkt :=
  match res with RPop RELAY_DEFERRED_OK pkt => [pkt] | _ => [] end.

Lemma items_touch b f t :
  items (mkBacklog (<[f := flow_queue b f]> (bl_flows b)) t (bl_closed b)) ≡ₚ items b.
Proof.
  unfold flow_queue. destruct (bl_flows b !! f) as [q|] eqn:E; cbn [default].
  - by rewrite insert_id.
  - by apply (items_new _ _ t (bl_closed b)).
Qed.

Lemma backlog_step_conserves cfg b o res b' :
  backlog_step cfg b o res b' -> items b ++ accepted o res ≡ₚ handed res ++ items b'.
Proof.
  intros [pkt res' b1 Hp|f pkt l Hf|_|]; cbn [accepted handed app].
  - unfold backlog_push in Hp.
    repeat match type of Hp with context [if negb ?x then _ else _] => destruct x; cbn [negb] in Hp end;
      [|by simplify_eq; rewrite app_nil_r].
    destruct (bl_closed b) eqn:Hc; [simplify_eq; by rewrite app_nil_r|].
    destruct (_ && _); [simplify_eq; by rewrite app_nil_r|].
    destruct (_ <=? bl_total b); [simplify_eq; rewrite app_nil_r, <- Hc; symmetry; apply items_touch|].
    destruct (_ <=? length _); [simplify_eq; rewrite app_nil_r, <- Hc; symmetry; apply items_touch|].
    simplify_eq. rewrite app_nil_l. set (f := dp_flow_id pkt). set (q := flow_queue b f).
    rewrite <- (items_touch b f 0). fold q.
    assert (Hq : <[f := q]> (bl_flows b) !! f = Some q) by apply lookup_insert_eq.
    set (q' := if (dp_prefer_head pkt =? 0)%Z then q ++ [pkt] else pkt :: q).
    pose proof (items_insert _ f q q' 0 (bl_closed b) Hq) as Hi. rewrite insert_insert_eq in Hi.
    assert (Hq' : q' ≡ₚ [pkt] ++ q) by (unfold q'; destruct (_ =? _)%Z; [apply Permutation_app_comm|done]).
    apply (Permutation_app_inv_r q). rewrite <- app_assoc, <- Hq'. symmetry. exact Hi.
  - rewrite app_nil_r. destruct b as [m t c]. cbn in Hf |- *. case_bool_decide as El.
    + subst. rewrite <- (items_delete m f [pkt] t c) by done. apply Permutation_app_comm.
    + pose proof (items_insert m f (pkt :: l) l t c Hf) as Hi.
      apply (Permutation_app_inv_r l). rewrite <- Hi. unfold items. cbn. solve_Permutation.
  - rewrite app_nil_r. by destruct (bl_closed b).
  - by rewrite app_nil_r.
Qed.

(** The hub holds the abstract items, and the destructor frees exactly those. *)
Lemma items_slots h : hub_ok h -> items (view h) ≡ₚ slots h ≫= (fun s => contents (slot_ring s)).
Proof.
  intros H. unfold items, view, table. cbn [bl_flows].
  rewrite map_to_list_to_map by apply table_nodup, (ho_distinct _ H).
  pose proof (ho_slots _ H) as Hs. clear H. induction (slots h) as [|s ss IH]; [done|].
  assert (Hrest : forall i t, ss !! i = Some t -> slot_ok (hub_config h) t) by (intros i t Ht; by apply (Hs (S i))).
  specialize (IH Hrest). rewrite bind_cons. cbn [omap list_omap]. unfold entry at 1.
  destruct (in_use s) eqn:Hu; csimpl.
  - by rewrite IH.
  - pose proof (Hs 0 s eq_refl) as Hok.
    by rewrite (proj2 (contents_nil _ (so_ring _ _ Hok)) (so_unused _ _ Hok Hu)).
Qed.

Lemma destroy_frees h :
  hub_ok h -> fst (relay_deferred_hub_destroy h) ≡ₚ dp_datagram <$> items (view h).
Proof.
  intros H. rewrite items_slots by done. unfold relay_deferred_hub_destroy. rewrite (ho_mu _ H).
  cbn [fst slots set_shutdown]. pose proof (ho_slots _ H) as Hs. clear H.
  induction (slots h) as [|s ss IH]; [done|].
  rewrite !bind_cons, fmap_app. apply Permutation_app; [|apply IH; intros i t Ht; by apply (Hs (S i))].
  pose proof (Hs 0 s eq_refl) as Hok. cbn [free_slot_ring fst]. apply fmap_Permutation.
  apply (clean_filter blank); apply Hok.
Qed.

Fixpoint hub_run (h : Hub) (ops : list hub_op) : option (list hub_res * Hub) :=
  match ops with
  | [] => Some ([], h)
  | o :: ops' => '(res, h1) ← hub_step h o; '(rest, h2) ← hub_run h1 ops'; Some (res :: rest, h2)
  end.

Inductive backlog_trace (cfg : RelayDeferredHubConfig) : backlog -> list hub_op -> list hub_res -> backlog -> Prop :=
  | trace_nil b : backlog_trace cfg b [] [] b
  | trace_cons b o res b1 ops rs b2 :
      backlog_step cfg b o res b1 -> backlog_trace cfg b1 ops rs b2 ->
      backlog_trace cfg b (o :: ops) (res :: rs) b2.

Fixpoint accepted_all (ops : list hub_op) (rs : list hub_res) : list Pkt :=
  match ops, rs with
  | o :: ops', res :: rs' => accepted o res ++ accepted_all ops' rs'
  | _, _ => []
  end.

Lemma trace_conserves cfg b ops rs b' :
  backlog_trace cfg b ops rs b' -> items b ++ accepted_all ops rs ≡ₚ (rs ≫= handed) ++ items b'.
Proof.
  induction 1 as [b|b o res b1 ops rs b2 Hs _ IH]; [cbn; by rewrite app_nil_r|].
  cbn [accepted_all]. rewrite bind_cons, app_assoc, (backlog_step_conserves _ _ _ _ _ Hs), <- !app_assoc.
  by rewrite IH.
Qed.

Lemma hub_run_refines ops h :
  hub_ok h -> exists rs h', hub_run h ops = Some (rs, h') /\ hub_ok h' /\ hub_config h' = hub_config h /\
    backlog_trace (hub_config h) (view h) ops rs (view h').
Proof.
  revert h. induction ops as [|o ops IH]; intros h H; [exists [], h; split_and!; try done; constructor|].
  destruct (hub_step_refines h o H) as (res & h1 & E & H1 & Hcfg & Hs).
  destruct (IH h1 H1) as (rs & h2 & E2 & H2 & Hcfg2 & Ht). exists (res :: rs), h2.
  cbn [hub_run]. rewrite E. cbn. rewrite E2. cbn. rewrite Hcfg in Ht, Hcfg2.
  split_and!; try done. by econstructor.
Qed.

Lemma hub_init_ok cfg h0 :
  config_valid cfg = true ->
  exists h, relay_deferred_hub_init false false false cfg h0 = (RELAY_DEFERRED_OK, h) /\ hub_ok h /\
    hub_config h = cfg /\ view h = mkBacklog ∅ 0 false.
Proof.
  intros Hv. pose proof (config_bounds _ Hv) as (Hn & Hp & Ht). unfold relay_deferred_hub_init. rewrite Hv.
  cbn [negb orb]. set (s := mkSlot _ _ _ _). eexists. split; [done|].
  assert (Hs : forall i t, replicate (max_active_flows cfg) s !! i = Some t -> t = s)
    by (intros i t [-> _]%lookup_replicate; done).
  assert (Hcount : forall i, slot_count (mkHub cfg (replicate (max_active_flows cfg) s) 0 0 0 false 0 0 0
                      false true true ds_zero 0 0) i = 0).
  { intros i. unfold slot_count, slot_at. cbn [slots]. rewrite nth_lookup.
    destruct (replicate _ s !! i) eqn:E; [|done]. by apply Hs in E as ->. }
  split_and!; [|done|].
  - split; cbn [hub_config slots mu_inited]; try done.
    + apply length_replicate.
    + intros i t Ht'. apply Hs in Ht' as ->. split; cbn; try done.
      * by apply ring_init_ok.
      * by apply clean_init.
    + intros i j t u Hi Hj Hu. apply Hs in Hi as ->. done.
    + intros i. rewrite Hcount. apply Z.bits_0.
    + cbn [total_count]. symmetry. rewrite fmap_replicate. cbn. clear. by induction (max_active_flows cfg).
    + cbn. lia.
  - unfold view. cbn [slots total_count hub_shutdown]. f_equal. unfold table.
    assert (omap entry (replicate (max_active_flows cfg) s) = []) as ->; [|done].
    clear. by induction (max_active_flows cfg).
Qed.

(** C30: the backlog refines a queue per flow and loses nothing.  From [relay_deferred_hub_init] on,
    any sequence of pushes, pops and shutdown stays inside the rings and is a run of the abstract
    backlog: a push is refused exactly when the hub is closed, the table or one of the two limits
    is full, and otherwise enters the queue of its flow at the end (or at the front, if it asks
    to); a pop hands out the head of some flow's queue, and reports an empty hub only when every
    queue is empty.  The datagrams accepted are, as a multiset, those handed out and those
    [relay_deferred_hub_destroy] frees. *)
Theorem relay_deferred_refines_queues cfg h0 ops :
  config_valid cfg = true ->
  exists h rs h', relay_deferred_hub_init false false false cfg h0 = (RELAY_DEFERRED_OK, h) /\
    hub_run h ops = Some (rs, h') /\
    backlog_trace cfg (mkBacklog ∅ 0 false) ops rs (view h') /\
    dp_datagram <$> accepted_all ops rs ≡ₚ
      (dp_datagram <$> (rs ≫= handed)) ++ fst (relay_deferred_hub_destroy h').
Proof.
  intros Hv. destruct (hub_init_ok cfg h0 Hv) as (h & E & H & Hcfg & Hview).
  destruct (hub_run_refines ops h H) as (rs & h' & Er & H' & _ & Ht). rewrite Hcfg, Hview in Ht.
  exists h, rs, h'. split_and!; [done..|]. rewrite destroy_frees by done.
  pose proof (trace_conserves _ _ _ _ _ Ht) as Hc. change (items (mkBacklog ∅ 0 false)) with (@nil Pkt) in Hc.
  rewrite app_nil_l in Hc. by rewrite Hc, fmap_app.
Qed.

Definition sample_dp (n f head : Z) : Pkt := mkDp n 10 f 3 head.
Definition sample_cfg : RelayDeferredHubConfig := mkDcfg 2 2 2.
Definition sample_hub_ops : list hub_op :=
  [HPush (sample_dp 1 7 0); HPush (sample_dp 2 7 1); HPush (sample_dp 3 8 0); HPop; HPush (sample_dp 4 9 0);
   HPush (sample_dp 3 8 0); HShutdown; HPop].

Lemma relay_deferred_refines_queues_witness :
  config_valid sample_cfg = true /\
  exists h rs h', relay_deferred_hub_init false false false sample_cfg hub_zero = (RELAY_DEFERRED_OK, h) /\
    hub_run h sample_hub_ops = Some (rs, h') /\
    backlog_trace sample_cfg (mkBacklog ∅ 0 false) sample_hub_ops rs (view h') /\
    dp_datagram <$> accepted_all sample_hub_ops rs ≡ₚ
      (dp_datagram <$> (rs ≫= handed)) ++ fst (relay_deferred_hub_destroy h').
Proof. split; [reflexivity|]. apply (relay_deferred_refines_queues sample_cfg hub_zero sample_hub_ops eq_refl). Defined.

(** A slot can leak.  A push refused because the hub is full has already claimed a slot for
    its flow, and nothing releases a slot without packets: here one flow holds one packet, the
    limits are two flows and two packets, and a packet of another flow is refused because the
    table is full. *)
Theorem relay_deferred_slot_leak :
  exists h rs h', relay_deferred_hub_init false false false sample_cfg hub_zero = (RELAY_DEFERRED_OK, h) /\
    hub_run h [HPush (sample_dp 1 7 0); HPush (sample_dp 2 7 0); HPush (sample_dp 3 8 0); HPop] = Some (rs, h') /\
    (fun s => (wire_flow_id s, contents (slot_ring s))) <$> slots h' = [(8, []); (7, [sample_dp 2 7 0])]%Z /\
    relay_deferred_hub_total_count h' < total_capacity sample_cfg /\
    fst (fst (fst (relay_deferred_hub_try_push (sample_dp 4 9 0) h'))) = RELAY_DEFERRED_ERR_TABLE_FULL.
Proof.
  eexists _, _, _. split; [vm_compute; reflexivity|]. split; [vm_compute; reflexivity|].
  split_and!; [done|vm_compute; lia|done].
Qed.

(** * The relay's backlog: fairness between flows and wake-ups of the worker *)

(** ** Fairness *)

(** Slot [i] holds packets of flow [f]. *)
Definition holds (h : Hub) (i : nat) (f : Z) : Prop :=
  i < n_flows h /\ in_use (slot_at h i) = true /\ wire_flow_id (slot_at h i) = f /\ 0 < slot_count h i.

(** Slots between the cursor and slot [i], and the pops before slot [i] is served. *)
Definition distance (h : Hub) (i : nat) : nat := (i + n_flows h - rr_cursor h) mod n_flows h.

Definition rank (h : Hub) (i : nat) : nat :=
  (if rr_sticky_valid h && negb (rr_sticky_slot h =? i) then rr_quota_left h else 0) +
  RELAY_DEFERRED_QUOTA * distance h i.

Lemma rank_bound h i : hub_ok h -> rank h i <= RELAY_DEFERRED_QUOTA * n_flows h.
Proof.
  intros H. pose proof (config_bounds _ (ho_config _ H)) as (Hn & _ & _). unfold rank.
  assert (Hd : distance h i < n_flows h) by (apply Nat.mod_upper_bound; lia).
  assert (Hq : (if rr_sticky_valid h && negb (rr_sticky_slot h =? i) then rr_quota_left h else 0) <=
               RELAY_DEFERRED_QUOTA).
  { destruct (rr_sticky_valid h) eqn:Hv; cbn [andb]; [|lia].
    destruct (ho_sticky _ H Hv) as (_ & ? & _). destruct (negb _); lia. }
  nia.
Qed.

Lemma distance_spec h i :
  hub_ok h -> i < n_flows h -> i = (rr_cursor h + distance h i) mod n_flows h.
Proof.
  intros H Hi. pose proof (ho_cursor _ H). unfold distance. rewrite Nat.Div0.add_mod_idemp_r.
  replace (rr_cursor h + (i + n_flows h - rr_cursor h)) with (i + 1 * n_flows h) by lia.
  rewrite Nat.Div0.mod_add. by rewrite Nat.mod_small.
Qed.

Lemma distance_unique n c d i : c < n -> d < n -> i = (c + d) mod n -> (i + n - c) mod n = d.
Proof.
  intros Hc Hd ->. rewrite (mod_wrap n (c + d)) by lia. case_decide.
  - rewrite mod_wrap by lia. case_decide; lia.
  - rewrite mod_wrap by lia. case_decide; lia.
Qed.

(** A pop that serves another slot brings slot [i] nearer. *)
Lemma rank_decreases h i f j pkt h' :
  hub_ok h -> holds h i f -> serves h j pkt h' -> j <> i -> holds h' i f /\ rank h' i < rank h i.
Proof.
  intros H (Hi & Hu & Hf & Hc) Hsv Hne. destruct Hsv as [Hj H' Hcfg Hoth (cursor & quota & Hch & Hcur & Hturn) _ _].
  pose proof (ho_cursor _ H) as Hlt. pose proof (Hoth i ltac:(done)) as Hsame.
  split; [unfold holds, slot_count; rewrite Hcfg, Hsame; done|].
  assert (Hq' : (if rr_sticky_valid h' && negb (rr_sticky_slot h' =? i) then rr_quota_left h' else 0) <= quota - 1).
  { destruct (rr_sticky_valid h') eqn:Hv; cbn [andb]; [|lia]. destruct (Hturn eq_refl) as [-> ->].
    destruct (negb _); lia. }
  unfold rank, distance. rewrite Hcfg, Hcur. destruct Hch as [Hv ->|d Hv Hd -> Hskip].
  - destruct (ho_sticky _ H Hv) as (_ & Hq & _). rewrite Hv.
    rewrite (proj2 (Nat.eqb_neq (rr_sticky_slot h) i)) by done. cbn [andb negb]. lia.
  - rewrite Hv. cbn [andb]. fold (distance h i). pose proof (distance_spec h i H Hi) as Hdi.
    assert (HD : distance h i < n_flows h) by (apply Nat.mod_upper_bound; lia).
    assert (Hless : d < distance h i).
    { destruct (Nat.lt_trichotomy d (distance h i)) as [?|[E|Hgt]]; [done| |].
      - exfalso. apply Hne. by rewrite E.
      - specialize (Hskip _ Hgt). rewrite <- Hdi in Hskip. lia. }
    rewrite (distance_unique (n_flows h) _ (distance h i - d - 1) i); [unfold RELAY_DEFERRED_QUOTA in *; lia| |lia|].
    + apply Nat.mod_upper_bound. lia.
    + rewrite Hdi at 1. rewrite (Nat.Div0.add_mod_idemp_l (rr_cursor h + d) 1), Nat.Div0.add_mod_idemp_l. f_equal. lia.
Qed.

(** Pushes and shutdown do not take anyone's turn. *)
Lemma push_keeps_turn pkt h i f :
  hub_ok h -> holds h i f ->
  let h' := snd (fst (fst (relay_deferred_hub_try_push pkt h))) in
  holds h' i f /\ rank h' i = rank h i.
Proof.
  intros H Hh. unfold relay_deferred_hub_try_push.
  destruct (_ || _); [done|]. destruct (hub_shutdown h); [done|].
  pose proof (claim_slot_spec (dp_flow_id pkt) h H) as Hcl.
  destruct (claim_slot (dp_flow_id pkt) h) as [[k h1]|] eqn:Ek; [|done].
  destruct Hcl as (H1 & Hsr & _ & s & Hk & Hu & Hid & _ & _ & Hcnt).
  assert (Hh1 : holds h1 i f /\ rank h1 i = rank h i).
  { split; [|unfold rank, distance; by rewrite (sr_valid _ _ Hsr), (sr_sticky _ _ Hsr), (sr_quota _ _ Hsr),
                (sr_config _ _ Hsr), (sr_cursor _ _ Hsr)].
    destruct Hh as (Hi & Hui & Hf & Hc). unfold holds. rewrite (sr_config _ _ Hsr), Hcnt.
    unfold claim_slot in Ek. destruct (find_slot_index h (dp_flow_id pkt)); [by simplify_eq|].
    destruct (find_free_slot_index h (dp_flow_id pkt)) as [k'|] eqn:Hff; [|done]. injection Ek as <- <-.
    apply probe_bound in Hff as [_ Hfree%negb_true_iff]; [|lia].
    assert (Hne : i <> k') by (intros ->; congruence).
    erewrite slot_at_insert by done. done. }
  destruct Hh1 as [Hh1 <-]. rewrite (slot_at_lookup _ _ _ Hk).
  destruct (_ <=? total_count h1); [done|].
  assert (Hset : forall s' h2, slots h2 = <[k := s']> (slots h1) -> in_use s' = in_use s ->
    wire_flow_id s' = wire_flow_id s -> r_count (slot_ring s) <= r_count (slot_ring s') ->
    hub_config h2 = hub_config h1 -> holds h2 i f).
  { intros s' h2 Hs2 Hu2 Hf2 Hc2 Hcfg2. destruct Hh1 as (Hi & Hui & Hf & Hc).
    pose proof (lookup_lt_Some _ _ _ Hk) as Hkl. unfold holds. rewrite Hcfg2.
    rewrite (slot_count_insert h1 h2 k s') by done. case_decide as E.
    - subst k. unfold slot_at at 1 2. rewrite Hs2, nth_lookup, list_lookup_insert_eq by done. cbn [default from_option id].
      rewrite (slot_count_lookup _ _ _ Hk) in Hc. rewrite (slot_at_lookup _ _ _ Hk) in Hui, Hf.
      split_and!; [done|congruence|congruence|lia].
    - by rewrite (slot_at_insert h1 h2 k s') by done. }
  destruct (_ <=? r_count _).
  { split; [|done]. by apply (Hset (mkSlot (in_use s) (wire_flow_id s) (slot_ring s) (slot_drop_overflow_flow s +u64 1)%cint)). }
  set (r := if (dp_prefer_head pkt =? 0)%Z then put_tail (slot_ring s) pkt else put_head (slot_ring s) pkt).
  assert (Hr : r_count (slot_ring s) <= r_count r) by (unfold r; destruct (_ =? _)%Z; cbn; lia).
  unfold store_packet. rewrite (slot_at_lookup _ _ _ Hk). fold r.
  destruct (r_count (slot_ring s) =? 0); (split; [|done]);
    by apply (Hset (mkSlot (in_use s) (wire_flow_id s) r (slot_drop_overflow_flow s))).
Qed.

Definition pops (ops : list hub_op) : nat :=
  length (List.filter (fun o => match o with HPop => true | _ => false end) ops).

Lemma serves_flow h i f pkt h' : hub_ok h -> holds h i f -> serves h i pkt h' -> dp_flow_id pkt = f.
Proof.
  intros H (Hi & Hu & Hf & Hc) Hsv. destruct (sv_packet _ _ _ _ Hsv) as (l & Hcon & _).
  rewrite <- (ho_length _ H) in Hi.
  pose proof (so_flow _ _ (ho_slots _ H i _ (slot_lookup h i Hi))) as Hall.
  rewrite Hcon in Hall. apply list.Forall_cons in Hall as [-> _]. done.
Qed.

Lemma flow_served ops h i f rs h' :
  hub_ok h -> holds h i f -> rank h i < pops ops -> hub_run h ops = Some (rs, h') ->
  exists pkt, In (RPop RELAY_DEFERRED_OK pkt) rs /\ dp_flow_id pkt = f.
Proof.
  revert h rs. induction ops as [|o ops IH]; intros h rs H Hh Hr Hrun; [cbn in Hr; lia|].
  cbn [hub_run] in Hrun. destruct (hub_step_refines h o H) as (res & h1 & E & H1 & _ & _).
  rewrite E in Hrun. cbn in Hrun. destruct (hub_run h1 ops) as [[rs1 h2]|] eqn:Er; [|done].
  cbn in Hrun. injection Hrun as <- <-.
  assert (Hgo : holds h1 i f -> rank h1 i < pops ops ->
    exists pkt, In (RPop RELAY_DEFERRED_OK pkt) (res :: rs1) /\ dp_flow_id pkt = f).
  { intros Hh1 Hr1. destruct (IH h1 rs1 H1 Hh1 Hr1 Er) as (pkt & Hin & Hf). exists pkt. split; [by right|done]. }
  destruct o as [pkt| |]; cbn [hub_step] in E.
  - pose proof (push_keeps_turn pkt h i f H Hh) as Hk.
    destruct (relay_deferred_hub_try_push pkt h) as [[[st h1'] back] sig]. injection E as <- <-.
    cbn in Hk. destruct Hk as [Hk Hrk]. apply Hgo; [done|]. rewrite Hrk. exact Hr.
  - destruct (try_pop_spec h H) as [(Hz & _)|(j & pkt & h1' & E' & Hsv)].
    { destruct Hh as (_ & _ & _ & Hc). rewrite Hz in Hc. lia. }
    rewrite E' in E. cbn in E. injection E as <- <-. destruct (decide (j = i)) as [->|Hne].
    + exists pkt. split; [by left|]. by apply (serves_flow h i f pkt h1').
    + destruct (rank_decreases h i f j pkt h1' H Hh Hsv Hne) as [Hh1 Hlt]. apply Hgo; [done|].
      unfold pops in *. cbn in Hr. lia.
  - unfold relay_deferred_hub_shutdown in E. rewrite (ho_mu _ H) in E. cbn in E. injection E as <- <-.
    by apply Hgo.
Qed.

(** C31: fairness.  In any state the hub can reach, a flow with packets waiting is served by one of
    the next [8 * n + 1] pops, whatever is pushed meanwhile and however many packets the other
    flows have. *)
Theorem relay_deferred_serves_every_flow cfg h0 before h rs0 h1 f ops rs h2 :
  config_valid cfg = true ->
  relay_deferred_hub_init false false false cfg h0 = (RELAY_DEFERRED_OK, h) ->
  hub_run h before = Some (rs0, h1) -> flow_queue (view h1) f <> [] ->
  RELAY_DEFERRED_QUOTA * max_active_flows cfg < pops ops -> hub_run h1 ops = Some (rs, h2) ->
  exists pkt, In (RPop RELAY_DEFERRED_OK pkt) rs /\ dp_flow_id pkt = f.
Proof.
  intros Hv Hinit Hb Hq Hp Hrun. destruct (hub_init_ok cfg h0 Hv) as (h' & E & H & Hcfg & _).
  rewrite Hinit in E. injection E as <-.
  destruct (hub_run_refines before h H) as (rs' & h1' & E1 & H1 & Hcfg1 & _).
  rewrite Hb in E1. injection E1 as <- <-. unfold flow_queue in Hq.
  destruct (bl_flows (view h1) !! f) as [l|] eqn:El; [|done]. cbn in Hq.
  apply table_lookup in El as (i & s & Hi & Hu & Hf & Hl); [|apply (ho_distinct _ H1)].
  apply (flow_served ops h1 i f rs h2); try done.
  - unfold holds. rewrite (slot_at_lookup _ _ _ Hi), (slot_count_lookup _ _ _ Hi).
    split_and!; [rewrite <- (ho_length _ H1); by eapply lookup_lt_Some|done|done|].
    destruct (decide (r_count (slot_ring s) = 0)) as [H0|]; [|lia]. exfalso. apply Hq.
    rewrite <- Hl. by apply contents_nil; [apply (ho_slots _ H1 i s Hi)|].
  - pose proof (rank_bound h1 i H1) as Hrb. rewrite Hcfg1, Hcfg in Hrb. lia.
Qed.

Definition fair_ops : list hub_op := replicate 17 HPop.

Lemma relay_deferred_serves_every_flow_witness :
  exists h rs0 h1 rs h2,
    relay_deferred_hub_init false false false sample_cfg hub_zero = (RELAY_DEFERRED_OK, h) /\
    hub_run h [HPush (sample_dp 1 7 0); HPush (sample_dp 2 8 0)] = Some (rs0, h1) /\
    hub_run h1 fair_ops = Some (rs, h2) /\
    exists pkt, In (RPop RELAY_DEFERRED_OK pkt) rs /\ dp_flow_id pkt = 8%Z.
Proof.
  eexists _, _, _, _, _. split; [vm_compute; reflexivity|]. split; [vm_compute; reflexivity|].
  split; [vm_compute; reflexivity|].
  eapply (relay_deferred_serves_every_flow sample_cfg hub_zero
            [HPush (sample_dp 1 7 0); HPush (sample_dp 2 8 0)] _ _ _ 8 fair_ops).
  - reflexivity.
  - vm_compute; reflexivity.
  - vm_compute; reflexivity.
  - by vm_compute.
  - vm_compute; lia.
  - vm_compute; reflexivity.
Defined.

(** ** The worker's wake-ups *)

(** The hub with its one worker thread, which is asleep in [pthread_cond_wait] or not. *)
Record hub_system := HubSystem { hs_hub : Hub; hs_asleep : bool }.

(** Calls of the receiving thread and of the worker, in any order; the worker calls only while it
    is awake, and may be woken without a signal. *)
Inductive hub_system_step : hub_system -> hub_system -> Prop :=
  | sys_push h asleep pkt st h' back signals :
      relay_deferred_hub_try_push pkt h = (st, h', back, signals) ->
      hub_system_step (HubSystem h asleep) (HubSystem h' (asleep && negb signals))
  | sys_shutdown h asleep :
      hub_system_step (HubSystem h asleep) (HubSystem (relay_deferred_hub_shutdown h) false)
  | sys_pop h st pkt h' :
      relay_deferred_hub_try_pop h = Some (st, pkt, h') ->
      hub_system_step (HubSystem h false) (HubSystem h' false)
  | sys_wait_sleeps h :
      relay_deferred_hub_wait h = Blocks -> hub_system_step (HubSystem h false) (HubSystem h true)
  | sys_wait_returns h st :
      relay_deferred_hub_wait h = Returns st -> hub_system_step (HubSystem h false) (HubSystem h false)
  | sys_spurious h : hub_system_step (HubSystem h true) (HubSystem h false).

(** A sleeping worker has nothing to do. *)
Definition sleeps_idle (s : hub_system) : Prop :=
  hub_ok (hs_hub s) /\
  (hs_asleep s = true -> (forall i, slot_count (hs_hub s) i = 0) /\ hub_shutdown (hs_hub s) = false).

(** A push into an idle hub either stores nothing or signals. *)
Lemma push_signals pkt h st h' back signals :
  hub_ok h -> (forall i, slot_count h i = 0) -> hub_shutdown h = false ->
  relay_deferred_hub_try_push pkt h = (st, h', back, signals) ->
  signals = true \/ ((forall i, slot_count h' i = 0) /\ hub_shutdown h' = false).
Proof.
  intros H Hz Hsh. unfold relay_deferred_hub_try_push. rewrite Hsh.
  destruct (_ || _); [intros [= <- <- <- <-]; by right|].
  pose proof (claim_slot_spec (dp_flow_id pkt) h H) as Hcl.
  destruct (claim_slot (dp_flow_id pkt) h) as [[k h1]|]; [|intros [= <- <- <- <-]; by right].
  destruct Hcl as (H1 & Hsr & _ & s & Hk & _ & _ & _ & _ & Hcnt).
  pose proof (sr_shutdown _ _ Hsr) as Hsh1. rewrite Hsh in Hsh1.
  rewrite (slot_at_lookup _ _ _ Hk). pose proof (slot_count_lookup _ _ _ Hk) as Hc. rewrite Hcnt, Hz in Hc.
  destruct (_ <=? total_count h1).
  { intros [= <- <- <- <-]. right. split; [|done]. intros i. change (slot_count h1 i = 0). by rewrite Hcnt. }
  pose proof (config_bounds _ (ho_config _ H1)) as (_ & Hp & _).
  rewrite (so_capacity _ _ (ho_slots _ H1 k s Hk)), <- Hc, (proj2 (Nat.leb_gt _ _)) by done.
  unfold store_packet. rewrite (slot_at_lookup _ _ _ Hk), <- Hc. cbn [Nat.eqb]. intros [= <- <- <- <-]. by left.
Qed.

(** C32: no wake-up is lost.  Whenever the worker sleeps, the hub holds no packet and is not shut
    down: the push that ends the idleness, and shutdown, wake it. *)
Theorem relay_deferred_no_lost_wakeup cfg h0 h s :
  config_valid cfg = true -> relay_deferred_hub_init false false false cfg h0 = (RELAY_DEFERRED_OK, h) ->
  rtc hub_system_step (HubSystem h false) s -> hs_asleep s = true ->
  relay_deferred_hub_total_count (hs_hub s) = 0 /\ relay_deferred_hub_is_shutdown (hs_hub s) = false.
Proof.
  intros Hv Hinit Hr. destruct (hub_init_ok cfg h0 Hv) as (h' & E & H & _ & _).
  rewrite Hinit in E. injection E as <-.
  assert (Hinv : sleeps_idle s).
  { assert (H0 : sleeps_idle (HubSystem h false)) by done. revert H0. clear -Hr.
    remember (HubSystem h false) as s0 eqn:E0. clear E0 h. induction Hr as [|a b c Hs _ IH]; [done|]. intros [Ha Hi]. apply IH. clear IH c.
    destruct Hs as [h asleep pkt st h' back signals E|h asleep|h st pkt h' E|h E|h st E|h]; cbn in *.
    - pose proof (try_push_refines pkt h Ha) as Hp. rewrite E in Hp. destruct Hp as (H' & _ & _).
      split; [done|]. cbn. destruct asleep; [|done]. destruct (Hi eq_refl) as [Hz Hsh].
      destruct (push_signals pkt h st h' back signals Ha Hz Hsh E) as [->|?]; [done|]. by destruct signals.
    - destruct (hub_step_refines h HShutdown Ha) as (res & h1 & E & H1 & _). cbn in E. injection E as <- <-.
      by split.
    - destruct (hub_step_refines h HPop Ha) as (res & h1 & E1 & H1 & _). cbn in E1. rewrite E in E1.
      cbn in E1. injection E1 as <- <-. by split.
    - split; [done|]. intros _. cbn. unfold relay_deferred_hub_wait in E. rewrite (ho_mu _ Ha) in E. cbn in E.
      destruct (Z.eqb_spec (active_bits h) 0) as [Hb|]; [|done]. cbn in E.
      destruct (hub_shutdown h); [done|]. split; [|done]. by apply no_work.
    - by split.
    - by split. }
  intros Ha. destruct Hinv as [Hok Hi]. destruct (Hi Ha) as [Hz Hsh].
  unfold relay_deferred_hub_total_count, relay_deferred_hub_is_shutdown. rewrite (ho_mu _ Hok). cbn.
  split; [|done]. rewrite (ho_total _ Hok).
  assert (Hall : forall i x, slots (hs_hub s) !! i = Some x -> r_count (slot_ring x) = 0)
    by (intros i x Hx; rewrite <- (slot_count_lookup _ _ _ Hx); apply Hz).
  clear -Hall. induction (slots (hs_hub s)) as [|x l IH]; [done|]. csimpl. rewrite (Hall 0 x eq_refl).
  apply IH. intros i y Hy. by apply (Hall (S i)).
Qed.

Lemma relay_deferred_no_lost_wakeup_witness :
  exists h, relay_deferred_hub_init false false false sample_cfg hub_zero = (RELAY_DEFERRED_OK, h) /\
    relay_deferred_hub_total_count h = 0 /\ relay_deferred_hub_is_shutdown h = false.
Proof.
  eexists. split; [reflexivity|].
  apply (relay_deferred_no_lost_wakeup sample_cfg hub_zero _ (HubSystem _ true) eq_refl eq_refl);
    [|reflexivity].
  apply rtc_once. apply sys_wait_sleeps. reflexivity.
Defined.
