(* ===== verification/GenerationCache.v ===== *)
(** * The relay's generation cache: src/apps/wire_relay/generation_cache.c

    Entries live in a heap and are linked into a doubly linked list, most recently used first,
    through their [lru_prev] and [lru_next] fields; [gc_head] and [gc_tail] are its ends.  The
    flow accounts are a table beside it.  The functions here follow the pointers; a read of an
    entry that has been freed, or a list that does not end, is [ub].

    Buffers are addresses ([0] is NULL).  Taking hold of one ([malloc] or the retain hook) and
    letting go of one ([free] or the release hook) is recorded in a log.  Which buffers are
    shared and what [malloc] returns are arguments. *)

From S2P Require Import Prelude WireHeader.

Local Open Scope Z_scope.

(** ** State *)

Inductive GenerationState := GEN_COLLECTING | GEN_READY.

Inductive GenerationInsertStatus :=
  | GEN_INSERT_OK | GEN_INSERT_DUPLICATE | GEN_INSERT_MISMATCH | GEN_INSERT_ADMISSION_FAILED | GEN_INSERT_INVALID.

#[export] Instance GenerationState_eq_dec : EqDecision GenerationState.
Proof. solve_decision. Defined.

#[export] Instance GenerationInsertStatus_eq_dec : EqDecision GenerationInsertStatus.
Proof. solve_decision. Defined.

Record GenerationSlot := mkSlot { gs_copy : Z; gs_len : Z; gs_present : bool }.

Definition slot_zero : GenerationSlot := mkSlot 0 0 false.

Record GenerationEntry := mkEntry {
  ge_flow_id : Z;
  ge_block_id : Z;
  ge_final_dst : Z;
  ge_type : Z;
  ge_shard_count : Z;
  ge_valid_len : Z;
  ge_payload_len : Z;
  ge_min_ttl : Z;
  ge_state : GenerationState;
  ge_present_count : Z;
  ge_created_ns : Z;
  ge_last_update_ns : Z;
  ge_bytes : Z;
  ge_slots : list GenerationSlot;
  ge_prev : option nat;
  ge_next : option nat
}.

Definition set_links (prev next : option nat) (e : GenerationEntry) : GenerationEntry :=
  mkEntry (ge_flow_id e) (ge_block_id e) (ge_final_dst e) (ge_type e) (ge_shard_count e) (ge_valid_len e)
    (ge_payload_len e) (ge_min_ttl e) (ge_state e) (ge_present_count e) (ge_created_ns e) (ge_last_update_ns e)
    (ge_bytes e) (ge_slots e) prev next.

Definition set_prev (prev : option nat) (e : GenerationEntry) : GenerationEntry := set_links prev (ge_next e) e.
Definition set_next (next : option nat) (e : GenerationEntry) : GenerationEntry := set_links (ge_prev e) next e.

Record GenerationCacheStats := mkGcStats {
  st_created : Z;
  st_ready : Z;
  st_timeout : Z;
  st_evicted : Z;
  st_admission_failed : Z;
  st_mismatch : Z;
  st_duplicate : Z;
  st_bytes : Z;
  st_bytes_peak : Z;
  st_per_flow : list Z
}.

Record GenerationCacheConfig := mkGcConfig {
  gen_timeout_ms : Z;
  max_gens_global : nat;
  max_gens_per_flow : nat;
  max_cache_bytes : Z
}.

Record GenerationCacheFlowAccount := mkAccount { fa_active : bool; fa_flow_id : Z; fa_count : nat }.

Definition account_zero : GenerationCacheFlowAccount := mkAccount false 0 0.

(** [gc_share]: the sharing and retain hooks are set; [gc_release]: the release hook is. *)
Record GenerationCache := mkCache {
  gc_cfg : GenerationCacheConfig;
  gc_head : option nat;
  gc_tail : option nat;
  gc_count : nat;
  gc_accounts : list GenerationCacheFlowAccount;
  gc_stats : GenerationCacheStats;
  gc_share : bool;
  gc_release : bool
}.

Inductive buf_event := BufMalloc (p : Z) | BufRetain (p : Z) | BufFree (p : Z) | BufRelease (p : Z).

(** The cache, the heap of entries with the next address [calloc] hands out, and the log. *)
Record gst := mkGst {
  g_cache : GenerationCache;
  g_heap : gmap nat GenerationEntry;
  g_brk : nat;
  g_log : list buf_event
}.

Definition G (A : Type) : Type := comp gst A.
Notation "c ;; k" := (c ≫= fun _ => k) (at level 100, right associativity, only parsing).

Definition the_cache : G GenerationCache := gets g_cache.
Definition upd_cache (f : GenerationCache -> GenerationCache) : G unit :=
  modify (fun s => mkGst (f (g_cache s)) (g_heap s) (g_brk s) (g_log s)).
Definition log_buf (ev : list buf_event) : G unit :=
  modify (fun s => mkGst (g_cache s) (g_heap s) (g_brk s) (g_log s ++ ev)).
Definition get_entry (a : nat) : G GenerationEntry := h ← gets g_heap; the (h !! a).
Definition upd_entry (a : nat) (f : GenerationEntry -> GenerationEntry) : G unit :=
  e ← get_entry a; modify (fun s => mkGst (g_cache s) (<[a := f e]> (g_heap s)) (g_brk s) (g_log s)).

Definition set_ends (head tail : option nat) (c : GenerationCache) : GenerationCache :=
  mkCache (gc_cfg c) head tail (gc_count c) (gc_accounts c) (gc_stats c) (gc_share c) (gc_release c).
Definition set_head (x : option nat) (c : GenerationCache) : GenerationCache := set_ends x (gc_tail c) c.
Definition set_tail (x : option nat) (c : GenerationCache) : GenerationCache := set_ends (gc_head c) x c.
Definition set_count (n : nat) (accts : list GenerationCacheFlowAccount) (c : GenerationCache) : GenerationCache :=
  mkCache (gc_cfg c) (gc_head c) (gc_tail c) n accts (gc_stats c) (gc_share c) (gc_release c).
Definition set_stats (f : GenerationCacheStats -> GenerationCacheStats) (c : GenerationCache) : GenerationCache :=
  mkCache (gc_cfg c) (gc_head c) (gc_tail c) (gc_count c) (gc_accounts c) (f (gc_stats c)) (gc_share c) (gc_release c).

Definition set_bytes (b peak : Z) (t : GenerationCacheStats) : GenerationCacheStats :=
  mkGcStats (st_created t) (st_ready t) (st_timeout t) (st_evicted t) (st_admission_failed t) (st_mismatch t)
    (st_duplicate t) b peak (st_per_flow t).
Definition inc_ready (t : GenerationCacheStats) : GenerationCacheStats :=
  mkGcStats (st_created t) (st_ready t +u64 1)%cint (st_timeout t) (st_evicted t) (st_admission_failed t) (st_mismatch t)
    (st_duplicate t) (st_bytes t) (st_bytes_peak t) (st_per_flow t).
Definition inc_removed (timeout evict : bool) (t : GenerationCacheStats) : GenerationCacheStats :=
  mkGcStats (st_created t) (st_ready t) (if timeout then st_timeout t +u64 1 else st_timeout t)%cint
    (if evict then st_evicted t +u64 1 else st_evicted t)%cint (st_admission_failed t) (st_mismatch t)
    (st_duplicate t) (st_bytes t) (st_bytes_peak t) (st_per_flow t).
Definition inc_admission_failed (t : GenerationCacheStats) : GenerationCacheStats :=
  mkGcStats (st_created t) (st_ready t) (st_timeout t) (st_evicted t) (st_admission_failed t +u64 1)%cint (st_mismatch t)
    (st_duplicate t) (st_bytes t) (st_bytes_peak t) (st_per_flow t).
Definition inc_mismatch (t : GenerationCacheStats) : GenerationCacheStats :=
  mkGcStats (st_created t) (st_ready t) (st_timeout t) (st_evicted t) (st_admission_failed t) (st_mismatch t +u64 1)%cint
    (st_duplicate t) (st_bytes t) (st_bytes_peak t) (st_per_flow t).
Definition inc_duplicate (t : GenerationCacheStats) : GenerationCacheStats :=
  mkGcStats (st_created t) (st_ready t) (st_timeout t) (st_evicted t) (st_admission_failed t) (st_mismatch t)
    (st_duplicate t +u64 1)%cint (st_bytes t) (st_bytes_peak t) (st_per_flow t).
Definition set_created (n : Z) (per_flow : list Z) (t : GenerationCacheStats) : GenerationCacheStats :=
  mkGcStats n (st_ready t) (st_timeout t) (st_evicted t) (st_admission_failed t) (st_mismatch t)
    (st_duplicate t) (st_bytes t) (st_bytes_peak t) per_flow.

(** ** Configuration *)

Definition GEN_CACHE_STAT_FLOWS : nat := 8.
Definition GEN_CACHE_MAX_SHARD_COUNT : Z := 256.

Definition generation_cache_config_defaults : GenerationCacheConfig := mkGcConfig 500 256 32 (32 * 1024 * 1024).

Definition telemetry_stat_index (flow_id : Z) : nat :=
  if flow_id >=? Z.of_nat GEN_CACHE_STAT_FLOWS then (GEN_CACHE_STAT_FLOWS - 1)%nat else Z.to_nat flow_id.

Definition gc_stats_zero : GenerationCacheStats := mkGcStats 0 0 0 0 0 0 0 0 0 (replicate GEN_CACHE_STAT_FLOWS 0).
Definition gc_zero : GenerationCache := mkCache (mkGcConfig 0 0 0 0) None None 0 [] gc_stats_zero false false.

Definition generation_cache_init (oom : bool) (cfg : option GenerationCacheConfig) : Z * GenerationCache :=
  let d := generation_cache_config_defaults in
  let cfg := default d cfg in
  let cfg := mkGcConfig (if gen_timeout_ms cfg =? 0 then gen_timeout_ms d else gen_timeout_ms cfg)
               (if (max_gens_global cfg =? 0)%nat then max_gens_global d else max_gens_global cfg)
               (if (max_gens_per_flow cfg =? 0)%nat then max_gens_per_flow d else max_gens_per_flow cfg)
               (if max_cache_bytes cfg =? 0 then max_cache_bytes d else max_cache_bytes cfg) in
  if oom then (-1, gc_zero)
  else (0, mkCache cfg None None 0 (replicate (max_gens_global cfg) account_zero) gc_stats_zero false false).

(** ** Flow accounts *)

Definition find_flow_account (accts : list GenerationCacheFlowAccount) (flow_id : Z)
  : option (nat * GenerationCacheFlowAccount) :=
  list_find (fun a => fa_active a = true /\ fa_flow_id a = flow_id) accts.

Definition find_free_flow_account (accts : list GenerationCacheFlowAccount)
  : option (nat * GenerationCacheFlowAccount) :=
  list_find (fun a => fa_active a = false) accts.

(** The account and the table in which it exists. *)
Definition get_or_create_flow_account (accts : list GenerationCacheFlowAccount) (flow_id : Z)
  : option (nat * GenerationCacheFlowAccount * list GenerationCacheFlowAccount) :=
  match find_flow_account accts flow_id with
  | Some (i, a) => Some (i, a, accts)
  | None =>
      '(i, _) ← find_free_flow_account accts;
      let a := mkAccount true flow_id 0 in Some (i, a, <[i := a]> accts)
  end.

Definition release_empty_flow_account (a : GenerationCacheFlowAccount) : GenerationCacheFlowAccount :=
  if (fa_count a =? 0)%nat then mkAccount false 0 (fa_count a) else a.

(** [None] is the result -1. *)
Definition account_add_generation (accts : list GenerationCacheFlowAccount) (flow_id : Z)
  : option (list GenerationCacheFlowAccount) :=
  '(i, a, accts) ← get_or_create_flow_account accts flow_id;
  Some (<[i := mkAccount (fa_active a) (fa_flow_id a) (fa_count a + 1)]> accts).

Definition account_remove_generation (accts : list GenerationCacheFlowAccount) (flow_id : Z)
  : list GenerationCacheFlowAccount :=
  match find_flow_account accts flow_id with
  | None => accts
  | Some (i, a) => <[i := release_empty_flow_account (mkAccount (fa_active a) (fa_flow_id a) (fa_count a - 1))]> accts
  end.

Definition flow_generation_count (accts : list GenerationCacheFlowAccount) (flow_id : Z) : nat :=
  match find_flow_account accts flow_id with Some (_, a) => fa_count a | None => 0 end.

(** ** Entries and the list *)

Definition slot_buf_free (c : GenerationCache) (p : Z) : list buf_event :=
  if p =? 0 then [] else if gc_release c then [BufRelease p] else [BufFree p].

(** The buffers of an entry go, slot by slot, then the entry. *)
Definition entry_free (a : nat) : G unit :=
  c ← the_cache;
  e ← get_entry a;
  log_buf (ge_slots e ≫= fun s => slot_buf_free c (gs_copy s));;
  modify (fun s => mkGst (g_cache s) (delete a (g_heap s)) (g_brk s) (g_log s)).

Definition lru_unlink (a : nat) : G unit :=
  e ← get_entry a;
  match ge_prev e with
  | Some p => upd_entry p (set_next (ge_next e))
  | None => upd_cache (set_head (ge_next e))
  end;;
  match ge_next e with
  | Some n => upd_entry n (set_prev (ge_prev e))
  | None => upd_cache (set_tail (ge_prev e))
  end;;
  upd_entry a (set_links None None).

Definition lru_push_mru (a : nat) : G unit :=
  c ← the_cache;
  upd_entry a (set_links None (gc_head c));;
  match gc_head c with
  | Some h => upd_entry h (set_prev (Some a))
  | None => upd_cache (set_tail (Some a))
  end;;
  upd_cache (set_head (Some a)).

Definition lru_touch (a : nat) : G unit :=
  c ← the_cache;
  if decide (gc_head c = Some a) then mret tt else lru_unlink a;; lru_push_mru a.

Inductive remove_reason := CACHE_REMOVE_EVICT | CACHE_REMOVE_TIMEOUT | CACHE_REMOVE_SILENT.

#[export] Instance remove_reason_eq_dec : EqDecision remove_reason.
Proof. solve_decision. Defined.

Definition cache_remove_entry (a : nat) (reason : remove_reason) : G unit :=
  lru_unlink a;;
  e ← get_entry a;
  upd_cache (fun c =>
    let t := gc_stats c in
    let t := set_bytes (if st_bytes t >=? ge_bytes e then st_bytes t - ge_bytes e else 0) (st_bytes_peak t) t in
    set_stats (fun _ => inc_removed (bool_decide (reason = CACHE_REMOVE_TIMEOUT))
                          (bool_decide (reason = CACHE_REMOVE_EVICT)) t)
      (set_count (gc_count c - 1) (account_remove_generation (gc_accounts c) (ge_flow_id e)) c));;
  entry_free a.

Definition entry_timed_out (c : GenerationCache) (e : GenerationEntry) (now_ns : Z) : bool :=
  if gen_timeout_ms (gc_cfg c) =? 0 then false
  else if now_ns <? ge_last_update_ns e then false
  else now_ns - ge_last_update_ns e >=? u64 (gen_timeout_ms (gc_cfg c) * 1000000).

(** The loop walks from the tail towards the head; [fuel] bounds the entries it may meet. *)
Fixpoint expire_loop (fuel : nat) (cur : option nat) (now_ns filter : Z) : G nat :=
  match cur with
  | None => mret 0%nat
  | Some a =>
      match fuel with
      | O => ub
      | S fuel' =>
          c ← the_cache;
          e ← get_entry a;
          let next := ge_prev e in
          if ((filter <? 0) || (u32 filter =? ge_flow_id e)) && entry_timed_out c e now_ns then
            cache_remove_entry a CACHE_REMOVE_TIMEOUT;;
            n ← expire_loop fuel' next now_ns filter;
            mret (n + 1)%nat
          else expire_loop fuel' next now_ns filter
      end
  end.

Definition expire_one_pass (now_ns filter : Z) : G nat :=
  c ← the_cache;
  h ← gets g_heap;
  expire_loop (size h) (gc_tail c) now_ns filter.

Definition generation_cache_expire (now_ns filter : Z) : G nat := expire_one_pass now_ns filter.

(** Walks from the head; [fuel] as above. *)
Fixpoint deadline_loop (fuel : nat) (cur : option nat) (timeout_ns earliest : Z) : G Z :=
  match cur with
  | None => mret earliest
  | Some a =>
      match fuel with
      | O => ub
      | S fuel' =>
          e ← get_entry a;
          let deadline := (ge_last_update_ns e +u64 timeout_ns)%cint in
          deadline_loop fuel' (ge_next e) timeout_ns
            (if (earliest =? 0) || (deadline <? earliest) then deadline else earliest)
      end
  end.

Definition generation_cache_earliest_deadline_ns : G Z :=
  c ← the_cache;
  h ← gets g_heap;
  if (gc_count c =? 0)%nat || (gen_timeout_ms (gc_cfg c) =? 0) then mret 0
  else deadline_loop (size h) (gc_head c) (u64 (gen_timeout_ms (gc_cfg c) * 1000000)) 0.

Definition generation_cache_poll_timeout_ms (now_ns empty_poll_ms : Z) : G Z :=
  let empty_poll_ms := if empty_poll_ms <? 1 then 1 else empty_poll_ms in
  c ← the_cache;
  if (gc_count c =? 0)%nat then mret empty_poll_ms
  else
    deadline ← generation_cache_earliest_deadline_ns;
    mret (if deadline =? 0 then empty_poll_ms
          else if now_ns >=? deadline then 0
          else
            let ms := ((deadline - now_ns +u64 999999)%cint) / 1000000 in
            if ms =? 0 then 0 else if ms >? empty_poll_ms then empty_poll_ms else ms).

Fixpoint find_loop (fuel : nat) (cur : option nat) (flow_id block_id : Z) : G (option nat) :=
  match cur with
  | None => mret None
  | Some a =>
      match fuel with
      | O => ub
      | S fuel' =>
          e ← get_entry a;
          if (ge_flow_id e =? flow_id) && (ge_block_id e =? block_id) then mret (Some a)
          else find_loop fuel' (ge_next e) flow_id block_id
      end
  end.

Definition find_entry (flow_id block_id : Z) : G (option nat) :=
  c ← the_cache;
  h ← gets g_heap;
  find_loop (size h) (gc_head c) flow_id block_id.

Definition generation_cache_find (flow_id block_id : Z) : G (option nat) := find_entry flow_id block_id.

Definition generation_cache_slot_present (e : GenerationEntry) (shard_index : Z) : bool :=
  if shard_index >=? ge_shard_count e then false
  else match ge_slots e !! Z.to_nat shard_index with Some s => gs_present s | None => false end.

Definition meta_matches (e : GenerationEntry) (hdr : WireHeader) : bool :=
  (ge_final_dst e =? wh_final_dst hdr) && (ge_type e =? wh_type hdr) && (ge_shard_count e =? wh_shard_count hdr) &&
  (ge_valid_len e =? wh_valid_len hdr) && (ge_payload_len e =? wh_payload_len hdr).

Definition over_bytes (c : GenerationCache) (add_bytes : Z) : bool :=
  (st_bytes (gc_stats c) +u64 add_bytes)%cint >? max_cache_bytes (gc_cfg c).

Definition needs_eviction (c : GenerationCache) (flow_id add_bytes : Z) : bool :=
  if (max_gens_per_flow (gc_cfg c) <=? flow_generation_count (gc_accounts c) flow_id)%nat then true
  else if (max_gens_global (gc_cfg c) <=? gc_count c)%nat then true
  else over_bytes c add_bytes.

(** The entry nearest the tail that satisfies a test on address and contents. *)
Fixpoint tail_search (fuel : nat) (cur : option nat) (test : nat -> GenerationEntry -> bool) : G (option nat) :=
  match cur with
  | None => mret None
  | Some a =>
      match fuel with
      | O => ub
      | S fuel' =>
          e ← get_entry a;
          if test a e then mret (Some a) else tail_search fuel' (ge_prev e) test
      end
  end.

Definition room_victim (flow_id : Z) : G (option nat) :=
  c ← the_cache;
  h ← gets g_heap;
  v ← (if (max_gens_per_flow (gc_cfg c) <=? flow_generation_count (gc_accounts c) flow_id)%nat
       then tail_search (size h) (gc_tail c) (fun _ e => ge_flow_id e =? flow_id) else mret None);
  mret (match v with Some a => Some a | None => gc_tail c end).

(** The [while] loop; [fuel] is what [guard] leaves. *)
Fixpoint room_loop (fuel : nat) (flow_id add_bytes : Z) : G unit :=
  match fuel with
  | O => mret tt
  | S fuel' =>
      c ← the_cache;
      if needs_eviction c flow_id add_bytes && (0 <? gc_count c)%nat then
        v ← room_victim flow_id;
        match v with
        | None => mret tt
        | Some a => cache_remove_entry a CACHE_REMOVE_EVICT;; room_loop fuel' flow_id add_bytes
        end
      else mret tt
  end.

(** [true] is the result 0. *)
Definition make_room (flow_id add_bytes now_ns : Z) : G bool :=
  expire_one_pass now_ns (-1);;
  c ← the_cache;
  room_loop (max_gens_global (gc_cfg c) + 8) flow_id add_bytes;;
  c ← the_cache;
  mret (negb (needs_eviction c flow_id add_bytes)).

Definition bad_shard (hdr : WireHeader) : bool :=
  (wh_shard_count hdr =? 0) || (wh_shard_count hdr >? GEN_CACHE_MAX_SHARD_COUNT) ||
  (wh_shard_index hdr >=? wh_shard_count hdr).

(** The two allocations succeed or fail together with [oom]. *)
Definition entry_create (oom : bool) (hdr : WireHeader) (now_ns : Z) : G (option nat) :=
  if bad_shard hdr || oom then mret None
  else
    a ← gets g_brk;
    modify (fun s => mkGst (g_cache s)
      (<[a := mkEntry (wh_flow_id hdr) (wh_block_id hdr) (wh_final_dst hdr) (wh_type hdr) (wh_shard_count hdr)
                (wh_valid_len hdr) (wh_payload_len hdr) (wh_ttl hdr) GEN_COLLECTING 0 now_ns now_ns 0
                (replicate (Z.to_nat (wh_shard_count hdr)) slot_zero) None None]> (g_heap s))
      (a + 1) (g_log s));;
    mret (Some a).

Definition fail_admission : G GenerationInsertStatus :=
  upd_cache (set_stats inc_admission_failed);; mret GEN_INSERT_ADMISSION_FAILED.

(** The byte-limit loop of [store_slot]: whether the datagram fits in the end. *)
Fixpoint grow_loop (fuel : nat) (entry : nat) (len : Z) : G bool :=
  c ← the_cache;
  if over_bytes c len && (0 <? gc_count c)%nat then
    match fuel with
    | O => ub
    | S fuel' =>
        h ← gets g_heap;
        v ← tail_search (size h) (gc_tail c) (fun a _ => negb (a =? entry)%nat);
        match v with
        | None => mret false
        | Some a => cache_remove_entry a CACHE_REMOVE_EVICT;; grow_loop fuel' entry len
        end
    end
  else mret (negb (over_bytes c len)).

(** [slot], [present_count], [bytes], [last_update_ns], [min_ttl] as a datagram arrives. *)
Definition fill_slot (hdr : WireHeader) (copy len now_ns : Z) (e : GenerationEntry) : GenerationEntry :=
  mkEntry (ge_flow_id e) (ge_block_id e) (ge_final_dst e) (ge_type e) (ge_shard_count e) (ge_valid_len e)
    (ge_payload_len e) (if wh_ttl hdr <? ge_min_ttl e then wh_ttl hdr else ge_min_ttl e) (ge_state e)
    (u16 (ge_present_count e + 1)) (ge_created_ns e) now_ns (ge_bytes e +u64 len)%cint
    (<[Z.to_nat (wh_shard_index hdr) := mkSlot copy len true]> (ge_slots e)) (ge_prev e) (ge_next e).

Definition set_ready (e : GenerationEntry) : GenerationEntry :=
  mkEntry (ge_flow_id e) (ge_block_id e) (ge_final_dst e) (ge_type e) (ge_shard_count e) (ge_valid_len e)
    (ge_payload_len e) (ge_min_ttl e) GEN_READY (ge_present_count e) (ge_created_ns e) (ge_last_update_ns e)
    (ge_bytes e) (ge_slots e) (ge_prev e) (ge_next e).

(** The part of [store_slot] after it got hold of the buffer. *)
Definition commit_slot (entry : nat) (hdr : WireHeader) (copy len now_ns : Z) (ev : buf_event) : G unit :=
  log_buf [ev];;
  upd_entry entry (fill_slot hdr copy len now_ns);;
  upd_cache (set_stats (fun t =>
    let b := (st_bytes t +u64 len)%cint in
    set_bytes b (if b >? st_bytes_peak t then b else st_bytes_peak t) t));;
  lru_touch entry;;
  e ← get_entry entry;
  (if (ge_present_count e >=? ge_shard_count e) && bool_decide (ge_state e <> GEN_READY) then
     upd_entry entry set_ready;; upd_cache (set_stats inc_ready)
   else mret tt).

(** Entering a new entry into the accounts, the list and the counters. *)
Definition link_new (entry : nat) (flow_id : Z) (accts : list GenerationCacheFlowAccount) : G unit :=
  c ← the_cache;
  upd_cache (set_count (gc_count c) accts);;
  lru_push_mru entry;;
  upd_cache (fun c => set_count (gc_count c + 1) (gc_accounts c) c);;
  upd_cache (set_stats (fun t =>
    set_created (st_created t +u64 1)%cint
      (alter (fun n => (n +u64 1)%cint) (telemetry_stat_index flow_id) (st_per_flow t)) t)).

Section Buffers.
(** [cache->is_shared_fn]; the address [malloc] returns in this call, if it does. *)
Variable is_shared : Z -> bool.
Variable malloc : option Z.

(** The cache's hold on the datagram: the address it keeps and the event. *)
Definition hold_buffer (c : GenerationCache) (datagram : Z) : option (Z * buf_event) :=
  if gc_share c && is_shared datagram then Some (datagram, BufRetain datagram)
  else p ← malloc; Some (p, BufMalloc p).

Definition store_slot (entry : nat) (hdr : WireHeader) (datagram len now_ns : Z) : G GenerationInsertStatus :=
  e ← get_entry entry;
  if wh_shard_index hdr >=? ge_shard_count e then
    upd_cache (set_stats inc_mismatch);; mret GEN_INSERT_MISMATCH
  else
    slot ← the (ge_slots e !! Z.to_nat (wh_shard_index hdr));
    if gs_present slot then
      upd_cache (set_stats inc_duplicate);; mret GEN_INSERT_DUPLICATE
    else
      h ← gets g_heap;
      fits ← grow_loop (size h) entry len;
      if negb fits then fail_admission
      else
        c ← the_cache;
        match hold_buffer c datagram with
        | None => fail_admission
        | Some (copy, ev) =>
            commit_slot entry hdr copy len now_ns ev;;
            mret GEN_INSERT_OK
        end.

(** The status and [out_entry]. *)
Definition generation_cache_insert (oom : bool) (hdr : WireHeader) (datagram len now_ns : Z)
  : G (GenerationInsertStatus * option nat) :=
  if (datagram =? 0) || (len <? Z.of_nat WIRE_HEADER_SIZE) || negb (wh_type hdr =? WIRE_TYPE_DATA) then
    mret (GEN_INSERT_INVALID, None)
  else if bad_shard hdr then
    upd_cache (set_stats inc_mismatch);; mret (GEN_INSERT_MISMATCH, None)
  else
    expire_one_pass now_ns (-1);;
    found ← find_entry (wh_flow_id hdr) (wh_block_id hdr);
    match found with
    | Some entry =>
        e ← get_entry entry;
        if negb (meta_matches e hdr) then
          upd_cache (set_stats inc_mismatch);; mret (GEN_INSERT_MISMATCH, Some entry)
        else
          st ← store_slot entry hdr datagram len now_ns;
          mret (st, if bool_decide (st = GEN_INSERT_OK \/ st = GEN_INSERT_DUPLICATE) then Some entry else None)
    | None =>
        room ← make_room (wh_flow_id hdr) len now_ns;
        if negb room then st ← fail_admission; mret (st, None)
        else
          created ← entry_create oom hdr now_ns;
          match created with
          | None => st ← fail_admission; mret (st, None)
          | Some entry =>
              let ti := telemetry_stat_index (wh_flow_id hdr) in
              c ← the_cache;
              match account_add_generation (gc_accounts c) (wh_flow_id hdr) with
              | None => entry_free entry;; st ← fail_admission; mret (st, None)
              | Some accts =>
                  link_new entry (wh_flow_id hdr) accts;;
                  st ← store_slot entry hdr datagram len now_ns;
                  if bool_decide (st = GEN_INSERT_OK) then mret (GEN_INSERT_OK, Some entry)
                  else
                    upd_cache (set_stats (fun t =>
                      set_created (if st_created t >? 0 then st_created t - 1 else st_created t)
                        (alter (fun n => if n >? 0 then n - 1 else n) ti (st_per_flow t)) t));;
                    cache_remove_entry entry CACHE_REMOVE_SILENT;;
                    mret (st, None)
              end
          end
    end.
End Buffers.

Fixpoint destroy_loop (fuel : nat) (cur : option nat) : G unit :=
  match cur with
  | None => mret tt
  | Some a =>
      match fuel with
      | O => ub
      | S fuel' => e ← get_entry a; entry_free a;; destroy_loop fuel' (ge_next e)
      end
  end.

Definition generation_cache_destroy : G unit :=
  c ← the_cache;
  h ← gets g_heap;
  destroy_loop (size h) (gc_head c);;
  upd_cache (fun _ => gc_zero).

Definition generation_cache_count (c : GenerationCache) : nat := gc_count c.
Definition generation_cache_count_flow (c : GenerationCache) (flow_id : Z) : nat :=
  flow_generation_count (gc_accounts c) flow_id.
Definition generation_cache_stats (c : GenerationCache) : GenerationCacheStats := gc_stats c.
