(* ===== verification/GenerationCacheList.v ===== *)
(** * The linked list of the generation cache

    The representation of the doubly linked list of GenerationCache.v by a plain list of
    entries, and what the pointer operations do to it.  Everything above this file reasons about
    plain lists. *)

From S2P Require Import Prelude WireHeader GenerationCache.

(** An entry without its links. *)
Definition strip (e : GenerationEntry) : GenerationEntry := set_links None None e.

Definition hd_or {A} (l : list A) (d : option A) : option A := match l with [] => d | x :: _ => Some x end.
Definition last_or {A} (d : option A) (l : list A) : option A := match list.last l with Some x => Some x | None => d end.

(** [l] is a linked segment between [prev] and [next]. *)
Fixpoint dll (h : gmap nat GenerationEntry) (prev : option nat) (l : list nat) (next : option nat) : Prop :=
  match l with
  | [] => True
  | a :: l' =>
      (exists e, h !! a = Some e /\ ge_prev e = prev /\ ge_next e = hd_or l' next) /\ dll h (Some a) l' next
  end.

Lemma last_or_cons {A} (d : option A) x l : last_or d (x :: l) = last_or (Some x) l.
Proof. unfold last_or. rewrite list.last_cons. by destruct (list.last l). Qed.

Lemma hd_or_app {A} (l k : list A) d : hd_or (l ++ k) d = hd_or l (hd_or k d).
Proof. by destruct l. Qed.

Lemma last_or_app {A} d (l k : list A) : last_or d (l ++ k) = last_or (last_or d l) k.
Proof. unfold last_or. rewrite list.last_app. destruct (list.last k); [done|]. by destruct (list.last l). Qed.

Lemma dll_app h p l k n : dll h p (l ++ k) n <-> dll h p l (hd_or k n) /\ dll h (last_or p l) k n.
Proof.
  revert p. induction l as [|a l IH]; intros p; [unfold last_or; simpl; tauto|].
  cbn [app dll]. rewrite IH, last_or_cons, hd_or_app. tauto.
Qed.

Lemma dll_frame h h' p l n : (forall a, (a ∈ l) -> h' !! a = h !! a) -> dll h p l n -> dll h' p l n.
Proof.
  revert p. induction l as [|a l IH]; intros p Hh; [done|]. intros [(e & He & Hp & Hn) Hl]. split.
  - exists e. by rewrite Hh by apply list_elem_of_here.
  - apply IH; [|done]. intros b Hb. apply Hh. by apply list_elem_of_further.
Qed.

Lemma dll_insert h p l n a e : (a ∉ l) -> dll h p l n -> dll (<[a := e]> h) p l n.
Proof. intros Ha. apply dll_frame. intros b Hb. apply lookup_insert_ne. by intros ->. Qed.

(** Rewriting the outer link at either end. *)
Lemma dll_first h p p' a l n e :
  (a ∉ l) -> h !! a = Some e -> dll h p (a :: l) n -> dll (<[a := set_prev p' e]> h) p' (a :: l) n.
Proof.
  intros Ha He [(e' & He' & Hp & Hn) Hl]. rewrite He in He'. injection He' as <-. split.
  - eexists. rewrite lookup_insert_eq. split; [done|]. by split.
  - by apply dll_insert.
Qed.

Lemma dll_last h p a l n n' e :
  (a ∉ l) -> h !! a = Some e -> dll h p (l ++ [a]) n -> dll (<[a := set_next n' e]> h) p (l ++ [a]) n'.
Proof.
  intros Ha He [Hl [(e' & He' & Hp & Hn) _]]%dll_app. rewrite He in He'. injection He' as <-.
  apply dll_app. split; [by apply dll_insert|]. split; [|done]. eexists. rewrite lookup_insert_eq. split; [done|]. by split.
Qed.

Lemma dll_lookup h p l n a : dll h p l n -> (a ∈ l) -> is_Some (h !! a).
Proof.
  revert p. induction l as [|b l IH]; intros p; [by intros _ ?%elem_of_nil|]. intros [(e & He & _) Hl] [->|Ha]%elem_of_cons.
  - by exists e.
  - by eapply IH.
Qed.

(** ** Running the primitives *)

Lemma get_entry_run s a e : g_heap s !! a = Some e -> get_entry a s = Some (e, s).
Proof. intros H. unfold get_entry, gets, the, mbind, comp_bind. by rewrite H. Qed.

Definition put_heap (s : gst) (h : gmap nat GenerationEntry) : gst := mkGst (g_cache s) h (g_brk s) (g_log s).
Definition put_cache (s : gst) (c : GenerationCache) : gst := mkGst c (g_heap s) (g_brk s) (g_log s).

Lemma upd_entry_run s a e f :
  g_heap s !! a = Some e -> upd_entry a f s = Some (tt, put_heap s (<[a := f e]> (g_heap s))).
Proof. intros H. unfold upd_entry, mbind, comp_bind. by rewrite (get_entry_run s a e H). Qed.

Lemma upd_cache_run s f : upd_cache f s = Some (tt, put_cache s (f (g_cache s))).
Proof. done. Qed.

(** ** The representation

    [L] is the list, most recently used first; [D] are entries on the heap outside the list. *)
Record rep (s : gst) (L D : list (nat * GenerationEntry)) : Prop := {
  rp_nodup : NoDup ((L ++ D).*1);
  rp_heap : strip <$> g_heap s = list_to_map (L ++ D);
  rp_dll : dll (g_heap s) None L.*1 None;
  rp_head : gc_head (g_cache s) = hd_or L.*1 None;
  rp_tail : gc_tail (g_cache s) = last_or None L.*1;
  rp_brk : Forall (fun a => a < g_brk s) (L ++ D).*1
}.

Lemma rep_lookup s L D a e : rep s L D -> ((a, e) ∈ L ++ D) -> exists e0, g_heap s !! a = Some e0 /\ strip e0 = e.
Proof.
  intros H Hin. assert (E : (strip <$> g_heap s) !! a = Some e).
  { rewrite (rp_heap _ _ _ H). by apply elem_of_list_to_map_1; [apply (rp_nodup _ _ _ H)|]. }
  rewrite lookup_fmap in E. destruct (g_heap s !! a) as [e0|]; [|done]. injection E as E. by exists e0.
Qed.

(** The fields of the cache other than the ends of the list. *)
Definition same_but_links (s s' : gst) : Prop :=
  g_cache s' = set_ends (gc_head (g_cache s')) (gc_tail (g_cache s')) (g_cache s) /\
  g_brk s' = g_brk s /\ g_log s' = g_log s.

Lemma strip_idem e : strip (strip e) = strip e.
Proof. done. Qed.

Lemma strip_insert_links (h : gmap nat GenerationEntry) a e p n :
  h !! a = Some e -> strip <$> <[a := set_links p n e]> h = strip <$> h.
Proof.
  intros He. rewrite fmap_insert. apply insert_id. rewrite lookup_fmap, He. by destruct e.
Qed.

Lemma same_but_links_refl s : same_but_links s s.
Proof. unfold same_but_links. split; [|done]. by destruct s as [[]]. Qed.

Lemma same_but_links_trans s1 s2 s3 : same_but_links s1 s2 -> same_but_links s2 s3 -> same_but_links s1 s3.
Proof.
  intros (E1 & E2 & E3) (F1 & F2 & F3). split; [|split; congruence]. rewrite F1, E1. done.
Qed.

(** Linking what precedes an entry to what follows it, and back. *)
Lemma relink_left s l x n :
  NoDup l -> dll (g_heap s) None l x -> gc_head (g_cache s) = hd_or l x ->
  exists s', match last_or None l with
             | Some p => upd_entry p (set_next n)
             | None => upd_cache (set_head n)
             end s = Some (tt, s') /\
    dll (g_heap s') None l n /\ (forall b, (b ∉ l) -> g_heap s' !! b = g_heap s !! b) /\
    strip <$> g_heap s' = strip <$> g_heap s /\ gc_head (g_cache s') = hd_or l n /\
    gc_tail (g_cache s') = gc_tail (g_cache s) /\ same_but_links s s'.
Proof.
  intros Hnd Hl Hh. destruct l as [|b l _] using rev_ind.
  { eexists. split; [done|]. repeat split. }
  rewrite last_or_app. unfold last_or at 1. simpl. apply list.NoDup_app in Hnd as (_ & Hni & _).
  assert (Hb : b ∉ l) by (intros Hb; by apply (Hni b Hb), list_elem_of_singleton).
  destruct (dll_lookup _ _ _ _ b Hl) as [e He]; [apply elem_of_app; right; by apply list_elem_of_singleton|].
  rewrite (upd_entry_run _ _ _ _ He). eexists. split; [done|]. cbn [put_heap g_heap g_cache].
  split; [by eapply dll_last|]. split; [|split; [by apply strip_insert_links|]].
  - intros c Hc. apply lookup_insert_ne. intros ->. apply Hc, elem_of_app. right. by apply list_elem_of_singleton.
  - split; [rewrite Hh, !hd_or_app; by destruct l|]. split; [done|]. split; [|done]. by destruct s as [[]].
Qed.

Lemma relink_right s l x p :
  NoDup l -> dll (g_heap s) x l None -> gc_tail (g_cache s) = last_or x l ->
  exists s', match hd_or l None with
             | Some n => upd_entry n (set_prev p)
             | None => upd_cache (set_tail p)
             end s = Some (tt, s') /\
    dll (g_heap s') p l None /\ (forall b, (b ∉ l) -> g_heap s' !! b = g_heap s !! b) /\
    strip <$> g_heap s' = strip <$> g_heap s /\ gc_tail (g_cache s') = last_or p l /\
    gc_head (g_cache s') = gc_head (g_cache s) /\ same_but_links s s'.
Proof.
  intros Hnd Hl Ht. destruct l as [|b l].
  { eexists. split; [done|]. repeat split. }
  apply list.NoDup_cons in Hnd as [Hb Hnd]. simpl.
  destruct (dll_lookup _ _ _ _ b Hl) as [e He]; [by apply list_elem_of_here|].
  rewrite (upd_entry_run _ _ _ _ He). eexists. split; [done|]. cbn [put_heap g_heap g_cache].
  split; [by eapply dll_first|]. split; [|split; [by apply strip_insert_links|]].
  - intros c Hc. apply lookup_insert_ne. intros ->. apply Hc. by apply list_elem_of_here.
  - split; [by rewrite Ht, !last_or_cons|]. split; [done|]. split; [|done]. by destruct s as [[]].
Qed.

Lemma lru_unlink_spec s L1 a e L2 D :
  rep s (L1 ++ (a, e) :: L2) D ->
  exists s', lru_unlink a s = Some (tt, s') /\ rep s' (L1 ++ L2) ((a, e) :: D) /\ same_but_links s s'.
Proof.
  intros H. pose proof (rp_nodup _ _ _ H) as Hnd. pose proof (rp_dll _ _ _ H) as Hdll.
  rewrite fmap_app in Hdll. apply dll_app in Hdll as [Hl [(ea & Ha & Hpa & Hna) Hr]]. simpl in *.
  assert (Hnd' : NoDup (L1.*1 ++ a :: L2.*1)).
  { rewrite fmap_app, fmap_app in Hnd. apply list.NoDup_app in Hnd as (Hnd & _). exact Hnd. }
  pose proof Hnd' as (Hnd1 & Hd12 & Hnd2)%list.NoDup_app. apply list.NoDup_cons in Hnd2 as [Ha2 Hnd2].
  assert (Ha1 : a ∉ L1.*1) by (intros Hin; apply (Hd12 a Hin), list_elem_of_here).
  destruct (relink_left s L1.*1 (Some a) (hd_or L2.*1 None) Hnd1 Hl) as (s1 & E1 & D1 & F1 & S1 & H1 & T1 & B1).
  { rewrite (rp_head _ _ _ H), fmap_app. by rewrite hd_or_app. }
  destruct (relink_right s1 L2.*1 (Some a) (last_or None L1.*1) Hnd2) as (s2 & E2 & D2 & F2 & S2 & T2 & H2 & B2).
  { eapply dll_frame; [|exact Hr]. intros b Hb. apply F1. intros Hb1. apply (Hd12 b Hb1). by apply list_elem_of_further. }
  { rewrite T1, (rp_tail _ _ _ H), fmap_app, last_or_app. cbn. by rewrite last_or_cons. }
  assert (Ha' : g_heap s2 !! a = Some ea) by (by rewrite F2, F1).
  unfold lru_unlink. rewrite (bind_run _ _ _ _ _ (get_entry_run _ _ _ Ha)). rewrite Hpa, Hna.
  rewrite (bind_run _ _ _ _ _ E1), (bind_run _ _ _ _ _ E2), (upd_entry_run _ _ _ _ Ha').
  eexists. split; [done|]. split; [|eapply same_but_links_trans; [exact B1|exact B2]].
  assert (Hp : (L1 ++ (a, e) :: L2) ++ D ≡ₚ (L1 ++ L2) ++ (a, e) :: D) by solve_Permutation.
  split; cbn [put_heap g_heap g_cache g_brk].
  - by rewrite <- Hp.
  - rewrite strip_insert_links by done. rewrite S2, S1, (rp_heap _ _ _ H). by apply list_to_map_proper.
  - rewrite fmap_app. apply dll_insert; [by intros [?|?]%elem_of_app|]. apply dll_app. split; [|exact D2].
    eapply dll_frame; [|exact D1]. intros b Hb. apply F2. intros Hb2. apply (Hd12 b Hb). by apply list_elem_of_further.
  - by rewrite H2, H1, fmap_app, hd_or_app.
  - by rewrite T2, fmap_app, last_or_app.
  - destruct B1 as (_ & Eb1 & _), B2 as (_ & Eb2 & _). rewrite Eb2, Eb1, <- Hp. apply (rp_brk _ _ _ H).
Qed.

Lemma lru_push_mru_spec s L a e D :
  rep s L ((a, e) :: D) ->
  exists s', lru_push_mru a s = Some (tt, s') /\ rep s' ((a, e) :: L) D /\ same_but_links s s'.
Proof.
  intros H. pose proof (rp_nodup _ _ _ H) as Hnd.
  assert (Hp : L ++ (a, e) :: D ≡ₚ ((a, e) :: L) ++ D) by solve_Permutation.
  assert (Hnd' : NoDup (a :: L.*1)).
  { rewrite Hp in Hnd. cbn in Hnd. rewrite fmap_app, app_comm_cons in Hnd. by apply list.NoDup_app in Hnd as (Hnd & _). }
  apply list.NoDup_cons in Hnd' as [Ha HndL].
  destruct (rep_lookup _ _ _ a e H) as (e0 & He0 & Hs0); [apply elem_of_app; right; by apply list_elem_of_here|].
  unfold lru_push_mru. cbn [the_cache gets]. rewrite (bind_run _ _ s (g_cache s) s) by done.
  rewrite (bind_run _ _ _ _ _ (upd_entry_run s a e0 _ He0)). rewrite (rp_head _ _ _ H).
  set (s1 := put_heap s _).
  assert (Hdll1 : dll (g_heap s1) None L.*1 None) by (apply dll_insert; [done|apply (rp_dll _ _ _ H)]).
  assert (Htail : gc_tail (g_cache s1) = last_or None L.*1) by apply (rp_tail _ _ _ H).
  destruct (relink_right s1 L.*1 None (Some a) HndL Hdll1 Htail) as (s2 & E2 & D2 & F2 & S2 & T2 & H2 & B2).
  rewrite (bind_run _ _ s1 tt s2); [|exact E2]. rewrite upd_cache_run. eexists. split; [done|].
  destruct B2 as (Bc & Bb & Bl).
  split; [split; cbn [put_cache g_heap g_cache g_brk]|].
  - by rewrite <- Hp.
  - rewrite S2. cbn [s1 put_heap g_heap]. rewrite strip_insert_links by done. rewrite (rp_heap _ _ _ H).
    apply list_to_map_proper; [done|]. done.
  - cbn. split; [|done]. eexists. rewrite F2 by done. cbn [s1 put_heap g_heap]. rewrite lookup_insert_eq. done.
  - done.
  - cbn [set_head set_ends gc_tail]. rewrite T2. cbn. by rewrite last_or_cons.
  - rewrite Bb. rewrite <- Hp. apply (rp_brk _ _ _ H).
  - split; [|done]. cbn [put_cache g_cache]. rewrite Bc. done.
Qed.

Lemma lru_touch_spec s L1 a e L2 :
  rep s (L1 ++ (a, e) :: L2) [] ->
  exists s', lru_touch a s = Some (tt, s') /\ rep s' ((a, e) :: L1 ++ L2) [] /\ same_but_links s s'.
Proof.
  intros H. unfold lru_touch. rewrite (bind_run _ _ s (g_cache s) s) by done.
  case_decide as Hh.
  - exists s. split; [done|]. split; [|apply same_but_links_refl]. rewrite (rp_head _ _ _ H) in Hh.
    destruct L1 as [|[b eb] L1]; [done|]. injection Hh as ->. exfalso. pose proof (rp_nodup _ _ _ H) as Hnd.
    cbn in Hnd. apply list.NoDup_cons in Hnd as [Hnd _]. apply Hnd. rewrite app_nil_r, fmap_app. cbn.
    apply elem_of_app. right. by apply list_elem_of_here.
  - destruct (lru_unlink_spec _ _ _ _ _ _ H) as (s1 & E1 & R1 & B1). rewrite (bind_run _ _ _ _ _ E1).
    destruct (lru_push_mru_spec _ _ _ _ _ R1) as (s2 & E2 & R2 & B2). exists s2. split; [done|]. split; [done|].
    by eapply same_but_links_trans.
Qed.

(** Changing the contents of one entry, not its links. *)
Lemma upd_entry_spec s L1 a e L2 D f :
  rep s (L1 ++ (a, e) :: L2) D ->
  (forall e0, strip (f e0) = f (strip e0) /\ ge_prev (f e0) = ge_prev e0 /\ ge_next (f e0) = ge_next e0) ->
  exists s', upd_entry a f s = Some (tt, s') /\ rep s' (L1 ++ (a, f e) :: L2) D /\
    g_cache s' = g_cache s /\ g_brk s' = g_brk s /\ g_log s' = g_log s.
Proof.
  intros H Hf. destruct (rep_lookup _ _ _ a e H) as (e0 & He0 & Hs0).
  { rewrite <- app_assoc. apply elem_of_app. right. by apply list_elem_of_here. }
  rewrite (upd_entry_run _ _ _ _ He0). eexists. split; [done|]. split; [|done].
  destruct (Hf e0) as (F1 & F2 & F3). pose proof (rp_nodup _ _ _ H) as Hnd.
  assert (Ek : ((L1 ++ (a, f e) :: L2) ++ D).*1 = ((L1 ++ (a, e) :: L2) ++ D).*1) by (by rewrite !fmap_app).
  assert (El : (L1 ++ (a, f e) :: L2).*1 = (L1 ++ (a, e) :: L2).*1) by (by rewrite !fmap_app).
  split; cbn [put_heap g_heap g_cache g_brk]; rewrite ?Ek, ?El.
  - done.
  - rewrite fmap_insert, F1, Hs0, (rp_heap _ _ _ H).
    assert (Hp : forall x, (L1 ++ (a, x) :: L2) ++ D ≡ₚ (a, x) :: L1 ++ L2 ++ D) by (intros; solve_Permutation).
    rewrite (list_to_map_proper _ _ Hnd (Hp e)), (list_to_map_proper ((L1 ++ (a, f e) :: L2) ++ D) _ ltac:(by rewrite Ek) (Hp (f e))).
    cbn. by rewrite insert_insert_eq.
  - pose proof (rp_dll _ _ _ H) as Hd. clear -Hd He0 F2 F3. revert Hd. generalize (@None nat) at 1 3 as p.
    induction ((L1 ++ (a, e) :: L2).*1) as [|b l IH]; intros p; [done|]. intros [(eb & Hb & Hp & Hn) Hl]. split; [|by apply IH].
    destruct (decide (b = a)) as [->|Hne].
    + rewrite lookup_insert_eq. rewrite He0 in Hb. injection Hb as <-. exists (f e0). rewrite F2, F3. done.
    + rewrite lookup_insert_ne by done. by exists eb.
  - apply (rp_head _ _ _ H).
  - apply (rp_tail _ _ _ H).
  - apply (rp_brk _ _ _ H).
Qed.

(** ** Allocation *)

Definition entry_bufs (c : GenerationCache) (e : GenerationEntry) : list buf_event :=
  ge_slots e ≫= fun s => slot_buf_free c (gs_copy s).

Lemma entry_free_spec s L a e D :
  rep s L ((a, e) :: D) ->
  exists s', entry_free a s = Some (tt, s') /\ rep s' L D /\ g_cache s' = g_cache s /\ g_brk s' = g_brk s /\
    g_log s' = g_log s ++ entry_bufs (g_cache s) e.
Proof.
  intros H. destruct (rep_lookup _ _ _ a e H) as (e0 & He0 & Hs0); [apply elem_of_app; right; by apply list_elem_of_here|].
  unfold entry_free. rewrite (bind_run _ _ s (g_cache s) s) by done. rewrite (bind_run _ _ _ _ _ (get_entry_run _ _ _ He0)).
  eexists. split; [reflexivity|]. split; [|by rewrite <- Hs0].
  pose proof (rp_nodup _ _ _ H) as Hnd.
  assert (Hp : L ++ (a, e) :: D ≡ₚ (a, e) :: L ++ D) by solve_Permutation.
  pose proof Hnd as Hnd'. rewrite Hp in Hnd'. cbn in Hnd'. apply list.NoDup_cons in Hnd' as [Ha Hnd'].
  split; cbn.
  - done.
  - rewrite fmap_delete, (rp_heap _ _ _ H), (list_to_map_proper _ _ Hnd Hp). cbn.
    apply delete_insert_id. by apply not_elem_of_list_to_map_1.
  - eapply dll_frame; [|apply (rp_dll _ _ _ H)]. intros b Hb. apply lookup_delete_ne. intros ->.
    apply Ha. rewrite fmap_app. apply elem_of_app. by left.
  - apply (rp_head _ _ _ H).
  - apply (rp_tail _ _ _ H).
  - pose proof (rp_brk _ _ _ H) as Hb. rewrite Hp in Hb. by apply list.Forall_cons in Hb as [_ Hb].
Qed.

Definition new_entry (hdr : WireHeader) (now_ns : Z) : GenerationEntry :=
  mkEntry (wh_flow_id hdr) (wh_block_id hdr) (wh_final_dst hdr) (wh_type hdr) (wh_shard_count hdr)
    (wh_valid_len hdr) (wh_payload_len hdr) (wh_ttl hdr) GEN_COLLECTING 0 now_ns now_ns 0
    (replicate (Z.to_nat (wh_shard_count hdr)) slot_zero) None None.

Lemma entry_create_spec s L hdr now_ns :
  rep s L [] -> bad_shard hdr = false ->
  exists a s', entry_create false hdr now_ns s = Some (Some a, s') /\ rep s' L [(a, new_entry hdr now_ns)] /\
    g_cache s' = g_cache s /\ g_log s' = g_log s.
Proof.
  intros H Hb. unfold entry_create. rewrite Hb. cbn [orb]. eexists (g_brk s), _. split; [reflexivity|]. split; [|done].
  pose proof (rp_brk _ _ _ H) as Hbrk. rewrite app_nil_r in Hbrk.
  assert (Hni : g_brk s ∉ L.*1) by (intros Hin; rewrite list.Forall_forall in Hbrk; specialize (Hbrk _ Hin); simpl in Hbrk; lia).
  pose proof (rp_nodup _ _ _ H) as Hnd. rewrite app_nil_r in Hnd.
  assert (Hp : L ++ [(g_brk s, new_entry hdr now_ns)] ≡ₚ (g_brk s, new_entry hdr now_ns) :: L) by solve_Permutation.
  assert (Hnd' : NoDup ((g_brk s, new_entry hdr now_ns) :: L).*1) by (cbn; by apply list.NoDup_cons).
  split; cbn [g_heap g_cache g_brk].
  - by rewrite Hp.
  - rewrite fmap_insert, (rp_heap _ _ _ H), app_nil_r. symmetry.
    rewrite (list_to_map_proper (L ++ _) _ ltac:(by rewrite Hp) Hp). done.
  - apply dll_insert; [done|apply (rp_dll _ _ _ H)].
  - apply (rp_head _ _ _ H).
  - apply (rp_tail _ _ _ H).
  - rewrite Hp. cbn [fmap list_fmap fst]. apply list.Forall_cons. split; [lia|]. eapply list.Forall_impl; [exact Hbrk|]. simpl. lia.
Qed.

Lemma rep_size s L D : rep s L D -> length L <= size (g_heap s).
Proof.
  intros H. assert (E : size (g_heap s) = length (L ++ D)).
  { rewrite <- (map_size_fmap strip), (rp_heap _ _ _ H), map_size_list_to_map; [done|]. apply (rp_nodup _ _ _ H). }
  rewrite E, length_app. lia.
Qed.

(** ** Walks *)

Definition has_key (flow_id block_id : Z) (x : nat * GenerationEntry) : bool :=
  ((ge_flow_id (snd x) =? flow_id) && (ge_block_id (snd x) =? block_id))%Z.

(** The address of the first entry that satisfies [P]. *)
Fixpoint first_with (P : nat * GenerationEntry -> bool) (L : list (nat * GenerationEntry)) : option nat :=
  match L with
  | [] => None
  | x :: L' => if P x then Some (fst x) else first_with P L'
  end.

Lemma strip_fields e0 e :
  strip e0 = e -> ge_flow_id e0 = ge_flow_id e /\ ge_block_id e0 = ge_block_id e /\
    ge_last_update_ns e0 = ge_last_update_ns e /\ ge_bytes e0 = ge_bytes e /\ ge_slots e0 = ge_slots e.
Proof. by intros <-. Qed.

Lemma find_loop_spec s p L flow_id block_id fuel :
  dll (g_heap s) p L.*1 None -> Forall (fun x => strip <$> g_heap s !! (fst x) = Some (snd x)) L -> length L <= fuel ->
  find_loop fuel (hd_or L.*1 None) flow_id block_id s = Some (first_with (has_key flow_id block_id) L, s).
Proof.
  intros Hd Hall. revert p fuel Hd. induction Hall as [|[a e] L Hx _ IH]; intros p fuel Hd Hf; [by destruct fuel|].
  destruct fuel as [|fuel]; simpl in Hf; [lia|]. destruct Hd as [(e0 & He0 & _ & Hn) Hd].
  cbn [fmap list_fmap fst hd_or find_loop first_with]. rewrite (bind_run _ _ _ _ _ (get_entry_run _ _ _ He0)).
  cbn [fst snd] in *. rewrite He0 in Hx. injection Hx as Hs. destruct (strip_fields _ _ Hs) as (E1 & E2 & _).
  unfold has_key. cbn [snd]. rewrite E1, E2. destruct (_ && _)%Z; [done|]. rewrite Hn. apply (IH (Some a)); [done|lia].
Qed.

Lemma rep_all s L D : rep s L D -> Forall (fun x => strip <$> g_heap s !! (fst x) = Some (snd x)) L.
Proof.
  intros H. apply list.Forall_forall. intros [a e] Hin. simpl.
  destruct (rep_lookup _ _ _ a e H) as (e0 & -> & <-); [apply elem_of_app; by left|done].
Qed.

Lemma find_entry_spec s L D flow_id block_id :
  rep s L D -> find_entry flow_id block_id s = Some (first_with (has_key flow_id block_id) L, s).
Proof.
  intros H. unfold find_entry. rewrite (bind_run _ _ s (g_cache s) s) by done. rewrite (bind_run _ _ s (g_heap s) s) by done.
  rewrite (rp_head _ _ _ H). apply (find_loop_spec s None); [apply (rp_dll _ _ _ H)|by apply (rep_all s L D)|by eapply rep_size].
Qed.

(** A walk from the tail finds the last entry that satisfies the test. *)
Lemma tail_search_spec s L n test fuel :
  dll (g_heap s) None L.*1 n -> Forall (fun x => strip <$> g_heap s !! (fst x) = Some (snd x)) L -> length L <= fuel ->
  (forall a e, test a (strip e) = test a e) ->
  tail_search fuel (last_or None L.*1) test s = Some (first_with (fun x => test (fst x) (snd x)) (reverse L), s).
Proof.
  intros Hd Hall Hf Ht. revert n fuel Hd Hf. induction L as [|[a e] L IH] using rev_ind; intros n fuel Hd Hf; [by destruct fuel|].
  rewrite length_app in Hf. simpl in Hf. destruct fuel as [|fuel]; [lia|].
  apply list.Forall_app in Hall as [Hall Hx]. apply list.Forall_cons in Hx as [Hx _]. simpl in Hx.
  rewrite fmap_app in *. apply dll_app in Hd as [Hd [(e0 & He0 & Hp & _) _]]. simpl in *.
  rewrite last_or_app. unfold last_or at 1. simpl. rewrite (bind_run _ _ _ _ _ (get_entry_run _ _ _ He0)).
  rewrite He0 in Hx. injection Hx as <-. rewrite reverse_snoc. simpl. rewrite Ht. destruct (test a e0); [done|].
  rewrite Hp. apply (IH Hall (Some a)); [done|lia].
Qed.

Lemma rep_tail_search s L D test :
  rep s L D -> (forall a e, test a (strip e) = test a e) ->
  tail_search (size (g_heap s)) (gc_tail (g_cache s)) test s =
    Some (first_with (fun x => test (fst x) (snd x)) (reverse L), s).
Proof.
  intros H Ht. rewrite (rp_tail _ _ _ H).
  apply (tail_search_spec s L None); [apply (rp_dll _ _ _ H)|by eapply rep_all|by eapply rep_size|done].
Qed.

Lemma first_with_Some P L a :
  first_with P L = Some a -> exists L1 e L2, L = L1 ++ (a, e) :: L2 /\ P (a, e) = true.
Proof.
  induction L as [|[b e] L IH]; [done|]. simpl. destruct (P (b, e)) eqn:E; [intros [= <-]; by exists [], e, L|].
  intros (L1 & e' & L2 & -> & HP)%IH. by exists ((b, e) :: L1), e', L2.
Qed.

Lemma first_with_None P L : first_with P L = None -> Forall (fun x => P x = false) L.
Proof. induction L as [|x L IH]; [constructor|]. simpl. destruct (P x) eqn:E; [done|]. intros ?. constructor; auto. Qed.
