(* ===== verification/GenerationCacheSpec.v ===== *)
(** * What the generation cache keeps true

    The invariant of the cache (list, limits, byte and flow accounting, buffers) and its
    preservation by every operation of GenerationCache.v, over the list view of
    GenerationCacheList.v. *)

From S2P Require Import Prelude WireHeader GenerationCache GenerationCacheList.

(** ** Flow accounts

    [o f] is the number of generations of flow [f]. *)

Definition active_at (accts : list GenerationCacheFlowAccount) (i : nat) (a : GenerationCacheFlowAccount) : Prop :=
  accts !! i = Some a /\ fa_active a = true.

Record accounts_ok (accts : list GenerationCacheFlowAccount) (o : Z -> nat) : Prop := {
  ao_count : forall i a, active_at accts i a -> fa_count a = o (fa_flow_id a) /\ 0 < fa_count a;
  ao_exists : forall f, 0 < o f -> exists i a, active_at accts i a /\ fa_flow_id a = f;
  ao_unique : forall i j a b, active_at accts i a -> active_at accts j b -> fa_flow_id a = fa_flow_id b -> i = j
}.

Definition bump_count (o : Z -> nat) (f : Z) (n : nat) (g : Z) : nat := if Z.eq_dec f g then n else o g.

Lemma find_account_Some accts f i a :
  find_flow_account accts f = Some (i, a) -> active_at accts i a /\ fa_flow_id a = f.
Proof. unfold find_flow_account. intros (H1 & [H2 H3] & _)%list_find_Some. done. Qed.

Lemma find_account_None accts o f : accounts_ok accts o -> find_flow_account accts f = None -> o f = 0.
Proof.
  unfold find_flow_account. intros H Hn. destruct (decide (0 < o f)) as [Hp|]; [|lia]. exfalso.
  destruct (ao_exists _ _ H f Hp) as (i & a & [Hi Ha] & Hf). apply list_find_None in Hn.
  rewrite list.Forall_forall in Hn. apply (Hn a); [by eapply list_elem_of_lookup_2|done].
Qed.

Lemma account_count accts o f : accounts_ok accts o -> flow_generation_count accts f = o f.
Proof.
  intros H. unfold flow_generation_count. destruct (find_flow_account accts f) as [[i a]|] eqn:E.
  - apply find_account_Some in E as [Ha <-]. by apply (ao_count _ _ H i).
  - by rewrite (find_account_None accts o f H E).
Qed.

(** Replacing the account of flow [f], or an unused one, by one for flow [f]. *)
Lemma accounts_set accts o f i a n :
  accounts_ok accts o -> accts !! i = Some a -> (fa_active a = true -> fa_flow_id a = f) ->
  (fa_active a = false -> o f = 0) -> 0 < n ->
  accounts_ok (<[i := mkAccount true f n]> accts) (bump_count o f n).
Proof.
  intros H Hi Hf Hz Hn. pose proof (lookup_lt_Some _ _ _ Hi) as Hlt.
  assert (Hother : forall j b, active_at (<[i := mkAccount true f n]> accts) j b -> j <> i ->
            active_at accts j b /\ fa_flow_id b <> f).
  { intros j b [Hj Hb] Hne. rewrite list_lookup_insert_ne in Hj by done. split; [done|]. intros <-.
    destruct (fa_active a) eqn:Ea.
    - apply Hne. apply (ao_unique _ _ H j i b a); [done|done|by symmetry; apply Hf].
    - destruct (ao_count _ _ H j b) as [? ?]; [done|]. specialize (Hz eq_refl). lia. }
  assert (Hhere : forall b, active_at (<[i := mkAccount true f n]> accts) i b -> b = mkAccount true f n).
  { intros b [Hb _]. rewrite list_lookup_insert_eq in Hb by done. by injection Hb. }
  split.
  - intros j b Hb. destruct (decide (j = i)) as [->|Hne].
    + rewrite (Hhere b Hb). simpl. unfold bump_count. by destruct (Z.eq_dec f f).
    + destruct (Hother j b Hb Hne) as [Hb' Hne']. unfold bump_count. destruct (Z.eq_dec f (fa_flow_id b)); [done|].
      by apply (ao_count _ _ H j).
  - intros g. unfold bump_count. destruct (Z.eq_dec f g) as [<-|Hne].
    + intros _. exists i, (mkAccount true f n). split; [|done]. split; [by apply list_lookup_insert_eq|done].
    + intros (j & b & [Hj Hb] & Hg)%(ao_exists _ _ H). exists j, b. split; [|done]. split; [|done].
      rewrite list_lookup_insert_ne; [done|]. intros <-. rewrite Hi in Hj. injection Hj as <-. rewrite Hf in Hg; done.
  - intros j k b c Hb Hc E. destruct (decide (j = i)) as [->|Hj], (decide (k = i)) as [->|Hk]; [done| | |].
    + rewrite (Hhere b Hb) in E. by destruct (Hother k c Hc Hk).
    + rewrite (Hhere c Hc) in E. by destruct (Hother j b Hb Hj).
    + destruct (Hother j b Hb Hj), (Hother k c Hc Hk). by apply (ao_unique _ _ H j k b c).
Qed.

(** Closing the account of a flow. *)
Lemma accounts_clear accts o f i a c0 :
  accounts_ok accts o -> active_at accts i a -> fa_flow_id a = f -> fa_active c0 = false ->
  accounts_ok (<[i := c0]> accts) (bump_count o f 0).
Proof.
  intros H [Hi Ha] Hf Hc0. pose proof (lookup_lt_Some _ _ _ Hi) as Hlt.
  assert (Hother : forall j b, active_at (<[i := c0]> accts) j b -> j <> i /\ active_at accts j b /\ fa_flow_id b <> f).
  { intros j b [Hj Hb]. destruct (decide (j = i)) as [->|Hne].
    - rewrite list_lookup_insert_eq in Hj by done. injection Hj as <-. congruence.
    - rewrite list_lookup_insert_ne in Hj by done. split; [done|]. split; [done|]. intros E. apply Hne.
      apply (ao_unique _ _ H j i b a); [done|done|congruence]. }
  split.
  - intros j b Hb. destruct (Hother j b Hb) as (_ & Hb' & Hne). unfold bump_count. destruct (Z.eq_dec f _); [done|].
    by apply (ao_count _ _ H j).
  - intros g. unfold bump_count. destruct (Z.eq_dec f g) as [<-|Hne]; [lia|].
    intros (j & b & [Hj Hb] & Hg)%(ao_exists _ _ H). exists j, b. split; [|done]. split; [|done].
    rewrite list_lookup_insert_ne; [done|]. intros <-. rewrite Hi in Hj. injection Hj as <-. congruence.
  - intros j k b c Hb Hc E. destruct (Hother j b Hb) as (_ & Hb' & _), (Hother k c Hc) as (_ & Hc' & _).
    by apply (ao_unique _ _ H j k b c).
Qed.

Lemma accounts_ext accts o o' : (forall f, o f = o' f) -> accounts_ok accts o -> accounts_ok accts o'.
Proof.
  intros E H. split.
  - intros i a Ha. rewrite <- E. by apply (ao_count _ _ H i).
  - intros f. rewrite <- E. apply (ao_exists _ _ H).
  - apply (ao_unique _ _ H).
Qed.

Lemma account_add_spec accts o f :
  accounts_ok accts o -> (o f = 0 -> is_Some (find_free_flow_account accts)) ->
  exists accts', account_add_generation accts f = Some accts' /\ length accts' = length accts /\
    accounts_ok accts' (bump_count o f (o f + 1)).
Proof.
  intros H Hfree. unfold account_add_generation, get_or_create_flow_account.
  destruct (find_flow_account accts f) as [[i a]|] eqn:E.
  - apply find_account_Some in E as [[Hi Ha] Hf]. simpl. destruct (ao_count _ _ H i a) as [Hc _]; [done|].
    eexists. split; [done|]. rewrite length_insert. split; [done|]. rewrite Ha, Hf, Hc, Hf.
    eapply accounts_set; [done|exact Hi|done|congruence|lia].
  - pose proof (find_account_None accts o f H E) as Hz. destruct (Hfree Hz) as [[i a] Ef]. rewrite Ef. simpl.
    apply list_find_Some in Ef as (Hi & Ha & _). eexists. split; [done|]. rewrite !length_insert. split; [done|].
    rewrite list_insert_insert_eq, Hz. eapply accounts_set; [done|exact Hi|congruence|done|lia].
Qed.

Lemma account_remove_spec accts o f :
  accounts_ok accts o -> 0 < o f ->
  accounts_ok (account_remove_generation accts f) (bump_count o f (o f - 1)) /\
  length (account_remove_generation accts f) = length accts.
Proof.
  intros H Hp. unfold account_remove_generation. destruct (find_flow_account accts f) as [[i a]|] eqn:E.
  2: { rewrite (find_account_None accts o f H E) in Hp. lia. }
  apply find_account_Some in E as [[Hi Ha] Hf]. rewrite length_insert. split; [|done].
  destruct (ao_count _ _ H i a) as [Hc _]; [done|]. unfold release_empty_flow_account. cbn [fa_count].
  rewrite Hc, Hf. destruct (Nat.eqb_spec (o f - 1) 0) as [->|Hne].
  - by eapply accounts_clear.
  - rewrite Ha. eapply accounts_set; [done|exact Hi|done|congruence|lia].
Qed.

(** A table larger than the number of live flows has an unused account. *)
Lemma accounts_free accts o (fs : list Z) :
  accounts_ok accts o -> (forall f, 0 < o f -> (f ∈ fs)) -> length fs < length accts ->
  is_Some (find_free_flow_account accts).
Proof.
  intros H Hfs Hlt. unfold find_free_flow_account. destruct (list_find _ accts) as [x|] eqn:E; [by eexists|]. exfalso.
  apply list_find_None in E. rewrite list.Forall_forall in E.
  assert (Hall : forall i a, accts !! i = Some a -> active_at accts i a).
  { intros i a Hi. split; [done|]. pose proof (E a ltac:(by eapply list_elem_of_lookup_2)). simpl in *. by destruct (fa_active a). }
  assert (Hnd : NoDup (fa_flow_id <$> accts)).
  { apply NoDup_alt. intros i j x Hi Hj. rewrite list_lookup_fmap in Hi, Hj.
    destruct (accts !! i) as [a|] eqn:Ei; [|done]. destruct (accts !! j) as [b|] eqn:Ej; [|done].
    injection Hi as <-. injection Hj as Hj. by apply (ao_unique _ _ H i j a b); [apply Hall|apply Hall|]. }
  assert (Hsub : (fa_flow_id <$> accts) ⊆+ fs).
  { apply NoDup_submseteq; [done|]. intros f (a & -> & (i & Hi)%list_elem_of_lookup)%list_elem_of_fmap.
    apply Hfs. destruct (ao_count _ _ H i a (Hall i a Hi)) as [<- ?]. done. }
  apply submseteq_length in Hsub. rewrite length_fmap in Hsub. lia.
Qed.

(** ** Entries *)

Local Open Scope Z_scope.

Definition slot_ok (sl : GenerationSlot) : Prop :=
  if gs_present sl then gs_copy sl <> 0 /\ 0 <= gs_len sl else sl = slot_zero.

Definition slots_bytes (sls : list GenerationSlot) : Z := foldr (fun sl n => gs_len sl + n) 0 sls.
Definition slots_present (sls : list GenerationSlot) : list GenerationSlot := filter (fun sl => gs_present sl = true) sls.

(** The buffers an entry has hold of. *)
Definition held (e : GenerationEntry) : list Z := gs_copy <$> slots_present (ge_slots e).

Record entry_ok (e : GenerationEntry) : Prop := {
  eo_shards : 0 < ge_shard_count e <= GEN_CACHE_MAX_SHARD_COUNT;
  eo_length : length (ge_slots e) = Z.to_nat (ge_shard_count e);
  eo_slots : Forall slot_ok (ge_slots e);
  eo_bytes : ge_bytes e = slots_bytes (ge_slots e);
  eo_present : ge_present_count e = Z.of_nat (length (slots_present (ge_slots e)));
  eo_ready : ge_state e = GEN_READY <-> ge_present_count e = ge_shard_count e
}.

Definition live (L : list (nat * GenerationEntry)) (f : Z) : nat := count_occ Z.eq_dec (ge_flow_id <$> L.*2) f.
Definition list_bytes (L : list (nat * GenerationEntry)) : Z := foldr (fun x n => ge_bytes (snd x) + n) 0 L.
Definition entry_key (e : GenerationEntry) : Z * Z := (ge_flow_id e, ge_block_id e).

(** The buffers taken and let go of according to the log. *)
Definition acquired (log : list buf_event) : list Z :=
  omap (fun ev => match ev with BufMalloc p | BufRetain p => Some p | _ => None end) log.
Definition released (log : list buf_event) : list Z :=
  omap (fun ev => match ev with BufFree p | BufRelease p => Some p | _ => None end) log.

(** ** The invariant *)

Record cache_inv (s : gst) (L : list (nat * GenerationEntry)) : Prop := {
  ci_rep : rep s L [];
  ci_keys : NoDup (entry_key <$> L.*2);
  ci_entries : Forall entry_ok L.*2;
  ci_count : gc_count (g_cache s) = length L;
  ci_bytes : st_bytes (gc_stats (g_cache s)) = list_bytes L;
  ci_accounts : accounts_ok (gc_accounts (g_cache s)) (live L);
  ci_table : length (gc_accounts (g_cache s)) = max_gens_global (gc_cfg (g_cache s));
  ci_global : (length L <= max_gens_global (gc_cfg (g_cache s)))%nat;
  ci_flow : forall f, (live L f <= max_gens_per_flow (gc_cfg (g_cache s)))%nat;
  ci_limit : list_bytes L <= max_cache_bytes (gc_cfg (g_cache s));
  ci_log : acquired (g_log s) ≡ₚ released (g_log s) ++ (L.*2 ≫= held)
}.

Definition same_config (s s' : gst) : Prop :=
  gc_cfg (g_cache s') = gc_cfg (g_cache s) /\ gc_share (g_cache s') = gc_share (g_cache s) /\
  gc_release (g_cache s') = gc_release (g_cache s).

Lemma same_config_refl s : same_config s s.
Proof. done. Qed.

Lemma same_config_trans s1 s2 s3 : same_config s1 s2 -> same_config s2 s3 -> same_config s1 s3.
Proof. intros (A1 & A2 & A3) (B1 & B2 & B3). split; [|split]; congruence. Qed.

Lemma slots_bytes_nonneg sls : Forall slot_ok sls -> 0 <= slots_bytes sls.
Proof.
  induction 1 as [|sl sls H _ IH]; simpl; [lia|]. fold (slots_bytes sls). unfold slot_ok in H.
  destruct (gs_present sl); [lia|]. subst. simpl. lia.
Qed.

Lemma entry_bytes_nonneg e : entry_ok e -> 0 <= ge_bytes e.
Proof. intros H. rewrite (eo_bytes _ H). apply slots_bytes_nonneg, (eo_slots _ H). Qed.

Lemma list_bytes_app L K : list_bytes (L ++ K) = list_bytes L + list_bytes K.
Proof. induction L as [|x L IH]; simpl; [done|]. unfold list_bytes in *. lia. Qed.

Lemma list_bytes_nonneg L : Forall entry_ok L.*2 -> 0 <= list_bytes L.
Proof.
  induction L as [|[a e] L IH]; [done|]. intros [He HL]%list.Forall_cons. specialize (IH HL).
  pose proof (entry_bytes_nonneg _ He) as Hb. cbn [list_bytes foldr snd] in *. fold (list_bytes L). lia.
Qed.

Lemma live_app L K f : live (L ++ K) f = (live L f + live K f)%nat.
Proof. unfold live. by rewrite !fmap_app, count_occ_app. Qed.

Lemma live_cons a e L f : live ((a, e) :: L) f = ((if Z.eq_dec (ge_flow_id e) f then 1 else 0) + live L f)%nat.
Proof. unfold live. simpl. by destruct (Z.eq_dec _ f). Qed.

Lemma acquired_app l k : acquired (l ++ k) = acquired l ++ acquired k.
Proof. apply omap_app. Qed.

Lemma released_app l k : released (l ++ k) = released l ++ released k.
Proof. apply omap_app. Qed.

(** Freeing an entry lets go of exactly the buffers it holds. *)
Lemma entry_bufs_log c e :
  entry_ok e -> acquired (entry_bufs c e) = [] /\ released (entry_bufs c e) = held e.
Proof.
  intros H. unfold entry_bufs, held. pose proof (eo_slots _ H) as Hs. clear H.
  induction Hs as [|sl sls Hsl _ [IH1 IH2]]; [done|]. rewrite bind_cons, acquired_app, released_app, IH1, IH2.
  unfold slot_ok in Hsl. unfold slots_present in *. destruct (gs_present sl) eqn:Ep.
  - destruct Hsl as [Hc _]. rewrite list.filter_cons_True by done. unfold slot_buf_free.
    destruct (Z.eqb_spec (gs_copy sl) 0); [done|]. by destruct (gc_release c).
  - subst sl. rewrite list.filter_cons_False by done. done.
Qed.

Lemma bump_live L1 a e L2 f :
  bump_count (live (L1 ++ (a, e) :: L2)) (ge_flow_id e) (live (L1 ++ (a, e) :: L2) (ge_flow_id e) - 1) f = live (L1 ++ L2) f.
Proof.
  unfold bump_count. rewrite !live_app, !live_cons. destruct (Z.eq_dec (ge_flow_id e) (ge_flow_id e)); [|done].
  destruct (Z.eq_dec (ge_flow_id e) f) as [<-|]; lia.
Qed.

(** The bookkeeping of a removal. *)
Definition removed_cache (reason : remove_reason) (e : GenerationEntry) (c : GenerationCache) : GenerationCache :=
  let t := gc_stats c in
  let t := set_bytes (if st_bytes t >=? ge_bytes e then st_bytes t - ge_bytes e else 0) (st_bytes_peak t) t in
  set_stats (fun _ => inc_removed (bool_decide (reason = CACHE_REMOVE_TIMEOUT))
                        (bool_decide (reason = CACHE_REMOVE_EVICT)) t)
    (set_count (gc_count c - 1) (account_remove_generation (gc_accounts c) (ge_flow_id e)) c).

Lemma rep_same s s' L D :
  rep s L D -> g_heap s' = g_heap s -> g_brk s' = g_brk s -> gc_head (g_cache s') = gc_head (g_cache s) ->
  gc_tail (g_cache s') = gc_tail (g_cache s) -> rep s' L D.
Proof. intros [] E1 E2 E3 E4. split; rewrite ?E1, ?E2, ?E3, ?E4; done. Qed.

Lemma cache_remove_run s L1 a e L2 reason :
  rep s (L1 ++ (a, e) :: L2) [] ->
  exists s', cache_remove_entry a reason s = Some (tt, s') /\ rep s' (L1 ++ L2) [] /\
    g_cache s' = set_ends (gc_head (g_cache s')) (gc_tail (g_cache s')) (removed_cache reason e (g_cache s)) /\
    g_brk s' = g_brk s /\ g_log s' = g_log s ++ entry_bufs (g_cache s) e.
Proof.
  intros H. destruct (lru_unlink_spec _ _ _ _ _ _ H) as (s1 & E1 & R1 & (B1 & B2 & B3)).
  unfold cache_remove_entry. rewrite (bind_run _ _ _ _ _ E1).
  destruct (rep_lookup _ _ _ a e R1) as (e0 & He0 & Hs0); [apply elem_of_app; right; by apply list_elem_of_here|].
  rewrite (bind_run _ _ _ _ _ (get_entry_run _ _ _ He0)). rewrite (bind_run _ _ _ _ _ (upd_cache_run _ _)).
  destruct (strip_fields _ _ Hs0) as (Ef & _ & _ & Eb & _). rewrite Ef, Eb.
  set (s2 := put_cache s1 _).
  assert (R2 : rep s2 (L1 ++ L2) [(a, e)]) by (by eapply rep_same).
  destruct (entry_free_spec _ _ _ _ _ R2) as (s3 & E3 & R3 & C3 & K3 & G3). exists s3. split; [exact E3|]. split; [done|].
  rewrite C3, K3, G3. cbn [s2 put_cache g_cache g_brk g_log]. rewrite B1, B2, B3. split; [done|]. done.
Qed.

Lemma cache_remove_inv s L1 a e L2 reason :
  cache_inv s (L1 ++ (a, e) :: L2) ->
  exists s', cache_remove_entry a reason s = Some (tt, s') /\ cache_inv s' (L1 ++ L2) /\ same_config s s'.
Proof.
  intros H. destruct (cache_remove_run _ _ _ _ _ reason (ci_rep _ _ H)) as (s' & E & R & C & K & G).
  pose proof (ci_entries _ _ H) as Hent. rewrite fmap_app in Hent. apply list.Forall_app in Hent as [Hent1 Hent2].
  apply list.Forall_cons in Hent2 as [He Hent2]. simpl in He.
  exists s'. split; [done|].
  pose proof (f_equal gc_cfg C) as Ccfg. pose proof (f_equal gc_share C) as Csh. pose proof (f_equal gc_release C) as Crl.
  pose proof (f_equal gc_count C) as Ccnt. pose proof (f_equal gc_accounts C) as Cacc. pose proof (f_equal gc_stats C) as Cst.
  cbn in Ccfg, Csh, Crl, Ccnt, Cacc, Cst. split; [|by split].
  assert (Hlive : (0 < live (L1 ++ (a, e) :: L2) (ge_flow_id e))%nat).
  { rewrite live_app, live_cons. destruct (Z.eq_dec _ _); [lia|done]. }
  destruct (account_remove_spec _ _ _ (ci_accounts _ _ H) Hlive) as [Hacc Hlen].
  assert (Hb : list_bytes (L1 ++ (a, e) :: L2) = ge_bytes e + list_bytes (L1 ++ L2)).
  { rewrite !list_bytes_app. simpl. unfold list_bytes. lia. }
  pose proof (entry_bytes_nonneg _ He) as Hnn.
  assert (Hnn' : 0 <= list_bytes (L1 ++ L2)) by (apply list_bytes_nonneg; rewrite fmap_app; by apply list.Forall_app).
  split; rewrite ?Ccfg, ?Ccnt, ?Cacc, ?Cst; cbn [st_bytes inc_removed set_bytes].
  - done.
  - pose proof (ci_keys _ _ H) as Hk. rewrite !fmap_app in *. cbn in Hk. apply list.NoDup_app in Hk as (H1 & H2 & H3).
    apply list.NoDup_cons in H3 as [_ H3]. apply list.NoDup_app. split; [done|]. split; [|done].
    intros x Hx Hx2. apply (H2 x Hx). by apply list_elem_of_further.
  - rewrite fmap_app. by apply list.Forall_app.
  - rewrite (ci_count _ _ H), !length_app. simpl. lia.
  - rewrite (ci_bytes _ _ H), Hb. rewrite Z.geb_leb. destruct (Z.leb_spec (ge_bytes e) (ge_bytes e + list_bytes (L1 ++ L2))); lia.
  - eapply accounts_ext; [|exact Hacc]. apply bump_live.
  - rewrite Hlen. apply (ci_table _ _ H).
  - pose proof (ci_global _ _ H) as Hg. rewrite length_app in *. simpl in Hg. lia.
  - intros f. pose proof (ci_flow _ _ H f) as Hf. rewrite live_app in *. rewrite live_cons in Hf. lia.
  - pose proof (ci_limit _ _ H). lia.
  - rewrite G. destruct (entry_bufs_log (g_cache s) e He) as [La Lr]. rewrite acquired_app, released_app, La, Lr, app_nil_r.
    rewrite (ci_log _ _ H), !fmap_app, !bind_app. cbn. solve_Permutation.
Qed.

(** ** Expiry and eviction *)

(** Whether a pass with filter [flt] removes the entry. *)
Definition expires (c : GenerationCache) (now_ns flt : Z) (e : GenerationEntry) : bool :=
  ((flt <? 0) || (u32 flt =? ge_flow_id e)) && entry_timed_out c e now_ns.

Definition kept (c : GenerationCache) (now_ns flt : Z) (L : list (nat * GenerationEntry)) : list (nat * GenerationEntry) :=
  filter (fun x => expires c now_ns flt (snd x) = false) L.

Lemma expires_config c c' now_ns flt e : gc_cfg c = gc_cfg c' -> expires c now_ns flt e = expires c' now_ns flt e.
Proof. intros E. unfold expires, entry_timed_out. by rewrite E. Qed.

Lemma kept_config c c' now_ns flt L : gc_cfg c = gc_cfg c' -> kept c now_ns flt L = kept c' now_ns flt L.
Proof.
  intros E. unfold kept. induction L as [|x L IH]; [done|]. rewrite !list.filter_cons, IH.
  by rewrite (expires_config c c' _ _ _ E).
Qed.

Lemma expire_loop_inv P K s fuel now_ns flt :
  cache_inv s (P ++ K) -> (length P <= fuel)%nat ->
  exists n s', expire_loop fuel (last_or None P.*1) now_ns flt s = Some (n, s') /\
    cache_inv s' (kept (g_cache s) now_ns flt P ++ K) /\ same_config s s'.
Proof.
  revert K s fuel. induction P as [|[a e] P IH] using rev_ind; intros K s fuel H Hf.
  { exists 0%nat, s. by destruct fuel. }
  rewrite length_app in Hf. simpl in Hf. destruct fuel as [|fuel]; [lia|].
  rewrite <- app_assoc in H. cbn [app] in H. pose proof (rp_dll _ _ _ (ci_rep _ _ H)) as Hd.
  rewrite fmap_app in Hd. apply dll_app in Hd as [_ [(e0 & He0 & Hp & _) _]]. simpl in He0.
  destruct (rep_lookup _ _ _ a e (ci_rep _ _ H)) as (e1 & He1 & Hs1).
  { apply elem_of_app. left. apply elem_of_app. right. by apply list_elem_of_here. }
  rewrite He0 in He1. injection He1 as <-. rewrite fmap_app, last_or_app. unfold last_or at 1. cbn [list.last fmap list_fmap fst].
  cbn [expire_loop]. rewrite (bind_run _ _ s (g_cache s) s) by done. rewrite (bind_run _ _ _ _ _ (get_entry_run _ _ _ He0)).
  change (((flt <? 0) || (u32 flt =? ge_flow_id e0)) && entry_timed_out (g_cache s) e0 now_ns)
    with (expires (g_cache s) now_ns flt e0).
  replace (expires (g_cache s) now_ns flt e0) with (expires (g_cache s) now_ns flt e) by (by rewrite <- Hs1).
  rewrite Hp. unfold kept. rewrite list.filter_app. destruct (expires (g_cache s) now_ns flt e) eqn:Ex.
  - destruct (cache_remove_inv _ _ _ _ _ CACHE_REMOVE_TIMEOUT H) as (s1 & E1 & H1 & C1). rewrite (bind_run _ _ _ _ _ E1).
    destruct (IH K s1 fuel H1) as (n & s2 & E2 & H2 & C2); [lia|]. rewrite (bind_run _ _ _ _ _ E2).
    eexists _, s2. split; [done|]. split; [|by eapply same_config_trans].
    rewrite list.filter_cons_False by (simpl; congruence). rewrite app_nil_r.
    fold (kept (g_cache s) now_ns flt P). rewrite <- (kept_config (g_cache s1)) by apply C1. exact H2.
  - destruct (IH ((a, e) :: K) s fuel H) as (n & s2 & E2 & H2 & C2); [lia|]. eexists _, s2. split; [exact E2|].
    split; [|done]. rewrite list.filter_cons_True by done. rewrite <- app_assoc. exact H2.
Qed.

Lemma expire_inv s L now_ns flt :
  cache_inv s L -> exists n s', expire_one_pass now_ns flt s = Some (n, s') /\
    cache_inv s' (kept (g_cache s) now_ns flt L) /\ same_config s s'.
Proof.
  intros H. unfold expire_one_pass. rewrite (bind_run _ _ s (g_cache s) s) by done.
  rewrite (bind_run _ _ s (g_heap s) s) by done. rewrite (rp_tail _ _ _ (ci_rep _ _ H)).
  destruct (expire_loop_inv L [] s (size (g_heap s)) now_ns flt) as (n & s' & E & H' & C).
  - by rewrite app_nil_r.
  - by apply (rep_size s L []), (ci_rep _ _ H).
  - rewrite app_nil_r in H'. by exists n, s'.
Qed.

Lemma kept_sublist c now_ns flt L : sublist (kept c now_ns flt L) L.
Proof.
  unfold kept. induction L as [|x L IH]; [constructor|]. rewrite list.filter_cons.
  case_decide; [by apply sublist_skip|by apply sublist_cons].
Qed.

Lemma last_or_reverse {A} (x : A) L : last_or None (L ++ [x]) = Some x.
Proof. unfold last_or. by rewrite list.last_snoc. Qed.

(** A cache with entries has a victim. *)
Lemma room_victim_spec s L f :
  cache_inv s L -> L <> [] ->
  exists a L1 e L2, room_victim f s = Some (Some a, s) /\ L = L1 ++ (a, e) :: L2.
Proof.
  intros H Hne. unfold room_victim. rewrite (bind_run _ _ s (g_cache s) s) by done. rewrite (bind_run _ _ s (g_heap s) s) by done.
  pose proof (rp_tail _ _ _ (ci_rep _ _ H)) as Ht.
  assert (Htail : exists a L1 e L2, gc_tail (g_cache s) = Some a /\ L = L1 ++ (a, e) :: L2).
  { destruct L as [|[a e] L _] using rev_ind; [done|]. exists a, L, e, []. split; [|done]. rewrite Ht, fmap_app. apply last_or_reverse. }
  destruct (_ <=? _)%nat.
  - rewrite (bind_run _ _ _ _ _ (rep_tail_search s L [] (fun _ e => ge_flow_id e =? f) (ci_rep _ _ H) ltac:(done))).
    destruct (first_with _ (reverse L)) as [a|] eqn:Ef.
    + apply first_with_Some in Ef as (L1 & e & L2 & E & _). exists a, (reverse L2), e, (reverse L1). split; [done|].
      rewrite <- (reverse_involutive L), E, reverse_app, reverse_cons, <- app_assoc. done.
    + destruct Htail as (a & L1 & e & L2 & E & EL). exists a, L1, e, L2. by rewrite E.
  - destruct Htail as (a & L1 & e & L2 & E & EL). exists a, L1, e, L2. cbn. by rewrite E.
Qed.

Lemma room_loop_inv fuel s L f len :
  cache_inv s L -> (length L < fuel)%nat ->
  exists s' L', room_loop fuel f len s = Some (tt, s') /\ cache_inv s' L' /\ same_config s s' /\ sublist L' L /\
    (needs_eviction (g_cache s') f len = true -> L' = []) /\ (needs_eviction (g_cache s) f len = false -> L' = L).
Proof.
  revert s L. induction fuel as [|fuel IH]; intros s L H Hf; [lia|]. cbn [room_loop].
  rewrite (bind_run _ _ s (g_cache s) s) by done. rewrite (ci_count _ _ H).
  destruct (needs_eviction (g_cache s) f len) eqn:En; [|exists s, L; by rewrite En].
  destruct L as [|x L]; [exists s, []; by rewrite En|]. cbn [andb length Nat.ltb Nat.leb].
  destruct (room_victim_spec s (x :: L) f H) as (a & L1 & e & L2 & Ev & EL); [done|].
  rewrite (bind_run _ _ _ _ _ Ev). rewrite EL in H. destruct (cache_remove_inv _ _ _ _ _ CACHE_REMOVE_EVICT H) as (s1 & E1 & H1 & C1).
  rewrite (bind_run _ _ _ _ _ E1). apply (f_equal length) in EL as EL'. rewrite length_app in EL'. simpl in EL', Hf.
  destruct (IH s1 (L1 ++ L2) H1) as (s2 & L' & E2 & H2 & C2 & S2 & N2 & _); [rewrite length_app; lia|].
  exists s2, L'. split; [done|]. split; [done|]. split; [by eapply same_config_trans|]. split; [|done].
  rewrite EL. etrans; [exact S2|]. apply sublist_app; [done|]. by apply sublist_cons.
Qed.

Lemma make_room_inv s L f len now_ns :
  cache_inv s L ->
  exists b s' L', make_room f len now_ns s = Some (b, s') /\ cache_inv s' L' /\ same_config s s' /\ sublist L' L /\
    b = negb (needs_eviction (g_cache s') f len) /\ (b = false -> L' = []).
Proof.
  intros H. unfold make_room. destruct (expire_inv s L now_ns (-1) H) as (n & s1 & E1 & H1 & C1).
  rewrite (bind_run _ _ _ _ _ E1). rewrite (bind_run _ _ s1 (g_cache s1) s1) by done.
  destruct (room_loop_inv (max_gens_global (gc_cfg (g_cache s1)) + 8) s1 _ f len H1) as (s2 & L' & E2 & H2 & C2 & S2 & N2 & _).
  { pose proof (ci_global _ _ H1). lia. }
  rewrite (bind_run _ _ _ _ _ E2). rewrite (bind_run _ _ s2 (g_cache s2) s2) by done.
  eexists _, s2, L'. split; [done|]. split; [done|]. split; [by eapply same_config_trans|].
  split; [etrans; [exact S2|apply kept_sublist]|]. split; [done|]. intros ?%negb_false_iff. by apply N2.
Qed.

(** ** Storing a datagram *)

(** The loop keeps the entry it makes room for. *)
Lemma grow_loop_inv fuel s L1 a e L2 len :
  cache_inv s (L1 ++ (a, e) :: L2) -> (length (L1 ++ (a, e) :: L2) <= fuel)%nat ->
  exists b s' K1 K2, grow_loop fuel a len s = Some (b, s') /\ cache_inv s' (K1 ++ (a, e) :: K2) /\ same_config s s' /\
    sublist K1 L1 /\ sublist K2 L2 /\ b = negb (over_bytes (g_cache s') len) /\ (b = false -> K1 ++ K2 = []) /\
    (over_bytes (g_cache s) len = false -> K1 = L1 /\ K2 = L2).
Proof.
  revert s L1 L2. induction fuel as [|fuel IH]; intros s L1 L2 H Hf; [rewrite length_app in Hf; simpl in Hf; lia|].
  cbn [grow_loop]. rewrite (bind_run _ _ s (g_cache s) s) by done.
  destruct (over_bytes (g_cache s) len) eqn:Eo; [|exists true, s, L1, L2; cbn; by rewrite Eo].
  rewrite (ci_count _ _ H). replace (0 <? length (L1 ++ (a, e) :: L2))%nat with true
    by (symmetry; apply Nat.ltb_lt; rewrite length_app; simpl; lia). cbn [andb].
  rewrite (bind_run _ _ s (g_heap s) s) by done.
  rewrite (bind_run _ _ _ _ _ (rep_tail_search s _ [] (fun x _ => negb (x =? a)%nat) (ci_rep _ _ H) ltac:(done))).
  destruct (first_with _ _) as [v|] eqn:Ev.
  - apply first_with_Some in Ev as (R1 & ev & R2 & E & Hv). cbn in Hv. apply negb_true_iff, Nat.eqb_neq in Hv.
    assert (EL : L1 ++ (a, e) :: L2 = reverse R2 ++ (v, ev) :: reverse R1).
    { rewrite <- (reverse_involutive (L1 ++ _)), E, reverse_app, reverse_cons, <- app_assoc. done. }
    assert (Hsplit : (exists M, L1 = reverse R2 ++ (v, ev) :: M /\ reverse R1 = M ++ (a, e) :: L2) \/
                     (exists M, reverse R2 = L1 ++ (a, e) :: M /\ L2 = M ++ (v, ev) :: reverse R1)).
    { apply app_eq_inv in EL as [(M & E1 & E2)|(M & E1 & E2)]; destruct M as [|y M]; simplify_eq/=; eauto. }
    pose proof H as H0. rewrite EL in H0. destruct (cache_remove_inv _ _ _ _ _ CACHE_REMOVE_EVICT H0) as (s1 & E1 & H1 & C1).
    rewrite (bind_run _ _ _ _ _ E1).
    destruct Hsplit as [(M & -> & EM)|(M & EM & ->)].
    + rewrite EM in H1. rewrite app_assoc in H1. destruct (IH s1 (reverse R2 ++ M) L2 H1) as (b & s2 & K1 & K2 & E2 & H2 & C2 & S2 & S2' & B2 & F2 & _).
      { rewrite ?length_app in *. simpl in *. rewrite ?length_app in *. simpl in *. lia. }
      exists b, s2, K1, K2. split; [done|]. split; [done|]. split; [by eapply same_config_trans|]. split; [|by split].
      etrans; [exact S2|]. apply sublist_app; [done|]. by apply sublist_cons.
    + rewrite EM in H1. rewrite <- app_assoc in H1. cbn in H1.
      destruct (IH s1 L1 (M ++ reverse R1) H1) as (b & s2 & K1 & K2 & E2 & H2 & C2 & S2 & S2' & B2 & F2 & _).
      { rewrite ?length_app in *. simpl in *. rewrite ?length_app in *. simpl in *. lia. }
      exists b, s2, K1, K2. split; [done|]. split; [done|]. split; [by eapply same_config_trans|]. split; [done|]. split; [|by split].
      etrans; [exact S2'|]. apply sublist_app; [done|]. by apply sublist_cons.
  - apply first_with_None in Ev. rewrite Forall_reverse in Ev. apply list.Forall_app in Ev as [Ev1 Ev2].
    apply list.Forall_cons in Ev2 as [_ Ev2].
    assert (Hnil : forall K : list (nat * GenerationEntry), Forall (fun x => negb (fst x =? a)%nat = false) K -> (a ∉ K.*1) -> K = []).
    { intros [|[b eb] K] HK Hni; [done|]. apply list.Forall_cons in HK as [Hb _]. apply negb_false_iff, Nat.eqb_eq in Hb.
      simpl in Hb. subst. exfalso. apply Hni. by apply list_elem_of_here. }
    pose proof (rp_nodup _ _ _ (ci_rep _ _ H)) as Hnd. rewrite app_nil_r, fmap_app in Hnd. cbn in Hnd.
    apply list.NoDup_app in Hnd as (_ & Hn1 & Hn2). apply list.NoDup_cons in Hn2 as [Hn2 _].
    rewrite (Hnil L1 Ev1 ltac:(intros Hin; apply (Hn1 a Hin), list_elem_of_here)) in *. rewrite (Hnil L2 Ev2 Hn2) in *.
    exists false, s, [], []. rewrite Eo. done.
Qed.

Lemma slots_bytes_app l k : slots_bytes (l ++ k) = slots_bytes l + slots_bytes k.
Proof. induction l as [|x l IH]; simpl; [done|]. unfold slots_bytes in *. lia. Qed.

Lemma slots_insert sls i sl new :
  sls !! i = Some sl -> gs_present sl = false -> gs_present new = true -> slot_ok sl ->
  slots_present (<[i := new]> sls) ≡ₚ new :: slots_present sls /\
  slots_bytes (<[i := new]> sls) = gs_len new + slots_bytes sls.
Proof.
  intros Hi Hs Hn Hok. unfold slot_ok in Hok. rewrite Hs in Hok. subst sl.
  rewrite <- (list.take_drop_middle sls i _ Hi). pose proof (lookup_lt_Some _ _ _ Hi).
  rewrite list_insert_middle by (rewrite length_take; lia). unfold slots_present. split.
  - rewrite !list.filter_app, list.filter_cons_True, list.filter_cons_False by done. solve_Permutation.
  - rewrite !slots_bytes_app. simpl. lia.
Qed.

(** An entry after a datagram arrived in an empty slot. *)
Definition filled (hdr : WireHeader) (copy len now_ns : Z) (e : GenerationEntry) : GenerationEntry :=
  let e := fill_slot hdr copy len now_ns e in
  if (ge_present_count e >=? ge_shard_count e) && bool_decide (ge_state e <> GEN_READY) then set_ready e else e.

Lemma filled_fields hdr copy len now_ns e :
  entry_key (filled hdr copy len now_ns e) = entry_key e /\
  ge_slots (filled hdr copy len now_ns e) = <[Z.to_nat (wh_shard_index hdr) := mkSlot copy len true]> (ge_slots e) /\
  ge_bytes (filled hdr copy len now_ns e) = (ge_bytes e +u64 len)%cint /\
  ge_last_update_ns (filled hdr copy len now_ns e) = now_ns.
Proof. unfold filled. by destruct (_ && _). Qed.

Lemma slots_present_le sls : (length (slots_present sls) <= length sls)%nat.
Proof. apply list.length_filter. Qed.

Lemma filled_ok hdr copy len now_ns e sl :
  entry_ok e -> ge_slots e !! Z.to_nat (wh_shard_index hdr) = Some sl -> gs_present sl = false ->
  copy <> 0 -> 0 <= len -> ge_bytes e + len < 2 ^ 64 ->
  entry_ok (filled hdr copy len now_ns e) /\ held (filled hdr copy len now_ns e) ≡ₚ copy :: held e /\
  ge_bytes (filled hdr copy len now_ns e) = ge_bytes e + len.
Proof.
  intros H Hi Hs Hc Hl Hr. pose proof (entry_bytes_nonneg _ H) as Hnn.
  destruct (filled_fields hdr copy len now_ns e) as (_ & Esl & Eb & _).
  assert (Hsl : slot_ok sl) by (pose proof (eo_slots _ H) as Ha; rewrite list.Forall_lookup in Ha; by eapply Ha).
  destruct (slots_insert _ _ _ (mkSlot copy len true) Hi Hs eq_refl Hsl) as [Hp Hb]. simpl in Hb.
  assert (Hbytes : ge_bytes (filled hdr copy len now_ns e) = ge_bytes e + len).
  { rewrite Eb. apply u64_small. unfold in_range. lia. }
  split; [|split; [|done]].
  2: { unfold held. rewrite Esl, Hp. done. }
  pose proof (eo_shards _ H) as Hsh. unfold GEN_CACHE_MAX_SHARD_COUNT in Hsh.
  pose proof (slots_present_le (ge_slots (filled hdr copy len now_ns e))) as Hle.
  rewrite Esl, Hp, length_insert, (eo_length _ H) in Hle. cbn [length] in Hle.
  assert (Hu : u16 (ge_present_count e + 1) = ge_present_count e + 1).
  { unfold u16. apply uwrap_small. rewrite (eo_present _ H). unfold in_range. lia. }
  assert (Ecount : ge_present_count (filled hdr copy len now_ns e) = ge_present_count e + 1).
  { unfold filled. rewrite <- Hu. by destruct (_ && _). }
  assert (Eshard : ge_shard_count (filled hdr copy len now_ns e) = ge_shard_count e).
  { unfold filled. by destruct (_ && _). }
  split; rewrite ?Eshard, ?Esl, ?Ecount.
  - done.
  - rewrite length_insert. apply (eo_length _ H).
  - apply Forall_insert; [apply (eo_slots _ H)|]. by split.
  - rewrite Hbytes, Hb, (eo_bytes _ H). lia.
  - rewrite Hp. cbn [length]. rewrite (eo_present _ H). lia.
  - pose proof (eo_ready _ H) as Hrd. pose proof (eo_present _ H).
    unfold filled. cbn [fill_slot ge_present_count ge_shard_count ge_state]. rewrite Hu, Z.geb_leb.
    destruct (Z.leb_spec (ge_shard_count e) (ge_present_count e + 1)); cbn [andb].
    + case_bool_decide as Hst; cbn [set_ready ge_state]; [split; [lia|done]|].
      apply Hrd in Hst. lia.
    + cbn. rewrite Hrd. lia.
Qed.

(** Counters other than the byte count are not part of the invariant. *)
Lemma inv_set_stats s L f :
  cache_inv s L -> (forall t, st_bytes (f t) = st_bytes t) ->
  cache_inv (put_cache s (set_stats f (g_cache s))) L /\ same_config s (put_cache s (set_stats f (g_cache s))).
Proof.
  intros [] Hf. split; [|done]. split; try done; [by eapply rep_same|]. cbn. by rewrite Hf.
Qed.

Lemma fail_admission_inv s L :
  cache_inv s L -> exists s', fail_admission s = Some (GEN_INSERT_ADMISSION_FAILED, s') /\ cache_inv s' L /\ same_config s s'.
Proof. intros H. eexists. split; [reflexivity|]. by apply inv_set_stats. Qed.

Lemma commit_slot_run s K1 a e K2 hdr copy len now_ns ev :
  rep s (K1 ++ (a, e) :: K2) [] ->
  exists s', commit_slot a hdr copy len now_ns ev s = Some (tt, s') /\
    rep s' ((a, filled hdr copy len now_ns e) :: K1 ++ K2) [] /\ same_config s s' /\
    gc_count (g_cache s') = gc_count (g_cache s) /\ gc_accounts (g_cache s') = gc_accounts (g_cache s) /\
    st_bytes (gc_stats (g_cache s')) = (st_bytes (gc_stats (g_cache s)) +u64 len)%cint /\ g_log s' = g_log s ++ [ev].
Proof.
  intros H. unfold commit_slot.
  rewrite (bind_run _ _ s tt (mkGst (g_cache s) (g_heap s) (g_brk s) (g_log s ++ [ev]))) by done. set (s1 := mkGst _ _ _ _).
  assert (R1 : rep s1 (K1 ++ (a, e) :: K2) []) by (by eapply rep_same).
  destruct (upd_entry_spec _ _ _ _ _ _ (fill_slot hdr copy len now_ns) R1) as (s2 & E2 & R2 & C2 & B2 & G2); [by intros e0|].
  rewrite (bind_run _ _ _ _ _ E2). rewrite (bind_run _ _ _ _ _ (upd_cache_run _ _)). set (s3 := put_cache s2 _).
  assert (R3 : rep s3 (K1 ++ (a, fill_slot hdr copy len now_ns e) :: K2) []) by (by eapply rep_same).
  destruct (lru_touch_spec _ _ _ _ _ R3) as (s4 & E4 & R4 & (C4 & B4 & G4)). rewrite (bind_run _ _ _ _ _ E4).
  pose proof (f_equal gc_cfg C4) as Q1. pose proof (f_equal gc_share C4) as Q2. pose proof (f_equal gc_release C4) as Q3.
  pose proof (f_equal gc_count C4) as Q4. pose proof (f_equal gc_accounts C4) as Q5. pose proof (f_equal gc_stats C4) as Q6.
  cbn in Q1, Q2, Q3, Q4, Q5, Q6, G4. rewrite C2 in Q1, Q2, Q3, Q4, Q5, Q6. rewrite G2 in G4. cbn in Q1, Q2, Q3, Q4, Q5, Q6, G4.
  destruct (rep_lookup _ _ _ a (fill_slot hdr copy len now_ns e) R4) as (e0 & He0 & Hs0); [by apply list_elem_of_here|].
  rewrite (bind_run _ _ _ _ _ (get_entry_run _ _ _ He0)).
  assert (Econd : (ge_present_count e0 >=? ge_shard_count e0) && bool_decide (ge_state e0 <> GEN_READY) =
    (ge_present_count (fill_slot hdr copy len now_ns e) >=? ge_shard_count (fill_slot hdr copy len now_ns e)) &&
    bool_decide (ge_state (fill_slot hdr copy len now_ns e) <> GEN_READY)) by (by rewrite <- Hs0).
  rewrite Econd. clear Econd. unfold filled. destruct (_ && _).
  - destruct (upd_entry_spec s4 [] _ _ _ _ set_ready R4) as (s5 & E5 & R5 & C5 & B5 & G5); [by intros e1|].
    rewrite (bind_run _ _ _ _ _ E5). rewrite upd_cache_run. eexists. split; [done|].
    split; [by eapply rep_same|]. unfold same_config. cbn. rewrite C5, G5, G4, Q1, Q2, Q3, Q4, Q5, Q6. done.
  - exists s4. split; [done|]. split; [done|]. unfold same_config. by rewrite G4, Q1, Q2, Q3, Q4, Q5, Q6.
Qed.

Lemma rep_perm_keys s L : cache_inv s L -> NoDup L.*1.
Proof. intros H. pose proof (rp_nodup _ _ _ (ci_rep _ _ H)) as Hnd. by rewrite app_nil_r in Hnd. Qed.

Lemma commit_slot_inv s K1 a e K2 hdr copy len now_ns ev sl :
  cache_inv s (K1 ++ (a, e) :: K2) -> ge_slots e !! Z.to_nat (wh_shard_index hdr) = Some sl -> gs_present sl = false ->
  copy <> 0 -> 0 <= len -> list_bytes (K1 ++ (a, e) :: K2) + len <= max_cache_bytes (gc_cfg (g_cache s)) ->
  max_cache_bytes (gc_cfg (g_cache s)) < 2 ^ 64 -> (ev = BufMalloc copy \/ ev = BufRetain copy) ->
  exists s', commit_slot a hdr copy len now_ns ev s = Some (tt, s') /\
    cache_inv s' ((a, filled hdr copy len now_ns e) :: K1 ++ K2) /\ same_config s s'.
Proof.
  intros H Hsl Hp Hc Hl Hfit Hmax Hev.
  destruct (commit_slot_run s K1 a e K2 hdr copy len now_ns ev (ci_rep _ _ H)) as (s' & E & R & (Cc & C2 & C3) & Ccnt & Cacc & Cb & Clog).
  exists s'. split; [done|]. split; [|by split].
  pose proof (ci_entries _ _ H) as Hent. assert (Hperm : K1 ++ (a, e) :: K2 ≡ₚ (a, e) :: K1 ++ K2) by solve_Permutation.
  rewrite Hperm in Hent. apply list.Forall_cons in Hent as [He Hent]. simpl in He.
  assert (Hbytes : list_bytes (K1 ++ (a, e) :: K2) = ge_bytes e + list_bytes (K1 ++ K2)).
  { rewrite !list_bytes_app. simpl. unfold list_bytes. lia. }
  pose proof (list_bytes_nonneg _ Hent) as Hnn. pose proof (entry_bytes_nonneg _ He) as Hnn'.
  destruct (filled_ok hdr copy len now_ns e sl He Hsl Hp Hc Hl) as (Hok & Hheld & Hfb); [lia|].
  destruct (filled_fields hdr copy len now_ns e) as (Hkey & _).
  assert (Hlive : forall f, live (K1 ++ (a, e) :: K2) f = live ((a, filled hdr copy len now_ns e) :: K1 ++ K2) f).
  { intros f. rewrite live_app, !live_cons, live_app. unfold entry_key in Hkey. injection Hkey as -> _. lia. }
  assert (Hlb : list_bytes ((a, filled hdr copy len now_ns e) :: K1 ++ K2) = list_bytes (K1 ++ (a, e) :: K2) + len).
  { rewrite Hbytes. cbn [list_bytes foldr snd]. fold (list_bytes (K1 ++ K2)). rewrite Hfb. lia. }
  split; rewrite ?Cc, ?Ccnt, ?Cacc, ?Cb.
  - done.
  - pose proof (ci_keys _ _ H) as Hk. rewrite Hperm in Hk. cbn [fmap list_fmap snd] in *. by rewrite Hkey.
  - by constructor.
  - rewrite (ci_count _ _ H). cbn [length]. rewrite !length_app. simpl. lia.
  - rewrite Hlb, (ci_bytes _ _ H). apply u64_small. unfold in_range. lia.
  - eapply accounts_ext; [exact Hlive|apply (ci_accounts _ _ H)].
  - apply (ci_table _ _ H).
  - pose proof (ci_global _ _ H) as Hg. rewrite length_app in Hg. cbn [length] in *. rewrite length_app. lia.
  - intros f. rewrite <- Hlive. apply (ci_flow _ _ H).
  - lia.
  - rewrite Clog, acquired_app, released_app. pose proof (ci_log _ _ H) as Hlog. rewrite Hperm in Hlog. cbn [fmap list_fmap snd] in *.
    rewrite bind_cons in *. rewrite Hheld, Hlog.
    assert (acquired [ev] = [copy] /\ released [ev] = []) as [-> ->] by (by destruct Hev as [-> | ->]). rewrite app_nil_r. solve_Permutation.
Qed.

(** The buffer a slot gets: the datagram itself when it can be shared, a copy otherwise. *)
Definition kept_as (is_shared : Z -> bool) (malloc : option Z) (share : bool) (datagram copy : Z) : Prop :=
  if share && is_shared datagram then copy = datagram else malloc = Some copy.

(** What a status of [store_slot] says about the list, [L1 ++ (a, e) :: L2] before. *)
Definition stored (is_shared : Z -> bool) (malloc : option Z) (share : bool) (hdr : WireHeader)
  (datagram len now_ns : Z) (st : GenerationInsertStatus)
  (L1 : list (nat * GenerationEntry)) (a : nat) (e : GenerationEntry) (L2 L' : list (nat * GenerationEntry)) : Prop :=
  exists sl, ge_slots e !! Z.to_nat (wh_shard_index hdr) = Some sl /\
  match st with
  | GEN_INSERT_OK => gs_present sl = false /\ exists copy rest, kept_as is_shared malloc share datagram copy /\ copy <> 0 /\
      L' = (a, filled hdr copy len now_ns e) :: rest /\ sublist rest (L1 ++ L2)
  | GEN_INSERT_DUPLICATE => gs_present sl = true /\ L' = L1 ++ (a, e) :: L2
  | GEN_INSERT_ADMISSION_FAILED => gs_present sl = false /\ exists K1 K2, L' = K1 ++ (a, e) :: K2 /\ sublist K1 L1 /\ sublist K2 L2
  | _ => False
  end.

Lemma over_bytes_false s L len :
  cache_inv s L -> 0 <= len -> max_cache_bytes (gc_cfg (g_cache s)) + len < 2 ^ 64 -> over_bytes (g_cache s) len = false ->
  list_bytes L + len <= max_cache_bytes (gc_cfg (g_cache s)).
Proof.
  intros H Hl Hm. unfold over_bytes. rewrite (ci_bytes _ _ H). pose proof (ci_limit _ _ H).
  pose proof (list_bytes_nonneg _ (ci_entries _ _ H)).
  rewrite u64_small by (unfold in_range; lia). rewrite Z.gtb_ltb. intros ?%Z.ltb_ge. lia.
Qed.

Section Store.
Context (is_shared : Z -> bool) (malloc : option Z).
Hypothesis malloc_not_null : forall p, malloc = Some p -> p <> 0.

Lemma store_slot_inv s L1 a e L2 hdr datagram len now_ns :
  cache_inv s (L1 ++ (a, e) :: L2) -> 0 <= wh_shard_index hdr < ge_shard_count e -> datagram <> 0 -> 0 <= len ->
  max_cache_bytes (gc_cfg (g_cache s)) + len < 2 ^ 64 ->
  exists st s' L', store_slot is_shared malloc a hdr datagram len now_ns s = Some (st, s') /\ cache_inv s' L' /\
    same_config s s' /\ stored is_shared malloc (gc_share (g_cache s)) hdr datagram len now_ns st L1 a e L2 L'.
Proof.
  intros H Hidx Hd Hl Hmax. pose proof (ci_entries _ _ H) as Hent. rewrite fmap_app in Hent.
  apply list.Forall_app in Hent as [_ Hent]. apply list.Forall_cons in Hent as [He _]. simpl in He.
  destruct (rep_lookup _ _ _ a e (ci_rep _ _ H)) as (e0 & He0 & Hs0).
  { apply elem_of_app. left. apply elem_of_app. right. by apply list_elem_of_here. }
  assert (Esh : ge_shard_count e0 = ge_shard_count e) by (by rewrite <- Hs0).
  assert (Esl : ge_slots e0 = ge_slots e) by (by rewrite <- Hs0).
  destruct (lookup_lt_is_Some_2 (ge_slots e) (Z.to_nat (wh_shard_index hdr))) as [sl Hsl]; [rewrite (eo_length _ He); lia|].
  unfold store_slot. rewrite (bind_run _ _ _ _ _ (get_entry_run _ _ _ He0)). rewrite Esh, Z.geb_leb.
  destruct (Z.leb_spec (ge_shard_count e) (wh_shard_index hdr)); [lia|]. rewrite Esl.
  rewrite (bind_run _ _ s sl s) by (unfold the; by rewrite Hsl). destruct (gs_present sl) eqn:Ep.
  { rewrite (bind_run _ _ _ _ _ (upd_cache_run _ _)). destruct (inv_set_stats s _ inc_duplicate H) as [H' C']; [done|].
    eexists _, _, _. split; [done|]. split; [exact H'|]. split; [done|]. by exists sl. }
  rewrite (bind_run _ _ s (g_heap s) s) by done.
  destruct (grow_loop_inv (size (g_heap s)) s L1 a e L2 len H) as (b & s1 & K1 & K2 & E1 & H1 & C1 & S1 & S1' & B1 & _ & _).
  { by apply (rep_size s _ []), (ci_rep _ _ H). }
  rewrite (bind_run _ _ _ _ _ E1). destruct b; cbn [negb].
  2: { destruct (fail_admission_inv s1 _ H1) as (s2 & E2 & H2 & C2). eexists _, s2, _. split; [exact E2|]. split; [exact H2|].
       split; [by eapply same_config_trans|]. exists sl. split; [done|]. split; [done|]. by exists K1, K2. }
  rewrite (bind_run _ _ s1 (g_cache s1) s1) by done.
  destruct (hold_buffer is_shared malloc (g_cache s1) datagram) as [[copy ev]|] eqn:Eh.
  2: { destruct (fail_admission_inv s1 _ H1) as (s2 & E2 & H2 & C2). eexists _, s2, _. split; [exact E2|]. split; [exact H2|].
       split; [by eapply same_config_trans|]. exists sl. split; [done|]. split; [done|]. by exists K1, K2. }
  assert (Hcopy : copy <> 0 /\ kept_as is_shared malloc (gc_share (g_cache s)) datagram copy /\ (ev = BufMalloc copy \/ ev = BufRetain copy)).
  { unfold hold_buffer in Eh. unfold kept_as. rewrite (proj1 (proj2 C1)) in Eh. destruct (_ && _); [injection Eh as <- <-; auto|].
    destruct malloc as [p|] eqn:Em; [|done]. injection Eh as <- <-. split; [by apply malloc_not_null|auto]. }
  destruct Hcopy as (Hc0 & Hcm & Hev). pose proof (proj1 C1) as Ccfg.
  destruct (commit_slot_inv s1 K1 a e K2 hdr copy len now_ns ev sl H1 Hsl Ep Hc0 Hl) as (s2 & E2 & H2 & C2); [| |done|].
  { apply over_bytes_false; [done|done|by rewrite Ccfg|]. by symmetry in B1; apply negb_true_iff in B1. }
  { rewrite Ccfg. lia. }
  rewrite (bind_run _ _ _ _ _ E2). eexists _, s2, _. split; [done|]. split; [exact H2|].
  split; [by eapply same_config_trans|]. exists sl. split; [done|]. split; [done|]. exists copy, (K1 ++ K2).
  split; [done|]. split; [done|]. split; [done|]. by apply sublist_app.
Qed.
End Store.

(** ** Creating a generation *)

Lemma bad_shard_false hdr : bad_shard hdr = false -> 0 <= wh_shard_index hdr ->
  0 < wh_shard_count hdr <= GEN_CACHE_MAX_SHARD_COUNT /\ wh_shard_index hdr < wh_shard_count hdr.
Proof.
  unfold bad_shard. intros [[H1 H2]%orb_false_iff H3]%orb_false_iff H.
  apply Z.eqb_neq in H1. rewrite Z.gtb_ltb in H2. apply Z.ltb_ge in H2. rewrite Z.geb_leb in H3. apply Z.leb_gt in H3. lia.
Qed.

Lemma slots_present_new n : slots_present (replicate n slot_zero) = [].
Proof. induction n as [|n IH]; [done|]. simpl. unfold slots_present in *. by rewrite list.filter_cons_False. Qed.

Lemma new_entry_ok hdr now_ns :
  bad_shard hdr = false -> 0 <= wh_shard_index hdr -> entry_ok (new_entry hdr now_ns) /\ held (new_entry hdr now_ns) = [].
Proof.
  intros Hb Hi. destruct (bad_shard_false hdr Hb Hi) as [Hs _]. split.
  - split; cbn [new_entry ge_shard_count ge_slots ge_bytes ge_present_count ge_state].
    + done.
    + apply length_replicate.
    + by apply Forall_replicate.
    + induction (Z.to_nat (wh_shard_count hdr)); simpl; [done|]. done.
    + by rewrite slots_present_new.
    + split; [done|lia].
  - unfold held. cbn [new_entry ge_slots]. by rewrite slots_present_new.
Qed.

Lemma needs_eviction_false s L f len :
  cache_inv s L -> needs_eviction (g_cache s) f len = false ->
  (live L f < max_gens_per_flow (gc_cfg (g_cache s)))%nat /\ (length L < max_gens_global (gc_cfg (g_cache s)))%nat.
Proof.
  intros H. unfold needs_eviction. rewrite (account_count _ _ _ (ci_accounts _ _ H)), (ci_count _ _ H).
  destruct (Nat.leb_spec (max_gens_per_flow (gc_cfg (g_cache s))) (live L f)); [done|].
  destruct (Nat.leb_spec (max_gens_global (gc_cfg (g_cache s))) (length L)); [done|]. done.
Qed.

Lemma live_pos_elem L f : (0 < live L f)%nat -> (f ∈ ge_flow_id <$> L.*2).
Proof. intros H. apply list_elem_of_In. by apply (count_occ_In Z.eq_dec). Qed.

Lemma create_inv s L hdr len now_ns :
  cache_inv s L -> bad_shard hdr = false -> 0 <= wh_shard_index hdr ->
  needs_eviction (g_cache s) (wh_flow_id hdr) len = false ->
  Forall (fun x => has_key (wh_flow_id hdr) (wh_block_id hdr) x = false) L ->
  exists a s1 accts s2, entry_create false hdr now_ns s = Some (Some a, s1) /\
    account_add_generation (gc_accounts (g_cache s1)) (wh_flow_id hdr) = Some accts /\
    link_new a (wh_flow_id hdr) accts s1 = Some (tt, s2) /\ cache_inv s2 ((a, new_entry hdr now_ns) :: L) /\ same_config s s2.
Proof.
  intros H Hb Hi Hn Hk. destruct (new_entry_ok hdr now_ns Hb Hi) as [Hok Hheld].
  destruct (needs_eviction_false s L _ _ H Hn) as [Hlf Hlg].
  destruct (entry_create_spec s L hdr now_ns (ci_rep _ _ H) Hb) as (a & s1 & E1 & R1 & C1 & G1).
  destruct (account_add_spec _ _ (wh_flow_id hdr) (ci_accounts _ _ H)) as (accts & Ea & La & Aok).
  { intros _. apply (accounts_free _ _ (ge_flow_id <$> L.*2) (ci_accounts _ _ H)); [apply live_pos_elem|].
    by rewrite !length_fmap, (ci_table _ _ H). }
  exists a, s1, accts. rewrite C1. unfold link_new. rewrite (bind_run _ _ s1 (g_cache s1) s1) by done.
  rewrite (bind_run _ _ _ _ _ (upd_cache_run _ _)). set (s2 := put_cache s1 _).
  assert (R2 : rep s2 L [(a, new_entry hdr now_ns)]) by (by eapply rep_same).
  destruct (lru_push_mru_spec _ _ _ _ _ R2) as (s3 & E3 & R3 & (C3 & B3 & G3)).
  rewrite (bind_run _ _ _ _ _ E3). rewrite (bind_run _ _ _ _ _ (upd_cache_run _ _)), upd_cache_run.
  eexists. split; [done|]. split; [done|]. split; [done|].
  pose proof (f_equal gc_cfg C3) as Q1. pose proof (f_equal gc_share C3) as Q2. pose proof (f_equal gc_release C3) as Q3.
  pose proof (f_equal gc_count C3) as Q4. pose proof (f_equal gc_accounts C3) as Q5. pose proof (f_equal gc_stats C3) as Q6.
  cbn in Q1, Q2, Q3, Q4, Q5, Q6, G3. rewrite C1 in Q1, Q2, Q3, Q4, Q6. rewrite G1 in G3.
  split; [|unfold same_config; cbn; by rewrite Q1, Q2, Q3].
  split; cbn [put_cache g_cache g_log set_stats set_count gc_cfg gc_count gc_accounts gc_stats set_created st_bytes];
    rewrite ?Q1, ?Q4, ?Q5, ?Q6, ?G3.
  - by eapply rep_same.
  - cbn. apply list.NoDup_cons. split; [|apply (ci_keys _ _ H)].
    intros (e & Ek & (x & -> & Hx)%list_elem_of_fmap)%list_elem_of_fmap. rewrite list.Forall_forall in Hk. specialize (Hk x Hx).
    unfold has_key, entry_key in *. cbn in Ek. injection Ek as E1' E2'. rewrite <- E1', <- E2', !Z.eqb_refl in Hk. done.
  - cbn. by apply list.Forall_cons; split; [|apply (ci_entries _ _ H)].
  - rewrite (ci_count _ _ H). simpl. lia.
  - rewrite (ci_bytes _ _ H). done.
  - eapply accounts_ext; [|exact Aok]. intros f. rewrite live_cons. unfold bump_count. cbn [new_entry ge_flow_id].
    destruct (Z.eq_dec (wh_flow_id hdr) f) as [<-|]; lia.
  - rewrite La. apply (ci_table _ _ H).
  - simpl. lia.
  - intros f. rewrite live_cons. cbn [new_entry ge_flow_id]. pose proof (ci_flow _ _ H f).
    destruct (Z.eq_dec (wh_flow_id hdr) f) as [<-|]; lia.
  - cbn. apply (ci_limit _ _ H).
  - cbn [fmap list_fmap snd]. rewrite bind_cons, Hheld. apply (ci_log _ _ H).
Qed.

(** ** Insertion *)

Section Insert.
Context (is_shared : Z -> bool) (malloc : option Z).
Hypothesis malloc_not_null : forall p, malloc = Some p -> p <> 0.

(** What a status of [generation_cache_insert] says; [K] are the entries that have not expired. *)
Definition inserted (share : bool) (hdr : WireHeader) (datagram len now_ns : Z) (st : GenerationInsertStatus) (out : option nat)
  (L K L' : list (nat * GenerationEntry)) : Prop :=
  match st with
  | GEN_INSERT_OK => exists a e rest copy, out = Some a /\ L' = (a, e) :: rest /\ sublist rest K /\
      entry_key e = (wh_flow_id hdr, wh_block_id hdr) /\ ge_last_update_ns e = now_ns /\
      kept_as is_shared malloc share datagram copy /\
      ge_slots e !! Z.to_nat (wh_shard_index hdr) = Some (mkSlot copy len true) /\
      exists e0, e = filled hdr copy len now_ns e0 /\ (((a, e0) ∈ K) \/ e0 = new_entry hdr now_ns)
  | GEN_INSERT_DUPLICATE => L' = K /\ exists a e sl, out = Some a /\ ((a, e) ∈ K) /\
      entry_key e = (wh_flow_id hdr, wh_block_id hdr) /\
      ge_slots e !! Z.to_nat (wh_shard_index hdr) = Some sl /\ gs_present sl = true
  | GEN_INSERT_MISMATCH => L' = L \/ L' = K
  | GEN_INSERT_ADMISSION_FAILED => sublist L' K /\ out = None
  | GEN_INSERT_INVALID => L' = L /\ out = None
  end.

Lemma has_key_eq f b x : has_key f b x = true -> entry_key (snd x) = (f, b).
Proof. unfold has_key, entry_key. intros [->%Z.eqb_eq ->%Z.eqb_eq]%andb_true_iff. done. Qed.

Lemma filled_lookup hdr copy len now_ns e sl :
  ge_slots e !! Z.to_nat (wh_shard_index hdr) = Some sl ->
  ge_slots (filled hdr copy len now_ns e) !! Z.to_nat (wh_shard_index hdr) = Some (mkSlot copy len true).
Proof.
  intros H. destruct (filled_fields hdr copy len now_ns e) as (_ & -> & _). apply list_lookup_insert_eq. by eapply lookup_lt_Some.
Qed.

(** A datagram for a generation that is in the cache. *)
Lemma insert_found_inv s L1 a e L2 hdr datagram len now_ns L :
  cache_inv s (L1 ++ (a, e) :: L2) -> entry_key e = (wh_flow_id hdr, wh_block_id hdr) ->
  0 <= wh_shard_index hdr -> wh_shard_index hdr < wh_shard_count hdr -> datagram <> 0 -> 0 <= len ->
  max_cache_bytes (gc_cfg (g_cache s)) + len < 2 ^ 64 ->
  exists st out s' L', (e0 ← get_entry a;
        if negb (meta_matches e0 hdr) then
          upd_cache (set_stats inc_mismatch);; mret (GEN_INSERT_MISMATCH, Some a)
        else
          st ← store_slot is_shared malloc a hdr datagram len now_ns;
          mret (st, if bool_decide (st = GEN_INSERT_OK \/ st = GEN_INSERT_DUPLICATE) then Some a else None)) s
      = Some ((st, out), s') /\
    cache_inv s' L' /\ same_config s s' /\ inserted (gc_share (g_cache s)) hdr datagram len now_ns st out L (L1 ++ (a, e) :: L2) L'.
Proof.
  intros H Hk Hi Hlt Hd Hl Hmax. destruct (rep_lookup _ _ _ a e (ci_rep _ _ H)) as (e0 & He0 & Hs0).
  { apply elem_of_app. left. apply elem_of_app. right. by apply list_elem_of_here. }
  rewrite (bind_run _ _ _ _ _ (get_entry_run _ _ _ He0)).
  replace (meta_matches e0 hdr) with (meta_matches e hdr) by (by rewrite <- Hs0).
  destruct (meta_matches e hdr) eqn:Em; cbn [negb].
  2: { rewrite (bind_run _ _ _ _ _ (upd_cache_run _ _)). destruct (inv_set_stats s _ inc_mismatch H) as [H' C']; [done|].
       eexists _, _, _, _. split; [done|]. split; [exact H'|]. split; [done|]. by right. }
  assert (Hsc : ge_shard_count e = wh_shard_count hdr).
  { unfold meta_matches in Em. apply andb_true_iff in Em as [Em _]. apply andb_true_iff in Em as [Em _].
    apply andb_true_iff in Em as [_ Em]. by apply Z.eqb_eq. }
  destruct (store_slot_inv is_shared malloc malloc_not_null s L1 a e L2 hdr datagram len now_ns H) as (st & s' & L' & E & H' & C & (sl & Hsl & Hst));
    [rewrite Hsc; lia|done|done|done|].
  rewrite (bind_run _ _ _ _ _ E). eexists st, _, s', L'. split; [done|]. split; [done|]. split; [done|].
  destruct st; try done; cbn [inserted].
  - rewrite bool_decide_true by auto. destruct Hst as (Hp & copy & rest & Hc & Hc0 & -> & Hsub).
    destruct (filled_fields hdr copy len now_ns e) as (Ek & _ & _ & El).
    eexists a, _, rest, copy. split; [done|]. split; [done|].
    split; [etrans; [exact Hsub|]; apply sublist_app; [done|]; by apply sublist_cons|].
    split; [by rewrite Ek|]. split; [done|]. split; [done|]. split; [by eapply filled_lookup|]. exists e. split; [done|].
    left. apply elem_of_app. right. by apply list_elem_of_here.
  - rewrite bool_decide_true by auto. destruct Hst as (Hp & ->). split; [done|]. exists a, e, sl. split; [done|].
    split; [apply elem_of_app; right; by apply list_elem_of_here|]. done.
  - rewrite bool_decide_false by (by intros [?|?]). destruct Hst as (Hp & K1 & K2 & -> & Hsub1 & Hsub2). split; [|done].
    apply sublist_app; [done|]. by apply sublist_skip.
Qed.

(** A datagram of a new generation, once there is room. *)
Lemma insert_created_inv s L hdr datagram len now_ns oom Lall K :
  cache_inv s L -> bad_shard hdr = false -> 0 <= wh_shard_index hdr ->
  needs_eviction (g_cache s) (wh_flow_id hdr) len = false ->
  Forall (fun x => has_key (wh_flow_id hdr) (wh_block_id hdr) x = false) L -> datagram <> 0 -> 0 <= len ->
  max_cache_bytes (gc_cfg (g_cache s)) + len < 2 ^ 64 -> sublist L K ->
  exists st out s' L', (created ← entry_create oom hdr now_ns;
          match created with
          | None => st ← fail_admission; mret (st, None)
          | Some entry =>
              let ti := telemetry_stat_index (wh_flow_id hdr) in
              c ← the_cache;
              match account_add_generation (gc_accounts c) (wh_flow_id hdr) with
              | None => entry_free entry;; st ← fail_admission; mret (st, None)
              | Some accts =>
                  link_new entry (wh_flow_id hdr) accts;;
                  st ← store_slot is_shared malloc entry hdr datagram len now_ns;
                  if bool_decide (st = GEN_INSERT_OK) then mret (GEN_INSERT_OK, Some entry)
                  else
                    upd_cache (set_stats (fun t =>
                      set_created (if st_created t >? 0 then st_created t - 1 else st_created t)
                        (alter (fun n => if n >? 0 then n - 1 else n) ti (st_per_flow t)) t));;
                    cache_remove_entry entry CACHE_REMOVE_SILENT;;
                    mret (st, None)
              end
          end) s = Some ((st, out), s') /\
    cache_inv s' L' /\ same_config s s' /\ inserted (gc_share (g_cache s)) hdr datagram len now_ns st out Lall K L'.
Proof.
  intros H Hb Hi Hn Hk Hd Hl Hmax Hsub. destruct (bad_shard_false hdr Hb Hi) as [Hsc Hlt]. destruct oom.
  { rewrite (bind_run _ _ s None s) by (unfold entry_create; by rewrite orb_true_r).
    destruct (fail_admission_inv s L H) as (s1 & E1 & H1 & C1). rewrite (bind_run _ _ _ _ _ E1).
    eexists _, _, s1, L. split; [done|]. split; [done|]. split; [done|]. done. }
  destruct (create_inv s L hdr len now_ns H Hb Hi Hn Hk) as (a & s1 & accts & s2 & E1 & Ea & E2 & H2 & C2).
  rewrite (bind_run _ _ _ _ _ E1). rewrite (bind_run _ _ s1 (g_cache s1) s1) by done. rewrite Ea.
  rewrite (bind_run _ _ _ _ _ E2).
  destruct (store_slot_inv is_shared malloc malloc_not_null s2 [] a (new_entry hdr now_ns) L hdr datagram len now_ns)
    as (st & s3 & L3 & E3 & H3 & C3 & (sl & Hsl & Hst)); [done|cbn; lia|done|done|by rewrite (proj1 C2)|].
  rewrite (bind_run _ _ _ _ _ E3). pose proof (same_config_trans _ _ _ C2 C3) as C23. rewrite (proj1 (proj2 C2)) in Hst.
  assert (Hsl0 : sl = slot_zero).
  { cbn [new_entry ge_slots] in Hsl. by apply lookup_replicate in Hsl as [-> _]. }
  destruct st; try done.
  - rewrite bool_decide_true by done. destruct Hst as (_ & copy & rest & Hc & _ & -> & Hrest).
    destruct (filled_fields hdr copy len now_ns (new_entry hdr now_ns)) as (Ek & _ & _ & El).
    eexists _, _, s3, _. split; [done|]. split; [exact H3|]. split; [done|]. cbn [inserted].
    eexists a, _, rest, copy. split; [done|]. split; [done|]. split; [by etrans|]. split; [by rewrite Ek|].
    split; [done|]. split; [done|]. split; [by eapply filled_lookup|]. eexists. split; [done|]. by right.
  - destruct Hst as [Hp _]. by rewrite Hsl0 in Hp.
  - rewrite bool_decide_false by done. rewrite (bind_run _ _ _ _ _ (upd_cache_run _ _)).
    destruct Hst as (_ & K1 & K2 & -> & Hs1 & Hs2).
    destruct (inv_set_stats s3 _ (fun t => set_created (if st_created t >? 0 then st_created t - 1 else st_created t)
      (alter (fun n => if n >? 0 then n - 1 else n) (telemetry_stat_index (wh_flow_id hdr)) (st_per_flow t)) t) H3) as [H4 C4]; [done|].
    destruct (cache_remove_inv _ _ _ _ _ CACHE_REMOVE_SILENT H4) as (s5 & E5 & H5 & C5).
    rewrite (bind_run _ _ _ _ _ E5). eexists _, _, s5, _. split; [done|]. split; [exact H5|].
    split; [eapply same_config_trans; [exact C23|]; by eapply same_config_trans|]. split; [|done].
    apply sublist_nil_r in Hs1 as ->. by etrans.
Qed.

(** Every insertion succeeds as a computation, keeps the invariant and does what its status says. *)
Lemma insert_inv s L hdr datagram len now_ns oom :
  cache_inv s L -> 0 <= wh_shard_index hdr -> 0 <= len -> max_cache_bytes (gc_cfg (g_cache s)) + len < 2 ^ 64 ->
  exists st out s' L', generation_cache_insert is_shared malloc oom hdr datagram len now_ns s = Some ((st, out), s') /\
    cache_inv s' L' /\ same_config s s' /\
    inserted (gc_share (g_cache s)) hdr datagram len now_ns st out L (kept (g_cache s) now_ns (-1) L) L'.
Proof.
  intros H Hi Hl Hmax. unfold generation_cache_insert.
  destruct (Z.eqb_spec datagram 0); [by eexists _, _, s, L|]. cbn [orb].
  destruct (_ || _); [by eexists _, _, s, L|]. destruct (bad_shard hdr) eqn:Hb.
  { rewrite (bind_run _ _ _ _ _ (upd_cache_run _ _)). destruct (inv_set_stats s L inc_mismatch H) as [H' C']; [done|].
    eexists _, _, _, L. split; [done|]. split; [exact H'|]. split; [done|]. by left. }
  destruct (bad_shard_false hdr Hb Hi) as [_ Hlt].
  destruct (expire_inv s L now_ns (-1) H) as (nx & s1 & E1 & H1 & C1). rewrite (bind_run _ _ _ _ _ E1).
  set (K := kept (g_cache s) now_ns (-1) L) in *.
  rewrite (bind_run _ _ _ _ _ (find_entry_spec s1 K [] _ _ (ci_rep _ _ H1))).
  destruct (first_with _ K) as [a|] eqn:Ef.
  - apply first_with_Some in Ef as (L1 & e & L2 & EK & Hk). apply has_key_eq in Hk. simpl in Hk. rewrite EK in H1 |- *.
    destruct (insert_found_inv s1 L1 a e L2 hdr datagram len now_ns L H1 Hk Hi Hlt) as (st & out & s2 & L' & E2 & H2 & C2 & Hins);
      [done|done|by rewrite (proj1 C1)|]. exists st, out, s2, L'. split; [exact E2|]. split; [done|].
    split; [by eapply same_config_trans|]. by rewrite (proj1 (proj2 C1)) in Hins.
  - apply first_with_None in Ef.
    destruct (make_room_inv s1 K (wh_flow_id hdr) len now_ns H1) as (b & s2 & L2 & E2 & H2 & C2 & S2 & B2 & _).
    rewrite (bind_run _ _ _ _ _ E2). pose proof (same_config_trans _ _ _ C1 C2) as C12. destruct b; cbn [negb].
    + destruct (insert_created_inv s2 L2 hdr datagram len now_ns oom L K H2 Hb Hi) as (st & out & s3 & L' & E3 & H3 & C3 & Hins);
        [by symmetry in B2; apply negb_true_iff in B2| |done|done|by rewrite (proj1 C12)|done|].
      { rewrite list.Forall_forall in *. intros x Hx. apply Ef. by eapply elem_of_sublist. }
      exists st, out, s3, L'. split; [exact E3|]. split; [done|]. split; [by eapply same_config_trans|].
      by rewrite (proj1 (proj2 C12)) in Hins.
    + destruct (fail_admission_inv s2 L2 H2) as (s3 & E3 & H3 & C3). rewrite (bind_run _ _ _ _ _ E3).
      eexists _, _, s3, L2. split; [done|]. split; [done|]. split; [by eapply same_config_trans|]. done.
Qed.
End Insert.

(** ** Destruction *)

Lemma destroy_loop_run L s p fuel :
  NoDup L.*1 -> strip <$> g_heap s = list_to_map L -> dll (g_heap s) p L.*1 None -> (length L <= fuel)%nat ->
  exists s', destroy_loop fuel (hd_or L.*1 None) s = Some (tt, s') /\ g_heap s' = ∅ /\ g_cache s' = g_cache s /\
    g_log s' = g_log s ++ (L.*2 ≫= entry_bufs (g_cache s)).
Proof.
  revert s p fuel. induction L as [|[a e] L IH]; intros s p fuel Hnd Hh Hd Hf.
  { exists s. split; [by destruct fuel|]. cbn in *. rewrite app_nil_r. split; [|done]. by apply fmap_empty_inv in Hh. }
  destruct fuel as [|fuel]; simpl in Hf; [lia|]. cbn in Hnd. apply list.NoDup_cons in Hnd as [Ha Hnd].
  destruct Hd as [(e0 & He0 & _ & Hn) Hd]. cbn [fst] in He0. cbn [fmap list_fmap fst hd_or destroy_loop].
  rewrite (bind_run _ _ _ _ _ (get_entry_run _ _ _ He0)).
  assert (Hs0 : strip e0 = e).
  { apply (f_equal (fun m : gmap nat GenerationEntry => m !! a)) in Hh. rewrite lookup_fmap, He0 in Hh. cbn in Hh.
    rewrite lookup_insert_eq in Hh. by injection Hh. }
  assert (Efree : entry_free a s = Some (tt, mkGst (g_cache s) (delete a (g_heap s)) (g_brk s) (g_log s ++ entry_bufs (g_cache s) e))).
  { unfold entry_free. rewrite (bind_run _ _ s (g_cache s) s) by done. rewrite (bind_run _ _ _ _ _ (get_entry_run _ _ _ He0)).
    by rewrite <- Hs0. }
  rewrite (bind_run _ _ _ _ _ Efree), Hn. set (s1 := mkGst _ _ _ _).
  destruct (IH s1 (Some a) fuel Hnd) as (s' & E & Hemp & Hc & Hlog); [| |lia|].
  - cbn [s1 g_heap]. rewrite fmap_delete, Hh. cbn. apply delete_insert_id. by apply not_elem_of_list_to_map_1.
  - eapply dll_frame; [|exact Hd]. intros b Hb. apply lookup_delete_ne. by intros ->.
  - exists s'. split; [done|]. split; [done|]. split; [done|]. rewrite Hlog. cbn [s1 g_log g_cache fmap list_fmap snd].
    by rewrite bind_cons, app_assoc.
Qed.

Lemma bufs_log c (L : list (nat * GenerationEntry)) :
  Forall entry_ok L.*2 -> acquired (L.*2 ≫= entry_bufs c) = [] /\ released (L.*2 ≫= entry_bufs c) = L.*2 ≫= held.
Proof.
  induction L as [|[a e] L IH]; [done|]. intros [He HL]%list.Forall_cons. destruct (IH HL) as [IH1 IH2].
  cbn [fmap list_fmap snd]. rewrite !bind_cons, acquired_app, released_app, IH1, IH2.
  by destruct (entry_bufs_log c e He) as [-> ->].
Qed.

Lemma destroy_log s L :
  cache_inv s L -> exists s', generation_cache_destroy s = Some (tt, s') /\ g_heap s' = ∅ /\ g_cache s' = gc_zero /\
    g_log s' = g_log s ++ (L.*2 ≫= entry_bufs (g_cache s)).
Proof.
  intros H. pose proof (ci_rep _ _ H) as R. unfold generation_cache_destroy. rewrite (bind_run _ _ s (g_cache s) s) by done.
  rewrite (bind_run _ _ s (g_heap s) s) by done. rewrite (rp_head _ _ _ R).
  destruct (destroy_loop_run L s None (size (g_heap s))) as (s' & E & Hemp & Hc & Hlog).
  - by apply rep_perm_keys with s.
  - rewrite (rp_heap _ _ _ R). by rewrite app_nil_r.
  - apply (rp_dll _ _ _ R).
  - by apply (rep_size s L []).
  - rewrite (bind_run _ _ _ _ _ E). by eexists.
Qed.

Lemma destroy_run s L :
  cache_inv s L -> exists s', generation_cache_destroy s = Some (tt, s') /\ g_heap s' = ∅ /\
    acquired (g_log s') ≡ₚ released (g_log s').
Proof.
  intros H. destruct (destroy_log s L H) as (s' & E & Hh & _ & Hlog). exists s'. split; [done|]. split; [done|].
  destruct (bufs_log (g_cache s) L (ci_entries _ _ H)) as [Ha Hr].
  rewrite Hlog, acquired_app, released_app, Ha, Hr, app_nil_r. apply (ci_log _ _ H).
Qed.

(** ** Runs *)

Inductive gc_op :=
  | GInsert (is_shared : Z -> bool) (malloc : option Z) (oom : bool) (hdr : WireHeader) (datagram len now_ns : Z)
  | GExpire (now_ns flt : Z).

Definition gc_step (o : gc_op) : G (option (GenerationInsertStatus * option nat)) :=
  match o with
  | GInsert is_shared malloc oom hdr datagram len now_ns =>
      r ← generation_cache_insert is_shared malloc oom hdr datagram len now_ns; mret (Some r)
  | GExpire now_ns flt => generation_cache_expire now_ns flt;; mret None
  end.

(** Fields of a header are unsigned, [malloc] does not return NULL for success, and the byte
    limit plus a datagram stays below [2^64]. *)
Definition gc_legal (cfg : GenerationCacheConfig) (o : gc_op) : Prop :=
  match o with
  | GInsert _ malloc _ hdr _ len _ =>
      0 <= wh_shard_index hdr /\ 0 <= len /\ max_cache_bytes cfg + len < 2 ^ 64 /\ malloc <> Some 0
  | GExpire _ _ => True
  end.

Fixpoint gc_run (ops : list gc_op) : G (list (option (GenerationInsertStatus * option nat))) :=
  match ops with
  | [] => mret []
  | o :: ops' => r ← gc_step o; rs ← gc_run ops'; mret (r :: rs)
  end.

(** A fresh cache, with or without the relay's buffer hooks. *)
Definition gc_boot (cfg : option GenerationCacheConfig) (hooks : bool) : gst :=
  let c := snd (generation_cache_init false cfg) in
  mkGst (mkCache (gc_cfg c) (gc_head c) (gc_tail c) (gc_count c) (gc_accounts c) (gc_stats c) hooks hooks) ∅ 1 [].

Lemma boot_inv cfg hooks :
  0 <= max_cache_bytes (gc_cfg (g_cache (gc_boot cfg hooks))) -> cache_inv (gc_boot cfg hooks) [].
Proof.
  intros Hm. split; cbn in *; try done.
  - split; try done. by apply NoDup_nil_2.
  - by apply NoDup_nil_2.
  - split.
    + intros i a [Hi Ha]. apply lookup_replicate in Hi as [-> _]. done.
    + intros f Hf. unfold live in Hf. simpl in Hf. lia.
    + intros i j a b [Hi Ha]. apply lookup_replicate in Hi as [-> _]. done.
  - apply length_replicate.
  - lia.
  - intros f. unfold live. simpl. lia.
Qed.

Lemma gc_step_inv s L o :
  cache_inv s L -> gc_legal (gc_cfg (g_cache s)) o ->
  exists r s' L', gc_step o s = Some (r, s') /\ cache_inv s' L' /\ same_config s s'.
Proof.
  intros H Hl. destruct o as [sh ml oom hdr d len now|now flt]; cbn [gc_step].
  - destruct Hl as (H1 & H2 & H3 & H4).
    destruct (insert_inv sh ml ltac:(intros p Ep ->; done) s L hdr d len now oom H H1 H2 H3) as (st & out & s' & L' & E & H' & C & _).
    rewrite (bind_run _ _ _ _ _ E). by eexists _, s', L'.
  - unfold generation_cache_expire. destruct (expire_inv s L now flt H) as (n & s' & E & H' & C).
    rewrite (bind_run _ _ _ _ _ E). by eexists _, s', _.
Qed.

Lemma gc_run_inv ops s L :
  cache_inv s L -> Forall (gc_legal (gc_cfg (g_cache s))) ops ->
  exists rs s' L', gc_run ops s = Some (rs, s') /\ cache_inv s' L' /\ same_config s s'.
Proof.
  intros H Hl. revert s L H Hl. induction ops as [|o ops IH]; intros s L H Hl; [by exists [], s, L|].
  apply list.Forall_cons in Hl as [Ho Hl]. destruct (gc_step_inv s L o H Ho) as (r & s1 & L1 & E1 & H1 & C1).
  destruct (IH s1 L1 H1) as (rs & s2 & L2 & E2 & H2 & C2); [by rewrite (proj1 C1)|].
  cbn [gc_run]. rewrite (bind_run _ _ _ _ _ E1), (bind_run _ _ _ _ _ E2). eexists _, s2, L2. split; [done|]. split; [done|].
  by eapply same_config_trans.
Qed.

(** ** Properties *)

(** C33: the cache stays consistent.  From [generation_cache_init], with any configuration and
    with or without the buffer hooks, any sequence of insertions and expiry passes, with failing
    allocations, runs without touching a freed entry and ends in a state where the linked list is
    intact in both directions and holds every entry on the heap once; keys are distinct; the
    entry count, the byte count and the flow accounts agree with the list; every entry's byte
    and shard counts agree with its slots and it is ready exactly when all shards are there; and
    the three limits hold. *)
Theorem generation_cache_consistent cfg hooks ops :
  0 <= max_cache_bytes (gc_cfg (g_cache (gc_boot cfg hooks))) ->
  Forall (gc_legal (gc_cfg (g_cache (gc_boot cfg hooks)))) ops ->
  exists rs s L, gc_run ops (gc_boot cfg hooks) = Some (rs, s) /\ cache_inv s L.
Proof.
  intros Hm Hl. destruct (gc_run_inv ops _ [] (boot_inv cfg hooks Hm) Hl) as (rs & s & L & E & H & _). by exists rs, s, L.
Qed.

(** No buffer is leaked or released twice.  Over any such run followed by
    [generation_cache_destroy], the buffers the cache retained or allocated are, as a multiset,
    the buffers it released or freed, and no entry is left on the heap. *)
Theorem generation_cache_buffers_balanced cfg hooks ops :
  0 <= max_cache_bytes (gc_cfg (g_cache (gc_boot cfg hooks))) ->
  Forall (gc_legal (gc_cfg (g_cache (gc_boot cfg hooks)))) ops ->
  exists rs s, (rs ← gc_run ops; generation_cache_destroy;; mret rs) (gc_boot cfg hooks) = Some (rs, s) /\
    g_heap s = ∅ /\ acquired (g_log s) ≡ₚ released (g_log s).
Proof.
  intros Hm Hl. destruct (gc_run_inv ops _ [] (boot_inv cfg hooks Hm) Hl) as (rs & s & L & E & H & _).
  destruct (destroy_run s L H) as (s' & Ed & Hh & Hlog). exists rs, s'.
  rewrite (bind_run _ _ _ _ _ E), (bind_run _ _ _ _ _ Ed). done.
Qed.

(** what [generation_cache_insert] does in a consistent cache.  It returns, and its status
    says what happened: on [OK] the datagram is in its slot of the generation, which is the most
    recently used entry, is found under its key and has the new time stamp, while other entries
    at most disappeared; on [DUPLICATE] only expired entries disappeared; on
    [ADMISSION_FAILED] entries at most disappeared; on [INVALID] nothing happened. *)
Theorem generation_cache_insert_contract is_shared malloc oom s L hdr datagram len now_ns :
  cache_inv s L -> malloc <> Some 0 -> 0 <= wh_shard_index hdr -> 0 <= len ->
  max_cache_bytes (gc_cfg (g_cache s)) + len < 2 ^ 64 ->
  exists st out s' L', generation_cache_insert is_shared malloc oom hdr datagram len now_ns s = Some ((st, out), s') /\
    cache_inv s' L' /\ inserted is_shared malloc (gc_share (g_cache s)) hdr datagram len now_ns st out L (kept (g_cache s) now_ns (-1) L) L' /\
    (st = GEN_INSERT_OK ->
       generation_cache_find (wh_flow_id hdr) (wh_block_id hdr) s' = Some (out, s') /\
       exists a e, out = Some a /\ head L' = Some (a, e) /\ generation_cache_slot_present e (wh_shard_index hdr) = true).
Proof.
  intros H Hml Hi Hl Hm.
  destruct (insert_inv is_shared malloc ltac:(intros p Ep ->; done) s L hdr datagram len now_ns oom H Hi Hl Hm)
    as (st & out & s' & L' & E & H' & _ & Hins).
  exists st, out, s', L'. split; [done|]. split; [done|]. split; [done|]. intros ->.
  destruct Hins as (a & e & rest & copy & -> & -> & _ & Hk & _ & _ & Hsl & _).
  unfold generation_cache_find. rewrite (find_entry_spec s' _ [] _ _ (ci_rep _ _ H')). cbn [first_with fst].
  assert (Hkey : has_key (wh_flow_id hdr) (wh_block_id hdr) (a, e) = true).
  { unfold has_key, entry_key in *. injection Hk as E1 E2. simpl. by rewrite E1, E2, !Z.eqb_refl. }
  rewrite Hkey. split; [done|]. exists a, e. split; [done|]. split; [done|].
  pose proof (ci_entries _ _ H') as Hent. apply list.Forall_cons in Hent as [He _]. simpl in He.
  unfold generation_cache_slot_present. rewrite Hsl, Z.geb_leb. pose proof (lookup_lt_Some _ _ _ Hsl) as Hlt.
  rewrite (eo_length _ He) in Hlt. destruct (Z.leb_spec (ge_shard_count e) (wh_shard_index hdr)); [lia|done].
Qed.

(** A datagram larger than the byte limit empties the cache.  A well-formed data shard of
    a generation that is not cached, longer than [max_cache_bytes], is refused with
    [ADMISSION_FAILED] after every other generation has been evicted. *)
Theorem generation_cache_oversize_empties is_shared malloc oom s L hdr datagram len now_ns :
  cache_inv s L -> Forall (fun x => has_key (wh_flow_id hdr) (wh_block_id hdr) x = false) L ->
  datagram <> 0 -> Z.of_nat WIRE_HEADER_SIZE <= len -> wh_type hdr = WIRE_TYPE_DATA -> bad_shard hdr = false ->
  max_cache_bytes (gc_cfg (g_cache s)) < len -> max_cache_bytes (gc_cfg (g_cache s)) + len < 2 ^ 64 ->
  exists s', generation_cache_insert is_shared malloc oom hdr datagram len now_ns s =
      Some ((GEN_INSERT_ADMISSION_FAILED, None), s') /\
    cache_inv s' [] /\ gc_count (g_cache s') = 0%nat.
Proof.
  intros H Hk Hd Hl Ht Hb Hbig Hm. unfold generation_cache_insert. rewrite Hb, Ht, Z.eqb_refl.
  destruct (Z.eqb_spec datagram 0); [done|]. destruct (Z.ltb_spec len (Z.of_nat WIRE_HEADER_SIZE)); [lia|]. cbn [orb negb].
  destruct (expire_inv s L now_ns (-1) H) as (nx & s1 & E1 & H1 & C1). rewrite (bind_run _ _ _ _ _ E1).
  set (K := kept (g_cache s) now_ns (-1) L) in *.
  rewrite (bind_run _ _ _ _ _ (find_entry_spec s1 K [] _ _ (ci_rep _ _ H1))).
  destruct (first_with _ K) as [a|] eqn:Ef.
  { exfalso. apply first_with_Some in Ef as (L1 & e & L2 & EK & Ha). rewrite list.Forall_forall in Hk.
    rewrite (Hk (a, e)) in Ha; [done|]. eapply elem_of_sublist; [|apply (kept_sublist (g_cache s) now_ns (-1))].
    fold K. rewrite EK. apply elem_of_app. right. by apply list_elem_of_here. }
  destruct (make_room_inv s1 K (wh_flow_id hdr) len now_ns H1) as (b & s2 & L2 & E2 & H2 & C2 & S2 & B2 & Z2).
  rewrite (bind_run _ _ _ _ _ E2).
  assert (Hcfg : gc_cfg (g_cache s2) = gc_cfg (g_cache s)) by (by rewrite (proj1 C2), (proj1 C1)).
  assert (Hover : over_bytes (g_cache s2) len = true).
  { unfold over_bytes. rewrite (ci_bytes _ _ H2), Hcfg. pose proof (list_bytes_nonneg _ (ci_entries _ _ H2)).
    pose proof (ci_limit _ _ H2). rewrite Hcfg in *. unfold WIRE_HEADER_SIZE in *.
    rewrite u64_small by (unfold in_range; lia). rewrite Z.gtb_ltb. apply Z.ltb_lt. lia. }
  assert (b = false) as ->.
  { rewrite B2. unfold needs_eviction. rewrite Hover. by repeat case_match. }
  rewrite (Z2 eq_refl) in H2. cbn [negb]. destruct (fail_admission_inv s2 [] H2) as (s3 & E3 & H3 & C3).
  rewrite (bind_run _ _ _ _ _ E3). exists s3. split; [done|]. split; [done|]. apply (ci_count _ _ H3).
Qed.

(** ** Witnesses *)

(** Three generations at most, two per flow, 300 bytes. *)
Definition sample_gc_cfg : GenerationCacheConfig := mkGcConfig 10 3 2 300.

Definition sample_hdr (flow block index count : Z) : WireHeader :=
  mkWireHeader 3 1 5 9 flow block index count 100 100 0 0 0 0 0.

Definition sample_insert (flow block index count buf len now_ns : Z) : gc_op :=
  GInsert (fun p => p =? 12) (Some buf) false (sample_hdr flow block index count) buf len now_ns.

(** Eviction within a flow, growth to readiness, a duplicate, a failing allocation, expiry. *)
Definition sample_gc_ops : list gc_op :=
  [sample_insert 1 1 0 2 11 100 0; sample_insert 1 2 0 2 12 100 1; sample_insert 1 3 0 2 13 100 2;
   sample_insert 1 2 1 2 14 50 3; sample_insert 1 2 1 2 14 50 3; sample_insert 9 1 0 1 15 280 4;
   GInsert (fun _ => false) None false (sample_hdr 2 1 0 1) 16 60 5; GExpire 20000000 (-1)].

Lemma sample_gc_legal : Forall (gc_legal sample_gc_cfg) sample_gc_ops.
Proof. unfold sample_gc_ops. by repeat (apply list.Forall_cons; split; [try (cbn; repeat split; done || lia)|]). Qed.

Lemma generation_cache_consistent_witness :
  exists rs s L, gc_run sample_gc_ops (gc_boot (Some sample_gc_cfg) true) = Some (rs, s) /\ cache_inv s L.
Proof. apply (generation_cache_consistent (Some sample_gc_cfg) true sample_gc_ops); [done|exact sample_gc_legal]. Defined.

Example sample_gc_results :
  fst <$> gc_run sample_gc_ops (gc_boot (Some sample_gc_cfg) true) =
  Some [Some (GEN_INSERT_OK, Some 1%nat); Some (GEN_INSERT_OK, Some 2%nat); Some (GEN_INSERT_OK, Some 3%nat);
        Some (GEN_INSERT_OK, Some 2%nat); Some (GEN_INSERT_DUPLICATE, Some 2%nat); Some (GEN_INSERT_OK, Some 4%nat);
        Some (GEN_INSERT_ADMISSION_FAILED, None); None].
Proof. vm_compute. reflexivity. Qed.

Lemma generation_cache_buffers_balanced_witness :
  exists rs s, (rs ← gc_run sample_gc_ops; generation_cache_destroy;; mret rs) (gc_boot (Some sample_gc_cfg) true) = Some (rs, s) /\
    g_heap s = ∅ /\ acquired (g_log s) ≡ₚ released (g_log s).
Proof. apply (generation_cache_buffers_balanced (Some sample_gc_cfg) true sample_gc_ops); [done|exact sample_gc_legal]. Defined.

Lemma generation_cache_insert_contract_witness :
  exists st out s' L', generation_cache_insert (fun _ => false) (Some 7) false (sample_hdr 1 1 0 2) 11 100 0
      (gc_boot (Some sample_gc_cfg) true) = Some ((st, out), s') /\
    cache_inv s' L' /\ inserted (fun _ => false) (Some 7) true (sample_hdr 1 1 0 2) 11 100 0 st out [] [] L' /\
    (st = GEN_INSERT_OK ->
       generation_cache_find 1 1 s' = Some (out, s') /\
       exists a e, out = Some a /\ head L' = Some (a, e) /\ generation_cache_slot_present e 0 = true).
Proof.
  apply (generation_cache_insert_contract (fun _ => false) (Some 7) false (gc_boot (Some sample_gc_cfg) true) []
           (sample_hdr 1 1 0 2) 11 100 0).
  - apply boot_inv. done.
  - done.
  - done.
  - done.
  - done.
Defined.

(** The cache of the witness above, as a state. *)
Definition sample_one : gst :=
  match generation_cache_insert (fun _ => false) (Some 7) false (sample_hdr 1 1 0 2) 11 100 0 (gc_boot (Some sample_gc_cfg) true) with
  | Some (_, s) => s
  | None => gc_boot None true
  end.

Lemma sample_one_inv : exists a e, cache_inv sample_one [(a, e)] /\ entry_key e = (1, 1).
Proof.
  destruct (insert_inv (fun _ => false) (Some 7) ltac:(intros p [= <-]; done) (gc_boot (Some sample_gc_cfg) true) []
    (sample_hdr 1 1 0 2) 11 100 0 false) as (st & out & s' & L' & E & H & _ & Hins); [by apply boot_inv|done|done|done|].
  unfold sample_one. rewrite E.
  assert (st = GEN_INSERT_OK) as ->.
  { apply (f_equal (fmap (fun x => fst (fst x)))) in E. vm_compute in E. by injection E. }
  destruct Hins as (a & e & rest & copy & _ & -> & Hsub & Hk & _). apply sublist_nil_r in Hsub as ->. by exists a, e.
Qed.

Lemma generation_cache_oversize_empties_witness :
  gc_count (g_cache sample_one) = 1%nat /\
  exists s', generation_cache_insert (fun _ => false) (Some 8) false (sample_hdr 1 2 0 2) 12 400 1 sample_one =
      Some ((GEN_INSERT_ADMISSION_FAILED, None), s') /\
    cache_inv s' [] /\ gc_count (g_cache s') = 0%nat.
Proof.
  split; [reflexivity|]. destruct sample_one_inv as (a & e & H & Hk).
  apply (generation_cache_oversize_empties (fun _ => false) (Some 8) false sample_one [(a, e)] (sample_hdr 1 2 0 2) 12 400 1).
  - exact H.
  - apply list.Forall_cons. split; [|by apply list.Forall_nil]. unfold has_key, entry_key in *. injection Hk as E1 E2.
    simpl. by rewrite E1, E2.
  - done.
  - done.
  - done.
  - done.
  - done.
  - done.
Defined.

(** * What the generation cache asks of its buffers, in order

    Removing entries only lets go of buffers; an insertion lets go of some and then, exactly when
    its status is [GEN_INSERT_OK], takes hold of one. *)

(** Letting go, by the hook or by [free]. *)
Definition is_letting_go (hook : bool) (ev : buf_event) : Prop :=
  exists p, ev = if hook then BufRelease p else BufFree p.

(** Whether the release hook and the sharing hooks are set. *)
Definition hooks (c : GenerationCache) : bool * bool := (gc_release c, gc_share c).

(** [m] keeps the hooks and appends to the log what [Q] says of its result. *)
Definition logs {A} (m : G A) (Q : bool * bool -> A -> list buf_event -> Prop) : Prop :=
  forall s a s', m s = Some (a, s') ->
    hooks (g_cache s') = hooks (g_cache s) /\ exists ev, g_log s' = g_log s ++ ev /\ Q (hooks (g_cache s)) a ev.

Definition quiet {A} (hook : bool * bool) (a : A) (ev : list buf_event) : Prop := ev = [].
Definition lets_go {A} (hook : bool * bool) (a : A) (ev : list buf_event) : Prop := Forall (is_letting_go (fst hook)) ev.

Lemma logs_weaken {A} (m : G A) (Q Q' : bool * bool -> A -> list buf_event -> Prop) :
  (forall r a ev, Q r a ev -> Q' r a ev) -> logs m Q -> logs m Q'.
Proof. intros HQ H s a s' E. destruct (H s a s' E) as (? & ev & ? & ?). eauto 10. Qed.

Lemma logs_bind {A B} (m : G A) (k : A -> G B) Q1 (Q2 : A -> bool * bool -> B -> list buf_event -> Prop)
    (Q : bool * bool -> B -> list buf_event -> Prop) :
  logs m Q1 -> (forall a, logs (k a) (Q2 a)) ->
  (forall r a b e1 e2, Q1 r a e1 -> Q2 a r b e2 -> Q r b (e1 ++ e2)) -> logs (m ≫= k) Q.
Proof.
  intros H1 H2 HQ s b s' E. unfold mbind, comp_bind in E. destruct (m s) as [[a s1]|] eqn:E1; [|done].
  destruct (H1 _ _ _ E1) as (R1 & e1 & L1 & q1). destruct (H2 _ _ _ _ E) as (R2 & e2 & L2 & q2).
  rewrite R1 in *. split; [done|]. exists (e1 ++ e2).
  rewrite L2, L1, app_assoc. eauto.
Qed.

Lemma logs_quiet_bind {A B} (m : G A) (k : A -> G B) Q :
  logs m quiet -> (forall a, logs (k a) Q) -> logs (m ≫= k) Q.
Proof. intros H1 H2. eapply (logs_bind m k _ (fun _ => Q)); [exact H1|exact H2|]. by intros r a b e1 e2 -> ?. Qed.

Lemma logs_go_bind {A B} (m : G A) (k : A -> G B) :
  logs m lets_go -> (forall a, logs (k a) lets_go) -> logs (m ≫= k) lets_go.
Proof. intros H1 H2. eapply (logs_bind m k _ (fun _ => lets_go)); [exact H1|exact H2|]. intros. by apply list.Forall_app. Qed.

Lemma quiet_go {A} (m : G A) : logs m quiet -> logs m lets_go.
Proof. apply logs_weaken. intros r a ev ->. constructor. Qed.

Lemma logs_ret {A} (a : A) : logs (mret a) quiet.
Proof. intros s b s' [= -> ->]. split; [done|]. exists []. by rewrite app_nil_r. Qed.

Lemma logs_ret_go {A} (a : A) : logs (mret a) lets_go.
Proof. apply quiet_go, logs_ret. Qed.

Lemma logs_gets {A} (f : gst -> A) : logs (gets f) quiet.
Proof. intros s b s' [= <- <-]. split; [done|]. exists []. by rewrite app_nil_r. Qed.

Lemma logs_the {A} (o : option A) : logs (the o) quiet.
Proof. intros s b s'. unfold the. destruct o; [|done]. intros [= <- <-]. split; [done|]. exists []. by rewrite app_nil_r. Qed.

Lemma logs_ub {A} Q : logs (ub : G A) Q.
Proof. by intros s a s'. Qed.

Lemma logs_upd_cache f :
  (forall c, gc_release (f c) = gc_release c /\ gc_share (f c) = gc_share c) -> logs (upd_cache f) quiet.
Proof.
  intros Hf s b s' [= <- <-]. destruct (Hf (g_cache s)) as [E1 E2]. split; [unfold hooks; cbn; by rewrite E1, E2|].
  exists []. cbn. by rewrite app_nil_r.
Qed.

Lemma logs_modify_heap f brk : logs (modify (fun s => mkGst (g_cache s) (f s) (brk s) (g_log s))) quiet.
Proof. intros s b s' [= <- <-]. split; [done|]. exists []. cbn. by rewrite app_nil_r. Qed.

Create HintDb logs.
#[export] Hint Resolve logs_ret logs_gets logs_the logs_ub logs_modify_heap logs_ret_go : logs.

(** Straight-line code: bind by bind, case by case. *)
Ltac quiet_step :=
  first [ solve [eauto with logs]
        | apply logs_quiet_bind; [|intros ?]
        | apply logs_upd_cache; by intros []
        | case_match ].
Ltac quiet_all := repeat quiet_step.

Lemma logs_get_entry a : logs (get_entry a) quiet.
Proof. unfold get_entry. quiet_all. Qed.
#[export] Hint Resolve logs_get_entry : logs.

Lemma logs_upd_entry a f : logs (upd_entry a f) quiet.
Proof. unfold upd_entry. quiet_all. Qed.
#[export] Hint Resolve logs_upd_entry : logs.

Lemma logs_the_cache : logs the_cache quiet.
Proof. apply logs_gets. Qed.
#[export] Hint Resolve logs_the_cache : logs.

Lemma logs_lru_unlink a : logs (lru_unlink a) quiet.
Proof. unfold lru_unlink. quiet_all. Qed.
Lemma logs_lru_push a : logs (lru_push_mru a) quiet.
Proof. unfold lru_push_mru. quiet_all. Qed.
#[export] Hint Resolve logs_lru_unlink logs_lru_push : logs.
Lemma logs_lru_touch a : logs (lru_touch a) quiet.
Proof. unfold lru_touch. quiet_all. Qed.
#[export] Hint Resolve logs_lru_touch : logs.

Lemma logs_find fuel cur f b : logs (find_loop fuel cur f b) quiet.
Proof. revert cur. induction fuel as [|fuel IH]; intros [a|]; cbn [find_loop]; quiet_all. Qed.
Lemma logs_tail_search fuel cur t : logs (tail_search fuel cur t) quiet.
Proof. revert cur. induction fuel as [|fuel IH]; intros [a|]; cbn [tail_search]; quiet_all. Qed.
#[export] Hint Resolve logs_find logs_tail_search : logs.
Lemma logs_find_entry f b : logs (find_entry f b) quiet.
Proof. unfold find_entry. quiet_all. Qed.
Lemma logs_room_victim f : logs (room_victim f) quiet.
Proof. unfold room_victim. quiet_all. Qed.
#[export] Hint Resolve logs_find_entry logs_room_victim : logs.

(** ** Removals *)

Lemma slots_let_go c sls : Forall (is_letting_go (gc_release c)) (sls ≫= fun s => slot_buf_free c (gs_copy s)).
Proof.
  induction sls as [|sl sls IH]; [constructor|]. rewrite bind_cons. apply list.Forall_app. split; [|done].
  unfold slot_buf_free. destruct (_ =? 0); [constructor|]. destruct (gc_release c); (constructor; [by eexists|constructor]).
Qed.

Lemma logs_entry_free a : logs (entry_free a) lets_go.
Proof.
  intros s u s' E. unfold entry_free, mbind, comp_bind in E. cbn in E. unfold get_entry, mbind, comp_bind in E. cbn in E.
  destruct (g_heap s !! a) as [e|]; [|done]. cbn in E. injection E as _ <-. split; [done|].
  eexists. split; [done|]. apply slots_let_go.
Qed.
#[export] Hint Resolve logs_entry_free : logs.

Lemma logs_remove a reason : logs (cache_remove_entry a reason) lets_go.
Proof. unfold cache_remove_entry. do 3 (apply logs_quiet_bind; [|intros ?]; quiet_all). Qed.
#[export] Hint Resolve logs_remove : logs.

(** Code that only lets go of buffers. *)
Ltac go_step :=
  first [ solve [eauto with logs]
        | solve [apply quiet_go; eauto with logs]
        | apply logs_go_bind; [|intros ?]
        | apply quiet_go, logs_upd_cache; by intros []
        | case_match ].
Ltac go_all := repeat go_step.

Lemma logs_expire_loop fuel cur now flt : logs (expire_loop fuel cur now flt) lets_go.
Proof. revert cur. induction fuel as [|fuel IH]; intros [a|]; cbn [expire_loop]; go_all. Qed.
#[export] Hint Resolve logs_expire_loop : logs.
Lemma logs_expire now flt : logs (expire_one_pass now flt) lets_go.
Proof. unfold expire_one_pass. go_all. Qed.
#[export] Hint Resolve logs_expire : logs.
Lemma logs_room_loop fuel f len : logs (room_loop fuel f len) lets_go.
Proof. induction fuel as [|fuel IH]; cbn [room_loop]; go_all. Qed.
#[export] Hint Resolve logs_room_loop : logs.
Lemma logs_make_room f len now : logs (make_room f len now) lets_go.
Proof. unfold make_room. go_all. Qed.
Lemma logs_grow fuel a len : logs (grow_loop fuel a len) lets_go.
Proof. induction fuel as [|fuel IH]; cbn [grow_loop]; go_all. Qed.
#[export] Hint Resolve logs_make_room logs_grow : logs.

Lemma logs_fail_admission : logs fail_admission quiet.
Proof. unfold fail_admission. quiet_all. Qed.
Lemma logs_entry_create oom hdr now : logs (entry_create oom hdr now) quiet.
Proof. unfold entry_create. quiet_all. Qed.
Lemma logs_link_new a f accts : logs (link_new a f accts) quiet.
Proof. unfold link_new. quiet_all. Qed.
#[export] Hint Resolve logs_fail_admission logs_entry_create logs_link_new : logs.

(** ** Insertion *)

Lemma logs_commit a hdr copy len now ev : logs (commit_slot a hdr copy len now ev) (fun _ _ l => l = [ev]).
Proof.
  unfold commit_slot. eapply (logs_bind _ _ (fun _ _ l => l = [ev]) (fun _ => quiet)).
  - intros s u s' [= <- <-]. split; [done|]. by exists [ev].
  - intros _. quiet_all.
  - by intros r x b e1 e2 -> ->.
Qed.

Section Insert2.
Context (is_shared : Z -> bool) (malloc : option Z) (datagram : Z).

(** Some buffers go, then one comes on [GEN_INSERT_OK]. *)
Definition takes (st : GenerationInsertStatus) (hook : bool * bool) (ev : list buf_event) : Prop :=
  exists rs acq, ev = rs ++ acq /\ Forall (is_letting_go (fst hook)) rs /\
    match st with
    | GEN_INSERT_OK => (acq = [BufRetain datagram] /\ is_shared datagram = true /\ snd hook = true) \/
        (snd hook && is_shared datagram = false /\ exists p, malloc = Some p /\ acq = [BufMalloc p])
    | _ => acq = []
    end.

Lemma takes_none st hook ev : st <> GEN_INSERT_OK -> Forall (is_letting_go (fst hook)) ev -> takes st hook ev.
Proof. intros Hst H. exists ev, []. rewrite app_nil_r. by destruct st. Qed.

Lemma takes_app st hook e1 e2 : Forall (is_letting_go (fst hook)) e1 -> takes st hook e2 -> takes st hook (e1 ++ e2).
Proof.
  intros H (rs & acq & -> & Hr & Ha). exists (e1 ++ rs), acq. rewrite app_assoc. split; [done|]. split; [|done].
  by apply list.Forall_app.
Qed.

Lemma logs_then_take {A B} (m : G A) (k : A -> G B) (f : B -> GenerationInsertStatus) :
  logs m lets_go -> (forall a, logs (k a) (fun r b ev => takes (f b) r ev)) ->
  logs (m ≫= k) (fun r b ev => takes (f b) r ev).
Proof.
  intros H1 H2. eapply (logs_bind _ _ _ (fun _ r b ev => takes (f b) r ev)); [exact H1|exact H2|].
  intros r a b e1 e2 G1 G2. by apply takes_app.
Qed.

Lemma logs_no_take {A} (m : G A) (f : A -> GenerationInsertStatus) :
  logs m lets_go -> (forall s a s', m s = Some (a, s') -> f a <> GEN_INSERT_OK) -> logs m (fun r b ev => takes (f b) r ev).
Proof.
  intros H Hf s a s' E. destruct (H _ _ _ E) as (R & ev & L & Q). split; [done|]. exists ev.
  split; [done|]. apply takes_none; [by eapply Hf|done].
Qed.

Lemma logs_store_slot a hdr len now :
  logs (store_slot is_shared malloc a hdr datagram len now) (fun r st ev => takes st r ev).
Proof.
  unfold store_slot. apply (logs_then_take _ _ id); [apply quiet_go; auto with logs|intros e].
  destruct (_ >=? _).
  { apply (logs_no_take _ id); [go_all|]. by intros s st s' [= <- <-]. }
  apply (logs_then_take _ _ id); [apply quiet_go; auto with logs|intros slot].
  destruct (gs_present slot).
  { apply (logs_no_take _ id); [go_all|]. by intros s st s' [= <- <-]. }
  apply (logs_then_take _ _ id); [apply quiet_go; auto with logs|intros h].
  apply (logs_then_take _ _ id); [auto with logs|intros fits].
  destruct fits; cbn [negb]; [|apply (logs_no_take _ id); [go_all|by intros s st s' [= <- <-]]].
  eapply (logs_bind the_cache _ (fun fl c ev => ev = [] /\ gc_share c = snd fl)
    (fun c fl st ev => gc_share c = snd fl -> takes st fl ev)).
  { intros s c s' [= <- <-]. split; [done|]. exists []. by rewrite app_nil_r. }
  2: { intros fl c st e1 e2 [-> Hc] Ht. by apply Ht. }
  intros c. unfold hold_buffer. destruct (gc_share c && is_shared datagram) eqn:Es; [|destruct malloc as [p|] eqn:Em].
  - eapply (logs_bind _ _ _ (fun _ r b ev => b = GEN_INSERT_OK /\ ev = [])); [apply logs_commit| |].
    + intros _ s st s' [= <- <-]. split; [done|]. exists []. by rewrite app_nil_r.
    + intros r u b e1 e2 -> [-> ->] Hsh. exists [], [BufRetain datagram]. apply andb_true_iff in Es as [Ec Es].
      split; [done|]. split; [constructor|]. left. by rewrite <- Hsh.
  - eapply (logs_bind _ _ _ (fun _ r b ev => b = GEN_INSERT_OK /\ ev = [])); [apply logs_commit| |].
    + intros _ s st s' [= <- <-]. split; [done|]. exists []. by rewrite app_nil_r.
    + intros r u b e1 e2 -> [-> ->] Hsh. exists [], [BufMalloc p]. split; [done|]. split; [constructor|]. right.
      split; [by rewrite <- Hsh|by exists p].
  - eapply logs_weaken; [|apply (logs_no_take _ id); [go_all|by intros s st s' [= <- <-]]]. by intros r st ev H _.
Qed.

(** A status other than OK is passed on after some more removals. *)
Lemma logs_after {B} (m : G GenerationInsertStatus) (k : GenerationInsertStatus -> G B) (f : B -> GenerationInsertStatus) :
  logs m (fun r st ev => takes st r ev) ->
  (forall st, st = GEN_INSERT_OK -> logs (k st) (fun r b ev => ev = [] /\ f b = GEN_INSERT_OK)) ->
  (forall st, st <> GEN_INSERT_OK -> logs (k st) (fun r b ev => Forall (is_letting_go (fst r)) ev /\ f b = st)) ->
  logs (m ≫= k) (fun r b ev => takes (f b) r ev).
Proof.
  intros H1 H2 H3. eapply (logs_bind _ _ _ (fun st r b ev =>
    if decide (st = GEN_INSERT_OK) then ev = [] /\ f b = GEN_INSERT_OK else Forall (is_letting_go (fst r)) ev /\ f b = st)); [exact H1| |].
  - intros st. case_decide; [by apply H2|by apply H3].
  - intros r st b e1 e2 G1 G2. case_decide as Hst.
    + destruct G2 as [-> ->]. subst st. by rewrite app_nil_r.
    + destruct G2 as [G2 ->]. destruct G1 as (rs & acq & -> & Hr & Ha). assert (acq = []) as -> by (by destruct st).
      rewrite app_nil_r. apply takes_none; [done|]. by apply list.Forall_app.
Qed.

Lemma logs_result {A} (m : G A) (Q : bool * bool -> A -> list buf_event -> Prop) (P : A -> Prop) :
  logs m Q -> (forall s a s', m s = Some (a, s') -> P a) -> logs m (fun r a ev => Q r a ev /\ P a).
Proof.
  intros H HP s a s' E. destruct (H _ _ _ E) as (R & ev & L & q). split; [done|]. exists ev. eauto.
Qed.

Lemma logs_insert oom hdr len now :
  logs (generation_cache_insert is_shared malloc oom hdr datagram len now) (fun r b ev => takes (fst b) r ev).
Proof.
  unfold generation_cache_insert. destruct (_ || _ || _).
  { apply logs_no_take; [go_all|by intros s a s' [= <- <-]]. }
  destruct (bad_shard hdr); [apply logs_no_take; [go_all|by intros s a s' [= <- <-]]|].
  apply logs_then_take; [auto with logs|intros _]. apply logs_then_take; [apply quiet_go; auto with logs|intros found].
  destruct found as [entry|].
  - apply logs_then_take; [apply quiet_go; auto with logs|intros e].
    destruct (negb (meta_matches e hdr)); [apply logs_no_take; [go_all|by intros s a s' [= <- <-]]|].
    apply logs_after; [apply logs_store_slot| |]; intros st Hst; intros s a s' [= <- <-]; (split; [done|]);
      exists []; rewrite app_nil_r; (split; [done|]; split; [|done]); [done|constructor].
  - apply logs_then_take; [auto with logs|intros room].
    destruct room; cbn [negb]; [|apply logs_no_take; [go_all|by intros s a s' [= <- <-]]].
    apply logs_then_take; [apply quiet_go; auto with logs|intros [entry|]];
      [|apply logs_no_take; [go_all|by intros s a s' [= <- <-]]].
    apply logs_then_take; [apply quiet_go; auto with logs|intros c].
    destruct (account_add_generation _ _) as [accts|].
    2: { apply logs_no_take; [go_all|]. intros s a s' E. unfold mbind, comp_bind in E. case_match; [|done]. case_match.
         by injection E as <- <-. }
    apply logs_then_take; [apply quiet_go; auto with logs|intros _].
    apply logs_after; [apply logs_store_slot| |]; intros st Hst.
    + subst st. rewrite bool_decide_eq_true_2 by done. intros s a s' [= <- <-]. split; [done|].
      exists []. by rewrite app_nil_r.
    + rewrite bool_decide_eq_false_2 by done. apply logs_result; [go_all|].
      intros s a s' E. unfold mbind, comp_bind in E. cbn in E. case_match; [|done]. case_match. by injection E as <- <-.
Qed.

End Insert2.
