(* ===== verification/RsBats.v ===== *)
(** * The relay's recoder: src/apps/wire_relay/rs_bats_recoder.c

    The payloads of a generation are the rows of a matrix over GF(256) that is multiplied, block of
    columns by block of columns, by a coding matrix.  Rows are byte buffers, [None] is NULL; the
    function returns [None] when it would leave a buffer.  Input and output rows are different
    buffers. *)

From Stdlib Require Import Strings.Byte.
From S2P Require Import Prelude WireHeader Gf256 ByteVec GenerationCache RsEncode.

Local Open Scope Z_scope.

(** ** Multiplication *)

Definition RS_BATS_GF_POLY : Z := 0x11d.

(** A turn of the loop of [gf_mul_slow] on [product], [left] and [right]. *)
Definition gf_mul_turn (s : Z * Z * Z) : Z * Z * Z :=
  let '(product, l, r) := s in
  (if negb (Z.land r 1 =? 0) then Z.lxor product l else product,
   if negb (Z.land l 0x80 =? 0) then u8 (Z.lxor (Z.shiftl l 1) RS_BATS_GF_POLY)
   else u8 (Z.shiftl l 1),
   Z.shiftr r 1).

Definition gf_mul_slow (l r : Z) : Z :=
  let '(product, _, _) := Nat.iter 8 gf_mul_turn (0, l, r) in u8 product.

(** The static table and its flag. *)
Record GfTable := mkGfTable { gf_mul_table : list (list Z); gf_mul_ready : bool }.

Definition gf_table_zero : GfTable := mkGfTable (replicate 256 (replicate 256 0)) false.

Definition gf_mul_table_init (g : GfTable) : GfTable :=
  if gf_mul_ready g then g
  else mkGfTable (map (fun l => map (fun r => gf_mul_slow (Z.of_nat l) (Z.of_nat r)) (seq 0 256))
                    (seq 0 256)) true.

Definition table_mul (g : GfTable) (l r : byte) : byte :=
  Z_to_byte (nth (Z.to_nat (byte_to_Z r)) (nth (Z.to_nat (byte_to_Z l)) (gf_mul_table g) []) 0).

(** ** Configuration *)

Definition PKG_SIZE : Z := 1400.
Definition RS_BATS_DEFAULT_BLOCK_DIM : Z := 0.

Record RsBatsRecoderConfig := mkBatsConfig {
  bc_shard_count : Z;
  bc_payload_len : Z;
  bc_block_dim : Z }.

Record RsBatsRecoderStats := mkBatsStats {
  bs_generations_recoded : Z;
  bs_recode_body_ns : Z;
  bs_recode_mismatch : Z;
  bs_hold_packets : Z;
  bs_emit_datagrams : Z;
  bs_emit_fail : Z }.

Definition bats_config_valid (cfg : option RsBatsRecoderConfig) : bool :=
  match cfg with
  | None => false
  | Some c =>
      if (bc_shard_count c <? 2) || (bc_payload_len c <? 1) then false
      else if bc_shard_count c >? GEN_CACHE_MAX_SHARD_COUNT then false
      else if negb (bc_block_dim c =? 0) && (bc_block_dim c >? GEN_CACHE_MAX_SHARD_COUNT) then false
      else true
  end.

Definition rs_bats_recoder_block_dim (cfg : option RsBatsRecoderConfig) : Z :=
  match cfg with
  | None => 0
  | Some c =>
      if bc_shard_count c <? 2 then 0
      else if bc_block_dim c =? 0 then bc_shard_count c else bc_block_dim c
  end.

Definition rs_bats_recoder_config_defaults (shard_count : Z) : RsBatsRecoderConfig :=
  mkBatsConfig shard_count PKG_SIZE RS_BATS_DEFAULT_BLOCK_DIM.

(** ** The product *)

(** [C = R x B]: [R] is n x n, [B] and [C] are n x w, all row-major. *)
Definition mat_mul_block (g : GfTable) (n w : nat) (R B : list byte) : list byte :=
  concat (map (fun i =>
    map (fun j =>
      foldl (fun acc k => bxor acc (table_mul g (get R (i * n + k)) (get B (k * w + j)))) x00 (seq 0 n))
      (seq 0 w)) (seq 0 n)).

Abbreviation Rows := (list (option (list byte))).

(** [memcpy] from and to a row that has room. *)
Definition row_read (off n : nat) (row : option (list byte)) : option (list byte) :=
  match row with
  | Some r => if (off + n <=? length r)%nat then Some (take n (drop off r)) else None
  | None => None
  end.
Definition row_write (off : nat) (bs : list byte) (row : option (list byte)) : option (option (list byte)) :=
  match row with
  | Some r => if (off + length bs <=? length r)%nat
              then Some (Some (take off r ++ bs ++ drop (off + length bs) r)) else None
  | None => None
  end.

(** One block of columns: [block_dim] wide, [valid_cols] of them real, the others zero. *)
Definition recode_block (g : GfTable) (n block_dim valid_cols col_start : nat) (matrix : list byte)
    (in_rows out_rows : Rows) : option Rows :=
  match mapM (fun row => in_rows !! row ≫= row_read col_start valid_cols) (seq 0 n) with
  | None => None
  | Some cells =>
      let B_pad := concat (map (fun r => r ++ replicate (block_dim - valid_cols) x00) cells) in
      let C_pad := mat_mul_block g n block_dim matrix B_pad in
      mapM (fun row => out_rows !! row ≫=
                       row_write col_start (take valid_cols (drop (row * block_dim) C_pad))) (seq 0 n)
  end.

(** The loop over the columns: every turn moves on by at least one. *)
Fixpoint recode_loop (turns : nat) (g : GfTable) (n block_dim payload_len col_start : nat)
    (matrix : list byte) (in_rows out_rows : Rows) : option Rows :=
  if (col_start <? payload_len)%nat then
    match turns with
    | O => None
    | S turns =>
        let valid_cols := if (payload_len <? col_start + block_dim)%nat then (payload_len - col_start)%nat
                          else block_dim in
        match recode_block g n block_dim valid_cols col_start matrix in_rows out_rows with
        | None => None
        | Some out_rows =>
            recode_loop turns g n block_dim payload_len (col_start + block_dim) matrix in_rows out_rows
        end
    end
  else Some out_rows.

Definition is_null {A} (o : option A) : bool := match o with None => true | Some _ => false end.

(** [alloc] says whether the two block buffers are allocated. *)
Definition rs_bats_recode (alloc : bool) (cfg : option RsBatsRecoderConfig) (matrix : option (list byte))
    (in_rows out_rows : option Rows) (g : GfTable) : option (Z * option Rows * GfTable) :=
  match cfg, matrix, in_rows, out_rows with
  | Some c, Some R, Some ins, Some outs =>
      if negb (bats_config_valid cfg) then Some (-1, out_rows, g)
      else
        let n := Z.to_nat (bc_shard_count c) in
        let block_dim := rs_bats_recoder_block_dim cfg in
        if block_dim <? 1 then Some (-1, out_rows, g)
        else if (length ins <? n)%nat || (length outs <? n)%nat || (length R <? n * n)%nat then None
        else if existsb is_null (take n ins) || existsb is_null (take n outs) then Some (-1, out_rows, g)
        else
          let g := gf_mul_table_init g in
          if negb alloc then Some (-1, out_rows, g)
          else
            match recode_loop (Z.to_nat (bc_payload_len c)) g n (Z.to_nat block_dim)
                    (Z.to_nat (bc_payload_len c)) 0 R ins (take n outs) with
            | Some rows => Some (0, Some (rows ++ drop n outs), g)
            | None => None
            end
  | _, _, _, _ => Some (-1, out_rows, g)
  end.

(** ** The identity *)

(** [identity] as it is filled for [n] rows. *)
Definition identity_matrix (n : nat) : list byte :=
  foldl (fun m row => <[row * n + row := x01]> m)%nat
    (replicate (Z.to_nat (GEN_CACHE_MAX_SHARD_COUNT * GEN_CACHE_MAX_SHARD_COUNT)) x00) (seq 0 n).

Definition rs_bats_recode_identity (alloc : bool) (cfg : option RsBatsRecoderConfig)
    (in_rows out_rows : option Rows) (g : GfTable) : option (Z * option Rows * GfTable) :=
  match cfg with
  | Some c =>
      if negb (bats_config_valid cfg) then Some (-1, out_rows, g)
      else rs_bats_recode alloc cfg (Some (identity_matrix (Z.to_nat (bc_shard_count c)))) in_rows out_rows g
  | None => Some (-1, out_rows, g)
  end.

(** ** Generations

    [mem] is what the buffers hold: the cached datagrams. *)

Section Generation.
Context (mem : Z -> list byte).

(** The payload of a slot that holds a datagram long enough; [Some None] is a refusal, [None] a
    slot that does not exist. *)
Definition slot_payload (gen : GenerationEntry) (shard : nat) : option (option (list byte)) :=
  match ge_slots gen !! shard with
  | None => None
  | Some slot =>
      if negb (gs_present slot) || (gs_copy slot =? 0) ||
         (gs_len slot <? Z.of_nat WIRE_HEADER_SIZE + ge_payload_len gen)
      then Some None
      else Some (Some (drop WIRE_HEADER_SIZE (mem (gs_copy slot))))
  end.

(** [None] is undefined, [Some None] is [-1]. *)
Definition rs_bats_generation_payload_rows (gen : option GenerationEntry) : option (option Rows) :=
  match gen with
  | None => Some None
  | Some e =>
      if bool_decide (ge_slots e = []) || negb (bool_decide (ge_state e = GEN_READY)) then Some None
      else if ge_present_count e <? ge_shard_count e then Some None
      else
        match mapM (slot_payload e) (seq 0 (Z.to_nat (ge_shard_count e))) with
        | None => None
        | Some rows => Some (option_map (map Some) (mapM id rows))
        end
  end.

Definition same_payload (payload_len : nat) (a b : option (list byte)) : bool :=
  match a, b with
  | Some a, Some b => bool_decide (take payload_len a = take payload_len b)
  | _, _ => false
  end.

Definition stats_recoded (ns : Z) (s : RsBatsRecoderStats) : RsBatsRecoderStats :=
  mkBatsStats (u64 (bs_generations_recoded s + 1)) (u64 (bs_recode_body_ns s + ns)) (bs_recode_mismatch s)
    (bs_hold_packets s) (bs_emit_datagrams s) (bs_emit_fail s).
Definition stats_mismatch (s : RsBatsRecoderStats) : RsBatsRecoderStats :=
  mkBatsStats (bs_generations_recoded s) (bs_recode_body_ns s) (u64 (bs_recode_mismatch s + 1))
    (bs_hold_packets s) (bs_emit_datagrams s) (bs_emit_fail s).

(** [t0] and [t1] are the readings of the clock. *)
Definition rs_bats_recode_generation_identity (alloc : bool) (t0 t1 : Z) (cfg : option RsBatsRecoderConfig)
    (gen : option GenerationEntry) (out_rows : option Rows) (stats : RsBatsRecoderStats) (g : GfTable) :
    option (Z * option Rows * RsBatsRecoderStats * GfTable) :=
  match cfg, gen, out_rows with
  | Some c, Some e, Some _ =>
      if negb (bats_config_valid cfg) then Some (-1, out_rows, stats, g)
      else if negb (ge_shard_count e =? bc_shard_count c) || negb (ge_payload_len e =? bc_payload_len c)
      then Some (-1, out_rows, stats, g)
      else
        match rs_bats_generation_payload_rows gen with
        | None => None
        | Some None => Some (-1, out_rows, stats, g)
        | Some (Some in_rows) =>
            match rs_bats_recode_identity alloc cfg (Some in_rows) out_rows g with
            | None => None
            | Some (rc, out_rows, g) =>
                if negb (rc =? 0) then Some (rc, out_rows, stats, g)
                else if forallb (fun '(a, b) => same_payload (Z.to_nat (bc_payload_len c)) a b)
                          (zip in_rows (default [] out_rows))
                then Some (0, out_rows, stats_recoded (u64 (t1 - t0)) stats, g)
                else Some (-1, out_rows, stats_mismatch stats, g)
            end
        end
  | _, _, _ => Some (-1, out_rows, stats, g)
  end.

End Generation.

(** * The recoder multiplies by its matrix

    [gf_mul_slow] is the multiplication of the field, the blocked product is the product, whatever
    the width of the blocks, and the identity matrix changes nothing. *)

(** ** Multiplication *)

Lemma gf_mul_slow_table :
  forallb (fun a => forallb (fun b => gf_mul_slow (Z.of_nat a) (Z.of_nat b) =? gmult (Z.of_nat a) (Z.of_nat b))
    (seq 0 256)) (seq 0 256) = true.
Proof. vm_compute. reflexivity. Qed.

Lemma gf_mul_slow_gmult a b : is_byte a -> is_byte b -> gf_mul_slow a b = gmult a b.
Proof.
  unfold is_byte, in_range. intros Ha Hb. pose proof gf_mul_slow_table as H. rewrite forallb_forall in H.
  specialize (H (Z.to_nat a)). rewrite in_seq in H. specialize (H ltac:(lia)). rewrite forallb_forall in H.
  specialize (H (Z.to_nat b)). rewrite in_seq, Z.eqb_eq, !Z2Nat.id in H by lia. apply H. lia.
Qed.

(** The table is zero until it is filled, and then holds the products. *)
Definition table_ok (g : GfTable) : Prop := gf_mul_ready g = true -> forall a b, table_mul g a b = gf_mul a b.

Lemma table_init_ok g : table_ok g -> table_ok (gf_mul_table_init g) /\ gf_mul_ready (gf_mul_table_init g) = true.
Proof.
  intros Hg. unfold gf_mul_table_init. destruct (gf_mul_ready g) eqn:E; [by split|]. split; [|done].
  intros _ a b. unfold table_mul, gf_mul. cbn [gf_mul_table].
  pose proof (byte_to_Z_range a) as Ha. pose proof (byte_to_Z_range b) as Hb. unfold is_byte, in_range in *.
  rewrite nth_map_seq by lia. rewrite nth_map_seq by lia. rewrite !Nat.add_0_l, !Z2Nat.id by lia.
  by rewrite gf_mul_slow_gmult.
Qed.

Lemma table_zero_ok : table_ok gf_table_zero.
Proof. done. Qed.

(** ** One block *)

Lemma mapM_total {A B} (f : A -> option B) h l :
  (forall x, x ∈ l -> f x = Some (h x)) -> mapM f l = Some (map h l).
Proof.
  induction l as [|x l IH]; intros H; [done|]. cbn. rewrite H by (by left). cbn.
  rewrite IH by (intros y Hy; apply H; by right). done.
Qed.

Lemma rows_seq (M : list (list byte)) n : length M = n -> M = map (row_of M) (seq 0 n).
Proof.
  intros <-. apply (nth_ext _ _ [] []); [by rewrite length_map, length_seq|]. intros i Hi.
  rewrite nth_map_seq by done. done.
Qed.

Lemma get_write cs bs (r : list byte) c :
  (cs + length bs <= length r)%nat ->
  get (take cs r ++ bs ++ drop (cs + length bs) r) c =
  if decide (cs <= c < cs + length bs)%nat then get bs (c - cs) else get r c.
Proof.
  intros Hl. unfold get. rewrite !nth_lookup. case_decide as H.
  - rewrite lookup_app_r; rewrite length_take; [|lia]. rewrite lookup_app_l by lia. f_equal. f_equal. lia.
  - destruct (decide (c < cs)%nat).
    + rewrite lookup_app_l by (rewrite length_take; lia). by rewrite lookup_take_lt by lia.
    + rewrite lookup_app_r by (rewrite length_take; lia). rewrite lookup_app_r by (rewrite length_take; lia).
      rewrite lookup_drop, length_take. do 2 f_equal. lia.
Qed.

Section Product.
Context (g : GfTable) (Hg : forall a b, table_mul g a b = gf_mul a b).
Context (n : nat) (R : list byte).

(** Byte [c] of row [i] of [R x M]. *)
Definition product_at (M : list (list byte)) (i c : nat) : byte :=
  gsum n (fun k => gf_mul (get R (i * n + k)) (get (row_of M k) c)).

Lemma mat_mul_block_at w B i j :
  (i < n)%nat -> (j < w)%nat ->
  get (mat_mul_block g n w R B) (i * w + j) =
  gsum n (fun k => gf_mul (get R (i * n + k)) (get B (k * w + j))).
Proof using Hg.
  intros Hi Hj. unfold mat_mul_block.
  rewrite (get_concat_blocks (fun i => map _ (seq 0 w)) w) by (try done; intros; by rewrite length_map, length_seq).
  rewrite get_map_seq by done. rewrite Nat.add_0_l.
  change (foldl (fun acc k => bxor acc (table_mul g (get R (i * n + k)) (get B (k * w + j)))) x00 (seq 0 n))
    with (gsum n (fun k => table_mul g (get R (i * n + k)) (get B (k * w + j)))).
  apply gsum_ext. intros k _. apply Hg.
Qed.

Lemma length_mat_mul_block w B : length (mat_mul_block g n w R B) = (n * w)%nat.
Proof using Type.
  unfold mat_mul_block. rewrite (length_concat_blocks (fun i => map _ (seq 0 w)) w); [done|].
  intros i _. by rewrite length_map, length_seq.
Qed.

Context (M : list (list byte)).

(** What a block leaves in the output rows. *)
Definition written (lo hi : nat) (O O' : list (list byte)) : Prop :=
  length O' = n /\ forall i, (i < n)%nat -> length (row_of O' i) = length (row_of O i) /\
    forall c, get (row_of O' i) c = if decide (lo <= c < hi)%nat then product_at M i c else get (row_of O i) c.

Lemma written_trans lo mid hi O O1 O2 :
  (lo <= mid <= hi)%nat -> written lo mid O O1 -> written mid hi O1 O2 -> written lo hi O O2.
Proof using Type.
  intros Hm [H1 H2] [G1 G2]. split; [done|]. intros i Hi. destruct (H2 i Hi) as [H3 H4], (G2 i Hi) as [G3 G4].
  split; [congruence|]. intros c. rewrite G4. repeat case_decide; try lia; rewrite ?H4; repeat case_decide; done || lia.
Qed.

Context (HM : length M = n).

Lemma recode_block_ok bd vc cs O :
  (0 < bd)%nat -> (vc <= bd)%nat -> length O = n ->
  (forall i, (i < n)%nat -> (cs + vc <= length (row_of M i) /\ cs + vc <= length (row_of O i))%nat) ->
  exists O', recode_block g n bd vc cs R (map Some M) (map Some O) = Some (map Some O') /\ written cs (cs + vc) O O'.
Proof using Hg HM.
  intros Hbd Hvc HO Hrows. unfold recode_block.
  assert (Hat : forall (L : list (list byte)) i, length L = n -> (i < n)%nat -> map Some L !! i = Some (Some (row_of L i))).
  { intros L i HL Hi. rewrite list_lookup_fmap. unfold row_of. rewrite nth_lookup.
    destruct (lookup_lt_is_Some_2 L i ltac:(lia)) as [r ->]. done. }
  rewrite (mapM_total _ (fun i => take vc (drop cs (row_of M i)))); cycle 1.
  { intros i Hi. apply elem_of_seq in Hi. rewrite Hat by (done || lia). destruct (Hrows i ltac:(lia)) as [H1 _].
    cbn. by rewrite (proj2 (Nat.leb_le _ _)). }
  rewrite map_map. set (B := concat _). set (C := mat_mul_block g n bd R B).
  assert (HC : length C = (n * bd)%nat) by apply length_mat_mul_block.
  assert (Hsl : forall i, (i < n)%nat -> length (take vc (drop (i * bd) C)) = vc).
  { intros i Hi. rewrite length_take, length_drop, HC. nia. }
  assert (HB : forall k j, (k < n)%nat -> (j < vc)%nat -> get B (k * bd + j) = get (row_of M k) (cs + j)).
  { intros k j Hk Hj. unfold B. destruct (Hrows k Hk) as [H1 _].
    rewrite (get_concat_blocks _ bd); [|intros x Hx; destruct (Hrows x Hx); rewrite length_app, length_replicate, length_take, length_drop; lia|done|lia].
    rewrite get_app_l by (rewrite length_take, length_drop; lia). unfold get. by rewrite !nth_lookup, lookup_take_lt, lookup_drop by lia. }
  set (row' := fun i => take cs (row_of O i) ++ take vc (drop (i * bd) C) ++ drop (cs + vc) (row_of O i)).
  exists (map row' (seq 0 n)). split.
  - rewrite map_map. apply mapM_total. intros i Hi. apply elem_of_seq in Hi. rewrite Hat by (done || lia).
    destruct (Hrows i ltac:(lia)) as [_ H2]. cbn. rewrite Hsl by lia. by rewrite (proj2 (Nat.leb_le _ _)).
  - split; [by rewrite length_map, length_seq|]. intros i Hi. destruct (Hrows i Hi) as [_ H2].
    unfold row_of at 1 3. rewrite nth_map_seq by done. cbn [Nat.add]. unfold row'. split.
    + rewrite !length_app, length_take, length_drop, Hsl by done. lia.
    + intros c. pose proof (get_write cs (take vc (drop (i * bd) C)) (row_of O i) c) as Hw. rewrite Hsl in Hw by done.
      rewrite Hw by lia. case_decide as E; [|done]. unfold get at 1. rewrite nth_lookup, lookup_take_lt, lookup_drop by lia.
      rewrite <- nth_lookup. change (get C (i * bd + (c - cs)) = product_at M i c). unfold C. rewrite mat_mul_block_at by lia.
      apply gsum_ext. intros k Hk. rewrite HB by lia. do 3 f_equal. lia.
Qed.

Lemma recode_loop_ok turns bd P cs O :
  (0 < bd)%nat -> length O = n -> (P - cs <= turns)%nat ->
  (forall i, (i < n)%nat -> (P <= length (row_of M i) /\ P <= length (row_of O i))%nat) ->
  exists O', recode_loop turns g n bd P cs R (map Some M) (map Some O) = Some (map Some O') /\ written cs P O O'.
Proof using Hg HM.
  intros Hbd. revert cs O. induction turns as [|turns IH]; intros cs O HO Ht Hrows; cbn [recode_loop].
  all: destruct (Nat.ltb_spec cs P) as [Hlt|Hge].
  all: try (exists O; split; [done|]; split; [done|]; intros i Hi; split; [done|]; intros c; by rewrite decide_False by lia).
  { lia. }
  set (vc := if (P <? cs + bd)%nat then (P - cs)%nat else bd).
  assert (Hvc : (0 < vc <= bd /\ cs + vc <= P /\ (vc = bd \/ cs + vc = P))%nat).
  { unfold vc. destruct (Nat.ltb_spec P (cs + bd)); lia. }
  destruct (recode_block_ok bd vc cs O) as (O1 & E1 & W1); [lia|lia|done|intros i Hi; destruct (Hrows i Hi); lia|].
  rewrite E1. destruct (IH (cs + bd)%nat O1) as (O2 & E2 & W2).
  - apply W1.
  - lia.
  - intros i Hi. destruct (Hrows i Hi). destruct W1 as [_ W1]. destruct (W1 i Hi) as [-> _]. lia.
  - rewrite E2. exists O2. split; [done|]. apply (written_trans cs (cs + vc) P O O1); [lia|done|].
    destruct Hvc as (Hv1 & _ & [->|Hend]); [exact W2|]. destruct W2 as [L2 W2]. split; [done|]. intros i Hi.
    destruct (W2 i Hi) as [L3 W3]. split; [done|]. intros c. rewrite W3. rewrite !decide_False by lia. done.
Qed.

End Product.

(** ** The functions *)

Definition bats_config_ok (c : RsBatsRecoderConfig) : Prop :=
  2 <= bc_shard_count c <= GEN_CACHE_MAX_SHARD_COUNT /\ 1 <= bc_payload_len c < 2 ^ 16 /\
  0 <= bc_block_dim c <= GEN_CACHE_MAX_SHARD_COUNT.

Lemma bats_config_valid_ok c : bats_config_ok c -> bats_config_valid (Some c) = true.
Proof.
  unfold bats_config_ok. intros (H1 & H2 & H3). cbn. rewrite (proj2 (Z.ltb_ge (bc_shard_count c) 2)),
    (proj2 (Z.ltb_ge (bc_payload_len c) 1)), !Z.gtb_ltb, !(proj2 (Z.ltb_ge GEN_CACHE_MAX_SHARD_COUNT _)) by lia.
  by rewrite andb_false_r.
Qed.

Lemma block_dim_pos c : bats_config_ok c -> 1 <= rs_bats_recoder_block_dim (Some c).
Proof.
  unfold bats_config_ok. intros (H1 & H2 & H3). cbn. rewrite (proj2 (Z.ltb_ge (bc_shard_count c) 2)) by lia.
  destruct (Z.eqb_spec (bc_block_dim c) 0); lia.
Qed.

(** Rows for the whole payload. *)
Definition rows_ok (c : RsBatsRecoderConfig) (M : list (list byte)) : Prop :=
  length M = Z.to_nat (bc_shard_count c) /\
  Forall (fun r => Z.to_nat (bc_payload_len c) <= length r)%nat M.

Lemma rows_ok_at c M i :
  rows_ok c M -> (i < Z.to_nat (bc_shard_count c))%nat -> (Z.to_nat (bc_payload_len c) <= length (row_of M i))%nat.
Proof.
  intros [H1 H2] Hi. rewrite list.Forall_lookup in H2. unfold row_of. rewrite nth_lookup.
  destruct (lookup_lt_is_Some_2 M i ltac:(lia)) as [r Hr]. rewrite Hr. by apply (H2 i).
Qed.

Lemma no_null M : existsb is_null (map Some M : list (option (list byte))) = false.
Proof. by induction M. Qed.

Lemma rs_bats_recode_ok c R M O g :
  bats_config_ok c -> table_ok g -> rows_ok c M -> rows_ok c O ->
  let n := Z.to_nat (bc_shard_count c) in
  (n * n <= length R)%nat ->
  exists O', rs_bats_recode true (Some c) (Some R) (Some (map Some M)) (Some (map Some O)) g =
      Some (0, Some (map Some O'), gf_mul_table_init g) /\
    written n R M 0 (Z.to_nat (bc_payload_len c)) O O'.
Proof.
  intros Hc Hg HM HO n HR. destruct (table_init_ok g Hg) as [Ht Hrd]. pose proof (block_dim_pos c Hc) as Hbd.
  unfold rs_bats_recode. rewrite bats_config_valid_ok by done. cbn [negb]. fold n.
  rewrite (proj2 (Z.ltb_ge _ 1)) by lia. rewrite !length_map.
  destruct HM as [HM1 HM2] eqn:EM, HO as [HO1 HO2] eqn:EO. fold n in HM1, HO1.
  rewrite !(proj2 (Nat.ltb_ge _ _)) by lia. cbn [orb]. rewrite !take_ge by (rewrite length_map; lia). rewrite !no_null. cbn [orb negb].
  destruct (recode_loop_ok (gf_mul_table_init g) (Ht Hrd) n R M HM1 (Z.to_nat (bc_payload_len c))
    (Z.to_nat (rs_bats_recoder_block_dim (Some c))) (Z.to_nat (bc_payload_len c)) 0 O) as (O' & E & W); [lia|done|lia| |].
  - intros i Hi. split; by apply rows_ok_at.
  - rewrite E. exists O'. rewrite drop_ge, app_nil_r by (rewrite length_map; lia). done.
Qed.

Lemma identity_matrix_at n i k :
  (n <= 256)%nat -> (i < n)%nat -> (k < n)%nat -> get (identity_matrix n) (i * n + k) = delta i k.
Proof.
  intros Hn Hi Hk. unfold identity_matrix. set (base := replicate _ x00).
  assert (Hb : Z.of_nat (length base) = 65536) by (unfold base; rewrite length_replicate; unfold GEN_CACHE_MAX_SHARD_COUNT; lia).
  assert (Hsq : forall a b, (a < n)%nat -> (b < n)%nat -> (a * n + b < length base)%nat).
  { intros a b Ha Hb'. assert (a * n + b < n * n)%nat by nia. assert (n * n <= 256 * n)%nat by nia. lia. }
  assert (Hz : get base (i * n + k) = x00).
  { apply get_replicate. specialize (Hsq i k Hi Hk). unfold base in Hsq. by rewrite length_replicate in Hsq. }
  clearbody base. assert (H : forall m, (m <= n)%nat ->
    length (foldl (fun m row => <[row * n + row := x01]> m)%nat base (seq 0 m)) = length base /\
    get (foldl (fun m row => <[row * n + row := x01]> m)%nat base (seq 0 m)) (i * n + k) =
    if decide (i < m /\ i = k)%nat then x01 else x00).
  { induction m as [|m IH]; intros Hm.
    - cbn [seq foldl]. split; [done|]. by rewrite decide_False by lia.
    - destruct (IH ltac:(lia)) as [L IHm]. rewrite seq_S, foldl_app, Nat.add_0_l. cbn [foldl]. rewrite length_insert. split; [done|].
      rewrite get_insert by (rewrite L; apply Hsq; lia). rewrite IHm.
      destruct (decide (m * n + m = i * n + k)%nat) as [E|E].
      + assert (m = i) as -> by nia. assert (k = i) as -> by lia. by rewrite decide_True by lia.
      + repeat case_decide; try done; exfalso; [lia|]. apply E. assert (i = m) as -> by lia. lia. }
  destruct (H n (le_n n)) as [_ ->]. unfold delta. destruct (Nat.eqb_spec i k); [by rewrite decide_True by lia|by rewrite decide_False by lia].
Qed.

Lemma length_identity n :
  length (identity_matrix n) = Z.to_nat (GEN_CACHE_MAX_SHARD_COUNT * GEN_CACHE_MAX_SHARD_COUNT).
Proof.
  unfold identity_matrix. rewrite <- (length_replicate (Z.to_nat _) x00) at 2.
  generalize (replicate (Z.to_nat (GEN_CACHE_MAX_SHARD_COUNT * GEN_CACHE_MAX_SHARD_COUNT)) x00) as m.
  generalize (seq 0 n) as l. induction l as [|a l IH]; intros m; [done|]. cbn [foldl]. by rewrite IH, length_insert.
Qed.

(** Multiplying by the identity copies the rows. *)
Lemma rs_bats_recode_identity_ok c M O g :
  bats_config_ok c -> table_ok g -> rows_ok c M -> rows_ok c O ->
  exists O', rs_bats_recode_identity true (Some c) (Some (map Some M)) (Some (map Some O)) g =
      Some (0, Some (map Some O'), gf_mul_table_init g) /\
    length O' = Z.to_nat (bc_shard_count c) /\
    forall i, (i < Z.to_nat (bc_shard_count c))%nat ->
      length (row_of O' i) = length (row_of O i) /\
      take (Z.to_nat (bc_payload_len c)) (row_of O' i) = take (Z.to_nat (bc_payload_len c)) (row_of M i).
Proof.
  intros Hc Hg HM HO. unfold rs_bats_recode_identity. rewrite bats_config_valid_ok by done. cbn [negb].
  pose proof Hc as (Hn & _ & _). unfold GEN_CACHE_MAX_SHARD_COUNT in Hn.
  set (n := Z.to_nat (bc_shard_count c)). set (P := Z.to_nat (bc_payload_len c)).
  pose proof (length_identity n) as Hid.
  destruct (rs_bats_recode_ok c (identity_matrix n) M O g Hc Hg HM HO) as (O' & E & L & W).
  { fold n. rewrite Hid. unfold GEN_CACHE_MAX_SHARD_COUNT. assert (n <= 256)%nat by lia. nia. }
  fold n P in E, L, W. exists O'. split; [exact E|]. split; [done|]. intros i Hi. destruct (W i Hi) as [Hl Hw].
  split; [done|]. pose proof (rows_ok_at c M i HM Hi) as HMi. pose proof (rows_ok_at c O i HO Hi) as HOi. fold P in HMi, HOi.
  apply get_ext; [rewrite !length_take; lia|]. intros k Hk. rewrite length_take in Hk.
  assert (Hget : forall r : list byte, get (take P r) k = get r k).
  { intros r. unfold get. by rewrite !nth_lookup, lookup_take_lt by lia. }
  rewrite !Hget, Hw, decide_True by lia. unfold product_at.
  rewrite (gsum_ext _ _ (fun j => gf_mul (delta i j) (get (row_of M j) k))); [by apply (gsum_delta_l n i (fun j => get (row_of M j) k))|].
  intros j Hj. by rewrite identity_matrix_at by lia.
Qed.

(** ** Generations *)

(** A cached generation that is complete. *)
Record gen_complete (mem : Z -> list byte) (e : GenerationEntry) : Prop := {
  gn_state : ge_state e = GEN_READY;
  gn_shards : 2 <= ge_shard_count e <= GEN_CACHE_MAX_SHARD_COUNT;
  gn_payload : 1 <= ge_payload_len e < 2 ^ 16;
  gn_count : ge_shard_count e <= ge_present_count e;
  gn_slots : length (ge_slots e) = Z.to_nat (ge_shard_count e);
  gn_held : Forall (fun s => gs_present s = true /\ gs_copy s <> 0 /\
      gs_len s <= Z.of_nat (length (mem (gs_copy s))) /\
      Z.of_nat WIRE_HEADER_SIZE + ge_payload_len e <= gs_len s) (ge_slots e) }.

(** The payloads of its datagrams. *)
Definition payload_rows (mem : Z -> list byte) (e : GenerationEntry) : list (list byte) :=
  map (fun s => drop WIRE_HEADER_SIZE (mem (gs_copy s))) (ge_slots e).

Lemma payload_rows_ok mem e :
  gen_complete mem e ->
  rs_bats_generation_payload_rows mem (Some e) = Some (Some (map Some (payload_rows mem e))).
Proof.
  intros [H1 H2 H3 H4 H5 H6]. unfold rs_bats_generation_payload_rows.
  rewrite (bool_decide_eq_false_2 (ge_slots e = [])) by (intros E; rewrite E in H5; cbn in H5; lia).
  rewrite (bool_decide_eq_true_2 _ H1). cbn [negb orb]. rewrite (proj2 (Z.ltb_ge _ _)) by lia.
  rewrite (mapM_total _ (fun i => Some (drop WIRE_HEADER_SIZE (mem (gs_copy (nth i (ge_slots e) slot_zero)))))); cycle 1.
  { intros i Hi. apply elem_of_seq in Hi. unfold slot_payload. rewrite nth_lookup.
    destruct (lookup_lt_is_Some_2 (ge_slots e) i ltac:(lia)) as [s Hs]. rewrite Hs. cbn [default].
    rewrite list.Forall_lookup in H6. destruct (H6 i s Hs) as (G1 & G2 & G3 & G4).
    rewrite G1, (proj2 (Z.eqb_neq _ 0)), (proj2 (Z.ltb_ge _ _)) by done. done. }
  f_equal. rewrite <- H5. unfold payload_rows.
  rewrite <- (map_map (fun i => drop WIRE_HEADER_SIZE (mem (gs_copy (nth i (ge_slots e) slot_zero)))) Some).
  rewrite (mapM_total id (default [])); cycle 1.
  { intros o Ho. apply list_elem_of_fmap in Ho as (r & -> & _). done. }
  cbn [option_map]. rewrite !map_map. f_equal. apply list_eq. intros i. rewrite !list_lookup_fmap.
  destruct (decide (i < length (ge_slots e))%nat) as [Hi|Hi].
  - rewrite lookup_seq_lt by done. cbn. rewrite nth_lookup. destruct (lookup_lt_is_Some_2 _ _ Hi) as [s ->]. done.
  - rewrite !lookup_ge_None_2; [done|lia|rewrite length_seq; lia].
Qed.

Definition gen_config (e : GenerationEntry) : RsBatsRecoderConfig :=
  mkBatsConfig (ge_shard_count e) (ge_payload_len e) RS_BATS_DEFAULT_BLOCK_DIM.

Lemma gen_config_ok mem e : gen_complete mem e -> bats_config_ok (gen_config e).
Proof.
  intros [H1 H2 H3 H4 H5 H6].
  split_and!; cbn; try lia; unfold RS_BATS_DEFAULT_BLOCK_DIM, GEN_CACHE_MAX_SHARD_COUNT; lia.
Qed.

Lemma recode_generation_ok mem e O t0 t1 stats g :
  gen_complete mem e -> table_ok g -> rows_ok (gen_config e) O ->
  exists O', rs_bats_recode_generation_identity mem true t0 t1 (Some (gen_config e)) (Some e) (Some (map Some O)) stats g =
      Some (0, Some (map Some O'), stats_recoded (u64 (t1 - t0)) stats, gf_mul_table_init g) /\
    length O' = length (ge_slots e) /\
    forall i, (i < length (ge_slots e))%nat ->
      take (Z.to_nat (ge_payload_len e)) (row_of O' i) = take (Z.to_nat (ge_payload_len e)) (row_of (payload_rows mem e) i) /\
      length (row_of O' i) = length (row_of O i).
Proof.
  intros He Hg HO. pose proof He as [H1 H2 H3 H4 H5 H6].
  pose proof (gen_config_ok mem e He) as Hc.
  assert (HM : rows_ok (gen_config e) (payload_rows mem e)).
  { split; cbn; [unfold payload_rows; by rewrite length_map|]. unfold payload_rows. rewrite list.Forall_fmap.
    eapply list.Forall_impl; [exact H6|]. cbn. intros s (_ & _ & G3 & G4). unfold WIRE_HEADER_SIZE in *. rewrite length_drop. lia. }
  unfold rs_bats_recode_generation_identity. rewrite bats_config_valid_ok by done. cbn [negb bc_shard_count bc_payload_len gen_config].
  rewrite !Z.eqb_refl. cbn [negb orb]. rewrite payload_rows_ok by done. fold (gen_config e).
  destruct (rs_bats_recode_identity_ok (gen_config e) _ O g Hc Hg HM HO) as (O' & -> & L & W). cbn in L, W.
  rewrite Z.eqb_refl. cbn [negb default]. exists O'. rewrite <- H5 in L, W. split; [|split; [done|]].
  - replace (forallb _ _) with true; [done|]. symmetry. apply forallb_forall. intros [a b] Hab.
    apply list_elem_of_In, list_elem_of_lookup in Hab as [i Hi]. rewrite lookup_zip_with_Some in Hi.
    destruct Hi as (x & y & [= -> ->] & Hx & Hy).
    change (map Some O' !! i = Some y) in Hy. rewrite list_lookup_fmap in Hx, Hy.
    destruct (payload_rows mem e !! i) as [p|] eqn:Ep; [|done]. destruct (O' !! i) as [o|] eqn:Eo; [|done].
    injection Hx as <-. injection Hy as <-. cbn. apply bool_decide_eq_true_2.
    pose proof (lookup_lt_Some _ _ _ Eo) as Hlt. rewrite L in Hlt. destruct (W i Hlt) as [_ Hw].
    unfold row_of in Hw. rewrite !nth_lookup, Ep, Eo in Hw. by cbn in Hw.
  - intros i Hi. destruct (W i Hi). done.
Qed.
