(* ===== verification/Recode.v ===== *)
(** * Transit hooks of the relay: src/apps/wire_relay/recode.c

    The per-datagram transforms, and the hook that holds the datagrams of a generation back until
    it is complete and then sends it recoded.  Datagrams are byte strings; [mem] is what the
    cached buffers hold.  The emit callback gets the address and the bytes of a datagram and works
    on a context type; allocations and clock readings are arguments. *)

From Stdlib Require Import Strings.Byte.
From S2P Require Import Prelude WireHeader Gf256 ByteVec GenerationCache RsBats.

Local Open Scope Z_scope.

(** ** Datagram transforms *)

Definition payload_bounds_ok (datagram_len : nat) (hdr : option WireHeader) : bool :=
  match hdr with
  | None => false
  | Some h =>
      if (datagram_len <? WIRE_HEADER_SIZE)%nat then false
      else if negb (wh_type h =? WIRE_TYPE_DATA)
      then (wh_payload_len h =? 0) && (datagram_len =? WIRE_HEADER_SIZE)%nat
      else (wh_payload_len h >? 0) && (wh_payload_len h =? Z.of_nat (datagram_len - WIRE_HEADER_SIZE))
  end.

(** [memcpy(out, in, in_len)]; nothing when [in == out], which holds the same bytes already. *)
Definition copy_in (in_ out : list byte) : list byte := in_ ++ drop (length in_) out.

(** The result, the output buffer and the length stored through [out_len].  [out] is a buffer of
    [out_cap] bytes. *)
Definition relay_recode_identity (in_ out : option (list byte)) (has_len : bool) :
    Z * option (list byte) * option nat :=
  match in_, out, has_len with
  | Some i, Some o, true =>
      if (length o <? length i)%nat then (-1, out, None) else (0, Some (copy_in i o), Some (length i))
  | _, _, _ => (-1, out, None)
  end.

(** [payload_len] bytes behind the header are changed by [f]. *)
Definition map_payload (f : Z -> Z) (payload_len : nat) (d : list byte) : list byte :=
  take WIRE_HEADER_SIZE d ++
  map (fun b => Z_to_byte (u8 (f (byte_to_Z b)))) (take payload_len (drop WIRE_HEADER_SIZE d)) ++
  drop (WIRE_HEADER_SIZE + payload_len) d.

Definition relay_recode_payload_add1 (in_ out : option (list byte)) (has_len : bool)
    (hdr : option WireHeader) : Z * option (list byte) * option nat :=
  match in_, out, has_len with
  | Some i, Some o, true =>
      if (length o <? length i)%nat || negb (payload_bounds_ok (length i) hdr) then (-1, out, None)
      else
        let o := copy_in i o in
        match hdr with
        | Some h =>
            (0, Some (if wh_type h =? WIRE_TYPE_DATA
                      then map_payload (fun z => z + 1) (Z.to_nat (wh_payload_len h)) o else o),
             Some (length i))
        | None => (-1, out, None)
        end
  | _, _, _ => (-1, out, None)
  end.

(** [len] bytes of the datagram, changed in place. *)
Definition relay_egress_payload_sub1 (datagram : option (list byte)) (hdr : option WireHeader) :
    Z * option (list byte) :=
  match datagram, hdr with
  | Some d, Some h =>
      if negb (payload_bounds_ok (length d) hdr) then (-1, datagram)
      else (0, Some (if wh_type h =? WIRE_TYPE_DATA
                     then map_payload (fun z => z - 1) (Z.to_nat (wh_payload_len h)) d else d))
  | _, _ => (-1, datagram)
  end.

(** ** The recoder's context *)

Inductive RelayDecodeReencodeAction :=
| RELAY_DECODE_REENCODE_OPAQUE | RELAY_DECODE_REENCODE_HOLD | RELAY_DECODE_REENCODE_EMIT.

#[export] Instance RelayDecodeReencodeAction_eq_dec : EqDecision RelayDecodeReencodeAction.
Proof. solve_decision. Defined.

Definition RS_BATS_EMITTED_RING : nat := 64.

Record RelayRsBatsEmittedKey := mkEmitted { ek_flow_id : Z; ek_block_id : Z; ek_valid : bool }.

Record RelayRsBatsRecoderCtx := mkBatsCtx {
  bx_stats : RsBatsRecoderStats;
  bx_emitted : list RelayRsBatsEmittedKey;
  bx_emitted_next : Z }.

Definition bats_stats_zero : RsBatsRecoderStats := mkBatsStats 0 0 0 0 0 0.

Definition relay_rs_bats_recoder_ctx_create (alloc : bool) : option RelayRsBatsRecoderCtx :=
  if alloc then Some (mkBatsCtx bats_stats_zero (replicate RS_BATS_EMITTED_RING (mkEmitted 0 0 false)) 0) else None.

Definition relay_rs_bats_recoder_stats (ctx : option RelayRsBatsRecoderCtx) : option RsBatsRecoderStats :=
  option_map bx_stats ctx.

Definition with_stats (f : RsBatsRecoderStats -> RsBatsRecoderStats) (x : RelayRsBatsRecoderCtx) :
    RelayRsBatsRecoderCtx := mkBatsCtx (f (bx_stats x)) (bx_emitted x) (bx_emitted_next x).
Definition count_hold (s : RsBatsRecoderStats) : RsBatsRecoderStats :=
  mkBatsStats (bs_generations_recoded s) (bs_recode_body_ns s) (bs_recode_mismatch s)
    (u64 (bs_hold_packets s + 1)) (bs_emit_datagrams s) (bs_emit_fail s).
Definition count_emit (s : RsBatsRecoderStats) : RsBatsRecoderStats :=
  mkBatsStats (bs_generations_recoded s) (bs_recode_body_ns s) (bs_recode_mismatch s)
    (bs_hold_packets s) (u64 (bs_emit_datagrams s + 1)) (bs_emit_fail s).
Definition count_fail (s : RsBatsRecoderStats) : RsBatsRecoderStats :=
  mkBatsStats (bs_generations_recoded s) (bs_recode_body_ns s) (bs_recode_mismatch s)
    (bs_hold_packets s) (bs_emit_datagrams s) (u64 (bs_emit_fail s + 1)).

Definition bats_already_emitted (x : RelayRsBatsRecoderCtx) (flow_id block_id : Z) : bool :=
  existsb (fun k => ek_valid k && (ek_flow_id k =? flow_id) && (ek_block_id k =? block_id)) (bx_emitted x).

Definition bats_mark_emitted (flow_id block_id : Z) (x : RelayRsBatsRecoderCtx) : RelayRsBatsRecoderCtx :=
  let idx := Z.to_nat (bx_emitted_next x mod Z.of_nat RS_BATS_EMITTED_RING) in
  mkBatsCtx (bx_stats x) (<[idx := mkEmitted flow_id block_id true]> (bx_emitted x)) (u64 (bx_emitted_next x + 1)).

(** ** The hook *)

Section Hook.
Context (mem : Z -> list byte) {C : Type} (emit_fn : Z -> list byte -> C -> Z * C).

Abbreviation Outcome := (RelayDecodeReencodeAction * RelayRsBatsRecoderCtx * C)%type.

(** The cached datagram of a slot. *)
Definition cached (slot : GenerationSlot) : list byte := take (Z.to_nat (gs_len slot)) (mem (gs_copy slot)).

Definition hold (x : RelayRsBatsRecoderCtx) (c : C) : Outcome :=
  (RELAY_DECODE_REENCODE_HOLD, with_stats count_hold x, c).

(** The loop that sends the cached copies. *)
Fixpoint emit_cached (gen : GenerationEntry) (shards : list nat) (x : RelayRsBatsRecoderCtx) (c : C) :
    option Outcome :=
  match shards with
  | [] => Some (RELAY_DECODE_REENCODE_EMIT, bats_mark_emitted (ge_flow_id gen) (ge_block_id gen) x, c)
  | shard :: shards =>
      match ge_slots gen !! shard with
      | None => None
      | Some slot =>
          if negb (gs_present slot) || (gs_copy slot =? 0) then Some (hold x c)
          else
            let '(rc, c) := emit_fn (gs_copy slot) (cached slot) c in
            if negb (rc =? 0) then Some (hold (with_stats count_fail x) c)
            else emit_cached gen shards (with_stats count_emit x) c
      end
  end.

(** A failure while the recoded datagrams are sent: the generation counts as sent once a datagram
    of it is out. *)
Definition stop_recoded (gen : GenerationEntry) (shard : nat) (x : RelayRsBatsRecoderCtx) (c : C) : Outcome :=
  let x := with_stats count_fail x in
  if (0 <? shard)%nat
  then (RELAY_DECODE_REENCODE_EMIT, bats_mark_emitted (ge_flow_id gen) (ge_block_id gen) x, c)
  else hold x c.

(** The loop that sends the recoded datagrams; [alloc_tmp] is what [malloc] returns for the copy
    of a shard. *)
Fixpoint emit_recoded (alloc_tmp : nat -> Z) (gen : GenerationEntry) (payload_len : nat) (out_rows : Rows)
    (shards : list nat) (x : RelayRsBatsRecoderCtx) (c : C) : option Outcome :=
  match shards with
  | [] => Some (RELAY_DECODE_REENCODE_EMIT, bats_mark_emitted (ge_flow_id gen) (ge_block_id gen) x, c)
  | shard :: shards =>
      match ge_slots gen !! shard with
      | None => None
      | Some slot =>
          if negb (gs_present slot) || (gs_copy slot =? 0) ||
             (gs_len slot <? Z.of_nat (WIRE_HEADER_SIZE + payload_len))
          then Some (stop_recoded gen shard x c)
          else if alloc_tmp shard =? 0 then Some (stop_recoded gen shard x c)
          else
            match out_rows !! shard ≫= row_read 0 payload_len with
            | None => None
            | Some row =>
                let tmp := take WIRE_HEADER_SIZE (cached slot) ++ row ++
                           drop (WIRE_HEADER_SIZE + payload_len) (cached slot) in
                let '(rc, c) := emit_fn (alloc_tmp shard) tmp c in
                if negb (rc =? 0) then Some (stop_recoded gen shard x c)
                else emit_recoded alloc_tmp gen payload_len out_rows shards (with_stats count_emit x) c
            end
      end
  end.

(** [alloc_rows] says whether the output rows, [alloc_pad] whether the block buffers are allocated;
    [fresh] is what the rows hold before they are written. *)
Definition bats_emit_generation (alloc_rows alloc_pad : bool) (alloc_tmp : nat -> Z) (fresh : nat -> list byte)
    (t0 t1 : Z) (gen : GenerationEntry) (x : RelayRsBatsRecoderCtx) (g : GfTable) (c : C) :
    option (Outcome * GfTable) :=
  let n := ge_shard_count gen in
  let shards := seq 0 (Z.to_nat n) in
  let defaults := rs_bats_recoder_config_defaults n in
  let cfg := mkBatsConfig (bc_shard_count defaults) (ge_payload_len gen) (bc_block_dim defaults) in
  match (if alloc_rows
         then rs_bats_recode_generation_identity mem alloc_pad t0 t1 (Some cfg) (Some gen)
                (Some (map (fun i => Some (fresh i)) shards)) (bx_stats x) g
         else Some (-1, None, bx_stats x, g)) with
  | None => None
  | Some (rc, out_rows, stats, g) =>
      let x := with_stats (fun _ => stats) x in
      option_map (fun o => (o, g))
        (if negb (rc =? 0) then emit_cached gen shards x c
         else emit_recoded alloc_tmp gen (Z.to_nat (bc_payload_len cfg)) (default [] out_rows) shards x c)
  end.

Definition relay_rs_bats_identity_decode_reencode (has_emit alloc_rows alloc_pad : bool)
    (alloc_tmp : nat -> Z) (fresh : nat -> list byte) (t0 t1 : Z) (hdr : option WireHeader)
    (gen : option GenerationEntry) (insert_status : GenerationInsertStatus)
    (ctx : option RelayRsBatsRecoderCtx) (g : GfTable) (c : C) :
    option (RelayDecodeReencodeAction * option RelayRsBatsRecoderCtx * C * GfTable) :=
  let opaque := Some (RELAY_DECODE_REENCODE_OPAQUE, ctx, c, g) in
  match ctx, hdr with
  | Some x, Some h =>
      if negb (wh_type h =? WIRE_TYPE_DATA) then opaque
      else
        match insert_status, gen with
        | GEN_INSERT_OK, Some e | GEN_INSERT_DUPLICATE, Some e =>
            if bats_already_emitted x (ge_flow_id e) (ge_block_id e) ||
               negb (bool_decide (ge_state e = GEN_READY))
            then Some (RELAY_DECODE_REENCODE_HOLD, Some (with_stats count_hold x), c, g)
            else if negb has_emit then opaque
            else
              match bats_emit_generation alloc_rows alloc_pad alloc_tmp fresh t0 t1 e x g c with
              | Some (action, x, c, g) => Some (action, Some x, c, g)
              | None => None
              end
        | _, _ => opaque
        end
  | _, _ => opaque
  end.

Definition relay_decode_reencode_stub : RelayDecodeReencodeAction := RELAY_DECODE_REENCODE_OPAQUE.

End Hook.
