(* ===== verification/RecodeSpec.v ===== *)
(** * What the transit hooks do

    Adding one to the payload bytes at the ingress and subtracting one at the egress restores a
    datagram; a complete generation leaves the recoder once, as it came. *)

From Stdlib Require Import Strings.Byte.
From S2P Require Import Prelude WireHeader Gf256 ByteVec GenerationCache RsBats Recode.

Local Open Scope Z_scope.

(** ** Datagram transforms *)

Lemma length_map_payload f p d :
  (WIRE_HEADER_SIZE + p <= length d)%nat -> length (map_payload f p d) = length d.
Proof.
  intros H. unfold map_payload. rewrite !length_app, length_map, !length_take, !length_drop. lia.
Qed.

Lemma byte_shift b : Z_to_byte (u8 (byte_to_Z (Z_to_byte (u8 (byte_to_Z b + 1))) - 1)) = b.
Proof.
  apply byte_to_Z_inj. pose proof (byte_to_Z_range b) as Hb. unfold is_byte, in_range in Hb.
  assert (Hr : forall z, is_byte (u8 z)) by (intros z; apply uwrap_range; lia).
  rewrite !byte_to_Z_to_byte by apply Hr. unfold u8, uwrap. change (2 ^ 8) with 256 in *.
  rewrite Zminus_mod_idemp_l. replace (byte_to_Z b + 1 - 1) with (byte_to_Z b) by lia. by apply Z.mod_small.
Qed.

Lemma map_payload_back p d :
  (WIRE_HEADER_SIZE + p <= length d)%nat ->
  map_payload (fun z => z - 1) p (map_payload (fun z => z + 1) p d) = d.
Proof.
  intros H. set (a := take WIRE_HEADER_SIZE d).
  set (b := map (fun x => Z_to_byte (u8 (byte_to_Z x + 1))) (take p (drop WIRE_HEADER_SIZE d))).
  set (e := drop (WIRE_HEADER_SIZE + p) d).
  change (map_payload (fun z => z + 1) p d) with (a ++ b ++ e).
  assert (Ha : length a = WIRE_HEADER_SIZE) by (unfold a; rewrite length_take; lia).
  assert (Hb : length b = p) by (unfold b; rewrite length_map, length_take, length_drop; lia).
  unfold map_payload. rewrite (take_app_length' a), (drop_app_length' a), (take_app_length' b) by done.
  rewrite (app_assoc a b e), (drop_app_length' (a ++ b)) by (rewrite length_app; lia). unfold b. rewrite map_map.
  rewrite (map_ext _ id) by (intros x; apply byte_shift). rewrite map_id. unfold a, e.
  rewrite <- drop_drop, take_drop, take_drop. done.
Qed.

(** The transform of the copy is the copy of the transform. *)
Lemma shift_copy f p d out :
  length d = (WIRE_HEADER_SIZE + p)%nat ->
  map_payload f p (copy_in d out) = map_payload f p d ++ drop (length d) out.
Proof.
  intros Hd. unfold map_payload, copy_in. rewrite take_app_le, drop_app_le by lia.
  rewrite (take_app_le (drop WIRE_HEADER_SIZE d)) by (rewrite length_drop; lia).
  rewrite <- Hd, drop_app_length, drop_all, app_nil_r, <- app_assoc. done.
Qed.

(** ** What the callback is offered *)

Section Offer.
Context {C : Type} (emit_fn : Z -> list byte -> C -> Z * C).

(** The context after the datagrams, each with its address, were offered one by one. *)
Definition offered (ds : list (Z * list byte)) (c : C) : C := foldl (fun c d => snd (emit_fn (fst d) (snd d) c)) c ds.

(** How many of them are taken before the first that is refused. *)
Fixpoint taken (ds : list (Z * list byte)) (c : C) : nat :=
  match ds with
  | [] => 0
  | d :: ds => let '(rc, c) := emit_fn (fst d) (snd d) c in if rc =? 0 then S (taken ds c) else 0
  end.

Lemma offered_app l1 l2 c : offered (l1 ++ l2) c = offered l2 (offered l1 c).
Proof using Type. apply foldl_app. Qed.

Lemma taken_le ds c : (taken ds c <= length ds)%nat.
Proof using Type.
  revert c. induction ds as [|d ds IH]; intros c; [done|]. cbn. destruct (emit_fn _ _ c) as [rc c']. case_match; [|lia].
  specialize (IH c'). lia.
Qed.

End Offer.

(** ** The loops *)

Lemma already_with_stats f x i b : bats_already_emitted (with_stats f x) i b = bats_already_emitted x i b.
Proof. done. Qed.

Lemma mod64_lt z : (Z.to_nat (z mod Z.of_nat RS_BATS_EMITTED_RING) < RS_BATS_EMITTED_RING)%nat.
Proof. unfold RS_BATS_EMITTED_RING. pose proof (Z.mod_pos_bound z 64 ltac:(lia)). lia. Qed.

Lemma already_mark i b x :
  length (bx_emitted x) = RS_BATS_EMITTED_RING -> bats_already_emitted (bats_mark_emitted i b x) i b = true.
Proof.
  intros Hl. unfold bats_already_emitted. apply existsb_exists. exists (mkEmitted i b true). cbn. rewrite !Z.eqb_refl.
  split; [|done]. apply list_elem_of_In, list_elem_of_lookup_2 with (Z.to_nat (bx_emitted_next x mod Z.of_nat RS_BATS_EMITTED_RING)).
  apply list_lookup_insert_eq. rewrite Hl. apply mod64_lt.
Qed.

Section Loops.
Context (mem : Z -> list byte) {C : Type} (emit_fn : Z -> list byte -> C -> Z * C) (gen : GenerationEntry).

Abbreviation marked := (bats_mark_emitted (ge_flow_id gen) (ge_block_id gen)).

(** The slot of shard [i] is held and its datagram is [d]. *)
Definition holds (i : nat) (d : Z * list byte) : Prop :=
  exists slot, ge_slots gen !! i = Some slot /\ gs_present slot = true /\ gs_copy slot <> 0 /\
    (gs_copy slot, cached mem slot) = d.

Lemma emit_cached_run l ds x c :
  Forall2 holds l ds ->
  exists f, emit_cached mem emit_fn gen l x c =
    Some (if decide (taken emit_fn ds c = length ds)
          then (RELAY_DECODE_REENCODE_EMIT, marked (with_stats f x), offered emit_fn ds c)
          else (RELAY_DECODE_REENCODE_HOLD, with_stats f x, offered emit_fn (take (S (taken emit_fn ds c)) ds) c)).
Proof using Type.
  intros H. revert x c. induction H as [|i d l ds (slot & E & Hp & Hc & Hd) Hl IH]; intros x c.
  - exists id. by destruct x.
  - cbn [emit_cached taken length]. rewrite <- Hd, E, Hp, (proj2 (Z.eqb_neq _ _) Hc). cbn [negb orb fst snd].
    destruct (emit_fn _ _ c) as [rc c'] eqn:Ec. destruct (Z.eqb_spec rc 0) as [->|Hr]; cbn [negb].
    + destruct (IH (with_stats count_emit x) c') as [f ->]. exists (fun s => f (count_emit s)). f_equal.
      repeat case_decide; try lia; cbn [take offered foldl fst snd]; rewrite Ec; done.
    + exists (fun s => count_hold (count_fail s)). rewrite decide_False by lia. cbn. by rewrite Ec.
Qed.

(** Shard [i] is sent as [d] by the loop over the recoded rows. *)
Definition recoded_as (alloc_tmp : nat -> Z) (P : nat) (rows : Rows) (i : nat) (d : Z * list byte) : Prop :=
  exists slot row, ge_slots gen !! i = Some slot /\ gs_present slot = true /\ gs_copy slot <> 0 /\
    Z.of_nat (WIRE_HEADER_SIZE + P) <= gs_len slot /\ rows !! i ≫= row_read 0 P = Some row /\
    (alloc_tmp i, take WIRE_HEADER_SIZE (cached mem slot) ++ row ++ drop (WIRE_HEADER_SIZE + P) (cached mem slot)) = d.

Lemma emit_recoded_run alloc_tmp P rows l ds x c :
  Forall2 (recoded_as alloc_tmp P rows) l ds ->
  exists f m (sent : bool), (m <= length ds)%nat /\
    emit_recoded mem emit_fn alloc_tmp gen P rows l x c =
      Some (if sent then (RELAY_DECODE_REENCODE_EMIT, marked (with_stats f x), offered emit_fn (take m ds) c)
            else (RELAY_DECODE_REENCODE_HOLD, with_stats f x, offered emit_fn (take m ds) c)) /\
    (Forall (fun i => alloc_tmp i <> 0) l -> taken emit_fn ds c = length ds -> sent = true /\ m = length ds) /\
    (sent = false -> In 0%nat l) /\
    (sent = false -> Forall (fun i => 0 < i)%nat (tail l) -> (m <= 1)%nat /\ (m = 1%nat -> taken emit_fn ds c = 0%nat)).
Proof using Type.
  intros H. revert x c. induction H as [|i d l ds (slot & row & E & Hp & Hc & Hn & Hr & Hd) Hl IH]; intros x c.
  - exists id, 0%nat, true. destruct x. split_and!; done.
  - cbn [emit_recoded taken length]. rewrite E, Hp, (proj2 (Z.eqb_neq _ _) Hc), (proj2 (Z.ltb_ge _ _) Hn). cbn [negb orb].
    destruct (Z.eqb_spec (alloc_tmp i) 0) as [Ea|Ea].
    { unfold stop_recoded. destruct (Nat.ltb_spec 0 i).
      - exists count_fail, 0%nat, true. split_and!; try done; [lia|].
        intros Ht. apply list.Forall_cons in Ht as [Ht _]. congruence.
      - exists (fun s => count_hold (count_fail s)), 0%nat, false. split_and!; try done; [lia| |intros _; left; lia|intros; lia].
        intros Ht. apply list.Forall_cons in Ht as [Ht _]. congruence. }
    rewrite Hr, <- Hd. cbn [fst snd]. destruct (emit_fn _ _ c) as [rc c'] eqn:Ec. destruct (Z.eqb_spec rc 0) as [->|Hrc]; cbn [negb].
    + destruct (IH (with_stats count_emit x) c') as (f & m & sent & Hm & -> & G1 & G2 & G3).
      exists (fun s => f (count_emit s)), (S m), sent. split_and!.
      * lia.
      * cbn [take offered foldl fst snd]. rewrite Ec. done.
      * intros Ht Hk. apply list.Forall_cons in Ht as [_ Ht]. destruct (G1 Ht ltac:(lia)) as [-> ->]. done.
      * intros Hs. right. by apply G2.
      * intros Hs Hpos. specialize (G2 Hs). rewrite list.Forall_forall in Hpos. specialize (Hpos 0%nat). cbn [tail] in Hpos.
        rewrite list_elem_of_In in Hpos. specialize (Hpos G2). lia.
    + unfold stop_recoded. destruct (Nat.ltb_spec 0 i).
      * exists count_fail, 1%nat, true. split_and!; try done; [lia|cbn [take offered foldl fst snd]; by rewrite Ec].
      * exists (fun s => count_hold (count_fail s)), 1%nat, false.
        split_and!; try done; [lia|cbn [take offered foldl fst snd]; by rewrite Ec|intros _; left; lia].
Qed.

End Loops.

(** ** A complete generation *)

Section Whole.
Context (mem : Z -> list byte) {C : Type} (emit_fn : Z -> list byte -> C -> Z * C).

(** The datagrams of a generation, as they came. *)
Definition datagrams (e : GenerationEntry) : list (list byte) := map (cached mem) (ge_slots e).

Lemma length_datagrams e : gen_complete mem e -> length (datagrams e) = Z.to_nat (ge_shard_count e).
Proof using Type. intros H. unfold datagrams. rewrite length_map. apply (gn_slots _ _ H). Qed.

Lemma slot_complete e i d :
  gen_complete mem e -> datagrams e !! i = Some d ->
  exists slot, ge_slots e !! i = Some slot /\ gs_present slot = true /\ gs_copy slot <> 0 /\ cached mem slot = d /\
    gs_len slot = Z.of_nat (length d) /\
    Z.of_nat WIRE_HEADER_SIZE + ge_payload_len e <= gs_len slot.
Proof using Type.
  intros He Hd. unfold datagrams in Hd. rewrite list_lookup_fmap in Hd.
  destruct (ge_slots e !! i) as [slot|] eqn:Es; [|done]. cbn in Hd. injection Hd as <-.
  destruct (proj1 (list.Forall_lookup _ _) (gn_held _ _ He) i slot Es) as (G1 & G2 & G3 & G4).
  pose proof (gn_payload _ _ He). exists slot. split_and!; try done. unfold cached. rewrite length_take. lia.
Qed.

(** What the hook offers: the cached buffers themselves, or the copies it makes. *)
Definition packets (recoded : bool) (alloc_tmp : nat -> Z) (e : GenerationEntry) : list (Z * list byte) :=
  zip (if recoded then map alloc_tmp (seq 0 (length (ge_slots e))) else gs_copy <$> ge_slots e) (datagrams e).

Lemma packets_bytes recoded alloc_tmp e : (packets recoded alloc_tmp e).*2 = datagrams e.
Proof using Type.
  unfold packets. apply snd_zip. unfold datagrams. rewrite length_map. destruct recoded; [by rewrite length_map, length_seq|].
  by rewrite length_fmap.
Qed.

Lemma length_packets recoded alloc_tmp e : length (packets recoded alloc_tmp e) = length (datagrams e).
Proof using Type. by rewrite <- (packets_bytes recoded alloc_tmp e), length_fmap. Qed.

Lemma shards_of (recoded : bool) alloc_tmp e (R : nat -> Z * list byte -> Prop) :
  gen_complete mem e ->
  (forall i slot d, ge_slots e !! i = Some slot -> datagrams e !! i = Some d ->
    R i (if recoded then alloc_tmp i else gs_copy slot, d)) ->
  Forall2 R (seq 0 (Z.to_nat (ge_shard_count e))) (packets recoded alloc_tmp e).
Proof using Type.
  intros He HR. apply Forall2_same_length_lookup_2; [by rewrite length_seq, length_packets, length_datagrams|].
  intros i j [p d] Hj Hd. apply lookup_seq in Hj as [-> Hi]. unfold packets in Hd. rewrite lookup_zip_with_Some in Hd.
  destruct Hd as (p' & d' & [= -> ->] & Hp & Hd). rewrite Nat.add_0_l in *.
  destruct (lookup_lt_is_Some_2 (ge_slots e) i) as [slot Es]; [by rewrite (gn_slots _ _ He)|].
  specialize (HR i slot d' Es Hd). destruct recoded.
  - rewrite list_lookup_fmap in Hp. destruct (seq 0 _ !! i) as [k|] eqn:Ek; [|done]. apply lookup_seq in Ek as [-> _].
    cbn in Hp. by injection Hp as <-.
  - rewrite list_lookup_fmap, Es in Hp. cbn in Hp. by injection Hp as <-.
Qed.

Lemma holds_complete alloc_tmp e :
  gen_complete mem e ->
  Forall2 (holds mem e) (seq 0 (Z.to_nat (ge_shard_count e))) (packets false alloc_tmp e).
Proof using Type.
  intros He. apply shards_of; [done|]. intros i slot d Es Hd.
  destruct (slot_complete e i d He Hd) as (s & Es' & ? & ? & Hcd & _). rewrite Es in Es'. injection Es' as <-.
  exists slot. by rewrite Hcd.
Qed.

(** Rows that start with the payloads put every datagram together again. *)
Lemma recoded_complete alloc_tmp e O :
  gen_complete mem e -> length O = length (ge_slots e) ->
  (forall i, (i < length (ge_slots e))%nat ->
    take (Z.to_nat (ge_payload_len e)) (row_of O i) = take (Z.to_nat (ge_payload_len e)) (row_of (payload_rows mem e) i) /\
    (Z.to_nat (ge_payload_len e) <= length (row_of O i))%nat) ->
  Forall2 (recoded_as mem e alloc_tmp (Z.to_nat (ge_payload_len e)) (map Some O)) (seq 0 (Z.to_nat (ge_shard_count e)))
    (packets true alloc_tmp e).
Proof using Type.
  intros He HO HW. apply shards_of; [done|]. intros i s' d _ Hd.
  destruct (slot_complete e i d He Hd) as (s & Es & Hp & Hc & Hcd & Hl & Hn).
  pose proof (lookup_lt_Some _ _ _ Es) as Hi. destruct (HW i Hi) as [Ht Hlen].
  destruct (lookup_lt_is_Some_2 O i ltac:(lia)) as [o Eo]. unfold row_of in Ht, Hlen.
  rewrite nth_lookup, Eo in Hlen. rewrite !nth_lookup, Eo in Ht. unfold payload_rows in Ht. rewrite list_lookup_fmap, Es in Ht.
  cbn in Ht, Hlen. pose proof (gn_payload _ _ He) as HP.
  assert (Hpay : take (Z.to_nat (ge_payload_len e)) (drop WIRE_HEADER_SIZE d) = take (Z.to_nat (ge_payload_len e)) o).
  { rewrite Ht, <- Hcd. unfold cached. rewrite skipn_firstn_comm, take_take. f_equal. unfold WIRE_HEADER_SIZE in *. lia. }
  exists s, (take (Z.to_nat (ge_payload_len e)) o). split_and!; try done; [lia| |].
  - rewrite list_lookup_fmap, Eo. cbn. by rewrite (proj2 (Nat.leb_le _ _) Hlen).
  - by rewrite Hcd, <- Hpay, <- drop_drop, take_drop, take_drop.
Qed.

(** Without memory the recoder gives up and leaves the statistics alone. *)
Lemma recode_generation_no_mem e O t0 t1 stats g :
  gen_complete mem e -> rows_ok (gen_config e) O ->
  rs_bats_recode_generation_identity mem false t0 t1 (Some (gen_config e)) (Some e) (Some (map Some O)) stats g =
    Some (-1, Some (map Some O), stats, gf_mul_table_init g).
Proof using Type.
  intros He [HO1 HO2]. pose proof (gen_config_ok mem e He) as Hc. pose proof (gn_slots _ _ He) as Hs. cbn in HO1.
  unfold rs_bats_recode_generation_identity. rewrite bats_config_valid_ok by done. cbn [negb bc_shard_count bc_payload_len gen_config].
  rewrite !Z.eqb_refl. cbn [negb orb]. rewrite payload_rows_ok by done. fold (gen_config e).
  unfold rs_bats_recode_identity. rewrite bats_config_valid_ok by done. cbn [negb].
  unfold rs_bats_recode. rewrite bats_config_valid_ok by done. cbn [negb].
  destruct Hc as (Hn & _ & _). cbn in Hn.
  replace (rs_bats_recoder_block_dim (Some (gen_config e))) with (ge_shard_count e); cycle 1.
  { cbn. by rewrite (proj2 (Z.ltb_ge _ _)) by lia. }
  rewrite (proj2 (Z.ltb_ge (ge_shard_count e) 1)) by lia. cbn [bc_shard_count gen_config].
  rewrite !length_map, length_identity. unfold payload_rows. rewrite length_map, HO1, Hs, !(proj2 (Nat.ltb_ge _ _)); cycle 1.
  { unfold GEN_CACHE_MAX_SHARD_COUNT in *. assert (Z.to_nat (ge_shard_count e) <= 256)%nat by lia. nia. }
  { done. }
  cbn [orb]. rewrite !take_ge by (rewrite ?length_map; lia). by rewrite !no_null.
Qed.

(** What one call does with a complete generation: a prefix of its datagrams is offered, as they
    came and in their order; the action is EMIT exactly when the generation is then marked.  A
    recoded generation is held back only when none of its datagrams is out. *)
Definition sends (recoded : bool) (alloc_tmp : nat -> Z) (e : GenerationEntry) (x : RelayRsBatsRecoderCtx) (c : C)
    (r : option (RelayDecodeReencodeAction * RelayRsBatsRecoderCtx * C * GfTable)) : Prop :=
  let ds := packets recoded alloc_tmp e in
  exists f m (sent : bool) g', table_ok g' /\ (m <= length ds)%nat /\
    r = Some ((if sent then RELAY_DECODE_REENCODE_EMIT else RELAY_DECODE_REENCODE_HOLD,
               if sent then bats_mark_emitted (ge_flow_id e) (ge_block_id e) (with_stats f x) else with_stats f x,
               offered emit_fn (take m ds) c), g') /\
    ((forall i, alloc_tmp i <> 0) -> taken emit_fn ds c = length ds -> sent = true /\ m = length ds) /\
    if recoded
    then sent = false -> (m <= 1)%nat /\ (m = 1%nat -> taken emit_fn ds c = 0%nat)
    else sent = bool_decide (taken emit_fn ds c = length ds) /\ (sent = false -> m = S (taken emit_fn ds c)).

Lemma cached_sends alloc_tmp e x c g :
  gen_complete mem e -> table_ok g ->
  sends false alloc_tmp e x c (option_map (fun o => (o, g))
    (emit_cached mem emit_fn e (seq 0 (Z.to_nat (ge_shard_count e))) (with_stats (fun _ => bx_stats x) x) c)).
Proof using Type.
  intros He Hg. set (ds := packets false alloc_tmp e).
  destruct (emit_cached_run mem emit_fn e _ ds (with_stats (fun _ => bx_stats x) x) c (holds_complete alloc_tmp e He)) as [f ->].
  pose proof (taken_le emit_fn ds c) as Hle. cbn [option_map]. unfold sends. fold ds.
  case_decide as Hd; [exists (fun _ => f (bx_stats x)), (length ds), true, g|
                      exists (fun _ => f (bx_stats x)), (S (taken emit_fn ds c)), false, g];
    split_and!; try done; try lia; [by rewrite firstn_all|by rewrite bool_decide_eq_true_2|by rewrite bool_decide_eq_false_2].
Qed.

Lemma recoded_sends alloc_tmp O stats e x c g :
  gen_complete mem e -> table_ok g -> length O = length (ge_slots e) ->
  (forall i, (i < length (ge_slots e))%nat ->
    take (Z.to_nat (ge_payload_len e)) (row_of O i) = take (Z.to_nat (ge_payload_len e)) (row_of (payload_rows mem e) i) /\
    (Z.to_nat (ge_payload_len e) <= length (row_of O i))%nat) ->
  sends true alloc_tmp e x c (option_map (fun o => (o, g))
    (emit_recoded mem emit_fn alloc_tmp e (Z.to_nat (ge_payload_len e)) (map Some O)
       (seq 0 (Z.to_nat (ge_shard_count e))) (with_stats (fun _ => stats) x) c)).
Proof using Type.
  intros He Hg L W. destruct (emit_recoded_run mem emit_fn e alloc_tmp _ _ _ _ (with_stats (fun _ => stats) x) c
    (recoded_complete alloc_tmp e O He L W)) as (f & m & sent & Hm & -> & G1 & _ & G3).
  exists (fun _ => f stats), m, sent, g. split_and!; try done; [by destruct sent| |].
  - intros Ha. apply G1. apply list.Forall_forall. auto.
  - intros Hs. apply G3; [done|]. destruct (Z.to_nat (ge_shard_count e)); [done|]. cbn [seq tail].
    apply list.Forall_forall. intros i Hi. apply elem_of_seq in Hi. lia.
Qed.

Lemma emit_generation_ok alloc_rows alloc_pad alloc_tmp fresh t0 t1 e x g c :
  gen_complete mem e -> table_ok g -> (forall i, length (fresh i) = Z.to_nat (ge_payload_len e)) ->
  sends (alloc_rows && alloc_pad) alloc_tmp e x c
    (bats_emit_generation mem emit_fn alloc_rows alloc_pad alloc_tmp fresh t0 t1 e x g c).
Proof using Type.
  intros He Hg Hf. unfold bats_emit_generation. cbn [rs_bats_recoder_config_defaults bc_shard_count bc_block_dim bc_payload_len].
  fold (gen_config e). change (bc_payload_len (gen_config e)) with (ge_payload_len e).
  rewrite <- (map_map fresh Some). set (O := map fresh (seq 0 (Z.to_nat (ge_shard_count e)))).
  assert (HO : rows_ok (gen_config e) O).
  { split; [unfold O; by rewrite length_map, length_seq|]. apply list.Forall_fmap, list.Forall_forall. intros i _. cbn. rewrite Hf. lia. }
  destruct alloc_rows; [|by apply cached_sends]. destruct alloc_pad; cbn [andb].
  - destruct (recode_generation_ok mem e O t0 t1 (bx_stats x) g He Hg HO) as (O' & -> & L & W). cbn [negb Z.eqb default].
    apply recoded_sends; [done|apply table_init_ok, Hg|done|]. intros i Hi. destruct (W i Hi) as [W1 W2]. split; [done|].
    rewrite W2. apply (rows_ok_at (gen_config e)); [done|]. cbn. by rewrite <- (gn_slots _ _ He).
  - rewrite recode_generation_no_mem by done. cbn [negb Z.eqb]. apply cached_sends; [done|apply table_init_ok, Hg].
Qed.

End Whole.

(** ** Any ready generation

    A generation that is ready need not have datagrams as long as its headers say: then the hook
    sends the cached ones. *)

Record gen_ready (mem : Z -> list byte) (e : GenerationEntry) : Prop := {
  gr_state : ge_state e = GEN_READY;
  gr_shards : 0 < ge_shard_count e <= GEN_CACHE_MAX_SHARD_COUNT;
  gr_payload : 0 <= ge_payload_len e < 2 ^ 16;
  gr_count : ge_shard_count e <= ge_present_count e;
  gr_slots : length (ge_slots e) = Z.to_nat (ge_shard_count e);
  gr_held : Forall (fun s => gs_present s = true /\ gs_copy s <> 0 /\
      gs_len s <= Z.of_nat (length (mem (gs_copy s)))) (ge_slots e) }.

Section Ready.
Context (mem : Z -> list byte) {C : Type} (emit_fn : Z -> list byte -> C -> Z * C).

(** Every datagram is as long as its header says. *)
Definition long_enough (e : GenerationEntry) : Prop :=
  2 <= ge_shard_count e /\ 1 <= ge_payload_len e /\
  Forall (fun s => Z.of_nat WIRE_HEADER_SIZE + ge_payload_len e <= gs_len s) (ge_slots e).

#[global] Instance long_enough_dec e : Decision (long_enough e).
Proof. unfold long_enough. apply _. Defined.

Lemma ready_complete e : gen_ready mem e -> long_enough e -> gen_complete mem e.
Proof using Type.
  intros [H1 H2 H3 H4 H5 H6] (L1 & L2 & L3). split; try done; try lia. rewrite list.Forall_forall in *.
  intros s Hs. destruct (H6 s Hs) as (? & ? & ?). specialize (L3 s Hs). done.
Qed.

Lemma short_rows e :
  gen_ready mem e -> ~ Forall (fun s => Z.of_nat WIRE_HEADER_SIZE + ge_payload_len e <= gs_len s) (ge_slots e) ->
  rs_bats_generation_payload_rows mem (Some e) = Some None.
Proof using Type.
  intros [H1 H2 H3 H4 H5 H6] Hn. unfold rs_bats_generation_payload_rows.
  destruct (_ || _); [done|]. rewrite (proj2 (Z.ltb_ge _ _)) by lia.
  apply not_Forall_Exists in Hn; [|apply _]. apply list.Exists_exists in Hn as (s & Hin & Hs). unfold compose in Hs. cbv beta in Hs.
  apply list_elem_of_lookup in Hin as [i Hi].
  rewrite (mapM_total _ (fun j => default None (slot_payload mem e j))).
  - rewrite (proj2 (mapM_None id _)); [done|].
    apply list.Exists_exists. exists None. split; [|done]. apply list_elem_of_fmap. exists i. unfold slot_payload. rewrite Hi.
    split; [|apply elem_of_seq; apply lookup_lt_Some in Hi; lia]. rewrite (proj2 (Z.ltb_lt _ _)) by (unfold WIRE_HEADER_SIZE in *; lia).
    by rewrite orb_true_r.
  - intros j Hj. apply elem_of_seq in Hj. unfold slot_payload.
    destruct (lookup_lt_is_Some_2 (ge_slots e) j ltac:(lia)) as [sj ->]. by destruct (_ || _).
Qed.

Lemma short_refused e alloc t0 t1 outs stats g :
  gen_ready mem e -> ~ long_enough e ->
  rs_bats_recode_generation_identity mem alloc t0 t1 (Some (gen_config e)) (Some e) (Some outs) stats g =
    Some (-1, Some outs, stats, g).
Proof using Type.
  intros He Hn. unfold rs_bats_recode_generation_identity, bats_config_valid. cbn [gen_config bc_shard_count bc_payload_len bc_block_dim].
  destruct (Z.ltb_spec (ge_shard_count e) 2); [done|]. destruct (Z.ltb_spec (ge_payload_len e) 1); [done|]. cbn [orb].
  destruct (_ >? _); [done|]. destruct (_ && _); [done|]. cbn [negb]. rewrite !Z.eqb_refl. cbn [negb orb].
  rewrite short_rows; [done|done|]. intros Hf. apply Hn. done.
Qed.

(** A prefix of the datagrams is offered, whatever they are and whatever fails. *)
Lemma emit_generation_any alloc_rows alloc_pad alloc_tmp fresh t0 t1 e x g c :
  gen_ready mem e -> table_ok g -> (forall i, length (fresh i) = Z.to_nat (ge_payload_len e)) ->
  exists recoded f m (sent : bool) g', table_ok g' /\
    bats_emit_generation mem emit_fn alloc_rows alloc_pad alloc_tmp fresh t0 t1 e x g c =
      Some ((if sent then RELAY_DECODE_REENCODE_EMIT else RELAY_DECODE_REENCODE_HOLD,
             if sent then bats_mark_emitted (ge_flow_id e) (ge_block_id e) (with_stats f x) else with_stats f x,
             offered emit_fn (take m (packets mem recoded alloc_tmp e)) c), g').
Proof using Type.
  intros He Hg Hf. destruct (decide (long_enough e)) as [Hl|Hl].
  { destruct (emit_generation_ok mem emit_fn alloc_rows alloc_pad alloc_tmp fresh t0 t1 e x g c (ready_complete e He Hl) Hg Hf)
      as (f & m & sent & g' & Hg' & _ & E & _). by eexists _, f, m, sent, g'. }
  unfold bats_emit_generation. cbn [rs_bats_recoder_config_defaults bc_shard_count bc_block_dim bc_payload_len].
  fold (gen_config e).
  assert (Hr : (if alloc_rows then rs_bats_recode_generation_identity mem alloc_pad t0 t1 (Some (gen_config e)) (Some e)
      (Some (map (fun i => Some (fresh i)) (seq 0 (Z.to_nat (ge_shard_count e))))) (bx_stats x) g
    else Some (-1, None, bx_stats x, g)) = Some (-1, if alloc_rows then Some (map (fun i => Some (fresh i)) (seq 0 (Z.to_nat (ge_shard_count e)))) else None, bx_stats x, g)).
  { destruct alloc_rows; [|done]. by rewrite short_refused. }
  rewrite Hr. cbn [negb Z.eqb]. set (ds := packets mem false alloc_tmp e).
  assert (Hh : Forall2 (holds mem e) (seq 0 (Z.to_nat (ge_shard_count e))) ds).
  { apply Forall2_same_length_lookup_2.
    - rewrite length_seq. unfold ds. rewrite length_packets. unfold datagrams. by rewrite length_map, (gr_slots _ _ He).
    - intros i j d Hj Hd. apply lookup_seq in Hj as [-> Hi]. unfold ds, packets, datagrams in Hd.
      rewrite lookup_zip_with_Some in Hd. destruct Hd as (p & b & -> & Hp & Hb). rewrite Nat.add_0_l in *.
      rewrite list_lookup_fmap in Hp. change ((cached mem <$> ge_slots e) !! i = Some b) in Hb. rewrite list_lookup_fmap in Hb.
      destruct (ge_slots e !! i) as [s|] eqn:Es; [|done]. cbn in Hp, Hb. injection Hp as <-. injection Hb as <-.
      destruct (proj1 (list.Forall_lookup _ _) (gr_held _ _ He) i s Es) as (? & ? & ?). by exists s. }
  destruct (emit_cached_run mem emit_fn e _ ds (with_stats (fun _ => bx_stats x) x) c Hh) as [f ->]. cbn [option_map].
  case_decide.
  - exists false, (fun _ => f (bx_stats x)), (length ds), true, g. split; [done|]. unfold ds. by rewrite firstn_all.
  - by exists false, (fun _ => f (bx_stats x)), (S (taken emit_fn ds c)), false, g.
Qed.

End Ready.

(** * Sequences of calls of the recoder's hook

    What any call, whatever its arguments, does to the ring of generations that were sent. *)

(** ** One call *)

(** A call marks the generation it was given when it answers EMIT, and no other. *)
Definition ring_step (action : RelayDecodeReencodeAction) (e : option GenerationEntry)
    (x x' : RelayRsBatsRecoderCtx) : Prop :=
  if decide (action = RELAY_DECODE_REENCODE_EMIT)
  then exists f gen, e = Some gen /\ x' = bats_mark_emitted (ge_flow_id gen) (ge_block_id gen) (with_stats f x)
  else exists f, x' = with_stats f x.

Section Step.
Context (mem : Z -> list byte) {C : Type} (emit_fn : Z -> list byte -> C -> Z * C).

Lemma ring_step_stats a e f x x' : ring_step a e (with_stats f x) x' -> ring_step a e x x'.
Proof using Type.
  unfold ring_step. case_decide.
  - intros (h & gen & -> & ->). by exists (fun s => h (f s)), gen.
  - intros (h & ->). by exists (fun s => h (f s)).
Qed.

Lemma ring_step_hold e f x : ring_step RELAY_DECODE_REENCODE_HOLD e x (with_stats f x).
Proof using Type. by exists f. Qed.

Lemma ring_step_mark e f x :
  ring_step RELAY_DECODE_REENCODE_EMIT (Some e) x (bats_mark_emitted (ge_flow_id e) (ge_block_id e) (with_stats f x)).
Proof using Type. by exists f, e. Qed.

Lemma ring_step_mark_id e x :
  ring_step RELAY_DECODE_REENCODE_EMIT (Some e) x (bats_mark_emitted (ge_flow_id e) (ge_block_id e) x).
Proof using Type. exists id, e. by destruct x. Qed.

Hint Resolve ring_step_hold ring_step_mark ring_step_mark_id ring_step_stats : core.

Lemma emit_cached_ring e l x c a x' c' :
  emit_cached mem emit_fn e l x c = Some (a, x', c') -> ring_step a (Some e) x x'.
Proof using Type.
  revert x c. induction l as [|i l IH]; intros x c; cbn; [intros [= <- <- <-]; auto|].
  destruct (ge_slots e !! i) as [slot|]; [|done]. case_match; [intros [= <- <- <-]; auto|].
  destruct (emit_fn _ (cached mem slot) c) as [rc c1]. case_match; [intros [= <- <- <-]; eauto|]. intros H2.
  eapply ring_step_stats, IH, H2.
Qed.

Lemma stop_recoded_ring e i x (c : C) a x' c' : stop_recoded e i x c = (a, x', c') -> ring_step a (Some e) x x'.
Proof using Type. unfold stop_recoded. case_match; intros [= <- <- <-]; eauto. Qed.

Lemma emit_recoded_ring alloc_tmp e P rows l x c a x' c' :
  emit_recoded mem emit_fn alloc_tmp e P rows l x c = Some (a, x', c') -> ring_step a (Some e) x x'.
Proof using Type.
  revert x c. induction l as [|i l IH]; intros x c; cbn; [intros [= <- <- <-]; auto|].
  destruct (ge_slots e !! i) as [slot|]; [|done]. case_match; [intros [= Hq]; by apply stop_recoded_ring in Hq|].
  case_match; [intros [= Hq]; by apply stop_recoded_ring in Hq|]. case_match; [|done].
  destruct (emit_fn _ _ c) as [rc c1]. case_match; [intros [= Hq]; by apply stop_recoded_ring in Hq|]. intros Hq.
  eapply ring_step_stats, IH, Hq.
Qed.

Lemma emit_generation_ring ar ap at_ fresh t0 t1 e x g c a x' c' g' :
  bats_emit_generation mem emit_fn ar ap at_ fresh t0 t1 e x g c = Some (a, x', c', g') -> ring_step a (Some e) x x'.
Proof using Type.
  unfold bats_emit_generation. destruct (if ar then _ else _) as [[[[rc rows] stats] g1]|]; [|done]. case_match.
  - destruct (emit_cached _ _ _ _ _ _) as [o|] eqn:E; [|done]. cbn. intros [= -> ->].
    eapply ring_step_stats, emit_cached_ring, E.
  - destruct (emit_recoded _ _ _ _ _ _ _ _ _) as [o|] eqn:E; [|done]. cbn. intros [= -> ->].
    eapply ring_step_stats, emit_recoded_ring, E.
Qed.

End Step.

(** ** The calls and their order *)

(** The arguments of a call; [hk_mem] is what the cached buffers hold at that time. *)
Record HookCall := mkHookCall {
  hk_mem : Z -> list byte;
  hk_has_emit : bool;
  hk_alloc_rows : bool;
  hk_alloc_pad : bool;
  hk_alloc_tmp : nat -> Z;
  hk_fresh : nat -> list byte;
  hk_t0 : Z;
  hk_t1 : Z;
  hk_hdr : option WireHeader;
  hk_gen : option GenerationEntry;
  hk_status : GenerationInsertStatus }.

Section Run.
Context {C : Type} (emit_fn : Z -> list byte -> C -> Z * C).

Abbreviation HookState := (RelayRsBatsRecoderCtx * C * GfTable)%type.

Definition hook_call (k : HookCall) (s : HookState) : option (RelayDecodeReencodeAction * HookState) :=
  let '(x, c, g) := s in
  match relay_rs_bats_identity_decode_reencode (hk_mem k) emit_fn (hk_has_emit k) (hk_alloc_rows k) (hk_alloc_pad k)
          (hk_alloc_tmp k) (hk_fresh k) (hk_t0 k) (hk_t1 k) (hk_hdr k) (hk_gen k) (hk_status k) (Some x) g c with
  | Some (a, Some x, c, g) => Some (a, (x, c, g))
  | _ => None
  end.

(** The actions of a sequence of calls. *)
Fixpoint hook_run (ks : list HookCall) (s : HookState) : option (list RelayDecodeReencodeAction * HookState) :=
  match ks with
  | [] => Some ([], s)
  | k :: ks =>
      match hook_call k s with
      | None => None
      | Some (a, s) => match hook_run ks s with Some (acts, s) => Some (a :: acts, s) | None => None end
      end
  end.

Lemma hook_call_ring k s a s' : hook_call k s = Some (a, s') -> ring_step a (hk_gen k) (fst (fst s)) (fst (fst s')).
Proof using Type.
  destruct s as [[x c] g]. unfold hook_call, relay_rs_bats_identity_decode_reencode. cbn [fst].
  assert (Hop : ring_step RELAY_DECODE_REENCODE_OPAQUE (hk_gen k) x x) by (exists id; by destruct x).
  destruct (hk_hdr k) as [h|]; [|by intros [= <- <-]].
  destruct (negb (wh_type h =? WIRE_TYPE_DATA)); [by intros [= <- <-]|].
  destruct (hk_gen k) as [e|]; [|destruct (hk_status k); by intros [= <- <-]].
  assert (Hgo : match
      (if bats_already_emitted x (ge_flow_id e) (ge_block_id e) || negb (bool_decide (ge_state e = GEN_READY))
       then Some (RELAY_DECODE_REENCODE_HOLD, Some (with_stats count_hold x), c, g)
       else if negb (hk_has_emit k) then Some (RELAY_DECODE_REENCODE_OPAQUE, Some x, c, g)
       else match bats_emit_generation (hk_mem k) emit_fn (hk_alloc_rows k) (hk_alloc_pad k) (hk_alloc_tmp k) (hk_fresh k)
                    (hk_t0 k) (hk_t1 k) e x g c with
            | Some (action, x, c, g) => Some (action, Some x, c, g) | None => None end) with
    | Some (a, Some x, c, g) => Some (a, (x, c, g)) | _ => None end = Some (a, s') -> ring_step a (Some e) x s'.1.1).
  { clear Hop. destruct (_ || _); [intros [= <- <-]; apply ring_step_hold|].
    destruct (negb _); [intros [= <- <-]; exists id; by destruct x|].
    destruct (bats_emit_generation _ _ _ _ _ _ _ _ _ _ _ _) as [[[[a1 x1] c1] g1]|] eqn:E; [|done].
    intros [= <- <-]. by eapply emit_generation_ring. }
  destruct (hk_status k); try done; by intros [= <- <-].
Qed.

(** The generation a call was made for is one to send. *)
Record sendable (k : HookCall) (h : WireHeader) (e : GenerationEntry) : Prop := {
  sd_hdr : hk_hdr k = Some h;
  sd_data : wh_type h = WIRE_TYPE_DATA;
  sd_gen : hk_gen k = Some e;
  sd_status : hk_status k = GEN_INSERT_OK \/ hk_status k = GEN_INSERT_DUPLICATE }.

Lemma hook_call_ready k h e x c g :
  sendable k h e -> hk_has_emit k = true -> ge_state e = GEN_READY ->
  bats_already_emitted x (ge_flow_id e) (ge_block_id e) = false ->
  hook_call k (x, c, g) =
    match bats_emit_generation (hk_mem k) emit_fn (hk_alloc_rows k) (hk_alloc_pad k) (hk_alloc_tmp k) (hk_fresh k)
            (hk_t0 k) (hk_t1 k) e x g c with
    | Some (a, x, c, g) => Some (a, (x, c, g)) | None => None end.
Proof using Type.
  intros [Hh Ht Hk Hst] Hem He Ha. unfold hook_call, relay_rs_bats_identity_decode_reencode.
  rewrite Hh, Ht, Hk, Ha, Hem, (bool_decide_eq_true_2 _ He), Z.eqb_refl. cbn [negb orb].
  destruct Hst as [-> | ->]; by destruct (bats_emit_generation _ _ _ _ _ _ _ _ _ _ _ _) as [[[[a1 x1] c1] g1]|].
Qed.

Lemma hook_call_sent k h e x c g :
  sendable k h e -> bats_already_emitted x (ge_flow_id e) (ge_block_id e) = true ->
  hook_call k (x, c, g) = Some (RELAY_DECODE_REENCODE_HOLD, (with_stats count_hold x, c, g)).
Proof using Type.
  intros [Hh Ht Hk Hst] Ha. unfold hook_call, relay_rs_bats_identity_decode_reencode.
  rewrite Hh, Ht, Hk, Ha, Z.eqb_refl. cbn [negb orb]. by destruct Hst as [-> | ->].
Qed.

End Run.

(** ** The ring *)

Definition ring_ok (x : RelayRsBatsRecoderCtx) : Prop :=
  length (bx_emitted x) = RS_BATS_EMITTED_RING /\ 0 <= bx_emitted_next x < 2 ^ 64.

(** The generation was marked [j] marks ago. *)
Definition marked_ago (j : Z) (i b : Z) (x : RelayRsBatsRecoderCtx) : Prop :=
  bx_emitted x !! Z.to_nat ((bx_emitted_next x - 1 - j) mod Z.of_nat RS_BATS_EMITTED_RING) = Some (mkEmitted i b true).

Lemma ring_ok_mark i b x : ring_ok x -> ring_ok (bats_mark_emitted i b x).
Proof.
  intros [H1 H2]. split; cbn; [by rewrite length_insert|]. apply uwrap_range. lia.
Qed.

Lemma next_mod x k : (u64 (bx_emitted_next x + 1) - k) mod 64 = (bx_emitted_next x + 1 - k) mod 64.
Proof.
  unfold u64, uwrap. rewrite (Zminus_mod (_ mod _)), Z.mod_mod_divide by (by exists (2 ^ 58)).
  by rewrite <- Zminus_mod.
Qed.

Lemma mark_ago_0 i b x : ring_ok x -> marked_ago 0 i b (bats_mark_emitted i b x).
Proof.
  intros [H1 H2]. unfold marked_ago, bats_mark_emitted. cbn [bx_emitted bx_emitted_next].
  change (Z.of_nat RS_BATS_EMITTED_RING) with 64. rewrite <- Z.sub_add_distr, next_mod.
  replace (bx_emitted_next x + 1 - (1 + 0)) with (bx_emitted_next x) by lia.
  apply list_lookup_insert_eq. rewrite H1. apply (mod64_lt (bx_emitted_next x)).
Qed.

Lemma mark_ago_S j i b i' b' x :
  ring_ok x -> 0 <= j < 63 -> marked_ago j i b x -> marked_ago (j + 1) i b (bats_mark_emitted i' b' x).
Proof.
  intros [H1 H2] Hj. unfold marked_ago, bats_mark_emitted. cbn [bx_emitted bx_emitted_next].
  change (Z.of_nat RS_BATS_EMITTED_RING) with 64. rewrite <- (Z.sub_add_distr (u64 _)), next_mod.
  replace (bx_emitted_next x + 1 - (1 + (j + 1))) with (bx_emitted_next x - 1 - j) by lia.
  intros H. rewrite list_lookup_insert_ne; [done|]. intros E.
  pose proof (Z.mod_pos_bound (bx_emitted_next x) 64 ltac:(lia)). pose proof (Z.mod_pos_bound (bx_emitted_next x - 1 - j) 64 ltac:(lia)).
  apply Z2Nat.inj in E; [|lia|lia].
  pose proof (Z.div_mod (bx_emitted_next x) 64 ltac:(lia)). pose proof (Z.div_mod (bx_emitted_next x - 1 - j) 64 ltac:(lia)). lia.
Qed.

Lemma marked_already j i b x : marked_ago j i b x -> bats_already_emitted x i b = true.
Proof.
  intros H. unfold bats_already_emitted. apply existsb_exists. exists (mkEmitted i b true). cbn. rewrite !Z.eqb_refl.
  split; [|done]. by apply list_elem_of_In, (list_elem_of_lookup_2 _ _ _ H).
Qed.

Lemma ring_step_ok a e x x' : ring_step a e x x' -> ring_ok x -> ring_ok x'.
Proof.
  unfold ring_step. case_decide; [intros (f & gen & _ & ->) Hx; by apply ring_ok_mark|by intros (f & ->)].
Qed.

(** How many of the actions are EMIT. *)
Definition emits (acts : list RelayDecodeReencodeAction) : nat :=
  length (filter (fun a => a = RELAY_DECODE_REENCODE_EMIT) acts).

(** A mark survives sixty-three others. *)
Lemma hook_run_remembers {C} (emit_fn : Z -> list byte -> C -> Z * C) ks s acts s' j i b :
  hook_run emit_fn ks s = Some (acts, s') -> ring_ok s.1.1 -> 0 <= j -> marked_ago j i b s.1.1 ->
  j + Z.of_nat (emits acts) <= 63 -> bats_already_emitted s'.1.1 i b = true.
Proof.
  revert s j acts. induction ks as [|k ks IH]; intros s j acts; cbn.
  - intros [= <- <-] _ _ H _. by eapply marked_already.
  - destruct (hook_call emit_fn k s) as [[a s1]|] eqn:E; [|done].
    destruct (hook_run emit_fn ks s1) as [[acts1 s2]|] eqn:E2; [|done]. intros [= <- <-] Hr Hj Hm.
    apply hook_call_ring in E. pose proof (ring_step_ok _ _ _ _ E Hr) as Hr1. unfold ring_step in E.
    unfold emits. rewrite filter_cons. case_decide as Ha; cbn [length]; fold (emits acts1).
    + destruct E as (f & gen & _ & E). rewrite E in *. intros Hle.
      assert (Hm' : marked_ago j i b (with_stats f s.1.1)) by exact Hm.
      eapply (IH s1 (j + 1)); [done| |lia| |lia]; rewrite E; [done|]. apply mark_ago_S; [done|lia|done].
    + destruct E as (f & E). intros Hle. eapply (IH s1 j); [done|done|done| |lia]. rewrite E. exact Hm.
Qed.
