(* ===== verification/RecodeTheorems.v ===== *)
(** * What the transit hooks promise

    The recoder's product, the transform and its inverse, the generation that leaves once. *)

From Stdlib Require Import Strings.Byte.
From S2P Require Import Prelude WireHeader Gf256 ByteVec RsEncode GenerationCache RsBats Recode.
From S2P Require Import RecodeSpec.

Local Open Scope Z_scope.

(** ** The product *)

(** C34: the recoder's loop over padded blocks of columns is the product of the coding matrix with
    the rows over GF(256), whatever the width of the blocks and also where it does not divide the
    payload length: byte [col] of output row [i] is the sum of [R[i][k] * M[k][col]], the bytes
    behind the payload keep what they were, and no buffer is left. *)
Theorem rs_bats_recode_is_product c R M O g :
  bats_config_ok c -> table_ok g -> rows_ok c M -> rows_ok c O ->
  let n := Z.to_nat (bc_shard_count c) in
  (n * n <= length R)%nat ->
  exists O', rs_bats_recode true (Some c) (Some R) (Some (map Some M)) (Some (map Some O)) g =
      Some (0, Some (map Some O'), gf_mul_table_init g) /\ length O' = n /\
    forall i, (i < n)%nat -> length (row_of O' i) = length (row_of O i) /\ forall col,
      get (row_of O' i) col =
        if decide (col < Z.to_nat (bc_payload_len c))%nat
        then gsum n (fun k => gf_mul (get R (i * n + k)) (get (row_of M k) col))
        else get (row_of O i) col.
Proof.
  intros Hc Hg HM HO n HR. destruct (rs_bats_recode_ok c R M O g Hc Hg HM HO HR) as (O' & E & L & W).
  exists O'. split; [exact E|]. split; [exact L|]. intros i Hi. destruct (W i Hi) as [W1 W2]. split; [done|].
  intros col. rewrite W2. repeat case_decide; try lia; done.
Qed.

Lemma rs_bats_recode_is_product_witness :
  exists O', rs_bats_recode true (Some (mkBatsConfig 2 3 2)) (Some [x01; x02; x03; x04])
      (Some (map Some [[x05; x06; x07]; [x80; x90; xa0]])) (Some (map Some [[x00; x00; x00]; [x00; x00; x00]])) gf_table_zero =
    Some (0, Some (map Some O'), gf_mul_table_init gf_table_zero) /\ length O' = 2%nat /\
    forall i, (i < 2)%nat -> length (row_of O' i) = length (row_of [[x00; x00; x00]; [x00; x00; x00]] i) /\ forall col,
      get (row_of O' i) col =
        if decide (col < 3)%nat
        then gsum 2 (fun k => gf_mul (get [x01; x02; x03; x04] (i * 2 + k)) (get (row_of [[x05; x06; x07]; [x80; x90; xa0]] k) col))
        else get (row_of [[x00; x00; x00]; [x00; x00; x00]] i) col.
Proof.
  apply (rs_bats_recode_is_product (mkBatsConfig 2 3 2)).
  - unfold bats_config_ok, GEN_CACHE_MAX_SHARD_COUNT. cbn. lia.
  - apply table_zero_ok.
  - split; [done|]. repeat constructor.
  - split; [done|]. repeat constructor.
  - cbn. lia.
Defined.

(** ** The transform *)

(** A datagram whose length agrees with its header goes through the transform of the ingress,
    which leaves the header alone, and comes back from that of the egress byte for byte, whatever
    the output buffer held; any other datagram is refused by both, and nothing is written. *)
Theorem transit_shift_roundtrip d out h :
  (length d <= length out)%nat ->
  if payload_bounds_ok (length d) (Some h)
  then exists o, relay_recode_payload_add1 (Some d) (Some out) true (Some h) = (0, Some o, Some (length d)) /\
    take WIRE_HEADER_SIZE o = take WIRE_HEADER_SIZE d /\ length o = length out /\
    drop (length d) o = drop (length d) out /\
    relay_egress_payload_sub1 (Some (take (length d) o)) (Some h) = (0, Some d)
  else relay_recode_payload_add1 (Some d) (Some out) true (Some h) = (-1, Some out, None) /\
    relay_egress_payload_sub1 (Some d) (Some h) = (-1, Some d).
Proof.
  intros Hl. unfold relay_recode_payload_add1, relay_egress_payload_sub1.
  rewrite (proj2 (Nat.ltb_ge _ _) Hl). cbn [orb]. destruct (payload_bounds_ok (length d) (Some h)) eqn:Hb; [|done]. cbn [negb].
  assert (Hcopy : length (copy_in d out) = length out) by (unfold copy_in; rewrite length_app, length_drop; lia).
  unfold payload_bounds_ok in Hb. destruct (Nat.ltb_spec (length d) WIRE_HEADER_SIZE); [done|].
  eexists. split; [done|].
  destruct (wh_type h =? WIRE_TYPE_DATA) eqn:Ht; cbn [negb] in Hb; apply andb_prop in Hb as [Hp1 Hp2].
  - apply Z.eqb_eq in Hp2. set (p := Z.to_nat (wh_payload_len h)).
    assert (Hd : length d = (WIRE_HEADER_SIZE + p)%nat) by lia.
    rewrite shift_copy by (done || lia). rewrite (take_app_length' _ _ (length d)) by (rewrite length_map_payload; lia).
    split_and!.
    + unfold map_payload. rewrite <- app_assoc, take_app_length' by (rewrite length_take; lia). done.
    + rewrite length_app, length_drop, length_map_payload by lia. lia.
    + rewrite drop_app_length' by (rewrite length_map_payload; lia). done.
    + rewrite length_map_payload by lia. unfold payload_bounds_ok. rewrite (proj2 (Nat.ltb_ge _ _)), Ht by lia. cbn [negb].
      rewrite Hp1, (proj2 (Z.eqb_eq _ _) Hp2). cbn [andb negb]. by rewrite map_payload_back by lia.
  - unfold copy_in in *. rewrite take_app_length. split_and!; [by rewrite take_app_le|done|by rewrite drop_app_length|].
    unfold payload_bounds_ok. rewrite (proj2 (Nat.ltb_ge _ _)), Ht by lia. cbn [negb]. by rewrite Hp1, Hp2.
Qed.

Definition sample_data : WireHeader := mkWireHeader 3 WIRE_TYPE_DATA 7 3 1 5 0 2 2 2 0 0 0 0 0.

Lemma transit_shift_roundtrip_witness :
  payload_bounds_ok (length (replicate 46 xff)) (Some sample_data) = true /\
  exists o, relay_recode_payload_add1 (Some (replicate 46 xff)) (Some (replicate 60 x00)) true (Some sample_data) = (0, Some o, Some 46%nat) /\
    take WIRE_HEADER_SIZE o = take WIRE_HEADER_SIZE (replicate 46 xff) /\ length o = 60%nat /\
    drop 46 o = drop 46 (replicate 60 x00) /\
    relay_egress_payload_sub1 (Some (take 46 o)) (Some sample_data) = (0, Some (replicate 46 xff)).
Proof.
  split; [reflexivity|]. refine (transit_shift_roundtrip (replicate 46 xff) (replicate 60 x00) sample_data _).
  rewrite !length_replicate. lia.
Defined.

(** A datagram of version 4 is longer than the transforms expect: the relay drops it as malformed. *)
Lemma transit_shift_refuses_v4 d out h :
  wh_version h = WIRE_VERSION_V4 -> Z.of_nat (length d) = Z.of_nat (wire_header_size h) + wh_payload_len h ->
  relay_recode_payload_add1 (Some d) (Some out) true (Some h) = (-1, Some out, None) /\
  relay_egress_payload_sub1 (Some d) (Some h) = (-1, Some d).
Proof.
  intros Hv Hl. unfold wire_header_size in Hl. rewrite Hv in Hl. cbn [Z.eqb WIRE_VERSION_V4 Pos.eqb] in Hl.
  assert (Hb : payload_bounds_ok (length d) (Some h) = false).
  { unfold payload_bounds_ok. unfold WIRE_V4_HEADER_SIZE in Hl. unfold WIRE_HEADER_SIZE.
    destruct (Nat.ltb_spec (length d) 44); [done|]. destruct (negb _).
    - destruct (Z.eqb_spec (wh_payload_len h) 0); [|done]. apply Nat.eqb_neq. lia.
    - apply andb_false_intro2, Z.eqb_neq. lia. }
  unfold relay_recode_payload_add1, relay_egress_payload_sub1. rewrite Hb. by rewrite orb_true_r.
Qed.

(** ** Generations *)

(** C35: a datagram that completes a generation, or comes again while the complete generation is
    not marked as sent, makes the hook offer a prefix of the cached datagrams to the callback, in
    their order and byte for byte, the recoding included, whichever allocations fail; the
    generation is marked exactly when the hook answers EMIT.  When no copy fails to be allocated
    and the callback takes every datagram, the whole generation is offered and the answer is EMIT;
    with the memory for the recoded rows, HOLD means that no datagram of the generation was
    taken. *)
Theorem recoder_sends_generation {C} (emit_fn : Z -> list byte -> C -> Z * C) k x c g h e :
  sendable k h e -> hk_has_emit k = true -> gen_complete (hk_mem k) e ->
  (forall i, length (hk_fresh k i) = Z.to_nat (ge_payload_len e)) ->
  table_ok g -> ring_ok x -> bats_already_emitted x (ge_flow_id e) (ge_block_id e) = false ->
  let ds := packets (hk_mem k) (hk_alloc_rows k && hk_alloc_pad k) (hk_alloc_tmp k) e in
  ds.*2 = datagrams (hk_mem k) e /\
  exists a x' m g', hook_call emit_fn k (x, c, g) = Some (a, (x', offered emit_fn (take m ds) c, g')) /\
    (m <= length ds)%nat /\ table_ok g' /\ ring_ok x' /\
    a = (if bats_already_emitted x' (ge_flow_id e) (ge_block_id e)
         then RELAY_DECODE_REENCODE_EMIT else RELAY_DECODE_REENCODE_HOLD) /\
    ((forall i, hk_alloc_tmp k i <> 0) -> taken emit_fn ds c = length ds ->
      a = RELAY_DECODE_REENCODE_EMIT /\ m = length ds) /\
    (hk_alloc_rows k && hk_alloc_pad k = true -> a = RELAY_DECODE_REENCODE_HOLD ->
      m = 0%nat \/ (m = 1%nat /\ taken emit_fn ds c = 0%nat)).
Proof.
  intros Hk Hem He Hf Hg Hr Ha ds.
  destruct (emit_generation_ok (hk_mem k) emit_fn (hk_alloc_rows k) (hk_alloc_pad k) (hk_alloc_tmp k) (hk_fresh k)
    (hk_t0 k) (hk_t1 k) e x g c He Hg Hf) as (f & m & sent & g' & Hg' & Hm & E & G1 & G2).
  pose proof (hook_call_ready emit_fn k h e x c g Hk Hem (gn_state _ _ He) Ha) as Hcall.
  rewrite E in Hcall. split; [apply packets_bytes|]. eexists _, _, m, g'. split; [exact Hcall|]. split_and!; [done|done| | | |].
  - destruct sent; [by apply ring_ok_mark|done].
  - destruct sent; [by rewrite already_mark by apply Hr|by rewrite already_with_stats, Ha].
  - intros Hx Hy. by destruct (G1 Hx Hy) as [-> ->].
  - intros Hal Hs. unfold ds. rewrite Hal in *. destruct sent; [done|]. destruct (G2 eq_refl) as [G3 G4].
    destruct m as [|[|m]]; [by left|right; auto|lia].
Qed.

(** A generation of two datagrams, cached at addresses 1 and 2. *)
Definition sample_mem (a : Z) : list byte := replicate 44 xaa ++ (if a =? 1 then [x01; x02] else [x03; x04]).
Definition sample_gen : GenerationEntry :=
  mkEntry 1 5 7 WIRE_TYPE_DATA 2 2 2 3 GEN_READY 2 0 0 92 [mkSlot 1 46 true; mkSlot 2 46 true] None None.
Definition sample_call (rows : bool) : HookCall :=
  mkHookCall sample_mem true rows true (fun i => 1000 + Z.of_nat i) (fun _ => [x00; x00]) 0 0 (Some sample_data) (Some sample_gen) GEN_INSERT_OK.
Definition sample_ctx : RelayRsBatsRecoderCtx :=
  default (mkBatsCtx bats_stats_zero [] 0) (relay_rs_bats_recoder_ctx_create true).
(** A callback that keeps what it takes and has room for [fst c] datagrams. *)
Definition sample_emit (p : Z) (d : list byte) (c : nat * list (list byte)) : Z * (nat * list (list byte)) :=
  match c with (S n, l) => (0, (n, l ++ [d])) | _ => (-1, (5%nat, c.2)) end.

Lemma sample_complete : gen_complete sample_mem sample_gen.
Proof.
  split; try done; cbn; unfold GEN_CACHE_MAX_SHARD_COUNT; try lia. repeat constructor; done.
Defined.

Lemma sample_ring : ring_ok sample_ctx.
Proof. split; [reflexivity|]. cbn. lia. Defined.

Lemma sample_sendable rows : sendable (sample_call rows) sample_data sample_gen.
Proof. split; try done. by left. Defined.

Lemma recoder_sends_generation_witness :
  let ds := packets sample_mem true (fun i => 1000 + Z.of_nat i) sample_gen in
  ds.*2 = datagrams sample_mem sample_gen /\
  exists a x' m g', hook_call sample_emit (sample_call true) (sample_ctx, (2%nat, []), gf_table_zero) =
      Some (a, (x', offered sample_emit (take m ds) (2%nat, []), g')) /\
    (m <= 2)%nat /\ table_ok g' /\ ring_ok x' /\
    a = (if bats_already_emitted x' 1 5 then RELAY_DECODE_REENCODE_EMIT else RELAY_DECODE_REENCODE_HOLD) /\
    ((forall i, 1000 + Z.of_nat i <> 0) -> taken sample_emit ds (2%nat, []) = 2%nat ->
      a = RELAY_DECODE_REENCODE_EMIT /\ m = 2%nat) /\
    (true && true = true -> a = RELAY_DECODE_REENCODE_HOLD ->
      m = 0%nat \/ (m = 1%nat /\ taken sample_emit ds (2%nat, []) = 0%nat)).
Proof.
  apply (recoder_sends_generation sample_emit (sample_call true) sample_ctx (2%nat, []) gf_table_zero sample_data sample_gen).
  - apply sample_sendable.
  - reflexivity.
  - apply sample_complete.
  - reflexivity.
  - apply table_zero_ok.
  - apply sample_ring.
  - reflexivity.
Defined.


(** Without memory for the recoded rows the hook sends the cached datagrams, and when the
    callback refuses one of them after it took others it answers HOLD and forgets that those are
    out: the next datagram of the generation makes it offer the whole generation again, so the
    datagrams taken before go out twice. *)
Theorem recoder_fallback_repeats {C} (emit_fn : Z -> list byte -> C -> Z * C) k k' h h' e x c g :
  sendable k h e -> sendable k' h' e -> hk_has_emit k = true -> hk_has_emit k' = true ->
  gen_complete (hk_mem k) e -> hk_mem k' = hk_mem k ->
  (forall i, length (hk_fresh k i) = Z.to_nat (ge_payload_len e)) ->
  (forall i, length (hk_fresh k' i) = Z.to_nat (ge_payload_len e)) ->
  (forall i, hk_alloc_tmp k' i <> 0) -> hk_alloc_rows k = false ->
  table_ok g -> ring_ok x -> bats_already_emitted x (ge_flow_id e) (ge_block_id e) = false ->
  let ds := packets (hk_mem k) false (hk_alloc_tmp k) e in
  let ds' := packets (hk_mem k) (hk_alloc_rows k' && hk_alloc_pad k') (hk_alloc_tmp k') e in
  let m := taken emit_fn ds c in
  let c1 := offered emit_fn (take (S m) ds) c in
  (0 < m < length ds)%nat -> taken emit_fn ds' c1 = length ds' ->
  exists s', hook_run emit_fn [k; k'] (x, c, g) =
      Some ([RELAY_DECODE_REENCODE_HOLD; RELAY_DECODE_REENCODE_EMIT], s') /\
    s'.1.2 = offered emit_fn (take (S m) ds ++ ds') c /\ ds.*2 = ds'.*2.
Proof.
  intros Hk Hk' Hem Hem' He Hmem Hf Hf' Hat Har Hg Hr Ha ds ds' m c1 Hm Hc1.
  destruct (emit_generation_ok (hk_mem k) emit_fn false (hk_alloc_pad k) (hk_alloc_tmp k) (hk_fresh k)
    (hk_t0 k) (hk_t1 k) e x g c He Hg Hf) as (f & m1 & sent & g1 & Hg1 & Hm1 & E & G1 & G2).
  pose proof (hook_call_ready emit_fn k h e x c g Hk Hem (gn_state _ _ He) Ha) as Hcall. rewrite Har, E in Hcall.
  cbn [andb] in *. destruct G2 as [Hs G2]. rewrite bool_decide_eq_false_2 in Hs by (fold ds m; lia).
  subst sent. rewrite (G2 eq_refl) in Hcall. fold ds m c1 in Hcall.
  pose proof (emit_generation_ok (hk_mem k') emit_fn (hk_alloc_rows k') (hk_alloc_pad k') (hk_alloc_tmp k') (hk_fresh k')
    (hk_t0 k') (hk_t1 k') e (with_stats f x) g1 c1) as H2. rewrite Hmem in H2. specialize (H2 He Hg1 Hf').
  destruct H2 as (f2 & m2 & sent & g2 & _ & _ & E2 & G3 & _). destruct (G3 Hat Hc1) as [-> ->].
  pose proof (hook_call_ready emit_fn k' h' e (with_stats f x) c1 g1 Hk' Hem' (gn_state _ _ He) Ha) as Hcall2.
  rewrite Hmem, E2 in Hcall2. cbn [hook_run]. rewrite Hcall, Hcall2. eexists. split; [done|]. cbn [fst snd].
  split; [|unfold ds, ds'; by rewrite !packets_bytes]. rewrite firstn_all. symmetry. apply offered_app.
Qed.

Lemma recoder_fallback_repeats_witness :
  exists s', hook_run sample_emit [sample_call false; sample_call true] (sample_ctx, (1%nat, []), gf_table_zero) =
      Some ([RELAY_DECODE_REENCODE_HOLD; RELAY_DECODE_REENCODE_EMIT], s') /\
    s'.1.2 = offered sample_emit
      (take 2 (packets sample_mem false (fun i => 1000 + Z.of_nat i) sample_gen) ++
       packets sample_mem true (fun i => 1000 + Z.of_nat i) sample_gen) (1%nat, []) /\
    (packets sample_mem false (fun i => 1000 + Z.of_nat i) sample_gen).*2 =
    (packets sample_mem true (fun i => 1000 + Z.of_nat i) sample_gen).*2.
Proof.
  apply (recoder_fallback_repeats sample_emit (sample_call false) (sample_call true) sample_data sample_data sample_gen);
    try apply sample_sendable; try apply sample_complete; try apply table_zero_ok; try apply sample_ring; try reflexivity.
  all: cbn; lia.
Defined.



