(* ===== verification/Relay.v ===== *)
(** * The relay's context: src/apps/wire_relay/relay.c, relay.h, process.h

    What a relay keeps besides the queues, the backlog, the cache and the pool that have files of
    their own: buffers and who may free them, counters, learned return routes, acknowledgements
    for the local source.  A buffer is an address; [rb_mem] holds the bytes that were written to
    it.  A buffer of the slab always exists, any other only between [malloc] and [free]: an access
    to one that does not exist is [None]. *)

From Stdlib Require Import Strings.Byte.
From S2P Require Import Prelude WireHeader Gf256 ByteVec DatagramPool EgressQueue RelayDeferred.
From S2P Require Import GenerationCache RsBats Recode Ring PktQueue.

Local Open Scope Z_scope.

(** ** Constants *)

Definition RELAY_MAX_FLOWS : nat := 8.
Definition RELAY_MAX_DATAGRAM : nat := WIRE_V4_HEADER_SIZE + 2048.
Definition RELAY_ACK_EGRESS_CAPACITY : nat := 1024.
Definition RELAY_ACK_EGRESS_QUOTA : Z := 8.
Definition RELAY_DEFAULT_EGRESS_CAPACITY : nat := 16384.
Definition RELAY_DEFAULT_DEFERRED_PER_FLOW : nat := 4096.
Definition RELAY_DEFAULT_DEFERRED_TOTAL : nat := 32768.
Definition RELAY_DEFAULT_MAX_ACTIVE_FLOWS : nat := 64.
Definition RELAY_RETURN_ROUTE_CAPACITY : nat := RELAY_MAX_FLOWS.
Definition RELAY_SOURCE_ACK_CAPACITY : nat := 16.
Definition WIRE_FLAG_RETURN_PATH : Z := 1.
Definition WIRE_FLAG_ACK_REQUEST : Z := 2.

(** The cast to [int32_t]. *)
Definition s32 (z : Z) : Z := let u := u32 z in if u >=? 2 ^ 31 then u - 2 ^ 32 else u.

Inductive RelayPacketSource := RELAY_SRC_PREVIOUS_NODE | RELAY_SRC_LOCAL_ENCODER.
Inductive RelayProcessMode := RELAY_PROCESS_FORWARD | RELAY_PROCESS_CACHE.
Inductive RelayProcessAction := RELAY_PROCESS_CONTINUE_FORWARD | RELAY_PROCESS_DROP.
Inductive RelayIngressStatus :=
  | RELAY_INGRESS_OK | RELAY_INGRESS_ERR_INVALID | RELAY_INGRESS_ERR_ALLOC | RELAY_INGRESS_ERR_SHUTDOWN
  | RELAY_INGRESS_ERR_LOOPBACK.

#[export] Instance RelayPacketSource_eq_dec : EqDecision RelayPacketSource.
Proof. solve_decision. Defined.
#[export] Instance RelayProcessMode_eq_dec : EqDecision RelayProcessMode.
Proof. solve_decision. Defined.
#[export] Instance RelayProcessAction_eq_dec : EqDecision RelayProcessAction.
Proof. solve_decision. Defined.
#[export] Instance RelayIngressStatus_eq_dec : EqDecision RelayIngressStatus.
Proof. solve_decision. Defined.

(** ** Counters *)

Inductive RelayStat :=
  | rs_rx | rs_forward | rs_local_deliver | rs_drop_ttl | rs_drop_malformed | rs_drop_send | rs_drop_egress_full
  | rs_drop_egress_timeout | rs_drop_deferred_overflow_flow | rs_drop_deferred_overflow_total
  | rs_drop_deferred_table_full | rs_inject_ok | rs_inject_reject_loopback | rs_gen_created | rs_gen_ready
  | rs_gen_timeout | rs_gen_evicted | rs_gen_admission_failed | rs_gen_metadata_mismatch | rs_gen_duplicate
  | rs_forward_data | rs_forward_ack | rs_drop_no_return_hop.

#[export] Instance RelayStat_eq_dec : EqDecision RelayStat.
Proof. solve_decision. Defined.

Definition RelayFlowStats : Type := RelayStat -> Z.

Definition set_stat (st : RelayStat) (v : Z) (f : RelayFlowStats) : RelayFlowStats :=
  fun x => if decide (x = st) then v else f x.
Definition bump_stat (st : RelayStat) (f : RelayFlowStats) : RelayFlowStats := set_stat st (f st +u64 1)%cint f.

(** ** Return routes *)

Record RelayReturnRoute := mkRoute {
  rt_flow_id : Z;
  rt_peer : list Z;
  rt_last_seen_ns : Z;
  rt_valid : bool }.

Definition route_zero : RelayReturnRoute := mkRoute 0 [] 0 false.

(** The loop of [learn_return_route] on [chosen] and [oldest], both slots of the table. *)
Fixpoint scan_routes (flow_id : Z) (i : nat) (rts : list RelayReturnRoute) (chosen : option nat)
    (oldest : option (nat * Z)) : option nat * option (nat * Z) :=
  match rts with
  | [] => (chosen, oldest)
  | r :: rts =>
      if rt_valid r && (rt_flow_id r =? flow_id) then (Some i, oldest)
      else
        let chosen := if negb (rt_valid r) then match chosen with None => Some i | c => c end else chosen in
        let oldest :=
          if rt_valid r && match oldest with None => true | Some (_, t) => rt_last_seen_ns r <? t end
          then Some (i, rt_last_seen_ns r) else oldest in
        scan_routes flow_id (S i) rts chosen oldest
  end.

Definition learn_route (flow_id : Z) (peer : list Z) (now : Z) (rts : list RelayReturnRoute) : list RelayReturnRoute :=
  let '(chosen, oldest) := scan_routes flow_id 0 rts None None in
  match match chosen with Some i => Some i | None => option_map fst oldest end with
  | Some i => <[i := mkRoute flow_id peer now true]> rts
  | None => rts
  end.

Definition lookup_return_route (rts : list RelayReturnRoute) (flow_id : Z) : option (list Z) :=
  option_map rt_peer (List.find (fun r => rt_valid r && (rt_flow_id r =? flow_id)) rts).

(** ** Buffers *)

Record RelayBufs := mkBufs {
  rb_pool : DatagramPool;
  rb_inited : bool;
  rb_mem : gmap Z (list byte) }.

Definition set_pool (p : DatagramPool) (b : RelayBufs) : RelayBufs := mkBufs p (rb_inited b) (rb_mem b).
Definition set_mem (m : gmap Z (list byte)) (b : RelayBufs) : RelayBufs := mkBufs (rb_pool b) (rb_inited b) m.

(** [free(p)] of an address that came from [malloc] and was not freed yet. *)
Definition heap_free (p : Z) (b : RelayBufs) : option RelayBufs :=
  if datagram_pool_contains (rb_pool b) p then None
  else match rb_mem b !! p with Some _ => Some (set_mem (delete p (rb_mem b)) b) | None => None end.
Definition heap_malloc (p : Z) (bs : list byte) (b : RelayBufs) : RelayBufs := set_mem (<[p := bs]> (rb_mem b)) b.

(** What is known of the bytes of a buffer. *)
Definition buf_read (p : Z) (b : RelayBufs) : option (list byte) :=
  match rb_mem b !! p with
  | Some bs => Some bs
  | None => if datagram_pool_contains (rb_pool b) p then Some [] else None
  end.
(** [memcpy] to the front of a buffer. *)
Definition buf_write (p : Z) (bs : list byte) (b : RelayBufs) : option RelayBufs :=
  match buf_read p b with
  | Some old => Some (set_mem (<[p := bs ++ drop (length bs) old]> (rb_mem b)) b)
  | None => None
  end.

Fixpoint heap_free_all (ps : list Z) (b : RelayBufs) : option RelayBufs :=
  match ps with [] => Some b | p :: ps => b ← heap_free p b; heap_free_all ps b end.

(** [malloc] is what a call of [malloc] returns, [None] for NULL. *)
Definition relay_buf_acquire (malloc : option Z) (b : RelayBufs) : option (option Z * RelayBufs) :=
  if rb_inited b then
    '(r, pool) ← datagram_pool_acquire malloc (rb_pool b);
    let b := set_pool pool b in
    Some (r, match r with
             | Some p => if datagram_pool_contains pool p then b else heap_malloc p [] b
             | None => b
             end)
  else Some (malloc, match malloc with Some p => heap_malloc p [] b | None => b end).

Definition relay_buf_release (p : Z) (b : RelayBufs) : option RelayBufs :=
  if p =? 0 then Some b
  else if rb_inited b then
    '(freed, pool) ← datagram_pool_release (rb_pool b) p;
    heap_free_all freed (set_pool pool b)
  else heap_free p b.

(** [relay_packet_free_cb] is the free hook of the queues and the backlog. *)
Fixpoint relay_packet_free_cb (ps : list Z) (b : RelayBufs) : option RelayBufs :=
  match ps with [] => Some b | p :: ps => b ← relay_buf_release p b; relay_packet_free_cb ps b end.

(** [egress] says whether [egress_fn] is set. *)
Definition relay_share_or_copy (egress : bool) (malloc : option Z) (p : Z) (d : list byte) (b : RelayBufs) :
    option (option Z * RelayBufs) :=
  if rb_inited b && negb egress && datagram_pool_contains (rb_pool b) p then
    pool ← datagram_pool_retain (rb_pool b) p; Some (Some p, set_pool pool b)
  else
    '(owned, b) ← relay_buf_acquire malloc b;
    match owned with
    | None => Some (None, b)
    | Some q => b ← buf_write q d b; Some (Some q, b)
    end.

(** What the cache asks of its buffers: [cache_retain_cb], [cache_release_cb], [malloc] with the
    copy of [d], [free]. *)
Definition cache_buf (d : list byte) (ev : buf_event) (b : RelayBufs) : option RelayBufs :=
  match ev with
  | BufMalloc p => Some (heap_malloc p d b)
  | BufRetain p => pool ← datagram_pool_retain (rb_pool b) p; Some (set_pool pool b)
  | BufFree p => heap_free p b
  | BufRelease p => '(freed, pool) ← datagram_pool_release (rb_pool b) p; heap_free_all freed (set_pool pool b)
  end.
Fixpoint cache_bufs (d : list byte) (evs : list buf_event) (b : RelayBufs) : option RelayBufs :=
  match evs with [] => Some b | ev :: evs => b ← cache_buf d ev b; cache_bufs d evs b end.

(** * The relay's datagram path: src/apps/wire_relay/relay.c

    Reception, the decision what happens to a datagram, forwarding and transmission.  A handler
    works on the whole context; what a critical section of [ingress_mu] does is one function, and
    what a thread has in its hands between two of them is a value: a delivery, packets still to
    be enqueued, a packet being sent.  Clock readings, [malloc], the network and the results of
    [sendto] are arguments.  [None] is undefined behaviour. *)

(** ** Configuration and context *)

(** The generation hook: the two functions of recode.c, or none. *)
Inductive RelayDecodeReencodeFn := NO_REENCODE | REENCODE_STUB | REENCODE_BATS.

(** The part of [LocalSourceConfig] the relay reads. *)
Record LocalSourceInfo := mkSourceInfo { ls_wirehair_ack : bool; ls_flow_id : Z }.

Record RelayConfig := mkRelayConfig {
  cf_local_node_id : Z;
  cf_recode_fn : option (list byte -> list byte -> WireHeader -> Z * option (list byte) * option nat);
  cf_egress_fn : option (list byte -> WireHeader -> Z * option (list byte));
  cf_decode_reencode_fn : RelayDecodeReencodeFn;
  cf_delivery_fn : bool;
  cf_local_source : option LocalSourceInfo;
  cf_process_mode : RelayProcessMode;
  cf_process_fn : option (WireHeader -> list byte -> option GenerationEntry -> GenerationInsertStatus -> RelayProcessAction);
  cf_egress_capacity : nat;
  cf_egress_wait_ms : Z;
  cf_deferred_per_flow : nat;
  cf_deferred_total : nat;
  cf_max_active_flows : nat;
  cf_reject_local_encoder_loopback : bool;
  cf_capture : bool;
  cf_gen_timeout_ms : Z;
  cf_max_gens_global : nat;
  cf_max_gens_per_flow : nat;
  cf_max_cache_bytes : Z }.

(** Where a datagram was sent, and its bytes. *)
Record SentDatagram := mkSent { sn_target : list Z; sn_bytes : list byte }.

Record RelayCtx := mkRelay {
  rl_config : RelayConfig;
  rl_bufs : RelayBufs;
  rl_ack_egress : EgressQueue;
  rl_data_egress : EgressQueue;
  rl_egress_dequeuer : EgressFairDequeuer;
  rl_deferred : RelayDeferredHub;
  rl_gen_cache : gst;
  rl_cache_enabled : bool;
  rl_per_flow : list RelayFlowStats;
  rl_total : RelayFlowStats;
  rl_last_activity_ns : Z;
  rl_inject_in_flight : Z;
  rl_stop : bool;
  rl_next_hop : list Z;
  rl_return_hop : option (list Z);
  rl_return_routes : list RelayReturnRoute;
  rl_source_ack : list (Z * Z * bool);
  rl_recoder : RelayRsBatsRecoderCtx;
  rl_gf : GfTable;
  rl_sent : list SentDatagram;
  rl_delivered : list (list byte * WireHeader) }.

Definition R (A : Type) : Type := comp RelayCtx A.

Definition with_bufs (f : RelayBufs -> RelayBufs) (s : RelayCtx) : RelayCtx :=
  mkRelay (rl_config s) (f (rl_bufs s)) (rl_ack_egress s) (rl_data_egress s) (rl_egress_dequeuer s) (rl_deferred s)
    (rl_gen_cache s) (rl_cache_enabled s) (rl_per_flow s) (rl_total s) (rl_last_activity_ns s) (rl_inject_in_flight s)
    (rl_stop s) (rl_next_hop s) (rl_return_hop s) (rl_return_routes s) (rl_source_ack s) (rl_recoder s) (rl_gf s)
    (rl_sent s) (rl_delivered s).
Definition with_egress (ack data : EgressQueue) (d : EgressFairDequeuer) (s : RelayCtx) : RelayCtx :=
  mkRelay (rl_config s) (rl_bufs s) ack data d (rl_deferred s)
    (rl_gen_cache s) (rl_cache_enabled s) (rl_per_flow s) (rl_total s) (rl_last_activity_ns s) (rl_inject_in_flight s)
    (rl_stop s) (rl_next_hop s) (rl_return_hop s) (rl_return_routes s) (rl_source_ack s) (rl_recoder s) (rl_gf s)
    (rl_sent s) (rl_delivered s).
Definition with_deferred (h : RelayDeferredHub) (s : RelayCtx) : RelayCtx :=
  mkRelay (rl_config s) (rl_bufs s) (rl_ack_egress s) (rl_data_egress s) (rl_egress_dequeuer s) h
    (rl_gen_cache s) (rl_cache_enabled s) (rl_per_flow s) (rl_total s) (rl_last_activity_ns s) (rl_inject_in_flight s)
    (rl_stop s) (rl_next_hop s) (rl_return_hop s) (rl_return_routes s) (rl_source_ack s) (rl_recoder s) (rl_gf s)
    (rl_sent s) (rl_delivered s).
Definition with_cache (g : gst) (enabled : bool) (s : RelayCtx) : RelayCtx :=
  mkRelay (rl_config s) (rl_bufs s) (rl_ack_egress s) (rl_data_egress s) (rl_egress_dequeuer s) (rl_deferred s)
    g enabled (rl_per_flow s) (rl_total s) (rl_last_activity_ns s) (rl_inject_in_flight s)
    (rl_stop s) (rl_next_hop s) (rl_return_hop s) (rl_return_routes s) (rl_source_ack s) (rl_recoder s) (rl_gf s)
    (rl_sent s) (rl_delivered s).
Definition with_counts (per_flow : list RelayFlowStats) (total : RelayFlowStats) (s : RelayCtx) : RelayCtx :=
  mkRelay (rl_config s) (rl_bufs s) (rl_ack_egress s) (rl_data_egress s) (rl_egress_dequeuer s) (rl_deferred s)
    (rl_gen_cache s) (rl_cache_enabled s) per_flow total (rl_last_activity_ns s) (rl_inject_in_flight s)
    (rl_stop s) (rl_next_hop s) (rl_return_hop s) (rl_return_routes s) (rl_source_ack s) (rl_recoder s) (rl_gf s)
    (rl_sent s) (rl_delivered s).
Definition with_activity (now : Z) (in_flight : Z) (stop : bool) (s : RelayCtx) : RelayCtx :=
  mkRelay (rl_config s) (rl_bufs s) (rl_ack_egress s) (rl_data_egress s) (rl_egress_dequeuer s) (rl_deferred s)
    (rl_gen_cache s) (rl_cache_enabled s) (rl_per_flow s) (rl_total s) now in_flight
    stop (rl_next_hop s) (rl_return_hop s) (rl_return_routes s) (rl_source_ack s) (rl_recoder s) (rl_gf s)
    (rl_sent s) (rl_delivered s).
Definition with_routes (rts : list RelayReturnRoute) (acks : list (Z * Z * bool)) (s : RelayCtx) : RelayCtx :=
  mkRelay (rl_config s) (rl_bufs s) (rl_ack_egress s) (rl_data_egress s) (rl_egress_dequeuer s) (rl_deferred s)
    (rl_gen_cache s) (rl_cache_enabled s) (rl_per_flow s) (rl_total s) (rl_last_activity_ns s) (rl_inject_in_flight s)
    (rl_stop s) (rl_next_hop s) (rl_return_hop s) rts acks (rl_recoder s) (rl_gf s)
    (rl_sent s) (rl_delivered s).
Definition with_recoder (x : RelayRsBatsRecoderCtx) (g : GfTable) (s : RelayCtx) : RelayCtx :=
  mkRelay (rl_config s) (rl_bufs s) (rl_ack_egress s) (rl_data_egress s) (rl_egress_dequeuer s) (rl_deferred s)
    (rl_gen_cache s) (rl_cache_enabled s) (rl_per_flow s) (rl_total s) (rl_last_activity_ns s) (rl_inject_in_flight s)
    (rl_stop s) (rl_next_hop s) (rl_return_hop s) (rl_return_routes s) (rl_source_ack s) x g
    (rl_sent s) (rl_delivered s).
Definition with_output (sent : list SentDatagram) (delivered : list (list byte * WireHeader)) (s : RelayCtx) : RelayCtx :=
  mkRelay (rl_config s) (rl_bufs s) (rl_ack_egress s) (rl_data_egress s) (rl_egress_dequeuer s) (rl_deferred s)
    (rl_gen_cache s) (rl_cache_enabled s) (rl_per_flow s) (rl_total s) (rl_last_activity_ns s) (rl_inject_in_flight s)
    (rl_stop s) (rl_next_hop s) (rl_return_hop s) (rl_return_routes s) (rl_source_ack s) (rl_recoder s) (rl_gf s)
    sent delivered.

(** A computation on the buffers. *)
Definition bufs {A} (f : RelayBufs -> option (A * RelayBufs)) : R A :=
  fun s => match f (rl_bufs s) with Some (a, b) => Some (a, with_bufs (fun _ => b) s) | None => None end.
Definition release (p : Z) : R unit := bufs (fun b => b ← relay_buf_release p b; Some (tt, b)).

(** The bytes of a datagram. *)
Definition datagram_at (p len : Z) (b : RelayBufs) : option (list byte) :=
  bs ← buf_read p b; Some (take (Z.to_nat len) bs).
Definition read_datagram (p len : Z) : R (list byte) := d ← gets (fun s => datagram_at p len (rl_bufs s)); the d.
Definition write_buf (p : Z) (bs : list byte) : R unit := bufs (fun b => b ← buf_write p bs b; Some (tt, b)).

Definition flow_stats_slot (flow_id : Z) : nat :=
  if flow_id >=? Z.of_nat RELAY_MAX_FLOWS then (RELAY_MAX_FLOWS - 1)%nat else Z.to_nat flow_id.

Definition count_total (st : RelayStat) : R unit :=
  modify (fun s => with_counts (rl_per_flow s) (bump_stat st (rl_total s)) s).
(** [slot->st++; ctx->total.st++] *)
Definition count (slot : nat) (st : RelayStat) : R unit :=
  modify (fun s => with_counts (alter (bump_stat st) slot (rl_per_flow s)) (bump_stat st (rl_total s)) s).

Section Host.
Context `{host : HostOrder}.

Definition header_of (d : list byte) : option WireHeader := wire_header_decode (map byte_to_Z d).
Definition encode_header (h : WireHeader) (d : list byte) : list byte :=
  map Z_to_byte (if wh_version h =? WIRE_VERSION_V4 then wire_header_encode_v4 (map byte_to_Z d) h
                 else wire_header_encode (map byte_to_Z d) h).
Definition dec_ttl (h : WireHeader) : WireHeader :=
  mkWireHeader (wh_version h) (wh_type h) (wh_final_dst h) (u8 (wh_ttl h - 1)) (wh_flow_id h) (wh_block_id h)
    (wh_shard_index h) (wh_shard_count h) (wh_valid_len h) (wh_payload_len h) (wh_encode_begin_ns h)
    (wh_encode_end_ns h) (wh_origin_node h) (wh_flags h) (wh_segment_bytes h).
Definition has_flag (h : WireHeader) (flag : Z) : bool := negb (Z.land (wh_flags h) flag =? 0).
Definition is_v4 (h : WireHeader) : bool := wh_version h =? WIRE_VERSION_V4.
Definition return_ack (h : WireHeader) : bool :=
  is_v4 h && (wh_type h =? WIRE_TYPE_ACK) && has_flag h WIRE_FLAG_RETURN_PATH.

(** ** Return routes *)

Definition learn_return_route (d : list byte) (peer : list Z) (now : Z) : R unit :=
  match header_of d with
  | Some h =>
      if (0 <? length peer)%nat && is_v4 h && negb (has_flag h WIRE_FLAG_RETURN_PATH) && has_flag h WIRE_FLAG_ACK_REQUEST
      then modify (fun s => with_routes (learn_route (wh_flow_id h) peer now (rl_return_routes s)) (rl_source_ack s) s)
      else mret tt
  | None => mret tt
  end.

(** ** The cache *)

Definition sync_cache_stats_to_total : R unit :=
  modify (fun s =>
    if rl_cache_enabled s then
      let gs := generation_cache_stats (g_cache (rl_gen_cache s)) in
      with_counts (rl_per_flow s)
        (set_stat rs_gen_created (st_created gs) (set_stat rs_gen_ready (st_ready gs)
        (set_stat rs_gen_timeout (st_timeout gs) (set_stat rs_gen_evicted (st_evicted gs)
        (set_stat rs_gen_admission_failed (st_admission_failed gs) (set_stat rs_gen_metadata_mismatch (st_mismatch gs)
        (set_stat rs_gen_duplicate (st_duplicate gs) (rl_total s)))))))) s
    else s).

(** A call of the cache, with what it does to buffers; [d] is the datagram it may copy. *)
Definition cache_call {A} (d : list byte) (m : G A) : R A :=
  fun s =>
    let g := rl_gen_cache s in
    match m g with
    | None => None
    | Some (a, g') =>
        match cache_bufs d (drop (length (g_log g)) (g_log g')) (rl_bufs s) with
        | Some b => Some (a, with_bufs (fun _ => b) (with_cache g' (rl_cache_enabled s) s))
        | None => None
        end
    end.

(** ** Forwarding *)

Record ForwardPending := mkPending {
  fp_pkt : EgressPacket;
  fp_slot : nat;
  fp_source : RelayPacketSource;
  fp_ack_lane : bool }.

Definition prepare_forward_pending (slot : nat) (p len : Z) (h : WireHeader) (source : RelayPacketSource) (now : Z) :
    ForwardPending :=
  mkPending (mkEp p len (wh_flow_id h) (wh_block_id h) now [] 0 0) slot source (return_ack h).

Definition set_dest (dest : list Z) (pkt : EgressPacket) : EgressPacket :=
  mkEp (ep_datagram pkt) (ep_len pkt) (ep_flow_id pkt) (ep_generation_id pkt) (ep_enqueue_ns pkt) dest
    (Z.of_nat (length dest)) (ep_prefer_head pkt).

Definition fill_egress_dest (s : RelayCtx) (f : ForwardPending) : ForwardPending :=
  mkPending
    (if fp_ack_lane f then
       match lookup_return_route (rl_return_routes s) (ep_flow_id (fp_pkt f)) with
       | Some peer => set_dest peer (fp_pkt f)
       | None => match rl_return_hop s with Some hop => set_dest hop (fp_pkt f) | None => set_dest [] (fp_pkt f) end
       end
     else set_dest (rl_next_hop s) (fp_pkt f))
    (fp_slot f) (fp_source f) (fp_ack_lane f).

Definition lane (ack : bool) (s : RelayCtx) : EgressQueue := if ack then rl_ack_egress s else rl_data_egress s.
Definition set_lane (ack : bool) (q : EgressQueue) (s : RelayCtx) : RelayCtx :=
  if ack then with_egress q (rl_data_egress s) (rl_egress_dequeuer s) s
  else with_egress (rl_ack_egress s) q (rl_egress_dequeuer s) s.
(** The queue after an enqueue; a non-NULL waiter is notified. *)
Definition enqueued (ack : bool) (q : EgressQueue) (waiter : Z) (s : RelayCtx) : RelayCtx :=
  let s := set_lane ack q s in
  with_egress (rl_ack_egress s) (rl_data_egress s)
    (if waiter =? 0 then rl_egress_dequeuer s else waiter_notify (rl_egress_dequeuer s)) s.

(** What follows the enqueue: the counters, and the buffer if the queue did not take it. *)
Definition forward_done (f : ForwardPending) (timed : bool) (st : EgressStatus) : R unit :=
  match st with
  | EGRESS_OK =>
      if bool_decide (fp_source f = RELAY_SRC_LOCAL_ENCODER) then count (fp_slot f) rs_inject_ok else mret tt
  | _ =>
      (if bool_decide (st = EGRESS_ERR_FULL) && negb timed then count (fp_slot f) rs_drop_egress_full
       else if bool_decide (st = EGRESS_ERR_TIMEOUT) && timed then count (fp_slot f) rs_drop_egress_timeout
       else mret tt);;
      release (ep_datagram (fp_pkt f))
  end.

(** [relay_apply_forward_pending] up to its end, or to the first wait of a timed enqueue: then the
    result is the packet with its destination and the time the wait began. *)
Definition relay_apply_forward_pending (now : Z * Z) (clock : option (Z * Z)) (f : ForwardPending) :
    R (option (ForwardPending * Z)) :=
  f ← gets (fun s => fill_egress_dest s f);
  cfg ← gets rl_config;
  q ← gets (lane (fp_ack_lane f));
  if cf_egress_wait_ms cfg =? 0 then
    let '(st, q, _, w) := egress_queue_try_enqueue q (fp_pkt f) in
    modify (enqueued (fp_ack_lane f) q w);; forward_done f false st;; mret None
  else
    match egress_queue_timed_enqueue now clock q (fp_pkt f) (cf_egress_wait_ms cfg) with
    | inl (st, q, _, w) => modify (enqueued (fp_ack_lane f) q w);; forward_done f true st;; mret None
    | inr (_, start) => mret (Some (f, start))
    end.

(** The return of [pthread_cond_timedwait]. *)
Definition resume_forward_pending (rc : timedwait_rc) (clock : option (Z * Z)) (start : Z) (f : ForwardPending) :
    R (option (ForwardPending * Z)) :=
  q ← gets (lane (fp_ack_lane f));
  match timed_enqueue_resume rc clock start q (fp_pkt f) with
  | inl (st, q, _, w) => modify (enqueued (fp_ack_lane f) q w);; forward_done f true st;; mret None
  | inr _ => mret (Some (f, start))
  end.

(** ** The batch of a recoded generation *)

Record DecodeReencodeEmitBatch := mkBatch { eb_items : list ForwardPending; eb_cap : nat }.

Definition batch_zero : DecodeReencodeEmitBatch := mkBatch [] 0.

(** What a submission reads from its surroundings. *)
Record SubmitEnv := mkEnv {
  en_now : Z;                        (* [relay_mono_ns] *)
  en_enqueue_ns : nat -> Z;          (* the same, when a packet is prepared *)
  en_cache_malloc : option Z;        (* [malloc] and the other allocations of the cache *)
  en_cache_oom : bool;
  en_alloc_rows : bool;              (* allocations of the recoder *)
  en_alloc_pad : bool;
  en_alloc_tmp : nat -> Z;
  en_fresh : nat -> nat -> byte;     (* what new rows hold *)
  en_t0 : Z;
  en_t1 : Z;
  en_grow : nat -> bool;             (* [realloc] of the batch *)
  en_malloc : nat -> option Z }.     (* [malloc] for the copy of an emitted datagram *)

(** [decode_reencode_emit_cb]; [None] once something was undefined.  The copies are numbered. *)
Definition decode_reencode_emit_cb (env : SubmitEnv) (egress : bool) (slot : nat) (source : RelayPacketSource)
    (p : Z) (d : list byte) (c : option (RelayBufs * DecodeReencodeEmitBatch)) :
    Z * option (RelayBufs * DecodeReencodeEmitBatch) :=
  match c with
  | None => (-1, None)
  | Some (b, batch) =>
      if (p =? 0) || (length d <? WIRE_HEADER_SIZE)%nat then (-1, c)
      else
        match header_of d with
        | None => (-1, c)
        | Some h =>
            let n := length (eb_items batch) in
            if (n =? eb_cap batch)%nat && negb (en_grow env n) then (-1, c)
            else
              let cap := if (n =? eb_cap batch)%nat then (if (eb_cap batch =? 0)%nat then 8 else eb_cap batch * 2)%nat
                         else eb_cap batch in
              let batch := mkBatch (eb_items batch) cap in
              if (RELAY_MAX_DATAGRAM <? length d)%nat then (-1, Some (b, batch))
              else
                match relay_share_or_copy egress (en_malloc env n) p d b with
                | None => (-1, None)
                | Some (None, b) => (-1, Some (b, batch))
                | Some (Some owned, b) =>
                    let item := prepare_forward_pending slot owned (Z.of_nat (length d)) h source (en_enqueue_ns env n) in
                    (0, Some (b, mkBatch (eb_items batch ++ [item]) cap))
                end
        end
  end.

(** ** Submission *)

(** A local delivery that was selected: the header, the datagram. *)
Record DeferredLocalDelivery := mkDelivery { dl_header : WireHeader; dl_datagram : Z; dl_len : Z }.

(** What [ingress_submit_owned] leaves to its caller. *)
Record Submitted := mkSubmitted {
  sb_status : RelayIngressStatus;
  sb_deferred : option DeferredLocalDelivery;
  sb_forward : option ForwardPending;
  sb_batch : list ForwardPending }.

Definition done_with (st : RelayIngressStatus) : Submitted := mkSubmitted st None None [].

Definition local_source_ack (cfg : RelayConfig) (h : WireHeader) : bool :=
  return_ack h && wire_header_is_local h (cf_local_node_id cfg) &&
  match cf_local_source cfg with Some src => ls_wirehair_ack src && (wh_flow_id h =? ls_flow_id src) | None => false end.

Definition record_source_ack (h : WireHeader) : R unit :=
  modify (fun s =>
    with_routes (rl_return_routes s)
      (<[Z.to_nat (wh_block_id h mod Z.of_nat RELAY_SOURCE_ACK_CAPACITY) := (wh_flow_id h, wh_block_id h, true)]>
         (rl_source_ack s)) s).

Definition payload_of (gen : option GenerationEntry) : nat :=
  match gen with Some e => Z.to_nat (ge_payload_len e) | None => 0 end.

(** The generation hook; [emit] says whether there is a batch to collect into. *)
Definition call_reencode (env : SubmitEnv) (slot : nat) (source : RelayPacketSource) (h : WireHeader)
    (gen : option GenerationEntry) (st : GenerationInsertStatus) (emit : bool) :
    R (RelayDecodeReencodeAction * list ForwardPending) :=
  fun s =>
    match cf_decode_reencode_fn (rl_config s) with
    | NO_REENCODE => Some ((RELAY_DECODE_REENCODE_OPAQUE, []), s)
    | REENCODE_STUB => Some ((relay_decode_reencode_stub, []), s)
    | REENCODE_BATS =>
        let egress := bool_decide (is_Some (cf_egress_fn (rl_config s))) in
        match relay_rs_bats_identity_decode_reencode (fun p => default [] (buf_read p (rl_bufs s)))
                (decode_reencode_emit_cb env egress slot source) emit (en_alloc_rows env) (en_alloc_pad env)
                (en_alloc_tmp env) (fun i => map (en_fresh env i) (seq 0 (payload_of gen))) (en_t0 env) (en_t1 env) (Some h) gen st (Some (rl_recoder s))
                (rl_gf s) (Some (rl_bufs s, batch_zero)) with
        | Some (action, Some x, Some (b, batch), g) =>
            Some ((action, eb_items batch), with_recoder x g (with_bufs (fun _ => b) s))
        | _ => None
        end
    end.

(** The last part of [ingress_submit_owned]: a datagram that is neither local nor dropped, its
    TTL already rewritten. *)
Definition submit_transit (env : SubmitEnv) (source : RelayPacketSource) (slot : nat) (p len : Z) (h : WireHeader) :
    R Submitted :=
  let forward := mkSubmitted RELAY_INGRESS_OK None (Some (prepare_forward_pending slot p len h source (en_enqueue_ns env 0))) in
  enabled ← gets rl_cache_enabled;
  cfg ← gets rl_config;
  if negb (wh_type h =? WIRE_TYPE_DATA) then
    (if enabled && (wh_type h =? WIRE_TYPE_END) then
       d ← read_datagram p len;
       cache_call d (generation_cache_expire (en_now env) (s32 (wh_flow_id h)));; sync_cache_stats_to_total
     else mret tt);;
    mret (forward [])
  else
    d ← read_datagram p len;
    '(action, (dra, batch)) ←
      (if enabled && (wh_version h =? WIRE_VERSION_V3) then
         pool ← gets (fun s => rb_pool (rl_bufs s));
         '(st, out) ← cache_call d (generation_cache_insert (datagram_pool_contains pool) (en_cache_malloc env)
                                     (en_cache_oom env) h p len (en_now env));
         sync_cache_stats_to_total;;
         gen ← gets (fun s => a ← out; g_heap (rl_gen_cache s) !! a);
         let action := match cf_process_fn cfg with Some f => f h d gen st | None => RELAY_PROCESS_CONTINUE_FORWARD end in
         r ← call_reencode env slot source h gen st true;
         mret (action, r)
       else
         r ← call_reencode env slot source h None GEN_INSERT_INVALID false;
         mret (RELAY_PROCESS_CONTINUE_FORWARD, r));
    if bool_decide (action = RELAY_PROCESS_DROP) || bool_decide (dra = RELAY_DECODE_REENCODE_HOLD) ||
       bool_decide (dra = RELAY_DECODE_REENCODE_EMIT)
    then release p;; mret (mkSubmitted RELAY_INGRESS_OK None None batch)
    else mret (forward batch).

(** [recode_fn] on the buffer, then the header again; [None] drops the datagram. *)
Definition apply_recode (p len : Z) (h : WireHeader) : R (option (WireHeader * Z)) :=
  cfg ← gets rl_config;
  match cf_recode_fn cfg with
  | None => mret (Some (h, len))
  | Some f =>
      buf ← gets (fun s => buf_read p (rl_bufs s));
      buf ← the buf;
      let '(rc, out, out_len) := f (take (Z.to_nat len) buf) buf h in
      match out with Some bs => write_buf p bs | None => mret tt end;;
      let out_len := default (Z.to_nat len) out_len in
      if negb (rc =? 0) || (out_len =? 0)%nat || (RELAY_MAX_DATAGRAM <? out_len)%nat then mret None
      else
        d ← read_datagram p (Z.of_nat out_len);
        match header_of d with
        | Some h => mret (Some (h, Z.of_nat out_len))
        | None => mret None
        end
  end.

Definition drop_datagram (p : Z) (slot : nat) (st : RelayStat) (res : RelayIngressStatus) : R Submitted :=
  count slot st;; release p;; mret (done_with res).

Definition ingress_submit_owned (env : SubmitEnv) (source : RelayPacketSource) (p len : Z) : R Submitted :=
  if (p =? 0) || (len <? Z.of_nat WIRE_HEADER_SIZE) then release p;; mret (done_with RELAY_INGRESS_ERR_INVALID)
  else
    d ← read_datagram p len;
    match header_of d with
    | None => count_total rs_drop_malformed;; release p;; mret (done_with RELAY_INGRESS_OK)
    | Some h =>
        let slot := flow_stats_slot (wh_flow_id h) in
        count slot rs_rx;;
        modify (fun s => with_activity (en_now env) (rl_inject_in_flight s) (rl_stop s) s);;
        cfg ← gets rl_config;
        hop ← gets rl_return_hop;
        let local := wire_header_is_local h (cf_local_node_id cfg) in
        if bool_decide (source = RELAY_SRC_LOCAL_ENCODER) && local && cf_reject_local_encoder_loopback cfg
        then drop_datagram p slot rs_inject_reject_loopback RELAY_INGRESS_ERR_LOOPBACK
        else if wh_ttl h =? 0 then drop_datagram p slot rs_drop_ttl RELAY_INGRESS_OK
        else if local_source_ack cfg h then
          record_source_ack h;; drop_datagram p slot rs_local_deliver RELAY_INGRESS_OK
        else if local && negb (is_v4 h && has_flag h WIRE_FLAG_RETURN_PATH && bool_decide (is_Some hop)) then
          (if cf_delivery_fn cfg
           then count slot rs_local_deliver;; mret (mkSubmitted RELAY_INGRESS_OK (Some (mkDelivery h p len)) None [])
           else drop_datagram p slot rs_local_deliver RELAY_INGRESS_OK)
        else if wh_ttl h <=? 1 then drop_datagram p slot rs_drop_ttl RELAY_INGRESS_OK
        else
          let h := dec_ttl h in
          buf ← gets (fun s => buf_read p (rl_bufs s));
          buf ← the buf;
          write_buf p (encode_header h buf);;
          r ← apply_recode p len h;
          match r with
          | None => drop_datagram p slot rs_drop_malformed RELAY_INGRESS_OK
          | Some (h, out_len) => submit_transit env source slot p out_len h
          end
    end.

(** ** Work after the critical section

    [run_deferred_local_delivery], the pending packet and the batch, in this order: what a
    thread still has to do after [ingress_submit_owned]. *)

Record Work := mkWork {
  wk_deferred : option DeferredLocalDelivery;
  wk_pending : list ForwardPending;
  wk_waiting : option (ForwardPending * Z) }.

Definition work_of (r : Submitted) : Work :=
  mkWork (sb_deferred r) (option_list (sb_forward r) ++ sb_batch r) None.

Definition work_done (w : Work) : bool :=
  bool_decide (wk_deferred w = None) && bool_decide (length (wk_pending w) = 0%nat) && bool_decide (wk_waiting w = None).

Definition run_deferred_local_delivery (dl : DeferredLocalDelivery) : R unit :=
  d ← read_datagram (dl_datagram dl) (dl_len dl);
  modify (fun s => with_output (rl_sent s) (rl_delivered s ++ [(d, dl_header dl)]) s);;
  release (dl_datagram dl).

(** The next piece of the work; [rc] is what a wait returned. *)
Definition work_step (now : Z * Z) (clock : option (Z * Z)) (rc : timedwait_rc) (w : Work) : R Work :=
  match wk_deferred w, wk_waiting w, wk_pending w with
  | Some dl, _, _ => run_deferred_local_delivery dl;; mret (mkWork None (wk_pending w) (wk_waiting w))
  | None, Some (f, start), _ =>
      r ← resume_forward_pending rc clock start f; mret (mkWork None (wk_pending w) r)
  | None, None, f :: rest =>
      r ← relay_apply_forward_pending now clock f; mret (mkWork None rest r)
  | None, None, [] => mret w
  end.

(** ** Injection *)

(** [relay_inject_wire_datagram_owned] up to its first unlock: the status if it returns there (the
    caller keeps the buffer), the result of the submission otherwise. *)
Definition relay_inject_wire_datagram_owned (env : SubmitEnv) (p len : Z) : R (RelayIngressStatus + Submitted) :=
  if (p =? 0) || (len <? Z.of_nat WIRE_HEADER_SIZE) || (len >? Z.of_nat RELAY_MAX_DATAGRAM)
  then mret (inl RELAY_INGRESS_ERR_INVALID)
  else
    stop ← gets rl_stop;
    if (stop : bool) then mret (inl RELAY_INGRESS_ERR_SHUTDOWN)
    else
      modify (fun s => with_activity (rl_last_activity_ns s) (rl_inject_in_flight s + 1) (rl_stop s) s);;
      r ← ingress_submit_owned env RELAY_SRC_LOCAL_ENCODER p len;
      mret (inr r).

(** Its last critical section. *)
Definition inject_finish : R unit :=
  modify (fun s => with_activity (rl_last_activity_ns s) (rl_inject_in_flight s - 1) (rl_stop s) s).

(** [relay_inject_wire_datagram]: the datagram is copied first. *)
Definition relay_inject_wire_datagram (env : SubmitEnv) (malloc : option Z) (d : list byte) :
    R (RelayIngressStatus + Submitted) :=
  if (length d <? WIRE_HEADER_SIZE)%nat || (RELAY_MAX_DATAGRAM <? length d)%nat then mret (inl RELAY_INGRESS_ERR_INVALID)
  else
    owned ← bufs (relay_buf_acquire malloc);
    match owned with
    | None => mret (inl RELAY_INGRESS_ERR_ALLOC)
    | Some p =>
        write_buf p d;;
        r ← relay_inject_wire_datagram_owned env p (Z.of_nat (length d));
        match r with
        | inl st => release p;; mret (inl st)
        | inr sub => mret (inr sub)
        end
    end.

(** ** Reception *)

(** The flow and whether the packet goes to the head of its queue. *)
Definition relay_parse_rx (d : list byte) : option (Z * bool) :=
  h ← header_of d; Some (wh_flow_id h, return_ack h).

(** [true] is the result 1: the datagram was consumed. *)
Definition rx_try_fast_ack (enqueue_ns : Z) (p len : Z) : R bool :=
  cfg ← gets rl_config;
  if (p =? 0) || bool_decide (is_Some (cf_recode_fn cfg)) || bool_decide (is_Some (cf_egress_fn cfg)) ||
     (len <? Z.of_nat WIRE_HEADER_SIZE) || (len >? Z.of_nat RELAY_MAX_DATAGRAM)
  then mret false
  else
    d ← read_datagram p len;
    match header_of d with
    | None => mret false
    | Some h =>
        if negb (return_ack h) then mret false
        else if wire_header_is_local h (cf_local_node_id cfg) && bool_decide (is_Some (cf_local_source cfg)) then mret false
        else
          let slot := flow_stats_slot (wh_flow_id h) in
          count slot rs_rx;;
          if wh_ttl h <=? 1 then count slot rs_drop_ttl;; release p;; mret true
          else
            let h := dec_ttl h in
            buf ← gets (fun s => buf_read p (rl_bufs s));
            buf ← the buf;
            write_buf p (encode_header h buf);;
            q ← gets rl_ack_egress;
            let '(st, q, _, w) :=
              egress_queue_try_enqueue q (mkEp p len (wh_flow_id h) (wh_block_id h) enqueue_ns [] 0 1) in
            modify (enqueued true q w);;
            if bool_decide (st = EGRESS_OK) then mret true
            else
              (if bool_decide (st = EGRESS_ERR_FULL) then count slot rs_drop_egress_full else mret tt);;
              release p;; mret true
    end.

Definition rx_enqueue_datagram (enqueue_ns : Z) (p len : Z) : R unit :=
  if p =? 0 then mret tt
  else
    consumed ← rx_try_fast_ack enqueue_ns p len;
    if (consumed : bool) then mret tt
    else
      d ← read_datagram p len;
      match (if (len <? Z.of_nat WIRE_HEADER_SIZE) || (len >? Z.of_nat RELAY_MAX_DATAGRAM) then None else relay_parse_rx d) with
      | None => count_total rs_drop_malformed;; release p
      | Some (flow_id, prefer_head) =>
          h ← gets rl_deferred;
          let '(st, h, _, _) :=
            relay_deferred_hub_try_push
              (RelayDeferred.mkDp p len flow_id enqueue_ns (if prefer_head then 1 else 0)) h in
          modify (with_deferred h);;
          if bool_decide (st = RELAY_DEFERRED_OK) then mret tt else release p
      end.

(** The part of a turn of [relay_run] that receives: [d] is what [recvfrom] puts into the buffer,
    at most [RELAY_MAX_DATAGRAM] bytes; the result is the buffer to enqueue. *)
Definition rx_receive (malloc : option Z) (now : Z) (peer : list Z) (d : list byte) : R (option (Z * Z)) :=
  owned ← bufs (relay_buf_acquire malloc);
  match owned with
  | None => count_total rs_drop_malformed;; mret None
  | Some p =>
      let d := take RELAY_MAX_DATAGRAM d in
      write_buf p d;;
      if (length d =? 0)%nat then release p;; mret None
      else
        modify (fun s => with_activity now (rl_inject_in_flight s) (rl_stop s) s);;
        learn_return_route d peer now;;
        mret (Some (p, Z.of_nat (length d)))
  end.

(** The part that runs when [poll] times out. *)
Definition rx_idle (now : Z) : R unit :=
  enabled ← gets rl_cache_enabled;
  if (enabled : bool) then cache_call [] (generation_cache_expire now (-1));; sync_cache_stats_to_total else mret tt.

(** ** Processing *)

(** One [try_pop] of the processing worker. *)
Definition processing_pop : R (option RelayDeferredPacket) :=
  h ← gets rl_deferred;
  '(st, pkt, h) ← the (relay_deferred_hub_try_pop h);
  modify (with_deferred h);;
  mret (if bool_decide (st = RELAY_DEFERRED_OK) then Some pkt else None).

(** The critical section of [process_one_deferred_packet]; what follows is its [Work]. *)
Definition process_one_deferred_packet (env : SubmitEnv) (pkt : RelayDeferredPacket) : R Work :=
  if RelayDeferred.dp_datagram pkt =? 0 then mret (mkWork None [] None)
  else
    r ← ingress_submit_owned env RELAY_SRC_PREVIOUS_NODE (RelayDeferred.dp_datagram pkt) (RelayDeferred.dp_len pkt);
    mret (work_of r).

(** ** Transmission *)

(** The result of [sendto] once it is not EINTR. *)
Inductive send_result := SendBytes (n : Z) | SendAgain | SendError.

Definition relay_tx_account (slot : nat) (h : WireHeader) (ok : bool) : R unit :=
  if negb ok then count slot rs_drop_send
  else
    count slot rs_forward;;
    (if wh_type h =? WIRE_TYPE_ACK then count slot rs_forward_ack else count slot rs_forward_data).

Definition emit_sent (target : list Z) (d : list byte) : R unit :=
  modify (fun s => with_output (rl_sent s ++ [mkSent target d]) (rl_delivered s) s).

(** [true] is the result 1: the packet is still the caller's. *)
Definition relay_tx_emit (res : send_result) (dontwait : bool) (pkt : EgressPacket) : R bool :=
  let p := ep_datagram pkt in
  if p =? 0 then mret false
  else
    let slot := flow_stats_slot (ep_flow_id pkt) in
    d ← read_datagram p (ep_len pkt);
    match header_of d with
    | None => count slot rs_drop_malformed;; release p;; mret false
    | Some h =>
        let return_path := is_v4 h && has_flag h WIRE_FLAG_RETURN_PATH in
        target ← gets (fun s =>
          if return_path then
            match lookup_return_route (rl_return_routes s) (wh_flow_id h) with
            | Some peer => Some peer
            | None => rl_return_hop s
            end
          else Some (rl_next_hop s));
        match target with
        | None => count slot rs_drop_no_return_hop;; release p;; mret false
        | Some target =>
            cfg ← gets rl_config;
            ok ← (match cf_egress_fn cfg with
                  | None => mret true
                  | Some f =>
                      let '(rc, out) := f d h in
                      match out with Some bs => write_buf p bs | None => mret tt end;;
                      mret (rc =? 0)
                  end);
            if negb ok then count slot rs_drop_malformed;; release p;; mret false
            else
              d ← read_datagram p (ep_len pkt);
              if cf_capture cfg then emit_sent target d;; relay_tx_account slot h true;; release p;; mret false
              else
                match res with
                | SendAgain =>
                    if negb return_path && dontwait then mret true
                    else relay_tx_account slot h false;; release p;; mret false
                | SendError => relay_tx_account slot h false;; release p;; mret false
                | SendBytes n =>
                    emit_sent target d;; relay_tx_account slot h (n =? ep_len pkt);; release p;; mret false
                end
        end
    end.

(** One turn of [relay_tx_drain_acks]: [true] if there was an acknowledgement. *)
Definition drain_one_ack (res : send_result) : R bool :=
  q ← gets rl_ack_egress;
  '(st, out, q) ← the (egress_queue_try_dequeue q);
  modify (set_lane true q);;
  match st, out with
  | EGRESS_OK, Some ack => relay_tx_emit res false ack;; mret true
  | _, _ => mret false
  end.

Definition relay_tx_drain_acks (ress : list send_result) : R unit :=
  foldr (fun res k => more ← drain_one_ack res; if (more : bool) then k else mret tt) (mret tt) ress.

(** One call of [egress_fair_dequeue] by the worker; [None] waits. *)
Definition tx_dequeue : R (option (EgressStatus * option EgressPacket)) :=
  s ← gets (fun s => s);
  r ← the (egress_fair_dequeue (rl_egress_dequeuer s) (rl_ack_egress s) (rl_data_egress s));
  match r with
  | Blocks => mret None
  | Returns (st, out, d, ack, data) => modify (with_egress ack data d);; mret (Some (st, out))
  end.

(** ** Other readers of the context *)

Definition sync_deferred_drops_to_total : R unit :=
  modify (fun s =>
    let ds := relay_deferred_hub_stats_snapshot (rl_deferred s) in
    with_counts (rl_per_flow s)
      (set_stat rs_drop_deferred_overflow_flow (drop_overflow_flow ds)
      (set_stat rs_drop_deferred_overflow_total (drop_overflow_total ds)
      (set_stat rs_drop_deferred_table_full (drop_table_full ds) (rl_total s)))) s).

Definition relay_total_stats : R RelayFlowStats := sync_deferred_drops_to_total;; gets rl_total.

(** One look of [relay_local_source_ack_poll]. *)
Definition relay_local_source_ack_poll (flow_id segment_id : Z) : R bool :=
  acks ← gets rl_source_ack;
  let i := Z.to_nat (segment_id mod Z.of_nat RELAY_SOURCE_ACK_CAPACITY) in
  '(f, seg, valid) ← the (acks !! i);
  let matched := valid && (f =? flow_id) && (seg =? segment_id) in
  (if matched then modify (fun s => with_routes (rl_return_routes s) (<[i := (f, seg, false)]> acks) s) else mret tt);;
  mret matched.

End Host.
