(* ===== verification/RelayInv.v ===== *)
(** * Who owns the relay's buffers

    [own b H]: the reference counts of the pool are the numbers of owners in [H], and the blocks
    [malloc] returned that are not freed yet are the other addresses in [H].  One lemma per
    function on buffers says that it is defined and how [H] changes. *)

From Stdlib Require Import Strings.Byte.
From S2P Require Import Prelude Ring WireHeader Gf256 ByteVec DatagramPool EgressQueue.
From S2P Require Import RelayDeferred RelayDeferredSpec GenerationCache GenerationCacheList.
From S2P Require Import GenerationCacheSpec RsBats Recode RecodeSpec Relay.

Local Open Scope Z_scope.

Definition heap_ok (b : RelayBufs) (H : list Z) : Prop :=
  forall p, datagram_pool_contains (rb_pool b) p = false -> is_Some (rb_mem b !! p) <-> p ∈ H.

Record own (b : RelayBufs) (H : list Z) : Prop := {
  ow_inited : rb_inited b = true;
  ow_pool : dp_inv (rb_pool b) H;
  ow_heap : heap_ok b H }.

(** An address [malloc] may return. *)
Definition fresh (b : RelayBufs) (p : Z) : Prop :=
  p <> 0 /\ datagram_pool_contains (rb_pool b) p = false /\ rb_mem b !! p = None.

Definition same_pool (b b' : RelayBufs) : Prop := same_slab (rb_pool b') (rb_pool b).

Lemma same_pool_refl b : same_pool b b.
Proof. done. Qed.
Lemma same_pool_trans a b c : same_pool a b -> same_pool b c -> same_pool a c.
Proof. intros (A1 & A2 & A3) (B1 & B2 & B3). unfold same_pool, same_slab. by rewrite B1, B2, B3. Qed.
Lemma same_pool_contains b b' p :
  same_pool b b' -> datagram_pool_contains (rb_pool b') p = datagram_pool_contains (rb_pool b) p.
Proof. apply same_slab_contains. Qed.
#[export] Hint Resolve same_pool_refl : core.

Lemma owners_perm H K p : H ≡ₚ K -> owners H p = owners K p.
Proof. intros E. apply (Permutation_count_occ Z.eq_dec), E. Qed.

Lemma dp_inv_perm pool H K : H ≡ₚ K -> dp_inv pool H -> dp_inv pool K.
Proof.
  intros E Hi. apply (inv_owners pool H); [done| |].
  - intros i _. symmetry. by apply owners_perm.
  - intros p Hp. rewrite <- E in Hp. destruct (di_foreign _ _ Hi p Hp) as [Hp0 Hf]. split; [done|].
    intros Hc. rewrite <- (owners_perm _ _ p E). by apply Hf.
Qed.

Lemma own_perm b H K : H ≡ₚ K -> own b H -> own b K.
Proof.
  intros E [Hi Hp Hh]. split; [done|by eapply dp_inv_perm|]. intros p Hc. rewrite (Hh p Hc). by rewrite E.
Qed.

Lemma drop_owner_perm p H : (p ∈ H) -> H ≡ₚ p :: drop_owner p H.
Proof.
  induction H as [|x H IH]; [by intros ?%elem_of_nil|]. intros Hp. cbn [drop_owner]. destruct (Z.eq_dec x p) as [->|Hne]; [done|].
  apply elem_of_cons in Hp as [->|Hp]; [done|]. rewrite (IH Hp) at 1. apply Permutation_swap.
Qed.

Lemma own_nonzero b H p : own b H -> (p ∈ H) -> p <> 0.
Proof. intros [_ Hp _] Hin. by destruct (di_foreign _ _ Hp p Hin). Qed.

(** A foreign address has one owner. *)
Lemma own_foreign_once b p H : own b (p :: H) -> datagram_pool_contains (rb_pool b) p = false -> p ∉ H.
Proof.
  intros [_ Hp _] Hc Hin. destruct (di_foreign _ _ Hp p) as [_ Hf]; [by left|]. specialize (Hf Hc).
  rewrite owners_cons in Hf. apply owners_pos in Hin. destruct (Z.eq_dec p p); [lia|done].
Qed.

Lemma heap_ok_pool b pool H : same_slab pool (rb_pool b) -> heap_ok b H -> heap_ok (set_pool pool b) H.
Proof. intros Hs Hh p. cbn. rewrite (same_slab_contains _ _ p Hs). apply Hh. Qed.

(** ** Reading and writing *)

(** The buffers in [H] hold what they held. *)
Definition keeps (b b' : RelayBufs) (H : list Z) : Prop := forall p, p ∈ H -> buf_read p b' = buf_read p b.

Lemma rb_keeps_refl b H : keeps b b H.
Proof. done. Qed.
Lemma rb_keeps_trans a b c H : keeps a b H -> keeps b c H -> keeps a c H.
Proof. intros K1 K2 p Hp. by rewrite (K2 p Hp), (K1 p Hp). Qed.
Lemma keeps_sub b b' H K : (forall p, p ∈ K -> p ∈ H) -> keeps b b' H -> keeps b b' K.
Proof. intros Hs Hk p Hp. by apply Hk, Hs. Qed.
#[export] Hint Resolve rb_keeps_refl : core.

Lemma buf_read_same b b' p : rb_mem b' !! p = rb_mem b !! p -> same_pool b b' -> buf_read p b' = buf_read p b.
Proof. intros E Hs. unfold buf_read. by rewrite E, (same_pool_contains _ _ p Hs). Qed.

Lemma keeps_mem b b' H : rb_mem b' = rb_mem b -> same_pool b b' -> keeps b b' H.
Proof. intros E Hs p _. by apply buf_read_same; [rewrite E|]. Qed.

Lemma own_read b H p : own b H -> (p ∈ H) -> exists bs, buf_read p b = Some bs.
Proof.
  intros [_ _ Hh] Hin. unfold buf_read. destruct (rb_mem b !! p) as [bs|] eqn:E; [by exists bs|].
  destruct (datagram_pool_contains (rb_pool b) p) eqn:Hc; [by exists []|]. apply (Hh p Hc) in Hin as [bs Hbs]. congruence.
Qed.

Lemma own_write b H p bs :
  own b H -> (p ∈ H) -> exists b' old, buf_write p bs b = Some b' /\ own b' H /\ rb_pool b' = rb_pool b /\
    buf_read p b = Some old /\ buf_read p b' = Some (bs ++ drop (length bs) old) /\
    forall q, q <> p -> buf_read q b' = buf_read q b.
Proof.
  intros Ho Hin. destruct (own_read b H p Ho Hin) as [old Hr]. unfold buf_write. rewrite Hr. eexists _, old. split; [done|].
  assert (Hread : buf_read p (set_mem (<[p := bs ++ drop (length bs) old]> (rb_mem b)) b) = Some (bs ++ drop (length bs) old))
    by (unfold buf_read; cbn; by rewrite lookup_insert_eq).
  split; [|split; [done|]; split; [done|]; split; [done|];
    intros q Hq; apply buf_read_same; [cbn; by rewrite lookup_insert_ne|done]]. clear Hread. destruct Ho as [Hi Hp Hh]. split; [done|done|]. intros q Hc. cbn in *.
  destruct (decide (q = p)) as [->|Hne]; [rewrite lookup_insert_eq|rewrite lookup_insert_ne by done; by apply Hh].
  split; [done|]. by intros _.
Qed.

(** ** Taking and letting go *)

Lemma own_malloc b H p bs :
  own b H -> fresh b p ->
  own (heap_malloc p bs b) (p :: H) /\ keeps b (heap_malloc p bs b) H /\ buf_read p (heap_malloc p bs b) = Some bs.
Proof.
  intros [Hi Hp Hh] (H0 & Hc & Hm).
  assert (Hni : p ∉ H) by (intros Hin; apply (Hh p Hc) in Hin as [? ?]; congruence).
  split; [|split; [intros q Hq; apply buf_read_same; [|done]; cbn; rewrite lookup_insert_ne; [done|by intros ->]|
    unfold buf_read; cbn; by rewrite lookup_insert_eq]].
  split; [done|by apply acquire_fallback_inv|]. intros q Hq. cbn in *. rewrite elem_of_cons.
  destruct (decide (q = p)) as [->|Hne]; [rewrite lookup_insert_eq; naive_solver|].
  rewrite lookup_insert_ne, (Hh q Hq) by done. naive_solver.
Qed.

Lemma own_free b H p :
  own b (p :: H) -> datagram_pool_contains (rb_pool b) p = false ->
  exists b', heap_free p b = Some b' /\ own b' H /\ rb_pool b' = rb_pool b /\ keeps b b' H.
Proof.
  intros Ho Hc. pose proof (own_foreign_once b p H Ho Hc) as Hni. pose proof (own_nonzero b _ p Ho ltac:(by left)) as H0.
  destruct Ho as [Hi Hp Hh]. unfold heap_free. rewrite Hc.
  destruct (proj2 (Hh p Hc)) as [bs Hbs]; [by left|]. rewrite Hbs. eexists. split; [done|].
  split; [|split; [done|]; intros q Hq; apply buf_read_same; [|done]; cbn; rewrite lookup_delete_ne; [done|by intros ->]].
  split; [done| |].
  - apply (inv_owners (rb_pool b) (p :: H)); [done| |].
    + intros i Hlt. rewrite owners_cons. destruct (Z.eq_dec p _) as [E|]; [|done].
      by destruct (foreign_not_slot _ p i (di_geometry _ _ Hp) Hc Hlt).
    + intros q Hq. destruct (di_foreign _ _ Hp q) as [Hq0 Hqf]; [by right|]. split; [done|]. intros E. specialize (Hqf E).
      rewrite owners_cons in Hqf. destruct (Z.eq_dec p q) as [<-|]; [done|lia].
  - intros q Hq. cbn in *. destruct (decide (q = p)) as [->|Hne].
    + rewrite lookup_delete_eq. split; [by intros []|done].
    + rewrite lookup_delete_ne, (Hh q Hq), elem_of_cons by done. naive_solver.
Qed.

Definition malloc_ok (b : RelayBufs) (malloc : option Z) : Prop := forall p, malloc = Some p -> fresh b p.

Lemma own_acquire b H malloc :
  own b H -> malloc_ok b malloc ->
  exists r b', relay_buf_acquire malloc b = Some (r, b') /\ own b' (option_list r ++ H) /\ same_pool b b' /\ keeps b b' H /\
    forall p, r = Some p -> (p ∉ H) /\ (datagram_pool_contains (rb_pool b) p = true \/ malloc = Some p).
Proof.
  intros Ho Hm. pose proof Ho as [Hi Hp Hh]. unfold relay_buf_acquire. rewrite Hi.
  destruct (acquire_inv malloc (rb_pool b) H Hp) as (r & pool & E & Hinv & Hs & Hn).
  { intros p Ep. destruct (Hm p Ep) as (H0 & Hc & Hnone). split; [done|]. split; [done|].
    intros Hin. apply (Hh p Hc) in Hin as [? ?]. congruence. }
  rewrite E. cbn [mbind option_bind]. destruct r as [p|]; eexists _, _; (split; [done|]).
  - assert (Hkeep : keeps b (if datagram_pool_contains pool p then set_pool pool b else heap_malloc p [] (set_pool pool b)) H).
    { intros q Hq. destruct (datagram_pool_contains pool p); [by apply buf_read_same|].
      apply buf_read_same; [|done]. cbn. rewrite lookup_insert_ne; [done|]. intros ->. by apply (Hn q). }
    enough (own (if datagram_pool_contains pool p then set_pool pool b else heap_malloc p [] (set_pool pool b)) (p :: H)) by
      (split; [done|]; split; [by destruct (datagram_pool_contains pool p)|]; split; [done|];
       intros p' [= <-]; split; [by apply Hn|by eapply acquire_from]). clear Hkeep.
    cbn [option_list app] in *. rewrite (same_slab_contains _ _ p Hs).
    destruct (datagram_pool_contains (rb_pool b) p) eqn:Hc.
    + split; [done|done|]. intros q. cbn. rewrite (same_slab_contains _ _ q Hs). intros Hq. rewrite (Hh q Hq), elem_of_cons.
      split; [by right|]. intros [->|?]; [congruence|done].
    + split; [done|done|]. intros q. cbn. rewrite (same_slab_contains _ _ q Hs). intros Hq. rewrite elem_of_cons.
      destruct (decide (q = p)) as [->|Hne]; [rewrite lookup_insert_eq; naive_solver|].
      rewrite lookup_insert_ne, (Hh q Hq) by done. naive_solver.
  - split; [|split; [done|split; [by apply keeps_mem|done]]]. split; [done|done|]. by apply heap_ok_pool.
Qed.

(** [datagram_pool_release] with the [free] it may ask for. *)
Lemma own_pool_release b H p :
  own b (p :: H) ->
  exists freed pool b', datagram_pool_release (rb_pool b) p = Some (freed, pool) /\
    heap_free_all freed (set_pool pool b) = Some b' /\ own b' H /\ same_pool b b' /\ keeps b b' H.
Proof.
  intros Ho. pose proof Ho as [Hi Hp Hh]. destruct (release_inv (rb_pool b) (p :: H) p Hp) as (freed & pool & E & Hinv & Hs & Ef); [by left|].
  cbn [drop_owner] in Hinv. destruct (Z.eq_dec p p) as [_|]; [|done]. rewrite E.
  exists freed, pool. destruct (datagram_pool_contains (rb_pool b) p) eqn:Hc; subst freed; cbn [heap_free_all].
  - eexists. split; [done|]. split; [done|]. split; [|split; [done|by apply keeps_mem]]. split; [done|done|].
    intros q. cbn. rewrite (same_slab_contains _ _ q Hs). intros Hq. rewrite (Hh q Hq), elem_of_cons.
    split; [intros [->|?]; [congruence|done]|by right].
  - pose proof (own_foreign_once b p H Ho Hc) as Hni. unfold heap_free. cbn [set_pool rb_pool rb_mem].
    rewrite (same_slab_contains _ _ p Hs), Hc. destruct (proj2 (Hh p Hc)) as [bs Hbs]; [by left|]. rewrite Hbs.
    eexists. split; [done|]. split; [done|].
    split; [|split; [done|]; intros q Hq; apply buf_read_same; [|done]; cbn; rewrite lookup_delete_ne; [done|by intros ->]].
    split; [done|done|].
    intros q. cbn. rewrite (same_slab_contains _ _ q Hs). intros Hq. destruct (decide (q = p)) as [->|Hne].
    + rewrite lookup_delete_eq. split; [by intros []|done].
    + rewrite lookup_delete_ne, (Hh q Hq), elem_of_cons by done. naive_solver.
Qed.

Lemma own_release b H p :
  own b (p :: H) -> exists b', relay_buf_release p b = Some b' /\ own b' H /\ same_pool b b' /\ keeps b b' H.
Proof.
  intros Ho. pose proof (own_nonzero b _ p Ho ltac:(by left)) as H0. unfold relay_buf_release.
  destruct (Z.eqb_spec p 0); [done|]. rewrite (ow_inited _ _ Ho).
  destruct (own_pool_release b H p Ho) as (freed & pool & b' & E & Ef & Ho' & Hs & Hk). rewrite E. cbn [mbind option_bind].
  rewrite Ef. by exists b'.
Qed.

Lemma own_release_all b H ps :
  own b (ps ++ H) -> exists b', relay_packet_free_cb ps b = Some b' /\ own b' H /\ same_pool b b' /\ keeps b b' H.
Proof.
  revert b. induction ps as [|p ps IH]; intros b Ho; [by exists b|]. cbn [relay_packet_free_cb].
  destruct (own_release b (ps ++ H) p Ho) as (b1 & -> & Ho1 & Hs1 & Hk1). cbn [mbind option_bind].
  destruct (IH b1 Ho1) as (b2 & -> & Ho2 & Hs2 & Hk2). exists b2. split; [done|]. split; [done|].
  split; [by eapply same_pool_trans|]. eapply rb_keeps_trans; [|exact Hk2]. eapply keeps_sub; [|exact Hk1]. set_solver.
Qed.

(** The number of references stays representable. *)
Definition few (H : list Z) : Prop := Z.of_nat (length H) + 1 < 2 ^ 32.

Lemma own_retain b H p :
  own b H -> (p ∈ H) -> datagram_pool_contains (rb_pool b) p = true -> few H ->
  exists pool, datagram_pool_retain (rb_pool b) p = Some pool /\ own (set_pool pool b) (p :: H) /\ same_slab pool (rb_pool b) /\
    forall K, keeps b (set_pool pool b) K.
Proof.
  intros [Hi Hp Hh] Hin Hc Hf. destruct (retain_inv (rb_pool b) H p Hp) as (pool & E & Hinv & Hs); [done|].
  exists pool. split; [done|]. split; [|split; [done|]; intros K; by apply keeps_mem]. split; [done|done|]. intros q. cbn. rewrite (same_slab_contains _ _ q Hs).
  intros Hq. rewrite (Hh q Hq), elem_of_cons. split; [by right|]. intros [->|?]; [congruence|done].
Qed.

(** ** The cache's buffers *)

Abbreviation cached_bufs L := ((L : list (nat * GenerationEntry)).*2 ≫= GenerationCacheSpec.held).

Lemma own_fresh b H p : own b H -> p <> 0 -> datagram_pool_contains (rb_pool b) p = false -> p ∉ H -> fresh b p.
Proof.
  intros [_ _ Hh] H0 Hc Hn. split; [done|]. split; [done|]. destruct (rb_mem b !! p) eqn:E; [|done].
  destruct Hn. apply (Hh p Hc). rewrite E. by eexists.
Qed.

Lemma fresh_not_owned b H p : own b H -> fresh b p -> p ∉ H.
Proof. intros [_ _ Hh] (_ & Hc & Hm) Hin. apply (Hh p Hc) in Hin as [? ?]. congruence. Qed.

Lemma cache_bufs_app d l k b b1 : cache_bufs d l b = Some b1 -> cache_bufs d (l ++ k) b = cache_bufs d k b1.
Proof.
  revert b. induction l as [|ev l IH]; intros b; cbn; [by intros [= ->]|]. destruct (cache_buf d ev b) as [b2|]; [|done]. apply IH.
Qed.

Lemma cache_bufs_go d hook evs b H :
  Forall (is_letting_go hook) evs -> own b (released evs ++ H) ->
  (hook = false -> Forall (fun p => datagram_pool_contains (rb_pool b) p = false) (released evs)) ->
  exists b', cache_bufs d evs b = Some b' /\ own b' H /\ same_pool b b' /\ keeps b b' H.
Proof.
  intros Hgo. revert b. induction Hgo as [|ev evs [p Hp] Hgo IH]; intros b Ho Hf; [by exists b|].
  assert (Hrel : released (ev :: evs) = p :: released evs) by (by subst ev; destruct hook). rewrite Hrel in Ho, Hf.
  assert (exists b1, cache_buf d ev b = Some b1 /\ own b1 (released evs ++ H) /\ same_pool b b1 /\ keeps b b1 (released evs ++ H))
    as (b1 & E1 & Ho1 & Hs1 & Hk1).
  { subst ev. destruct hook; cbn [cache_buf].
    - destruct (own_pool_release b _ p Ho) as (freed & pool & b1 & -> & Ef & Ho1 & Hs1 & Hk1). cbn [mbind option_bind]. by exists b1.
    - specialize (Hf eq_refl). apply list.Forall_cons in Hf as [Hc _].
      destruct (own_free b _ p Ho Hc) as (b1 & -> & Ho1 & Hp1 & Hk1). exists b1. unfold same_pool. by rewrite Hp1. }
  cbn [cache_bufs]. rewrite E1. cbn [mbind option_bind]. destruct (IH b1 Ho1) as (b2 & E2 & Ho2 & Hs2 & Hk2).
  { intros ->. specialize (Hf eq_refl). apply list.Forall_cons in Hf as [_ Hf].
    eapply list.Forall_impl; [exact Hf|]. cbn. intros q. by rewrite (same_pool_contains _ _ q Hs1). }
  exists b2. split; [done|]. split; [done|]. split; [by eapply same_pool_trans|]. eapply rb_keeps_trans; [|exact Hk2].
  eapply keeps_sub; [|exact Hk1]. set_solver.
Qed.

(** What the cache holds without the hooks it copied. *)
Definition copies_foreign (b : RelayBufs) (hook : bool) (H : list Z) : Prop :=
  hook = false -> Forall (fun p => datagram_pool_contains (rb_pool b) p = false) H.

Lemma copies_foreign_same b b' hook H : same_pool b b' -> copies_foreign b hook H -> copies_foreign b' hook H.
Proof.
  intros Hs Hf E. eapply list.Forall_impl; [exact (Hf E)|]. cbn. intros p. by rewrite (same_pool_contains _ _ p Hs).
Qed.

Lemma cache_gone hook evs d b H C K :
  Forall (is_letting_go hook) evs -> H ≡ₚ released evs ++ C -> own b (H ++ K) -> copies_foreign b hook H ->
  exists b', cache_bufs d evs b = Some b' /\ own b' (C ++ K) /\ same_pool b b' /\ copies_foreign b' hook C /\
    keeps b b' (C ++ K).
Proof.
  intros Hgo HC Ho Hf. destruct (cache_bufs_go d hook evs b (C ++ K) Hgo) as (b1 & E1 & Ho1 & Hs1 & Hk1).
  - eapply own_perm; [|exact Ho]. by rewrite HC, app_assoc.
  - intros Hr. specialize (Hf Hr). rewrite HC in Hf. by apply list.Forall_app in Hf as [Hf _].
  - exists b1. split; [done|]. split; [done|]. split; [done|]. split; [|done]. eapply copies_foreign_same; [exact Hs1|].
    intros Hr. specialize (Hf Hr). rewrite HC in Hf. by apply list.Forall_app in Hf as [_ Hf].
Qed.

Lemma letting_go_acquires hook evs : Forall (is_letting_go hook) evs -> acquired evs = [].
Proof. induction 1 as [|x l [q ->] _ IH]; [done|]. by destruct hook. Qed.

(** The events between two states of the cache. *)
Lemma cache_events g g' L L' ev :
  cache_inv g L -> cache_inv g' L' -> g_log g' = g_log g ++ ev ->
  cached_bufs L ++ acquired ev ≡ₚ released ev ++ cached_bufs L'.
Proof.
  intros Hi Hi' Hlog. pose proof (ci_log _ _ Hi') as H1. pose proof (ci_log _ _ Hi) as H2.
  rewrite Hlog, acquired_app, released_app, H2, <- !app_assoc in H1. by apply Permutation_app_inv_l in H1.
Qed.

(** A call that only removes entries. *)
Lemma cache_go_own {A} (m : G A) g g' a L L' d b K :
  logs m lets_go -> m g = Some (a, g') -> cache_inv g L -> cache_inv g' L' ->
  own b (cached_bufs L ++ K) -> copies_foreign b (gc_release (g_cache g)) (cached_bufs L) ->
  exists b', cache_bufs d (drop (length (g_log g)) (g_log g')) b = Some b' /\ own b' (cached_bufs L' ++ K) /\ same_pool b b' /\
    hooks (g_cache g') = hooks (g_cache g) /\ copies_foreign b' (gc_release (g_cache g)) (cached_bufs L') /\
    keeps b b' (cached_bufs L' ++ K).
Proof.
  intros Hm E HL HL' Ho Hf. destruct (Hm _ _ _ E) as (Hh & ev & Hlog & Hgo). unfold lets_go in Hgo. cbn [hooks fst] in Hgo.
  pose proof (cache_events _ _ _ _ _ HL HL' Hlog) as Hperm.
  rewrite (letting_go_acquires _ _ Hgo), app_nil_r in Hperm. rewrite Hlog, drop_app_length.
  destruct (cache_gone _ ev d b _ _ K Hgo Hperm Ho Hf) as (b' & Eb & Ho' & Hs & Hf' & Hk'). by exists b'.
Qed.

(** The buffer an insertion keeps is one the cache holds afterwards. *)
Lemma inserted_held is_shared malloc share hdr datagram len now out g L K L' q :
  inserted is_shared malloc share hdr datagram len now GEN_INSERT_OK out L K L' -> cache_inv g L' ->
  (forall copy, kept_as is_shared malloc share datagram copy -> copy = q) -> (q ∈ cached_bufs L').
Proof.
  intros (a & e & rest & copy & _ & -> & _ & _ & _ & Hk & Hsl & _) Hi Hq. rewrite (Hq copy Hk) in Hsl. cbn [fmap list_fmap snd].
  rewrite bind_cons. apply elem_of_app. left. unfold GenerationCacheSpec.held, slots_present.
  apply list_elem_of_fmap. eexists. split; [|apply list_elem_of_filter; split; [|by eapply list_elem_of_lookup_2]]; done.
Qed.

Lemma own_sub b H K : own b (H ++ K) -> own b (K ++ H).
Proof. apply own_perm. apply Permutation_app_comm. Qed.

(** What an acquisition of the cache does. *)
Lemma cache_take_own hook p malloc acq d b H :
  (acq = [BufRetain p] /\ datagram_pool_contains (rb_pool b) p = true /\ hook = true) \/
  (hook && datagram_pool_contains (rb_pool b) p = false /\ exists q, malloc = Some q /\ acq = [BufMalloc q]) ->
  own b (p :: H) -> malloc_ok b malloc -> few (p :: H) ->
  exists q b', acquired acq = [q] /\ cache_bufs d acq b = Some b' /\ own b' (q :: p :: H) /\ same_pool b b' /\
    copies_foreign b' hook [q] /\ keeps b b' (p :: H) /\ (q = p \/ malloc = Some q /\ buf_read q b' = Some d).
Proof.
  intros [(-> & Hc & ->)|(Hf & q & -> & ->)] Ho Hm Hfew.
  - destruct (own_retain b _ p Ho) as (pool & E & Ho' & Hs & Hk); [by left|done|done|]. exists p, (set_pool pool b).
    split; [done|]. cbn [cache_bufs cache_buf]. rewrite E. split; [done|]. split; [done|]. split; [done|]. split; [done|].
    split; [done|by left].
  - exists q, (heap_malloc q d b). split; [done|]. split; [done|].
    pose proof (Hm q eq_refl) as Hfr. destruct (own_malloc b (p :: H) q d Ho Hfr) as (Ho' & Hk & Hr). split; [done|]. split; [done|].
    split; [intros _; apply list.Forall_cons; split; [apply Hfr|done]|]. split; [done|by right].
Qed.

(** The events of an insertion that stores. *)
Lemma cache_store_own hook rs acq malloc d b L L' p K q :
  Forall (is_letting_go hook) rs ->
  (acq = [BufRetain p] /\ datagram_pool_contains (rb_pool b) p = true /\ hook = true) \/
  (hook && datagram_pool_contains (rb_pool b) p = false /\ exists q, malloc = Some q /\ acq = [BufMalloc q]) ->
  L ++ acquired acq ≡ₚ released rs ++ L' -> acquired acq = [q] -> (q ∈ L') ->
  own b (L ++ p :: K) -> copies_foreign b hook L -> malloc_ok b malloc -> few (L ++ p :: K) ->
  exists b', cache_bufs d (rs ++ acq) b = Some b' /\ own b' (L' ++ p :: K) /\ same_pool b b' /\ copies_foreign b' hook L' /\
    (forall x, x ∈ L' ++ p :: K -> (x ∈ L ++ p :: K) -> buf_read x b' = buf_read x b) /\ (q = p \/ buf_read q b' = Some d).
Proof.
  intros Hgo Hacq Hperm Hq Hin Ho Hf Hm Hfew.
  destruct (list_elem_of_split _ q Hin) as (C1 & C2 & HC).
  assert (HC' : L' ≡ₚ q :: C1 ++ C2) by (rewrite HC; solve_Permutation).
  assert (HL : L ≡ₚ released rs ++ C1 ++ C2).
  { apply (Permutation_cons_inv (a := q)). rewrite Permutation_cons_append. rewrite Hq, HC' in Hperm. rewrite Hperm. solve_Permutation. }
  destruct (cache_gone hook rs d b L (C1 ++ C2) (p :: K) Hgo HL Ho Hf) as (b1 & E1 & Ho1 & Hs1 & Hf1 & Hk1).
  rewrite (cache_bufs_app _ _ _ _ _ E1).
  destruct (cache_take_own hook p malloc acq d b1 ((C1 ++ C2) ++ K)) as (q' & b2 & Hq' & E2 & Ho2 & Hs2 & Hf2 & Hk2 & Hr2).
  - by rewrite (same_pool_contains _ _ p Hs1).
  - eapply own_perm; [|exact Ho1]. solve_Permutation.
  - intros m Em. destruct (Hm m Em) as (H0 & Hc & _). apply (own_fresh _ _ _ Ho1); [done|by rewrite (same_pool_contains _ _ m Hs1)|].
    pose proof (fresh_not_owned _ _ _ Ho (Hm m Em)) as Hn. rewrite HL in Hn. set_solver.
  - unfold few in *. rewrite HL in Hfew. rewrite !length_app in Hfew. cbn [length] in *. rewrite !length_app. lia.
  - exists b2. split; [done|]. rewrite Hq in Hq'. injection Hq' as <-.
    split; [eapply own_perm; [|exact Ho2]; rewrite HC'; solve_Permutation|]. split; [by eapply same_pool_trans|].
    split; [intros Hr; rewrite HC'; apply list.Forall_cons; split; [by apply list.Forall_cons in Hf2 as [? _]|];
      by apply (copies_foreign_same _ _ _ _ Hs2 Hf1)|].
    split; [|by destruct Hr2 as [->|[_ ?]]; auto].
    assert (Hold : forall x, x ∈ (C1 ++ C2) ++ p :: K -> buf_read x b2 = buf_read x b)
      by (intros x Hx; rewrite (Hk2 x), (Hk1 x); [done|done|set_solver]).
    intros x Hx Hx'. rewrite HC' in Hx. cbn in Hx. apply elem_of_cons in Hx as [->|Hx]; [|by apply Hold].
    destruct Hr2 as [->|[Em _]]; [apply Hold; set_solver|]. by destruct (fresh_not_owned _ _ _ Ho (Hm q Em)).
Qed.

Lemma cache_insert_own g L hdr p len now oom malloc d b K :
  cache_inv g L -> 0 <= wh_shard_index hdr -> 0 <= len -> max_cache_bytes (gc_cfg (g_cache g)) + len < 2 ^ 64 ->
  gc_share (g_cache g) = gc_release (g_cache g) ->
  own b (cached_bufs L ++ p :: K) -> copies_foreign b (gc_release (g_cache g)) (cached_bufs L) -> malloc_ok b malloc ->
  few (cached_bufs L ++ p :: K) ->
  exists st out g' L' b', generation_cache_insert (datagram_pool_contains (rb_pool b)) malloc oom hdr p len now g = Some ((st, out), g') /\
    cache_inv g' L' /\ same_config g g' /\
    inserted (datagram_pool_contains (rb_pool b)) malloc (gc_share (g_cache g)) hdr p len now st out L (kept (g_cache g) now (-1) L) L' /\
    cache_bufs d (drop (length (g_log g)) (g_log g')) b = Some b' /\ own b' (cached_bufs L' ++ p :: K) /\ same_pool b b' /\
    copies_foreign b' (gc_release (g_cache g)) (cached_bufs L') /\
    (forall x, x ∈ cached_bufs L' ++ p :: K -> (x ∈ cached_bufs L ++ p :: K) -> buf_read x b' = buf_read x b) /\
    (st = GEN_INSERT_OK -> forall q,
       kept_as (datagram_pool_contains (rb_pool b)) malloc (gc_share (g_cache g)) p q -> q = p \/ buf_read q b' = Some d).
Proof.
  intros Hi Hs Hl Hmax Hsh Ho Hf Hm Hfew.
  destruct (insert_inv (datagram_pool_contains (rb_pool b)) malloc ltac:(intros q Eq; apply (Hm q Eq)) g L hdr p len now oom Hi Hs Hl Hmax)
    as (st & out & g' & L' & E & Hi' & Hc & Hins).
  exists st, out, g', L'.
  destruct (logs_insert _ _ _ _ _ _ _ _ _ _ E) as (_ & ev & Hlog & rs & acq & -> & Hgo & Hacq). cbn [hooks fst snd] in *.
  pose proof (cache_events _ _ _ _ _ Hi Hi' Hlog) as Hperm.
  rewrite acquired_app, released_app, (letting_go_acquires _ _ Hgo) in Hperm. cbn [app] in Hperm.
  rewrite Hlog, drop_app_length. destruct (decide (st = GEN_INSERT_OK)) as [->|Hst].
  2: { assert (acq = []) as -> by (by destruct st). cbn in Hperm. rewrite !app_nil_r in *.
       destruct (cache_gone _ rs d b _ _ (p :: K) Hgo Hperm Ho Hf) as (b1 & E1 & Ho1 & Hs1 & Hf1 & Hk1).
       exists b1. split_and!; try done. intros x Hx _. by apply Hk1. }
  assert (exists q, acquired acq = [q] /\ released acq = [] /\
    forall copy, kept_as (datagram_pool_contains (rb_pool b)) malloc (gc_share (g_cache g)) p copy -> copy = q) as (q & Hq & Hrel & Hkept).
  { unfold kept_as. destruct Hacq as [(-> & Hc1 & Hc2)|(Hc1 & q & -> & ->)].
    - exists p. rewrite Hc1, Hc2. done.
    - exists q. rewrite Hc1. split; [done|]. split; [done|]. by intros copy [= ->]. }
  pose proof (inserted_held _ _ _ _ _ _ _ _ _ _ _ _ _ Hins Hi' Hkept) as Hin. rewrite Hrel, app_nil_r in Hperm. rewrite Hsh in Hacq.
  destruct (cache_store_own _ rs acq malloc d b _ _ p K q Hgo Hacq Hperm Hq Hin Ho Hf Hm Hfew) as (b' & Eb & Ho' & Hs' & Hf' & Hk' & Hr').
  exists b'. split_and!; try done. intros _ q' Hq'. by rewrite (Hkept q' Hq').
Qed.

(** * Holdings

    A holding is a buffer somebody has, the length of the datagram in it, and whether it is held
    exclusively.  [good b L hook H]: the buffers of [H] and those of the cached generations [L] are
    exactly those in use, each holds the bytes its length promises, and nobody else has a buffer
    that is held exclusively.  One lemma per operation on buffers; [keeps] says whose bytes are
    untouched. *)

Record Holding := mkHold { hd_buf : Z; hd_len : Z; hd_excl : bool }.

Definition sized (b : RelayBufs) (h : Holding) : Prop :=
  0 <= hd_len h <= Z.of_nat RELAY_MAX_DATAGRAM /\
  exists bs, buf_read (hd_buf h) b = Some bs /\ hd_len h <= Z.of_nat (length bs).

Definition slot_sized (b : RelayBufs) (sl : GenerationSlot) : Prop :=
  gs_present sl = true -> sized b (mkHold (gs_copy sl) (gs_len sl) false).

Abbreviation all_bufs L H := (cached_bufs L ++ (hd_buf <$> (H : list Holding))).

Record good (b : RelayBufs) (L : list (nat * GenerationEntry)) (hook : bool) (H : list Holding) : Prop := {
  gd_own : own b (all_bufs L H);
  gd_sized : Forall (sized b) H;
  gd_cached : Forall (fun e => Forall (slot_sized b) (ge_slots e)) L.*2;
  gd_foreign : copies_foreign b hook (cached_bufs L);
  gd_excl : forall h, h ∈ H -> hd_excl h = true -> owners (all_bufs L H) (hd_buf h) = 1%nat }.

Section Good.
Context (L : list (nat * GenerationEntry)) (hook : bool).

Lemma good_perm b H K : H ≡ₚ K -> good b L hook H -> good b L hook K.
Proof using Type.
  intros E [H1 H2 H3 H4 H5]. split; [eapply own_perm; [|exact H1]; by rewrite E|by rewrite <- E|done|done|].
  intros h Hh Hx. rewrite <- E in Hh. rewrite <- (owners_perm (all_bufs L H)); [by apply H5|by rewrite E].
Qed.

Lemma sized_keeps b b' h : buf_read (hd_buf h) b' = buf_read (hd_buf h) b -> sized b h -> sized b' h.
Proof using Type. intros E [Hl (bs & Hr & Hn)]. split; [done|]. exists bs. by rewrite E. Qed.

Lemma slot_held (sl : GenerationSlot) (e : GenerationEntry) :
  (e ∈ L.*2) -> (sl ∈ ge_slots e) -> gs_present sl = true -> (gs_copy sl ∈ cached_bufs L).
Proof using Type.
  intros He Hs Hp. apply list_elem_of_bind. exists e. split; [|done]. apply list_elem_of_fmap. exists sl. split; [done|].
  by apply list_elem_of_filter.
Qed.

(** Lengths stay right when the bytes do. *)
Lemma cached_keeps b b' :
  keeps b b' (cached_bufs L) -> Forall (fun e => Forall (slot_sized b) (ge_slots e)) L.*2 ->
  Forall (fun e => Forall (slot_sized b') (ge_slots e)) L.*2.
Proof using Type.
  intros Hk Hc. rewrite list.Forall_forall in *. intros e He. specialize (Hc e He). rewrite list.Forall_forall in *.
  intros sl Hsl Hp. eapply sized_keeps; [|by apply (Hc sl Hsl Hp)]. apply Hk. by eapply slot_held.
Qed.

Lemma forall_keeps b b' H : keeps b b' (hd_buf <$> H) -> Forall (sized b) H -> Forall (sized b') H.
Proof using Type.
  intros Hk Hs. rewrite list.Forall_forall in *. intros h Hh. eapply sized_keeps; [|by apply Hs].
  apply Hk. by apply list_elem_of_fmap_2.
Qed.

Lemma keeps_app b b' H K : keeps b b' (H ++ K) -> keeps b b' H /\ keeps b b' K.
Proof using Type. intros Hk. split; eapply keeps_sub; try exact Hk; set_solver. Qed.

(** The whole of [good] after a step that keeps the bytes of everybody left. *)
Lemma good_step b b' H K :
  good b L hook K -> own b' (all_bufs L H) -> keeps b b' (all_bufs L H) -> same_pool b b' -> Forall (sized b) H ->
  (forall h, h ∈ H -> hd_excl h = true -> owners (all_bufs L H) (hd_buf h) = 1%nat) -> good b' L hook H.
Proof using Type.
  intros [_ _ H3 H4 _] Ho Hk Hs Hsz Hx. apply keeps_app in Hk as [Hk1 Hk2].
  split; [done|by eapply forall_keeps|by eapply cached_keeps|by eapply copies_foreign_same|done].
Qed.

Lemma all_bufs_cons h H : all_bufs L (h :: H) ≡ₚ hd_buf h :: all_bufs L H.
Proof using Type. rewrite fmap_cons. symmetry. apply Permutation_middle. Qed.

Lemma owners_all_cons h H p :
  owners (all_bufs L (h :: H)) p = ((if Z.eq_dec (hd_buf h) p then 1 else 0) + owners (all_bufs L H) p)%nat.
Proof using Type. rewrite (owners_perm _ _ p (all_bufs_cons h H)). apply owners_cons. Qed.

Lemma held_owner h H : (h ∈ H) -> (0 < owners (all_bufs L H) (hd_buf h))%nat.
Proof using Type. intros Hh. apply owners_pos, elem_of_app. right. by apply list_elem_of_fmap_2. Qed.

(** Somebody who holds a buffer exclusively is alone. *)
Lemma excl_alone b h H : good b L hook (h :: H) -> hd_excl h = true -> hd_buf h ∉ all_bufs L H.
Proof using Type.
  intros Hg Hx Hin. pose proof (gd_excl _ _ _ _ Hg h ltac:(by left) Hx) as E. rewrite owners_all_cons in E.
  apply owners_pos in Hin. destruct (Z.eq_dec _ _); [lia|done].
Qed.

Lemma good_resize b h n x bs H :
  good b L hook (h :: H) -> buf_read (hd_buf h) b = Some bs -> n <= Z.of_nat (length bs) ->
  0 <= n <= Z.of_nat RELAY_MAX_DATAGRAM -> (x = true -> hd_excl h = true) ->
  good b L hook (mkHold (hd_buf h) n x :: H).
Proof using Type.
  intros [H1 H2 H3 H4 H5] Hr Hb Hn Hx. split; [done| |done|done|].
  - apply list.Forall_cons in H2 as [_ H2]. constructor; [|done]. split; [done|]. by exists bs.
  - intros h' [->|Hh]%elem_of_cons E; [apply (H5 h); [by left|by apply Hx]|apply (H5 h'); [by right|done]].
Qed.

Lemma good_weaken b h n x H :
  good b L hook (h :: H) -> 0 <= n <= hd_len h -> (x = true -> hd_excl h = true) ->
  good b L hook (mkHold (hd_buf h) n x :: H).
Proof using Type.
  intros Hg Hn Hx. pose proof (gd_sized _ _ _ _ Hg) as Hs. apply list.Forall_cons in Hs as [[Hl (bs & Hr & Hb)] _].
  eapply good_resize; [done|done|lia|lia|done].
Qed.

Lemma good_release b h H :
  good b L hook (h :: H) ->
  exists b', relay_buf_release (hd_buf h) b = Some b' /\ good b' L hook H /\ same_pool b b' /\ keeps b b' (all_bufs L H).
Proof using Type.
  intros Hg. pose proof (own_perm _ _ _ (all_bufs_cons h H) (gd_own _ _ _ _ Hg)) as Ho.
  destruct (own_release b _ _ Ho) as (b' & E & Ho' & Hs & Hk). exists b'. split; [done|]. split; [|done].
  pose proof (gd_sized _ _ _ _ Hg) as Hsz. apply list.Forall_cons in Hsz as [_ Hsz]. eapply good_step; [exact Hg|done..|].
  intros h' Hh Hx. pose proof (gd_excl _ _ _ _ Hg h' ltac:(by right) Hx) as E'. rewrite owners_all_cons in E'.
  pose proof (held_owner h' H Hh). lia.
Qed.

Lemma good_read b h H : good b L hook (h :: H) -> exists bs, buf_read (hd_buf h) b = Some bs /\ hd_len h <= Z.of_nat (length bs).
Proof using Type. intros Hg. pose proof (gd_sized _ _ _ _ Hg) as Hs. by apply list.Forall_cons in Hs as [[_ ?] _]. Qed.

Lemma good_write b p n n' H bs :
  good b L hook (mkHold p n true :: H) -> 0 <= n' <= Z.of_nat RELAY_MAX_DATAGRAM -> n' <= Z.max n (Z.of_nat (length bs)) ->
  exists b' old, buf_write p bs b = Some b' /\ good b' L hook (mkHold p n' true :: H) /\ same_pool b b' /\
    keeps b b' (all_bufs L H) /\ buf_read p b = Some old /\ buf_read p b' = Some (bs ++ drop (length bs) old).
Proof using Type.
  intros Hg Hn Hm. pose proof (excl_alone _ _ _ Hg eq_refl) as Hal. cbn in Hal. pose proof (good_read _ _ _ Hg) as (o & Ho & Hlen).
  destruct (own_write b _ p bs (gd_own _ _ _ _ Hg)) as (b' & old & E & Ho' & Hp & Hr & Hr' & Hk).
  { apply elem_of_app. right. by left. }
  assert (Hs : same_pool b b') by (unfold same_pool; by rewrite Hp).
  assert (Hkeep : keeps b b' (all_bufs L H)) by (intros q Hq; apply Hk; by intros ->).
  exists b', old. split; [done|]. split; [|done]. destruct Hg as [G1 G2 G3 G4 G5]. apply keeps_app in Hkeep as [K1 K2].
  split; [done| |by eapply cached_keeps|by eapply copies_foreign_same|].
  - constructor; [|apply list.Forall_cons in G2 as [_ G2]; by eapply forall_keeps].
    split; [done|]. eexists. split; [exact Hr'|]. cbn in *. rewrite Ho in Hr. injection Hr as <-. rewrite length_app, length_drop. lia.
  - intros h [->|Hh]%elem_of_cons Hx; [apply (G5 (mkHold p n true)); [by left|done]|]. apply G5; [by right|done].
Qed.

Lemma good_new b b' p H :
  good b L hook H -> own b' (p :: all_bufs L H) -> same_pool b b' -> keeps b b' (all_bufs L H) -> p ∉ all_bufs L H ->
  good b' L hook (mkHold p 0 true :: H).
Proof using Type.
  intros Hg Ho Hs Hk Hn. pose proof (keeps_app _ _ _ _ Hk) as [K1 K2]. destruct Hg as [G1 G2 G3 G4 G5].
  assert (Ho' : own b' (all_bufs L (mkHold p 0 true :: H))) by (eapply own_perm; [symmetry; apply all_bufs_cons|done]).
  split; [done| |by eapply cached_keeps|by eapply copies_foreign_same|].
  - constructor; [|by eapply forall_keeps]. split; [cbn; lia|].
    destruct (own_read b' _ p Ho') as [bs Hr]; [apply elem_of_app; right; by left|]. exists bs. cbn. split; [done|lia].
  - intros h [->|Hh]%elem_of_cons Hx; rewrite owners_all_cons; cbn [hd_buf].
    + destruct (Z.eq_dec p p); [|done]. pose proof (owners_pos (all_bufs L H) p) as Hpos.
      destruct (owners (all_bufs L H) p) eqn:E; [lia|]. destruct Hn. apply Hpos. lia.
    + destruct (Z.eq_dec p (hd_buf h)) as [->|]; [|by apply G5]. destruct Hn. apply elem_of_app. right. by apply list_elem_of_fmap_2.
Qed.

Lemma good_acquire b H malloc :
  good b L hook H -> malloc_ok b malloc ->
  exists r b', relay_buf_acquire malloc b = Some (r, b') /\ same_pool b b' /\ keeps b b' (all_bufs L H) /\
    good b' L hook (match r with Some p => mkHold p 0 true :: H | None => H end) /\
    forall p, r = Some p -> datagram_pool_contains (rb_pool b) p = true \/ malloc = Some p.
Proof using Type.
  intros Hg Hm. destruct (own_acquire b _ malloc (gd_own _ _ _ _ Hg) Hm) as (r & b' & E & Ho & Hs & Hk & Hn).
  exists r, b'. split; [done|]. split; [done|]. split; [done|]. split; [|intros p Ep; by apply Hn]. destruct r as [p|].
  - apply (good_new b); try done. by apply Hn.
  - eapply good_step; [exact Hg|done..|apply Hg|apply Hg].
Qed.

(** A second holding of a buffer that is in the slab and that nobody has exclusively. *)
Lemma good_again b pool p n bs H :
  good b L hook H -> own (set_pool pool b) (p :: all_bufs L H) -> same_slab pool (rb_pool b) ->
  (forall h, h ∈ H -> hd_buf h = p -> hd_excl h = false) ->
  buf_read p b = Some bs -> n <= Z.of_nat (length bs) -> 0 <= n <= Z.of_nat RELAY_MAX_DATAGRAM ->
  good (set_pool pool b) L hook (mkHold p n false :: H).
Proof using Type.
  intros Hg Ho Hs Hx Hr Hn Hm. assert (Hk : forall K, keeps b (set_pool pool b) K) by (intros K; by apply keeps_mem).
  destruct Hg as [G1 G2 G3 G4 G5].
  split; [eapply own_perm; [symmetry; apply all_bufs_cons|done]| |by eapply cached_keeps|by eapply (copies_foreign_same b)|].
  - constructor; [|by eapply forall_keeps]. split; [done|]. exists bs. cbn. split; [|done]. rewrite <- Hr. apply (Hk [p]). by left.
  - intros h [->|Hh]%elem_of_cons E; [done|]. rewrite owners_all_cons. cbn [hd_buf].
    destruct (Z.eq_dec p (hd_buf h)) as [->|]; [by rewrite (Hx h Hh eq_refl) in E|]. by apply G5.
Qed.

Lemma good_share b H egress malloc p d bs :
  good b L hook H -> malloc_ok b malloc -> few (all_bufs L H) ->
  (datagram_pool_contains (rb_pool b) p = true -> (p ∈ all_bufs L H) /\ buf_read p b = Some bs /\ take (length d) bs = d /\
     forall h, h ∈ H -> hd_buf h = p -> hd_excl h = false) ->
  (length d <= RELAY_MAX_DATAGRAM)%nat ->
  exists r b', relay_share_or_copy egress malloc p d b = Some (r, b') /\ same_pool b b' /\ keeps b b' (all_bufs L H) /\
    match r with
    | Some q => good b' L hook (mkHold q (Z.of_nat (length d)) egress :: H) /\
        (datagram_pool_contains (rb_pool b) q = true \/ malloc = Some q) /\
        exists bs', buf_read q b' = Some bs' /\ take (length d) bs' = d
    | None => good b' L hook H
    end.
Proof using Type.
  intros Hg Hm Hf Hp Hd. unfold relay_share_or_copy. rewrite (ow_inited _ _ (gd_own _ _ _ _ Hg)).
  destruct (true && negb egress && datagram_pool_contains (rb_pool b) p) eqn:Ec.
  - apply andb_true_iff in Ec as [He Hc]. destruct (Hp Hc) as (Hin & Hr & Ht & Hx). destruct egress; [done|].
    destruct (own_retain b _ p (gd_own _ _ _ _ Hg) Hin Hc Hf) as (pool & -> & Ho' & Hs & Hk).
    cbn [mbind option_bind]. exists (Some p), (set_pool pool b). split; [done|]. split; [done|]. split; [done|]. split.
    + eapply good_again; try done; [|lia]. apply (f_equal length) in Ht. rewrite length_take in Ht. lia.
    + split; [by left|]. exists bs. split; [|done]. rewrite <- Hr. apply (Hk [p]). by left.
  - destruct (good_acquire b H malloc Hg Hm) as (r & b1 & -> & Hs1 & Hk1 & Hg1 & Hn1). cbn [mbind option_bind].
    destruct r as [q|]; [|by exists None, b1].
    destruct (good_write b1 q 0 (Z.of_nat (length d)) H d Hg1) as (b2 & old & -> & Hg2 & Hs2 & Hk2 & _ & Hr2); [lia|lia|].
    cbn [mbind option_bind]. exists (Some q), b2. split; [done|]. split; [by eapply same_pool_trans|].
    split; [by eapply rb_keeps_trans|]. split; [apply (good_weaken _ _ _ egress _ Hg2); [cbn; lia|done]|].
    split; [by apply Hn1|]. eexists. split; [done|]. apply take_app_length.
Qed.

End Good.

(** ** The cache *)

(** The entries of [L'] are entries of [L]. *)
Definition fewer (L' L : list (nat * GenerationEntry)) : Prop := forall e, e ∈ L'.*2 -> e ∈ L.*2.

Lemma sublist_fewer L' L : sublist L' L -> fewer L' L.
Proof. intros Hs e (x & -> & Hx)%list_elem_of_fmap. apply list_elem_of_fmap_2. by eapply elem_of_sublist. Qed.

Lemma fewer_trans a b c : fewer a b -> fewer b c -> fewer a c.
Proof. intros F1 F2 e He. by apply F2, F1. Qed.

Lemma cached_fewer b b' L L' H :
  fewer L' L -> (forall x, x ∈ cached_bufs L' ++ H -> (x ∈ cached_bufs L ++ H) -> buf_read x b' = buf_read x b) ->
  Forall (fun e => Forall (slot_sized b) (ge_slots e)) L.*2 -> Forall (fun e => Forall (slot_sized b') (ge_slots e)) L'.*2.
Proof.
  intros Hf Hk Hc. rewrite list.Forall_forall in *. intros e He. specialize (Hc e (Hf e He)). rewrite list.Forall_forall in *.
  intros sl Hsl Hp. eapply sized_keeps; [|by apply (Hc sl Hsl Hp)].
  apply Hk; apply elem_of_app; left; eapply slot_held; eauto.
Qed.

Lemma owners_app H K p : owners (H ++ K) p = (owners H p + owners K p)%nat.
Proof. apply count_occ_app. Qed.

(** A call that only removes entries. *)
Lemma good_go {A} (m : G A) g g' a L L' d b H :
  logs m lets_go -> m g = Some (a, g') -> cache_inv g L -> cache_inv g' L' -> fewer L' L ->
  good b L (gc_release (g_cache g)) H ->
  exists b', cache_bufs d (drop (length (g_log g)) (g_log g')) b = Some b' /\ good b' L' (gc_release (g_cache g)) H /\
    same_pool b b' /\ keeps b b' (all_bufs L' H) /\ hooks (g_cache g') = hooks (g_cache g).
Proof.
  intros Hm E HL HL' Hf Hg.
  destruct (cache_go_own m g g' a L L' d b _ Hm E HL HL' (gd_own _ _ _ _ Hg) (gd_foreign _ _ _ _ Hg))
    as (b' & Eb & Ho & Hs & Hh & Hc & Hk).
  exists b'. split; [done|]. split; [|done]. destruct (Hm _ _ _ E) as (_ & ev & Hlog & Hgo).
  pose proof (cache_events _ _ _ _ _ HL HL' Hlog) as Hp. rewrite (letting_go_acquires _ _ Hgo), app_nil_r in Hp.
  split; [done| | |done|].
  - eapply forall_keeps; [|apply Hg]. by apply keeps_app in Hk as [_ Hk].
  - eapply (cached_fewer b b' L L' (hd_buf <$> H) Hf); [intros x Hx _; by apply Hk|apply Hg].
  - intros h Hh' Hx. pose proof (gd_excl _ _ _ _ Hg h Hh' Hx) as E1. rewrite owners_app in E1 |- *.
    rewrite (owners_perm _ _ (hd_buf h) Hp), owners_app in E1.
    assert (0 < owners (hd_buf <$> H) (hd_buf h))%nat by (apply owners_pos; by apply list_elem_of_fmap_2). lia.
Qed.

(** Where the slots come from after an insertion. *)
Lemma inserted_slots is_shared malloc share hdr p len now c st out L L' e sl :
  inserted is_shared malloc share hdr p len now st out L (kept c now (-1) L) L' -> (e ∈ L'.*2) -> (sl ∈ ge_slots e) ->
  gs_present sl = true ->
  (exists e0, (e0 ∈ L.*2) /\ (sl ∈ ge_slots e0)) \/
  (st = GEN_INSERT_OK /\ exists copy, sl = mkSlot copy len true /\ kept_as is_shared malloc share p copy).
Proof.
  pose proof (sublist_fewer _ _ (kept_sublist c now (-1) L)) as HK. intros Hins He Hsl Hp. destruct st; cbn [inserted] in Hins.
  - destruct Hins as (a & e1 & rest & copy & _ & -> & Hsub & _ & _ & Hk & _ & e0 & -> & He0). cbn [fmap list_fmap snd] in He.
    apply elem_of_cons in He as [->|He].
    + destruct (filled_fields hdr copy len now e0) as (_ & Hs & _). rewrite Hs in Hsl.
      apply list_elem_of_lookup in Hsl as [i Hi]. apply list_lookup_insert_Some in Hi as [(_ & <- & _)|(_ & Hi)].
      * right. split; [done|]. by exists copy.
      * apply list_elem_of_lookup_2 in Hi. destruct He0 as [He0| ->].
        -- left. exists e0. split; [|done]. apply HK. apply list_elem_of_fmap. by exists (a, e0).
        -- cbn [new_entry ge_slots] in Hi. apply elem_of_replicate in Hi as [-> _]. done.
    + left. exists e. split; [|done]. apply HK. by apply (sublist_fewer _ _ Hsub).
  - destruct Hins as [-> _]. left. exists e. split; [by apply HK|done].
  - left. exists e. split; [|done]. destruct Hins as [-> | ->]; [done|by apply HK].
  - destruct Hins as [Hsub _]. left. exists e. split; [|done]. apply HK. by apply (sublist_fewer _ _ Hsub).
  - destruct Hins as [-> _]. left. by exists e.
Qed.

(** What is left to see once the buffers are settled: [new] are the copies the cache may have got. *)
Lemma good_inserted b b' L L' (stored : Prop) (new : Z -> Prop) p len hook H :
  good b L hook (mkHold p len true :: H) -> own b' (cached_bufs L' ++ p :: (hd_buf <$> H)) -> copies_foreign b' hook (cached_bufs L') ->
  (forall q, new q -> (q = p /\ hook = true) \/ q ∉ all_bufs L (mkHold p len true :: H)) ->
  (stored -> forall q, new q -> q = p \/ exists d, buf_read q b' = Some d /\ Z.of_nat (length d) = len) ->
  (forall e sl, e ∈ L'.*2 -> sl ∈ ge_slots e -> gs_present sl = true ->
    (exists e0, (e0 ∈ L.*2) /\ (sl ∈ ge_slots e0)) \/ (stored /\ exists copy, sl = mkSlot copy len true /\ new copy)) ->
  (forall x, x ∈ all_bufs L' (mkHold p len true :: H) -> (x ∈ all_bufs L (mkHold p len true :: H)) -> buf_read x b' = buf_read x b) ->
  good b' L' hook (mkHold p len (negb hook) :: H).
Proof.
  intros Hg Ho Hf Hnew Hread Hslots Hk. pose proof (excl_alone _ _ _ _ _ Hg eq_refl) as Hp. cbn [hd_buf] in Hp.
  assert (Hcached : forall x, x ∈ cached_bufs L' -> (x ∈ cached_bufs L) \/ new x).
  { intros x (e & He & Hx)%list_elem_of_bind. apply list_elem_of_fmap in He as (sl & -> & [Hp1 Hsl]%list_elem_of_filter).
    destruct (Hslots e sl Hx Hsl Hp1) as [(e0 & He0 & Hs0)|(_ & copy & -> & Hk0)]; [left|by right]. by eapply slot_held. }
  pose proof (gd_sized _ _ _ _ Hg) as Hsz.
  assert (Hsz' : Forall (sized b') (mkHold p len true :: H)).
  { eapply forall_keeps; [|exact Hsz]. intros x Hx. apply Hk; apply elem_of_app; by right. }
  assert (Hone : forall x, x ∈ p :: (hd_buf <$> H) -> x ∉ cached_bufs L' -> owners (all_bufs L (mkHold p len true :: H)) x = 1%nat ->
    owners (cached_bufs L' ++ p :: (hd_buf <$> H)) x = 1%nat).
  { intros x Hx Hn E. apply owners_pos in Hx. change (all_bufs L (mkHold p len true :: H)) with (cached_bufs L ++ p :: (hd_buf <$> H)) in E.
    rewrite owners_app in E |- *. pose proof (owners_pos (cached_bufs L') x) as Hpos.
    destruct (owners (cached_bufs L') x); [lia|]. destruct Hn. apply Hpos. lia. }
  assert (Hout : forall h, h ∈ mkHold p len true :: H -> hd_excl h = true -> (hd_buf h = p -> hook = false) -> hd_buf h ∉ cached_bufs L').
  { intros h Hh Hx Hhp Hin. pose proof (gd_excl _ _ _ _ Hg h Hh Hx) as E. apply Hcached in Hin as [Hin|Hin].
    - rewrite owners_app in E. apply owners_pos in Hin. apply (list_elem_of_fmap_2 hd_buf) in Hh. apply owners_pos in Hh. lia.
    - destruct (Hnew _ Hin) as [[Ep Et]|Hn]; [by rewrite Hhp in Et|]. destruct Hn. apply elem_of_app. right. by apply list_elem_of_fmap_2. }
  apply list.Forall_cons in Hsz' as [Hsp Hsz']. split; [done|by constructor| |done|].
  - rewrite list.Forall_forall. intros e He. rewrite list.Forall_forall. intros sl Hsl Hpr. pose proof Hpr as Hpr'.
    apply (Hslots e sl He Hsl) in Hpr' as [(e0 & He0 & Hs0)|(Hst & copy & -> & Hkc)].
    + eapply (sized_keeps b); [cbn; apply Hk; apply elem_of_app; left; by eapply slot_held|].
      pose proof (gd_cached _ _ _ _ Hg) as Hc. rewrite list.Forall_forall in Hc. specialize (Hc e0 He0). rewrite list.Forall_forall in Hc. by apply Hc.
    + cbn [gs_copy gs_len]. destruct (Hread Hst copy Hkc) as [->|(d & Hr & Hd)]; [exact Hsp|]. destruct Hsp as [Hl _].
      split; [done|]. exists d. cbn. split; [done|lia].
  - intros h Hh Hx. apply Hone; [by apply (list_elem_of_fmap_2 hd_buf) in Hh| |].
    + apply elem_of_cons in Hh as [->|Hh]; [|apply Hout; [by right|done|]].
      * apply (Hout (mkHold p len true)); [by left|done|]. intros _. cbn in Hx. by apply negb_true_iff in Hx.
      * intros <-. destruct Hp. apply elem_of_app. right. by apply list_elem_of_fmap_2.
    + apply elem_of_cons in Hh as [->|Hh]; [apply (gd_excl _ _ _ _ Hg (mkHold p len true)); [by left|done]|].
      apply (gd_excl _ _ _ _ Hg h); [by right|done].
Qed.

Lemma good_insert g L hdr p len now oom malloc d b H :
  cache_inv g L -> 0 <= wh_shard_index hdr -> max_cache_bytes (gc_cfg (g_cache g)) + Z.of_nat RELAY_MAX_DATAGRAM < 2 ^ 64 ->
  gc_share (g_cache g) = gc_release (g_cache g) ->
  good b L (gc_release (g_cache g)) (mkHold p len true :: H) -> Z.of_nat (length d) = len -> malloc_ok b malloc ->
  few (all_bufs L (mkHold p len true :: H)) ->
  exists st out g' L' b', generation_cache_insert (datagram_pool_contains (rb_pool b)) malloc oom hdr p len now g = Some ((st, out), g') /\
    cache_inv g' L' /\ same_config g g' /\
    inserted (datagram_pool_contains (rb_pool b)) malloc (gc_share (g_cache g)) hdr p len now st out L (kept (g_cache g) now (-1) L) L' /\
    cache_bufs d (drop (length (g_log g)) (g_log g')) b = Some b' /\ same_pool b b' /\
    good b' L' (gc_release (g_cache g)) (mkHold p len (negb (gc_release (g_cache g))) :: H) /\
    (forall x, x ∈ all_bufs L' (mkHold p len true :: H) -> (x ∈ all_bufs L (mkHold p len true :: H)) -> buf_read x b' = buf_read x b).
Proof.
  intros Hi Hsh Hmax Hhook Hg Hd Hm Hfew. pose proof (gd_sized _ _ _ _ Hg) as Hsz.
  apply list.Forall_cons in Hsz as [[Hlen (bs & Hr & Hbs)] Hsz]. cbn [hd_len hd_buf] in *.
  destruct (cache_insert_own g L hdr p len now oom malloc d b (hd_buf <$> H) Hi Hsh) as
    (st & out & g' & L' & b' & E & Hi' & Hc & Hins & Eb & Ho & Hs & Hf & Hk & Hnew); try done; [lia|lia|apply Hg|apply Hg|].
  exists st, out, g', L', b'. split_and!; try done.
  apply (good_inserted b b' L L' (st = GEN_INSERT_OK) (kept_as (datagram_pool_contains (rb_pool b)) malloc (gc_share (g_cache g)) p));
    try done.
  - unfold kept_as. rewrite Hhook. intros q Hq.
    destruct (_ && _) eqn:Ea; [left; apply andb_true_iff in Ea as [? _]; done|right].
    apply (fresh_not_owned b); [apply Hg|by apply Hm].
  - intros Hst q Hq. destruct (Hnew Hst q Hq) as [->|]; [by left|right]. by exists d.
  - intros e sl He Hsl Hp. by eapply inserted_slots.
Qed.

(** * The relay's invariant

    [rinv s L K]: the queues, the backlog and the cache of the relay are in order, and the buffers
    in use are exactly those queued, those cached in [L] and those in [K], the hands of threads.
    [calm] relates states between which the queues did not change and nobody's bytes did. *)

Definition has_egress (c : RelayConfig) : bool := bool_decide (is_Some (cf_egress_fn c)).

(** A queued packet is shared with the cache at most, a deferred one with nobody; when datagrams
    are rewritten at the egress, nothing is shared. *)
Definition pk_hold (egress : bool) (pkt : EgressPacket) : Holding := mkHold (ep_datagram pkt) (ep_len pkt) egress.
Definition dp_hold (pkt : RelayDeferredPacket) : Holding := mkHold (RelayDeferred.dp_datagram pkt) (RelayDeferred.dp_len pkt) true.

Definition queue_holds (s : RelayCtx) : list Holding :=
  (pk_hold (has_egress (rl_config s)) <$> queued (rl_ack_egress s)) ++
  (pk_hold (has_egress (rl_config s)) <$> queued (rl_data_egress s)) ++ (dp_hold <$> items (view (rl_deferred s))).

Definition payload_ok (e : GenerationEntry) : Prop := 0 <= ge_payload_len e < 2 ^ 16.

(** A recode function reports a length that is there: what it wrote, or what was in the buffer. *)
Definition hooks_ok (c : RelayConfig) : Prop :=
  forall f d buf h rc out n, cf_recode_fn c = Some f -> f d buf h = (rc, out, n) ->
    (default (length d) n <= Nat.max (length (default [] out)) (length buf))%nat.

(** The cache, while there is one; it shares the buffers of the slab unless datagrams are rewritten
    at the egress. *)
Record caching (g : gst) (c : RelayConfig) (L : list (nat * GenerationEntry)) : Prop := {
  ca_inv : cache_inv g L;
  ca_share : gc_share (g_cache g) = negb (has_egress c);
  ca_release : gc_release (g_cache g) = negb (has_egress c);
  ca_limit : max_cache_bytes (gc_cfg (g_cache g)) + Z.of_nat RELAY_MAX_DATAGRAM < 2 ^ 64 }.

Record rinv (s : RelayCtx) (L : list (nat * GenerationEntry)) (K : list Holding) : Prop := {
  ri_ack : egress_ok (rl_ack_egress s);
  ri_data : egress_ok (rl_data_egress s);
  ri_hub : hub_ok (rl_deferred s);
  ri_caching : rl_cache_enabled s = true -> caching (rl_gen_cache s) (rl_config s) L;
  ri_off : rl_cache_enabled s = false -> L = [];
  ri_payload : Forall payload_ok L.*2;
  ri_recoder : RecodeSpec.ring_ok (rl_recoder s);
  ri_gf : table_ok (rl_gf s);
  ri_hooks : hooks_ok (rl_config s);
  ri_acks : length (rl_source_ack s) = RELAY_SOURCE_ACK_CAPACITY;
  ri_free : forall ack, eq_packet_free (lane ack s) <> 0;
  ri_hub_free : hub_packet_free (rl_deferred s) <> 0;
  ri_good : good (rl_bufs s) L (negb (has_egress (rl_config s))) (queue_holds s ++ K) }.

Lemma rinv_perm s L K K' : K ≡ₚ K' -> rinv s L K -> rinv s L K'.
Proof. intros E []. split; try done. eapply good_perm; [|done]. by rewrite E. Qed.

(** Everybody's buffers: the cache's, the queues', those in hand. *)
Abbreviation in_use s L K := (all_bufs L (queue_holds s ++ K)).

(** ** Steps that do not touch the queues *)

Record calm (s s' : RelayCtx) (F : list Holding) : Prop := {
  cm_config : rl_config s' = rl_config s;
  cm_queues : queue_holds s' = queue_holds s;
  cm_pool : same_pool (rl_bufs s) (rl_bufs s');
  cm_bytes : keeps (rl_bufs s) (rl_bufs s') (hd_buf <$> queue_holds s ++ F) }.

Lemma calm_refl s F : calm s s F.
Proof. by split. Qed.
#[export] Hint Resolve calm_refl : core.

Lemma calm_trans a b c F : calm a b F -> calm b c F -> calm a c F.
Proof.
  intros [A1 A2 A3 A4] [B1 B2 B3 B4]. split; [congruence|congruence|by eapply same_pool_trans|].
  rewrite A2 in B4. by eapply rb_keeps_trans.
Qed.

Lemma calm_sub s s' F F' : (forall h, h ∈ F' -> h ∈ F) -> calm s s' F -> calm s s' F'.
Proof.
  intros Hsub [? ? ? Hk]. split; try done. eapply keeps_sub; [|exact Hk]. intros p (h & -> & Hh)%list_elem_of_fmap.
  apply list_elem_of_fmap_2. apply elem_of_app in Hh as [?|?]; apply elem_of_app; auto.
Qed.

Lemma calm_tail s s' h F : calm s s' (h :: F) -> calm s s' F.
Proof. apply calm_sub. intros x Hx. by right. Qed.

(** States that differ in counters, routes, outputs and the like. *)
Record same_core (s s' : RelayCtx) : Prop := {
  sc_config : rl_config s' = rl_config s;
  sc_bufs : rl_bufs s' = rl_bufs s;
  sc_ack : rl_ack_egress s' = rl_ack_egress s;
  sc_data : rl_data_egress s' = rl_data_egress s;
  sc_hub : rl_deferred s' = rl_deferred s;
  sc_cache : rl_gen_cache s' = rl_gen_cache s;
  sc_enabled : rl_cache_enabled s' = rl_cache_enabled s;
  sc_recoder : rl_recoder s' = rl_recoder s;
  sc_gf : rl_gf s' = rl_gf s;
  sc_acks : length (rl_source_ack s') = length (rl_source_ack s) }.

Lemma same_core_refl s : same_core s s.
Proof. by split. Qed.
Lemma same_core_trans a b c : same_core a b -> same_core b c -> same_core a c.
Proof. intros [] []. split; congruence. Qed.
#[export] Hint Resolve same_core_refl : core.

Lemma same_core_holds s s' : same_core s s' -> queue_holds s' = queue_holds s.
Proof. intros []. unfold queue_holds. congruence. Qed.

Lemma same_core_calm s s' F : same_core s s' -> calm s s' F.
Proof. intros H. split; [apply H|by apply same_core_holds|by rewrite (sc_bufs _ _ H)|by rewrite (sc_bufs _ _ H)]. Qed.

Lemma same_core_rinv s s' L K : same_core s s' -> rinv s L K -> rinv s' L K.
Proof.
  intros H []. pose proof (same_core_holds _ _ H) as Eq. destruct H as [Ec Eb Ea Ed Eh Eg Ee Er Ef El].
  split; rewrite ?Ec, ?Eb, ?Ea, ?Ed, ?Eh, ?Eg, ?Ee, ?Er, ?Ef, ?El, ?Eq; try done.
  intros ack. unfold lane. rewrite Ea, Ed. apply ri_free0.
Qed.

Lemma count_core slot st s : exists s', count slot st s = Some (tt, s') /\ same_core s s'.
Proof. eexists. split; [done|]. by split. Qed.
Lemma count_total_core st s : exists s', count_total st s = Some (tt, s') /\ same_core s s'.
Proof. eexists. split; [done|]. by split. Qed.
Lemma sync_cache_core s : exists s', sync_cache_stats_to_total s = Some (tt, s') /\ same_core s s'.
Proof.
  eexists. split; [done|]. destruct (rl_cache_enabled s) eqn:E; [|done]. by split.
Qed.

(** ** The buffers of a relay *)

(** The hands of the acting thread come first. *)
Lemma rinv_front s L h K : rinv s L (h :: K) -> good (rl_bufs s) L (negb (has_egress (rl_config s))) (h :: queue_holds s ++ K).
Proof. intros H. eapply good_perm; [|apply (ri_good _ _ _ H)]. symmetry. apply Permutation_middle. Qed.

Lemma with_bufs_rinv s L K K' b :
  rinv s L K -> good b L (negb (has_egress (rl_config s))) (queue_holds s ++ K') -> rinv (with_bufs (fun _ => b) s) L K'.
Proof. intros [] Hg. split; done. Qed.

Lemma with_bufs_calm s b F :
  same_pool (rl_bufs s) b -> keeps (rl_bufs s) b (hd_buf <$> queue_holds s ++ F) -> calm s (with_bufs (fun _ => b) s) F.
Proof. intros Hs Hk. by split. Qed.

Lemma release_run s L h F :
  rinv s L (h :: F) -> exists s', release (hd_buf h) s = Some (tt, s') /\ rinv s' L F /\ calm s s' F.
Proof.
  intros H. destruct (good_release _ _ _ _ _ (rinv_front _ _ _ _ H)) as (b & E & Hg & Hs & Hk).
  exists (with_bufs (fun _ => b) s). unfold release, bufs. rewrite E. split; [done|].
  split; [by eapply with_bufs_rinv|]. apply with_bufs_calm; [done|]. by apply keeps_app in Hk as [_ Hk].
Qed.

Lemma read_run s L h F :
  rinv s L (h :: F) -> exists bs, buf_read (hd_buf h) (rl_bufs s) = Some bs /\ hd_len h <= Z.of_nat (length bs) /\
    0 <= hd_len h <= Z.of_nat RELAY_MAX_DATAGRAM /\
    forall n, read_datagram (hd_buf h) n s = Some (take (Z.to_nat n) bs, s).
Proof.
  intros H. pose proof (rinv_front _ _ _ _ H) as Hg. destruct (good_read _ _ _ _ _ Hg) as (bs & Hr & Hl).
  exists bs. split; [done|]. split; [done|]. pose proof (gd_sized _ _ _ _ Hg) as Hs. apply list.Forall_cons in Hs as [[Hm _] _].
  split; [done|]. intros n. unfold read_datagram. rewrite (bind_run _ _ s (Some (take (Z.to_nat n) bs)) s); [done|].
  unfold gets, datagram_at. by rewrite Hr.
Qed.

Lemma write_run s L p n n' F bs :
  rinv s L (mkHold p n true :: F) -> 0 <= n' <= Z.of_nat RELAY_MAX_DATAGRAM -> n' <= Z.max n (Z.of_nat (length bs)) ->
  exists s' old, write_buf p bs s = Some (tt, s') /\ rinv s' L (mkHold p n' true :: F) /\ calm s s' F /\
    buf_read p (rl_bufs s) = Some old /\ buf_read p (rl_bufs s') = Some (bs ++ drop (length bs) old) /\
    (exists b, s' = with_bufs (fun _ => b) s).
Proof.
  intros H Hn Hm. destruct (good_write _ _ _ _ _ n' _ bs (rinv_front _ _ _ _ H) Hn Hm) as (b & old & E & Hg & Hs & Hk & Hr & Hr').
  exists (with_bufs (fun _ => b) s), old. unfold write_buf, bufs. rewrite E. split; [done|].
  split; [eapply with_bufs_rinv; [exact H|]; eapply good_perm; [|exact Hg]; apply Permutation_middle|].
  split; [apply with_bufs_calm; [done|]; by apply keeps_app in Hk as [_ Hk]|]. split; [done|]. split; [done|]. by exists b.
Qed.

(** A shared datagram: a length or a claim of exclusiveness less. *)
Lemma rinv_weaken s L p n x n' x' F :
  rinv s L (mkHold p n x :: F) -> 0 <= n' <= n -> (x' = true -> x = true) -> rinv s L (mkHold p n' x' :: F).
Proof.
  intros H Hn Hx. pose proof (good_weaken _ _ _ _ n' x' _ (rinv_front _ _ _ _ H) Hn Hx) as Hg. destruct H. split; try done.
  eapply good_perm; [|exact Hg]. apply Permutation_middle.
Qed.

Lemma drop_run s L h F slot st res :
  rinv s L (h :: F) -> exists s', drop_datagram (hd_buf h) slot st res s = Some (done_with res, s') /\ rinv s' L F /\ calm s s' F.
Proof.
  intros H. unfold drop_datagram. destruct (count_core slot st s) as (s1 & E1 & C1). rewrite (bind_run _ _ _ _ _ E1).
  destruct (release_run s1 L h F (same_core_rinv _ _ _ _ C1 H)) as (s2 & E2 & H2 & K2). rewrite (bind_run _ _ _ _ _ E2).
  exists s2. split; [done|]. split; [done|]. eapply calm_trans; [by apply same_core_calm|done].
Qed.
