(* ===== verification/RelayIngress.v ===== *)
(** * What a submission does with the cache and the recoder

    Both calls are defined in every state of the relay, leave each buffer with exactly the holders
    it has and touch the bytes of nobody. *)

From Stdlib Require Import Strings.Byte.
From S2P Require Import Prelude Ring WireHeader Gf256 ByteVec DatagramPool EgressQueue.
From S2P Require Import RelayDeferred RelayDeferredSpec GenerationCache GenerationCacheList.
From S2P Require Import GenerationCacheSpec RsBats Recode RecodeSpec Relay RelayInv.

Local Open Scope Z_scope.

(** ** The cache *)

Lemma inserted_payload is_shared malloc share hdr p len now c st out L L' :
  inserted is_shared malloc share hdr p len now st out L (kept c now (-1) L) L' -> in_range 16 (wh_payload_len hdr) ->
  Forall payload_ok L.*2 -> Forall payload_ok L'.*2.
Proof.
  pose proof (sublist_fewer _ _ (kept_sublist c now (-1) L)) as HK. intros Hins Hh HL. rewrite list.Forall_forall in *.
  assert (Hall : forall L1, fewer L1 (kept c now (-1) L) -> forall e, e ∈ L1.*2 -> payload_ok e)
    by (intros L1 Hf e He; by apply HL, HK, Hf).
  destruct st; cbn [inserted] in Hins.
  - destruct Hins as (a & e1 & rest & copy & _ & -> & Hsub & _ & _ & _ & _ & e0 & -> & He0). cbn [fmap list_fmap snd].
    intros e [->|He]%elem_of_cons; [|by apply (Hall rest); [apply sublist_fewer|]].
    assert (Hp : ge_payload_len (filled hdr copy len now e0) = ge_payload_len e0) by (unfold filled; by destruct (_ && _)).
    unfold payload_ok. rewrite Hp. destruct He0 as [He0| ->]; [|done]. apply HL, HK. apply list_elem_of_fmap. by exists (a, e0).
  - destruct Hins as [-> _]. exact (Hall _ (fun e He => He)).
  - destruct Hins as [-> | ->]; [done|exact (Hall _ (fun e He => He))].
  - destruct Hins as [Hsub _]. by apply (Hall _ (sublist_fewer _ _ Hsub)).
  - by destruct Hins as [-> _].
Qed.

(** The entry an insertion returns. *)
Lemma inserted_entry is_shared malloc share hdr p len now c st out L L' g :
  inserted is_shared malloc share hdr p len now st out L (kept c now (-1) L) L' -> cache_inv g L' ->
  st = GEN_INSERT_OK \/ st = GEN_INSERT_DUPLICATE ->
  exists a e, out = Some a /\ g_heap g !! a = Some e /\ (strip e ∈ L'.*2).
Proof.
  intros Hins Hg Hst.
  assert (exists a e, out = Some a /\ ((a, e) ∈ L')) as (a & e & -> & He).
  { destruct Hst as [-> | ->]; cbn [inserted] in Hins.
    - destruct Hins as (a & e & rest & copy & -> & -> & _). exists a, e. split; [done|by left].
    - destruct Hins as (-> & a & e & sl & -> & He & _). by exists a, e. }
  destruct (rep_lookup _ _ _ a e (ci_rep _ _ Hg)) as (e0 & E0 & <-); [apply elem_of_app; by left|].
  exists a, e0. split; [done|]. split; [done|]. apply list_elem_of_fmap. by exists (a, strip e0).
Qed.

Lemma with_cache_bufs_rinv s L L' K K' g b :
  rinv s L K -> rl_cache_enabled s = true -> cache_inv g L' -> same_config (rl_gen_cache s) g -> Forall payload_ok L'.*2 ->
  good b L' (negb (has_egress (rl_config s))) (queue_holds s ++ K') ->
  rinv (with_bufs (fun _ => b) (with_cache g (rl_cache_enabled s) s)) L' K'.
Proof.
  intros [] En Hg (C1 & C2 & C3) Hp Hgood. destruct (ri_caching En) as [I1 I2 I3 I4].
  split; try done; cbn; rewrite ?En; try done. intros _. split; rewrite ?C1, ?C2, ?C3; done.
Qed.

Lemma cache_expire_run s L K d now flt :
  rinv s L K -> rl_cache_enabled s = true ->
  exists n s' L', cache_call d (generation_cache_expire now flt) s = Some (n, s') /\ rinv s' L' K /\ calm s s' K.
Proof.
  intros H En. destruct (ri_caching _ _ _ H En) as [I1 I2 I3 I4].
  destruct (expire_inv (rl_gen_cache s) L now flt I1) as (n & g' & E & Hg' & Hc).
  pose proof (sublist_fewer _ _ (kept_sublist (g_cache (rl_gen_cache s)) now flt L)) as Hf.
  pose proof (ri_good _ _ _ H) as Hgd. rewrite <- I3 in Hgd.
  destruct (good_go (generation_cache_expire now flt) _ g' n L _ d _ _ (logs_expire now flt) E I1 Hg' Hf Hgd)
    as (b & Eb & Hgood & Hs & Hk & _).
  exists n. unfold cache_call, generation_cache_expire. rewrite E, Eb. eexists _, _. split; [done|].
  assert (Hp : Forall payload_ok (kept (g_cache (rl_gen_cache s)) now flt L).*2).
  { rewrite list.Forall_forall. intros e He. pose proof (ri_payload _ _ _ H) as Hp. rewrite list.Forall_forall in Hp. by apply Hp, Hf. }
  rewrite I3 in Hgood.
  split; [by eapply with_cache_bufs_rinv|]. split; try done. by apply keeps_app in Hk as [_ Hk].
Qed.

(** Addresses the host's allocator may return. *)
Definition unowned (s : RelayCtx) (H : list Z) (p : Z) : Prop :=
  p <> 0 /\ datagram_pool_contains (rb_pool (rl_bufs s)) p = false /\ p ∉ H.

Lemma unowned_malloc s L K malloc :
  rinv s L K -> (forall p, malloc = Some p -> unowned s (in_use s L K) p) -> malloc_ok (rl_bufs s) malloc.
Proof.
  intros H Hm p Ep. destruct (Hm p Ep) as (H0 & Hc & Hn). eapply own_fresh; [apply (gd_own _ _ _ _ (ri_good _ _ _ H))|done..].
Qed.

Lemma in_use_front s L h K : in_use s L (h :: K) ≡ₚ all_bufs L (h :: queue_holds s ++ K).
Proof. by rewrite <- Permutation_middle. Qed.

(** The holders, and [n] more, are fewer than a reference counter can count. *)
Definition roomy (n : Z) (s : RelayCtx) (L : list (nat * GenerationEntry)) (K : list Holding) : Prop :=
  Z.of_nat (length (in_use s L K)) + n < 2 ^ 32.

(** An insertion takes hold of one buffer at most. *)
Lemma inserted_length is_shared malloc oom hdr p len now g a g' L L' :
  generation_cache_insert is_shared malloc oom hdr p len now g = Some (a, g') -> cache_inv g L -> cache_inv g' L' ->
  (length (cached_bufs L') <= length (cached_bufs L) + 1)%nat.
Proof.
  intros E HL HL'. destruct (logs_insert _ _ _ _ _ _ _ _ _ _ E) as (_ & ev & Hlog & rs & acq & -> & Hgo & Hacq).
  pose proof (cache_events _ _ _ _ _ HL HL' Hlog) as Hp. apply Permutation_length in Hp.
  rewrite acquired_app, (letting_go_acquires _ _ Hgo), !length_app in Hp.
  assert (length (acquired acq) <= 1)%nat.
  { destruct (fst a); try (subst acq; cbn; lia). destruct Hacq as [(-> & _)|(_ & q & _ & ->)]; done. }
  cbn [length app Nat.add] in Hp. lia.
Qed.

Lemma cache_insert_run s L F p len d hdr malloc oom now :
  rinv s L (mkHold p len true :: F) -> rl_cache_enabled s = true -> header_ok hdr -> Z.of_nat (length d) = len ->
  (forall q, malloc = Some q -> unowned s (in_use s L (mkHold p len true :: F)) q) -> roomy 1 s L (mkHold p len true :: F) ->
  exists st out s' L', cache_call d (generation_cache_insert (datagram_pool_contains (rb_pool (rl_bufs s))) malloc oom hdr p len now) s
      = Some ((st, out), s') /\
    rinv s' L' (mkHold p len (has_egress (rl_config s)) :: F) /\ calm s s' F /\
    (st = GEN_INSERT_OK \/ st = GEN_INSERT_DUPLICATE ->
      exists a e, out = Some a /\ g_heap (rl_gen_cache s') !! a = Some e /\ (strip e ∈ L'.*2)) /\
    (forall q, q ∈ cached_bufs L' -> (q ∈ in_use s L (mkHold p len true :: F)) \/ malloc = Some q) /\
    (length (cached_bufs L') <= length (cached_bufs L) + 1)%nat /\
    buf_read p (rl_bufs s') = buf_read p (rl_bufs s).
Proof.
  intros H En Hh Hd Hm Hr. pose proof (unowned_malloc _ _ _ _ H Hm) as Hml. pose proof (rinv_front _ _ _ _ H) as Hg.
  destruct (ri_caching _ _ _ H En) as [I1 I2 I3 I4].
  assert (Hsh : gc_share (g_cache (rl_gen_cache s)) = gc_release (g_cache (rl_gen_cache s)))
    by (by rewrite I2, I3).
  rewrite <- I3 in Hg.
  destruct (good_insert (rl_gen_cache s) L hdr p len now oom malloc d (rl_bufs s) (queue_holds s ++ F) I1)
    as (st & out & g' & L' & b & E & Hg' & Hc & Hins & Eb & Hs & Hgood & Hk); try done.
  { destruct Hh as (_ & _ & _ & _ & _ & Hi & _). apply Hi. }
  { unfold few. unfold roomy in Hr. rewrite (Permutation_length (in_use_front _ _ _ _)) in Hr. lia. }
  exists st, out. unfold cache_call. rewrite E, Eb. eexists _, L'. split; [done|].
  rewrite I3, negb_involutive in Hgood.
  split; [eapply with_cache_bufs_rinv; try done; [apply (inserted_payload _ _ _ _ _ _ _ _ _ _ _ _ Hins); [|apply H]|]|].
  { by destruct Hh as (_ & _ & _ & _ & _ & _ & _ & _ & Hp & _). }
  { eapply good_perm; [|exact Hgood]. apply Permutation_middle. }
  split; [split; try done; intros q Hq; apply Hk; apply elem_of_app; right; by right|].
  split; [intros Hst; by apply (inserted_entry _ _ _ _ _ _ _ _ _ _ _ _ _ Hins Hg' Hst)|].
  split; [|split; [by apply (inserted_length _ _ _ _ _ _ _ _ _ _ _ _ E I1 Hg')|cbn; apply Hk; apply elem_of_app; right; by left]].
  intros q (e & He & Hx)%list_elem_of_bind. apply list_elem_of_fmap in He as (sl & -> & [Hp1 Hsl]%list_elem_of_filter).
  destruct (inserted_slots _ _ _ _ _ _ _ _ _ _ _ _ _ _ Hins Hx Hsl Hp1) as [(e0 & He0 & Hs0)|(_ & copy & -> & Hk0)].
  - left. apply elem_of_app. left. by eapply slot_held.
  - unfold kept_as in Hk0. cbn. destruct (_ && _); [left; subst copy|by right]. rewrite in_use_front. apply elem_of_app. right. by left.
Qed.

(** ** The recoder *)

Definition fp_hold (egress : bool) (f : ForwardPending) : Holding := pk_hold egress (fp_pkt f).

(** What may be offered to the callback: a buffer of the slab must be in use, hold the bytes and not
    be somebody's own. *)
Definition offer_ok (b : RelayBufs) (L : list (nat * GenerationEntry)) (H : list Holding) (o : Z * list byte) : Prop :=
  datagram_pool_contains (rb_pool b) (fst o) = true ->
  (fst o ∈ all_bufs L H) /\ (exists bs, buf_read (fst o) b = Some bs /\ take (length (snd o)) bs = snd o) /\
  forall h, h ∈ H -> hd_buf h = fst o -> hd_excl h = false.

Section Offers.
Context `{host : HostOrder}.
Context (env : SubmitEnv) (egress hook : bool) (slot : nat) (source : RelayPacketSource).
Context (b0 : RelayBufs) (L : list (nat * GenerationEntry)) (H : list Holding).
Hypothesis malloc_new : forall n q, en_malloc env n = Some q ->
  q <> 0 /\ datagram_pool_contains (rb_pool b0) q = false /\ q ∉ all_bufs L H.
Hypothesis malloc_distinct : forall n m q, en_malloc env n = Some q -> en_malloc env m = Some q -> n = m.

(** The batch so far: its buffers are held, what [malloc] will return later is not among them. *)
Record batching (k : nat) (b : RelayBufs) (batch : DecodeReencodeEmitBatch) : Prop := {
  bt_good : good b L hook ((fp_hold egress <$> eb_items batch) ++ H);
  bt_pool : same_pool b0 b;
  bt_keeps : keeps b0 b (all_bufs L H);
  bt_length : (length (eb_items batch) <= k)%nat;
  bt_new : forall n q, (length (eb_items batch) <= n)%nat -> en_malloc env n = Some q ->
    q ∉ hd_buf <$> (fp_hold egress <$> eb_items batch) }.

Lemma batching_malloc k b batch :
  batching k b batch -> malloc_ok b (en_malloc env (length (eb_items batch))).
Proof using malloc_new.
  intros [G P K Hl Hn] q Eq. destruct (malloc_new _ _ Eq) as (H0 & Hc & Hni).
  eapply own_fresh; [apply (gd_own _ _ _ _ G)|done|by rewrite (same_pool_contains _ _ q P)|].
  rewrite fmap_app. intros [Hq|[Hq|Hq]%elem_of_app]%elem_of_app; [apply Hni; apply elem_of_app; by left| |apply Hni; apply elem_of_app; by right].
  exact (Hn _ q (le_n _) Eq Hq).
Qed.

Lemma batching_offer k b batch o :
  batching k b batch -> offer_ok b0 L H o -> datagram_pool_contains (rb_pool b) (fst o) = true ->
  exists bs, (fst o ∈ all_bufs L ((fp_hold egress <$> eb_items batch) ++ H)) /\ buf_read (fst o) b = Some bs /\
    take (length (snd o)) bs = snd o /\
    forall h, h ∈ (fp_hold egress <$> eb_items batch) ++ H -> hd_buf h = fst o -> hd_excl h = false.
Proof using Type.
  intros [G P K Hl Hn] Ho Hc. rewrite (same_pool_contains _ _ _ P) in Hc. destruct (Ho Hc) as (Hin & (bs & Hr & Ht) & Hx).
  exists bs. split; [apply elem_of_app in Hin as [?|?]; apply elem_of_app; [by left|right; rewrite fmap_app; apply elem_of_app; by right]|].
  split; [by rewrite (K _ Hin)|]. split; [done|]. intros h [Hh|Hh]%elem_of_app E; [|by apply Hx].
  destruct (hd_excl h) eqn:Ex; [|done]. pose proof (gd_excl _ _ _ _ G h) as E1.
  rewrite E in E1. specialize (E1 ltac:(apply elem_of_app; by left) Ex). rewrite owners_app, fmap_app, owners_app in E1.
  apply (list_elem_of_fmap_2 hd_buf), owners_pos in Hh. rewrite E in Hh. apply owners_pos in Hin. rewrite owners_app in Hin. lia.
Qed.

Lemma emit_cb_run k b batch o :
  batching k b batch -> offer_ok b0 L H o -> Z.of_nat (length (all_bufs L H)) + Z.of_nat k + 1 < 2 ^ 32 ->
  exists rc b' batch', decode_reencode_emit_cb env egress slot source (fst o) (snd o) (Some (b, batch)) = (rc, Some (b', batch')) /\
    batching (S k) b' batch'.
Proof using malloc_new malloc_distinct.
  intros Hb Ho Hroom. pose proof Hb as [G P K Hl Hn]. destruct o as [p d]. cbn [fst snd] in *.
  assert (Hsame : forall cap, batching (S k) b (mkBatch (eb_items batch) cap)) by (intros cap; split; cbn; try done; lia).
  unfold decode_reencode_emit_cb. destruct (_ || _); [eexists _, _, _; split; [done|]; destruct batch; apply Hsame|].
  destruct (header_of d) as [h|]; [|eexists _, _, _; split; [done|]; destruct batch; apply Hsame].
  destruct (_ && _); [eexists _, _, _; split; [done|]; destruct batch; apply Hsame|].
  set (cap := if (length (eb_items batch) =? eb_cap batch)%nat then _ else _). cbn [eb_items].
  destruct (Nat.ltb_spec RELAY_MAX_DATAGRAM (length d)) as [|Hd]; [by eexists _, _, _|].
  assert (exists bs, datagram_pool_contains (rb_pool b) p = true ->
    (p ∈ all_bufs L ((fp_hold egress <$> eb_items batch) ++ H)) /\ buf_read p b = Some bs /\ take (length d) bs = d /\
    forall h, h ∈ (fp_hold egress <$> eb_items batch) ++ H -> hd_buf h = p -> hd_excl h = false) as [bs Hbs].
  { destruct (datagram_pool_contains (rb_pool b) p) eqn:Hc; [|by exists []].
    destruct (batching_offer k b batch (p, d) Hb Ho Hc) as (bs & H1). exists bs. by intros _. }
  destruct (good_share L hook b ((fp_hold egress <$> eb_items batch) ++ H) egress (en_malloc env (length (eb_items batch))) p d bs G)
    as (r & b' & E & Hs & Hk & Hr); try done; [by eapply batching_malloc| |].
  { unfold few. rewrite fmap_app, !length_app, !length_fmap in *. lia. }
  rewrite E. assert (Hk' : keeps b0 b' (all_bufs L H)).
  { eapply rb_keeps_trans; [exact K|]. eapply keeps_sub; [|exact Hk]. rewrite fmap_app. set_solver. }
  assert (Hs' : same_pool b0 b') by (by eapply same_pool_trans).
  destruct r as [q|]; (eexists _, _, _; split; [done|]); [|split; cbn; try done; lia]. destruct Hr as (Hg & Hfrom & _).
  split; cbn [eb_items]; [|done|done|rewrite length_app; cbn; lia|].
  - eapply good_perm; [|exact Hg]. rewrite fmap_app, <- app_assoc. apply Permutation_middle.
  - intros n x Hle Hx. rewrite !fmap_app, elem_of_app. intros [Hin|Hin].
    + apply (Hn n x); [rewrite length_app in Hle; lia|done|done].
    + apply list_elem_of_singleton in Hin. cbn in Hin. subst x. destruct (malloc_new _ _ Hx) as (_ & Hcx & _).
      rewrite (same_pool_contains _ _ q P) in Hfrom. destruct Hfrom as [Hq|Hq]; [congruence|].
      pose proof (malloc_distinct _ _ _ Hx Hq). rewrite length_app in Hle. cbn in Hle. lia.
Qed.

Lemma offers_run os k b batch :
  batching k b batch -> Forall (offer_ok b0 L H) os -> Z.of_nat (length (all_bufs L H)) + Z.of_nat (k + length os) + 1 < 2 ^ 32 ->
  exists b' batch', offered (decode_reencode_emit_cb env egress slot source) os (Some (b, batch)) = Some (b', batch') /\
    batching (k + length os) b' batch'.
Proof using malloc_new malloc_distinct.
  revert k b batch. induction os as [|o os IH]; intros k b batch Hb Ho Hroom; [exists b, batch; by rewrite Nat.add_0_r|].
  apply list.Forall_cons in Ho as [Ho Hos]. cbn [length] in *.
  destruct (emit_cb_run k b batch o Hb Ho) as (rc & b1 & batch1 & E & Hb1); [lia|].
  destruct (IH (S k) b1 batch1 Hb1 Hos) as (b2 & batch2 & E2 & Hb2); [lia|]. exists b2, batch2.
  unfold offered in *. cbn [foldl]. rewrite E. split; [done|]. by replace (k + S (length os))%nat with (S k + length os)%nat by lia.
Qed.

End Offers.

(** A generation of the cache that is ready. *)
Lemma ready_entry s L K e :
  rinv s L K -> (strip e ∈ L.*2) -> ge_state e = GEN_READY -> gen_ready (fun p => default [] (buf_read p (rl_bufs s))) e.
Proof.
  intros H He Hst. assert (En : rl_cache_enabled s = true).
  { destruct (rl_cache_enabled s) eqn:En; [done|]. rewrite (ri_off _ _ _ H En) in He. by apply elem_of_nil in He. }
  pose proof (ci_entries _ _ (ca_inv _ _ _ (ri_caching _ _ _ H En))) as Hent. rewrite list.Forall_forall in Hent.
  specialize (Hent _ He). pose proof (ri_payload _ _ _ H) as Hp. rewrite list.Forall_forall in Hp. specialize (Hp _ He).
  pose proof (gd_cached _ _ _ _ (ri_good _ _ _ H)) as Hc. rewrite list.Forall_forall in Hc. specialize (Hc _ He).
  destruct Hent as [E1 E2 E3 E4 E5 E6]. cbn [strip set_links ge_shard_count ge_slots ge_bytes ge_present_count ge_state] in *.
  pose proof (proj1 E6 Hst) as Hcount.
  assert (Hall : Forall (fun sl => gs_present sl = true) (ge_slots e)).
  { assert (Hlen : length (slots_present (ge_slots e)) = length (ge_slots e)) by lia. clear -Hlen. unfold slots_present in Hlen.
    induction (ge_slots e) as [|sl sls IH]; [constructor|]. rewrite list.filter_cons in Hlen. case_decide as Hd.
    - constructor; [done|]. apply IH. cbn in Hlen. lia.
    - pose proof (list.length_filter (fun sl => gs_present sl = true) sls). cbn in Hlen. lia. }
  split; try done; [lia|]. rewrite list.Forall_forall in *. intros sl Hsl. specialize (Hall sl Hsl). specialize (E3 sl Hsl).
  unfold slot_ok in E3. rewrite Hall in E3. split; [done|]. split; [apply E3|]. destruct (Hc sl Hsl Hall) as (_ & bs & Hr & Hl).
  cbn [hd_buf hd_len] in *. by rewrite Hr.
Qed.

Lemma packets_offer_ok s L K recoded alloc_tmp e :
  rinv s L K -> (strip e ∈ L.*2) -> ge_state e = GEN_READY ->
  (forall i, datagram_pool_contains (rb_pool (rl_bufs s)) (alloc_tmp i) = false) ->
  Forall (offer_ok (rl_bufs s) L (queue_holds s ++ K)) (packets (fun p => default [] (buf_read p (rl_bufs s))) recoded alloc_tmp e).
Proof.
  intros H He Hst Htmp. pose proof (ready_entry s L K e H He Hst) as Hr. rewrite list.Forall_lookup. intros i [p d] Hi Hc.
  cbn [fst snd] in *. unfold packets in Hi. rewrite lookup_zip_with_Some in Hi. destruct Hi as (p' & d' & [= <- <-] & Hp & Hd).
  destruct recoded.
  { change (map alloc_tmp (seq 0 (length (ge_slots e)))) with (alloc_tmp <$> seq 0 (length (ge_slots e))) in Hp.
    rewrite list_lookup_fmap in Hp. destruct (_ !! i) as [j|]; [|done]. cbn in Hp. injection Hp as <-. by rewrite Htmp in Hc. }
  unfold datagrams in Hd. rewrite list_lookup_fmap in Hp. rewrite list_lookup_fmap in Hd.
  destruct (ge_slots e !! i) as [sl|] eqn:Es; [|done]. cbn in Hp, Hd. injection Hp as <-. injection Hd as <-.
  destruct (proj1 (list.Forall_lookup _ _) (gr_held _ _ Hr) i sl Es) as (Hpr & _ & _).
  assert (Hin : gs_copy sl ∈ cached_bufs L) by (eapply slot_held; [exact He|by eapply list_elem_of_lookup_2|done]).
  split; [apply elem_of_app; by left|]. split.
  - destruct (own_read _ _ (gs_copy sl) (gd_own _ _ _ _ (ri_good _ _ _ H))) as [bs Hb]; [apply elem_of_app; by left|].
    exists bs. split; [done|]. unfold cached. rewrite Hb. cbn [default from_option id].
    destruct (Nat.le_ge_cases (Z.to_nat (gs_len sl)) (length bs)).
    + by rewrite length_take, Nat.min_l by done.
    + rewrite (take_ge bs (Z.to_nat (gs_len sl))) by lia. apply firstn_all.
  - intros h Hh Eb. destruct (hd_excl h) eqn:Ex; [|done]. pose proof (gd_excl _ _ _ _ (ri_good _ _ _ H) h Hh Ex) as E1.
    rewrite Eb, owners_app in E1. apply owners_pos in Hin. apply (list_elem_of_fmap_2 hd_buf), owners_pos in Hh. rewrite Eb in Hh. lia.
Qed.

(** What [malloc] may return for the copies of a batch, and while the recoder runs. *)
Record alloc_ok (s : RelayCtx) (H : list Z) (env : SubmitEnv) : Prop := {
  al_malloc : forall n q, en_malloc env n = Some q -> unowned s H q;
  al_distinct : forall n m q, en_malloc env n = Some q -> en_malloc env m = Some q -> n = m;
  al_tmp : forall i, datagram_pool_contains (rb_pool (rl_bufs s)) (en_alloc_tmp env i) = false }.

Lemma with_recoder_rinv s L K K' x g b :
  rinv s L K -> good b L (negb (has_egress (rl_config s))) (queue_holds s ++ K') -> RecodeSpec.ring_ok x -> table_ok g ->
  rinv (with_recoder x g (with_bufs (fun _ => b) s)) L K'.
Proof. intros [] Hg Hx Ht. split; done. Qed.

Section Reencode.
Context `{host : HostOrder}.

Lemma batching_zero env egress hook b L H : good b L hook H -> batching env egress hook b L H 0 b batch_zero.
Proof. intros Hg. split; cbn; try done. intros n q _ _ ?%elem_of_nil. done. Qed.

(** The recoder's ring and table survive a call. *)
Lemma mark_ring_ok (sent : bool) x f i b :
  RecodeSpec.ring_ok x -> RecodeSpec.ring_ok (if sent then bats_mark_emitted i b (with_stats f x) else with_stats f x).
Proof. intros Hx. destruct sent; [by apply ring_ok_mark|done]. Qed.

(** A ready generation is offered to the callback. *)
Lemma emit_generation_run env slot source s L K e fresh t0 t1 alloc_rows alloc_pad :
  rinv s L K -> (strip e ∈ L.*2) -> ge_state e = GEN_READY -> roomy 300 s L K ->
  alloc_ok s (in_use s L K) env -> (forall i, length (fresh i) = Z.to_nat (ge_payload_len e)) ->
  exists action x b batch g, bats_emit_generation (fun p => default [] (buf_read p (rl_bufs s)))
      (decode_reencode_emit_cb env (has_egress (rl_config s)) slot source) alloc_rows alloc_pad (en_alloc_tmp env) fresh t0 t1 e
      (rl_recoder s) (rl_gf s) (Some (rl_bufs s, batch_zero)) = Some (action, x, Some (b, batch), g) /\
    rinv (with_recoder x g (with_bufs (fun _ => b) s)) L ((fp_hold (has_egress (rl_config s)) <$> eb_items batch) ++ K) /\
    calm s (with_recoder x g (with_bufs (fun _ => b) s)) K.
Proof.
  intros H He Hst Hroom [Hm Hd Htmp] Hf. pose proof (ready_entry s L K e H He Hst) as Hr.
  destruct (emit_generation_any (fun p => default [] (buf_read p (rl_bufs s)))
    (decode_reencode_emit_cb env (has_egress (rl_config s)) slot source) alloc_rows alloc_pad (en_alloc_tmp env) fresh t0 t1 e (rl_recoder s)
    (rl_gf s) (Some (rl_bufs s, batch_zero)) Hr (ri_gf _ _ _ H) Hf) as (recoded & f & m & sent & g' & Hg' & E).
  set (ps := packets _ recoded (en_alloc_tmp env) e) in E.
  destruct (offers_run env (has_egress (rl_config s)) (negb (has_egress (rl_config s))) slot source (rl_bufs s) L (queue_holds s ++ K)) with
    (os := take m ps) (k := 0%nat) (b := rl_bufs s) (batch := batch_zero) as (b & batch & Eo & Hb); [done|done| | | |].
  - apply batching_zero, (ri_good _ _ _ H).
  - apply Forall_take. by eapply packets_offer_ok.
  - unfold roomy in Hroom. rewrite length_take. unfold ps. rewrite length_packets. unfold datagrams. rewrite length_map, (gr_slots _ _ Hr).
    pose proof (gr_shards _ _ Hr). unfold GEN_CACHE_MAX_SHARD_COUNT in *. lia.
  - eexists _, _, b, batch, g'. rewrite E, Eo. split; [done|]. destruct Hb as [G P Hk _ _]. split.
    + eapply with_recoder_rinv; [exact H| |apply mark_ring_ok, (ri_recoder _ _ _ H)|done].
      eapply good_perm; [|exact G]. rewrite app_assoc, (Permutation_app_comm (fp_hold _ <$> _)). by rewrite <- app_assoc.
    + split; try done. by apply keeps_app in Hk as [_ Hk].
Qed.

Lemma call_reencode_run env slot source s L K h gen st emit :
  rinv s L K -> alloc_ok s (in_use s L K) env -> roomy 300 s L K ->
  (st = GEN_INSERT_OK \/ st = GEN_INSERT_DUPLICATE -> forall e, gen = Some e -> (strip e ∈ L.*2)) ->
  exists action batch s', call_reencode env slot source h gen st emit s = Some ((action, batch), s') /\
    rinv s' L ((fp_hold (has_egress (rl_config s)) <$> batch) ++ K) /\ calm s s' K.
Proof.
  intros H Henv Hroom Hgen. unfold call_reencode.
  destruct (cf_decode_reencode_fn (rl_config s)); [by eexists _, _, s|by eexists _, _, s|].
  assert (Hop : forall x, RecodeSpec.ring_ok x ->
    rinv (with_recoder x (rl_gf s) (with_bufs (fun _ => rl_bufs s) s)) L K /\
    calm s (with_recoder x (rl_gf s) (with_bufs (fun _ => rl_bufs s) s)) K).
  { intros x Hx. split; [|by split]. eapply with_recoder_rinv; [exact H|apply H|done|apply H]. }
  pose proof (Hop _ (ri_recoder _ _ _ H)) as [H0 C0].
  unfold relay_rs_bats_identity_decode_reencode. destruct (negb (wh_type h =? _)); [by eexists _, _, _|].
  destruct gen as [e|]; [|destruct st; by eexists _, _, _].
  assert (Hready : (strip e ∈ L.*2) -> exists action batch s',
    match (if bats_already_emitted (rl_recoder s) (ge_flow_id e) (ge_block_id e) || negb (bool_decide (ge_state e = GEN_READY))
      then Some (RELAY_DECODE_REENCODE_HOLD, Some (with_stats count_hold (rl_recoder s)), Some (rl_bufs s, batch_zero), rl_gf s)
      else if negb emit then Some (RELAY_DECODE_REENCODE_OPAQUE, Some (rl_recoder s), Some (rl_bufs s, batch_zero), rl_gf s)
      else match bats_emit_generation (fun p => default [] (buf_read p (rl_bufs s)))
            (decode_reencode_emit_cb env (has_egress (rl_config s)) slot source) (en_alloc_rows env) (en_alloc_pad env) (en_alloc_tmp env)
            (fun i => map (en_fresh env i) (seq 0 (payload_of (Some e)))) (en_t0 env) (en_t1 env) e (rl_recoder s) (rl_gf s)
            (Some (rl_bufs s, batch_zero)) with
          | Some (action, x, c, g) => Some (action, Some x, c, g) | None => None end) with
    | Some (action, Some x, Some (b, batch), g) => Some ((action, eb_items batch), with_recoder x g (with_bufs (fun _ => b) s))
    | _ => None
    end = Some ((action, batch), s') /\ rinv s' L ((fp_hold (has_egress (rl_config s)) <$> batch) ++ K) /\ calm s s' K).
  { intros He. destruct (_ || _) eqn:Er.
    { destruct (Hop (with_stats count_hold (rl_recoder s)) (ri_recoder _ _ _ H)) as [H1 C1]. by eexists _, _, _. }
    destruct emit; [|by eexists _, _, _]. apply orb_false_iff in Er as [_ Er]. apply negb_false_iff, bool_decide_eq_true in Er.
    cbn [negb]. destruct (emit_generation_run env slot source s L K e (fun i => map (en_fresh env i) (seq 0 (payload_of (Some e))))
      (en_t0 env) (en_t1 env) (en_alloc_rows env) (en_alloc_pad env) H He Er Hroom Henv) as (action & x & b & batch & g & -> & H1 & C1).
    { intros i. by rewrite length_map, length_seq. }
    by eexists _, _, _. }
  destruct st; try (by eexists _, _, _); apply Hready; apply Hgen; auto.
Qed.

End Reencode.

(** * Submission of a datagram: [ingress_submit_owned]

    Every path through a submission is defined, leaves each buffer with exactly the holders it has
    and touches the bytes of nobody but the submitted datagram. *)

(** The buffers a submission hands to its caller. *)
Definition sub_holds (egress : bool) (r : Submitted) : list Holding :=
  match sb_deferred r with Some dl => [mkHold (dl_datagram dl) (dl_len dl) true] | None => [] end ++
  (fp_hold egress <$> option_list (sb_forward r) ++ sb_batch r).

(** What the host may do during a submission: the addresses [malloc] returns are not in use and
    differ from each other. *)
Record env_ok (s : RelayCtx) (H : list Z) (env : SubmitEnv) : Prop := {
  ev_cache : forall q, en_cache_malloc env = Some q -> unowned s H q;
  ev_alloc : alloc_ok s H env;
  ev_apart : forall n q, en_malloc env n = Some q -> en_cache_malloc env <> Some q }.

Lemma unowned_later s s' H H' q :
  same_pool (rl_bufs s) (rl_bufs s') -> (q ∈ H' -> q ∈ H) -> unowned s H q -> unowned s' H' q.
Proof. intros Hs Hq (H0 & Hc & Hn). split; [done|]. split; [by rewrite (same_pool_contains _ _ q Hs)|]. by intros ?%Hq. Qed.

Lemma alloc_later s s' H H' env :
  same_pool (rl_bufs s) (rl_bufs s') -> (forall n q, en_malloc env n = Some q -> q ∈ H' -> q ∈ H) ->
  alloc_ok s H env -> alloc_ok s' H' env.
Proof.
  intros Hs Hq [A1 A2 A3]. split; [|done|intros i; by rewrite (same_pool_contains _ _ _ Hs)].
  intros n q E. eapply unowned_later; [done| |by apply (A1 n)]. by apply (Hq n).
Qed.

Section Ingress.
Context `{host : HostOrder}.

Lemma header_of_decoded d h : header_of d = Some h -> decoded (map byte_to_Z d) h.
Proof.
  apply decode_decoded. apply list.Forall_fmap, list.Forall_forall. intros x _. apply byte_to_Z_range.
Qed.

Lemma calm_holds s s' F : calm s s' F -> queue_holds s' = queue_holds s.
Proof. apply cm_queues. Qed.

(** A datagram of a data flow, with the cache or without. *)
Lemma submit_data_run env source slot s L F p len d h (enabled : bool) :
  rinv s L (mkHold p len true :: F) -> header_ok h -> Z.of_nat (length d) = len ->
  env_ok s (in_use s L (mkHold p len true :: F)) env -> roomy 400 s L (mkHold p len true :: F) ->
  (enabled = true -> rl_cache_enabled s = true) ->
  exists action dra batch s' L',
    (if enabled then
       pool ← gets (fun s => rb_pool (rl_bufs s));
       '(st, out) ← cache_call d (generation_cache_insert (datagram_pool_contains pool) (en_cache_malloc env)
                                   (en_cache_oom env) h p len (en_now env));
       sync_cache_stats_to_total;;
       gen ← gets (fun s => a ← out; g_heap (rl_gen_cache s) !! a);
       let action := match cf_process_fn (rl_config s) with Some f => f h d gen st | None => RELAY_PROCESS_CONTINUE_FORWARD end in
       r ← call_reencode env slot source h gen st true;
       mret (action, r)
     else
       r ← call_reencode env slot source h None GEN_INSERT_INVALID false;
       mret (RELAY_PROCESS_CONTINUE_FORWARD, r)) s = Some ((action, (dra, batch)), s') /\
    rinv s' L' ((fp_hold (has_egress (rl_config s)) <$> batch) ++ mkHold p len (has_egress (rl_config s)) :: F) /\ calm s s' F.
Proof.
  intros H Hh Hd [E1 E2 E3] Hroom Hen. destruct enabled.
  2: { assert (H' : rinv s L (mkHold p len (has_egress (rl_config s)) :: F)).
       { eapply rinv_weaken; [exact H| |done]. pose proof (gd_sized _ _ _ _ (rinv_front _ _ _ _ H)) as Hs.
         apply list.Forall_cons in Hs as [[Hs _] _]. cbn [hd_len] in Hs. lia. }
       destruct (call_reencode_run env slot source s L _ h None GEN_INSERT_INVALID false H') as (dra & batch & s' & E & H1 & C1).
       - rewrite fmap_app, fmap_cons in *. exact E2.
       - unfold roomy in *. rewrite !length_app, !length_fmap, !length_app in *. cbn [length] in *. lia.
       - by intros [?|?].
       - eexists _, dra, batch, s', L. rewrite (bind_run _ _ _ _ _ E). split; [done|]. split; [done|].
         by eapply calm_tail. }
  rewrite (bind_run _ _ s (rb_pool (rl_bufs s)) s) by done.
  destruct (cache_insert_run s L F p len d h (en_cache_malloc env) (en_cache_oom env) (en_now env) H (Hen eq_refl) Hh Hd E1)
    as (st & out & s1 & L1 & E & H1 & C1 & Hout & Hcached & Hlen & _); [unfold roomy in *; lia|].
  rewrite (bind_run _ _ _ _ _ E). destruct (sync_cache_core s1) as (s2 & Ey & C2). rewrite (bind_run _ _ _ _ _ Ey).
  rewrite (bind_run _ _ s2 (a ← out; g_heap (rl_gen_cache s2) !! a) s2) by done. set (gen := a ← out; _).
  pose proof (same_core_rinv _ _ _ _ C2 H1) as H2. rewrite <- (cm_config _ _ _ C1), <- (sc_config _ _ C2) in H2.
  pose proof (calm_trans _ _ _ _ C1 (same_core_calm _ _ F C2)) as C12.
  destruct (call_reencode_run env slot source s2 L1 _ h gen st true H2) as (dra & batch & s3 & E3' & H3 & C3).
  - eapply (alloc_later s); [apply C12| |exact E2]. intros n q Eq. rewrite (cm_queues _ _ _ C12).
    intros [Hq|Hq]%elem_of_app; [|apply elem_of_app; right; rewrite fmap_app, fmap_cons in *; exact Hq]. apply Hcached in Hq as [Hq|Hq]; [done|]. by destruct (E3 n q Eq).
  - unfold roomy in *. rewrite (cm_queues _ _ _ C12), !length_app, !length_fmap, !length_app in *. cbn [length] in *. lia.
  - intros Hst e Eg. destruct (Hout Hst) as (a & e' & -> & Hl & Hin). unfold gen in Eg. cbn in Eg. rewrite (sc_cache _ _ C2), Hl in Eg. by injection Eg as <-.
  - eexists _, dra, batch, s3, L1. rewrite (bind_run _ _ _ _ _ E3'). split; [done|].
    rewrite (cm_config _ _ _ C12) in H3. split; [done|].
    eapply calm_trans; [exact C12|]. by eapply calm_tail.
Qed.

(** Holdings of the same buffers are in use in the same way. *)
Lemma in_use_resize s s' L p n x n' x' F :
  queue_holds s' = queue_holds s -> in_use s' L (mkHold p n' x' :: F) = in_use s L (mkHold p n x :: F).
Proof. intros ->. by rewrite !fmap_app, !fmap_cons. Qed.

Lemma env_later s s' L p n x n' x' F env :
  calm s s' F -> env_ok s (in_use s L (mkHold p n x :: F)) env -> env_ok s' (in_use s' L (mkHold p n' x' :: F)) env.
Proof.
  intros C [E1 E2 E3]. rewrite (in_use_resize s s' L p n x n' x' F (cm_queues _ _ _ C)). split; [| |done].
  - intros q Eq. eapply unowned_later; [apply C| |by apply E1]. done.
  - eapply alloc_later; [apply C| |exact E2]. done.
Qed.

Lemma roomy_later m s s' L p n x n' x' F :
  calm s s' F -> roomy m s L (mkHold p n x :: F) -> roomy m s' L (mkHold p n' x' :: F).
Proof. intros C. unfold roomy. by rewrite (in_use_resize s s' L p n x n' x' F (cm_queues _ _ _ C)). Qed.

Lemma apply_recode_run s L p len h F :
  rinv s L (mkHold p len true :: F) -> header_ok h ->
  exists r s' n, apply_recode p len h s = Some (r, s') /\ rinv s' L (mkHold p n true :: F) /\ calm s s' F /\
    forall h' n', r = Some (h', n') -> n' = n /\ header_ok h'.
Proof.
  intros H Hh. unfold apply_recode. rewrite (bind_run _ _ s (rl_config s) s) by done.
  destruct (cf_recode_fn (rl_config s)) as [f|] eqn:Ef.
  2: { eexists _, s, len. split; [done|]. split; [done|]. split; [done|]. by intros h' n' [= <- <-]. }
  destruct (read_run s L _ F H) as (buf & Hr & Hl & Hm & Hread). cbn [hd_buf hd_len] in *.
  rewrite (bind_run _ _ s (Some buf) s) by (unfold gets; by rewrite Hr). rewrite (bind_run _ _ s buf s) by done.
  destruct (f (take (Z.to_nat len) buf) buf h) as [[rc out] on] eqn:Eo.
  pose proof (ri_hooks _ _ _ H _ _ _ _ _ _ _ Ef Eo) as Hn.
  assert (Hd : length (take (Z.to_nat len) buf) = Z.to_nat len) by (rewrite length_take; lia). rewrite Hd in Hn.
  set (bs := default [] out) in *. set (n := default (Z.to_nat len) on) in *.
  assert (exists s1 old, (match out with Some bs => write_buf p bs | None => mret tt end) s = Some (tt, s1) /\
    rinv s1 L (mkHold p len true :: F) /\ calm s s1 F /\ buf_read p (rl_bufs s1) = Some old /\ (n <= length old)%nat)
    as (s1 & old & E1 & H1 & C1 & Hr1 & Hn1).
  { destruct out as [o|]; [|exists s, buf; cbn in *; split_and!; try done; lia]. cbn in bs. subst bs.
    destruct (write_run s L p len len F o H Hm ltac:(lia)) as (s1 & old & E1 & H1 & C1 & Hr1 & Hr2 & _).
    exists s1, (o ++ drop (length o) old). split_and!; try done. rewrite Hr in Hr1. injection Hr1 as <-.
    rewrite length_app, length_drop. cbn in Hn. lia. }
  rewrite (bind_run _ _ _ _ _ E1). destruct (_ || _ || _) eqn:Ec; [by eexists _, s1, len|].
  apply orb_false_iff in Ec as [_ Hmax]. apply Nat.ltb_ge in Hmax.
  destruct (read_run s1 L _ F H1) as (old' & Hr1' & _ & _ & Hread1). cbn [hd_buf] in *. rewrite Hr1 in Hr1'. injection Hr1' as <-.
  rewrite (bind_run _ _ _ _ _ (Hread1 _)). assert (H1' : rinv s1 L (mkHold p (Z.of_nat n) true :: F)).
  { pose proof (good_resize _ _ _ _ (Z.of_nat n) true old _ (rinv_front _ _ _ _ H1) Hr1 ltac:(lia) ltac:(lia) ltac:(done)) as Hg.
    destruct H1. split; try done. eapply good_perm; [|exact Hg]. apply Permutation_middle. }
  destruct (header_of _) as [h'|] eqn:Eh; [|by eexists _, s1, (Z.of_nat n)].
  eexists _, s1, (Z.of_nat n). split; [done|]. split; [done|]. split; [done|]. intros h1 n1 [= <- <-]. split; [done|].
  apply (dc_ok _ _ (header_of_decoded _ _ Eh)).
Qed.

(** The conclusion of every submission. *)
Definition submits (m : R Submitted) (s : RelayCtx) (F : list Holding) : Prop :=
  exists r s' L', m s = Some (r, s') /\ rinv s' L' (sub_holds (has_egress (rl_config s)) r ++ F) /\ calm s s' F.

Lemma submits_later m m' s s1 F :
  (forall r s', m s1 = Some (r, s') -> m' s = Some (r, s')) -> calm s s1 F -> submits m s1 F -> submits m' s F.
Proof.
  intros Hm C (r & s' & L' & E & H & C'). exists r, s', L'. split; [by apply Hm|]. rewrite (cm_config _ _ _ C) in H.
  split; [done|]. by eapply calm_trans.
Qed.

Lemma drop_submits s L h F slot st res : rinv s L (h :: F) -> submits (drop_datagram (hd_buf h) slot st res) s F.
Proof. intros H. destruct (drop_run s L h F slot st res H) as (s' & E & H' & C). by exists (done_with res), s', L. Qed.

Lemma submit_transit_run env source slot s L F p len h :
  rinv s L (mkHold p len true :: F) -> header_ok h -> env_ok s (in_use s L (mkHold p len true :: F)) env ->
  roomy 400 s L (mkHold p len true :: F) -> submits (submit_transit env source slot p len h) s F.
Proof.
  intros H Hh Henv Hroom. unfold submit_transit. set (eg := has_egress (rl_config s)).
  destruct (read_run s L _ F H) as (buf & Hr & Hl & Hm & Hread). cbn [hd_buf hd_len] in *.
  assert (Hshare : forall s' L', rinv s' L' (mkHold p len true :: F) -> rinv s' L' (mkHold p len eg :: F))
    by (intros; eapply rinv_weaken; [done|lia|done]).
  unfold submits. rewrite (bind_run _ _ s (rl_cache_enabled s) s), (bind_run _ _ s (rl_config s) s) by done.
  destruct (negb (wh_type h =? WIRE_TYPE_DATA)).
  { assert (exists u s1 L1, (if rl_cache_enabled s && (wh_type h =? WIRE_TYPE_END) then
       d ← read_datagram p len;
       cache_call d (generation_cache_expire (en_now env) (s32 (wh_flow_id h)));; sync_cache_stats_to_total
     else mret tt) s = Some (u, s1) /\ rinv s1 L1 (mkHold p len true :: F) /\ calm s s1 F) as (u & s1 & L1 & E1 & H1 & C1).
    { destruct (_ && _) eqn:En; [|by exists tt, s, L]. apply andb_true_iff in En as [En _]. rewrite (bind_run _ _ _ _ _ (Hread _)).
      destruct (cache_expire_run s L _ (take (Z.to_nat len) buf) (en_now env) (s32 (wh_flow_id h)) H En) as (n & s1 & L1 & E1 & H1 & C1).
      rewrite (bind_run _ _ _ _ _ E1). destruct (sync_cache_core s1) as (s2 & E2 & C2). exists tt, s2, L1. split; [done|].
      split; [by eapply same_core_rinv|]. eapply calm_trans; [by eapply calm_tail|by apply same_core_calm]. }
    rewrite (bind_run _ _ _ _ _ E1). eexists _, s1, L1. split; [done|]. split; [by apply Hshare|done]. }
  rewrite (bind_run _ _ _ _ _ (Hread _)). set (d := take (Z.to_nat len) buf).
  assert (Hd : Z.of_nat (length d) = len) by (unfold d; rewrite length_take; lia).
  destruct (submit_data_run env source slot s L F p len d h (rl_cache_enabled s && (wh_version h =? WIRE_VERSION_V3)) H Hh Hd Henv Hroom)
    as (action & dra & batch & s1 & L1 & E1 & H1 & C1); [by intros [? _]%andb_true_iff|].
  rewrite (bind_run _ _ _ _ _ E1). fold eg in H1.
  destruct (_ || _ || _).
  - assert (H1' : rinv s1 L1 (mkHold p len eg :: (fp_hold eg <$> batch) ++ F)) by (eapply rinv_perm; [|exact H1]; symmetry; apply Permutation_middle).
    destruct (release_run s1 L1 _ _ H1') as (s2 & E2 & H2 & C2). cbn [hd_buf] in E2. rewrite (bind_run _ _ _ _ _ E2).
    eexists _, s2, L1. split; [done|]. split; [done|]. eapply calm_trans; [exact C1|]. eapply calm_sub; [|exact C2].
    intros x Hx. apply elem_of_app. by right.
  - eexists _, s1, L1. split; [done|]. split; [|done]. eapply rinv_perm; [|exact H1]. symmetry. apply Permutation_middle.
Qed.

(** [count]s and the like in front of a submission. *)
Lemma submits_after {A} (m : R A) (k : A -> R Submitted) a s s1 F :
  m s = Some (a, s1) -> calm s s1 F -> submits (k a) s1 F -> submits (m ≫= k) s F.
Proof. intros E C Hs. eapply submits_later; [|exact C|exact Hs]. intros r s' Ek. by rewrite (bind_run _ _ _ _ _ E). Qed.

Lemma dec_ttl_ok h : header_ok h -> header_ok (dec_ttl h).
Proof.
  unfold header_ok. intros (? & ? & ? & ? & ? & ? & ? & ? & ? & ? & ? & ? & ? & ?). cbn. split_and!; try done. apply uwrap_range. lia.
Qed.

(** The TTL is rewritten in place, then the recode function runs. *)
Lemma forward_submits env source slot s L F p len h buf :
  rinv s L (mkHold p len true :: F) -> env_ok s (in_use s L (mkHold p len true :: F)) env ->
  roomy 400 s L (mkHold p len true :: F) -> header_ok h -> buf_read p (rl_bufs s) = Some buf ->
  submits (buf ← gets (fun s => buf_read p (rl_bufs s));
           buf ← the buf;
           write_buf p (encode_header h buf);;
           r ← apply_recode p len h;
           match r with
           | None => drop_datagram p slot rs_drop_malformed RELAY_INGRESS_OK
           | Some (h, out_len) => submit_transit env source slot p out_len h
           end) s F.
Proof.
  intros H Henv Hroom Hh Hr. eapply submits_after; [unfold gets; by rewrite Hr|done|]. eapply submits_after; [done|done|].
  destruct (read_run s L _ F H) as (_ & _ & _ & Hm & _). cbn [hd_len] in Hm.
  destruct (write_run s L p len len F (encode_header h buf) H Hm ltac:(lia)) as (s1 & old & E1 & H1 & C1 & _).
  eapply submits_after; [exact E1|done|].
  destruct (apply_recode_run s1 L p len h F H1 Hh) as (r & s2 & n & E2 & H2 & C2 & Hres).
  eapply submits_after; [exact E2|done|]. pose proof (calm_trans _ _ _ _ C1 C2) as C12.
  destruct r as [[h' n']|]; [|by apply (drop_submits s2 L (mkHold p n true))].
  destruct (Hres h' n' eq_refl) as [-> Hh']. eapply (submit_transit_run env source slot s2 L F p n h' H2 Hh').
  - by eapply env_later.
  - by eapply roomy_later.
Qed.

Lemma ingress_submit_run env source s L F p len :
  rinv s L (mkHold p len true :: F) -> env_ok s (in_use s L (mkHold p len true :: F)) env ->
  roomy 400 s L (mkHold p len true :: F) -> submits (ingress_submit_owned env source p len) s F.
Proof.
  intros H Henv Hroom. unfold ingress_submit_owned. destruct (_ || _).
  { destruct (release_run s L _ F H) as (s1 & E1 & H1 & C1). cbn [hd_buf] in E1.
    eapply submits_after; [exact E1|done|]. by exists (done_with RELAY_INGRESS_ERR_INVALID), s1, L. }
  destruct (read_run s L _ F H) as (buf & Hr & Hl & Hm & Hread). cbn [hd_buf hd_len] in *.
  eapply submits_after; [apply Hread|done|]. destruct (header_of _) as [h|] eqn:Eh.
  2: { destruct (count_total_core rs_drop_malformed s) as (s1 & E1 & C1). eapply submits_after; [exact E1|by apply same_core_calm|].
       destruct (release_run s1 L _ F (same_core_rinv _ _ _ _ C1 H)) as (s2 & E2 & H2 & C2). cbn [hd_buf] in E2.
       eapply submits_after; [exact E2|done|]. by exists (done_with RELAY_INGRESS_OK), s2, L. }
  pose proof (header_of_decoded _ _ Eh) as Hdec. set (slot := flow_stats_slot (wh_flow_id h)).
  destruct (count_core slot rs_rx s) as (s1 & E1 & C1). eapply submits_after; [exact E1|by apply same_core_calm|].
  eapply submits_after; [reflexivity|apply same_core_calm; by split|]. set (s2 := with_activity _ _ _ _).
  assert (C2 : same_core s s2) by (eapply same_core_trans; [exact C1|by split]).
  pose proof (same_core_rinv _ _ _ _ C2 H) as H2. pose proof (same_core_calm _ _ F C2) as Cm2.
  eapply submits_after; [reflexivity|done|]. eapply submits_after; [reflexivity|done|]. cbv beta.
  assert (Hdrop : forall st res, submits (drop_datagram p slot st res) s2 F)
    by (intros st res; apply (drop_submits s2 L (mkHold p len true)); done).
  destruct (_ && _ && _); [apply Hdrop|]. destruct (wh_ttl h =? 0); [apply Hdrop|]. destruct (local_source_ack _ _).
  { eapply submits_after; [reflexivity| |].
    - apply same_core_calm. split; cbn; try done. by rewrite length_insert.
    - apply (drop_submits _ L (mkHold p len true)). eapply same_core_rinv; [|exact H2]. split; cbn; try done. by rewrite length_insert. }
  destruct (_ && negb _).
  { destruct (cf_delivery_fn _); [|apply Hdrop]. destruct (count_core slot rs_local_deliver s2) as (s3 & E3 & C3).
    eapply submits_after; [exact E3|by apply same_core_calm|]. eexists _, s3, L. split; [done|]. split; [|done].
    by eapply same_core_rinv. }
  destruct (wh_ttl h <=? 1) eqn:Ettl; [apply Hdrop|]. apply Z.leb_gt in Ettl.
  apply (forward_submits _ _ _ _ L _ _ _ _ buf); [done| | |apply dec_ttl_ok, Hdec|by rewrite (sc_bufs _ _ C2)].
  - by eapply (env_later s).
  - by eapply (roomy_later _ s).
Qed.

End Ingress.
