(* ===== verification/RelayHandlers.v ===== *)
(** * The handlers that touch the queues

    Reception, the backlog, forwarding, transmission, injection.  [moves] is [calm] for handlers
    that put a packet into a queue or take one out: whoever holds a buffer before and after finds
    the same bytes in it. *)

From Stdlib Require Import Strings.Byte.
From S2P Require Import Prelude Ring PktQueue WireHeader Gf256 ByteVec DatagramPool EgressQueue.
From S2P Require Import RelayDeferred RelayDeferredSpec GenerationCache GenerationCacheList.
From S2P Require Import GenerationCacheSpec RsBats Recode RecodeSpec Relay RelayInv RelayIngress.

Local Open Scope Z_scope.

(** The free hooks stay. *)
Lemma eq_step_free q o res q' : eq_step q o = Some (res, q') -> eq_packet_free q' = eq_packet_free q.
Proof.
  destruct o; unfold eq_step, egress_queue_try_enqueue, egress_queue_timed_enqueue, timed_enqueue_resume, egress_queue_dequeue,
    egress_queue_try_dequeue, dequeue_locked, enqueue_locked, done_enqueue, mbind, option_bind;
    repeat case_match; intros; simplify_eq; done.
Qed.

Lemma hub_push_free pkt h st h' back w : relay_deferred_hub_try_push pkt h = (st, h', back, w) -> hub_packet_free h' = hub_packet_free h.
Proof.
  unfold relay_deferred_hub_try_push, claim_slot, store_packet. repeat case_match; intros; simplify_eq; done.
Qed.

Lemma hub_pop_free h st out h' : relay_deferred_hub_try_pop h = Some (st, out, h') -> hub_packet_free h' = hub_packet_free h.
Proof.
  unfold relay_deferred_hub_try_pop, select_rr_slot, spend_quota, release_empty_slot, mbind, option_bind. repeat case_match; intros; simplify_eq; done.
Qed.
Lemma hub_step_free h o res h' : hub_step h o = Some (res, h') -> hub_packet_free h' = hub_packet_free h.
Proof.
  destruct o as [pkt| |]; cbn [hub_step].
  - destruct (relay_deferred_hub_try_push pkt h) as [[[st h1] back] w] eqn:E. intros [= _ <-]. by eapply hub_push_free.
  - destruct (relay_deferred_hub_try_pop h) as [[[st out] h1]|] eqn:E; [|done]. intros [= _ <-]. by eapply hub_pop_free.
  - intros [= _ <-]. unfold relay_deferred_hub_shutdown. by destruct (negb _).
Qed.

Record moves (s s' : RelayCtx) (F : list Holding) : Prop := {
  mv_config : rl_config s' = rl_config s;
  mv_pool : same_pool (rl_bufs s) (rl_bufs s');
  mv_bytes : forall p, p ∈ hd_buf <$> queue_holds s ++ F -> p ∈ hd_buf <$> queue_holds s' ++ F ->
    buf_read p (rl_bufs s') = buf_read p (rl_bufs s) }.

Lemma calm_moves s s' F : calm s s' F -> moves s s' F.
Proof. intros [? ? ? Hk]. split; try done. intros p Hp _. by apply Hk. Qed.

Lemma moves_refl s F : moves s s F.
Proof. by apply calm_moves. Qed.
#[export] Hint Resolve moves_refl : core.

Lemma calm_then_moves a b c F : calm a b F -> moves b c F -> moves a c F.
Proof.
  intros C [M1 M2 M3]. split; [by rewrite M1, (cm_config _ _ _ C)|by eapply same_pool_trans; [apply C|]|].
  intros p Hp Hp'. rewrite M3; [by apply C|by rewrite (cm_queues _ _ _ C)|done].
Qed.

Lemma moves_then_calm a b c F : moves a b F -> calm b c F -> moves a c F.
Proof.
  intros [M1 M2 M3] C. split; [by rewrite (cm_config _ _ _ C), M1|eapply same_pool_trans; [done|apply C]|].
  intros p Hp Hp'. rewrite (cm_queues _ _ _ C) in Hp'. rewrite (cm_bytes _ _ _ C p Hp'). by apply M3.
Qed.

Lemma moves_sub s s' F F' : (forall h, h ∈ F' -> h ∈ F) -> moves s s' F -> moves s s' F'.
Proof.
  intros Hsub [M1 M2 M3]. split; [done|done|].
  assert (Hin : forall x p, p ∈ hd_buf <$> queue_holds x ++ F' -> p ∈ hd_buf <$> queue_holds x ++ F).
  { intros x p (h & -> & Hh)%list_elem_of_fmap. apply list_elem_of_fmap_2. apply elem_of_app in Hh as [?|?]; apply elem_of_app; auto. }
  intros p Hp Hp'. apply M3; by apply Hin.
Qed.

Lemma moves_tail s s' K F : moves s s' (K ++ F) -> moves s s' F.
Proof. apply moves_sub. intros h Hh. apply elem_of_app. by right. Qed.

(** A handler that touches no bytes. *)
Lemma moves_bufs s s' F : rl_config s' = rl_config s -> rl_bufs s' = rl_bufs s -> moves s s' F.
Proof. intros Hc Hb. split; [done|by rewrite Hb|by rewrite Hb]. Qed.

(** ** The two lanes *)

Lemma queue_holds_lane s ack :
  queue_holds s ≡ₚ (pk_hold (has_egress (rl_config s)) <$> queued (lane ack s)) ++
    (pk_hold (has_egress (rl_config s)) <$> queued (lane (negb ack) s)) ++ (dp_hold <$> items (view (rl_deferred s))).
Proof. unfold queue_holds. destruct ack; cbn [negb lane]; [done|]. solve_Permutation. Qed.

Lemma lane_ok s L K ack : rinv s L K -> egress_ok (lane ack s).
Proof. intros []. by destruct ack. Qed.

Lemma perm_middle (A B M K K' : list Holding) : A ++ K ≡ₚ B ++ K' -> (A ++ M) ++ K ≡ₚ (B ++ M) ++ K'.
Proof.
  intros E. rewrite <- !app_assoc, (Permutation_app_comm M K), (Permutation_app_comm M K'), !app_assoc. by rewrite E.
Qed.

Lemma set_lane_rinv s L K K' ack q :
  rinv s L K -> egress_ok q -> eq_packet_free q = eq_packet_free (lane ack s) ->
  (pk_hold (has_egress (rl_config s)) <$> queued (lane ack s)) ++ K ≡ₚ (pk_hold (has_egress (rl_config s)) <$> queued q) ++ K' ->
  rinv (set_lane ack q s) L K'.
Proof.
  intros H Hq Hf Hp. pose proof H as [].
  assert (Hfree : forall a, eq_packet_free (lane a (set_lane ack q s)) <> 0).
  { intros a. pose proof (ri_free a) as H1. pose proof (ri_free ack) as H2. rewrite <- Hf in H2. by destruct a, ack. }
  destruct ack; cbn in Hp; (split; try done); cbn [set_lane with_egress rl_bufs rl_config];
    (eapply good_perm; [|exact ri_good]).
  - rewrite (queue_holds_lane s true), (queue_holds_lane (with_egress q _ _ s) true). by apply perm_middle.
  - rewrite (queue_holds_lane s false), (queue_holds_lane (with_egress _ q _ s) false). by apply perm_middle.
Qed.

Lemma set_lane_moves s ack q F : moves s (set_lane ack q s) F.
Proof. by apply moves_bufs; destruct ack. Qed.

Lemma enqueued_core s ack q w : same_core (set_lane ack q s) (enqueued ack q w s).
Proof. unfold enqueued. by destruct ack; split. Qed.

(** The queue after an enqueue, whatever it answers. *)
Lemma enqueued_run s L F ack o pkt st q back w :
  rinv s L (pk_hold (has_egress (rl_config s)) pkt :: F) -> eq_legal o = true -> op_packet o = [pkt] ->
  eq_step (lane ack s) o = Some (done_enqueue (st, q, back, w)) ->
  rinv (enqueued ack q w s) L (if decide (st = EGRESS_OK) then F else pk_hold (has_egress (rl_config s)) pkt :: F) /\
  moves s (enqueued ack q w s) F.
Proof.
  intros H Hl Hop E. destruct (eq_step_refines (lane ack s) o (lane_ok _ _ _ ack H) Hl) as (res & q' & E' & Es & Hq).
  rewrite E in E'. cbn [done_enqueue] in E'. injection E' as <- <-.
  pose proof (eq_spec_step_conserves _ _ _ _ Es) as Hc. cbn [eq_abs sq_items handed_out option_list app] in Hc.
  pose proof (enqueued_core s ack q w) as C. split.
  - eapply same_core_rinv; [exact C|]. eapply set_lane_rinv; [exact H|done|by eapply eq_step_free|]. unfold taken_in in Hc. rewrite Hop in Hc.
    case_decide as Hst; [subst st|].
    + rewrite <- Hc, fmap_app, <- app_assoc. done.
    + assert (Hc' : queued (lane ack s) ≡ₚ queued q) by (destruct st; try done; by rewrite app_nil_r in Hc). by rewrite Hc'.
  - eapply moves_then_calm; [apply set_lane_moves|]. by apply same_core_calm.
Qed.

(** What follows the enqueue. *)
Lemma forward_done_run s L F f timed st :
  rinv s L (if decide (st = EGRESS_OK) then F else fp_hold (has_egress (rl_config s)) f :: F) ->
  exists s', forward_done f timed st s = Some (tt, s') /\ rinv s' L F /\ calm s s' F.
Proof.
  intros H. assert (Hrel : st <> EGRESS_OK -> forall s1, same_core s s1 ->
    exists s', release (ep_datagram (fp_pkt f)) s1 = Some (tt, s') /\ rinv s' L F /\ calm s s' F).
  { intros Hst s1 C. rewrite decide_False in H by done.
    destruct (release_run s1 L _ F (same_core_rinv _ _ _ _ C H)) as (s2 & E2 & H2 & C2). exists s2. split; [done|]. split; [done|].
    eapply calm_trans; [by apply same_core_calm|done]. }
  unfold forward_done. destruct (decide (st = EGRESS_OK)) as [->|Hst].
  { destruct (bool_decide _); [|by exists s]. destruct (count_core (fp_slot f) rs_inject_ok s) as (s1 & E1 & C1).
    exists s1. split; [done|]. split; [by eapply same_core_rinv|by apply same_core_calm]. }
  assert (Hgo : forall (c : R unit) s1, c s = Some (tt, s1) -> same_core s s1 ->
    exists s', (c;; release (ep_datagram (fp_pkt f))) s = Some (tt, s') /\ rinv s' L F /\ calm s s' F).
  { intros c s1 E C. rewrite (bind_run _ _ _ _ _ E). by apply Hrel. }
  destruct st; try done; destruct timed; cbn [bool_decide decide_rel negb andb]; repeat case_bool_decide; try done;
    first [by eapply (Hgo (mret tt) s) | eapply Hgo; [reflexivity|by split]].
Qed.

(** ** Forwarding *)

Definition wait_holds (egress : bool) (r : option (ForwardPending * Z)) : list Holding :=
  match r with Some (f, _) => [fp_hold egress f] | None => [] end.
Definition wait_ok (r : option (ForwardPending * Z)) : Prop :=
  match r with Some (f, _) => invalid_packet (fp_pkt f) = false | None => True end.

Lemma fill_dest_hold s egress f : fp_hold egress (fill_egress_dest s f) = fp_hold egress f.
Proof. unfold fill_egress_dest, fp_hold, pk_hold. destruct (fp_ack_lane f); cbn; repeat case_match; done. Qed.

(** An enqueue with its aftermath. *)
Lemma enqueue_done_run s L F f o ack timed st q back w :
  rinv s L (fp_hold (has_egress (rl_config s)) f :: F) -> eq_legal o = true -> op_packet o = [fp_pkt f] ->
  eq_step (lane ack s) o = Some (done_enqueue (st, q, back, w)) ->
  exists s', (modify (enqueued ack q w);; forward_done f timed st;; mret None) s = Some (@None (ForwardPending * Z), s') /\
    rinv s' L F /\ moves s s' F.
Proof.
  intros H Hl Hop E. destruct (enqueued_run s L F ack o (fp_pkt f) st q back w H Hl Hop E) as [H1 M1].
  assert (Hc : rl_config (enqueued ack q w s) = rl_config s) by apply M1.
  rewrite (bind_run _ _ s tt (enqueued ack q w s)) by done.
  destruct (forward_done_run (enqueued ack q w s) L F f timed st) as (s2 & E2 & H2 & C2); [by rewrite Hc|].
  rewrite (bind_run _ _ _ _ _ E2). exists s2. split; [done|]. split; [done|]. by eapply moves_then_calm.
Qed.

Lemma apply_forward_run now clock s L F f :
  rinv s L (fp_hold (has_egress (rl_config s)) f :: F) ->
  exists r s', relay_apply_forward_pending now clock f s = Some (r, s') /\
    rinv s' L (wait_holds (has_egress (rl_config s)) r ++ F) /\ moves s s' F /\ wait_ok r.
Proof.
  intros H. unfold relay_apply_forward_pending. set (g := fill_egress_dest s f).
  rewrite (bind_run _ _ s g s), (bind_run _ _ s (rl_config s) s), (bind_run _ _ s (lane (fp_ack_lane g) s) s) by done.
  assert (H' : rinv s L (fp_hold (has_egress (rl_config s)) g :: F)) by (unfold g; by rewrite fill_dest_hold).
  destruct (_ =? 0).
  - destruct (egress_queue_try_enqueue (lane (fp_ack_lane g) s) (fp_pkt g)) as [[[st q] back] w] eqn:E.
    destruct (enqueue_done_run s L F g (ETry (fp_pkt g)) (fp_ack_lane g) false st q back w) as (s' & E' & H1 & M1); try done.
    { cbn [eq_step]. by rewrite E. }
    exists None, s'. by rewrite E'.
  - destruct (egress_queue_timed_enqueue now clock (lane (fp_ack_lane g) s) (fp_pkt g) (cf_egress_wait_ms (rl_config s)))
      as [[[[st q] back] w]|[dl start]] eqn:E.
    + destruct (enqueue_done_run s L F g (ETimed now clock (fp_pkt g) (cf_egress_wait_ms (rl_config s))) (fp_ack_lane g) true st q back w)
        as (s' & E' & H1 & M1); try done.
      { cbn [eq_step]. by rewrite E. }
      exists None, s'. by rewrite E'.
    + exists (Some (g, start)), s. split; [done|]. split; [done|]. split; [done|]. cbn [wait_ok].
      unfold egress_queue_timed_enqueue in E. destruct (invalid_packet (fp_pkt g)); [done|]. done.
Qed.

Lemma resume_forward_run rc clock start s L F f :
  rinv s L (fp_hold (has_egress (rl_config s)) f :: F) -> invalid_packet (fp_pkt f) = false ->
  exists r s', resume_forward_pending rc clock start f s = Some (r, s') /\
    rinv s' L (wait_holds (has_egress (rl_config s)) r ++ F) /\ moves s s' F /\ wait_ok r.
Proof.
  intros H Hv. unfold resume_forward_pending. rewrite (bind_run _ _ s (lane (fp_ack_lane f) s) s) by done.
  destruct (timed_enqueue_resume rc clock start (lane (fp_ack_lane f) s) (fp_pkt f)) as [[[[st q] back] w]|[]] eqn:E.
  - destruct (enqueue_done_run s L F f (EResume rc clock start (fp_pkt f)) (fp_ack_lane f) true st q back w)
      as (s' & E' & H1 & M1); try done.
    { cbn. by rewrite Hv. }
    { cbn [eq_step]. by rewrite E. }
    exists None, s'. by rewrite E'.
  - by exists (Some (f, start)), s.
Qed.

(** ** Work *)

Definition work_holds (egress : bool) (w : Work) : list Holding :=
  match wk_deferred w with Some dl => [mkHold (dl_datagram dl) (dl_len dl) true] | None => [] end ++
  wait_holds egress (wk_waiting w) ++ (fp_hold egress <$> wk_pending w).
Definition work_ok (w : Work) : Prop := wait_ok (wk_waiting w).

Lemma work_of_holds egress r : work_holds egress (work_of r) = sub_holds egress r.
Proof. done. Qed.

Lemma delivery_run s L F dl :
  rinv s L (mkHold (dl_datagram dl) (dl_len dl) true :: F) ->
  exists s', run_deferred_local_delivery dl s = Some (tt, s') /\ rinv s' L F /\ calm s s' F.
Proof.
  intros H. destruct (read_run s L _ _ H) as (bs & _ & _ & _ & Hread). cbn [hd_buf] in Hread. unfold run_deferred_local_delivery.
  rewrite (bind_run _ _ _ _ _ (Hread _)). set (d := take _ bs).
  set (s1 := with_output (rl_sent s) (rl_delivered s ++ [(d, dl_header dl)]) s).
  rewrite (bind_run _ _ s tt s1) by done. assert (C1 : same_core s s1) by (by split).
  destruct (release_run s1 L _ _ (same_core_rinv _ _ _ _ C1 H)) as (s2 & E2 & H2 & C2). exists s2. split; [done|]. split; [done|].
  eapply calm_trans; [by apply same_core_calm|done].
Qed.

Lemma work_step_run now clock rc w s L F :
  rinv s L (work_holds (has_egress (rl_config s)) w ++ F) -> work_ok w ->
  exists w' s', work_step now clock rc w s = Some (w', s') /\
    rinv s' L (work_holds (has_egress (rl_config s)) w' ++ F) /\ moves s s' F /\ work_ok w'.
Proof.
  intros H Hw. destruct w as [[dl|] pend wait]; unfold work_holds, work_ok in *; cbn [wk_deferred wk_waiting wk_pending] in *.
  - rewrite <- app_assoc in H. destruct (delivery_run s L _ dl H) as (s1 & E1 & H1 & C1).
    exists (mkWork None pend wait), s1. unfold work_step. cbn [wk_deferred wk_waiting wk_pending]. rewrite (bind_run _ _ _ _ _ E1).
    split; [done|]. split; [done|]. split; [|done]. apply calm_moves. eapply calm_sub; [|exact C1]. intros x Hx. rewrite !elem_of_app. auto.
  - destruct wait as [[f start]|]; cbn [app] in *.
    + destruct (resume_forward_run rc clock start s L _ f H Hw) as (r & s' & E & H' & M & Hr).
      exists (mkWork None pend r), s'. unfold work_step. cbn [wk_deferred wk_waiting wk_pending]. rewrite (bind_run _ _ _ _ _ E).
      split; [done|]. cbn. rewrite <- app_assoc. split; [done|]. split; [|done]. by eapply moves_tail.
    + destruct pend as [|f pend]; cbn in *; [by exists (mkWork None [] None), s|].
      destruct (apply_forward_run now clock s L _ f H) as (r & s' & E & H' & M & Hr).
      exists (mkWork None pend r), s'. unfold work_step. cbn [wk_deferred wk_waiting wk_pending]. rewrite (bind_run _ _ _ _ _ E).
      split; [done|]. cbn. rewrite <- app_assoc. split; [done|]. split; [|done]. by eapply moves_tail.
Qed.

(** ** The backlog *)

Lemma hub_op_run s L K K' o res h :
  rinv s L K -> hub_step (rl_deferred s) o = Some (res, h) ->
  ((dp_hold <$> items (view (rl_deferred s)) ++ accepted o res) ≡ₚ (dp_hold <$> handed res ++ items (view h)) ->
     (dp_hold <$> items (view (rl_deferred s))) ++ K ≡ₚ (dp_hold <$> items (view h)) ++ K') ->
  rinv (with_deferred h s) L K' /\ forall F, moves s (with_deferred h s) F.
Proof.
  intros H E Hp. destruct (hub_step_refines (rl_deferred s) o (ri_hub _ _ _ H)) as (res' & h' & E' & Hh & _ & Hs).
  rewrite E in E'. injection E' as <- <-. pose proof (backlog_step_conserves _ _ _ _ _ Hs) as Hc.
  split; [|intros F; by apply moves_bufs]. pose proof H as [].
  split; try done; [cbn; by rewrite (hub_step_free _ _ _ _ E)|]. eapply good_perm; [|exact ri_good].
  unfold queue_holds. cbn [with_deferred rl_config rl_ack_egress rl_data_egress rl_deferred].
  set (A := pk_hold _ <$> queued (rl_ack_egress s)). set (D := pk_hold _ <$> queued (rl_data_egress s)).
  specialize (Hp ltac:(by rewrite Hc)). rewrite <- !app_assoc. by rewrite Hp.
Qed.

Lemma push_run s L F pkt st h back w :
  rinv s L (dp_hold pkt :: F) -> relay_deferred_hub_try_push pkt (rl_deferred s) = (st, h, back, w) ->
  rinv (with_deferred h s) L (if decide (st = RELAY_DEFERRED_OK) then F else dp_hold pkt :: F) /\ moves s (with_deferred h s) F.
Proof.
  intros H E. edestruct (hub_op_run s L (dp_hold pkt :: F) (if decide (st = RELAY_DEFERRED_OK) then F else dp_hold pkt :: F)
    (HPush pkt) (RPush st back) h H) as [H1 M1]; [cbn; by rewrite E| |by split].
  intros Hc. cbn [accepted handed] in Hc. case_decide as Hst; [subst st|].
  - cbn [app] in *. rewrite fmap_app in Hc. cbn in Hc. rewrite <- Hc, <- app_assoc. done.
  - assert (Hc' : (dp_hold <$> items (view (rl_deferred s))) ≡ₚ (dp_hold <$> items (view h))) by (destruct st; try done; by rewrite app_nil_r in Hc).
    by rewrite Hc'.
Qed.

Lemma pop_run s L F :
  rinv s L F ->
  exists r s', processing_pop s = Some (r, s') /\ rinv s' L ((dp_hold <$> option_list r) ++ F) /\ moves s s' F.
Proof.
  intros H. unfold processing_pop. rewrite (bind_run _ _ s (rl_deferred s) s) by done.
  destruct (hub_step_refines (rl_deferred s) HPop (ri_hub _ _ _ H)) as (res & h & E & _).
  cbn [hub_step] in E. destruct (relay_deferred_hub_try_pop (rl_deferred s)) as [[[st pkt] h']|] eqn:Ep; [|done].
  cbn in E. injection E as <- <-. rewrite (bind_run _ _ s (st, pkt, h') s) by done.
  set (r := if bool_decide (st = RELAY_DEFERRED_OK) then Some pkt else None).
  edestruct (hub_op_run s L F ((dp_hold <$> option_list r) ++ F) HPop (RPop st pkt) h' H) as [H1 M1]; [cbn; by rewrite Ep| |].
  - intros Hc. cbn [accepted] in Hc. rewrite app_nil_r, fmap_app in Hc. rewrite Hc. unfold r, handed.
    case_bool_decide as Hst; [subst st; cbn; by rewrite <- Permutation_middle|]. by destruct st.
  - rewrite (bind_run _ _ s tt (with_deferred h' s)) by done. by exists r, (with_deferred h' s).
Qed.

(** ** Reception *)

Section Host.
Context `{host : HostOrder}.

Lemma acquire_run s L F malloc :
  rinv s L F -> (forall q, malloc = Some q -> unowned s (in_use s L F) q) ->
  exists r s', bufs (relay_buf_acquire malloc) s = Some (r, s') /\ calm s s' F /\
    rinv s' L (match r with Some p => mkHold p 0 true :: F | None => F end) /\
    forall p, r = Some p -> datagram_pool_contains (rb_pool (rl_bufs s)) p = true \/ malloc = Some p.
Proof.
  intros H Hm. destruct (good_acquire _ _ _ _ malloc (ri_good _ _ _ H) (unowned_malloc _ _ _ _ H Hm)) as (r & b & E & Hs & Hk & Hg & Hfrom).
  exists r, (with_bufs (fun _ => b) s). unfold bufs. rewrite E. split; [done|].
  split; [apply with_bufs_calm; [done|]; by apply keeps_app in Hk as [_ Hk]|]. split; [|done].
  destruct r as [p|]; (eapply with_bufs_rinv; [exact H|]); [|done]. eapply good_perm; [|exact Hg]. apply Permutation_middle.
Qed.

(** Filling a buffer that was just taken. *)
Lemma fill_run s L F p d :
  rinv s L (mkHold p 0 true :: F) -> (length d <= RELAY_MAX_DATAGRAM)%nat ->
  exists s', write_buf p d s = Some (tt, s') /\ rinv s' L (mkHold p (Z.of_nat (length d)) true :: F) /\ calm s s' F.
Proof.
  intros H Hd. destruct (write_run s L p 0 (Z.of_nat (length d)) F d H ltac:(lia) ltac:(lia)) as (s' & old & E & H' & C & _).
  by exists s'.
Qed.

Lemma learn_core d peer now s : exists s', learn_return_route d peer now s = Some (tt, s') /\ same_core s s'.
Proof. unfold learn_return_route. destruct (header_of d); [destruct (_ && _)|]; (eexists; split; [done|by split]). Qed.

Lemma rx_receive_run s L F malloc now peer d :
  rinv s L F -> (forall q, malloc = Some q -> unowned s (in_use s L F) q) ->
  exists r s', rx_receive malloc now peer d s = Some (r, s') /\ calm s s' F /\
    rinv s' L (match r with Some (p, len) => mkHold p len true :: F | None => F end).
Proof.
  intros H Hm. unfold rx_receive. destruct (acquire_run s L F malloc H Hm) as (r & s1 & E1 & C1 & H1 & _). rewrite (bind_run _ _ _ _ _ E1).
  destruct r as [p|].
  2: { destruct (count_total_core rs_drop_malformed s1) as (s2 & E2 & C2). rewrite (bind_run _ _ _ _ _ E2).
       exists None, s2. split; [done|]. split; [eapply calm_trans; [done|by apply same_core_calm]|by eapply same_core_rinv]. }
  set (d' := take RELAY_MAX_DATAGRAM d).
  destruct (fill_run s1 L F p d' H1) as (s2 & E2 & H2 & C2); [unfold d'; rewrite length_take; lia|].
  rewrite (bind_run _ _ _ _ _ E2). pose proof (calm_trans _ _ _ _ C1 C2) as C12. destruct (_ =? 0)%nat.
  { destruct (release_run s2 L _ F H2) as (s3 & E3 & H3 & C3). cbn [hd_buf] in E3. rewrite (bind_run _ _ _ _ _ E3).
    exists None, s3. split; [done|]. split; [by eapply calm_trans|done]. }
  set (s3 := with_activity now (rl_inject_in_flight s2) (rl_stop s2) s2). rewrite (bind_run _ _ s2 tt s3) by done.
  destruct (learn_core d' peer now s3) as (s4 & E4 & C4). rewrite (bind_run _ _ _ _ _ E4).
  assert (C24 : same_core s2 s4) by (eapply (same_core_trans _ s3); [by split|done]).
  eexists _, s4. split; [done|]. split; [eapply calm_trans; [done|by apply same_core_calm]|]. by eapply same_core_rinv.
Qed.

Lemma fast_ack_run enqueue_ns s L F p len :
  rinv s L (mkHold p len true :: F) ->
  exists (consumed : bool) s', rx_try_fast_ack enqueue_ns p len s = Some (consumed, s') /\ moves s s' F /\
    if consumed then rinv s' L F else s' = s.
Proof.
  intros H. unfold rx_try_fast_ack. rewrite (bind_run _ _ s (rl_config s) s) by done.
  destruct (_ || _ || _ || _ || _); [by exists false, s|].
  destruct (read_run s L _ F H) as (buf & Hr & Hl & Hm & Hread). cbn [hd_buf hd_len] in *. rewrite (bind_run _ _ _ _ _ (Hread _)).
  destruct (header_of _) as [h|]; [|by exists false, s]. destruct (negb _); [by exists false, s|].
  destruct (_ && _); [by exists false, s|]. set (slot := flow_stats_slot _).
  destruct (count_core slot rs_rx s) as (s1 & E1 & C1). rewrite (bind_run _ _ _ _ _ E1). pose proof (same_core_rinv _ _ _ _ C1 H) as H1.
  assert (Hdrop : forall s2 x, moves s s2 F -> rinv s2 L (mkHold p len x :: F) ->
    exists (consumed : bool) s', (release p;; mret true) s2 = Some (consumed, s') /\ moves s s' F /\
      if consumed then rinv s' L F else s' = s).
  { intros s2 x M2 H2. destruct (release_run s2 L _ F H2) as (s3 & E3 & H3 & C3). cbn [hd_buf] in E3. rewrite (bind_run _ _ _ _ _ E3).
    exists true, s3. split; [done|]. split; [by eapply moves_then_calm|done]. }
  destruct (_ <=? 1).
  { destruct (count_core slot rs_drop_ttl s1) as (s2 & E2 & C2). rewrite (bind_run _ _ _ _ _ E2).
    pose proof (same_core_trans _ _ _ C1 C2) as C12. apply (Hdrop s2 true); [apply calm_moves; by apply same_core_calm|by eapply same_core_rinv]. }
  rewrite (bind_run _ _ s1 (Some buf) s1) by (unfold gets; by rewrite (sc_bufs _ _ C1), Hr). rewrite (bind_run _ _ s1 buf s1) by done.
  destruct (write_run s1 L p len len F (encode_header (dec_ttl h) buf) H1 Hm ltac:(lia)) as (s2 & old & E2 & H2 & C2 & _).
  rewrite (bind_run _ _ _ _ _ E2). rewrite (bind_run _ _ s2 (lane true s2) s2) by done.
  set (pkt := mkEp p len _ _ _ _ _ _). destruct (egress_queue_try_enqueue (lane true s2) pkt) as [[[st q] back] w] eqn:Eq.
  destruct (enqueued_run s2 L F true (ETry pkt) pkt st q back w) as [H3 M3]; [|done|done|cbn [eq_step]; by rewrite Eq|].
  { eapply rinv_weaken; [exact H2|unfold pkt; cbn [ep_len]; lia|done]. }
  assert (M03 : moves s (enqueued true q w s2) F).
  { eapply calm_then_moves; [|exact M3]. eapply calm_trans; [by apply same_core_calm|done]. }
  rewrite (bind_run _ _ s2 tt (enqueued true q w s2)) by done. case_bool_decide as Hst.
  { rewrite decide_True in H3 by done. by exists true, (enqueued true q w s2). }
  rewrite decide_False in H3 by done. case_bool_decide.
  - destruct (count_core slot rs_drop_egress_full (enqueued true q w s2)) as (s4 & E4 & C4). rewrite (bind_run _ _ _ _ _ E4).
    eapply Hdrop; [eapply moves_then_calm; [done|by apply same_core_calm]|by eapply same_core_rinv].
  - rewrite (bind_run _ _ _ tt (enqueued true q w s2)) by done. by eapply Hdrop.
Qed.

Lemma rx_enqueue_run enqueue_ns s L F p len :
  rinv s L (mkHold p len true :: F) ->
  exists s', rx_enqueue_datagram enqueue_ns p len s = Some (tt, s') /\ rinv s' L F /\ moves s s' F.
Proof.
  intros H. unfold rx_enqueue_datagram.
  assert (Hp : p <> 0) by (eapply (own_nonzero _ _ p (gd_own _ _ _ _ (rinv_front _ _ _ _ H))); apply elem_of_app; right; by left).
  destruct (Z.eqb_spec p 0); [done|]. destruct (fast_ack_run enqueue_ns s L F p len H) as (consumed & s1 & E1 & M1 & H1).
  rewrite (bind_run _ _ _ _ _ E1). destruct consumed; [by exists s1|]. subst s1.
  destruct (read_run s L _ F H) as (buf & Hr & Hl & Hm & Hread). cbn [hd_buf hd_len] in *. rewrite (bind_run _ _ _ _ _ (Hread _)).
  destruct (if _ || _ then None else _) as [[flow_id prefer_head]|].
  2: { destruct (count_total_core rs_drop_malformed s) as (s1 & E2 & C2). rewrite (bind_run _ _ _ _ _ E2).
       destruct (release_run s1 L _ F (same_core_rinv _ _ _ _ C2 H)) as (s2 & E3 & H3 & C3). cbn [hd_buf] in E3. exists s2.
       split; [done|]. split; [done|]. apply calm_moves. eapply calm_trans; [by apply same_core_calm|done]. }
  rewrite (bind_run _ _ s (rl_deferred s) s) by done. set (pkt := RelayDeferred.mkDp p len flow_id enqueue_ns _).
  destruct (relay_deferred_hub_try_push pkt (rl_deferred s)) as [[[st h] back] w] eqn:Eq.
  destruct (push_run s L F pkt st h back w H Eq) as [H2 M2]. rewrite (bind_run _ _ s tt (with_deferred h s)) by done.
  case_bool_decide as Hst; [rewrite decide_True in H2 by done; by exists (with_deferred h s)|]. rewrite decide_False in H2 by done.
  destruct (release_run _ L _ F H2) as (s3 & E3 & H3 & C3). exists s3. split; [done|]. split; [done|]. by eapply moves_then_calm.
Qed.

Lemma rx_idle_run now s L F :
  rinv s L F -> exists s' L', rx_idle now s = Some (tt, s') /\ rinv s' L' F /\ calm s s' F.
Proof.
  intros H. unfold rx_idle. rewrite (bind_run _ _ s (rl_cache_enabled s) s) by done. destruct (rl_cache_enabled s) eqn:En; [|by exists s, L].
  destruct (cache_expire_run s L F [] now (-1) H En) as (n & s1 & L1 & E1 & H1 & C1). rewrite (bind_run _ _ _ _ _ E1).
  destruct (sync_cache_core s1) as (s2 & E2 & C2). exists s2, L1. split; [done|]. split; [by eapply same_core_rinv|].
  eapply calm_trans; [done|by apply same_core_calm].
Qed.

(** ** Processing and injection *)

Lemma in_use_front_list L Q h F q : (q ∈ all_bufs L (Q ++ h :: F)) <-> (q ∈ hd_buf h :: all_bufs L (Q ++ F)).
Proof. rewrite !fmap_app, fmap_cons. set_solver. Qed.

Lemma process_run env pkt s L F :
  rinv s L (dp_hold pkt :: F) -> env_ok s (in_use s L (dp_hold pkt :: F)) env -> roomy 400 s L (dp_hold pkt :: F) ->
  exists w s' L', process_one_deferred_packet env pkt s = Some (w, s') /\
    rinv s' L' (work_holds (has_egress (rl_config s)) w ++ F) /\ calm s s' F /\ work_ok w.
Proof.
  intros H Henv Hroom. unfold process_one_deferred_packet.
  assert (Hp : RelayDeferred.dp_datagram pkt <> 0)
    by (apply (own_nonzero _ _ (RelayDeferred.dp_datagram pkt) (gd_own _ _ _ _ (rinv_front _ _ _ _ H))); apply elem_of_app; right; by left).
  destruct (Z.eqb_spec (RelayDeferred.dp_datagram pkt) 0); [done|].
  destruct (ingress_submit_run env RELAY_SRC_PREVIOUS_NODE s L F _ _ H Henv Hroom) as (r & s1 & L1 & E1 & H1 & C1).
  rewrite (bind_run _ _ _ _ _ E1). by exists (work_of r), s1, L1.
Qed.

(** The caller keeps its buffer when the injection is refused. *)
Lemma inject_owned_run env p len s L F :
  rinv s L (mkHold p len true :: F) -> env_ok s (in_use s L (mkHold p len true :: F)) env -> roomy 400 s L (mkHold p len true :: F) ->
  exists r s' L', relay_inject_wire_datagram_owned env p len s = Some (r, s') /\ calm s s' F /\
    rinv s' L' (match r with inl _ => [mkHold p len true] | inr sub => sub_holds (has_egress (rl_config s)) sub end ++ F) /\
    (match r with inl _ => s' = s | inr _ => True end).
Proof.
  intros H Henv Hroom. unfold relay_inject_wire_datagram_owned. destruct (_ || _ || _); [by exists (inl RELAY_INGRESS_ERR_INVALID), s, L|].
  rewrite (bind_run _ _ s (rl_stop s) s) by done. set (s1 := with_activity (rl_last_activity_ns s) (rl_inject_in_flight s + 1) (rl_stop s) s).
  destruct (rl_stop s) in |- *; [by exists (inl RELAY_INGRESS_ERR_SHUTDOWN), s, L|]. rewrite (bind_run _ _ s tt s1) by done. assert (C1 : same_core s s1) by (by split).
  pose proof (same_core_calm _ _ F C1) as Cm1.
  destruct (ingress_submit_run env RELAY_SRC_LOCAL_ENCODER s1 L F p len (same_core_rinv _ _ _ _ C1 H)) as (r & s2 & L2 & E2 & H2 & C2).
  - by eapply (env_later s).
  - by eapply (roomy_later _ s).
  - rewrite (bind_run _ _ _ _ _ E2). exists (inr r), s2, L2. split; [done|]. split; [by eapply calm_trans|]. done.
Qed.

(** One more buffer in use, not one of those the submission will get. *)
Lemma env_taken s s' malloc L p n F env :
  calm s s' F -> datagram_pool_contains (rb_pool (rl_bufs s)) p = true \/ malloc = Some p ->
  (forall q, malloc = Some q -> en_cache_malloc env <> Some q /\ forall m, en_malloc env m <> Some q) ->
  env_ok s (in_use s L F) env -> env_ok s' (in_use s' L (mkHold p n true :: F)) env.
Proof.
  intros C Hfrom Hap [E1 E2 E3].
  assert (Hstep : forall q, unowned s (in_use s L F) q -> malloc <> Some q -> unowned s' (in_use s' L (mkHold p n true :: F)) q).
  { intros q (H0 & Hc & Hn) Hq. split; [done|]. split; [by rewrite (same_pool_contains _ _ q (cm_pool _ _ _ C))|].
    rewrite (cm_queues _ _ _ C), in_use_front_list. intros [->|Hin]%elem_of_cons; [cbn [hd_buf] in *; destruct Hfrom; congruence|]. by apply Hn. }
  destruct E2 as [A1 A2 A3]. split; [| |done].
  - intros q Eq. apply Hstep; [by apply E1|]. intros Em. by destruct (Hap q Em).
  - split; [|done|intros i; by rewrite (same_pool_contains _ _ _ (cm_pool _ _ _ C))].
    intros m q Eq. apply Hstep; [by apply (A1 m)|]. intros Em. destruct (Hap q Em) as [_ Ha]. by destruct (Ha m).
Qed.

Lemma inject_run env malloc d s L F :
  rinv s L F -> (forall q, malloc = Some q -> unowned s (in_use s L F) q) -> roomy 401 s L F ->
  env_ok s (in_use s L F) env -> (forall q, malloc = Some q -> en_cache_malloc env <> Some q /\ forall n, en_malloc env n <> Some q) ->
  exists r s' L', relay_inject_wire_datagram env malloc d s = Some (r, s') /\ calm s s' F /\
    rinv s' L' (match r with inl _ => [] | inr sub => sub_holds (has_egress (rl_config s)) sub end ++ F).
Proof.
  intros H Hm Hroom Henv Hapart. unfold relay_inject_wire_datagram. destruct (_ || _) eqn:Ed; [by exists (inl RELAY_INGRESS_ERR_INVALID), s, L|].
  apply orb_false_iff in Ed as [_ Hd%Nat.ltb_ge].
  destruct (acquire_run s L F malloc H Hm) as (r & s1 & E1 & C1 & H1 & Hfrom). rewrite (bind_run _ _ _ _ _ E1).
  destruct r as [p|]; [|by exists (inl RELAY_INGRESS_ERR_ALLOC), s1, L].
  destruct (fill_run s1 L F p d H1 Hd) as (s2 & E2 & H2 & C2). rewrite (bind_run _ _ _ _ _ E2). pose proof (calm_trans _ _ _ _ C1 C2) as C12.
  destruct (inject_owned_run env p (Z.of_nat (length d)) s2 L F H2) as (r & s3 & L3 & E3 & C3 & H3 & Hsame).
  - by apply (env_taken s _ malloc); [|apply Hfrom| |].
  - unfold roomy in *. rewrite (cm_queues _ _ _ C12), !length_app, !length_fmap, !length_app in *. cbn [length]. lia.
  - rewrite (bind_run _ _ _ _ _ E3). rewrite (cm_config _ _ _ C12) in H3. destruct r as [st|sub].
    + destruct (release_run s3 L3 _ F H3) as (s4 & E4 & H4 & C4). cbn [hd_buf] in E4. rewrite (bind_run _ _ _ _ _ E4).
      exists (inl st), s4, L3. split; [done|]. split; [|done]. eapply calm_trans; [done|]. by eapply calm_trans.
    + exists (inr sub), s3, L3. split; [done|]. split; [by eapply calm_trans|done].
Qed.

(** ** Transmission *)

Lemma egress_some s f : cf_egress_fn (rl_config s) = Some f -> has_egress (rl_config s) = true.
Proof. intros E. apply bool_decide_eq_true_2. by exists f. Qed.

Lemma account_core slot h ok s : exists s', relay_tx_account slot h ok s = Some (tt, s') /\ same_core s s'.
Proof.
  unfold relay_tx_account. destruct (negb ok); [apply count_core|].
  destruct (count_core slot rs_forward s) as (s1 & E1 & C1). rewrite (bind_run _ _ _ _ _ E1).
  destruct (_ =? _); [destruct (count_core slot rs_forward_ack s1) as (s2 & E2 & C2)|
    destruct (count_core slot rs_forward_data s1) as (s2 & E2 & C2)]; exists s2; (split; [done|by eapply same_core_trans]).
Qed.

(** The result of an emission: the packet is still there, or it is gone. *)
Definition emits (m : R bool) (s : RelayCtx) (L : list (nat * GenerationEntry)) (h : Holding) (F : list Holding) : Prop :=
  exists (again : bool) s', m s = Some (again, s') /\ rinv s' L (if again then h :: F else F) /\ calm s s' F.

Lemma emits_after {A} (m : R A) (k : A -> R bool) a s s1 L h F :
  m s = Some (a, s1) -> calm s s1 F -> emits (k a) s1 L h F -> emits (m ≫= k) s L h F.
Proof.
  intros E C (again & s2 & E2 & H2 & C2). exists again, s2. rewrite (bind_run _ _ _ _ _ E). split; [done|]. split; [done|]. by eapply calm_trans.
Qed.

Lemma emits_core {A} (m : R A) (k : A -> R bool) a s s1 L h F :
  m s = Some (a, s1) -> same_core s s1 -> emits (k a) s1 L h F -> emits (m ≫= k) s L h F.
Proof. intros E C. apply (emits_after m k a s s1); [done|by apply same_core_calm]. Qed.

Lemma emits_release s L h h' F : rinv s L (h :: F) -> emits (release (hd_buf h);; mret false) s L h' F.
Proof.
  intros H. destruct (release_run s L h F H) as (s1 & E1 & H1 & C1). eapply emits_after; [exact E1|done|]. by exists false, s1.
Qed.

Lemma emits_account s L h h' F slot hd ok :
  rinv s L (h :: F) -> emits (relay_tx_account slot hd ok;; release (hd_buf h);; mret false) s L h' F.
Proof.
  intros H. destruct (account_core slot hd ok s) as (s1 & E1 & C1). eapply emits_core; [exact E1|done|].
  apply emits_release. by eapply same_core_rinv.
Qed.

Lemma emits_count s L h h' F slot st :
  rinv s L (h :: F) -> emits (count slot st;; release (hd_buf h);; mret false) s L h' F.
Proof.
  intros H. destruct (count_core slot st s) as (s1 & E1 & C1). eapply emits_core; [exact E1|done|].
  apply emits_release. by eapply same_core_rinv.
Qed.

(** [egress_fn] rewrites the datagram in place: nobody shares it then. *)
Lemma egress_fn_run s L F pkt d h :
  rinv s L (pk_hold (has_egress (rl_config s)) pkt :: F) ->
  exists ok s', (match cf_egress_fn (rl_config s) with
     | None => mret true
     | Some f => let '(rc, out) := f d h in
                 match out with Some bs => write_buf (ep_datagram pkt) bs | None => mret tt end;; mret (rc =? 0)
     end) s = Some (ok, s') /\ rinv s' L (pk_hold (has_egress (rl_config s)) pkt :: F) /\ calm s s' F.
Proof.
  intros H. destruct (cf_egress_fn (rl_config s)) as [f|] eqn:Ef; [|by exists true, s]. destruct (f d h) as [rc out].
  destruct out as [bs|]; [|by exists (rc =? 0), s]. rewrite (egress_some _ _ Ef) in *.
  destruct (read_run s L _ F H) as (buf & Hr & Hl & Hm & _). cbn [pk_hold hd_len hd_buf] in *.
  destruct (write_run s L (ep_datagram pkt) (ep_len pkt) (ep_len pkt) F bs H Hm ltac:(lia)) as (s1 & old & E1 & H1 & C1 & _).
  rewrite (bind_run _ _ _ _ _ E1). by exists (rc =? 0), s1.
Qed.

Lemma tx_emit_run res dontwait pkt s L F :
  rinv s L (pk_hold (has_egress (rl_config s)) pkt :: F) ->
  emits (relay_tx_emit res dontwait pkt) s L (pk_hold (has_egress (rl_config s)) pkt) F.
Proof.
  intros H. unfold relay_tx_emit. set (eg := has_egress (rl_config s)) in *. set (h := pk_hold eg pkt) in *.
  assert (Hp : ep_datagram pkt <> 0) by (apply (own_nonzero _ _ (ep_datagram pkt) (gd_own _ _ _ _ (rinv_front _ _ _ _ H)));
    apply elem_of_app; right; by left).
  destruct (Z.eqb_spec (ep_datagram pkt) 0); [done|]. destruct (read_run s L h F H) as (buf & Hr & Hl & Hm & Hread).
  cbn [h pk_hold hd_buf hd_len] in Hr, Hl, Hm, Hread. eapply emits_core; [apply Hread|done|].
  destruct (header_of _) as [hd|]; [|by apply (emits_count s L h)]. eapply emits_core; [reflexivity|done|].
  match goal with |- context [match ?t with Some _ => _ | None => _ end] => destruct t as [target|] end; [|by apply (emits_count s L h)].
  eapply emits_core; [reflexivity|done|].
  destruct (egress_fn_run s L F pkt (take (Z.to_nat (ep_len pkt)) buf) hd H) as (ok & s1 & E1 & H1 & C1).
  eapply emits_after; [exact E1|done|]. destruct (negb ok); [by apply (emits_count s1 L h)|].
  destruct (read_run s1 L _ F H1) as (buf1 & _ & _ & _ & Hread1). cbn [pk_hold hd_buf] in Hread1.
  eapply emits_core; [apply Hread1|done|].
  assert (Hsend : forall slot ok', emits (emit_sent target (take (Z.to_nat (ep_len pkt)) buf1);; relay_tx_account slot hd ok';;
    release (ep_datagram pkt);; mret false) s1 L h F).
  { intros slot ok'. eapply emits_core; [reflexivity|by split|]. apply (emits_account _ L h). eapply same_core_rinv; [|exact H1]. by split. }
  destruct (cf_capture _); [apply Hsend|]. destruct res; [apply Hsend| |by apply (emits_account s1 L h)].
  destruct (_ && _); [by exists true, s1|by apply (emits_account s1 L h)].
Qed.

Lemma dequeue_run s L F ack :
  rinv s L F ->
  exists st out q, egress_queue_try_dequeue (lane ack s) = Some (st, out, q) /\
    rinv (set_lane ack q s) L ((pk_hold (has_egress (rl_config s)) <$> option_list out) ++ F) /\
    (st = EGRESS_OK <-> is_Some out) /\ (out = None -> q = lane ack s).
Proof.
  intros H. pose proof (lane_ok _ _ _ ack H) as Hq. unfold egress_queue_try_dequeue. pose proof (egress_dequeue_spec _ Hq) as Hd.
  destruct (queued (lane ack s)) as [|p l] eqn:E.
  - eexists _, None, _. split; [exact Hd|]. split; [eapply set_lane_rinv; [exact H|done|done|]; by rewrite E|].
    split; [|done]. split; [destruct (eq_shutdown _); done|by intros []].
  - destruct Hd as (q' & Ed & Hq' & Ha). eexists _, (Some p), q'. split; [exact Ed|]. split; [|split; [|done]; split; [by eexists|done]].
    eapply set_lane_rinv; [exact H|done| |].
    { apply (eq_step_free _ ETryDequeue (EDone EGRESS_OK (Some p) None)). cbn [eq_step]. unfold egress_queue_try_dequeue. by rewrite Ed. }
    apply (f_equal sq_items) in Ha. cbn in Ha. rewrite E, Ha. cbn. apply Permutation_middle.
Qed.

Lemma drain_ack_run res s L F :
  rinv s L F -> exists more s', drain_one_ack res s = Some (more, s') /\ rinv s' L F /\ moves s s' F.
Proof.
  intros H. unfold drain_one_ack. rewrite (bind_run _ _ s (lane true s) s) by done.
  destruct (dequeue_run s L F true H) as (st & out & q & E & H1 & Hst & _). rewrite E. rewrite (bind_run _ _ s (st, out, q) s) by done.
  rewrite (bind_run _ _ s tt (set_lane true q s)) by done. pose proof (set_lane_moves s true q F) as M1.
  destruct out as [ack|].
  - rewrite (proj2 Hst) by (by eexists). destruct (tx_emit_run res false ack (set_lane true q s) L F) as (again & s2 & E2 & H2 & C2); [exact H1|].
    rewrite (bind_run _ _ _ _ _ E2). exists true, s2.
    assert (again = false) as ->.
    { clear -E2. unfold relay_tx_emit in E2. destruct again; [exfalso|done]. unfold mbind, comp_bind in E2.
      repeat (case_match; try done; simplify_eq). all: destruct (is_v4 _ && _); done. }
    split; [done|]. split; [done|]. by eapply moves_then_calm.
  - exists false, (set_lane true q s). split; [by destruct st|]. done.
Qed.

Lemma with_egress_lane s ack q d :
  same_core (set_lane ack q s) (if ack then with_egress q (rl_data_egress s) d s else with_egress (rl_ack_egress s) q d s).
Proof. by destruct ack; split. Qed.

(** The packet of a lane, handed out by the fair dequeuer. *)
Definition deq_out (r : option (EgressStatus * option EgressPacket)) : list EgressPacket :=
  match r with Some (_, Some pkt) => [pkt] | _ => [] end.

Lemma tx_dequeue_run s L F :
  rinv s L F ->
  exists r s', tx_dequeue s = Some (r, s') /\ rinv s' L ((pk_hold (has_egress (rl_config s)) <$> deq_out r) ++ F) /\ moves s s' F.
Proof.
  intros H. unfold tx_dequeue. rewrite (bind_run _ _ s s s) by done. unfold egress_fair_dequeue.
  assert (Hnone : forall st d, exists r s', (modify (with_egress (rl_ack_egress s) (rl_data_egress s) d);; mret (Some (st, @None EgressPacket))) s = Some (r, s') /\
    rinv s' L ((pk_hold (has_egress (rl_config s)) <$> deq_out r) ++ F) /\ moves s s' F).
  { intros st d. assert (C : same_core s (with_egress (rl_ack_egress s) (rl_data_egress s) d s)) by (by split).
    eexists _, _. split; [done|]. split; [by eapply same_core_rinv|]. apply calm_moves. by apply same_core_calm. }
  assert (Htake : forall ack st pkt q d, egress_queue_try_dequeue (lane ack s) = Some (st, Some pkt, q) ->
    rinv (set_lane ack q s) L ((pk_hold (has_egress (rl_config s)) <$> [pkt]) ++ F) ->
    exists r s', (modify (with_egress (if ack then q else rl_ack_egress s) (if ack then rl_data_egress s else q) d);; mret (Some (EGRESS_OK, Some pkt))) s
      = Some (r, s') /\ rinv s' L ((pk_hold (has_egress (rl_config s)) <$> deq_out r) ++ F) /\ moves s s' F).
  { intros ack st pkt q d _ H1. pose proof (with_egress_lane s ack q d) as C.
    eexists _, _. split; [done|]. destruct ack; (split; [by eapply same_core_rinv|]);
      (eapply moves_then_calm; [apply set_lane_moves|by apply same_core_calm]). }
  destruct (dequeue_run s L F true H) as (ast & aout & aq & Ea & Ha & Hast & Haq).
  destruct (dequeue_run s L F false H) as (dst & dout & dq & Ed & Hd & Hdst & Hdq). cbn [lane] in *.
  destruct (negb _); [rewrite (bind_run _ _ s _ s) by done; apply Hnone|].
  assert (Hdecl : ast <> EGRESS_OK -> dst <> EGRESS_OK -> forall d, exists r s',
    match (match fair_declined ast dst with
      | Some st => Returns (st, @None EgressPacket, d, aq, dq) | None => Blocks end) with
    | Returns (st, out, d, ack, data) => (modify (with_egress ack data d);; mret (Some (st, out)))
    | Blocks => mret None end s = Some (r, s') /\
    rinv s' L ((pk_hold (has_egress (rl_config s)) <$> deq_out r) ++ F) /\ moves s s' F).
  { intros Hna Hnd d. rewrite Haq by (destruct aout; [destruct Hna; apply Hast; by eexists|done]).
    rewrite Hdq by (destruct dout; [destruct Hnd; apply Hdst; by eexists|done]).
    destruct (fair_declined _ _); [apply Hnone|by exists None, s]. }
  destruct (_ >=? _); rewrite ?Ea, ?Ed; cbn [mbind option_bind]; rewrite ?Ea, ?Ed; cbn [mbind option_bind].
  - case_bool_decide as Hd1; [|case_bool_decide as Ha1]; (rewrite (bind_run _ _ s _ s) by done).
    + destruct (proj1 Hdst Hd1) as [pkt ->]. by apply (Htake false dst pkt dq _ Ed).
    + destruct (proj1 Hast Ha1) as [pkt ->]. rewrite Hdq by (destruct dout; [destruct Hd1; apply Hdst; by eexists|done]).
      by apply (Htake true ast pkt aq _ Ea).
    + by apply Hdecl.
  - case_bool_decide as Ha1; [|case_bool_decide as Hd1]; (rewrite (bind_run _ _ s _ s) by done).
    + destruct (proj1 Hast Ha1) as [pkt ->]. by apply (Htake true ast pkt aq _ Ea).
    + destruct (proj1 Hdst Hd1) as [pkt ->]. rewrite Haq by (destruct aout; [destruct Ha1; apply Hast; by eexists|done]).
      by apply (Htake false dst pkt dq _ Ed).
    + by apply Hdecl.
Qed.

(** ** Other readers *)

Lemma ack_poll_run flow_id segment_id s L F :
  rinv s L F -> exists b s', relay_local_source_ack_poll flow_id segment_id s = Some (b, s') /\ rinv s' L F /\ calm s s' F.
Proof.
  intros H. unfold relay_local_source_ack_poll. rewrite (bind_run _ _ s (rl_source_ack s) s) by done.
  set (i := Z.to_nat _). destruct (lookup_lt_is_Some_2 (rl_source_ack s) i) as [[[f seg] valid] E].
  { rewrite (ri_acks _ _ _ H). unfold i, RELAY_SOURCE_ACK_CAPACITY. pose proof (Z.mod_pos_bound segment_id (Z.of_nat 16) ltac:(lia)). lia. }
  rewrite E, (bind_run _ _ s (f, seg, valid) s) by done. destruct (_ && _ && _) in |- *; [|by exists false, s].
  eexists true, _. split; [done|]. assert (C : same_core s (with_routes (rl_return_routes s) (<[i := (f, seg, false)]> (rl_source_ack s)) s))
    by (split; try done; cbn; by rewrite length_insert).
  split; [by eapply same_core_rinv|by apply same_core_calm].
Qed.

End Host.
