(* ===== verification/RelayLife.v ===== *)
(** * The life of a relay: src/apps/wire_relay/relay.c

    [relay_ctx_init_common] with every failure path, and [relay_ctx_cleanup], cut where it waits
    for a thread.  Allocations, thread primitives and the network are arguments. *)

From Stdlib Require Import Strings.Byte.
From S2P Require Import Prelude Ring WireHeader Gf256 ByteVec DatagramPool EgressQueue.
From S2P Require Import RelayDeferred GenerationCache RsBats Recode Relay PktQueue.
From S2P Require Import RelayDeferredSpec GenerationCacheList GenerationCacheSpec RecodeSpec.
From S2P Require Import RelayInv RelayIngress RelayHandlers.

Local Open Scope Z_scope.

(** ** Taking things down *)

(** [free] without a hook, [relay_packet_free_cb] with it. *)
Definition packets_free (hook : Z) (ps : list Z) : R unit :=
  bufs (fun b => b ← (if hook =? 0 then heap_free_all ps b else relay_packet_free_cb ps b); Some (tt, b)).

Definition destroy_egress (ack : bool) : R unit :=
  q ← gets (lane ack);
  let '(freed, q') := egress_queue_destroy q in
  modify (set_lane ack q');; packets_free (eq_packet_free q) freed.

Definition destroy_dequeuer : R unit :=
  modify (fun s =>
    let '(d, ack, data) := egress_fair_dequeuer_destroy (rl_egress_dequeuer s) (rl_ack_egress s) (rl_data_egress s) in
    with_egress ack data d s).

Definition destroy_deferred : R unit :=
  h ← gets rl_deferred;
  let '(freed, h') := relay_deferred_hub_destroy h in
  modify (with_deferred h');; packets_free (hub_packet_free h) freed.

(** The slab goes with the pool. *)
Definition pool_gone (b : RelayBufs) : RelayBufs :=
  mkBufs (datagram_pool_destroy (rb_pool b)) false
    (filter (fun kv => datagram_pool_contains (rb_pool b) (fst kv) = false) (rb_mem b)).
Definition destroy_pool : R unit := modify (with_bufs pool_gone).

(** ** Cleanup

    The pieces of [relay_ctx_cleanup] between its joins: the source thread is joined after
    [cleanup_stop], the processing thread after [cleanup_deferred], the sending thread after
    [cleanup_egress]; [cleanup_cache] waits until no injection is in flight.  [deferred_inited]
    holds wherever the function is called. *)

Definition cleanup_stop : R unit := modify (fun s => with_activity (rl_last_activity_ns s) (rl_inject_in_flight s) true s).
Definition cleanup_deferred : R unit := modify (fun s => with_deferred (relay_deferred_hub_shutdown (rl_deferred s)) s).
Definition cleanup_cache : R unit :=
  enabled ← gets rl_cache_enabled;
  if (enabled : bool) then
    cache_call [] generation_cache_destroy;; modify (fun s => with_cache (rl_gen_cache s) false s)
  else mret tt.
Definition shutdown_lane (ack : bool) : R unit :=
  modify (fun s => let '(q, w) := egress_queue_shutdown (lane ack s) in enqueued ack q w s).
Definition cleanup_egress : R unit := shutdown_lane true;; shutdown_lane false.
Definition cleanup_queues : R unit := destroy_dequeuer;; destroy_egress true;; destroy_egress false;; destroy_deferred.
Definition cleanup_pool : R unit :=
  inited ← gets (fun s => rb_inited (rl_bufs s));
  if (inited : bool) then destroy_pool else mret tt.

Definition relay_ctx_cleanup : R unit :=
  cleanup_stop;; cleanup_deferred;; cleanup_cache;; cleanup_egress;; cleanup_queues;; cleanup_pool.

(** ** Initialisation *)

Definition DATAGRAM_POOL_DEFAULT_CAPACITY : Z := 8192.

(** The calls of the host that may fail. *)
Inductive InitCall :=
  | init_ingress_mu | init_ingress_idle | init_pool_memory | init_pool_mu
  | init_ring (ack : bool) | init_queue_mu (ack : bool) | init_not_empty (ack : bool) | init_attr (ack : bool)
  | init_clock (ack : bool) | init_not_full (ack : bool)
  | init_fair_mu | init_fair_cond | init_hub_memory | init_hub_mu | init_hub_cond | init_cache_memory
  | init_listen_sock | init_send_sock | init_tx_thread | init_processing_thread.

Record InitEnv := mkInitEnv {
  ie_fails : InitCall -> bool;
  ie_slab : Z;                           (* the slab *)
  ie_waiter : Z;                         (* the addresses of the waiter, the hook and the context *)
  ie_free_cb : Z;
  ie_ctx : Z;
  ie_next_hop : option (list Z);         (* [resolve_next_hop]; the return hop if one is configured *)
  ie_return_hop : option (option (list Z)) }.

Definition or_default (n d : nat) : nat := if (n =? 0)%nat then d else n.

Definition config_defaults (c : RelayConfig) : RelayConfig :=
  mkRelayConfig (cf_local_node_id c) (cf_recode_fn c) (cf_egress_fn c) (cf_decode_reencode_fn c) (cf_delivery_fn c)
    (cf_local_source c) (cf_process_mode c) (cf_process_fn c)
    (or_default (cf_egress_capacity c) RELAY_DEFAULT_EGRESS_CAPACITY) (cf_egress_wait_ms c)
    (or_default (cf_deferred_per_flow c) RELAY_DEFAULT_DEFERRED_PER_FLOW)
    (or_default (cf_deferred_total c) RELAY_DEFAULT_DEFERRED_TOTAL)
    (or_default (cf_max_active_flows c) RELAY_DEFAULT_MAX_ACTIVE_FLOWS)
    (cf_reject_local_encoder_loopback c || negb (cf_delivery_fn c)) (cf_capture c)
    (cf_gen_timeout_ms c) (cf_max_gens_global c) (cf_max_gens_per_flow c) (cf_max_cache_bytes c).

Definition pool_capacity (c : RelayConfig) : nat :=
  let cap := u64 (Z.of_nat (cf_deferred_total c + cf_egress_capacity c + RELAY_ACK_EGRESS_CAPACITY + 1024)) in
  let cap := if cap <? DATAGRAM_POOL_DEFAULT_CAPACITY then DATAGRAM_POOL_DEFAULT_CAPACITY else cap in
  Z.to_nat (if cap >? 65536 then 65536 else cap).

Definition apply_cache_config (c : RelayConfig) : GenerationCacheConfig :=
  let d := generation_cache_config_defaults in
  mkGcConfig (if cf_gen_timeout_ms c =? 0 then gen_timeout_ms d else cf_gen_timeout_ms c)
    (or_default (cf_max_gens_global c) (max_gens_global d)) (or_default (cf_max_gens_per_flow c) (max_gens_per_flow d))
    (if cf_max_cache_bytes c =? 0 then max_cache_bytes d else cf_max_cache_bytes c).

Definition stats_zero : RelayFlowStats := fun _ => 0.

(** The context after [memset] and the copy of the configuration; the recoder belongs to the
    caller, the field's tables to the process. *)
Definition relay_zero (c : RelayConfig) (x : RelayRsBatsRecoderCtx) (g : GfTable) : RelayCtx :=
  mkRelay c (mkBufs dp_zero false ∅) eq_zero eq_zero fd_zero hub_zero (mkGst gc_zero ∅ 1 []) false
    (replicate RELAY_MAX_FLOWS stats_zero) stats_zero 0 0 false [] None
    (replicate RELAY_RETURN_ROUTE_CAPACITY route_zero) (replicate RELAY_SOURCE_ACK_CAPACITY (0, 0, false)) x g [] [].

Definition with_hops (next : list Z) (return_hop : option (list Z)) (s : RelayCtx) : RelayCtx :=
  mkRelay (rl_config s) (rl_bufs s) (rl_ack_egress s) (rl_data_egress s) (rl_egress_dequeuer s) (rl_deferred s)
    (rl_gen_cache s) (rl_cache_enabled s) (rl_per_flow s) (rl_total s) (rl_last_activity_ns s) (rl_inject_in_flight s)
    (rl_stop s) next return_hop (rl_return_routes s) (rl_source_ack s) (rl_recoder s) (rl_gf s)
    (rl_sent s) (rl_delivered s).

(** Each step of the initialisation says whether it succeeded. *)
Definition init_pool (env : InitEnv) : R bool :=
  c ← gets rl_config;
  let '(rc, pool) := datagram_pool_init (if ie_fails env init_pool_memory then None else Some (ie_slab env))
                       (ie_fails env init_pool_mu) (pool_capacity c) (Z.of_nat RELAY_MAX_DATAGRAM) dp_zero in
  modify (with_bufs (fun b => mkBufs pool (rc =? 0) (rb_mem b)));; mret (rc =? 0).

Definition init_lane (env : InitEnv) (ack : bool) (capacity : nat) : R bool :=
  let f c := ie_fails env (c ack) in
  let '(st, q) := egress_queue_init (f init_ring) (f init_queue_mu) (f init_not_empty) (f init_attr) (f init_clock)
                    (f init_not_full) capacity eq_zero in
  modify (set_lane ack q);; mret (bool_decide (st = EGRESS_OK)).

Definition init_dequeuer (env : InitEnv) : R bool :=
  s ← gets (fun s => s);
  let '(st, d, ack, data) :=
    egress_fair_dequeuer_init false (ie_fails env init_fair_mu) (ie_fails env init_fair_cond) (ie_waiter env)
      (rl_ack_egress s) (rl_data_egress s) RELAY_ACK_EGRESS_QUOTA fd_zero in
  modify (with_egress ack data d);; mret (bool_decide (st = EGRESS_OK)).

Definition set_free_hooks (env : InitEnv) : R unit :=
  modify (fun s =>
    with_egress (egress_queue_set_packet_free (rl_ack_egress s) (ie_free_cb env) (ie_ctx env))
      (egress_queue_set_packet_free (rl_data_egress s) (ie_free_cb env) (ie_ctx env)) (rl_egress_dequeuer s) s).

Definition init_deferred (env : InitEnv) : R bool :=
  c ← gets rl_config;
  let '(st, h) := relay_deferred_hub_init (ie_fails env init_hub_memory) (ie_fails env init_hub_mu) (ie_fails env init_hub_cond)
                    (mkDcfg (cf_max_active_flows c) (cf_deferred_per_flow c) (cf_deferred_total c)) hub_zero in
  let ok := bool_decide (st = RELAY_DEFERRED_OK) in
  modify (with_deferred (if ok then relay_deferred_hub_set_packet_free (ie_free_cb env) (ie_ctx env) h else h));; mret ok.

Definition set_cache_hooks (on : bool) (c : GenerationCache) : GenerationCache :=
  mkCache (gc_cfg c) (gc_head c) (gc_tail c) (gc_count c) (gc_accounts c) (gc_stats c) on on.

Definition init_cache (env : InitEnv) : R bool :=
  c ← gets rl_config;
  if bool_decide (cf_process_mode c = RELAY_PROCESS_CACHE) then
    let '(rc, cache) := generation_cache_init (ie_fails env init_cache_memory) (Some (apply_cache_config c)) in
    let share := bool_decide (cf_egress_fn c = None) in
    modify (with_cache (mkGst (if (rc =? 0) && share then set_cache_hooks true cache else cache) ∅ 1 []) true);;
    mret (rc =? 0)
  else mret true.

(** The sockets; the receive buffers they are given are not part of the model. *)
Definition init_sockets (env : InitEnv) : R bool :=
  match ie_next_hop env, ie_return_hop env with
  | Some next, None => modify (with_hops next None);; mret (negb (ie_fails env init_listen_sock) && negb (ie_fails env init_send_sock))
  | Some next, Some (Some hop) =>
      modify (with_hops next (Some hop));; mret (negb (ie_fails env init_listen_sock) && negb (ie_fails env init_send_sock))
  | Some next, Some None => modify (with_hops next None);; mret false
  | None, _ => mret false
  end.

(** [k] if [b], otherwise [undo] and the result -1. *)
Definition or_undo (b : bool) (undo : R unit) (k : R Z) : R Z := if b then k else undo;; mret (-1).

Definition relay_ctx_init_common (env : InitEnv) (need_sockets : bool) : R Z :=
  c ← gets rl_config;
  if (cf_max_active_flows c <? 1)%nat || (RELAY_MAX_ACTIVE_FLOWS_LIMIT <? cf_max_active_flows c)%nat then mret (-1)
  else if (cf_deferred_per_flow c =? 0)%nat || (cf_deferred_total c =? 0)%nat then mret (-1)
  else if ie_fails env init_ingress_mu || ie_fails env init_ingress_idle then mret (-1)
  else
    ok ← init_pool env;
    or_undo ok (mret tt) (
    ok ← init_lane env false (cf_egress_capacity c);
    or_undo ok destroy_pool (
    ok ← init_lane env true RELAY_ACK_EGRESS_CAPACITY;
    or_undo ok (destroy_egress false;; destroy_pool) (
    ok ← init_dequeuer env;
    or_undo ok (destroy_egress true;; destroy_egress false;; destroy_pool) (
    set_free_hooks env;;
    ok ← init_deferred env;
    or_undo ok (destroy_dequeuer;; destroy_egress true;; destroy_egress false;; destroy_pool) (
    ok ← init_cache env;
    or_undo ok (destroy_deferred;; destroy_dequeuer;; destroy_egress true;; destroy_egress false;; destroy_pool) (
    ok ← (if need_sockets then init_sockets env else mret true);
    or_undo ok relay_ctx_cleanup (
    or_undo (negb (ie_fails env init_tx_thread)) relay_ctx_cleanup (
    or_undo (negb (ie_fails env init_processing_thread)) relay_ctx_cleanup (mret 0))))))))).

(** * What initialisation establishes and what cleanup gives back

    Initialisation either establishes the invariant with empty queues or leaves nothing behind.
    Each piece of cleanup is defined; once the queues are gone no buffer has an owner. *)

(** ** The cache goes *)

(** Holdings of a smaller set of owners. *)
Lemma good_less b b' L hook H :
  own b' (hd_buf <$> H) -> same_pool b b' -> keeps b b' (hd_buf <$> H) -> good b L hook H -> good b' [] hook H.
Proof.
  intros Ho Hs Hk Hg. split; [done| |constructor|by intros _; constructor|].
  - eapply forall_keeps; [exact Hk|apply Hg].
  - intros h Hh Hx. pose proof (gd_excl _ _ _ _ Hg h Hh Hx) as E. rewrite owners_app in E. cbn [fmap list_fmap mbind list_bind app].
    assert (0 < owners (hd_buf <$> H) (hd_buf h))%nat by (apply owners_pos; by apply list_elem_of_fmap_2). lia.
Qed.

Lemma bufs_let_go c (L : list (nat * GenerationEntry)) : Forall (is_letting_go (gc_release c)) (L.*2 ≫= entry_bufs c).
Proof.
  induction L as [|[a e] L IH]; [constructor|]. cbn [fmap list_fmap snd]. rewrite bind_cons. apply list.Forall_app.
  split; [apply slots_let_go|done].
Qed.

Lemma cleanup_cache_run s L K :
  rinv s L K -> exists s', cleanup_cache s = Some (tt, s') /\ rinv s' [] K /\ calm s s' K.
Proof.
  intros H. unfold cleanup_cache. rewrite (bind_run _ _ s (rl_cache_enabled s) s) by done.
  destruct (rl_cache_enabled s) eqn:En; [|exists s; rewrite (ri_off _ _ _ H En) in H; done].
  destruct (ri_caching _ _ _ H En) as [I1 I2 I3 I4]. destruct (destroy_log _ L I1) as (g & E & _ & _ & Hlog).
  pose proof (ri_good _ _ _ H) as Hg. rewrite <- I3 in Hg. set (evs := L.*2 ≫= entry_bufs (g_cache (rl_gen_cache s))) in *.
  destruct (cache_gone (gc_release (g_cache (rl_gen_cache s))) evs [] (rl_bufs s) (cached_bufs L) [] (hd_buf <$> queue_holds s ++ K))
    as (b & Eb & Ho & Hs & _ & Hk).
  - apply bufs_let_go.
  - rewrite app_nil_r. unfold evs. by destruct (bufs_log (g_cache (rl_gen_cache s)) L (ci_entries _ _ I1)) as [_ ->].
  - apply Hg.
  - apply Hg.
  - cbn [app] in Ho, Hk. rewrite (bind_run _ _ s tt (with_bufs (fun _ => b) (with_cache g true s))).
    2: { unfold cache_call. rewrite E, Hlog, drop_app_length, Eb. by rewrite En. }
    eexists. split; [done|]. split.
    + pose proof H as []. split; try done. rewrite I3 in Hg. exact (good_less (rl_bufs s) b L _ _ Ho Hs Hk Hg).
    + split; done.
Qed.

(** ** Shutting down *)

Lemma cleanup_stop_run s L K : rinv s L K -> exists s', cleanup_stop s = Some (tt, s') /\ rinv s' L K /\ calm s s' K.
Proof.
  intros H. eexists. split; [done|]. assert (C : same_core s (with_activity (rl_last_activity_ns s) (rl_inject_in_flight s) true s)) by (by split).
  split; [by eapply same_core_rinv|by apply same_core_calm].
Qed.

Lemma cleanup_deferred_run s L K : rinv s L K -> exists s', cleanup_deferred s = Some (tt, s') /\ rinv s' L K /\ moves s s' K.
Proof.
  intros H. eexists. split; [done|].
  destruct (hub_op_run s L K K HShutdown RShutdown (relay_deferred_hub_shutdown (rl_deferred s)) H) as [H1 M1]; [done| |done].
  cbn [accepted handed]. rewrite app_nil_r. cbn [app]. by intros ->.
Qed.

Lemma shutdown_lane_run ack s L K : rinv s L K -> exists s', shutdown_lane ack s = Some (tt, s') /\ rinv s' L K /\ moves s s' K.
Proof.
  intros H. eexists. split; [done|]. cbn [egress_queue_shutdown]. set (q := mkEq _ _ true _ _ _ _).
  pose proof (enqueued_core s ack q (eq_waiter (lane ack s))) as C. pose proof (lane_ok _ _ _ ack H) as Hq. split.
  - eapply same_core_rinv; [exact C|]. eapply set_lane_rinv; [exact H| |done|done]. by destruct Hq.
  - eapply moves_then_calm; [apply set_lane_moves|by apply same_core_calm].
Qed.

Lemma cleanup_egress_run s L K : rinv s L K -> exists s', cleanup_egress s = Some (tt, s') /\ rinv s' L K /\ moves s s' K.
Proof.
  intros H. unfold cleanup_egress. destruct (shutdown_lane_run true s L K H) as (s1 & E1 & H1 & M1). rewrite (bind_run _ _ _ _ _ E1).
  destruct (shutdown_lane_run false s1 L K H1) as (s2 & E2 & H2 & M2). exists s2. split; [done|]. split; [done|].
  assert (Hq : queue_holds s1 = queue_holds s) by (unfold shutdown_lane, modify in E1; injection E1 as <-; done).
  destruct M1 as [A1 A2 A3], M2 as [B1 B2 B3]. split; [by rewrite B1|by eapply same_pool_trans|].
  intros p Hp Hp'. rewrite B3; [apply A3|..]; by rewrite ?Hq.
Qed.

(** ** The queues go *)

Lemma egress_destroy_frees q : egress_ok q -> fst (egress_queue_destroy q) ≡ₚ ep_datagram <$> queued q.
Proof.
  intros H. unfold egress_queue_destroy. rewrite (eo_live _ H). cbn [fst].
  by rewrite (clean_filter _ _ (eo_ring _ H) (eo_clean _ H) (eo_items _ H)).
Qed.

Lemma packets_free_run s hook ps H :
  hook <> 0 -> own (rl_bufs s) (ps ++ H) ->
  exists b, packets_free hook ps s = Some (tt, with_bufs (fun _ => b) s) /\ own b H /\ same_pool (rl_bufs s) b.
Proof.
  intros Hh Ho. destruct (own_release_all _ _ _ Ho) as (b & E & Ho' & Hs & _). exists b. unfold packets_free, bufs.
  destruct (Z.eqb_spec hook 0); [done|]. by rewrite E.
Qed.

Definition queue_bufs (s : RelayCtx) (ack : bool) : list Z := ep_datagram <$> queued (lane ack s).
Definition hub_bufs (s : RelayCtx) : list Z := RelayDeferred.dp_datagram <$> items (view (rl_deferred s)).

Lemma rinv_bufs s : rinv s [] [] -> own (rl_bufs s) (queue_bufs s true ++ queue_bufs s false ++ hub_bufs s).
Proof.
  intros H. pose proof (gd_own _ _ _ _ (ri_good _ _ _ H)) as Ho. rewrite app_nil_r in Ho. unfold queue_holds in Ho.
  rewrite !fmap_app, <- !list_fmap_compose in Ho. exact Ho.
Qed.

Lemma destroy_egress_run s ack H :
  egress_ok (lane ack s) -> eq_packet_free (lane ack s) <> 0 -> own (rl_bufs s) (queue_bufs s ack ++ H) ->
  exists b, destroy_egress ack s = Some (tt, with_bufs (fun _ => b) (set_lane ack eq_zero s)) /\ own b H /\ same_pool (rl_bufs s) b.
Proof.
  intros Hq Hf Ho. unfold destroy_egress. rewrite (bind_run _ _ s (lane ack s) s) by done.
  pose proof (egress_destroy_frees _ Hq) as Hp. destruct (egress_queue_destroy (lane ack s)) as [freed q'] eqn:Ed.
  assert (q' = eq_zero) as -> by (unfold egress_queue_destroy in Ed; congruence). cbn [fst] in Hp.
  rewrite (bind_run _ _ s tt (set_lane ack eq_zero s)) by done.
  destruct (packets_free_run (set_lane ack eq_zero s) (eq_packet_free (lane ack s)) freed H) as (b & E & Ho' & Hs); [done| |].
  - destruct ack; (eapply own_perm; [|exact Ho]); by rewrite Hp.
  - exists b. split; [done|]. split; [done|]. by destruct ack.
Qed.

Lemma free_deferred_run s H :
  hub_ok (rl_deferred s) -> hub_packet_free (rl_deferred s) <> 0 -> own (rl_bufs s) (hub_bufs s ++ H) ->
  exists s', destroy_deferred s = Some (tt, s') /\ own (rl_bufs s') H /\ same_pool (rl_bufs s) (rl_bufs s').
Proof.
  intros Hq Hf Ho. unfold destroy_deferred. rewrite (bind_run _ _ s (rl_deferred s) s) by done.
  pose proof (destroy_frees _ Hq) as Hp. destruct (relay_deferred_hub_destroy (rl_deferred s)) as [freed h'] eqn:Ed. cbn [fst] in Hp.
  rewrite (bind_run _ _ s tt (with_deferred h' s)) by done.
  destruct (packets_free_run (with_deferred h' s) (hub_packet_free (rl_deferred s)) freed H) as (b & E & Ho' & Hs); [done| |by eexists].
  eapply own_perm; [|exact Ho]. by rewrite Hp.
Qed.

Lemma destroy_dequeuer_run s : rinv s [] [] -> exists s', destroy_dequeuer s = Some (tt, s') /\ rinv s' [] [] /\ rl_bufs s' = rl_bufs s.
Proof.
  intros H. eexists. split; [done|]. unfold egress_fair_dequeuer_destroy. destruct (negb _); pose proof H as [].
  - split; [|done]. eapply same_core_rinv; [|exact H]. by split.
  - cbn. split; [|done]. split; try done; [by destruct ri_ack|by destruct ri_data|]. intros []; apply (ri_free true) || apply (ri_free false).
Qed.

Lemma cleanup_queues_run s :
  rinv s [] [] -> exists s', cleanup_queues s = Some (tt, s') /\ own (rl_bufs s') [] /\ same_pool (rl_bufs s) (rl_bufs s').
Proof.
  intros H0. unfold cleanup_queues. destruct (destroy_dequeuer_run s H0) as (s1 & E1 & H & Eb). rewrite (bind_run _ _ _ _ _ E1), <- Eb.
  pose proof (rinv_bufs _ H) as Ho. pose proof H as [].
  destruct (destroy_egress_run s1 true _ ri_ack (ri_free true) Ho) as (b2 & E2 & Ho2 & Hs2). rewrite (bind_run _ _ _ _ _ E2).
  destruct (destroy_egress_run (with_bufs (fun _ => b2) (set_lane true eq_zero s1)) false _ ri_data (ri_free false) Ho2) as (b3 & E3 & Ho3 & Hs3).
  rewrite (bind_run _ _ _ _ _ E3). set (s3 := with_bufs (fun _ => b3) _) in *.
  destruct (free_deferred_run s3 [] ri_hub ri_hub_free) as (s4 & E4 & Ho4 & Hs4); [by rewrite app_nil_r|]. exists s4.
  split; [done|]. split; [done|]. eapply same_pool_trans; [exact Hs2|]. by eapply same_pool_trans.
Qed.

(** ** The pool goes *)

(** Without owners, every buffer of the slab is free. *)
Lemma own_none_in_use b : own b [] -> dp_in_use (rb_pool b) = 0%nat /\ dp_free_count (rb_pool b) = dp_capacity (rb_pool b).
Proof.
  intros [_ Hp _]. pose proof (di_count _ _ Hp). pose proof (free_list_length _ _ Hp) as Hl.
  assert (Hge : (dp_capacity (rb_pool b) <= length (free_list (rb_pool b)))%nat); [|lia].
  rewrite <- (length_seq (dp_capacity (rb_pool b)) 0), <- (length_fmap (slot_addr (rb_pool b))). apply submseteq_length, NoDup_submseteq.
  - apply NoDup_fmap_2_strong; [|apply NoDup_seq]. intros x y _ _ E. apply (f_equal (slot_index (rb_pool b))) in E.
    by rewrite !slot_index_addr in E by apply Hp.
  - intros p (i & -> & Hi%elem_of_seq)%list_elem_of_fmap. apply (di_free _ _ Hp). exists i. split; [lia|done].
Qed.

Lemma pool_gone_empty b : own b [] -> rb_mem (pool_gone b) = ∅.
Proof.
  intros [_ _ Hh]. apply map_empty. intros p. cbn [pool_gone rb_mem]. apply map_lookup_filter_None. right.
  intros bs Hbs Hc. cbn [fst] in Hc. apply (not_elem_of_nil p). apply (Hh p Hc). by eexists.
Qed.

Lemma cleanup_pool_run s : own (rl_bufs s) [] -> exists s', cleanup_pool s = Some (tt, s') /\ rb_mem (rl_bufs s') = ∅ /\ rb_inited (rl_bufs s') = false.
Proof.
  intros Ho. unfold cleanup_pool. rewrite (bind_run _ _ s true s) by (unfold gets; by rewrite (ow_inited _ _ Ho)).
  eexists. split; [done|]. split; [by apply pool_gone_empty|done].
Qed.

Lemma relay_ctx_cleanup_run s L :
  rinv s L [] -> exists s', relay_ctx_cleanup s = Some (tt, s') /\ rb_mem (rl_bufs s') = ∅ /\ rb_inited (rl_bufs s') = false.
Proof.
  intros H. unfold relay_ctx_cleanup. destruct (cleanup_stop_run s L [] H) as (s1 & E1 & H1 & _). rewrite (bind_run _ _ _ _ _ E1).
  destruct (cleanup_deferred_run s1 L [] H1) as (s2 & E2 & H2 & _). rewrite (bind_run _ _ _ _ _ E2).
  destruct (cleanup_cache_run s2 L [] H2) as (s3 & E3 & H3 & _). rewrite (bind_run _ _ _ _ _ E3).
  destruct (cleanup_egress_run s3 [] [] H3) as (s4 & E4 & H4 & _). rewrite (bind_run _ _ _ _ _ E4).
  destruct (cleanup_queues_run s4 H4) as (s5 & E5 & H5 & _). rewrite (bind_run _ _ _ _ _ E5). by apply cleanup_pool_run.
Qed.

(** ** Initialisation *)

Lemma with_bufs_id s : with_bufs (fun _ => rl_bufs s) s = s.
Proof. by destruct s. Qed.

(** Nothing is queued and nothing was taken with [malloc]. *)
Record bare (s : RelayCtx) : Prop := {
  br_mem : rb_mem (rl_bufs s) = ∅;
  br_lane : forall ack, fst (egress_queue_destroy (lane ack s)) = [];
  br_hub : fst (relay_deferred_hub_destroy (rl_deferred s)) = [] }.

Definition leaves_nothing (m : R unit) (s : RelayCtx) : Prop :=
  exists s', m s = Some (tt, s') /\ rb_mem (rl_bufs s') = ∅ /\ rb_inited (rl_bufs s') = false.

Lemma packets_free_nil hook s : packets_free hook [] s = Some (tt, s).
Proof. unfold packets_free, bufs. destruct (hook =? 0); cbn; by rewrite with_bufs_id. Qed.

Lemma bare_egress ack (m : R unit) s :
  bare s -> (forall s', bare s' -> leaves_nothing m s') -> leaves_nothing (destroy_egress ack;; m) s.
Proof.
  intros H Hm. pose proof (br_lane _ H ack) as Hl. unfold leaves_nothing, destroy_egress.
  assert (E : (q ← gets (lane ack); let '(freed, q') := egress_queue_destroy q in
    modify (set_lane ack q');; packets_free (eq_packet_free q) freed) s = Some (tt, set_lane ack eq_zero s)).
  { rewrite (bind_run _ _ s (lane ack s) s) by done. destruct (egress_queue_destroy (lane ack s)) as [freed q'] eqn:Ed.
    cbn [fst] in Hl. subst freed. assert (q' = eq_zero) as -> by (unfold egress_queue_destroy in Ed; congruence).
    rewrite (bind_run _ _ s tt (set_lane ack eq_zero s)) by done. apply packets_free_nil. }
  rewrite (bind_run _ _ _ _ _ E). apply Hm. destruct H as [H1 H2 H3]. split; [by destruct ack| |by destruct ack].
  intros a. pose proof (H2 a). by destruct a, ack.
Qed.

Lemma bare_dequeuer (m : R unit) s :
  bare s -> (forall s', bare s' -> leaves_nothing m s') -> leaves_nothing (destroy_dequeuer;; m) s.
Proof.
  intros [H1 H2 H3] Hm. unfold leaves_nothing. rewrite (bind_run _ _ s tt _ eq_refl). apply Hm. unfold egress_fair_dequeuer_destroy.
  pose proof (H2 true) as Ha. pose proof (H2 false) as Hd. cbn [lane] in Ha, Hd. destruct (negb _); split; try done; by intros [].
Qed.

Lemma bare_deferred (m : R unit) s :
  bare s -> (forall s', bare s' -> leaves_nothing m s') -> leaves_nothing (destroy_deferred;; m) s.
Proof.
  intros [H1 H2 H3] Hm. unfold leaves_nothing, destroy_deferred.
  destruct (relay_deferred_hub_destroy (rl_deferred s)) as [freed h] eqn:E. cbn [fst] in H3. subst freed.
  assert (E' : (h ← gets rl_deferred; let '(freed, h') := relay_deferred_hub_destroy h in
    modify (with_deferred h');; packets_free (hub_packet_free h) freed) s = Some (tt, with_deferred h s)).
  { rewrite (bind_run _ _ s (rl_deferred s) s) by done. rewrite E. rewrite (bind_run _ _ s tt (with_deferred h s)) by done. apply packets_free_nil. }
  rewrite (bind_run _ _ _ _ _ E'). apply Hm. split; [done|done|]. unfold relay_deferred_hub_destroy in E. injection E as _ <-.
  unfold relay_deferred_hub_destroy. by destruct (mu_inited _).
Qed.

Lemma bare_pool s : bare s -> leaves_nothing destroy_pool s.
Proof. intros [H _ _]. eexists. split; [done|]. split; [|done]. cbn. rewrite H. apply map_filter_empty. Qed.

(** The outcome of the initialisation. *)
Definition comes_up (c : RelayConfig) (m : R Z) (s : RelayCtx) : Prop :=
  exists rc s', m s = Some (rc, s') /\
    ((rc = 0 /\ rinv s' [] [] /\ rl_config s' = c /\ rl_inject_in_flight s' = 0 /\ rl_stop s' = false) \/
     (rc = -1 /\ rb_mem (rl_bufs s') = ∅ /\ rb_inited (rl_bufs s') = false)).

Lemma comes_up_after {A} c (m : R A) (k : A -> R Z) a s s1 : m s = Some (a, s1) -> comes_up c (k a) s1 -> comes_up c (m ≫= k) s.
Proof. intros E (rc & s2 & E2 & H). exists rc, s2. by rewrite (bind_run _ _ _ _ _ E). Qed.

Lemma comes_up_undo c (ok : bool) undo k s :
  (ok = false -> leaves_nothing undo s) -> (ok = true -> comes_up c k s) -> comes_up c (or_undo ok undo k) s.
Proof.
  intros Hu Hk. destruct ok; [by apply Hk|]. destruct (Hu eq_refl) as (s1 & E & H). exists (-1), s1. unfold or_undo.
  rewrite (bind_run _ _ _ _ _ E). split; [done|]. by right.
Qed.

(** What the configuration and the host promise. *)
Record config_ok (c : RelayConfig) : Prop := {
  co_hooks : hooks_ok c;
  co_bytes : 0 <= cf_max_cache_bytes c;
  co_limit : cf_max_cache_bytes c + Z.of_nat RELAY_MAX_DATAGRAM < 2 ^ 64 }.

Record init_ok (env : InitEnv) : Prop := {
  io_slab : 0 < ie_slab env;
  io_free : ie_free_cb env <> 0 }.

Lemma init_lane_run env ack cap s :
  bare s -> (0 < cap)%nat ->
  exists ok s1, init_lane env ack cap s = Some (ok, s1) /\ bare s1 /\
    (ok = true -> s1 = set_lane ack (mkEq (ring_init cap ep_zero) true false es_zero 0 0 0) s).
Proof.
  intros [H1 H2 H3] Hc. unfold init_lane. destruct (egress_queue_init _ _ _ _ _ _ _ _) as [st q] eqn:E.
  eexists _, _. split; [done|]. unfold egress_queue_init in E. destruct (Nat.eqb_spec cap 0); [lia|].
  assert (Hb : forall r, fst (egress_queue_destroy (mkEq r false false es_zero 0 0 0)) = []) by done.
  assert (Hr : fst (egress_queue_destroy (mkEq (ring_init cap ep_zero) true false es_zero 0 0 0)) = []).
  { unfold egress_queue_destroy. cbn [eq_live fst eq_ring ring_init r_slots]. rewrite filter_drops; [done|]. by apply Forall_replicate. }
  assert (Hs : forall q, fst (egress_queue_destroy q) = [] -> bare (set_lane ack q s)).
  { intros q' Hq. split; [by destruct ack| |by destruct ack]. intros a. pose proof (H2 a). by destruct a, ack. }
  destruct (ie_fails env (init_ring ack)); [injection E as <- <-; split; [by apply Hs|done]|].
  destruct (_ || _) in E; injection E as <- <-; (split; [by apply Hs|done]).
Qed.

Lemma init_dequeuer_run env s :
  bare s -> exists ok s1, init_dequeuer env s = Some (ok, s1) /\ bare s1 /\
    (ok = true -> s1 = with_egress (queue_set_waiter (rl_ack_egress s) (ie_waiter env)) (queue_set_waiter (rl_data_egress s) (ie_waiter env))
                         (mkFair 0 RELAY_ACK_EGRESS_QUOTA 0 true) s).
Proof.
  intros [H1 H2 H3]. unfold init_dequeuer. rewrite (bind_run _ _ s s s) by done. unfold egress_fair_dequeuer_init.
  pose proof (H2 true) as Ha. pose proof (H2 false) as Hd. cbn [lane] in Ha, Hd.
  change (false || (RELAY_ACK_EGRESS_QUOTA =? 0)) with false. cbv iota.
  destruct (_ || _); (eexists _, _; split; [done|]; split; [|done]); (split; [done| |done]); by intros [].
Qed.

Lemma set_free_hooks_run env s : bare s -> exists s1, set_free_hooks env s = Some (tt, s1) /\ bare s1 /\
  s1 = with_egress (egress_queue_set_packet_free (rl_ack_egress s) (ie_free_cb env) (ie_ctx env))
      (egress_queue_set_packet_free (rl_data_egress s) (ie_free_cb env) (ie_ctx env)) (rl_egress_dequeuer s) s.
Proof.
  intros [H1 H2 H3]. eexists. split; [done|]. split; [|done]. pose proof (H2 true) as Ha. pose proof (H2 false) as Hd.
  split; [done| |done]. by intros [].
Qed.

Lemma init_deferred_run env s :
  bare s -> config_valid (mkDcfg (cf_max_active_flows (rl_config s)) (cf_deferred_per_flow (rl_config s)) (cf_deferred_total (rl_config s))) = true ->
  exists ok s1, init_deferred env s = Some (ok, s1) /\ bare s1 /\
    (ok = true -> exists h, s1 = with_deferred h s /\ hub_ok h /\ items (view h) = [] /\ hub_packet_free h = ie_free_cb env).
Proof.
  intros [H1 H2 H3] Hv. unfold init_deferred. rewrite (bind_run _ _ s (rl_config s) s) by done.
  destruct (hub_init_ok _ hub_zero Hv) as (h & Eh & Hh & Hcfg & Hview). unfold relay_deferred_hub_init in *. rewrite Hv in *. cbn [negb] in *.
  injection Eh as Eh. subst h.
  destruct (_ || _) eqn:Ef; (eexists _, _; split; [done|]); cbn [bool_decide decide_rel];
    (split; [split; [done|done|]|]); cbn [with_deferred rl_deferred]; try done.
  - pose proof (destroy_frees _ Hh) as Hp. rewrite Hview in Hp. apply Permutation_nil_r in Hp. exact Hp.
  - intros _. eexists. split; [done|]. split; [|split; [|done]].
    + by destruct Hh as [].
    + exact (f_equal items Hview).
Qed.

Lemma no_egress c : bool_decide (cf_egress_fn c = None) = negb (has_egress c).
Proof. unfold has_egress. destruct (cf_egress_fn c) as [f|]; repeat case_bool_decide; naive_solver. Qed.

Lemma boot_caching c : config_ok c -> caching (gc_boot (Some (apply_cache_config c)) (negb (has_egress c))) c [].
Proof.
  intros [_ H1 H2].
  assert (Hm : forall b, max_cache_bytes (gc_cfg (g_cache (gc_boot (Some (apply_cache_config c)) b))) =
    if cf_max_cache_bytes c =? 0 then 32 * 1024 * 1024 else cf_max_cache_bytes c).
  { intros b. cbn -[Z.mul]. by destruct (Z.eqb_spec (cf_max_cache_bytes c) 0) as [|Hne%Z.eqb_neq]; [|rewrite Hne]. }
  split; [apply boot_inv|done|done|]; rewrite Hm; destruct (_ =? 0); try lia. done.
Qed.

Lemma init_cache_run env s :
  bare s -> config_ok (rl_config s) -> rl_cache_enabled s = false ->
  exists ok s1, init_cache env s = Some (ok, s1) /\ bare s1 /\
    (ok = true -> (s1 = s \/ exists g, s1 = with_cache g true s /\ caching g (rl_config s) [])).
Proof.
  intros [H1 H2 H3] Hc En. unfold init_cache. rewrite (bind_run _ _ s (rl_config s) s) by done.
  case_bool_decide as Hm; [|by exists true, s; split; [|split; [|left]]].
  destruct (ie_fails env init_cache_memory) eqn:Ef.
  - eexists false, _. split; [done|]. split; [by split|done].
  - eexists true, _. split; [done|]. split; [by split|]. intros _. right. eexists. split; [done|].
    pose proof (boot_caching _ Hc) as Hb. rewrite no_egress. unfold gc_boot in Hb. by destruct (negb _).
Qed.

Lemma pool_capacity_bounds c : (0 < pool_capacity c)%nat /\ Z.of_nat (pool_capacity c) <= 65536.
Proof.
  unfold pool_capacity, DATAGRAM_POOL_DEFAULT_CAPACITY. set (z := u64 _). 
  destruct (z <? 8192) eqn:E1; destruct (_ >? 65536) eqn:E2; lia.
Qed.

Lemma init_pool_run env s :
  init_ok env -> bare s -> rb_inited (rl_bufs s) = false ->
  exists ok s1, init_pool env s = Some (ok, s1) /\ bare s1 /\ (ok = false -> rb_inited (rl_bufs s1) = false) /\
    (ok = true -> exists pool, s1 = with_bufs (fun _ => mkBufs pool true ∅) s /\ dp_inv pool []).
Proof.
  intros Hi [H1 H2 H3] Hn. unfold init_pool. rewrite (bind_run _ _ s (rl_config s) s) by done.
  destruct (datagram_pool_init _ _ _ _ _) as [rc pool] eqn:E. eexists _, _. split; [done|].
  split; [by split|]. split; [done|]. intros Hrc. exists pool. unfold with_bufs. rewrite Hrc, H1. split; [done|].
  apply Z.eqb_eq in Hrc. subst rc. destruct (pool_capacity_bounds (rl_config s)) as [Hc1 Hc2].
  destruct (ie_fails env init_pool_memory); [unfold datagram_pool_init in E; by destruct (_ || _)|].
  destruct (ie_fails env init_pool_mu); [unfold datagram_pool_init in E; by destruct (_ || _)|].
  assert (Hsz : Z.of_nat RELAY_MAX_DATAGRAM = 2100) by (by vm_compute).
  eapply dp_init_inv; [| | | |exact E]; [apply Hi|done|rewrite Hsz; lia|rewrite Hsz; lia].
Qed.

(** The state before the sockets and the threads. *)
Lemma up_rinv s0 pool qa qd d h s :
  hooks_ok (rl_config s0) -> RecodeSpec.ring_ok (rl_recoder s0) -> table_ok (rl_gf s0) ->
  length (rl_source_ack s0) = RELAY_SOURCE_ACK_CAPACITY -> dp_inv pool [] ->
  (forall q, q = qa \/ q = qd -> egress_ok q /\ queued q = [] /\ eq_packet_free q <> 0) ->
  hub_ok h -> items (view h) = [] -> hub_packet_free h <> 0 ->
  s = with_deferred h (with_egress qa qd d (with_bufs (fun _ => mkBufs pool true ∅) s0)) ->
  (rl_cache_enabled s0 = false -> rinv s [] []) /\ (forall g, caching g (rl_config s0) [] -> rinv (with_cache g true s) [] []).
Proof.
  intros Hc Hx Ht Ha Hp Hq Hh Hv Hf ->. destruct (Hq qa ltac:(by left)) as (A1 & A2 & A3), (Hq qd ltac:(by right)) as (D1 & D2 & D3).
  assert (Hgood : good (mkBufs pool true ∅) [] (negb (has_egress (rl_config s0))) []).
  { split; [|constructor|constructor|by intros _; constructor|by intros x ?%elem_of_nil]. split; [done|done|]. intros p _. cbn.
    rewrite lookup_empty. split; [by intros []|by intros ?%elem_of_nil]. }
  split; [intros En|intros g Hg]; (split; try done);
    cbn [with_deferred with_egress with_bufs with_cache rl_cache_enabled rl_bufs rl_config rl_deferred lane rl_ack_egress rl_data_egress];
    try (by intros []); try (unfold queue_holds; cbn [with_deferred with_egress with_bufs with_cache rl_bufs rl_config rl_deferred rl_ack_egress rl_data_egress];
      by rewrite A2, D2, Hv). by rewrite En.
Qed.

Lemma fresh_lane_ok cap waiter fn ctx :
  (0 < cap)%nat -> fn <> 0 ->
  let q := egress_queue_set_packet_free (queue_set_waiter (mkEq (ring_init cap ep_zero) true false es_zero 0 0 0) waiter) fn ctx in
  egress_ok q /\ queued q = [] /\ eq_packet_free q <> 0.
Proof.
  intros Hc Hf. destruct (egress_init_ok cap eq_zero Hc) as (q & E & Hq & Ha). unfold egress_queue_init in E.
  destruct (Nat.eqb_spec cap 0); [lia|]. injection E as <-. split; [by destruct Hq|]. split; [|done]. exact (f_equal sq_items Ha).
Qed.

Lemma egress_capacity_pos c : (0 < cf_egress_capacity (config_defaults c))%nat.
Proof.
  cbn [config_defaults cf_egress_capacity]. unfold or_default. destruct (Nat.eqb_spec (cf_egress_capacity c) 0); [|lia].
  apply Nat.ltb_lt. by vm_compute.
Qed.

Lemma rinv_leaves s : rinv s [] [] -> leaves_nothing relay_ctx_cleanup s.
Proof. intros H. by apply (relay_ctx_cleanup_run s []). Qed.

(** Sockets and threads. *)
Lemma init_threads_up c env need s :
  rinv s [] [] -> rl_config s = c -> rl_inject_in_flight s = 0 -> rl_stop s = false ->
  comes_up c (ok ← (if (need : bool) then init_sockets env else mret true);
    or_undo ok relay_ctx_cleanup (
    or_undo (negb (ie_fails env init_tx_thread)) relay_ctx_cleanup (
    or_undo (negb (ie_fails env init_processing_thread)) relay_ctx_cleanup (mret 0)))) s.
Proof.
  intros H Hc Hi Hs.
  assert (Hgo : forall ok next hop s', s' = s \/ s' = with_hops next hop s ->
    comes_up c (or_undo ok relay_ctx_cleanup (
      or_undo (negb (ie_fails env init_tx_thread)) relay_ctx_cleanup (
      or_undo (negb (ie_fails env init_processing_thread)) relay_ctx_cleanup (mret 0)))) s').
  { intros ok next hop s' Es. assert (Hr : rinv s' [] [] /\ rl_config s' = c /\ rl_inject_in_flight s' = 0 /\ rl_stop s' = false).
    { destruct Es as [-> | ->]; [done|]. split; [|done]. eapply same_core_rinv; [|exact H]. by split. }
    destruct Hr as [Hr Hrest].
    apply comes_up_undo; intros _; [by apply rinv_leaves|]. apply comes_up_undo; intros _; [by apply rinv_leaves|].
    apply comes_up_undo; intros _; [by apply rinv_leaves|]. exists 0, s'. split; [done|]. by left. }
  destruct need; [|eapply comes_up_after; [reflexivity|]; apply (Hgo true [] None); by left].
  unfold init_sockets. destruct (ie_next_hop env) as [next|]; [destruct (ie_return_hop env) as [[hop|]|]|];
    (eapply comes_up_after; [reflexivity|]).
  - apply (Hgo _ next (Some hop)). by right.
  - apply (Hgo _ next None). by right.
  - apply (Hgo _ next None). by right.
  - apply (Hgo _ [] None). by left.
Qed.

Lemma bare_zero c x g : bare (relay_zero c x g).
Proof. split; [done| |done]. by intros []. Qed.

Lemma relay_init_run env need c x g :
  config_ok c -> init_ok env -> RecodeSpec.ring_ok x -> table_ok g ->
  comes_up (config_defaults c) (relay_ctx_init_common env need) (relay_zero (config_defaults c) x g).
Proof.
  intros Hc Hi Hx Hg. set (c' := config_defaults c). set (s0 := relay_zero c' x g).
  assert (Hc' : config_ok c') by (destruct Hc; by split). assert (B0 : bare s0) by apply bare_zero.
  assert (Hfail : comes_up c' (mret (-1)) s0) by (exists (-1), s0; split; [done|]; by right).
  unfold relay_ctx_init_common. eapply comes_up_after; [reflexivity|]. change (rl_config s0) with c'.
  destruct (_ || _) eqn:Ev1; [done|]. destruct ((cf_deferred_per_flow c' =? 0)%nat || _) eqn:Ev2; [done|]. destruct (_ || _) in |- *; [done|].
  assert (Hv : config_valid (mkDcfg (cf_max_active_flows c') (cf_deferred_per_flow c') (cf_deferred_total c')) = true).
  { unfold config_valid. cbn [max_active_flows per_flow_capacity total_capacity]. by rewrite Ev1, Ev2. }
  destruct (init_pool_run env s0 Hi B0 eq_refl) as (ok1 & s1 & E1 & B1 & N1 & U1). eapply comes_up_after; [exact E1|].
  apply comes_up_undo; intros Eok; [exists s1; split; [done|]; split; [apply B1|by apply N1]|]. destruct (U1 Eok) as (pool & Es1 & Hp). clear U1 N1 Eok.
  destruct (init_lane_run env false (cf_egress_capacity c') s1 B1) as (ok2 & s2 & E2 & B2 & U2); [apply egress_capacity_pos|].
  eapply comes_up_after; [exact E2|]. apply comes_up_undo; intros Eok; [by apply bare_pool|]. specialize (U2 Eok). clear Eok.
  destruct (init_lane_run env true RELAY_ACK_EGRESS_CAPACITY s2 B2) as (ok3 & s3 & E3 & B3 & U3); [apply Nat.ltb_lt; by vm_compute|].
  eapply comes_up_after; [exact E3|]. apply comes_up_undo; intros Eok; [repeat (apply bare_egress; [done|intros ? ?]); by apply bare_pool|].
  specialize (U3 Eok). clear Eok. destruct (init_dequeuer_run env s3 B3) as (ok4 & s4 & E4 & B4 & U4).
  eapply comes_up_after; [exact E4|]. apply comes_up_undo; intros Eok; [repeat (apply bare_egress; [done|intros ? ?]); by apply bare_pool|].
  specialize (U4 Eok). clear Eok. destruct (set_free_hooks_run env s4 B4) as (s5 & E5 & B5 & U5). eapply comes_up_after; [exact E5|].
  assert (Ec : rl_config s5 = c') by (by rewrite U5, U4, U3, U2, Es1).
  destruct (init_deferred_run env s5 B5) as (ok6 & s6 & E6 & B6 & U6); [by rewrite Ec|]. eapply comes_up_after; [exact E6|].
  apply comes_up_undo; intros Eok.
  { apply bare_dequeuer; [done|intros ? ?]. repeat (apply bare_egress; [done|intros ? ?]). by apply bare_pool. }
  destruct (U6 Eok) as (h & Es6 & Hh & Hv6 & Hf6). clear U6 Eok.
  destruct (up_rinv s0 pool (rl_ack_egress s5) (rl_data_egress s5) (rl_egress_dequeuer s5) h s6) as [R1 R2];
    [apply Hc'|done|done|done|done| |done|done|rewrite Hf6; apply Hi|rewrite Es6, U5, U4, U3, U2, Es1; reflexivity|].
  { intros q [-> | ->]; rewrite U5, U4, U3, U2; (apply fresh_lane_ok; [|apply Hi]); [apply Nat.ltb_lt; by vm_compute|apply egress_capacity_pos]. }
  destruct (init_cache_run env s6 B6) as (ok7 & s7 & E7 & B7 & U7); [rewrite Es6; cbn [with_deferred rl_config]; by rewrite Ec|by rewrite Es6, U5, U4, U3, U2, Es1|].
  eapply comes_up_after; [exact E7|]. apply comes_up_undo; intros Eok.
  { apply bare_deferred; [done|intros ? ?]. apply bare_dequeuer; [done|intros ? ?]. repeat (apply bare_egress; [done|intros ? ?]). by apply bare_pool. }
  assert (Ec6 : rl_config s6 = c') by (by rewrite Es6). specialize (U7 Eok).
  assert (Hs6 : rl_inject_in_flight s6 = 0 /\ rl_stop s6 = false) by (by rewrite Es6, U5, U4, U3, U2, Es1). destruct Hs6.
  destruct U7 as [-> | (gc & -> & Hgc)]; (apply init_threads_up; try done); [by apply R1|]. apply R2. by rewrite Ec6 in Hgc.
Qed.

(** ** What is up

    The parts of a relay, besides the pool, that hold memory or locks of their own: the two egress
    queues, the dequeuer, the deferred hub and the generation cache. *)

Record Parts := mkParts { pt_data : bool; pt_ack : bool; pt_fair : bool; pt_hub : bool; pt_cache : bool }.

Definition hub_up (h : RelayDeferredHub) : bool :=
  mu_inited h || cv_inited h || negb (length (RelayDeferred.slots h) =? 0)%nat.
Definition cache_up (c : GenerationCache) : bool := negb (length (gc_accounts c) =? 0)%nat.

Definition parts (s : RelayCtx) : Parts :=
  mkParts (eq_live (rl_data_egress s)) (eq_live (rl_ack_egress s)) (fd_initialized (rl_egress_dequeuer s))
    (hub_up (rl_deferred s)) (cache_up (g_cache (rl_gen_cache s))).

Definition all_down : Parts := mkParts false false false false false.

Definition set_lane_part (ack v : bool) (x : Parts) : Parts :=
  if ack then mkParts (pt_data x) v (pt_fair x) (pt_hub x) (pt_cache x)
  else mkParts v (pt_ack x) (pt_fair x) (pt_hub x) (pt_cache x).
Definition set_fair_part (v : bool) (x : Parts) : Parts := mkParts (pt_data x) (pt_ack x) v (pt_hub x) (pt_cache x).
Definition set_hub_part (v : bool) (x : Parts) : Parts := mkParts (pt_data x) (pt_ack x) (pt_fair x) v (pt_cache x).
Definition set_cache_part (v : bool) (x : Parts) : Parts := mkParts (pt_data x) (pt_ack x) (pt_fair x) (pt_hub x) v.

(** Computations that return, taken apart. *)
Lemma bind_inv {S A B} (m : comp S A) (k : A -> comp S B) s r s' :
  (m ≫= k) s = Some (r, s') -> exists a s1, m s = Some (a, s1) /\ k a s1 = Some (r, s').
Proof. unfold mbind, comp_bind. destruct (m s) as [[a s1]|]; [|done]. by eauto. Qed.

Lemma or_undo_inv ok undo k s z s' :
  or_undo ok undo k s = Some (z, s') ->
  (ok = true /\ k s = Some (z, s')) \/ (ok = false /\ z = -1 /\ undo s = Some (tt, s')).
Proof. destruct ok; [by left|]. intros ([] & s1 & E & [= <- <-])%bind_inv. by right. Qed.

Lemma packets_free_inv hook ps s s' : packets_free hook ps s = Some (tt, s') -> exists b, s' = with_bufs (fun _ => b) s.
Proof.
  unfold packets_free, bufs. destruct (if hook =? 0 then heap_free_all ps (rl_bufs s) else relay_packet_free_cb ps (rl_bufs s)) as [b|]; [|done].
  intros [= <-]. by exists b.
Qed.

Lemma destroy_egress_parts ack s s' :
  destroy_egress ack s = Some (tt, s') -> parts s' = set_lane_part ack false (parts s) /\ rl_cache_enabled s' = rl_cache_enabled s.
Proof.
  intros (q & s1 & [= <- <-] & E)%bind_inv. destruct (egress_queue_destroy _) as [freed q'] eqn:Eq.
  assert (q' = eq_zero) as -> by (unfold egress_queue_destroy in Eq; congruence).
  apply bind_inv in E as ([] & s2 & [= <-] & E). apply packets_free_inv in E as [b ->]. by destruct ack.
Qed.

Lemma destroy_dequeuer_parts s s' :
  destroy_dequeuer s = Some (tt, s') -> parts s' = set_fair_part false (parts s) /\ rl_cache_enabled s' = rl_cache_enabled s.
Proof.
  intros [= <-]. unfold egress_fair_dequeuer_destroy. destruct (negb (fd_initialized (rl_egress_dequeuer s))) eqn:E; [|done].
  apply negb_true_iff in E. unfold parts, set_fair_part. cbn. by rewrite E.
Qed.

Lemma destroy_deferred_parts s s' :
  destroy_deferred s = Some (tt, s') -> parts s' = set_hub_part false (parts s) /\ rl_cache_enabled s' = rl_cache_enabled s.
Proof.
  intros (h & s1 & [= <- <-] & E)%bind_inv. destruct (relay_deferred_hub_destroy _) as [freed h'] eqn:Eh.
  apply bind_inv in E as ([] & s2 & [= <-] & E). apply packets_free_inv in E as [b ->]. unfold relay_deferred_hub_destroy in Eh.
  injection Eh as _ <-. done.
Qed.

Lemma cleanup_cache_parts s s' :
  cleanup_cache s = Some (tt, s') -> parts s' = set_cache_part (if rl_cache_enabled s then false else pt_cache (parts s)) (parts s).
Proof.
  intros (en & s1 & [= <- <-] & E)%bind_inv. destruct (rl_cache_enabled s); [|by injection E as <-].
  apply bind_inv in E as ([] & s2 & E & [= <-]). unfold cache_call in E.
  destruct (generation_cache_destroy (rl_gen_cache s)) as [[[] g]|] eqn:Eg; [|done].
  destruct (cache_bufs _ _ _) as [b|]; [|done]. injection E as <-.
  apply bind_inv in Eg as (c & g1 & _ & Eg). apply bind_inv in Eg as (h & g2 & _ & Eg).
  apply bind_inv in Eg as ([] & g3 & _ & [= <-]). done.
Qed.

Lemma cleanup_pool_parts s s' : cleanup_pool s = Some (tt, s') -> parts s' = parts s.
Proof. intros (b & s1 & [= <- <-] & E)%bind_inv. destruct (rb_inited _); by injection E as <-. Qed.

Lemma deferred_shutdown_up h : hub_up (relay_deferred_hub_shutdown h) = hub_up h.
Proof. unfold relay_deferred_hub_shutdown. by destruct (negb _). Qed.

Lemma shutdown_lane_parts ack s s' :
  shutdown_lane ack s = Some (tt, s') -> parts s' = parts s /\ rl_cache_enabled s' = rl_cache_enabled s.
Proof.
  intros [= <-]. cbn [egress_queue_shutdown]. unfold enqueued. destruct ack; cbn; unfold parts; cbn; (split; [|done]); by case_match.
Qed.

(** Cleanup takes every part down, the cache if it is enabled. *)
Lemma relay_ctx_cleanup_parts s s' :
  relay_ctx_cleanup s = Some (tt, s') ->
  parts s' = mkParts false false false false (negb (rl_cache_enabled s) && pt_cache (parts s)).
Proof.
  intros E. unfold relay_ctx_cleanup in E. apply bind_inv in E as ([] & s1 & [= <-] & E).
  apply bind_inv in E as ([] & s2 & [= <-] & E). apply bind_inv in E as ([] & s3 & E3 & E). apply cleanup_cache_parts in E3.
  apply bind_inv in E as ([] & s4 & E4 & E). apply bind_inv in E4 as ([] & s5 & [E5 _]%shutdown_lane_parts & [E6 _]%shutdown_lane_parts).
  apply bind_inv in E as ([] & s7 & E7 & E8%cleanup_pool_parts). unfold cleanup_queues in E7.
  apply bind_inv in E7 as ([] & s8 & [F1 _]%destroy_dequeuer_parts & E7). apply bind_inv in E7 as ([] & s9 & [F2 _]%destroy_egress_parts & E7).
  apply bind_inv in E7 as ([] & s10 & [F3 _]%destroy_egress_parts & [F4 _]%destroy_deferred_parts).
  rewrite E8, F4, F3, F2, F1, E6, E5, E3. cbn. by destruct (rl_cache_enabled s).
Qed.

(** Each step of the initialisation brings its part up or leaves it down. *)
Lemma init_pool_parts env s ok s' :
  init_pool env s = Some (ok, s') -> parts s' = parts s /\ rl_cache_enabled s' = rl_cache_enabled s.
Proof.
  intros (c & s1 & [= <- <-] & E)%bind_inv. destruct (datagram_pool_init _ _ _ _ _) as [rc pool].
  by apply bind_inv in E as ([] & s2 & [= <-] & [= <- <-]).
Qed.

Lemma init_lane_parts env ack cap s ok s' :
  init_lane env ack cap s = Some (ok, s') ->
  parts s' = set_lane_part ack ok (parts s) /\ rl_cache_enabled s' = rl_cache_enabled s.
Proof.
  unfold init_lane. destruct (egress_queue_init _ _ _ _ _ _ _ _) as [st q] eqn:E.
  intros ([] & s1 & [= <-] & [= <- <-])%bind_inv.
  assert (Hq : eq_live q = bool_decide (st = EGRESS_OK)).
  { unfold egress_queue_init in E. repeat case_match; by simplify_eq. }
  rewrite <- Hq. by destruct ack.
Qed.

Lemma init_dequeuer_parts env s ok s' :
  init_dequeuer env s = Some (ok, s') -> fd_initialized (rl_egress_dequeuer s) = false ->
  parts s' = set_fair_part ok (parts s) /\ rl_cache_enabled s' = rl_cache_enabled s.
Proof.
  intros (s0 & s1 & [= <- <-] & E)%bind_inv Hd.
  destruct (egress_fair_dequeuer_init _ _ _ _ _ _ _ _) as [[[st d] qa] qd] eqn:Ef.
  apply bind_inv in E as ([] & s2 & [= <-] & [= <- <-]). unfold egress_fair_dequeuer_init in Ef.
  repeat case_match; simplify_eq; by destruct s.
Qed.

Lemma init_deferred_parts env s ok s' :
  init_deferred env s = Some (ok, s') -> (ok = true -> hub_up (rl_deferred s') = true) /\
  parts s' = set_hub_part (if ok then hub_up (rl_deferred s') else false) (parts s) /\ rl_cache_enabled s' = rl_cache_enabled s.
Proof.
  intros (c & s1 & [= <- <-] & E)%bind_inv. destruct (relay_deferred_hub_init _ _ _ _ _) as [st h] eqn:Eh.
  apply bind_inv in E as ([] & s2 & [= <-] & [= <- <-]). unfold relay_deferred_hub_init in Eh.
  repeat case_match; simplify_eq; by destruct s.
Qed.

(** The cache is up only when it is enabled; when its memory is refused it is down. *)
Lemma init_cache_parts env s ok s' :
  init_cache env s = Some (ok, s') -> rl_cache_enabled s = false -> pt_cache (parts s) = false ->
  parts s' = set_cache_part (pt_cache (parts s')) (parts s) /\ (ok = false -> pt_cache (parts s') = false) /\
  (rl_cache_enabled s' = false -> pt_cache (parts s') = false).
Proof.
  intros (c & s1 & [= <- <-] & E)%bind_inv Hen Hc. case_bool_decide; [|injection E as <- <-; by destruct s].
  destruct (generation_cache_init _ _) as [rc cache] eqn:Ec. apply bind_inv in E as ([] & s2 & [= <-] & [= <- <-]).
  unfold generation_cache_init in Ec. split; [by destruct s|]. split; [|done].
  destruct (ie_fails env init_cache_memory); simplify_eq; [done|]. done.
Qed.

Lemma init_sockets_parts env (need : bool) s ok s' :
  (if need then init_sockets env else mret true) s = Some (ok, s') -> parts s' = parts s /\ rl_cache_enabled s' = rl_cache_enabled s.
Proof.
  destruct need; [|by intros [= _ <-]]. unfold init_sockets.
  destruct (ie_next_hop env) as [next|]; [destruct (ie_return_hop env) as [[hop|]|]|by intros [= _ <-]];
    by intros ([] & s1 & [= <-] & [= _ <-])%bind_inv.
Qed.

(** The unwinding sequences, longest last. *)
Lemma undo_data_parts s s' : (destroy_egress false;; destroy_pool) s = Some (tt, s') -> parts s' = set_lane_part false false (parts s).
Proof. by intros ([] & s1 & [E _]%destroy_egress_parts & [= <-])%bind_inv. Qed.

Lemma undo_lanes_parts s s' :
  (destroy_egress true;; destroy_egress false;; destroy_pool) s = Some (tt, s') ->
  parts s' = set_lane_part false false (set_lane_part true false (parts s)).
Proof. intros ([] & s1 & [E _]%destroy_egress_parts & E1%undo_data_parts)%bind_inv. by rewrite E1, E. Qed.

Lemma undo_fair_parts s s' :
  (destroy_dequeuer;; destroy_egress true;; destroy_egress false;; destroy_pool) s = Some (tt, s') ->
  parts s' = mkParts false false false (pt_hub (parts s)) (pt_cache (parts s)).
Proof. intros ([] & s1 & [E _]%destroy_dequeuer_parts & E1%undo_lanes_parts)%bind_inv. by rewrite E1, E. Qed.

Lemma undo_hub_parts s s' :
  (destroy_deferred;; destroy_dequeuer;; destroy_egress true;; destroy_egress false;; destroy_pool) s = Some (tt, s') ->
  parts s' = mkParts false false false false (pt_cache (parts s)).
Proof. intros ([] & s1 & [E _]%destroy_deferred_parts & E1%undo_fair_parts)%bind_inv. by rewrite E1, E. Qed.

(** The sockets and the threads, with everything else up. *)
Lemma init_threads_parts env need s z s' :
  (ok ← (if (need : bool) then init_sockets env else mret true);
    or_undo ok relay_ctx_cleanup (
    or_undo (negb (ie_fails env init_tx_thread)) relay_ctx_cleanup (
    or_undo (negb (ie_fails env init_processing_thread)) relay_ctx_cleanup (mret 0)))) s = Some (z, s') ->
  (rl_cache_enabled s = false -> pt_cache (parts s) = false) ->
  (z = -1 /\ parts s' = all_down) \/ (z = 0 /\ parts s' = parts s).
Proof.
  intros (ok & s1 & [P En]%init_sockets_parts & E)%bind_inv Hoff.
  assert (Hdown : relay_ctx_cleanup s1 = Some (tt, s') -> parts s' = all_down).
  { intros Ec. rewrite (relay_ctx_cleanup_parts _ _ Ec), En, P. destruct (rl_cache_enabled s); [done|]. by rewrite Hoff. }
  apply or_undo_inv in E as [[_ E]|(_ & -> & E)]; [|by left; auto].
  apply or_undo_inv in E as [[_ E]|(_ & -> & E)]; [|by left; auto].
  apply or_undo_inv in E as [[_ E]|(_ & -> & E)]; [|by left; auto]. injection E as <- <-. by right.
Qed.

Lemma relay_init_parts env need c x g z s :
  relay_ctx_init_common env need (relay_zero c x g) = Some (z, s) ->
  (z = -1 /\ parts s = all_down) \/ (z = 0 /\ parts s = mkParts true true true true (pt_cache (parts s))).
Proof.
  set (s0 := relay_zero c x g). assert (P0 : parts s0 = all_down /\ rl_cache_enabled s0 = false) by done. destruct P0 as [P0 N0].
  unfold relay_ctx_init_common. intros (c1 & s1 & [= <- <-] & E)%bind_inv.
  destruct (_ || _) in E; [injection E as <- <-; by left|]. destruct (_ || _) in E; [injection E as <- <-; by left|].
  destruct (_ || _) in E; [injection E as <- <-; by left|].
  apply bind_inv in E as (ok1 & s1 & [P1 N1]%init_pool_parts & E). rewrite P0 in P1. rewrite N0 in N1.
  apply or_undo_inv in E as [[_ E]|(_ & -> & [= <-])]; [|by left].
  apply bind_inv in E as (ok2 & s2 & [P2 N2]%init_lane_parts & E). rewrite P1 in P2. rewrite N1 in N2.
  apply or_undo_inv in E as [[-> E]|(-> & -> & [= <-])]; [|by left].
  apply bind_inv in E as (ok3 & s3 & [P3 N3]%init_lane_parts & E). rewrite P2 in P3. rewrite N2 in N3.
  apply or_undo_inv in E as [[-> E]|(-> & -> & E%undo_data_parts)]; [|left; split; [done|]; by rewrite E, P3].
  apply bind_inv in E as (ok4 & s4 & [P4 N4]%init_dequeuer_parts & E); [|exact (f_equal pt_fair P3)]. rewrite P3 in P4. rewrite N3 in N4.
  apply or_undo_inv in E as [[-> E]|(-> & -> & E%undo_lanes_parts)]; [|left; split; [done|]; by rewrite E, P4].
  apply bind_inv in E as ([] & s5 & [= <-] & E). set (s5 := with_egress _ _ _ _) in E.
  assert (P5 : parts s5 = parts s4) by done. assert (N5 : rl_cache_enabled s5 = false) by done. rewrite P4 in P5.
  apply bind_inv in E as (ok6 & s6 & (U6 & P6 & N6)%init_deferred_parts & E). rewrite P5 in P6. rewrite N5 in N6.
  apply or_undo_inv in E as [[-> E]|(-> & -> & E%undo_fair_parts)]; [|left; split; [done|]; by rewrite E, P6].
  rewrite (U6 eq_refl) in P6.
  apply bind_inv in E as (ok7 & s7 & (P7 & D7 & F7)%init_cache_parts & E); [|done|by rewrite P6]. rewrite P6 in P7.
  apply or_undo_inv in E as [[-> E]|(-> & -> & E%undo_hub_parts)]; [|left; split; [done|]; by rewrite E, D7].
  apply init_threads_parts in E as [E|[-> E]]; [by left| |done]. right. split; [done|]. by rewrite E, P7.
Qed.
