(* ===== verification/RelaySystem.v ===== *)
(** * The relay as a system of threads: src/apps/wire_relay/relay.c

    The receiving thread ([relay_run]), the processing worker, the sending worker, injectors (the
    local source's thread) and cleanup, interleaved in any order.  A step is what one thread does
    in one critical section; a [Task] is what a thread has in its hands in between.  Threads may
    be in several tasks at once here, which allows more interleavings than the program has.  A
    phase of cleanup begins when the thread joined before it has no task left. *)

From Stdlib Require Import Strings.Byte.
From S2P Require Import Prelude Ring PktQueue WireHeader Gf256 ByteVec DatagramPool EgressQueue.
From S2P Require Import RelayDeferred RelayDeferredSpec GenerationCache GenerationCacheList.
From S2P Require Import GenerationCacheSpec RsBats Recode RecodeSpec Relay RelayInv RelayIngress.
From S2P Require Import RelayHandlers RelayLife.

Local Open Scope Z_scope.

Inductive Phase := Running | Stopping | DeferredDown | CacheDown | EgressDown | QueuesDown | PoolDown.
#[export] Instance Phase_eq_dec : EqDecision Phase.
Proof. solve_decision. Defined.

Inductive Task :=
  | TRx (p len : Z)                        (* received, not yet enqueued *)
  | TPopped (pkt : RelayDeferredPacket)    (* popped by the processing worker *)
  | TWork (injected : bool) (w : Work)     (* submitted, by an injector or the processing worker *)
  | TTx (pkt : EgressPacket).              (* dequeued by the sending worker *)

Record Sys := mkSys { sy_ctx : RelayCtx; sy_tasks : list Task; sy_phase : Phase }.

Definition is_rx (t : Task) : bool := match t with TRx _ _ => true | _ => false end.
Definition is_injected (t : Task) : bool := match t with TWork true _ => true | _ => false end.
Definition is_processing (t : Task) : bool := match t with TPopped _ | TWork false _ => true | _ => false end.
Definition is_tx (t : Task) : bool := match t with TTx _ => true | _ => false end.
Definition joined (f : Task -> bool) (x : Sys) : bool := forallb (fun t => negb (f t)) (sy_tasks x).

Inductive Action :=
  | ARxReceive (malloc : option Z) (now : Z) (peer : list Z) (d : list byte)
  | ARxEnqueue (i : nat) (enqueue_ns : Z)
  | ARxIdle (now : Z)
  | APop
  | AProcess (i : nat) (env : SubmitEnv)
  | AInject (env : SubmitEnv) (malloc : option Z) (d : list byte)
  | AWork (i : nat) (now : Z * Z) (clock : option (Z * Z)) (rc : timedwait_rc)
  | ATxDequeue
  | ATxEmit (i : nat) (res : send_result)
  | ADrainAck (res : send_result)
  | AAckPoll (flow_id segment_id : Z)
  | AStats
  | AStop | ADeferredDown | ACacheDown | AEgressDown | AQueuesDown | APoolDown.

(** The threads that run in a phase: the receiver until [stop], the source until it is joined,
    and so on. *)
Definition rx_alive (ph : Phase) : bool := bool_decide (ph = Running).
Definition source_alive (ph : Phase) : bool := rx_alive ph || bool_decide (ph = Stopping).
Definition processing_alive (ph : Phase) : bool := source_alive ph || bool_decide (ph = DeferredDown).
Definition tx_alive (ph : Phase) : bool := processing_alive ph || bool_decide (ph = CacheDown) || bool_decide (ph = EgressDown).

Definition task_alive (ph : Phase) (t : Task) : bool :=
  match t with
  | TRx _ _ => rx_alive ph
  | TPopped _ | TWork false _ => processing_alive ph
  | TWork true _ => source_alive ph
  | TTx _ => tx_alive ph
  end.

Definition has_task (f : Task -> bool) (x : Sys) (i : nat) : bool :=
  match sy_tasks x !! i with Some t => f t | None => false end.

Definition enabled (a : Action) (x : Sys) : bool :=
  let ph := sy_phase x in
  match a with
  | ARxReceive _ _ _ _ | ARxIdle _ => rx_alive ph
  | ARxEnqueue i _ => has_task is_rx x i
  | APop => processing_alive ph
  | AProcess i _ => has_task (fun t => match t with TPopped _ => true | _ => false end) x i
  | AInject _ _ _ | AAckPoll _ _ => source_alive ph
  | AWork i _ _ _ => has_task (fun t => match t with TWork _ _ => true | _ => false end) x i
  | ATxDequeue => tx_alive ph
  | ATxEmit i _ => has_task is_tx x i
  | ADrainAck _ => tx_alive ph
  | AStats => tx_alive ph
  | AStop => bool_decide (ph = Running) && joined is_rx x
  | ADeferredDown => bool_decide (ph = Stopping) && joined is_injected x
  | ACacheDown => bool_decide (ph = DeferredDown) && joined is_processing x && (rl_inject_in_flight (sy_ctx x) <=? 0)
  | AEgressDown => bool_decide (ph = CacheDown)
  | AQueuesDown => bool_decide (ph = EgressDown) && joined is_tx x
  | APoolDown => bool_decide (ph = QueuesDown)
  end.

Section Host.
Context `{host : HostOrder}.

Definition in_phase (m : R unit) (ph : Phase) (x : Sys) : option Sys :=
  '(_, s) ← m (sy_ctx x); Some (mkSys s (sy_tasks x) ph).

(** What an injection or a processed packet leaves to do; a finished task disappears. *)
Definition work_task (injected : bool) (w : Work) (s : RelayCtx) : option (list Task * RelayCtx) :=
  if work_done w then (if injected then '(_, s) ← inject_finish s; Some ([], s) else Some ([], s))
  else Some ([TWork injected w], s).

(** [None] is undefined behaviour. *)
Definition act (a : Action) (x : Sys) : option Sys :=
  let s := sy_ctx x in
  let same s' new := Some (mkSys s' (new ++ sy_tasks x) (sy_phase x)) in
  let instead i s' new := Some (mkSys s' (new ++ delete i (sy_tasks x)) (sy_phase x)) in
  match a with
  | ARxReceive malloc now peer d =>
      '(r, s) ← rx_receive malloc now peer d s;
      same s (match r with Some (p, len) => [TRx p len] | None => [] end)
  | ARxEnqueue i ns =>
      match sy_tasks x !! i with
      | Some (TRx p len) => '(_, s) ← rx_enqueue_datagram ns p len s; instead i s []
      | _ => None
      end
  | ARxIdle now => '(_, s) ← rx_idle now s; same s []
  | APop => '(r, s) ← processing_pop s; same s (TPopped <$> option_list r)
  | AProcess i env =>
      match sy_tasks x !! i with
      | Some (TPopped pkt) =>
          '(w, s) ← process_one_deferred_packet env pkt s;
          '(new, s) ← work_task false w s; instead i s new
      | _ => None
      end
  | AInject env malloc d =>
      '(r, s) ← relay_inject_wire_datagram env malloc d s;
      match r with
      | inl _ => same s []
      | inr sub => '(new, s) ← work_task true (work_of sub) s; same s new
      end
  | AWork i now clock rc =>
      match sy_tasks x !! i with
      | Some (TWork injected w) =>
          '(w, s) ← work_step now clock rc w s;
          '(new, s) ← work_task injected w s; instead i s new
      | _ => None
      end
  | ATxDequeue => '(r, s) ← tx_dequeue s; same s (TTx <$> deq_out r)
  | ATxEmit i res =>
      match sy_tasks x !! i with
      | Some (TTx pkt) => '(again, s) ← relay_tx_emit res true pkt s; instead i s (if (again : bool) then [TTx pkt] else [])
      | _ => None
      end
  | ADrainAck res => '(_, s) ← drain_one_ack res s; same s []
  | AAckPoll flow_id segment_id => '(_, s) ← relay_local_source_ack_poll flow_id segment_id s; same s []
  | AStats => '(_, s) ← relay_total_stats s; same s []
  | AStop => in_phase cleanup_stop Stopping x
  | ADeferredDown => in_phase cleanup_deferred DeferredDown x
  | ACacheDown => in_phase cleanup_cache CacheDown x
  | AEgressDown => in_phase cleanup_egress EgressDown x
  | AQueuesDown => in_phase cleanup_queues QueuesDown x
  | APoolDown => in_phase cleanup_pool PoolDown x
  end.

End Host.

(** ** Reachable states *)

Definition task_holds (egress : bool) (t : Task) : list Holding :=
  match t with
  | TRx p len => [mkHold p len true]
  | TPopped pkt => [dp_hold pkt]
  | TWork _ w => work_holds egress w
  | TTx pkt => [pk_hold egress pkt]
  end.
Definition tasks_holds (s : RelayCtx) (ts : list Task) : list Holding := ts ≫= task_holds (has_egress (rl_config s)).

(** The references to buffers: the cache's, the queues' and the threads'. *)
Definition references (x : Sys) : nat :=
  length ((map_to_list (g_heap (rl_gen_cache (sy_ctx x)))).*2 ≫= GenerationCacheSpec.held) +
  length (queue_holds (sy_ctx x)) + length (tasks_holds (sy_ctx x) (sy_tasks x)).

(** What the host's allocator may return during a submission: blocks that are not in use, and
    each only once. *)
Record env_fresh (b : RelayBufs) (env : SubmitEnv) : Prop := {
  ef_cache : forall q, en_cache_malloc env = Some q -> fresh b q;
  ef_malloc : forall n q, en_malloc env n = Some q -> fresh b q;
  ef_distinct : forall n m q, en_malloc env n = Some q -> en_malloc env m = Some q -> n = m;
  ef_tmp : forall i, datagram_pool_contains (rb_pool b) (en_alloc_tmp env i) = false;
  ef_apart : forall n q, en_malloc env n = Some q -> en_cache_malloc env <> Some q }.

Definition legal (a : Action) (x : Sys) : Prop :=
  let b := rl_bufs (sy_ctx x) in
  match a with
  | ARxReceive malloc _ _ _ => malloc_ok b malloc
  | AProcess _ env => env_fresh b env /\ Z.of_nat (references x) + 400 < 2 ^ 32
  | AInject env malloc _ =>
      malloc_ok b malloc /\ env_fresh b env /\ Z.of_nat (references x) + 401 < 2 ^ 32 /\
      forall q, malloc = Some q -> en_cache_malloc env <> Some q /\ forall n, en_malloc env n <> Some q
  | _ => True
  end.

Inductive reach `{host : HostOrder} (c : RelayConfig) : Sys -> Prop :=
  | reach_init env need x g s :
      init_ok env -> RecodeSpec.ring_ok x -> table_ok g ->
      relay_ctx_init_common env need (relay_zero (config_defaults c) x g) = Some (0, s) ->
      reach c (mkSys s [] Running)
  | reach_step x a x' : reach c x -> enabled a x = true -> legal a x -> act a x = Some x' -> reach c x'.

(** * Every step of the relay is defined

    [sys_inv] holds of every reachable state: until the queues are destroyed the buffers in use
    are exactly those cached, queued and in the hands of a task, afterwards there is none. *)

Definition task_ok (t : Task) : Prop := match t with TWork _ w => work_ok w | _ => True end.

(** The cache is gone. *)
Definition late (ph : Phase) : Prop := ph = CacheDown \/ ph = EgressDown.

Record live_inv (x : Sys) (L : list (nat * GenerationEntry)) : Prop := {
  lv_rinv : rinv (sy_ctx x) L (tasks_holds (sy_ctx x) (sy_tasks x));
  lv_tasks : Forall task_ok (sy_tasks x);
  lv_alive : forallb (task_alive (sy_phase x)) (sy_tasks x) = true;
  lv_late : late (sy_phase x) -> L = [] }.

Definition sys_inv (x : Sys) : Prop :=
  if tx_alive (sy_phase x) then exists L, live_inv x L
  else sy_tasks x = [] /\
    (if decide (sy_phase x = QueuesDown) then own (rl_bufs (sy_ctx x)) [] else rb_mem (rl_bufs (sy_ctx x)) = ∅).

(** The tasks that do not act. *)
Definition others (a : Action) (x : Sys) : list Task :=
  match a with
  | ARxEnqueue i _ | AProcess i _ | AWork i _ _ _ | ATxEmit i _ => delete i (sy_tasks x)
  | _ => sy_tasks x
  end.

(** A step that is defined, keeps the invariant and leaves the bytes of everybody else alone. *)
Definition stepped (o : list Task) (x : Sys) (r : option Sys) : Prop :=
  exists x', r = Some x' /\ sys_inv x' /\
    (tx_alive (sy_phase x') = true -> moves (sy_ctx x) (sy_ctx x') (tasks_holds (sy_ctx x) o)).

Lemma tasks_holds_app s ts us : tasks_holds s (ts ++ us) = tasks_holds s ts ++ tasks_holds s us.
Proof. apply bind_app. Qed.

Lemma tasks_holds_delete s ts i t :
  ts !! i = Some t -> tasks_holds s ts ≡ₚ task_holds (has_egress (rl_config s)) t ++ tasks_holds s (delete i ts).
Proof. intros E. unfold tasks_holds. by rewrite (delete_Permutation _ _ _ E), bind_cons at 1. Qed.

Lemma alive_step ph : tx_alive ph = true -> ph = Running \/ ph = Stopping \/ ph = DeferredDown \/ late ph.
Proof. unfold late. intros E. destruct ph; auto; discriminate E. Qed.

(** The new state of a step that stays in its phase. *)
Lemma same_phase x L' s' new rest o :
  rinv s' L' (tasks_holds (sy_ctx x) new ++ tasks_holds (sy_ctx x) rest) -> moves (sy_ctx x) s' (tasks_holds (sy_ctx x) o) ->
  rl_config s' = rl_config (sy_ctx x) ->
  Forall task_ok (new ++ rest) -> forallb (task_alive (sy_phase x)) (new ++ rest) = true -> tx_alive (sy_phase x) = true ->
  (late (sy_phase x) -> L' = []) ->
  stepped o x (Some (mkSys s' (new ++ rest) (sy_phase x))).
Proof.
  intros H M Hc Ht Ha Hl HL. eexists. split; [done|]. split; [|done]. unfold sys_inv. cbn [sy_phase]. rewrite Hl. exists L'.
  split; cbn [sy_ctx sy_tasks sy_phase]; try done. rewrite <- tasks_holds_app in H. unfold tasks_holds in *. by rewrite Hc.
Qed.

Lemma rest_tasks x i L :
  live_inv x L -> Forall task_ok (delete i (sy_tasks x)) /\ forallb (task_alive (sy_phase x)) (delete i (sy_tasks x)) = true.
Proof.
  intros [_ Ht Ha _]. rewrite forallb_forall in Ha. split.
  - rewrite list.Forall_forall in *. intros t Hin. apply Ht. by eapply list_elem_of_delete_inv in Hin.
  - apply forallb_forall. intros t Hin. apply Ha. apply list_elem_of_In in Hin. apply list_elem_of_In. by eapply list_elem_of_delete_inv in Hin.
Qed.

Lemma act_same x L s' L' new :
  live_inv x L -> tx_alive (sy_phase x) = true ->
  rinv s' L' (tasks_holds (sy_ctx x) new ++ tasks_holds (sy_ctx x) (sy_tasks x)) ->
  moves (sy_ctx x) s' (tasks_holds (sy_ctx x) (sy_tasks x)) ->
  Forall task_ok new -> forallb (task_alive (sy_phase x)) new = true -> (late (sy_phase x) -> L' = []) ->
  stepped (sy_tasks x) x (Some (mkSys s' (new ++ sy_tasks x) (sy_phase x))).
Proof.
  intros [_ Ht Ha _] Hl H M Hn Hna HL. eapply same_phase; try done; [apply M|by apply list.Forall_app|].
  by rewrite forallb_app, Ha, Hna.
Qed.

Lemma act_instead x L s' L' i new :
  live_inv x L -> tx_alive (sy_phase x) = true ->
  rinv s' L' (tasks_holds (sy_ctx x) new ++ tasks_holds (sy_ctx x) (delete i (sy_tasks x))) ->
  moves (sy_ctx x) s' (tasks_holds (sy_ctx x) (delete i (sy_tasks x))) ->
  Forall task_ok new -> forallb (task_alive (sy_phase x)) new = true -> (late (sy_phase x) -> L' = []) ->
  stepped (delete i (sy_tasks x)) x (Some (mkSys s' (new ++ delete i (sy_tasks x)) (sy_phase x))).
Proof.
  intros Hx Hl H M Hn Hna HL. destruct (rest_tasks x i L Hx) as [Ht Ha]. eapply same_phase; try done; [apply M|by apply list.Forall_app|].
  by rewrite forallb_app, Ha, Hna.
Qed.

(** A task's holdings first. *)
Lemma live_task x L i t :
  live_inv x L -> sy_tasks x !! i = Some t ->
  rinv (sy_ctx x) L (task_holds (has_egress (rl_config (sy_ctx x))) t ++ tasks_holds (sy_ctx x) (delete i (sy_tasks x))) /\
  task_ok t /\ task_alive (sy_phase x) t = true.
Proof.
  intros [H Ht Ha _] E. split; [eapply rinv_perm; [|exact H]; by apply tasks_holds_delete|].
  split; [by eapply Forall_lookup_1|]. rewrite forallb_forall in Ha. apply Ha. apply list_elem_of_In. by eapply list_elem_of_lookup_2.
Qed.

(** ** The host *)

Lemma fresh_unowned s L K p : rinv s L K -> fresh (rl_bufs s) p -> unowned s (in_use s L K) p.
Proof.
  intros H Hf. pose proof Hf as (H0 & Hc & _). split; [done|]. split; [done|].
  eapply fresh_not_owned; [apply (gd_own _ _ _ _ (ri_good _ _ _ H))|done].
Qed.

Lemma fresh_env s L K env : rinv s L K -> env_fresh (rl_bufs s) env -> env_ok s (in_use s L K) env.
Proof.
  intros H [E1 E2 E3 E4 E5]. split; [|split|done].
  - intros q Eq. by eapply fresh_unowned, E1.
  - intros n q Eq. eapply fresh_unowned; [done|by eapply E2].
  - done.
  - done.
Qed.

Lemma cached_count g L : cache_inv g L -> length (cached_bufs L) = length ((map_to_list (g_heap g)).*2 ≫= GenerationCacheSpec.held).
Proof.
  intros H. pose proof (ci_rep _ _ H) as R. pose proof (rp_heap _ _ _ R) as Hh. pose proof (rp_nodup _ _ _ R) as Hn.
  rewrite app_nil_r in Hh, Hn.
  assert (E : (map_to_list (strip <$> g_heap g)).*2 ≡ₚ L.*2) by (rewrite Hh; by rewrite map_to_list_to_map).
  rewrite <- E, map_to_list_fmap. induction (map_to_list (g_heap g)) as [|[a e] l IH]; [done|].
  cbn [fmap list_fmap prod_map snd]. rewrite !bind_cons, !length_app. f_equal. exact IH.
Qed.

Lemma references_roomy x L n :
  live_inv x L -> Z.of_nat (references x) + n < 2 ^ 32 -> roomy n (sy_ctx x) L (tasks_holds (sy_ctx x) (sy_tasks x)).
Proof.
  intros [H _ _ _] Hn. unfold roomy, references in *. rewrite length_app, length_fmap, length_app.
  destruct (rl_cache_enabled (sy_ctx x)) eqn:En.
  - rewrite (cached_count _ L (ca_inv _ _ _ (ri_caching _ _ _ H En))). lia.
  - rewrite (ri_off _ _ _ H En). cbn [fmap list_fmap mbind list_bind length]. lia.
Qed.

Lemma roomy_perm n s L K K' : K ≡ₚ K' -> roomy n s L K -> roomy n s L K'.
Proof. unfold roomy. intros E. rewrite !length_app, !length_fmap, !length_app. by rewrite (Permutation_length E). Qed.

(** ** The steps of the threads *)

Section Host2.
Context `{host : HostOrder}.

Lemma rx_tx ph : rx_alive ph = true -> tx_alive ph = true /\ ~ late ph.
Proof. unfold late. destruct ph; try done. intros _. by split; [|intros []]. Qed.
Lemma source_tx ph : source_alive ph = true -> tx_alive ph = true /\ ~ late ph.
Proof. unfold late. destruct ph; try done; intros _; (by split; [|intros []]). Qed.
Lemma processing_tx ph : processing_alive ph = true -> tx_alive ph = true /\ ~ late ph.
Proof. unfold late. destruct ph; try done; intros _; (by split; [|intros []]). Qed.

Lemma inv_live x : sys_inv x -> tx_alive (sy_phase x) = true -> exists L, live_inv x L.
Proof. unfold sys_inv. intros H E. by rewrite E in H. Qed.

(** A task lives in a phase in which the cache may be used, unless it is a sender's. *)
Lemma task_phase x i t :
  sys_inv x -> sy_tasks x !! i = Some t -> tx_alive (sy_phase x) = true /\ exists L, live_inv x L /\ (is_tx t = false -> ~ late (sy_phase x)).
Proof.
  intros H E. destruct (tx_alive (sy_phase x)) eqn:Etx; [|unfold sys_inv in H; rewrite Etx in H; destruct H as [H _]; by rewrite H in E].
  split; [done|]. destruct (inv_live x H Etx) as [L HL]. exists L. split; [done|]. intros Ht.
  destruct (live_task x L i t HL E) as (_ & _ & Ha). destruct t as [| |[]|]; cbn in Ha;
    first [by apply rx_tx in Ha as [_ ?]|by apply source_tx in Ha as [_ ?]|by apply processing_tx in Ha as [_ ?]|done].
Qed.

Lemma receive_step x malloc now peer d :
  sys_inv x -> rx_alive (sy_phase x) = true -> malloc_ok (rl_bufs (sy_ctx x)) malloc ->
  stepped (sy_tasks x) x (act (ARxReceive malloc now peer d) x).
Proof.
  intros H Ha Hm. destruct (rx_tx _ Ha) as [Htx Hlate]. destruct (inv_live x H Htx) as [L HL].
  destruct (rx_receive_run (sy_ctx x) L (tasks_holds (sy_ctx x) (sy_tasks x)) malloc now peer d) as (r & s' & E & C & H'); [apply HL| |].
  { intros q Eq. eapply fresh_unowned; [apply HL|by apply Hm]. }
  unfold act. rewrite E. cbn [mbind option_bind]. apply (act_same x L s' L); try done; [by destruct r as [[p len]|]|by apply calm_moves|..];
    destruct r as [[p len]|]; try done; [by constructor|cbn; by rewrite Ha].
Qed.

Lemma rx_enqueue_step x i ns : sys_inv x -> has_task is_rx x i = true -> stepped (delete i (sy_tasks x)) x (act (ARxEnqueue i ns) x).
Proof.
  unfold has_task. intros H Hi. destruct (sy_tasks x !! i) as [[p len| | |]|] eqn:E; try done.
  destruct (task_phase x i _ H E) as (Htx & L & HL & Hlate). destruct (live_task x L i _ HL E) as (HR & _ & _).
  destruct (rx_enqueue_run ns (sy_ctx x) L _ p len HR) as (s' & E' & H' & M). unfold act. rewrite E, E'. cbn [mbind option_bind].
  apply (act_instead x L s' L i []); try done. apply HL.
Qed.

Lemma idle_step x now : sys_inv x -> rx_alive (sy_phase x) = true -> stepped (sy_tasks x) x (act (ARxIdle now) x).
Proof.
  intros H Ha. destruct (rx_tx _ Ha) as [Htx Hlate]. destruct (inv_live x H Htx) as [L HL].
  destruct (rx_idle_run now (sy_ctx x) L _ (lv_rinv _ _ HL)) as (s' & L' & E & H' & C). unfold act. rewrite E. cbn [mbind option_bind].
  apply (act_same x L s' L' []); try done. by apply calm_moves.
Qed.

Lemma pop_step x : sys_inv x -> processing_alive (sy_phase x) = true -> stepped (sy_tasks x) x (act APop x).
Proof.
  intros H Ha. destruct (processing_tx _ Ha) as [Htx Hlate]. destruct (inv_live x H Htx) as [L HL].
  destruct (pop_run (sy_ctx x) L _ (lv_rinv _ _ HL)) as (r & s' & E & H' & M). unfold act. rewrite E. cbn [mbind option_bind].
  apply (act_same x L s' L); try done; destruct r; try done; [by constructor|cbn; by rewrite Ha].
Qed.

(** What is left of a submission. *)
Lemma work_task_run injected w s L F :
  rinv s L (work_holds (has_egress (rl_config s)) w ++ F) -> work_ok w ->
  exists new s', work_task injected w s = Some (new, s') /\ rinv s' L (tasks_holds s new ++ F) /\ calm s s' F /\ Forall task_ok new /\
    (forall t, t ∈ new -> exists w', t = TWork injected w').
Proof.
  intros H Hw. unfold work_task. destruct (work_done w) eqn:Ed.
  - assert (Hh : work_holds (has_egress (rl_config s)) w = []).
    { unfold work_done in Ed. apply andb_true_iff in Ed as [[Ed1%bool_decide_eq_true Ed2%bool_decide_eq_true]%andb_true_iff Ed3%bool_decide_eq_true].
      unfold work_holds. rewrite Ed1, Ed3. by destruct (wk_pending w). }
    rewrite Hh in H. destruct injected; [|by exists [], s; split; [|split; [|split; [|split; [|by intros ? ?%elem_of_nil]]]]].
    set (s' := with_activity (rl_last_activity_ns s) (rl_inject_in_flight s - 1) (rl_stop s) s). assert (C : same_core s s') by (by split).
    exists [], s'. split; [done|]. split; [by eapply same_core_rinv|]. split; [by apply same_core_calm|]. split; [done|by intros ? ?%elem_of_nil].
  - exists [TWork injected w], s. split; [done|]. split; [unfold tasks_holds; cbn [mbind list_bind task_holds]; by rewrite app_nil_r|].
    split; [done|]. split; [by constructor|]. intros t ->%list_elem_of_singleton. by exists w.
Qed.

Lemma work_alive ph injected new :
  (forall t, t ∈ new -> exists w', t = TWork injected w') -> task_alive ph (TWork injected (mkWork None [] None)) = true ->
  forallb (task_alive ph) new = true.
Proof. intros Hn Ha. apply forallb_forall. intros t [w ->]%list_elem_of_In%Hn. done. Qed.

Lemma tasks_holds_config s s' ts : rl_config s' = rl_config s -> tasks_holds s' ts = tasks_holds s ts.
Proof. intros E. unfold tasks_holds. by rewrite E. Qed.

Lemma process_step x i env :
  sys_inv x -> enabled (AProcess i env) x = true -> legal (AProcess i env) x -> stepped (delete i (sy_tasks x)) x (act (AProcess i env) x).
Proof.
  cbn [enabled legal]. unfold has_task. intros H Hi [Henv Hroom]. destruct (sy_tasks x !! i) as [[|pkt| |]|] eqn:E; try done.
  destruct (task_phase x i _ H E) as (Htx & L & HL & Hlate). destruct (live_task x L i _ HL E) as (HR & _ & Ha).
  destruct (process_run env pkt (sy_ctx x) L _ HR) as (w & s1 & L1 & E1 & H1 & C1 & Hw).
  { by apply fresh_env. }
  { eapply roomy_perm; [|by eapply references_roomy]. by rewrite (tasks_holds_delete _ _ _ _ E). }
  rewrite <- (cm_config _ _ _ C1) in H1. destruct (work_task_run false w s1 L1 _ H1 Hw) as (new & s2 & E2 & H2 & C2 & Ht & Hn).
  unfold act. rewrite E, E1. cbn [mbind option_bind]. rewrite E2. cbn [mbind option_bind].
  rewrite (tasks_holds_config _ _ new (cm_config _ _ _ C1)) in H2.
  apply (act_instead x L s2 L1); try done; [|by eapply work_alive|by intros ?%Hlate]. apply calm_moves. by eapply calm_trans.
Qed.

Lemma work_act_step x i now clock rc :
  sys_inv x -> enabled (AWork i now clock rc) x = true -> stepped (delete i (sy_tasks x)) x (act (AWork i now clock rc) x).
Proof.
  cbn [enabled]. unfold has_task. intros H Hi. destruct (sy_tasks x !! i) as [[| |injected w|]|] eqn:E; try done.
  destruct (task_phase x i _ H E) as (Htx & L & HL & Hlate). destruct (live_task x L i _ HL E) as (HR & Hok & Ha).
  destruct (work_step_run now clock rc w (sy_ctx x) L _ HR Hok) as (w' & s1 & E1 & H1 & M1 & Hw).
  rewrite <- (mv_config _ _ _ M1) in H1. destruct (work_task_run injected w' s1 L _ H1 Hw) as (new & s2 & E2 & H2 & C2 & Ht & Hn).
  unfold act. rewrite E, E1. cbn [mbind option_bind]. rewrite E2. cbn [mbind option_bind].
  rewrite (tasks_holds_config _ _ new (mv_config _ _ _ M1)) in H2.
  apply (act_instead x L s2 L); try done; [|by eapply work_alive|by intros ?%Hlate]. by eapply moves_then_calm.
Qed.

Lemma inject_step x env malloc d :
  sys_inv x -> source_alive (sy_phase x) = true -> legal (AInject env malloc d) x -> stepped (sy_tasks x) x (act (AInject env malloc d) x).
Proof.
  intros H Ha (Hm & Henv & Hroom & Hap). destruct (source_tx _ Ha) as [Htx Hlate]. destruct (inv_live x H Htx) as [L HL].
  destruct (inject_run env malloc d (sy_ctx x) L _ (lv_rinv _ _ HL)) as (r & s1 & L1 & E1 & C1 & H1).
  - intros q Eq. eapply fresh_unowned; [apply HL|by apply Hm].
  - by apply references_roomy.
  - apply fresh_env; [apply HL|done].
  - done.
  - unfold act. rewrite E1. cbn [mbind option_bind]. destruct r as [st|sub].
    + apply (act_same x L s1 L1 []); try done. by apply calm_moves.
    + rewrite <- work_of_holds in H1. rewrite <- (cm_config _ _ _ C1) in H1.
      destruct (work_task_run true (work_of sub) s1 L1 _ H1 I) as (new & s2 & E2 & H2 & C2 & Ht & Hn). rewrite E2. cbn [mbind option_bind].
      rewrite (tasks_holds_config _ _ new (cm_config _ _ _ C1)) in H2.
      apply (act_same x L s2 L1); try done; [|by eapply work_alive]. apply calm_moves. by eapply calm_trans.
Qed.

Lemma dequeue_step x : sys_inv x -> tx_alive (sy_phase x) = true -> stepped (sy_tasks x) x (act ATxDequeue x).
Proof.
  intros H Htx. destruct (inv_live x H Htx) as [L HL]. destruct (tx_dequeue_run (sy_ctx x) L _ (lv_rinv _ _ HL)) as (r & s' & E & H' & M).
  unfold act. rewrite E. cbn [mbind option_bind]. apply (act_same x L s' L); try done; try apply HL;
    destruct r as [[st [pkt|]]|]; try done; [by constructor|cbn; by rewrite Htx].
Qed.

Lemma emit_step x i res : sys_inv x -> has_task is_tx x i = true -> stepped (delete i (sy_tasks x)) x (act (ATxEmit i res) x).
Proof.
  unfold has_task. intros H Hi. destruct (sy_tasks x !! i) as [[| | |pkt]|] eqn:E; try done.
  destruct (task_phase x i _ H E) as (Htx & L & HL & _). destruct (live_task x L i _ HL E) as (HR & _ & _).
  destruct (tx_emit_run res true pkt (sy_ctx x) L _ HR) as (again & s' & E' & H' & C). unfold act. rewrite E, E'. cbn [mbind option_bind].
  apply (act_instead x L s' L); try done; try apply HL; try (by apply calm_moves); destruct again; try done; [by constructor|cbn; by rewrite Htx].
Qed.

Lemma quiet_step x L s' : live_inv x L -> tx_alive (sy_phase x) = true -> rinv s' L (tasks_holds (sy_ctx x) (sy_tasks x)) ->
  moves (sy_ctx x) s' (tasks_holds (sy_ctx x) (sy_tasks x)) -> stepped (sy_tasks x) x (Some (mkSys s' ([] ++ sy_tasks x) (sy_phase x))).
Proof. intros HL Htx H M. apply (act_same x L s' L); try done. apply HL. Qed.

(** ** Cleanup *)

Lemma joined_alive x ph' :
  forallb (task_alive (sy_phase x)) (sy_tasks x) = true ->
  (forall t, t ∈ sy_tasks x -> task_alive (sy_phase x) t = true -> task_alive ph' t = true) -> forallb (task_alive ph') (sy_tasks x) = true.
Proof.
  intros Ha Hs. rewrite forallb_forall in *. intros t Ht. apply Hs; [by apply list_elem_of_In|by apply Ha].
Qed.

Lemma joined_not f x t : joined f x = true -> (t ∈ sy_tasks x) -> f t = false.
Proof. intros Hj Ht. unfold joined in Hj. rewrite forallb_forall in Hj. apply list_elem_of_In in Ht. apply negb_true_iff. by apply Hj. Qed.

Lemma next_phase x L m ph' s' L' :
  live_inv x L -> m (sy_ctx x) = Some (tt, s') -> tx_alive ph' = true -> rinv s' L' (tasks_holds (sy_ctx x) (sy_tasks x)) ->
  moves (sy_ctx x) s' (tasks_holds (sy_ctx x) (sy_tasks x)) -> (late ph' -> L' = []) ->
  (forall t, t ∈ sy_tasks x -> task_alive (sy_phase x) t = true -> task_alive ph' t = true) ->
  stepped (sy_tasks x) x (in_phase m ph' x).
Proof.
  intros HL E Hph H M HL' Ht. unfold in_phase. rewrite E. cbn [mbind option_bind]. eexists. split; [done|]. split; [|done].
  unfold sys_inv. cbn [sy_phase]. rewrite Hph. exists L'. split; cbn [sy_ctx sy_tasks sy_phase]; [|apply HL| |done].
  - by rewrite (tasks_holds_config _ _ _ (mv_config _ _ _ M)).
  - apply joined_alive; [apply HL|done].
Qed.

Lemma stop_step x : sys_inv x -> enabled AStop x = true -> stepped (sy_tasks x) x (act AStop x).
Proof.
  cbn [enabled]. intros H [Hp%bool_decide_eq_true Hj]%andb_true_iff. destruct (inv_live x H) as [L HL]; [by rewrite Hp|].
  destruct (cleanup_stop_run (sy_ctx x) L _ (lv_rinv _ _ HL)) as (s' & E & H' & C). eapply next_phase; try done; [by apply calm_moves|by intros []|].
  intros t Ht. pose proof (joined_not _ _ _ Hj Ht). rewrite Hp. by destruct t as [| |[]|].
Qed.

Lemma deferred_down_step x : sys_inv x -> enabled ADeferredDown x = true -> stepped (sy_tasks x) x (act ADeferredDown x).
Proof.
  cbn [enabled]. intros H [Hp%bool_decide_eq_true Hj]%andb_true_iff. destruct (inv_live x H) as [L HL]; [by rewrite Hp|].
  destruct (cleanup_deferred_run (sy_ctx x) L _ (lv_rinv _ _ HL)) as (s' & E & H' & M). eapply next_phase; try done; [by intros []|].
  intros t Ht. pose proof (joined_not _ _ _ Hj Ht). rewrite Hp. by destruct t as [| |[]|].
Qed.

Lemma cache_down_step x : sys_inv x -> enabled ACacheDown x = true -> stepped (sy_tasks x) x (act ACacheDown x).
Proof.
  cbn [enabled]. intros H [[Hp%bool_decide_eq_true Hj]%andb_true_iff _]%andb_true_iff. destruct (inv_live x H) as [L HL]; [by rewrite Hp|].
  destruct (cleanup_cache_run (sy_ctx x) L _ (lv_rinv _ _ HL)) as (s' & E & H' & C). eapply next_phase; try done; [by apply calm_moves|].
  intros t Ht. pose proof (joined_not _ _ _ Hj Ht). rewrite Hp. by destruct t as [| |[]|].
Qed.

Lemma egress_down_step x : sys_inv x -> enabled AEgressDown x = true -> stepped (sy_tasks x) x (act AEgressDown x).
Proof.
  cbn [enabled]. intros H Hp%bool_decide_eq_true. destruct (inv_live x H) as [L HL]; [by rewrite Hp|].
  destruct (cleanup_egress_run (sy_ctx x) L _ (lv_rinv _ _ HL)) as (s' & E & H' & M).
  eapply next_phase; try done; [intros _; apply (lv_late _ _ HL); by left|]. intros t Ht. rewrite Hp. by destruct t as [| |[]|].
Qed.

Lemma queues_down_step x : sys_inv x -> enabled AQueuesDown x = true -> stepped (sy_tasks x) x (act AQueuesDown x).
Proof.
  cbn [enabled]. intros H [Hp%bool_decide_eq_true Hj]%andb_true_iff. destruct (inv_live x H) as [L HL]; [by rewrite Hp|].
  assert (Ht : sy_tasks x = []).
  { pose proof (lv_alive _ _ HL) as Ha. destruct (sy_tasks x) as [|t ts] eqn:Et; [done|]. cbn in Ha. rewrite Hp in Ha.
    pose proof (joined_not _ x t Hj ltac:(rewrite Et; by left)). by destruct t as [| |[]|]. }
  pose proof (lv_rinv _ _ HL) as HR. rewrite Ht, (lv_late _ _ HL) in HR by (by right).
  destruct (cleanup_queues_run _ HR) as (s' & E & Ho & _). unfold act, in_phase. rewrite E. cbn [mbind option_bind].
  eexists. split; [done|]. split; [|done]. by split.
Qed.

Lemma pool_down_step x : sys_inv x -> enabled APoolDown x = true -> stepped (sy_tasks x) x (act APoolDown x).
Proof.
  cbn [enabled]. intros H Hp%bool_decide_eq_true. unfold sys_inv in H. rewrite Hp in H. cbn in H. destruct H as [Ht Ho].
  destruct (cleanup_pool_run _ Ho) as (s' & E & Hm & _). unfold act, in_phase. rewrite E. cbn [mbind option_bind].
  eexists. split; [done|]. split; [|done]. by split.
Qed.

(** ** All steps *)

Lemma sys_step_run x a : sys_inv x -> enabled a x = true -> legal a x -> stepped (others a x) x (act a x).
Proof.
  intros H He Hl. destruct a; cbn [others].
  - by apply receive_step.
  - by apply rx_enqueue_step.
  - by apply idle_step.
  - by apply pop_step.
  - by apply process_step.
  - by apply inject_step.
  - by apply work_act_step.
  - by apply dequeue_step.
  - by apply emit_step.
  - destruct (inv_live x H He) as [L HL]. destruct (drain_ack_run res (sy_ctx x) L _ (lv_rinv _ _ HL)) as (more & s' & E & H' & M).
    unfold act. rewrite E. by eapply quiet_step.
  - destruct (source_tx _ He) as [Htx _]. destruct (inv_live x H Htx) as [L HL].
    destruct (ack_poll_run flow_id segment_id (sy_ctx x) L _ (lv_rinv _ _ HL)) as (b & s' & E & H' & C).
    unfold act. rewrite E. eapply quiet_step; try done. by apply calm_moves.
  - destruct (inv_live x H He) as [L HL]. unfold act. eapply quiet_step; [done|done| |].
    + eapply same_core_rinv; [|apply HL]. by split.
    + apply calm_moves, same_core_calm. by split.
  - by apply stop_step.
  - by apply deferred_down_step.
  - by apply cache_down_step.
  - by apply egress_down_step.
  - by apply queues_down_step.
  - by apply pool_down_step.
Qed.

Lemma reach_inv c x : config_ok c -> reach c x -> sys_inv x.
Proof.
  intros Hc. induction 1 as [env need rc g s Hi Hx Hg E|x a x' _ IH He Hl E].
  - destruct (relay_init_run env need c rc g Hc Hi Hx Hg) as (z & s' & E' & Hup). rewrite E in E'. injection E' as <- <-.
    destruct Hup as [(_ & HR & _)|[? _]]; [|done]. by exists [].
  - destruct (sys_step_run x a IH He Hl) as (x1 & E1 & H1 & _). rewrite E in E1. by injection E1 as <-.
Qed.

End Host2.
