(* ===== verification/RelayTheorems.v ===== *)
(** * What forwarding does to the bytes of a datagram

    Rewriting the header with a smaller TTL changes the TTL byte; a version 4 header also has its
    two reserved bytes cleared. *)

From Stdlib Require Import Strings.Byte.
From S2P Require Import Prelude Ring PktQueue WireHeader Gf256 ByteVec DatagramPool EgressQueue.
From S2P Require Import RelayDeferred RelayDeferredSpec GenerationCache GenerationCacheList.
From S2P Require Import GenerationCacheSpec RsBats Recode RecodeSpec Relay RelayInv RelayIngress.
From S2P Require Import RelayHandlers RelayLife RelaySystem.

Local Open Scope Z_scope.

(** The datagram a hop later. *)
Definition ttl_down (h : WireHeader) (d : list byte) : list byte :=
  let d := <[7%nat := Z_to_byte (wh_ttl h - 1)]> d in
  if is_v4 h then <[46%nat := x00]> (<[47%nat := x00]> d) else d.

Lemma insert_middle {A} (pre post : list A) n x y : n = length pre -> <[n := x]> (pre ++ y :: post) = pre ++ x :: post.
Proof. intros ->. rewrite <- (Nat.add_0_r (length pre)), insert_app_r. done. Qed.

Lemma map_insert {A B} (f : A -> B) (l : list A) n x : map f (<[n := x]> l) = <[n := f x]> (map f l).
Proof. exact (list_fmap_insert f l n x). Qed.

Section Host.
Context `{host : HostOrder}.

Lemma base_bytes_ttl h ver : 0 < wh_ttl h < 256 -> base_bytes (dec_ttl h) ver = <[7%nat := wh_ttl h - 1]> (base_bytes h ver).
Proof.
  intros Ht. unfold base_bytes, dec_ttl. cbn [wh_type wh_final_dst wh_ttl wh_flow_id wh_block_id wh_shard_index wh_shard_count wh_valid_len
    wh_payload_len wh_encode_begin_ns wh_encode_end_ns].
  assert (u8 (wh_ttl h - 1) = wh_ttl h - 1) as -> by (unfold u8, uwrap; rewrite Z.mod_small; [done|lia]).
  rewrite !(app_assoc (be_bytes 4 WIRE_MAGIC)). rewrite !(app_assoc _ [wh_type h]), !(app_assoc _ [wh_final_dst h]).
  symmetry. apply insert_middle. rewrite !length_app, length_be_bytes. done.
Qed.

(** A header read from the front of a buffer describes the buffer. *)
Lemma decoded_front d rest h : decoded d h -> decoded (d ++ rest) h.
Proof.
  intros [D1 D2 D3 D4 D5 D6].
  assert (Hl : (44 <= length d)%nat) by (rewrite D4, length_app, length_base_bytes; unfold WIRE_HEADER_SIZE; lia).
  assert (E : drop 44 (d ++ rest) = drop 44 d ++ rest) by (rewrite drop_app_le by lia; done).
  split; [rewrite length_app; lia|done|done|rewrite E, app_assoc; by rewrite <- D4|done|].
  intros E4. specialize (D6 E4). assert (Hl4 : (52 <= length d)%nat).
  { unfold wire_header_size in D1. rewrite E4 in D1. cbn in D1. unfold WIRE_V4_HEADER_SIZE in D1. lia. }
  rewrite E, D6. unfold read_at. rewrite <- !app_assoc. rewrite (drop_app_le d rest 46), (drop_app_le d rest 52) by lia.
  rewrite (take_app_le (drop 46 d) rest) by (rewrite length_drop; lia). done.
Qed.

Lemma bytes_back d : map Z_to_byte (map byte_to_Z d) = d.
Proof. rewrite map_map. induction d as [|b d IH]; [done|]. cbn. by rewrite IH, Z_to_byte_to_Z. Qed.

Lemma encode_ttl_bytes d h :
  decoded (map byte_to_Z d) h -> 0 < wh_ttl h ->
  (if is_v4 h then wire_header_encode_v4 (map byte_to_Z d) (dec_ttl h) else wire_header_encode (map byte_to_Z d) (dec_ttl h)) =
  map byte_to_Z (ttl_down h d).
Proof.
  intros H Ht. pose proof (dc_ok _ _ H) as Hok. assert (Hr : 0 < wh_ttl h < 256).
  { destruct Hok as (_ & _ & Hok & _). unfold in_range in Hok. change (2 ^ 8) with 256 in Hok. lia. }
  unfold ttl_down, is_v4.
  assert (Hx : byte_to_Z (Z_to_byte (wh_ttl h - 1)) = wh_ttl h - 1) by (apply byte_to_Z_to_byte; unfold is_byte, in_range; change (2 ^ 8) with 256; lia).
  assert (Hlen : (WIRE_HEADER_SIZE <= length (map byte_to_Z d))%nat).
  { rewrite (dc_bytes _ _ H), length_app, length_base_bytes. lia. }
  set (z := map byte_to_Z d) in *. destruct (Z.eqb_spec (wh_version h) WIRE_VERSION_V4) as [E4|E3].
  - pose proof (dc_v4 _ _ H E4) as D4. pose proof (dc_length _ _ H) as Hl. unfold wire_header_size in Hl. rewrite E4, Z.eqb_refl in Hl.
    rewrite encode_v4_bytes by exact Hl. rewrite !map_insert, Hx. change (byte_to_Z x00) with 0. fold z.
    unfold v4_bytes. rewrite base_bytes_ttl by done. cbn [dec_ttl wh_origin_node wh_flags wh_segment_bytes].
    rewrite (dc_bytes _ _ H) at 2. rewrite E4, D4. unfold WIRE_V4_HEADER_SIZE in *.
    assert (Hr2 : exists a b, read_at z 46 2 = [a; b]).
    { assert (Hl2 : length (read_at z 46 2) = 2%nat) by (unfold read_at; rewrite length_take, length_drop; lia).
      destruct (read_at z 46 2) as [|a [|b [|c l]]]; try done. by exists a, b. }
    destruct Hr2 as (a & b & ->). rewrite insert_app_l by (rewrite length_base_bytes; unfold WIRE_HEADER_SIZE; lia).
    set (base := <[7%nat := _]> (base_bytes h WIRE_VERSION_V4)). assert (Hb : length base = 44%nat) by (unfold base; by rewrite length_insert, length_base_bytes).
    change (be_bytes 2 0) with [0; 0]. rewrite <- !app_assoc. cbn [app].
    change (wh_origin_node h :: wh_flags h :: a :: b :: ?l) with ([wh_origin_node h; wh_flags h; a] ++ b :: l).
    rewrite (app_assoc base [wh_origin_node h; wh_flags h; a]), insert_middle by (by rewrite length_app, Hb). rewrite <- app_assoc. cbn [app].
    change (wh_origin_node h :: wh_flags h :: a :: ?l) with ([wh_origin_node h; wh_flags h] ++ a :: l).
    rewrite (app_assoc base [wh_origin_node h; wh_flags h]), insert_middle by (by rewrite length_app, Hb). rewrite <- app_assoc. done.
  - destruct (dc_version _ _ H) as [E|E]; [|done]. unfold wire_header_encode. rewrite encode_base_bytes by done.
    rewrite map_insert, Hx. fold z. rewrite base_bytes_ttl by done. rewrite (dc_bytes _ _ H) at 2. rewrite E.
    rewrite insert_app_l by (rewrite length_base_bytes; unfold WIRE_HEADER_SIZE; lia). done.
Qed.

Lemma encode_ttl_down d h : decoded (map byte_to_Z d) h -> 0 < wh_ttl h -> encode_header (dec_ttl h) d = ttl_down h d.
Proof.
  intros H Ht. rewrite <- (bytes_back (ttl_down h d)). unfold encode_header. f_equal. exact (encode_ttl_bytes d h H Ht).
Qed.

(** The next hop reads the same header, one TTL less. *)
Lemma header_of_ttl_down d h : decoded (map byte_to_Z d) h -> 0 < wh_ttl h -> header_of (ttl_down h d) = Some (dec_ttl h).
Proof.
  intros H Ht. unfold header_of. rewrite <- (encode_ttl_bytes d h H Ht). pose proof (dec_ttl_ok h (dc_ok _ _ H)) as Hok.
  pose proof (dc_length _ _ H) as Hl. unfold wire_header_size, is_v4 in *. destruct (Z.eqb_spec (wh_version h) WIRE_VERSION_V4) as [E4|E3].
  - rewrite encode_v4_bytes, decode_v4_bytes by done. unfold as_v4, dec_ttl. cbn. by rewrite E4.
  - destruct (dc_version _ _ H) as [E|E]; [|done]. unfold wire_header_encode. rewrite encode_base_bytes, decode_v3_bytes by done.
    pose proof (dc_v3 _ _ H E) as Ev. destruct h. unfold as_v3, dec_ttl in *. cbn in *. by injection Ev as -> -> -> ->.
Qed.

Lemma length_ttl_down h d : length (ttl_down h d) = length d.
Proof. unfold ttl_down. by destruct (is_v4 h); rewrite ?length_insert. Qed.

Lemma take_ttl_down n h d : (wire_header_size h <= n)%nat -> take n (ttl_down h d) = ttl_down h (take n d).
Proof.
  unfold wire_header_size, ttl_down, is_v4, WIRE_HEADER_SIZE, WIRE_V4_HEADER_SIZE. intros Hn.
  destruct (_ =? _); rewrite !take_insert_lt by lia; done.
Qed.

(** ** A datagram in transit, without a cache and without hooks *)

Lemma apply_recode_none s p len h : cf_recode_fn (rl_config s) = None -> apply_recode p len h s = Some (Some (h, len), s).
Proof. intros E. unfold apply_recode. rewrite (bind_run _ _ s (rl_config s) s) by done. by rewrite E. Qed.

Lemma submit_plain env source slot s L p len h F :
  rinv s L (mkHold p len true :: F) -> rl_cache_enabled s = false -> cf_decode_reencode_fn (rl_config s) = NO_REENCODE ->
  submit_transit env source slot p len h s =
    Some (mkSubmitted RELAY_INGRESS_OK None (Some (prepare_forward_pending slot p len h source (en_enqueue_ns env 0))) [], s).
Proof.
  intros H En Er. unfold submit_transit. rewrite (bind_run _ _ s false s) by (unfold gets; by rewrite En).
  rewrite (bind_run _ _ s (rl_config s) s) by done. cbn [andb]. destruct (negb _); [by rewrite (bind_run _ _ s tt s)|].
  destruct (read_run s L _ F H) as (buf & _ & _ & _ & Hread). cbn [hd_buf] in Hread. rewrite (bind_run _ _ _ _ _ (Hread _)).
  rewrite (bind_run _ _ s (RELAY_PROCESS_CONTINUE_FORWARD, (RELAY_DECODE_REENCODE_OPAQUE, [])) s); [done|].
  rewrite (bind_run _ _ s (RELAY_DECODE_REENCODE_OPAQUE, []) s); [done|]. unfold call_reencode. by rewrite Er.
Qed.

(** ** One emission with an egress function *)

Lemma release_sent p s s' : release p s = Some (tt, s') -> rl_sent s' = rl_sent s.
Proof. unfold release, bufs. case_match; [|done]. by destruct p0 as [[] b]; intros [= <-]. Qed.

Lemma account_sent slot h ok s s' : relay_tx_account slot h ok s = Some (tt, s') -> rl_sent s' = rl_sent s.
Proof. unfold relay_tx_account. destruct (negb ok); [by intros [= <-]|]. destruct (_ =? _); by intros [= <-]. Qed.

(** A data packet up to [sendto]: the egress function has run on the buffer. *)
Lemma emit_data_run s L F pkt f d h d1 :
  rinv s L (pk_hold (has_egress (rl_config s)) pkt :: F) -> cf_egress_fn (rl_config s) = Some f -> cf_capture (rl_config s) = false ->
  datagram_at (ep_datagram pkt) (ep_len pkt) (rl_bufs s) = Some d -> header_of d = Some h ->
  is_v4 h && has_flag h WIRE_FLAG_RETURN_PATH = false -> f d h = (0, Some d1) -> length d1 = length d ->
  exists b, let s1 := with_bufs (fun _ => b) s in
    rinv s1 L (pk_hold (has_egress (rl_config s)) pkt :: F) /\ datagram_at (ep_datagram pkt) (ep_len pkt) b = Some d1 /\
    relay_tx_emit SendAgain true pkt s = Some (true, s1) /\
    forall n, relay_tx_emit (SendBytes n) true pkt s =
      (emit_sent (rl_next_hop s) d1;; relay_tx_account (flow_stats_slot (ep_flow_id pkt)) h (n =? ep_len pkt);;
       release (ep_datagram pkt);; mret false) s1.
Proof.
  intros H Ef Ec Hd Eh Er E1 Hl. rewrite (egress_some _ _ Ef) in *. destruct (read_run s L _ F H) as (buf & Hr & Hlen & Hm & Hread).
  cbn [pk_hold hd_buf hd_len] in *. unfold datagram_at in Hd. rewrite Hr in Hd. cbn in Hd. injection Hd as <-.
  assert (Hp : ep_datagram pkt <> 0) by (apply (own_nonzero _ _ (ep_datagram pkt) (gd_own _ _ _ _ (rinv_front _ _ _ _ H))); apply elem_of_app; right; by left).
  destruct (write_run s L (ep_datagram pkt) (ep_len pkt) (ep_len pkt) F d1 H Hm ltac:(lia)) as (s1 & old & Ew & H1 & C1 & Hold & Hnew & (b & ->)).
  assert (Hd1 : datagram_at (ep_datagram pkt) (ep_len pkt) b = Some d1).
  { cbn in Hnew. unfold datagram_at. rewrite Hnew. cbn. rewrite length_take in Hl. f_equal. rewrite take_app_le by lia. apply take_ge. lia. }
  exists b. split; [done|]. split; [done|].
  assert (Hgo : forall res, relay_tx_emit res true pkt s = (match res with
    | SendAgain => mret true
    | SendError => relay_tx_account (flow_stats_slot (ep_flow_id pkt)) h false;; release (ep_datagram pkt);; mret false
    | SendBytes n => emit_sent (rl_next_hop s) d1;; relay_tx_account (flow_stats_slot (ep_flow_id pkt)) h (n =? ep_len pkt);;
        release (ep_datagram pkt);; mret false end) (with_bufs (fun _ => b) s)).
  { intros res. unfold relay_tx_emit. destruct (Z.eqb_spec (ep_datagram pkt) 0); [done|]. rewrite (bind_run _ _ _ _ _ (Hread _)), Eh, Er.
    rewrite (bind_run _ _ s (Some (rl_next_hop s)) s) by done. rewrite (bind_run _ _ s (rl_config s) s) by done. rewrite Ef, E1, Ec.
    rewrite (bind_run _ _ s true (with_bufs (fun _ => b) s)); [|by rewrite (bind_run _ _ _ _ _ Ew)]. cbn [negb].
    rewrite (bind_run _ _ _ d1 (with_bufs (fun _ => b) s)); [by destruct res|].
    unfold read_datagram. rewrite (bind_run _ _ (with_bufs (fun _ => b) s) (Some d1) (with_bufs (fun _ => b) s)); [done|].
    unfold gets. cbn [with_bufs rl_bufs]. by rewrite Hd1. }
  split; [by rewrite Hgo|]. intros n. by rewrite Hgo.
Qed.

End Host.

(** * The relay's contract

    Ownership of buffers over every interleaving of the relay's threads, isolation, shutdown,
    initialisation, and what a hop does to a datagram. *)

Section Host2.
Context `{host : HostOrder}.

(** C5: the relay never misuses a buffer, however its threads interleave.  In every state reachable
    from initialisation by steps of the receiver, the processing worker, the sender, injectors
    and cleanup, each pool buffer's reference count is the number of its owners in the queues,
    the backlog, the cache and the hands of threads, each block from [malloc] that is not freed
    has exactly one, and every step a thread can take is defined: no use after free, no double
    free, no access outside a queue.  The host returns only unused blocks from [malloc], and
    there are fewer than [2^32] references. *)
Theorem relay_buffers_exact c x :
  config_ok c -> reach c x ->
  (tx_alive (sy_phase x) = true -> exists L, rinv (sy_ctx x) L (tasks_holds (sy_ctx x) (sy_tasks x))) /\
  forall a, enabled a x = true -> legal a x -> exists x', act a x = Some x'.
Proof.
  intros Hc Hr. pose proof (reach_inv c x Hc Hr) as H. split.
  - intros Htx. destruct (inv_live x H Htx) as [L HL]. exists L. apply HL.
  - intros a He Hl. destruct (sys_step_run x a H He Hl) as (x' & E & _). by exists x'.
Qed.

(** C6: a step of one thread never changes the bytes of a datagram that is queued or that another
    thread holds, although datagrams are rewritten in place (the TTL, the recode and egress
    functions) and the cache shares buffers with the queues. *)
Theorem relay_steps_are_isolated c x a x' p :
  config_ok c -> reach c x -> enabled a x = true -> legal a x -> act a x = Some x' -> tx_alive (sy_phase x') = true ->
  (p ∈ hd_buf <$> queue_holds (sy_ctx x) ++ tasks_holds (sy_ctx x) (others a x)) ->
  (p ∈ hd_buf <$> queue_holds (sy_ctx x') ++ tasks_holds (sy_ctx x) (others a x)) ->
  buf_read p (rl_bufs (sy_ctx x')) = buf_read p (rl_bufs (sy_ctx x)).
Proof.
  intros Hc Hr He Hl E Htx Hp Hp'. destruct (sys_step_run x a (reach_inv c x Hc Hr) He Hl) as (x1 & E1 & _ & M).
  rewrite E in E1. injection E1 as <-. by apply (mv_bytes _ _ _ (M Htx)).
Qed.

(** C7: shutdown gives every datagram buffer back.  Whatever was queued, cached or in flight when
    cleanup began, once the queues are destroyed every buffer of the pool is free, and once the pool
    is destroyed no datagram buffer is left, neither of the pool nor from [malloc].  Cleanup of a
    relay whose threads hold nothing runs to its end and takes the egress queues, the dequeuer, the
    deferred hub and an enabled cache down.  (The array of an emit batch is not a datagram buffer and
    is not tracked: the code can leave one behind, see relay.c:982.) *)
Theorem relay_shutdown_frees_all c x :
  config_ok c -> reach c x ->
  (sy_phase x = QueuesDown ->
     dp_in_use (rb_pool (rl_bufs (sy_ctx x))) = 0%nat /\
     dp_free_count (rb_pool (rl_bufs (sy_ctx x))) = dp_capacity (rb_pool (rl_bufs (sy_ctx x)))) /\
  (sy_phase x = PoolDown -> rb_mem (rl_bufs (sy_ctx x)) = ∅) /\
  (sy_phase x = Running -> sy_tasks x = [] ->
     exists s', relay_ctx_cleanup (sy_ctx x) = Some (tt, s') /\ rb_mem (rl_bufs s') = ∅ /\ rb_inited (rl_bufs s') = false /\
       parts s' = mkParts false false false false (negb (rl_cache_enabled (sy_ctx x)) && pt_cache (parts (sy_ctx x)))).
Proof.
  intros Hc Hr. pose proof (reach_inv c x Hc Hr) as H. split; [|split].
  - intros Hp. unfold sys_inv in H. rewrite Hp in H. destruct H as [_ Ho]. exact (own_none_in_use _ Ho).
  - intros Hp. unfold sys_inv in H. rewrite Hp in H. by destruct H.
  - intros Hp Ht. destruct (inv_live x H) as [L HL]; [by rewrite Hp|]. pose proof (lv_rinv _ _ HL) as HR. rewrite Ht in HR.
    destruct (relay_ctx_cleanup_run _ L HR) as (s' & E & Hm & Hi). exists s'. split_and!; try done. by apply relay_ctx_cleanup_parts.
Qed.

(** C40: initialisation is all or nothing.  Whichever of its calls fail, [relay_ctx_init_common] is
    defined; it returns 0 with a relay in order, nothing in use and the pool, both egress queues, the
    dequeuer and the deferred hub up, or -1 with all of them, and the generation cache, taken down
    again and no datagram buffer left.  (The relay's own mutex and condition variable and its
    sockets are not part of the model.) *)
Theorem relay_init_all_or_nothing env need c rc g :
  config_ok c -> init_ok env -> RecodeSpec.ring_ok rc -> table_ok g ->
  exists z s, relay_ctx_init_common env need (relay_zero (config_defaults c) rc g) = Some (z, s) /\
    ((z = 0 /\ rinv s [] [] /\ rl_config s = config_defaults c /\ rl_inject_in_flight s = 0 /\ rl_stop s = false /\
      parts s = mkParts true true true true (pt_cache (parts s))) \/
     (z = -1 /\ rb_mem (rl_bufs s) = ∅ /\ rb_inited (rl_bufs s) = false /\ parts s = all_down)).
Proof.
  intros Hc He Hx Hg. destruct (relay_init_run env need c rc g Hc He Hx Hg) as (z & s & E & H). exists z, s. split; [done|].
  apply relay_init_parts in E. destruct E as [[-> E]|[-> E]], H as [(H0 & H1 & H2 & H3 & H4)|(H0 & H1 & H2)]; try done; [by right|by left].
Qed.

(** C8: a datagram in transit leaves with the bytes it came with, but for its TTL.  When nothing
    is configured that rewrites datagrams, a datagram for another node with TTL above 1 is
    handed to the egress with byte 7 one less (and the reserved bytes 46 and 47 of a version 4
    header cleared), and the next hop reads the same header with one TTL less. *)
Theorem relay_forwards_one_hop env source s L F p len d h :
  rinv s L (mkHold p len true :: F) ->
  rl_cache_enabled s = false -> cf_recode_fn (rl_config s) = None -> cf_decode_reencode_fn (rl_config s) = NO_REENCODE ->
  datagram_at p len (rl_bufs s) = Some d -> header_of d = Some h ->
  1 < wh_ttl h -> wire_header_is_local h (cf_local_node_id (rl_config s)) = false ->
  exists s', ingress_submit_owned env source p len s =
      Some (mkSubmitted RELAY_INGRESS_OK None
              (Some (prepare_forward_pending (flow_stats_slot (wh_flow_id h)) p len (dec_ttl h) source (en_enqueue_ns env 0))) [], s') /\
    datagram_at p len (rl_bufs s') = Some (ttl_down h d) /\ header_of (ttl_down h d) = Some (dec_ttl h).
Proof.
  intros H En Er Ed Hd Eh Ht Hl. destruct (read_run s L _ F H) as (buf & Hr & Hlen & Hm & Hread). cbn [hd_buf hd_len] in *.
  unfold datagram_at in Hd. rewrite Hr in Hd. cbn in Hd. injection Hd as <-. pose proof (header_of_decoded _ _ Eh) as Hdec.
  assert (Hsz : (wire_header_size h <= Z.to_nat len)%nat) by (pose proof (dc_length _ _ Hdec) as Hx; rewrite length_map, length_take in Hx; lia).
  assert (Hbuf : decoded (map byte_to_Z buf) h).
  { rewrite <- (take_drop (Z.to_nat len) buf), map_app. by apply decoded_front. }
  assert (Hmin : (WIRE_HEADER_SIZE <= Z.to_nat len)%nat).
  { unfold wire_header_size, WIRE_HEADER_SIZE, WIRE_V4_HEADER_SIZE in *. destruct (_ =? _); lia. }
  assert (Hp : p <> 0) by (apply (own_nonzero _ _ p (gd_own _ _ _ _ (rinv_front _ _ _ _ H))); apply elem_of_app; right; by left).
  unfold ingress_submit_owned. destruct (Z.eqb_spec p 0); [done|]. destruct (Z.ltb_spec len (Z.of_nat WIRE_HEADER_SIZE)); [lia|]. cbn [orb].
  rewrite (bind_run _ _ _ _ _ (Hread len)), Eh. set (slot := flow_stats_slot (wh_flow_id h)).
  destruct (count_core slot rs_rx s) as (s1 & E1 & C1). rewrite (bind_run _ _ _ _ _ E1).
  set (s2 := with_activity (en_now env) (rl_inject_in_flight s1) (rl_stop s1) s1). rewrite (bind_run _ _ s1 tt s2) by done.
  assert (C2 : same_core s s2) by (eapply same_core_trans; [exact C1|by split]). pose proof (same_core_rinv _ _ _ _ C2 H) as H2.
  rewrite (bind_run _ _ s2 (rl_config s) s2) by (unfold gets; by rewrite (sc_config _ _ C2)).
  rewrite (bind_run _ _ s2 (rl_return_hop s2) s2) by done. rewrite Hl, andb_false_r. cbn [andb].
  destruct (Z.eqb_spec (wh_ttl h) 0); [lia|]. unfold local_source_ack. rewrite Hl, andb_false_r. cbn [andb].
  destruct (Z.leb_spec (wh_ttl h) 1); [lia|].
  rewrite (bind_run _ _ s2 (Some buf) s2) by (unfold gets; by rewrite (sc_bufs _ _ C2), Hr). rewrite (bind_run _ _ s2 buf s2) by done.
  destruct (write_run s2 L p len len F (@encode_header host (dec_ttl h) buf) H2 Hm ltac:(lia)) as (s3 & old & E3 & H3 & C3 & Hold & Hnew & Hb).
  rewrite (bind_run _ _ _ _ _ E3). rewrite encode_ttl_down in Hnew by (done || lia).
  assert (Ec : rl_config s3 = rl_config s) by (by rewrite (cm_config _ _ _ C3), (sc_config _ _ C2)).
  rewrite (bind_run _ _ s3 (Some (dec_ttl h, len)) s3) by (apply apply_recode_none; by rewrite Ec).
  rewrite (submit_plain env source slot s3 L p len (dec_ttl h) F H3); [|destruct Hb as [b ->]; transitivity (rl_cache_enabled s2); [done|by rewrite (sc_enabled _ _ C2)]|by rewrite Ec].
  exists s3. split; [done|]. rewrite (sc_bufs _ _ C2), Hr in Hold. injection Hold as <-.
  split; [|apply header_of_ttl_down; [done|lia]].
  unfold datagram_at. rewrite Hnew, length_ttl_down, drop_all, app_nil_r. cbn. by rewrite take_ttl_down.
Qed.

(** A retried send applies the egress function again.  [relay_tx_emit] rewrites the datagram
    in place before [sendto]; when the socket would block it keeps the rewritten datagram and
    the worker calls it again, so what goes out went through the egress function twice. *)
Theorem relay_tx_retry_reapplies_egress s L F pkt f d h d1 d2 :
  rinv s L (pk_hold (has_egress (rl_config s)) pkt :: F) ->
  cf_egress_fn (rl_config s) = Some f -> cf_capture (rl_config s) = false ->
  datagram_at (ep_datagram pkt) (ep_len pkt) (rl_bufs s) = Some d ->
  header_of d = Some h -> is_v4 h && has_flag h WIRE_FLAG_RETURN_PATH = false ->
  f d h = (0, Some d1) -> length d1 = length d -> header_of d1 = Some h -> f d1 h = (0, Some d2) -> length d2 = length d ->
  exists s1 s2, relay_tx_emit SendAgain true pkt s = Some (true, s1) /\
    relay_tx_emit (SendBytes (ep_len pkt)) true pkt s1 = Some (false, s2) /\
    rl_sent s2 = rl_sent s ++ [mkSent (rl_next_hop s) d2].
Proof.
  intros H Ef Ec Hd Eh Er E1 Hl1 Eh1 E2 Hl2.
  destruct (emit_data_run s L F pkt f d h d1 H Ef Ec Hd Eh Er E1 Hl1) as (b & H1 & Hd1 & Eagain & _).
  set (s1 := with_bufs (fun _ => b) s) in *.
  destruct (emit_data_run s1 L F pkt f d1 h d2 H1 Ef Ec Hd1 Eh1 Er E2) as (b2 & H2 & Hd2 & _ & Esend); [by rewrite Hl1|].
  specialize (Esend (ep_len pkt)). set (s2 := with_bufs (fun _ => b2) s1) in *. exists s1.
  set (s3 := with_output (rl_sent s2 ++ [mkSent (rl_next_hop s1) d2]) (rl_delivered s2) s2).
  rewrite (bind_run _ _ s2 tt s3) in Esend by done. set (slot := flow_stats_slot (ep_flow_id pkt)) in *.
  destruct (account_core slot h (ep_len pkt =? ep_len pkt) s3) as (s4 & E4 & C4). rewrite (bind_run _ _ _ _ _ E4) in Esend.
  assert (H4 : rinv s4 L (pk_hold (has_egress (rl_config s)) pkt :: F)) by (eapply same_core_rinv; [|exact H2]; eapply (same_core_trans _ s3); [by split|done]).
  destruct (release_run s4 L _ F H4) as (s5 & E5 & _). cbn [pk_hold hd_buf] in E5. rewrite (bind_run _ _ _ _ _ E5) in Esend.
  exists s5. split; [done|]. split; [done|]. by rewrite (release_sent _ _ _ E5), (account_sent _ _ _ _ _ E4).
Qed.

End Host2.

(** ** Concrete relays *)

#[local] Instance little_endian : HostOrder := true.

Definition sub1_fn (d : list byte) (h : WireHeader) : Z * option (list byte) := relay_egress_payload_sub1 (Some d) (Some h).
Definition sample_relay (f : option (list byte -> WireHeader -> Z * option (list byte))) : RelayConfig :=
  mkRelayConfig 1 None f NO_REENCODE false None RELAY_PROCESS_FORWARD None 4 0 4 8 2 true false 0 0 0 0.
Definition sample_init : InitEnv := mkInitEnv (fun _ => false) 4096 1 2 3 (Some [10]) None.
Definition sample_recoder : RelayRsBatsRecoderCtx :=
  default (mkBatsCtx bats_stats_zero [] 0) (relay_rs_bats_recoder_ctx_create true).

Abbreviation sample_run f :=
  (relay_ctx_init_common sample_init false (relay_zero (config_defaults (sample_relay f)) sample_recoder gf_table_zero)).

Lemma sample_config_ok f : config_ok (sample_relay f).
Proof. split; [by intros ? ? ? ? ? ? ?|vm_compute; discriminate|vm_compute; reflexivity]. Qed.
Lemma sample_init_ok : init_ok sample_init.
Proof. by split. Qed.
Lemma sample_recoder_ok : RecodeSpec.ring_ok sample_recoder.
Proof. split; [reflexivity|]. cbn. lia. Qed.

(** Initialisation succeeds, the cache is off, and the pool has a buffer. *)
Lemma sample_run_ok f :
  match sample_run f with
  | Some (rc, s) =>
      (rc =? 0) && negb (rl_cache_enabled s) &&
      match relay_buf_acquire None (rl_bufs s) with Some (Some _, _) => true | _ => false end
  | None => false
  end = true.
Proof. vm_compute. reflexivity. Qed.

Lemma sample_up f : exists s, reach (sample_relay f) (mkSys s [] Running).
Proof.
  pose proof (sample_run_ok f) as H. destruct (sample_run f) as [[rc s]|] eqn:E; [|done].
  apply andb_true_iff in H as [[Hrc%Z.eqb_eq _]%andb_true_iff _]. subst rc. exists s.
  apply (reach_init _ sample_init false sample_recoder gf_table_zero);
    [apply sample_init_ok|apply sample_recoder_ok|apply table_zero_ok|exact E].
Qed.

(** A relay with one datagram in hand. *)
Lemma sample_held f d :
  (length d <= RELAY_MAX_DATAGRAM)%nat ->
  exists s p, rinv s [] [mkHold p (Z.of_nat (length d)) true] /\ rl_cache_enabled s = false /\
    rl_config s = config_defaults (sample_relay f) /\ datagram_at p (Z.of_nat (length d)) (rl_bufs s) = Some d.
Proof.
  intros Hd. pose proof (sample_run_ok f) as H. destruct (sample_run f) as [[rc s]|] eqn:E; [|done].
  apply andb_true_iff in H as [[Hrc%Z.eqb_eq En%negb_true_iff]%andb_true_iff Ha]. subst rc.
  destruct (relay_init_run sample_init false (sample_relay f) sample_recoder gf_table_zero (sample_config_ok f) sample_init_ok sample_recoder_ok table_zero_ok)
    as (z & s' & E' & [(-> & HR & Hc & _)|(-> & _)]); rewrite E in E'; [|discriminate E']. injection E' as <-.
  destruct (acquire_run s [] [] None HR) as (r & s1 & E1 & C1 & H1 & _); [done|]. unfold bufs in E1.
  destruct (relay_buf_acquire None (rl_bufs s)) as [[[p|] b]|]; try done. injection E1 as <- <-.
  destruct (write_run _ [] p 0 (Z.of_nat (length d)) [] d H1 ltac:(lia) ltac:(lia)) as (s2 & old & E2 & H2 & C2 & _ & Hnew & (b2 & ->)).
  eexists _, p. split; [exact H2|]. split; [done|]. split; [done|]. unfold datagram_at. rewrite Hnew. cbn.
  by rewrite Nat2Z.id, take_app_length.
Qed.

(** A data datagram for node 2. *)
Definition sample_datagram : list byte :=
  map Z_to_byte (wire_header_encode (replicate 44 0) (mkWireHeader 3 WIRE_TYPE_DATA 2 4 1 9 0 1 2 2 0 0 0 0 0)) ++ [x05; x06].
Definition sample_header : WireHeader := default (mkWireHeader 0 0 0 0 0 0 0 0 0 0 0 0 0 0 0) (header_of sample_datagram).

Lemma relay_buffers_exact_witness :
  exists x, reach (sample_relay None) x /\
    (tx_alive (sy_phase x) = true -> exists L, rinv (sy_ctx x) L (tasks_holds (sy_ctx x) (sy_tasks x))) /\
    forall a, enabled a x = true -> legal a x -> exists x', act a x = Some x'.
Proof.
  destruct (sample_up None) as (s & Hr). exists (mkSys s [] Running). split; [exact Hr|].
  exact (relay_buffers_exact (sample_relay None) (mkSys s [] Running) (sample_config_ok None) Hr).
Defined.

Lemma relay_shutdown_frees_all_witness :
  exists x s', reach (sample_relay None) x /\ relay_ctx_cleanup (sy_ctx x) = Some (tt, s') /\ rb_mem (rl_bufs s') = ∅.
Proof.
  destruct (sample_up None) as (s & Hr). exists (mkSys s [] Running).
  destruct (relay_shutdown_frees_all (sample_relay None) (mkSys s [] Running) (sample_config_ok None) Hr) as (_ & _ & H).
  destruct (H eq_refl eq_refl) as (s' & E & Hm & _). exists s'. split; [exact Hr|]. split; [exact E|exact Hm].
Defined.

Lemma relay_init_all_or_nothing_witness :
  exists z s, relay_ctx_init_common sample_init false (relay_zero (config_defaults (sample_relay None)) sample_recoder gf_table_zero) = Some (z, s) /\
    ((z = 0 /\ rinv s [] [] /\ rl_config s = config_defaults (sample_relay None) /\ rl_inject_in_flight s = 0 /\ rl_stop s = false /\
      parts s = mkParts true true true true (pt_cache (parts s))) \/
     (z = -1 /\ rb_mem (rl_bufs s) = ∅ /\ rb_inited (rl_bufs s) = false /\ parts s = all_down)).
Proof.
  exact (relay_init_all_or_nothing sample_init false (sample_relay None) sample_recoder gf_table_zero
    (sample_config_ok None) sample_init_ok sample_recoder_ok table_zero_ok).
Defined.

Lemma relay_forwards_one_hop_witness :
  exists env s p s', ingress_submit_owned env RELAY_SRC_PREVIOUS_NODE p (Z.of_nat (length sample_datagram)) s =
      Some (mkSubmitted RELAY_INGRESS_OK None
              (Some (prepare_forward_pending (flow_stats_slot (wh_flow_id sample_header)) p (Z.of_nat (length sample_datagram))
                       (dec_ttl sample_header) RELAY_SRC_PREVIOUS_NODE (en_enqueue_ns env 0))) [], s') /\
    datagram_at p (Z.of_nat (length sample_datagram)) (rl_bufs s') = Some (ttl_down sample_header sample_datagram) /\
    header_of (ttl_down sample_header sample_datagram) = Some (dec_ttl sample_header).
Proof.
  destruct (sample_held None sample_datagram) as (s & p & H & En & Hc & Hd); [apply Nat.leb_le; vm_compute; reflexivity|].
  exists (mkEnv 0 (fun _ => 0) None false false false (fun _ => 0) (fun _ _ => x00) 0 0 (fun _ => false) (fun _ => None)), s, p.
  apply (relay_forwards_one_hop _ _ s [] [] p _ sample_datagram sample_header H En); rewrite ?Hc; try exact Hd; vm_compute; reflexivity.
Defined.

Definition sample_once : list byte := default [] (snd (sub1_fn sample_datagram sample_header)).
Definition sample_twice : list byte := default [] (snd (sub1_fn sample_once sample_header)).

(** The payload 5, 6 goes out as 3, 4 after one retry, and not as 4, 5. *)
Lemma relay_tx_retry_reapplies_egress_witness :
  drop 44 sample_datagram = [x05; x06] /\ drop 44 sample_twice = [x03; x04] /\
  exists s p s1 s2, let pkt := mkEp p (Z.of_nat (length sample_datagram)) 1 9 0 [] 0 0 in
    relay_tx_emit SendAgain true pkt s = Some (true, s1) /\
    relay_tx_emit (SendBytes (Z.of_nat (length sample_datagram))) true pkt s1 = Some (false, s2) /\
    rl_sent s2 = rl_sent s ++ [mkSent (rl_next_hop s) sample_twice].
Proof.
  split; [vm_compute; reflexivity|]. split; [vm_compute; reflexivity|].
  destruct (sample_held (Some sub1_fn) sample_datagram) as (s & p & H & En & Hc & Hd); [apply Nat.leb_le; vm_compute; reflexivity|].
  exists s, p. apply (relay_tx_retry_reapplies_egress s [] [] (mkEp p (Z.of_nat (length sample_datagram)) 1 9 0 [] 0 0) sub1_fn
    sample_datagram sample_header sample_once sample_twice); rewrite ?Hc; try exact H; try exact Hd; vm_compute; reflexivity.
Defined.

(** A relay with one datagram received and not yet enqueued. *)
Lemma sample_receives :
  match sample_run None with
  | Some (_, s) => match rx_receive None 5 [7] sample_datagram s with Some (Some _, _) => true | _ => false end
  | None => false
  end = true.
Proof. vm_compute. reflexivity. Qed.

Lemma sample_received : exists s p len, reach (sample_relay None) (mkSys s [TRx p len] Running).
Proof.
  pose proof sample_receives as H. pose proof (sample_run_ok None) as H0.
  destruct (sample_run None) as [[rc s0]|] eqn:E; [|done]. apply andb_true_iff in H0 as [[Hrc%Z.eqb_eq _]%andb_true_iff _]. subst rc.
  destruct (rx_receive None 5 [7] sample_datagram s0) as [[[[p len]|] s1]|] eqn:E1; try done. exists s1, p, len.
  apply (reach_step _ (mkSys s0 [] Running) (ARxReceive None 5 [7] sample_datagram)).
  - apply (reach_init _ sample_init false sample_recoder gf_table_zero);
      [apply sample_init_ok|apply sample_recoder_ok|apply table_zero_ok|exact E].
  - reflexivity.
  - intros q Hq. discriminate Hq.
  - unfold act. cbn [sy_ctx]. rewrite E1. reflexivity.
Qed.

(** While a second datagram is received, the first keeps its bytes. *)
Lemma relay_steps_are_isolated_witness :
  exists x x' p len, reach (sample_relay None) x /\ sy_tasks x = [TRx p len] /\
    act (ARxReceive None 6 [8] sample_datagram) x = Some x' /\
    buf_read p (rl_bufs (sy_ctx x')) = buf_read p (rl_bufs (sy_ctx x)).
Proof.
  destruct sample_received as (s & p & len & Hr). set (x := mkSys s [TRx p len] Running) in *.
  destruct (sys_step_run x (ARxReceive None 6 [8] sample_datagram) (reach_inv _ _ (sample_config_ok None) Hr))
    as (x' & E & _); [reflexivity|intros q Hq; discriminate Hq|].
  exists x, x', p, len. split; [exact Hr|]. split; [reflexivity|]. split; [exact E|].
  apply (relay_steps_are_isolated (sample_relay None) x (ARxReceive None 6 [8] sample_datagram) x' p
    (sample_config_ok None) Hr); [reflexivity|intros q Hq; discriminate Hq|exact E| | |].
  - unfold act in E. cbn [mbind option_bind sy_ctx x] in E. destruct (rx_receive None 6 [8] sample_datagram s) as [[r s']|]; [|discriminate E].
    injection E as <-. reflexivity.
  - rewrite fmap_app. apply elem_of_app. right. left.
  - rewrite fmap_app. apply elem_of_app. right. left.
Defined.
