(* ===== verification/LocalSource.v ===== *)
(** * The local source: src/apps/wire_relay/local_source.c and local_source.h

    A node that has a file to send reads it block by block, encodes every block and hands the
    shards, as wire datagrams, to an emit callback; an end datagram announces the number of blocks.
    With the Wirehair codec the file is cut into segments instead, which the blocking
    [wirehair_segment_send] sends.

    The callback with its context is a function on a context type.  An input file is the bytes
    that [fread] delivers and whether the stream then reports an error.  [clock i] is the [i]-th
    reading of [mono_ns].  [pace_block] waits and changes nothing: it is left out, as is
    [mono_seconds], which only [pace_block] needs. *)

From Stdlib Require Import Strings.Byte QArith.QArith.
From S2P Require Import Prelude WireHeader Gf256 ByteVec RsEncode Codec WireDecoder WirehairSegment.

Local Open Scope nat_scope.

Definition WIRE_MAX_HEADER_SIZE : nat := WIRE_V4_HEADER_SIZE.
Definition LOCAL_SOURCE_MAX_DATAGRAM : nat := WIRE_MAX_HEADER_SIZE + PKG_SIZE.

(** [kind == CODEC_KIND_WIREHAIR] *)
Definition is_wirehair (kind : CodecKind) : bool :=
  match kind with CODEC_KIND_WIREHAIR => true | _ => false end.

Record LocalSourceStats := mkSourceStats {
  lss_blocks : Z;
  lss_source_bytes : Z;
  lss_wire_datagrams : Z;
  lss_emit_errors : Z }.

Definition source_stats_zero : LocalSourceStats := mkSourceStats 0 0 0 0.
Definition stats_emit_error (s : LocalSourceStats) : LocalSourceStats :=
  mkSourceStats (lss_blocks s) (lss_source_bytes s) (lss_wire_datagrams s) (u64 (lss_emit_errors s + 1)).
Definition stats_datagram (s : LocalSourceStats) : LocalSourceStats :=
  mkSourceStats (lss_blocks s) (lss_source_bytes s) (u64 (lss_wire_datagrams s + 1)) (lss_emit_errors s).
(** [stats.blocks++] and the number of bytes read so far. *)
Definition stats_block (source_bytes : Z) (s : LocalSourceStats) : LocalSourceStats :=
  mkSourceStats (u64 (lss_blocks s + 1)) source_bytes (lss_wire_datagrams s) (lss_emit_errors s).

(** An open input: what is left of it, and whether an error rather than the end comes last. *)
Record InputFile := mkInput { in_data : list byte; in_error : bool }.

(** [fread(buffer, 1, n, input)] *)
Definition fread (n : nat) (input : InputFile) : list byte * InputFile :=
  (take n (in_data input), mkInput (drop n (in_data input)) (in_error input)).

Section Source.
Context `{host : HostOrder} {E : Type} (emit_fn : list byte -> E -> Z * E).

(** The header and payload in the buffer of [emit_one], before they are sent. *)
Definition packed (hdr : WireHeader) (payload : list byte) : list byte :=
  let header_size := wire_header_size hdr in
  let datagram := replicate LOCAL_SOURCE_MAX_DATAGRAM 0%Z in
  let datagram := if (wh_version hdr =? WIRE_VERSION_V4)%Z
                  then wire_header_encode_v4 datagram hdr else wire_header_encode datagram hdr in
  map Z_to_byte
    (take (header_size + length payload) (write_at datagram header_size (map byte_to_Z payload))).

Definition emit_one (hdr : WireHeader) (payload : option (list byte)) (s : LocalSourceStats) (e : E) :
    Z * LocalSourceStats * E :=
  if (wh_payload_len hdr >? Z.of_nat PKG_SIZE)%Z then ((-1)%Z, s, e)
  else
    let send (bytes : list byte) :=
      let '(rc, e) := emit_fn (packed hdr bytes) e in
      if negb (rc =? 0)%Z then ((-1)%Z, stats_emit_error s, e) else (0%Z, stats_datagram s, e) in
    if (wh_payload_len hdr >? 0)%Z then
      match payload with
      | None => ((-1)%Z, s, e)
      | Some bytes => send (take (Z.to_nat (wh_payload_len hdr)) bytes)
      end
    else send [].

Record LocalSourceConfig := mkSourceConfig {
  lsc_input_path : option (list byte);
  lsc_codec_kind : CodecKind;
  lsc_flow_id : Z;
  lsc_final_dst : Z;
  lsc_ttl : Z;
  lsc_source_rate_mbps : Q;
  lsc_wirehair : WirehairSegmentConfig;
  lsc_ack_poll : option (Z -> Z -> Z -> E -> Z * E) }.

(** ** Segments *)

Section WirehairSource.
Context `{wh : Wirehair} (once alloc_pad : bool).

Abbreviation WhCtx := (LocalSourceStats * E)%type.

(** The emit callback of the segment sender; its context is the statistics and the emit context. *)
Definition local_wirehair_emit (header : WireHeader) (payload : list byte) (c : WhCtx) : Z * WhCtx :=
  if negb (Z.of_nat (length payload) =? wh_payload_len header)%Z then ((-1)%Z, c)
  else
    let '(rc, s, e) := emit_one header (Some payload) (fst c) (snd c) in (rc, (s, e)).

Definition wirehair_poll (poll : Z -> Z -> Z -> E -> Z * E) (flow seg wait : Z) (c : WhCtx) : Z * WhCtx :=
  let '(a, e) := poll flow seg wait (snd c) in (a, (fst c, e)).

Definition wirehair_end_header (config : LocalSourceConfig) (segment_id : Z) : WireHeader :=
  mkWireHeader WIRE_VERSION_V4 WIRE_TYPE_END (lsc_final_dst config) (lsc_ttl config) (lsc_flow_id config)
    segment_id 0 0 0 0 0 0 (sc_origin_node (lsc_wirehair config))
    (if sc_ack_enabled (lsc_wirehair config) then WIRE_FLAG_ACK_REQUEST else 0%Z) 0.

(** The [for (;;)] loop and the end datagram: every turn reads at least one byte, so [turns] larger
    than the input is enough; [None] is a bound that was not. *)
Fixpoint segment_loop (config : LocalSourceConfig) (turns : nat) (input : InputFile) (segment_id : Z)
    (s : LocalSourceStats) (e : E) : option (Z * LocalSourceStats * E) :=
  match turns with
  | O => None
  | S turns =>
      let '(got, input) := fread (Z.to_nat (sc_segment_bytes (lsc_wirehair config))) input in
      if length got =? 0 then
        if in_error input then Some ((-1)%Z, s, e)
        else Some (emit_one (wirehair_end_header config segment_id) None s e)
      else
        let '(rc, _, (s, e)) :=
          wirehair_segment_send local_wirehair_emit (option_map wirehair_poll (lsc_ack_poll config))
            once alloc_pad (Some (lsc_wirehair config)) (lsc_flow_id config) segment_id
            (lsc_final_dst config) (lsc_ttl config) (Some got) (s, e) in
        if negb (rc =? 0)%Z then Some ((-1)%Z, s, e)
        else
          segment_loop config turns input (u64 (segment_id + 1))
            (stats_block (u64 (lss_source_bytes s + Z.of_nat (length got))) s) e
  end.

(** [fopen] gives the input, [malloc_ok] says whether the segment buffer is allocated. *)
Definition local_wirehair_source_run (fopen : option InputFile) (malloc_ok : bool)
    (config : LocalSourceConfig) (s : LocalSourceStats) (e : E) : option (Z * LocalSourceStats * E) :=
  if negb (wirehair_segment_config_valid (Some (lsc_wirehair config))) then Some ((-1)%Z, s, e)
  else
    match fopen with
    | Some input => if negb malloc_ok then Some ((-1)%Z, s, e)
                    else segment_loop config (S (length (in_data input))) input 0 s e
    | None => Some ((-1)%Z, s, e)
    end.

(** ** Blocks *)

Context {St : Type} (Codec_get : CodecKind -> option (CodecVTable St)) (clock : nat -> Z).

Definition data_header (config : LocalSourceConfig) (block_id : Z) (shard shard_count got : nat)
    (encode_begin_ns encode_end_ns : Z) : WireHeader :=
  mkWireHeader 0 WIRE_TYPE_DATA (lsc_final_dst config) (lsc_ttl config) (lsc_flow_id config) block_id
    (u16 (Z.of_nat shard)) (u16 (Z.of_nat shard_count)) (u16 (Z.of_nat got)) (Z.of_nat PKG_SIZE)
    encode_begin_ns encode_end_ns 0 0 0.

Definition end_header (config : LocalSourceConfig) (block_id : Z) (shard_count : nat) : WireHeader :=
  mkWireHeader 0 WIRE_TYPE_END (lsc_final_dst config) (lsc_ttl config) (lsc_flow_id config) block_id
    0 (u16 (Z.of_nat shard_count)) 0 0 0 0 0 0 0.

(** The loop over the shards of a block: [todo] are left, [shard] is the next. *)
Fixpoint shard_loop (header : nat -> WireHeader) (block : list byte) (todo shard : nat)
    (s : LocalSourceStats) (e : E) : Z * LocalSourceStats * E :=
  match todo with
  | O => (0%Z, s, e)
  | S todo =>
      let '(rc, s, e) := emit_one (header shard) (Some (drop (shard * PKG_SIZE) block)) s e in
      if negb (rc =? 0)%Z then ((-1)%Z, s, e) else shard_loop header block todo (S shard) s e
  end.

(** The [for (;;)] loop and the end datagram, as in [segment_loop]; [ticks] counts the readings of
    the clock.  [None] is also an encoder that gives no block back. *)
Fixpoint block_loop (config : LocalSourceConfig) (codec : option (CodecVTable St))
    (input_size output_size shard_count turns : nat) (input : InputFile) (block_id source_bytes : Z)
    (ticks : nat) (st : St) (s : LocalSourceStats) (e : E) : option (Z * St * LocalSourceStats * E) :=
  match turns with
  | O => None
  | S turns =>
      let '(got, input) := fread input_size input in
      if length got =? 0 then
        if in_error input then Some ((-1)%Z, st, s, e)
        else
          let '(rc, s, e) := emit_one (end_header config block_id shard_count) None s e in
          Some (rc, st, s, e)
      else
        let block := got ++ replicate (output_size - length got) x00 in
        match Codec_encode codec st (Some block) output_size with
        | (None, _) => None
        | (Some block, st) =>
            let header shard := data_header config block_id shard shard_count (length got)
                                  (clock ticks) (clock (S ticks)) in
            let '(rc, s, e) := shard_loop header block shard_count 0 s e in
            if negb (rc =? 0)%Z then Some ((-1)%Z, st, s, e)
            else
              let source_bytes := u64 (source_bytes + Z.of_nat (length got)) in
              block_loop config codec input_size output_size shard_count turns input
                (u64 (block_id + 1)) source_bytes (S (S ticks)) st (stats_block source_bytes s) e
        end
  end.

(** The part of [local_source_run] for a codec that is not Wirehair. *)
Definition block_source_run (fopen : option InputFile) (malloc_ok : bool) (config : LocalSourceConfig)
    (codec : option (CodecVTable St)) (stats_out : LocalSourceStats) (st : St) (e : E) :
    option (Z * St * LocalSourceStats * E) :=
  match codec with
  | None => Some ((-1)%Z, st, stats_out, e)
  | Some _ =>
      let '(input_size, st) := Codec_input_block_size codec st in
      let '(output_size, st) := Codec_output_block_size codec st in
      if (input_size =? 0) || (output_size =? 0) || (CODEC_MAX_ENCODE_BLOCK <? Z.of_nat output_size)%Z ||
         negb (output_size mod PKG_SIZE =? 0)
      then Some ((-1)%Z, st, stats_out, e)
      else
        let shard_count := output_size / PKG_SIZE in
        if negb malloc_ok then Some ((-1)%Z, st, stats_out, e)
        else
          match fopen with
          | None => Some ((-1)%Z, st, stats_out, e)
          | Some input =>
              block_loop config codec input_size output_size shard_count
                (S (length (in_data input))) input 0 0 0 st source_stats_zero e
          end
  end.

(** [local_source_run]: the result, the state of the codec, [*stats_out] and the emit context.
    The early returns leave [*stats_out] as it was. *)
Definition local_source_run (fopen : option InputFile) (malloc_ok : bool) (config : LocalSourceConfig)
    (stats_out : LocalSourceStats) (st : St) (e : E) : option (Z * St * LocalSourceStats * E) :=
  if negb (bool_decide (is_Some (lsc_input_path config))) || (lsc_final_dst config =? 0)%Z ||
     (lsc_ttl config =? 0)%Z || negb (Qle_bool 0 (lsc_source_rate_mbps config))
  then Some ((-1)%Z, st, stats_out, e)
  else if is_wirehair (lsc_codec_kind config) then
    match local_wirehair_source_run fopen malloc_ok config source_stats_zero e with
    | None => None
    | Some (rc, s, e) => Some (rc, st, s, e)
    end
  else block_source_run fopen malloc_ok config (Codec_get (lsc_codec_kind config)) stats_out st e.

End WirehairSource.
End Source.

(** * What the source emits *)

#[local] Opaque PKG_SIZE.

(** What the source relies on: encoding gives a code word that starts with the data. *)
Class EncodingCodec {St : Type} (codec : option (CodecVTable St)) (ok : St -> Prop) (k r : nat)
    (code : list byte -> Prop) : Prop := {
  en_output st : ok st -> Codec_output_block_size codec st = ((k + r) * PKG_SIZE, st);
  en_encode st d :
    ok st -> length d = (k + r) * PKG_SIZE ->
    exists e st',
      Codec_encode codec st (Some d) ((k + r) * PKG_SIZE) = (Some e, st') /\ ok st' /\ code e /\
      take (k * PKG_SIZE) e = take (k * PKG_SIZE) d }.

(** ** The blocks of a file *)

Fixpoint cut (turns n : nat) (l : list byte) : list (list byte) :=
  match turns, l with
  | S turns, _ :: _ => take n l :: cut turns n (drop n l)
  | _, _ => []
  end.

Definition source_blocks (n : nat) (data : list byte) : list (list byte) := cut (length data) n data.

Lemma cut_enough turns turns' n l :
  0 < n -> length l <= turns -> length l <= turns' -> cut turns n l = cut turns' n l.
Proof.
  intros Hn. revert turns' l. induction turns as [|turns IH]; intros turns' l H1 H2.
  { destruct l; [|cbn in H1; lia]. by destruct turns'. }
  destruct l as [|b l]; [by destruct turns'|]. destruct turns' as [|turns']; [cbn in H2; lia|].
  cbn [cut]. f_equal. apply IH; rewrite length_drop; cbn in *; lia.
Qed.

Lemma source_blocks_cons n l :
  0 < n -> l <> [] -> source_blocks n l = take n l :: source_blocks n (drop n l).
Proof.
  intros Hn Hl. unfold source_blocks. destruct l as [|b l]; [done|]. cbn [length cut]. f_equal.
  apply cut_enough; [done| |done]. rewrite length_drop. cbn. lia.
Qed.

Lemma source_blocks_spec n l :
  0 < n ->
  concat (source_blocks n l) = l /\ Forall (fun b => 1 <= length b <= n) (source_blocks n l).
Proof.
  intros Hn. remember (length l) as m eqn:Hm. revert l Hm.
  induction (lt_wf m) as [m _ IH]; intros l ->. destruct (decide (l = [])) as [->|Hl]; [by split|].
  rewrite source_blocks_cons by done. assert (0 < length l) by (destruct l; [done|cbn; lia]).
  destruct (IH (length (drop n l)) ltac:(rewrite length_drop; lia) _ eq_refl) as [H1 H2].
  cbn [concat]. rewrite H1, take_drop. split; [done|]. constructor; [|done]. rewrite length_take. lia.
Qed.

(** Blocks that are not empty are no more than the bytes. *)
Lemma concat_count (l : list (list byte)) : Forall (fun b => 1 <= length b) l -> length l <= length (concat l).
Proof. induction 1 as [|b l Hb _ IH]; cbn; [lia|]. rewrite length_app. lia. Qed.

(** A code word that carries [b]. *)
Definition word_of (code : list byte -> Prop) (b w : list byte) : Prop := code w /\ take (length b) w = b.

(** ** Datagrams *)

Section Emits.
Context `{host : HostOrder} {E : Type} (emit_fn : list byte -> E -> Z * E).

(** The buffer that is sent: the header and the payload. *)
Lemma packed_v3 hdr payload :
  wh_version hdr <> WIRE_VERSION_V4 -> length payload <= PKG_SIZE ->
  packed hdr payload = map Z_to_byte (base_bytes hdr WIRE_VERSION_V3) ++ payload.
Proof.
  intros Hv Hl. unfold packed, wire_header_size. rewrite (proj2 (Z.eqb_neq _ _)) by done.
  unfold wire_header_encode. rewrite encode_base_bytes by (rewrite length_replicate; unfold LOCAL_SOURCE_MAX_DATAGRAM,
    WIRE_MAX_HEADER_SIZE, WIRE_V4_HEADER_SIZE, WIRE_HEADER_SIZE; lia).
  set (base := base_bytes hdr WIRE_VERSION_V3). assert (Hb : length base = 44) by apply length_base_bytes.
  set (rest := drop _ (replicate _ _)). assert (Hr : PKG_SIZE + 8 = length rest).
  { unfold rest. rewrite length_drop, length_replicate. unfold LOCAL_SOURCE_MAX_DATAGRAM, WIRE_MAX_HEADER_SIZE,
      WIRE_V4_HEADER_SIZE, WIRE_HEADER_SIZE. lia. }
  unfold write_at. change WIRE_HEADER_SIZE with 44.
  rewrite (take_app_length' base rest), app_assoc, take_app_length' by (rewrite ?length_app, ?length_map; lia).
  rewrite List.map_app. f_equal. rewrite map_map. clear. induction payload as [|b l IH]; [done|]. cbn. by rewrite IH, Z_to_byte_to_Z.
Qed.

Lemma packed_v4 hdr payload :
  wh_version hdr = WIRE_VERSION_V4 -> length payload <= PKG_SIZE ->
  packed hdr payload = map Z_to_byte (v4_bytes hdr) ++ payload.
Proof.
  intros Hv Hl. unfold packed, wire_header_size. rewrite Hv, Z.eqb_refl.
  rewrite encode_v4_bytes by (rewrite length_replicate; unfold LOCAL_SOURCE_MAX_DATAGRAM,
    WIRE_MAX_HEADER_SIZE, WIRE_V4_HEADER_SIZE, WIRE_HEADER_SIZE; lia).
  set (base := v4_bytes hdr). assert (Hb : length base = 52).
  { unfold base, v4_bytes. rewrite !length_app, length_base_bytes, !length_be_bytes. done. }
  set (rest := drop _ (replicate _ _)). assert (Hr : PKG_SIZE = length rest).
  { unfold rest. rewrite length_drop, length_replicate. unfold LOCAL_SOURCE_MAX_DATAGRAM, WIRE_MAX_HEADER_SIZE,
      WIRE_V4_HEADER_SIZE, WIRE_HEADER_SIZE. lia. }
  unfold write_at. change WIRE_V4_HEADER_SIZE with 52.
  rewrite (take_app_length' base rest), app_assoc, take_app_length' by (rewrite ?length_app, ?length_map; lia).
  rewrite List.map_app. f_equal. rewrite map_map. clear. induction payload as [|b l IH]; [done|]. cbn. by rewrite IH, Z_to_byte_to_Z.
Qed.

End Emits.

(** ** Runs of the source

    [log] is what the emit callback has taken, in order; a call that fails takes nothing. *)

Section Log.
Context `{host : HostOrder} {E : Type} (emit_fn : list byte -> E -> Z * E) (log : E -> list (list byte)).
Context (Hlog : forall d e rc e', emit_fn d e = (rc, e') -> log e' = if (rc =? 0)%Z then log e ++ [d] else log e).

(** The callback does not fail. *)
Definition emits_all : Prop := forall d e, fst (emit_fn d e) = 0%Z.

(** A part of the source that has [ds] to emit: it emits all of them, or some and fails. *)
Definition sends (ds : list (list byte)) (e : E) (rc : Z) (e' : E) : Prop :=
  exists sent, log e' = log e ++ sent /\ sent `prefix_of` ds /\
    (rc = 0%Z /\ sent = ds \/ rc = (-1)%Z /\ ~ emits_all).

Lemma sends_nil e : sends [] e 0 e.
Proof using Type. exists []. rewrite app_nil_r. split; [done|]. split; [done|]. by left. Qed.

Lemma sends_more ds ds' e rc e' : sends ds e rc e' -> rc <> 0%Z -> sends (ds ++ ds') e (-1) e'.
Proof using Type.
  intros (sent & H1 & H2 & H3) Hrc. exists sent. split; [done|]. split; [by apply prefix_app_r|].
  destruct H3 as [[? _]|[_ ?]]; [done|]. by right.
Qed.

Lemma sends_app ds ds' e e1 rc e' : sends ds e 0 e1 -> sends ds' e1 rc e' -> sends (ds ++ ds') e rc e'.
Proof using Type.
  intros (s1 & H1 & _ & H2) (s2 & G1 & G2 & G3). destruct H2 as [[_ ->]|[? _]]; [|done].
  exists (ds ++ s2). rewrite G1, H1, app_assoc. split; [done|]. split; [by apply prefix_app|].
  destruct G3 as [[-> ->]|[-> ?]]; [by left|by right].
Qed.

Lemma sends_result ds e rc e' : sends ds e rc e' -> rc = 0%Z \/ rc = (-1)%Z.
Proof using Type. intros (? & _ & _ & [[? _]|[? _]]); auto. Qed.

Lemma emit_one_sends hdr payload bytes s e :
  (0 <= wh_payload_len hdr <= Z.of_nat PKG_SIZE)%Z ->
  ((wh_payload_len hdr > 0)%Z -> exists p, payload = Some p /\ bytes = take (Z.to_nat (wh_payload_len hdr)) p) ->
  (wh_payload_len hdr = 0%Z -> bytes = []) ->
  exists rc s' e', emit_one emit_fn hdr payload s e = (rc, s', e') /\ sends [packed hdr bytes] e rc e'.
Proof using Hlog.
  intros Hl Hp H0. unfold emit_one. rewrite Z.gtb_ltb, (proj2 (Z.ltb_ge _ _)) by lia.
  assert (Hsend : forall s, exists rc s' e', (let '(rc, e) := emit_fn (packed hdr bytes) e in
    if negb (rc =? 0)%Z then ((-1)%Z, stats_emit_error s, e) else (0%Z, stats_datagram s, e)) = (rc, s', e') /\
    sends [packed hdr bytes] e rc e').
  { intros s0. pose proof (Hlog (packed hdr bytes) e) as Hlg.
    assert (Hall : emits_all -> fst (emit_fn (packed hdr bytes) e) = 0%Z) by (intros Ha; apply Ha).
    destruct (emit_fn (packed hdr bytes) e) as [rc e'].
    specialize (Hlg rc e' eq_refl). destruct (Z.eqb_spec rc 0) as [->|Hrc]; cbn [negb]; do 3 eexists; (split; [done|]).
    - exists [packed hdr bytes]. split; [done|]. split; [done|]. by left.
    - exists []. rewrite app_nil_r. split; [done|]. split; [apply prefix_nil|]. right. split; [done|]. intros Ha. by apply Hrc, Hall. }
  rewrite Z.gtb_ltb. destruct (Z.ltb_spec 0 (wh_payload_len hdr)) as [Hpos|Hz].
  - destruct Hp as (p & -> & ->); [lia|]. apply Hsend.
  - rewrite H0 in * by lia. apply Hsend.
Qed.

(** ** Blocks *)

Abbreviation Config := (@LocalSourceConfig E).
Context (clock : nat -> Z).

(** Shard [j] of a code word. *)
Definition shard_of_word (w : list byte) (j : nat) : list byte := take PKG_SIZE (drop (j * PKG_SIZE) w).

Definition data_datagram (config : Config) (n i : nat) (chunk w : list byte) (j : nat) : list byte :=
  packed (data_header config (Z.of_nat i) j n (length chunk) (clock (2 * i)) (clock (S (2 * i)))) (shard_of_word w j).
Definition end_datagram (config : Config) (n i : nat) : list byte := packed (end_header config (Z.of_nat i) n) [].

(** The datagrams of the blocks from number [i] on, and the end. *)
Fixpoint stream_datagrams (config : Config) (n i : nat) (l : list (list byte * list byte)) : list (list byte) :=
  match l with
  | [] => [end_datagram config n i]
  | (chunk, w) :: l => map (data_datagram config n i chunk w) (seq 0 n) ++ stream_datagrams config n (S i) l
  end.

Lemma shard_loop_sends header block todo shard s e :
  (forall j, wh_payload_len (header j) = Z.of_nat PKG_SIZE) ->
  exists rc s' e', shard_loop emit_fn header block todo shard s e = (rc, s', e') /\
    sends (map (fun j => packed (header j) (shard_of_word block j)) (seq shard todo)) e rc e'.
Proof using Hlog.
  intros Hh. revert shard s e. induction todo as [|todo IH]; intros shard s e; cbn [shard_loop seq map].
  { do 3 eexists. split; [done|]. apply sends_nil. }
  destruct (emit_one_sends (header shard) (Some (drop (shard * PKG_SIZE) block)) (shard_of_word block shard) s e)
    as (rc & s1 & e1 & -> & H1).
  { rewrite Hh. lia. }
  { intros _. eexists. split; [done|]. by rewrite Hh, Nat2Z.id. }
  { rewrite Hh. intros H0. unfold shard_of_word. by replace PKG_SIZE with 0 by lia. }
  destruct (Z.eqb_spec rc 0) as [->|Hrc]; cbn [negb].
  - destruct (IH (S shard) s1 e1) as (rc & s2 & e2 & -> & H2). do 3 eexists. split; [done|].
    by apply (sends_app [_] _ e e1).
  - do 3 eexists. split; [done|]. by apply (sends_more [_] _ _ rc).
Qed.

Context {St : Type} (codec : option (CodecVTable St)) (ok : St -> Prop) (k r : nat).
Context (code : list byte -> Prop) (EN : EncodingCodec codec ok k r code) (Hk : 1 <= k) (Hpkg : 0 < PKG_SIZE).

Abbreviation blocks data := (source_blocks (k * PKG_SIZE) data).
Abbreviation padded b := (b ++ replicate ((k + r) * PKG_SIZE - length b) x00).

Lemma encode_block st b :
  ok st -> length b <= k * PKG_SIZE ->
  exists w st', Codec_encode codec st (Some (padded b)) ((k + r) * PKG_SIZE) = (Some w, st') /\ ok st' /\ word_of code b w.
Proof using EN Hk Hpkg.
  intros Hst Hb. assert (Hn : k * PKG_SIZE <= (k + r) * PKG_SIZE) by nia.
  destruct (en_encode (EncodingCodec := EN) st (padded b) Hst) as (w & st' & H1 & H2 & H3 & H4).
  { rewrite length_app, length_replicate. lia. }
  exists w, st'. split; [done|]. split; [done|]. split; [done|].
  rewrite <- (Nat.min_l (length b) (k * PKG_SIZE)) by done. rewrite <- !take_take, H4, take_take, Nat.min_l by done.
  by rewrite take_app_length.
Qed.

Lemma words_exist st l :
  ok st -> Forall (fun b => 1 <= length b <= k * PKG_SIZE) l -> exists words, Forall2 (word_of code) l words.
Proof using EN Hk Hpkg.
  intros Hst Hl. induction Hl as [|b l [_ Hb] _ IH]; [by exists []|]. destruct IH as [ws IH].
  destruct (encode_block st b Hst Hb) as (w & _ & _ & _ & Hw). exists (w :: ws). by constructor.
Qed.

Lemma block_loop_sends config turns input i bytes st s e :
  ok st -> length (in_data input) < turns -> (Z.of_nat i + Z.of_nat (length (in_data input)) < 2 ^ 64)%Z ->
  exists words rc st' s' e',
    block_loop emit_fn clock config codec (k * PKG_SIZE) ((k + r) * PKG_SIZE) (k + r) turns input (Z.of_nat i) bytes
      (2 * i) st s e = Some (rc, st', s', e') /\ ok st' /\
    Forall2 (word_of code) (blocks (in_data input)) words /\
    let ds := stream_datagrams config (k + r) i (zip (blocks (in_data input)) words) in
    if in_error input then exists sent, log e' = log e ++ sent /\ sent `prefix_of` ds /\ rc = (-1)%Z
    else sends ds e rc e'.
Proof using EN Hk Hlog Hpkg.
  assert (Hn : 0 < k * PKG_SIZE) by nia.
  revert input i bytes st s e. induction turns as [|turns IH]; intros [data err] i bytes st s e Hst Hturns Hid; [lia|].
  cbn [in_data in_error] in *. cbn [block_loop fread in_data in_error]. destruct (decide (data = [])) as [->|Hne].
  { rewrite take_nil. cbn [length Nat.eqb]. destruct err.
    - exists [], (-1)%Z, st, s, e. split; [done|]. split; [done|]. split; [constructor|]. exists [].
      rewrite app_nil_r. split; [done|]. split; [apply prefix_nil|done].
    - destruct (emit_one_sends (end_header config (Z.of_nat i) (k + r)) None [] s e) as (rc & s1 & e1 & -> & H1);
        [split; [done|apply Nat2Z.is_nonneg]|by intros Hx|done|].
      exists [], rc, st, s1, e1. split; [done|]. split; [done|]. split; [constructor|]. done. }
  assert (Hlen : 0 < length data) by (destruct data; [done|cbn; lia]).
  assert (Hgot : length (take (k * PKG_SIZE) data) <> 0) by (rewrite length_take; lia).
  rewrite (proj2 (Nat.eqb_neq _ _)) by done. rewrite source_blocks_cons by done.
  set (b := take (k * PKG_SIZE) data) in *. assert (Hb : length b <= k * PKG_SIZE) by (unfold b; rewrite length_take; lia).
  destruct (encode_block st b Hst Hb) as (w & st1 & -> & Hst1 & Hw).
  destruct (shard_loop_sends (fun shard => data_header config (Z.of_nat i) shard (k + r) (length b) (clock (2 * i)) (clock (S (2 * i))))
              w (k + r) 0 s e) as (rc & s1 & e1 & -> & H1); [done|].
  assert (Hd : length (drop (k * PKG_SIZE) data) < length data) by (rewrite length_drop; lia).
  destruct (Z.eqb_spec rc 0) as [->|Hrc]; cbn [negb].
  - replace (u64 (Z.of_nat i + 1)) with (Z.of_nat (S i)) by (unfold u64; rewrite uwrap_small; [lia|]; unfold in_range; lia).
    replace (S (S (2 * i))) with (2 * S i) by lia.
    destruct (IH (mkInput (drop (k * PKG_SIZE) data) err) (S i) (u64 (bytes + Z.of_nat (length b))) st1
                (stats_block (u64 (bytes + Z.of_nat (length b))) s1) e1) as (ws & rc & st2 & s2 & e2 & -> & Hst2 & Hws & H2);
      [done|cbn; lia|cbn; lia|].
    exists (w :: ws), rc, st2, s2, e2. split; [done|]. split; [done|]. split; [by constructor|].
    cbn [in_data in_error zip_with stream_datagrams] in *. destruct err.
    + destruct H1 as (sent1 & L1 & _ & [[_ ->]|[? _]]); [|done]. destruct H2 as (sent2 & L2 & P2 & ->).
      eexists (_ ++ sent2). rewrite L2, L1, app_assoc. split; [done|]. split; [|done]. by apply prefix_app.
    + by eapply sends_app.
  - destruct (words_exist st1 (source_blocks (k * PKG_SIZE) (drop (k * PKG_SIZE) data)) Hst1) as [ws Hws].
    { by apply source_blocks_spec. }
    exists (w :: ws), (-1)%Z, st1, s1, e1. split; [done|]. split; [done|]. split; [by constructor|].
    cbn [zip_with stream_datagrams]. destruct err.
    + destruct H1 as (sent1 & L1 & P1 & _). exists sent1. split; [done|]. split; [by apply prefix_app_r|done].
    + by eapply sends_more.
Qed.

End Log.
