(* ===== verification/LocalDecode.v ===== *)
(** * The local decoder: src/apps/wire_relay/local_decode.c and local_decode.h

    A relay hands the datagrams addressed to its node to a hub of up to eight flows.  The hub binds
    a new flow id to a free slot, opens the file of the flow, gives it a decoder of
    wire_flow_decoder.c or a receiver of wirehair_segment.c and feeds the datagrams to it.  All
    flows share the codec, whose state is threaded through the calls.

    Every function that takes [hub->mu] is one critical section.  Files are numbered as they are
    opened, [io_open] are those that are open; [lf_written] are the pieces passed to the output
    callback of a flow.  Results of the C library are arguments: [fopen_ok] of a path, [write_ok f n]
    of the [n]-th [fwrite] and [fflush] for flow [f], [sendto n] of the calls of [sendto] for the
    [n]-th acknowledgement, allocations, [stat], [getaddrinfo] and [socket]. *)

From Stdlib Require Import Strings.Byte Strings.String.
From S2P Require Import Prelude WireHeader Gf256 ByteVec RsEncode Codec WireDecoder.
From S2P Require Import WirehairSegment WirehairReceiver LocalSource.

Local Open Scope nat_scope.
Local Open Scope list_scope.

Definition RELAY_MAX_FLOWS : nat := 8.
(** [PATH_MAX] *)
Definition LOCAL_DECODE_PATH_MAX : nat := 4096.
(** [sizeof(struct sockaddr_storage)] *)
Definition SOCKADDR_STORAGE_SIZE : Z := 128.

Inductive LocalDecodeMode := LOCAL_DECODE_MODE_SINGLE_FILE | LOCAL_DECODE_MODE_OUTPUT_DIR.

#[export] Instance LocalDecodeMode_eq_dec : EqDecision LocalDecodeMode.
Proof. solve_decision. Defined.

Record LocalDecodeHubStats := mkHubStats {
  hs_delivered : Z;
  hs_metadata_mismatch : Z;
  hs_flow_rejected : Z;
  hs_ingest_error : Z }.

Definition hub_stats_zero : LocalDecodeHubStats := mkHubStats 0 0 0 0.
Definition hs_count_delivered (s : LocalDecodeHubStats) : LocalDecodeHubStats :=
  mkHubStats (u64 (hs_delivered s + 1)) (hs_metadata_mismatch s) (hs_flow_rejected s) (hs_ingest_error s).
Definition hs_count_mismatch (s : LocalDecodeHubStats) : LocalDecodeHubStats :=
  mkHubStats (hs_delivered s) (u64 (hs_metadata_mismatch s + 1)) (hs_flow_rejected s) (hs_ingest_error s).
Definition hs_count_rejected (s : LocalDecodeHubStats) : LocalDecodeHubStats :=
  mkHubStats (hs_delivered s) (hs_metadata_mismatch s) (u64 (hs_flow_rejected s + 1)) (hs_ingest_error s).
Definition hs_count_error (s : LocalDecodeHubStats) : LocalDecodeHubStats :=
  mkHubStats (hs_delivered s) (hs_metadata_mismatch s) (hs_flow_rejected s) (u64 (hs_ingest_error s + 1)).

(** What the process has open on behalf of the hub: files by number, with their paths, sockets, and
    the acknowledgements handed to [sendto].  [io_foreign] are descriptors that were closed without
    having been opened. *)
Record HubIo := mkHubIo {
  io_next : nat;
  io_open : list (nat * list byte);
  io_socks : list Z;
  io_acks : list (list byte);
  io_foreign : list Z }.

Definition io_with_open (l : list (nat * list byte)) (io : HubIo) : HubIo :=
  mkHubIo (io_next io) l (io_socks io) (io_acks io) (io_foreign io).
Definition io_with_acks (l : list (list byte)) (io : HubIo) : HubIo :=
  mkHubIo (io_next io) (io_open io) (io_socks io) l (io_foreign io).

(** [fopen(path, "wb")]: the number of the file. *)
Definition fopen (fopen_ok : list byte -> bool) (path : list byte) (io : HubIo) : option nat * HubIo :=
  if fopen_ok path
  then (Some (io_next io),
        mkHubIo (S (io_next io)) (io_open io ++ [(io_next io, path)]) (io_socks io) (io_acks io) (io_foreign io))
  else (None, io).

(** [fclose] of a file that is open; of any other it is undefined. *)
Definition fclose (file : nat) (io : HubIo) : option HubIo :=
  if existsb (fun f => fst f =? file) (io_open io)
  then Some (io_with_open (List.filter (fun f => negb (fst f =? file)) (io_open io)) io)
  else None.

Definition close_fd (fd : Z) (io : HubIo) : HubIo :=
  if existsb (Z.eqb fd) (io_socks io)
  then mkHubIo (io_next io) (io_open io) (List.filter (fun s => negb (Z.eqb fd s)) (io_socks io)) (io_acks io)
         (io_foreign io)
  else mkHubIo (io_next io) (io_open io) (io_socks io) (io_acks io) (fd :: io_foreign io).

(** A [FILE *] of a flow: one the caller gave, or one the hub opened. *)
Inductive OutputFile := FILE_GIVEN | FILE_OPENED (file : nat).

(** ** Paths *)

(** [snprintf] of a [%u]: ten digits are enough for 32 bits. *)
Fixpoint decimal_digits (turns : nat) (n : Z) : list byte :=
  match turns with
  | O => []
  | S turns =>
      if (n <? 10)%Z then [Z_to_byte (48 + n)]
      else decimal_digits turns (n / 10) ++ [Z_to_byte (48 + n mod 10)]
  end.
Definition decimal (n : Z) : list byte := decimal_digits 10 n.

Definition flow_path (output_dir : list byte) (flow_id : Z) : list byte :=
  output_dir ++ list_byte_of_string "/flow_" ++ decimal flow_id ++ list_byte_of_string ".bin".

(** [is_dir] is what [stat] says of a path: [None] is a failure. *)
Definition validate_output_dir (is_dir : list byte -> option bool) (dir : option (list byte)) : Z :=
  match dir with
  | None => -1
  | Some dir =>
      if length dir =? 0 then -1
      else match is_dir dir with Some true => 0 | _ => -1 end
  end.

Inductive SendtoResult := SENDTO_SENT (n : Z) | SENDTO_EINTR | SENDTO_ERROR.

(** [do sent = sendto(...); while (sent < 0 && errno == EINTR)]: [results] are the results up to one
    that is not EINTR. *)
Fixpoint sendto_loop (results : list SendtoResult) : Z :=
  match results with
  | [] => -1
  | SENDTO_EINTR :: results => sendto_loop results
  | SENDTO_SENT n :: _ => n
  | SENDTO_ERROR :: _ => -1
  end.

Section Hub.
Context `{host : HostOrder} `{wh : Wirehair} {St : Type}.
Context (fopen_ok : list byte -> bool) (write_ok : Z -> nat -> bool) (sendto : nat -> list SendtoResult).
Context (clock : nat -> Z) (realloc_ok once : bool).

Record LocalDecodeFlow := mkFlow {
  lf_active : bool;
  lf_flow_id : Z;
  lf_output : option OutputFile;
  lf_close_output : bool;
  lf_dec : option (WireFlowDecoder St);
  lf_wirehair_dec : option WirehairSegmentReceiver;
  lf_delivered : Z;
  lf_metadata_mismatch : Z;
  lf_ingest_error : Z;
  lf_written : list (list byte) }.

Definition flow_zero : LocalDecodeFlow := mkFlow false 0 None false None None 0 0 0 [].

Record LocalDecodeHub := mkHub {
  lh_local_node_id : Z;
  lh_codec : option (CodecVTable St);
  lh_expected_shards : Z;
  lh_input_size : nat;
  lh_best_effort : bool;
  lh_wirehair_mode : bool;
  lh_wirehair : WirehairSegmentConfig;
  lh_ack_sock : Z;
  lh_ack_target_len : Z;
  lh_mode : option LocalDecodeMode;
  lh_output_dir : list byte;
  lh_single_output : option OutputFile;
  lh_single_close_output : bool;
  lh_flows : list LocalDecodeFlow;
  lh_stats : LocalDecodeHubStats;
  lh_mu_inited : bool }.

Definition config_zero : WirehairSegmentConfig := mkSegmentConfig 0 0 0 false 0 0.

(** The hub after [memset] with zeros. *)
Definition hub_zero : LocalDecodeHub :=
  mkHub 0 None 0 0 false false config_zero 0 0 None [] None false (replicate RELAY_MAX_FLOWS flow_zero)
    hub_stats_zero false.

Definition hub_with_flows (flows : list LocalDecodeFlow) (h : LocalDecodeHub) : LocalDecodeHub :=
  mkHub (lh_local_node_id h) (lh_codec h) (lh_expected_shards h) (lh_input_size h) (lh_best_effort h)
    (lh_wirehair_mode h) (lh_wirehair h) (lh_ack_sock h) (lh_ack_target_len h) (lh_mode h) (lh_output_dir h)
    (lh_single_output h) (lh_single_close_output h) flows (lh_stats h) (lh_mu_inited h).
Definition hub_with_stats (s : LocalDecodeHubStats) (h : LocalDecodeHub) : LocalDecodeHub :=
  mkHub (lh_local_node_id h) (lh_codec h) (lh_expected_shards h) (lh_input_size h) (lh_best_effort h)
    (lh_wirehair_mode h) (lh_wirehair h) (lh_ack_sock h) (lh_ack_target_len h) (lh_mode h) (lh_output_dir h)
    (lh_single_output h) (lh_single_close_output h) (lh_flows h) s (lh_mu_inited h).
Definition hub_with_ack (sock target_len : Z) (h : LocalDecodeHub) : LocalDecodeHub :=
  mkHub (lh_local_node_id h) (lh_codec h) (lh_expected_shards h) (lh_input_size h) (lh_best_effort h)
    (lh_wirehair_mode h) (lh_wirehair h) sock target_len (lh_mode h) (lh_output_dir h)
    (lh_single_output h) (lh_single_close_output h) (lh_flows h) (lh_stats h) (lh_mu_inited h).
Definition hub_with_codec (codec : option (CodecVTable St)) (expected : Z) (input_size : nat) (best_effort : bool)
    (h : LocalDecodeHub) : LocalDecodeHub :=
  mkHub (lh_local_node_id h) codec expected input_size best_effort
    (lh_wirehair_mode h) (lh_wirehair h) (lh_ack_sock h) (lh_ack_target_len h) (lh_mode h) (lh_output_dir h)
    (lh_single_output h) (lh_single_close_output h) (lh_flows h) (lh_stats h) (lh_mu_inited h).
Definition hub_with_output (dir : list byte) (single : option OutputFile) (close : bool) (h : LocalDecodeHub) :
    LocalDecodeHub :=
  mkHub (lh_local_node_id h) (lh_codec h) (lh_expected_shards h) (lh_input_size h) (lh_best_effort h)
    (lh_wirehair_mode h) (lh_wirehair h) (lh_ack_sock h) (lh_ack_target_len h) (lh_mode h) dir single close
    (lh_flows h) (lh_stats h) (lh_mu_inited h).

Definition hub_set_flow (i : nat) (f : LocalDecodeFlow) (h : LocalDecodeHub) : LocalDecodeHub :=
  hub_with_flows (<[i := f]> (lh_flows h)) h.
Definition hub_flow (h : LocalDecodeHub) (i : nat) : LocalDecodeFlow := nth i (lh_flows h) flow_zero.

(** ** Callbacks *)

(** [local_decode_file_output] for a flow with an open file: what is written is appended. *)
Definition local_decode_file_output (flow_id : Z) (data : list byte) (written : list (list byte)) :
    Z * list (list byte) :=
  (if write_ok flow_id (length written) then 0%Z else (-1)%Z, written ++ [data]).

Definition local_decode_ack_output (h : LocalDecodeHub) (ack : WireHeader) (acks : list (list byte)) :
    Z * list (list byte) :=
  if (lh_ack_sock h <? 0)%Z || (lh_ack_target_len h =? 0)%Z then ((-1)%Z, acks)
  else
    let datagram := map Z_to_byte (wire_header_encode_v4 (replicate WIRE_V4_HEADER_SIZE 0%Z) ack) in
    let sent := sendto_loop (sendto (length acks)) in
    (if (sent =? Z.of_nat WIRE_V4_HEADER_SIZE)%Z then 0%Z else (-1)%Z, acks ++ [datagram]).

(** The context of a receiver: the file of its flow and the acknowledgements of the hub. *)
Definition RecvCtx : Type := list (list byte) * list (list byte).
Definition receiver_output (flow_id : Z) (data : list byte) (c : RecvCtx) : Z * RecvCtx :=
  let '(rc, written) := local_decode_file_output flow_id data (fst c) in (rc, (written, snd c)).
Definition receiver_ack (h : LocalDecodeHub) : option (WireHeader -> RecvCtx -> Z * RecvCtx) :=
  if sc_ack_enabled (lh_wirehair h)
  then Some (fun ack c => let '(rc, acks) := local_decode_ack_output h ack (snd c) in (rc, (fst c, acks)))
  else None.

(** [addrs]: what [getaddrinfo] returns, the length of each address and the result of [socket]. *)
Fixpoint ack_target_loop (addrs : list (Z * Z)) (h : LocalDecodeHub) (io : HubIo) : Z * LocalDecodeHub * HubIo :=
  match addrs with
  | [] => ((-1)%Z, h, io)
  | (addrlen, sock) :: addrs =>
      if (addrlen >? SOCKADDR_STORAGE_SIZE)%Z then ack_target_loop addrs h io
      else
        let h := hub_with_ack sock (lh_ack_target_len h) h in
        if (sock >=? 0)%Z
        then (0%Z, hub_with_ack sock addrlen h,
              mkHubIo (io_next io) (io_open io) (sock :: io_socks io) (io_acks io) (io_foreign io))
        else ack_target_loop addrs h io
  end.

Definition open_ack_target (getaddrinfo : option (list (Z * Z))) (node : option (list byte)) (port : Z)
    (h : LocalDecodeHub) (io : HubIo) : Z * LocalDecodeHub * HubIo :=
  match node, getaddrinfo with
  | Some _, Some addrs => if (port =? 0)%Z then ((-1)%Z, h, io) else ack_target_loop addrs h io
  | _, _ => ((-1)%Z, h, io)
  end.

(** ** Flows *)

Definition find_flow (h : LocalDecodeHub) (flow_id : Z) : option nat :=
  List.find (fun i => lf_active (hub_flow h i) && (lf_flow_id (hub_flow h i) =? flow_id)%Z)
    (seq 0 RELAY_MAX_FLOWS).

Definition find_free_slot (h : LocalDecodeHub) : option nat :=
  List.find (fun i => negb (lf_active (hub_flow h i))) (seq 0 RELAY_MAX_FLOWS).

Definition active_count_unlocked (h : LocalDecodeHub) : nat :=
  length (List.filter (fun i => lf_active (hub_flow h i)) (seq 0 RELAY_MAX_FLOWS)).

(** [open_flow_output]: the file and [close_output]; [None] is the result -1. *)
Definition open_flow_output (h : LocalDecodeHub) (flow_id : Z) (io : HubIo) :
    option (OutputFile * bool) * HubIo :=
  if bool_decide (lh_mode h = Some LOCAL_DECODE_MODE_SINGLE_FILE) then
    (option_map (fun f => (f, false)) (lh_single_output h), io)
  else
    let path := flow_path (lh_output_dir h) flow_id in
    if LOCAL_DECODE_PATH_MAX <=? length path then (None, io)
    else
      let '(file, io) := fopen fopen_ok path io in
      (option_map (fun f => (FILE_OPENED f, true)) file, io).

(** [create_flow_decoder]: the decoder or the receiver of the flow; [alloc] is its allocation. *)
Definition create_flow_decoder (alloc : bool) (h : LocalDecodeHub) (flow_id : Z) (st : St) :
    option (option (WireFlowDecoder St) * option WirehairSegmentReceiver) :=
  if lh_wirehair_mode h then
    option_map (fun r => (None, Some r))
      (wirehair_segment_receiver_create once alloc true (Some (lh_wirehair h)) flow_id)
  else if negb alloc then None
  else
    option_map (fun d => (Some d, None))
      (wire_flow_decoder_create (lh_codec h) st (lh_expected_shards h) (lh_best_effort h)
         (Z.of_nat (lh_input_size h))).

(** [bind_new_flow]: the slot, and [*capacity_reject]. *)
Definition bind_new_flow (alloc : bool) (flow_id : Z) (h : LocalDecodeHub) (io : HubIo) (st : St) :
    option (option nat * bool * LocalDecodeHub * HubIo) :=
  if bool_decide (lh_mode h = Some LOCAL_DECODE_MODE_SINGLE_FILE) && (0 <? active_count_unlocked h)
  then Some (None, false, h, io)
  else
    match find_free_slot h with
    | None => Some (None, true, h, io)
    | Some i =>
        let '(opened, io) := open_flow_output h flow_id io in
        match opened with
        | None => Some (None, false, hub_set_flow i flow_zero h, io)
        | Some (file, close) =>
            match create_flow_decoder alloc h flow_id st with
            | None =>
                io ← (match close, file with true, FILE_OPENED f => fclose f io | _, _ => Some io end);
                Some (None, false, hub_set_flow i flow_zero h, io)
            | Some (dec, receiver) =>
                Some (Some i, false,
                  hub_set_flow i (mkFlow true flow_id (Some file) close dec receiver 0 0 0 []) h, io)
            end
        end
    end.

(** ** Delivery *)

(** [stats.metadata_mismatch++], also of a flow. *)
Definition hub_mismatch (h : LocalDecodeHub) : LocalDecodeHub := hub_with_stats (hs_count_mismatch (lh_stats h)) h.
Definition flow_mismatch (i : nat) (h : LocalDecodeHub) : LocalDecodeHub :=
  let f := hub_flow h i in
  hub_mismatch (hub_set_flow i (mkFlow (lf_active f) (lf_flow_id f) (lf_output f) (lf_close_output f) (lf_dec f)
    (lf_wirehair_dec f) (lf_delivered f) (u64 (lf_metadata_mismatch f + 1)) (lf_ingest_error f) (lf_written f)) h).

Definition with_codec_state (st : St) (d : WireFlowDecoder St) : WireFlowDecoder St :=
  mkWireFlowDecoder (d_complete d) (d_expected_shards d) (d_best_effort d) (d_input_size d) (d_groups d)
    (d_next_emit_block d) (d_end_block_count d) (d_end_seen d) (d_stats d) (d_latency d) st (d_outputs d).

(** The datagram goes to the decoder of the flow: whether the call returned 0, the flow, the
    acknowledgements and the state of the codec. *)
Definition flow_ingest (calloc_ok : bool) (h : LocalDecodeHub) (f : LocalDecodeFlow) (hdr : WireHeader)
    (payload : option (list byte)) (acks : list (list byte)) (st : St) :
    option (bool * LocalDecodeFlow * list (list byte) * St) :=
  let with_ dec receiver written :=
    mkFlow (lf_active f) (lf_flow_id f) (lf_output f) (lf_close_output f) dec receiver (lf_delivered f)
      (lf_metadata_mismatch f) (lf_ingest_error f) written in
  if lh_wirehair_mode h then
    r ← lf_wirehair_dec f;
    '(rc, r, (written, acks)) ← wirehair_segment_receiver_ingest receiver_output (receiver_ack h) calloc_ok hdr
                                  payload r (lf_written f, acks);
    Some ((rc =? 0)%Z, with_ None (Some r) written, acks, st)
  else
    d ← lf_dec f;
    '(ok, d) ← wire_flow_decoder_ingest (lh_codec h) (write_ok (lf_flow_id f)) clock realloc_ok calloc_ok hdr payload
                 (match payload with Some p => length p | None => 0 end) (with_codec_state st d);
    Some (ok, with_ (Some d) None (d_outputs d), acks, d_codec_state d).

Definition flow_counted (ok : bool) (f : LocalDecodeFlow) : LocalDecodeFlow :=
  mkFlow (lf_active f) (lf_flow_id f) (lf_output f) (lf_close_output f) (lf_dec f) (lf_wirehair_dec f)
    (if ok then u64 (lf_delivered f + 1) else lf_delivered f) (lf_metadata_mismatch f)
    (if ok then lf_ingest_error f else u64 (lf_ingest_error f + 1)) (lf_written f).

(** The lengths that a datagram must have. *)
Definition delivery_sizes_ok (h : LocalDecodeHub) (hdr : WireHeader) (len : nat) : bool :=
  let wirehair := lh_wirehair_mode h in
  if (wh_type hdr =? WIRE_TYPE_DATA)%Z then
    negb (negb (Z.of_nat len =? Z.of_nat (wire_header_size hdr) + wh_payload_len hdr)%Z ||
          (negb wirehair && negb (wh_payload_len hdr =? Z.of_nat PKG_SIZE)%Z) ||
          (wirehair && (negb (wh_version hdr =? WIRE_VERSION_V4)%Z || (wh_payload_len hdr =? 0)%Z ||
                        (wh_payload_len hdr >? Z.of_nat PKG_SIZE)%Z)))
  else
    negb (negb (len =? wire_header_size hdr) || negb (wh_payload_len hdr =? 0)%Z ||
          (wirehair && negb (wh_version hdr =? WIRE_VERSION_V4)%Z)).

(** The part of [local_decode_hub_delivery] after the flow is known. *)
Definition deliver_to (calloc_ok : bool) (i : nat) (datagram : list byte) (hdr : WireHeader) (h : LocalDecodeHub)
    (io : HubIo) (st : St) : option (Z * LocalDecodeHub * HubIo * St) :=
  if negb (delivery_sizes_ok h hdr (length datagram)) then Some (0%Z, flow_mismatch i h, io, st)
  else
    let payload := if (wh_type hdr =? WIRE_TYPE_DATA)%Z then Some (drop (wire_header_size hdr) datagram) else None in
    '(ok, f, acks, st) ← flow_ingest calloc_ok h (hub_flow h i) hdr payload (io_acks io) st;
    let h := hub_set_flow i (flow_counted ok f) h in
    let h := hub_with_stats ((if (ok : bool) then hs_count_delivered else hs_count_error) (lh_stats h)) h in
    Some (if (ok : bool) then 0%Z else (-1)%Z, h, io_with_acks acks io, st).

(** [calloc_ok]: the allocations for the datagram; [alloc]: those for a new flow. *)
Definition local_decode_hub_delivery (calloc_ok alloc : bool) (datagram : option (list byte))
    (hdr : option WireHeader) (h : LocalDecodeHub) (io : HubIo) (st : St) :
    option (Z * LocalDecodeHub * HubIo * St) :=
  match datagram, hdr with
  | Some datagram, Some hdr =>
      if negb (lh_mu_inited h) || (length datagram <? WIRE_HEADER_SIZE) then Some ((-1)%Z, h, io, st)
      else if negb (wire_header_is_local hdr (lh_local_node_id h)) then Some ((-1)%Z, hub_mismatch h, io, st)
      else if negb (wh_type hdr =? WIRE_TYPE_DATA)%Z && negb (wh_type hdr =? WIRE_TYPE_END)%Z
      then Some (0%Z, hub_mismatch h, io, st)
      else if negb (lh_wirehair_mode h) &&
              negb (wire_flow_decoder_shard_count_ok (wh_shard_count hdr) (lh_expected_shards h))
      then Some (0%Z, hub_mismatch h, io, st)
      else
        match find_flow h (wh_flow_id hdr) with
        | Some i => deliver_to calloc_ok i datagram hdr h io st
        | None =>
            if bool_decide (lh_mode h = Some LOCAL_DECODE_MODE_SINGLE_FILE) && (0 <? active_count_unlocked h)
            then Some (0%Z, hub_with_stats (hs_count_rejected (lh_stats h)) h, io, st)
            else
              '(slot, capacity_reject, h, io) ← bind_new_flow alloc (wh_flow_id hdr) h io st;
              match slot with
              | Some i => deliver_to calloc_ok i datagram hdr h io st
              | None =>
                  Some ((-1)%Z,
                    hub_with_stats ((if (capacity_reject : bool) then hs_count_rejected else hs_count_error)
                                      (lh_stats h)) h, io, st)
              end
        end
  | _, _ => Some ((-1)%Z, h, io, st)
  end.

(** ** Queries *)

(** [None] is a NULL argument. *)
Definition local_decode_hub_get_stats (h : option LocalDecodeHub) : Z * option LocalDecodeHubStats :=
  match h with
  | Some h => if lh_mu_inited h then (0%Z, Some (lh_stats h)) else ((-1)%Z, None)
  | None => ((-1)%Z, None)
  end.

Definition local_decode_hub_active_count (h : option LocalDecodeHub) : nat :=
  match h with
  | Some h => if lh_mu_inited h then active_count_unlocked h else 0
  | None => 0
  end.

Definition local_flow_complete (h : LocalDecodeHub) (f : LocalDecodeFlow) : bool :=
  if lh_wirehair_mode h then wirehair_segment_receiver_complete (lf_wirehair_dec f)
  else wire_flow_decoder_is_complete (lf_dec f).

Definition local_decode_hub_is_complete (h : option LocalDecodeHub) : bool :=
  match h with
  | Some h =>
      if negb (lh_mu_inited h) then false
      else
        forallb (fun i => negb (lf_active (hub_flow h i)) || local_flow_complete h (hub_flow h i))
          (seq 0 RELAY_MAX_FLOWS) &&
        (0 <? active_count_unlocked h)
  | None => false
  end.

Definition local_decode_hub_strict_check (h : option LocalDecodeHub) : Z :=
  match h with
  | Some h =>
      if negb (lh_mu_inited h) then (-1)%Z
      else if negb (hs_ingest_error (lh_stats h) =? 0)%Z || negb (hs_metadata_mismatch (lh_stats h) =? 0)%Z ||
              negb (hs_flow_rejected (lh_stats h) =? 0)%Z
      then (-1)%Z
      else if forallb (fun i => let f := hub_flow h i in
                 negb (lf_active f) || ((lf_ingest_error f =? 0)%Z && local_flow_complete h f))
                (seq 0 RELAY_MAX_FLOWS)
      then 0%Z else (-1)%Z
  | None => (-1)%Z
  end.

(** ** Initialisation and destruction *)

Context (Codec_get : CodecKind -> option (CodecVTable St)).

(** [lhc_mode]: [None] is a value that is not a mode. *)
Record LocalDecodeHubConfig := mkHubConfig {
  lhc_codec_kind : CodecKind;
  lhc_mode : option LocalDecodeMode;
  lhc_output_path : option (list byte);
  lhc_output_dir : option (list byte);
  lhc_output : bool;
  lhc_best_effort : bool;
  lhc_local_node_id : Z;
  lhc_wirehair : WirehairSegmentConfig;
  lhc_return_hop_host : option (list byte);
  lhc_return_hop_port : Z }.

(** The failures, [goto fail], of [local_decode_hub_init]. *)
Definition init_fail (h : LocalDecodeHub) (io : HubIo) (st : St) : option (Z * LocalDecodeHub * HubIo * St) :=
  let io := if (lh_ack_sock h >=? 0)%Z then close_fd (lh_ack_sock h) io else io in
  io ← (match lh_single_close_output h, lh_single_output h with
        | true, Some (FILE_OPENED f) => fclose f io
        | _, _ => Some io
        end);
  Some ((-1)%Z, hub_zero, io, st).

(** From the label [output_setup] on. *)
Definition init_output (is_dir : list byte -> option bool) (cfg : LocalDecodeHubConfig) (h : LocalDecodeHub)
    (io : HubIo) (st : St) : option (Z * LocalDecodeHub * HubIo * St) :=
  if bool_decide (lhc_mode cfg = Some LOCAL_DECODE_MODE_SINGLE_FILE) then
    if lhc_output cfg then Some (0%Z, hub_with_output [] (Some FILE_GIVEN) false h, io, st)
    else
      match lhc_output_path cfg with
      | Some path =>
          let '(file, io) := fopen fopen_ok path io in
          match file with
          | Some f => Some (0%Z, hub_with_output [] (Some (FILE_OPENED f)) true h, io, st)
          | None => init_fail h io st
          end
      | None => init_fail h io st
      end
  else
    match lhc_output_dir cfg with
    | Some dir =>
        if negb (validate_output_dir is_dir (Some dir) =? 0)%Z then init_fail h io st
        else if (length dir =? 0) || (LOCAL_DECODE_PATH_MAX <=? length dir) then init_fail h io st
        else Some (0%Z, hub_with_output dir None false h, io, st)
    | None => init_fail h io st
    end.

(** [mutex_ok]: the result of [pthread_mutex_init]. *)
Definition local_decode_hub_init (mutex_ok : bool) (is_dir : list byte -> option bool)
    (getaddrinfo : option (list (Z * Z))) (cfg : LocalDecodeHubConfig) (io : HubIo) (st : St) :
    option (Z * LocalDecodeHub * HubIo * St) :=
  let h := hub_with_ack (-1) 0 hub_zero in
  match lhc_mode cfg with
  | None => Some ((-1)%Z, h, io, st)
  | Some mode =>
      if negb mutex_ok then Some ((-1)%Z, h, io, st)
      else
        let wirehair := is_wirehair (lhc_codec_kind cfg) in
        let h := mkHub (lhc_local_node_id cfg) None 0 0 false wirehair (lhc_wirehair cfg) (-1) 0 (Some mode) [] None
                   false (lh_flows h) hub_stats_zero true in
        if (wirehair : bool) then
          if negb (wirehair_segment_config_valid (Some (lhc_wirehair cfg))) then init_fail h io st
          else if sc_ack_enabled (lhc_wirehair cfg) then
            let '(rc, h, io) :=
              open_ack_target getaddrinfo (lhc_return_hop_host cfg) (lhc_return_hop_port cfg) h io in
            if negb (rc =? 0)%Z then init_fail h io st else init_output is_dir cfg h io st
          else init_output is_dir cfg h io st
        else
          let codec := Codec_get (lhc_codec_kind cfg) in
          match codec with
          | None => init_fail h io st
          | Some _ =>
              let '(allowed, st) :=
                if lhc_best_effort cfg then Codec_allows_best_effort codec st else (1%Z, st) in
              if (allowed =? 0)%Z then init_fail (hub_with_codec codec 0 0 false h) io st
              else
                let '(input_size, st) := Codec_input_block_size codec st in
                let '(output_size, st) := Codec_output_block_size codec st in
                let h := hub_with_codec codec 0 input_size (lhc_best_effort cfg) h in
                if (input_size =? 0) || (output_size =? 0) || (CODEC_MAX_ENCODE_BLOCK <? Z.of_nat output_size)%Z ||
                   negb (output_size mod PKG_SIZE =? 0)
                then init_fail h io st
                else
                  let expected := u16 (Z.of_nat (output_size / PKG_SIZE)) in
                  let h := hub_with_codec codec expected input_size (lhc_best_effort cfg) h in
                  if (expected =? 0)%Z || (expected >? Z.of_nat WIRE_FLOW_MAX_SHARDS)%Z then init_fail h io st
                  else
                    let '(k, st) := Codec_data_shards codec st in
                    let '(r, st) := Codec_parity_shards codec st in
                    if negb (expected =? Z.of_nat (k + r))%Z then init_fail h io st
                    else init_output is_dir cfg h io st
          end
  end.

(** The loop over the slots. *)
Fixpoint destroy_flows (flows : list LocalDecodeFlow) (io : HubIo) : option HubIo :=
  match flows with
  | [] => Some io
  | f :: flows =>
      io ← (match lf_close_output f, lf_output f with
            | true, Some (FILE_OPENED file) => fclose file io
            | _, _ => Some io
            end);
      destroy_flows flows io
  end.

(** [local_decode_hub_destroy]: all that is left is a hub of zeros.  A slot that is skipped has no
    file to close. *)
Definition local_decode_hub_destroy (h : LocalDecodeHub) (io : HubIo) : option (LocalDecodeHub * HubIo) :=
  io ← destroy_flows (lh_flows h) io;
  io ← (match lh_single_close_output h, lh_single_output h with
        | true, Some (FILE_OPENED f) => fclose f io
        | _, _ => Some io
        end);
  Some (hub_zero, if (lh_ack_sock h >=? 0)%Z then close_fd (lh_ack_sock h) io else io).

End Hub.
