(* ===== verification/LocalDecodeSpec.v ===== *)
(** * What the local decoder promises

    The flows of a hub do not disturb each other, and a hub whose strict check succeeds has written
    every flow completely: the files hold the streams. *)

From Stdlib Require Import Strings.Byte.
From S2P Require Import Prelude WireHeader Gf256 ByteVec RsEncode Codec CodecSpec CodecInterface.
From S2P Require Import WirehairSegment WirehairReceiver WirehairSegmentSpec WirehairReceiverSpec.
From S2P Require Import WirehairTheorems.
From S2P Require Import WireDecoder WireDecoderSpec WireDecoderRun WireDecoderTheorems.
From S2P Require Import LocalSource LocalDecode.

Local Open Scope nat_scope.

(** ** The end a decoder has been told

    Only [ingest_end] changes it. *)

Section Ends.
Context {St : Type} (codec : option (CodecVTable St)) (out_ok : nat -> bool) (clock : nat -> Z) (realloc_ok : bool).
Abbreviation Dec := (WireFlowDecoder St).

Definition ends (d : Dec) : bool * Z := (d_end_seen d, d_end_block_count d).

Lemma ends_ask {A} (q : option (CodecVTable St) -> St -> A * St) d : ends (snd (ask codec q d)) = ends d.
Proof. unfold ask. by destruct (q codec _). Qed.

(** A pair whose second component keeps the end. *)
Ltac ask_ends :=
  repeat match goal with
  | |- context [ask codec ?q ?d] => pose proof (ends_ask q d); destruct (ask codec q d) as [? ?]; cbn [snd] in *
  end.

Lemma ends_ready g d : ends (snd (group_systematic_data_ready codec g d)) = ends d.
Proof.
  unfold group_systematic_data_ready. destruct codec as [vt|] eqn:Ec; [|done]. rewrite <- Ec in *.
  destruct (g_received_bits g); [|done]. ask_ends. destruct (_ =? 0)%Z; [done|]. ask_ends. by case_match; cbn [snd]; congruence.
Qed.

Lemma ends_recover i fin d : ends (snd (try_recover_group codec i fin d)) = ends d.
Proof.
  unfold try_recover_group. destruct codec as [vt|] eqn:Ec; [|done]. rewrite <- Ec in *.
  destruct (g_state _); try done. destruct (group_all_shards_present _); [done|].
  pose proof (ends_ready (group_at (d_groups d) i) d) as H. destruct (group_systematic_data_ready _ _ _) as [ready d1].
  cbn [snd] in H. destruct ready; [exact H|]. ask_ends.
  destruct (_ || _); [destruct fin; cbn [fail_or_wait snd]; unfold ends in *; cbn; congruence|].
  destruct (_ && _); [cbn [snd]; congruence|]. destruct (Codec_recover _ _ _ _ _) as [[status data] st].
  destruct status, fin; cbn [fail_or_wait snd]; unfold ends in *; cbn; congruence.
Qed.

Lemma ends_write_decoded i d : ends (snd (write_decoded_group codec out_ok clock realloc_ok i d)) = ends d.
Proof.
  unfold write_decoded_group. destruct codec as [vt|] eqn:Ec; [|done]. rewrite <- Ec in *.
  destruct (negb _); [done|]. ask_ends. case_match; [done|]. destruct (Codec_decode _ _ _ _) as [data st].
  destruct (g_timing_valid _); unfold output; case_match; unfold ends in *; cbn in *; congruence.
Qed.

Lemma ends_write_shards bits data shard count remaining d :
  ends (snd (write_shards out_ok bits data shard count remaining d)) = ends d.
Proof.
  revert shard remaining d. induction count as [|count IH]; intros shard remaining d; cbn [write_shards]; [done|].
  case_match; [done|]. destruct (codec_present_get bits shard); [|by rewrite IH].
  unfold output. case_match; [done|]. by rewrite IH.
Qed.

Lemma ends_write_best i d : ends (snd (write_best_effort_group codec out_ok i d)) = ends d.
Proof.
  unfold write_best_effort_group. destruct codec as [vt|] eqn:Ec; [|done]. rewrite <- Ec in *.
  ask_ends. case_match; [cbn [snd]; congruence|]. ask_ends. case_match; [cbn [snd]; congruence|]. ask_ends.
  case_match; [cbn [snd]; congruence|].
  match goal with |- context [if ?c then _ else (g_data _, _)] => destruct c end;
    [destruct (Codec_decode _ _ _ _) as [data st]|]; cbn beta iota;
    match goal with |- context [write_shards out_ok ?b ?x ?s ?c ?r ?d] => pose proof (ends_write_shards b x s c r d) as Hw end;
    destruct (write_shards _ _ _ _ _ _ _) as [b d1]; cbn [snd] in Hw; destruct b; unfold ends in *; cbn in *; congruence.
Qed.

Lemma ends_skip head d : ends (snd (skip_unrecoverable_head codec out_ok head d)) = ends d.
Proof.
  unfold skip_unrecoverable_head. set (p := match head with None => _ | Some _ => _ end).
  assert (Hp : ends (snd p) = ends d); [|by destruct p as [[] d1]]. unfold p. destruct head as [i|]; [|done]. ask_ends.
  match goal with H : ends ?d1 = ends d |- _ => pose proof (ends_write_best i d1) as Hw; rewrite H in Hw end.
  destruct (g_data _); [|done]. destruct (g_received_bits _); [|done]. by destruct (_ && _).
Qed.

Lemma ends_emit_head i d : ends (snd (emit_head codec out_ok clock realloc_ok i d)) = ends d.
Proof.
  unfold emit_head. pose proof (ends_write_decoded i d) as H. destruct (write_decoded_group _ _ _ _ _ _) as [b d1].
  by destruct b.
Qed.

(** A result whose state keeps the end of [d]. *)
Definition keeps_end (d : Dec) (res : option (bool * Dec)) : Prop :=
  match res with Some (_, d') => ends d' = ends d | None => True end.

Lemma keeps_end_bind d d1 (p : bool * Dec) f :
  ends (snd p) = ends d1 -> ends d1 = ends d -> (forall d2, ends d2 = ends d -> keeps_end d (f d2)) ->
  keeps_end d (let '(b, d2) := p in if negb b then Some (false, d2) else f d2).
Proof. intros H1 H2 Hf. destruct p as [[] d2]; cbn in *; [apply Hf; congruence|congruence]. Qed.

Lemma keeps_end_make_room fuel id guard d :
  keeps_end d (make_room_loop codec out_ok clock realloc_ok fuel id guard d).
Proof.
  assert (H : forall d0, ends d = ends d0 -> keeps_end d0 (make_room_loop codec out_ok clock realloc_ok fuel id guard d));
    [|by apply H]. revert guard d. induction fuel as [|fuel IH]; intros guard d d0 E; cbn [make_room_loop]; [done|].
  case_match; [done|]. case_match; [done|].
  assert (Hskip : forall head d1, ends d1 = ends d -> keeps_end d0
    (let '(ok, d2) := skip_unrecoverable_head codec out_ok head d1 in
     if negb ok then Some (false, d2) else make_room_loop codec out_ok clock realloc_ok fuel id (S guard) d2)).
  { intros head d1 E1. apply (keeps_end_bind _ d1); [apply ends_skip|congruence|]. intros d2 E2. by apply IH. }
  assert (Hemit : forall i d1, ends d1 = ends d -> keeps_end d0
    (let '(ok, d2) := emit_head codec out_ok clock realloc_ok i d1 in
     if negb ok then Some (false, d2) else make_room_loop codec out_ok clock realloc_ok fuel id guard d2)).
  { intros i d1 E1. apply (keeps_end_bind _ d1); [apply ends_emit_head|congruence|]. intros d2 E2. by apply IH. }
  destruct (find_group _ _) as [i|]; [|by apply Hskip]. destruct (g_state _); try (by apply Hskip); [|by apply Hemit].
  pose proof (ends_recover i true d) as Hr. destruct (try_recover_group _ _ _ _) as [res d1]. cbn [snd] in Hr.
  case_match; [by apply Hemit|by apply Hskip].
Qed.

Lemma keeps_end_emit_loop fuel d : keeps_end d (emit_loop codec out_ok clock realloc_ok fuel d).
Proof.
  assert (H : forall d0, ends d = ends d0 -> keeps_end d0 (emit_loop codec out_ok clock realloc_ok fuel d));
    [|by apply H]. revert d. induction fuel as [|fuel IH]; intros d d0 E; cbn [emit_loop]; [done|].
  case_match; [done|].
  assert (Hskip : forall head d1, ends d1 = ends d -> keeps_end d0
    (let '(ok, d2) := skip_unrecoverable_head codec out_ok head d1 in
     if negb ok then Some (false, d2) else emit_loop codec out_ok clock realloc_ok fuel d2)).
  { intros head d1 E1. apply (keeps_end_bind _ d1); [apply ends_skip|congruence|]. intros d2 E2. by apply IH. }
  assert (Hemit : forall i d1, ends d1 = ends d -> keeps_end d0
    (let '(ok, d2) := emit_head codec out_ok clock realloc_ok i d1 in
     if negb ok then Some (false, d2) else emit_loop codec out_ok clock realloc_ok fuel d2)).
  { intros i d1 E1. apply (keeps_end_bind _ d1); [apply ends_emit_head|congruence|]. intros d2 E2. by apply IH. }
  assert (Hrest : forall head hs, keeps_end d0 (if d_best_effort d && d_end_seen d &&
               (match head with None => true | Some _ => false end || bool_decide (hs = WIRE_GROUP_FAILED))
            then let '(ok, d2) := skip_unrecoverable_head codec out_ok head d in
                 if negb ok then Some (false, d2) else emit_loop codec out_ok clock realloc_ok fuel d2
            else if d_best_effort d then
              let '(below, d) := head_below_recover_threshold codec head d in
              if below && later_recovered_waiting d then
                match head, hs with
                | Some i, WIRE_GROUP_ACTIVE =>
                    let '(res, d) := try_recover_group codec i true d in
                    if bool_decide (res = WIRE_RECOVER_OK)
                    then let '(ok, d2) := emit_head codec out_ok clock realloc_ok i d in
                         if negb ok then Some (false, d2) else emit_loop codec out_ok clock realloc_ok fuel d2
                    else let '(ok, d2) := skip_unrecoverable_head codec out_ok head d in
                         if negb ok then Some (false, d2) else emit_loop codec out_ok clock realloc_ok fuel d2
                | _, _ => let '(ok, d2) := skip_unrecoverable_head codec out_ok head d in
                          if negb ok then Some (false, d2) else emit_loop codec out_ok clock realloc_ok fuel d2
                end
              else Some (true, d)
            else Some (true, d))).
  { intros head hs. match goal with |- keeps_end _ (if ?c then _ else _) => destruct c end; [by apply Hskip|]. destruct (d_best_effort d); [|done].
    assert (Hb : ends (snd (head_below_recover_threshold codec head d)) = ends d).
    { unfold head_below_recover_threshold. destruct head as [i|]; [|done]. destruct (g_state _); try done.
      destruct codec as [vt|] eqn:Ec; [|done]. rewrite <- Ec. pose proof (ends_ask Codec_data_shards d) as Ha.
      by destruct (ask codec Codec_data_shards d) as [a d1]. }
    destruct (head_below_recover_threshold _ _ _) as [below d1]. cbn [snd] in Hb.
    destruct (below && _); [|unfold keeps_end; congruence]. destruct head as [i|]; [|by apply Hskip]. destruct hs; try (by apply Hskip).
    pose proof (ends_recover i true d1) as Hr. destruct (try_recover_group _ _ _ _) as [res d2]. cbn [snd] in Hr.
    case_match; [apply Hemit|apply Hskip]; congruence. }
  destruct (find_group _ _) as [i|]; [|apply (Hrest None)].
  destruct (g_state _); [apply (Hrest (Some i) WIRE_GROUP_EMPTY)|apply (Hrest (Some i) WIRE_GROUP_ACTIVE)|by apply Hemit|
    apply (Hrest (Some i) WIRE_GROUP_EMITTED)|apply (Hrest (Some i) WIRE_GROUP_FAILED)].
Qed.

End Ends.

Section Told.
Context {St : Type} (codec : option (CodecVTable St)) (out_ok : nat -> bool) (clock : nat -> Z) (realloc_ok : bool).
Abbreviation Dec := (WireFlowDecoder St).

Lemma ends_finalize d : ends (finalize_active_groups codec d) = ends d.
Proof.
  unfold finalize_active_groups. apply (for_ind (fun _ (d1 : Dec) => ends d1 = ends d)); [done|].
  intros i d1 _ <-. case_match; [apply ends_recover|done].
Qed.

Lemma keeps_end_ret (d : Dec) b d1 : ends d1 = ends d -> keeps_end d (Some (b, d1)).
Proof. done. Qed.

Lemma keeps_end_from (d d1 : Dec) res : ends d1 = ends d -> keeps_end d1 res -> keeps_end d res.
Proof. intros E. destruct res as [[b d2]|]; [|done]. cbn. by rewrite E. Qed.

Lemma keeps_end_try d res (f : Dec -> option (bool * Dec)) :
  keeps_end d res -> (forall d1, ends d1 = ends d -> keeps_end d (f d1)) ->
  keeps_end d (match res with None => None | Some (false, d1) => Some (false, d1) | Some (true, d1) => f d1 end).
Proof. destruct res as [[[] d1]|]; cbn; auto. Qed.

Lemma keeps_end_emit d d1 : ends d1 = ends d -> keeps_end d (try_emit_from_head codec out_ok clock realloc_ok d1).
Proof.
  intros E. apply (keeps_end_from d d1); [done|]. apply keeps_end_emit_loop.
Qed.

Lemma keeps_end_shard i hdr payload d d1 :
  ends d1 = ends d -> keeps_end d (ingest_shard codec out_ok clock realloc_ok i hdr payload d1).
Proof.
  intros E. unfold ingest_shard. destruct (g_state _); try (by apply keeps_end_ret).
  all: case_match; [by apply keeps_end_ret|]; destruct (g_received_bits _); [|by apply keeps_end_ret];
    destruct (g_data _); [|by apply keeps_end_ret]; case_match; [by apply keeps_end_ret|];
    case_match; [by apply keeps_end_ret|];
    match goal with |- context [try_recover_group _ ?i ?b ?x] => pose proof (ends_recover codec i b x) as Hr;
      destruct (try_recover_group _ i b x) as [res d2]; cbn [snd] in Hr end;
    apply keeps_end_try; [apply keeps_end_emit; unfold ends in *; cbn in *; congruence|];
    intros d3 E3; apply keeps_end_ret; case_match; by unfold ends in *.
Qed.

(** The end in force: the one that was, or the one the datagram announces. *)
Lemma ingest_told calloc_ok hdr payload len d b d' :
  wire_flow_decoder_ingest codec out_ok clock realloc_ok calloc_ok hdr payload len d = Some (b, d') ->
  ends d' = ends d \/ wh_type hdr = WIRE_TYPE_END /\ ends d' = (true, wh_block_id hdr).
Proof.
  intros Hi.
  assert (H : keeps_end d (Some (b, d')) \/ wh_type hdr = WIRE_TYPE_END /\ keeps_end (set_end (wh_block_id hdr) d) (Some (b, d')));
    [|by destruct H as [H|[H1 H]]; [left|right]]. rewrite <- Hi. clear Hi b d'.
  unfold wire_flow_decoder_ingest. destruct codec as [vt|] eqn:Ec; [rewrite <- Ec|by left].
  destruct (d_complete d); [by left|]. destruct (Z.eqb_spec (wh_type hdr) WIRE_TYPE_END) as [He|_].
  - unfold ingest_end. case_match; [by left|right]. split; [done|]. set (d0 := set_end _ d).
    apply keeps_end_try; [apply keeps_end_emit, ends_finalize|]. intros d1 E1.
    case_match; [by apply keeps_end_ret|]. case_match; [|by apply keeps_end_ret].
    apply keeps_end_try; [|by intros d2 E2; apply keeps_end_ret]. unfold wire_flow_decoder_flush_best_effort.
    case_match; [by apply keeps_end_ret|]. case_match; [by apply keeps_end_ret|].
    apply keeps_end_try; [apply keeps_end_emit; by rewrite ends_finalize|]. intros d2 E2. apply keeps_end_ret.
    by case_match.
  - left. destruct payload as [bytes|]; [|by apply keeps_end_ret]. case_match; [by apply keeps_end_ret|].
    case_match; [by apply keeps_end_ret|].
    assert (Hdata : forall d1, ends d1 = ends d -> keeps_end d (ingest_data codec out_ok clock realloc_ok calloc_ok hdr bytes d1)).
    { intros d1 E1. unfold ingest_data. case_match; [by apply keeps_end_ret|].
      destruct (find_group _ _); [by apply keeps_end_shard|]. destruct (allocate_group _ _ _ _ _ _ _) as [[i gs]|];
        [by apply keeps_end_shard|by apply keeps_end_ret]. }
    destruct (d_best_effort _); [|by apply Hdata]. apply keeps_end_try.
    + unfold make_room_for_block. case_match; [by apply keeps_end_ret|].
      apply (keeps_end_from _ (count_stat seen_datagrams d)); [done|]. apply keeps_end_make_room.
    + intros d1 E1. case_match; [by apply keeps_end_ret|by apply Hdata].
Qed.

End Told.

(** ** The hub, for any kind of flow

    [G] is what is known of a flow while no call has failed, [okst] of the state of the codec, [T]
    of the datagrams that arrive. *)

Section Hub.
Context `{host : HostOrder} `{wh : Wirehair} {St : Type}.
Context (fopen_ok : list byte -> bool) (write_ok : Z -> nat -> bool) (sendto : nat -> list SendtoResult).
Context (clock : nat -> Z) (realloc_ok once : bool).
Abbreviation Hub := (LocalDecodeHub (wh := wh) (St := St)).
Abbreviation Flow := (LocalDecodeFlow (wh := wh) (St := St)).
Abbreviation delivery := (local_decode_hub_delivery fopen_ok write_ok sendto clock realloc_ok once).
Abbreviation ingest_flow := (flow_ingest write_ok sendto clock realloc_ok).

(** The part of a hub that deliveries do not change. *)
Definition static (h : Hub) : Hub := hub_with_flows [] (hub_with_stats hub_stats_zero h).

Lemma static_fields h h' : static h = static h' ->
  lh_local_node_id h = lh_local_node_id h' /\ lh_codec h = lh_codec h' /\ lh_expected_shards h = lh_expected_shards h' /\
  lh_input_size h = lh_input_size h' /\ lh_best_effort h = lh_best_effort h' /\ lh_wirehair_mode h = lh_wirehair_mode h' /\
  lh_wirehair h = lh_wirehair h' /\ lh_ack_sock h = lh_ack_sock h' /\ lh_ack_target_len h = lh_ack_target_len h' /\
  lh_mode h = lh_mode h' /\ lh_output_dir h = lh_output_dir h' /\ lh_single_output h = lh_single_output h' /\
  lh_single_close_output h = lh_single_close_output h' /\ lh_mu_inited h = lh_mu_inited h'.
Proof. intros E. by injection E. Qed.

(** The payload a datagram with this header is given to its decoder with. *)
Definition payload_in (hdr : WireHeader) (datagram : list byte) : option (list byte) :=
  if (wh_type hdr =? WIRE_TYPE_DATA)%Z then Some (drop (wire_header_size hdr) datagram) else None.

Lemma hub_flow_set (h : Hub) i f j :
  i < length (lh_flows h) -> hub_flow (hub_set_flow i f h) j = if decide (i = j) then f else hub_flow h j.
Proof.
  intros Hi. unfold hub_flow, hub_set_flow, hub_with_flows. cbn. rewrite !nth_lookup.
  case_decide as E; [subst; by rewrite list_lookup_insert_eq|by rewrite list_lookup_insert_ne].
Qed.

Lemma find_seq_some (p : nat -> bool) n i : List.find p (seq 0 n) = Some i -> i < n /\ p i = true.
Proof. intros [H1 H2]%find_some. apply in_seq in H1. split; [lia|done]. Qed.

Lemma find_seq_none (p : nat -> bool) n i : List.find p (seq 0 n) = None -> i < n -> p i = false.
Proof. intros H Hi. eapply find_none; [exact H|]. apply in_seq. lia. Qed.

Lemma flow_ingest_frame c h (f : Flow) hdr payload acks st b f' acks' st' :
  ingest_flow c h f hdr payload acks st = Some (b, f', acks', st') ->
  lf_active f' = lf_active f /\ lf_flow_id f' = lf_flow_id f /\ lf_ingest_error f' = lf_ingest_error f /\
  lf_output f' = lf_output f /\ lf_close_output f' = lf_close_output f.
Proof.
  unfold flow_ingest. destruct (lh_wirehair_mode h).
  - destruct (lf_wirehair_dec f) as [r|]; [|done]. cbn [mbind option_bind].
    destruct (wirehair_segment_receiver_ingest _ _ _ _ _ _ _) as [[[rc r1] [w a]]|]; [|done]. by intros [= <- <- <- <-].
  - destruct (lf_dec f) as [d|]; [|done]. cbn [mbind option_bind].
    destruct (wire_flow_decoder_ingest _ _ _ _ _ _ _ _ _) as [[ok d1]|]; [|done]. by intros [= <- <- <- <-].
Qed.

Context (h0 : Hub) (okst : St -> Prop) (G : Flow -> Prop) (T : bool -> WireHeader -> option (list byte) -> Prop).
Context (Hnew : forall alloc h c hdr payload st dec rcv file close (id := wh_flow_id hdr), static h = h0 -> okst st ->
  T c hdr payload -> create_flow_decoder once alloc h id st = Some (dec, rcv) -> G (mkFlow true id (Some file) close dec rcv 0 0 0 [])).
Context (Hing : forall c h f hdr payload acks st f' acks' st', static h = h0 -> okst st -> G f ->
  lf_active f = true -> lf_flow_id f = wh_flow_id hdr -> T c hdr payload ->
  ingest_flow c h f hdr payload acks st = Some (true, f', acks', st') -> G f' /\ okst st').
Context (Hcnt : forall f a b c, G f -> G (mkFlow (lf_active f) (lf_flow_id f) (lf_output f) (lf_close_output f) (lf_dec f)
  (lf_wirehair_dec f) a b c (lf_written f))).

(** After at most [n] deliveries. *)
Record hub_ok (n : Z) (h : Hub) (st : St) : Prop := {
  hk_static : static h = h0;
  hk_length : length (lh_flows h) = RELAY_MAX_FLOWS;
  hk_errors : (0 <= hs_ingest_error (lh_stats h) <= n)%Z;
  hk_distinct : forall i j, lf_active (hub_flow h i) = true -> lf_active (hub_flow h j) = true ->
    lf_flow_id (hub_flow h i) = lf_flow_id (hub_flow h j) -> i = j;
  hk_good : hs_ingest_error (lh_stats h) = 0%Z ->
    okst st /\ forall i, lf_active (hub_flow h i) = true -> G (hub_flow h i) }.

Lemma local_hub_stats n h st s :
  hub_ok n h st -> hs_ingest_error s = hs_ingest_error (lh_stats h) -> hub_ok n (hub_with_stats s h) st.
Proof using Type. intros [H1 H2 H3 H4 H5] E. split; try done; cbn [lh_stats hub_with_stats]; by rewrite E. Qed.

Lemma hub_ok_more n n' h st : hub_ok n h st -> (n <= n')%Z -> hub_ok n' h st.
Proof using Type. intros [] Hn. split; try done. lia. Qed.

(** A call that failed is counted, and the count does not wrap. *)
Lemma hub_ok_error n h st' :
  static h = h0 -> length (lh_flows h) = RELAY_MAX_FLOWS -> (0 <= hs_ingest_error (lh_stats h) <= n)%Z ->
  (forall i j, lf_active (hub_flow h i) = true -> lf_active (hub_flow h j) = true ->
     lf_flow_id (hub_flow h i) = lf_flow_id (hub_flow h j) -> i = j) ->
  (n + 1 < 2 ^ 64)%Z -> hub_ok (n + 1) (hub_with_stats (hs_count_error (lh_stats h)) h) st'.
Proof using Type.
  intros H1 H2 H3 H4 Hn.
  assert (E : u64 (hs_ingest_error (lh_stats h) + 1) = (hs_ingest_error (lh_stats h) + 1)%Z).
  { unfold u64. rewrite uwrap_small; [done|]. unfold in_range. lia. }
  split; try done; cbn [lh_stats hub_with_stats hs_count_error hs_ingest_error]; rewrite E; lia.
Qed.

(** A flow of the hub is replaced by one with the same id. *)
Lemma set_flow_distinct (h : Hub) i f :
  i < length (lh_flows h) ->
  (lf_active f = true -> forall j, j <> i -> lf_active (hub_flow h j) = true -> lf_flow_id (hub_flow h j) <> lf_flow_id f) ->
  (forall i j, lf_active (hub_flow h i) = true -> lf_active (hub_flow h j) = true ->
     lf_flow_id (hub_flow h i) = lf_flow_id (hub_flow h j) -> i = j) ->
  forall a b, lf_active (hub_flow (hub_set_flow i f h) a) = true -> lf_active (hub_flow (hub_set_flow i f h) b) = true ->
    lf_flow_id (hub_flow (hub_set_flow i f h) a) = lf_flow_id (hub_flow (hub_set_flow i f h) b) -> a = b.
Proof using Type.
  intros Hi Hf Hd a b. rewrite !hub_flow_set by done. repeat case_decide; subst; try done.
  - intros Ha Hb E. exfalso. by apply (Hf Ha b).
  - intros Ha Hb E. exfalso. by apply (Hf Hb a).
  - apply Hd.
Qed.

Lemma deliver_to_ok n c i datagram hdr h io st rc h' io' st' :
  hub_ok n h st -> (n + 1 < 2 ^ 64)%Z -> i < RELAY_MAX_FLOWS -> lf_active (hub_flow h i) = true ->
  lf_flow_id (hub_flow h i) = wh_flow_id hdr -> T c hdr (payload_in hdr datagram) ->
  deliver_to write_ok sendto clock realloc_ok c i datagram hdr h io st = Some (rc, h', io', st') ->
  hub_ok (n + 1) h' st'.
Proof using Hcnt Hing.
  intros H Hn Hi Ha Hid HT. pose proof H as [H1 H2 H3 H4 H5]. assert (Hl : i < length (lh_flows h)) by lia.
  unfold deliver_to. destruct (negb (delivery_sizes_ok _ _ _)).
  - intros [= <- <- <- <-]. unfold flow_mismatch. apply (local_hub_stats _ (hub_set_flow i _ h)); [|done].
    apply (hub_ok_more n); [|lia]. split; try done; cbn [lh_flows hub_set_flow hub_with_flows].
    + by rewrite length_insert.
    + apply set_flow_distinct; [done| |done]. cbn [lf_active lf_flow_id]. intros _ j Hj Hja E. by apply Hj, H4.
    + intros E0. destruct (H5 E0) as [Hst HG]. split; [done|]. intros j. rewrite hub_flow_set by done.
      case_decide; [subst; intros _; apply (Hcnt (hub_flow h j)); by apply HG|apply HG].
  - fold (payload_in hdr datagram). destruct (ingest_flow c h (hub_flow h i) hdr _ _ st) as [[[[b f] acks] st1]|] eqn:Hf; [|done].
    cbn [mbind option_bind]. intros [= _ <- _ <-].
    destruct (flow_ingest_frame _ _ _ _ _ _ _ _ _ _ _ Hf) as (F1 & F2 & F3 & _).
    assert (Hdist : forall i0 j, lf_active (hub_flow (hub_set_flow i (flow_counted b f) h) i0) = true ->
      lf_active (hub_flow (hub_set_flow i (flow_counted b f) h) j) = true ->
      lf_flow_id (hub_flow (hub_set_flow i (flow_counted b f) h) i0) = lf_flow_id (hub_flow (hub_set_flow i (flow_counted b f) h) j) -> i0 = j).
    { apply set_flow_distinct; [done| |done]. cbn [flow_counted lf_active lf_flow_id]. intros _ j Hj Hja E. rewrite F2 in E. by apply Hj, H4. }
    destruct b; cycle 1.
    + apply (hub_ok_error n (hub_set_flow i (flow_counted false f) h)); try done. cbn. by rewrite length_insert.
    + apply (local_hub_stats _ (hub_set_flow i (flow_counted true f) h)); [|done]. apply (hub_ok_more n); [|lia].
      split; try done; [cbn; by rewrite length_insert|]. intros E0. destruct (H5 E0) as [Hst HG].
      destruct (Hing c h (hub_flow h i) hdr _ _ st f acks st1 H1 Hst (HG i Ha) Ha Hid HT Hf) as [HG1 Hst1].
      split; [done|]. intros j. rewrite hub_flow_set by done. case_decide; [intros _; by apply Hcnt|apply HG].
Qed.

Lemma bind_ok n alloc c hdr payload h io st slot cap h' io' (id := wh_flow_id hdr) :
  hub_ok n h st -> T c hdr payload -> find_flow h id = None -> bind_new_flow fopen_ok once alloc id h io st = Some (slot, cap, h', io') ->
  hub_ok n h' st /\
  match slot with
  | Some i => i < RELAY_MAX_FLOWS /\ lf_active (hub_flow h' i) = true /\ lf_flow_id (hub_flow h' i) = id
  | None => True
  end.
Proof using Hnew.
  intros H HT Hnone. pose proof H as [H1 H2 H3 H4 H5]. unfold bind_new_flow. destruct (_ && _); [by intros [= <- <- <- <-]|].
  destruct (find_free_slot h) as [i|] eqn:Hfree; [|by intros [= <- <- <- <-]].
  apply find_seq_some in Hfree as [Hi Hfr]. apply negb_true_iff in Hfr. assert (Hl : i < length (lh_flows h)) by lia.
  assert (Hzero : hub_ok n (hub_set_flow i flow_zero h) st).
  { split; try done; cbn [lh_flows hub_set_flow hub_with_flows]; [by rewrite length_insert|by apply set_flow_distinct|].
    intros E0. destruct (H5 E0) as [Hst HG]. split; [done|]. intros j. rewrite hub_flow_set by done. case_decide; [done|apply HG]. }
  destruct (open_flow_output fopen_ok h id io) as [[[file close]|] io1]; [|by intros [= <- <- <- <-]].
  destruct (create_flow_decoder once alloc h id st) as [[dec rcv]|] eqn:Hc.
  - intros [= <- <- <- <-]. split; cycle 1.
    { split; [done|]. by rewrite hub_flow_set, decide_True. }
    split; try done; cbn [lh_flows hub_set_flow hub_with_flows]; [by rewrite length_insert| |].
    + apply set_flow_distinct; [done| |done]. cbn [lf_active lf_flow_id]. intros _ j Hj Hja E.
      assert (Hj8 : j < RELAY_MAX_FLOWS).
      { destruct (lt_dec j RELAY_MAX_FLOWS); [done|]. unfold hub_flow in Hja. rewrite nth_overflow in Hja by lia. done. }
      pose proof (find_seq_none _ _ j Hnone Hj8) as Hf. cbn beta in Hf. rewrite Hja, E, Z.eqb_refl in Hf. done.
    + intros E0. destruct (H5 E0) as [Hst HG]. split; [done|]. intros j. rewrite hub_flow_set by done.
      case_decide; [intros _; by eapply Hnew|apply HG].
  - destruct (match close with true => _ | false => _ end) as [io2|]; [|done]. cbn [mbind option_bind]. by intros [= <- <- <- <-].
Qed.

Lemma delivery_ok n c alloc datagram hdr h io st rc h' io' st' :
  hub_ok n h st -> (n + 1 < 2 ^ 64)%Z -> T c hdr (payload_in hdr datagram) ->
  delivery c alloc (Some datagram) (Some hdr) h io st = Some (rc, h', io', st') -> hub_ok (n + 1) h' st'.
Proof using Hcnt Hing Hnew.
  intros H Hn HT. pose proof H as [H1 H2 H3 H4 H5]. unfold local_decode_hub_delivery.
  assert (Hmore : forall s, hs_ingest_error s = hs_ingest_error (lh_stats h) -> hub_ok (n + 1) (hub_with_stats s h) st).
  { intros s E. apply (hub_ok_more n); [by apply local_hub_stats|lia]. }
  destruct (_ || _); [intros [= <- <- <- <-]; apply (hub_ok_more n); [done|lia]|].
  destruct (negb _); [intros [= <- <- <- <-]; by apply Hmore|].
  destruct (_ && _); [intros [= <- <- <- <-]; by apply Hmore|].
  destruct (_ && _); [intros [= <- <- <- <-]; by apply Hmore|].
  destruct (find_flow h (wh_flow_id hdr)) as [i|] eqn:Hfind.
  - apply find_seq_some in Hfind as [Hi [Ha Hid%Z.eqb_eq]%andb_true_iff]. by apply deliver_to_ok.
  - destruct (_ && _); [intros [= <- <- <- <-]; by apply Hmore|].
    destruct (bind_new_flow _ _ _ _ _ _ _) as [[[[slot cap] h1] io1]|] eqn:Hb; [|done]. cbn [mbind option_bind].
    destruct (bind_ok n _ _ _ _ _ _ _ _ _ _ _ H HT Hfind Hb) as [Hok1 Hs]. destruct slot as [i|].
    + destruct Hs as (Hi & Ha & Hid). by apply deliver_to_ok.
    + intros [= <- <- <- <-]. destruct cap; [apply (hub_ok_more n); [by apply local_hub_stats|lia]|].
      destruct Hok1 as [G1 G2 G3 G4 G5]. by apply (hub_ok_error n h1).
Qed.

(** ** Runs *)

(** A datagram on its way to the hub, with the allocations made for it and for its flow. *)
Record Arrival := mkArrival { av_datagram : list byte; av_calloc : bool; av_alloc : bool }.

(** What the relay decodes from a datagram before it delivers it. *)
Definition header_in (d : list byte) : option WireHeader := wire_header_decode (map byte_to_Z d).

Fixpoint hub_run (ds : list Arrival) (h : Hub) (io : HubIo) (st : St) : option (Hub * HubIo * St) :=
  match ds with
  | [] => Some (h, io, st)
  | x :: ds =>
      '(_, h, io, st) ← delivery (av_calloc x) (av_alloc x) (Some (av_datagram x)) (header_in (av_datagram x)) h io st;
      hub_run ds h io st
  end.

(** The arrival is one that [T] holds of. *)
Definition arrives (x : Arrival) : Prop :=
  forall hdr, header_in (av_datagram x) = Some hdr -> T (av_calloc x) hdr (payload_in hdr (av_datagram x)).

Lemma hub_run_ok n ds h io st h' io' st' :
  hub_ok n h st -> (n + Z.of_nat (length ds) < 2 ^ 64)%Z -> Forall arrives ds ->
  hub_run ds h io st = Some (h', io', st') -> hub_ok (n + Z.of_nat (length ds)) h' st'.
Proof using Hcnt Hing Hnew.
  revert n h io st. induction ds as [|x ds IH]; intros n h io st H Hn Hds; cbn [hub_run length].
  { intros [= <- <- <-]. by rewrite Z.add_0_r. }
  inversion_clear Hds as [|? ? Hx Hds']. cbn [length] in Hn.
  destruct (header_in (av_datagram x)) as [hdr|] eqn:Hh.
  - destruct (delivery _ _ _ _ h io st) as [[[[rc h1] io1] st1]|] eqn:Hd; [|done]. cbn [mbind option_bind]. intros Hrun.
    pose proof (delivery_ok n _ _ _ _ _ _ _ _ _ _ _ H ltac:(lia) (Hx hdr Hh) Hd) as H1.
    replace (n + Z.of_nat (S (length ds)))%Z with (n + 1 + Z.of_nat (length ds))%Z by lia. eapply IH; [exact H1|lia|done|exact Hrun].
  - cbn [local_decode_hub_delivery mbind option_bind]. intros Hrun.
    replace (n + Z.of_nat (S (length ds)))%Z with (n + 1 + Z.of_nat (length ds))%Z by lia.
    eapply IH; [|lia|done|exact Hrun]. apply (hub_ok_more n); [done|lia].
Qed.

(** What the strict check says of the flows. *)
Lemma strict_check_good n h st i :
  hub_ok n h st -> local_decode_hub_strict_check (Some h) = 0%Z -> lf_active (hub_flow h i) = true ->
  okst st /\ G (hub_flow h i) /\ local_flow_complete h (hub_flow h i) = true.
Proof using Type.
  intros H Hs Ha. unfold local_decode_hub_strict_check in Hs. destruct (negb (lh_mu_inited h)); [done|].
  destruct (negb _ || _ || _) eqn:E; [done|]. apply orb_false_iff in E as [[E%negb_false_iff%Z.eqb_eq _]%orb_false_iff _].
  destruct (hk_good _ _ _ H E) as [Hst HG]. split; [done|]. split; [by apply HG|].
  destruct (forallb _ _) eqn:Ef; [|done]. rewrite forallb_forall in Ef.
  assert (Hi : i < RELAY_MAX_FLOWS).
  { destruct (lt_dec i RELAY_MAX_FLOWS); [done|]. unfold hub_flow in Ha. rewrite nth_overflow in Ha; [done|].
    rewrite (hk_length _ _ _ H). lia. }
  specialize (Ef i ltac:(apply in_seq; lia)). cbn beta in Ef. rewrite Ha in Ef. cbn [negb orb] in Ef.
  by apply andb_true_iff in Ef as [_ Ef].
Qed.

(** ** Runs return

    When every call on a flow returns and keeps [G], a run does not get stuck: every file that is
    closed is open. *)

Context (Htot : forall c h f hdr payload acks st, static h = h0 -> okst st -> G f -> lf_active f = true ->
  lf_flow_id f = wh_flow_id hdr -> T c hdr payload ->
  exists b f' acks' st', ingest_flow c h f hdr payload acks st = Some (b, f', acks', st') /\ G f' /\ okst st').

Record hub_good (h : Hub) (st : St) : Prop := {
  hg_static : static h = h0;
  hg_length : length (lh_flows h) = RELAY_MAX_FLOWS;
  hg_state : okst st;
  hg_flows : forall i, lf_active (hub_flow h i) = true -> G (hub_flow h i) }.

Lemma hub_good_stats h st s : hub_good h st -> hub_good (hub_with_stats s h) st.
Proof using Type. by intros []. Qed.

Lemma hub_good_set h st i f :
  hub_good h st -> i < RELAY_MAX_FLOWS -> (lf_active f = true -> G f) -> hub_good (hub_set_flow i f h) st.
Proof using Type.
  intros [H1 H2 H3 H4] Hi Hf. split; try done; cbn [lh_flows hub_set_flow hub_with_flows]; [by rewrite length_insert|].
  intros j. rewrite hub_flow_set by lia. case_decide; [done|apply H4].
Qed.

Lemma deliver_to_returns c i datagram hdr h io st :
  hub_good h st -> i < RELAY_MAX_FLOWS -> lf_active (hub_flow h i) = true ->
  lf_flow_id (hub_flow h i) = wh_flow_id hdr -> T c hdr (payload_in hdr datagram) ->
  exists rc h' io' st', deliver_to write_ok sendto clock realloc_ok c i datagram hdr h io st = Some (rc, h', io', st') /\
    hub_good h' st'.
Proof using Hcnt Htot.
  intros H Hi Ha Hid HT. pose proof H as [H1 H2 H3 H4]. unfold deliver_to. destruct (negb (delivery_sizes_ok _ _ _)).
  - do 4 eexists. split; [done|]. apply hub_good_stats, hub_good_set; [done|done|]. intros _. apply (Hcnt (hub_flow h i)). by apply H4.
  - fold (payload_in hdr datagram).
    destruct (Htot c h (hub_flow h i) hdr (payload_in hdr datagram) (io_acks io) st H1 H3 (H4 i Ha) Ha Hid HT)
      as (b & f & acks & st1 & Hf & HG1 & Hst1).
    rewrite Hf. cbn [mbind option_bind]. do 4 eexists. split; [done|]. apply hub_good_stats, hub_good_set; [|done|intros _; by apply Hcnt].
    by split.
Qed.

(** The file that [open_flow_output] has opened can be closed. *)
Lemma open_flow_close (h : Hub) id io file close io' :
  open_flow_output fopen_ok h id io = (Some (file, close), io') ->
  is_Some (match close, file with true, FILE_OPENED f => fclose f io' | _, _ => Some io' end).
Proof using Type.
  unfold open_flow_output. destruct (bool_decide _).
  - destruct (lh_single_output h); [|done]. by intros [= <- <- <-].
  - destruct (_ <=? _); [done|]. unfold fopen. destruct (fopen_ok _); [|done]. cbn [option_map]. intros [= <- <- <-].
    unfold fclose. cbn [io_open]. rewrite existsb_app. cbn [existsb fst]. by rewrite Nat.eqb_refl, orb_true_r.
Qed.

Lemma bind_returns alloc c hdr payload h io st (id := wh_flow_id hdr) :
  hub_good h st -> T c hdr payload ->
  exists slot cap h' io', bind_new_flow fopen_ok once alloc id h io st = Some (slot, cap, h', io') /\ hub_good h' st /\
  match slot with
  | Some i => i < RELAY_MAX_FLOWS /\ lf_active (hub_flow h' i) = true /\ lf_flow_id (hub_flow h' i) = id
  | None => True
  end.
Proof using Hnew.
  intros H HT. pose proof H as [H1 H2 H3 H4]. unfold bind_new_flow. destruct (_ && _); [by do 4 eexists|].
  destruct (find_free_slot h) as [i|] eqn:Hfree; [|by do 4 eexists]. apply find_seq_some in Hfree as [Hi _].
  destruct (open_flow_output fopen_ok h id io) as [[[file close]|] io1] eqn:Hop;
    [|do 4 eexists; split; [done|]; split; [by apply hub_good_set|done]].
  destruct (create_flow_decoder once alloc h id st) as [[dec rcv]|] eqn:Hc.
  - do 4 eexists. split; [done|]. split; [apply hub_good_set; [done|done|]; intros _; by eapply Hnew|].
    split; [done|]. by rewrite hub_flow_set, decide_True by lia.
  - destruct (open_flow_close _ _ _ _ _ _ Hop) as [io2 ->]. cbn [mbind option_bind]. do 4 eexists. split; [done|].
    split; [by apply hub_good_set|done].
Qed.

Lemma delivery_returns c alloc datagram hdr h io st :
  hub_good h st -> T c hdr (payload_in hdr datagram) ->
  exists rc h' io' st', delivery c alloc (Some datagram) (Some hdr) h io st = Some (rc, h', io', st') /\ hub_good h' st'.
Proof using Hcnt Hnew Htot.
  intros H HT. unfold local_decode_hub_delivery.
  do 4 (match goal with |- exists _ _ _ _, (if ?c then _ else _) = _ /\ _ => destruct c end;
    [do 4 eexists; split; [done|]; by try apply hub_good_stats|]).
  destruct (find_flow h (wh_flow_id hdr)) as [i|] eqn:Hfind.
  - apply find_seq_some in Hfind as [Hi [Ha Hid%Z.eqb_eq]%andb_true_iff]. by apply deliver_to_returns.
  - destruct (_ && _); [do 4 eexists; split; [done|]; by apply hub_good_stats|].
    destruct (bind_returns alloc c hdr (payload_in hdr datagram) h io st H HT) as (slot & cap & h1 & io1 & -> & Hh1 & Hs).
    cbn [mbind option_bind]. destruct slot as [i|]; [destruct Hs as (Hi & Ha & Hid); by apply deliver_to_returns|].
    do 4 eexists. split; [done|]. by apply hub_good_stats.
Qed.

Lemma hub_run_returns ds h io st :
  hub_good h st -> Forall arrives ds ->
  exists h' io' st', hub_run ds h io st = Some (h', io', st') /\ hub_good h' st'.
Proof using Hcnt Hnew Htot.
  intros H Hds. revert h io st H. induction Hds as [|x ds Hx _ IH]; intros h io st H; cbn [hub_run]; [by do 3 eexists|].
  destruct (header_in (av_datagram x)) as [hdr|] eqn:Hh; [|by apply IH].
  destruct (delivery_returns (av_calloc x) (av_alloc x) (av_datagram x) hdr h io st H (Hx hdr Hh)) as (rc & h1 & io1 & st1 & -> & H1).
  cbn [mbind option_bind]. by apply IH.
Qed.

End Hub.

(** ** Block decoders *)

Section Blocks.
Context `{host : HostOrder} `{wh : Wirehair} {St : Type}.
Context (fopen_ok : list byte -> bool) (write_ok : Z -> nat -> bool) (sendto : nat -> list SendtoResult).
Context (clock : nat -> Z) (realloc_ok once : bool).
Context (codec : option (CodecVTable St)) (ok : St -> Prop) (k r : nat).
Context (code : list byte -> Prop) (EC : ErasureCodec codec ok k r code).
(** The streams by flow id. *)
Context (strms : Z -> Stream) (HS : forall f, stream_ok k code (strms f)).
Context (tops : Z -> Z) (Htop : forall f, (0 <= tops f /\ tops f + Z.of_nat WIRE_FLOW_GROUP_WINDOW <= 2 ^ 64)%Z).
Abbreviation Hub := (LocalDecodeHub (wh := wh) (St := St)).
Abbreviation Flow := (LocalDecodeFlow (wh := wh) (St := St)).

(** A strict hub for the codec, as [local_decode_hub_init] sets it up. *)
Definition block_hub (h : Hub) : Prop :=
  lh_wirehair_mode h = false /\ lh_codec h = codec /\ lh_expected_shards h = Z.of_nat (k + r) /\
  lh_input_size h = k * PKG_SIZE /\ lh_best_effort h = false.

(** The decoder of a flow follows its stream. *)
Definition block_flow (f : Flow) : Prop :=
  exists d, lf_dec f = Some d /\ lf_written f = d_outputs d /\
    (exists R, at_rest ok k r (strms (lf_flow_id f)) (tops (lf_flow_id f)) R d) /\ d_best_effort d = false /\
    (d_end_seen d = true -> d_end_block_count d = tops (lf_flow_id f)).

(** A datagram of the stream of its flow, or one that carries nothing; an end is the true one. *)
Definition block_trusted (c : bool) (hdr : WireHeader) (payload : option (list byte)) : Prop :=
  let f := wh_flow_id hdr in
  trusted k r (strms f) (tops f) (mkDatagram hdr payload (match payload with Some p => length p | None => 0 end) c) /\
  (wh_type hdr = WIRE_TYPE_END -> wh_block_id hdr = tops f).

Lemma at_rest_codec strm top R st d : ok st -> at_rest ok k r strm top R d -> at_rest ok k r strm top R (with_codec_state st d).
Proof using Type. intros Hst [(U & HU & H) Hs Hn Hc]. split; [|done..]. exists U. split; [done|]. destruct H. by split. Qed.

Lemma block_new h0 alloc (h : Hub) id st dec rcv file close :
  block_hub h0 -> static h = static h0 -> ok st -> create_flow_decoder once alloc h id st = Some (dec, rcv) ->
  block_flow (mkFlow true id (Some file) close dec rcv 0 0 0 []).
Proof using EC Htop.
  intros (B1 & B2 & B3 & B4 & B5) (_ & S2 & S3 & S4 & S5 & S6 & _)%static_fields Hst. unfold create_flow_decoder.
  rewrite S2, S3, S4, S5, S6, B1, B2, B3, B4, B5. destruct alloc; [|done]. cbn [negb].
  destruct (wire_flow_decoder_create _ _ _ _ _) as [d|] eqn:Hd; [|done]. cbn [option_map]. intros [= <- <-].
  destruct (new_decoder_rest codec ok k r code EC (strms id) (tops id) (Htop id) st false d Hst Hd) as (R1 & R2 & R3 & R4).
  exists d. split; [done|]. split; [|cbn [lf_flow_id]; split; [by eexists|]; split; [done|congruence]].
  unfold wire_flow_decoder_create in Hd. destruct codec; [|done]. destruct (_ =? _)%Z; [done|]. by injection Hd as <-.
Qed.

Lemma block_ingest h0 c (h : Hub) f hdr payload acks st f' acks' st' :
  block_hub h0 -> static h = static h0 -> ok st -> block_flow f -> lf_flow_id f = wh_flow_id hdr ->
  block_trusted c hdr payload ->
  flow_ingest write_ok sendto clock realloc_ok c h f hdr payload acks st = Some (true, f', acks', st') ->
  block_flow f' /\ ok st'.
Proof using EC HS Htop.
  intros (B1 & B2 & B3 & B4 & B5) (_ & S2 & _ & _ & _ & S6 & _)%static_fields Hst (d & D1 & D2 & [R D3] & D4 & D5) Hid [Ht He].
  unfold flow_ingest. rewrite S2, S6, B1, B2, D1. cbn [mbind option_bind]. rewrite <- Hid in Ht, He.
  pose proof (ingest_spec codec ok k r code EC (write_ok (lf_flow_id f)) clock realloc_ok (strms (lf_flow_id f)) (HS _)
    (tops (lf_flow_id f)) (proj2 (Htop _)) _ _ (at_rest_codec _ _ R st d Hst D3) Ht) as (b & d' & Hi & Hout).
  unfold ingest in Hi. cbn [dg_header dg_payload dg_len dg_calloc] in Hi. rewrite Hi. cbn [mbind option_bind].
  intros [= -> <- _ <-]. destruct Hout as (R' & _ & R1 & R2 & _). split; cycle 1.
  { destruct (ar_inv _ _ _ _ _ _ _ R1) as (U & _ & H). apply (di_ok _ _ _ _ _ _ _ _ _ H). }
  exists d'. cbn [lf_dec lf_written lf_flow_id]. split; [done|]. split; [done|]. split; [by exists R'|].
  split; [by rewrite R2|]. intros Hseen.
  destruct (ingest_told codec _ _ _ _ _ _ _ _ _ _ Hi) as [E|[Ety E]]; unfold ends in E; cbn in E.
  - injection E as E1 E2. rewrite E2. apply D5. congruence.
  - injection E as _ E2. rewrite E2. by apply He.
Qed.

(** When every write succeeds, so does every call. *)
Lemma block_ingest_returns h0 c (h : Hub) f hdr payload acks st :
  (forall id n, write_ok id n = true) ->
  block_hub h0 -> static h = static h0 -> ok st -> block_flow f -> lf_flow_id f = wh_flow_id hdr ->
  block_trusted c hdr payload ->
  exists f' acks' st', flow_ingest write_ok sendto clock realloc_ok c h f hdr payload acks st = Some (true, f', acks', st').
Proof using EC HS Htop.
  intros Hw (B1 & B2 & B3 & B4 & B5) (_ & S2 & _ & _ & _ & S6 & _)%static_fields Hst (d & D1 & D2 & [R D3] & D4 & D5) Hid [Ht He].
  unfold flow_ingest. rewrite S2, S6, B1, B2, D1. cbn [mbind option_bind]. rewrite <- Hid in Ht, He.
  pose proof (ingest_spec codec ok k r code EC (write_ok (lf_flow_id f)) clock realloc_ok (strms (lf_flow_id f)) (HS _)
    (tops (lf_flow_id f)) (proj2 (Htop _)) _ _ (at_rest_codec _ _ R st d Hst D3) Ht) as (b & d' & Hi & Hout).
  unfold ingest in Hi. cbn [dg_header dg_payload dg_len dg_calloc] in Hi. rewrite Hi. cbn [mbind option_bind].
  destruct b; [by do 3 eexists|]. destruct Hout as [n Hn]. by rewrite Hw in Hn.
Qed.

(** A complete flow is written. *)
Lemma block_complete (h : Hub) f :
  lh_wirehair_mode h = false -> block_flow f -> local_flow_complete h f = true ->
  lf_written f = blocks_upto (strms (lf_flow_id f)) (Z.to_nat (tops (lf_flow_id f))).
Proof using Type.
  intros Hm (d & D1 & D2 & [R D3] & D4 & D5). unfold local_flow_complete. rewrite Hm, D1, D2.
  cbn [wire_flow_decoder_is_complete]. intros Hc. destruct (ar_complete _ _ _ _ _ _ _ D3 Hc) as [Hseen Hge].
  specialize (D5 Hseen). destruct (ar_inv _ _ _ _ _ _ _ D3) as (U & HU & H).
  pose proof (di_reach _ _ _ _ _ _ _ _ _ H D4) as Hreach. pose proof (di_out _ _ _ _ _ _ _ _ _ H) as Hout. rewrite D4 in Hout.
  rewrite (in_order_strict k _ _ _ _ _ Hout). do 2 f_equal. lia.
Qed.

End Blocks.

(** ** Receivers of segments *)

Section Segments.
Context `{host : HostOrder} `{wh : Wirehair} `{!FountainCode wh} {St : Type}.
Context (fopen_ok : list byte -> bool) (write_ok : Z -> nat -> bool) (sendto : nat -> list SendtoResult).
Context (clock : nat -> Z) (realloc_ok once : bool).
Abbreviation Hub := (LocalDecodeHub (wh := wh) (St := St)).
Abbreviation Flow := (LocalDecodeFlow (wh := wh) (St := St)).
Abbreviation output := (receiver_output write_ok).
Abbreviation ack := (receiver_ack (St := St) sendto).

(** No write has failed. *)
Definition all_written (id : Z) (w : list (list byte)) : Prop := forall j, j < length w -> write_ok id j = true.

(** A result with code 0 comes with no failed write. *)
Definition writes_well (id : Z) (c : RecvCtx) (res : option (Z * WirehairSegmentReceiver * RecvCtx)) : Prop :=
  match res with
  | Some (rc, _, c') => rc = 0%Z -> all_written id (fst c) -> all_written id (fst c')
  | None => True
  end.

Lemma writes_well_same id c rc r c' : fst c' = fst c -> writes_well id c (Some (rc, r, c')).
Proof using Type. intros E. unfold writes_well. by rewrite E. Qed.

Lemma emit_return_ack_fst h o i b r c : fst (snd (emit_return_ack (ack h) o i b r c)) = fst c.
Proof using Type.
  unfold emit_return_ack, receiver_ack. destruct (sc_ack_enabled _); [|done]. destruct (_ =? 0)%Z; [done|].
  by destruct (local_decode_ack_output _ _ _ _) as [rc acks].
Qed.

Lemma emit_ack_fst h i r c : fst (snd (emit_ack (ack h) i r c)) = fst c.
Proof using Type.
  unfold emit_ack. destruct (negb _); [done|].
  match goal with |- context [emit_return_ack (ack h) ?o ?s ?b ?x c] => pose proof (emit_return_ack_fst h o s b x c) as E;
    destruct (emit_return_ack (ack h) o s b x c) as [[rc r1] c1] end. cbn [snd] in E. by destruct (negb _).
Qed.

Lemma emit_ready_loop_writes turns r c :
  writes_well (rv_flow_id r) c (emit_ready_loop output turns r c).
Proof using Type.
  revert r c. induction turns as [|turns IH]; intros r c; cbn [emit_ready_loop]; destruct (find_slot _ _) as [i|];
    try (by apply writes_well_same); destruct (negb (bool_decide _)); try (by apply writes_well_same); [done|].
  unfold receiver_output, local_decode_file_output. destruct (write_ok _ _) eqn:Hw; cbn [Z.eqb negb]; [|done].
  set (r1 := rv_emit _ _ _). set (c1 := (_, _)). assert (E : rv_flow_id r1 = rv_flow_id r).
  { unfold r1, release_slot, clear_recovered. cbn. by repeat case_match. }
  specialize (IH r1 c1). rewrite E in IH. unfold writes_well in *. destruct (emit_ready_loop _ _ _ _) as [[[rc r2] c2]|]; [|done].
  intros Hrc Hall. apply IH; [done|]. cbn [fst c1]. intros j Hj. rewrite length_app in Hj. cbn in Hj.
  destruct (decide (j = length (fst c))) as [->|]; [done|]. apply Hall. lia.
Qed.

Lemma emit_ready_writes r c : writes_well (rv_flow_id r) c (emit_ready_segments output r c).
Proof using Type.
  unfold emit_ready_segments. pose proof (emit_ready_loop_writes (length (rv_slots r)) r c) as H.
  destruct (emit_ready_loop _ _ _ _) as [[[[] r1] c1]|]; done.
Qed.

Lemma decode_packet_writes h i hdr payload r c :
  writes_well (rv_flow_id r) c (decode_packet output (ack h) i hdr payload r c).
Proof using Type.
  unfold decode_packet. destruct (sl_decoder _) as [d|]; [|done]. destruct (wirehair_decode _ _ _) as [res d1].
  destruct res; try (by apply writes_well_same). destruct (wirehair_recover _ _) as [res bytes].
  destruct (negb _); [by apply writes_well_same|].
  match goal with |- context [emit_ack (ack h) i ?x c] => set (r1 := x) end.
  pose proof (emit_ack_fst h i r1 c) as E. assert (Ef : rv_flow_id (snd (fst (emit_ack (ack h) i r1 c))) = rv_flow_id r).
  { unfold emit_ack, emit_return_ack. repeat case_match; simplify_eq; done. }
  destruct (emit_ack (ack h) i r1 c) as [[rc r2] c2]. cbn [fst snd] in E, Ef.
  destruct (negb _); [by apply writes_well_same|]. pose proof (emit_ready_writes r2 c2) as H. rewrite Ef in H.
  unfold writes_well in *. by rewrite E in H.
Qed.

Lemma slot_packet_writes h i hdr payload r c :
  writes_well (rv_flow_id r) c (slot_packet output (ack h) i hdr payload r c).
Proof using Type.
  unfold slot_packet. destruct (_ || _); [by apply writes_well_same|]. destruct (bool_decide _); [|apply decode_packet_writes].
  pose proof (emit_ack_fst h i r c) as E. destruct (emit_ack (ack h) i r c) as [[rc r2] c2]. by apply writes_well_same.
Qed.

Lemma receiver_ingest_writes alloc h hdr payload r c :
  writes_well (rv_flow_id r) c (wirehair_segment_receiver_ingest output (ack h) alloc hdr payload r c).
Proof using Type.
  unfold wirehair_segment_receiver_ingest. destruct (_ || _); [by apply writes_well_same|].
  destruct (_ =? _)%Z; [exact (emit_ready_writes (rv_end (wh_block_id hdr) r) c)|].
  destruct (_ && _).
  { destruct (_ && _); [|by apply writes_well_same].
    pose proof (emit_return_ack_fst h (wh_origin_node hdr) (wh_block_id hdr) (wh_segment_bytes hdr) r c) as E.
    destruct (emit_return_ack (ack h) _ _ _ r c) as [[rc r2] c2]. by apply writes_well_same. }
  destruct payload as [p|]; [|by apply writes_well_same]. destruct (_ || _); [by apply writes_well_same|].
  destruct (_ >=? _)%Z; [by apply writes_well_same|]. destruct (find_slot _ _) as [i|]; [apply slot_packet_writes|].
  destruct (negb _); [by apply writes_well_same|].
  assert (Ef : rv_flow_id (snd (allocate_slot alloc hdr r)) = rv_flow_id r).
  { unfold allocate_slot, release_slot, clear_recovered. repeat case_match; simplify_eq; done. }
  destruct (allocate_slot alloc hdr r) as [[i|] r1]; cbn [snd] in Ef; [|by apply writes_well_same].
  rewrite <- Ef. apply slot_packet_writes.
Qed.

(** The segments by flow id. *)
Context (scfg : WirehairSegmentConfig) (Hscfg : config_ok scfg).
Context (segs : Z -> list (list byte)) (Hsegs : forall f, Forall (segment_ok scfg) (segs f)).
Context (Hcount : forall f, (Z.of_nat (length (segs f)) < 2 ^ 63)%Z).

(** A hub for segments, as [local_decode_hub_init] sets it up. *)
Definition segment_hub (h : Hub) : Prop := lh_wirehair_mode h = true /\ config_ok (lh_wirehair h).

(** The receiver of a flow has written the first segments of its stream. *)
Definition segment_flow (f : Flow) : Prop :=
  exists r next, lf_wirehair_dec f = Some r /\ recv_ok (segs (lf_flow_id f)) (lf_flow_id f) next r /\
    all_written (lf_flow_id f) (lf_written f) /\ lf_written f = take next (segs (lf_flow_id f)).

(** A packet of the stream of its flow, whatever its TTL. *)
Definition segment_trusted (c : bool) (hdr : WireHeader) (payload : option (list byte)) : Prop :=
  in_range 32 (wh_flow_id hdr) /\
  exists dst ttl, genuine scfg (segs (wh_flow_id hdr)) (wh_flow_id hdr) dst ttl hdr payload.

Lemma recv_ok_start l flow r : recv_ok [] flow 0 r -> rv_end_seen r = false -> recv_ok l flow 0 r.
Proof using Type.
  intros [] He. split; try done; [lia| |by rewrite He|].
  - intros i. destruct (ro_holds i) as [H|(j & seg & H & _)]; [by left|done].
  - intros Hc. destruct (ro_complete Hc) as [E _]. congruence.
Qed.

Lemma segment_new h0 alloc (h : Hub) id st dec rcv file close :
  segment_hub h0 -> static h = static h0 -> in_range 32 id ->
  create_flow_decoder once alloc h id st = Some (dec, rcv) ->
  segment_flow (mkFlow true id (Some file) close dec rcv 0 0 0 []).
Proof using Type.
  intros [B1 B2] (_ & _ & _ & _ & _ & S6 & S7 & _)%static_fields Hid. unfold create_flow_decoder. rewrite S6, S7, B1.
  destruct (wirehair_segment_receiver_create _ _ _ _ _) as [r|] eqn:Hr; [|done]. cbn [option_map]. intros [= <- <-].
  destruct alloc; [|exfalso; unfold wirehair_segment_receiver_create in Hr; by repeat case_match].
  destruct (receiver_create_ok once (lh_wirehair h0) id r B2 Hid Hr) as (R1 & _ & _ & _ & R5).
  exists r, 0. cbn [lf_wirehair_dec lf_flow_id lf_written]. split; [done|]. split; [by apply recv_ok_start|].
  split; [|done]. intros j Hj. cbn in Hj. lia.
Qed.

(** A packet of the stream advances the receiver; the file may be behind only when a write has failed. *)
Lemma segment_step c (h : Hub) (f : Flow) r next hdr payload acks (id := lf_flow_id f) :
  recv_ok (segs id) id next r -> all_written id (lf_written f) -> lf_written f = take next (segs id) ->
  id = wh_flow_id hdr -> segment_trusted c hdr payload ->
  exists rc r' c' next', wirehair_segment_receiver_ingest output (ack h) c hdr payload r (lf_written f, acks) = Some (rc, r', c') /\
    recv_ok (segs id) id next' r' /\ (fst c' = take next' (segs id) \/ ~ all_written id (fst c')).
Proof using FountainCode0 Hcount Hscfg Hsegs clock.
  intros D2 D3 D4 Hid [Hrange (dst & ttl & Hg)]. rewrite <- Hid in Hg.
  set (W := fun n (_ : nat -> Prop) (x : RecvCtx) => fst x = take n (segs id) \/ ~ all_written id (fst x)).
  assert (Hreach : in_reach next r hdr \/ ~ in_reach next r hdr).
  { unfold in_reach. destruct (decide (wh_type hdr = WIRE_TYPE_END)); [by left; left|].
    destruct (Z_lt_dec (wh_block_id hdr) (Z.of_nat next + rv_window r)); [by left; right|right; tauto]. }
  destruct Hreach as [Hin|Hout].
  - destruct (ingest_ok scfg Hscfg (segs id) (Hsegs id) (Hcount id) id dst ttl output (ack h) W) with
      (reliable := False) (ended := True) (alloc := c) (next := next) (r := r) (c := (lf_written f, acks)) (h := hdr) (payload := payload)
      as (rc & r' & c' & next' & E & R & _ & HW & _); try done.
    + intros n R seg x rc x' Hseg HW. unfold receiver_output, local_decode_file_output.
      destruct (write_ok id (length (fst x))) eqn:Hok; intros [= <- <-]; cbn [Z.eqb].
      * destruct HW as [HW|HW]; [left|right].
        -- cbn [fst]. by rewrite HW, (take_S_r _ _ _ Hseg).
        -- cbn [fst]. intros Hall. apply HW. intros j Hj. apply Hall. rewrite length_app. lia.
      * right. cbn [fst]. intros Hall. specialize (Hall (length (fst x)) ltac:(rewrite length_app; cbn; lia)). congruence.
    + intros n R i a g x rc x' Ha _ _ HW. unfold receiver_ack in Ha. destruct (sc_ack_enabled _); [|done]. injection Ha as <-.
      destruct (local_decode_ack_output _ _ _ _) as [rc1 acks1]. intros [= <- <-]. exact HW.
    + by left.
    + exists rc, r', c', next'. done.
  - do 4 eexists. split; [by eapply (ingest_ahead scfg Hscfg (segs id) (Hsegs id) (Hcount id) id dst ttl)|].
    split; [by apply recv_ok_counts|]. by left.
Qed.

Lemma segment_ingest h0 c (h : Hub) f hdr payload acks st f' acks' st' :
  segment_hub h0 -> static h = static h0 -> segment_flow f -> lf_flow_id f = wh_flow_id hdr ->
  segment_trusted c hdr payload ->
  flow_ingest write_ok sendto clock realloc_ok c h f hdr payload acks st = Some (true, f', acks', st') ->
  segment_flow f' /\ st' = st.
Proof using FountainCode0 Hcount Hscfg Hsegs.
  intros [B1 B2] (_ & _ & _ & _ & _ & S6 & S7 & _)%static_fields (r & next & D1 & D2 & D3 & D4) Hid Ht.
  unfold flow_ingest. rewrite S6, B1, D1. cbn [mbind option_bind].
  pose proof (receiver_ingest_writes c h hdr payload r (lf_written f, acks)) as Hw. rewrite (ro_flow _ _ _ _ D2) in Hw.
  destruct (segment_step c h f r next hdr payload acks D2 D3 D4 Hid Ht) as (rc & r' & [w a] & next' & E & R & HW).
  rewrite E in Hw |- *. cbn [mbind option_bind]. intros [= Hrc <- _ <-]. split; [|done]. apply Z.eqb_eq in Hrc as ->.
  cbn [writes_well fst] in Hw. specialize (Hw eq_refl D3). exists r', next'. cbn [lf_wirehair_dec lf_flow_id lf_written].
  split_and!; try done. destruct HW as [HW|HW]; [exact HW|]. by destruct HW.
Qed.

(** When every write succeeds the receiver keeps up, also when an acknowledgement is not sent. *)
Lemma segment_ingest_returns h0 c (h : Hub) f hdr payload acks st :
  (forall id n, write_ok id n = true) ->
  segment_hub h0 -> static h = static h0 -> segment_flow f -> lf_flow_id f = wh_flow_id hdr ->
  segment_trusted c hdr payload ->
  exists b f' acks' st', flow_ingest write_ok sendto clock realloc_ok c h f hdr payload acks st = Some (b, f', acks', st') /\
    segment_flow f' /\ st' = st.
Proof using FountainCode0 Hcount Hscfg Hsegs.
  intros Hwr [B1 B2] (_ & _ & _ & _ & _ & S6 & S7 & _)%static_fields (r & next & D1 & D2 & D3 & D4) Hid Ht.
  unfold flow_ingest. rewrite S6, B1, D1. cbn [mbind option_bind].
  destruct (segment_step c h f r next hdr payload acks D2 D3 D4 Hid Ht) as (rc & r' & [w a] & next' & E & R & HW).
  rewrite E. cbn [mbind option_bind]. do 4 eexists. split; [done|]. split; [|done].
  assert (Hall : all_written (lf_flow_id f) w) by (intros j _; apply Hwr).
  exists r', next'. cbn [lf_wirehair_dec lf_flow_id lf_written]. split_and!; try done. destruct HW as [HW|HW]; [exact HW|]. by destruct HW.
Qed.

(** A complete flow is written. *)
Lemma segment_complete (h : Hub) f :
  lh_wirehair_mode h = true -> segment_flow f -> local_flow_complete h f = true -> lf_written f = segs (lf_flow_id f).
Proof using Type.
  intros Hm (r & next & D1 & D2 & _ & D4). unfold local_flow_complete. rewrite Hm, D1. cbn [wirehair_segment_receiver_complete].
  intros Hc. destruct (ro_complete _ _ _ _ D2 Hc) as [_ ->]. by rewrite D4, take_ge.
Qed.

End Segments.
