(* ===== verification/LocalTheorems.v ===== *)
(** * Files through the network

    A source cuts a file into blocks and emits their shards; relays carry some of the datagrams, in
    any order and repeatedly, lowering their TTL; the hub of the destination writes the flows.  What
    the strict check of the hub accepts are the files. *)

From Stdlib Require Import Strings.Byte QArith.QArith.
From S2P Require Import Prelude WireHeader Gf256 ByteVec RsMatrix RsGenerator RsEncode Codec CodecSpec RsCodec RsCodecSpec.
From S2P Require Import RsRecover CodecInterface.
From S2P Require Import WirehairSegment WirehairReceiver WirehairSegmentSpec WirehairReceiverSpec WirehairSendSpec.
From S2P Require Import Relay RelayIngress RelayTheorems.
From S2P Require Import WireDecoder WireDecoderSpec WireDecoderRun WireDecoderTheorems.
From S2P Require Import LocalSource LocalDecode LocalDecodeSpec.

Local Open Scope nat_scope.

(** ** Hops *)

Definition with_ttl (t : Z) (h : WireHeader) : WireHeader :=
  mkWireHeader (wh_version h) (wh_type h) (wh_final_dst h) t (wh_flow_id h) (wh_block_id h) (wh_shard_index h)
    (wh_shard_count h) (wh_valid_len h) (wh_payload_len h) (wh_encode_begin_ns h) (wh_encode_end_ns h) (wh_origin_node h)
    (wh_flags h) (wh_segment_bytes h).

Section Hops.
Context `{host : HostOrder}.

(** The datagram after some relays have forwarded it: [relay_forwards_one_hop] is one step. *)
Inductive hops (d : list byte) : list byte -> Prop :=
| hops_none : hops d d
| hops_next d1 h : hops d d1 -> header_in d1 = Some h -> (0 < wh_ttl h)%Z -> hops d (ttl_down h d1).

Lemma bytes_are_bytes (d : list byte) : Forall is_byte (map byte_to_Z d).
Proof. induction d; constructor; [apply byte_to_Z_range|done]. Qed.

Lemma drop_ttl_down h d : drop (wire_header_size h) (ttl_down h d) = drop (wire_header_size h) d.
Proof.
  unfold wire_header_size, ttl_down, is_v4. destruct (_ =? _)%Z; rewrite !drop_insert_lt by (unfold WIRE_HEADER_SIZE, WIRE_V4_HEADER_SIZE; lia); done.
Qed.

(** A relay changes the TTL, and neither the length nor the payload. *)
Lemma hops_header d d' h :
  hops d d' -> header_in d = Some h ->
  exists t, header_in d' = Some (with_ttl t h) /\ length d' = length d /\
    drop (wire_header_size h) d' = drop (wire_header_size h) d.
Proof.
  intros Hh Hd. induction Hh as [|d1 h1 _ (t & IH1 & IH2 & IH3) Hd1 Ht].
  { exists (wh_ttl h). by destruct h. }
  rewrite Hd1 in IH1. injection IH1 as ->. pose proof (decode_decoded _ _ (bytes_are_bytes d1) Hd1) as Hdec.
  pose proof (header_of_ttl_down d1 _ Hdec Ht) as E. exists (u8 (t - 1)). split; [exact E|].
  rewrite length_ttl_down. split; [done|]. etrans; [|exact IH3]. apply (drop_ttl_down (with_ttl t h) d1).
Qed.

(** ** Datagrams of a source *)

Lemma store_bytes_are n v : Forall is_byte (store n v).
Proof. unfold store. destruct host_little; [apply le_bytes_is_byte|apply be_bytes_is_byte]. Qed.

Lemma base_bytes_are h ver : is_byte ver -> header_ok h -> Forall is_byte (base_bytes h ver).
Proof.
  intros Hv (Ht & Hd & Hl & _). unfold base_bytes, wire64.
  rewrite !Forall_app. split_and!; try apply store_bytes_are; try apply be_bytes_is_byte; (constructor; [done|constructor]).
Qed.

Lemma map_bytes l : Forall is_byte l -> map byte_to_Z (map Z_to_byte l) = l.
Proof. induction 1 as [|b l Hb _ IH]; [done|]. cbn. by rewrite byte_to_Z_to_byte, IH. Qed.

Lemma packed_header hdr payload :
  header_ok hdr -> wh_version hdr <> WIRE_VERSION_V4 -> length payload <= PKG_SIZE ->
  header_in (packed hdr payload) = Some (as_v3 hdr) /\ length (packed hdr payload) = 44 + length payload /\
  drop 44 (packed hdr payload) = payload.
Proof.
  intros Hok Hv Hl. rewrite packed_v3 by done. unfold header_in. rewrite List.map_app, map_bytes, decode_v3_bytes by
    (done || apply base_bytes_are; done). split; [done|].
  assert (length (map Z_to_byte (base_bytes hdr WIRE_VERSION_V3)) = 44) as E by (rewrite length_map; apply length_base_bytes).
  rewrite length_app, E. split; [done|]. by rewrite drop_app_length'.
Qed.

Lemma packed_header_v4 hdr payload :
  header_ok hdr -> wh_version hdr = WIRE_VERSION_V4 -> length payload <= PKG_SIZE ->
  header_in (packed hdr payload) = Some (as_v4 hdr) /\ length (packed hdr payload) = 52 + length payload /\
  drop 52 (packed hdr payload) = payload.
Proof.
  intros Hok Hv Hl. rewrite packed_v4 by done. unfold header_in.
  assert (Hb : Forall is_byte (v4_bytes hdr)).
  { pose proof Hok as (_ & _ & _ & _ & _ & _ & _ & _ & _ & _ & _ & Ho & Hf & _). unfold v4_bytes.
    rewrite !Forall_app. split_and!; try apply be_bytes_is_byte; [by apply base_bytes_are|(constructor; [done|constructor])..]. }
  rewrite List.map_app, map_bytes, decode_v4_bytes by done. split; [done|].
  assert (length (map Z_to_byte (v4_bytes hdr)) = 52) as E.
  { rewrite length_map. unfold v4_bytes. by rewrite !length_app, length_base_bytes, !length_be_bytes. }
  rewrite length_app, E. split; [done|]. by rewrite drop_app_length'.
Qed.

End Hops.

(** ** Sources *)

#[local] Opaque PKG_SIZE.

Lemma pkg_pos : 0 < PKG_SIZE.
Proof. pose proof pkg_size_value. lia. Qed.

(** The emit callback of a source and what it has taken; [ok n] is the result of its [n]-th call. *)
Definition EmitLog : Type := nat * list (list byte).
Definition emit_log (ok : nat -> bool) (d : list byte) (e : EmitLog) : Z * EmitLog :=
  if ok (fst e) then (0%Z, (S (fst e), snd e ++ [d])) else ((-1)%Z, (S (fst e), snd e)).

Lemma emit_log_spec ok d e rc e' :
  emit_log ok d e = (rc, e') -> snd e' = if (rc =? 0)%Z then snd e ++ [d] else snd e.
Proof. unfold emit_log. by destruct (ok (fst e)); intros [= <- <-]. Qed.

Section Sources.
Context `{host : HostOrder} `{wh : Wirehair} {St : Type} (once alloc_pad : bool).
Context (Codec_get : CodecKind -> option (CodecVTable St)).

(** A run of [local_source_run] on a file. *)
Record SourceRun := mkSourceRun {
  sr_config : LocalSourceConfig (E := EmitLog);
  sr_input : InputFile;
  sr_clock : nat -> Z;
  sr_state : St;
  sr_emit : nat -> bool }.

(** What it has emitted. *)
Definition source_log (s : SourceRun) : list (list byte) :=
  match local_source_run (emit_log (sr_emit s)) once alloc_pad Codec_get (sr_clock s) (Some (sr_input s)) true
          (sr_config s) source_stats_zero (sr_state s) (0, []) with
  | Some (_, _, _, e) => snd e
  | None => []
  end.

Context (codec : option (CodecVTable St)) (ok : St -> Prop) (k r : nat) (code : list byte -> Prop).
Context (EC : ErasureCodec codec ok k r code) (EN : EncodingCodec codec ok k r code).
(** The length of a block fits the 16 bits of its header field. *)
Context (Hspan : (Z.of_nat (k * PKG_SIZE) < 2 ^ 16)%Z).

Abbreviation file_of s := (in_data (sr_input s)).
Abbreviation blocks_of s := (source_blocks (k * PKG_SIZE) (file_of s)).
Abbreviation flow_of s := (lsc_flow_id (sr_config s)).

(** A source of the codec, with fields that fit their C types. *)
Definition source_ok (s : SourceRun) : Prop :=
  is_wirehair (lsc_codec_kind (sr_config s)) = false /\ Codec_get (lsc_codec_kind (sr_config s)) = codec /\
  ok (sr_state s) /\ in_range 8 (lsc_final_dst (sr_config s)) /\ in_range 8 (lsc_ttl (sr_config s)) /\
  in_range 32 (flow_of s) /\ (forall n, in_range 64 (sr_clock s n)) /\
  (Z.of_nat (length (file_of s)) + Z.of_nat WIRE_FLOW_GROUP_WINDOW <= 2 ^ 64)%Z.

(** The datagrams a source emits are those of a stream of code words. *)
Definition stream_words (s : SourceRun) (words : list (list byte)) : Prop :=
  Forall2 (word_of code) (blocks_of s) words /\
  forall d, In d (source_log s) -> In d (stream_datagrams (sr_clock s) (sr_config s) (k + r) 0 (zip (blocks_of s) words)).

Lemma source_stream s : source_ok s -> exists words, stream_words s words.
Proof using EC EN Hspan.
  intros (Hw & Hc & Hst & _ & _ & _ & _ & Hlen). pose proof pkg_pos as Hp. pose proof (ec_k (ErasureCodec := EC)) as Hk.
  assert (Hk0 : 0 < k * PKG_SIZE) by nia.
  assert (Hnone : source_log s = [] -> exists words, stream_words s words).
  { intros E. destruct (words_exist codec ok k r code EN Hk Hp (sr_state s) (blocks_of s) Hst) as [words Hws].
    { by apply source_blocks_spec. }
    exists words. split; [done|]. by rewrite E. }
  destruct (negb (bool_decide (is_Some (lsc_input_path (sr_config s)))) || (lsc_final_dst (sr_config s) =? 0)%Z ||
     (lsc_ttl (sr_config s) =? 0)%Z || negb (Qle_bool 0 (lsc_source_rate_mbps (sr_config s)))) eqn:Eg.
  { apply Hnone. unfold source_log, local_source_run. by rewrite Eg. }
  assert (Hrun : exists words rc st' s' e', block_loop (emit_log (sr_emit s)) (sr_clock s) (sr_config s) codec (k * PKG_SIZE)
    ((k + r) * PKG_SIZE) (k + r) (S (length (file_of s))) (sr_input s) 0 0 0 (sr_state s) source_stats_zero (0, []) =
    Some (rc, st', s', e') /\ Forall2 (word_of code) (blocks_of s) words /\
    forall d, In d (snd e') -> In d (stream_datagrams (sr_clock s) (sr_config s) (k + r) 0 (zip (blocks_of s) words))).
  { destruct (block_loop_sends (emit_log (sr_emit s)) snd (emit_log_spec (sr_emit s)) (sr_clock s) codec ok k r code EN Hk Hp (sr_config s)
      (S (length (file_of s))) (sr_input s) 0 0 (sr_state s) source_stats_zero (0, [])) as (words & rc & st' & s' & e' & E & _ & Hws & Hs);
      [done|lia|unfold WIRE_FLOW_GROUP_WINDOW in Hlen; lia|].
    exists words, rc, st', s', e'. split; [exact E|]. split; [done|]. intros d Hd.
    assert (Hsent : exists sent, snd e' = sent /\ sent `prefix_of` stream_datagrams (sr_clock s) (sr_config s) (k + r) 0 (zip (blocks_of s) words)).
    { destruct (in_error (sr_input s)); [destruct Hs as (sent & E1 & E2 & _)|destruct Hs as (sent & E1 & E2 & _)]; by exists sent. }
    destruct Hsent as (sent & <- & [rest ->]). apply in_or_app. by left. }
  destruct Hrun as (words & rc & st' & s' & e' & E & Hws & Hin).
  exists words. split; [done|]. intros d. unfold source_log, local_source_run. rewrite Eg, Hw, Hc. unfold block_source_run.
  destruct (ec_some (ErasureCodec := EC)) as [vt Hvt]. rewrite Hvt. rewrite <- Hvt.
  rewrite (ec_input (ErasureCodec := EC)), (en_output (EncodingCodec := EN)) by done.
  pose proof (ec_n (ErasureCodec := EC)) as Hn. pose proof pkg_size_value as Hv.
  rewrite (proj2 (Nat.eqb_neq (k * PKG_SIZE) 0)), (proj2 (Nat.eqb_neq ((k + r) * PKG_SIZE) 0)) by nia.
  rewrite (proj2 (Z.ltb_ge _ _)) by (unfold CODEC_MAX_ENCODE_BLOCK; nia).
  rewrite Nat.Div0.mod_mul, Nat.eqb_refl, Nat.div_mul by lia. cbn [orb negb]. rewrite E. apply Hin.
Qed.

(** ** The stream of a source *)

Definition stream_of (w0 : list byte) (s : SourceRun) (words : list (list byte)) : Stream :=
  mkStream (fun id => default w0 (words !! Z.to_nat id))
    (fun id => match blocks_of s !! Z.to_nat id with Some b => length b | None => 1 end)
    (fun id => sr_clock s (2 * Z.to_nat id)) (fun id => sr_clock s (S (2 * Z.to_nat id))).

Lemma stream_of_ok w0 s words :
  code w0 -> Forall2 (word_of code) (blocks_of s) words -> stream_ok k code (stream_of w0 s words).
Proof using EC Hspan.
  intros Hw0 Hws id. pose proof pkg_pos as Hp. pose proof (ec_k (ErasureCodec := EC)) as Hk.
  assert (Hk0 : 0 < k * PKG_SIZE) by nia. destruct (source_blocks_spec (k * PKG_SIZE) (file_of s) Hk0) as [_ Hb].
  cbn [st_block st_len stream_of]. split.
  - destruct (words !! Z.to_nat id) as [w|] eqn:E; [|done]. cbn.
    destruct (Forall2_lookup_r _ _ _ _ _ Hws E) as (b & _ & Hw). apply Hw.
  - destruct (blocks_of s !! Z.to_nat id) as [b|] eqn:E; [|lia]. by apply (list.Forall_lookup_1 _ _ _ _ Hb E).
Qed.

(** The blocks of the stream are the file. *)
Lemma stream_of_file w0 s words :
  Forall2 (word_of code) (blocks_of s) words -> concat (blocks_upto (stream_of w0 s words) (length words)) = file_of s.
Proof using EC Hspan.
  intros Hws. pose proof pkg_pos as Hp. pose proof (ec_k (ErasureCodec := EC)) as Hk.
  assert (Hk0 : 0 < k * PKG_SIZE) by nia. destruct (source_blocks_spec (k * PKG_SIZE) (file_of s) Hk0) as [Hb _].
  transitivity (concat (blocks_of s)); [f_equal|exact Hb]. apply list_eq. intros i. unfold blocks_upto. rewrite list_lookup_fmap.
  destruct (lt_dec i (length words)) as [Hi|Hi].
  - rewrite lookup_seq_lt by done. cbn. unfold payload_of. cbn [st_block st_len stream_of]. rewrite Nat2Z.id.
    destruct (lookup_lt_is_Some_2 words i Hi) as [w Ew]. destruct (Forall2_lookup_r _ _ _ _ _ Hws Ew) as (b & Eb & _ & Hw).
    rewrite Ew, Eb. cbn. by rewrite Hw.
  - rewrite lookup_seq_ge by lia. cbn. symmetry. apply lookup_ge_None_2. rewrite (Forall2_length Hws). lia.
Qed.

(** The datagrams of a stream, one by one. *)
Lemma in_stream_datagrams clock (config : LocalSourceConfig (E := EmitLog)) n i l d :
  In d (stream_datagrams clock config n i l) ->
  (exists j b w sh, l !! j = Some (b, w) /\ sh < n /\ d = data_datagram clock config n (i + j) b w sh) \/
  d = end_datagram config n (i + length l).
Proof using Type.
  clear Hspan. revert i. induction l as [|[b w] l IH]; intros i; cbn [stream_datagrams].
  { intros [<-|[]]. right. by rewrite Nat.add_0_r. }
  intros [Hd|Hd]%in_app_or.
  - apply in_map_iff in Hd as (sh & <- & Hs%in_seq). left. exists 0, b, w, sh. rewrite Nat.add_0_r. split_and!; [done|lia|done].
  - destruct (IH (S i) Hd) as [(j & b' & w' & sh & H1 & H2 & ->)| ->].
    + left. exists (S j), b', w', sh. replace (i + S j) with (S i + j) by lia. done.
    + right. cbn [length]. by replace (i + S (length l)) with (S i + length l) by lia.
Qed.

(** The number of blocks leaves room for the window. *)
Lemma words_count s words :
  (Z.of_nat (length (file_of s)) + Z.of_nat WIRE_FLOW_GROUP_WINDOW <= 2 ^ 64)%Z ->
  Forall2 (word_of code) (blocks_of s) words -> (Z.of_nat (length words) + Z.of_nat WIRE_FLOW_GROUP_WINDOW <= 2 ^ 64)%Z.
Proof using EC Hspan.
  intros Hlen Hws. pose proof pkg_pos as Hp. pose proof (ec_k (ErasureCodec := EC)) as Hk.
  assert (Hk0 : 0 < k * PKG_SIZE) by nia. destruct (source_blocks_spec (k * PKG_SIZE) (file_of s) Hk0) as [Hcat Hb].
  rewrite <- (Forall2_length Hws). pose proof (concat_count (blocks_of s)) as Hc. rewrite Hcat in Hc.
  specialize (Hc ltac:(eapply list.Forall_impl; [exact Hb|]; intros x Hx; apply Hx)). lia.
Qed.

(** What the hub makes of a datagram of the stream after any number of hops: an honest shard, or the
    end. *)
Lemma stream_trusted w0 s words d d' c hdr (strms : Z -> Stream) (tops : Z -> Z) :
  source_ok s -> stream_words s words -> In d (source_log s) -> hops d d' -> header_in d' = Some hdr ->
  strms (flow_of s) = stream_of w0 s words -> tops (flow_of s) = Z.of_nat (length words) ->
  wh_flow_id hdr = flow_of s /\ block_trusted k r strms tops c hdr (payload_in hdr d').
Proof using EC Hspan.
  intros (_ & _ & _ & Ddst & Dttl & Dflow & Dclock & Dlen) [Hws Hlog] Hd Hh Hhdr Hst Htp.
  pose proof pkg_pos as Hp. pose proof pkg_size_value as Hpv. pose proof (ec_k (ErasureCodec := EC)) as Hk.
  pose proof (ec_n (ErasureCodec := EC)) as Hn. assert (Hk0 : 0 < k * PKG_SIZE) by nia.
  destruct (source_blocks_spec (k * PKG_SIZE) (file_of s) Hk0) as [Hcat Hb].
  pose proof (Forall2_length Hws) as Hlw.
  pose proof (words_count s words Dlen Hws) as Hcnt. unfold WIRE_FLOW_GROUP_WINDOW in Hcnt.
  destruct (in_stream_datagrams _ _ _ _ _ _ (Hlog d Hd)) as [(j & b & w & sh & Hj & Hsh & ->)| ->].
  - apply lookup_zip_with_Some in Hj as (b' & w' & [= <- <-] & Eb & Ew). cbn [Nat.add] in *.
    pose proof (lookup_lt_Some _ _ _ Ew) as Hjw. pose proof (list.Forall_lookup_1 _ _ _ _ Hb Eb) as Hbl. cbn beta in Hbl.
    set (h := data_header (sr_config s) (Z.of_nat j) sh (k + r) (length b) (sr_clock s (2 * j)) (sr_clock s (S (2 * j)))).
    assert (E16 : forall x : nat, (Z.of_nat x < 2 ^ 16)%Z -> u16 (Z.of_nat x) = Z.of_nat x)
      by (intros x Hx; unfold u16; apply uwrap_small; unfold in_range; lia).
    assert (Hok : header_ok h).
    { unfold header_ok, h, data_header. cbn [wh_type wh_final_dst wh_ttl wh_flow_id wh_block_id wh_shard_index wh_shard_count wh_valid_len
        wh_payload_len wh_encode_begin_ns wh_encode_end_ns wh_origin_node wh_flags wh_segment_bytes].
      rewrite !E16 by lia. split_and!; try done; try apply Dclock; unfold in_range; lia. }
    assert (Hsl : length (shard_of_word w sh) = PKG_SIZE).
    { destruct (Forall2_lookup_lr _ _ _ _ _ _ Hws Eb Ew) as [Hcode _]. apply (ec_length (ErasureCodec := EC)) in Hcode.
      unfold shard_of_word. rewrite length_take, length_drop. nia. }
    destruct (packed_header h (shard_of_word w sh) Hok ltac:(done) ltac:(lia)) as (Hp1 & Hp2 & Hp3).
    change (hops (packed h (shard_of_word w sh)) d') in Hh.
    destruct (hops_header _ _ _ Hh Hp1) as (t & Ht1 & Ht2 & Ht3). rewrite Ht1 in Hhdr. injection Hhdr as <-.
    change (wire_header_size (as_v3 h)) with 44 in Ht3. rewrite Hp3 in Ht3. split; [done|].
    unfold payload_in. cbn [wh_type with_ttl as_v3 h data_header]. change (WIRE_TYPE_DATA =? WIRE_TYPE_DATA)%Z with true.
    change (wire_header_size (with_ttl t (as_v3 h))) with 44. cbn match. rewrite Ht3. unfold block_trusted. cbv zeta.
    change (wh_flow_id (with_ttl t (as_v3 h))) with (flow_of s). rewrite Hst, Htp. split; [|done]. split.
    { change (wh_block_id _) with (Z.of_nat j). lia. }
    intros bytes Hc. pose proof (cr_payload _ _ _ _ Hc) as E. cbn in E. injection E as <-.
    split; cbn [dg_header with_ttl as_v3 h data_header wh_block_id wh_shard_index wh_valid_len wh_encode_begin_ns wh_encode_end_ns
      stream_of st_len st_block st_begin st_end]; rewrite ?E16, ?Nat2Z.id, ?Ew, ?Eb by lia; try done; try lia.
    intros x Hx. cbn. unfold shard_of_word, cell, get. by rewrite !nth_lookup, lookup_take_lt, lookup_drop.
  - rewrite length_zip, Hlw, Nat.min_id in *. cbn [Nat.add] in *. set (h := end_header (sr_config s) (Z.of_nat (length words)) (k + r)).
    assert (Hok : header_ok h).
    { unfold header_ok, h, end_header, u16. cbn. rewrite uwrap_small by (unfold in_range; lia).
      split_and!; try done; unfold in_range; lia. }
    destruct (packed_header h [] Hok ltac:(done) ltac:(cbn; lia)) as (Hp1 & Hp2 & Hp3). change (hops (packed h []) d') in Hh.
    destruct (hops_header _ _ _ Hh Hp1) as (t & Ht1 & Ht2 & Ht3). rewrite Ht1 in Hhdr. injection Hhdr as <-. split; [done|].
    unfold block_trusted. cbv zeta. change (wh_flow_id (with_ttl t (as_v3 h))) with (flow_of s). rewrite Hst, Htp. split; [|done]. split.
    { change (wh_block_id _) with (Z.of_nat (length words)). lia. }
    intros bytes Hc. pose proof (cr_type _ _ _ _ Hc) as E. done.
Qed.

End Sources.

(** ** From the sources to the files *)

Section Endpoints.
Context `{host : HostOrder} `{wh : Wirehair} {St : Type} (once alloc_pad : bool).
Context (Codec_get : CodecKind -> option (CodecVTable St)).
Context (fopen_ok : list byte -> bool) (write_ok : Z -> nat -> bool) (sendto : nat -> list SendtoResult).
Context (clock : nat -> Z) (realloc_ok : bool).
Context (codec : option (CodecVTable St)) (ok : St -> Prop) (k r : nat) (code : list byte -> Prop).
Context (EC : ErasureCodec codec ok k r code) (EN : EncodingCodec codec ok k r code).
Context (Hspan : (Z.of_nat (k * PKG_SIZE) < 2 ^ 16)%Z).
Abbreviation Hub := (LocalDecodeHub (wh := wh) (St := St)).
Abbreviation Flow := (LocalDecodeFlow (wh := wh) (St := St)).
Abbreviation Source := (SourceRun (St := St)).
Abbreviation flow_of s := (lsc_flow_id (sr_config s)).
Abbreviation file_of s := (in_data (sr_input s)).
Abbreviation logged s := (source_log once alloc_pad Codec_get s).
Abbreviation run := (hub_run fopen_ok write_ok sendto clock realloc_ok once).

(** A hub that [local_decode_hub_init] has set up in strict mode for the codec. *)
Definition strict_hub (h : Hub) (io : HubIo) (st : St) : Prop :=
  exists mutex_ok is_dir addrs cfg io0 st0,
    is_wirehair (lhc_codec_kind cfg) = false /\ Codec_get (lhc_codec_kind cfg) = codec /\ lhc_best_effort cfg = false /\ ok st0 /\
    local_decode_hub_init fopen_ok Codec_get mutex_ok is_dir addrs cfg io0 st0 = Some (0%Z, h, io, st).

Lemma init_output_fields is_dir cfg (h : Hub) io st h' io' st' :
  init_output fopen_ok is_dir cfg h io st = Some (0%Z, h', io', st') ->
  st' = st /\ exists dir single close, h' = hub_with_output dir single close h.
Proof using Type.
  assert (Hfail : forall io1, init_fail h io1 st = Some (0%Z, h', io', st') -> False).
  { intros io1. unfold init_fail. destruct (match lh_single_close_output h with true => _ | false => _ end); [|done]. by intros [=]. }
  unfold init_output. destruct (bool_decide _).
  - destruct (lhc_output cfg); [intros [= <- _ <-]; by eauto|]. destruct (lhc_output_path cfg) as [path|]; [|by intros []%Hfail].
    destruct (fopen fopen_ok path io) as [[f|] io1]; [intros [= <- _ <-]; by eauto|by intros []%Hfail].
  - destruct (lhc_output_dir cfg) as [dir|]; [|by intros []%Hfail]. destruct (negb _); [by intros []%Hfail|].
    destruct (_ || _); [by intros []%Hfail|]. intros [= <- _ <-]. by eauto.
Qed.

Lemma strict_hub_ready h io st :
  strict_hub h io st ->
  block_hub codec k r h /\ ok st /\ lh_flows h = replicate RELAY_MAX_FLOWS flow_zero /\ lh_stats h = hub_stats_zero.
Proof using EC EN Hspan.
  intros (mutex_ok & is_dir & addrs & cfg & io0 & st0 & Hw & Hc & Hb & Hst & Hi). revert Hi.
  pose proof pkg_pos as Hp. pose proof pkg_size_value as Hpv. pose proof (ec_k (ErasureCodec := EC)) as Hk.
  pose proof (ec_n (ErasureCodec := EC)) as Hn. unfold local_decode_hub_init.
  destruct (lhc_mode cfg) as [mode|]; [|done]. destruct (negb mutex_ok); [done|]. rewrite Hw, Hc, Hb.
  destruct (ec_some (ErasureCodec := EC)) as [vt Hvt]. rewrite Hvt. rewrite <- Hvt. change (1 =? 0)%Z with false. cbn match.
  rewrite (ec_input (ErasureCodec := EC)), (en_output (EncodingCodec := EN)) by done.
  rewrite (proj2 (Nat.eqb_neq (k * PKG_SIZE) 0)), (proj2 (Nat.eqb_neq ((k + r) * PKG_SIZE) 0)) by nia.
  rewrite (proj2 (Z.ltb_ge _ _)) by (unfold CODEC_MAX_ENCODE_BLOCK; nia).
  rewrite Nat.Div0.mod_mul, Nat.div_mul by lia. cbn [Nat.eqb orb negb].
  rewrite (ec_data_shards (ErasureCodec := EC)), (ec_parity_shards (ErasureCodec := EC)) by done.
  assert (E : u16 (Z.of_nat (k + r)) = Z.of_nat (k + r)) by (unfold u16; apply uwrap_small; unfold in_range; lia).
  rewrite E, (proj2 (Z.eqb_neq (Z.of_nat (k + r)) 0)), Z.gtb_ltb, Z.eqb_refl by lia.
  rewrite (proj2 (Z.ltb_ge _ _)) by (unfold WIRE_FLOW_MAX_SHARDS; lia). cbn [orb negb].
  intros (-> & dir & single & close & ->)%init_output_fields. by split_and!.
Qed.

(** Each source with the words of its stream. *)
Lemma words_of_sources sources :
  Forall (source_ok Codec_get codec ok) sources ->
  exists wl : list (Source * list (list byte)), map fst wl = sources /\
    Forall (fun p => source_ok Codec_get codec ok (fst p) /\ stream_words once alloc_pad Codec_get k r code (fst p) (snd p)) wl.
Proof using EC EN Hspan.
  induction 1 as [|s l Hs _ (wl & <- & IH)]; [by exists []|].
  destruct (source_stream once alloc_pad Codec_get codec ok k r code EC EN Hspan s Hs) as [words Hw].
  exists ((s, words) :: wl). split; [done|]. by constructor.
Qed.

(** The datagram of the arrival left one of the sources. *)
Definition carried (sources : list Source) (x : Arrival) : Prop :=
  exists s d, In s sources /\ In d (logged s) /\ hops d (av_datagram x).

(** The source of a flow id. *)
Definition entry_of (wl : list (Source * list (list byte))) (f : Z) : option (Source * list (list byte)) :=
  List.find (fun p => (flow_of (fst p) =? f)%Z) wl.
Definition stream_at (w0 : list byte) wl (f : Z) : Stream :=
  match entry_of wl f with
  | Some (s, words) => stream_of k w0 s words
  | None => mkStream (fun _ => w0) (fun _ => 1) (fun _ => 0%Z) (fun _ => 0%Z)
  end.
Definition top_at wl (f : Z) : Z := match entry_of wl f with Some (_, words) => Z.of_nat (length words) | None => 0 end.

Lemma entry_some wl f p : entry_of wl f = Some p -> In p wl /\ flow_of (fst p) = f.
Proof using Type. intros [H1 H2%Z.eqb_eq]%find_some. done. Qed.

Lemma entry_in wl p : NoDup (map (fun p : Source * _ => flow_of (fst p)) wl) -> In p wl -> entry_of wl (flow_of (fst p)) = Some p.
Proof using Type.
  induction wl as [|q wl IH]; [done|]. intros Hn [->|Hp]; cbn [entry_of List.find map] in *; [by rewrite Z.eqb_refl|].
  apply list.NoDup_cons in Hn as [Hq Hn]. destruct (Z.eqb_spec (flow_of (fst q)) (flow_of (fst p))) as [E|_]; [|by apply IH].
  destruct Hq. rewrite E, list_elem_of_In. apply in_map_iff. by exists p.
Qed.

Context (wl : list (Source * list (list byte))) (w0 : list byte) (Hw0 : code w0).
Context (Hwl : Forall (fun p => source_ok Codec_get codec ok (fst p) /\ stream_words once alloc_pad Codec_get k r code (fst p) (snd p)) wl).
Context (Hids : NoDup (map (fun p : Source * _ => flow_of (fst p)) wl)).

Lemma entry_words f s words : entry_of wl f = Some (s, words) ->
  In (s, words) wl /\ flow_of s = f /\ source_ok Codec_get codec ok s /\ stream_words once alloc_pad Codec_get k r code s words.
Proof using Hwl.
  intros [Hin Hf]%entry_some. rewrite List.Forall_forall in Hwl. destruct (Hwl _ Hin). done.
Qed.

Lemma stream_at_ok f : stream_ok k code (stream_at w0 wl f).
Proof using EC Hspan Hw0 Hwl.
  unfold stream_at. destruct (entry_of wl f) as [[s words]|] eqn:E.
  - apply entry_words in E as (_ & _ & _ & Hs & _). by apply (stream_of_ok codec ok k r code EC Hspan).
  - intros id. pose proof pkg_pos. pose proof (ec_k (ErasureCodec := EC)). cbn. split; [done|]. nia.
Qed.

Lemma top_at_ok f : (0 <= top_at wl f /\ top_at wl f + Z.of_nat WIRE_FLOW_GROUP_WINDOW <= 2 ^ 64)%Z.
Proof using EC Hspan Hwl.
  unfold top_at. destruct (entry_of wl f) as [[s words]|] eqn:E; [|unfold WIRE_FLOW_GROUP_WINDOW; lia].
  apply entry_words in E as (_ & _ & Hok & Hs & _). split; [lia|].
  apply (words_count codec ok k r code EC Hspan s); [apply Hok|done].
Qed.

(** What is known of the flows and of the datagrams. *)
Definition flow_known (f : Flow) : Prop :=
  block_flow ok k r (stream_at w0 wl) (top_at wl) f /\ is_Some (entry_of wl (lf_flow_id f)).
Definition datagram_known (c : bool) (hdr : WireHeader) (payload : option (list byte)) : Prop :=
  block_trusted k r (stream_at w0 wl) (top_at wl) c hdr payload /\ is_Some (entry_of wl (wh_flow_id hdr)).

Lemma carried_known x : carried (map fst wl) x -> arrives datagram_known x.
Proof using EC Hids Hspan Hwl.
  intros (s & d & Hs' & Hd & Hh) hdr Hhdr. apply in_map_iff in Hs' as ([s' words] & <- & Hin).
  pose proof (entry_in wl _ Hids Hin) as E. cbn [fst] in *. destruct (entry_words _ _ _ E) as (_ & _ & Hok & Hs).
  destruct (stream_trusted once alloc_pad Codec_get codec ok k r code EC Hspan w0 s' words d (av_datagram x) (av_calloc x) hdr
    (stream_at w0 wl) (top_at wl) Hok Hs Hd Hh Hhdr) as [Hf Ht].
  { unfold stream_at. by rewrite E. }
  { unfold top_at. by rewrite E. }
  split; [done|]. by rewrite Hf, E.
Qed.

Lemma known_complete (h : Hub) f :
  lh_wirehair_mode h = false -> flow_known f -> local_flow_complete h f = true ->
  exists s, In s (map fst wl) /\ flow_of s = lf_flow_id f /\ concat (lf_written f) = file_of s.
Proof using EC Hspan Hwl.
  intros Hm [Hb [[s words] E]] Hc. destruct (entry_words _ _ _ E) as (Hin & Hf & _ & Hs & _). exists s.
  split; [apply in_map_iff; by exists (s, words)|]. split; [done|].
  rewrite (block_complete ok k r (stream_at w0 wl) (top_at wl) h f Hm Hb Hc). unfold stream_at, top_at. rewrite E, Nat2Z.id.
  by apply (stream_of_file codec ok k r code EC Hspan).
Qed.

(** The hub keeps what is known of its flows. *)

Context (h0 : Hub) (Hh0 : block_hub codec k r h0).

Lemma known_new alloc (h : Hub) c hdr payload st dec rcv file close (id := wh_flow_id hdr) :
  static h = static h0 -> ok st -> datagram_known c hdr payload -> create_flow_decoder once alloc h id st = Some (dec, rcv) ->
  flow_known (mkFlow true id (Some file) close dec rcv 0 0 0 []).
Proof using EC Hh0 Hspan Hwl.
  intros Hs Hst [_ He] Hc. split; [|done].
  by eapply (block_new once codec ok k r code EC (stream_at w0 wl) (top_at wl) top_at_ok h0).
Qed.

Lemma known_ingest c (h : Hub) f hdr payload acks st f' acks' st' :
  static h = static h0 -> ok st -> flow_known f -> lf_active f = true -> lf_flow_id f = wh_flow_id hdr ->
  datagram_known c hdr payload ->
  flow_ingest write_ok sendto clock realloc_ok c h f hdr payload acks st = Some (true, f', acks', st') ->
  flow_known f' /\ ok st'.
Proof using EC Hh0 Hspan Hw0 Hwl.
  intros Hs Hst [HG He] Ha Hid [Ht _] Hi.
  destruct (block_ingest write_ok sendto clock realloc_ok codec ok k r code EC (stream_at w0 wl) stream_at_ok (top_at wl) top_at_ok
    h0 c h f hdr payload acks st f' acks' st' Hh0 Hs Hst HG Hid Ht Hi) as [HG' Hst'].
  split; [|done]. split; [done|]. destruct (flow_ingest_frame _ _ _ _ _ _ _ _ _ _ _ _ _ _ _ Hi) as (_ & E & _). by rewrite E.
Qed.

Lemma known_ingest_returns c (h : Hub) f hdr payload acks st :
  (forall id n, write_ok id n = true) ->
  static h = static h0 -> ok st -> flow_known f -> lf_active f = true -> lf_flow_id f = wh_flow_id hdr ->
  datagram_known c hdr payload ->
  exists b f' acks' st', flow_ingest write_ok sendto clock realloc_ok c h f hdr payload acks st = Some (b, f', acks', st') /\
    flow_known f' /\ ok st'.
Proof using EC Hh0 Hspan Hw0 Hwl.
  intros Hw Hs Hst HG Ha Hid Ht.
  destruct (block_ingest_returns write_ok sendto clock realloc_ok codec ok k r code EC (stream_at w0 wl) stream_at_ok (top_at wl)
    top_at_ok h0 c h f hdr payload acks st Hw Hh0 Hs Hst (proj1 HG) Hid (proj1 Ht)) as (f' & acks' & st' & Hi).
  exists true, f', acks', st'. split; [done|]. by eapply known_ingest.
Qed.

(** A run from a hub without flows. *)
Lemma known_run ds io st :
  ok st -> lh_flows h0 = replicate RELAY_MAX_FLOWS flow_zero -> lh_stats h0 = hub_stats_zero ->
  Forall (carried (map fst wl)) ds -> (Z.of_nat (length ds) < 2 ^ 64)%Z ->
  ((forall f n, write_ok f n = true) -> is_Some (run ds h0 io st)) /\
  forall h' io' st', run ds h0 io st = Some (h', io', st') ->
    hub_ok (static h0) ok flow_known (Z.of_nat (length ds)) h' st'.
Proof using EC Hh0 Hids Hspan Hw0 Hwl.
  intros Hst Hfl Hstats Hds Hlen.
  assert (Harr : Forall (arrives datagram_known) ds).
  { eapply list.Forall_impl; [exact Hds|]. intros x Hx. by apply carried_known. }
  assert (Hnone : forall i, lf_active (hub_flow h0 i) = true -> False).
  { intros i. unfold hub_flow. rewrite Hfl, nth_lookup. destruct (replicate _ _ !! i) as [f|] eqn:E; [|done].
    by apply lookup_replicate in E as [-> _]. }
  assert (Hcnt : forall f a b c, flow_known f -> flow_known (mkFlow (lf_active f) (lf_flow_id f) (lf_output f) (lf_close_output f)
    (lf_dec f) (lf_wirehair_dec f) a b c (lf_written f))) by done.
  assert (Hlf : length (lh_flows h0) = RELAY_MAX_FLOWS) by (by rewrite Hfl, length_replicate).
  split.
  - intros Hw. destruct (hub_run_returns fopen_ok write_ok sendto clock realloc_ok once (static h0) ok flow_known datagram_known
      known_new Hcnt (fun c h f hdr p a st0 => known_ingest_returns c h f hdr p a st0 Hw) ds h0 io st)
      as (h' & io' & st' & E & _); [|done|by exists (h', io', st')]. split; try done. intros i Hi. by destruct (Hnone i).
  - intros h' io' st' Hrun. apply (hub_run_ok fopen_ok write_ok sendto clock realloc_ok once (static h0) ok flow_known datagram_known
      known_new known_ingest Hcnt 0 ds h0 io st h' io' st'); try done.
    split; try done; [by rewrite Hstats|intros i j Hi; by destruct (Hnone i)|].
    intros _. split; [done|]. intros i Hi. by destruct (Hnone i).
Qed.

End Endpoints.

Section Delivery.
Context `{host : HostOrder} `{wh : Wirehair} {St : Type} (once alloc_pad : bool).
Context (Codec_get : CodecKind -> option (CodecVTable St)).
Context (fopen_ok : list byte -> bool) (write_ok : Z -> nat -> bool) (sendto : nat -> list SendtoResult).
Context (clock : nat -> Z) (realloc_ok : bool).
Context (codec : option (CodecVTable St)) (ok : St -> Prop) (k r : nat) (code : list byte -> Prop).
Context (EC : ErasureCodec codec ok k r code) (EN : EncodingCodec codec ok k r code).
Abbreviation run := (hub_run fopen_ok write_ok sendto clock realloc_ok once).
Abbreviation flow_of s := (lsc_flow_id (sr_config s)).

(** C3: files.  Any number of sources with flow ids of their own send files, encoded with a codec
    whose blocks fit the 16-bit length field; the network loses, repeats and reorders their
    datagrams, and relays lower the TTLs; what is left arrives at a hub in strict mode.  As long
    as writing succeeds the hub does not get stuck; and when its strict check succeeds, every flow
    it has bound is that of one of the sources and its file is, byte for byte, the file of the
    source. *)
Theorem local_endpoints_deliver_files sources ds (h : LocalDecodeHub) io st :
  (Z.of_nat (k * PKG_SIZE) < 2 ^ 16)%Z -> Forall (source_ok Codec_get codec ok) sources -> NoDup (map (fun s => flow_of s) sources) ->
  strict_hub Codec_get fopen_ok codec ok h io st ->
  Forall (carried once alloc_pad Codec_get sources) ds -> (Z.of_nat (length ds) < 2 ^ 64)%Z ->
  ((forall f n, write_ok f n = true) -> is_Some (run ds h io st)) /\
  forall h' io' st', run ds h io st = Some (h', io', st') -> local_decode_hub_strict_check (Some h') = 0%Z ->
  forall i, lf_active (hub_flow h' i) = true ->
    (exists s, In s sources /\ flow_of s = lf_flow_id (hub_flow h' i) /\
       concat (lf_written (hub_flow h' i)) = in_data (sr_input s)) /\
    forall j, lf_active (hub_flow h' j) = true -> lf_flow_id (hub_flow h' j) = lf_flow_id (hub_flow h' i) -> j = i.
Proof using EC EN.
  intros Hspan Hsrc Hids Hhub Hds Hlen.
  destruct (words_of_sources once alloc_pad Codec_get codec ok k r code EC EN Hspan sources Hsrc) as (wl & <- & Hwl).
  rewrite List.map_map in Hids.
  destruct (strict_hub_ready Codec_get fopen_ok codec ok k r code EC EN Hspan h io st Hhub) as (Hb & Hst & Hfl & Hstats).
  destruct (encode_block codec ok k r code EN (ec_k (ErasureCodec := EC)) pkg_pos st [] Hst ltac:(cbn; lia)) as (w0 & _ & _ & _ & Hw0 & _).
  destruct (known_run once alloc_pad Codec_get fopen_ok write_ok sendto clock realloc_ok codec ok k r code EC Hspan wl w0 Hw0 Hwl Hids
    h Hb ds io st Hst Hfl Hstats Hds Hlen) as [H1 H2].
  split; [done|]. intros h' io' st' Hrun Hcheck i Hi. specialize (H2 h' io' st' Hrun).
  destruct (strict_check_good _ _ _ _ _ _ i H2 Hcheck Hi) as (_ & HG & Hc). split; cycle 1.
  { intros j Hj E. by apply (hk_distinct _ _ _ _ _ _ H2). }
  assert (Hm : lh_wirehair_mode h' = false).
  { destruct (static_fields _ _ (hk_static _ _ _ _ _ _ H2)) as (_ & _ & _ & _ & _ & -> & _). apply Hb. }
  apply (known_complete once alloc_pad Codec_get codec ok k r code EC Hspan wl w0 Hwl h' _ Hm HG Hc).
Qed.

End Delivery.

(** ** Sources of segments *)

Section SegmentSources.
Context `{host : HostOrder} `{wh : Wirehair} `{!FountainCode wh} {St : Type} (once alloc_pad : bool).
Context (Codec_get : CodecKind -> option (CodecVTable St)).
Context (scfg : WirehairSegmentConfig) (Hscfg : config_ok scfg).
Abbreviation Config := (LocalSourceConfig (E := EmitLog)).
Abbreviation Source := (SourceRun (St := St)).
Abbreviation flow_of s := (lsc_flow_id (sr_config s)).
Abbreviation file_of s := (in_data (sr_input s)).
Abbreviation span := (Z.to_nat (sc_segment_bytes scfg)).

(** The segments of the file of a source. *)
Definition segments_of (s : Source) : list (list byte) := source_blocks span (file_of s).

Lemma segments_ok s : Forall (segment_ok scfg) (segments_of s) /\ concat (segments_of s) = file_of s.
Proof using Hscfg.
  destruct (config_ok_facts scfg Hscfg) as (H & _). destruct (source_blocks_spec span (file_of s) ltac:(lia)) as [H1 H2].
  split; [|done]. eapply list.Forall_impl; [exact H2|]. intros b Hb. unfold segment_ok. cbn beta in Hb. lia.
Qed.

(** The datagrams of the segments [segs], and the end. *)
Inductive segment_datagram (config : Config) (segs : list (list byte)) : list byte -> Prop :=
| segment_packet i seg id p :
    segs !! i = Some seg -> (0 <= id < limit_of scfg (Z.of_nat (length seg)))%Z -> packet_of seg id = Some p ->
    segment_datagram config segs
      (packed (packet_header (target_of scfg seg (lsc_flow_id config) (Z.of_nat i) (lsc_final_dst config) (lsc_ttl config)) id
                 (Z.of_nat (length p))) p)
| segment_end : segment_datagram config segs (packed (wirehair_end_header config (Z.of_nat (length segs))) []).

(** Only such datagrams have been emitted. *)
Definition logs (config : Config) (segs : list (list byte)) (e : EmitLog) : Prop :=
  forall d, In d (snd e) -> segment_datagram config segs d.

Lemma logs_emit ok config segs hdr payload bytes s e rc s' e' :
  (0 <= wh_payload_len hdr <= Z.of_nat PKG_SIZE)%Z ->
  ((wh_payload_len hdr > 0)%Z -> exists p, payload = Some p /\ bytes = take (Z.to_nat (wh_payload_len hdr)) p) ->
  (wh_payload_len hdr = 0%Z -> bytes = []) ->
  emit_one (emit_log ok) hdr payload s e = (rc, s', e') -> segment_datagram config segs (packed hdr bytes) ->
  logs config segs e -> logs config segs e'.
Proof using Type.
  intros H1 H2 H3 He Hd Hl.
  destruct (emit_one_sends (emit_log ok) snd (emit_log_spec ok) hdr payload bytes s e H1 H2 H3) as (rc1 & s1 & e1 & E & (sent & El & Hp & _)).
  rewrite He in E. injection E as <- <- <-. intros d. rewrite El. intros [Hin|Hin]%in_app_or; [by apply Hl|].
  destruct Hp as [rest Hp]. assert (Hd1 : In d [packed hdr bytes]) by (rewrite Hp; apply in_or_app; by left).
  by destruct Hd1 as [<-|[]].
Qed.

(** The poll callback leaves the log alone. *)
Definition polls_quietly (config : Config) : Prop :=
  forall poll f i w e a e', lsc_ack_poll config = Some poll -> poll f i w e = (a, e') -> snd e' = snd e.

Lemma segment_send_logs ok config segs i seg s e rc stats s' e' :
  lsc_wirehair config = scfg -> polls_quietly config -> segs !! i = Some seg -> segment_ok scfg seg -> logs config segs e ->
  wirehair_segment_send (local_wirehair_emit (emit_log ok)) (option_map wirehair_poll (lsc_ack_poll config)) once alloc_pad
    (Some scfg) (lsc_flow_id config) (Z.of_nat i) (lsc_final_dst config) (lsc_ttl config) (Some seg) (s, e) = (rc, stats, (s', e')) ->
  logs config segs e'.
Proof using Hscfg.
  intros Hc Hpoll Hi Hseg Hl. unfold wirehair_segment_send.
  destruct (segment_args_bad _ _ _ _ _); [by intros [= _ _ _ <-]|]. destruct (_ && _); [by intros [= _ _ _ <-]|].
  destruct (send_body _ _ _ _ _ _ _ _ _) as [rc1 s1] eqn:Hb. intros [= _ _ Hctx].
  apply (send_body_ok scfg Hscfg seg Hseg (lsc_flow_id config) (Z.of_nat i) (lsc_final_dst config) (lsc_ttl config)
    (local_wirehair_emit (emit_log ok)) (option_map wirehair_poll (lsc_ack_poll config)) (fun _ c => logs config segs (snd c)))
    with (Q := fun _ _ => True) (R := fun _ _ _ _ => True) in Hb as (n & _ & H & _); try done.
  - by rewrite Hctx in H.
  - intros id p [s2 e2] rc2 [s3 e3] Hid Hp HW. cbn [snd] in *. pose proof (packet_of_length scfg seg id p Hscfg Hseg ltac:(lia) Hp) as Hlen.
    unfold WH_PACKET_SIZE in Hlen. pose proof pkg_size_value as Hpk. unfold local_wirehair_emit. destruct (negb _); [by intros [= _ _ <-]|]. cbn [fst snd].
    destruct (emit_one _ _ _ _ _) as [[rc4 s4] e4] eqn:He. intros [= _ _ <-].
    set (hdr := packet_header _ id _) in He. assert (Hpl : wh_payload_len hdr = Z.of_nat (length p)).
    { cbn. unfold u16. rewrite uwrap_small; [done|]. unfold in_range. lia. }
    apply (logs_emit ok config segs hdr (Some p) p s2 e2 rc4 s4 e4); try done; rewrite ?Hpl; [lia|..].
    + intros _. exists p. split; [done|]. rewrite Nat2Z.id. by rewrite take_ge.
    + lia.
    + by apply segment_packet.
  - intros poll n wait [s2 e2] a [s3 e3] Hp HW He. destruct (lsc_ack_poll config) as [pl|] eqn:Epl; [|done]. injection Hp as <-.
    unfold wirehair_poll in He. cbn [fst snd] in He. destruct (pl _ _ _ _) as [a1 e1] eqn:E1. injection He as _ _ <-. cbn [snd] in *.
    unfold logs. by rewrite (Hpoll _ _ _ _ _ _ _ Epl E1).
  - by split; [|left|..].
Qed.

(** The loop over the file, [prev] having been sent. *)
Lemma segment_loop_logs ok config turns input prev s e (segs := prev ++ source_blocks span (in_data input)) :
  lsc_wirehair config = scfg -> polls_quietly config -> length (in_data input) < turns ->
  (Z.of_nat (length prev) + Z.of_nat (length (in_data input)) < 2 ^ 63)%Z -> Forall (segment_ok scfg) segs -> logs config segs e ->
  exists rc s' e', segment_loop (emit_log ok) once alloc_pad config turns input (Z.of_nat (length prev)) s e = Some (rc, s', e') /\
    logs config segs e'.
Proof using Hscfg.
  destruct (config_ok_facts scfg Hscfg) as (Hb & _). assert (Hn : 0 < span) by lia.
  intros Hc Hpoll. unfold segs. clear segs. revert input prev s e.
  induction turns as [|turns IH]; intros [data err] prev s e Ht Hlen Hok Hl; [lia|].
  cbn [in_data in_error] in *. cbn [segment_loop fread in_data in_error]. rewrite Hc. destruct (decide (data = [])) as [->|Hne].
  { rewrite take_nil. cbn [length Nat.eqb]. destruct err; [by do 3 eexists|].
    destruct (emit_one _ _ _ s e) as [[rc s1] e1] eqn:He. exists rc, s1, e1. split; [done|].
    apply (logs_emit ok config _ (wirehair_end_header config (Z.of_nat (length prev))) None [] s e rc s1 e1); try done.
    cbn [source_blocks cut length]. rewrite app_nil_r. apply segment_end. }
  assert (Hd : 0 < length data) by (destruct data; [done|cbn; lia]).
  rewrite (proj2 (Nat.eqb_neq _ _)) by (rewrite length_take; lia). rewrite source_blocks_cons in * by done.
  set (seg := take span data) in *. set (rest := drop span data) in *. assert (Hr : length rest < length data) by (unfold rest; rewrite length_drop; lia).
  assert (Hat : (prev ++ seg :: source_blocks span rest) !! length prev = Some seg) by (by rewrite lookup_app_r, Nat.sub_diag by lia).
  pose proof (list.Forall_lookup_1 _ _ _ _ Hok Hat) as Hseg.
  destruct (wirehair_segment_send _ _ _ _ _ _ _ _ _ _ _) as [[rc stats] [s1 e1]] eqn:Hs.
  pose proof (segment_send_logs ok config _ _ _ _ _ _ _ _ _ Hc Hpoll Hat Hseg Hl Hs) as Hl1.
  destruct (negb (rc =? 0)%Z); [by do 3 eexists|].
  replace (u64 (Z.of_nat (length prev) + 1)) with (Z.of_nat (length (prev ++ [seg]))).
  2:{ rewrite length_app. cbn. unfold u64. rewrite uwrap_small; [lia|]. unfold in_range. lia. }
  assert (E : prev ++ seg :: source_blocks span rest = (prev ++ [seg]) ++ source_blocks span rest) by (by rewrite <- app_assoc).
  rewrite E in Hok, Hl1 |- *. apply IH; try done; cbn [in_data]; [lia|]. rewrite length_app. cbn. lia.
Qed.

(** A source of segments, with fields that fit their C types. *)
Definition segment_source_ok (s : Source) : Prop :=
  is_wirehair (lsc_codec_kind (sr_config s)) = true /\ lsc_wirehair (sr_config s) = scfg /\ polls_quietly (sr_config s) /\
  in_range 8 (lsc_final_dst (sr_config s)) /\ in_range 8 (lsc_ttl (sr_config s)) /\ in_range 32 (flow_of s) /\
  (Z.of_nat (length (file_of s)) < 2 ^ 63)%Z.

Lemma segment_source_logs s d :
  segment_source_ok s -> In d (source_log once alloc_pad Codec_get s) -> segment_datagram (sr_config s) (segments_of s) d.
Proof using Hscfg.
  intros (Hw & Hc & Hpoll & _ & _ & _ & Hlen). unfold source_log, local_source_run.
  destruct (_ || _); [done|]. rewrite Hw. unfold local_wirehair_source_run. destruct (negb _); [done|]. cbn [negb].
  destruct (segment_loop_logs (sr_emit s) (sr_config s) (S (length (file_of s))) (sr_input s) [] source_stats_zero (0, []) Hc Hpoll)
    as (rc & s' & e' & E & Hl); [lia|cbn; lia|apply segments_ok|by intros x []|].
  change (Z.of_nat (length [])) with 0%Z in E. rewrite E. apply Hl.
Qed.

(** What the hub makes of such a datagram after any number of hops. *)
Lemma segment_hops s segs_at c d d' hdr :
  segment_source_ok s -> segment_datagram (sr_config s) (segments_of s) d -> hops d d' -> header_in d' = Some hdr ->
  segs_at (flow_of s) = segments_of s ->
  wh_flow_id hdr = flow_of s /\ segment_trusted scfg segs_at c hdr (payload_in hdr d').
Proof using Hscfg.
  intros (_ & Hc & _ & Ddst & Dttl & Dflow & Dlen) Hd Hh Hhdr Hsegs. destruct (segments_ok s) as [Hok Hcat].
  destruct (config_ok_facts scfg Hscfg) as (_ & _ & Ho & _). pose proof (co_bytes _ Hscfg) as Hby.
  assert (Hcnt : (Z.of_nat (length (segments_of s)) < 2 ^ 63)%Z).
  { pose proof (concat_count (segments_of s)) as H. rewrite Hcat in H. specialize (H ltac:(eapply list.Forall_impl;
      [exact Hok|]; intros b Hb; unfold segment_ok in Hb; lia)). lia. }
  assert (Hfl : forall b : bool, in_range 8 (if b then WIRE_FLAG_ACK_REQUEST else 0%Z)) by (intros []; done).
  destruct Hd as [i seg id p Hi Hid Hp|].
  - destruct (packet_header_fields scfg Hscfg (segments_of s) Hok (flow_of s) (lsc_final_dst (sr_config s)) (lsc_ttl (sr_config s))
      i seg id p Hi Hid Hp) as (F1 & F2 & F3 & F4 & _). set (h := packet_header _ id _) in *.
    pose proof (list.Forall_lookup_1 _ _ _ _ Hok Hi) as Hseg. destruct (segment_counts scfg seg Hscfg Hseg) as (_ & Hl & _).
    pose proof (lookup_lt_Some _ _ _ Hi) as Hil. unfold WH_PACKET_SIZE in *. unfold segment_ok in Hseg.
    assert (Hhok : header_ok h).
    { unfold header_ok. rewrite F1, F2, F3. unfold h, packet_header. cbn. split_and!; try done; unfold in_range; lia. }
    destruct (packed_header_v4 h p Hhok eq_refl ltac:(pose proof pkg_size_value; lia)) as (Hp1 & Hp2 & Hp3).
    destruct (hops_header _ _ _ Hh Hp1) as (t & Ht1 & Ht2 & Ht3). rewrite Ht1 in Hhdr. injection Hhdr as <-.
    change (wire_header_size (as_v4 h)) with 52 in Ht3. rewrite Hp3 in Ht3. split; [done|].
    change (payload_in (with_ttl t (as_v4 h)) d') with (Some (drop 52 d')). rewrite Ht3.
    split; [done|]. exists (lsc_final_dst (sr_config s)), t. change (wh_flow_id _) with (flow_of s). rewrite Hsegs.
    apply (genuine_data scfg (segments_of s) (flow_of s) _ t i seg id p Hi Hid Hp).
  - set (h := wirehair_end_header _ _) in *. assert (Hhok : header_ok h).
    { unfold header_ok, h, wirehair_end_header. cbn. rewrite Hc. split_and!; try done; unfold in_range; lia. }
    destruct (packed_header_v4 h [] Hhok eq_refl ltac:(cbn; lia)) as (Hp1 & Hp2 & Hp3).
    destruct (hops_header _ _ _ Hh Hp1) as (t & Ht1 & Ht2 & Ht3). rewrite Ht1 in Hhdr. injection Hhdr as <-. split; [done|].
    split; [done|]. exists 0%Z, 0%Z. change (wh_flow_id _) with (flow_of s). rewrite Hsegs. by apply genuine_end.
Qed.

End SegmentSources.

(** ** From sources of segments to the files *)

Section SegmentDelivery.
Context `{host : HostOrder} `{wh : Wirehair} `{!FountainCode wh} {St : Type} (once alloc_pad : bool).
Context (Codec_get : CodecKind -> option (CodecVTable St)).
Context (fopen_ok : list byte -> bool) (write_ok : Z -> nat -> bool) (sendto : nat -> list SendtoResult).
Context (clock : nat -> Z) (realloc_ok : bool).
Context (scfg : WirehairSegmentConfig) (Hscfg : config_ok scfg).
Abbreviation Hub := (LocalDecodeHub (wh := wh) (St := St)).
Abbreviation Flow := (LocalDecodeFlow (wh := wh) (St := St)).
Abbreviation Source := (SourceRun (St := St)).
Abbreviation flow_of s := (lsc_flow_id (sr_config s)).
Abbreviation run := (hub_run fopen_ok write_ok sendto clock realloc_ok once).

(** A hub that [local_decode_hub_init] has set up for segments. *)
Definition strict_segment_hub (h : Hub) (io : HubIo) (st : St) : Prop :=
  exists mutex_ok is_dir addrs cfg io0 st0,
    is_wirehair (lhc_codec_kind cfg) = true /\ config_ok (lhc_wirehair cfg) /\
    local_decode_hub_init fopen_ok Codec_get mutex_ok is_dir addrs cfg io0 st0 = Some (0%Z, h, io, st).

Lemma ack_target_fields addrs (h : Hub) io rc h' io' :
  ack_target_loop addrs h io = (rc, h', io') -> exists sock len, h' = hub_with_ack sock len h.
Proof using Type.
  revert h. induction addrs as [|[len sock] addrs IH]; intros h; cbn [ack_target_loop].
  { intros [= _ <- _]. exists (lh_ack_sock h), (lh_ack_target_len h). by destruct h. }
  destruct (_ >? _)%Z; [apply IH|]. destruct (_ >=? _)%Z; [intros [= _ <- _]; by eexists _, _|].
  intros (s1 & l1 & ->)%IH. by eexists _, _.
Qed.

Lemma strict_segment_hub_ready h io st :
  strict_segment_hub h io st ->
  segment_hub h /\ lh_flows h = replicate RELAY_MAX_FLOWS flow_zero /\ lh_stats h = hub_stats_zero.
Proof using Type.
  intros (mutex_ok & is_dir & addrs & cfg & io0 & st0 & Hw & Hc & Hi). revert Hi. unfold local_decode_hub_init.
  destruct (lhc_mode cfg) as [mode|]; [|done]. destruct (negb mutex_ok); [done|]. rewrite Hw, (co_valid _ Hc). cbn [negb].
  set (h1 := mkHub _ _ _ _ _ _ _ _ _ _ _ _ _ _ _ _).
  assert (Hout : forall h2 io2, (exists sock len, h2 = hub_with_ack sock len h1) ->
    init_output fopen_ok is_dir cfg h2 io2 st0 = Some (0%Z, h, io, st) ->
    segment_hub h /\ lh_flows h = replicate RELAY_MAX_FLOWS flow_zero /\ lh_stats h = hub_stats_zero).
  { intros h2 io2 (sock & len & ->) (_ & dir & single & close & ->)%init_output_fields. by split_and!. }
  destruct (sc_ack_enabled (lhc_wirehair cfg)); [|apply Hout; by exists (-1)%Z, 0%Z].
  destruct (open_ack_target _ _ _ h1 io0) as [[rc h2] io2] eqn:Ho. destruct (negb (rc =? 0)%Z) eqn:Hrc.
  { unfold init_fail. destruct (match lh_single_close_output h2 with true => _ | false => _ end); [|done]. by intros [=]. }
  apply Hout. unfold open_ack_target in Ho.
  destruct (lhc_return_hop_host cfg); [|injection Ho as <- <- <-; done]. destruct addrs; [|injection Ho as <- <- <-; done].
  destruct (_ =? 0)%Z; [injection Ho as <- <- <-; done|]. by eapply ack_target_fields.
Qed.

Context (sources : list Source) (Hsrc : Forall (segment_source_ok scfg) sources).
Context (Hids : NoDup (map (fun s : Source => flow_of s) sources)).

Definition source_at (f : Z) : option Source := List.find (fun s => (flow_of s =? f)%Z) sources.
Definition segments_at (f : Z) : list (list byte) :=
  match source_at f with Some s => segments_of scfg s | None => [] end.

Lemma source_at_some f s : source_at f = Some s -> In s sources /\ flow_of s = f /\ segment_source_ok scfg s.
Proof using Hsrc.
  intros [H1 H2%Z.eqb_eq]%find_some. rewrite List.Forall_forall in Hsrc. auto.
Qed.

Lemma source_at_in s : In s sources -> source_at (flow_of s) = Some s.
Proof using Hids.
  clear Hsrc. unfold source_at. induction sources as [|q l IH]; [done|]. intros Hs. cbn [List.find map] in *.
  apply list.NoDup_cons in Hids as [Hq Hn]. destruct Hs as [->|Hs]; [by rewrite Z.eqb_refl|].
  destruct (Z.eqb_spec (flow_of q) (flow_of s)) as [E|_]; [|by apply IH].
  destruct Hq. rewrite E, list_elem_of_In. apply in_map_iff. by exists s.
Qed.

Lemma segments_at_ok f : Forall (segment_ok scfg) (segments_at f) /\ (Z.of_nat (length (segments_at f)) < 2 ^ 63)%Z.
Proof using Hscfg Hsrc.
  unfold segments_at. destruct (source_at f) as [s|] eqn:E; [|by split; [constructor|]].
  apply source_at_some in E as (_ & _ & (_ & _ & _ & _ & _ & _ & Hlen)). destruct (segments_ok scfg Hscfg s) as [Hok Hcat].
  split; [done|]. pose proof (concat_count (segments_of scfg s)) as H. rewrite Hcat in H.
  specialize (H ltac:(eapply list.Forall_impl; [exact Hok|]; intros b Hb; unfold segment_ok in Hb; lia)). lia.
Qed.

(** What is known of the flows and of the datagrams. *)
Definition segment_flow_known (f : Flow) : Prop :=
  segment_flow write_ok segments_at f /\ is_Some (source_at (lf_flow_id f)).
Definition packet_known (c : bool) (hdr : WireHeader) (payload : option (list byte)) : Prop :=
  segment_trusted scfg segments_at c hdr payload /\ is_Some (source_at (wh_flow_id hdr)).

Lemma carried_packet x : carried once alloc_pad Codec_get sources x -> arrives packet_known x.
Proof using Hids Hscfg Hsrc.
  intros (s & d & Hs & Hd & Hh) hdr Hhdr. pose proof (source_at_in s Hs) as E. destruct (source_at_some _ _ E) as (_ & _ & Hok).
  pose proof (segment_source_logs once alloc_pad Codec_get scfg Hscfg s d Hok Hd) as Hdg.
  destruct (segment_hops scfg Hscfg s segments_at (av_calloc x) d _ hdr Hok Hdg Hh Hhdr) as [Hf Ht]; [unfold segments_at; by rewrite E|].
  split; [done|]. by rewrite Hf, E.
Qed.

(** A run from a hub without flows. *)
Lemma segment_run h0 ds io st :
  segment_hub h0 -> lh_flows h0 = replicate RELAY_MAX_FLOWS flow_zero -> lh_stats h0 = hub_stats_zero ->
  Forall (carried once alloc_pad Codec_get sources) ds -> (Z.of_nat (length ds) < 2 ^ 64)%Z ->
  ((forall f n, write_ok f n = true) -> is_Some (run ds h0 io st)) /\
  forall h' io' st', run ds h0 io st = Some (h', io', st') ->
    hub_ok (static h0) (fun _ => True) segment_flow_known (Z.of_nat (length ds)) h' st'.
Proof using FountainCode0 Hids Hscfg Hsrc.
  intros Hh0 Hfl Hstats Hds Hlen. pose proof (fun f => proj1 (segments_at_ok f)) as HS. pose proof (fun f => proj2 (segments_at_ok f)) as HC.
  assert (Harr : Forall (arrives packet_known) ds).
  { eapply list.Forall_impl; [exact Hds|]. intros x Hx. by apply carried_packet. }
  assert (Hnone : forall i, lf_active (hub_flow h0 i) = true -> False).
  { intros i. unfold hub_flow. rewrite Hfl, nth_lookup. destruct (replicate _ _ !! i) as [f|] eqn:E; [|done].
    by apply lookup_replicate in E as [-> _]. }
  assert (Hnew : forall alloc (h : Hub) c hdr payload st dec rcv file close (id := wh_flow_id hdr), static h = static h0 -> True ->
    packet_known c hdr payload -> create_flow_decoder once alloc h id st = Some (dec, rcv) ->
    segment_flow_known (mkFlow true id (Some file) close dec rcv 0 0 0 [])).
  { intros alloc h c hdr payload st1 dec rcv file close id Hs _ [[Hr _] He] Hc. split; [|done].
    by eapply (segment_new write_ok once segments_at h0). }
  assert (Hcnt : forall f a b c, segment_flow_known f -> segment_flow_known (mkFlow (lf_active f) (lf_flow_id f) (lf_output f)
    (lf_close_output f) (lf_dec f) (lf_wirehair_dec f) a b c (lf_written f))) by done.
  assert (Hlf : length (lh_flows h0) = RELAY_MAX_FLOWS) by (by rewrite Hfl, length_replicate).
  split.
  - intros Hw. destruct (hub_run_returns fopen_ok write_ok sendto clock realloc_ok once (static h0) (fun _ => True) segment_flow_known packet_known
      Hnew Hcnt) with (ds := ds) (h := h0) (io := io) (st := st) as (h' & io' & st' & E & _);
      [|split; try done; intros i Hi; by destruct (Hnone i)|done|by exists (h', io', st')].
    intros c h f hdr p acks st1 Hs _ [HG He] Ha Hid [Ht _].
    destruct (segment_ingest_returns write_ok sendto clock realloc_ok scfg Hscfg segments_at HS HC h0 c h f hdr p acks st1 Hw Hh0 Hs HG Hid Ht)
      as (b & f' & acks' & st' & Hi & HG' & ->). exists b, f', acks', st1. split; [done|]. split; [|done]. split; [done|].
    destruct (flow_ingest_frame _ _ _ _ _ _ _ _ _ _ _ _ _ _ _ Hi) as (_ & E & _). by rewrite E.
  - intros h' io' st' Hrun. apply (hub_run_ok fopen_ok write_ok sendto clock realloc_ok once (static h0) (fun _ => True) segment_flow_known
      packet_known Hnew) with (n := 0%Z) (h := h0) (io := io) (st := st) (io' := io'); try done.
    + intros c h f hdr p acks st1 f' acks' st2 Hs _ [HG He] Ha Hid [Ht _] Hi. split; [|done].
      destruct (segment_ingest write_ok sendto clock realloc_ok scfg Hscfg segments_at HS HC h0 c h f hdr p acks st1 f' acks' st2
        Hh0 Hs HG Hid Ht Hi) as [HG' _]. split; [done|].
      destruct (flow_ingest_frame _ _ _ _ _ _ _ _ _ _ _ _ _ _ _ Hi) as (_ & E & _). by rewrite E.
    + split; try done; [by rewrite Hstats|intros i j Hi; by destruct (Hnone i)|].
      intros _. split; [done|]. intros i Hi. by destruct (Hnone i).
Qed.

(** C4: files in segments.  The same for sources that send their files as Wirehair segments, with
    acknowledgements or without: when writing succeeds the hub does not get stuck, even if an
    acknowledgement cannot be sent; and when its strict check succeeds, every flow it has bound is
    that of one of the sources and its file is the file of the source. *)
Theorem local_endpoints_deliver_segments ds (h : Hub) io st :
  strict_segment_hub h io st -> Forall (carried once alloc_pad Codec_get sources) ds -> (Z.of_nat (length ds) < 2 ^ 64)%Z ->
  ((forall f n, write_ok f n = true) -> is_Some (run ds h io st)) /\
  forall h' io' st', run ds h io st = Some (h', io', st') -> local_decode_hub_strict_check (Some h') = 0%Z ->
  forall i, lf_active (hub_flow h' i) = true ->
    exists s, In s sources /\ flow_of s = lf_flow_id (hub_flow h' i) /\ concat (lf_written (hub_flow h' i)) = in_data (sr_input s).
Proof using FountainCode0 Hids Hscfg Hsrc.
  intros Hhub Hds Hlen. destruct (strict_segment_hub_ready h io st Hhub) as (Hb & Hfl & Hstats).
  destruct (segment_run h ds io st Hb Hfl Hstats Hds Hlen) as [H1 H2]. split; [done|].
  intros h' io' st' Hrun Hcheck i Hi. specialize (H2 h' io' st' Hrun).
  destruct (strict_check_good _ _ _ _ _ _ i H2 Hcheck Hi) as (_ & [HG [s Hs]] & Hc).
  assert (Hm : lh_wirehair_mode h' = true).
  { destruct (static_fields _ _ (hk_static _ _ _ _ _ _ H2)) as (_ & _ & _ & _ & _ & -> & _). apply Hb. }
  exists s. destruct (source_at_some _ _ Hs) as (Hin & Hf & _). split; [done|]. split; [done|].
  rewrite (segment_complete write_ok segments_at h' _ Hm HG Hc). unfold segments_at. rewrite Hs. apply segments_ok. exact Hscfg.
Qed.

End SegmentDelivery.

(** ** Limits *)

(** A block of 47 data shards does not fit the 16-bit length: a full block is announced with 264 of
    its 65800 bytes. *)
Lemma long_block_length_cut {E} (config : LocalSourceConfig (E := E)) id shard n t0 t1 :
  wh_valid_len (data_header config id shard n (47 * PKG_SIZE) t0 t1) = 264%Z.
Proof. cbn [wh_valid_len data_header]. rewrite Nat2Z.inj_mul, pkg_size_value. reflexivity. Qed.

(** A hub that could not be initialised, or has been destroyed, has 0 for its socket: destroying it
    closes descriptor 0, which it never opened. *)
Lemma destroy_closes_descriptor_zero `{wh : Wirehair} {St : Type} (h : LocalDecodeHub (St := St)) io (st : St) rc h' io' st' :
  init_fail h io st = Some (rc, h', io', st') -> local_decode_hub_destroy h' io' = Some (hub_zero, close_fd 0 io').
Proof.
  unfold init_fail. destruct (match lh_single_close_output h with true => _ | false => _ end); [|done].
  intros [= _ <- _ _]. reflexivity.
Qed.

(** ** The encoders *)

#[export] Instance none_encoding {St : Type} :
  EncodingCodec (Some (@none_codec_vtable St)) (fun _ => True) 1 0 (fun e => length e = (1 + 0) * PKG_SIZE).
Proof.
  split; [intros st _; cbn; f_equal; lia|]. intros st d _ Hd. exists d, st. done.
Qed.

#[export] Instance copy_encoding {St : Type} :
  EncodingCodec (Some (@copy_codec_vtable St)) (fun _ => True) 4 0 (fun e => length e = (4 + 0) * PKG_SIZE).
Proof. split; [done|]. intros st d _ Hd. exists d, st. done. Qed.

#[export] Instance xor_encoding {St : Type} :
  EncodingCodec (Some (@xor_fec_codec_vtable St)) (fun _ => True) 4 1 xor_closed.
Proof.
  split; [done|]. intros st d _ Hd. destruct (xor_encode_closed st d Hd) as (e & He & Hc & Hcell).
  exists e, st. split_and!; [|done|done|].
  - unfold Codec_encode. cbn [vt_encode xor_fec_codec_vtable]. change ((4 + 1) * PKG_SIZE) with XOR_FEC_ENCODE_BLOCK.
    rewrite <- He. unfold xor_fec_encode. by repeat case_match.
  - apply (take_cells 4 e d 5); [apply Hc|done|lia|lia|done].
Qed.

Lemma rs_encoding env k r :
  env_once env = true -> EncodingCodec (Some (rs_vtable env)) (rs_configured k r) k r (rs_codeword k r).
Proof.
  intros He. split.
  - intros s (Hr & Hm & Hg). unfold Codec_output_block_size, query. cbn [vt_output_block_size rs_vtable]. unfold rs_query.
    rewrite rs_ready_ready by (done || apply rs_reachable_inv in Hr; by apply (inv_ready s Hr Hm)). by rewrite Hg.
  - intros s d (Hr & Hm & Hg) Hd. pose proof (rs_reachable_inv _ Hr) as Hi. destruct (inv_ready s Hi Hm) as [_ Hp].
    assert (Hsz : rs_block_size s = (k + r) * PKG_SIZE) by (unfold rs_block_size; by rewrite Hg).
    assert (Hcode : rs_codeword k r (rs_code s d)).
    { pose proof (pub_generator s Hp) as HG. unfold rs_code. rewrite Hg in *. cbn in *. by exists (rs_generator s), d. }
    destruct (rs_encode_code env s d Hi Hm He) as [Hf (Hgeo & _ & _ & Hmr)]; [by rewrite Hsz|].
    pose proof (step_encode env (Some d) (rs_block_size s) s) as Hstep. rewrite Hsz in *.
    unfold Codec_encode. cbn [vt_encode rs_vtable]. destruct (rs_encode env s (Some d) ((k + r) * PKG_SIZE)) as [o s'].
    cbn [fst snd] in *. subst o. exists (rs_code s d), s'. split_and!; [done| |done|].
    + split; [by eapply rtc_r|]. by rewrite Hmr, Hgeo.
    + apply (take_cells k _ _ (k + r)); [|done|lia|lia|].
      * destruct Hcode as (G & d' & _ & ->). apply length_of_cells.
      * intros sh b Hsh Hb. pose proof (rs_code_data s d sh b) as H. rewrite Hg in H. cbn in H. by apply H.
Qed.

(** ** Two files through the none codec, with a duplicate and a datagram that has been relayed *)

#[local] Instance little_endian : HostOrder := true.
#[local] Transparent PKG_SIZE.

Definition sample_source (flow : Z) (file : list byte) : SourceRun (St := unit) :=
  mkSourceRun (mkSourceConfig (Some []) CODEC_KIND_NONE flow 1 8 0 wirehair_segment_config_defaults None) (mkInput file false)
    (fun _ => 7%Z) tt (fun _ => true).
Definition sample_sources : list (SourceRun (St := unit)) := [sample_source 4 [x61; x62; x63]; sample_source 9 [x7a]].
Definition sample_get (_ : CodecKind) : option (CodecVTable unit) := Some none_codec_vtable.
Abbreviation sample_log := (source_log true true sample_get).

(** One hop. *)
Definition relayed (d : list byte) : list byte := match header_in d with Some h => if (0 <? wh_ttl h)%Z then ttl_down h d else d | None => d end.
Definition sample_arrivals : list Arrival :=
  map (fun d => mkArrival d true true)
    (concat (map (fun s => match sample_log s with [d; e] => [d; relayed d; e] | l => l end) sample_sources)).
Definition sample_hub_config : LocalDecodeHubConfig :=
  mkHubConfig CODEC_KIND_NONE (Some LOCAL_DECODE_MODE_OUTPUT_DIR) None (Some [x6f]) false false 1 wirehair_segment_config_defaults None 0.
Definition sample_hub_init : option (Z * LocalDecodeHub * HubIo * unit) :=
  local_decode_hub_init (fun _ => true) sample_get true (fun _ => Some true) None sample_hub_config (mkHubIo 0 [] [] [] []) tt.
Abbreviation sample_run := (hub_run (fun _ => true) (fun _ _ => true) (fun _ => []) (fun _ => 0%Z) true true sample_arrivals).

Lemma sample_check :
  match sample_hub_init with
  | Some (_, h, io, st) =>
      match sample_run h io st with
      | Some (h', _, _) => (local_decode_hub_strict_check (Some h'), lf_active (hub_flow h' 1), lf_flow_id (hub_flow h' 1))
      | None => (1%Z, false, 0%Z)
      end
  | None => (1%Z, false, 0%Z)
  end = (0%Z, true, 9%Z).
Proof. vm_compute. reflexivity. Qed.

Lemma sample_carried : Forall (carried true true sample_get sample_sources) sample_arrivals.
Proof.
  apply List.Forall_forall. intros x (d & <- & (l & (s & <- & Hs)%in_map_iff & Hd)%in_concat)%in_map_iff. exists s.
  assert (Hrel : forall d, hops d (relayed d)).
  { intros d1. unfold relayed. destruct (header_in d1) as [h|] eqn:E; [|constructor]. destruct (Z.ltb_spec 0 (wh_ttl h)) as [H|_]; [|constructor].
    by apply hops_next; [constructor| |]. }
  assert (Hin : exists d0, In d0 (sample_log s) /\ hops d0 d); [|by destruct Hin as (d0 & H1 & H2); exists d0].
  destruct (sample_log s) as [|d0 [|e [|d1 l1]]]; try (exists d; split; [done|constructor]).
  destruct Hd as [<-|[<-|[<-|[]]]]; [exists d0|exists d0|exists e]; (split; [cbn; tauto|]); [constructor|apply Hrel|constructor].
Qed.

Lemma sample_sources_ok : Forall (source_ok sample_get (Some none_codec_vtable) (fun _ => True)) sample_sources.
Proof. repeat constructor; by vm_compute. Qed.

Lemma sample_ids : NoDup (map (fun s => lsc_flow_id (sr_config s)) sample_sources).
Proof. apply (bool_decide_unpack _). by vm_compute. Qed.

Lemma sample_bounds : (Z.of_nat (1 * PKG_SIZE) < 2 ^ 16)%Z /\ (Z.of_nat (length sample_arrivals) < 2 ^ 64)%Z.
Proof. split; [by vm_compute|]. unfold sample_arrivals. rewrite length_map. by vm_compute. Qed.

Lemma sample_start :
  exists h io st, sample_hub_init = Some (0%Z, h, io, st) /\
    strict_hub sample_get (fun _ => true) (Some none_codec_vtable) (fun _ => True) h io st.
Proof.
  assert (E : option_map (fun x => fst (fst (fst x))) sample_hub_init = Some 0%Z) by (vm_compute; reflexivity).
  destruct sample_hub_init as [[[[rc h] io] st]|] eqn:Hi; [|done]. injection E as ->. exists h, io, st. split; [done|].
  by exists true, (fun _ => Some true), None, sample_hub_config, (mkHubIo 0 [] [] [] []), tt.
Qed.

Lemma local_endpoints_deliver_files_witness :
  exists h io st h' io' st', sample_hub_init = Some (0%Z, h, io, st) /\ sample_run h io st = Some (h', io', st') /\
    lf_flow_id (hub_flow h' 1) = 9%Z /\ concat (lf_written (hub_flow h' 1)) = [x7a].
Proof.
  destruct sample_start as (h & io & st & Hi & Hs). pose proof sample_check as Hc. rewrite Hi in Hc.
  destruct (local_endpoints_deliver_files true true sample_get (fun _ => true) (fun _ _ => true) (fun _ => []) (fun _ => 0%Z) true
    (Some none_codec_vtable) (fun _ => True) 1 0 _ none_erasure none_encoding sample_sources sample_arrivals h io st
    (proj1 sample_bounds) sample_sources_ok sample_ids Hs sample_carried (proj2 sample_bounds)) as [_ H].
  destruct (sample_run h io st) as [[[h' io'] st']|] eqn:Hr; [|by discriminate Hc]. injection Hc as Hc Ha Hid.
  exists h, io, st, h', io', st'. split; [exact Hi|]. split; [exact Hr|]. split; [exact Hid|].
  destruct (H h' io' st' eq_refl Hc 1 Ha) as [(s & Hin & Hf & ->) _]. rewrite Hid in Hf.
  destruct Hin as [<-|[<-|[]]]; [discriminate Hf|reflexivity].
Defined.

(** ** A file in a segment *)

Definition sample_segment_config : WirehairSegmentConfig :=
  {| sc_segment_bytes := 3000; sc_repair_percent := 20; sc_window := 2; sc_ack_enabled := false; sc_origin_node := 1; sc_ack_ttl := 8 |}.
Definition sample_segment_source : SourceRun (St := unit) :=
  mkSourceRun (mkSourceConfig (Some []) CODEC_KIND_WIREHAIR 5 1 8 0 sample_segment_config None) (mkInput [x61; x62; x63] false)
    (fun _ => 7%Z) tt (fun _ => true).
Definition sample_packets : list Arrival :=
  map (fun d => mkArrival d true true) (source_log (wh := repetition) true true sample_get sample_segment_source).
Definition sample_segment_hub : option (Z * LocalDecodeHub (wh := repetition) * HubIo * unit) :=
  local_decode_hub_init (fun _ => true) sample_get true (fun _ => Some true) None
    (mkHubConfig CODEC_KIND_WIREHAIR (Some LOCAL_DECODE_MODE_OUTPUT_DIR) None (Some [x6f]) false false 1 sample_segment_config None 0)
    (mkHubIo 0 [] [] [] []) tt.
Abbreviation sample_segment_run :=
  (hub_run (wh := repetition) (fun _ => true) (fun _ _ => true) (fun _ => []) (fun _ => 0%Z) true true sample_packets).

Lemma sample_segment_check :
  match sample_segment_hub with
  | Some (_, h, io, st) =>
      match sample_segment_run h io st with
      | Some (h', _, _) => (local_decode_hub_strict_check (Some h'), lf_active (hub_flow h' 0))
      | None => (1%Z, false)
      end
  | None => (1%Z, false)
  end = (0%Z, true).
Proof. vm_compute. reflexivity. Qed.

Lemma sample_segment_config_ok : config_ok sample_segment_config.
Proof. split; [unfold segment_config_in_range, in_range; cbn; lia|reflexivity|cbn; unfold WH_PACKET_SIZE; lia]. Qed.

Lemma sample_segment_start :
  exists h io st, sample_segment_hub = Some (0%Z, h, io, st) /\
    strict_segment_hub (wh := repetition) sample_get (fun _ => true) h io st.
Proof.
  assert (E : option_map (fun x => fst (fst (fst x))) sample_segment_hub = Some 0%Z) by (vm_compute; reflexivity).
  destruct sample_segment_hub as [[[[rc h] io] st]|] eqn:Hi; [|done]. injection E as ->. exists h, io, st. split; [done|].
  exists true, (fun _ => Some true), None. eexists _, _, _. split; [|split; [|exact Hi]]; [done|exact sample_segment_config_ok].
Qed.

Lemma sample_packets_carried : Forall (carried (wh := repetition) true true sample_get [sample_segment_source]) sample_packets.
Proof.
  apply List.Forall_forall. unfold sample_packets. intros x Hx. destruct (proj1 (in_map_iff _ _ _) Hx) as (d & <- & Hd).
  exists sample_segment_source, d.
  split; [by left|]. split; [done|constructor].
Qed.

Lemma sample_packets_bound : (Z.of_nat (length sample_packets) < 2 ^ 64)%Z.
Proof. by vm_compute. Qed.

Lemma sample_segment_source_ok : Forall (segment_source_ok sample_segment_config) [sample_segment_source].
Proof. constructor; [|constructor]. split_and!; try done; by intros poll. Qed.

Lemma sample_segment_ids : NoDup (map (fun s : SourceRun (St := unit) => lsc_flow_id (sr_config s)) [sample_segment_source]).
Proof. apply (bool_decide_unpack _). by vm_compute. Qed.

Lemma local_endpoints_deliver_segments_witness :
  exists h io st h' io' st', sample_segment_hub = Some (0%Z, h, io, st) /\ sample_segment_run h io st = Some (h', io', st') /\
    concat (lf_written (hub_flow h' 0)) = [x61; x62; x63].
Proof.
  destruct sample_segment_start as (h & io & st & Hi & Hs). pose proof sample_segment_check as Hc. rewrite Hi in Hc.
  destruct (local_endpoints_deliver_segments (wh := repetition) true true sample_get (fun _ => true) (fun _ _ => true) (fun _ => [])
    (fun _ => 0%Z) true sample_segment_config sample_segment_config_ok [sample_segment_source] sample_segment_source_ok
    sample_segment_ids sample_packets h io st Hs sample_packets_carried sample_packets_bound) as [_ H].
  destruct (sample_segment_run h io st) as [[[h' io'] st']|] eqn:Hr; [|by discriminate Hc]. injection Hc as Hc Ha.
  exists h, io, st, h', io', st'. split; [exact Hi|]. split; [exact Hr|].
  destruct (H h' io' st' eq_refl Hc 0 Ha) as (s & Hin & _ & ->). destruct Hin as [<-|[]]. reflexivity.
Defined.
