(* ===== verification/FlowContext.v ===== *)
(** * Per-flow state: src/include/flow_context.h, src/src/flow_context.c

    The context of one flow (its queue, counters, pacing anchor, encoder and relay target) and
    the functions of flow_context.c.  [double]s are IEEE binary64 values ([SpecFloat] with
    precision 53), so the throughput figures are computed bit by bit as the code computes
    them.  Function pointers are code addresses. *)

From Stdlib Require Import Floats.SpecFloat.
From S2P Require Import Prelude TimeUtils Packet PktQueue FlowBuffer.

Local Open Scope Z_scope.

Definition double : Type := spec_float.
Definition d_of_Z (z : Z) : double := binary_normalize 53 1024 z 0 false.
Definition d_add : double -> double -> double := SFadd 53 1024.
Definition d_mul : double -> double -> double := SFmul 53 1024.
Definition d_div : double -> double -> double := SFdiv 53 1024.
Definition d_zero : double := S754_zero false.

Record FlowMetrics := mkMetrics {
  enqueued_packets : Z;
  dequeued_packets : Z;
  enqueued_bytes : Z;
  dequeued_bytes : Z;
  pacing_sleeps : Z;
  calculated_enqueue_bps : double;
  calculated_dequeue_bps : double;
  bps_window_start : timespec;
  bps_window_enq_bytes : Z;
  bps_window_deq_bytes : Z
}.

Definition metrics_zero : FlowMetrics := mkMetrics 0 0 0 0 0 d_zero d_zero ts_zero 0 0.

Record FlowPacingState := mkPacing {
  stream_start_enqueue : timespec;
  stream_start_dequeue : timespec;
  has_stream_start : bool
}.

Inductive FlowContextStatus := FC_OK | FC_ERR_INVALID | FC_ERR_ALLOC.

(** [queue_occupancy] is the counter the queue mirrors its count to, so it is the queue's own
    [q_occ]; [relay_queue] is the handle of the shared buffer it points to. *)
Record FlowContext := mkFlow {
  fc_flow_id : Z;
  fc_queue : FlowCircularBuffer;
  fc_drop_deferred_overflow : Z;
  fc_metrics : FlowMetrics;
  fc_pacing : FlowPacingState;
  fc_output_fd : Z;
  fc_pacing_enabled : bool;
  fc_encode_fn : option Z;
  fc_encode_ctx : Z;
  fc_encode_scratch : option (list Z);
  fc_encode_scratch_cap : nat;
  fc_relay_queue : option nat;
  fc_worker_started : bool
}.

(** The context after [memset] to zero. *)
Definition flow_zero : FlowContext :=
  mkFlow 0 (mkQ (Ring.ring_init 0 None) false false None) 0 metrics_zero
    (mkPacing ts_zero ts_zero false) 0 false None 0 None 0 None false.

Definition set_queue (f : FlowContext) (q : FlowCircularBuffer) : FlowContext :=
  mkFlow (fc_flow_id f) q (fc_drop_deferred_overflow f) (fc_metrics f) (fc_pacing f)
    (fc_output_fd f) (fc_pacing_enabled f) (fc_encode_fn f) (fc_encode_ctx f)
    (fc_encode_scratch f) (fc_encode_scratch_cap f) (fc_relay_queue f) (fc_worker_started f).
Definition set_drop (f : FlowContext) (n : Z) : FlowContext :=
  mkFlow (fc_flow_id f) (fc_queue f) n (fc_metrics f) (fc_pacing f)
    (fc_output_fd f) (fc_pacing_enabled f) (fc_encode_fn f) (fc_encode_ctx f)
    (fc_encode_scratch f) (fc_encode_scratch_cap f) (fc_relay_queue f) (fc_worker_started f).
Definition set_metrics (f : FlowContext) (x : FlowMetrics) : FlowContext :=
  mkFlow (fc_flow_id f) (fc_queue f) (fc_drop_deferred_overflow f) x (fc_pacing f)
    (fc_output_fd f) (fc_pacing_enabled f) (fc_encode_fn f) (fc_encode_ctx f)
    (fc_encode_scratch f) (fc_encode_scratch_cap f) (fc_relay_queue f) (fc_worker_started f).
Definition set_pacing_state (f : FlowContext) (x : FlowPacingState) : FlowContext :=
  mkFlow (fc_flow_id f) (fc_queue f) (fc_drop_deferred_overflow f) (fc_metrics f) x
    (fc_output_fd f) (fc_pacing_enabled f) (fc_encode_fn f) (fc_encode_ctx f)
    (fc_encode_scratch f) (fc_encode_scratch_cap f) (fc_relay_queue f) (fc_worker_started f).
Definition set_pacing_enabled (f : FlowContext) (x : bool) : FlowContext :=
  mkFlow (fc_flow_id f) (fc_queue f) (fc_drop_deferred_overflow f) (fc_metrics f) (fc_pacing f)
    (fc_output_fd f) x (fc_encode_fn f) (fc_encode_ctx f)
    (fc_encode_scratch f) (fc_encode_scratch_cap f) (fc_relay_queue f) (fc_worker_started f).
Definition set_encoder (f : FlowContext) (fn : option Z) (ctx : Z) (scratch : option (list Z))
  (cap : nat) : FlowContext :=
  mkFlow (fc_flow_id f) (fc_queue f) (fc_drop_deferred_overflow f) (fc_metrics f) (fc_pacing f)
    (fc_output_fd f) (fc_pacing_enabled f) fn ctx scratch cap (fc_relay_queue f)
    (fc_worker_started f).
Definition set_worker_started (f : FlowContext) (x : bool) : FlowContext :=
  mkFlow (fc_flow_id f) (fc_queue f) (fc_drop_deferred_overflow f) (fc_metrics f) (fc_pacing f)
    (fc_output_fd f) (fc_pacing_enabled f) (fc_encode_fn f) (fc_encode_ctx f)
    (fc_encode_scratch f) (fc_encode_scratch_cap f) (fc_relay_queue f) x.

(** ** Counters *)

Definition flow_metrics_record_enqueue (x : FlowMetrics) (n : nat) : FlowMetrics :=
  mkMetrics (enqueued_packets x +u64 1)%cint (dequeued_packets x)
    (enqueued_bytes x +u64 Z.of_nat n)%cint (dequeued_bytes x) (pacing_sleeps x)
    (calculated_enqueue_bps x) (calculated_dequeue_bps x) (bps_window_start x)
    (bps_window_enq_bytes x) (bps_window_deq_bytes x).

Definition flow_metrics_record_dequeue (x : FlowMetrics) (n : nat) : FlowMetrics :=
  mkMetrics (enqueued_packets x) (dequeued_packets x +u64 1)%cint
    (enqueued_bytes x) (dequeued_bytes x +u64 Z.of_nat n)%cint (pacing_sleeps x)
    (calculated_enqueue_bps x) (calculated_dequeue_bps x) (bps_window_start x)
    (bps_window_enq_bytes x) (bps_window_deq_bytes x).

Definition set_window (x : FlowMetrics) (enq_bps deq_bps : double) (now : timespec) : FlowMetrics :=
  mkMetrics (enqueued_packets x) (dequeued_packets x) (enqueued_bytes x) (dequeued_bytes x)
    (pacing_sleeps x) enq_bps deq_bps now (enqueued_bytes x) (dequeued_bytes x).

(** Returns whether a full window elapsed. *)
Definition flow_metrics_tick (clock : option timespec) (x : FlowMetrics) (window_sec : double)
  : bool * FlowMetrics :=
  if SFleb window_sec d_zero then (false, x)
  else
    let '(st, now) := time_utils_now_mono clock ts_zero in
    match st with
    | TU_OK =>
        if (tv_sec (bps_window_start x) =? 0) && (tv_nsec (bps_window_start x) =? 0) then
          (false, set_window x (calculated_enqueue_bps x) (calculated_dequeue_bps x) now)
        else
          let '(st, elapsed) := time_utils_ts_sub now (bps_window_start x) ts_zero in
          match st with
          | TU_OK =>
              let seconds := d_add (d_of_Z (tv_sec elapsed))
                               (d_div (d_of_Z (tv_nsec elapsed)) (d_of_Z 1000000000)) in
              if SFltb seconds window_sec then (false, x)
              else
                let bps now_bytes start_bytes :=
                  d_div (d_mul (d_of_Z (now_bytes -u64 start_bytes)%cint) (d_of_Z 8)) seconds in
                (true, set_window x (bps (enqueued_bytes x) (bps_window_enq_bytes x))
                                    (bps (dequeued_bytes x) (bps_window_deq_bytes x)) now)
          | _ => (false, x)
          end
    | _ => (false, x)
    end.

Definition flow_metrics_get_enqueue_bps (x : FlowMetrics) : double := calculated_enqueue_bps x.
Definition flow_metrics_get_dequeue_bps (x : FlowMetrics) : double := calculated_dequeue_bps x.

(** ** Life cycle *)

Definition flow_context_init (bps_mutex_fails oom mutex_fails not_full_fails not_empty_fails : bool)
  (flow_id : Z) (queue_capacity : nat) (output_fd : Z) (ctx : FlowContext)
  : FlowContextStatus * FlowContext :=
  if (queue_capacity =? 0)%nat then (FC_ERR_INVALID, ctx)
  else
    let ctx := mkFlow flow_id (fc_queue flow_zero) 0 metrics_zero (fc_pacing flow_zero)
                 output_fd true None 0 None 0 None false in
    if bps_mutex_fails then (FC_ERR_ALLOC, ctx)
    else
      let '(st, q) := flow_buffer_init oom mutex_fails not_full_fails not_empty_fails
                        (fc_queue ctx) queue_capacity in
      match st with
      | FB_OK => (FC_OK, set_queue ctx (flow_buffer_set_occupancy_counter q (Some 0%nat)))
      | _ => (FC_ERR_ALLOC, set_queue ctx q)
      end.

(** The scratch content after [malloc] is unspecified: [junk] is what the block holds. *)
Definition flow_context_set_encoder (oom : bool) (junk : list Z) (ctx : FlowContext)
  (encode_fn : option Z) (encode_ctx : Z) (scratch_cap : nat) : FlowContext :=
  if bool_decide (encode_fn = None) || (scratch_cap =? 0)%nat then
    set_encoder ctx encode_fn encode_ctx None 0
  else if oom then set_encoder ctx None 0 None 0
  else set_encoder ctx encode_fn encode_ctx (Some junk) scratch_cap.

Definition flow_context_set_pacing (ctx : FlowContext) (enabled : bool) : FlowContext :=
  set_pacing_enabled ctx enabled.

Definition flow_context_destroy (ctx : FlowContext) : C FlowContext :=
  q ← flow_buffer_destroy (fc_queue ctx);
  mret (set_worker_started (set_encoder (set_queue ctx q) None 0 None 0) false).
