(* ===== verification/Dispatcher.v ===== *)
(** * The manager's state and the dispatcher: src/include/flow_manager.h, src/src/dispatcher.c

    [FlowManager] with its array of flow contexts, the per-flow overflow rings
    ([DeferredQueue]), the mixed queue and the counters; then the functions of dispatcher.c,
    as programs over the manager and the packet memory.  A [NULL] array is the empty list (an
    allocated one has [max_flows > 0] entries).  Only the dispatcher thread writes the
    deferred rings, their bit mask and their total, so its code between two queue operations
    is sequential. *)

From S2P Require Import Prelude TimeUtils Ring Packet PktQueue FlowBuffer MixedQueue Ownership.
From S2P Require Import FlowContext.

Definition FM_DEFERRED_QUOTA : nat := 8.

Inductive FlowManagerStatus := FM_OK | FM_ERR_INVALID | FM_ERR_ALLOC | FM_ERR_STATE | FM_ERR_SHUTDOWN.
Inductive DispatcherStatus := DP_OK | DP_ERR_INVALID | DP_ERR_SYSTEM.

Abbreviation DeferredQueue := (ring (option ptr)).

Record FlowManagerConfig := mkConfig {
  max_flows : nat;
  per_flow_queue_capacity : nat;
  mixed_queue_capacity : nat;
  default_output_fd : Z;
  output_fds : option (list Z);
  cfg_encode_scratch_cap : nat;
  packet_pool_capacity_cfg : nat;
  packet_pool_payload_cap_cfg : nat
}.

Record FlowManager := mkManager {
  config : FlowManagerConfig;
  flows : list FlowContext;
  deferred : list DeferredQueue;
  mixed : MixedQueue;
  packet_pool : option nat;
  dispatch_wake_gen : Z;
  running : bool;
  shutdown_requested : bool;
  dispatcher_started : bool;
  route_errors : Z;
  drop_deferred_overflow : Z;
  deferred_active_bits : Z;
  deferred_total_count : Z;
  deferred_rr_cursor : nat
}.

(** The manager and the memory its packets live in. *)
Record sys := Sys { s_mem : mem; s_mgr : FlowManager }.
Abbreviation M := (comp sys).

Definition liftC {A} (c : C A) : M A :=
  fun s => match c (s_mem s) with
           | None => None
           | Some (a, m') => Some (a, Sys m' (s_mgr s))
           end.

Definition get_mgr : M FlowManager := gets s_mgr.
Definition upd_mgr (f : FlowManager -> FlowManager) : M unit :=
  modify (fun s => Sys (s_mem s) (f (s_mgr s))).

(** ** Field updates *)

Definition set_flows (l : list FlowContext) (g : FlowManager) : FlowManager :=
  mkManager (config g) l (deferred g) (mixed g) (packet_pool g) (dispatch_wake_gen g) (running g)
    (shutdown_requested g) (dispatcher_started g) (route_errors g) (drop_deferred_overflow g)
    (deferred_active_bits g) (deferred_total_count g) (deferred_rr_cursor g).
Definition set_deferred (l : list DeferredQueue) (g : FlowManager) : FlowManager :=
  mkManager (config g) (flows g) l (mixed g) (packet_pool g) (dispatch_wake_gen g) (running g)
    (shutdown_requested g) (dispatcher_started g) (route_errors g) (drop_deferred_overflow g)
    (deferred_active_bits g) (deferred_total_count g) (deferred_rr_cursor g).
Definition set_mixed (q : MixedQueue) (g : FlowManager) : FlowManager :=
  mkManager (config g) (flows g) (deferred g) q (packet_pool g) (dispatch_wake_gen g) (running g)
    (shutdown_requested g) (dispatcher_started g) (route_errors g) (drop_deferred_overflow g)
    (deferred_active_bits g) (deferred_total_count g) (deferred_rr_cursor g).
Definition set_packet_pool (p : option nat) (g : FlowManager) : FlowManager :=
  mkManager (config g) (flows g) (deferred g) (mixed g) p (dispatch_wake_gen g) (running g)
    (shutdown_requested g) (dispatcher_started g) (route_errors g) (drop_deferred_overflow g)
    (deferred_active_bits g) (deferred_total_count g) (deferred_rr_cursor g).
Definition set_wake_gen (x : Z) (g : FlowManager) : FlowManager :=
  mkManager (config g) (flows g) (deferred g) (mixed g) (packet_pool g) x (running g)
    (shutdown_requested g) (dispatcher_started g) (route_errors g) (drop_deferred_overflow g)
    (deferred_active_bits g) (deferred_total_count g) (deferred_rr_cursor g).
Definition set_flags (run shut disp : bool) (g : FlowManager) : FlowManager :=
  mkManager (config g) (flows g) (deferred g) (mixed g) (packet_pool g) (dispatch_wake_gen g) run
    shut disp (route_errors g) (drop_deferred_overflow g)
    (deferred_active_bits g) (deferred_total_count g) (deferred_rr_cursor g).
Definition set_errors (errors drops : Z) (g : FlowManager) : FlowManager :=
  mkManager (config g) (flows g) (deferred g) (mixed g) (packet_pool g) (dispatch_wake_gen g)
    (running g) (shutdown_requested g) (dispatcher_started g) errors drops
    (deferred_active_bits g) (deferred_total_count g) (deferred_rr_cursor g).
Definition set_active (bits total : Z) (g : FlowManager) : FlowManager :=
  mkManager (config g) (flows g) (deferred g) (mixed g) (packet_pool g) (dispatch_wake_gen g)
    (running g) (shutdown_requested g) (dispatcher_started g) (route_errors g)
    (drop_deferred_overflow g) bits total (deferred_rr_cursor g).
Definition set_cursor (n : nat) (g : FlowManager) : FlowManager :=
  mkManager (config g) (flows g) (deferred g) (mixed g) (packet_pool g) (dispatch_wake_gen g)
    (running g) (shutdown_requested g) (dispatcher_started g) (route_errors g)
    (drop_deferred_overflow g) (deferred_active_bits g) (deferred_total_count g) n.

Definition flow_manager_is_running (g : FlowManager) : bool :=
  running g && negb (shutdown_requested g).

Definition flow_manager_deferred_count (g : FlowManager) (fid : nat) : nat :=
  if (length (deferred g) =? 0)%nat || (max_flows (config g) <=? fid)%nat then 0
  else match deferred g !! fid with Some dq => r_count dq | None => 0 end.

Definition flow_manager_deferred_total (g : FlowManager) : Z := deferred_total_count g.
Definition flow_manager_packet_pool (g : FlowManager) : option nat := packet_pool g.
Definition flow_manager_drop_deferred_overflow (g : FlowManager) : Z := drop_deferred_overflow g.

(** ** The deferred rings *)

Definition deferred_mark_active (g : FlowManager) (fid : nat) : FlowManager :=
  if (fid <? 64)%nat then
    set_active (Z.lor (deferred_active_bits g) (Z.shiftl 1 (Z.of_nat fid))) (deferred_total_count g) g
  else g.

(** [bits & ~(1 << fid)] on 64 bits. *)
Definition deferred_clear_active (g : FlowManager) (fid : nat) : FlowManager :=
  if (fid <? 64)%nat then
    set_active (Z.ldiff (deferred_active_bits g) (Z.shiftl 1 (Z.of_nat fid))) (deferred_total_count g) g
  else g.

(** [None]: no memory or no capacity. *)
Definition deferred_init (oom : bool) (capacity : nat) : option DeferredQueue :=
  if (capacity =? 0)%nat || oom then None else Some (ring_init capacity None).

Fixpoint deferred_destroy_loop (fuel : nat) (dq : DeferredQueue) : C unit :=
  match fuel with
  | O => mret tt
  | S n =>
      if (0 <? r_count dq)%nat then
        '(pkt, dq') ← the (take_head None dq);
        _ ← packet_free pkt;
        deferred_destroy_loop n dq'
      else mret tt
  end.

Definition deferred_destroy (dq : DeferredQueue) : C DeferredQueue :=
  _ ← deferred_destroy_loop (r_count dq) dq;
  mret (Ring [] 0 0 0 0).

Definition deferred_push (fid : nat) (pkt : option ptr) : M bool :=
  g ← get_mgr;
  if bool_decide (pkt = None) || (max_flows (config g) <=? fid)%nat then mret false
  else
    dq ← the (deferred g !! fid);
    if (r_capacity dq <=? r_count dq)%nat then mret false
    else
      _ ← upd_mgr (set_deferred (<[fid := put_tail dq pkt]> (deferred g)));
      _ ← (if (r_count dq =? 0)%nat then upd_mgr (fun g => deferred_mark_active g fid) else mret tt);
      _ ← upd_mgr (fun g => set_active (deferred_active_bits g) (deferred_total_count g +u64 1)%cint g);
      mret true.

Definition deferred_pop (fid : nat) : M (option ptr) :=
  g ← get_mgr;
  if (max_flows (config g) <=? fid)%nat then mret None
  else
    dq ← the (deferred g !! fid);
    if (r_count dq =? 0)%nat then mret None
    else
      '(pkt, dq') ← the (take_head (Some None) dq);
      _ ← upd_mgr (set_deferred (<[fid := dq']> (deferred g)));
      _ ← upd_mgr (fun g => set_active (deferred_active_bits g) (deferred_total_count g -u64 1)%cint g);
      _ ← (if (r_count dq =? 1)%nat then upd_mgr (fun g => deferred_clear_active g fid) else mret tt);
      mret pkt.

Definition record_deferred_overflow (fid : nat) : M unit :=
  g ← get_mgr;
  _ ← upd_mgr (set_errors (route_errors g +u64 1)%cint (drop_deferred_overflow g +u64 1)%cint);
  if (fid <? max_flows (config g))%nat then
    f ← the (flows g !! fid);
    upd_mgr (set_flows (<[fid := set_drop f (fc_drop_deferred_overflow f +u64 1)%cint]> (flows g)))
  else mret tt.

(** ** Routing and draining *)

(** [deferred_push], and the drop when it refuses. *)
Definition defer_or_drop (fid : nat) (pkt : ptr) : M unit :=
  ok ← deferred_push fid (Some pkt);
  if ok : bool then mret tt
  else _ ← record_deferred_overflow fid; liftC (packet_free (Some pkt)).

Definition route_packet (pkt : ptr) : M bool :=
  d ← liftC (load_pkt pkt);
  let fid := Z.to_nat (flow_id d) in
  let n := payload_len d in
  g ← get_mgr;
  if (max_flows (config g) <=? fid)%nat then
    _ ← upd_mgr (set_errors (route_errors g +u64 1)%cint (drop_deferred_overflow g));
    _ ← liftC (packet_free (Some pkt));
    mret true
  else
    f ← the (flows g !! fid);
    dq ← the (deferred g !! fid);
    if (0 <? r_count dq)%nat then
      _ ← defer_or_drop fid pkt; mret true
    else
      let '(st, q', cell) := flow_buffer_try_enqueue (fc_queue f) (Some pkt) in
      _ ← upd_mgr (set_flows (<[fid := set_queue f q']> (flows g)));
      match st with
      | FB_OK =>
          _ ← upd_mgr (fun g => set_flows (<[fid :=
                set_metrics (set_queue f q') (flow_metrics_record_enqueue (fc_metrics f) n)]> (flows g)) g);
          mret true
      | FB_ERR_SHUTDOWN => _ ← liftC (packet_free cell); mret false
      | _ => pkt' ← the cell; _ ← defer_or_drop fid pkt'; mret true
      end.

(** The body of the inner loop of [drain_deferred]: move the oldest deferred packet of flow
    [i] to its queue; [false] when there is none or the queue does not take it. *)
Definition drain_one (i : nat) : M bool :=
  g ← get_mgr;
  dq ← the (deferred g !! i);
  if (0 <? r_count dq)%nat then
    slot ← the (r_slots dq !! r_head dq);
    pkt ← the slot;
    d ← liftC (load_pkt pkt);
    f ← the (flows g !! i);
    let '(st, q', _) := flow_buffer_try_enqueue (fc_queue f) (Some pkt) in
    _ ← upd_mgr (set_flows (<[i := set_queue f q']> (flows g)));
    match st with
    | FB_OK =>
        _ ← deferred_pop i;
        _ ← upd_mgr (fun g => set_flows (<[i :=
              set_metrics (set_queue f q') (flow_metrics_record_enqueue (fc_metrics f) (payload_len d))]>
              (flows g)) g);
        mret true
    | _ => mret false
    end
  else mret false.

Fixpoint drain_flow (quota i : nat) : M bool :=
  match quota with
  | O => mret false
  | S quota' =>
      moved ← drain_one i;
      if moved : bool then _ ← drain_flow quota' i; mret true else mret false
  end.

(** The [for] loop over [examined]; [left] iterations remain. *)
Fixpoint drain_flows (left : nat) (active : Z) (start examined : nat) : M bool :=
  match left with
  | O => mret false
  | S left' =>
      g ← get_mgr;
      let i := (start + examined) mod max_flows (config g) in
      dq ← the (deferred g !! i);
      progress ←
        (if (i <? 64)%nat && negb (Z.testbit active (Z.of_nat i)) && (r_count dq =? 0)%nat
         then mret false else drain_flow FM_DEFERRED_QUOTA i);
      rest ← drain_flows left' active start (S examined);
      mret (progress || rest)
  end.

Definition drain_deferred : M bool :=
  g ← get_mgr;
  if (length (deferred g) =? 0)%nat || (max_flows (config g) =? 0)%nat then mret false
  else
    let active := deferred_active_bits g in
    if (active =? 0)%Z && (flow_manager_deferred_total g =? 0)%Z then mret false
    else
      let start := deferred_rr_cursor g mod max_flows (config g) in
      progress ← drain_flows (max_flows (config g)) active start 0;
      _ ← upd_mgr (set_cursor ((start + 1) mod max_flows (config g)));
      mret progress.

(** ** Setting up and tearing down the deferred rings *)

Fixpoint init_deferred_loop (oom : nat -> bool) (capacity i n : nat) : option (list DeferredQueue) :=
  match n with
  | O => Some []
  | S n' =>
      dq ← deferred_init (oom i) capacity;
      rest ← init_deferred_loop oom capacity (S i) n';
      Some (dq :: rest)
  end.

(** [oom_array] and [oom i] are the failures of the [calloc] calls.  On failure the rings
    built so far (all empty) are freed again and [deferred] is NULL. *)
Definition dispatcher_init_deferred (oom_array : bool) (oom : nat -> bool) (g : FlowManager)
  : bool * FlowManager :=
  if (max_flows (config g) =? 0)%nat then (false, g)
  else if oom_array then (false, set_deferred [] g)
  else match init_deferred_loop oom (mixed_queue_capacity (config g)) 0 (max_flows (config g)) with
  | None => (false, set_deferred [] g)
  | Some l => (true, set_cursor 0 (set_active 0 0 (set_deferred l g)))
  end.

Fixpoint destroy_deferred_loop (l : list DeferredQueue) : C unit :=
  match l with
  | [] => mret tt
  | dq :: l' => _ ← deferred_destroy dq; destroy_deferred_loop l'
  end.

Definition dispatcher_destroy_deferred : M unit :=
  g ← get_mgr;
  if (length (deferred g) =? 0)%nat then mret tt
  else
    _ ← liftC (destroy_deferred_loop (deferred g));
    upd_mgr (fun g => set_active 0 0 (set_deferred [] g)).

(** [pthread_create] and [pthread_join] can fail. *)
Definition dispatcher_start (create_fails : bool) (g : FlowManager) : DispatcherStatus * FlowManager :=
  if dispatcher_started g then (DP_ERR_INVALID, g)
  else if create_fails then (DP_ERR_SYSTEM, g)
  else (DP_OK, set_flags (running g) (shutdown_requested g) true g).

Definition dispatcher_join (join_fails : bool) (g : FlowManager) : DispatcherStatus * FlowManager :=
  if negb (dispatcher_started g) then (DP_ERR_INVALID, g)
  else if join_fails then (DP_ERR_SYSTEM, g)
  else (DP_OK, set_flags (running g) (shutdown_requested g) false g).
