(* ===== verification/DispatcherSpec.v ===== *)
(** * The dispatcher keeps its promises: invariant and specifications of dispatcher.c

    [mgr_ok] is the invariant of the manager's queues: every flow queue and deferred ring is
    well formed, [deferred_total_count] is the sum of the ring counts, and bit [i] of
    [deferred_active_bits] says whether ring [i < 64] is non-empty.  The operations of
    Dispatcher.v are specified by what they do to the packets pending for each flow (its queue
    followed by its deferred ring). *)

From S2P Require Import Prelude TimeUtils Ring Packet PktQueue FlowBuffer MixedQueue Ownership.
From S2P Require Import FlowContext Dispatcher.

(** ** Views *)

Definition dq_items (dq : DeferredQueue) : list ptr := omap id (contents dq).

Definition queue_of (g : FlowManager) (i : nat) : list ptr :=
  match flows g !! i with Some f => q_items (fc_queue f) | None => [] end.
Definition deferred_of (g : FlowManager) (i : nat) : list ptr :=
  match deferred g !! i with Some dq => dq_items dq | None => [] end.
Definition pending (g : FlowManager) (i : nat) : list ptr := queue_of g i ++ deferred_of g i.

Definition cap_of (g : FlowManager) (i : nat) : nat :=
  match flows g !! i with Some f => q_cap (fc_queue f) | None => 0 end.
Definition closed_of (g : FlowManager) (i : nat) : bool :=
  match flows g !! i with Some f => q_shutdown (fc_queue f) | None => true end.
Definition drops_of (g : FlowManager) (i : nat) : Z :=
  match flows g !! i with Some f => fc_drop_deferred_overflow f | None => 0%Z end.

(** Free slots of the queue of flow [i]; a closed queue has none. *)
Definition room (g : FlowManager) (i : nat) : nat :=
  if closed_of g i then 0 else cap_of g i - length (queue_of g i).

Definition deferred_sum (g : FlowManager) : nat := sum_list (r_count <$> deferred g).

(** ** The invariant *)

Definition dq_ok (cap : nat) (dq : DeferredQueue) : Prop :=
  ring_ok dq /\ contents dq = Some <$> dq_items dq /\ r_capacity dq = cap.

Record mgr_ok (g : FlowManager) : Prop := {
  mo_pos : 0 < max_flows (config g);
  mo_flows : length (flows g) = max_flows (config g);
  mo_deferred : length (deferred g) = max_flows (config g);
  mo_queue : forall i f, flows g !! i = Some f -> q_ok (fc_queue f);
  mo_ring : forall i dq, deferred g !! i = Some dq -> dq_ok (mixed_queue_capacity (config g)) dq;
  mo_total : deferred_total_count g = Z.of_nat (deferred_sum g);
  mo_bits : forall i, i < 64 ->
    Z.testbit (deferred_active_bits g) (Z.of_nat i) = bool_decide (deferred_of g i <> []);
  mo_space : (Z.of_nat (max_flows (config g) * mixed_queue_capacity (config g)) < 2 ^ 64)%Z
}.

(** What the dispatcher does not change. *)
Definition same_frame (g g' : FlowManager) : Prop :=
  config g' = config g /\ mixed g' = mixed g /\ packet_pool g' = packet_pool g /\
  running g' = running g /\ shutdown_requested g' = shutdown_requested g /\
  dispatch_wake_gen g' = dispatch_wake_gen g /\ deferred_rr_cursor g' = deferred_rr_cursor g /\
  (forall i, cap_of g' i = cap_of g i) /\ (forall i, closed_of g' i = closed_of g i).

Lemma same_frame_refl g : same_frame g g.
Proof. by split_and!. Qed.

Lemma same_frame_trans g1 g2 g3 : same_frame g1 g2 -> same_frame g2 g3 -> same_frame g1 g3.
Proof.
  intros (A1 & A2 & A3 & A4 & A5 & A6 & A7 & A8 & A9) (B1 & B2 & B3 & B4 & B5 & B6 & B7 & B8 & B9).
  split_and!; try congruence; intros i; by rewrite ?B8, ?B9.
Qed.

Create HintDb disp.
#[export] Hint Resolve same_frame_refl same_frame_trans : disp.

(** ** Sums over the rings *)

Lemma deferred_sum_insert g i dq dq' :
  deferred g !! i = Some dq ->
  sum_list (r_count <$> <[i := dq']> (deferred g)) + r_count dq = deferred_sum g + r_count dq'.
Proof.
  intros H. rewrite list_fmap_insert. apply sum_list_insert. rewrite list_lookup_fmap.
  by rewrite H.
Qed.

Lemma sum_list_bound (l : list nat) c : Forall (fun n => n <= c) l -> sum_list l <= length l * c.
Proof. induction 1; simpl; lia. Qed.

Lemma rings_sum_bound cap (l : list DeferredQueue) :
  (forall i dq, l !! i = Some dq -> dq_ok cap dq) -> sum_list (r_count <$> l) <= length l * cap.
Proof.
  intros H. rewrite <- (length_fmap r_count l). apply sum_list_bound, list.Forall_forall.
  intros n Hn. apply list_elem_of_fmap in Hn as (dq & -> & Hin).
  apply list_elem_of_lookup in Hin as [i Hi]. destruct (H _ _ Hi) as (Hr & _ & <-). apply Hr.
Qed.

Lemma rings_insert cap (l : list DeferredQueue) i dq' :
  (forall j dq, l !! j = Some dq -> dq_ok cap dq) -> dq_ok cap dq' ->
  forall j dq, <[i := dq']> l !! j = Some dq -> dq_ok cap dq.
Proof.
  intros H H' j dq Hj. apply list_lookup_insert_Some in Hj as [(-> & <- & _)|[_ Hj]]; eauto.
Qed.

Lemma dq_count dq cap : dq_ok cap dq -> r_count dq = length (dq_items dq).
Proof.
  intros (Hr & Hs & _). rewrite <- contents_length by done. by rewrite Hs, length_fmap.
Qed.

Lemma dq_items_of (dq : DeferredQueue) l : contents dq = Some <$> l -> dq_items dq = l.
Proof. intros H. unfold dq_items. by rewrite H, omap_id_some. Qed.

(** ** Looking up and updating one flow *)

Lemma flow_lookup g i : mgr_ok g -> i < max_flows (config g) -> exists f, flows g !! i = Some f.
Proof. intros H Hi. apply lookup_lt_is_Some. by rewrite (mo_flows _ H). Qed.

Lemma deferred_lookup g i :
  mgr_ok g -> i < max_flows (config g) -> exists dq, deferred g !! i = Some dq.
Proof. intros H Hi. apply lookup_lt_is_Some. by rewrite (mo_deferred _ H). Qed.

Lemma queue_of_insert (l : list FlowContext) i f j g :
  i < length l ->
  queue_of (set_flows (<[i := f]> l) g) j =
  if decide (j = i) then q_items (fc_queue f)
  else match l !! j with Some f => q_items (fc_queue f) | None => [] end.
Proof.
  intros Hi. unfold queue_of; simpl. case_decide as E.
  - subst. by rewrite list_lookup_insert_eq.
  - by rewrite list_lookup_insert_ne.
Qed.

Lemma deferred_of_insert (l : list DeferredQueue) i dq j g :
  i < length l ->
  deferred_of (set_deferred (<[i := dq]> l) g) j =
  if decide (j = i) then dq_items dq
  else match l !! j with Some dq => dq_items dq | None => [] end.
Proof.
  intros Hi. unfold deferred_of; simpl. case_decide as E.
  - subst. by rewrite list_lookup_insert_eq.
  - by rewrite list_lookup_insert_ne.
Qed.

(** Replacing the context of a flow by one with a well-formed queue. *)
Lemma mgr_ok_flow g i f' :
  mgr_ok g -> q_ok (fc_queue f') -> mgr_ok (set_flows (<[i := f']> (flows g)) g).
Proof.
  intros H Hq. destruct H as [H1 H2 H3 H4 H5 H6 H7 H8]. split; simpl; try done.
  - by rewrite length_insert.
  - intros j f Hj. apply list_lookup_insert_Some in Hj as [(-> & <- & _)|[_ Hj]]; eauto.
Qed.

Lemma mgr_ok_errors g e d : mgr_ok g -> mgr_ok (set_errors e d g).
Proof. intros [H1 H2 H3 H4 H5 H6 H7 H8]. by split. Qed.

Lemma mgr_ok_cursor g n : mgr_ok g -> mgr_ok (set_cursor n g).
Proof. intros [H1 H2 H3 H4 H5 H6 H7 H8]. by split. Qed.

#[export] Hint Resolve mgr_ok_flow mgr_ok_errors mgr_ok_cursor : disp.

(** Replacing ring [i] and adjusting the total and the mask. *)
Lemma mgr_ok_ring g i dq dq' bits total :
  mgr_ok g -> deferred g !! i = Some dq -> dq_ok (mixed_queue_capacity (config g)) dq' ->
  total = Z.of_nat (sum_list (r_count <$> <[i := dq']> (deferred g))) ->
  (forall j, j < 64 -> Z.testbit bits (Z.of_nat j) =
     if decide (j = i) then bool_decide (dq_items dq' <> [])
     else Z.testbit (deferred_active_bits g) (Z.of_nat j)) ->
  mgr_ok (set_active bits total (set_deferred (<[i := dq']> (deferred g)) g)).
Proof.
  intros H Hi Hdq Ht Hb. assert (Hlt : i < length (deferred g)) by (by eapply lookup_lt_Some).
  destruct H as [H1 H2 H3 H4 H5 H6 H7 H8]. split; simpl; try done.
  - by rewrite length_insert.
  - by apply rings_insert.
  - intros j Hj. rewrite Hb by done.
    change (deferred_of _ j) with (deferred_of (set_deferred (<[i := dq']> (deferred g)) g) j).
    rewrite deferred_of_insert by done. case_decide; [done|]. by rewrite H7.
Qed.

(** ** Specifications of the ring operations *)

Ltac run_M := cbv [mbind comp_bind mret comp_ret get_mgr upd_mgr gets modify the]; cbn [s_mem s_mgr].

Lemma load_step m g p d :
  lookup_pkt m p = Some d -> liftC (load_pkt p) (Sys m g) = Some (d, Sys m g).
Proof. intros H. unfold liftC. simpl. by rewrite (load_pkt_run _ _ _ H). Qed.

Lemma deferred_push_spec m g i p :
  mgr_ok g -> i < max_flows (config g) ->
  (length (deferred_of g i) = mixed_queue_capacity (config g) /\
   deferred_push i (Some p) (Sys m g) = Some (false, Sys m g)) \/
  (length (deferred_of g i) < mixed_queue_capacity (config g) /\
   exists g', deferred_push i (Some p) (Sys m g) = Some (true, Sys m g') /\ mgr_ok g' /\
     same_frame g g' /\ flows g' = flows g /\ route_errors g' = route_errors g /\
     drop_deferred_overflow g' = drop_deferred_overflow g /\
     forall j, deferred_of g' j = if decide (j = i) then deferred_of g i ++ [p] else deferred_of g j).
Proof.
  intros H Hi. destruct (deferred_lookup g i H Hi) as [dq Hdq].
  pose proof (mo_ring _ H _ _ Hdq) as Hok. pose proof Hok as (Hr & Hs & Hcap).
  assert (Hd : deferred_of g i = dq_items dq) by (unfold deferred_of; by rewrite Hdq).
  pose proof (dq_count _ _ Hok) as Hc. rewrite Hd, <- Hc.
  unfold deferred_push. run_M. destruct (Nat.leb_spec (max_flows (config g)) i); [lia|]. simpl.
  rewrite Hdq, Hcap. destruct (Nat.leb_spec (mixed_queue_capacity (config g)) (r_count dq)) as [Hf|Hf].
  { left. split; [|done]. destruct Hr as (_ & _ & _ & Hle & _). lia. }
  right. split; [done|]. set (dq' := put_tail dq (Some p)).
  assert (Hs' : contents dq' = Some <$> (dq_items dq ++ [p])).
  { subst dq'. rewrite put_tail_contents, Hs, fmap_app by (done || lia). done. }
  assert (Hok' : dq_ok (mixed_queue_capacity (config g)) dq').
  { split; [apply put_tail_ok; [done|lia]|]. split; [by rewrite (dq_items_of _ _ Hs')|done]. }
  assert (Hnz : bool_decide (dq_items dq' <> []) = true).
  { apply bool_decide_eq_true. rewrite (dq_items_of _ _ Hs'). by destruct (dq_items dq). }
  set (bits := if (r_count dq =? 0)%nat && (i <? 64)%nat
               then Z.lor (deferred_active_bits g) (Z.shiftl 1 (Z.of_nat i))
               else deferred_active_bits g).
  exists (set_active bits (deferred_total_count g +u64 1)%cint
            (set_deferred (<[i := dq']> (deferred g)) g)).
  split.
  { subst bits. destruct (r_count dq =? 0)%nat; simpl; [|done].
    unfold deferred_mark_active. by destruct (i <? 64)%nat. }
  split.
  { eapply mgr_ok_ring; [done|exact Hdq|done| |].
    - pose proof (deferred_sum_insert g i dq dq' Hdq) as E.
      assert (E2 : r_count dq' = r_count dq + 1) by done.
      pose proof (mo_space _ H) as Sp. rewrite (mo_total _ H).
      pose proof (rings_sum_bound _ _ (rings_insert _ _ i dq' (mo_ring _ H) Hok')) as B2.
      rewrite length_insert, (mo_deferred _ H) in B2.
      rewrite u64_small; [lia|]. unfold in_range. lia.
    - intros j Hj. subst bits. rewrite Hnz. destruct (Nat.eqb_spec (r_count dq) 0) as [E0|E0]; simpl.
      + destruct (Nat.ltb_spec i 64); simpl; [by rewrite mark_bits|].
        rewrite decide_False by lia. done.
      + case_decide as E; [|done]. subst j. rewrite (mo_bits _ H) by done.
        apply bool_decide_eq_true. rewrite Hd. intros E1. rewrite E1 in Hc. done. }
  split; [by split_and!|]. split_and!; try done. intros j.
  change (deferred_of _ j) with (deferred_of (set_deferred (<[i := dq']> (deferred g)) g) j) at 1.
  rewrite deferred_of_insert by (by eapply lookup_lt_Some). by rewrite (dq_items_of _ _ Hs').
Qed.

Lemma deferred_pop_spec m g i p ps :
  mgr_ok g -> i < max_flows (config g) -> deferred_of g i = p :: ps ->
  exists g', deferred_pop i (Sys m g) = Some (Some p, Sys m g') /\ mgr_ok g' /\
    same_frame g g' /\ flows g' = flows g /\ route_errors g' = route_errors g /\
    drop_deferred_overflow g' = drop_deferred_overflow g /\
    forall j, deferred_of g' j = if decide (j = i) then ps else deferred_of g j.
Proof.
  intros H Hi Hd. destruct (deferred_lookup g i H Hi) as [dq Hdq].
  pose proof (mo_ring _ H _ _ Hdq) as Hok. pose proof Hok as (Hr & Hs & Hcap).
  assert (Hd' : dq_items dq = p :: ps) by (unfold deferred_of in Hd; by rewrite Hdq in Hd).
  pose proof (dq_count _ _ Hok) as Hc. rewrite Hd' in Hc, Hs. simpl in Hc.
  unfold deferred_pop. run_M. destruct (Nat.leb_spec (max_flows (config g)) i); [lia|].
  rewrite Hdq. destruct (Nat.eqb_spec (r_count dq) 0) as [|_]; [lia|].
  destruct (take_head_spec (Some None) dq (Some p) (fmap (M:=list) Some ps) Hr Hs)
    as (dq' & E & Hr' & Hs' & Hcap' & Hcnt & _).
  rewrite E. assert (Hi' : dq_items dq' = ps) by (by apply dq_items_of).
  assert (Hok' : dq_ok (mixed_queue_capacity (config g)) dq').
  { split; [done|]. split; [by rewrite Hi'|congruence]. }
  set (bits := if (r_count dq =? 1)%nat && (i <? 64)%nat
               then Z.ldiff (deferred_active_bits g) (Z.shiftl 1 (Z.of_nat i))
               else deferred_active_bits g).
  exists (set_active bits (deferred_total_count g -u64 1)%cint
            (set_deferred (<[i := dq']> (deferred g)) g)).
  split.
  { subst bits. destruct (r_count dq =? 1)%nat; simpl; [|done].
    unfold deferred_clear_active. by destruct (i <? 64)%nat. }
  split.
  { eapply mgr_ok_ring; [done|exact Hdq|done| |].
    - pose proof (deferred_sum_insert g i dq dq' Hdq) as E2.
      pose proof (rings_sum_bound _ _ (mo_ring _ H)) as B. fold (deferred_sum g) in B.
      rewrite (mo_deferred _ H) in B. pose proof (mo_space _ H) as Sp. rewrite (mo_total _ H).
      rewrite u64_small; [lia|]. unfold in_range. lia.
    - intros j Hj. subst bits. rewrite Hi'. destruct (Nat.eqb_spec (r_count dq) 1) as [E1|E1]; simpl.
      + assert (ps = []) as -> by (destruct ps; simpl in *; [done|lia]).
        destruct (Nat.ltb_spec i 64); simpl; [by rewrite clear_bits|].
        rewrite decide_False by lia. done.
      + case_decide as Ej; [|done]. subst j. rewrite (mo_bits _ H), Hd by done.
        destruct ps; [simpl in *; lia|done]. }
  split; [by split_and!|]. split_and!; try done. intros j.
  change (deferred_of _ j) with (deferred_of (set_deferred (<[i := dq']> (deferred g)) g) j) at 1.
  rewrite deferred_of_insert by (by eapply lookup_lt_Some). by rewrite Hi'.
Qed.

(** Changing a context's counters or queue in place. *)
Lemma same_frame_flow g i f f' :
  flows g !! i = Some f -> q_cap (fc_queue f') = q_cap (fc_queue f) ->
  q_shutdown (fc_queue f') = q_shutdown (fc_queue f) ->
  same_frame g (set_flows (<[i := f']> (flows g)) g).
Proof.
  intros Hf Hc Hs. split_and!; try done; intros j; unfold cap_of, closed_of; simpl;
    (destruct (decide (j = i)) as [->|];
     [rewrite list_lookup_insert_eq, Hf by (by eapply lookup_lt_Some); done
     |by rewrite list_lookup_insert_ne]).
Qed.

Definition u64_succ (z : Z) : Z := (z +u64 1)%cint.

(** Only the drop counters of the manager and of flow [i] move. *)
Lemma record_deferred_overflow_spec m g i :
  mgr_ok g -> i < max_flows (config g) ->
  exists g', record_deferred_overflow i (Sys m g) = Some (tt, Sys m g') /\ mgr_ok g' /\
    same_frame g g' /\ (forall j, queue_of g' j = queue_of g j) /\
    (forall j, deferred_of g' j = deferred_of g j) /\
    route_errors g' = u64_succ (route_errors g) /\
    drop_deferred_overflow g' = u64_succ (drop_deferred_overflow g) /\
    forall j, drops_of g' j = if decide (j = i) then u64_succ (drops_of g i) else drops_of g j.
Proof.
  intros H Hi. destruct (flow_lookup g i H Hi) as [f Hf].
  unfold record_deferred_overflow. run_M.
  destruct (Nat.ltb_spec i (max_flows (config g))); [|lia]. rewrite Hf.
  eexists. split; [reflexivity|].
  assert (Hlt : i < length (flows g)) by (by eapply lookup_lt_Some).
  assert (Hq : q_ok (fc_queue f)) by (by eapply mo_queue).
  split. { apply (mgr_ok_flow (set_errors _ _ g)); [by apply mgr_ok_errors|done]. }
  split. { by apply (same_frame_flow (set_errors _ _ g) i f). }
  split.
  { intros j. change (queue_of _ j) with
      (queue_of (set_flows (<[i := set_drop f (u64_succ (fc_drop_deferred_overflow f))]> (flows g)) g) j) at 1.
    rewrite queue_of_insert by done. case_decide; [subst|done].
    unfold queue_of. by rewrite Hf. }
  split_and!; try done. intros j. unfold drops_of; simpl.
  case_decide as E; [subst; rewrite list_lookup_insert_eq by done; by rewrite Hf|].
  by rewrite list_lookup_insert_ne.
Qed.

(** ** [flow_buffer_try_enqueue] on the queue of a flow, with the rest of the context *)

Lemma set_flows_same g i f :
  flows g !! i = Some f -> set_flows (<[i := set_queue f (fc_queue f)]> (flows g)) g = g.
Proof.
  intros H. assert (E : set_queue f (fc_queue f) = f) by (by destruct f).
  rewrite E, list_insert_id by done. by destruct g.
Qed.

(** A context whose queue took one packet, as the state of the manager. *)
Lemma enqueue_flow g i f f' p :
  mgr_ok g -> flows g !! i = Some f -> q_ok (fc_queue f') ->
  q_items (fc_queue f') = q_items (fc_queue f) ++ [p] ->
  q_cap (fc_queue f') = q_cap (fc_queue f) -> q_shutdown (fc_queue f') = q_shutdown (fc_queue f) ->
  fc_drop_deferred_overflow f' = fc_drop_deferred_overflow f ->
  let g' := set_flows (<[i := f']> (flows g)) g in
  mgr_ok g' /\ same_frame g g' /\ deferred g' = deferred g /\
  (forall j, queue_of g' j = if decide (j = i) then queue_of g i ++ [p] else queue_of g j) /\
  (forall j, drops_of g' j = drops_of g j).
Proof.
  intros H Hf Hq Hi Hc Hs Hdr g'. assert (Hlt : i < length (flows g)) by (by eapply lookup_lt_Some).
  split; [by apply mgr_ok_flow|]. split; [by eapply same_frame_flow|]. split; [done|]. split.
  - intros j. subst g'. rewrite queue_of_insert by done. unfold queue_of.
    case_decide; [|done]. by rewrite Hf.
  - intros j. unfold drops_of; subst g'; simpl. destruct (decide (j = i)) as [->|].
    + rewrite list_lookup_insert_eq by done. by rewrite Hf.
    + by rewrite list_lookup_insert_ne.
Qed.

(** ** [drain_one] *)

Definition keeps (g g' : FlowManager) : Prop :=
  same_frame g g' /\ route_errors g' = route_errors g /\
  drop_deferred_overflow g' = drop_deferred_overflow g /\ forall j, drops_of g' j = drops_of g j.

Lemma keeps_refl g : keeps g g.
Proof. by split_and!. Qed.

Lemma keeps_trans g1 g2 g3 : keeps g1 g2 -> keeps g2 g3 -> keeps g1 g3.
Proof.
  intros (A1 & A2 & A3 & A4) (B1 & B2 & B3 & B4). split_and!; try congruence.
  by eapply same_frame_trans.
Qed.

#[export] Hint Resolve keeps_refl keeps_trans : disp.

(** The packets of a ring are live. *)
Definition live_pkts (m : mem) (ps : list ptr) : Prop := Forall (fun p => is_Some (lookup_pkt m p)) ps.

Lemma owns_live m ps qs : owns m ps -> (forall p, p ∈ qs -> p ∈ ps) -> live_pkts m qs.
Proof.
  intros H Hin. apply list.Forall_forall. intros p Hp.
  destruct (owns_elem m ps p H (Hin p Hp)) as (d & Hd & _). by eauto.
Qed.

Lemma dq_head_slot cap dq p ps :
  dq_ok cap dq -> dq_items dq = p :: ps -> r_slots dq !! r_head dq = Some (Some p) /\ 0 < r_count dq.
Proof.
  intros Hok Hi. pose proof (dq_count _ _ Hok) as Hc. destruct Hok as (Hr & Hs & _).
  rewrite Hi in Hc. simpl in Hc. split; [|lia].
  pose proof (contents_lookup dq 0 Hr ltac:(lia)) as E. rewrite Hs, Hi, Nat.add_0_r in E.
  destruct Hr as (_ & _ & Hh & _). rewrite Nat.mod_small in E by done. by rewrite <- E.
Qed.

Lemma flow_views g i f :
  flows g !! i = Some f ->
  queue_of g i = q_items (fc_queue f) /\ cap_of g i = q_cap (fc_queue f) /\
  closed_of g i = q_shutdown (fc_queue f) /\ drops_of g i = fc_drop_deferred_overflow f.
Proof. intros H. unfold queue_of, cap_of, closed_of, drops_of. by rewrite H. Qed.

Lemma drain_one_spec m g i :
  mgr_ok g -> i < max_flows (config g) -> live_pkts m (deferred_of g i) ->
  match deferred_of g i with
  | p :: ps =>
      if decide (0 < room g i) then
        exists g', drain_one i (Sys m g) = Some (true, Sys m g') /\ mgr_ok g' /\ keeps g g' /\
          (forall j, queue_of g' j = if decide (j = i) then queue_of g i ++ [p] else queue_of g j) /\
          (forall j, deferred_of g' j = if decide (j = i) then ps else deferred_of g j)
      else drain_one i (Sys m g) = Some (false, Sys m g)
  | [] => drain_one i (Sys m g) = Some (false, Sys m g)
  end.
Proof.
  intros H Hi Hlive. destruct (deferred_lookup g i H Hi) as [dq Hdq].
  destruct (flow_lookup g i H Hi) as [f Hf]. pose proof (mo_ring _ H _ _ Hdq) as Hok.
  assert (Hd : deferred_of g i = dq_items dq) by (unfold deferred_of; by rewrite Hdq).
  unfold drain_one. run_M. rewrite Hdq.
  destruct (deferred_of g i) as [|p ps] eqn:Ei.
  { pose proof (dq_count _ _ Hok) as Hc. rewrite <- Hd in Hc. by rewrite Hc. }
  destruct (dq_head_slot _ _ _ _ Hok (eq_sym Hd)) as [Hslot Hpos].
  destruct (Nat.ltb_spec 0 (r_count dq)); [|lia]. rewrite Hslot.
  apply list.Forall_cons in Hlive as [[d Hp] _]. rewrite (load_step _ _ _ _ Hp), Hf.
  destruct (flow_views g i f Hf) as (Hq & Hc & Hs & Hdr).
  pose proof (mo_queue _ H _ _ Hf) as Hqok. unfold room. rewrite Hs, Hc, Hq.
  destruct (fb_try_enqueue_spec (fc_queue f) p Hqok)
    as [(Es & ->)|[(Es & El & ->)|(Es & El & fb' & -> & Hok' & Hi' & Hc' & Hs')]]; rewrite Es.
  - by rewrite decide_False, set_flows_same by (done || lia).
  - by rewrite decide_False, set_flows_same by (done || lia).
  - rewrite decide_True by lia.
    destruct (enqueue_flow g i f (set_queue f fb') p) as (Hg1 & Hfr1 & Hd1 & Hq1 & Hdr1);
      try done; [simpl; congruence|].
    set (g1 := set_flows (<[i := set_queue f fb']> (flows g)) g) in *.
    cbn [s_mem s_mgr]. fold g1.
    destruct (deferred_pop_spec m g1 i p ps) as (g2 & -> & Hg2 & Hfr2 & Hfl2 & He2 & Ho2 & Hd2);
      [done|by destruct Hfr1 as (-> & _)|exact Ei|].
    eexists. split; [reflexivity|].
    set (f2 := set_metrics (set_queue f fb') _).
    assert (Hf2 : flows g2 !! i = Some (set_queue f fb')).
    { rewrite Hfl2. apply list_lookup_insert_eq. by eapply lookup_lt_Some. }
    cbn [s_mgr]. split; [by apply mgr_ok_flow|].
    assert (Hfr3 : same_frame g2 (set_flows (<[i := f2]> (flows g2)) g2)) by (by eapply same_frame_flow).
    split; [split_and!|split].
    + eauto using same_frame_trans.
    + exact He2.
    + exact Ho2.
    + intros j. rewrite <- Hdr1. unfold drops_of; simpl. rewrite Hfl2. subst g1; simpl.
      rewrite list_insert_insert_eq. destruct (decide (j = i)) as [->|];
        [by rewrite !list_lookup_insert_eq by (by eapply lookup_lt_Some)
        |by rewrite !list_lookup_insert_ne].
    + intros j. rewrite queue_of_insert by (by eapply lookup_lt_Some). rewrite <- Hq.
      specialize (Hq1 j). case_decide as Ej; [subst j; simpl; by rewrite Hi', Hq|].
      rewrite Hfl2. rewrite <- Hq1. done.
    + intros j. specialize (Hd2 j). change (deferred_of _ j) with (deferred_of g2 j) at 1.
      rewrite Hd2. done.
Qed.

(** ** [drain_flow] and [drain_deferred] *)

(** How many packets one visit moves for flow [j]: at most the quota, what is deferred, and
    the free slots of an open queue. *)
Definition quota_move (q : nat) (g : FlowManager) (j : nat) : nat :=
  Nat.min q (Nat.min (length (deferred_of g j)) (room g j)).

Definition drained (k : nat) (g g' : FlowManager) (j : nat) : Prop :=
  queue_of g' j = queue_of g j ++ take k (deferred_of g j) /\
  deferred_of g' j = drop k (deferred_of g j).

Definition untouched (g g' : FlowManager) (j : nat) : Prop :=
  queue_of g' j = queue_of g j /\ deferred_of g' j = deferred_of g j.

Lemma untouched_drained g g' j : untouched g g' j <-> drained 0 g g' j.
Proof. unfold untouched, drained. by rewrite take_0, drop_0, app_nil_r. Qed.

Lemma keeps_room g g' j : keeps g g' -> queue_of g' j = queue_of g j -> room g' j = room g j.
Proof. intros ((_ & _ & _ & _ & _ & _ & _ & Hc & Hs) & _) Hq. unfold room. by rewrite Hc, Hs, Hq. Qed.

Lemma keeps_config g g' : keeps g g' -> config g' = config g.
Proof. by intros ((Hc & _) & _). Qed.

Lemma drain_flow_spec m q g i :
  mgr_ok g -> i < max_flows (config g) -> live_pkts m (deferred_of g i) ->
  exists g', drain_flow q i (Sys m g) = Some ((0 <? quota_move q g i)%nat, Sys m g') /\
    mgr_ok g' /\ keeps g g' /\ drained (quota_move q g i) g g' i /\
    forall j, j <> i -> untouched g g' j.
Proof.
  revert g. induction q as [|q IH]; intros g H Hi Hl; cbn [drain_flow].
  { exists g. split; [done|]. split; [done|]. split; [apply keeps_refl|].
    split; [by apply untouched_drained|done]. }
  pose proof (drain_one_spec m g i H Hi Hl) as Hone. run_M. unfold quota_move.
  destruct (deferred_of g i) as [|p ps] eqn:Ed; simpl in Hone.
  { rewrite Hone. exists g. simpl. split; [done|]. split; [done|]. split; [apply keeps_refl|].
    split; [unfold drained; by rewrite Ed, app_nil_r|done]. }
  case_decide as Hroom.
  2: { rewrite Hone. replace (room g i) with 0 by lia. rewrite Nat.min_0_r. exists g.
       split; [done|]. split; [done|]. split; [apply keeps_refl|].
       split; [by apply untouched_drained|done]. }
  destruct Hone as (g1 & E1 & H1 & K1 & Q1 & D1). rewrite E1.
  assert (Hq1 : queue_of g1 i = queue_of g i ++ [p]) by (by rewrite Q1, decide_True).
  assert (Hd1 : deferred_of g1 i = ps) by (by rewrite D1, decide_True).
  destruct (IH g1) as (g2 & E2 & H2 & K2 & [Q2 D2] & U2);
    [done|by rewrite (keeps_config _ _ K1)|rewrite Hd1; by apply list.Forall_cons in Hl as [_ ?]|].
  rewrite E2. exists g2.
  assert (Hr1 : room g1 i = room g i - 1).
  { destruct K1 as ((_ & _ & _ & _ & _ & _ & _ & Hc & Hs) & _). unfold room in *.
    rewrite Hs, Hc, Hq1, length_app. destruct (closed_of g i); simpl; lia. }
  assert (Hk : Nat.min (S q) (Nat.min (length (p :: ps)) (room g i)) = S (quota_move q g1 i)).
  { unfold quota_move. rewrite Hd1, Hr1. simpl length. lia. }
  rewrite Hk. split; [done|]. split; [done|]. split; [by eapply keeps_trans|]. split.
  - unfold drained. rewrite Q2, D2, Hq1, Hd1, Ed. simpl. by rewrite <- app_assoc.
  - intros j Hj. destruct (U2 j Hj) as [U2q U2d]. unfold untouched.
    by rewrite U2q, U2d, Q1, D1, !decide_False.
Qed.

(** [n] consecutive indices modulo [n] are distinct. *)
Lemma visit_distinct n start e e' :
  0 < n -> e < n -> e' < n -> (start + e) mod n = (start + e') mod n -> e = e'.
Proof.
  intros Hn He He' E. rewrite <- (Nat.Div0.add_mod_idemp_l start e), <- (Nat.Div0.add_mod_idemp_l start e') in E.
  assert (start mod n < n) by (apply Nat.mod_upper_bound; lia).
  generalize dependent (start mod n). intros s E Hs. rewrite !mod_wrap in E by lia.
  repeat case_decide; lia.
Qed.

Lemma visit_all n start j : 0 < n -> j < n -> exists e, e < n /\ (start + e) mod n = j.
Proof.
  intros Hn Hj. exists ((j + n - start mod n) mod n). split; [apply Nat.mod_upper_bound; lia|].
  assert (start mod n < n) by (apply Nat.mod_upper_bound; lia).
  rewrite Nat.Div0.add_mod_idemp_r, <- Nat.Div0.add_mod_idemp_l.
  replace (start mod n + (j + n - start mod n)) with (j + 1 * n) by lia.
  rewrite Nat.Div0.mod_add. by apply Nat.mod_small.
Qed.

Definition visited (n start examined left j : nat) : Prop :=
  exists e, examined <= e < examined + left /\ (start + e) mod n = j.

Lemma visited_S n start examined left j :
  visited n start examined (S left) j <->
  j = (start + examined) mod n \/ visited n start (S examined) left j.
Proof.
  split.
  - intros (e & He & Ee). destruct (decide (e = examined)) as [->|]; [by left|].
    right. exists e. split; [lia|done].
  - intros [->|(e & He & Ee)]; [exists examined|exists e]; (split; [lia|done]).
Qed.

(** One iteration of the [for] loop: a skipped flow has nothing deferred. *)
Lemma drain_visit_spec m active g i dq :
  mgr_ok g -> i < max_flows (config g) -> live_pkts m (deferred_of g i) -> deferred g !! i = Some dq ->
  exists g1, (if (i <? 64)%nat && negb (Z.testbit active (Z.of_nat i)) && (r_count dq =? 0)%nat
              then mret false else drain_flow FM_DEFERRED_QUOTA i) (Sys m g) =
      Some ((0 <? quota_move FM_DEFERRED_QUOTA g i)%nat, Sys m g1) /\ mgr_ok g1 /\ keeps g g1 /\
    drained (quota_move FM_DEFERRED_QUOTA g i) g g1 i /\ forall j, j <> i -> untouched g g1 j.
Proof.
  intros H Hi Hl Hdq. case_match eqn:Eskip; [|by apply drain_flow_spec].
  assert (Hz : deferred_of g i = []).
  { apply andb_prop in Eskip as [_ Ez%Nat.eqb_eq].
    pose proof (dq_count _ _ (mo_ring _ H _ _ Hdq)) as Hc. rewrite Ez in Hc.
    unfold deferred_of. rewrite Hdq. by apply length_zero_iff_nil. }
  assert (Hk : quota_move FM_DEFERRED_QUOTA g i = 0) by (unfold quota_move; rewrite Hz; simpl; lia).
  rewrite Hk. exists g. split; [done|]. split; [done|]. split; [apply keeps_refl|].
  split; [by apply untouched_drained|done].
Qed.

Lemma drain_flows_spec m left active start examined g :
  mgr_ok g -> (forall i, live_pkts m (deferred_of g i)) ->
  examined + left <= max_flows (config g) ->
  exists b g', drain_flows left active start examined (Sys m g) = Some (b, Sys m g') /\
    mgr_ok g' /\ keeps g g' /\
    (forall j, visited (max_flows (config g)) start examined left j ->
       drained (quota_move FM_DEFERRED_QUOTA g j) g g' j) /\
    (forall j, ~ visited (max_flows (config g)) start examined left j -> untouched g g' j) /\
    (b = true <-> exists j, visited (max_flows (config g)) start examined left j /\
                            0 < quota_move FM_DEFERRED_QUOTA g j).
Proof.
  revert examined g. induction left as [|left IH]; intros examined g H Hl Hb; cbn [drain_flows].
  { exists false, g. split; [done|]. split; [done|]. split; [apply keeps_refl|].
    split; [intros j (e & ? & _); lia|]. split; [done|]. split; [done|].
    intros (j & (e & ? & _) & _); lia. }
  set (n := max_flows (config g)) in *. set (i := (start + examined) mod n).
  assert (Hn : 0 < n) by apply (mo_pos _ H).
  assert (Hi : i < n) by (apply Nat.mod_upper_bound; lia).
  destruct (deferred_lookup g i H Hi) as [dq Hdq].
  destruct (drain_visit_spec m active g i dq H Hi (Hl i) Hdq) as (g1 & E1 & H1 & K1 & [Q1 D1] & U1).
  pose proof (keeps_config _ _ K1) as Ec.
  assert (Hl1 : forall j, live_pkts m (deferred_of g1 j)).
  { intros j. destruct (decide (j = i)) as [->|Hj]; [rewrite D1|by destruct (U1 j Hj) as [_ ->]].
    apply list.Forall_drop, Hl. }
  destruct (IH (S examined) g1 H1 Hl1) as (b2 & g2 & E2 & H2 & K2 & V2 & N2 & P2);
    [rewrite Ec; fold n; lia|].
  rewrite Ec in V2, N2, P2. fold n in V2, N2, P2.
  assert (Hni : ~ visited n start (S examined) left i).
  { intros (e & He & Ee). assert (e = examined) by (apply (visit_distinct n start); try done; lia). lia. }
  pose proof (fun j => visited_S n start examined left j) as Hsplit. fold i in Hsplit.
  assert (Hmove : forall j, j <> i -> quota_move FM_DEFERRED_QUOTA g1 j = quota_move FM_DEFERRED_QUOTA g j).
  { intros j Hj. destruct (U1 j Hj) as [Uq Ud]. unfold quota_move.
    by rewrite (keeps_room _ _ _ K1 Uq), Ud. }
  run_M. fold n i. rewrite Hdq. unfold mret, comp_ret in E1. rewrite E1, E2.
  eexists _, g2. split; [reflexivity|]. split; [done|]. split; [by eapply keeps_trans|].
  split; [|split].
  - intros j [->|Hv]%Hsplit.
    + destruct (N2 i Hni) as [Uq Ud]. unfold drained. by rewrite Uq, Ud.
    + assert (Hj : j <> i) by (by intros ->). destruct (U1 j Hj) as [Uq Ud].
      destruct (V2 j Hv) as [Vq Vd]. unfold drained. rewrite Vq, Vd, Uq, Ud, Hmove by done. done.
  - intros j Hv. rewrite Hsplit in Hv. assert (Hj : j <> i) by tauto.
    destruct (U1 j Hj) as [Uq Ud]. destruct (N2 j) as [Vq Vd]; [tauto|]. split; congruence.
  - rewrite orb_true_iff, Nat.ltb_lt, P2. split.
    + intros [Hk|(j & Hv & Hk)].
      * exists i. split; [apply Hsplit; by left|done].
      * exists j. split; [apply Hsplit; by right|]. rewrite Hmove in Hk; [done|]. by intros ->.
    + intros (j & [->|Hv]%Hsplit & Hk); [by left|]. right. exists j. split; [done|].
      rewrite Hmove; [done|]. by intros ->.
Qed.

Lemma deferred_of_out g j : mgr_ok g -> max_flows (config g) <= j -> queue_of g j = [] /\ deferred_of g j = [].
Proof.
  intros H Hj. unfold queue_of, deferred_of.
  rewrite !lookup_ge_None_2; [done|by rewrite (mo_deferred _ H)|by rewrite (mo_flows _ H)].
Qed.

Lemma sum_zero_empty g j : mgr_ok g -> deferred_sum g = 0 -> deferred_of g j = [].
Proof.
  intros H Hs. unfold deferred_of. destruct (deferred g !! j) as [dq|] eqn:E; [|done].
  apply length_zero_iff_nil. rewrite <- (dq_count _ _ (mo_ring _ H _ _ E)).
  pose proof (deferred_sum_insert g j dq (Ring [] 0 0 0 0) E) as Hi. simpl in Hi. lia.
Qed.

(** Same manager up to the round-robin cursor, for the views. *)
Lemma set_cursor_views n g j :
  queue_of (set_cursor n g) j = queue_of g j /\ deferred_of (set_cursor n g) j = deferred_of g j.
Proof. done. Qed.

(** The manager after a pass over the deferred rings: every flow got its quota, whatever the
    cursor, and the result says whether anything moved. *)
Lemma drain_deferred_spec m g :
  mgr_ok g -> (forall i, live_pkts m (deferred_of g i)) ->
  exists b g', drain_deferred (Sys m g) = Some (b, Sys m g') /\ mgr_ok g' /\
    (forall j, drained (quota_move FM_DEFERRED_QUOTA g j) g g' j) /\
    keeps (set_cursor (deferred_rr_cursor g') g) g' /\
    (b = true <-> exists j, 0 < quota_move FM_DEFERRED_QUOTA g j).
Proof.
  intros H Hl. unfold drain_deferred. run_M. set (n := max_flows (config g)).
  assert (Hn : 0 < n) by apply (mo_pos _ H).
  destruct (Nat.eqb_spec (length (deferred g)) 0) as [E|_]; [rewrite (mo_deferred _ H) in E; lia|].
  destruct (Nat.eqb_spec n 0) as [|_]; [lia|]. cbn [orb].
  destruct ((deferred_active_bits g =? 0)%Z && (flow_manager_deferred_total g =? 0)%Z) eqn:Eq.
  - apply andb_prop in Eq as [_ Ez%Z.eqb_eq]. unfold flow_manager_deferred_total in Ez.
    rewrite (mo_total _ H) in Ez. assert (Hz : deferred_sum g = 0) by lia.
    assert (Hk : forall j, quota_move FM_DEFERRED_QUOTA g j = 0).
    { intros j. unfold quota_move. rewrite (sum_zero_empty g j H Hz). simpl. lia. }
    exists false, g. split; [done|]. split; [done|]. split.
    { intros j. rewrite Hk. by apply untouched_drained. }
    split; [by split_and!|]. split; [done|]. intros (j & Hj). rewrite Hk in Hj. lia.
  - destruct (drain_flows_spec m n (deferred_active_bits g) (deferred_rr_cursor g mod n) 0 g H Hl)
      as (b & g' & E & H' & K & V & N & P); [done|].
    rewrite E. exists b, (set_cursor ((deferred_rr_cursor g mod n + 1) mod n) g').
    fold n in V, N, P.
    assert (Hall : forall j, drained (quota_move FM_DEFERRED_QUOTA g j) g g' j).
    { intros j. destruct (decide (j < n)) as [Hj|Hj].
      - apply V. destruct (visit_all n (deferred_rr_cursor g mod n) j Hn Hj) as (e & He & Ee).
        exists e. split; [lia|done].
      - destruct (deferred_of_out g j H) as [Hq Hd]; [fold n; lia|].
        destruct (deferred_of_out g' j H') as [Hq' Hd']; [rewrite (keeps_config _ _ K); fold n; lia|].
        unfold drained. rewrite Hq, Hd, Hq', Hd'. by rewrite take_nil, drop_nil. }
    split; [done|]. split; [by apply mgr_ok_cursor|]. split; [done|]. split.
    + destruct K as ((A1 & A2 & A3 & A4 & A5 & A6 & A7 & A8 & A9) & K2 & K3 & K4).
      by split_and!.
    + rewrite P. split; [intros (j & _ & Hk); by exists j|]. intros (j & Hk).
      exists j. split; [|done]. destruct (decide (j < n)) as [Hj|Hj].
      * destruct (visit_all n (deferred_rr_cursor g mod n) j Hn Hj) as (e & He & Ee).
        exists e. split; [lia|done].
      * destruct (deferred_of_out g j H) as [_ Hd]; [fold n; lia|].
        unfold quota_move in Hk. rewrite Hd in Hk. simpl in Hk. lia.
Qed.

(** ** [route_packet] *)

Inductive route_fate (g : FlowManager) (i : nat) : option bool -> Prop :=
  | fate_queued : i < max_flows (config g) -> route_fate g i None
  | fate_overflow : i < max_flows (config g) ->
      length (deferred_of g i) = mixed_queue_capacity (config g) -> route_fate g i (Some true)
  | fate_closed : i < max_flows (config g) -> closed_of g i = true -> route_fate g i (Some false)
  | fate_bad_id : max_flows (config g) <= i -> route_fate g i (Some false).

(** [lost = None]: the packet is the last one pending for its flow.  [lost = Some b]: it was
    freed, and [b] says whether it was counted as a deferred overflow. *)
Definition routed (lost : option bool) (p : ptr) (i : nat) (m m' : mem) (ps : list ptr)
  (g g' : FlowManager) : Prop :=
  (forall j, pending g' j = if decide (j = i /\ lost = None) then pending g i ++ [p] else pending g j) /\
  (forall j, drops_of g' j =
     if decide (j = i /\ lost = Some true) then u64_succ (drops_of g i) else drops_of g j) /\
  (lost = None -> m' = m) /\
  (lost <> None -> owns m' ps /\ same_packets m m' ps).

Lemma free_step m g p ps :
  owns m (p :: ps) -> exists m', liftC (packet_free (Some p)) (Sys m g) = Some (tt, Sys m' g) /\
    owns m' ps /\ same_packets m m' ps.
Proof.
  intros H. destruct (packet_free_owned m p ps H) as (m' & E & _ & Ho & Hs).
  exists m'. unfold liftC. cbn [s_mem s_mgr]. by rewrite E.
Qed.

Lemma defer_or_drop_spec m g i p ps :
  mgr_ok g -> i < max_flows (config g) -> owns m (p :: ps) ->
  exists lost m' g', defer_or_drop i p (Sys m g) = Some (tt, Sys m' g') /\ mgr_ok g' /\
    same_frame g g' /\ route_fate g i lost /\ lost <> Some false /\ routed lost p i m m' ps g g'.
Proof.
  intros H Hi Ho. unfold defer_or_drop.
  destruct (deferred_push_spec m g i p H Hi) as [(Hfull & E)|(Hlt & g' & E & H' & Hfr & Hfl & He & Hdo & Hd)].
  - destruct (record_deferred_overflow_spec m g i H Hi)
      as (g1 & E1 & H1 & Hfr1 & Hq1 & Hd1 & _ & _ & Hdr1).
    destruct (free_step m g1 p ps Ho) as (m' & E2 & Ho2 & Hs2).
    exists (Some true), m', g1. unfold mbind, comp_bind. rewrite E, E1.
    split; [exact E2|]. split; [done|]. split; [done|]. split; [by constructor|]. split; [done|].
    split; [|split; [|done]].
    + intros j. rewrite decide_False by naive_solver. unfold pending. by rewrite Hq1, Hd1.
    + intros j. rewrite Hdr1. destruct (decide (j = i)) as [->|]; [by rewrite decide_True|].
      by rewrite decide_False by naive_solver.
  - exists None, m, g'. unfold mbind, comp_bind, mret, comp_ret. rewrite E.
    split; [done|]. split; [done|]. split; [done|]. split; [by constructor|]. split; [done|].
    split; [|split; [|done]].
    + intros j. unfold pending, queue_of. rewrite Hfl, Hd.
      destruct (decide (j = i)) as [->|]; [rewrite decide_True by done; by rewrite app_assoc|].
      by rewrite decide_False by naive_solver.
    + intros j. rewrite decide_False by naive_solver. unfold drops_of. by rewrite Hfl.
Qed.

Lemma route_packet_spec m g p ps d :
  mgr_ok g -> owns m (p :: ps) -> lookup_pkt m p = Some d ->
  let i := Z.to_nat (flow_id d) in
  exists ok lost m' g', route_packet p (Sys m g) = Some (ok, Sys m' g') /\ mgr_ok g' /\
    same_frame g g' /\ route_fate g i lost /\ routed lost p i m m' ps g g'.
Proof.
  intros H Ho Hd i. unfold route_packet. run_M. rewrite (load_step _ _ _ _ Hd). cbn [s_mem s_mgr].
  fold i. destruct (Nat.leb_spec (max_flows (config g)) i) as [Hbad|Hi].
  { destruct (free_step m (set_errors (route_errors g +u64 1)%cint (drop_deferred_overflow g) g) p ps Ho)
      as (m' & E & Ho' & Hs').
    cbn [s_mem s_mgr]. rewrite E.
    eexists true, (Some false), m', _. split; [reflexivity|]. split; [by apply mgr_ok_errors|].
    split; [by split_and!|]. split; [by constructor|]. split_and!; try done;
      intros j; by rewrite decide_False by naive_solver. }
  destruct (flow_lookup g i H Hi) as [f Hf]. destruct (deferred_lookup g i H Hi) as [dq Hdq].
  rewrite Hf, Hdq. pose proof (mo_ring _ H _ _ Hdq) as Hok.
  destruct (Nat.ltb_spec 0 (r_count dq)) as [Hpos|Hz].
  { destruct (defer_or_drop_spec m g i p ps H Hi Ho) as (lost & m' & g' & E & H' & Hfr & Hfate & _ & Hr).
    rewrite E. by exists true, lost, m', g'. }
  destruct (flow_views g i f Hf) as (Hq & Hc & Hs & Hdr).
  assert (Hnil : deferred_of g i = []).
  { unfold deferred_of. rewrite Hdq. apply length_zero_iff_nil. rewrite <- (dq_count _ _ Hok). lia. }
  destruct (fb_try_enqueue_spec (fc_queue f) p (mo_queue _ H _ _ Hf))
    as [(Es & ->)|[(Es & El & ->)|(Es & El & fb' & -> & Hok' & Hi' & Hc' & Hs')]]; cbn [s_mem s_mgr];
    rewrite ?set_flows_same by done.
  - destruct (free_step m g p ps Ho) as (m' & E & Ho' & Hs'). rewrite E.
    exists false, (Some false), m', g. split; [done|]. split; [done|]. split; [apply same_frame_refl|].
    split; [constructor; congruence|]. split_and!; try done;
      intros j; by rewrite decide_False by naive_solver.
  - destruct (defer_or_drop_spec m g i p ps H Hi Ho) as (lost & m' & g' & E & H' & Hfr & Hfate & _ & Hr).
    rewrite E. by exists true, lost, m', g'.
  - set (f2 := set_metrics (set_queue f fb') _). cbn [s_mem s_mgr flows set_flows]. rewrite list_insert_insert_eq.
    destruct (enqueue_flow g i f f2 p H Hf) as (Hg1 & Hfr1 & Hd1 & Hq1 & Hdr1);
      try done; [simpl; congruence|].
    exists true, None, m, (set_flows (<[i := f2]> (flows g)) g).
    split; [done|]. split; [done|]. split; [done|]. split; [by constructor|].
    split_and!; try done.
    + intros j. unfold pending. rewrite Hq1. unfold deferred_of. rewrite Hd1.
      destruct (decide (j = i)) as [->|]; [|by rewrite decide_False by naive_solver].
      rewrite decide_True by done. fold (deferred_of g i). by rewrite Hnil, !app_nil_r.
    + intros j. by rewrite decide_False by naive_solver.
Qed.
