(* ===== verification/FlowManager.v ===== *)
(** * The manager's life cycle and its entry points: src/src/flow_manager.c,
    src/src/ingress_push.c, and the thread start and join of src/src/flow_worker.c

    Failures of the C library and of pthreads are arguments.  [pthread_join] returns when the
    other thread has returned; what that thread does meanwhile is its own steps (System.v), so
    the join itself only resets the flag. *)

From S2P Require Import Prelude TimeUtils Ring Packet PktQueue FlowBuffer MixedQueue Ownership.
From S2P Require Import FlowContext Dispatcher FlowPeerMap.

Inductive FlowWorkerStatus := FW_OK | FW_ERR_INVALID | FW_ERR_SYSTEM | FW_ERR_SHUTDOWN.

(** ** src/src/flow_worker.c: start and join *)

Definition flow_worker_start (create_fails : bool) (ctx : FlowContext) : FlowWorkerStatus * FlowContext :=
  if fc_worker_started ctx then (FW_ERR_INVALID, ctx)
  else if create_fails then (FW_ERR_SYSTEM, ctx)
  else (FW_OK, set_worker_started ctx true).

Definition flow_worker_join (join_fails : bool) (ctx : FlowContext) : FlowWorkerStatus * FlowContext :=
  if negb (fc_worker_started ctx) then (FW_ERR_INVALID, ctx)
  else if join_fails then (FW_ERR_SYSTEM, ctx)
  else (FW_OK, set_worker_started ctx false).

(** ** Initialisation *)

Definition valid_config (cfg : FlowManagerConfig) : bool :=
  (0 <? max_flows cfg)%nat && (0 <? per_flow_queue_capacity cfg)%nat &&
  (0 <? mixed_queue_capacity cfg)%nat.

(** What fails during [flow_manager_init]. *)
Record init_env := InitEnv {
  ie_mixed : bool * bool * bool * bool;     (* slots, mutex, two condition variables *)
  ie_wake_mutex : bool;
  ie_wake_cond : bool;
  ie_flows : bool;
  ie_flow : nat -> bool * bool * bool * bool * bool;
  ie_scratch : nat -> bool;
  ie_deferred : bool;
  ie_ring : nat -> bool;
  ie_pool : bool * bool * bool * bool * bool
}.

Definition no_failure : init_env :=
  InitEnv (false, false, false, false) false false false (fun _ => (false, false, false, false, false))
    (fun _ => false) false (fun _ => false) (false, false, false, false, false).

(** [memset] to zero, then [mgr->config = *cfg]. *)
Definition manager_zero (cfg : FlowManagerConfig) : FlowManager :=
  mkManager cfg [] [] (mkQ (ring_init 0 None) false false None) None 0 false false false 0 0 0 0 0.

Fixpoint destroy_contexts (l : list FlowContext) : C unit :=
  match l with
  | [] => mret tt
  | f :: l' => _ ← flow_context_destroy f; destroy_contexts l'
  end.

(** The loop over the flows; [acc] holds the contexts built so far, newest first, which is the
    order in which they are destroyed when one fails. *)
Fixpoint init_flows (env : init_env) (cfg : FlowManagerConfig) (acc : list FlowContext) (i n : nat)
  : C (option (list FlowContext)) :=
  match n with
  | O => mret (Some (rev acc))
  | S n' =>
      fd ← match output_fds cfg with
           | Some fds => the (fds !! i)
           | None => mret (default_output_fd cfg)
           end;
      let '(e1, e2, e3, e4, e5) := ie_flow env i in
      let '(st, f) := flow_context_init e1 e2 e3 e4 e5 (Z.of_nat i) (per_flow_queue_capacity cfg) fd flow_zero in
      match st with
      | FC_OK =>
          let f := if (0 <? cfg_encode_scratch_cap cfg)%nat
                   then flow_context_set_encoder (ie_scratch env i) [] f None 0 (cfg_encode_scratch_cap cfg)
                   else f in
          init_flows env cfg (f :: acc) (S i) n'
      | _ => _ ← destroy_contexts acc; mret None
      end
  end.

(** The pool capacity: configured, or derived on [size_t] and capped. *)
Definition pool_capacity_of (cfg : FlowManagerConfig) : nat :=
  if (packet_pool_capacity_cfg cfg =? 0)%nat then
    let cap := u64 (Z.of_nat (mixed_queue_capacity cfg) +
                    u64 (Z.of_nat (per_flow_queue_capacity cfg) * Z.of_nat (max_flows cfg))) in
    Z.to_nat (if (cap >? 65536)%Z then 65536 else cap)
  else packet_pool_capacity_cfg cfg.

Definition destroy_mixed (g : FlowManager) : C FlowManager :=
  q ← mixed_queue_destroy (mixed g); mret (set_mixed q g).

(** [mgr0] is the caller's struct before the call. *)
Definition flow_manager_init (env : init_env) (cfg : FlowManagerConfig) (mgr0 : FlowManager)
  : C (FlowManagerStatus * FlowManager) :=
  if negb (valid_config cfg) then mret (FM_ERR_INVALID, mgr0)
  else
    let g := manager_zero cfg in
    let '(x1, x2, x3, x4) := ie_mixed env in
    let '(st, q) := mixed_queue_init x1 x2 x3 x4 (mixed g) (mixed_queue_capacity cfg) in
    match st with
    | MQ_OK =>
        let g := set_mixed (mixed_queue_set_occupancy_counter q (Some 0)) g in
        if ie_wake_mutex env || ie_wake_cond env || ie_flows env then
          g ← destroy_mixed g; mret (FM_ERR_ALLOC, g)
        else
          fs ← init_flows env cfg [] 0 (max_flows cfg);
          match fs with
          | None => g ← destroy_mixed g; mret (FM_ERR_ALLOC, g)
          | Some fs =>
              let '(ok, g) := dispatcher_init_deferred (ie_deferred env) (ie_ring env) (set_flows fs g) in
              if negb ok then
                _ ← destroy_contexts (flows g);
                g ← destroy_mixed (set_flows [] g); mret (FM_ERR_ALLOC, g)
              else if (0 <? packet_pool_payload_cap_cfg cfg)%nat then
                let '(p1, p2, p3, p4, p5) := ie_pool env in
                '(pst, pl) ← packet_pool_init p1 p2 p3 p4 p5 (pool_capacity_of cfg) (packet_pool_payload_cap_cfg cfg);
                match pst with
                | PP_OK => mret (FM_OK, set_packet_pool pl g)
                | _ =>
                    _ ← destroy_deferred_loop (deferred g);
                    _ ← destroy_contexts (flows g);
                    g ← destroy_mixed (set_flows [] (set_active 0 0 (set_deferred [] g)));
                    mret (FM_ERR_ALLOC, g)
                end
              else mret (FM_OK, g)
          end
    | _ => mret (FM_ERR_ALLOC, set_mixed q g)
    end.

(** ** Start and stop *)

(** The unwinding of a failed start: shut down and join the first [i] workers, last first. *)
Fixpoint unwind_workers (join_fails : nat -> bool) (l : list FlowContext) (i : nat) : list FlowContext :=
  match i with
  | O => l
  | S i' =>
      match l !! i' with
      | None => l
      | Some f =>
          let f := set_queue f (flow_buffer_shutdown (fc_queue f)) in
          unwind_workers join_fails (<[i' := snd (flow_worker_join (join_fails i') f)]> l) i'
      end
  end.

(** Starts workers [i], [i+1], ...: the contexts, and the index of the first that failed. *)
Fixpoint start_workers (create_fails : nat -> bool) (l : list FlowContext) (i n : nat)
  : list FlowContext * option nat :=
  match n with
  | O => (l, None)
  | S n' =>
      match l !! i with
      | None => (l, None)
      | Some f =>
          let '(st, f') := flow_worker_start (create_fails i) f in
          match st with
          | FW_OK => start_workers create_fails (<[i := f']> l) (S i) n'
          | _ => (l, Some i)
          end
      end
  end.

(** When the dispatcher cannot be started, every queue is shut down and every worker joined,
    first flow first. *)
Fixpoint shutdown_join_all (join_fails : nat -> bool) (i : nat) (l : list FlowContext) : list FlowContext :=
  match l with
  | [] => []
  | f :: l' =>
      snd (flow_worker_join (join_fails i) (set_queue f (flow_buffer_shutdown (fc_queue f))))
      :: shutdown_join_all join_fails (S i) l'
  end.

Definition flow_manager_start (create_fails : nat -> bool) (dispatcher_fails : bool)
  (join_fails : nat -> bool) (g : FlowManager) : FlowManagerStatus * FlowManager :=
  if (length (flows g) =? 0)%nat then (FM_ERR_INVALID, g)
  else if running g then (FM_ERR_STATE, g)
  else
    let g := set_flags true false (dispatcher_started g) g in
    let '(fs, failed) := start_workers create_fails (flows g) 0 (max_flows (config g)) in
    match failed with
    | Some i =>
        (FM_ERR_ALLOC, set_flows (unwind_workers join_fails fs i)
                         (set_flags false (shutdown_requested g) (dispatcher_started g) g))
    | None =>
        let '(st, g) := dispatcher_start dispatcher_fails (set_flows fs g) in
        match st with
        | DP_OK => (FM_OK, g)
        | _ =>
            (FM_ERR_ALLOC, set_flows (shutdown_join_all join_fails 0 (flows g))
                             (set_flags false (shutdown_requested g) (dispatcher_started g) g))
        end
    end.

Definition flow_manager_dispatch_wake (g : FlowManager) : FlowManager :=
  set_wake_gen (dispatch_wake_gen g +u64 1)%cint g.

Definition flow_manager_dispatch_wake_if_deferred (g : FlowManager) (fid : nat) : FlowManager :=
  if (length (deferred g) =? 0)%nat || (max_flows (config g) <=? fid)%nat then g
  else match deferred g !! fid with
       | Some dq => if (r_count dq =? 0)%nat then g else flow_manager_dispatch_wake g
       | None => g
       end.

(** The first half of [flow_manager_stop]: what the other threads see before they are joined. *)
Definition stop_request (g : FlowManager) : FlowManager :=
  let g := set_flags false true (dispatcher_started g) g in
  let g := set_mixed (mixed_queue_shutdown (mixed g)) g in
  let g := set_flows ((fun f => set_queue f (flow_buffer_shutdown (fc_queue f))) <$> flows g) g in
  flow_manager_dispatch_wake g.

Fixpoint join_started (join_fails : nat -> bool) (i : nat) (l : list FlowContext) : list FlowContext :=
  match l with
  | [] => []
  | f :: l' =>
      (if fc_worker_started f then snd (flow_worker_join (join_fails i) f) else f)
      :: join_started join_fails (S i) l'
  end.

Definition flow_manager_stop (join_dispatcher_fails : bool) (join_fails : nat -> bool) (g : FlowManager)
  : FlowManagerStatus * FlowManager :=
  if (length (flows g) =? 0)%nat then (FM_ERR_INVALID, g)
  else if negb (running g) && negb (dispatcher_started g) then (FM_OK, g)
  else
    let g := stop_request g in
    let g := if dispatcher_started g then snd (dispatcher_join join_dispatcher_fails g) else g in
    (FM_OK, set_flows (join_started join_fails 0 (flows g)) g).

(** [flow_manager_destroy], in the order of the code: stop, deferred rings, flow contexts,
    packet pool, mixed queue. *)
Definition flow_manager_destroy (join_dispatcher_fails : bool) (join_fails : nat -> bool) : M unit :=
  _ ← upd_mgr (fun g => snd (flow_manager_stop join_dispatcher_fails join_fails g));
  _ ← dispatcher_destroy_deferred;
  g ← get_mgr;
  _ ← liftC (destroy_contexts (flows g));
  _ ← upd_mgr (set_flows []);
  _ ← liftC (packet_pool_destroy (packet_pool g));
  _ ← upd_mgr (set_packet_pool None);
  g ← get_mgr;
  q ← liftC (mixed_queue_destroy (mixed g));
  upd_mgr (fun g => set_errors 0 (drop_deferred_overflow g) (set_flags false false false (set_mixed q g))).

(** ** Entry points *)

(** The blocking push: [*pkt] is the caller's pointer. *)
Definition flow_manager_push (g : FlowManager) (pkt : option ptr)
  : outcome (FlowManagerStatus * FlowManager * option ptr) :=
  match pkt with
  | None => Returns (FM_ERR_INVALID, g, pkt)
  | Some _ =>
      if negb (running g) || shutdown_requested g then Returns (FM_ERR_SHUTDOWN, g, pkt)
      else match mixed_queue_push (mixed g) pkt with
           | Blocks => Blocks
           | Returns (st, q, cell) =>
               let g := set_mixed q g in
               match st with
               | MQ_ERR_SHUTDOWN => Returns (FM_ERR_SHUTDOWN, g, cell)
               | MQ_OK => Returns (FM_OK, g, cell)
               | _ => Returns (FM_ERR_STATE, g, cell)
               end
           end
  end.

Inductive IngressPushStatus :=
  | INGRESS_PUSH_OK | INGRESS_PUSH_ERR_INVALID | INGRESS_PUSH_ERR_ALLOC | INGRESS_PUSH_ERR_MGR
  | INGRESS_PUSH_ERR_PEER.

(** A push that returned, or one that waits for room with its packet in hand. *)
Inductive ingress_result := IngressDone (st : IngressPushStatus) | IngressWaits (pkt : ptr).

Definition ingress_push_prepared (pkt : option ptr) : M ingress_result :=
  match pkt with
  | None => mret (IngressDone INGRESS_PUSH_ERR_INVALID)
  | Some p =>
      g ← get_mgr;
      match flow_manager_push g pkt with
      | Blocks => mret (IngressWaits p)
      | Returns (st, g', cell) =>
          _ ← upd_mgr (fun _ => g');
          match st with
          | FM_OK => mret (IngressDone INGRESS_PUSH_OK)
          | _ => _ ← liftC (packet_free cell); mret (IngressDone INGRESS_PUSH_ERR_MGR)
          end
      end
  end.

(** A packet of the pool filled with the data, or NULL. *)
Definition ingress_from_pool (clock : option timespec) (fid : Z) (data : option (list Z)) (len : nat)
  : M (option ptr) :=
  g ← get_mgr;
  match flow_manager_packet_pool g with
  | None => mret None
  | Some pl =>
      cap ← liftC (packet_pool_payload_cap (Some pl));
      if (len <=? cap)%nat then
        pkt ← liftC (packet_pool_alloc clock (Some pl) fid);
        match pkt with
        | None => mret None
        | Some p =>
            d ← liftC (load_pkt p);
            _ ← (if (0 <? len)%nat then liftC (write_bytes (payload d) (take len (default [] data)))
                 else mret tt);
            _ ← liftC (store_pkt p (mkPacket (flow_id d) (enqueue_ts d) len (payload d) (user_data d) (pool d)));
            mret (Some p)
        end
      else mret None
  end.

(** The pool and the heap fallback read the clock separately. *)
Definition ingress_push (clock1 clock2 : option timespec) (oom_pkt oom_payload : bool)
  (fid : Z) (data : option (list Z)) (len : nat) : M ingress_result :=
  if (0 <? len)%nat && bool_decide (data = None) then mret (IngressDone INGRESS_PUSH_ERR_INVALID)
  else
    pkt ← ingress_from_pool clock1 fid data len;
    pkt ← match pkt with
          | Some p => mret (Some p)
          | None => liftC (packet_create oom_pkt oom_payload clock2 fid data len)
          end;
    match pkt with
    | None => mret (IngressDone INGRESS_PUSH_ERR_ALLOC)
    | Some p => ingress_push_prepared (Some p)
    end.

Definition ingress_push_tuple (oom_map : bool) (clock1 clock2 : option timespec) (oom_pkt oom_payload : bool)
  (map : FlowPeerMap) (tuple : FlowTuple) (data : option (list Z)) (len : nat)
  : M (ingress_result * FlowPeerMap) :=
  let '(fid, map') := flow_peer_map_lookup oom_map map tuple in
  if (fid =? NO_FLOW)%Z then mret (IngressDone INGRESS_PUSH_ERR_PEER, map')
  else
    r ← ingress_push clock1 clock2 oom_pkt oom_payload fid data len;
    mret (r, map').
