(* ===== verification/FlowManagerSpec.v ===== *)
(** * What the manager's life cycle guarantees: init, start, stop, destroy and ingress *)

From S2P Require Import Prelude TimeUtils Ring Packet PktQueue FlowBuffer MixedQueue Ownership.
From S2P Require Import FlowContext Dispatcher DispatcherSpec FlowManager.

(** A manager just started: queues empty and open, nothing dropped. *)
Record fresh_manager (g : FlowManager) : Prop := {
  fm_ok : mgr_ok g;
  fm_mixed : q_ok (mixed g);
  fm_mixed_empty : q_items (mixed g) = [];
  fm_empty : forall i, pending g i = [];
  fm_drops : forall i, drops_of g i = 0%Z
}.

(** ** Initialisation *)

Definition idle_flow (cap : nat) (f : FlowContext) : Prop :=
  q_ok (fc_queue f) /\ q_items (fc_queue f) = [] /\ q_cap (fc_queue f) = cap /\
  q_shutdown (fc_queue f) = false /\ fc_drop_deferred_overflow f = 0%Z /\ fc_worker_started f = false.

Lemma flow_context_init_spec fid cap fd f0 :
  0 < cap -> exists f, flow_context_init false false false false false fid cap fd f0 = (FC_OK, f) /\
    idle_flow cap f /\ fc_output_fd f = fd.
Proof.
  intros Hc. unfold flow_context_init. destruct (Nat.eqb_spec cap 0); [lia|]. simpl.
  destruct (pktq_init_spec (fc_queue flow_zero) cap Hc) as (q & E & Hq & Hi & Hcap & Hs).
  unfold flow_buffer_init. simpl in E. rewrite E. eexists. split; [reflexivity|].
  destruct (set_occupancy_ok q 0 Hq) as [Ho Hv]. clear Hv.
  split; [|done]. unfold idle_flow; simpl. by split_and!.
Qed.

Lemma set_encoder_idle cap f fn ctx sc n : idle_flow cap f -> idle_flow cap (set_encoder f fn ctx sc n).
Proof. done. Qed.

Lemma init_flows_spec cfg acc i n m :
  0 < per_flow_queue_capacity cfg -> output_fds cfg = None ->
  Forall (idle_flow (per_flow_queue_capacity cfg)) acc ->
  exists l, init_flows no_failure cfg acc i n m = Some (Some l, m) /\ length l = length acc + n /\
    Forall (idle_flow (per_flow_queue_capacity cfg)) l.
Proof.
  intros Hc Hfd. revert acc i. induction n as [|n IH]; intros acc i Hacc; cbn [init_flows].
  { eexists. split; [reflexivity|]. rewrite length_rev. split; [lia|]. by apply Forall_rev. }
  rewrite Hfd. unfold mbind, comp_bind, mret at 1, comp_ret at 1. cbn [ie_flow no_failure].
  destruct (flow_context_init_spec (Z.of_nat i) (per_flow_queue_capacity cfg) (default_output_fd cfg) flow_zero Hc)
    as (f & -> & Hf & _).
  edestruct IH as (l & E & Hl & Hall); [|exists l; split; [exact E|]; split; [simpl in Hl; lia|done]].
  constructor; [|done]. case_match; [|done]. by apply set_encoder_idle.
Qed.

Lemma init_deferred_loop_spec cap i n :
  0 < cap -> init_deferred_loop (fun _ => false) cap i n = Some (replicate n (ring_init cap None)).
Proof.
  intros Hc. revert i. induction n as [|n IH]; intros i; simpl; [done|].
  unfold deferred_init. destruct (Nat.eqb_spec cap 0); [lia|]. simpl. by rewrite IH.
Qed.

Lemma ring_init_dq cap : 0 < cap -> dq_ok cap (ring_init cap None) /\ dq_items (ring_init cap None) = [].
Proof. intros Hc. split; [|done]. split; [by apply ring_init_ok|done]. Qed.

(** A manager of idle flows and empty rings is fresh. *)
Lemma fresh_intro g cfg fs :
  config g = cfg -> flows g = fs -> deferred g = replicate (max_flows cfg) (ring_init (mixed_queue_capacity cfg) None) ->
  deferred_active_bits g = 0%Z -> deferred_total_count g = 0%Z ->
  valid_config cfg = true -> (Z.of_nat (max_flows cfg * mixed_queue_capacity cfg) < 2 ^ 64)%Z ->
  length fs = max_flows cfg ->
  Forall (fun f => q_ok (fc_queue f) /\ q_items (fc_queue f) = [] /\ fc_drop_deferred_overflow f = 0%Z) fs ->
  q_ok (mixed g) -> q_items (mixed g) = [] -> fresh_manager g.
Proof.
  intros Ec Ef Ed Eb Et Hv Hsp Hlen Hfs Hq Hi. unfold valid_config in Hv.
  rewrite !andb_true_iff, !Nat.ltb_lt in Hv.
  destruct (ring_init_dq (mixed_queue_capacity cfg)) as [Hdq Hdi]; [lia|].
  rewrite list.Forall_forall in Hfs.
  assert (Hf : forall i f, flows g !! i = Some f ->
    q_ok (fc_queue f) /\ q_items (fc_queue f) = [] /\ fc_drop_deferred_overflow f = 0%Z).
  { intros i f E. apply Hfs. rewrite Ef in E. by eapply list_elem_of_lookup_2. }
  assert (Hd : forall i, deferred_of g i = []).
  { intros i. unfold deferred_of. rewrite Ed.
    destruct (replicate _ _ !! i) as [dq|] eqn:E; [|done]. apply lookup_replicate in E as [-> _]. done. }
  split; [|done|done| |].
  - split; rewrite ?Ec; try lia.
    + by rewrite Ef.
    + by rewrite Ed, length_replicate.
    + intros i f E. by apply (Hf i).
    + intros i dq. rewrite Ed. intros E. by apply lookup_replicate in E as [-> _].
    + rewrite Et. unfold deferred_sum. rewrite Ed.
      enough (E : sum_list (r_count <$> replicate (max_flows cfg) (@ring_init (option ptr) (mixed_queue_capacity cfg) None)) = 0)
        by (by rewrite E).
      clear. induction (max_flows cfg) as [|n IH]; csimpl; [done|exact IH].
    + intros i _. rewrite Eb, Z.bits_0, Hd. done.
  - intros i. unfold pending, queue_of. rewrite Hd, app_nil_r.
    destruct (flows g !! i) as [f|] eqn:E; [|done]. by apply (Hf i).
  - intros i. unfold drops_of. destruct (flows g !! i) as [f|] eqn:E; [|done]. by apply (Hf i).
Qed.

Lemma flow_manager_init_fresh cfg g0 m :
  valid_config cfg = true -> output_fds cfg = None -> 0 < pool_capacity_of cfg ->
  (Z.of_nat (max_flows cfg * mixed_queue_capacity cfg) < 2 ^ 64)%Z ->
  exists g m', flow_manager_init no_failure cfg g0 m = Some (FM_OK, g, m') /\ fresh_manager g /\
    config g = cfg /\ running g = false /\ dispatcher_started g = false /\
    Forall (idle_flow (per_flow_queue_capacity cfg)) (flows g) /\
    q_cap (mixed g) = mixed_queue_capacity cfg /\ q_shutdown (mixed g) = false.
Proof.
  intros Hv Hfd Hpool Hsp. unfold flow_manager_init. rewrite Hv. cbn [negb ie_mixed no_failure].
  unfold valid_config in Hv. rewrite !andb_true_iff, !Nat.ltb_lt in Hv. destruct Hv as [[Hm Hp] Hx].
  destruct (pktq_init_spec (mixed (manager_zero cfg)) (mixed_queue_capacity cfg) Hx) as (q & E & Hq & Hi & Hcap & Hs).
  unfold mixed_queue_init. rewrite E. cbn [mq_status].
  destruct (set_occupancy_ok q 0 Hq) as [Ho _].
  set (q0 := mixed_queue_set_occupancy_counter q (Some 0)).
  assert (Vi : q_items q0 = []) by done. assert (Vc : q_cap q0 = mixed_queue_capacity cfg) by done.
  assert (Vs : q_shutdown q0 = false) by done.
  cbn [ie_wake_mutex ie_wake_cond ie_flows no_failure orb].
  unfold mbind, comp_bind at 1.
  destruct (init_flows_spec cfg [] 0 (max_flows cfg) m Hp Hfd) as (fs & -> & Hl & Hfs); [constructor|].
  unfold dispatcher_init_deferred. cbn [config set_flows set_mixed manager_zero ie_deferred ie_ring no_failure].
  destruct (Nat.eqb_spec (max_flows cfg) 0); [lia|]. rewrite init_deferred_loop_spec by done. cbn [negb].
  assert (Hwork : Forall (fun f => q_ok (fc_queue f) /\ q_items (fc_queue f) = [] /\
                            fc_drop_deferred_overflow f = 0%Z) fs).
  { eapply list.Forall_impl; [exact Hfs|]. intros f (A & B & _ & _ & D & _). done. }
  assert (Hvalid : valid_config cfg = true).
  { unfold valid_config. by rewrite !andb_true_iff, !Nat.ltb_lt. }
  assert (Hfresh : forall pl, fresh_manager (set_packet_pool pl (set_cursor 0 (set_active 0 0 (set_deferred
      (replicate (max_flows cfg) (ring_init (mixed_queue_capacity cfg) None))
      (set_flows fs (set_mixed q0 (manager_zero cfg)))))))).
  { intros pl. by apply (fresh_intro _ cfg fs). }
  destruct (Nat.ltb_spec 0 (packet_pool_payload_cap_cfg cfg)) as [Hpp|Hpp].
  - cbn [ie_pool no_failure]. unfold comp_bind at 1. unfold packet_pool_init.
    destruct (Nat.eqb_spec (pool_capacity_of cfg) 0); [lia|].
    destruct (Nat.eqb_spec (packet_pool_payload_cap_cfg cfg) 0); [lia|]. cbn [orb].
    eexists _, _. split; [reflexivity|]. split; [apply Hfresh|].
    by split_and!.
  - eexists _, _. split; [reflexivity|]. split; [exact (Hfresh None)|].
    by split_and!.
Qed.

(** ** Start *)

Lemma start_workers_spec l i n :
  i + n = length l -> Forall (fun f => fc_worker_started f = false) (drop i l) ->
  start_workers (fun _ => false) l i n =
    (take i l ++ ((fun f => set_worker_started f true) <$> drop i l), None).
Proof.
  revert l i. induction n as [|n IH]; intros l i Hn Hw; simpl.
  { rewrite drop_ge, take_ge by lia. by rewrite app_nil_r. }
  destruct (lookup_lt_is_Some_2 l i ltac:(lia)) as [f Hf]. rewrite Hf.
  rewrite (drop_S l f i Hf) in Hw |- *. apply list.Forall_cons in Hw as [Hwf Hw].
  unfold flow_worker_start. rewrite Hwf. cbn [fc_worker_started].
  rewrite IH; [|rewrite length_insert; lia|by rewrite drop_insert_lt by lia].
  rewrite drop_insert_lt by lia. f_equal. csimpl.
  rewrite (take_S_r _ _ (set_worker_started f true)) by (by apply list_lookup_insert_eq, lookup_lt_Some with f).
  rewrite take_insert_ge by lia. by rewrite <- app_assoc.
Qed.

Lemma flow_manager_start_fresh jf g cap :
  fresh_manager g -> running g = false -> dispatcher_started g = false ->
  Forall (idle_flow cap) (flows g) ->
  exists g', flow_manager_start (fun _ => false) false jf g = (FM_OK, g') /\ fresh_manager g' /\
    config g' = config g /\ mixed g' = mixed g /\ packet_pool g' = packet_pool g /\
    running g' = true /\ shutdown_requested g' = false /\
    flows g' = (fun f => set_worker_started f true) <$> flows g /\ deferred g' = deferred g.
Proof.
  intros [H1 H2 H3 H4 H5] Hr Hd Hw. unfold flow_manager_start.
  pose proof (mo_flows _ H1) as Hlen. pose proof (mo_pos _ H1) as Hpos.
  destruct (Nat.eqb_spec (length (flows g)) 0); [lia|]. rewrite Hr. cbn [flows set_flags config].
  rewrite (start_workers_spec (flows g) 0 (max_flows (config g)));
    [|simpl; lia|rewrite drop_0; eapply list.Forall_impl; [exact Hw|]; by intros f (_ & _ & _ & _ & _ & ?)].
  rewrite take_0, drop_0. simpl app. unfold dispatcher_start. simpl dispatcher_started. rewrite Hd.
  eexists. split; [reflexivity|]. split; [|done].
  set (fs := (fun f => set_worker_started f true) <$> flows g).
  assert (Hlk : forall i, fs !! i = (fun f => set_worker_started f true) <$> flows g !! i)
    by (intros i; apply list_lookup_fmap).
  destruct H1 as [A1 A2 A3 A4 A5 A6 A7 A8]. split; [|done|done| |].
  - split; simpl; try done.
    + unfold fs. by rewrite length_fmap.
    + intros i f E. rewrite Hlk in E. destruct (flows g !! i) as [f0|] eqn:Ef; [|done].
      simpl in E. simplify_eq. exact (A4 i f0 Ef).
  - intros i. rewrite <- (H4 i). unfold pending, queue_of; simpl. rewrite Hlk. by destruct (flows g !! i).
  - intros i. rewrite <- (H5 i). unfold drops_of; simpl. rewrite Hlk. by destruct (flows g !! i).
Qed.

(** ** Freeing queued packets *)

Arguments packet_free : simpl never.

Fixpoint free_all (ps : list ptr) : C unit :=
  match ps with
  | [] => mret tt
  | p :: ps' => _ ← packet_free (Some p); free_all ps'
  end.

(** What a run of [packet_free] calls cannot do: allocate a block or move a pool's array. *)
Definition frees (m m' : mem) : Prop :=
  (forall b, pkts m !! b = None -> pkts m' !! b = None) /\
  (forall pl P, pools m !! pl = Some P -> exists P', pools m' !! pl = Some P' /\ pp_packets P' = pp_packets P).

Lemma frees_refl m : frees m m.
Proof. split; eauto. Qed.

Lemma frees_trans m1 m2 m3 : frees m1 m2 -> frees m2 m3 -> frees m1 m3.
Proof.
  intros [A1 A2] [B1 B2]. split; [by auto|]. intros pl P HP.
  destruct (A2 _ _ HP) as (P1 & H1 & E1). destruct (B2 _ _ H1) as (P2 & H2 & E2).
  exists P2. split; [done|congruence].
Qed.

Lemma release_frees pl p m m' : packet_pool_release (Some pl) (Some p) m = Some (tt, m') -> frees m m'.
Proof.
  unfold packet_pool_release, mbind, comp_bind. destruct (load_pkt p m) as [[d m0]|] eqn:El; [|done].
  unfold load_pkt, mbind, comp_bind, gets, the in El. simpl in El.
  destruct (lookup_pkt m p) as [d'|] eqn:Ed; [|done]. simplify_eq.
  case_decide; [|intros E; unfold mret, comp_ret in E; simplify_eq; apply frees_refl].
  rewrite (store_pkt_run _ _ _ _ Ed). unfold gets, the, modify; simpl.
  destruct (pools m0 !! pl) as [P|] eqn:EP; [|done].
  assert (Hk : forall b, pkts m0 !! b = None ->
    alter (fun l => <[p_off p := mkPacket 0 ts_zero 0 (payload d) None (pool d)]> l) (p_blk p) (pkts m0) !! b = None).
  { intros b Hb. destruct (decide (b = p_blk p)) as [->|];
      [by rewrite lookup_alter_eq, Hb|by rewrite lookup_alter_ne]. }
  case_match; intros E; injection E as <-; (split; [exact Hk|]); intros k Q HQ; simpl; [|by eauto].
  destruct (decide (k = pl)) as [->|].
  - rewrite lookup_insert_eq. simplify_eq. by eauto.
  - rewrite lookup_insert_ne by done. by eauto.
Qed.

Lemma free_bytes_frees p m m' : free_bytes p m = Some (tt, m') -> frees m m'.
Proof.
  unfold free_bytes. destruct p as [p|]; [|intros E; unfold mret, comp_ret in E; simplify_eq; apply frees_refl].
  unfold mbind, comp_bind, gets, modify, ub; simpl. intros E. repeat case_match; simplify_eq.
  split; simpl; eauto.
Qed.

Lemma free_pkt_frees p m m' : free_pkt p m = Some (tt, m') -> frees m m' /\ pkts m' !! p_blk p = None.
Proof.
  unfold free_pkt, mbind, comp_bind, gets, modify, ub; simpl. intros E. repeat case_match; simplify_eq.
  split; [|simpl; by rewrite lookup_delete_eq]. split; simpl; [|by eauto]. intros b Hb.
  destruct (decide (b = p_blk p)) as [->|]; [by rewrite lookup_delete_eq|by rewrite lookup_delete_ne].
Qed.

(** Freeing a packet that is not pooled removes its block. *)
Lemma packet_free_frees p m m' :
  packet_free (Some p) m = Some (tt, m') ->
  frees m m' /\ exists d, lookup_pkt m p = Some d /\ (pool d = None -> pkts m' !! p_blk p = None).
Proof.
  unfold packet_free, mbind, comp_bind. destruct (load_pkt p m) as [[d m0]|] eqn:El; [|done].
  unfold load_pkt, mbind, comp_bind, gets, the in El. simpl in El.
  destruct (lookup_pkt m p) as [d'|] eqn:Ed; [|done]. simplify_eq.
  destruct (pool d) as [pl|] eqn:Epl.
  { intros E. split; [by eapply release_frees|]. exists d. by rewrite Epl. }
  destruct (user_data d) as [a|].
  - unfold gets, the, modify, mret, comp_ret; simpl.
    destruct (adopts m0 !! a) as [ad|]; [|done].
    destruct (free_fn ad); simpl; intros E; apply free_pkt_frees in E as [E1 E2];
      (split; [eapply frees_trans; [|exact E1]; split; simpl; by eauto|by exists d]).
  - destruct (free_bytes (payload d) m0) as [[[] m1]|] eqn:Eb; [|done]. intros E.
    apply free_bytes_frees in Eb. apply free_pkt_frees in E as [E1 E2].
    split; [by eapply frees_trans|by exists d].
Qed.

Lemma free_all_frees ps m m' : free_all ps m = Some (tt, m') -> frees m m'.
Proof.
  revert m. induction ps as [|p ps IH]; intros m; simpl.
  { unfold mret, comp_ret. intros E. simplify_eq. apply frees_refl. }
  unfold mbind, comp_bind. destruct (packet_free (Some p) m) as [[[] m1]|] eqn:E1; [|done].
  intros E. eapply frees_trans; [by apply (packet_free_frees p)|by apply IH].
Qed.

(** Owned packets can all be freed, the others stay, and the heap packets are gone. *)
Lemma free_all_owned ps qs m :
  owns m (ps ++ qs) ->
  exists m', free_all ps m = Some (tt, m') /\ owns m' qs /\ same_packets m m' qs /\ frees m m' /\
    forall p d, p ∈ ps -> lookup_pkt m p = Some d -> pool d = None -> lookup_pkt m' p = None.
Proof.
  revert m. induction ps as [|p ps IH]; intros m Ho; simpl.
  { exists m. split; [done|]. split; [done|]. split; [apply same_packets_refl|].
    split; [apply frees_refl|]. intros p d Hp. set_solver. }
  destruct (packet_free_owned m p (ps ++ qs) Ho) as (m1 & E1 & _ & Ho1 & Hs1).
  destruct (packet_free_frees p m m1 E1) as [Hf1 (d1 & Hd1 & Hg1)].
  destruct (IH m1 Ho1) as (m2 & E2 & Ho2 & Hs2 & Hf2 & Hg2).
  exists m2. unfold mbind, comp_bind. rewrite E1. split; [done|]. split; [done|].
  split; [eapply same_packets_trans; [|done]; by apply list.Forall_app in Hs1 as [_ ?]|].
  split; [by eapply frees_trans|]. intros q d Hq Hd Hn. apply elem_of_cons in Hq as [->|Hq].
  - simplify_eq. unfold lookup_pkt. destruct Hf2 as [Hf2 _]. by rewrite (Hf2 _ (Hg1 Hn)).
  - apply (Hg2 q d Hq); [|done]. rewrite (same_packets_elem _ _ _ q Hs1); [done|set_solver].
Qed.

(** A packet whose block is gone cannot be freed. *)
Lemma free_all_dead ps p m :
  p ∈ ps -> pkts m !! p_blk p = None -> free_all ps m = None.
Proof.
  revert m. induction ps as [|q ps IH]; intros m Hp Hb; [set_solver|]. simpl.
  unfold mbind, comp_bind. destruct (packet_free (Some q) m) as [[[] m1]|] eqn:E; [|done].
  destruct (packet_free_frees q m m1 E) as [[Hf _] (d & Hd & _)].
  apply elem_of_cons in Hp as [->|Hp].
  - unfold lookup_pkt in Hd. by rewrite Hb in Hd.
  - apply IH; [done|]. by apply Hf.
Qed.

(** ** The destroy loops free what is queued, oldest first *)

Lemma destroy_loop_free_all r l m :
  ring_ok r -> contents r = Some <$> l -> r_count r = length l ->
  (_ ← destroy_loop (length l) r; mret tt) m = free_all l m.
Proof.
  revert r m. induction l as [|p l IH]; intros r m Hr Hc Hn; [done|]. cbn [length destroy_loop free_all].
  destruct (Nat.ltb_spec 0 (r_count r)); [|simpl in Hn; lia].
  destruct (take_head_spec None r (Some p) (fmap (M:=list) Some l) Hr Hc) as (r' & E & Hr' & Hc' & Hcap & Hcnt & _).
  unfold take_head in E. destruct (r_slots r !! r_head r) as [x|]; [|done]. simplify_eq.
  unfold mbind, comp_bind. destruct (packet_free (Some p) m) as [[[] m1]|]; [|done].
  specialize (IH _ m1 Hr' Hc' ltac:(simpl in *; lia)). unfold mbind, comp_bind in IH. exact IH.
Qed.

Lemma deferred_destroy_loop_free_all dq l m :
  ring_ok dq -> contents dq = Some <$> l -> r_count dq = length l ->
  deferred_destroy_loop (length l) dq m = free_all l m.
Proof.
  revert dq m. induction l as [|p l IH]; intros r m Hr Hc Hn; [done|].
  cbn [length deferred_destroy_loop free_all]. destruct (Nat.ltb_spec 0 (r_count r)); [|simpl in Hn; lia].
  destruct (take_head_spec None r (Some p) (fmap (M:=list) Some l) Hr Hc) as (r' & E & Hr' & Hc' & Hcap & Hcnt & _).
  unfold mbind, comp_bind, the. rewrite E. destruct (packet_free (Some p) m) as [[[] m1]|]; [|done].
  apply IH; [done|done|simpl in Hn; lia].
Qed.

Definition drop_result {A} (c : C A) : C unit := _ ← c; mret tt.

Lemma free_all_app ps qs m : free_all (ps ++ qs) m = (_ ← free_all ps; free_all qs) m.
Proof.
  revert m. induction ps as [|p ps IH]; intros m; simpl; [done|]. unfold mbind, comp_bind.
  destruct (packet_free (Some p) m) as [[[] m1]|]; [|done]. by rewrite IH.
Qed.

(** [pktq_destroy] ends in the zeroed queue, whatever was queued. *)
Definition dead_queue : pktq := mkQ (Ring [] 0 0 0 0) false false None.

Lemma bind_free_all ps {A} (a : A) m :
  (_ ← free_all ps; mret a) m = match free_all ps m with Some (_, m') => Some (a, m') | None => None end.
Proof. done. Qed.

Lemma pktq_destroy_run q m :
  q_ok q -> pktq_destroy q m =
    match free_all (q_items q) m with Some (_, m') => Some (dead_queue, m') | None => None end.
Proof.
  intros H. pose proof (destroy_loop_free_all (q_ring q) (q_items q) m (qo_ring _ H) (qo_slots _ H) (q_count q H)) as E.
  unfold pktq_destroy. rewrite (qo_live _ H), (q_count q H). unfold mbind, comp_bind, mret, comp_ret in *.
  rewrite <- E. by destruct (destroy_loop (length (q_items q)) (q_ring q) m) as [[? ?]|].
Qed.

Lemma destroy_contexts_run l m :
  Forall (fun f => q_ok (fc_queue f)) l ->
  destroy_contexts l m = free_all (l ≫= fun f => q_items (fc_queue f)) m.
Proof.
  intros H. revert m. induction H as [|f l Hf _ IH]; intros m; [done|].
  rewrite bind_cons, free_all_app. cbn [destroy_contexts]. unfold flow_context_destroy, flow_buffer_destroy.
  unfold mbind, comp_bind. rewrite (pktq_destroy_run _ _ Hf).
  destruct (free_all (q_items (fc_queue f)) m) as [[[] m1]|]; [|done]. unfold mret, comp_ret. apply IH.
Qed.

Lemma destroy_deferred_run cap l m :
  Forall (dq_ok cap) l -> destroy_deferred_loop l m = free_all (l ≫= dq_items) m.
Proof.
  intros H. revert m. induction H as [|dq l Hdq _ IH]; intros m; [done|].
  rewrite bind_cons, free_all_app. cbn [destroy_deferred_loop]. unfold deferred_destroy, mbind, comp_bind.
  pose proof (dq_count _ _ Hdq) as Hc. pose proof Hdq as (Hr & Hs & _).
  rewrite Hc, (deferred_destroy_loop_free_all dq (dq_items dq) m Hr Hs Hc).
  destruct (free_all (dq_items dq) m) as [[[] m1]|]; [|done]. unfold mret, comp_ret. apply IH.
Qed.

(** ** [flow_manager_destroy] in one equation *)

Definition deferred_items (g : FlowManager) : list ptr := deferred g ≫= dq_items.
Definition queue_items (g : FlowManager) : list ptr := flows g ≫= fun f => q_items (fc_queue f).

Lemma join_started_items jf i l :
  (join_started jf i l ≫= fun f => q_items (fc_queue f)) = (l ≫= fun f => q_items (fc_queue f)) /\
  (Forall (fun f => q_ok (fc_queue f)) l -> Forall (fun f => q_ok (fc_queue f)) (join_started jf i l)).
Proof.
  revert i. induction l as [|f l IH]; intros i; [done|]. cbn [join_started].
  destruct (IH (S i)) as [E1 E2]. rewrite !bind_cons, E1.
  assert (Hq : fc_queue (if fc_worker_started f then snd (flow_worker_join (jf i) f) else f) = fc_queue f).
  { destruct (fc_worker_started f) eqn:Ew; [|done]. unfold flow_worker_join. rewrite Ew. simpl.
    by destruct (jf i). }
  rewrite Hq. split; [done|]. intros [Hf Hl]%list.Forall_cons. constructor; [by rewrite Hq|by apply E2].
Qed.

Lemma stop_views jd jf g :
  mgr_ok g -> q_ok (mixed g) ->
  let g' := snd (flow_manager_stop jd jf g) in
  deferred g' = deferred g /\ queue_items g' = queue_items g /\ q_ok (mixed g') /\
  q_items (mixed g') = q_items (mixed g) /\ packet_pool g' = packet_pool g /\
  Forall (fun f => q_ok (fc_queue f)) (flows g').
Proof.
  intros H Hm. assert (Hq : Forall (fun f => q_ok (fc_queue f)) (flows g)).
  { apply list.Forall_forall. intros f [i Hi]%list_elem_of_lookup. by eapply (mo_queue _ H). }
  unfold flow_manager_stop. case_match; [done|]. case_match; [done|]. cbn [snd].
  set (fs := (fun f => set_queue f (flow_buffer_shutdown (fc_queue f))) <$> flows g).
  assert (Hfs : (fs ≫= fun f => q_items (fc_queue f)) = queue_items g /\
                Forall (fun f => q_ok (fc_queue f)) fs).
  { unfold queue_items, fs. clear -Hq. induction Hq as [|f l Hf _ [IH1 IH2]]; [done|].
    rewrite fmap_cons, !bind_cons, IH1. destruct (shutdown_refines _ Hf) as [H1 H2].
    unfold q_view in H2. injection H2 as H2 _ _. simpl. unfold flow_buffer_shutdown at 1. rewrite H2.
    split; [done|]. by constructor. }
  destruct Hfs as [Hi Hok]. destruct (shutdown_refines _ Hm) as [Hm1 Hm2].
  unfold q_view in Hm2. injection Hm2 as Hm2 _ _.
  assert (Hd : forall g1, flows (if dispatcher_started g1 then snd (dispatcher_join jd g1) else g1) = flows g1 /\
     deferred (if dispatcher_started g1 then snd (dispatcher_join jd g1) else g1) = deferred g1 /\
     mixed (if dispatcher_started g1 then snd (dispatcher_join jd g1) else g1) = mixed g1 /\
     packet_pool (if dispatcher_started g1 then snd (dispatcher_join jd g1) else g1) = packet_pool g1).
  { intros g1. destruct (dispatcher_started g1) eqn:Ed; [|done]. unfold dispatcher_join. rewrite Ed.
    by destruct jd. }
  destruct (Hd (stop_request g)) as (D1 & D2 & D3 & D4). unfold queue_items. cbn [flows deferred mixed packet_pool set_flows].
  rewrite D1, D2, D3, D4. destruct (join_started_items jf 0 (flows (stop_request g))) as [J1 J2].
  change (flows (stop_request g)) with fs in *. rewrite J1. split_and!; try done. by apply J2.
Qed.

Lemma flow_manager_destroy_run jd jf m g :
  mgr_ok g -> q_ok (mixed g) ->
  drop_result (fun m => match flow_manager_destroy jd jf (Sys m g) with
                        | Some (_, s) => Some (tt, s_mem s) | None => None end) m =
  (_ ← free_all (deferred_items g); _ ← free_all (queue_items g);
   _ ← packet_pool_destroy (packet_pool g); free_all (q_items (mixed g))) m.
Proof.
  intros H Hm. destruct (stop_views jd jf g H Hm) as (V1 & V2 & V3 & V4 & V5 & V6).
  unfold drop_result, flow_manager_destroy. run_M.
  set (g1 := snd (flow_manager_stop jd jf g)) in *.
  assert (Hdq : Forall (dq_ok (mixed_queue_capacity (config g))) (deferred g1)).
  { rewrite V1. apply list.Forall_forall. intros dq [i Hi]%list_elem_of_lookup. by eapply (mo_ring _ H). }
  unfold dispatcher_destroy_deferred. run_M. replace (length (deferred g1)) with (max_flows (config g)) by (by rewrite V1, (mo_deferred _ H)).
  destruct (Nat.eqb_spec (max_flows (config g)) 0) as [E|_]; [pose proof (mo_pos _ H); lia|].
  unfold liftC. cbn [s_mem s_mgr]. rewrite (destroy_deferred_run _ _ _ Hdq).
  unfold deferred_items. rewrite V1. destruct (free_all (deferred g ≫= dq_items) m) as [[[] m1]|]; [|done].
  cbn [s_mem s_mgr flows set_active set_deferred]. rewrite (destroy_contexts_run _ _ V6).
  fold (queue_items g1). rewrite V2. destruct (free_all (queue_items g) m1) as [[[] m2]|]; [|done].
  cbn [s_mem s_mgr packet_pool set_active set_deferred]. rewrite V5.
  destruct (packet_pool_destroy (packet_pool g) m2) as [[[] m3]|]; [|done].
  cbn [s_mem s_mgr mixed set_packet_pool set_flows set_active set_deferred].
  unfold mixed_queue_destroy. rewrite (pktq_destroy_run _ _ V3), V4.
  by destruct (free_all (q_items (mixed g)) m3) as [[[] m4]|].
Qed.

(** ** Properties *)

Lemma mgr_ok_mixed g q : mgr_ok g -> mgr_ok (set_mixed q g).
Proof. intros [H1 H2 H3 H4 H5 H6 H7 H8]. by split. Qed.

(** Init, then start, with nothing failing. *)
Definition boot (cfg : FlowManagerConfig) (m : mem) : option sys :=
  match flow_manager_init no_failure cfg (manager_zero cfg) m with
  | Some (FM_OK, g, m') =>
      match flow_manager_start (fun _ => false) false (fun _ => false) g with
      | (FM_OK, g') => Some (Sys m' g')
      | _ => None
      end
  | _ => None
  end.

Lemma boot_fresh cfg m :
  valid_config cfg = true -> output_fds cfg = None -> 0 < pool_capacity_of cfg ->
  (Z.of_nat (max_flows cfg * mixed_queue_capacity cfg) < 2 ^ 64)%Z ->
  exists m' g, boot cfg m = Some (Sys m' g) /\ fresh_manager g.
Proof.
  intros Hv Hfd Hpc Hsp.
  destruct (flow_manager_init_fresh cfg (manager_zero cfg) m Hv Hfd Hpc Hsp)
    as (g & m' & E & Hfr & Hc & Hr & Hd & Hfl & _).
  destruct (flow_manager_start_fresh (fun _ => false) g _ Hfr Hr Hd Hfl) as (g' & E' & Hfr' & _).
  exists m', g'. unfold boot. by rewrite E, E'.
Qed.

(** A valid configuration gives a ready manager.  When no allocation or pthread call fails,
    [flow_manager_init] followed by [flow_manager_start] succeeds; every flow queue, deferred
    ring and the mixed queue is well formed, empty and open with the configured capacity, the
    counters are zero, and the manager accepts pushes. *)
Theorem manager_boot_ready cfg m :
  valid_config cfg = true -> output_fds cfg = None -> 0 < pool_capacity_of cfg ->
  (Z.of_nat (max_flows cfg * mixed_queue_capacity cfg) < 2 ^ 64)%Z ->
  exists m' g, boot cfg m = Some (Sys m' g) /\ fresh_manager g /\ config g = cfg /\
    flow_manager_is_running g = true /\
    q_cap (mixed g) = mixed_queue_capacity cfg /\ q_shutdown (mixed g) = false /\
    forall i, i < max_flows cfg ->
      cap_of g i = per_flow_queue_capacity cfg /\ closed_of g i = false /\ flow_manager_deferred_count g i = 0.
Proof.
  intros Hv Hfd Hpc Hsp.
  destruct (flow_manager_init_fresh cfg (manager_zero cfg) m Hv Hfd Hpc Hsp)
    as (g & m' & E & Hfr & Hc & Hr & Hd & Hfl & Hcap & Hsh).
  destruct (flow_manager_start_fresh (fun _ => false) g _ Hfr Hr Hd Hfl)
    as (g' & E' & Hfr' & Hc' & Hm' & _ & Hr' & Hs' & Hfl' & Hdf').
  exists m', g'. unfold boot. rewrite E, E'. split; [done|]. split; [done|]. split; [congruence|].
  split; [unfold flow_manager_is_running; by rewrite Hr', Hs'|]. rewrite Hm'. split; [done|]. split; [done|].
  intros i Hi. destruct (flow_lookup g' i (fm_ok _ Hfr')) as [f Hf]; [by rewrite Hc', Hc|].
  destruct (deferred_lookup g' i (fm_ok _ Hfr')) as [dq Hdq]; [by rewrite Hc', Hc|].
  unfold cap_of, closed_of. rewrite Hf. rewrite Hfl', list_lookup_fmap in Hf.
  destruct (flows g !! i) as [f0|] eqn:E0; [|done]. simpl in Hf. simplify_eq.
  rewrite list.Forall_forall in Hfl. destruct (Hfl f0) as (_ & _ & Fc & Fs & _); [by eapply list_elem_of_lookup_2|].
  split; [done|]. split; [done|]. unfold flow_manager_deferred_count. rewrite Hdq.
  rewrite (dq_count _ _ (mo_ring _ (fm_ok _ Hfr') _ _ Hdq)). pose proof (fm_empty _ Hfr' i) as He.
  unfold pending, deferred_of in He. rewrite Hdq in He. apply app_eq_nil in He as [_ He]. rewrite He.
  by destruct (_ || _).
Qed.

Definition sample_cfg (payload : nat) : FlowManagerConfig := mkConfig 2 1 2 1 None 0 0 payload.

Lemma manager_boot_ready_witness :
  exists m' g, boot (sample_cfg 4) mem0 = Some (Sys m' g) /\ fresh_manager g /\ config g = sample_cfg 4 /\
    flow_manager_is_running g = true /\
    q_cap (mixed g) = 2 /\ q_shutdown (mixed g) = false /\
    forall i, i < 2 -> cap_of g i = 1 /\ closed_of g i = false /\ flow_manager_deferred_count g i = 0.
Proof.
  apply (manager_boot_ready (sample_cfg 4) mem0); try (vm_compute; reflexivity). vm_compute; lia.
Defined.

(** What [ingress_push] enqueues.  With a running manager that has room and no packet pool,
    [ingress_push] returns [INGRESS_PUSH_OK] and appends to the mixed queue one new packet that
    carries the flow id and exactly the bytes given; every other packet is untouched. *)
Theorem ingress_push_enqueues m g ps clock1 now fid data :
  mem_wf m -> owns m ps -> mgr_ok g -> q_ok (mixed g) ->
  flow_manager_is_running g = true -> q_shutdown (mixed g) = false -> packet_pool g = None ->
  length (q_items (mixed g)) < q_cap (mixed g) ->
  exists p m' g', ingress_push clock1 (Some now) false false fid (Some data) (length data) (Sys m g) =
      Some (IngressDone INGRESS_PUSH_OK, Sys m' g') /\
    q_items (mixed g') = q_items (mixed g) ++ [p] /\ q_ok (mixed g') /\ mgr_ok g' /\
    carries m' p fid data /\ owns m' (p :: ps) /\ same_packets m m' ps.
Proof.
  intros Hwf Ho Hg Hq Hr Hs Hp Hroom. unfold ingress_push.
  rewrite bool_decide_eq_false_2, andb_false_r by done. unfold ingress_from_pool. run_M.
  unfold flow_manager_packet_pool. rewrite Hp. unfold liftC at 1. cbn [s_mem s_mgr].
  destruct (packet_create_owned m ps now fid data Hwf Ho) as (p & m' & E & Ho' & Hs' & _ & Hc').
  rewrite E. unfold ingress_push_prepared. run_M. unfold flow_manager_push.
  unfold flow_manager_is_running in Hr. apply andb_prop in Hr as [-> Hr]. apply negb_true_iff in Hr. rewrite Hr.
  cbn [negb orb]. pose proof (mq_push_spec (mixed g) p Hq) as Hm.
  destruct (mixed_queue_push (mixed g) (Some p)) as [[[st q'] cell]|].
  - destruct Hm as [(-> & -> & Hi & Hok & _)|(_ & _ & _ & Hsh)]; [|congruence].
    exists p, m', (set_mixed q' g). split; [done|]. split; [done|]. split; [done|].
    split; [by apply mgr_ok_mixed|]. done.
  - destruct Hm as [Hm _]. lia.
Qed.

Lemma mem0_wf : mem_wf mem0.
Proof. intros b _. done. Qed.

Lemma mem0_owns : owns mem0 [].
Proof. split; [constructor|apply NoDup_nil_2]. Qed.

(** The booted sample manager, as a value. *)
Definition sample_sys (payload : nat) : sys :=
  match boot (sample_cfg payload) mem0 with Some s => s | None => Sys mem0 (manager_zero (sample_cfg payload)) end.

Lemma sample_fresh payload : fresh_manager (s_mgr (sample_sys payload)).
Proof.
  unfold sample_sys. destruct (boot_fresh (sample_cfg payload) mem0) as (m' & g & E & H);
    try (vm_compute; reflexivity); [vm_compute; lia|]. by rewrite E.
Qed.

Lemma ingress_push_enqueues_witness :
  exists p m' g', ingress_push None (Some ts_zero) false false 1 (Some [7; 8; 9]%Z) 3
      (Sys mem0 (s_mgr (sample_sys 0))) =
      Some (IngressDone INGRESS_PUSH_OK, Sys m' g') /\
    q_items (mixed g') = q_items (mixed (s_mgr (sample_sys 0))) ++ [p] /\ q_ok (mixed g') /\ mgr_ok g' /\
    carries m' p 1 [7; 8; 9]%Z /\ owns m' [p] /\ same_packets mem0 m' [].
Proof.
  apply (ingress_push_enqueues mem0 (s_mgr (sample_sys 0)) [] None ts_zero 1 [7; 8; 9]%Z).
  - apply mem0_wf.
  - apply mem0_owns.
  - apply (fm_ok _ (sample_fresh 0)).
  - apply (fm_mixed _ (sample_fresh 0)).
  - vm_compute; reflexivity.
  - vm_compute; reflexivity.
  - vm_compute; reflexivity.
  - vm_compute; lia.
Defined.

Lemma destroy_is_none jd jf m g :
  mgr_ok g -> q_ok (mixed g) ->
  (_ ← free_all (deferred_items g); _ ← free_all (queue_items g);
   _ ← packet_pool_destroy (packet_pool g); free_all (q_items (mixed g))) m = None ->
  flow_manager_destroy jd jf (Sys m g) = None.
Proof.
  intros H Hm E. rewrite <- (flow_manager_destroy_run jd jf m g H Hm) in E.
  unfold drop_result, mbind, comp_bind in E. by destruct (flow_manager_destroy jd jf (Sys m g)) as [[? ?]|].
Qed.

(** Use after free on shutdown.  [flow_manager_destroy] frees the packet pool before it
    empties the mixed queue, so if a packet of the pool is still in the mixed queue (the
    dispatcher leaves its loop on stop without emptying it) the call reads freed memory. *)
Theorem destroy_use_after_free jd jf m g pl P p :
  mgr_ok g -> q_ok (mixed g) -> packet_pool g = Some pl -> pools m !! pl = Some P ->
  p ∈ q_items (mixed g) -> p_blk p = pp_packets P ->
  flow_manager_destroy jd jf (Sys m g) = None.
Proof.
  intros H Hm Hpl HP Hp Hb. apply destroy_is_none; [done|done|]. unfold mbind, comp_bind.
  destruct (free_all (deferred_items g) m) as [[[] m1]|] eqn:E1; [|done].
  destruct (free_all (queue_items g) m1) as [[[] m2]|] eqn:E2; [|done].
  pose proof (frees_trans _ _ _ (free_all_frees _ _ _ E1) (free_all_frees _ _ _ E2)) as [_ Hpools].
  destruct (Hpools pl P HP) as (P2 & HP2 & EP2). rewrite Hpl.
  unfold packet_pool_destroy, mbind, comp_bind, gets, the, modify. simpl. rewrite HP2.
  apply (free_all_dead _ p); [done|]. simpl. rewrite Hb, <- EP2. apply lookup_delete_eq.
Qed.

(** The sample manager with a pool, after one [ingress_push] through the pool. *)
Definition pooled_push : option (ingress_result * sys) :=
  ingress_push (Some ts_zero) None false false 0 (Some [1; 2]%Z) 2 (sample_sys 4).

Lemma destroy_use_after_free_witness :
  exists m q, pooled_push = Some (IngressDone INGRESS_PUSH_OK, Sys m (set_mixed q (s_mgr (sample_sys 4)))) /\
    flow_manager_destroy false (fun _ => false) (Sys m (set_mixed q (s_mgr (sample_sys 4)))) = None.
Proof.
  set (g := s_mgr (sample_sys 4)).
  set (q := mkQ (put_tail (ring_init 2 None) (Some (Ptr 1 3))) true false (Some 1)).
  eexists (s_mem (match pooled_push with Some (_, s) => s | None => sample_sys 4 end)), q.
  split; [vm_compute; reflexivity|].
  eapply (destroy_use_after_free false (fun _ => false) _ (set_mixed q g) 0 _ (Ptr 1 3)).
  - apply mgr_ok_mixed, (fm_ok _ (sample_fresh 4)).
  - split; [apply put_tail_ok; [apply ring_init_ok|]; simpl; lia|done|done|by right].
  - vm_compute; reflexivity.
  - vm_compute; reflexivity.
  - vm_compute. left.
  - vm_compute; reflexivity.
Defined.

(** Without a pool, [flow_manager_destroy] is safe and leaks nothing: if the manager owns
    its queued packets, it returns, every packet left in the deferred rings, the flow queues and
    the mixed queue is freed exactly once, and the caller's other packets are untouched. *)
Theorem destroy_frees_everything jd jf m g ps :
  mgr_ok g -> q_ok (mixed g) -> packet_pool g = None ->
  owns m (deferred_items g ++ queue_items g ++ q_items (mixed g) ++ ps) ->
  exists m' g', flow_manager_destroy jd jf (Sys m g) = Some (tt, Sys m' g') /\
    owns m' ps /\ same_packets m m' ps /\
    forall p d, p ∈ deferred_items g ++ queue_items g ++ q_items (mixed g) ->
      lookup_pkt m p = Some d -> pool d = None -> lookup_pkt m' p = None.
Proof.
  intros H Hm Hpl Ho. set (all := deferred_items g ++ queue_items g ++ q_items (mixed g)).
  destruct (free_all_owned all ps m) as (m' & E & Ho' & Hs' & _ & Hgone).
  { unfold all. by rewrite <- !app_assoc. }
  assert (Ed : (_ ← free_all (deferred_items g); _ ← free_all (queue_items g);
    _ ← packet_pool_destroy (packet_pool g); free_all (q_items (mixed g))) m = Some (tt, m')).
  { rewrite <- E. unfold all. rewrite free_all_app, Hpl. unfold mbind, comp_bind.
    destruct (free_all (deferred_items g) m) as [[[] m1]|]; [|done].
    rewrite free_all_app. unfold mbind, comp_bind. by destruct (free_all (queue_items g) m1) as [[[] m2]|]. }
  rewrite <- (flow_manager_destroy_run jd jf m g H Hm) in Ed.
  unfold drop_result, mbind, comp_bind in Ed.
  destruct (flow_manager_destroy jd jf (Sys m g)) as [[[] [m2 g2]]|]; [|done].
  unfold mret, comp_ret in Ed. simpl in Ed. simplify_eq. by exists m', g2.
Qed.

(** One heap packet waiting in the mixed queue. *)
Definition one_queued : MixedQueue := mkQ (put_tail (ring_init 2 None) (Some (Ptr 1 0))) true false (Some 1).
Definition one_packet : mem :=
  mkMem 2 {[ 1 := [mkPacket 0 ts_zero 2 (Some (Ptr 0 0)) None None] ]} {[ 0 := [5; 6]%Z ]} ∅ ∅ [].

Lemma destroy_frees_everything_witness :
  let g := set_mixed one_queued (s_mgr (sample_sys 0)) in
  exists m' g', flow_manager_destroy false (fun _ => false) (Sys one_packet g) = Some (tt, Sys m' g') /\
    owns m' [] /\ same_packets one_packet m' [] /\
    forall p d, p ∈ deferred_items g ++ queue_items g ++ q_items (mixed g) ->
      lookup_pkt one_packet p = Some d -> pool d = None -> lookup_pkt m' p = None.
Proof.
  intros g. apply (destroy_frees_everything false (fun _ => false) one_packet g []).
  - apply mgr_ok_mixed, (fm_ok _ (sample_fresh 0)).
  - split; [apply put_tail_ok; [apply ring_init_ok|]; simpl; lia|done|done|by right].
  - vm_compute; reflexivity.
  - vm_compute. split.
    + apply list.Forall_singleton. eexists. split; [reflexivity|]. split_and!; try done. by eexists.
    + apply list.NoDup_cons. split; [by intros ?%list_elem_of_singleton|]. apply list.NoDup_singleton.
Defined.
