(* ===== verification/FlowWorker.v ===== *)
(** * The flow workers: src/src/fd_sink.c and src/src/flow_worker.c

    A worker takes packets from its flow's queue, paces them and writes them to the flow's
    descriptor or hands them to a relay queue.  The kernel is an argument: the outcomes of
    [write], of [clock_nanosleep] and the clock.  The encoder is a function pointer supplied by
    the application, so it is a parameter [encode].  Runs that end inside the kernel (still
    writing, still sleeping) or in a full relay queue are reported as such. *)

From S2P Require Import Prelude TimeUtils Ring Packet PktQueue FlowBuffer MixedQueue Ownership.
From S2P Require Import FlowContext Dispatcher FlowManager FlowManagerSpec.

(** ** src/src/fd_sink.c *)

Inductive FdSinkStatus := FD_SINK_OK | FD_SINK_ERR_INVALID | FD_SINK_ERR_IO.

(** One [write] call: it accepts some of the bytes offered (never more), is interrupted, or
    fails. *)
Inductive write_outcome := WrCount (n : nat) | WrEintr | WrError.

(** The write loop: the status ([None]: the run ends inside a [write]) and the bytes the kernel
    accepted, in order; [*written] is their number. *)
Fixpoint sink_loop (buf : list Z) (env : list write_outcome) : option FdSinkStatus * list Z :=
  match buf with
  | [] => (Some FD_SINK_OK, [])
  | _ =>
      match env with
      | [] => (None, [])
      | WrEintr :: env' => sink_loop buf env'
      | WrError :: _ => (Some FD_SINK_ERR_IO, [])
      | WrCount n :: env' =>
          if (n =? 0)%nat then (Some FD_SINK_ERR_IO, [])
          else let '(st, out) := sink_loop (drop n buf) env' in (st, take n buf ++ out)
      end
  end.

(** [buf = None] is a NULL pointer. *)
Definition fd_sink_write (fd : Z) (buf : option (list Z)) (len : nat) (env : list write_outcome)
  : option FdSinkStatus * list Z :=
  if (fd <? 0)%Z || ((0 <? len)%nat && bool_decide (buf = None)) then (Some FD_SINK_ERR_INVALID, [])
  else sink_loop (take len (default [] buf)) env.

(** ** Worker state: the packet memory, the relay queues and what was written, by descriptor *)

Record wk := Wk { wk_mem : mem; wk_relays : gmap nat FlowCircularBuffer; wk_out : list (Z * list Z) }.
Abbreviation W := (comp wk).

Definition memW {A} (c : C A) : W A :=
  fun s => match c (wk_mem s) with
           | None => None
           | Some (a, m') => Some (a, Wk m' (wk_relays s) (wk_out s))
           end.

Definition log_out (fd : Z) (out : list Z) : W unit :=
  modify (fun s => Wk (wk_mem s) (wk_relays s) (wk_out s ++ [(fd, out)])).

Definition fd_sink_write_packet (fd : Z) (pkt : option ptr) (env : list write_outcome)
  : W (option FdSinkStatus) :=
  match pkt with
  | None => mret (Some FD_SINK_ERR_INVALID)
  | Some p =>
      d ← memW (load_pkt p);
      if (payload_len d =? 0)%nat then mret (Some FD_SINK_OK)
      else match payload d with
           | None => mret (Some FD_SINK_ERR_INVALID)
           | Some _ =>
               buf ← memW (read_bytes (payload d) (payload_len d));
               let '(st, out) := fd_sink_write fd (Some buf) (payload_len d) env in
               _ ← log_out fd out; mret st
           end
  end.

(** ** src/src/flow_worker.c *)

Section Worker.
(** The encoder at a code address, called with its context, the packet (and its payload
    bytes) and the capacity of the scratch buffer: the returned length and what it wrote. *)
Variable encode : Z -> Z -> DataPacket -> list Z -> nat -> Z * list Z.

(** How a call ended: with a result, waiting for room in the relay queue, or inside the kernel. *)
Inductive run_result (R : Type) := Ended (r : R) | WaitsRelay | InKernel.
Arguments Ended {R} r.
Arguments WaitsRelay {R}.
Arguments InKernel {R}.

Definition of_sink (st : option FdSinkStatus) : run_result FlowWorkerStatus :=
  match st with
  | None => InKernel
  | Some FD_SINK_OK => Ended FW_OK
  | Some _ => Ended FW_ERR_SYSTEM
  end.

(** The payload bytes an encoder can read; an empty packet has none. *)
Definition payload_bytes (d : DataPacket) : W (list Z) :=
  if (payload_len d =? 0)%nat then mret [] else memW (read_bytes (payload d) (payload_len d)).

Definition emit_packet (env : list write_outcome) (ctx : FlowContext) (pkt : ptr)
  : W (run_result FlowWorkerStatus) :=
  match fc_relay_queue ctx with
  | Some r =>
      s ← gets id;
      q ← the (wk_relays s !! r);
      match flow_buffer_enqueue q (Some pkt) with
      | Blocks => mret WaitsRelay
      | Returns (st, q', cell) =>
          _ ← modify (fun s => Wk (wk_mem s) (<[r := q']> (wk_relays s)) (wk_out s));
          match st with
          | FB_OK => mret (Ended FW_OK)
          | FB_ERR_SHUTDOWN => _ ← memW (packet_free cell); mret (Ended FW_ERR_SHUTDOWN)
          | _ => _ ← memW (packet_free cell); mret (Ended FW_ERR_SYSTEM)
          end
      end
  | None =>
      match fc_encode_fn ctx, fc_encode_scratch ctx with
      | Some fn, Some _ =>
          d ← memW (load_pkt pkt);
          buf ← payload_bytes d;
          let '(out_len, out) := encode fn (fc_encode_ctx ctx) d buf (fc_encode_scratch_cap ctx) in
          if (0 <? out_len)%Z then
            let '(st, sent) := fd_sink_write (fc_output_fd ctx) (Some out) (Z.to_nat out_len) env in
            _ ← log_out (fc_output_fd ctx) sent; mret (of_sink st)
          else
            st ← fd_sink_write_packet (fc_output_fd ctx) (Some pkt) env; mret (of_sink st)
      | _, _ =>
          st ← fd_sink_write_packet (fc_output_fd ctx) (Some pkt) env; mret (of_sink st)
      end
  end.

(** [clock] is the one reading the call makes.  The result is the context and the requests made
    to the kernel; [None] when the run ends while it sleeps. *)
Definition pace_packet (clock : option timespec) (env : list nanosleep_outcome) (ctx : FlowContext)
  (enq : timespec) : option FlowContext * list timespec :=
  if negb (fc_pacing_enabled ctx) then (Some ctx, [])
  else if negb (has_stream_start (fc_pacing ctx)) then
    match time_utils_now_mono clock ts_zero with
    | (TU_OK, now) => (Some (set_pacing_state ctx (mkPacing enq now true)), [])
    | _ => (Some ctx, [])
    end
  else
    match time_utils_ts_sub enq (stream_start_enqueue (fc_pacing ctx)) ts_zero with
    | (TU_OK, producer_delta) =>
        match time_utils_ts_add (stream_start_dequeue (fc_pacing ctx)) producer_delta ts_zero with
        | (TU_OK, target_dequeue) =>
            match time_utils_now_mono clock ts_zero with
            | (TU_OK, now) =>
                if negb (time_utils_ts_before now target_dequeue) then (Some ctx, [])
                else
                  match time_utils_ts_sub target_dequeue now ts_zero with
                  | (TU_OK, sleep_for) =>
                      let '(st, reqs) := time_utils_sleep_for sleep_for env in
                      match st with
                      | None => (None, reqs)
                      | Some _ =>
                          let x := fc_metrics ctx in
                          (Some (set_metrics ctx
                             (mkMetrics (enqueued_packets x) (dequeued_packets x) (enqueued_bytes x)
                                (dequeued_bytes x) (pacing_sleeps x +u64 1)%cint (calculated_enqueue_bps x)
                                (calculated_dequeue_bps x) (bps_window_start x) (bps_window_enq_bytes x)
                                (bps_window_deq_bytes x))), reqs)
                      end
                  | _ => (Some ctx, [])
                  end
            | _ => (Some ctx, [])
            end
        | _ => (Some ctx, [])
        end
    | _ => (Some ctx, [])
    end.

(** Steps of [handle_one] after the wake-up of the dispatcher (which is
    [flow_manager_dispatch_wake_if_deferred] on the owner).  The result is the return value and
    the context. *)
Definition handle_one (clock : option timespec) (sleeps : list nanosleep_outcome) (writes : list write_outcome)
  (ctx : FlowContext) (pkt : ptr) (woke_from_idle : bool) : W (run_result (Z * FlowContext)) :=
  let ctx := if woke_from_idle
             then set_pacing_state ctx (mkPacing (stream_start_enqueue (fc_pacing ctx))
                                          (stream_start_dequeue (fc_pacing ctx)) false)
             else ctx in
  d ← memW (load_pkt pkt);
  match pace_packet clock sleeps ctx (enqueue_ts d) with
  | (None, _) => mret InKernel
  | (Some ctx, _) =>
      r ← emit_packet writes ctx pkt;
      match r with
      | WaitsRelay => mret WaitsRelay
      | InKernel => mret InKernel
      | Ended FW_ERR_SHUTDOWN => mret (Ended (-1, ctx)%Z)
      | Ended FW_OK =>
          let ctx := set_metrics ctx (flow_metrics_record_dequeue (fc_metrics ctx) (payload_len d)) in
          match fc_relay_queue ctx with
          | Some _ => mret (Ended (0, ctx)%Z)
          | None => _ ← memW (packet_free (Some pkt)); mret (Ended (0, ctx)%Z)
          end
      | Ended _ => _ ← memW (packet_free (Some pkt)); mret (Ended (0, ctx)%Z)
      end
  end.

(** What one packet meets: the clock, the sleeps and the writes. *)
Record packet_env := PktEnv { pe_clock : option timespec; pe_sleeps : list nanosleep_outcome;
                              pe_writes : list write_outcome }.

(** The batch loop: it returns ([false]) at the first negative result, and the packets after
    that one are left as they are. *)
Fixpoint handle_batch (envs : nat -> packet_env) (i : nat) (ctx : FlowContext) (batch : list ptr)
  : W (run_result (bool * FlowContext)) :=
  match batch with
  | [] => mret (Ended (true, ctx))
  | p :: batch' =>
      let e := envs i in
      r ← handle_one (pe_clock e) (pe_sleeps e) (pe_writes e) ctx p false;
      match r with
      | Ended (v, ctx') => if (v <? 0)%Z then mret (Ended (false, ctx')) else handle_batch envs (S i) ctx' batch'
      | WaitsRelay => mret WaitsRelay
      | InKernel => mret InKernel
      end
  end.

(** One iteration of the worker's [while (1)] loop; [Some] carries whether the loop goes on, and
    [None] means that it waits in [flow_buffer_dequeue]. *)
Definition worker_iter (envs : nat -> packet_env) (waited : bool) (ctx : FlowContext)
  : W (run_result (option (bool * FlowContext))) :=
  let '(xs, q') := flow_buffer_try_dequeue_batch (fc_queue ctx) FM_DISPATCH_BATCH in
  match omap id xs with
  | p :: ps =>
      r ← handle_batch envs 0 (set_queue ctx q') (p :: ps);
      match r with
      | Ended x => mret (Ended (Some x))
      | WaitsRelay => mret WaitsRelay
      | InKernel => mret InKernel
      end
  | [] =>
      match flow_buffer_dequeue (fc_queue ctx) None waited with
      | Blocks => mret (Ended None)
      | Returns (st, q', pkt, woke) =>
          match st, pkt with
          | FB_ERR_SHUTDOWN, _ => mret (Ended (Some (false, set_queue ctx q')))
          | FB_OK, Some p =>
              let e := envs 0 in
              r ← handle_one (pe_clock e) (pe_sleeps e) (pe_writes e) (set_queue ctx q') p (default false woke);
              match r with
              | Ended (v, ctx') => mret (Ended (Some ((0 <=? v)%Z, ctx')))
              | WaitsRelay => mret WaitsRelay
              | InKernel => mret InKernel
              end
          | _, _ => mret (Ended (Some (true, set_queue ctx q')))
          end
      end
  end.
End Worker.

Arguments Ended {R} r.
Arguments WaitsRelay {R}.
Arguments InKernel {R}.

(** ** The sink *)

Lemma sink_loop_spec buf env st out :
  sink_loop buf env = (st, out) ->
  (out `prefix_of` buf) /\ (st = Some FD_SINK_OK <-> out = buf) /\ st <> Some FD_SINK_ERR_INVALID.
Proof.
  revert buf st out. induction env as [|o env IH]; intros buf st out E.
  { destruct buf; simpl in E; simplify_eq; [done|]. split; [apply prefix_nil|]. done. }
  destruct buf as [|b buf]; [simpl in E; by simplify_eq|].
  destruct o as [n| |]; cbn [sink_loop] in E.
  - destruct (Nat.eqb_spec n 0) as [->|Hn].
    { simplify_eq. split; [apply prefix_nil|]. done. }
    destruct (sink_loop (drop n (b :: buf)) env) as [st1 out1] eqn:E1. simplify_eq.
    destruct (IH _ _ _ E1) as (Hp & Hs & Hi). rewrite <- (take_drop n (b :: buf)) at 2 4.
    split; [by apply prefix_app|]. split; [|done]. rewrite Hs. split; [by intros ->|].
    intros E2. by apply app_inv_head in E2.
  - by apply IH.
  - simplify_eq. split; [apply prefix_nil|]. done.
Qed.

(** The kernel makes progress: interruptions and positive counts that cover the buffer. *)
Fixpoint progress_env (env : list write_outcome) : option nat :=
  match env with
  | [] => Some 0
  | WrEintr :: env' => progress_env env'
  | WrCount n :: env' => if (n =? 0)%nat then None else Nat.add n <$> progress_env env'
  | WrError :: _ => None
  end.

Lemma sink_loop_finishes buf env n :
  progress_env env = Some n -> length buf <= n -> sink_loop buf env = (Some FD_SINK_OK, buf).
Proof.
  revert buf n. induction env as [|o env IH]; intros buf n E Hl.
  { simpl in E. simplify_eq. destruct buf; [done|simpl in Hl; lia]. }
  destruct buf as [|b buf]; [done|]. destruct o as [k| |]; cbn [progress_env sink_loop] in *; [| |done].
  - destruct (Nat.eqb_spec k 0); [done|]. destruct (progress_env env) as [n'|] eqn:E'; [|done].
    simpl in E. simplify_eq. rewrite (IH (drop k (b :: buf)) n' eq_refl).
    + by rewrite take_drop.
    + rewrite length_drop. lia.
  - by eapply IH.
Qed.

(** ** Emission keeps ownership *)

Lemma memW_load s p d :
  lookup_pkt (wk_mem s) p = Some d -> memW (load_pkt p) s = Some (d, s).
Proof. intros H. unfold memW. rewrite (load_pkt_run _ _ _ H). by destruct s. Qed.

Lemma memW_free s p ps :
  owns (wk_mem s) (p :: ps) -> exists s', memW (packet_free (Some p)) s = Some (tt, s') /\
    owns (wk_mem s') ps /\ same_packets (wk_mem s) (wk_mem s') ps /\ wk_relays s' = wk_relays s /\ wk_out s' = wk_out s.
Proof.
  intros H. destruct (packet_free_owned _ _ _ H) as (m' & E & _ & Ho & Hs).
  eexists. unfold memW. rewrite E. split; [reflexivity|]. done.
Qed.

(** The payload of [d] lies in a live block. *)
Definition readable (m : mem) (d : DataPacket) : Prop :=
  payload_len d = 0 \/ exists y l, payload d = Some y /\ bytes m !! p_blk y = Some l /\
    p_off y + payload_len d <= length l.

Definition payload_of (m : mem) (d : DataPacket) : list Z :=
  match payload d with
  | Some y => match bytes m !! p_blk y with Some l => read_at l (p_off y) (payload_len d) | None => [] end
  | None => []
  end.

Lemma read_payload s d :
  readable (wk_mem s) d -> 0 < payload_len d ->
  exists y, payload d = Some y /\
    memW (read_bytes (payload d) (payload_len d)) s = Some (payload_of (wk_mem s) d, s) /\
    length (payload_of (wk_mem s) d) = payload_len d.
Proof.
  intros [H|(y & l & Hy & Hl & Hb)] Hp; [lia|]. exists y. split; [done|].
  unfold memW, payload_of, read_bytes, mbind, comp_bind, gets, mret, comp_ret. rewrite Hy; simpl. rewrite Hl.
  destruct (Nat.leb_spec (p_off y + payload_len d) (length l)); [|lia]. split; [by destruct s|].
  unfold read_at. rewrite length_take, length_drop. lia.
Qed.

Lemma sink_packet_spec s fd p d env :
  lookup_pkt (wk_mem s) p = Some d -> readable (wk_mem s) d ->
  exists st s', fd_sink_write_packet fd (Some p) env s = Some (st, s') /\
    wk_mem s' = wk_mem s /\ wk_relays s' = wk_relays s.
Proof.
  intros Hd Hr. unfold fd_sink_write_packet, mbind, comp_bind. rewrite (memW_load _ _ _ Hd).
  destruct (Nat.eqb_spec (payload_len d) 0) as [E|E].
  { by exists (Some FD_SINK_OK), s. }
  destruct (read_payload s d Hr) as (y & Hy & Er & Hl); [lia|]. rewrite Hy. rewrite <- Hy, Er.
  destruct (fd_sink_write fd (Some (payload_of (wk_mem s) d)) (payload_len d) env) as [st out].
  exists st. by eexists.
Qed.

Lemma enqueue_relay q p :
  q_ok q ->
  match flow_buffer_enqueue q (Some p) with
  | Blocks => True
  | Returns (st, q', cell) =>
      (st = FB_OK /\ cell = None /\ q_ok q' /\ q_items q' = q_items q ++ [p]) \/
      (st = FB_ERR_SHUTDOWN /\ cell = Some p /\ q' = q)
  end.
Proof.
  intros H. unfold flow_buffer_enqueue. rewrite enqueue_locked_spec.
  destruct (try_enqueue_cases q p H) as [(Hs & ->)|[(Hs & Hl & ->)|(Hs & Hl & q' & -> & A & B & _)]].
  - by right.
  - done.
  - by left.
Qed.

Section WorkerProofs.
Variable encode : Z -> Z -> DataPacket -> list Z -> nat -> Z * list Z.

(** Writing to a descriptor touches neither the packets nor the relay queues. *)
Lemma emit_fd s ctx p d env :
  fc_relay_queue ctx = None ->
  lookup_pkt (wk_mem s) p = Some d -> readable (wk_mem s) d ->
  exists r s', emit_packet encode env ctx p s = Some (r, s') /\
    wk_mem s' = wk_mem s /\ wk_relays s' = wk_relays s /\
    (r = InKernel \/ r = Ended FW_OK \/ r = Ended FW_ERR_SYSTEM).
Proof.
  intros Hr Hd Hrd. unfold emit_packet. rewrite Hr.
  assert (Hsink : exists r s', (st ← fd_sink_write_packet (fc_output_fd ctx) (Some p) env; mret (of_sink st)) s =
      Some (r, s') /\ wk_mem s' = wk_mem s /\ wk_relays s' = wk_relays s /\
      (r = InKernel \/ r = Ended FW_OK \/ r = Ended FW_ERR_SYSTEM)).
  { destruct (sink_packet_spec s (fc_output_fd ctx) p d env Hd Hrd) as (st & s' & E & Hm & Hq).
    unfold mbind, comp_bind. rewrite E. exists (of_sink st), s'. split_and!; try done.
    destruct st as [[]|]; auto. }
  destruct (fc_encode_fn ctx) as [fn|]; [|exact Hsink].
  destruct (fc_encode_scratch ctx) as [sc|]; [|exact Hsink].
  unfold mbind, comp_bind. rewrite (memW_load _ _ _ Hd).
  assert (Hb : exists buf, payload_bytes d s = Some (buf, s)).
  { unfold payload_bytes. destruct (Nat.eqb_spec (payload_len d) 0); [by eexists|].
    destruct (read_payload s d Hrd) as (y & _ & E & _); [lia|]. by eauto. }
  destruct Hb as [buf ->]. destruct (encode fn (fc_encode_ctx ctx) d buf (fc_encode_scratch_cap ctx)) as [n out].
  destruct (0 <? n)%Z; [|exact Hsink].
  destruct (fd_sink_write (fc_output_fd ctx) (Some out) (Z.to_nat n) env) as [st sent].
  unfold log_out, modify, mret, comp_ret. exists (of_sink st). eexists. split; [reflexivity|].
  split_and!; try done. destruct st as [[]|]; auto.
Qed.

(** The same without any condition on the payload: a call that returns has not touched the packets. *)
Lemma emit_fd_keeps s ctx p env r s' :
  fc_relay_queue ctx = None -> emit_packet encode env ctx p s = Some (r, s') ->
  wk_mem s' = wk_mem s /\ wk_relays s' = wk_relays s /\
  (r = InKernel \/ r = Ended FW_OK \/ r = Ended FW_ERR_SYSTEM).
Proof.
  intros Hr E. unfold emit_packet in E. rewrite Hr in E.
  assert (Hs : forall st, of_sink st = InKernel \/ of_sink st = Ended FW_OK \/ of_sink st = Ended FW_ERR_SYSTEM)
    by (intros [[]|]; auto).
  unfold fd_sink_write_packet, payload_bytes, memW, load_pkt, read_bytes, log_out, mbind, comp_bind, gets, the,
    modify, mret, comp_ret in E. repeat case_match; simplify_eq; simpl; auto.
Qed.

(** The relay queue of the flow, if it has one, is a live queue. *)
Definition target_ok (s : wk) (ctx : FlowContext) : Prop :=
  match fc_relay_queue ctx with
  | None => True
  | Some r => exists q : FlowCircularBuffer, wk_relays s !! r = Some q /\ q_ok q
  end.

(** A packet changes the flow's metrics and pacing state only. *)
Definition same_flow (f f' : FlowContext) : Prop := f' = set_metrics (set_pacing_state f (fc_pacing f')) (fc_metrics f').

(** What one call has done with the packet: still in the call, given to the relay queue, or freed
    with everything else as it was. *)
Definition consumed (s s' : wk) (ctx : FlowContext) (p : ptr) (ps : list ptr)
  (r : run_result (Z * FlowContext)) : Prop :=
  match r with
  | InKernel | WaitsRelay => owns (wk_mem s') (p :: ps) /\ same_packets (wk_mem s) (wk_mem s') (p :: ps)
  | Ended (v, ctx') =>
      same_flow ctx ctx' /\
      match fc_relay_queue ctx with
      | None => v = 0%Z /\ packet_free (Some p) (wk_mem s) = Some (tt, wk_mem s')
      | Some rq =>
          (v = 0%Z /\ wk_mem s' = wk_mem s /\ exists q q' : FlowCircularBuffer, wk_relays s !! rq = Some q /\
             wk_relays s' !! rq = Some q' /\ q_ok q' /\ q_items q' = q_items q ++ [p]) \/
          (v = (-1)%Z /\ packet_free (Some p) (wk_mem s) = Some (tt, wk_mem s'))
      end
  end.

Lemma memW_free_run s p s' :
  memW (packet_free (Some p)) s = Some (tt, s') -> packet_free (Some p) (wk_mem s) = Some (tt, wk_mem s').
Proof. unfold memW. destruct (packet_free (Some p) (wk_mem s)) as [[[] m']|]; [|done]. intros E. by simplify_eq. Qed.

Lemma same_flow_idle ctx b :
  same_flow ctx (if b : bool then set_pacing_state ctx (mkPacing (stream_start_enqueue (fc_pacing ctx))
                   (stream_start_dequeue (fc_pacing ctx)) false) else ctx).
Proof. destruct b; by destruct ctx. Qed.

Lemma same_flow_trans f1 f2 f3 : same_flow f1 f2 -> same_flow f2 f3 -> same_flow f1 f3.
Proof. unfold same_flow. intros E1 E2. rewrite E2, E1. by destruct f1. Qed.

Lemma same_flow_metrics f x : same_flow f (set_metrics f x).
Proof. by destruct f. Qed.

Lemma pace_packet_same clock env ctx enq ctx' reqs :
  pace_packet clock env ctx enq = (Some ctx', reqs) -> same_flow ctx ctx'.
Proof. unfold pace_packet. intros E. destruct ctx. repeat case_match; by simplify_eq. Qed.

Lemma same_flow_target f f' :
  same_flow f f' -> fc_queue f' = fc_queue f /\ fc_drop_deferred_overflow f' = fc_drop_deferred_overflow f /\
  fc_relay_queue f' = fc_relay_queue f /\ fc_output_fd f' = fc_output_fd f.
Proof. unfold same_flow. intros ->. by destruct f. Qed.

(** Every packet is disposed of exactly once: a packet that was to be written to a descriptor has
    been freed by one [packet_free], whatever the outcome of the write; a packet accepted by the
    relay queue is its last element and the memory is as before; a packet refused by a relay
    queue that is shut down has been freed by one [packet_free], with result -1. *)
Lemma handle_one_run s ctx p ps clock sleeps writes idle r s' :
  owns (wk_mem s) (p :: ps) -> target_ok s ctx ->
  handle_one encode clock sleeps writes ctx p idle s = Some (r, s') -> consumed s s' ctx p ps r.
Proof.
  intros Ho Ht E. unfold handle_one in E. pose proof (same_flow_idle ctx idle) as F0.
  set (ctx0 := if idle then _ else ctx) in *.
  destruct (owns_cons _ _ _ Ho) as [(d & Hd & _) _]. unfold mbind, comp_bind in E. rewrite (memW_load _ _ _ Hd) in E.
  assert (Hstay : forall s1, wk_mem s1 = wk_mem s ->
    owns (wk_mem s1) (p :: ps) /\ same_packets (wk_mem s) (wk_mem s1) (p :: ps)).
  { intros s1 ->. split; [done|apply same_packets_refl]. }
  destruct (pace_packet clock sleeps ctx0 (enqueue_ts d)) as [[ctx1|] reqs] eqn:Ep.
  2: { unfold mret, comp_ret in E. simplify_eq. by apply Hstay. }
  pose proof (same_flow_trans _ _ _ F0 (pace_packet_same _ _ _ _ _ _ Ep)) as F1.
  pose proof (same_flow_target _ _ F1) as (_ & _ & Er1 & _).
  destruct (fc_relay_queue ctx) as [rq|] eqn:Er.
  - unfold target_ok in Ht. rewrite Er in Ht. destruct Ht as (q & Hq & Hqok).
    unfold emit_packet in E. rewrite Er1 in E.
    unfold mbind, comp_bind, gets, the, modify in E; simpl in E. rewrite Hq in E.
    pose proof (enqueue_relay q p Hqok) as He.
    destruct (flow_buffer_enqueue q (Some p)) as [[[st q'] cell]|];
      [|unfold mret, comp_ret in E; simplify_eq; by apply Hstay].
    destruct He as [(-> & -> & Hok & Hi)|(-> & -> & ->)].
    + unfold mret, comp_ret in E; simpl in E. rewrite Er1 in E. simplify_eq. simpl. rewrite Er.
      split; [by eapply same_flow_trans; [|apply same_flow_metrics]|]. left. split; [done|]. split; [done|].
      exists q, q'. split; [done|]. by rewrite lookup_insert_eq.
    + destruct (memW (packet_free (Some p)) (Wk (wk_mem s) (<[rq := q]> (wk_relays s)) (wk_out s)))
        as [[[] s1]|] eqn:Ef; [|done]. unfold mret, comp_ret in E; simpl in E. simplify_eq. simpl. rewrite Er.
      split; [done|]. right. split; [done|]. by apply memW_free_run in Ef.
  - destruct (emit_packet encode writes ctx1 p s) as [[r1 s1]|] eqn:Ee; [|done].
    destruct (emit_fd_keeps s ctx1 p writes r1 s1 Er1 Ee) as (Hm & _ & Hcase).
    destruct Hcase as [->|[->| ->]].
    + unfold mret, comp_ret in E. simplify_eq. by apply Hstay.
    + cbn [set_metrics fc_relay_queue] in E. rewrite Er1 in E.
      destruct (memW (packet_free (Some p)) s1) as [[[] s2]|] eqn:Ef; [|done].
      unfold mret, comp_ret in E. simplify_eq. simpl. rewrite Er. apply memW_free_run in Ef. rewrite Hm in Ef.
      split; [by eapply same_flow_trans; [|apply same_flow_metrics]|done].
    + destruct (memW (packet_free (Some p)) s1) as [[[] s2]|] eqn:Ef; [|done].
      unfold mret, comp_ret in E. simplify_eq. simpl. rewrite Er. apply memW_free_run in Ef. by rewrite Hm in Ef.
Qed.

(** The call is defined when the payload can be read. *)
Lemma handle_one_defined s ctx p ps d clock sleeps writes idle :
  owns (wk_mem s) (p :: ps) -> lookup_pkt (wk_mem s) p = Some d -> readable (wk_mem s) d -> target_ok s ctx ->
  is_Some (handle_one encode clock sleeps writes ctx p idle s).
Proof.
  intros Ho Hd Hrd Ht. unfold handle_one. pose proof (same_flow_idle ctx idle) as F0.
  set (ctx0 := if idle then _ else ctx) in *.
  unfold mbind, comp_bind. rewrite (memW_load _ _ _ Hd).
  destruct (pace_packet clock sleeps ctx0 (enqueue_ts d)) as [[ctx1|] reqs] eqn:Ep; [|by eexists].
  pose proof (same_flow_trans _ _ _ F0 (pace_packet_same _ _ _ _ _ _ Ep)) as F1.
  pose proof (same_flow_target _ _ F1) as (_ & _ & Er1 & _).
  unfold target_ok in Ht. destruct (fc_relay_queue ctx) as [rq|] eqn:Er.
  - destruct Ht as (q & Hq & Hqok). unfold emit_packet. rewrite Er1.
    unfold mbind, comp_bind, gets, the, modify; simpl. rewrite Hq. pose proof (enqueue_relay q p Hqok) as He.
    destruct (flow_buffer_enqueue q (Some p)) as [[[st q'] cell]|]; [|by eexists].
    destruct He as [(-> & -> & Hok & Hi)|(-> & -> & ->)].
    + unfold mret, comp_ret; simpl. rewrite Er1. by eexists.
    + destruct (memW_free (Wk (wk_mem s) (<[rq := q]> (wk_relays s)) (wk_out s)) p ps Ho) as (s1 & -> & _).
      by eexists.
  - destruct (emit_fd s ctx1 p d writes) as (r & s1 & -> & Hm & _ & Hcase); [congruence|done|done|].
    destruct (memW_free s1 p ps) as (s2 & Ef & _); [by rewrite Hm|].
    destruct Hcase as [->|[->| ->]]; [by eexists| |].
    + cbn [set_metrics fc_relay_queue]. rewrite Er1, Ef. by eexists.
    + rewrite Ef. by eexists.
Qed.

Theorem handle_one_disposes_once s ctx p ps d clock sleeps writes idle :
  owns (wk_mem s) (p :: ps) -> lookup_pkt (wk_mem s) p = Some d -> readable (wk_mem s) d ->
  target_ok s ctx ->
  exists r s', handle_one encode clock sleeps writes ctx p idle s = Some (r, s') /\
    consumed s s' ctx p ps r.
Proof.
  intros Ho Hd Hrd Ht. destruct (handle_one_defined s ctx p ps d clock sleeps writes idle Ho Hd Hrd Ht) as [[r s'] E].
  exists r, s'. split; [done|]. by eapply handle_one_run.
Qed.

(** What the other packets see of it. *)
Lemma handle_one_rest s ctx p ps clock sleeps writes idle v ctx' s' :
  owns (wk_mem s) (p :: ps) -> target_ok s ctx ->
  handle_one encode clock sleeps writes ctx p idle s = Some (Ended (v, ctx'), s') ->
  same_flow ctx ctx' /\ owns (wk_mem s') ps /\ same_packets (wk_mem s) (wk_mem s') ps.
Proof.
  intros Ho Ht E. apply (handle_one_run _ _ _ ps) in E as [F H]; [|done|done]. split; [done|].
  destruct (packet_free_owned _ _ _ Ho) as (m1 & E1 & _ & Ho1 & Hs1).
  destruct (fc_relay_queue ctx); [destruct H as [(_ & -> & _)|[_ H]]|destruct H as [_ H]].
  - split; [by eapply owns_cons|apply same_packets_refl].
  - rewrite E1 in H. by simplify_eq.
  - rewrite E1 in H. by simplify_eq.
Qed.
End WorkerProofs.

(** ** Properties *)

(** [fd_sink_write] writes everything or says so.  Whatever partial writes and
    interruptions the kernel delivers, the bytes accepted are a prefix of the buffer; the
    status is [FD_SINK_OK] exactly when they are the whole buffer; and if the kernel keeps
    making progress the call does return [FD_SINK_OK]. *)
Theorem fd_sink_write_complete fd buf env st out :
  (0 <= fd)%Z -> fd_sink_write fd (Some buf) (length buf) env = (st, out) ->
  (out `prefix_of` buf) /\ (st = Some FD_SINK_OK <-> out = buf) /\
  (forall n, progress_env env = Some n -> length buf <= n -> st = Some FD_SINK_OK).
Proof.
  intros Hfd. unfold fd_sink_write. rewrite bool_decide_eq_false_2, andb_false_r by done.
  destruct (Z.ltb_spec fd 0); [lia|]. simpl. rewrite take_ge by done. intros E.
  destruct (sink_loop_spec _ _ _ _ E) as (Hp & Hs & _). split; [done|]. split; [done|].
  intros n Hn Hl. rewrite (sink_loop_finishes _ _ _ Hn Hl) in E. by simplify_eq.
Qed.

Lemma fd_sink_write_complete_witness :
  ([1; 2; 3]%Z `prefix_of` [1; 2; 3]%Z) /\
  (Some FD_SINK_OK = Some FD_SINK_OK <-> [1; 2; 3]%Z = [1; 2; 3]%Z) /\
  (forall n, progress_env [WrCount 1; WrEintr; WrCount 2] = Some n -> 3 <= n ->
     Some FD_SINK_OK = Some FD_SINK_OK).
Proof.
  apply (fd_sink_write_complete 5 [1; 2; 3]%Z [WrCount 1; WrEintr; WrCount 2]).
  - lia.
  - vm_compute; reflexivity.
Defined.

(** Pacing keeps the producer's spacing.  Once a stream has started, a packet whose time
    stamp is not before the stream's first one is released no earlier than the first release
    plus the distance between the two stamps: the clock reading plus the time slept reaches
    that point, and the worker sleeps only if the point is still ahead. *)
Theorem pacing_keeps_spacing ctx enq now env ctx' reqs :
  fc_pacing_enabled ctx = true -> has_stream_start (fc_pacing ctx) = true ->
  ts_normal enq -> ts_normal now -> ts_normal (stream_start_enqueue (fc_pacing ctx)) ->
  ts_normal (stream_start_dequeue (fc_pacing ctx)) ->
  (ts_ns (stream_start_enqueue (fc_pacing ctx)) <= ts_ns enq)%Z ->
  pace_packet (Some now) env ctx enq = (Some ctx', reqs) -> Forall (fun o => o <> NsError) env ->
  let target := (ts_ns (stream_start_dequeue (fc_pacing ctx)) +
                 (ts_ns enq - ts_ns (stream_start_enqueue (fc_pacing ctx))))%Z in
  ((target <= ts_ns now)%Z /\ reqs = []) \/
  ((ts_ns now < target)%Z /\ exists first, head reqs = Some first /\
     (ts_ns now + env_slept first env = target)%Z).
Proof.
  intros Hen Hst N1 N2 N3 N4 Hle E Herr target. unfold pace_packet in E. rewrite Hen, Hst in E. cbn [negb] in E.
  destruct (ts_sub_ok enq _ ts_zero N1 N3 Hle) as (d & Ed & Nd & Vd). rewrite Ed in E.
  destruct (ts_add_ok _ d ts_zero N4 Nd) as (t & Et & Nt & Vt). rewrite Et in E.
  cbn [time_utils_now_mono] in E. rewrite (ts_before_spec now t N2 Nt) in E.
  assert (Vtarget : ts_ns t = target) by (unfold target; lia).
  destruct (Z.ltb_spec (ts_ns now) (ts_ns t)) as [Hlt|Hge]; cbn [negb] in E.
  2: { simplify_eq. left. split; [lia|done]. }
  destruct (ts_sub_ok t now ts_zero Nt N2) as (w & Ew & Nw & Vw); [lia|]. rewrite Ew in E.
  right. split; [lia|]. unfold time_utils_sleep_for in E.
  destruct (_ || _ || _) eqn:Eneg in E.
  { exfalso. rewrite !orb_true_iff, !Z.ltb_lt, Z.geb_le in Eneg. destruct w as [ws wn].
    unfold ts_normal, ts_ns, NS_PER_SEC in *. simpl in *. lia. }
  destruct ((tv_sec w =? 0)%Z && (tv_nsec w =? 0)%Z) eqn:Ez.
  { apply andb_true_iff in Ez as [E1%Z.eqb_eq E2%Z.eqb_eq]. unfold ts_ns at 1 in Vw. rewrite E1, E2 in Vw. lia. }
  destruct (sleep_loop w env) as [[st|] rs] eqn:Es; [|done]. simplify_eq.
  assert (Hok : st = TU_OK).
  { clear -Es Herr. revert w reqs Es. induction env as [|o env IH]; intros w reqs Es; [done|].
    apply list.Forall_cons in Herr as [Ho Herr]. destruct o as [|rem|]; simpl in Es; [by simplify_eq| |done].
    destruct (sleep_loop rem env) as [st' rs'] eqn:E'. simplify_eq. by eapply IH. }
  subst st. exists w. rewrite (sleep_loop_ok _ _ _ Es). split; [|lia].
  destruct env as [|[|rem|] env]; simpl in Es; try done; [by simplify_eq|].
  destruct (sleep_loop rem env). by simplify_eq.
Qed.

Definition paced_flow : FlowContext :=
  set_pacing_state (set_pacing_enabled flow_zero true) (mkPacing (Timespec 10 0) (Timespec 20 0) true).

Lemma pacing_keeps_spacing_witness :
  (ts_ns (Timespec 20 100) + env_slept (Timespec 2 400) [NsEintr (Timespec 1 0); NsDone] = 22000000500)%Z.
Proof.
  destruct (pacing_keeps_spacing paced_flow (Timespec 12 500) (Timespec 20 100)
     [NsEintr (Timespec 1 0); NsDone]
     (default flow_zero (fst (pace_packet (Some (Timespec 20 100)) [NsEintr (Timespec 1 0); NsDone] paced_flow (Timespec 12 500))))
     [Timespec 2 400; Timespec 1 0]) as [[H _]|(_ & first & Hf & H)].
  - reflexivity.
  - reflexivity.
  - unfold ts_normal, NS_PER_SEC; simpl; lia.
  - unfold ts_normal, NS_PER_SEC; simpl; lia.
  - unfold ts_normal, NS_PER_SEC; simpl; lia.
  - unfold ts_normal, NS_PER_SEC; simpl; lia.
  - vm_compute; congruence.
  - vm_compute; reflexivity.
  - repeat constructor; congruence.
  - vm_compute in H. contradiction (H eq_refl).
  - simpl in Hf. injection Hf as <-. exact H.
Defined.

Definition worker_mem : mem :=
  mkMem 4 {[ 1 := [mkPacket 0 ts_zero 2 (Some (Ptr 0 0)) None None];
             3 := [mkPacket 0 ts_zero 1 (Some (Ptr 2 0)) None None] ]}
        {[ 0 := [5; 6]%Z; 2 := [7]%Z ]} ∅ ∅ [].

Definition no_encode (fn ctx : Z) (d : DataPacket) (buf : list Z) (cap : nat) : Z * list Z := (0%Z, []).

Lemma worker_mem_owns : owns worker_mem [Ptr 1 0; Ptr 3 0].
Proof. owns_now. Qed.

Lemma handle_one_disposes_once_witness :
  exists r s', handle_one no_encode None [] [WrCount 2] (set_pacing_enabled flow_zero false) (Ptr 1 0) false
      (Wk worker_mem ∅ []) = Some (r, s') /\
    consumed (Wk worker_mem ∅ []) s' (set_pacing_enabled flow_zero false) (Ptr 1 0) [Ptr 3 0] r.
Proof.
  eapply (handle_one_disposes_once no_encode (Wk worker_mem ∅ []) (set_pacing_enabled flow_zero false) (Ptr 1 0) [Ptr 3 0]).
  - apply worker_mem_owns.
  - vm_compute; reflexivity.
  - right. eexists (Ptr 0 0), _. split; [reflexivity|]. split; [vm_compute; reflexivity|]. simpl. lia.
  - exact I.
Defined.

(** packets leak when the relay shuts down mid-batch.  If the relay queue is shut down, the
    batch loop frees the packet it was refused for and returns; the rest of the batch, already
    out of the flow queue, stays allocated and nobody holds it any more. *)
Theorem relay_shutdown_leaks_batch encode s ctx p ps d (q : FlowCircularBuffer) rq envs :
  owns (wk_mem s) (p :: ps) -> lookup_pkt (wk_mem s) p = Some d ->
  fc_pacing_enabled ctx = false -> fc_relay_queue ctx = Some rq -> wk_relays s !! rq = Some q ->
  q_ok q -> q_shutdown q = true ->
  exists s', handle_batch encode envs 0 ctx (p :: ps) s = Some (Ended (false, ctx), s') /\
    owns (wk_mem s') ps /\ same_packets (wk_mem s) (wk_mem s') ps.
Proof.
  intros Ho Hd Hpe Hr Hq Hok Hsh. cbn [handle_batch]. unfold handle_one, pace_packet. rewrite Hpe.
  unfold mbind at 1, comp_bind at 1. unfold mbind at 1, comp_bind at 1. rewrite (memW_load _ _ _ Hd). cbn [negb].
  unfold emit_packet. rewrite Hr. unfold mbind, comp_bind, gets, the, modify; simpl. rewrite Hq.
  unfold flow_buffer_enqueue. rewrite enqueue_locked_spec.
  destruct (try_enqueue_cases q p Hok) as [(_ & ->)|[(? & _)|(? & _)]]; [|congruence|congruence]. simpl.
  destruct (memW_free (Wk (wk_mem s) (<[rq := q]> (wk_relays s)) (wk_out s)) p ps Ho) as (s1 & -> & Ho1 & Hs1 & _).
  by exists s1.
Qed.

Definition relayed_flow : FlowContext :=
  mkFlow 0 (fc_queue flow_zero) 0 metrics_zero (fc_pacing flow_zero) 1 false None 0 None 0 (Some 0) true.
Definition closed_relay : FlowCircularBuffer := mkQ (ring_init 1 None) true true None.

Lemma relay_shutdown_leaks_batch_witness :
  exists s', handle_batch no_encode (fun _ => PktEnv None [] []) 0 relayed_flow [Ptr 1 0; Ptr 3 0]
      (Wk worker_mem {[ 0 := closed_relay ]} []) = Some (Ended (false, relayed_flow), s') /\
    owns (wk_mem s') [Ptr 3 0] /\ same_packets worker_mem (wk_mem s') [Ptr 3 0].
Proof.
  eapply (relay_shutdown_leaks_batch no_encode (Wk worker_mem {[ 0 := closed_relay ]} []) relayed_flow
            (Ptr 1 0) [Ptr 3 0] _ closed_relay 0).
  - apply worker_mem_owns.
  - vm_compute; reflexivity.
  - reflexivity.
  - reflexivity.
  - vm_compute; reflexivity.
  - split; [apply ring_init_ok; lia|done|done|by left].
  - reflexivity.
Defined.

(** A dead relay queue causes a double free.  If [flow_buffer_enqueue] on the relay queue
    fails with a status other than shutdown (the queue is not initialised or already destroyed),
    [emit_packet] frees the packet and [handle_one] frees it again. *)
Theorem relay_failure_double_free encode s ctx p d (q : FlowCircularBuffer) rq clock sleeps writes idle :
  own_pkt (wk_mem s) p -> lookup_pkt (wk_mem s) p = Some d -> pool d = None ->
  fc_pacing_enabled ctx = false -> fc_relay_queue ctx = Some rq -> wk_relays s !! rq = Some q ->
  valid_queue q = false -> handle_one encode clock sleeps writes ctx p idle s = None.
Proof.
  intros Ho Hd Hpl Hpe Hr Hq Hv. unfold handle_one. unfold mbind at 1, comp_bind at 1. rewrite (memW_load _ _ _ Hd).
  assert (Hpace : exists ctx1, pace_packet clock sleeps
    (if idle then set_pacing_state ctx (mkPacing (stream_start_enqueue (fc_pacing ctx))
       (stream_start_dequeue (fc_pacing ctx)) false) else ctx) (enqueue_ts d) = (Some ctx1, []) /\
    fc_relay_queue ctx1 = Some rq).
  { unfold pace_packet. destruct idle; simpl; rewrite Hpe; simpl; eexists; (split; [reflexivity|done]). }
  destruct Hpace as (ctx1 & -> & Hr1). unfold emit_packet. rewrite Hr1.
  unfold mbind, comp_bind, gets, the, modify; simpl. rewrite Hq.
  unfold flow_buffer_enqueue, enqueue_locked. rewrite Hv. simpl.
  assert (Hown : owns (wk_mem s) [p]).
  { split; [by apply list.Forall_singleton|]. rewrite bind_cons. simpl. rewrite app_nil_r. unfold footprint. rewrite Hd, Hpl.
    destruct (user_data d); [|destruct (payload d)]; repeat (apply list.NoDup_cons; split; [set_solver|]); apply NoDup_nil_2. }
  set (s1 := Wk (wk_mem s) (<[rq := q]> (wk_relays s)) (wk_out s)).
  destruct (packet_free_owned _ _ _ Hown) as (m' & E & _).
  assert (E1 : memW (packet_free (Some p)) s1 = Some (tt, Wk m' (wk_relays s1) (wk_out s1))).
  { unfold memW. simpl. by rewrite E. }
  rewrite E1. unfold mret, comp_ret, memW. simpl wk_mem.
  assert (Hgone : lookup_pkt m' p = None).
  { destruct (free_all_owned [p] [] (wk_mem s)) as (m2 & E2 & _ & _ & _ & Hg); [by rewrite app_nil_r|].
    unfold free_all, mbind, comp_bind in E2. rewrite E in E2. unfold mret, comp_ret in E2. simplify_eq.
    apply (Hg p d); [set_solver|done|done]. }
  unfold packet_free, mbind, comp_bind, load_pkt, mbind, comp_bind, gets, the. simpl. by rewrite Hgone.
Qed.

Lemma relay_failure_double_free_witness :
  handle_one no_encode None [] []
    relayed_flow (Ptr 1 0) false (Wk worker_mem {[ 0 := fc_queue flow_zero ]} []) = None.
Proof.
  eapply (relay_failure_double_free no_encode (Wk worker_mem {[ 0 := fc_queue flow_zero ]} [])
            relayed_flow (Ptr 1 0) _ (fc_queue flow_zero) 0).
  - eapply owns_elem; [apply worker_mem_owns|]. set_solver.
  - vm_compute; reflexivity.
  - reflexivity.
  - reflexivity.
  - reflexivity.
  - vm_compute; reflexivity.
  - reflexivity.
Defined.
