(* ===== verification/System.v ===== *)
(** * The running system: producers, the dispatcher and the workers

    The steps that the threads of a running manager take, interleaved in any order.  Each step
    is one critical section: a push into the mixed queue, a batch taken from it, one packet
    routed, one deferred packet moved, a batch taken from a flow queue, one packet handled by a
    worker ([handle_one] of FlowWorker.v, with any encoder, clock and descriptor).
    [drain_deferred] is a sequence of [drain_one] steps, and the dispatcher is the only thread
    that routes, so these steps cover its loop.  Four logs record what happened: the packets
    pushed, taken by the workers, and lost, with their flow. *)

From S2P Require Import Prelude TimeUtils Ring Packet PktQueue FlowBuffer MixedQueue Ownership.
From S2P Require Import FlowContext Dispatcher DispatcherSpec FlowManager FlowManagerSpec FlowWorker.

Record world := World {
  w_sys : sys;
  w_batch : list ptr;            (* taken from the mixed queue, not yet routed *)
  w_held : list ptr;             (* taken by a worker, not yet freed or passed on *)
  w_pushed : list (nat * ptr);
  w_taken : list (nat * ptr);
  w_lost : list (nat * ptr)
}.

Definition w_mem (w : world) : mem := s_mem (w_sys w).
Definition w_mgr (w : world) : FlowManager := s_mgr (w_sys w).

Definition flow_of (m : mem) (p : ptr) : option nat := (fun d => Z.to_nat (flow_id d)) <$> lookup_pkt m p.
Definition on_flow (m : mem) (i : nat) (l : list ptr) : list ptr := filter (fun p => flow_of m p = Some i) l.
Definition proj (i : nat) (l : list (nat * ptr)) : list ptr := snd <$> filter (fun x => fst x = i) l.

Definition all_pending (g : FlowManager) : list ptr := seq 0 (max_flows (config g)) ≫= pending g.

(** Every packet the manager, the dispatcher and the workers hold. *)
Definition owned (w : world) : list ptr :=
  q_items (mixed (w_mgr w)) ++ w_batch w ++ all_pending (w_mgr w) ++ w_held w.

(** The packets of flow [i] between push and delivery, oldest first. *)
Definition in_system (w : world) (i : nat) : list ptr :=
  pending (w_mgr w) i ++ on_flow (w_mem w) i (w_batch w ++ q_items (mixed (w_mgr w))).

(** A worker replaces the queue of its flow. *)
Definition with_flow_queue (i : nat) (q : FlowCircularBuffer) (g : FlowManager) : FlowManager :=
  match flows g !! i with
  | Some f => set_flows (<[i := set_queue f q]> (flows g)) g
  | None => g
  end.

Inductive step : world -> world -> Prop :=
  (* a producer pushes a packet it owns *)
  | st_push m g g' batch held pushed taken lost p i :
      owns m (p :: owned (World (Sys m g) batch held pushed taken lost)) -> flow_of m p = Some i ->
      flow_manager_push g (Some p) = Returns (FM_OK, g', None) ->
      step (World (Sys m g) batch held pushed taken lost)
           (World (Sys m g') batch held (pushed ++ [(i, p)]) taken lost)
  (* the dispatcher takes a batch, or one packet after a blocking pop *)
  | st_batch m g q' xs sd held pushed taken lost :
      mixed_queue_try_pop_batch (mixed g) FM_DISPATCH_BATCH = (xs, q', sd) ->
      step (World (Sys m g) [] held pushed taken lost)
           (World (Sys m (set_mixed q' g)) (omap id xs) held pushed taken lost)
  | st_pop m g q' p held pushed taken lost :
      mixed_queue_pop (mixed g) None = Returns (MQ_OK, q', Some p) ->
      step (World (Sys m g) [] held pushed taken lost)
           (World (Sys m (set_mixed q' g)) [p] held pushed taken lost)
  (* it routes the next packet of its batch; the packet is lost if it is pending nowhere *)
  | st_route m g m' g' ok p ps i held pushed taken lost :
      flow_of m p = Some i ->
      route_packet p (Sys m g) = Some (ok, Sys m' g') ->
      step (World (Sys m g) (p :: ps) held pushed taken lost)
           (World (Sys m' g') ps held pushed taken
              (if decide (p ∈ pending g' i) then lost else lost ++ [(i, p)]))
  (* it moves a deferred packet *)
  | st_drain m g s' b i batch held pushed taken lost :
      i < max_flows (config g) ->
      drain_one i (Sys m g) = Some (b, s') ->
      step (World (Sys m g) batch held pushed taken lost) (World s' batch held pushed taken lost)
  (* worker [i] takes a batch, or one packet with the blocking dequeue *)
  | st_take m g f q' xs i batch held pushed taken lost :
      flows g !! i = Some f ->
      flow_buffer_try_dequeue_batch (fc_queue f) FM_DISPATCH_BATCH = (xs, q') ->
      step (World (Sys m g) batch held pushed taken lost)
           (World (Sys m (with_flow_queue i q' g)) batch (held ++ omap id xs) pushed
              (taken ++ (pair i <$> omap id xs)) lost)
  | st_dequeue m g f q' p i idle waited batch held pushed taken lost :
      flows g !! i = Some f ->
      flow_buffer_dequeue (fc_queue f) None waited = Returns (FB_OK, q', Some p, idle) ->
      step (World (Sys m g) batch held pushed taken lost)
           (World (Sys m (with_flow_queue i q' g)) batch (held ++ [p]) pushed (taken ++ [(i, p)]) lost)
  (* a worker has handled a packet of its flow [i]; [relays] are the relay queues it finds *)
  | st_handle encode clock sleeps writes idle relays out m g p i f v f' s' h1 h2 batch pushed taken lost :
      flow_of m p = Some i -> flows g !! i = Some f -> target_ok (Wk m relays out) f ->
      handle_one encode clock sleeps writes f p idle (Wk m relays out) = Some (Ended (v, f'), s') ->
      step (World (Sys m g) batch (h1 ++ p :: h2) pushed taken lost)
           (World (Sys (wk_mem s') (set_flows (<[i := f']> (flows g)) g)) batch (h1 ++ h2) pushed taken lost)
  (* a worker wakes the dispatcher *)
  | st_wake m g i batch held pushed taken lost :
      step (World (Sys m g) batch held pushed taken lost)
           (World (Sys m (flow_manager_dispatch_wake_if_deferred g i)) batch held pushed taken lost)
  (* the owner requests the stop *)
  | st_stop m g batch held pushed taken lost :
      step (World (Sys m g) batch held pushed taken lost)
           (World (Sys m (stop_request g)) batch held pushed taken lost)
  (* other code allocates, fills and frees packets of its own *)
  | st_env m m' g batch held pushed taken lost :
      owns m' (owned (World (Sys m g) batch held pushed taken lost)) ->
      same_packets m m' (owned (World (Sys m g) batch held pushed taken lost)) ->
      step (World (Sys m g) batch held pushed taken lost)
           (World (Sys m' g) batch held pushed taken lost).

Definition start (m : mem) (g : FlowManager) : world := World (Sys m g) [] [] [] [] [].

(** ** The invariant *)

(** [kept] is [pushed] with the packets of [lost] left out. *)
Definition all_but (pushed kept lost : list ptr) : Prop :=
  kept `sublist_of` pushed /\ pushed ≡ₚ kept ++ lost.

Record world_ok (w : world) : Prop := {
  wo_mgr : mgr_ok (w_mgr w);
  wo_mixed : q_ok (mixed (w_mgr w));
  wo_owns : owns (w_mem w) (owned w);
  wo_flow : forall i p, p ∈ pending (w_mgr w) i -> flow_of (w_mem w) p = Some i;
  wo_order : forall i, i < max_flows (config (w_mgr w)) ->
    all_but (proj i (w_pushed w)) (proj i (w_taken w) ++ in_system w i) (proj i (w_lost w));
  wo_drops : forall i, i < max_flows (config (w_mgr w)) -> closed_of (w_mgr w) i = false ->
    drops_of (w_mgr w) i = u64 (Z.of_nat (length (proj i (w_lost w))))
}.

(** ** Projections *)

Lemma proj_app i l k : proj i (l ++ k) = proj i l ++ proj i k.
Proof. unfold proj. by rewrite list.filter_app, fmap_app. Qed.

Lemma proj_one i j p : proj i [(j, p)] = if decide (j = i) then [p] else [].
Proof. unfold proj. rewrite list.filter_cons, list.filter_nil. simpl. by case_decide. Qed.

Lemma proj_pair i j l : proj i (pair j <$> l) = if decide (j = i) then l else [].
Proof.
  unfold proj. induction l as [|x l IH]; csimpl; [by case_decide|].
  rewrite list.filter_cons; simpl. case_decide; csimpl; by rewrite IH.
Qed.

Lemma on_flow_app m i l k : on_flow m i (l ++ k) = on_flow m i l ++ on_flow m i k.
Proof. unfold on_flow. by rewrite list.filter_app. Qed.

Lemma on_flow_cons m i p l :
  on_flow m i (p :: l) = if decide (flow_of m p = Some i) then p :: on_flow m i l else on_flow m i l.
Proof. unfold on_flow. by rewrite list.filter_cons. Qed.

Lemma on_flow_nil m i : on_flow m i [] = [].
Proof. done. Qed.

Lemma flow_of_same m m' ps p : same_packets m m' ps -> p ∈ ps -> flow_of m' p = flow_of m p.
Proof. intros H Hp. unfold flow_of. by rewrite (same_packets_elem _ _ _ _ H Hp). Qed.

Lemma on_flow_same m m' ps i l :
  same_packets m m' ps -> (forall p, p ∈ l -> p ∈ ps) -> on_flow m' i l = on_flow m i l.
Proof.
  intros H Hin. induction l as [|p l IH]; [done|]. rewrite !on_flow_cons, IH by set_solver.
  by rewrite (flow_of_same m m' ps) by set_solver.
Qed.

(** ** Moving packets between the parts of [all_pending] *)

Lemma bind_update {A} (f f' : nat -> list A) l (ks : list nat) i :
  NoDup ks -> i ∈ ks -> f' i ≡ₚ l ++ f i -> (forall j, j <> i -> f' j = f j) ->
  ks ≫= f' ≡ₚ l ++ (ks ≫= f).
Proof.
  intros Hnd Hi Hf Ho. induction ks as [|k ks IH]; [set_solver|].
  apply list.NoDup_cons in Hnd as [Hk Hnd]. rewrite !bind_cons.
  destruct (decide (k = i)) as [->|Hne].
  - rewrite Hf. assert (E : ks ≫= f' = ks ≫= f).
    { clear -Hk Ho. induction ks as [|x ks IH]; [done|]. rewrite !bind_cons, Ho, IH by set_solver. done. }
    by rewrite E, app_assoc.
  - rewrite Ho, IH by set_solver. rewrite !app_assoc. apply Permutation_app_tail, Permutation_app_comm.
Qed.

Lemma pending_grows g g' l i :
  config g' = config g -> i < max_flows (config g) -> pending g' i ≡ₚ l ++ pending g i ->
  (forall j, j <> i -> pending g' j = pending g j) -> all_pending g' ≡ₚ l ++ all_pending g.
Proof.
  intros Hc Hi Hp Ho. unfold all_pending. rewrite Hc. apply bind_update with i; try done.
  - apply NoDup_seq.
  - apply elem_of_seq. lia.
Qed.

Lemma pending_same g g' :
  config g' = config g -> (forall j, pending g' j = pending g j) -> all_pending g' = all_pending g.
Proof.
  intros Hc Ho. unfold all_pending. rewrite Hc. generalize (seq 0 (max_flows (config g))).
  induction l as [|x l IH]; [done|]. by rewrite !bind_cons, Ho, IH.
Qed.

Lemma pending_in_all g i p : mgr_ok g -> p ∈ pending g i -> p ∈ all_pending g.
Proof.
  intros H Hp. unfold all_pending. apply list_elem_of_bind. exists i. split; [done|].
  apply elem_of_seq. destruct (decide (i < max_flows (config g))); [lia|].
  destruct (deferred_of_out g i H) as [Hq Hd]; [lia|]. unfold pending in Hp.
  rewrite Hq, Hd in Hp. set_solver.
Qed.

(** ** Order bookkeeping *)

Lemma all_but_push pushed kept lost p :
  all_but pushed kept lost -> all_but (pushed ++ [p]) (kept ++ [p]) lost.
Proof.
  intros [Hs Hp]. split; [by apply sublist_app|].
  rewrite Hp, <- !app_assoc. apply Permutation_app_head, Permutation_app_comm.
Qed.

Lemma all_but_lose pushed k1 p k2 lost :
  all_but pushed (k1 ++ p :: k2) lost -> all_but pushed (k1 ++ k2) (lost ++ [p]).
Proof.
  intros [Hs Hp]. split.
  - etransitivity; [|exact Hs]. apply sublist_app; [done|]. by apply sublist_cons.
  - rewrite Hp. rewrite <- !app_assoc. apply Permutation_app_head. simpl.
    rewrite (app_assoc k2 lost [p]). rewrite <- Permutation_cons_append. done.
Qed.

(** ** Each step keeps the invariant *)

Arguments proj : simpl never.
Arguments on_flow : simpl never.
Arguments pending : simpl never.
Arguments all_pending : simpl never.

Ltac wsimpl := unfold w_mem, w_mgr in *; simpl in *.

Lemma push_cases g g' p :
  q_ok (mixed g) -> flow_manager_push g (Some p) = Returns (FM_OK, g', None) ->
  exists q', g' = set_mixed q' g /\ q_ok q' /\ q_items q' = q_items (mixed g) ++ [p].
Proof.
  intros Hq. unfold flow_manager_push. destruct (negb (running g) || shutdown_requested g); [done|].
  pose proof (mq_push_spec (mixed g) p Hq) as H.
  destruct (mixed_queue_push (mixed g) (Some p)) as [[[st q'] cell]|]; [|done].
  destruct H as [(-> & -> & Hi & Hok & _)|(-> & _)]; [|done]. intros E. simplify_eq. eauto.
Qed.

Lemma step_push m g g' batch held pushed taken lost p i :
  world_ok (World (Sys m g) batch held pushed taken lost) ->
  owns m (p :: owned (World (Sys m g) batch held pushed taken lost)) -> flow_of m p = Some i ->
  flow_manager_push g (Some p) = Returns (FM_OK, g', None) ->
  world_ok (World (Sys m g') batch held (pushed ++ [(i, p)]) taken lost).
Proof.
  intros [H1 H2 H3 H4 H5 H6] Ho Hf Hp. wsimpl.
  destruct (push_cases g g' p H2 Hp) as (q' & -> & Hq' & Hi').
  split; wsimpl; try done.
  - by apply mgr_ok_mixed.
  - unfold owned in *; wsimpl. rewrite Hi'. eapply owns_perm; [|exact Ho].
    by rewrite <- app_assoc, Permutation_middle.
  - intros j Hj. specialize (H5 j Hj). unfold in_system in *; wsimpl.
    rewrite Hi', proj_app, proj_one, (app_assoc batch), on_flow_app, on_flow_cons, on_flow_nil, Hf.
    destruct (decide (i = j)) as [->|Hne].
    + rewrite decide_True by done. apply (all_but_push _ _ _ p) in H5. by rewrite <- !app_assoc in H5.
    + rewrite decide_False by congruence. by rewrite !app_nil_r.
Qed.

(** Taking packets from the front of the mixed queue leaves the order alone. *)
Lemma step_unmix m g q' xs held pushed taken lost :
  world_ok (World (Sys m g) [] held pushed taken lost) ->
  q_ok q' -> q_items (mixed g) = xs ++ q_items q' ->
  world_ok (World (Sys m (set_mixed q' g)) xs held pushed taken lost).
Proof.
  intros [H1 H2 H3 H4 H5 H6] Hq Hi. wsimpl. split; wsimpl; try done.
  - by apply mgr_ok_mixed.
  - unfold owned in *; wsimpl. rewrite Hi in H3. eapply owns_perm; [|exact H3].
    rewrite (app_assoc (q_items q')). apply Permutation_app_tail, Permutation_app_comm.
  - intros j Hj. specialize (H5 j Hj). unfold in_system in *; wsimpl. by rewrite Hi in H5.
Qed.

Lemma step_batch m g q' xs sd held pushed taken lost :
  world_ok (World (Sys m g) [] held pushed taken lost) ->
  mixed_queue_try_pop_batch (mixed g) FM_DISPATCH_BATCH = (xs, q', sd) ->
  world_ok (World (Sys m (set_mixed q' g)) (omap id xs) held pushed taken lost).
Proof.
  intros H E. destruct (mq_pop_batch_spec (mixed g) FM_DISPATCH_BATCH (wo_mixed _ H))
    as (q1 & E1 & Hok & Hi & _); [unfold FM_DISPATCH_BATCH; lia|].
  rewrite E1 in E. simplify_eq. rewrite omap_id_some. apply step_unmix; [done|done|].
  by rewrite Hi, take_drop.
Qed.

Lemma step_pop m g q' p held pushed taken lost :
  world_ok (World (Sys m g) [] held pushed taken lost) ->
  mixed_queue_pop (mixed g) None = Returns (MQ_OK, q', Some p) ->
  world_ok (World (Sys m (set_mixed q' g)) [p] held pushed taken lost).
Proof.
  intros H E. pose proof (mq_pop_spec (mixed g) (wo_mixed _ H)) as Hs. rewrite E in Hs.
  destruct Hs as [(_ & x & Hx & Hi & Hok & _)|(? & _)]; [|done]. simplify_eq.
  by apply step_unmix.
Qed.

(** Changes of the manager that leave pending packets, queue flags and drop counts alone. *)
Lemma step_quiet m g g' batch held pushed taken lost :
  world_ok (World (Sys m g) batch held pushed taken lost) ->
  mgr_ok g' -> config g' = config g -> q_ok (mixed g') -> q_items (mixed g') = q_items (mixed g) ->
  (forall i, pending g' i = pending g i) -> (forall i, drops_of g' i = drops_of g i) ->
  (forall i, closed_of g' i = false -> closed_of g i = false) ->
  world_ok (World (Sys m g') batch held pushed taken lost).
Proof.
  intros [H1 H2 H3 H4 H5 H6] G1 G2 G3 G4 G5 G6 G7. wsimpl. split; wsimpl; try done.
  - unfold owned in *; wsimpl. by rewrite G4, (pending_same g g').
  - intros i p. rewrite G5. apply H4.
  - intros i Hi. rewrite G2 in Hi. specialize (H5 i Hi). unfold in_system in *; wsimpl.
    by rewrite G5, G4.
  - intros i Hi Hc. rewrite G6. apply H6; [by rewrite <- G2|by apply G7].
Qed.

Lemma batch_elem w p ps : w_batch w = p :: ps -> p ∈ owned w.
Proof. intros H. unfold owned. rewrite H. set_solver. Qed.

(** The packet being routed, in front of everything else that is owned. *)
Lemma owned_front m g p ps held pushed taken lost :
  owned (World (Sys m g) (p :: ps) held pushed taken lost) ≡ₚ
  p :: owned (World (Sys m g) ps held pushed taken lost).
Proof. unfold owned; wsimpl. symmetry. apply Permutation_middle. Qed.

(** [routed None] puts the packet at the end of its flow's pending packets. *)
Lemma step_route_kept m g g' p ps i held pushed taken lost :
  world_ok (World (Sys m g) (p :: ps) held pushed taken lost) ->
  flow_of m p = Some i -> mgr_ok g' -> same_frame g g' -> i < max_flows (config g) ->
  routed None p i m m ps g g' ->
  world_ok (World (Sys m g') ps held pushed taken lost).
Proof.
  intros H Hf G1 (Gc & Gm & _ & _ & _ & _ & _ & _ & Gcl) Hi (Gp & Gd & _ & _).
  pose proof H as [H1 H2 H3 H4 H5 H6]. wsimpl.
  assert (Pi : pending g' i = pending g i ++ [p]) by (by rewrite Gp, decide_True).
  assert (Po : forall j, j <> i -> pending g' j = pending g j)
    by (intros j Hj; by rewrite Gp, decide_False by naive_solver).
  assert (Pall : all_pending g' ≡ₚ p :: all_pending g).
  { apply (pending_grows g g' [p] i Gc Hi); [|done]. rewrite Pi. apply Permutation_app_comm. }
  split; wsimpl; try done.
  - by rewrite Gm.
  - eapply owns_perm; [|exact H3]. rewrite owned_front. unfold owned; wsimpl.
    rewrite Gm, Pall. simpl. rewrite !(app_assoc (q_items _) ps). apply Permutation_middle.
  - intros j q Hq. destruct (decide (j = i)) as [->|Hj].
    + rewrite Pi in Hq. apply elem_of_app in Hq as [Hq|Hq]; [by apply H4|].
      apply list_elem_of_singleton in Hq as ->. done.
    + rewrite Po in Hq by done. by apply H4.
  - intros j Hj. rewrite Gc in Hj. specialize (H5 j Hj). unfold in_system in *; wsimpl.
    rewrite on_flow_cons, Hf in H5. rewrite Gm. destruct (decide (j = i)) as [->|Hne].
    + rewrite decide_True in H5 by done. by rewrite Pi, <- app_assoc.
    + rewrite decide_False in H5 by congruence. by rewrite Po.
  - intros j Hj Hc. rewrite Gd, decide_False by naive_solver. apply H6; [by rewrite <- Gc|by rewrite <- Gcl].
Qed.

(** A lost packet disappears from the batch; a lost packet of an open flow is counted. *)
Lemma step_route_lost m m' g g' p ps i b held pushed taken lost :
  world_ok (World (Sys m g) (p :: ps) held pushed taken lost) ->
  flow_of m p = Some i -> mgr_ok g' -> same_frame g g' -> route_fate g i (Some b) ->
  routed (Some b) p i m m' (owned (World (Sys m g) ps held pushed taken lost)) g g' ->
  world_ok (World (Sys m' g') ps held pushed taken (lost ++ [(i, p)])).
Proof.
  intros H Hf G1 (Gc & Gm & _ & _ & _ & _ & _ & _ & Gcl) Hfate (Gp & Gd & _ & Gl).
  pose proof H as [H1 H2 H3 H4 H5 H6]. wsimpl. destruct (Gl ltac:(done)) as [Go Gs].
  assert (Po : forall j, pending g' j = pending g j)
    by (intros j; by rewrite Gp, decide_False by naive_solver).
  assert (Hown : owned (World (Sys m' g') ps held pushed taken (lost ++ [(i, p)])) =
                 owned (World (Sys m g) ps held pushed taken lost)).
  { unfold owned; wsimpl. by rewrite Gm, (pending_same g g'). }
  split; wsimpl; try done.
  - by rewrite Gm.
  - by rewrite Hown.
  - intros j q Hq. rewrite Po in Hq. rewrite (flow_of_same m m' _ q Gs); [by apply H4|].
    unfold owned; wsimpl. apply (pending_in_all g j q H1) in Hq. set_solver.
  - intros j Hj. rewrite Gc in Hj. specialize (H5 j Hj). unfold in_system in *; wsimpl.
    rewrite (on_flow_same m m' _ j _ Gs) by (rewrite Gm; unfold owned; wsimpl; set_solver).
    rewrite Po, Gm, proj_app, proj_one. rewrite on_flow_cons, Hf in H5.
    destruct (decide (i = j)) as [->|Hne].
    + rewrite decide_True in H5 by done. rewrite app_assoc in H5 |- *. by apply all_but_lose in H5.
    + rewrite decide_False in H5 by congruence. by rewrite app_nil_r.
  - intros j Hj Hc. rewrite Gc in Hj. rewrite Gcl in Hc. specialize (H6 j Hj Hc).
    rewrite Gd, proj_app, proj_one, length_app. destruct (decide (i = j)) as [->|Hne].
    + inversion Hfate; subst; [|congruence|lia]. rewrite decide_True by done.
      rewrite H6. unfold u64_succ, u64, uwrap. simpl length.
      rewrite Zplus_mod_idemp_l. f_equal. lia.
    + rewrite decide_False by naive_solver. rewrite H6. simpl. by rewrite Nat.add_0_r.
Qed.

Lemma flow_of_Some m p i : flow_of m p = Some i -> exists d, lookup_pkt m p = Some d /\ Z.to_nat (flow_id d) = i.
Proof. unfold flow_of. destruct (lookup_pkt m p) as [d|]; [|done]. intros E. simpl in E. simplify_eq. eauto. Qed.

Lemma step_route m g m' g' ok p ps i held pushed taken lost :
  world_ok (World (Sys m g) (p :: ps) held pushed taken lost) ->
  flow_of m p = Some i -> route_packet p (Sys m g) = Some (ok, Sys m' g') ->
  world_ok (World (Sys m' g') ps held pushed taken
              (if decide (p ∈ pending g' i) then lost else lost ++ [(i, p)])).
Proof.
  intros H Hf E. pose proof H as [H1 H2 H3 H4 H5 H6]. wsimpl.
  destruct (flow_of_Some m p i Hf) as (d & Hd & Hdi). rewrite owned_front in H3.
  destruct (route_packet_spec m g p _ d H1 H3 Hd) as (ok' & fate & m1 & g1 & E' & G1 & Gf & Gfate & Gr).
  rewrite E' in E. simplify_eq. destruct fate as [b|].
  - assert (Hno : p ∉ pending g' (Z.to_nat (flow_id d))).
    { destruct Gr as (Gp & _). rewrite Gp, decide_False by naive_solver. intros Hin.
      apply (owns_not_in _ _ _ H3). unfold owned; wsimpl. apply (pending_in_all g _ p H1) in Hin. set_solver. }
    rewrite decide_False by done. by eapply step_route_lost.
  - destruct Gr as (Gp & Gd & Gm & Gl). specialize (Gm eq_refl). subst m'.
    assert (Hin : p ∈ pending g' (Z.to_nat (flow_id d))) by (rewrite Gp, decide_True by done; set_solver).
    rewrite decide_True by done. inversion Gfate; subst.
    eapply step_route_kept; try done.
Qed.

Lemma pending_live w i : world_ok w -> live_pkts (w_mem w) (deferred_of (w_mgr w) i).
Proof.
  intros H. eapply owns_live; [apply (wo_owns _ H)|]. intros p Hp. unfold owned.
  assert (Hin : p ∈ pending (w_mgr w) i) by (unfold pending; set_solver).
  apply (pending_in_all _ _ _ (wo_mgr _ H)) in Hin. set_solver.
Qed.

Lemma step_drain m g s' b i batch held pushed taken lost :
  world_ok (World (Sys m g) batch held pushed taken lost) ->
  i < max_flows (config g) -> drain_one i (Sys m g) = Some (b, s') ->
  world_ok (World s' batch held pushed taken lost).
Proof.
  intros H Hi E. pose proof (pending_live _ i H) as Hl. pose proof (wo_mgr _ H) as Hg. wsimpl.
  pose proof (drain_one_spec m g i Hg Hi Hl) as Hs.
  destruct (deferred_of g i) as [|p ps] eqn:Ed; [rewrite E in Hs; by simplify_eq|].
  case_decide; [|rewrite E in Hs; by simplify_eq].
  destruct Hs as (g' & E' & G1 & ((Gc & Gm & _ & _ & _ & _ & _ & _ & Gcl) & _ & _ & Gd) & Gq & Gdf).
  rewrite E' in E. simplify_eq. eapply step_quiet; try done.
  - rewrite Gm. apply (wo_mixed _ H).
  - by rewrite Gm.
  - intros j. unfold pending. rewrite Gq, Gdf. case_decide as Ej; [|done]. subst j.
    by rewrite Ed, <- app_assoc.
  - intros j. by rewrite Gcl.
Qed.

(** A worker takes the first packets of its queue. *)
Lemma step_take_front m g f q' xs i batch held pushed taken lost :
  world_ok (World (Sys m g) batch held pushed taken lost) ->
  flows g !! i = Some f -> q_ok q' -> q_items (fc_queue f) = xs ++ q_items q' ->
  q_cap q' = q_cap (fc_queue f) -> q_shutdown q' = q_shutdown (fc_queue f) ->
  world_ok (World (Sys m (with_flow_queue i q' g)) batch (held ++ xs) pushed (taken ++ (pair i <$> xs)) lost).
Proof.
  intros [H1 H2 H3 H4 H5 H6] Hf Hq Hi Hcap Hsh. wsimpl. unfold with_flow_queue. rewrite Hf.
  assert (Hlt : i < length (flows g)) by (by eapply lookup_lt_Some).
  set (g' := set_flows (<[i := set_queue f q']> (flows g)) g).
  assert (Pi : pending g i = xs ++ pending g' i).
  { unfold pending. subst g'. rewrite queue_of_insert, decide_True by done. unfold queue_of at 1.
    rewrite Hf, Hi. by rewrite <- app_assoc. }
  assert (Po : forall j, j <> i -> pending g j = pending g' j).
  { intros j Hj. unfold pending. subst g'. by rewrite queue_of_insert, decide_False. }
  assert (Pall : all_pending g ≡ₚ xs ++ all_pending g').
  { apply (pending_grows g' g xs i); [done| |by rewrite Pi|done]. subst g'; simpl.
    by rewrite <- (mo_flows _ H1). }
  assert (Hfr : same_frame g g') by (by eapply same_frame_flow).
  split; wsimpl; try done.
  - by apply mgr_ok_flow.
  - eapply owns_perm; [|exact H3]. unfold owned; wsimpl. rewrite Pall.
    do 2 apply Permutation_app_head. rewrite <- app_assoc, Permutation_app_comm, <- app_assoc. done.
  - intros j p Hp. destruct (decide (j = i)) as [->|Hj].
    + apply H4. rewrite Pi. set_solver.
    + apply H4. by rewrite Po.
  - intros j Hj. specialize (H5 j Hj). unfold in_system in *; wsimpl.
    rewrite proj_app, proj_pair. destruct (decide (i = j)) as [<-|Hne].
    + rewrite Pi, <- !app_assoc in H5. by rewrite <- !app_assoc.
    + rewrite app_nil_r. by rewrite <- Po.
  - destruct Hfr as (_ & _ & _ & _ & _ & _ & _ & _ & Gcl). intros j Hj Hc. rewrite Gcl in Hc.
    rewrite <- H6 by done. unfold drops_of; subst g'; simpl.
    destruct (decide (j = i)) as [->|]; [by rewrite list_lookup_insert_eq, Hf|by rewrite list_lookup_insert_ne].
Qed.

Lemma step_take m g f q' xs i batch held pushed taken lost :
  world_ok (World (Sys m g) batch held pushed taken lost) -> flows g !! i = Some f ->
  flow_buffer_try_dequeue_batch (fc_queue f) FM_DISPATCH_BATCH = (xs, q') ->
  world_ok (World (Sys m (with_flow_queue i q' g)) batch (held ++ omap id xs) pushed
              (taken ++ (pair i <$> omap id xs)) lost).
Proof.
  intros H Hf E. pose proof (mo_queue _ (wo_mgr _ H) _ _ Hf) as Hq.
  destruct (dequeue_batch_refines (fc_queue f) FM_DISPATCH_BATCH Hq) as (q1 & E1 & Hok & Hi & Hc & Hs).
  unfold flow_buffer_try_dequeue_batch in E. rewrite E1 in E. simplify_eq. rewrite omap_id_some.
  eapply step_take_front; try done. by rewrite Hi, take_drop.
Qed.

Lemma step_dequeue m g f q' p i idle waited batch held pushed taken lost :
  world_ok (World (Sys m g) batch held pushed taken lost) -> flows g !! i = Some f ->
  flow_buffer_dequeue (fc_queue f) None waited = Returns (FB_OK, q', Some p, idle) ->
  world_ok (World (Sys m (with_flow_queue i q' g)) batch (held ++ [p]) pushed (taken ++ [(i, p)]) lost).
Proof.
  intros H Hf E. pose proof (mo_queue _ (wo_mgr _ H) _ _ Hf) as Hq.
  unfold flow_buffer_dequeue in E. rewrite dequeue_locked_spec in E.
  destruct (try_dequeue_cases (fc_queue f) Hq)
    as [(_ & _ & Ed)|[(_ & _ & Ed)|(x & q1 & Hi & Ed & Hok & Hc & Hs)]]; rewrite Ed in E; try done.
  simplify_eq. by apply (step_take_front m g f q' [p] i).
Qed.

(** ** Ownership changes outside the queues *)

Lemma step_memory m m' g batch held held' pushed taken lost ps :
  world_ok (World (Sys m g) batch held pushed taken lost) ->
  owned (World (Sys m g) batch held pushed taken lost) ≡ₚ
    ps ++ owned (World (Sys m' g) batch held' pushed taken lost) ->
  owns m' (owned (World (Sys m' g) batch held' pushed taken lost)) ->
  same_packets m m' (owned (World (Sys m' g) batch held' pushed taken lost)) ->
  world_ok (World (Sys m' g) batch held' pushed taken lost).
Proof.
  intros [H1 H2 H3 H4 H5 H6] Hp Ho Hs. wsimpl. split; wsimpl; try done.
  - intros i p Hin. rewrite (flow_of_same m m' _ p Hs); [by apply H4|].
    apply (pending_in_all g i p H1) in Hin. unfold owned; wsimpl. set_solver.
  - intros i Hi. specialize (H5 i Hi). unfold in_system in *; wsimpl.
    rewrite (on_flow_same m m' _ i _ Hs); [done|]. unfold owned; wsimpl. set_solver.
Qed.

Lemma owned_held m m' g batch h1 p h2 pushed taken lost :
  owned (World (Sys m g) batch (h1 ++ p :: h2) pushed taken lost) ≡ₚ
  p :: owned (World (Sys m' g) batch (h1 ++ h2) pushed taken lost).
Proof.
  unfold owned; wsimpl. rewrite !app_assoc. symmetry. apply Permutation_middle.
Qed.

Lemma step_free m m' g p h1 h2 batch pushed taken lost :
  world_ok (World (Sys m g) batch (h1 ++ p :: h2) pushed taken lost) ->
  packet_free (Some p) m = Some (tt, m') ->
  world_ok (World (Sys m' g) batch (h1 ++ h2) pushed taken lost).
Proof.
  intros H E. pose proof (wo_owns _ H) as Ho. wsimpl. rewrite (owned_held m m') in Ho.
  destruct (packet_free_owned _ _ _ Ho) as (m1 & E1 & _ & Ho1 & Hs1). rewrite E1 in E. simplify_eq.
  eapply (step_memory m m' g batch (h1 ++ p :: h2) (h1 ++ h2) pushed taken lost [p]); try done.
  apply owned_held.
Qed.

(** A flow whose metrics and pacing state change. *)
Lemma same_flow_views g i f f' :
  flows g !! i = Some f -> same_flow f f' ->
  let g' := set_flows (<[i := f']> (flows g)) g in
  forall j, queue_of g' j = queue_of g j /\ drops_of g' j = drops_of g j /\ closed_of g' j = closed_of g j.
Proof.
  intros Hf Hs g' j. destruct (same_flow_target _ _ Hs) as (Eq & Ed & _). unfold queue_of, drops_of, closed_of, g'; simpl.
  destruct (decide (j = i)) as [->|Hne]; [|by rewrite list_lookup_insert_ne].
  rewrite list_lookup_insert_eq, Hf by (by eapply lookup_lt_Some). by rewrite Eq, Ed.
Qed.

Lemma step_handle encode clock sleeps writes idle relays out m g p i f v f' s' h1 h2 batch pushed taken lost :
  world_ok (World (Sys m g) batch (h1 ++ p :: h2) pushed taken lost) ->
  flows g !! i = Some f -> target_ok (Wk m relays out) f ->
  handle_one encode clock sleeps writes f p idle (Wk m relays out) = Some (Ended (v, f'), s') ->
  world_ok (World (Sys (wk_mem s') (set_flows (<[i := f']> (flows g)) g)) batch (h1 ++ h2) pushed taken lost).
Proof.
  intros H Hf Ht E. pose proof (wo_owns _ H) as Ho. pose proof (wo_mgr _ H) as Hg. wsimpl.
  rewrite (owned_held m (wk_mem s')) in Ho.
  destruct (handle_one_rest encode (Wk m relays out) f p _ clock sleeps writes idle v f' s' Ho Ht E) as (Hsf & Ho1 & Hs1).
  assert (H1 : world_ok (World (Sys (wk_mem s') g) batch (h1 ++ h2) pushed taken lost)).
  { eapply (step_memory m (wk_mem s') g batch (h1 ++ p :: h2) (h1 ++ h2) pushed taken lost [p]); try done.
    apply owned_held. }
  pose proof (same_flow_views g i f f' Hf Hsf) as Hv. pose proof (wo_mixed _ H) as Hm. wsimpl.
  eapply step_quiet; try done.
  - apply mgr_ok_flow; [done|]. destruct (same_flow_target _ _ Hsf) as (-> & _). by apply (mo_queue _ Hg i).
  - intros j. unfold pending, deferred_of; simpl. by destruct (Hv j) as (-> & _).
  - intros j. by destruct (Hv j) as (_ & -> & _).
  - intros j. by destruct (Hv j) as (_ & _ & ->).
Qed.

(** ** Stop and wake *)

Lemma shutdown_items q : q_items (pktq_shutdown q) = q_items q.
Proof. unfold pktq_shutdown. by destruct (q_live q). Qed.

Lemma stop_lookup g i :
  flows (stop_request g) !! i =
  (fun f => set_queue f (flow_buffer_shutdown (fc_queue f))) <$> flows g !! i.
Proof. unfold stop_request; simpl. apply list_lookup_fmap. Qed.

Lemma stop_pending g i : pending (stop_request g) i = pending g i.
Proof.
  unfold pending, queue_of. rewrite stop_lookup. unfold deferred_of; simpl.
  destruct (flows g !! i); simpl; [|done]. unfold flow_buffer_shutdown. by rewrite shutdown_items.
Qed.

Lemma stop_ok g : mgr_ok g -> mgr_ok (stop_request g).
Proof.
  intros [H1 H2 H3 H4 H5 H6 H7 H8]. split; try done.
  - unfold stop_request; simpl. by rewrite length_fmap.
  - intros i f Hf. rewrite stop_lookup in Hf. destruct (flows g !! i) as [f0|] eqn:E; [|done].
    simpl in Hf. simplify_eq. simpl. by apply shutdown_refines, (H4 i).
Qed.

Lemma step_stop m g batch held pushed taken lost :
  world_ok (World (Sys m g) batch held pushed taken lost) ->
  world_ok (World (Sys m (stop_request g)) batch held pushed taken lost).
Proof.
  intros H. pose proof (wo_mixed _ H) as Hm. pose proof (wo_mgr _ H) as Hg. wsimpl.
  eapply step_quiet; try done.
  - by apply stop_ok.
  - by apply shutdown_refines.
  - apply shutdown_items.
  - apply stop_pending.
  - intros i. unfold drops_of. rewrite stop_lookup. by destruct (flows g !! i).
  - intros i. unfold closed_of. rewrite stop_lookup. destruct (flows g !! i) as [f|] eqn:E; simpl; [|done].
    unfold flow_buffer_shutdown, pktq_shutdown. by rewrite (qo_live _ (mo_queue _ Hg _ _ E)).
Qed.

Lemma wake_views g i :
  let g' := flow_manager_dispatch_wake_if_deferred g i in
  config g' = config g /\ flows g' = flows g /\ deferred g' = deferred g /\ mixed g' = mixed g /\
  (mgr_ok g -> mgr_ok g').
Proof.
  unfold flow_manager_dispatch_wake_if_deferred. repeat case_match; try done.
  split_and!; try done. intros [? ? ? ? ? ? ? ?]. by split.
Qed.

Lemma step_wake m g i batch held pushed taken lost :
  world_ok (World (Sys m g) batch held pushed taken lost) ->
  world_ok (World (Sys m (flow_manager_dispatch_wake_if_deferred g i)) batch held pushed taken lost).
Proof.
  intros H. destruct (wake_views g i) as (Ec & Ef & Ed & Em & Eok).
  pose proof (wo_mixed _ H) as Hm. pose proof (wo_mgr _ H) as Hg. wsimpl.
  eapply step_quiet; try done.
  - by apply Eok.
  - by rewrite Em.
  - by rewrite Em.
  - intros j. unfold pending, queue_of, deferred_of. by rewrite Ef, Ed.
  - intros j. unfold drops_of. by rewrite Ef.
  - intros j. unfold closed_of. by rewrite Ef.
Qed.

Lemma step_env m m' g batch held pushed taken lost :
  world_ok (World (Sys m g) batch held pushed taken lost) ->
  owns m' (owned (World (Sys m g) batch held pushed taken lost)) ->
  same_packets m m' (owned (World (Sys m g) batch held pushed taken lost)) ->
  world_ok (World (Sys m' g) batch held pushed taken lost).
Proof.
  intros H Ho Hs. by eapply (step_memory m m' g batch held held pushed taken lost []).
Qed.

(** ** Reachable worlds *)

Lemma step_ok w w' : world_ok w -> step w w' -> world_ok w'.
Proof.
  intros H Hst. destruct Hst.
  - by eapply step_push.
  - by eapply step_batch.
  - by eapply step_pop.
  - by eapply step_route.
  - by eapply step_drain.
  - by eapply step_take.
  - by eapply step_dequeue.
  - by eapply step_handle.
  - by apply step_wake.
  - by apply step_stop.
  - by eapply step_env.
Qed.

Lemma start_ok m g : fresh_manager g -> world_ok (start m g).
Proof.
  intros [H1 H2 H3 H4 H5]. split; wsimpl; try done.
  - unfold owned, all_pending; wsimpl. rewrite H3.
    assert (E : seq 0 (max_flows (config g)) ≫= pending g = []).
    { generalize (seq 0 (max_flows (config g))). induction l as [|x l IH]; [done|].
      by rewrite bind_cons, H4, IH. }
    rewrite E. split; [done|]. apply NoDup_nil_2.
  - intros i p Hp. rewrite H4 in Hp. set_solver.
  - intros i _. unfold in_system; wsimpl. rewrite H4, H3. done.
Qed.

Lemma reach_ok m g w : fresh_manager g -> rtc step (start m g) w -> world_ok w.
Proof.
  intros Hg Hr. assert (Hs : world_ok (start m g)) by (by apply start_ok).
  induction Hr as [w|w1 w2 w3 Hst _ IH]; [done|]. apply IH. by eapply step_ok.
Qed.

Lemma sublist_same_length {A} (l k : list A) : l `sublist_of` k -> length k <= length l -> l = k.
Proof.
  induction 1 as [|x l k _ IH|x l k Hs _]; simpl; intros Hl; [done|f_equal; apply IH; lia|].
  apply sublist_length in Hs. lia.
Qed.

Lemma all_but_no_loss pushed kept : all_but pushed kept [] -> pushed = kept.
Proof.
  intros [Hs Hp]. rewrite app_nil_r in Hp. symmetry. apply sublist_same_length; [done|].
  by rewrite Hp.
Qed.

(** ** A run: two packets of flow 0 through a queue of one slot

    Both are pushed, the first is queued, the second deferred, a worker takes the first, the
    dispatcher drains the second, a worker writes the first and frees it. *)

Definition p1 : ptr := Ptr 1 0.
Definition p2 : ptr := Ptr 3 0.
Definition two_packets : mem :=
  mkMem 4 {[ 1 := [mkPacket 0 ts_zero 2 (Some (Ptr 0 0)) None None];
             3 := [mkPacket 0 ts_zero 1 (Some (Ptr 2 0)) None None] ]}
        {[ 0 := [5; 6]%Z; 2 := [7]%Z ]} ∅ ∅ [].

Lemma sample_run :
  exists w, rtc step (start two_packets (s_mgr (sample_sys 0))) w /\
    w_pushed w = [(0, p1); (0, p2)] /\ w_taken w = [(0, p1)] /\ w_lost w = [] /\
    pending (w_mgr w) 0 = [p2] /\ config (w_mgr w) = sample_cfg 0 /\
    closed_of (w_mgr w) 0 = false /\ drops_of (w_mgr w) 0 = 0%Z.
Proof.
  eexists. split.
  { eapply rtc_l; [eapply (st_push _ _ _ _ _ _ _ _ p1 0); [owns_now|reflexivity|vm_compute; reflexivity]|].
    eapply rtc_l; [eapply (st_push _ _ _ _ _ _ _ _ p2 0); [owns_now|reflexivity|vm_compute; reflexivity]|].
    eapply rtc_l; [eapply st_batch; vm_compute; reflexivity|].
    eapply rtc_l; [eapply (st_route _ _ _ _ _ _ _ 0); [reflexivity|vm_compute; reflexivity]|].
    eapply rtc_l; [eapply (st_route _ _ _ _ _ _ _ 0); [reflexivity|vm_compute; reflexivity]|].
    eapply rtc_l; [eapply (st_take _ _ _ _ _ 0); [reflexivity|vm_compute; reflexivity]|].
    eapply rtc_l; [eapply (st_drain _ _ _ _ 0); [vm_compute; lia|vm_compute; reflexivity]|].
    eapply rtc_l; [eapply (st_handle no_encode None [] [WrCount 1; WrEintr; WrCount 1] false ∅ [] _ _ p1 0 _ _ _ _ [] []);
      [reflexivity|vm_compute; reflexivity|exact I|vm_compute; reflexivity]|].
    apply rtc_refl. }
  split_and!; vm_compute; reflexivity.
Qed.

(** ** Properties *)

(** C1: per-flow order and accounting under every interleaving of producers, dispatcher,
    workers and stop.  In every reachable state the packets of a flow that workers have taken,
    followed by those in its queue, in its deferred ring, in the dispatcher's batch and in the
    mixed queue, are the packets pushed for that flow in push order with some left out: nothing
    is reordered or duplicated.  The packets left out are exactly those the dispatcher freed,
    and while the flow's queue is open their number is the flow's overflow counter. *)
Theorem flow_order_preserved m g w i :
  fresh_manager g -> rtc step (start m g) w -> i < max_flows (config (w_mgr w)) ->
  let kept := proj i (w_taken w) ++ in_system w i in
  kept `sublist_of` proj i (w_pushed w) /\
  proj i (w_pushed w) ≡ₚ kept ++ proj i (w_lost w) /\
  (closed_of (w_mgr w) i = false ->
     drops_of (w_mgr w) i = u64 (Z.of_nat (length (proj i (w_lost w))))).
Proof.
  intros Hg Hr Hi kept. pose proof (reach_ok m g w Hg Hr) as H.
  destruct (wo_order _ H i Hi) as [Hs Hp]. split; [done|]. split; [done|]. by apply (wo_drops _ H).
Qed.

Lemma flow_order_preserved_witness :
  exists w, rtc step (start two_packets (s_mgr (sample_sys 0))) w /\ w_taken w = [(0, p1)] /\
    proj 0 (w_taken w) ++ in_system w 0 `sublist_of` proj 0 (w_pushed w) /\
    proj 0 (w_pushed w) ≡ₚ (proj 0 (w_taken w) ++ in_system w 0) ++ proj 0 (w_lost w) /\
    (closed_of (w_mgr w) 0 = false ->
       drops_of (w_mgr w) 0 = u64 (Z.of_nat (length (proj 0 (w_lost w))))).
Proof.
  destruct sample_run as (w & Hr & _ & Ht & _ & _ & Hc & _ & _). exists w. split; [done|]. split; [done|].
  apply (flow_order_preserved two_packets (s_mgr (sample_sys 0)) w 0).
  - apply sample_fresh.
  - exact Hr.
  - rewrite Hc. simpl. lia.
Defined.

(** Lossless delivery.  While the flow is open and its overflow counter is zero, what the
    workers of the flow took is a prefix of what was pushed for it, and the rest is still in
    the system, in order. *)
Theorem flow_delivery_lossless m g w i :
  fresh_manager g -> rtc step (start m g) w -> i < max_flows (config (w_mgr w)) ->
  closed_of (w_mgr w) i = false -> drops_of (w_mgr w) i = 0%Z ->
  (Z.of_nat (length (w_pushed w)) < 2 ^ 64)%Z ->
  proj i (w_pushed w) = proj i (w_taken w) ++ in_system w i.
Proof.
  intros Hg Hr Hi Hc Hd Hlen. pose proof (reach_ok m g w Hg Hr) as H.
  pose proof (wo_order _ H i Hi) as Ho. pose proof (wo_drops _ H i Hi Hc) as Hn. rewrite Hd in Hn.
  assert (Hle : length (proj i (w_lost w)) <= length (w_pushed w)).
  { destruct Ho as [_ Hp]. apply Permutation_length in Hp. rewrite length_app in Hp.
    assert (length (proj i (w_pushed w)) <= length (w_pushed w)).
    { unfold proj. rewrite length_fmap. apply length_filter. }
    lia. }
  rewrite u64_small in Hn by (unfold in_range; lia).
  assert (Hz : proj i (w_lost w) = []) by (apply length_zero_iff_nil; lia).
  rewrite Hz in Ho. by apply all_but_no_loss.
Qed.

Lemma flow_delivery_lossless_witness :
  exists w, rtc step (start two_packets (s_mgr (sample_sys 0))) w /\
    proj 0 (w_pushed w) = proj 0 (w_taken w) ++ in_system w 0.
Proof.
  destruct sample_run as (w & Hr & Hp & _ & _ & _ & Hc & Hcl & Hd). exists w. split; [done|].
  apply (flow_delivery_lossless two_packets (s_mgr (sample_sys 0)) w 0).
  - apply sample_fresh.
  - exact Hr.
  - rewrite Hc. simpl. lia.
  - exact Hcl.
  - exact Hd.
  - rewrite Hp. simpl. lia.
Defined.

(** What the memory of a reachable state allows: the packets held by the queues, the rings, the
    dispatcher and the workers are pairwise different and each is live ([owns]); the dispatcher's
    next steps are defined; and a worker's [handle_one] on a packet it holds is defined and has one
    of the outcomes [consumed], with the other packets [rest] owned as before. *)
Definition memory_safe (w : world) : Prop :=
  NoDup (owned w) /\ owns (w_mem w) (owned w) /\
  (forall p ps, w_batch w = p :: ps -> route_packet p (w_sys w) <> None) /\
  (forall i, i < max_flows (config (w_mgr w)) -> drain_one i (w_sys w) <> None) /\
  drain_deferred (w_sys w) <> None /\
  (forall encode clock sleeps writes idle relays out p rest d i f,
     p ∈ w_held w -> owned w ≡ₚ p :: rest -> lookup_pkt (w_mem w) p = Some d -> readable (w_mem w) d ->
     flows (w_mgr w) !! i = Some f -> target_ok (Wk (w_mem w) relays out) f ->
     exists r s', handle_one encode clock sleeps writes f p idle (Wk (w_mem w) relays out) = Some (r, s') /\
       consumed (Wk (w_mem w) relays out) s' f p rest r /\ owns (wk_mem s') rest).

Lemma owns_nodup m ps : owns m ps -> NoDup ps.
Proof.
  induction ps as [|p ps IH]; intros H; [apply NoDup_nil_2|]. apply list.NoDup_cons.
  split; [by eapply owns_not_in|]. apply IH. by eapply owns_cons.
Qed.

Lemma worker_safe w encode clock sleeps writes idle relays out p rest d (f : FlowContext) :
  world_ok w -> owned w ≡ₚ p :: rest -> lookup_pkt (w_mem w) p = Some d -> readable (w_mem w) d ->
  target_ok (Wk (w_mem w) relays out) f ->
  exists r s', handle_one encode clock sleeps writes f p idle (Wk (w_mem w) relays out) = Some (r, s') /\
    consumed (Wk (w_mem w) relays out) s' f p rest r /\ owns (wk_mem s') rest.
Proof.
  intros H Hp Hd Hr Ht. pose proof (wo_owns _ H) as Ho. rewrite Hp in Ho.
  destruct (handle_one_disposes_once encode (Wk (w_mem w) relays out) f p rest d clock sleeps writes idle Ho Hd Hr Ht)
    as (r & s' & E & Hc).
  exists r, s'. split; [done|]. split; [done|]. destruct r as [[v f']| |].
  - by destruct (handle_one_rest encode (Wk (w_mem w) relays out) f p rest clock sleeps writes idle v f' s' Ho Ht E) as (_ & ? & _).
  - by eapply owns_cons, Hc.
  - by eapply owns_cons, Hc.
Qed.

(** C22: memory safety of packet hand-over, with the workers' [handle_one] as a step of the
    system.  In every reachable state the packets held by the mixed queue, the dispatcher, the flow
    queues, the deferred rings and the workers are pairwise different; each is allocated, or, if it
    belongs to a pool, handed out and not on the pool's free stack, and no two share anything that
    [packet_free] gives back.  Routing, draining and, for a packet a worker holds, [handle_one] are
    defined; when [handle_one] returns, the packet has been freed by exactly one [packet_free] or is
    the last element of the relay queue, and all other packets are owned as before.  The flow's relay
    queue, if it has one, is assumed to be live, and the payload to be readable. *)
Theorem dispatcher_memory_safe m g w :
  fresh_manager g -> rtc step (start m g) w -> memory_safe w.
Proof.
  intros Hg Hr. pose proof (reach_ok m g w Hg Hr) as H.
  assert (Hw : forall encode clock sleeps writes idle relays out p rest d i f,
     p ∈ w_held w -> owned w ≡ₚ p :: rest -> lookup_pkt (w_mem w) p = Some d -> readable (w_mem w) d ->
     flows (w_mgr w) !! i = Some f -> target_ok (Wk (w_mem w) relays out) f ->
     exists r s', handle_one encode clock sleeps writes f p idle (Wk (w_mem w) relays out) = Some (r, s') /\
       consumed (Wk (w_mem w) relays out) s' f p rest r /\ owns (wk_mem s') rest).
  { intros. by eapply worker_safe. }
  destruct w as [[m1 g1] batch held pushed taken lost]. pose proof H as [H1 H2 H3 H4 H5 H6]. unfold memory_safe; wsimpl.
  pose proof (fun i => pending_live _ i H) as Hl. wsimpl. split_and!; [by eapply owns_nodup|done| | | |done].
  - intros p ps ->. rewrite owned_front in H3. destruct (owns_cons _ _ _ H3) as [(d & Hd & _) _].
    destruct (route_packet_spec m1 g1 p _ d H1 H3 Hd) as (? & ? & ? & ? & -> & _). done.
  - intros i Hi. pose proof (drain_one_spec m1 g1 i H1 Hi (Hl i)) as Hs.
    destruct (deferred_of g1 i); [by rewrite Hs|]. case_decide; [|by rewrite Hs].
    by destruct Hs as (? & -> & _).
  - destruct (drain_deferred_spec m1 g1 H1 Hl) as (? & ? & -> & _). done.
Qed.

Lemma dispatcher_memory_safe_witness :
  exists w, rtc step (start two_packets (s_mgr (sample_sys 0))) w /\ w_taken w = [(0, p1)] /\ memory_safe w.
Proof.
  destruct sample_run as (w & Hr & _ & Ht & _). exists w. split; [done|]. split; [done|].
  apply (dispatcher_memory_safe two_packets (s_mgr (sample_sys 0)) w).
  - apply sample_fresh.
  - exact Hr.
Defined.

(** A state of the run above with a packet deferred behind a queue that has room again. *)
Lemma sample_deferred :
  exists w, rtc step (start two_packets (s_mgr (sample_sys 0))) w /\
    deferred_of (w_mgr w) 0 = [p2] /\ room (w_mgr w) 0 = 1.
Proof.
  eexists. split.
  { eapply rtc_l; [eapply (st_push _ _ _ _ _ _ _ _ p1 0); [owns_now|reflexivity|vm_compute; reflexivity]|].
    eapply rtc_l; [eapply (st_push _ _ _ _ _ _ _ _ p2 0); [owns_now|reflexivity|vm_compute; reflexivity]|].
    eapply rtc_l; [eapply st_batch; vm_compute; reflexivity|].
    eapply rtc_l; [eapply (st_route _ _ _ _ _ _ _ 0); [reflexivity|vm_compute; reflexivity]|].
    eapply rtc_l; [eapply (st_route _ _ _ _ _ _ _ 0); [reflexivity|vm_compute; reflexivity]|].
    eapply rtc_l; [eapply (st_take _ _ _ _ _ 0); [reflexivity|vm_compute; reflexivity]|].
    apply rtc_refl. }
  split_and!; vm_compute; reflexivity.
Qed.

(** One pass of [drain_deferred] is fair and its bookkeeping exact.  In every reachable
    state the pass moves, for every flow and wherever the round-robin cursor is, the oldest
    min(8, deferred, free slots) deferred packets to the flow's queue, in order; it reports
    progress exactly when it moved something; and afterwards the total and the activity mask
    agree with the rings. *)
Theorem drain_pass_fair m g w :
  fresh_manager g -> rtc step (start m g) w ->
  exists b g', drain_deferred (w_sys w) = Some (b, Sys (w_mem w) g') /\
    (forall i, let k := quota_move FM_DEFERRED_QUOTA (w_mgr w) i in
       queue_of g' i = queue_of (w_mgr w) i ++ take k (deferred_of (w_mgr w) i) /\
       deferred_of g' i = drop k (deferred_of (w_mgr w) i)) /\
    (b = true <-> exists i, 0 < quota_move FM_DEFERRED_QUOTA (w_mgr w) i) /\
    deferred_total_count g' = Z.of_nat (sum_list (r_count <$> deferred g')) /\
    (forall i, i < 64 -> Z.testbit (deferred_active_bits g') (Z.of_nat i) = bool_decide (deferred_of g' i <> [])).
Proof.
  intros Hg Hr. pose proof (reach_ok m g w Hg Hr) as H.
  destruct w as [[m1 g1] batch held pushed taken lost]. pose proof (wo_mgr _ H) as H1.
  pose proof (fun i => pending_live _ i H) as Hl. wsimpl.
  destruct (drain_deferred_spec m1 g1 H1 Hl) as (b & g' & E & H' & Hd & _ & Hb).
  exists b, g'. split; [done|]. split; [exact Hd|]. split; [done|].
  split; [apply (mo_total _ H')|apply (mo_bits _ H')].
Qed.

Lemma drain_pass_fair_witness :
  exists w, rtc step (start two_packets (s_mgr (sample_sys 0))) w /\ deferred_of (w_mgr w) 0 = [p2] /\
  exists b g', drain_deferred (w_sys w) = Some (b, Sys (w_mem w) g') /\
    (forall i, let k := quota_move FM_DEFERRED_QUOTA (w_mgr w) i in
       queue_of g' i = queue_of (w_mgr w) i ++ take k (deferred_of (w_mgr w) i) /\
       deferred_of g' i = drop k (deferred_of (w_mgr w) i)) /\
    (b = true <-> exists i, 0 < quota_move FM_DEFERRED_QUOTA (w_mgr w) i) /\
    deferred_total_count g' = Z.of_nat (sum_list (r_count <$> deferred g')) /\
    (forall i, i < 64 -> Z.testbit (deferred_active_bits g') (Z.of_nat i) = bool_decide (deferred_of g' i <> [])).
Proof.
  destruct sample_deferred as (w & Hr & Hd & _). exists w. split; [done|]. split; [done|].
  apply (drain_pass_fair two_packets (s_mgr (sample_sys 0)) w).
  - apply sample_fresh.
  - exact Hr.
Defined.
