(* ===== verification/DispatcherLoop.v ===== *)
(** * The dispatcher thread and its wake-ups: [dispatcher_thread] of src/src/dispatcher.c

    The thread as a machine whose steps are the code between two accesses to shared state, with
    the loop of [drain_deferred] cut at every [flow_buffer_try_enqueue].  [dispatcher_step]
    either moves to the next program point or reports that the thread waits there.  The
    interleaving with producers and workers shows that no wake-up of the dispatcher is lost. *)

From S2P Require Import Prelude TimeUtils Ring Packet PktQueue FlowBuffer MixedQueue Ownership.
From S2P Require Import FlowContext Dispatcher DispatcherSpec FlowManager FlowManagerSpec FlowWorker System.

(** Where a call of [drain_deferred] returns to: the top of the loop body, the retry after the
    snapshot of the wake generation, or the end of the thread. *)
Inductive drain_site := AfterTop | AfterSnap (wake_seen : Z) | AfterLoop.

Inductive dpc :=
  | DTop
  | DDrain (site : drain_site) (active : Z) (start examined quota : nat) (progress : bool)
  | DPop (progress : bool)
  | DRoute (batch : list ptr)
  | DSnap
  | DWait (wake_seen : Z)
  | DPopWait
  | DExit.

Definition drain_return (site : drain_site) (progress : bool) : dpc :=
  match site with
  | AfterTop => DPop progress
  | AfterSnap seen => if progress then DTop else DWait seen
  | AfterLoop => DExit
  end.

Definition drain_enter (site : drain_site) (g : FlowManager) : dpc :=
  if (length (deferred g) =? 0)%nat || (max_flows (config g) =? 0)%nat then drain_return site false
  else if (deferred_active_bits g =? 0)%Z && (flow_manager_deferred_total g =? 0)%Z
  then drain_return site false
  else DDrain site (deferred_active_bits g) (deferred_rr_cursor g mod max_flows (config g)) 0
         FM_DEFERRED_QUOTA false.

(** One turn of the loops of [drain_deferred]. *)
Definition drain_turn (site : drain_site) (active : Z) (start examined quota : nat) (progress : bool) : M dpc :=
  g ← get_mgr;
  let n := max_flows (config g) in
  if (n <=? examined)%nat then
    _ ← upd_mgr (set_cursor ((start + 1) mod n)); mret (drain_return site progress)
  else
    let i := (start + examined) mod n in
    let next := DDrain site active start (S examined) FM_DEFERRED_QUOTA progress in
    dq ← the (deferred g !! i);
    if (i <? 64)%nat && negb (Z.testbit active (Z.of_nat i)) && (r_count dq =? 0)%nat then mret next
    else match quota with
         | O => mret next
         | S quota' =>
             moved ← drain_one i;
             if moved : bool then mret (DDrain site active start examined quota' true) else mret next
         end.

Definition dispatcher_step (pc : dpc) : M (outcome dpc) :=
  g ← get_mgr;
  match pc with
  | DTop => mret (Returns (drain_enter (if flow_manager_is_running g then AfterTop else AfterLoop) g))
  | DDrain site active start examined quota progress =>
      pc' ← drain_turn site active start examined quota progress; mret (Returns pc')
  | DPop progress =>
      let '(xs, q', saw_shutdown) := mixed_queue_try_pop_batch (mixed g) FM_DISPATCH_BATCH in
      _ ← upd_mgr (set_mixed q');
      mret (Returns
        (if saw_shutdown && (length xs =? 0)%nat then drain_enter AfterLoop (set_mixed q' g)
         else if (0 <? length xs)%nat then DRoute (omap id xs)
         else if progress then DTop
         else if negb (flow_manager_is_running g) then drain_enter AfterLoop (set_mixed q' g)
         else if (flow_manager_deferred_total g >? 0)%Z then DSnap
         else DPopWait))
  | DRoute [] => mret (Returns DTop)
  | DRoute (p :: ps) => _ ← route_packet p; mret (Returns (DRoute ps))
  | DSnap => mret (Returns (drain_enter (AfterSnap (dispatch_wake_gen g)) g))
  | DWait seen =>
      if flow_manager_is_running g && (flow_manager_deferred_total g >? 0)%Z && (dispatch_wake_gen g =? seen)%Z
      then mret Blocks else mret (Returns DTop)
  | DPopWait =>
      match mixed_queue_pop (mixed g) None with
      | Blocks => mret Blocks
      | Returns (st, q', pkt) =>
          _ ← upd_mgr (set_mixed q');
          match st, pkt with
          | MQ_ERR_SHUTDOWN, _ => mret (Returns (drain_enter AfterLoop (set_mixed q' g)))
          | MQ_OK, Some p => mret (Returns (DRoute [p]))
          | _, _ => mret (Returns DTop)
          end
      end
  | DExit => mret (Returns DExit)
  end.

Definition batch_of (pc : dpc) : list ptr := match pc with DRoute b => b | _ => [] end.

(** ** The system around it

    [d_waking] lists the workers that have dequeued and not yet called
    [flow_manager_dispatch_wake_if_deferred]; [d_wakes] counts the wake generations. *)
Record dsys := DSys { d_sys : sys; d_pc : dpc; d_held : list ptr; d_waking : list nat; d_wakes : nat }.

Definition d_mgr (d : dsys) : FlowManager := s_mgr (d_sys d).

Definition bump (g g' : FlowManager) : nat := if (dispatch_wake_gen g' =? dispatch_wake_gen g)%Z then 0 else 1.

Inductive dstep : dsys -> dsys -> Prop :=
  | ds_dispatcher s s' pc pc' held waking wakes :
      dispatcher_step pc s = Some (Returns pc', s') ->
      dstep (DSys s pc held waking wakes) (DSys s' pc' held waking wakes)
  | ds_push m g g' pc held waking wakes p :
      owns m (p :: owned (World (Sys m g) (batch_of pc) held [] [] [])) ->
      flow_manager_push g (Some p) = Returns (FM_OK, g', None) ->
      dstep (DSys (Sys m g) pc held waking wakes) (DSys (Sys m g') pc held waking wakes)
  (* worker [i] dequeues; handle_one wakes the dispatcher before anything else *)
  | ds_take m g f q' xs i pc held waking wakes :
      flows g !! i = Some f ->
      flow_buffer_try_dequeue_batch (fc_queue f) FM_DISPATCH_BATCH = (xs, q') ->
      dstep (DSys (Sys m g) pc held waking wakes)
            (DSys (Sys m (with_flow_queue i q' g)) pc (held ++ omap id xs)
               (if (0 <? length xs)%nat then i :: waking else waking) wakes)
  | ds_dequeue m g f q' p i idle waited pc held waking wakes :
      flows g !! i = Some f ->
      flow_buffer_dequeue (fc_queue f) None waited = Returns (FB_OK, q', Some p, idle) ->
      dstep (DSys (Sys m g) pc held waking wakes)
            (DSys (Sys m (with_flow_queue i q' g)) pc (held ++ [p]) (i :: waking) wakes)
  | ds_wake m g i w1 w2 pc held wakes :
      dstep (DSys (Sys m g) pc held (w1 ++ i :: w2) wakes)
            (DSys (Sys m (flow_manager_dispatch_wake_if_deferred g i)) pc held (w1 ++ w2)
               (wakes + bump g (flow_manager_dispatch_wake_if_deferred g i)))
  | ds_free m m' g p h1 h2 pc waking wakes :
      packet_free (Some p) m = Some (tt, m') ->
      dstep (DSys (Sys m g) pc (h1 ++ p :: h2) waking wakes) (DSys (Sys m' g) pc (h1 ++ h2) waking wakes)
  | ds_stop m g pc held waking wakes :
      dstep (DSys (Sys m g) pc held waking wakes) (DSys (Sys m (stop_request g)) pc held waking (wakes + 1)).

Definition dstart (m : mem) (g : FlowManager) : dsys := DSys (Sys m g) DTop [] [] 0.

(** ** Ownership along the machine, from System.v *)

Definition safe (d : dsys) : Prop :=
  exists pushed taken lost, world_ok (World (d_sys d) (batch_of (d_pc d)) (d_held d) pushed taken lost).

Lemma batch_return site b : batch_of (drain_return site b) = [].
Proof. by destruct site, b. Qed.

Lemma batch_enter site g : batch_of (drain_enter site g) = [].
Proof. unfold drain_enter. repeat case_match; try apply batch_return. done. Qed.

Lemma cursor_ok m g n batch held pushed taken lost :
  world_ok (World (Sys m g) batch held pushed taken lost) ->
  world_ok (World (Sys m (set_cursor n g)) batch held pushed taken lost).
Proof.
  intros H. eapply step_quiet; try done; [apply mgr_ok_cursor; apply (wo_mgr _ H)|apply (wo_mixed _ H)].
Qed.

Lemma drain_turn_safe m g site active st e q b pc' s' held pushed taken lost :
  world_ok (World (Sys m g) [] held pushed taken lost) ->
  drain_turn site active st e q b (Sys m g) = Some (pc', s') ->
  world_ok (World s' [] held pushed taken lost) /\ batch_of pc' = [].
Proof.
  intros H. unfold drain_turn. run_M.
  destruct (Nat.leb_spec (max_flows (config g)) e) as [_|He].
  { intros E. simplify_eq. split; [by apply cursor_ok|apply batch_return]. }
  set (i := (st + e) mod max_flows (config g)). pose proof (mo_pos _ (wo_mgr _ H)) as Hpos. wsimpl.
  destruct (deferred g !! i) as [dq|]; [|done]. case_match; [intros E; by simplify_eq|].
  destruct q as [|q]; [intros E; by simplify_eq|].
  destruct (drain_one i (Sys m g)) as [[moved s1]|] eqn:Ed; [|done].
  intros E. assert (Hi : i < max_flows (config g)) by (apply Nat.mod_upper_bound; lia).
  pose proof (step_drain m g s1 moved i [] held pushed taken lost H Hi Ed) as H1.
  destruct moved; by simplify_eq.
Qed.

Lemma owned_flow m p ps : owns m (p :: ps) -> exists i, flow_of m p = Some i.
Proof. intros H. destruct (owns_cons _ _ _ H) as [(d & Hd & _) _]. unfold flow_of. rewrite Hd. by eexists. Qed.

Lemma dispatcher_step_safe s s' pc pc' held waking wakes :
  safe (DSys s pc held waking wakes) -> dispatcher_step pc s = Some (Returns pc', s') ->
  safe (DSys s' pc' held waking wakes).
Proof.
  destruct s as [m g]. intros (pushed & taken & lost & H) E. cbn [d_sys d_pc d_held] in H.
  unfold safe; cbn [d_sys d_pc d_held]. unfold dispatcher_step in E. revert E. run_M.
  destruct pc as [|site active st e q b|b|[|p ps]| |seen| |].
  - intros E. simplify_eq. exists pushed, taken, lost. by rewrite batch_enter.
  - destruct (drain_turn site active st e q b (Sys m g)) as [[pc1 s1]|] eqn:E1; [|done].
    intros E. simplify_eq. destruct (drain_turn_safe _ _ _ _ _ _ _ _ _ _ _ _ _ _ H E1) as [H1 Hb].
    exists pushed, taken, lost. by rewrite Hb.
  - destruct (mixed_queue_try_pop_batch (mixed g) FM_DISPATCH_BATCH) as [[xs q'] sd] eqn:Eb.
    pose proof (step_batch _ _ _ _ _ _ _ _ _ H Eb) as H1. intros E. simplify_eq.
    exists pushed, taken, lost. cbn [s_mem s_mgr].
    destruct xs as [|x xs]; simpl length in *; [|by rewrite andb_false_r].
    cbn [Nat.eqb Nat.ltb Nat.leb]. repeat case_match; rewrite ?batch_enter; done.
  - intros E. simplify_eq. by exists pushed, taken, lost.
  - destruct (route_packet p (Sys m g)) as [[ok [m1 g1]]|] eqn:Er; [|done]. intros E. simplify_eq.
    pose proof (wo_owns _ H) as Ho. wsimpl. rewrite owned_front in Ho.
    destruct (owned_flow _ _ _ Ho) as [i Hi].
    eexists _, _, _. exact (step_route _ _ _ _ _ _ _ _ _ _ _ _ H Hi Er).
  - intros E. simplify_eq. exists pushed, taken, lost. by rewrite batch_enter.
  - intros E. exists pushed, taken, lost. case_match; by simplify_eq.
  - pose proof (mq_pop_spec (mixed g) (wo_mixed _ H)) as Hs. wsimpl.
    destruct (mixed_queue_pop (mixed g) None) as [[[mst q'] cell]|] eqn:Ep; [|done].
    destruct Hs as [(-> & x & -> & _)|(-> & -> & -> & _)]; intros E; simplify_eq; exists pushed, taken, lost.
    + exact (step_pop _ _ _ _ _ _ _ _ H Ep).
    + rewrite batch_enter. assert (Eg : set_mixed (mixed g) g = g) by (by destruct g). cbn [s_mem s_mgr]. by rewrite Eg.
  - intros E. simplify_eq. by exists pushed, taken, lost.
Qed.

Lemma dstep_safe d d' : safe d -> dstep d d' -> safe d'.
Proof.
  intros Hs Hst.
  destruct Hst as [? ? ? ? ? ? ? Hd|? ? ? ? ? ? ? p Ho Hp|? ? ? ? ? ? ? ? ? ? Hf Ht|? ? ? ? ? ? ? ? ? ? ? ? Hf Ht
    |?|? ? ? ? ? ? ? ? ? Hfr|?]; [by eapply dispatcher_step_safe| | | | | |];
    destruct Hs as (pushed & taken & lost & H); cbn [d_sys d_pc d_held] in H; unfold safe; cbn [d_sys d_pc d_held].
  - destruct (owned_flow _ _ _ Ho) as [i Hi]. eexists _, _, _. eapply step_push; [exact H|exact Ho|exact Hi|done].
  - eexists _, _, _. by eapply step_take.
  - eexists _, _, _. by eapply step_dequeue.
  - eexists _, _, _. by apply step_wake.
  - eexists _, _, _. by eapply step_free.
  - eexists _, _, _. by apply step_stop.
Qed.

(** ** No wake-up is lost *)

(** A flow gives the dispatcher nothing to do, or its worker is about to signal, or a signal has
    come since the snapshot. *)
Definition settled (d : dsys) (seen : Z) (i : nat) : Prop :=
  deferred_of (d_mgr d) i = [] \/ room (d_mgr d) i = 0 \/ (i ∈ d_waking d) \/
  (seen < dispatch_wake_gen (d_mgr d))%Z.

(** What the dispatcher knows at each program point after the snapshot. *)
Definition knows (d : dsys) : Prop :=
  match d_pc d with
  | DDrain (AfterSnap seen) _ start examined quota false =>
      (seen <= dispatch_wake_gen (d_mgr d))%Z /\ 0 < quota /\
      forall e, e < examined -> settled d seen ((start + e) mod max_flows (config (d_mgr d)))
  | DWait seen => (seen <= dispatch_wake_gen (d_mgr d))%Z /\ forall i, settled d seen i
  | _ => True
  end.

(** While fewer than 2^64 wake-ups have happened, the generation is their number. *)
Definition wake_inv (d : dsys) : Prop :=
  (Z.of_nat (d_wakes d) < 2 ^ 64)%Z -> dispatch_wake_gen (d_mgr d) = Z.of_nat (d_wakes d) /\ knows d.

(** A step of another thread: what it may change and what it must not. *)
Lemma settled_mono d d' seen i :
  settled d seen i ->
  (deferred_of (d_mgr d) i = [] -> deferred_of (d_mgr d') i = []) ->
  (room (d_mgr d) i = 0 -> room (d_mgr d') i = 0 \/ (i ∈ d_waking d')) ->
  ((i ∈ d_waking d) -> (i ∈ d_waking d') \/ deferred_of (d_mgr d') i = [] \/
                       (dispatch_wake_gen (d_mgr d) < dispatch_wake_gen (d_mgr d'))%Z) ->
  (seen <= dispatch_wake_gen (d_mgr d))%Z ->
  (dispatch_wake_gen (d_mgr d) <= dispatch_wake_gen (d_mgr d'))%Z ->
  settled d' seen i.
Proof.
  intros Hs H1 H2 H3 H4 H5. unfold settled in *. destruct Hs as [Hs|[Hs|[Hs|Hs]]].
  - by left; apply H1.
  - destruct (H2 Hs); auto.
  - destruct (H3 Hs) as [?|[?|?]]; auto. right; right; right. lia.
  - right; right; right. lia.
Qed.

(** The same program point, seen from another thread's step. *)
Lemma knows_mono d d' :
  knows d -> d_pc d' = d_pc d -> config (d_mgr d') = config (d_mgr d) ->
  (forall i, deferred_of (d_mgr d) i = [] -> deferred_of (d_mgr d') i = []) ->
  (forall i, room (d_mgr d) i = 0 -> room (d_mgr d') i = 0 \/ (i ∈ d_waking d')) ->
  (forall i, (i ∈ d_waking d) -> (i ∈ d_waking d') \/ deferred_of (d_mgr d') i = [] \/
                       (dispatch_wake_gen (d_mgr d) < dispatch_wake_gen (d_mgr d'))%Z) ->
  (dispatch_wake_gen (d_mgr d) <= dispatch_wake_gen (d_mgr d'))%Z ->
  knows d'.
Proof.
  intros Hk Hpc Hc H1 H2 H3 H4. unfold knows in *. rewrite Hpc.
  destruct (d_pc d) as [|[|seen|] ? ? ? ? []|?|?| |seen| |]; try done.
  - destruct Hk as (Hle & Hq & Hk). split; [lia|]. split; [done|]. rewrite Hc.
    intros e He. eapply settled_mono; eauto.
  - destruct Hk as [Hle Hk]. split; [lia|]. intros i. eapply settled_mono; eauto.
Qed.

(** ** Each step keeps what the dispatcher knows *)

Lemma knows_enter s site held waking wakes :
  mgr_ok (s_mgr s) -> site = AfterTop \/ site = AfterLoop \/ site = AfterSnap (dispatch_wake_gen (s_mgr s)) ->
  knows (DSys s (drain_enter site (s_mgr s)) held waking wakes).
Proof.
  intros Hg Hsite. set (g := s_mgr s) in *. unfold drain_enter.
  assert (Hret : (forall i, deferred_of g i = []) -> knows (DSys s (drain_return site false) held waking wakes)).
  { intros Hd. destruct Hsite as [->|[->| ->]]; try done. split; [apply Z.le_refl|]. intros i. left. apply Hd. }
  destruct (Nat.eqb_spec (length (deferred g)) 0) as [E|_]; [rewrite (mo_deferred _ Hg) in E; pose proof (mo_pos _ Hg); lia|].
  destruct (Nat.eqb_spec (max_flows (config g)) 0) as [E|_]; [pose proof (mo_pos _ Hg); lia|]. cbn [orb].
  destruct ((deferred_active_bits g =? 0)%Z && (flow_manager_deferred_total g =? 0)%Z) eqn:Et.
  - apply Hret. intros i. apply sum_zero_empty; [done|]. apply andb_prop in Et as [_ Et%Z.eqb_eq].
    unfold flow_manager_deferred_total in Et. rewrite (mo_total _ Hg) in Et. lia.
  - destruct Hsite as [->|[->| ->]]; try done. split; [apply Z.le_refl|].
    split; [unfold FM_DEFERRED_QUOTA; lia|]. intros e He. lia.
Qed.

Lemma knows_return_other s site b held waking wakes :
  (forall seen, site <> AfterSnap seen) \/ b = true -> knows (DSys s (drain_return site b) held waking wakes).
Proof. intros H. destruct site as [|seen|], b; try done. destruct H as [H|H]; [by destruct (H seen)|done]. Qed.

(** A turn of the drain after the snapshot that has moved nothing so far. *)
Lemma knows_turn m g seen active st e q held waking wakes pc' s' :
  mgr_ok g -> (forall i, live_pkts m (deferred_of g i)) ->
  knows (DSys (Sys m g) (DDrain (AfterSnap seen) active st e q false) held waking wakes) ->
  drain_turn (AfterSnap seen) active st e q false (Sys m g) = Some (pc', s') ->
  knows (DSys s' pc' held waking wakes).
Proof.
  intros Hg Hl (Hle & Hq & Hk). unfold d_mgr in *; cbn [d_sys s_mgr] in *. pose proof (mo_pos _ Hg) as Hpos.
  unfold drain_turn. run_M. destruct (Nat.leb_spec (max_flows (config g)) e) as [He|He].
  { intros E. simplify_eq. split; [done|]. intros i. destruct (decide (i < max_flows (config g))) as [Hi|Hi].
    - destruct (visit_all (max_flows (config g)) st i Hpos Hi) as (e' & He' & <-). apply Hk. lia.
    - left. apply (deferred_of_out g i Hg). lia. }
  set (i := (st + e) mod max_flows (config g)).
  assert (Hi : i < max_flows (config g)) by (apply Nat.mod_upper_bound; lia).
  assert (Hnext : settled (DSys (Sys m g) DTop held waking wakes) seen i ->
    knows (DSys (Sys m g) (DDrain (AfterSnap seen) active st (S e) FM_DEFERRED_QUOTA false) held waking wakes)).
  { intros Hs. split; [done|]. split; [unfold FM_DEFERRED_QUOTA; lia|]. intros e' He'.
    destruct (decide (e' = e)) as [->|]; [exact Hs|]. apply Hk. lia. }
  destruct (deferred_lookup g i Hg Hi) as [dq Hdq]. rewrite Hdq.
  destruct ((i <? 64)%nat && negb (Z.testbit active (Z.of_nat i)) && (r_count dq =? 0)%nat) eqn:Es.
  { intros E. simplify_eq. apply Hnext. left. apply andb_prop in Es as [_ Ez%Nat.eqb_eq].
    unfold deferred_of, d_mgr; simpl. rewrite Hdq. apply length_zero_iff_nil.
    by rewrite <- (dq_count _ _ (mo_ring _ Hg _ _ Hdq)). }
  destruct q as [|q]; [lia|]. pose proof (drain_one_spec m g i Hg Hi (Hl i)) as Hone.
  destruct (deferred_of g i) as [|p ps] eqn:Ed.
  { rewrite Hone. intros E. simplify_eq. apply Hnext. left. exact Ed. }
  destruct (decide (0 < room g i)) as [Hr|Hr].
  - destruct Hone as (g' & -> & _). intros E. by simplify_eq.
  - rewrite Hone. intros E. simplify_eq. apply Hnext. right; left. unfold d_mgr; simpl. lia.
Qed.

Lemma dispatcher_step_gen pc m g pc' s' held pushed taken lost :
  world_ok (World (Sys m g) (batch_of pc) held pushed taken lost) ->
  dispatcher_step pc (Sys m g) = Some (Returns pc', s') ->
  dispatch_wake_gen (s_mgr s') = dispatch_wake_gen g.
Proof.
  intros H. unfold dispatcher_step. run_M. destruct pc as [|site active st e q b|b|[|p ps]| |seen| |].
  1,4,6,7,9: intros E; repeat case_match; by simplify_eq.
  - destruct (drain_turn site active st e q b (Sys m g)) as [[pc1 s1]|] eqn:E1; [|done]. intros E. simplify_eq.
    revert E1. unfold drain_turn. run_M. destruct (Nat.leb_spec (max_flows (config g)) e) as [_|He]; [intros E; by simplify_eq|].
    set (i := (st + e) mod max_flows (config g)). pose proof (wo_mgr _ H) as Hg. pose proof (pending_live _ i H) as Hl. wsimpl.
    pose proof (mo_pos _ Hg) as Hpos. assert (Hi : i < max_flows (config g)) by (apply Nat.mod_upper_bound; lia).
    destruct (deferred g !! i) as [dq|]; [|done]. case_match; [intros E; by simplify_eq|].
    destruct q as [|q]; [intros E; by simplify_eq|].
    pose proof (drain_one_spec m g i Hg Hi Hl) as Hone.
    destruct (deferred_of g i); [rewrite Hone; intros E; by simplify_eq|].
    destruct (decide (0 < room g i)); [|rewrite Hone; intros E; by simplify_eq].
    destruct Hone as (g' & -> & _ & ((_ & _ & _ & _ & _ & Hgen & _) & _) & _). intros E. by simplify_eq.
  - destruct (mixed_queue_try_pop_batch (mixed g) FM_DISPATCH_BATCH) as [[xs q'] sd]. intros E. by simplify_eq.
  - destruct (route_packet p (Sys m g)) as [[ok [m1 g1]]|] eqn:Er; [|done]. intros E. simplify_eq.
    pose proof (wo_owns _ H) as Ho. pose proof (wo_mgr _ H) as Hg. wsimpl. rewrite owned_front in Ho.
    destruct (owns_cons _ _ _ Ho) as [(d & Hd & _) _].
    destruct (route_packet_spec m g p _ d Hg Ho Hd) as (? & ? & ? & ? & Er' & _ & (_ & _ & _ & _ & _ & Hgen & _) & _).
    rewrite Er' in Er. by simplify_eq.
  - destruct (mixed_queue_pop (mixed g) None) as [[[mst q'] cell]|]; [|done]. intros E.
    repeat case_match; by simplify_eq.
Qed.

Lemma dispatcher_step_knows pc m g pc' s' held waking wakes :
  safe (DSys (Sys m g) pc held waking wakes) -> knows (DSys (Sys m g) pc held waking wakes) ->
  dispatcher_step pc (Sys m g) = Some (Returns pc', s') -> knows (DSys s' pc' held waking wakes).
Proof.
  intros (pushed & taken & lost & H) Hk. cbn [d_sys d_pc d_held] in H.
  pose proof (wo_mgr _ H) as Hg. pose proof (fun i => pending_live _ i H) as Hl. wsimpl.
  unfold dispatcher_step. run_M. destruct pc as [|site active st e q b|b|[|p ps]| |seen| |].
  - intros E. simplify_eq. apply (knows_enter (Sys m g)); [done|]. case_match; auto.
  - destruct (drain_turn site active st e q b (Sys m g)) as [[pc1 s1]|] eqn:E1; [|done]. intros E. simplify_eq.
    destruct site as [|seen|].
    2: { destruct b; [|by eapply knows_turn]. revert E1. unfold drain_turn. run_M. intros E1.
         repeat case_match; by simplify_eq. }
    all: revert E1; unfold drain_turn; run_M; intros E1; repeat case_match; by simplify_eq.
  - destruct (mixed_queue_try_pop_batch (mixed g) FM_DISPATCH_BATCH) as [[xs q'] sd]. intros E. simplify_eq.
    assert (Hg' : mgr_ok (set_mixed q' g)) by (by apply mgr_ok_mixed).
    repeat case_match; try done; apply (knows_enter (Sys m (set_mixed q' g))); auto.
  - intros E. by simplify_eq.
  - destruct (route_packet p (Sys m g)) as [[ok s1]|]; [|done]. intros E. by simplify_eq.
  - intros E. simplify_eq. apply (knows_enter (Sys m g)); auto.
  - intros E. case_match; by simplify_eq.
  - pose proof (mq_pop_spec (mixed g) (wo_mixed _ H)) as Hs. wsimpl.
    destruct (mixed_queue_pop (mixed g) None) as [[[mst q'] cell]|]; [|done].
    destruct Hs as [(-> & x & -> & _)|(-> & -> & -> & _)]; intros E; simplify_eq; [done|].
    apply (knows_enter (Sys m (set_mixed (mixed g) g))); [by apply mgr_ok_mixed|auto].
  - intros E. by simplify_eq.
Qed.

Lemma take_knows m g i q' f pc held held' waking wakes :
  flows g !! i = Some f -> q_cap q' = q_cap (fc_queue f) -> q_shutdown q' = q_shutdown (fc_queue f) ->
  knows (DSys (Sys m g) pc held waking wakes) ->
  knows (DSys (Sys m (with_flow_queue i q' g)) pc held' (i :: waking) wakes).
Proof.
  intros Hf Hc Hs Hk. unfold with_flow_queue. rewrite Hf.
  eapply knows_mono; [exact Hk|done|done|done| |intros j Hj; left; set_solver|].
  - intros j Hr. cbn [d_waking d_mgr d_sys]. destruct (decide (j = i)) as [->|Hne]; [right; left|].
    left. rewrite <- Hr. unfold room, closed_of, cap_of, d_mgr; cbn [d_sys s_mgr flows set_flows].
    rewrite list_lookup_insert_ne by done. rewrite queue_of_insert by (by eapply lookup_lt_Some).
    by rewrite decide_False.
  - apply Z.le_refl.
Qed.

(** An empty batch leaves the queue as it is, and its worker has nothing to handle. *)
Lemma take_none_knows m g i q' f pc held held' waking wakes :
  flows g !! i = Some f -> q_cap q' = q_cap (fc_queue f) -> q_shutdown q' = q_shutdown (fc_queue f) ->
  q_items q' = q_items (fc_queue f) -> knows (DSys (Sys m g) pc held waking wakes) ->
  knows (DSys (Sys m (with_flow_queue i q' g)) pc held' waking wakes).
Proof.
  intros Hf Hc Hs Hi Hk. unfold with_flow_queue. rewrite Hf.
  eapply knows_mono; [exact Hk|done|done|done| |by auto|apply Z.le_refl].
  intros j Hr. left. rewrite <- Hr. unfold room, closed_of, cap_of, d_mgr; cbn [d_sys s_mgr flows set_flows].
  rewrite queue_of_insert by (by eapply lookup_lt_Some). unfold queue_of. case_decide as Ej.
  - subst j. rewrite list_lookup_insert_eq, Hf by (by eapply lookup_lt_Some). simpl. by rewrite Hi, Hc, Hs.
  - by rewrite list_lookup_insert_ne.
Qed.

Lemma wake_knows m g i w1 w2 pc held wakes :
  (Z.of_nat (wakes + bump g (flow_manager_dispatch_wake_if_deferred g i)) < 2 ^ 64)%Z ->
  mgr_ok g -> dispatch_wake_gen g = Z.of_nat wakes ->
  knows (DSys (Sys m g) pc held (w1 ++ i :: w2) wakes) ->
  let g' := flow_manager_dispatch_wake_if_deferred g i in
  dispatch_wake_gen g' = Z.of_nat (wakes + bump g g') /\
  knows (DSys (Sys m g') pc held (w1 ++ w2) (wakes + bump g g')).
Proof.
  intros Hb Hg Hgen Hk g'. destruct (wake_views g i) as (Ec & Ef & Ed & Em & _). fold g' in Ec, Ef, Ed, Em, Hb.
  assert (Hcase : (g' = g /\ deferred_of g i = []) \/ dispatch_wake_gen g' = u64 (Z.of_nat wakes + 1)).
  { unfold g', flow_manager_dispatch_wake_if_deferred, deferred_of.
    destruct ((length (deferred g) =? 0)%nat || (max_flows (config g) <=? i)%nat) eqn:E0.
    { left. split; [done|]. apply orb_prop in E0 as [E0%Nat.eqb_eq|E0%Nat.leb_le].
      - by rewrite lookup_ge_None_2 by lia.
      - rewrite lookup_ge_None_2; [done|]. by rewrite (mo_deferred _ Hg). }
    destruct (deferred g !! i) as [dq|] eqn:Edq; [|by left].
    destruct (Nat.eqb_spec (r_count dq) 0) as [Ez|Ez]; [left|right; by rewrite <- Hgen].
    split; [done|]. apply length_zero_iff_nil. by rewrite <- (dq_count _ _ (mo_ring _ Hg _ _ Edq)). }
  assert (Hgen' : dispatch_wake_gen g' = Z.of_nat (wakes + bump g g') /\
                  (deferred_of g i = [] \/ (dispatch_wake_gen g < dispatch_wake_gen g')%Z)).
  { destruct Hcase as [[-> Hd]|Hu].
    - unfold bump. rewrite Z.eqb_refl, Nat.add_0_r. auto.
    - assert (Hb1 : bump g g' <= 1) by (unfold bump; case_match; lia).
      assert (Hs : u64 (Z.of_nat wakes + 1) = (Z.of_nat wakes + 1)%Z \/ (Z.of_nat wakes + 1 = 2 ^ 64)%Z).
      { destruct (Z.eq_dec (Z.of_nat wakes + 1)%Z (2 ^ 64)%Z); [by right|left]. apply u64_small. unfold in_range. lia. }
      destruct Hs as [Hs|Hs].
      + assert (bump g g' = 1) as -> by (unfold bump; rewrite Hu, Hs, Hgen; destruct (Z.eqb_spec (Z.of_nat wakes + 1)%Z (Z.of_nat wakes)); lia).
        rewrite Hu, Hs, Hgen. split; [lia|right; lia].
      + exfalso. unfold bump in Hb. rewrite Hu, Hs, Hgen in Hb. change (u64 (2 ^ 64)) with 0%Z in Hb.
        destruct (Z.eqb_spec 0 (Z.of_nat wakes)); lia. }
  destruct Hgen' as [Hgen' Hd]. split; [done|].
  assert (Hdd : forall j, deferred_of g' j = deferred_of g j) by (intros j; unfold deferred_of; by rewrite Ed).
  eapply knows_mono; [exact Hk|done|exact Ec| | | |]; cbn [d_waking d_mgr d_sys s_mgr].
  - intros j. by rewrite Hdd.
  - intros j Hr. left. rewrite <- Hr. unfold room, closed_of, cap_of, queue_of. by rewrite Ef.
  - intros j Hj. destruct (decide (j = i)) as [->|Hne]; [|left; set_solver].
    right. rewrite Hdd. exact Hd.
  - unfold d_mgr; simpl. rewrite Hgen, Hgen'. lia.
Qed.

Lemma stop_room g i : mgr_ok g -> room (stop_request g) i = 0.
Proof.
  intros Hg. unfold room, closed_of. rewrite stop_lookup. destruct (flows g !! i) as [f|] eqn:E; [|done]. simpl.
  unfold flow_buffer_shutdown, pktq_shutdown. by rewrite (qo_live _ (mo_queue _ Hg _ _ E)).
Qed.

Lemma dstep_inv d d' : safe d -> wake_inv d -> dstep d d' -> wake_inv d'.
Proof.
  intros Hs Hw Hst Hlt.
  destruct Hst as [[m g] s' pc pc' held waking wakes Hd|m g g' pc held waking wakes p Ho Hp
    |m g f q' xs i pc held waking wakes Hf Ht|m g f q' p i idle waited pc held waking wakes Hf Ht
    |m g i w1 w2 pc held wakes|m m' g p h1 h2 pc waking wakes Hfr|m g pc held waking wakes];
    cbn [d_wakes] in Hlt.
  all: pose proof Hs as (pushed & taken & lost & H); pose proof (wo_mgr _ H) as Hg; wsimpl.
  - destruct (Hw Hlt) as [Hgen Hk]. split; [|by eapply dispatcher_step_knows].
    unfold d_mgr; cbn [d_sys]. rewrite (dispatcher_step_gen _ _ _ _ _ _ _ _ _ H Hd). exact Hgen.
  - destruct (Hw Hlt) as [Hgen Hk]. destruct (push_cases g g' p (wo_mixed _ H) Hp) as (q1 & -> & _).
    split; [exact Hgen|]. eapply knows_mono; [exact Hk| | | | | |]; auto. apply Z.le_refl.
  - destruct (Hw Hlt) as [Hgen Hk]. unfold wake_inv, d_mgr in *; cbn [d_sys s_mgr d_wakes] in *.
    destruct (dequeue_batch_refines (fc_queue f) FM_DISPATCH_BATCH (mo_queue _ Hg _ _ Hf)) as (q1 & E1 & _ & Hi & Hc & Hsh).
    unfold flow_buffer_try_dequeue_batch in Ht. rewrite E1 in Ht. simplify_eq.
    split; [unfold with_flow_queue; by rewrite Hf|]. destruct (Nat.ltb_spec 0 (length (Some <$> take FM_DISPATCH_BATCH (q_items (fc_queue f)))))
      as [_|Hn]; [by eapply take_knows|]. eapply take_none_knows; try done. rewrite Hi.
    rewrite length_fmap, length_take in Hn. unfold FM_DISPATCH_BATCH in *. destruct (q_items (fc_queue f)); [done|simpl in Hn; lia].
  - destruct (Hw Hlt) as [Hgen Hk]. unfold wake_inv, d_mgr in *; cbn [d_sys s_mgr d_wakes] in *.
    unfold flow_buffer_dequeue in Ht. rewrite dequeue_locked_spec in Ht.
    destruct (try_dequeue_cases (fc_queue f) (mo_queue _ Hg _ _ Hf))
      as [(_ & _ & E1)|[(_ & _ & E1)|(x & q1 & _ & E1 & _ & Hc & Hsh)]]; rewrite E1 in Ht; try done.
    simplify_eq. split; [unfold with_flow_queue; by rewrite Hf|by eapply take_knows].
  - destruct Hw as [Hgen Hk]; [cbn [d_wakes]; lia|]. unfold d_mgr in *; cbn [d_sys s_mgr d_wakes] in *.
    by apply wake_knows.
  - destruct (Hw Hlt) as [Hgen Hk]. split; [exact Hgen|].
    eapply knows_mono; [exact Hk| | | | | |]; auto. apply Z.le_refl.
  - destruct Hw as [Hgen Hk]; [cbn [d_wakes]; lia|]. unfold d_mgr in *; cbn [d_sys s_mgr d_wakes] in *.
    assert (Hg1 : dispatch_wake_gen (stop_request g) = (Z.of_nat wakes + 1)%Z).
    { unfold stop_request; simpl. rewrite Hgen. apply u64_small. unfold in_range. lia. }
    split; [etransitivity; [exact Hg1|simpl; lia]|].
    eapply knows_mono; [exact Hk| | | | | |]; auto; unfold d_mgr; cbn [d_sys s_mgr].
    + intros j _. left. by apply stop_room.
    + rewrite Hg1. cbn [d_sys s_mgr] in Hgen. lia.
Qed.

Lemma dstart_inv m g :
  fresh_manager g -> dispatch_wake_gen g = 0%Z -> safe (dstart m g) /\ wake_inv (dstart m g).
Proof.
  intros Hg H0. split; [|by intros _].
  exists [], [], []. by apply start_ok.
Qed.

Lemma dreach_inv m g d :
  fresh_manager g -> dispatch_wake_gen g = 0%Z -> rtc dstep (dstart m g) d -> safe d /\ wake_inv d.
Proof.
  intros Hg H0 Hr. assert (Hi : safe (dstart m g) /\ wake_inv (dstart m g)) by (by apply dstart_inv).
  induction Hr as [d|d1 d2 d3 Hst _ IH]; [done|]. destruct Hi as [Hs Hw]. apply IH.
  split; [by eapply dstep_safe|by eapply dstep_inv].
Qed.

(** ** A run that ends with the dispatcher waiting *)

Definition three_packets : mem :=
  mkMem 6 {[ 1 := [mkPacket 0 ts_zero 2 (Some (Ptr 0 0)) None None];
             3 := [mkPacket 0 ts_zero 1 (Some (Ptr 2 0)) None None];
             5 := [mkPacket 1 ts_zero 1 (Some (Ptr 4 0)) None None] ]}
        {[ 0 := [5; 6]%Z; 2 := [7]%Z; 4 := [8]%Z ]} ∅ ∅ [].

(** The dispatcher alone, until it has taken [n] steps or waits. *)
Fixpoint dispatcher_run (n : nat) (pc : dpc) (s : sys) : option (dpc * sys) :=
  match n with
  | O => Some (pc, s)
  | S n' =>
      match dispatcher_step pc s with
      | Some (Returns pc', s') => dispatcher_run n' pc' s'
      | Some (Blocks, s') => Some (pc, s')
      | None => None
      end
  end.

Lemma dispatcher_step_blocks pc s s' : dispatcher_step pc s = Some (Blocks, s') -> s' = s.
Proof.
  destruct s as [m g]. unfold dispatcher_step. run_M. intros E.
  destruct pc as [|site active st e q b|b|[|p ps]| |seen| |]; simplify_eq.
  - destruct (drain_turn site active st e q b (Sys m g)) as [[? ?]|]; by simplify_eq.
  - destruct (mixed_queue_try_pop_batch (mixed g) FM_DISPATCH_BATCH) as [[xs q'] sd]. by simplify_eq.
  - destruct (route_packet p (Sys m g)) as [[? ?]|]; by simplify_eq.
  - case_match; by simplify_eq.
  - repeat case_match; by simplify_eq.
Qed.

Lemma dispatcher_run_steps n pc s pc' s' held waking wakes :
  dispatcher_run n pc s = Some (pc', s') ->
  rtc dstep (DSys s pc held waking wakes) (DSys s' pc' held waking wakes).
Proof.
  revert pc s. induction n as [|n IH]; intros pc s E; simpl in E; [simplify_eq; apply rtc_refl|].
  destruct (dispatcher_step pc s) as [[[pc1|] s1]|] eqn:E1; [| |done].
  - eapply rtc_l; [by apply ds_dispatcher|]. by apply IH.
  - apply dispatcher_step_blocks in E1. simplify_eq. apply rtc_refl.
Qed.

(** Flow 0 gets two packets and its worker takes nothing: one fills the queue, one is deferred,
    the dispatcher waits; then a packet of flow 1 is pushed. *)
Lemma stalled_run :
  exists d, rtc dstep (dstart three_packets (s_mgr (sample_sys 0))) d /\
    d_pc d = DWait 0 /\ dispatcher_step (d_pc d) (d_sys d) = Some (Blocks, d_sys d) /\
    d_waking d = [] /\ d_wakes d = 0 /\ q_items (mixed (d_mgr d)) = [Ptr 5 0] /\
    flow_of (s_mem (d_sys d)) (Ptr 5 0) = Some 1 /\ queue_of (d_mgr d) 1 = [] /\ room (d_mgr d) 1 = 1 /\
    deferred_of (d_mgr d) 0 = [Ptr 3 0] /\ room (d_mgr d) 0 = 0.
Proof.
  eexists. split.
  { eapply rtc_l; [eapply (ds_push _ _ _ _ _ _ _ (Ptr 1 0)); [owns_now|vm_compute; reflexivity]|].
    eapply rtc_l; [eapply (ds_push _ _ _ _ _ _ _ (Ptr 3 0)); [owns_now|vm_compute; reflexivity]|].
    etransitivity; [eapply (dispatcher_run_steps 40); vm_compute; reflexivity|].
    eapply rtc_l; [eapply (ds_push _ _ _ _ _ _ _ (Ptr 5 0)); [owns_now|vm_compute; reflexivity]|].
    apply rtc_refl. }
  split_and!; vm_compute; reflexivity.
Qed.

(** ** Properties *)

(** C2: no wake-up of the dispatcher is lost.  Whenever the dispatcher waits for room (its wait
    condition holds) although a flow has deferred packets and a free slot, the worker of that
    flow has dequeued and is about to signal; this holds under every interleaving while fewer
    than 2^64 wake-ups have happened. *)
Theorem dispatcher_no_lost_wakeup m g d seen i :
  fresh_manager g -> dispatch_wake_gen g = 0%Z -> rtc dstep (dstart m g) d ->
  (Z.of_nat (d_wakes d) < 2 ^ 64)%Z ->
  d_pc d = DWait seen -> dispatcher_step (DWait seen) (d_sys d) = Some (Blocks, d_sys d) ->
  deferred_of (d_mgr d) i <> [] -> 0 < room (d_mgr d) i -> i ∈ d_waking d.
Proof.
  intros Hg H0 Hr Hlt Hpc Hb Hd Hroom. destruct (dreach_inv m g d Hg H0 Hr) as [_ Hw].
  destruct (Hw Hlt) as [_ Hk]. unfold knows in Hk. rewrite Hpc in Hk. destruct Hk as [_ Hk].
  destruct (Hk i) as [?|[?|[?|Hgen]]]; [done|lia|done|]. exfalso.
  unfold dispatcher_step in Hb. revert Hb. run_M. fold (d_mgr d).
  destruct (Z.eqb_spec (dispatch_wake_gen (d_mgr d)) seen); [lia|]. by rewrite andb_false_r.
Qed.

Lemma sample_gen : dispatch_wake_gen (s_mgr (sample_sys 0)) = 0%Z.
Proof. vm_compute. reflexivity. Qed.

(** The same run after the worker of flow 0 has dequeued and before it signals. *)
Lemma waking_run :
  exists d, rtc dstep (dstart three_packets (s_mgr (sample_sys 0))) d /\ d_pc d = DWait 0 /\
    dispatcher_step (DWait 0) (d_sys d) = Some (Blocks, d_sys d) /\ d_wakes d = 0 /\
    deferred_of (d_mgr d) 0 = [Ptr 3 0] /\ room (d_mgr d) 0 = 1.
Proof.
  eexists. split.
  { eapply rtc_l; [eapply (ds_push _ _ _ _ _ _ _ (Ptr 1 0)); [owns_now|vm_compute; reflexivity]|].
    eapply rtc_l; [eapply (ds_push _ _ _ _ _ _ _ (Ptr 3 0)); [owns_now|vm_compute; reflexivity]|].
    etransitivity; [eapply (dispatcher_run_steps 40); vm_compute; reflexivity|].
    eapply rtc_l; [eapply (ds_take _ _ _ _ _ 0); [reflexivity|vm_compute; reflexivity]|].
    apply rtc_refl. }
  split_and!; vm_compute; reflexivity.
Qed.

Lemma dispatcher_no_lost_wakeup_witness :
  exists d, rtc dstep (dstart three_packets (s_mgr (sample_sys 0))) d /\ 0 ∈ d_waking d.
Proof.
  destruct waking_run as (d & Hr & Hpc & Hb & Hw & Hd & Hroom). exists d. split; [exact Hr|].
  apply (dispatcher_no_lost_wakeup three_packets (s_mgr (sample_sys 0)) d 0 0).
  - apply sample_fresh.
  - exact sample_gen.
  - exact Hr.
  - rewrite Hw. simpl. lia.
  - exact Hpc.
  - exact Hb.
  - rewrite Hd. congruence.
  - rewrite Hroom. lia.
Defined.

(** one stalled flow stalls all.  The dispatcher waits for room in flow 0 on the wake
    condition only, which a push into the mixed queue does not signal: in this reachable state
    it is blocked, no worker is about to signal, and a packet for flow 1, whose queue is open
    and empty, sits in the mixed queue. *)
Theorem stalled_flow_blocks_others :
  exists d, rtc dstep (dstart three_packets (s_mgr (sample_sys 0))) d /\
    dispatcher_step (d_pc d) (d_sys d) = Some (Blocks, d_sys d) /\ d_waking d = [] /\
    q_items (mixed (d_mgr d)) = [Ptr 5 0] /\ flow_of (s_mem (d_sys d)) (Ptr 5 0) = Some 1 /\
    queue_of (d_mgr d) 1 = [] /\ room (d_mgr d) 1 = 1 /\ room (d_mgr d) 0 = 0.
Proof. destruct stalled_run as (d & Hd). exists d. by destruct_and! Hd. Qed.
